(* ===== verification/_CoqProject ===== *)
-Q . S2P
Prelude.v
Str.v
Device.v
Ata.v
Ps2.v
Idt.v
Tree.v
TuwaiqTree.v
Crc32.v
TuwaiqFs.v
Fs.v
FsPersist.v
Fat32.v
Vfs.v
VfsData.v
Wake.v
Input.v
Window.v
X86.v
Frames.v
Paging.v
PagingSpaces.v
PagingRange.v
PagingCopy.v
PagingSafety.v
Memory.v
Elf.v
Scheduler.v
SchedulerInv.v
OpenFiles.v
Process.v
Vm.v
Display.v
VmSafety.v
VmUnmap.v
TaskInv.v
TaskSafety.v
Syscall.v
SyscallSteps.v
SyscallUser.v
SyscallData.v
SyscallSafety.v
Interrupts.v
InterruptsSafety.v
Terminal.v
Console.v
ConsoleRefine.v
VgaText.v
Programs.v
Notes.v
ShellText.v
ShellEdit.v
ShellState.v
ShellFiles.v
ShellTasks.v
ShellMouse.v
ShellDesktop.v
ShellMain.v
ShellSteps.v
ShellVolume.v
ShellSafety.v
ShellExecute.v
ShellLoop.v
ShellForeground.v
Boot.v
Canvas.v
UserLib.v
Desktop.v
DesktopSteps.v
DesktopFrame.v
UserScript.v
DesktopRun.v
UserApp.v
FileManager.v
UserTerminal.v
UserTerminalRun.v
UserFiles.v
UserSafety.v
UserTests.v
UserTestsSafety.v
