(* ===== verification/Prelude.v ===== *)
(** TuwaiqOS: a verification of the kernel.

    TuwaiqOS is a small operating system in Rust: a kernel with preemptive
    tasks, user processes in address spaces of their own, a persistent
    filesystem with crash recovery, a mouse-driven desktop process and a shell.
    This library translates the kernel's code under src/kernel/src (and the
    programs under src/userland) into Rocq
    functions and proves what the parts promise, and that they keep those
    promises together.

    ** How the code becomes definitions

    Pure functions are functions. A function on a static or a [&mut self] takes
    the state and returns it. A [Result] is [result] (this file), with the
    error's text; code that may panic returns [option], [None] being the panic.
    [M S A] is the monad of state and [Result]; [wp] and the lemmas on it are
    its calculus. Machine integers are [Z] with the wrap-around, the saturation
    or the check written out. Bytes are [Byte.byte], text is [list byte].
    Code that is not under src/ is a parameter, a type class with its laws
    ([BlockDevice], [X86_64], [BootMap], [Ports], [TextConsole]'s instances aside), and
    every class has an executable instance that the witnesses run on.

    ** The files, the code they model, and what they show

    Storage. Crc32, TuwaiqTree and TuwaiqFs are tuwaiqfs.rs: the checksum, the
    metadata format (round trip, well-formedness of what is accepted) and the
    two-slot checkpoint store on a device that may fail at any write (crash
    recovery, commits, the legacy migration). Tree and Fs are the
    in-memory tree of fs.rs against an abstract map from paths to nodes;
    FsPersist is its persistence and the writer guard with interleaved threads
    (acknowledged mutations survive a restart, writers serialize). Fat32 is
    fat32.rs (only sectors of the partition are read, chains are followed). Vfs
    and VfsData are vfs.rs: normalization as a stack of components, mounts by
    longest prefix, mutations that keep the volume in step with the tree, the
    self-test. Device is the block device, Ata the disk driver of ata.rs that
    implements it on a controller with the ports of the ATA standard, Str the
    strings and paths.

    Memory and processes. X86 is what the x86_64 crate and the processor do;
    Frames the frame allocator; Paging, PagingSpaces, PagingRange, PagingCopy
    and PagingSafety are paging.rs (frames have one owner, address
    spaces are isolated, user copies are exact); Elf is elf.rs (the image that
    is mapped is the image of the file). Scheduler and SchedulerInv, Wake,
    Process, OpenFiles, Vm, VmSafety and VmUnmap are task.rs: the task table
    and the scheduler, spawning, the open files, mmap and munmap. TaskInv
    and TaskSafety run any sequence of kernel events from boot: no
    panic, the invariant of the table, and the progress of ready tasks.

    Devices. Input is keyboard.rs, input.rs and mouse.rs (who gets input, the
    bounded queue, the packets); Display is display.rs; Window the desktop's
    window manager. Terminal is the abstract text screen, and the interface of
    a console; Console and ConsoleRefine show that framebuffer_console.rs
    implements it pixel for pixel, VgaText that vga_buffer.rs does.

    System calls. Syscall is syscall.rs. SyscallSteps shows each call to be a
    few kernel events, SyscallUser and SyscallData what calls do to user memory
    and to the volume, SyscallSafety puts this together: no call panics, calls
    confine their mutations, a range that is not the caller's is refused before
    anything changes, and what read, poll and present deliver. SyscallUser also
    has mmap and munmap as the process sees them.

    The whole machine. Interrupts is the [World] of all statics and the
    handlers of interrupts.rs; InterruptsSafety shows that any sequence of
    interrupts, faults of programs and system calls keeps kernel, devices and
    volume in order together, and that a fault ends only its process.

    The shell. ShellText, ShellEdit, Programs and Notes are the pure parts, the
    line editor, the built-in programs with the loopback network, and the
    notes. ShellState is the machine, console and network a command works on,
    with the effects commands are made of; ShellFiles, ShellTasks, ShellMouse
    and ShellDesktop are the handlers, ShellMain the table of commands,
    [execute_command] and the loop of [run]. ShellSteps is the calculus in
    which ShellVolume and ShellSafety follow every handler; ShellExecute and
    ShellLoop conclude that no line and no key breaks the system;
    ShellForeground is the hand-over to a foreground program.

    The user programs (userland/hello). Canvas is gfx.rs and font.rs: each
    drawing call sets exactly the visible pixels of a layer. UserLib is lib.rs
    and sys.rs: programs as computations that return, exit or panic, over the
    interface [Ring3Spec] of the kernel, which UserScript implements. Desktop
    and DesktopSteps are the handlers of bin/desktop/main.rs against a model of
    what the user sees; DesktopFrame is its drawing against the picture of that
    model; DesktopRun concludes that the screen is always up to date. UserApp
    is the loop that the programs with a window share, and its rule: when the
    program waits, the display shows the picture of its state. FileManager and
    UserTerminal are file_manager.rs and terminal.rs with that picture, and
    UserTerminalRun follows the terminal's commands against a model of the
    session. UserFiles is the calculus of the system calls a program makes, on
    a kernel that stores files or records the calls; UserSafety has what the
    programs may write, and that the terminal reads back what it wrote.
    UserTests has the small programs and the test programs as processes of the
    kernel model; UserTestsSafety runs the repository's tests, and shows that
    those that attack the kernel end as they are meant to on every machine.

    Boot. Device has port I/O and the record of a driver's accesses. Ps2 is the
    set-up of the mouse in mouse.rs (bounded, and true to the protocol of the
    controller), Idt the gates, interrupt lines and timer of gdt.rs and
    interrupts.rs (what is let through is served), Memory the kernel heap of
    memory.rs on fresh frames. Boot is [kernel_main]: it ends in a session from
    which the theorems on the shell and on the whole machine start.

    ** Bounds and fuel

    Recursion that is not structural carries fuel, and the theorems say that it
    is enough: paths are at most 120 bytes and trees at most 1,024 records; a
    FAT chain is followed for as many clusters as a file of the limit has; page
    table walks have four levels; a yield uses up one of the listed turns, so a
    loop of yields ends or waits. Task identifiers are 32 bits and are taken
    from a counter that wraps: the theorems on runs assume that they do not run
    out, two for each step ([world_ok], [line_cost]).

    ** Not modelled

    - Failing allocations of kernel memory: [try_reserve] and the like succeed.
      The free list of the heap is a parameter where the shell reports on it.
    - Interrupt masking and locks: an operation that the code runs with
      interrupts masked is one step. Interrupts that arrive while the kernel
      works for a task are taken to arrive at its next yield; batches of mmap,
      munmap and present are back to back.
    - Assembly: the context switch, the entry of system calls and of user mode
      (usermode.rs), the segment descriptors of gdt.rs; the serial port and the
      messages on it; time stamps inside a batch and telemetry built on them.
      Devices behind ports are parameters: the disk controller with the laws of
      the ATA standard ([AtaController]), the controller of keyboard and mouse
      and the timer without any ([Ports]), the interrupt controllers with the
      laws of the pic8259 crate ([ChainedPics]).
    - The translation caches, and page tables as bytes in the memory they
      describe: tables and data frames are separate stores.
    - A task that was killed while it ran does not resume; sharing by [Arc] is
      by value, as the shared data is never changed.
    - The desktop, the file manager and the terminal run on any kernel that
      keeps [Ring3Spec]; that the kernel of this library does is not shown as
      one theorem, but call by call (SyscallSafety), and the small programs run
      on the kernel itself (UserTests). There a literal is in memory when it is
      used, and what other tasks do meanwhile is a parameter.
    - The build script. *)

From coqutil Require Export Byte.
From coqutil Require Export Word.LittleEndianList.
From Stdlib Require Export Lia ZArith.
From stdpp Require Export base tactics numbers option strings gmap list_numbers list.

#[export] Set Default Goal Selector "!".
Open Scope Z_scope.

Declare Scope os_scope.
Delimit Scope os_scope with os.

(** ** Decidability of bytes *)

#[global] Instance byte_eq_decision : EqDecision byte := Byte.byte_eq_dec.

#[global] Instance byte_inhabited : Inhabited byte := populate Byte.x00.

(** Rust strings and byte slices are both lists of bytes; [bs] writes an ASCII
    literal as its bytes. *)
Abbreviation str := (list byte) (only parsing).
Abbreviation bs := String.list_byte_of_string.

(** ** Results: [Result<A, &'static str>] *)

Inductive result (A : Type) : Type :=
| Ok (a : A)
| Err (reason : string).
Arguments Ok {A} a.
Arguments Err {A} reason.

#[global] Instance result_ret : MRet result := @Ok.
#[global] Instance result_bind : MBind result := λ A B f r,
  match r with Ok a => f a | Err e => Err e end.
#[global] Instance result_fmap : FMap result := λ A B f r,
  match r with Ok a => Ok (f a) | Err e => Err e end.

#[global] Instance result_eq_decision {A} `{EqDecision A} : EqDecision (result A).
Proof. solve_decision. Defined.

(** [if !cond { return Err(reason) }] *)
Definition ensure (cond : bool) (reason : string) : result unit :=
  if cond then Ok tt else Err reason.

(** [Option::ok_or] *)
Definition ok_or {A} (o : option A) (reason : string) : result A :=
  match o with Some a => Ok a | None => Err reason end.

(** [Result::is_ok] and [Result::is_err] *)
Definition is_ok {A} (r : result A) : bool := match r with Ok _ => true | Err _ => false end.
Definition is_err {A} (r : result A) : bool := negb (is_ok r).

(** ** State and errors: a Rust function on [&mut self] that may fail keeps
    the state changes made before the failure. *)

Definition M (S A : Type) : Type := S → result A * S.

#[global] Instance M_ret {S} : MRet (M S) := λ A a s, (Ok a, s).
#[global] Instance M_bind {S} : MBind (M S) := λ A B f m s,
  match m s with
  | (Ok a, s') => f a s'
  | (Err e, s') => (Err e, s')
  end.

Definition mthrow {S A} (reason : string) : M S A := λ s, (Err reason, s).
Definition mlift {S A} (r : result A) : M S A := λ s, (r, s).
Definition mget {S} : M S S := λ s, (Ok s, s).
Definition mput {S} (s : S) : M S unit := λ _, (Ok tt, s).
Definition mmodify {S} (f : S → S) : M S unit := λ s, (Ok tt, f s).
Definition mensure {S} (cond : bool) (reason : string) : M S unit := mlift (ensure cond reason).
(** Keep the result of a call instead of propagating it with [?]. *)
Definition mtry {S A} (m : M S A) : M S (result A) := λ s, let '(r, s') := m s in (Ok r, s').

(** Weakest precondition of a computation for a normal and an error exit. *)
Definition wp {S A} (m : M S A) (Q : A → S → Prop) (E : string → S → Prop) (s : S) : Prop :=
  match m s with (Ok a, s') => Q a s' | (Err e, s') => E e s' end.

(** ** Machine integers *)

Definition u8_max : Z := 2 ^ 8 - 1.
Definition u16_max : Z := 2 ^ 16 - 1.
Definition u32_max : Z := 2 ^ 32 - 1.
Definition u64_max : Z := 2 ^ 64 - 1.
Definition i16_min : Z := - 2 ^ 15.
Definition i16_max : Z := 2 ^ 15 - 1.
Definition i32_min : Z := - 2 ^ 31.
Definition i32_max : Z := 2 ^ 31 - 1.

Definition is_u8 (z : Z) : Prop := 0 <= z <= u8_max.
Definition is_u16 (z : Z) : Prop := 0 <= z <= u16_max.
Definition is_u32 (z : Z) : Prop := 0 <= z <= u32_max.
Definition is_u64 (z : Z) : Prop := 0 <= z <= u64_max.
Definition is_i16 (z : Z) : Prop := i16_min <= z <= i16_max.
Definition is_i32 (z : Z) : Prop := i32_min <= z <= i32_max.

(** [checked_add], [checked_sub], [checked_mul] at a width given by its maximum *)
Definition checked_add (umax a b : Z) : option Z := if a + b <=? umax then Some (a + b) else None.
Definition checked_sub (a b : Z) : option Z := if b <=? a then Some (a - b) else None.
Definition checked_mul (umax a b : Z) : option Z := if a * b <=? umax then Some (a * b) else None.
(** [saturating_sub] on unsigned integers, [saturating_add] on [i32] *)
Definition saturating_sub (a b : Z) : Z := Z.max 0 (a - b).
Definition saturating_add_i32 (a b : Z) : Z := Z.max i32_min (Z.min i32_max (a + b)).
Definition saturating_add_u (umax a b : Z) : Z := Z.min umax (a + b).
Definition clamp (lo hi z : Z) : Z := Z.max lo (Z.min hi z).
(** [fetch_add] on an unsigned atomic wraps *)
Definition wrapping_add (umax a b : Z) : Z := (a + b) mod (umax + 1).

(** ** Slices *)

Definition zlen {A} (l : list A) : Z := Z.of_nat (length l).

(** [&l[from..to]] with natural bounds *)
Definition slice {A} (l : list A) (from to : nat) : list A := take (to - from) (drop from l).

(** [u32::from_le_bytes] and the like *)
Abbreviation le_decode := LittleEndianList.le_combine.
Abbreviation le_encode := LittleEndianList.le_split.

Definition b2z (b : byte) : Z := byte.unsigned b.
Definition z2b (z : Z) : byte := byte.of_Z z.

Definition zero_sector : list byte := replicate 512 Byte.x00.

(** Copy [src] over [dst] from index [off] on, [dst[off..off+src.len()].copy_from_slice(src)] *)
Definition copy_at {A} (off : nat) (src dst : list A) : list A :=
  take off dst ++ src ++ drop (off + length src) dst.

(** ** Tactics *)

(** Invert equalities between results, options and pairs. *)
Ltac simplify_res :=
  repeat match goal with
  | H : Ok _ = Ok _ |- _ => injection H as H
  | H : Err _ = Err _ |- _ => injection H as H
  | H : Ok _ = Err _ |- _ => discriminate H
  | H : Err _ = Ok _ |- _ => discriminate H
  | H : (_, _) = (_, _) |- _ => injection H as ??
  | H : Some _ = Some _ |- _ => injection H as H
  | H : Some _ = None |- _ => discriminate H
  | H : None = Some _ |- _ => discriminate H
  | _ => progress (subst; cbn in * )
  end.

(** Turn boolean hypotheses into propositions. *)
Ltac bool_hyps :=
  repeat match goal with
  | H : _ && _ = true |- _ => apply andb_true_iff in H as [??]
  | H : _ || _ = false |- _ => apply orb_false_iff in H as [??]
  | H : negb _ = true |- _ => apply negb_true_iff in H
  | H : negb _ = false |- _ => apply negb_false_iff in H
  | H : (_ <=? _) = true |- _ => apply Z.leb_le in H
  | H : (_ <=? _) = false |- _ => apply Z.leb_gt in H
  | H : (_ <? _) = true |- _ => apply Z.ltb_lt in H
  | H : (_ <? _) = false |- _ => apply Z.ltb_ge in H
  | H : (_ =? _) = true |- _ => apply Z.eqb_eq in H
  | H : (_ =? _) = false |- _ => apply Z.eqb_neq in H
  | H : bool_decide _ = true |- _ => apply bool_decide_eq_true in H
  | H : bool_decide _ = false |- _ => apply bool_decide_eq_false in H
  end.

(** Case analysis on the innermost scrutinee of the goal. *)
Ltac case_goal :=
  match goal with
  | |- context [match ?x with _ => _ end] =>
      lazymatch x with context [match _ with _ => _ end] => fail | _ => destruct x eqn:? end
  end.

Create HintDb os discriminated.
Create Rewrite HintDb zlen.

(** ** Lemmas on results and the monad *)

Lemma bind_Ok {A B} (r : result A) (f : A → result B) b :
  (r ≫= f) = Ok b ↔ ∃ a, r = Ok a ∧ f a = Ok b.
Proof. destruct r; naive_solver. Qed.

Lemma ensure_Ok cond reason : ensure cond reason = Ok tt ↔ cond = true.
Proof. unfold ensure. destruct cond; naive_solver. Qed.

Lemma ensure_bind_Ok {B} cond reason (k : unit → result B) b :
  (ensure cond reason ≫= k) = Ok b ↔ cond = true ∧ k tt = Ok b.
Proof. unfold ensure. destruct cond; naive_solver. Qed.

Lemma ok_or_Ok {A} (o : option A) reason a : ok_or o reason = Ok a ↔ o = Some a.
Proof. destruct o; naive_solver. Qed.

Section wp.
Context {S A : Type}.
Implicit Types (m : M S A) (Q : A → S → Prop) (E : string → S → Prop) (s : S).

Lemma wp_ret (a : A) Q E s : Q a s → wp (mret a) Q E s.
Proof. done. Qed.

Lemma wp_throw reason Q E s : E reason s → wp (@mthrow S A reason) Q E s.
Proof. done. Qed.

Lemma wp_lift (r : result A) Q E s :
  match r with Ok a => Q a s | Err e => E e s end → wp (mlift r) Q E s.
Proof. unfold wp, mlift. by destruct r. Qed.

Lemma wp_mono m Q Q' E E' s :
  wp m Q E s → (∀ a s', Q a s' → Q' a s') → (∀ e s', E e s' → E' e s') → wp m Q' E' s.
Proof. unfold wp. destruct (m s) as [[a|e] s']; eauto. Qed.

Lemma wp_and m Q Q' E E' s :
  wp m Q E s → wp m Q' E' s → wp m (λ a s', Q a s' ∧ Q' a s') (λ e s', E e s' ∧ E' e s') s.
Proof. unfold wp. by destruct (m s) as [[a|e] s']. Qed.

Lemma wp_Ok m Q s : wp m Q (λ _ _, False) s → ∃ a s', m s = (Ok a, s') ∧ Q a s'.
Proof. unfold wp. destruct (m s) as [[a|e] s']; [eauto|done]. Qed.

Lemma wp_Err m E s : wp m (λ _ _, False) E s → ∃ e s', m s = (Err e, s') ∧ E e s'.
Proof. unfold wp. destruct (m s) as [[a|e] s']; [done|eauto]. Qed.

Lemma wp_try m (Q : result A → S → Prop) E s :
  wp m (λ a s', Q (Ok a) s') (λ e s', Q (Err e) s') s → wp (mtry m) Q E s.
Proof. unfold wp, mtry. by destruct (m s) as [[a|e] s']. Qed.
End wp.

Lemma wp_bind {S A B} (m : M S A) (f : A → M S B) Q E s :
  wp m (λ a s', wp (f a) Q E s') E s → wp (m ≫= f) Q E s.
Proof. unfold wp, mbind, M_bind. by destruct (m s) as [[a|e] s']. Qed.

Lemma wp_get {S} (Q : S → S → Prop) E s : Q s s → wp mget Q E s.
Proof. done. Qed.

Lemma wp_put {S} (t : S) (Q : unit → S → Prop) E s : Q tt t → wp (mput t) Q E s.
Proof. done. Qed.

Lemma wp_modify {S} (f : S → S) (Q : unit → S → Prop) E s : Q tt (f s) → wp (mmodify f) Q E s.
Proof. done. Qed.

Lemma wp_ensure {S} cond reason (Q : unit → S → Prop) E s :
  (cond = true → Q tt s) → (cond = false → E reason s) → wp (mensure cond reason) Q E s.
Proof. unfold wp, mensure, mlift, ensure. destruct cond; auto. Qed.

(** Run one primitive step of a computation in a [wp] goal. *)
Ltac wp_step :=
  match goal with
  | |- wp (_ ≫= _) _ _ _ => apply wp_bind
  | |- wp (mret _) _ _ _ => apply wp_ret
  | |- wp mget _ _ _ => apply wp_get
  | |- wp (mput _) _ _ _ => apply wp_put
  | |- wp (mmodify _) _ _ _ => apply wp_modify
  | |- wp (mthrow _) _ _ _ => apply wp_throw
  | |- wp (mlift _) _ _ _ => apply wp_lift
  | |- wp (mtry _) _ _ _ => apply wp_try
  | |- wp (mensure _ _) _ _ _ => apply wp_ensure; intros
  end.

(** ** Lemmas on slices and lengths *)

Lemma zlen_nonneg {A} (l : list A) : 0 <= zlen l.
Proof. unfold zlen. lia. Qed.

Lemma zlen_nil {A} : zlen (@nil A) = 0.
Proof. done. Qed.

Lemma zlen_cons {A} (x : A) l : zlen (x :: l) = 1 + zlen l.
Proof. unfold zlen. simpl. lia. Qed.

Lemma zlen_app {A} (l k : list A) : zlen (l ++ k) = zlen l + zlen k.
Proof. unfold zlen. rewrite length_app. lia. Qed.

Lemma zlen_map {A B} (f : A → B) l : zlen (f <$> l) = zlen l.
Proof. unfold zlen. by rewrite length_fmap. Qed.

Lemma zlen_0_inv {A} (l : list A) : zlen l = 0 → l = [].
Proof. unfold zlen. destruct l; [done|simpl; lia]. Qed.

#[export] Hint Rewrite @zlen_nil @zlen_cons @zlen_app @zlen_map : zlen.
#[export] Hint Resolve zlen_nonneg : os.

Lemma slice_length {A} (l : list A) i j :
  (i ≤ j)%nat → (j ≤ length l)%nat → length (slice l i j) = (j - i)%nat.
Proof. intros. unfold slice. rewrite length_take, length_drop. lia. Qed.

Lemma slice_full {A} (l : list A) : slice l 0 (length l) = l.
Proof. unfold slice. rewrite drop_0, Nat.sub_0_r. by apply take_ge. Qed.

Lemma slice_app_l {A} (l k : list A) i j :
  (j ≤ length l)%nat → slice (l ++ k) i j = slice l i j.
Proof.
  intros Hj. unfold slice. destruct (decide (i ≤ length l)%nat) as [Hi|Hi].
  - rewrite drop_app_le by lia. rewrite take_app_le; [done|]. rewrite length_drop. lia.
  - replace (j - i)%nat with 0%nat by lia. done.
Qed.

Lemma slice_app_r {A} (l k : list A) i j :
  i = length l → j = (length l + length k)%nat → slice (l ++ k) i j = k.
Proof.
  intros -> ->. unfold slice. rewrite drop_app_length. rewrite take_ge; [done|lia].
Qed.

Lemma slice_app_shift {A} (l k : list A) i j :
  (length l ≤ i)%nat → slice (l ++ k) i j = slice k (i - length l) (j - length l).
Proof.
  intros Hi. unfold slice. rewrite drop_app_ge by done. f_equal. lia.
Qed.

Lemma length_copy_at {A} off (src dst : list A) :
  (off + length src ≤ length dst)%nat → length (copy_at off src dst) = length dst.
Proof.
  intros. unfold copy_at. rewrite !length_app, length_take, length_drop. lia.
Qed.

Lemma length_zero_sector : length zero_sector = 512%nat.
Proof. apply length_replicate. Qed.

Lemma length_le_encode n z : length (le_encode n z) = n.
Proof. apply LittleEndianList.length_le_split. Qed.

Lemma slice_copy_at {A} off (src dst : list A) j :
  (off + length src ≤ length dst)%nat → j = (off + length src)%nat → slice (copy_at off src dst) off j = src.
Proof.
  intros ? ->. unfold copy_at. rewrite slice_app_shift; rewrite length_take; [|lia].
  rewrite slice_app_l by lia. replace (off - _ `min` _)%nat with 0%nat by lia.
  rewrite <- (slice_full src) at 3. f_equal. lia.
Qed.

Lemma slice_copy_at_before {A} off (src dst : list A) i j :
  (j ≤ off)%nat → (off ≤ length dst)%nat → slice (copy_at off src dst) i j = slice dst i j.
Proof.
  intros Hj Hoff. unfold copy_at. rewrite slice_app_l by (rewrite length_take; lia).
  trans (slice (take off dst ++ drop off dst) i j); [|by rewrite take_drop].
  symmetry. apply slice_app_l. rewrite length_take. lia.
Qed.

Lemma slice_copy_at_after {A} off (src dst : list A) i j :
  (off + length src ≤ i)%nat → (off + length src ≤ length dst)%nat →
  slice (copy_at off src dst) i j = slice dst i j.
Proof.
  intros Hi Hoff. unfold copy_at.
  rewrite slice_app_shift; rewrite length_take; [|lia].
  rewrite slice_app_shift; [|lia].
  trans (slice (take (off + length src) dst ++ drop (off + length src) dst) i j);
    [|by rewrite take_drop].
  rewrite slice_app_shift; rewrite length_take; [|lia]. f_equal; lia.
Qed.

Lemma copy_at_nil {A} off (dst : list A) : copy_at off [] dst = dst.
Proof. unfold copy_at. simpl. rewrite Nat.add_0_r. apply take_drop. Qed.

Lemma copy_at_cons {A} off (x : A) src dst :
  (off < length dst)%nat → copy_at off (x :: src) dst = copy_at (S off) src (<[off := x]> dst).
Proof.
  intros Hoff. unfold copy_at. rewrite (take_S_r _ off x) by (by apply list_lookup_insert_eq).
  rewrite take_insert_ge by done. rewrite <- app_assoc. simpl. do 2 f_equal.
  rewrite drop_insert_lt by lia. f_equal. f_equal. lia.
Qed.

Lemma slice_copy_at_inside {A} off (src dst : list A) i j :
  (off ≤ i)%nat → (j ≤ off + length src)%nat → (off + length src ≤ length dst)%nat →
  slice (copy_at off src dst) i j = slice src (i - off) (j - off).
Proof.
  intros Hi Hj Hoff. unfold copy_at. rewrite slice_app_shift; rewrite length_take; [|lia].
  rewrite slice_app_l by lia. f_equal; lia.
Qed.

Lemma slice_slice {A} (l : list A) a b i j :
  (a + j ≤ b)%nat → slice (slice l a b) i j = slice l (a + i) (a + j).
Proof.
  intros Hj. unfold slice. rewrite skipn_firstn_comm, drop_drop, firstn_firstn. f_equal. lia.
Qed.

Lemma slice_replicate {A} (x : A) n i j :
  (i ≤ j)%nat → (j ≤ n)%nat → slice (replicate n x) i j = replicate (j - i) x.
Proof. intros. unfold slice. rewrite drop_replicate, take_replicate. f_equal. lia. Qed.

(** Compute the length of a record assembled by successive [copy_at]s. *)
Ltac solve_len :=
  repeat first [ rewrite length_copy_at by solve_len | rewrite length_le_encode | rewrite length_zero_sector ];
  simpl; lia.

(** Read one field of such a record. *)
Ltac fields :=
  repeat first
    [ rewrite slice_copy_at by solve_len
    | rewrite slice_copy_at_before by solve_len
    | rewrite slice_copy_at_after by solve_len ].

(** ** Lemmas on machine integers and bytes *)

Lemma checked_add_Some umax a b c : checked_add umax a b = Some c ↔ c = a + b ∧ a + b <= umax.
Proof. unfold checked_add. destruct (Z.leb_spec (a + b) umax); naive_solver lia. Qed.

Lemma checked_sub_Some a b c : checked_sub a b = Some c ↔ c = a - b ∧ b <= a.
Proof. unfold checked_sub. destruct (Z.leb_spec b a); naive_solver lia. Qed.

Lemma checked_mul_Some umax a b c : checked_mul umax a b = Some c ↔ c = a * b ∧ a * b <= umax.
Proof. unfold checked_mul. destruct (Z.leb_spec (a * b) umax); naive_solver lia. Qed.

Lemma clamp_range lo hi z : lo <= hi → lo <= clamp lo hi z <= hi.
Proof. unfold clamp. lia. Qed.

Lemma clamp_id lo hi z : lo <= z <= hi → clamp lo hi z = z.
Proof. unfold clamp. lia. Qed.

Lemma b2z_range b : 0 <= b2z b < 256.
Proof. apply byte.unsigned_range. Qed.
#[export] Hint Resolve b2z_range : os.

Lemma b2z_inj b c : b2z b = b2z c → b = c.
Proof. apply byte.unsigned_inj. Qed.

Lemma b2z_z2b z : b2z (z2b z) = z mod 256.
Proof. apply byte.unsigned_of_Z. Qed.

Lemma z2b_b2z b : z2b (b2z b) = b.
Proof. apply byte.of_Z_unsigned. Qed.

Lemma b2z_z2b_small z : 0 <= z < 256 → b2z (z2b z) = z.
Proof. intros. rewrite b2z_z2b. by apply Z.mod_small. Qed.

Lemma le_decode_encode n z :
  0 <= z < 2 ^ (Z.of_nat n * 8) → le_decode (le_encode n z) = z.
Proof. intros. rewrite LittleEndianList.le_combine_split. by apply Z.mod_small. Qed.

Lemma le_encode_decode l : le_encode (length l) (le_decode l) = l.
Proof. apply LittleEndianList.split_le_combine. Qed.

Lemma le_decode_range l : 0 <= le_decode l < 2 ^ (8 * zlen l).
Proof. apply LittleEndianList.le_combine_bound. Qed.

Lemma le_decode_slice l i j n : (j - i ≤ n)%nat → 0 <= le_decode (slice l i j) < 2 ^ (8 * Z.of_nat n).
Proof.
  intros Hn. pose proof (le_decode_range (slice l i j)) as [Hl Hu]. split; [done|].
  eapply Z.lt_le_trans; [exact Hu|]. apply Z.pow_le_mono_r; [lia|].
  unfold zlen, slice. rewrite length_take. lia.
Qed.

#[export] Hint Rewrite length_le_encode : zlen.

(** ** Lemmas on lists *)

Lemma filter_all {A} (P : A → Prop) `{∀ x, Decision (P x)} (l : list A) :
  Forall P l → filter P l = l.
Proof. induction 1; [done|]. rewrite filter_cons_True by done. by f_equal. Qed.

Lemma elem_of_insert_inv {A} (x y : A) (i : nat) (l : list A) : x ∈ <[i := y]> l → x ∈ l ∨ x = y.
Proof.
  revert i. induction l as [|z l IH]; intros [|i]; simpl; [auto..|]; rewrite !elem_of_cons; [tauto|].
  intros [->|Hx%IH]; tauto.
Qed.

(** ** Counted loops that may stop *)

(** [for i in from..from + n { body }] *)
Fixpoint for_loop {S} (n : nat) (from : Z) (body : Z → S → option S) (s : S) : option S :=
  match n with
  | O => Some s
  | Datatypes.S n => s ← body from s; for_loop n (from + 1) body s
  end.

Lemma for_loop_inv {S} (I : Z → S → Prop) n from body s :
  I from s →
  (∀ i s, from <= i < from + Z.of_nat n → I i s → ∃ s', body i s = Some s' ∧ I (i + 1) s') →
  ∃ s', for_loop n from body s = Some s' ∧ I (from + Z.of_nat n) s'.
Proof.
  revert from s. induction n as [|n IH]; intros from s Hs Hstep.
  { exists s. rewrite Z.add_0_r. done. }
  destruct (Hstep from s) as (s1 & Hb & Hs1); [lia|done|]. simpl. rewrite Hb. simpl.
  destruct (IH (from + 1) s1 Hs1) as (s2 & Hl & Hs2).
  { intros i s' Hi. apply Hstep. lia. }
  exists s2. split; [done|]. by replace (from + Z.of_nat (Datatypes.S n)) with (from + 1 + Z.of_nat n) by lia.
Qed.

(** ** Byte buffers *)

(** [buffer[index] = value] *)
Definition store_byte (index : Z) (value : Z) (buffer : list byte) : option (list byte) :=
  if (0 <=? index) && (index <? zlen buffer) then Some (<[Z.to_nat index := z2b value]> buffer) else None.

Lemma store_byte_Some index v buffer :
  0 <= index < zlen buffer → store_byte index v buffer = Some (<[Z.to_nat index := z2b v]> buffer).
Proof. intros. unfold store_byte. by rewrite (proj2 (Z.leb_le 0 index)), (proj2 (Z.ltb_lt index _)) by lia. Qed.

Lemma zlen_insert {A} i (x : A) l : zlen (<[i := x]> l) = zlen l.
Proof. unfold zlen. by rewrite length_insert. Qed.

Lemma existsb_seqZ (f : Z → bool) n b :
  (b = true ↔ ∃ i, 0 <= i < n ∧ f i = true) → existsb f (seqZ 0 n) = b.
Proof.
  intros H. apply eq_true_iff_eq. rewrite existsb_exists, H. split; intros (i & Hi & Hf); exists i.
  - split; [|done]. apply list_elem_of_In, elem_of_seqZ in Hi. lia.
  - split; [|done]. apply list_elem_of_In, elem_of_seqZ. lia.
Qed.

(** ** Extensional equality of computations *)

Lemma M_bind_ext {St A B} (m m' : M St A) (f f' : A → M St B) s :
  (∀ s, m s = m' s) → (∀ a s, f a s = f' a s) → (m ≫= f) s = (m' ≫= f') s.
Proof. intros Hm Hf. unfold mbind, M_bind. rewrite Hm. by destruct (m' s) as [[a|e] t]. Qed.

(** As above when the continuation only matters on the results of [m]. *)
Lemma M_bind_ext_on {St A B} (P : A → Prop) (m m' : M St A) (f f' : A → M St B) s :
  (∀ s, m s = m' s) → (∀ s a t, m s = (Ok a, t) → P a) → (∀ a s, P a → f a s = f' a s) →
  (m ≫= f) s = (m' ≫= f') s.
Proof.
  intros Hm HP Hf. unfold mbind, M_bind. rewrite <- Hm. destruct (m s) as [[a|e] t] eqn:E; [|done].
  apply Hf. by eapply HP.
Qed.

(** Inversion of a successful run. *)
Lemma M_bind_Ok {St A B} (m : M St A) (f : A → M St B) s b t :
  (m ≫= f) s = (Ok b, t) ↔ ∃ a s', m s = (Ok a, s') ∧ f a s' = (Ok b, t).
Proof. unfold mbind, M_bind. destruct (m s) as [[a|e] s']; naive_solver. Qed.

Lemma mlift_Ok {St A} (r : result A) (s : St) a t : mlift r s = (Ok a, t) ↔ r = Ok a ∧ s = t.
Proof. unfold mlift. naive_solver. Qed.

Lemma mensure_Ok {St} cond reason (s : St) u t : mensure cond reason s = (Ok u, t) ↔ cond = true ∧ s = t.
Proof. unfold mensure, mlift, ensure. destruct cond, u; naive_solver. Qed.

(** ** Computations that move the state only along a preorder *)

Section respects.
Context {St : Type} (R : St → St → Prop) `{!PreOrder R}.

Definition respects {A} (m : M St A) : Prop := ∀ s r s', m s = (r, s') → R s s'.

Lemma respects_pure {A} (r : result A) : respects (mlift r).
Proof. intros s x s' [= <- <-]. reflexivity. Qed.

Lemma respects_ret {A} (a : A) : respects (mret a).
Proof. intros s x s' [= <- <-]. reflexivity. Qed.

Lemma respects_throw {A} e : respects (@mthrow St A e).
Proof. intros s x s' [= <- <-]. reflexivity. Qed.

Lemma respects_get : respects mget.
Proof. intros s x s' [= <- <-]. reflexivity. Qed.

Lemma respects_ensure b e : respects (mensure b e).
Proof. apply respects_pure. Qed.

Lemma respects_bind {A B} (m : M St A) (f : A → M St B) :
  respects m → (∀ a, respects (f a)) → respects (m ≫= f).
Proof.
  intros Hm Hf s r s'. unfold mbind, M_bind. destruct (m s) as [[a|e] s1] eqn:E.
  - intros H. etrans; [by eapply Hm|by eapply Hf].
  - intros [= <- <-]. by eapply Hm.
Qed.

Lemma respects_try {A} (m : M St A) : respects m → respects (mtry m).
Proof. intros Hm s r s'. unfold mtry. destruct (m s) eqn:E. intros [= <- <-]. by eapply Hm. Qed.
End respects.

Create HintDb respects.
#[export] Hint Resolve respects_pure respects_ret respects_throw respects_get respects_ensure respects_bind
  respects_try : respects.

(** Walk through a computation, leaving the calls that have a lemma of their own. *)
Ltac respects_step :=
  first [ match goal with H : _ |- respects _ _ => solve [apply H] end
        | apply respects_bind; [typeclasses eauto| | intros ?]
        | apply respects_ret; typeclasses eauto | apply respects_throw; typeclasses eauto
        | apply respects_pure; typeclasses eauto | apply respects_ensure; typeclasses eauto
        | apply respects_get; typeclasses eauto | apply respects_try
        | case_match ].

(** ** [Iterator::position] *)

Fixpoint position {A} (pred : A → bool) (l : list A) : option nat :=
  match l with
  | [] => None
  | x :: r => if pred x then Some 0%nat else S <$> position pred r
  end.

Lemma position_Some {A} (pred : A → bool) l i :
  position pred l = Some i → ∃ x, l !! i = Some x ∧ pred x = true ∧ ∀ j y, l !! j = Some y → (j < i)%nat → pred y = false.
Proof.
  revert i. induction l as [|x l IH]; intros i; simpl; [done|].
  destruct (pred x) eqn:E.
  - intros [= <-]. exists x. split_and!; [done..|]. intros j y _ ?. lia.
  - destruct (position pred l) as [j|]; [|done]. intros [= <-].
    destruct (IH j eq_refl) as (y&?&?&Hlt). exists y. split_and!; [done..|].
    intros [|k] z Hz Hk; [by injection Hz as <-|]. apply (Hlt k z Hz). lia.
Qed.

Lemma position_None {A} (pred : A → bool) l :
  position pred l = None ↔ ∀ x, x ∈ l → pred x = false.
Proof.
  induction l as [|x l IH]; simpl; [set_solver|]. destruct (pred x) eqn:E.
  - split; [done|]. intros H. rewrite H in E by set_solver. done.
  - destruct (position pred l); simpl.
    + split; [done|]. intros H. enough (Some n = None) by done. apply IH. set_solver.
    + split; [|done]. intros _ y [->|Hy]%elem_of_cons; [done|]. by apply IH.
Qed.
