(* ===== verification/Str.v ===== *)
(** Rust's [str] operations on byte lists, as the path code of the kernel uses
    them: splitting, prefixes, last occurrence, UTF-8 validation and slash-joined
    component lists.  A [&str] is the list of its UTF-8 bytes, so [len] is the
    number of bytes; every separator the kernel searches for is ASCII. *)

From S2P Require Import Prelude.

(** ** Characters the path code compares with *)

Definition slash : byte := Byte.x2f.
Definition backslash : byte := Byte.x5c.
Definition dot : byte := Byte.x2e.
Definition space : byte := Byte.x20.
Definition newline : byte := Byte.x0a.

(** [byte == 0 || byte < 0x20] *)
Definition is_control (b : byte) : bool := b2z b <? 32.

(** ** Searching and splitting *)

(** [s.split(sep)]: at least one piece, empty pieces kept *)
Fixpoint split_on (sep : byte) (s : str) : list str :=
  match s with
  | [] => [[]]
  | c :: s' =>
      if decide (c = sep) then [] :: split_on sep s'
      else match split_on sep s' with
           | [] => [[c]]
           | piece :: pieces => (c :: piece) :: pieces
           end
  end.

(** [s.split('/').filter(|part| !part.is_empty())] *)
Definition components (s : str) : list str := filter (λ part, part ≠ []) (split_on slash s).

(** [s.contains(c)] *)
Definition contains (c : byte) (s : str) : bool := bool_decide (c ∈ s).

(** [s.strip_prefix(p)] and [s.starts_with(p)] *)
Fixpoint strip_prefix (p s : str) : option str :=
  match p, s with
  | [], _ => Some s
  | a :: p', b :: s' => if decide (a = b) then strip_prefix p' s' else None
  | _ :: _, [] => None
  end.
Definition starts_with (p s : str) : bool := match strip_prefix p s with Some _ => true | None => false end.

(** [s.ends_with(c)] for a character [c] *)
Definition ends_with (c : byte) (s : str) : bool := bool_decide (last s = Some c).

(** [s.rfind(c)] for an ASCII character [c] *)
Fixpoint rfind (c : byte) (s : str) : option nat :=
  match s with
  | [] => None
  | b :: s' =>
      match rfind c s' with
      | Some i => Some (S i)
      | None => if decide (b = c) then Some 0%nat else None
      end
  end.

(** [s.trim_end_matches(c)] *)
Fixpoint trim_end_matches (c : byte) (s : str) : str :=
  match s with
  | [] => []
  | b :: s' =>
      match trim_end_matches c s' with
      | [] => if decide (b = c) then [] else [b]
      | t => b :: t
      end
  end.

(** The encodings of the characters [char::is_whitespace] holds of. *)
Definition whitespace : list str :=
  [[Byte.x09]; [Byte.x0a]; [Byte.x0b]; [Byte.x0c]; [Byte.x0d]; [Byte.x20];
   [Byte.xc2; Byte.x85]; [Byte.xc2; Byte.xa0]; [Byte.xe1; Byte.x9a; Byte.x80]]
  ++ ((λ b, [Byte.xe2; Byte.x80; z2b b]) <$> seqZ 128 11)
  ++ [[Byte.xe2; Byte.x80; Byte.xa8]; [Byte.xe2; Byte.x80; Byte.xa9]; [Byte.xe2; Byte.x80; Byte.xaf];
      [Byte.xe2; Byte.x81; Byte.x9f]; [Byte.xe3; Byte.x80; Byte.x80]].

(** Drop the pieces of [ws] at the front of [s]. *)
Fixpoint drop_pieces (fuel : nat) (ws : list str) (s : str) : str :=
  match fuel, s with
  | S fuel, _ :: _ =>
      match list_find (λ w, starts_with w s = true) ws with
      | Some (_, w) => drop_pieces fuel ws (drop (length w) s)
      | None => s
      end
  | _, _ => s
  end.

(** [s.trim()] *)
Definition trim (s : str) : str :=
  let s := drop_pieces (length s) whitespace s in
  rev (drop_pieces (length s) (rev (A := byte) <$> whitespace) (rev s)).

(** [s.trim_end()] *)
Definition trim_end (s : str) : str := rev (drop_pieces (length s) (rev (A := byte) <$> whitespace) (rev s)).

(** [s.find(char::is_whitespace)] *)
Fixpoint find_whitespace (s : str) : option nat :=
  match s with
  | [] => None
  | _ :: rest => if existsb (λ w, starts_with w s) whitespace then Some 0%nat else S <$> find_whitespace rest
  end.

(** [s.lines()]: the last line has no terminator, a carriage return before one is dropped. *)
Definition strip_cr (line : str) : str :=
  match rev line with
  | b :: front => if decide (b = Byte.x0d) then rev front else line
  | [] => line
  end.
Definition lines (s : str) : list str :=
  let pieces := split_on newline s in
  match rev pieces with
  | [] :: front => strip_cr <$> rev front
  | last :: front => (strip_cr <$> rev front) ++ [last]
  | [] => []
  end.

(** [u8::to_ascii_lowercase] and [str::eq_ignore_ascii_case] *)
Definition ascii_lower (b : byte) : byte :=
  if (65 <=? b2z b) && (b2z b <=? 90) then z2b (b2z b + 32) else b.
Definition eq_ignore_ascii_case (s t : str) : bool :=
  bool_decide (ascii_lower <$> s = ascii_lower <$> t).

(** ** UTF-8: [core::str::from_utf8] *)

Definition in_range (lo hi : Z) (b : byte) : bool := (lo <=? b2z b) && (b2z b <=? hi).
Definition is_continuation (b : byte) : bool := in_range 128 191 b.

(** The second byte allowed after a three-byte and a four-byte lead. *)
Definition second_of_three (b0 b1 : byte) : bool :=
  (in_range 224 224 b0 && in_range 160 191 b1)
  || (in_range 225 236 b0 && is_continuation b1)
  || (in_range 237 237 b0 && in_range 128 159 b1)
  || (in_range 238 239 b0 && is_continuation b1).
Definition second_of_four (b0 b1 : byte) : bool :=
  (in_range 240 240 b0 && in_range 144 191 b1)
  || (in_range 241 243 b0 && is_continuation b1)
  || (in_range 244 244 b0 && in_range 128 143 b1).

Fixpoint utf8_valid (s : str) : bool :=
  match s with
  | [] => true
  | b0 :: s0 =>
      if in_range 0 127 b0 then utf8_valid s0
      else match s0 with
      | [] => false
      | b1 :: s1 =>
          if in_range 194 223 b0 then is_continuation b1 && utf8_valid s1
          else match s1 with
          | [] => false
          | b2 :: s2 =>
              if in_range 224 239 b0
              then second_of_three b0 b1 && is_continuation b2 && utf8_valid s2
              else match s2 with
              | [] => false
              | b3 :: s3 =>
                  if in_range 240 244 b0
                  then second_of_four b0 b1 && is_continuation b2 && is_continuation b3
                       && utf8_valid s3
                  else false
              end
          end
      end
  end.

Definition from_utf8 (s : str) (reason : string) : result str :=
  if utf8_valid s then Ok s else Err reason.

(** ** Slash-joined component lists *)

(** [a/b/c] *)
Fixpoint join_components (parts : list str) : str :=
  match parts with
  | [] => []
  | [p] => p
  | p :: rest => p ++ slash :: join_components rest
  end.

(** [/a/b/c], and [/] for the empty list *)
Definition absolute (parts : list str) : str :=
  match parts with
  | [] => [slash]
  | _ => slash :: join_components parts
  end.

(** ** Lemmas on splitting *)

Lemma split_on_nonempty sep s : split_on sep s ≠ [].
Proof.
  destruct s as [|c s]; simpl; [done|]. case_decide; [done|].
  by destruct (split_on sep s).
Qed.

Lemma split_on_no_sep sep s : sep ∉ s → split_on sep s = [s].
Proof.
  induction s as [|c s IH]; simpl; [done|]. intros Hs.
  rewrite not_elem_of_cons in Hs. rewrite decide_False by naive_solver.
  rewrite IH by naive_solver. done.
Qed.

Lemma split_on_app sep s t : split_on sep (s ++ sep :: t) = split_on sep s ++ split_on sep t.
Proof.
  induction s as [|c s IH]; simpl; [by rewrite decide_True|].
  case_decide; [by rewrite IH|]. rewrite IH.
  destruct (split_on sep s) eqn:E; [|done]. by destruct (split_on_nonempty sep s).
Qed.

Lemma split_on_pieces sep s p : p ∈ split_on sep s → sep ∉ p.
Proof.
  revert p. induction s as [|c s IH]; simpl; intros p.
  - rewrite list_elem_of_singleton. intros ->. by apply not_elem_of_nil.
  - case_decide.
    + rewrite elem_of_cons. intros [->|Hp]; [by apply not_elem_of_nil|]. by apply IH.
    + destruct (split_on sep s) as [|q qs] eqn:E; [by destruct (split_on_nonempty sep s)|].
      rewrite elem_of_cons. intros [->|Hp].
      * rewrite not_elem_of_cons. split; [done|]. apply IH. by left.
      * apply IH. by right.
Qed.

Lemma split_on_join sep s :
  s = match split_on sep s with
      | [] => []
      | p :: ps => p ++ mjoin ((λ q, sep :: q) <$> ps)
      end.
Proof.
  induction s as [|c s IH]; simpl; [done|]. case_decide as Hc.
  - simpl. destruct (split_on sep s) as [|p ps] eqn:E; [by destruct (split_on_nonempty sep s)|].
    rewrite Hc. simpl. f_equal. apply IH.
  - destruct (split_on sep s) as [|p ps] eqn:E; [by destruct (split_on_nonempty sep s)|].
    simpl. f_equal. apply IH.
Qed.

Lemma components_app s t : components (s ++ slash :: t) = components s ++ components t.
Proof. unfold components. by rewrite split_on_app, filter_app. Qed.

Lemma components_single s : slash ∉ s → s ≠ [] → components s = [s].
Proof. intros. unfold components. rewrite split_on_no_sep by done. by rewrite filter_cons_True. Qed.

Lemma components_nil : components [] = [].
Proof. done. Qed.

Lemma components_cons_slash s : components (slash :: s) = components s.
Proof. apply (components_app []). Qed.

(** A component: nonempty and without a slash. *)
Definition is_component (p : str) : Prop := p ≠ [] ∧ slash ∉ p.

Lemma components_are s : Forall is_component (components s).
Proof.
  apply Forall_forall. intros p. unfold components. rewrite list_elem_of_filter.
  intros [Hp Hin]. split; [done|]. by eapply split_on_pieces.
Qed.

Lemma components_join parts : Forall is_component parts → components (join_components parts) = parts.
Proof.
  induction parts as [|p parts IH]; [done|]. intros [[Hp Hs] Hps]%Forall_cons.
  destruct parts as [|q parts]; simpl in *.
  - by apply components_single.
  - rewrite components_app, IH by done. by rewrite components_single.
Qed.

Lemma components_absolute parts : Forall is_component parts → components (absolute parts) = parts.
Proof.
  intros Hp. destruct parts as [|p parts]; [done|]. unfold absolute.
  rewrite components_cons_slash. by apply components_join.
Qed.

Lemma join_components_app parts p :
  join_components (parts ++ [p])
  = match parts with [] => p | _ => join_components parts ++ slash :: p end.
Proof.
  induction parts as [|q parts IH]; [done|]. simpl in *.
  destruct parts as [|r parts]; simpl in *; [done|]. rewrite IH. by rewrite <- app_assoc.
Qed.

Lemma absolute_app parts p :
  absolute (parts ++ [p]) = match parts with [] => slash :: p | _ => absolute parts ++ slash :: p end.
Proof.
  unfold absolute. destruct parts as [|q parts]; [done|].
  change ((q :: parts) ++ [p]) with (q :: (parts ++ [p])).
  cbn beta iota. change (q :: (parts ++ [p])) with ((q :: parts) ++ [p]).
  by rewrite join_components_app.
Qed.

Lemma join_components_inj parts parts' :
  Forall is_component parts → Forall is_component parts' →
  join_components parts = join_components parts' → parts = parts'.
Proof. intros H H' E. rewrite <- (components_join parts), E by done. by apply components_join. Qed.

(** ** Lemmas on prefixes and searching *)

Lemma strip_prefix_Some p s t : strip_prefix p s = Some t ↔ s = p ++ t.
Proof.
  revert s. induction p as [|a p IH]; intros s; simpl; [naive_solver|].
  destruct s as [|b s]; [naive_solver|]. case_decide; [rewrite IH|]; naive_solver.
Qed.

Lemma strip_prefix_app p t : strip_prefix p (p ++ t) = Some t.
Proof. by apply strip_prefix_Some. Qed.

Lemma starts_with_true p s : starts_with p s = true ↔ ∃ t, s = p ++ t.
Proof.
  unfold starts_with. destruct (strip_prefix p s) as [t|] eqn:E.
  - apply strip_prefix_Some in E. naive_solver.
  - split; [done|]. intros [t Ht%strip_prefix_Some]. congruence.
Qed.

Lemma starts_with_slash s : starts_with [slash] s = true ↔ ∃ t, s = slash :: t.
Proof. apply starts_with_true. Qed.

Lemma rfind_None c s : rfind c s = None ↔ c ∉ s.
Proof.
  induction s as [|b s IH]; simpl; [by split; [intros _; apply not_elem_of_nil|]|].
  rewrite not_elem_of_cons. destruct (rfind c s); [naive_solver|].
  case_decide; naive_solver.
Qed.

Lemma rfind_app c s t : c ∉ t → rfind c (s ++ c :: t) = Some (length s).
Proof.
  intros Ht%rfind_None. induction s as [|b s IH]; simpl.
  - rewrite Ht. by rewrite decide_True.
  - by rewrite IH.
Qed.

Lemma rfind_Some c s i : rfind c s = Some i ↔ ∃ l r, s = l ++ c :: r ∧ length l = i ∧ c ∉ r.
Proof.
  split; [|intros (l & r & -> & <- & Hr); by apply rfind_app].
  revert i. induction s as [|b s IH]; intros i; simpl; [done|].
  destruct (rfind c s) as [j|] eqn:E.
  - intros [= <-]. destruct (IH j eq_refl) as (l & r & -> & <- & Hr). by exists (b :: l), r.
  - case_decide; [|done]. intros [= <-]. exists [], s. subst. split_and!; try done.
    by apply rfind_None.
Qed.

Lemma ends_with_snoc c s b : ends_with c (s ++ [b]) = bool_decide (b = c).
Proof. unfold ends_with. rewrite last_snoc. apply bool_decide_ext. naive_solver. Qed.

Lemma contains_false c s : contains c s = false ↔ c ∉ s.
Proof. unfold contains. by rewrite bool_decide_eq_false. Qed.

(** ** Lemmas on UTF-8 *)

Lemma length_ind {A} (P : list A → Prop) :
  (∀ l, (∀ k, (length k < length l)%nat → P k) → P l) → ∀ l, P l.
Proof. intros H. apply (Wf_nat.induction_ltof1 _ length). apply H. Qed.

(** One encoded scalar value. *)
Definition utf8_char (c : str) : bool :=
  match c with
  | [b0] => in_range 0 127 b0
  | [b0; b1] => in_range 194 223 b0 && is_continuation b1
  | [b0; b1; b2] => second_of_three b0 b1 && is_continuation b2
  | [b0; b1; b2; b3] => second_of_four b0 b1 && is_continuation b2 && is_continuation b3
  | _ => false
  end.

(** Decide a goal about the byte ranges of the validator. *)
Ltac ranges :=
  unfold second_of_three, second_of_four, is_continuation, in_range in *;
  repeat match goal with
  | b : byte |- _ =>
      lazymatch goal with
      | _ : 0 <= b2z b < 256 |- _ => fail
      | _ => pose proof (b2z_range b)
      end
  end; lia.

Lemma utf8_valid_cons b0 s0 :
  utf8_valid (b0 :: s0) =
    if in_range 0 127 b0 then utf8_valid s0
    else match s0 with
    | [] => false
    | b1 :: s1 =>
        if in_range 194 223 b0 then is_continuation b1 && utf8_valid s1
        else match s1 with
        | [] => false
        | b2 :: s2 =>
            if in_range 224 239 b0
            then second_of_three b0 b1 && is_continuation b2 && utf8_valid s2
            else match s2 with
            | [] => false
            | b3 :: s3 =>
                if in_range 240 244 b0
                then second_of_four b0 b1 && is_continuation b2 && is_continuation b3
                     && utf8_valid s3
                else false
            end
        end
    end.
Proof. done. Qed.

Lemma utf8_char_app c r : utf8_char c = true → utf8_valid (c ++ r) = utf8_valid r.
Proof.
  destruct c as [|b0 [|b1 [|b2 [|b3 [|? ?]]]]]; try done;
    cbn [app utf8_char]; intros Hc; rewrite utf8_valid_cons.
  - by rewrite Hc.
  - replace (in_range 0 127 b0) with false by ranges. bool_hyps.
    by repeat match goal with H : _ = true |- _ => rewrite H end.
  - replace (in_range 0 127 b0) with false by ranges.
    replace (in_range 194 223 b0) with false by ranges.
    replace (in_range 224 239 b0) with true by ranges. bool_hyps.
    by repeat match goal with H : _ = true |- _ => rewrite H end.
  - replace (in_range 0 127 b0) with false by ranges.
    replace (in_range 194 223 b0) with false by ranges.
    replace (in_range 224 239 b0) with false by ranges.
    replace (in_range 240 244 b0) with true by ranges. bool_hyps.
    by repeat match goal with H : _ = true |- _ => rewrite H end.
Qed.

Lemma utf8_cases s :
  utf8_valid s = true → s = [] ∨ ∃ c r, s = c ++ r ∧ utf8_char c = true ∧ utf8_valid r = true.
Proof.
  destruct s as [|b0 s0]; [by left|]. rewrite utf8_valid_cons. intros H. right.
  destruct (in_range 0 127 b0) eqn:E0; [by exists [b0], s0|].
  destruct s0 as [|b1 s1]; [done|].
  destruct (in_range 194 223 b0) eqn:E1; bool_hyps.
  { exists [b0; b1], s1. cbn. by repeat match goal with H : _ = true |- _ => rewrite H end. }
  destruct s1 as [|b2 s2]; [done|].
  destruct (in_range 224 239 b0) eqn:E2; bool_hyps.
  { exists [b0; b1; b2], s2. cbn. by repeat match goal with H : _ = true |- _ => rewrite H end. }
  destruct s2 as [|b3 s3]; [done|].
  destruct (in_range 240 244 b0) eqn:E3; [|done]. bool_hyps.
  exists [b0; b1; b2; b3], s3. cbn. by repeat match goal with H : _ = true |- _ => rewrite H end.
Qed.

Lemma utf8_app s t : utf8_valid s = true → utf8_valid (s ++ t) = utf8_valid t.
Proof.
  induction s as [s IH] using length_ind. intros [->|(c & r & -> & Hc & Hr)]%utf8_cases; [done|].
  rewrite <- app_assoc, utf8_char_app by done. apply IH; [|done].
  rewrite length_app. destruct c; [done|]. simpl. lia.
Qed.

Lemma utf8_char_no_ascii c b : utf8_char c = true → b2z b < 128 → b ∈ c → c = [b].
Proof.
  intros Hc Hb Hin. destruct c as [|b0 [|b1 [|b2 [|b3 [|? ?]]]]]; try done;
    rewrite !elem_of_cons in Hin; destruct_or!; subst; try set_solver;
    exfalso; revert Hc; cbn; intros; ranges.
Qed.

(** Cutting a valid string at an ASCII byte leaves two valid strings. *)
Lemma utf8_cut s b t :
  b2z b < 128 → utf8_valid (s ++ b :: t) = true → utf8_valid s = true ∧ utf8_valid t = true.
Proof.
  intros Hb. induction s as [s IH] using length_ind.
  intros [?|(c & r & E & Hc & Hr)]%utf8_cases; [by destruct s|].
  destruct (decide (length c ≤ length s)%nat) as [Hlen|Hlen].
  - assert (∃ s', s = c ++ s' ∧ s' ++ b :: t = r) as (s' & -> & <-).
    { exists (drop (length c) s). rewrite <- (take_drop (length c) s) in E at 1.
      rewrite <- app_assoc in E. apply app_inj_1 in E as [E1 E2]; [|rewrite length_take; lia].
      by rewrite <- E1 at 1; rewrite take_drop. }
    destruct (IH s') as [Hs' Ht].
    + rewrite length_app. destruct c; [done|simpl; lia].
    + done.
    + split; [|done]. by rewrite utf8_char_app.
  - assert (b ∈ c) as Hin.
    { assert (c = s ++ b :: take (length c - S (length s)) t) as ->; [|set_solver].
      pose proof (f_equal (take (length c)) E) as E'. rewrite take_app_length in E'.
      trans (take (length c) (s ++ b :: t)); [done|]. rewrite take_app_ge by lia. f_equal.
      destruct (length c - length s)%nat eqn:?; [lia|]. simpl. do 2 f_equal. lia. }
    pose proof (utf8_char_no_ascii c b Hc Hb Hin) as ->. simpl in Hlen.
    destruct s as [|? s]; [|simpl in Hlen; lia]. simpl in E. by simplify_eq.
Qed.

Lemma utf8_split sep s :
  b2z sep < 128 → utf8_valid s = true → Forall (λ p, utf8_valid p = true) (split_on sep s).
Proof.
  intros Hsep. induction s as [s IH] using length_ind. intros Hs.
  destruct (decide (sep ∈ s)) as [Hin|Hnin].
  - apply list_elem_of_split in Hin as (l & r & ->).
    apply utf8_cut in Hs as [Hl Hr]; [|done].
    rewrite split_on_app. apply Forall_app.
    split; apply IH; solve [done | rewrite length_app; simpl; lia].
  - rewrite split_on_no_sep by done. by constructor.
Qed.

Lemma utf8_ascii s : Forall (λ b, b2z b < 128) s → utf8_valid s = true.
Proof.
  induction 1 as [|b s Hb Hs IH]; [done|]. rewrite utf8_valid_cons.
  replace (in_range 0 127 b) with true by ranges. done.
Qed.

(** ** Lemmas on joining *)

Lemma join_split s : join_components (split_on slash s) = s.
Proof.
  induction s as [|c s IH]; [done|]. simpl. case_decide as Hc; simpl.
  - destruct (split_on slash s) as [|p ps] eqn:E; [by destruct (split_on_nonempty slash s)|].
    rewrite IH. by subst.
  - destruct (split_on slash s) as [|p ps] eqn:E; [by destruct (split_on_nonempty slash s)|].
    rewrite <- IH. by destruct ps.
Qed.

Lemma split_join parts : parts ≠ [] → Forall (λ p, slash ∉ p) parts → split_on slash (join_components parts) = parts.
Proof.
  induction parts as [|p parts IH]; [done|]. intros _ [Hp Hps]%Forall_cons.
  destruct parts as [|q parts]; simpl in *; [by apply split_on_no_sep|].
  by rewrite split_on_app, split_on_no_sep, IH by done.
Qed.

Lemma elem_of_join b parts : b ∈ join_components parts → b = slash ∨ ∃ p, p ∈ parts ∧ b ∈ p.
Proof.
  induction parts as [|p parts IH]; simpl; [by intros ?%elem_of_nil|].
  destruct parts as [|q parts]; [intros; right; exists p; split; [by left|done]|].
  rewrite elem_of_app, elem_of_cons. intros [?|[?|?]].
  - right. exists p. split; [by left|done].
  - by left.
  - destruct IH as [?|(r & ? & ?)]; [done|by left|]. right. exists r. split; [by right|done].
Qed.

Lemma elem_of_join_part b p parts : p ∈ parts → b ∈ p → b ∈ join_components parts.
Proof.
  induction parts as [|q parts IH]; [by intros ?%elem_of_nil|]. intros Hp Hb.
  apply elem_of_cons in Hp as [->|Hp]; simpl; destruct parts as [|r parts]; try done.
  - apply elem_of_app. by left.
  - by apply elem_of_nil in Hp.
  - rewrite elem_of_app, elem_of_cons. auto.
Qed.

Lemma join_components_nil_iff parts : Forall is_component parts → join_components parts = [] → parts = [].
Proof. intros [|p [|q l] [Hp _] _]; simpl; [done|done|]. by destruct p. Qed.

Lemma join_starts parts : Forall is_component parts → starts_with [slash] (join_components parts) = false.
Proof.
  intros [|p l [Hp Hs] _]; [done|]. destruct (starts_with _ _) eqn:E; [|done].
  apply starts_with_slash in E as [t Ht]. exfalso.
  destruct p as [|c p]; [done|]. apply Hs.
  destruct l; simpl in Ht; simplify_eq; by left.
Qed.

Lemma join_last parts p : Forall is_component (parts ++ [p]) → last (join_components (parts ++ [p])) = last p.
Proof.
  intros [_ [[Hp _] _]%Forall_cons]%Forall_app. rewrite join_components_app.
  destruct p as [|c p _] using rev_ind; [done|].
  destruct parts; [done|]. by rewrite app_comm_cons, app_assoc, !last_snoc.
Qed.

Lemma join_ends parts : Forall is_component parts → ends_with slash (join_components parts) = false.
Proof.
  destruct parts as [|p parts _] using rev_ind; [done|]. intros Hp.
  unfold ends_with. rewrite join_last by done. apply bool_decide_eq_false. intros Hl.
  apply Forall_app in Hp as [_ [[_ Hs] _]%Forall_cons]. apply Hs.
  apply last_Some in Hl as [l ->]. set_solver.
Qed.

Lemma utf8_join parts : Forall (λ p, utf8_valid p = true) parts → utf8_valid (join_components parts) = true.
Proof.
  induction 1 as [|p parts Hp Hps IH]; [done|]. simpl. destruct parts; [done|].
  rewrite utf8_app by done. by rewrite utf8_valid_cons.
Qed.

Lemma trim_example : trim (bs "  a b	") = bs "a b" ∧ trim [Byte.xc2; Byte.xa0; Byte.x61; Byte.xe3; Byte.x80; Byte.x80] = bs "a".
Proof. by vm_compute. Qed.

(** ** White space *)

Lemma whitespace_chars w : w ∈ whitespace → utf8_char w = true.
Proof. apply (Forall_forall (λ w, utf8_char w = true)). apply (bool_decide_unpack _). vm_compute. exact I. Qed.

Lemma utf8_char_ne c : utf8_char c = true → c ≠ [].
Proof. by destruct c. Qed.

(** Cutting a valid string around a character leaves two valid strings. *)
Lemma utf8_cut_char s w t :
  utf8_char w = true → utf8_valid (s ++ w ++ t) = true → utf8_valid s = true ∧ utf8_valid t = true.
Proof.
  intros Hw. induction s as [s IH] using length_ind. intros Hv.
  destruct (decide (s = [])) as [->|Hs]; [split; [done|]; by rewrite app_nil_l, utf8_char_app in Hv|].
  apply utf8_cases in Hv as [?|(c & r & E & Hc & Hr)]; [by destruct s|].
  destruct (decide (length c ≤ length s)%nat) as [Hlen|Hlen].
  - assert (∃ s', s = c ++ s' ∧ s' ++ w ++ t = r) as (s' & -> & <-).
    { exists (drop (length c) s). rewrite <- (take_drop (length c) s) in E at 1.
      rewrite <- app_assoc in E. apply app_inj_1 in E as [E1 E2]; [|rewrite length_take; lia].
      by rewrite <- E1 at 1; rewrite take_drop. }
    destruct (IH s') as [Hs' Ht]; [|done|].
    + rewrite length_app. destruct c; [done|simpl; lia].
    + split; [|done]. by rewrite utf8_char_app.
  - exfalso. destruct w as [|w0 w]; [done|].
    assert (w0 ∈ drop 1 c) as Hin.
    { pose proof (f_equal (λ l, l !! length s) E) as El. cbn in El.
      rewrite lookup_app_r, Nat.sub_diag in El by lia. cbn in El. rewrite lookup_app_l in El by lia.
      apply (list_elem_of_lookup_2 _ (length s - 1)). rewrite lookup_drop.
      replace (1 + (length s - 1))%nat with (length s) by (destruct s; simpl; [done|lia]). done. }
    assert (is_continuation w0 = true) as Hcont.
    { destruct c as [|b0 [|b1 [|b2 [|b3 [|? ?]]]]]; try done; cbn in Hc, Hin; bool_hyps;
        rewrite ?elem_of_cons, ?elem_of_nil in Hin; destruct_or?; subst; try done; ranges. }
    destruct w as [|w1 [|w2 [|w3 [|? ?]]]]; try done; cbn in Hw; bool_hyps; ranges.
Qed.

Lemma find_whitespace_None s l w r : find_whitespace s = None → w ∈ whitespace → s ≠ l ++ w ++ r.
Proof.
  intros Hf Hw ->. revert Hf. induction l as [|b l IH]; cbn [app].
  - pose proof (utf8_char_ne w (whitespace_chars w Hw)) as Hne. destruct w as [|w0 w]; [done|]. cbn [app find_whitespace].
    replace (existsb _ _) with true; [done|]. symmetry. apply existsb_exists. exists (w0 :: w).
    split; [by apply list_elem_of_In|]. apply starts_with_true. by exists r.
  - cbn [find_whitespace]. destruct (existsb _ _); [done|]. destruct (find_whitespace (l ++ w ++ r)); [done|]. done.
Qed.

(** The first white space ends a part that has none. *)
Lemma find_whitespace_Some s i : find_whitespace s = Some i →
  ∃ w r, w ∈ whitespace ∧ s = take i s ++ w ++ r ∧ find_whitespace (take i s) = None.
Proof.
  revert i. induction s as [|b s IH]; intros i; [done|]. cbn [find_whitespace].
  destruct (existsb _ _) eqn:E.
  - intros [= <-]. apply existsb_exists in E as (w & Hw%list_elem_of_In & [r Hr]%starts_with_true). by exists w, r.
  - destruct (find_whitespace s) as [j|]; [|done]. intros [= <-]. destruct (IH j eq_refl) as (w & r & Hw & Hs & Hn).
    exists w, r. split; [done|]. cbn [fmap option_fmap option_map take]. split; [cbn; by rewrite <- Hs|].
    cbn [find_whitespace]. rewrite Hn. replace (existsb _ _) with false; [done|]. symmetry. apply not_true_iff_false.
    intros (w' & Hw' & [r' Hr']%starts_with_true)%existsb_exists. rewrite <- not_true_iff_false in E. apply E.
    apply existsb_exists. exists w'. split; [done|]. apply starts_with_true. exists (r' ++ w ++ r).
    rewrite app_assoc, <- Hr'. cbn. by rewrite <- Hs.
Qed.

Lemma drop_pieces_suffix fuel ws s : ∃ pre, s = pre ++ drop_pieces fuel ws s.
Proof.
  revert s. induction fuel as [|fuel IH]; intros s; cbn [drop_pieces]; [by exists []|]. destruct s as [|b s]; [by exists []|].
  destruct (list_find _ ws) as [[i w]|] eqn:E; [|by exists []].
  apply list_find_Some in E as (_ & [r Hr]%starts_with_true & _).
  destruct (IH (drop (length w) (b :: s))) as [pre Hpre]. exists (w ++ pre).
  rewrite <- app_assoc, <- Hpre, Hr, drop_app_length. done.
Qed.

Lemma drop_pieces_whitespace fuel s : utf8_valid s = true → utf8_valid (drop_pieces fuel whitespace s) = true.
Proof.
  revert s. induction fuel as [|fuel IH]; intros s Hs; cbn [drop_pieces]; [done|]. destruct s as [|b s]; [done|].
  destruct (list_find _ whitespace) as [[i w]|] eqn:E; [|done].
  apply list_find_Some in E as (Hw%list_elem_of_lookup_2 & [r Hr]%starts_with_true & _). apply IH.
  rewrite Hr in Hs |- *. rewrite drop_app_length. by rewrite (utf8_char_app w r (whitespace_chars w Hw)) in Hs.
Qed.

Lemma drop_pieces_whitespace_end fuel s :
  utf8_valid (rev s) = true → utf8_valid (rev (drop_pieces fuel (rev (A := byte) <$> whitespace) s)) = true.
Proof.
  revert s. induction fuel as [|fuel IH]; intros s Hs; cbn [drop_pieces]; [done|]. destruct s as [|b s]; [done|].
  destruct (list_find _ _) as [[i w]|] eqn:E; [|done].
  apply list_find_Some in E as (Hw%list_elem_of_lookup_2 & [r Hr]%starts_with_true & _).
  apply list_elem_of_fmap in Hw as (w' & -> & Hw'). apply IH. rewrite Hr in Hs |- *. rewrite drop_app_length.
  rewrite rev_app_distr, rev_involutive in Hs.
  destruct (utf8_cut_char (rev r) w' [] (whitespace_chars w' Hw')) as [? _]; [by rewrite app_nil_r|done].
Qed.

(** Trimming a Rust string gives a Rust string. *)
Lemma trim_utf8 s : utf8_valid s = true → utf8_valid (trim s) = true.
Proof. intros Hs. unfold trim. apply drop_pieces_whitespace_end. rewrite rev_involutive. by apply drop_pieces_whitespace. Qed.

Lemma trim_end_utf8 s : utf8_valid s = true → utf8_valid (trim_end s) = true.
Proof. intros Hs. apply drop_pieces_whitespace_end. by rewrite rev_involutive. Qed.

Lemma drop_pieces_none fuel ws s : (∀ w r, w ∈ ws → s ≠ w ++ r) → drop_pieces fuel ws s = s.
Proof.
  intros Hn. destruct fuel; [done|]. cbn [drop_pieces]. destruct s as [|b s]; [done|].
  destruct (list_find _ ws) as [[i w]|] eqn:E; [|done].
  apply list_find_Some in E as (Hw%list_elem_of_lookup_2 & [r Hr]%starts_with_true & _). by destruct (Hn w r Hw).
Qed.

(** A word is its own trimming. *)
Lemma trim_word s : find_whitespace s = None → trim s = s.
Proof.
  intros Hf. unfold trim. rewrite (drop_pieces_none _ whitespace s).
  2:{ intros w r Hw. exact (find_whitespace_None s [] w r Hf Hw). }
  rewrite drop_pieces_none; [apply rev_involutive|].
  intros w r (w' & -> & Hw')%list_elem_of_fmap E. apply (f_equal (rev (A := byte))) in E.
  rewrite rev_involutive, rev_app_distr, rev_involutive in E.
  apply (find_whitespace_None s (rev r) w' [] Hf Hw'). by rewrite app_nil_r.
Qed.
