(* ===== verification/Device.v ===== *)
(** The block device the filesystems stand on: the interface [ata::read_sector]
    and [ata::write_sector] offer them (kernel/src/ata.rs), the law a client may
    rely on, and a simulated disk with a schedule of faults that satisfies it.

    The law says what a sector-addressed disk promises: a read of a sector the
    driver can name returns it or fails without effect, a write that succeeds replaces one sector,
    and a write that reports an error leaves that sector either old or new (a
    sector is the unit of atomicity) and every other sector untouched.

    At the end: port I/O, for the drivers, and the record of the accesses a
    driver makes. *)

From S2P Require Import Prelude.

(** The sector stored at [lba]; never-written sectors read as zeros. *)
Definition sector_at (p : gmap Z (list byte)) (lba : Z) : list byte :=
  default zero_sector (p !! lba).

(** The sectors the driver can name: 28-bit numbers (select_drive). *)
Definition addressable (lba : Z) : Prop := 0 <= lba < 2 ^ 28.

Class BlockDevice (D : Type) := {
  read_sector : Z → M D (list byte);
  write_sector : Z → list byte → M D unit;
  (** what the medium holds *)
  platter : D → gmap Z (list byte);
  (** no operation from here on fails *)
  reliable : D → Prop;
}.

Class BlockDeviceSpec (D : Type) `{BlockDevice D} := {
  platter_sized d : map_Forall (λ _ s, length s = 512%nat) (platter d);
  read_sector_spec lba d :
    wp (read_sector lba)
      (λ s d', (addressable lba → s = sector_at (platter d) lba) ∧ platter d' = platter d ∧ (reliable d → reliable d'))
      (λ _ d', platter d' = platter d ∧ ¬ reliable d) d;
  write_sector_spec lba s d :
    addressable lba → length s = 512%nat →
    wp (write_sector lba s)
      (λ _ d', platter d' = <[lba := s]> (platter d) ∧ (reliable d → reliable d'))
      (λ _ d', (platter d' = platter d ∨ platter d' = <[lba := s]> (platter d)) ∧ ¬ reliable d) d;
}.

(** ** A simulated disk *)

(** What happens to one operation: it works, it is lost, or (for a write) the
    data reaches the medium but the operation still reports an error. *)
Inductive fault := Fine | Lost | Late.

#[global] Instance fault_eq_decision : EqDecision fault.
Proof. solve_decision. Defined.

Record sim_disk := SimDisk { raw : gmap Z (list byte); faults : list fault }.

Definition sim_platter (d : sim_disk) : gmap Z (list byte) := resize 512 Byte.x00 <$> raw d.

Definition next_fault (d : sim_disk) : fault := default Fine (head (faults d)).

Definition sim_read (lba : Z) : M sim_disk (list byte) := λ d,
  let d' := SimDisk (raw d) (tail (faults d)) in
  match next_fault d with
  | Fine => (Ok (sector_at (sim_platter d) lba), d')
  | _ => (Err "ata error", d')
  end.

Definition sim_write (lba : Z) (s : list byte) : M sim_disk unit := λ d,
  let written := SimDisk (<[lba := s]> (raw d)) (tail (faults d)) in
  match next_fault d with
  | Fine => (Ok tt, written)
  | Lost => (Err "ata error", SimDisk (raw d) (tail (faults d)))
  | Late => (Err "ata error", written)
  end.

#[global] Instance sim_block_device : BlockDevice sim_disk := {|
  read_sector := sim_read;
  write_sector := sim_write;
  platter := sim_platter;
  reliable d := Forall (λ f, f = Fine) (faults d);
|}.

(** A disk of zeros that never fails. *)
Definition blank_disk : sim_disk := SimDisk ∅ [].

(** ** The simulated disk keeps the law *)

Lemma sector_at_insert p lba s : sector_at (<[lba := s]> p) lba = s.
Proof. unfold sector_at. by rewrite lookup_insert_eq. Qed.

Lemma sector_at_insert_ne p lba lba' s :
  lba ≠ lba' → sector_at (<[lba := s]> p) lba' = sector_at p lba'.
Proof. intros. unfold sector_at. by rewrite lookup_insert_ne. Qed.

Lemma length_sector_at p lba :
  map_Forall (λ _ s, length s = 512%nat) p → length (sector_at p lba) = 512%nat.
Proof.
  intros Hp. unfold sector_at. destruct (p !! lba) eqn:E; [by apply (Hp lba)|done].
Qed.

Lemma sim_reliable_tail d :
  reliable d → next_fault d = Fine ∧ Forall (λ f, f = Fine) (tail (faults d)).
Proof.
  unfold next_fault. simpl. destruct (faults d); simpl; [done|].
  intros [-> ?]%Forall_cons. done.
Qed.

Lemma sim_not_reliable d : next_fault d ≠ Fine → ¬ reliable d.
Proof. intros Hf [? ?]%sim_reliable_tail. done. Qed.

#[global] Instance sim_block_device_spec : BlockDeviceSpec sim_disk.
Proof.
  split.
  - intros d lba s. simpl. unfold sim_platter. rewrite lookup_fmap_Some.
    intros (r & <- & _). apply length_resize.
  - intros lba d. unfold wp. simpl. unfold sim_read.
    destruct (next_fault d) eqn:E;
      [split_and!; try done; intros ?%sim_reliable_tail; by destruct_and?| | ];
      (split; [done|apply sim_not_reliable; by rewrite E]).
  - intros lba s d _ Hs. unfold wp. simpl. unfold sim_write.
    assert (resize 512 Byte.x00 s = s) as Hr by (by apply resize_all_alt).
    destruct (next_fault d) eqn:E; unfold sim_platter; simpl; rewrite ?fmap_insert, ?Hr.
    + split; [done|]. intros ?%sim_reliable_tail. by destruct_and?.
    + split; [by left|]. apply sim_not_reliable. by rewrite E.
    + split; [by right|]. apply sim_not_reliable. by rewrite E.
Qed.

(** ** Port I/O: the processor's [in] and [out] instructions on a device *)

(** [inb], [outb], [inw] and [outw] on the state of the device *)
Class Ports (St : Type) := {
  inb : Z → St → Z * St;
  outb : Z → Z → St → St;
  inw : Z → St → Z * St;
  outw : Z → Z → St → St
}.

Section access.
Context {St : Type} `{Ports St}.

Definition port_in (port : Z) : M St Z := λ s, let '(v, s) := inb port s in (Ok v, s).
Definition port_out (port value : Z) : M St unit := λ s, (Ok tt, outb port value s).
Definition port_in_word (port : Z) : M St Z := λ s, let '(v, s) := inw port s in (Ok v, s).
Definition port_out_word (port value : Z) : M St unit := λ s, (Ok tt, outw port value s).
End access.

(** ** A device whose byte accesses are written down *)

Inductive PortEvent :=
| Inb (port value : Z)
| Outb (port value : Z).

#[global] Instance PortEvent_eq_decision : EqDecision PortEvent.
Proof. solve_decision. Defined.

#[global] Instance logged_ports {St} `{Ports St} : Ports (St * list PortEvent) := {|
  inb port s := let '(v, d) := inb port s.1 in (v, (d, s.2 ++ [Inb port v]));
  outb port v s := (outb port v s.1, s.2 ++ [Outb port v]);
  inw port s := let '(v, d) := inw port s.1 in (v, (d, s.2));
  outw port v s := (outw port v s.1, s.2)
|}.

Section records.
Context {St A B : Type}.

(** [m] ends with a value, after at most [n] accesses; they keep [P], and [Q]
    holds of the value and the accesses. *)
Definition makes_accesses {A} (m : M (St * list PortEvent) A) (n : Z) (Q : A → list PortEvent → Prop) : Prop :=
  ∀ d log, ∃ a d' new, m (d, log) = (Ok a, (d', log ++ new)) ∧ zlen new <= n ∧ Q a new.

Lemma accesses_ret (a : A) n Q : 0 <= n → Q a [] → makes_accesses (mret a) n Q.
Proof. intros Hn HQ d log. exists a, d, []. by rewrite app_nil_r. Qed.

Lemma accesses_bind (m : M (St * list PortEvent) A) (f : A → M (St * list PortEvent) B) n1 n2 n Q1 Q :
  makes_accesses m n1 Q1 → n1 + n2 <= n →
  (∀ a l1, Q1 a l1 → makes_accesses (f a) n2 (λ b l2, Q b (l1 ++ l2))) → makes_accesses (m ≫= f) n Q.
Proof.
  intros Hm Hn Hf d log. destruct (Hm d log) as (a&d1&l1&E&Hl1&HQ1). destruct (Hf a l1 HQ1 d1 (log ++ l1)) as (b&d2&l2&E2&Hl2&HQ).
  exists b, d2, (l1 ++ l2). unfold mbind, M_bind. rewrite E, E2, app_assoc. split_and!; [done| |done].
  unfold zlen in *. rewrite length_app. lia.
Qed.

Lemma accesses_weaken (m : M (St * list PortEvent) A) n n' (Q Q' : A → list PortEvent → Prop) :
  makes_accesses m n Q → n <= n' → (∀ a l, Q a l → Q' a l) → makes_accesses m n' Q'.
Proof. intros Hm Hn HQ d log. destruct (Hm d log) as (a&d'&l&E&?&?). exists a, d', l. split_and!; [done|lia|auto]. Qed.
End records.

Section record_ports.
Context {St : Type} `{Ports St}.

Lemma accesses_in port (Q : Z → list PortEvent → Prop) : (∀ v, Q v [Inb port v]) → makes_accesses (St := St) (port_in port) 1 Q.
Proof.
  intros HQ d log. unfold port_in. cbn [inb logged_ports fst snd]. destruct (inb port d) as [v d'].
  by exists v, d', [Inb port v].
Qed.

Lemma accesses_out port v (Q : unit → list PortEvent → Prop) : Q tt [Outb port v] → makes_accesses (St := St) (port_out port v) 1 Q.
Proof. intros HQ d log. by exists tt, (outb port v d), [Outb port v]. Qed.
End record_ports.
