(* ===== verification/Ata.v ===== *)
(** The disk driver of kernel/src/ata.rs: programmed I/O of single sectors.

    The controller behind the ports is a parameter: [AtaController] states what
    the ATA standard says about them, for a status register that is current when
    it is read (the driver has no 400 ns delay after a command). The driver polls
    the status, at most 500,000 times per wait, and asks more than the standard
    gives: [BusyBitsClear], that the error and data request bits read as clear
    while the drive is busy, without which it takes data that is not there
    ([stale_request_reads_zeros]); and, to be a block device in every state
    ([Device.v]), [AlwaysAccepts], that a drive takes registers and commands even
    when an earlier transfer was given up. *)

From S2P Require Import Prelude Device.

(** ** Ports *)

Definition ATA_DATA : Z := 0x1F0.
Definition ATA_SECCOUNT : Z := 0x1F2.
Definition ATA_LBA_LO : Z := 0x1F3.
Definition ATA_LBA_MID : Z := 0x1F4.
Definition ATA_LBA_HI : Z := 0x1F5.
Definition ATA_DRIVE : Z := 0x1F6.
Definition ATA_STATUS : Z := 0x1F7.
Definition ATA_CMD : Z := 0x1F7.

Definition CMD_READ : Z := 0x20.
Definition CMD_WRITE : Z := 0x30.

Definition STATUS_BSY : Z := 0x80.
Definition STATUS_DRQ : Z := 0x08.
Definition STATUS_ERR : Z := 0x01.

Definition status_has (status bit : Z) : bool := negb (Z.land status bit =? 0).

(** How often a wait reads the status. *)
Definition POLLS : nat := Z.to_nat 500000.
Definition INIT_POLLS : nat := Z.to_nat 100000.

Section driver.
Context {St : Type} `{Ports St}.

(** [lba as u8] and so on: the bytes of the sector number. *)
Definition lba_byte (n lba : Z) : Z := Z.land (Z.shiftr lba n) 255.

(** The loops of [wait_not_busy] and [wait_drq]. *)
Fixpoint poll_until (settled : Z → bool) (timeout : string) (n : nat) : M St unit :=
  match n with
  | O => mthrow timeout
  | S n =>
      status ← port_in ATA_STATUS;
      if status_has status STATUS_ERR then mthrow "ata error"
      else if settled status then mret tt
      else poll_until settled timeout n
  end.

Definition not_busy (status : Z) : bool := negb (status_has status STATUS_BSY).
Definition wait_not_busy : M St unit := poll_until not_busy "ata busy timeout" POLLS.
Definition wait_drq : M St unit := poll_until (λ status, status_has status STATUS_DRQ) "ata drq timeout" POLLS.

Definition select_drive (lba : Z) : M St unit := port_out ATA_DRIVE (Z.lor 0xE0 (Z.land (lba_byte 24 lba) 0x0F)).

(** The registers of the transfer, then the command. *)
Definition start_command (lba command : Z) : M St unit :=
  _ ← port_out ATA_SECCOUNT 1;
  _ ← port_out ATA_LBA_LO (lba_byte 0 lba);
  _ ← port_out ATA_LBA_MID (lba_byte 8 lba);
  _ ← port_out ATA_LBA_HI (lba_byte 16 lba);
  port_out ATA_CMD command.

Definition word_bytes (word : Z) : list byte := [z2b (Z.land word 255); z2b (Z.land (Z.shiftr word 8) 255)].

(** [for chunk in buffer.chunks_mut(2)] *)
Fixpoint read_words (n : nat) : M St (list byte) :=
  match n with
  | O => mret []
  | S n => word ← port_in_word ATA_DATA; rest ← read_words n; mret (word_bytes word ++ rest)
  end.

(** [for chunk in buffer.chunks(2)] *)
Fixpoint write_words (bytes : list byte) : M St unit :=
  match bytes with
  | [] => mret tt
  | [low] => port_out_word ATA_DATA (b2z low)
  | low :: high :: rest => _ ← port_out_word ATA_DATA (Z.lor (b2z low) (Z.shiftl (b2z high) 8)); write_words rest
  end.

Definition ata_read_sector (lba : Z) : M St (list byte) :=
  _ ← select_drive lba;
  _ ← wait_not_busy;
  _ ← start_command lba CMD_READ;
  _ ← wait_drq;
  buffer ← read_words 256;
  _ ← wait_not_busy;
  mret buffer.

Definition ata_write_sector (lba : Z) (buffer : list byte) : M St unit :=
  _ ← select_drive lba;
  _ ← wait_not_busy;
  _ ← start_command lba CMD_WRITE;
  _ ← wait_drq;
  _ ← write_words buffer;
  wait_not_busy.

(** [init]: wait for the drive, but not for ever. *)
Fixpoint ata_init (n : nat) (s : St) : St :=
  match n with
  | O => s
  | S n =>
      let '(status, s) := inb ATA_STATUS s in
      if negb (status =? 0xFF) && not_busy status then s else ata_init n s
  end.
End driver.

(** ** What the controller promises *)

(** The registers a transfer is described in. *)
Record TaskFile := mk_task_file { tf_count : Z; tf_lo : Z; tf_mid : Z; tf_hi : Z; tf_drive : Z }.

(** A transfer waits until the controller asks for data, then takes or gives the
    words of one sector. *)
Inductive Phase :=
| AtRest
| ReadPending (words : list Z)
| ReadReady (words : list Z)
| WritePending (lba : Z)
| WriteReady (lba : Z) (words : list Z)
| Failed.

Record AtaView := mk_ata { medium : gmap Z (list byte); task_file : TaskFile; phase : Phase }.

Definition set_register (port value : Z) (tf : TaskFile) : TaskFile :=
  if port =? ATA_SECCOUNT then mk_task_file value (tf_lo tf) (tf_mid tf) (tf_hi tf) (tf_drive tf)
  else if port =? ATA_LBA_LO then mk_task_file (tf_count tf) value (tf_mid tf) (tf_hi tf) (tf_drive tf)
  else if port =? ATA_LBA_MID then mk_task_file (tf_count tf) (tf_lo tf) value (tf_hi tf) (tf_drive tf)
  else if port =? ATA_LBA_HI then mk_task_file (tf_count tf) (tf_lo tf) (tf_mid tf) value (tf_drive tf)
  else mk_task_file (tf_count tf) (tf_lo tf) (tf_mid tf) (tf_hi tf) value.

(** One sector of the master drive, by its 28-bit number. *)
Definition one_sector (tf : TaskFile) : bool := (tf_count tf =? 1) && (Z.land (tf_drive tf) 0xF0 =? 0xE0).
Definition selected (tf : TaskFile) : Z :=
  Z.lor (Z.lor (tf_lo tf) (Z.shiftl (tf_mid tf) 8)) (Z.lor (Z.shiftl (tf_hi tf) 16) (Z.shiftl (Z.land (tf_drive tf) 0x0F) 24)).

Fixpoint sector_words (bytes : list byte) : list Z :=
  match bytes with
  | low :: high :: rest => Z.lor (b2z low) (Z.shiftl (b2z high) 8) :: sector_words rest
  | _ => []
  end.

Definition words_sector (words : list Z) : list byte := words ≫= word_bytes.

(** The data request of a status reading starts the transfer. *)
Definition ready_phase (p : Phase) : Phase :=
  match p with ReadPending ws => ReadReady ws | WritePending lba => WriteReady lba [] | _ => p end.
Definition transferring (p : Phase) : bool :=
  match p with ReadPending _ | ReadReady _ | WritePending _ | WriteReady _ _ => true | _ => false end.

(** The transfer of a sector ends with its last word. *)
Definition after_read (words : list Z) : Phase := match words with [] => AtRest | _ => ReadReady words end.

Class AtaController (St : Type) `{Ports St} := {
  view : St → AtaView;
  (** no operation from here on fails *)
  healthy : St → Prop;
  (** readings of the status until it settles *)
  delay : St → nat;
  (** registers and commands are taken *)
  resting : St → Prop;
  medium_sized s : map_Forall (λ _ sec, length sec = 512%nat) (medium (view s));
  healthy_phase s : healthy s → phase (view s) ≠ Failed ∧ (delay s < POLLS)%nat;
  register_law port value s : resting s → port ∈ [ATA_SECCOUNT; ATA_LBA_LO; ATA_LBA_MID; ATA_LBA_HI; ATA_DRIVE] →
    let s' := outb port value s in
    view s' = mk_ata (medium (view s)) (set_register port value (task_file (view s))) (phase (view s)) ∧ resting s' ∧ (healthy s → healthy s');
  read_command_law s : resting s → one_sector (task_file (view s)) = true →
    let s' := outb ATA_CMD CMD_READ s in
    medium (view s') = medium (view s) ∧
    (phase (view s') = ReadPending (sector_words (sector_at (medium (view s)) (selected (task_file (view s))))) ∨
     phase (view s') = Failed ∧ ¬ healthy s) ∧
    (healthy s → healthy s');
  write_command_law s : resting s → one_sector (task_file (view s)) = true →
    let s' := outb ATA_CMD CMD_WRITE s in
    medium (view s') = medium (view s) ∧
    (phase (view s') = WritePending (selected (task_file (view s))) ∨ phase (view s') = Failed ∧ ¬ healthy s) ∧
    (healthy s → healthy s');
  (** while the busy bit is set, the other bits say nothing *)
  status_law s :
    let '(v, s') := inb ATA_STATUS s in
    medium (view s') = medium (view s) ∧ task_file (view s') = task_file (view s) ∧
    match phase (view s) with
    | Failed => phase (view s') = Failed ∧ (status_has v STATUS_ERR = true ∨ status_has v STATUS_BSY = true)
    | p =>
        if status_has v STATUS_BSY then phase (view s') = p
        else if status_has v STATUS_ERR then ¬ healthy s
        else if status_has v STATUS_DRQ then transferring p = true ∧ phase (view s') = ready_phase p
        else phase (view s') = p
    end ∧
    (status_has v STATUS_BSY = false → transferring (phase (view s)) = false → resting s') ∧
    (healthy s → healthy s' ∧ (status_has v STATUS_BSY = true ∨ transferring (phase (view s)) = true ∧ status_has v STATUS_DRQ = false →
       (delay s' < delay s)%nat));
  data_in_law s w ws : phase (view s) = ReadReady (w :: ws) →
    let '(v, s') := inw ATA_DATA s in
    v = w ∧ view s' = mk_ata (medium (view s)) (task_file (view s)) (after_read ws) ∧ (healthy s → healthy s');
  data_out_law s lba ws w : phase (view s) = WriteReady lba ws → (length ws < 256)%nat →
    let s' := outw ATA_DATA w s in
    (if (length ws =? 255)%nat
     then medium (view s') = <[lba := words_sector (ws ++ [w])]> (medium (view s)) ∧ phase (view s') = AtRest ∨
       (medium (view s') = medium (view s) ∨ medium (view s') = <[lba := words_sector (ws ++ [w])]> (medium (view s))) ∧
         phase (view s') = Failed ∧ ¬ healthy s
     else medium (view s') = medium (view s) ∧ phase (view s') = WriteReady lba (ws ++ [w])) ∧
    (healthy s → healthy s')
}.

(** What the driver asks beyond the standard: it looks at the error and the data
    request without looking at the busy bit. *)
Class BusyBitsClear (St : Type) `{AtaController St} :=
  busy_bits s : let '(v, _) := inb ATA_STATUS s in
    status_has v STATUS_BSY = true → status_has v STATUS_ERR = false ∧ status_has v STATUS_DRQ = false.

(** It gives up a transfer that takes too long, and then goes on. *)
Class AlwaysAccepts (St : Type) `{AtaController St} := accepts (s : St) : resting s.

(** A drive between two operations. *)
Definition idle {St} `{AtaController St} (s : St) : Prop := resting s ∧ transferring (phase (view s)) = false.

(** ** The driver keeps the law of a block device *)

Lemma low_bits a b : 0 <= a < 256 → Z.land (Z.lor a (Z.shiftl b 8)) 255 = a.
Proof.
  intros Ha. change 255 with (Z.ones 8). apply Z.bits_inj'. intros n Hn. rewrite Z.land_spec, Z.lor_spec, Z.shiftl_spec by done.
  replace a with (a mod 2 ^ 8) by (apply Z.mod_small; lia). destruct (Z.ltb_spec n 8).
  - rewrite Z.ones_spec_low by lia. rewrite (Z.testbit_neg_r b) by lia. by rewrite orb_false_r, andb_true_r.
  - rewrite Z.ones_spec_high by lia. rewrite andb_false_r. symmetry. apply Z.mod_pow2_bits_high. lia.
Qed.

Lemma high_bits a b : 0 <= a < 256 → 0 <= b < 256 → Z.land (Z.shiftr (Z.lor a (Z.shiftl b 8)) 8) 255 = b.
Proof.
  intros Ha Hb. change 255 with (Z.ones 8). apply Z.bits_inj'. intros n Hn.
  rewrite Z.land_spec, Z.shiftr_spec, Z.lor_spec, Z.shiftl_spec by lia. replace (n + 8 - 8) with n by lia.
  replace a with (a mod 2 ^ 8) by (apply Z.mod_small; lia). rewrite Z.mod_pow2_bits_high by lia. rewrite orb_false_l.
  destruct (Z.ltb_spec n 8); [by rewrite Z.ones_spec_low, andb_true_r by lia|].
  rewrite Z.ones_spec_high, andb_false_r by lia. replace b with (b mod 2 ^ 8) by (apply Z.mod_small; lia).
  symmetry. apply Z.mod_pow2_bits_high. lia.
Qed.

Lemma word_bytes_pair low high : word_bytes (Z.lor (b2z low) (Z.shiftl (b2z high) 8)) = [low; high].
Proof.
  unfold word_bytes. rewrite low_bits, high_bits by apply b2z_range. by rewrite !z2b_b2z.
Qed.

(** The words of a sector are its bytes. *)
Lemma words_of_sector n bytes : length bytes = (2 * n)%nat → words_sector (sector_words bytes) = bytes ∧ length (sector_words bytes) = n.
Proof.
  revert bytes. induction n as [|n IH]; intros bytes Hl; [by destruct bytes|].
  destruct bytes as [|low [|high bytes]]; [simpl in Hl; lia..|]. destruct (IH bytes) as [E1 E2]; [simpl in Hl; lia|].
  cbn [sector_words length]. unfold words_sector in *. cbn [mbind list_bind]. rewrite word_bytes_pair, E1, E2. done.
Qed.

(** The registers name a sector by 28 bits: a number beyond them wraps. *)
Lemma selected_lba lba count :
  selected (mk_task_file count (lba_byte 0 lba) (lba_byte 8 lba) (lba_byte 16 lba) (Z.lor 0xE0 (Z.land (lba_byte 24 lba) 0x0F))) = lba mod 2 ^ 28.
Proof.
  unfold selected, lba_byte. cbn [tf_lo tf_mid tf_hi tf_drive].
  change 255 with (Z.ones 8). change 0x0F with (Z.ones 4). apply Z.bits_inj'. intros n Hn.
  assert (∀ k i, 0 <= k → Z.testbit (Z.ones k) i = (0 <=? i) && (i <? k)) as Hones.
  { intros k i Hk. destruct (Z.leb_spec 0 i); [|by rewrite Z.testbit_neg_r by lia].
    destruct (Z.ltb_spec i k); [by rewrite Z.ones_spec_low by lia|by rewrite Z.ones_spec_high by lia]. }
  assert (∀ i, 0 <= i < 4 → Z.testbit 0xE0 i = false) as He.
  { intros i Hi. assert (i = 0 ∨ i = 1 ∨ i = 2 ∨ i = 3) as [-> | [-> | [-> | ->]]] by lia; done. }
  assert (∀ k, Z.testbit (Z.shiftr lba k) (n - k) = if n <? k then false else Z.testbit lba n) as Hs.
  { intros k. destruct (Z.ltb_spec n k); [by rewrite Z.testbit_neg_r by lia|]. rewrite Z.shiftr_spec by lia. f_equal. lia. }
  assert (Z.testbit (lba mod 2 ^ 28) n = if n <? 28 then Z.testbit lba n else false) as ->.
  { destruct (Z.ltb_spec n 28); [by apply Z.mod_pow2_bits_low|apply Z.mod_pow2_bits_high; lia]. }
  rewrite !Z.lor_spec, !Z.shiftl_spec, !Z.land_spec, !Z.lor_spec, !Z.land_spec, !Hones by lia.
  rewrite (Hs 8), (Hs 16), (Hs 24), (Z.shiftr_0_r lba).
  assert (n < 8 ∨ 8 <= n < 16 ∨ 16 <= n < 24 ∨ 24 <= n < 28 ∨ 28 <= n) as Hc by lia.
  destruct Hc as [Hc|[Hc|[Hc|[Hc|Hc]]]];
    repeat match goal with
      | |- context [?x <? ?y] => first [rewrite (proj2 (Z.ltb_lt x y)) by lia | rewrite (proj2 (Z.ltb_ge x y)) by lia]
      | |- context [?x <=? ?y] => first [rewrite (proj2 (Z.leb_le x y)) by lia | rewrite (proj2 (Z.leb_gt x y)) by lia]
      end; rewrite ?andb_true_r, ?andb_false_r, ?orb_false_r, ?orb_false_l; try done.
  rewrite He by lia. done.
Qed.

Section law.
Context {St : Type} `{AtaController St} `{!BusyBitsClear St}.
Implicit Types (s : St).

(** What every step of the driver keeps. *)
Definition same_medium s s' : Prop := medium (view s') = medium (view s).
Definition keeps_health s s' : Prop := healthy s → healthy s'.

Lemma wp_port_out port value (Q : unit → St → Prop) E s : Q tt (outb port value s) → wp (port_out port value) Q E s.
Proof. done. Qed.

Lemma wp_port_in port (Q : Z → St → Prop) E s : (let '(v, s') := inb port s in Q v s') → wp (port_in port) Q E s.
Proof. unfold wp, port_in. by destruct (inb port s). Qed.

(** A reading of the status, with the bits that are clear while it is busy. *)
Lemma reading s : let '(v, s') := inb ATA_STATUS s in
  medium (view s') = medium (view s) ∧ task_file (view s') = task_file (view s) ∧
  match phase (view s) with
  | Failed => phase (view s') = Failed ∧ (status_has v STATUS_ERR = true ∨ status_has v STATUS_BSY = true ∧ status_has v STATUS_DRQ = false)
  | p =>
      if status_has v STATUS_ERR then ¬ healthy s
      else if status_has v STATUS_DRQ then transferring p = true ∧ phase (view s') = ready_phase p
      else phase (view s') = p
  end ∧
  (status_has v STATUS_BSY = false → transferring (phase (view s)) = false → resting s') ∧
  (healthy s → healthy s' ∧ (status_has v STATUS_BSY = true ∨ transferring (phase (view s)) = true ∧ status_has v STATUS_DRQ = false →
     (delay s' < delay s)%nat)).
Proof using All.
  pose proof (status_law s) as Hlaw. pose proof (busy_bits s) as Hbits. destruct (inb ATA_STATUS s) as [v s'].
  destruct Hlaw as (Hm&Htf&Hph&Hrest&Hh). split_and!; [done|done| |done|done].
  destruct (status_has v STATUS_BSY) eqn:Hb; [destruct (Hbits eq_refl) as [-> ->]|]; destruct (phase (view s)); try done;
    destruct Hph as [? [?|?]]; split; auto; try discriminate.
Qed.

(** A wait ends settled, or fails on a controller that is not healthy. *)
Lemma wp_not_busy_loop n s :
  wp (poll_until not_busy "ata busy timeout" n)
    (λ _ s', same_medium s s' ∧ task_file (view s') = task_file (view s) ∧ keeps_health s s' ∧ phase (view s) ≠ Failed ∧
       (transferring (phase (view s)) = false → idle s'))
    (λ _ s', same_medium s s' ∧ ((delay s < n)%nat → ¬ healthy s)) s.
Proof using All.
  revert s. induction n as [|n IH]; intros s; cbn [poll_until].
  { wp_step. split; [done|lia]. }
  wp_step. apply wp_port_in. pose proof (reading s) as Hlaw. destruct (inb ATA_STATUS s) as [v s1].
  destruct Hlaw as (Hm&Htf&Hph&Hrest&Hh).
  destruct (status_has v STATUS_ERR) eqn:Herr.
  { wp_step. split; [done|]. intros _ Hhs. destruct (healthy_phase s Hhs) as [Hnf _]. by destruct (phase (view s)). }
  assert (transferring (phase (view s)) = false → phase (view s) ≠ Failed → phase (view s1) = phase (view s)) as Hsame.
  { intros Ht Hnf. destruct (status_has v STATUS_DRQ); destruct (phase (view s)); try done; by destruct Hph. }
  assert (phase (view s) = Failed → phase (view s1) = Failed ∧ status_has v STATUS_BSY = true) as Hfail.
  { intros Hf. rewrite Hf in Hph. by destruct Hph as [? [?|[? _]]]. }
  unfold not_busy. destruct (status_has v STATUS_BSY) eqn:Hb; cbn [negb].
  - eapply wp_mono; [apply IH| |].
    + intros _ s2 (Hm2&Htf2&Hk2&Hnf&Hidle). unfold same_medium, keeps_health in *. split_and!; [congruence|congruence|intros Hs; by apply Hk2, Hh| |].
      * intros Hf. by destruct (Hfail Hf).
      * intros Ht. apply Hidle. rewrite Hsame; [done|done|]. intros Hf. by destruct (Hfail Hf).
    + intros _ s2 [Hm2 Hd]. unfold same_medium in *. split; [congruence|]. intros Hlt Hs. destruct (Hh Hs) as [Hs1 Hdel].
      specialize (Hdel (or_introl eq_refl)). by apply Hd; [lia|].
  - wp_step. assert (phase (view s) ≠ Failed) as Hnf by (intros Hf; by destruct (Hfail Hf)).
    split_and!; [done|done|intros Hs; by apply Hh|done|]. intros Ht. split; [by apply Hrest|]. by rewrite Hsame.
Qed.

Lemma wp_drq_loop n s : transferring (phase (view s)) = true ∨ phase (view s) = Failed →
  wp (poll_until (λ status, status_has status STATUS_DRQ) "ata drq timeout" n)
    (λ _ s', same_medium s s' ∧ keeps_health s s' ∧ transferring (phase (view s)) = true ∧ phase (view s') = ready_phase (phase (view s)))
    (λ _ s', same_medium s s' ∧ ((delay s < n)%nat → ¬ healthy s)) s.
Proof using All.
  revert s. induction n as [|n IH]; intros s Ht; cbn [poll_until].
  { wp_step. split; [done|lia]. }
  wp_step. apply wp_port_in. pose proof (reading s) as Hlaw. destruct (inb ATA_STATUS s) as [v s1].
  destruct Hlaw as (Hm&Htf&Hph&_&Hh).
  destruct (status_has v STATUS_ERR) eqn:Herr.
  { wp_step. split; [done|]. intros _ Hhs. destruct (healthy_phase s Hhs) as [Hnf _]. by destruct (phase (view s)). }
  destruct (status_has v STATUS_DRQ) eqn:Hd.
  - wp_step. destruct Ht as [Ht|Hf].
    + split_and!; [done|intros Hs; by apply Hh|done|]. by destruct (phase (view s)); destruct Hph.
    + rewrite Hf in Hph. destruct Hph as [_ [?|[_ ?]]]; congruence.
  - assert (phase (view s1) = phase (view s)) as Hp by (destruct (phase (view s)); [done..|by destruct Hph]).
    eapply wp_mono; [apply IH; by rewrite Hp| |].
    + intros _ s2 (Hm2&Hk2&Ht2&Hp2). unfold same_medium, keeps_health in *. rewrite Hp in *. split_and!; [congruence| |done|done].
      intros Hs. by apply Hk2, Hh.
    + intros _ s2 [Hm2 Hdel]. unfold same_medium in *. split; [congruence|]. intros Hlt Hs. destruct (Hh Hs) as [Hs1 Hless].
      destruct (healthy_phase s Hs) as [Hnf _]. destruct Ht as [Ht|?]; [|done].
      specialize (Hless (or_intror (conj Ht eq_refl))). by apply Hdel; [lia|].
Qed.

Lemma wp_wait_not_busy s :
  wp wait_not_busy
    (λ _ s', same_medium s s' ∧ task_file (view s') = task_file (view s) ∧ keeps_health s s' ∧ phase (view s) ≠ Failed ∧
       (transferring (phase (view s)) = false → idle s'))
    (λ _ s', same_medium s s' ∧ ¬ healthy s) s.
Proof using All.
  eapply wp_mono; [apply wp_not_busy_loop|done|]. intros _ s' [Hm Hd]. split; [done|]. intros Hs.
  apply Hd; [|done]. by apply healthy_phase.
Qed.

Lemma wp_wait_drq s : transferring (phase (view s)) = true ∨ phase (view s) = Failed →
  wp wait_drq
    (λ _ s', same_medium s s' ∧ keeps_health s s' ∧ transferring (phase (view s)) = true ∧ phase (view s') = ready_phase (phase (view s)))
    (λ _ s', same_medium s s' ∧ ¬ healthy s) s.
Proof using All.
  intros Ht. eapply wp_mono; [by apply wp_drq_loop|done|]. intros _ s' [Hm Hd]. split; [done|]. intros Hs.
  apply Hd; [|done]. by apply healthy_phase.
Qed.

(** A drive that takes the operation: it is idle, or takes everything. *)
Definition ready_for s : Prop := idle s ∨ ∀ s', resting s'.

(** Selecting the drive, and the registers of a transfer. *)
Lemma wp_select lba (Q : unit → St → Prop) E s :
  ready_for s →
  (∀ s', same_medium s s' → tf_drive (task_file (view s')) = Z.lor 0xE0 (Z.land (lba_byte 24 lba) 0x0F) → keeps_health s s' → ready_for s' → Q tt s') →
  wp (select_drive lba) Q E s.
Proof.
  intros Hready HQ. apply wp_port_out. assert (resting s) as Hrest by (by destruct Hready as [[? _]|]).
  destruct (register_law ATA_DRIVE (Z.lor 0xE0 (Z.land (lba_byte 24 lba) 0x0F)) s Hrest) as (Hv&Hr&Hh); [set_solver|].
  apply HQ; [unfold same_medium; by rewrite Hv|by rewrite Hv|exact Hh|].
  destruct Hready as [[_ Ht]|?]; [left; split; [done|by rewrite Hv]|by right].
Qed.

Lemma drive_select lba : Z.land (Z.lor 0xE0 (Z.land (lba_byte 24 lba) 0x0F)) 0xF0 = 0xE0.
Proof.
  unfold lba_byte. rewrite Z.land_lor_distr_l, <- !Z.land_assoc. change (Z.land 0x0F 0xF0) with 0. rewrite !Z.land_0_r. done.
Qed.

Lemma wp_registers lba command (Q : unit → St → Prop) E s :
  resting s → tf_drive (task_file (view s)) = Z.lor 0xE0 (Z.land (lba_byte 24 lba) 0x0F) →
  (∀ s', same_medium s s' → keeps_health s s' → resting s' → one_sector (task_file (view s')) = true → selected (task_file (view s')) = lba mod 2 ^ 28 →
     Q tt (outb ATA_CMD command s')) →
  wp (start_command lba command) Q E s.
Proof.
  intros Hr Hd HQ. unfold start_command.
  wp_step. apply wp_port_out. destruct (register_law ATA_SECCOUNT 1 s Hr ltac:(set_solver)) as (Hv1&Hr1&Hh1). set (s1 := outb ATA_SECCOUNT 1 s) in *.
  wp_step. apply wp_port_out. destruct (register_law ATA_LBA_LO (lba_byte 0 lba) s1 Hr1 ltac:(set_solver)) as (Hv2&Hr2&Hh2). set (s2 := outb ATA_LBA_LO (lba_byte 0 lba) s1) in *.
  wp_step. apply wp_port_out. destruct (register_law ATA_LBA_MID (lba_byte 8 lba) s2 Hr2 ltac:(set_solver)) as (Hv3&Hr3&Hh3). set (s3 := outb ATA_LBA_MID (lba_byte 8 lba) s2) in *.
  wp_step. apply wp_port_out. destruct (register_law ATA_LBA_HI (lba_byte 16 lba) s3 Hr3 ltac:(set_solver)) as (Hv4&Hr4&Hh4). set (s4 := outb ATA_LBA_HI (lba_byte 16 lba) s3) in *.
  assert (task_file (view s4) = mk_task_file 1 (lba_byte 0 lba) (lba_byte 8 lba) (lba_byte 16 lba) (Z.lor 0xE0 (Z.land (lba_byte 24 lba) 0x0F))) as Htf.
  { rewrite Hv4. cbn [task_file]. rewrite Hv3. cbn [task_file]. rewrite Hv2. cbn [task_file]. rewrite Hv1. cbn [task_file].
    unfold set_register. cbn. by rewrite Hd. }
  apply wp_port_out, HQ.
  - unfold same_medium. by rewrite Hv4, Hv3, Hv2, Hv1.
  - unfold keeps_health. auto.
  - done.
  - rewrite Htf. unfold one_sector. cbn [tf_count tf_drive]. by rewrite drive_select.
  - rewrite Htf. apply selected_lba.
Qed.

Lemma wp_read_words ws s : (ws ≠ [] → phase (view s) = ReadReady ws) →
  wp (read_words (length ws))
    (λ bytes s', bytes = words_sector ws ∧ same_medium s s' ∧ keeps_health s s' ∧ phase (view s') = match ws with [] => phase (view s) | _ => AtRest end)
    (λ _ _, False) s.
Proof.
  revert s. induction ws as [|w ws IH]; intros s Hp; cbn [length read_words].
  { wp_step. split_and!; [done|done|by intros ?|done]. }
  wp_step. pose proof (data_in_law s w ws (Hp ltac:(done))) as Hlaw. unfold port_in_word, wp at 1. destruct (inw ATA_DATA s) as [v s1].
  destruct Hlaw as (->&Hv&Hh). wp_step. eapply wp_mono; [apply (IH s1); rewrite Hv; by destruct ws| |done].
  intros bytes s2 (->&Hm&Hk&Hp2). wp_step. unfold same_medium, keeps_health in *. split_and!; [done|by rewrite Hm, Hv|auto|].
  rewrite Hp2. destruct ws; [by rewrite Hv|done].
Qed.

(** Giving the words of the sector: the last one writes it, or the controller
    has failed. *)
Lemma wp_write_words lba n bytes ws s : phase (view s) = WriteReady lba ws → length bytes = (2 * n)%nat → (0 < n)%nat → (length ws + n = 256)%nat →
  wp (write_words bytes)
    (λ _ s', let written := <[lba := words_sector (ws ++ sector_words bytes)]> (medium (view s)) in
       keeps_health s s' ∧
       (medium (view s') = written ∧ phase (view s') = AtRest ∨
        (medium (view s') = medium (view s) ∨ medium (view s') = written) ∧ phase (view s') = Failed ∧ ¬ healthy s))
    (λ _ _, False) s.
Proof.
  revert bytes ws s. induction n as [|n IH]; intros bytes ws s Hp Hl Hn Hw; [lia|].
  destruct bytes as [|low [|high bytes]]; [simpl in Hl; lia..|]. cbn [write_words sector_words].
  set (w := Z.lor (b2z low) (Z.shiftl (b2z high) 8)). wp_step. unfold port_out_word, wp at 1.
  destruct (data_out_law s lba ws w Hp ltac:(lia)) as [Hlaw Hh]. set (s1 := outw ATA_DATA w s) in *.
  destruct (Nat.eqb_spec (length ws) 255) as [E|E].
  - assert (bytes = []) as -> by (destruct bytes; [done|simpl in Hl; lia]). cbn [write_words sector_words]. wp_step. split; [exact Hh|exact Hlaw].
  - destruct Hlaw as [Hm1 Hp1]. eapply wp_mono; [apply (IH bytes (ws ++ [w]) s1 Hp1); simpl in Hl; rewrite ?length_app; simpl; lia| |done].
    intros _ s2 [Hk Hcase]. rewrite <- app_assoc, Hm1 in Hcase. unfold keeps_health in *. split; [auto|].
    destruct Hcase as [?|(?&?&Hns)]; [by left|]. right. split_and!; [done|done|auto].
Qed.

(** The wait before a command leaves a drive that takes it. *)
Lemma wp_ready s (Q : unit → St → Prop) (E : string → St → Prop) : ready_for s →
  (∀ s', same_medium s s' → task_file (view s') = task_file (view s) → keeps_health s s' → resting s' → Q tt s') →
  (∀ e s', same_medium s s' → ¬ healthy s → E e s') →
  wp wait_not_busy Q E s.
Proof using All.
  intros Hready HQ HE. eapply wp_mono; [apply wp_wait_not_busy| |].
  - intros [] s' (Hm&Htf&Hk&_&Hidle). apply HQ; [done..|]. destruct Hready as [[_ Ht]|Hall]; [by apply Hidle|by apply Hall].
  - intros e s' [? ?]. by apply HE.
Qed.

Lemma wp_ata_read lba s : ready_for s →
  wp (ata_read_sector lba)
    (λ sec s', sec = sector_at (medium (view s)) (lba mod 2 ^ 28) ∧ medium (view s') = medium (view s) ∧ (healthy s → healthy s') ∧ idle s')
    (λ _ s', medium (view s') = medium (view s) ∧ ¬ healthy s) s.
Proof using All.
  intros Hready. unfold ata_read_sector. wp_step. apply (wp_select _ _ _ _ Hready). intros s1 Hm1 Hd1 Hk1 Hr1.
  wp_step. apply wp_ready; [done| |].
  2:{ intros _ s2 Hm2 Hh2. unfold same_medium, keeps_health in *. split; [congruence|auto]. }
  intros s2 Hm2 Htf2 Hk2 Hr2. wp_step. apply wp_registers; [done|by rewrite Htf2|]. intros s3 Hm3 Hk3 Hr3 Hone Hsel.
  destruct (read_command_law s3 Hr3 Hone) as (Hm4&Hp4&Hk4). set (s4 := outb ATA_CMD CMD_READ s3) in *. rewrite Hsel in Hp4.
  wp_step. eapply wp_mono; [apply wp_wait_drq| |].
  { destruct Hp4 as [Hp|[Hp _]]; rewrite Hp; auto. }
  2:{ intros _ s5 [Hm5 Hh5]. unfold same_medium, keeps_health in *. split; [congruence|auto 8]. }
  intros _ s5 (Hm5&Hk5&Ht5&Hp5). destruct Hp4 as [Hp4|[Hp4 _]]; [|by rewrite Hp4 in Ht5].
  rewrite Hp4 in Hp5. cbn [ready_phase] in Hp5. set (sec := sector_at (medium (view s3)) (lba mod 2 ^ 28)) in *.
  assert (length sec = 512%nat) as Hlen.
  { unfold sec, sector_at. destruct (medium (view s3) !! (lba mod 2 ^ 28)) as [x|] eqn:E; [|done]. simpl. by apply (medium_sized s3 _ x E). }
  destruct (words_of_sector 256 sec Hlen) as [Hback Hwords].
  wp_step. rewrite <- Hwords. eapply wp_mono; [by apply wp_read_words| |done]. intros bytes s6 (->&Hm6&Hk6&Hp6).
  wp_step. eapply wp_mono; [apply wp_wait_not_busy| |]; unfold same_medium, keeps_health in *.
  - intros _ s7 (Hm7&_&Hk7&_&Hidle). wp_step. rewrite Hback. split_and!; [|congruence|auto 12|].
    + unfold sec, sector_at. do 2 f_equal. congruence.
    + apply Hidle. rewrite Hp6. destruct (sector_words sec); [by rewrite <- Hwords in Hlen|done].
  - intros _ s7 [Hm7 Hh7]. split; [congruence|auto 12].
Qed.

Lemma wp_ata_write lba sec s : ready_for s → addressable lba → length sec = 512%nat →
  wp (ata_write_sector lba sec)
    (λ _ s', medium (view s') = <[lba := sec]> (medium (view s)) ∧ (healthy s → healthy s') ∧ idle s')
    (λ _ s', (medium (view s') = medium (view s) ∨ medium (view s') = <[lba := sec]> (medium (view s))) ∧ ¬ healthy s) s.
Proof using All.
  intros Hready Hl Hlen. unfold ata_write_sector. wp_step. apply (wp_select _ _ _ _ Hready). intros s1 Hm1 Hd1 Hk1 Hr1.
  wp_step. apply wp_ready; [done| |].
  2:{ intros _ s2 Hm2 Hh2. unfold same_medium, keeps_health in *. split; [left; congruence|auto]. }
  intros s2 Hm2 Htf2 Hk2 Hr2. wp_step. apply wp_registers; [done|by rewrite Htf2|]. intros s3 Hm3 Hk3 Hr3 Hone Hsel.
  rewrite Z.mod_small in Hsel by done.
  destruct (write_command_law s3 Hr3 Hone) as (Hm4&Hp4&Hk4). set (s4 := outb ATA_CMD CMD_WRITE s3) in *. rewrite Hsel in Hp4.
  wp_step. eapply wp_mono; [apply wp_wait_drq| |].
  { destruct Hp4 as [Hp|[Hp _]]; rewrite Hp; auto. }
  2:{ intros _ s5 [Hm5 Hh5]. unfold same_medium, keeps_health in *. split; [left; congruence|auto 8]. }
  intros _ s5 (Hm5&Hk5&Ht5&Hp5). destruct Hp4 as [Hp4|[Hp4 _]]; [|by rewrite Hp4 in Ht5].
  rewrite Hp4 in Hp5. cbn [ready_phase] in Hp5. destruct (words_of_sector 256 sec Hlen) as [Hback _].
  assert (medium (view s5) = medium (view s)) as Hm by (unfold same_medium in *; congruence).
  wp_step. eapply wp_mono; [apply (wp_write_words lba 256 sec [] s5 Hp5); [exact Hlen|lia|done]| |done].
  intros _ s6 [Hk6 Hcase]. cbv zeta in Hcase. cbn [app] in Hcase. rewrite Hback, Hm in Hcase.
  eapply wp_mono; [apply wp_wait_not_busy| |]; unfold same_medium, keeps_health in *.
  - intros _ s7 (Hm7&_&Hk7&Hnf&Hidle). destruct Hcase as [[Hw Hp]|(_&?&_)]; [|by destruct Hnf].
    split_and!; [by rewrite Hm7|auto 12|]. apply Hidle. by rewrite Hp.
  - intros _ s7 [Hm7 Hh7]. rewrite Hm7. split; [|auto 12]. destruct Hcase as [[? _]|(?&_&_)]; auto.
Qed.

(** On a controller that works, what was written is what is read. *)
Lemma ata_write_then_read lba sec s : idle s → addressable lba → length sec = 512%nat → healthy s →
  ∃ s1 s2, ata_write_sector lba sec s = (Ok tt, s1) ∧ ata_read_sector lba s1 = (Ok sec, s2) ∧
    medium (view s2) = <[lba := sec]> (medium (view s)) ∧ healthy s2 ∧ idle s2.
Proof using All.
  intros Hi Hl Hlen Hs. pose proof (wp_ata_write lba sec s (or_introl Hi) Hl Hlen) as Hw. unfold wp in Hw.
  destruct (ata_write_sector lba sec s) as [[[]|e] s1]; [|tauto]. destruct Hw as (Hm1&Hs1&Hi1). specialize (Hs1 Hs).
  pose proof (wp_ata_read lba s1 (or_introl Hi1)) as Hr. unfold wp in Hr.
  destruct (ata_read_sector lba s1) as [[x|e] s2] eqn:E; [|tauto]. destruct Hr as (->&Hm2&Hs2&Hi2).
  exists s1, s2. rewrite Z.mod_small, Hm1, sector_at_insert in E by done. split_and!; [done|exact E|congruence|auto|done].
Qed.
End law.

Section disk.
Context {St : Type} `{AtaController St}.
Implicit Types (s : St).

(** The disk as the filesystems see it. *)
#[export] Instance ata_device : BlockDevice St := {|
  read_sector := ata_read_sector;
  write_sector := ata_write_sector;
  platter s := medium (view s);
  reliable := healthy
|}.

#[export] Instance ata_device_spec `{!BusyBitsClear St} `{!AlwaysAccepts St} : BlockDeviceSpec St.
Proof.
  assert (∀ s, ready_for s) as Hready by (intros s; right; apply accepts).
  split; [apply medium_sized| |].
  - intros lba s. eapply wp_mono; [by apply wp_ata_read| |done]. intros sec s' (->&Hm&Hk&_). split_and!; [|done|done].
    intros Hl. by rewrite Z.mod_small.
  - intros lba sec s Hl Hlen. eapply wp_mono; [by apply wp_ata_write| |done]. by intros _ s' (?&?&_).
Qed.

(** Waiting for the drive leaves the medium. *)
Lemma ata_init_keeps n s : medium (view (ata_init n s)) = medium (view s) ∧ (healthy s → healthy (ata_init n s)).
Proof.
  revert s. induction n as [|n IH]; intros s; cbn [ata_init]; [done|]. pose proof (status_law s) as Hs.
  destruct (inb ATA_STATUS s) as [v s']. destruct Hs as (Hm&_&_&_&Hh).
  assert (healthy s → healthy s') as Hh' by (intros H1; by destruct (Hh H1)). destruct (_ && _); [done|].
  destruct (IH s') as [Hm' Hk]. split; [congruence|auto].
Qed.

(** A command that failed leaves the error in the status register until the next
    command, and the driver waits for it to go before it gives one. *)
Lemma failed_wait t n s : phase (view s) = Failed →
  wp (poll_until not_busy t n) (λ _ _, False) (λ _ s', phase (view s') = Failed) s.
Proof.
  revert s. induction n as [|n IH]; intros s Hp; cbn [poll_until]; [by wp_step|].
  wp_step. apply wp_port_in. pose proof (status_law s) as Hlaw. rewrite Hp in Hlaw. destruct (inb ATA_STATUS s) as [v s1].
  destruct Hlaw as (_&_&[Hp1 Hst]&_). destruct (status_has v STATUS_ERR); [by wp_step|]. destruct Hst as [?|Hb]; [done|].
  unfold not_busy. rewrite Hb. by apply IH.
Qed.

Lemma failed_disk_stays_failed lba sec s : resting s → phase (view s) = Failed →
  wp (ata_read_sector lba) (λ _ _, False) (λ _ s', phase (view s') = Failed) s ∧
  wp (ata_write_sector lba sec) (λ _ _, False) (λ _ s', phase (view s') = Failed) s.
Proof.
  intros Hr Hp. unfold ata_read_sector, ata_write_sector, select_drive.
  destruct (register_law ATA_DRIVE (Z.lor 0xE0 (Z.land (lba_byte 24 lba) 0x0F)) s Hr) as [Hv _]; [set_solver|].
  split; wp_step; apply wp_port_out; wp_step;
    (eapply wp_mono; [apply failed_wait; rewrite Hv; exact Hp|by intros ??|done]).
Qed.
End disk.

(** ** A simulated controller *)

(** The drive takes [lag] status readings for every command, and each command
    meets the fault at the head of the schedule. With [noise], the data request
    bit is set while the drive is busy: the standard gives it no meaning then. *)
Record ata_sim (noise : bool) := AtaSim {
  platters : gmap Z (list byte);
  registers : TaskFile;
  doing : Phase;
  lag : nat;
  wait_left : nat;
  schedule : list fault
}.
Arguments AtaSim {noise}.
Arguments platters {noise}.
Arguments registers {noise}.
Arguments doing {noise}.
Arguments lag {noise}.
Arguments wait_left {noise}.
Arguments schedule {noise}.

Section sim.
Context {noise : bool}.

Definition sim_medium (s : ata_sim noise) : gmap Z (list byte) := resize 512 Byte.x00 <$> platters s.
Definition sim_view (s : ata_sim noise) : AtaView := mk_ata (sim_medium s) (registers s) (doing s).
Definition sim_doing (p : Phase) (s : ata_sim noise) : ata_sim noise := AtaSim (platters s) (registers s) p (lag s) (wait_left s) (schedule s).
Definition sim_start (p : Phase) (s : ata_sim noise) : ata_sim noise := AtaSim (platters s) (registers s) p (lag s) (lag s) (schedule s).
Definition sim_next (s : ata_sim noise) : ata_sim noise := AtaSim (platters s) (registers s) (doing s) (lag s) (wait_left s) (tail (schedule s)).
Definition sim_fault (s : ata_sim noise) : fault := default Fine (head (schedule s)).

Definition sim_command (command : Z) (s : ata_sim noise) : ata_sim noise :=
  if negb (one_sector (registers s)) then sim_doing Failed s
  else if command =? CMD_READ then
    match sim_fault s with
    | Fine => sim_start (ReadPending (sector_words (sector_at (sim_medium s) (selected (registers s))))) (sim_next s)
    | _ => sim_doing Failed (sim_next s)
    end
  else
    match sim_fault s with
    | Lost => sim_doing Failed (sim_next s)
    | _ => sim_start (WritePending (selected (registers s))) s
    end.

Definition sim_outb (port value : Z) (s : ata_sim noise) : ata_sim noise :=
  if port =? ATA_CMD then sim_command value s
  else AtaSim (platters s) (set_register port value (registers s)) (doing s) (lag s) (wait_left s) (schedule s).

Definition busy_status : Z := if noise then 0x88 else STATUS_BSY.

Definition sim_inb (port : Z) (s : ata_sim noise) : Z * ata_sim noise :=
  match doing s, wait_left s with
  | Failed, _ => (0x41, s)
  | _, S n => (busy_status, AtaSim (platters s) (registers s) (doing s) (lag s) n (schedule s))
  | p, O => if transferring p then (0x48, sim_doing (ready_phase p) s) else (0x40, s)
  end.

Definition sim_inw (port : Z) (s : ata_sim noise) : Z * ata_sim noise :=
  match doing s with
  | ReadReady (w :: ws) => (w, sim_doing (after_read ws) s)
  | _ => (0, s)
  end.

Definition sim_outw (port word : Z) (s : ata_sim noise) : ata_sim noise :=
  match doing s with
  | WriteReady lba ws =>
      let ws' := ws ++ [word] in
      if (length ws =? 255)%nat then
        AtaSim (<[lba := words_sector ws']> (platters s)) (registers s) (if decide (sim_fault s = Fine) then AtRest else Failed)
          (lag s) (lag s) (tail (schedule s))
      else sim_doing (WriteReady lba ws') s
  | _ => s
  end.

#[export] Instance sim_ports : Ports (ata_sim noise) := {| inb := sim_inb; outb := sim_outb; inw := sim_inw; outw := sim_outw |}.

Definition sim_healthy (s : ata_sim noise) : Prop :=
  doing s ≠ Failed ∧ Forall (λ f, f = Fine) (schedule s) ∧ (lag s < POLLS)%nat ∧ (wait_left s < POLLS)%nat.

Lemma busy_status_busy : status_has busy_status STATUS_BSY = true.
Proof. unfold busy_status. by destruct noise. Qed.

Lemma sim_fine s : sim_healthy s → sim_fault s = Fine ∧ Forall (λ f, f = Fine) (tail (schedule s)).
Proof.
  intros (_&Hf&_). unfold sim_fault. destruct (schedule s); [done|]. by apply Forall_cons in Hf as [-> ?].
Qed.

Lemma sim_medium_sized s : map_Forall (λ _ sec, length sec = 512%nat) (sim_medium s).
Proof. intros lba sec. unfold sim_medium. rewrite lookup_fmap_Some. intros (x & <- & _). apply length_resize. Qed.

Lemma length_words_sector ws : length (words_sector ws) = (2 * length ws)%nat.
Proof. unfold words_sector. induction ws as [|w ws IH]; [done|]. cbn [mbind list_bind length]. rewrite length_app, IH. simpl. lia. Qed.

#[local] Arguments sim_medium : simpl never.
#[local] Arguments words_sector : simpl never.

#[export] Instance sim_controller : AtaController (ata_sim noise).
Proof.
  refine {| view := sim_view; healthy := sim_healthy; delay := wait_left; resting := λ _, True |}.
  - apply sim_medium_sized.
  - intros s (?&_&_&?). done.
  - intros port value s _ Hp. cbn. unfold sim_outb. destruct (Z.eqb_spec port ATA_CMD) as [->|_]; [|done].
    exfalso. by repeat (apply elem_of_cons in Hp as [Hp|Hp]; [done|]); apply elem_of_nil in Hp.
  - intros s _ Hone. cbn in *. unfold sim_outb, sim_command. change (ATA_CMD =? ATA_CMD) with true. rewrite Hone.
    change (CMD_READ =? CMD_READ) with true. cbn [negb].
    destruct (sim_fault s) eqn:E; (split_and!; [done| |]).
    + by left.
    + intros Hs. destruct (sim_fine s Hs) as [_ ?]. by destruct Hs as (?&_&?&?).
    + right. split; [done|]. intros [? _]%sim_fine. congruence.
    + intros [? _]%sim_fine. congruence.
    + right. split; [done|]. intros [? _]%sim_fine. congruence.
    + intros [? _]%sim_fine. congruence.
  - intros s _ Hone. cbn in *. unfold sim_outb, sim_command. change (ATA_CMD =? ATA_CMD) with true. rewrite Hone.
    change (CMD_WRITE =? CMD_READ) with false. cbn [negb].
    destruct (sim_fault s) eqn:E; (split_and!; [done| |]).
    + by left.
    + intros (?&?&?&?). done.
    + right. split; [done|]. intros [? _]%sim_fine. congruence.
    + intros [? _]%sim_fine. congruence.
    + by left.
    + intros (?&?&?&?). done.
  - intros s. cbn. unfold sim_inb. destruct s as [m tf p l w f]. cbn.
    destruct p; destruct w as [|n]; cbn -[status_has]; rewrite ?busy_status_busy; cbn; split_and!; try done; try (by left);
      intros (?&?&?&?); cbn in *; (split; [split_and!; cbn; try done; lia|]); cbn; intros Hb; first [lia|by destruct Hb as [?|[? ?]]].
  - intros s w ws Hp. cbn in *. unfold sim_inw. rewrite Hp. split_and!; [done|done|]. intros (?&?&?&?). split_and!; try done. by destruct ws.
  - intros s lba ws w Hp Hl. cbn in *. unfold sim_outw. rewrite Hp. destruct (Nat.eqb_spec (length ws) 255) as [E|E]; cbn.
    + set (p' := <[lba:=words_sector (ws ++ [w])]> (platters s)).
      assert (∀ p, sim_medium (AtaSim p' (registers s) p (lag s) (lag s) (tail (schedule s)))
        = <[lba:=words_sector (ws ++ [w])]> (sim_medium s)) as Hm.
      { intros p. unfold sim_medium, p'. cbn [platters]. rewrite fmap_insert. f_equal. apply resize_all_alt.
        rewrite length_words_sector, length_app. simpl. lia. }
      rewrite Hm. destruct (decide (sim_fault s = Fine)) as [Hf|Hf].
      * split; [by left|]. intros Hs. destruct (sim_fine s Hs) as [_ ?]. by destruct Hs as (?&_&?&?).
      * split; [right; split_and!; [by right|done|by intros [? _]%sim_fine]|]. intros [? _]%sim_fine. done.
    + split; [done|]. intros (?&?&?&?). done.
Defined.

End sim.

#[global] Instance sim_bits_clear : BusyBitsClear (ata_sim false).
Proof.
  intros s. cbn. unfold sim_inb. destruct (doing s), (wait_left s); cbn; intros Hb; first [done|by split].
Qed.

#[global] Instance sim_accepts noise : AlwaysAccepts (ata_sim noise).
Proof. done. Qed.

(** An empty drive that takes three readings for every command. *)
Definition quiet_drive : ata_sim false := AtaSim ∅ (mk_task_file 0 0 0 0 0) AtRest 3 0 [].

Lemma quiet_drive_healthy : healthy quiet_drive.
Proof.
  assert (3 < POLLS ∧ 0 < POLLS)%nat as [? ?] by (unfold POLLS; lia).
  change (sim_healthy quiet_drive). unfold sim_healthy. split; [done|]. split; [constructor|]. by split.
Qed.

Example quiet_drive_keeps_a_sector :
  let sec := replicate 512 Byte.x54 in
  (ata_read_sector 8192 (ata_write_sector 8192 sec quiet_drive).2).1 = Ok sec.
Proof. by vm_compute. Qed.

(** A number of more than 28 bits names another sector. *)
Example large_number_wraps :
  let sec := replicate 512 Byte.x54 in
  (ata_read_sector (2 ^ 28 + 7) (ata_write_sector 7 sec quiet_drive).2).1 = Ok sec.
Proof. by vm_compute. Qed.

(** Without [BusyBitsClear] the driver is no block device: on a healthy
    controller that shows a data request while it is busy, which [AtaController]
    allows, a read succeeds with zeros in the place of the sector. *)
Definition noisy_drive : ata_sim true :=
  AtaSim {[8192 := replicate 512 Byte.x54]} (mk_task_file 0 0 0 0 0) AtRest 3 0 [].

Example stale_request_reads_zeros :
  sector_at (medium (view noisy_drive)) 8192 = replicate 512 Byte.x54 ∧
  (ata_read_sector 8192 noisy_drive).1 = Ok zero_sector.
Proof. split; by vm_compute. Qed.


