(* ===== verification/Ps2.v ===== *)
(** The set-up of the PS/2 mouse in kernel/mouse.rs: [init] and the transactions
    with the 8042 controller it is made of.

    The controller is a parameter ([Ports]), about which nothing is assumed: a
    missing or broken one answers as it likes. Every wait reads the status at
    most 100,000 times. What [init] promises is stated on the record of its port
    accesses: it respects the controller's handshake, it is bounded, and it
    reports a mouse exactly if the conversation configured one. *)

From S2P Require Import Prelude Device.

Definition PORT_DATA : Z := 0x60.
Definition PORT_STATUS_CMD : Z := 0x64.
Definition STATUS_OUTPUT_FULL : Z := 0x01.
Definition STATUS_INPUT_FULL : Z := 0x02.
Definition CMD_ENABLE_AUX : Z := 0xA8.
Definition CMD_READ_CONFIG : Z := 0x20.
Definition CMD_WRITE_CONFIG : Z := 0x60.
Definition CMD_WRITE_TO_AUX : Z := 0xD4.
Definition MOUSE_SET_DEFAULTS : Z := 0xF6.
Definition MOUSE_ENABLE_STREAMING : Z := 0xF4.
Definition MOUSE_SET_SAMPLE_RATE : Z := 0xF3.
Definition MOUSE_ACK : Z := 0xFA.
Definition MOUSE_RESEND : Z := 0xFE.
Definition MOUSE_SAMPLE_RATE_HZ : Z := 200.
Definition MOUSE_COMMAND_ATTEMPTS : nat := 3.
Definition READY_WAIT_ITERATIONS : nat := Z.to_nat 100000.

(** The static the driver keeps, beside the controller. *)
Record MouseDevice (St : Type) := mk_device { controller : St; INITIALIZED : bool }.
Arguments mk_device {St}.
Arguments controller {St}.
Arguments INITIALIZED {St}.

(** [a && b], of two transactions: the second only after the first. *)
Definition both {St} (first second : M St bool) : M St bool :=
  ok ← first; if (ok : bool) then second else mret false.

Section driver.
Context {St : Type} `{Ports St}.

(** The loop of [wait_for]. *)
Fixpoint polls (status_bit : Z) (set : bool) (n : nat) : M St bool :=
  match n with
  | O => mret false
  | S n =>
      status ← port_in PORT_STATUS_CMD;
      if Bool.eqb (negb (Z.land status status_bit =? 0)) set then mret true else polls status_bit set n
  end.

Definition wait_for (status_bit : Z) (set : bool) : M St bool := polls status_bit set READY_WAIT_ITERATIONS.

Definition write_command (cmd : Z) : M St bool :=
  both (wait_for STATUS_INPUT_FULL false) (_ ← port_out PORT_STATUS_CMD cmd; mret true).

Definition write_data (data : Z) : M St bool :=
  both (wait_for STATUS_INPUT_FULL false) (_ ← port_out PORT_DATA data; mret true).

Definition read_data : M St (option Z) :=
  ready ← wait_for STATUS_OUTPUT_FULL true;
  if (ready : bool) then (data ← port_in PORT_DATA; mret (Some data)) else mret None.

(** The loop of [mouse_command], with the attempts that are left. *)
Fixpoint attempts (cmd : Z) (n : nat) : M St bool :=
  match n with
  | O => mret false
  | S n =>
      both (both (write_command CMD_WRITE_TO_AUX) (write_data cmd)) (
        reply ← read_data;
        match reply with
        | Some data =>
            if data =? MOUSE_ACK then mret true
            else if data =? MOUSE_RESEND then attempts cmd n
            else mret false
        | None => mret false
        end)
  end.

Definition mouse_command (cmd : Z) : M St bool := attempts cmd MOUSE_COMMAND_ATTEMPTS.

(** [config |= 0b0000_0010; config &= !0b0010_0000] *)
Definition enable_aux (config : Z) : Z := Z.ldiff (Z.lor config 2) 32.

Definition set_up : M St bool :=
  both (both (write_command CMD_ENABLE_AUX) (write_command CMD_READ_CONFIG)) (
    reply ← read_data;
    match reply with
    | None => mret false
    | Some config =>
        both (both (write_command CMD_WRITE_CONFIG) (write_data (enable_aux config)))
          (both (both (both (mouse_command MOUSE_SET_DEFAULTS) (mouse_command MOUSE_SET_SAMPLE_RATE))
             (mouse_command MOUSE_SAMPLE_RATE_HZ)) (mouse_command MOUSE_ENABLE_STREAMING))
    end).

Definition init (d : MouseDevice St) : result bool * MouseDevice St :=
  let '(ready, s) := set_up (controller d) in
  (ready, mk_device s (match ready with Ok true => true | _ => false end)).
End driver.

(** ** The conversation with the controller *)

(** The accesses without the readings of the status. *)
Definition is_status_read (e : PortEvent) : bool := match e with Inb port _ => port =? PORT_STATUS_CMD | Outb _ _ => false end.
Definition talk (l : list PortEvent) : list PortEvent := List.filter (λ e, negb (is_status_read e)) l.

(** The handshake of the 8042: a byte is written only after a status that says
    that the input buffer is empty, and read only after one that says that the
    output buffer is full. [last]: the status, if it was the last access. *)
Definition has_bit (bit : Z) (set : bool) (last : option Z) : Prop :=
  match last with Some status => negb (Z.land status bit =? 0) = set | None => False end.

Fixpoint polite (last : option Z) (l : list PortEvent) : Prop :=
  match l with
  | [] => True
  | Inb port v :: l =>
      if port =? PORT_STATUS_CMD then polite (Some v) l
      else has_bit STATUS_OUTPUT_FULL true last ∧ polite None l
  | Outb _ _ :: l => has_bit STATUS_INPUT_FULL false last ∧ polite None l
  end.

(** The mouse is told [cmd] and acknowledges it; up to [n - 1] times it asked
    for it again. *)
Definition exchange (cmd reply : Z) : list PortEvent :=
  [Outb PORT_STATUS_CMD CMD_WRITE_TO_AUX; Outb PORT_DATA cmd; Inb PORT_DATA reply].

Fixpoint acknowledged (n : nat) (cmd : Z) (l : list PortEvent) : Prop :=
  match n with
  | O => False
  | S n => l = exchange cmd MOUSE_ACK ∨ ∃ rest, l = exchange cmd MOUSE_RESEND ++ rest ∧ acknowledged n cmd rest
  end.

(** Interrupt 12 on, the clock of the device on, everything else as it was. *)
Definition aux_enabled (config config' : Z) : Prop :=
  ∀ i, Z.testbit config' i = if decide (i = 1) then true else if decide (i = 5) then false else Z.testbit config i.

(** A conversation that configures the controller and starts the mouse. *)
Definition configured (l : list PortEvent) : Prop :=
  ∃ config config' l1 l2 l3 l4,
    l = [Outb PORT_STATUS_CMD CMD_ENABLE_AUX; Outb PORT_STATUS_CMD CMD_READ_CONFIG; Inb PORT_DATA config;
         Outb PORT_STATUS_CMD CMD_WRITE_CONFIG; Outb PORT_DATA config'] ++ l1 ++ l2 ++ l3 ++ l4 ∧
    aux_enabled config config' ∧
    acknowledged 3 MOUSE_SET_DEFAULTS l1 ∧ acknowledged 3 MOUSE_SET_SAMPLE_RATE l2 ∧
    acknowledged 3 MOUSE_SAMPLE_RATE_HZ l3 ∧ acknowledged 3 MOUSE_ENABLE_STREAMING l4.

(** ** Conversations that succeed or fail *)

Definition Talks : Type := list PortEvent → Prop.
Definition says (e : PortEvent) : Talks := λ l, l = [e].
Definition followed_by (p q : Talks) : Talks := λ l, ∃ l1 l2, l = l1 ++ l2 ∧ p l1 ∧ q l2.
(** No beginning of the conversation is one of [p]. *)
Definition misses (p : Talks) : Talks := λ l, ∀ l1 l2, p l1 → l ≠ l1 ++ l2.
(** Where a conversation of [p] ends is seen from it. *)
Definition self_ending (p : Talks) : Prop := ∀ l1 l2 r1 r2, p l1 → p l2 → l1 ++ r1 = l2 ++ r2 → l1 = l2.

(** What a transaction that reports [ok] has done. *)
Definition reports (p : Talks) (ok : bool) (l : list PortEvent) : Prop :=
  polite None l ∧ if ok then p (talk l) else misses p (talk l).

Lemma polite_weaken last l : polite None l → polite last l.
Proof. destruct l as [|[port v|port v] l]; simpl; [done| |by intros []]. destruct (port =? _); [done|by intros []]. Qed.

Lemma polite_app last l1 l2 : polite last l1 → polite None l2 → polite last (l1 ++ l2).
Proof.
  revert last. induction l1 as [|[port v|port v] l1 IH]; intros last; simpl.
  - intros _. apply polite_weaken.
  - destruct (port =? _); [apply IH|]. intros [? ?] ?. by split; [|apply IH].
  - intros [? ?] ?. by split; [|apply IH].
Qed.

Lemma talk_app l1 l2 : talk (l1 ++ l2) = talk l1 ++ talk l2.
Proof. apply List.filter_app. Qed.

Lemma self_ending_says e : self_ending (says e).
Proof. by intros ?? r1 r2 -> -> [= ]. Qed.

Lemma self_ending_followed p q : self_ending p → self_ending q → self_ending (followed_by p q).
Proof.
  intros Hp Hq ?? r1 r2 (a1&b1&->&Ha1&Hb1) (a2&b2&->&Ha2&Hb2) E. rewrite <- !app_assoc in E.
  pose proof (Hp _ _ _ _ Ha1 Ha2 E) as ->. apply app_inv_head in E. by rewrite (Hq _ _ _ _ Hb1 Hb2 E).
Qed.

Lemma self_ending_acknowledged n cmd : self_ending (acknowledged n cmd).
Proof.
  induction n as [|n IH]; [by intros ????|]. intros ?? r1 r2 [->|(x1&->&H1)] [->|(x2&->&H2)] E; [done|discriminate E..|].
  rewrite <- !app_assoc in E. apply app_inv_head in E. by rewrite (IH _ _ _ _ H1 H2 E).
Qed.

Lemma misses_nil p : ¬ p [] → misses p [].
Proof. intros Hp l1 l2 H1 E. symmetry in E. apply app_eq_nil in E as [-> _]. done. Qed.

Lemma misses_head p q l : misses p l → misses (followed_by p q) l.
Proof. intros Hp ? r (a&b&->&Ha&_). rewrite <- app_assoc. by apply Hp. Qed.

Lemma misses_tail (p q : Talks) l1 l2 : self_ending p → p l1 → misses q l2 → misses (followed_by p q) (l1 ++ l2).
Proof.
  intros Hs Hp Hq ? r (a&b&->&Ha&Hb) E. rewrite <- app_assoc in E. pose proof (Hs _ _ _ _ Hp Ha E) as <-.
  apply app_inv_head in E. by apply (Hq b r).
Qed.

Section transactions.
Context {St : Type} `{Ports St}.
Implicit Types (m : M (St * list PortEvent) bool).

(** The accesses of one wait and the access that it allows. *)
Definition WAIT : Z := 100001.

Lemma both_reports m1 m2 n1 n2 p q : makes_accesses m1 n1 (reports p) → makes_accesses m2 n2 (reports q) → self_ending p → 0 <= n2 →
  makes_accesses (both m1 m2) (n1 + n2) (reports (followed_by p q)).
Proof.
  intros H1 H2 Hs Hn. eapply accesses_bind; [exact H1|done|]. intros [] l1 [Hl1 Hp].
  - eapply accesses_weaken; [exact H2|done|]. intros ok l2 [Hl2 Hq]. split; [by apply polite_app|]. rewrite talk_app.
    destruct ok; [by exists (talk l1), (talk l2)|by apply misses_tail].
  - apply accesses_ret; [done|]. rewrite app_nil_r. split; [done|by apply misses_head].
Qed.

(** A wait ends after its last reading at the latest, and ends well only with
    the reading it waited for. *)
Lemma polls_spec bit set n : makes_accesses (St := St) (polls bit set n) (Z.of_nat n)
  (λ ok l, talk l = [] ∧ polite None l ∧
     (ok = true → ∀ l2, (∀ v, has_bit bit set (Some v) → polite (Some v) l2) → ∀ last, polite last (l ++ l2))).
Proof.
  induction n as [|n IH]; cbn [polls]; [by apply accesses_ret|].
  eapply (accesses_bind _ _ 1 (Z.of_nat n)); [apply (accesses_in _ (λ v l, l = [Inb PORT_STATUS_CMD v])); done|lia|].
  intros status ? ->. destruct (Bool.eqb _ set) eqn:E.
  - apply accesses_ret; [lia|]. split_and!; [done|done|]. intros _ l2 Hl2 last. apply Hl2. by apply Bool.eqb_prop.
  - eapply accesses_weaken; [exact IH|done|]. intros ok l (Ht&Hp&Hr). split_and!; [done|exact (polite_weaken (Some status) l Hp)|].
    intros Hok l2 Hl2 last. by apply (Hr Hok l2 Hl2 (Some status)).
Qed.

Lemma write_reports port v :
  makes_accesses (St := St) (both (wait_for STATUS_INPUT_FULL false) (_ ← port_out port v; mret true)) WAIT (reports (says (Outb port v))).
Proof.
  eapply (accesses_bind _ _ 100000 1); [apply polls_spec|done|]. intros [] l (Ht&Hp&Hr).
  - eapply (accesses_bind _ _ 1 0); [by apply (accesses_out _ _ (λ _ l, l = [Outb port v]))|done|]. intros _ ? ->.
    apply accesses_ret; [done|]. rewrite app_nil_r. split; [by apply Hr|by rewrite talk_app, Ht].
  - apply accesses_ret; [done|]. rewrite app_nil_r. split; [done|]. rewrite Ht. by apply misses_nil.
Qed.

Lemma read_data_spec : makes_accesses (St := St) read_data WAIT
  (λ reply l, polite None l ∧ talk l = match reply with Some v => [Inb PORT_DATA v] | None => [] end).
Proof.
  eapply (accesses_bind _ _ 100000 1); [apply polls_spec|done|]. intros [] l (Ht&Hp&Hr).
  - eapply (accesses_bind _ _ 1 0); [by apply (accesses_in _ (λ v l, l = [Inb PORT_DATA v]))|done|]. intros v ? ->.
    apply accesses_ret; [done|]. rewrite app_nil_r. split; [by apply Hr|by rewrite talk_app, Ht].
  - apply accesses_ret; [done|]. by rewrite app_nil_r.
Qed.

Lemma acknowledged_step n cmd ok l : (∃ l1, l = exchange cmd MOUSE_RESEND ++ l1 ∧ (if (ok : bool) then acknowledged n cmd l1 else misses (acknowledged n cmd) l1)) →
  if ok then acknowledged (S n) cmd l else misses (acknowledged (S n) cmd) l.
Proof.
  intros (l1&->&H1). destruct ok; [right; by exists l1|]. intros ? r [->|(rest&->&Hr)]; [by intros [= ]|].
  rewrite <- app_assoc. intros E%app_inv_head. by apply (H1 rest r).
Qed.

(** A reply that is neither an acknowledgement nor a request to resend ends the
    command, and so does none. *)
Lemma misses_reply n cmd reply : reply ≠ Some MOUSE_ACK → reply ≠ Some MOUSE_RESEND →
  misses (acknowledged n cmd) ([Outb PORT_STATUS_CMD CMD_WRITE_TO_AUX; Outb PORT_DATA cmd] ++ match reply with Some v => [Inb PORT_DATA v] | None => [] end).
Proof.
  intros Ha Hr ? r. destruct n as [|n]; [done|]. intros [->|(rest&->&_)] E; destruct reply as [v|]; by simplify_eq/=.
Qed.

Lemma attempts_report cmd n : makes_accesses (St := St) (attempts cmd n) (3 * WAIT * Z.of_nat n) (reports (acknowledged n cmd)).
Proof.
  induction n as [|n IH]; cbn [attempts]. { apply accesses_ret; [done|]. split; [done|]. by intros ???. }
  eapply (accesses_bind _ _ (WAIT + WAIT) (WAIT * (3 * Z.of_nat n + 1)));
    [apply both_reports; [apply write_reports|apply write_reports|apply self_ending_says|done]|unfold WAIT; lia|].
  intros [] l1 [Hp1 Ht1].
  2: { apply accesses_ret; [unfold WAIT; lia|]. rewrite app_nil_r. split; [done|]. intros a b Ha E.
       apply (Ht1 [Outb PORT_STATUS_CMD CMD_WRITE_TO_AUX; Outb PORT_DATA cmd] (drop 2 a ++ b)); [by exists [Outb PORT_STATUS_CMD CMD_WRITE_TO_AUX], [Outb PORT_DATA cmd]|].
       rewrite E. by destruct Ha as [->|(rest&->&_)]. }
  destruct Ht1 as (?&?&Ht1&->&->).
  eapply (accesses_bind _ _ WAIT (WAIT * (3 * Z.of_nat n))); [apply read_data_spec|lia|].
  intros reply l2 [Hp2 Ht2]. assert (polite None (l1 ++ l2)) as Hp by (by apply polite_app).
  assert (talk (l1 ++ l2) = [Outb PORT_STATUS_CMD CMD_WRITE_TO_AUX; Outb PORT_DATA cmd] ++ match reply with Some v => [Inb PORT_DATA v] | None => [] end) as Ht
    by (by rewrite talk_app, Ht1, Ht2).
  destruct reply as [v|]; [destruct (Z.eqb_spec v MOUSE_ACK) as [->|Hack]; [|destruct (Z.eqb_spec v MOUSE_RESEND) as [->|Hre]]|].
  - apply accesses_ret; [unfold WAIT; lia|]. rewrite app_nil_r. split; [done|]. rewrite Ht. by left.
  - eapply accesses_weaken; [exact IH|unfold WAIT; lia|]. intros ok l [Hpl Htl]. rewrite app_assoc. split; [by apply polite_app|].
    apply acknowledged_step. exists (talk l). by rewrite talk_app, Ht.
  - apply accesses_ret; [unfold WAIT; lia|]. rewrite app_nil_r. split; [done|]. rewrite Ht. apply (misses_reply (S n) cmd (Some v)); congruence.
  - apply accesses_ret; [unfold WAIT; lia|]. rewrite app_nil_r. split; [done|]. rewrite Ht. by apply (misses_reply (S n) cmd None).
Qed.

(** The conversation after the configuration byte. *)
Definition starts_mouse (config : Z) : Talks :=
  followed_by (followed_by (says (Outb PORT_STATUS_CMD CMD_WRITE_CONFIG)) (says (Outb PORT_DATA (enable_aux config))))
    (followed_by (followed_by (followed_by (acknowledged 3 MOUSE_SET_DEFAULTS) (acknowledged 3 MOUSE_SET_SAMPLE_RATE))
       (acknowledged 3 MOUSE_SAMPLE_RATE_HZ)) (acknowledged 3 MOUSE_ENABLE_STREAMING)).

Definition sets_up : Talks := λ l, ∃ config l1, l = [Outb PORT_STATUS_CMD CMD_ENABLE_AUX; Outb PORT_STATUS_CMD CMD_READ_CONFIG; Inb PORT_DATA config] ++ l1 ∧ starts_mouse config l1.

Create HintDb talks.
#[local] Hint Resolve self_ending_says self_ending_followed self_ending_acknowledged : talks.

Lemma set_up_reports : makes_accesses (St := St) set_up (41 * WAIT) (reports sets_up).
Proof.
  assert (∀ cmd, makes_accesses (St := St) (mouse_command cmd) (9 * WAIT) (reports (acknowledged 3 cmd))) as Hcmd by (intros cmd; apply attempts_report).
  eapply (accesses_bind _ _ (WAIT + WAIT) (39 * WAIT)); [apply both_reports; [apply write_reports|apply write_reports|auto with talks|done]|done|].
  intros [] l1 [Hp1 Ht1].
  2: { apply accesses_ret; [done|]. rewrite app_nil_r. split; [done|]. intros ? r (config&l&->&_) E.
       apply (Ht1 [Outb PORT_STATUS_CMD CMD_ENABLE_AUX; Outb PORT_STATUS_CMD CMD_READ_CONFIG] ([Inb PORT_DATA config] ++ l ++ r)); [by eexists [_], [_]|].
       by rewrite E, <- app_assoc. }
  destruct Ht1 as (?&?&Ht1&->&->).
  eapply (accesses_bind _ _ WAIT (38 * WAIT)); [apply read_data_spec|done|]. intros [config|] l2 [Hp2 Ht2].
  - apply (accesses_weaken _ (WAIT + WAIT + (9 * WAIT + 9 * WAIT + 9 * WAIT + 9 * WAIT)) (38 * WAIT) (reports (starts_mouse config))); [|done|].
    + apply both_reports; [apply both_reports; [apply write_reports|apply write_reports|auto with talks|done]| |auto with talks|done].
      repeat (apply both_reports; [|apply Hcmd|auto with talks|done]). apply Hcmd.
    + intros ok l [Hp Ht]. split; [by repeat apply polite_app|]. rewrite !talk_app, Ht1, Ht2.
      destruct ok; [by eexists config, _|]. intros ? r (config'&l'&->&Hl') E. simplify_eq/=. by apply (Ht _ r Hl').
  - apply accesses_ret; [done|]. rewrite app_nil_r. split; [by apply polite_app|]. rewrite talk_app, Ht1, Ht2.
    by intros ? r (config&l'&->&_) [= ].
Qed.
End transactions.

(** ** What [init] promises *)

Lemma enable_aux_enabled config : aux_enabled config (enable_aux config).
Proof.
  intros i. unfold enable_aux. rewrite Z.ldiff_spec, Z.lor_spec. change 2 with (2 ^ 1). change 32 with (2 ^ 5).
  rewrite !Z.pow2_bits_eqb by done. destruct (decide (i = 1)) as [->|]; [by rewrite orb_true_r|].
  destruct (decide (i = 5)) as [->|]; [by rewrite andb_false_r|].
  rewrite !(proj2 (Z.eqb_neq _ i)) by congruence. by rewrite orb_false_r, andb_true_r.
Qed.

Lemma sets_up_configured l : sets_up l ↔ configured l.
Proof.
  split.
  - intros (config&?&->&?&?&->&(?&?&->&->&->)&(?&l4&->&(?&l3&->&(l1&l2&->&H1&H2)&H3)&H4)).
    exists config, (enable_aux config), l1, l2, l3, l4. split; [by rewrite <- !app_assoc|]. split; [apply enable_aux_enabled|done].
  - intros (config&config'&l1&l2&l3&l4&->&Haux&H1&H2&H3&H4).
    assert (config' = enable_aux config) as -> by (apply Z.bits_inj'; intros i _; by rewrite (Haux i), (enable_aux_enabled config i)).
    eexists config, _. split; [reflexivity|]. eexists [_; _], _. split; [reflexivity|]. split; [by eexists [_], [_]|].
    exists ((l1 ++ l2) ++ l3), l4. split; [by rewrite !app_assoc|]. split; [|done].
    exists (l1 ++ l2), l3. split; [done|]. split; [by exists l1, l2|done].
Qed.

(** C31: The set-up of the mouse is bounded, and keeps to the protocol. Whatever
    the controller and the device answer, [init] ends after at most 4,100,041
    port accesses; it writes a byte only when the last status said that the
    controller takes one, and reads one only when the last status said that one
    waits; and it reports a mouse, and marks the driver as initialized, exactly
    if the configuration byte was written back with interrupt 12 and the clock
    of the device enabled and nothing else changed, and the mouse then
    acknowledged each of the four commands within three attempts. *)
Theorem mouse_init_follows_protocol {St} `{Ports St} (d : St) (initialized : bool) :
  ∃ ok d' log, init (mk_device (d, []) initialized) = (Ok ok, mk_device (d', log) ok) ∧
    zlen log <= 4100041 ∧ polite None log ∧ (ok = true ↔ configured (talk log)).
Proof.
  destruct (set_up_reports d []) as (ok&d'&log&E&Hn&Hp&Ht). exists ok, d', log. unfold init. cbn [controller app] in *. rewrite E.
  split; [by destruct ok|]. split; [done|]. split; [done|]. rewrite <- sets_up_configured.
  destruct ok; [done|]. split; [done|]. intros Hs. destruct (Ht (talk log) [] Hs). by rewrite app_nil_r.
Qed.

(** ** A controller *)

Module Sample.
(** [waiting]: the bytes to be read; [replies]: what the mouse answers next, then
    always an acknowledgement; [taking]: where the next data byte goes. *)
Inductive Target := Nowhere | ToConfig | ToMouse.
Record i8042 := mk_i8042 { config_byte : Z; waiting : list Z; replies : list Z; taking : Target; heard : list Z }.

#[local] Instance i8042_ports : Ports i8042 := {|
  inb port k :=
    if port =? PORT_STATUS_CMD then (if decide (waiting k = []) then 0x10 else 0x11, k)
    else (default 0 (head (waiting k)), mk_i8042 (config_byte k) (tail (waiting k)) (replies k) (taking k) (heard k));
  outb port v k :=
    if port =? PORT_STATUS_CMD then
      if v =? CMD_READ_CONFIG then mk_i8042 (config_byte k) [config_byte k] (replies k) Nowhere (heard k)
      else mk_i8042 (config_byte k) (waiting k) (replies k)
        (if v =? CMD_WRITE_CONFIG then ToConfig else if v =? CMD_WRITE_TO_AUX then ToMouse else Nowhere) (heard k)
    else match taking k with
    | ToConfig => mk_i8042 v (waiting k) (replies k) Nowhere (heard k)
    | ToMouse => mk_i8042 (config_byte k) [default MOUSE_ACK (head (replies k))] (tail (replies k)) Nowhere (heard k ++ [v])
    | Nowhere => k
    end;
  inw _ k := (0, k);
  outw _ _ k := k
|}.

Definition answers (rs : list Z) : MouseDevice i8042 := mk_device (mk_i8042 0x61 [] rs Nowhere []) false.
Definition outcome (d : MouseDevice i8042) : result bool * Z * list Z :=
  let '(r, d) := init d in (r, config_byte (controller d), heard (controller d)).

(** A mouse that asks for the second command again; one that always does; one
    that answers a self-test failure. *)
Example mouse_starts : outcome (answers [MOUSE_ACK; MOUSE_RESEND; MOUSE_RESEND]) = (Ok true, 0x43, [0xF6; 0xF3; 0xF3; 0xF3; 0xC8; 0xF4]).
Proof. reflexivity. Qed.
Example mouse_resends : outcome (answers (replicate 4 MOUSE_RESEND)) = (Ok false, 0x43, [0xF6; 0xF6; 0xF6]).
Proof. reflexivity. Qed.
Example mouse_refuses : outcome (answers [MOUSE_ACK; 0xFC]) = (Ok false, 0x43, [0xF6; 0xF3]).
Proof. reflexivity. Qed.

(** No controller: every port reads as ones. *)
#[local] Instance floating_bus : Ports unit := {| inb _ s := (0xFF, s); outb _ _ s := s; inw _ s := (0xFFFF, s); outw _ _ s := s |}.
Example no_controller : (init (mk_device tt true)) = (Ok false, mk_device tt false).
Proof. vm_compute. reflexivity. Qed.
End Sample.
