(* ===== verification/Idt.v ===== *)
(** Interrupt set-up: kernel/gdt.rs as far as interrupts see it (the stacks of
    the TSS) and [init], [enable_mouse] and [init_pit] of kernel/interrupts.rs.

    The interrupt controllers are those of the pic8259 crate ([ChainedPics]) and
    the timer is behind ports. What is shown: a line is unmasked only when the
    gate of its vector is there and runs the handler of that line, the stacks
    that gates ask for are installed, programs can raise the system call vector
    and no other, and the timer is programmed for 100 Hz. *)

From S2P Require Import Prelude Device.

(** ** Stacks (gdt.rs) *)

Definition DOUBLE_FAULT_IST_INDEX : Z := 0.
Definition IRQ_IST_INDEX : Z := 1.
Definition IST_STACK_SIZE : Z := 4096 * 5.

(** [TaskStateSegment]: the interrupt stack table, and the stack for the entry
    from Ring 3. *)
Record Tss := mk_tss { interrupt_stack_table : gmap Z Z; privilege_stack : Z }.

(** [STACK] is the address of the static array of [new_stack]: the one array of
    the one place the macro is used at. *)
Definition new_stack (STACK : Z) : Z := STACK + IST_STACK_SIZE.

Definition gdt_init (STACK : Z) (tss : Tss) : Tss :=
  mk_tss (<[IRQ_IST_INDEX := new_stack STACK]> (<[DOUBLE_FAULT_IST_INDEX := new_stack STACK]> (interrupt_stack_table tss))) (privilege_stack tss).

Definition set_kernel_stack (top : Z) (tss : Tss) : Tss := mk_tss (interrupt_stack_table tss) top.

(** ** Gates *)

Inductive Handler :=
| BreakpointHandler
| PageFaultHandler
| GeneralProtectionFaultHandler
| InvalidOpcodeHandler
| DivideErrorHandler
| DoubleFaultHandler
| TimerInterruptHandler
| KeyboardInterruptHandler
| MouseInterruptHandler
| SyscallEntry.

(** [stack_index]: the interrupt stack to switch to; [ring3]: whether programs
    may raise the vector. *)
Record Gate := mk_gate { handler : Handler; stack_index : option Z; ring3 : bool }.

Definition SYSCALL_VECTOR : Z := 0x80.
Definition PIC_1_OFFSET : Z := 32.
Definition PIC_2_OFFSET : Z := PIC_1_OFFSET + 8.

Inductive InterruptIndex := Timer | Keyboard | MouseLine.
Definition as_u8 (i : InterruptIndex) : Z :=
  match i with Timer => PIC_1_OFFSET | Keyboard => PIC_1_OFFSET + 1 | MouseLine => PIC_2_OFFSET + 4 end.

(** The vectors of the processor's exceptions. *)
Definition DIVIDE_ERROR : Z := 0.
Definition BREAKPOINT : Z := 3.
Definition INVALID_OPCODE : Z := 6.
Definition DOUBLE_FAULT : Z := 8.
Definition GENERAL_PROTECTION_FAULT : Z := 13.
Definition PAGE_FAULT : Z := 14.

Definition set_handler (v : Z) (h : Handler) (stack : option Z) (ring3 : bool) (idt : gmap Z Gate) : gmap Z Gate :=
  <[v := mk_gate h stack ring3]> idt.

(** The initializer of [IDT]. *)
Definition IDT : gmap Z Gate :=
  let idt := set_handler BREAKPOINT BreakpointHandler None false ∅ in
  let idt := set_handler PAGE_FAULT PageFaultHandler None false idt in
  let idt := set_handler GENERAL_PROTECTION_FAULT GeneralProtectionFaultHandler None false idt in
  let idt := set_handler INVALID_OPCODE InvalidOpcodeHandler None false idt in
  let idt := set_handler DIVIDE_ERROR DivideErrorHandler None false idt in
  let idt := set_handler DOUBLE_FAULT DoubleFaultHandler (Some DOUBLE_FAULT_IST_INDEX) false idt in
  let idt := set_handler (as_u8 Timer) TimerInterruptHandler None false idt in
  let idt := set_handler (as_u8 Keyboard) KeyboardInterruptHandler (Some IRQ_IST_INDEX) false idt in
  let idt := set_handler (as_u8 MouseLine) MouseInterruptHandler (Some IRQ_IST_INDEX) false idt in
  set_handler SYSCALL_VECTOR SyscallEntry None true idt.

(** ** The interrupt controllers *)

(** [initialize] remaps the lines to the offsets the controllers were made with
    and keeps their masks; [write_masks] sets the masks of both. *)
Class ChainedPics (P : Type) := {
  initialize : P → P;
  write_masks : Z → Z → P → P;
  masks : P → Z * Z;
  offsets : P → option (Z * Z);
  initialize_spec p : masks (initialize p) = masks p ∧ offsets (initialize p) = Some (PIC_1_OFFSET, PIC_2_OFFSET);
  write_masks_spec a b p : masks (write_masks a b p) = (a, b) ∧ offsets (write_masks a b p) = offsets p
}.

(** ** The platform *)

Record Platform (P K : Type) := mk_platform {
  tss : Tss;
  idt : option (gmap Z Gate);
  pics : P;
  pit : K;
  interrupts_enabled : bool
}.
Arguments mk_platform {P K}.
Arguments tss {P K}.
Arguments idt {P K}.
Arguments pics {P K}.
Arguments pit {P K}.
Arguments interrupts_enabled {P K}.

Definition PIT_INPUT_HZ : Z := 1193182.
Definition TIMER_HZ : Z := 100.

(** [(PIT_INPUT_HZ / hz) as u16] *)
Definition divisor (hz : Z) : Z := (PIT_INPUT_HZ / hz) mod 2 ^ 16.

Section setup.
Context {P K : Type} `{!ChainedPics P} `{!Ports K}.
Implicit Types (p : Platform P K).

Definition init_pit (hz : Z) (k : K) : K :=
  let d := divisor hz in
  outb 0x40 (Z.shiftr d 8) (outb 0x40 (Z.land d 0xFF) (outb 0x43 0x36 k)).

(** The processor takes vector [v]: without a gate for it there is no way to go
    on. *)
Definition raise (v : Z) p : option Handler := idt ← idt p; handler <$> idt !! v.

(** [init]; the [int3] in it returns if its handler is there. *)
Definition init (STACK : Z) p : option (Platform P K) :=
  let p := mk_platform (gdt_init STACK (tss p)) (Some IDT) (pics p) (pit p) (interrupts_enabled p) in
  _ ← raise BREAKPOINT p;
  Some (mk_platform (tss p) (idt p) (write_masks 252 255 (initialize (pics p))) (init_pit TIMER_HZ (pit p)) true).

Definition enable_mouse p : Platform P K :=
  mk_platform (tss p) (idt p) (write_masks 248 239 (pics p)) (pit p) (interrupts_enabled p).

(** *** Interrupt lines *)

(** Line [irq] reaches the processor: it is not masked and, behind the second
    controller, neither is the line the controllers are chained by. *)
Definition delivered (irq : Z) (pics : P) : bool :=
  let '(first, second) := masks pics in
  if irq <? 8 then negb (Z.testbit first irq) && negb (irq =? 2)
  else negb (Z.testbit second (irq - 8)) && negb (Z.testbit first 2).

Definition vector (irq : Z) (pics : P) : option Z :=
  '(first, second) ← offsets pics;
  Some (if irq <? 8 then first + irq else second + (irq - 8)).

(** The handler a line is for. *)
Definition line_handler (irq : Z) : option Handler :=
  if irq =? 0 then Some TimerInterruptHandler else if irq =? 1 then Some KeyboardInterruptHandler
  else if irq =? 12 then Some MouseInterruptHandler else None.

(** A platform on which interrupts are served: every line that is delivered
    arrives at its own handler, and every gate finds its stack. *)
Definition serves p : Prop :=
  interrupts_enabled p = true ∧ idt p = Some IDT ∧
  (∀ irq v, 0 <= irq < 16 → delivered irq (pics p) = true → vector irq (pics p) = Some v →
     ∃ h, line_handler irq = Some h ∧ raise v p = Some h) ∧
  (∀ v g i, IDT !! v = Some g → stack_index g = Some i → is_Some (interrupt_stack_table (tss p) !! i)).

(** The lines of the platform. *)
Definition lines p : list Z := List.filter (λ irq, delivered irq (pics p)) (seqZ 0 16).
End setup.

(** ** Proofs *)

#[global] Instance Handler_eq_decision : EqDecision Handler.
Proof. solve_decision. Defined.

(** A property of every gate is checked gate by gate. *)
Lemma every_gate (f : Z → Gate → bool) : bool_decide (map_Forall (λ v g, f v g = true) IDT) = true → ∀ v g, IDT !! v = Some g → f v g = true.
Proof. intros HP%bool_decide_eq_true. exact HP. Qed.

(** Programs enter the kernel by the system call vector only. *)
Lemma ring3_gates v g : IDT !! v = Some g → ring3 g = true ↔ v = SYSCALL_VECTOR.
Proof.
  intros Hg. pose proof (every_gate (λ v g, Bool.eqb (ring3 g) (v =? SYSCALL_VECTOR)) ltac:(by vm_compute) v g Hg) as E%Bool.eqb_prop.
  rewrite E. apply Z.eqb_eq.
Qed.

(** A task switch happens on the stack of the task: neither the timer's gate nor
    the system call's switches to a fixed one. *)
Lemma switching_gates v g : IDT !! v = Some g → handler g = TimerInterruptHandler ∨ handler g = SyscallEntry → stack_index g = None.
Proof.
  intros Hg Hh. pose proof (every_gate (λ v g, negb (bool_decide (handler g ∈ [TimerInterruptHandler; SyscallEntry])) || bool_decide (stack_index g = None))
    ltac:(by vm_compute) v g Hg) as E. apply orb_true_iff in E as [E|E%bool_decide_eq_true]; [|done].
  apply negb_true_iff, bool_decide_eq_false in E. set_solver.
Qed.

(** Every stack a gate asks for is one of the two that [gdt_init] installs. *)
Lemma gate_stacks v g i : IDT !! v = Some g → stack_index g = Some i → i = DOUBLE_FAULT_IST_INDEX ∨ i = IRQ_IST_INDEX.
Proof.
  intros Hg Hi. pose proof (every_gate (λ v g, match stack_index g with Some i => (i =? 0) || (i =? 1) | None => true end) ltac:(by vm_compute) v g Hg) as E.
  cbv beta in E. rewrite Hi in E. apply orb_true_iff in E as [E%Z.eqb_eq|E%Z.eqb_eq]; [by left|by right].
Qed.

(** The two stacks are one: the double fault handler, meant to start on a stack
    that is good whatever happened, starts on the stack of the interrupt
    handlers, over what they have there. *)
Lemma interrupt_stacks_coincide STACK tss :
  let tss := gdt_init STACK tss in
  interrupt_stack_table tss !! DOUBLE_FAULT_IST_INDEX = interrupt_stack_table tss !! IRQ_IST_INDEX.
Proof. simpl. by rewrite lookup_insert_ne, !lookup_insert_eq. Qed.

(** The divisor is not cut off for the frequencies it can express, and what is
    left of the rate is the rounding. *)
Lemma divisor_spec hz : 19 <= hz → divisor hz * hz <= PIT_INPUT_HZ < (divisor hz + 1) * hz.
Proof.
  intros Hz. unfold divisor, PIT_INPUT_HZ. rewrite Z.mod_small.
  - Z.to_euclidean_division_equations. nia.
  - split; [by apply Z.div_pos; lia|]. apply Z.div_lt_upper_bound; lia.
Qed.

Section platform.
Context {P K : Type} `{!ChainedPics P} `{!Ports K}.
Implicit Types (p : Platform P K).

Lemma delivered_masks irq a b (pics : P) : delivered irq (write_masks a b pics) =
  if irq <? 8 then negb (Z.testbit a irq) && negb (irq =? 2) else negb (Z.testbit b (irq - 8)) && negb (Z.testbit a 2).
Proof. unfold delivered. by rewrite (proj1 (write_masks_spec _ _ _)). Qed.

(** Every gate finds its stack. *)
Definition stacks_installed (t : Tss) : Prop :=
  ∀ v g i, IDT !! v = Some g → stack_index g = Some i → is_Some (interrupt_stack_table t !! i).

Lemma gdt_init_stacks STACK t : stacks_installed (gdt_init STACK t).
Proof.
  intros v g i Hg Hi. cbn [gdt_init interrupt_stack_table]. destruct (gate_stacks v g i Hg Hi) as [->| ->].
  - rewrite lookup_insert_ne by done. rewrite lookup_insert_eq. by eexists.
  - rewrite lookup_insert_eq. by eexists.
Qed.

(** With the controllers remapped, the lines are served if each line the masks
    let through has its gate. *)
Lemma masks_serve a b t (pics : P) (k : K) : stacks_installed t → offsets pics = Some (PIC_1_OFFSET, PIC_2_OFFSET) →
  forallb (λ irq, if delivered irq (write_masks a b pics)
                  then bool_decide (line_handler irq ≠ None ∧ handler <$> IDT !! (if irq <? 8 then PIC_1_OFFSET + irq else PIC_2_OFFSET + (irq - 8)) = line_handler irq) else true)
    (seqZ 0 16) = true →
  serves (mk_platform t (Some IDT) (write_masks a b pics) k true).
Proof.
  intros Hst Ho Hall. split_and!; [done|done| |exact Hst].
  intros irq v Hirq Hd Hv. rewrite forallb_forall in Hall. specialize (Hall irq).
  cbn [Idt.pics] in *. rewrite Hd in Hall. unfold vector in Hv. rewrite (proj2 (write_masks_spec _ _ _)), Ho in Hv.
  injection Hv as <-. assert (List.In irq (seqZ 0 16)) as Hin by (apply list_elem_of_In, elem_of_seqZ; lia).
  apply Hall, bool_decide_eq_true in Hin as [Hne E]. destruct (line_handler irq) as [h|]; [|done]. by exists h.
Qed.

Lemma init_serves STACK p : ∃ p', init STACK p = Some p' ∧ serves p' ∧ lines p' = [0; 1] ∧
  offsets (pics p') = Some (PIC_1_OFFSET, PIC_2_OFFSET).
Proof.
  eexists. split; [reflexivity|]. destruct (initialize_spec (pics p)) as [_ Ho]. split_and!.
  - apply masks_serve; [apply gdt_init_stacks|done|]. unfold delivered. rewrite (proj1 (write_masks_spec _ _ _)). by vm_compute.
  - unfold lines, delivered. cbn [pics]. rewrite (proj1 (write_masks_spec _ _ _)). by vm_compute.
  - cbn [pics]. by rewrite (proj2 (write_masks_spec _ _ _)).
Qed.

Lemma enable_mouse_serves p : serves p → offsets (pics p) = Some (PIC_1_OFFSET, PIC_2_OFFSET) →
  serves (enable_mouse p) ∧ lines (enable_mouse p) = [0; 1; 12].
Proof.
  destruct p as [t idt pics k on]. intros (Hon&Hidt&_&Hst) Ho. cbn [interrupts_enabled Idt.idt tss Idt.pics] in *. subst on idt. split.
  - apply masks_serve; [exact Hst|done|]. unfold delivered. rewrite (proj1 (write_masks_spec _ _ _)). by vm_compute.
  - unfold lines, delivered, enable_mouse. cbn [Idt.pics]. rewrite (proj1 (write_masks_spec _ _ _)). by vm_compute.
Qed.
End platform.

(** C30: Interrupts that are let through are served. After [init] - whatever masks
    the firmware left - interrupts are on, exactly the timer's and the keyboard's
    lines are unmasked, and [enable_mouse] adds exactly the mouse's; each line
    that is delivered arrives at the gate of its own handler, every interrupt
    stack a gate names is installed, programs can raise the system call vector
    and no other, and the handlers that may switch tasks run on the stack of the
    task they interrupt. *)
Theorem interrupts_are_served {P K} `{!ChainedPics P} `{!Ports K} STACK (p : Platform P K) :
  ∃ p', init STACK p = Some p' ∧ serves p' ∧ lines p' = [0; 1] ∧
    serves (enable_mouse p') ∧ lines (enable_mouse p') = [0; 1; 12] ∧
    (∀ v g, IDT !! v = Some g →
       (ring3 g = true ↔ v = SYSCALL_VECTOR) ∧
       (handler g = TimerInterruptHandler ∨ handler g = SyscallEntry → stack_index g = None)).
Proof.
  destruct (init_serves STACK p) as (p'&E&Hs&Hl&Ho). destruct (enable_mouse_serves p' Hs Ho) as [Hs' Hl'].
  exists p'. split_and!; [done..|]. intros v g Hg. split; [by apply ring3_gates|by eapply switching_gates].
Qed.

(** *** The timer *)

(** What the 8254 makes of the bytes: after the command 0x36 for channel 0, the
    low and then the high byte of the divisor. *)
Definition programmed (l : list PortEvent) : option Z :=
  match l with
  | [Outb 0x43 0x36; Outb 0x40 low; Outb 0x40 high] => Some (low + 2 ^ 8 * high)
  | _ => None
  end.

(** The timer is programmed with the divisor, and at 100 Hz ten thousand ticks
    are off by less than one. *)
Lemma timer_is_programmed {K} `{!Ports K} (k : K) :
  ∃ k' l d, init_pit TIMER_HZ (k, []) = (k', l) ∧ programmed l = Some d ∧ d = divisor TIMER_HZ ∧
    9999 * d < 100 * PIT_INPUT_HZ < 10001 * d.
Proof. eexists _, _, _. split; [reflexivity|]. split; [reflexivity|]. split; [reflexivity|]. by vm_compute. Qed.

(** ** The time stamps of the ticks *)

(** The time stamp counter at the first and at the last tick. *)
Record TickStamps := mk_stamps { FIRST_TICK_TSC : Z; LAST_TICK_TSC : Z }.

(** [compare_exchange(0, tsc)] and the store of the timer's handler. *)
Definition stamp_tick (tsc : Z) (s : TickStamps) : TickStamps := mk_stamps (if FIRST_TICK_TSC s =? 0 then tsc else FIRST_TICK_TSC s) tsc.

Definition average_tsc_cycles_per_tick (ticks : Z) (s : TickStamps) : option Z :=
  let first := FIRST_TICK_TSC s in
  let last := LAST_TICK_TSC s in
  if (ticks <? 2) || (first =? 0) || (last <=? first) then None else Some ((last - first) / (ticks - 1)).

Definition stamp_ticks (tscs : list Z) : TickStamps := foldl (λ s tsc, stamp_tick tsc s) (mk_stamps 0 0) tscs.

Lemma stamps_first tsc tscs : tsc ≠ 0 → stamp_ticks (tsc :: tscs) = mk_stamps tsc (List.last (tsc :: tscs) 0).
Proof.
  intros Hne. unfold stamp_ticks. cbn [foldl]. change (stamp_tick tsc (mk_stamps 0 0)) with (mk_stamps tsc tsc).
  assert (∀ l x, foldl (λ s tsc, stamp_tick tsc s) (mk_stamps tsc x) l = mk_stamps tsc (List.last (x :: l) 0)) as Hl.
  { induction l as [|y l IH]; intros x; [done|]. cbn [foldl]. unfold stamp_tick at 2. cbn [FIRST_TICK_TSC].
    rewrite (proj2 (Z.eqb_neq tsc 0) Hne). rewrite IH. done. }
  apply Hl.
Qed.

(** The average is that of the intervals between the ticks. *)
Lemma average_is_of_intervals tsc tscs last : tsc ≠ 0 → 1 <= zlen tscs → List.last tscs 0 = last → tsc < last →
  ∃ a, average_tsc_cycles_per_tick (zlen (tsc :: tscs)) (stamp_ticks (tsc :: tscs)) = Some a ∧
    a * zlen tscs <= last - tsc < (a + 1) * zlen tscs.
Proof.
  intros Hne Hn Hl Hlt. rewrite stamps_first by done. assert (List.last (tsc :: tscs) 0 = last) as -> by (by destruct tscs).
  unfold average_tsc_cycles_per_tick. cbn [FIRST_TICK_TSC LAST_TICK_TSC]. rewrite (proj2 (Z.eqb_neq tsc 0) Hne), (proj2 (Z.leb_gt last tsc) Hlt).
  assert (zlen (tsc :: tscs) = zlen tscs + 1) as -> by (unfold zlen; simpl; lia). rewrite (proj2 (Z.ltb_ge (zlen tscs + 1) 2)) by lia.
  eexists. split; [reflexivity|]. replace (zlen tscs + 1 - 1) with (zlen tscs) by lia. Z.to_euclidean_division_equations. nia.
Qed.

(** ** Controllers *)

Module PicSample.
Record pic_pair := mk_pics { pic_masks : Z * Z; pic_offsets : option (Z * Z) }.

#[local] Instance pic_pair_chained : ChainedPics pic_pair := {|
  initialize p := mk_pics (pic_masks p) (Some (PIC_1_OFFSET, PIC_2_OFFSET));
  write_masks a b p := mk_pics (a, b) (pic_offsets p);
  masks := pic_masks;
  offsets := pic_offsets;
  initialize_spec _ := conj eq_refl eq_refl;
  write_masks_spec _ _ _ := conj eq_refl eq_refl
|}.
#[local] Instance no_device : Ports unit := {| inb _ s := (0, s); outb _ _ s := s; inw _ s := (0, s); outw _ _ s := s |}.

(** SeaBIOS leaves the line of the disk controller unmasked. *)
Definition firmware : Platform pic_pair (unit * list PortEvent) :=
  mk_platform (mk_tss ∅ 0) None (mk_pics (0xB8, 0x8E) None) (tt, []) false.

Example lines_after_boot :
  (lines firmware, lines <$> init 0x5000 firmware, (λ p, lines (enable_mouse p)) <$> init 0x5000 firmware, (λ p, (pit p).2) <$> init 0x5000 firmware)
  = ([0; 1; 6; 8; 12; 13; 14], Some [0; 1], Some [0; 1; 12], Some [Outb 0x43 0x36; Outb 0x40 0x9B; Outb 0x40 0x2E]).
Proof. vm_compute. reflexivity. Qed.
End PicSample.
