(* ===== verification/Tree.v ===== *)
(** Directories. The contents of one: the [Vec<(String, Node)>] both filesystem
    layers keep. Order matters (listing and serialization follow it) and nothing
    in the type keeps names distinct, so this file holds the search and update
    operations with the lemmas that relate them to an invariant of distinct names.
    And walking a tree by path components: both layers own a tree of named nodes
    ([FsNode] on disk, [Entry] in memory) and walk it the same way; the class
    states what the walk needs of a node, and the lemmas say how the node at a
    path and the replacement of a node interact. *)

From S2P Require Import Prelude.

Section children.
Context {A : Type}.
Implicit Types (ch : list (str * A)) (name : str) (x : A).

(** [children.iter().position(|(n, _)| n == name)] with the entry found *)
Definition find_entry name ch : option (nat * A) :=
  (λ '(i, (_, x)), (i, x)) <$> list_find (λ c, c.1 = name) ch.

(** [children.iter().any(|(n, _)| n == name)] *)
Definition has_entry name ch : bool := match find_entry name ch with Some _ => true | None => false end.

(** [children[i].1 = x] for the entry [find_entry] returned *)
Definition set_entry (i : nat) name x ch : list (str * A) := <[i := (name, x)]> ch.

(** [children.remove(i)] *)
Definition remove_entry (i : nat) ch : list (str * A) := take i ch ++ drop (S i) ch.

Lemma find_entry_Some name ch i x :
  find_entry name ch = Some (i, x)
  ↔ ch !! i = Some (name, x) ∧ ∀ j c, ch !! j = Some c → (j < i)%nat → c.1 ≠ name.
Proof.
  unfold find_entry. rewrite fmap_Some. split.
  - intros ([j [n y]] & (Hj&Hn&Hlt)%list_find_Some & ?). cbn in Hn. by simplify_eq.
  - intros [Hi Hlt]. exists (i, (name, x)). split; [|done]. apply list_find_Some. done.
Qed.

Lemma find_entry_None name ch : find_entry name ch = None ↔ name ∉ ch.*1.
Proof.
  unfold find_entry. rewrite fmap_None, list_find_None, Forall_forall, list_elem_of_fmap.
  split; [intros H (c & -> & Hin); by eapply H|].
  intros H c Hin <-. apply H. by exists c.
Qed.

Lemma has_entry_false name ch : has_entry name ch = false ↔ name ∉ ch.*1.
Proof. rewrite <- find_entry_None. unfold has_entry. by destruct (find_entry name ch). Qed.

Lemma has_entry_true name ch : has_entry name ch = true ↔ name ∈ ch.*1.
Proof.
  pose proof (has_entry_false name ch). destruct (has_entry name ch); [|naive_solver].
  destruct (decide (name ∈ ch.*1)); naive_solver.
Qed.

Lemma find_entry_cons name n x ch :
  find_entry name ((n, x) :: ch)
  = if decide (n = name) then Some (0%nat, x)
    else (λ '(i, y), (S i, y)) <$> find_entry name ch.
Proof.
  unfold find_entry. simpl. case_decide; [done|].
  rewrite <- !option_fmap_compose. apply option_fmap_ext. by intros [i [? ?]].
Qed.

Lemma find_entry_app_None name ch ch' :
  name ∉ ch.*1 →
  find_entry name (ch ++ ch') = (λ '(i, y), ((length ch + i)%nat, y)) <$> find_entry name ch'.
Proof.
  induction ch as [|[n x] ch IH]; simpl.
  - intros _. by destruct (find_entry name ch') as [[??]|].
  - rewrite not_elem_of_cons. intros [Hn Hch]. rewrite find_entry_cons, decide_False by naive_solver.
    rewrite IH by done. by destruct (find_entry name ch') as [[??]|].
Qed.

Lemma find_entry_snoc name x ch :
  name ∉ ch.*1 → find_entry name (ch ++ [(name, x)]) = Some (length ch, x).
Proof.
  intros. rewrite find_entry_app_None by done. rewrite find_entry_cons, decide_True by done.
  simpl. by rewrite Nat.add_0_r.
Qed.

Lemma find_entry_app_Some name ch ch' i x :
  find_entry name ch = Some (i, x) → find_entry name (ch ++ ch') = Some (i, x).
Proof.
  rewrite !find_entry_Some. intros [Hi Hlt]. split; [by apply lookup_app_l_Some|].
  intros j c Hj Hji. eapply Hlt; [|done]. rewrite lookup_app_l in Hj; [done|].
  apply lookup_lt_Some in Hi. lia.
Qed.

(** Writing back under the same name moves no entry. *)
Lemma find_set_entry name ch i x y :
  find_entry name ch = Some (i, x) → find_entry name (set_entry i name y ch) = Some (i, y).
Proof.
  rewrite !find_entry_Some. intros [Hi Hlt]. unfold set_entry. split.
  - apply list_lookup_insert_eq. by eapply lookup_lt_Some.
  - intros j c Hj Hji. rewrite list_lookup_insert_ne in Hj by lia. by eapply Hlt.
Qed.

Lemma find_set_entry_ne name name' ch i x y :
  find_entry name ch = Some (i, x) → name' ≠ name →
  find_entry name' (set_entry i name y ch) = find_entry name' ch.
Proof.
  intros (Hi & _)%find_entry_Some Hne. unfold set_entry.
  rewrite insert_take_drop by (by eapply lookup_lt_Some).
  rewrite <- (take_drop_middle ch i (name, x)) at 3 by done.
  induction (take i ch) as [|[n z] l IH]; simpl; rewrite !find_entry_cons;
    [by rewrite !decide_False by congruence|]. by rewrite IH.
Qed.

Lemma set_entry_names name ch i x y :
  find_entry name ch = Some (i, x) → (set_entry i name y ch).*1 = ch.*1.
Proof.
  intros (Hi & _)%find_entry_Some. unfold set_entry. rewrite list_fmap_insert. simpl.
  apply list_insert_id. by rewrite list_lookup_fmap, Hi.
Qed.

Lemma set_set_entry i name x y ch : set_entry i name y (set_entry i name x ch) = set_entry i name y ch.
Proof. apply list_insert_insert_eq. Qed.

Lemma set_entry_snoc name x y ch :
  set_entry (length ch) name y (ch ++ [(name, x)]) = ch ++ [(name, y)].
Proof. unfold set_entry. rewrite insert_app_r_alt by done. by rewrite Nat.sub_diag. Qed.

Lemma remove_entry_names name ch i x :
  find_entry name ch = Some (i, x) →
  ∃ l r, ch = l ++ (name, x) :: r ∧ i = length l ∧ remove_entry i ch = l ++ r.
Proof.
  intros (Hi & _)%find_entry_Some. exists (take i ch), (drop (S i) ch).
  split_and!; [by rewrite take_drop_middle| |done].
  rewrite length_take. apply lookup_lt_Some in Hi. lia.
Qed.

Lemma remove_entry_NoDup name ch i x :
  NoDup ch.*1 → find_entry name ch = Some (i, x) →
  NoDup (remove_entry i ch).*1 ∧ name ∉ (remove_entry i ch).*1.
Proof.
  intros Hnd (l & r & -> & _ & ->)%remove_entry_names.
  rewrite fmap_app, fmap_cons in Hnd. rewrite fmap_app. simpl in Hnd.
  apply NoDup_app in Hnd as (Hl & Hlr & [Hr Hnr]%NoDup_cons). split.
  - apply NoDup_app. split_and!; try done. intros n Hn. specialize (Hlr n Hn). set_solver.
  - rewrite elem_of_app. intros [Hn|Hn]; [|done]. apply (Hlr _ Hn). by left.
Qed.

Lemma find_remove_entry_ne name name' ch i x :
  find_entry name ch = Some (i, x) → name' ≠ name →
  snd <$> find_entry name' (remove_entry i ch) = snd <$> find_entry name' ch.
Proof.
  intros (l & r & -> & _ & ->)%remove_entry_names Hne.
  induction l as [|[n z] l IH]; simpl; rewrite !find_entry_cons.
  - rewrite decide_False by congruence. by destruct (find_entry name' r) as [[??]|].
  - case_decide; [done|]. revert IH.
    by destruct (find_entry name' (l ++ r)) as [[??]|],
                (find_entry name' (l ++ (name, x) :: r)) as [[??]|].
Qed.

(** With distinct names every entry is the one its name finds. *)
Lemma find_entry_NoDup name x ch :
  NoDup ch.*1 → (name, x) ∈ ch → ∃ i, find_entry name ch = Some (i, x).
Proof.
  intros Hnd (i & Hi)%list_elem_of_lookup. exists i. apply find_entry_Some. split; [done|].
  intros j c Hj Hji Hc. assert (j = i); [|lia].
  eapply NoDup_lookup; [done| |]; rewrite list_lookup_fmap;
    [rewrite Hj; simpl; by rewrite Hc|by rewrite Hi].
Qed.

Lemma find_entry_elem name x ch i : find_entry name ch = Some (i, x) → (name, x) ∈ ch.
Proof. intros [? _]%find_entry_Some. by eapply list_elem_of_lookup_2. Qed.
Lemma sum_list_with_set_entry (f : str * A → nat) i name child new (children : list (str * A)) :
  find_entry name children = Some (i, child) →
  (sum_list_with f (set_entry i name new children) + f (name, child)
   = sum_list_with f children + f (name, new))%nat.
Proof.
  intros (Hi & _)%find_entry_Some. unfold set_entry.
  rewrite insert_take_drop by (by eapply lookup_lt_Some).
  rewrite <- (take_drop_middle children i (name, child)) at 3 by done.
  rewrite !sum_list_with_app. simpl. lia.
Qed.
End children.

(** ** Walking by path components *)

Class DirTree (T : Type) := {
  (** the children, when the node is a directory *)
  dir_of : T → option (list (str * T));
  mk_dir : list (str * T) → T;
}.

Class DirTreeSpec (T : Type) `{DirTree T} := {
  dir_of_mk_dir ch : dir_of (mk_dir ch) = Some ch;
  dir_of_inv t ch : dir_of t = Some ch → t = mk_dir ch;
}.

Section walk.
Context {T : Type} `{DirTreeSpec T}.
Implicit Types (t new : T) (parts : list str) (ch : list (str * T)).

(** The node reached from [t] by following [parts]. *)
Fixpoint node_at t parts : option T :=
  match parts with
  | [] => Some t
  | part :: rest =>
      ch ← dir_of t; '(_, child) ← find_entry part ch; node_at child rest
  end.

(** The tree with the node at [parts] replaced; unchanged when there is none. *)
Fixpoint set_at t parts new : T :=
  match parts with
  | [] => new
  | part :: rest =>
      match dir_of t with
      | Some ch =>
          match find_entry part ch with
          | Some (i, child) => mk_dir (set_entry i part (set_at child rest new) ch)
          | None => t
          end
      | None => t
      end
  end.

(** The children of the directory at [parts]. *)
Definition dir_at t parts : option (list (str * T)) := node_at t parts ≫= dir_of.

Lemma node_at_cons t part rest u :
  node_at t (part :: rest) = Some u
  ↔ ∃ ch i child, dir_of t = Some ch ∧ find_entry part ch = Some (i, child)
                  ∧ node_at child rest = Some u.
Proof.
  simpl. rewrite bind_Some. split.
  - intros (ch & Hch & ((i & child) & Hf & Hu)%bind_Some). eauto 10.
  - intros (ch & i & child & Hch & Hf & Hu). exists ch. split; [done|]. by rewrite Hf.
Qed.

Lemma node_at_app t parts parts' :
  node_at t (parts ++ parts') = node_at t parts ≫= λ u, node_at u parts'.
Proof.
  revert t. induction parts as [|part rest IH]; intros t; [done|]. simpl.
  destruct (dir_of t) as [ch|]; simpl; [|done].
  destruct (find_entry part ch) as [[i child]|]; simpl; [apply IH|done].
Qed.

Lemma node_at_snoc t parts part :
  node_at t (parts ++ [part])
  = (ch ← dir_at t parts; snd <$> find_entry part ch).
Proof.
  unfold dir_at. rewrite node_at_app. destruct (node_at t parts) as [u|]; simpl; [|done].
  destruct (dir_of u) as [ch|]; simpl; [|done].
  by destruct (find_entry part ch) as [[i child]|].
Qed.

Lemma node_at_set_at t parts u new : node_at t parts = Some u → node_at (set_at t parts new) parts = Some new.
Proof.
  revert t. induction parts as [|part rest IH]; intros t; [done|].
  intros (ch & i & child & Hch & Hf & Hu)%node_at_cons. simpl. rewrite Hch, Hf, dir_of_mk_dir. simpl.
  rewrite (find_set_entry _ _ _ _ _ Hf). simpl. by apply IH.
Qed.

Lemma set_at_set_at t parts u new new' :
  node_at t parts = Some u → set_at (set_at t parts new) parts new' = set_at t parts new'.
Proof.
  revert t. induction parts as [|part rest IH]; intros t; [done|].
  intros (ch & i & child & Hch & Hf & Hu)%node_at_cons. simpl. rewrite Hch, Hf, dir_of_mk_dir.
  rewrite (find_set_entry _ _ _ _ _ Hf), IH by done. by rewrite set_set_entry.
Qed.

Lemma set_at_same t parts u : node_at t parts = Some u → set_at t parts u = t.
Proof.
  revert t. induction parts as [|part rest IH]; intros t; [by intros [= <-]|].
  intros (ch & i & child & Hch & Hf & Hu)%node_at_cons. simpl. rewrite Hch, Hf, IH by done.
  symmetry. rewrite (dir_of_inv t ch) by done. f_equal. unfold set_entry.
  symmetry. apply list_insert_id. by apply find_entry_Some in Hf as [? _].
Qed.

Lemma set_at_app t parts parts' u new :
  node_at t parts = Some u → set_at t (parts ++ parts') new = set_at t parts (set_at u parts' new).
Proof.
  revert t. induction parts as [|part rest IH]; intros t; [by intros [= <-]|].
  intros (ch & i & child & Hch & Hf & Hu)%node_at_cons. simpl. by rewrite Hch, Hf, IH.
Qed.

(** Replacing the child last pushed onto a directory is replacing it before the push. *)
Lemma set_at_snoc t parts ch part u new :
  dir_at t parts = Some ch → part ∉ ch.*1 →
  set_at (set_at t parts (mk_dir (ch ++ [(part, u)]))) (parts ++ [part]) new
  = set_at t parts (mk_dir (ch ++ [(part, new)])).
Proof.
  unfold dir_at. intros (v & Hv & Hch)%bind_Some Hpart.
  erewrite set_at_app by (by eapply node_at_set_at). simpl.
  rewrite dir_of_mk_dir, find_entry_snoc by done. simpl.
  rewrite set_entry_snoc. by eapply set_at_set_at.
Qed.

Lemma dir_at_set_at t parts u ch : node_at t parts = Some u → dir_at (set_at t parts (mk_dir ch)) parts = Some ch.
Proof. intros. unfold dir_at. erewrite node_at_set_at by done. simpl. apply dir_of_mk_dir. Qed.

Lemma dir_at_node t parts ch : dir_at t parts = Some ch ↔ node_at t parts = Some (mk_dir ch).
Proof.
  unfold dir_at. rewrite bind_Some. split.
  - intros (u & Hu & Huch). by rewrite Hu, (dir_of_inv u ch).
  - intros Hu. exists (mk_dir ch). split; [done|]. apply dir_of_mk_dir.
Qed.

(** A node elsewhere is not touched: where the two paths part, the walk takes
    another child. *)
Lemma node_at_set_at_ne t parts new pre a b suf suf' :
  parts = pre ++ a :: suf → a ≠ b →
  node_at (set_at t parts new) (pre ++ b :: suf') = node_at t (pre ++ b :: suf').
Proof.
  intros -> Hab. revert t. induction pre as [|part pre IH]; intros t; simpl.
  - destruct (dir_of t) as [ch|] eqn:Hch; [|by rewrite Hch].
    destruct (find_entry a ch) as [[i child]|] eqn:Hf; [|by rewrite Hch].
    rewrite dir_of_mk_dir. simpl. by rewrite (find_set_entry_ne _ _ _ _ _ _ Hf) by done.
  - destruct (dir_of t) as [ch|] eqn:Hch; [|by rewrite Hch].
    destruct (find_entry part ch) as [[i child]|] eqn:Hf; simpl.
    + rewrite dir_of_mk_dir. simpl. rewrite (find_set_entry _ _ _ _ _ Hf), Hf. simpl. apply IH.
    + by rewrite Hch; simpl; rewrite Hf.
Qed.
End walk.
