(* ===== verification/TuwaiqTree.v ===== *)
(** The metadata format of kernel/src/tuwaiqfs.rs: the [FsNode] tree, its
    serialization into the "TREE" blob of path records, and the parser that
    rebuilds the tree and rejects malformed input.

    [Vec::try_reserve] is taken to succeed: allocation failure has no
    representation here. *)

From S2P Require Import Prelude Str Tree.

Definition MAX_FILE_SIZE : Z := u16_max.
Definition MAX_NODE_COUNT : nat := 1024.
Definition TREE_MAGIC : list byte := bs "TREE".

Inductive FsNode : Type :=
| File (content : list byte)
| Dir (children : list (str * FsNode)).

Definition FsNode_ind' (P : FsNode → Prop)
  (HFile : ∀ content, P (File content))
  (HDir : ∀ children, Forall (λ c, P c.2) children → P (Dir children)) : ∀ node, P node :=
  fix go node :=
    match node with
    | File content => HFile content
    | Dir children =>
        HDir children ((fix go_children ch : Forall (λ c, P c.2) ch :=
          match ch with
          | [] => Forall_nil_2 _
          | c :: rest => Forall_cons_2 _ c rest (go c.2) (go_children rest)
          end) children)
    end.

#[global] Instance FsNode_tree : DirTree FsNode := {
  dir_of node := match node with Dir children => Some children | File _ => None end;
  mk_dir := Dir;
}.

#[global] Instance FsNode_tree_spec : DirTreeSpec FsNode.
Proof. split; [done|]. by intros [] ? [= <-]. Qed.

Lemma dir_at_Dir (root : FsNode) parts children :
  dir_at root parts = Some children ↔ node_at root parts = Some (Dir children).
Proof. exact (dir_at_node root parts children). Qed.

Lemma dir_at_set_Dir (root u : FsNode) parts children :
  node_at root parts = Some u → dir_at (set_at root parts (Dir children)) parts = Some children.
Proof. exact (dir_at_set_at root parts u children). Qed.

Lemma set_at_snoc_Dir (root u new : FsNode) parts children name :
  dir_at root parts = Some children → name ∉ children.*1 →
  set_at (set_at root parts (Dir (children ++ [(name, u)]))) (parts ++ [name]) new
  = set_at root parts (Dir (children ++ [(name, new)])).
Proof. exact (set_at_snoc root parts children name u new). Qed.

Definition empty_root : FsNode := Dir [].

(** ** Serialization *)

Definition join_path (base name : str) : str :=
  match base with [] => name | _ => base ++ slash :: name end.

Definition write_record (out : list byte) (kind : Z) (path : str) (content : option (list byte))
    : result (list byte) :=
  _ ← ensure (negb ((zlen path =? 0) || (120 <? zlen path))) "invalid path";
  let out := out ++ [z2b kind] ++ [z2b (zlen path)] ++ path in
  if kind =? 1 then
    bytes ← ok_or content "missing file content";
    _ ← ensure (negb (MAX_FILE_SIZE <? zlen bytes)) "file too large";
    Ok (out ++ le_encode 2 (zlen bytes) ++ bytes)
  else Ok out.

Fixpoint flatten_tree (path : str) (node : FsNode) (out : list byte) : result (list byte) :=
  match node with
  | File content => write_record out 1 path (Some content)
  | Dir children =>
      out ← match path with [] => Ok out | _ => write_record out 2 path None end;
      (fix flatten_children children out :=
        match children with
        | [] => Ok out
        | (name, child) :: rest =>
            out ← flatten_tree (join_path path name) child out;
            flatten_children rest out
        end) children out
  end.

Definition serialize_tree (root : FsNode) : result (list byte) := flatten_tree [] root TREE_MAGIC.

(** ** Parsing *)

Definition validate_metadata_path (path : str) : result unit :=
  _ ← ensure (negb ((zlen path =? 0) || (120 <? zlen path)
                    || starts_with [slash] path || ends_with slash path
                    || contains backslash path || existsb is_control path))
        "invalid metadata path";
  ensure (forallb (λ component,
            negb ((zlen component =? 0) || bool_decide (component = [dot])
                  || bool_decide (component = [dot; dot]) || (64 <? zlen component)))
            (split_on slash path))
    "invalid metadata path component".

(** One iteration of the loop of [deserialize_tree] up to [insert_at_path]: the
    record at the front of [data], and the data after it. *)
Definition read_record (data : list byte) : result (str * FsNode * list byte) :=
  match data with
  | kind :: path_len :: data =>
      let path_len := Z.to_nat (b2z path_len) in
      _ ← ensure (path_len <=? length data)%nat "truncated record path";
      path ← from_utf8 (take path_len data) "invalid path in metadata";
      _ ← validate_metadata_path path;
      let data := drop path_len data in
      if b2z kind =? 1 then
        match data with
        | len0 :: len1 :: data =>
            let content_len := Z.to_nat (le_decode [len0; len1]) in
            _ ← ensure (content_len <=? length data)%nat "truncated file content";
            Ok (path, File (take content_len data), drop content_len data)
        | _ => Err "truncated file record"
        end
      else if b2z kind =? 2 then Ok (path, Dir [], data)
      else Err "unknown record kind"
  | _ => Err "truncated record header"
  end.

(** The loop of [insert_at_path] over the path components. *)
Fixpoint insert_parts (current : FsNode) (parts : list str) (node : FsNode) : result FsNode :=
  match parts with
  | [] => Ok current
  | part :: rest =>
      match current with
      | Dir children =>
          match rest with
          | [] =>
              if has_entry part children then Err "duplicate metadata path"
              else Ok (Dir (children ++ [(part, node)]))
          | _ =>
              '(pos, child) ← ok_or (find_entry part children) "metadata parent directory missing";
              child ← insert_parts child rest node;
              Ok (Dir (set_entry pos part child children))
          end
      | File _ => Err "path conflict"
      end
  end.

Definition insert_at_path (root : FsNode) (path : str) (node : FsNode) : result FsNode :=
  insert_parts root (components path) node.

(** The loop of [deserialize_tree]; [budget] records may still be read. *)
Fixpoint deserialize_loop (budget : nat) (data : list byte) (root : FsNode) : result FsNode :=
  match data with
  | [] => Ok root
  | _ =>
      match budget with
      | O => Err "too many metadata records"
      | S budget =>
          '(path, node, data) ← read_record data;
          root ← insert_at_path root path node;
          deserialize_loop budget data root
      end
  end.

Definition deserialize_tree (data : list byte) : result FsNode :=
  deserialize_loop MAX_NODE_COUNT data empty_root.

(** ** Well-formed trees *)

(** A name the parser accepts as a path component. *)
Definition valid_name (name : str) : bool :=
  negb (zlen name =? 0) && (zlen name <=? 64)
  && negb (bool_decide (name = [dot])) && negb (bool_decide (name = [dot; dot]))
  && negb (contains slash name) && negb (contains backslash name)
  && negb (existsb is_control name) && utf8_valid name.

(** A node stored under [path]: the names below it are valid and distinct within
    each directory, its paths and contents fit their length fields. *)
Fixpoint wf_node (path : str) (node : FsNode) : bool :=
  (zlen path <=? 120) &&
  match node with
  | File content => zlen content <=? MAX_FILE_SIZE
  | Dir children =>
      bool_decide (NoDup children.*1)
      && forallb (λ '(name, child), valid_name name && wf_node (join_path path name) child) children
  end.

Definition wf_tree (root : FsNode) : bool :=
  match root with Dir _ => wf_node [] root | File _ => false end.

(** Nodes in a tree, the node itself included: one metadata record each, except
    for the root, which has none. *)
Fixpoint node_count (node : FsNode) : nat :=
  match node with
  | File _ => 1
  | Dir children => S (sum_list_with (λ '(_, child), node_count child) children)
  end.
Definition record_count (root : FsNode) : nat := pred (node_count root).

(** ** The records of a tree *)

(** The record view the proofs go through: every node below [parts] with its path,
    directories as empty ones, in serialization order. *)
Fixpoint tree_records (parts : list str) (node : FsNode) : list (list str * FsNode) :=
  match node with
  | File content => [(parts, node)]
  | Dir children =>
      match parts with [] => [] | _ => [(parts, Dir [])] end
      ++ concat ((λ '(name, child), tree_records (parts ++ [name]) child) <$> children)
  end.

Definition record_kind (node : FsNode) : Z := match node with File _ => 1 | Dir _ => 2 end.
Definition record_payload (node : FsNode) : list byte :=
  match node with File content => le_encode 2 (zlen content) ++ content | Dir _ => [] end.
Definition encode_record (r : list str * FsNode) : list byte :=
  let path := join_components r.1 in
  [z2b (record_kind r.2)] ++ [z2b (zlen path)] ++ path ++ record_payload r.2.

(** The tree rebuilt from its records. *)
Fixpoint insert_all (records : list (list str * FsNode)) (root : FsNode) : result FsNode :=
  match records with
  | [] => Ok root
  | (parts, node) :: rest => root ← insert_parts root parts node; insert_all rest root
  end.

(** ** Lemmas on names and paths *)

Lemma valid_name_spec name :
  valid_name name = true ↔
  is_component name ∧ zlen name <= 64 ∧ name ≠ [dot] ∧ name ≠ [dot; dot]
  ∧ (∀ b, b ∈ name → b ≠ backslash ∧ is_control b = false) ∧ utf8_valid name = true.
Proof.
  unfold valid_name, is_component.
  rewrite !andb_true_iff, !negb_true_iff, !bool_decide_eq_false, !contains_false, Z.eqb_neq, Z.leb_le.
  assert (existsb is_control name = false ↔ ∀ b, b ∈ name → is_control b = false) as ->.
  { rewrite <- Bool.not_true_iff_false, existsb_exists. setoid_rewrite <- list_elem_of_In.
    split; [|intros H (b & Hb & Hc); rewrite (H b Hb) in Hc; done].
    intros H b Hb. destruct (is_control b) eqn:E; [|done]. destruct H. by exists b. }
  assert (zlen name ≠ 0 ↔ name ≠ []) as ->.
  { unfold zlen. destruct name; simpl; [done|]. split; [done|lia]. }
  split; [|intros ([??]&?&?&?&Hb&?); split_and!; try done;
             [by intros [? _]%Hb|by intros b [_ ?]%Hb]].
  intros (((((((?&?)&?)&?)&?)&?)&?)&?). split_and!; try done.
  intros b Hb. split; [|by auto]. by intros ->.
Qed.

Lemma valid_name_component name : valid_name name = true → is_component name.
Proof. rewrite valid_name_spec. by intros [? _]. Qed.

Definition valid_parts (parts : list str) : Prop := Forall (λ p, valid_name p = true) parts.

Lemma valid_parts_elem parts p : valid_parts parts → p ∈ parts → valid_name p = true.
Proof. unfold valid_parts. rewrite Forall_forall. auto. Qed.

Lemma valid_parts_components parts : valid_parts parts → Forall is_component parts.
Proof. intros. eapply Forall_impl; [done|]. apply valid_name_component. Qed.

Lemma join_path_components parts name :
  Forall is_component parts → join_path (join_components parts) name = join_components (parts ++ [name]).
Proof.
  intros Hp. rewrite join_components_app. destruct parts as [|p parts]; [done|].
  unfold join_path. destruct (join_components (p :: parts)) eqn:E; [|done].
  by apply join_components_nil_iff in E.
Qed.

Lemma join_nonempty parts : Forall is_component parts → parts ≠ [] → zlen (join_components parts) ≠ 0.
Proof. intros Hp Hne E%zlen_0_inv%join_components_nil_iff; done. Qed.

(** The parser accepts exactly the slash-joined lists of valid names of at most
    120 bytes. *)
Lemma validate_metadata_path_join parts :
  valid_parts parts → parts ≠ [] → zlen (join_components parts) <= 120 →
  validate_metadata_path (join_components parts) = Ok tt.
Proof.
  intros Hv Hne Hlen. pose proof (valid_parts_components _ Hv) as Hc.
  unfold validate_metadata_path. apply bind_Ok. exists tt. rewrite !ensure_Ok. split.
  - rewrite join_starts, join_ends by done.
    pose proof (join_nonempty _ Hc Hne).
    destruct (Z.eqb_spec (zlen (join_components parts)) 0); [done|].
    destruct (Z.ltb_spec 120 (zlen (join_components parts))); [lia|]. simpl.
    assert (∀ b, b ∈ join_components parts → b ≠ backslash ∧ is_control b = false) as Hb.
    { intros b [->|(p & Hp & Hb)]%elem_of_join; [done|].
      pose proof (valid_parts_elem _ _ Hv Hp) as (_&_&_&_&Hbs&_)%valid_name_spec. by apply Hbs. }
    apply negb_true_iff, orb_false_iff. split.
    + apply contains_false. intros Hin. by apply Hb in Hin as [??].
    + rewrite <- Bool.not_true_iff_false, existsb_exists. setoid_rewrite <- list_elem_of_In.
      intros (b & [_ Hin]%Hb & Hbc). by rewrite Hin in Hbc.
  - rewrite split_join; [|done|eapply Forall_impl; [done|by intros ? [??]]].
    apply forallb_forall. intros p Hp%list_elem_of_In.
    apply (valid_parts_elem _ _ Hv), valid_name_spec in Hp as ([Hp _] & Hl & Hd & Hdd & _).
    rewrite !bool_decide_eq_false_2 by done.
    destruct (Z.eqb_spec (zlen p) 0) as [E|]; [by apply zlen_0_inv in E|].
    destruct (Z.ltb_spec 64 (zlen p)); [lia|done].
Qed.

Lemma validate_metadata_path_inv path :
  validate_metadata_path path = Ok tt → utf8_valid path = true →
  valid_parts (components path) ∧ components path ≠ []
  ∧ join_components (components path) = path ∧ zlen path <= 120.
Proof.
  unfold validate_metadata_path. rewrite bind_Ok. intros ([] & H1 & H2) Hu.
  rewrite ensure_Ok in H1, H2. bool_hyps. rewrite forallb_forall in H2.
  assert (components path = split_on slash path) as Hcs.
  { unfold components. apply filter_all, Forall_forall. intros p Hp%list_elem_of_In%H2. bool_hyps.
    by intros ->. }
  rewrite Hcs. split_and!; [|apply split_on_nonempty|apply join_split|lia].
  pose proof (utf8_split slash path eq_refl Hu) as Hus. rewrite Forall_forall in Hus.
  apply Forall_forall. intros p Hp. apply valid_name_spec.
  assert (∀ b, b ∈ p → b ∈ path) as Hsub.
  { intros b Hb. rewrite <- (join_split path). by eapply elem_of_join_part. }
  specialize (H2 p ltac:(by apply list_elem_of_In)). bool_hyps.
  split_and!; try done; [..|by apply Hus].
  - split; [by intros ->|by eapply split_on_pieces].
  - intros b Hb%Hsub. split.
    + intros ->. by match goal with H : contains _ _ = false |- _ => apply contains_false in H end.
    + destruct (is_control b) eqn:E; [|done].
      match goal with H : existsb _ _ = false |- _ => rewrite <- H end.
      symmetry. apply existsb_exists. exists b. by rewrite <- list_elem_of_In.
Qed.

(** ** Records: encoding and reading *)

(** What a record needs to survive the trip. *)
Definition record_ok (r : list str * FsNode) : Prop :=
  r.1 ≠ [] ∧ valid_parts r.1 ∧ zlen (join_components r.1) <= 120
  ∧ match r.2 with File content => zlen content <= MAX_FILE_SIZE | Dir children => children = [] end.

Lemma take_drop_zlen {A} (l r : list A) : take (Z.to_nat (zlen l)) (l ++ r) = l ∧ drop (Z.to_nat (zlen l)) (l ++ r) = r.
Proof. unfold zlen. rewrite Nat2Z.id. split; [apply take_app_length|apply drop_app_length]. Qed.

Lemma read_record_encode r rest :
  record_ok r →
  read_record (encode_record r ++ rest) = Ok (join_components r.1, r.2, rest).
Proof.
  destruct r as [parts node]. intros (Hne & Hv & Hlen & Hnode). unfold encode_record. cbn [fst snd] in *.
  assert (b2z (z2b (zlen (join_components parts))) = zlen (join_components parts)) as Hpl
    by (apply b2z_z2b_small; pose proof (zlen_nonneg (join_components parts)); lia).
  cbn [app]. rewrite <- app_assoc. unfold read_record. rewrite Hpl.
  destruct (take_drop_zlen (join_components parts) (record_payload node ++ rest)) as [-> ->].
  rewrite length_app. unfold zlen at 1. rewrite Nat2Z.id, (proj2 (Nat.leb_le _ _)) by lia.
  cbn [ensure mbind result_bind]. unfold from_utf8.
  rewrite utf8_join by (eapply Forall_impl; [done|]; by intros ? (?&?&?&?&?&?)%valid_name_spec).
  cbn [ensure mbind result_bind]. rewrite validate_metadata_path_join by done.
  destruct node as [content|children]; cbn in Hnode |- *; [|by subst].
  rewrite b2z_z2b_small by done. cbn.
  pose proof (zlen_nonneg content). unfold MAX_FILE_SIZE, u16_max in *.
  pose proof (length_le_encode 2 (zlen content)) as Hl.
  pose proof (le_decode_encode 2 (zlen content) ltac:(lia)) as Hd.
  destruct (le_encode 2 (zlen content)) as [|b0 [|b1 [|]]]; try done. cbn [app]. rewrite Hd.
  destruct (take_drop_zlen content rest) as [-> ->].
  by rewrite length_app, (proj2 (Nat.leb_le _ _)) by (unfold zlen; lia).
Qed.

Lemma encode_record_nonempty r rest : encode_record r ++ rest ≠ [].
Proof. by destruct r. Qed.

Lemma deserialize_loop_cons budget b data root :
  deserialize_loop budget (b :: data) root =
    match budget with
    | O => Err "too many metadata records"
    | S budget =>
        '(path, node, data) ← read_record (b :: data);
        root ← insert_at_path root path node;
        deserialize_loop budget data root
    end.
Proof. by destruct budget. Qed.

(** Reading a sequence of records inserts them one after the other, until the
    record budget is spent. *)
Lemma deserialize_loop_records records budget root :
  Forall record_ok records →
  deserialize_loop budget (concat (encode_record <$> records)) root =
    if decide (length records ≤ budget)%nat then insert_all records root
    else (_ ← insert_all (take budget records) root; Err "too many metadata records").
Proof.
  revert budget root. induction records as [|r records IH]; intros budget root Hok.
  { rewrite decide_True by (simpl; lia). by destruct budget. }
  apply Forall_cons in Hok as [Hr Hok]. rewrite fmap_cons. cbn [concat].
  destruct (encode_record r ++ concat (encode_record <$> records)) as [|b data] eqn:E;
    [by apply encode_record_nonempty in E|].
  rewrite deserialize_loop_cons, <- E, read_record_encode by done.
  destruct budget as [|budget]; [by rewrite decide_False by (simpl; lia)|]. cbn [mbind result_bind].
  destruct Hr as (Hne & Hv & Hlen & _). unfold insert_at_path.
  rewrite components_join by (by apply valid_parts_components).
  destruct r as [parts node]. cbn [fst snd take length].
  rewrite (decide_ext (S (length records) ≤ S budget)%nat (length records ≤ budget)%nat) by lia.
  cbn [insert_all]. destruct (insert_parts root parts node) as [root'|]; cbn [mbind result_bind];
    [by apply IH|by case_decide].
Qed.

Lemma insert_all_app r1 r2 root : insert_all (r1 ++ r2) root = insert_all r1 root ≫= insert_all r2.
Proof.
  revert root. induction r1 as [|[parts node] r1 IH]; intros root; simpl; [done|].
  destruct (insert_parts root parts node); simpl; [apply IH|done].
Qed.

(** A record whose parent directory exists without that name lands at its end. *)
Lemma insert_parts_snoc root parts name children node :
  dir_at root parts = Some children → name ∉ children.*1 →
  insert_parts root (parts ++ [name]) node = Ok (set_at root parts (Dir (children ++ [(name, node)]))).
Proof.
  revert root. induction parts as [|part parts IH]; intros root.
  - unfold dir_at. simpl. intros Hd Hn. destruct root as [|ch]; simplify_eq.
    simpl in *. simplify_eq. apply has_entry_false in Hn. by rewrite Hn.
  - intros (u & (ch & i & child & Hch & Hf & Hu)%node_at_cons & Hd)%bind_Some Hn.
    destruct root as [|ch']; [done|]. simpl in Hch. simplify_eq. simpl.
    destruct (parts ++ [name]) eqn:E; [by destruct parts|]. rewrite <- E in *.
    rewrite Hf. simpl. rewrite IH; [done| |done]. unfold dir_at. by rewrite Hu.
Qed.

(** ** Rebuilding a tree from its records *)

Lemma tree_records_dir parts children :
  tree_records parts (Dir children) =
    match parts with [] => [] | _ => [(parts, Dir [])] end
    ++ concat ((λ c, tree_records (parts ++ [c.1]) c.2) <$> children).
Proof. simpl. do 2 f_equal. apply list_fmap_ext. by intros ? [? ?]. Qed.

Lemma wf_node_dir path children :
  wf_node path (Dir children) = true ↔
  zlen path <= 120 ∧ NoDup children.*1
  ∧ Forall (λ c, valid_name c.1 = true ∧ wf_node (join_path path c.1) c.2 = true) children.
Proof.
  simpl. rewrite !andb_true_iff, bool_decide_eq_true, Z.leb_le, forallb_forall, Forall_forall.
  setoid_rewrite <- list_elem_of_In. split.
  - intros (? & ? & Hch). split_and!; try done. intros [n c] Hc%Hch. by apply andb_true_iff.
  - intros (? & ? & Hch). split_and!; try done. intros [n c] Hc%Hch. by apply andb_true_iff.
Qed.

(** Inserting the records of [node] creates it as the last child of an existing
    directory. *)
Definition rebuilds (node : FsNode) : Prop :=
  ∀ path root parts name children,
    wf_node path node = true → dir_at root parts = Some children → name ∉ children.*1 →
    insert_all (tree_records (parts ++ [name]) node) root
    = Ok (set_at root parts (Dir (children ++ [(name, node)]))).

Lemma insert_all_children todo path root parts children :
  Forall (λ c, rebuilds c.2) todo → Forall (λ c, wf_node (join_path path c.1) c.2 = true) todo →
  NoDup (children ++ todo).*1 → dir_at root parts = Some children →
  insert_all (concat ((λ c, tree_records (parts ++ [c.1]) c.2) <$> todo)) root
  = Ok (set_at root parts (Dir (children ++ todo))).
Proof.
  revert root children. induction todo as [|[name child] todo IH]; intros root children Hre Hwf Hnd Hdir.
  { apply dir_at_Dir in Hdir. simpl. by rewrite app_nil_r, (set_at_same _ _ _ Hdir). }
  apply Forall_cons in Hre as [Hre1 Hre]. apply Forall_cons in Hwf as [Hwf1 Hwf].
  rewrite fmap_cons. cbn [concat fst snd]. rewrite insert_all_app.
  assert (name ∉ children.*1) as Hn.
  { rewrite fmap_app in Hnd. apply NoDup_app in Hnd as (_ & Hd & _).
    intros Hin. apply (Hd _ Hin). by left. }
  cbn [fst snd] in *. rewrite (Hre1 _ _ _ _ _ Hwf1 Hdir Hn). cbn [mbind result_bind].
  apply dir_at_Dir in Hdir as Hat.
  rewrite (IH _ (children ++ [(name, child)])); try done.
  - rewrite (set_at_set_at _ _ _ _ _ Hat). by rewrite <- app_assoc.
  - by rewrite <- app_assoc.
  - by eapply dir_at_set_Dir.
Qed.

Lemma all_rebuild node : rebuilds node.
Proof.
  induction node as [content|todo IH] using FsNode_ind'; intros path root parts name children Hwf Hdir Hn.
  - simpl. by rewrite (insert_parts_snoc _ _ _ children).
  - apply wf_node_dir in Hwf as (_ & Hnd & Hch). rewrite tree_records_dir.
    destruct (parts ++ [name]) eqn:E; [by destruct parts|]. rewrite <- E. cbn [app insert_all].
    rewrite (insert_parts_snoc _ _ _ children) by done. cbn [mbind result_bind].
    apply dir_at_Dir in Hdir as Hat.
    rewrite (insert_all_children todo path _ _ []); [|done| | |].
    + f_equal. by apply set_at_snoc_Dir.
    + eapply Forall_impl; [done|]. by intros ? [??].
    + done.
    + unfold dir_at. rewrite node_at_snoc. erewrite dir_at_set_Dir by done. cbn [mbind option_bind].
      by rewrite find_entry_snoc.
Qed.

Lemma insert_all_tree children :
  wf_node [] (Dir children) = true → insert_all (tree_records [] (Dir children)) empty_root = Ok (Dir children).
Proof.
  intros (_ & Hnd & Hch)%wf_node_dir. rewrite tree_records_dir. cbn [app].
  rewrite (insert_all_children children [] _ [] []); [done|..|done|done].
  - apply Forall_true. intros. apply all_rebuild.
  - eapply Forall_impl; [done|]. by intros ? [??].
Qed.

(** ** The serializer writes the records *)

Lemma flatten_tree_dir path children out :
  flatten_tree path (Dir children) out =
    out ← match path with [] => Ok out | _ => write_record out 2 path None end;
    foldl (λ acc c, acc ≫= flatten_tree (join_path path c.1) c.2) (Ok out) children.
Proof.
  cbn [flatten_tree]. destruct (match path with [] => _ | _ => _ end) as [o|e]; cbn [mbind result_bind]; [|done].
  revert o. induction children as [|[name child] rest IH]; intros o; simpl; [done|].
  destruct (flatten_tree (join_path path name) child o) as [o'|e]; simpl; [apply IH|].
  clear. by induction rest.
Qed.

Lemma write_record_ok out parts node :
  record_ok (parts, node) →
  write_record out (record_kind node) (join_components parts)
    (match node with File content => Some content | Dir _ => None end)
  = Ok (out ++ encode_record (parts, node)).
Proof.
  intros (Hne & Hv & Hlen & Hnode). cbn [fst snd] in *.
  pose proof (join_nonempty _ (valid_parts_components _ Hv) Hne) as Hnz.
  unfold write_record, encode_record. cbn [fst snd].
  rewrite (proj2 (Z.eqb_neq (zlen (join_components parts)) 0)) by done.
  rewrite (proj2 (Z.ltb_ge 120 (zlen (join_components parts)))) by done. simpl.
  destruct node as [content|]; simpl in *.
  - rewrite (proj2 (Z.ltb_ge MAX_FILE_SIZE (zlen content))) by done. simpl. f_equal.
    by rewrite <- !app_assoc.
  - by rewrite app_nil_r.
Qed.

(** Flattening [node] appends the encodings of its records. *)
Definition flattens (node : FsNode) : Prop := ∀ parts out,
  valid_parts parts → (parts = [] → is_Some (dir_of node)) → wf_node (join_components parts) node = true →
  flatten_tree (join_components parts) node out
  = Ok (out ++ concat (encode_record <$> tree_records parts node))
  ∧ Forall record_ok (tree_records parts node).

Lemma flatten_children_records parts children o :
  valid_parts parts → Forall (λ c, flattens c.2) children →
  Forall (λ c, valid_name c.1 = true ∧ wf_node (join_path (join_components parts) c.1) c.2 = true) children →
  let records := concat ((λ c, tree_records (parts ++ [c.1]) c.2) <$> children) in
  foldl (λ acc c, acc ≫= flatten_tree (join_path (join_components parts) c.1) c.2) (Ok o) children
  = Ok (o ++ concat (encode_record <$> records)) ∧ Forall record_ok records.
Proof.
  intros Hv. cbn zeta. revert o.
  induction children as [|[name child] children IHch]; intros o IH Hch; [by simpl; rewrite app_nil_r|].
  apply Forall_cons in IH as [IH1 IH]. apply Forall_cons in Hch as [[Hname Hwf] Hch].
  cbn [fst snd] in *. rewrite fmap_cons. cbn [foldl concat fst snd mbind result_bind].
  pose proof (valid_parts_components _ Hv). rewrite join_path_components in * by done.
  destruct (IH1 (parts ++ [name]) o) as [-> Hrec]; [| |done|].
  - apply Forall_app. split; [done|]. by constructor.
  - by destruct parts.
  - destruct (IHch (o ++ concat (encode_record <$> tree_records (parts ++ [name]) child)) IH Hch) as [-> Hrecs].
    rewrite fmap_app, concat_app, app_assoc. split; [done|]. by apply Forall_app.
Qed.

Lemma flatten_own_record parts out :
  valid_parts parts → zlen (join_components parts) <= 120 →
  let own := match parts with [] => [] | _ => [(parts, Dir [])] end in
  match join_components parts with [] => Ok out | _ => write_record out 2 (join_components parts) None end
  = Ok (out ++ concat (encode_record <$> own)) ∧ Forall record_ok own.
Proof.
  intros Hv Hlen own. destruct parts as [|p parts]; subst own; [by rewrite app_nil_r|].
  assert (record_ok (p :: parts, Dir [])) as Hok by done.
  split; [|by constructor]. pose proof (write_record_ok out _ _ Hok) as Hw.
  destruct (join_components (p :: parts)) eqn:E; [|cbn [fmap list_fmap concat]; rewrite app_nil_r; exact Hw].
  apply join_components_nil_iff in E; [done|]. by apply valid_parts_components.
Qed.

Lemma all_flatten node : flattens node.
Proof.
  induction node as [content|children IH] using FsNode_ind'; intros parts out Hv Hroot Hwf.
  - simpl in Hwf. bool_hyps. assert (record_ok (parts, File content)).
    { split; [|done]. intros Hp. destruct (Hroot Hp) as [? [=]]. }
    simpl. rewrite app_nil_r. split; [|by constructor]. by apply (write_record_ok out parts (File content)).
  - apply wf_node_dir in Hwf as (Hlen & _ & Hch).
    rewrite flatten_tree_dir, tree_records_dir, fmap_app, concat_app, app_assoc.
    destruct (flatten_own_record parts out Hv Hlen) as [-> Hown]. cbn [mbind result_bind].
    destruct (flatten_children_records parts children
      (out ++ concat (encode_record <$> match parts with [] => [] | _ => [(parts, Dir [])] end)) Hv IH Hch)
      as [-> Hrecs].
    split; [done|]. by apply Forall_app.
Qed.

Lemma length_tree_records node : ∀ parts, parts ≠ [] → length (tree_records parts node) = node_count node.
Proof.
  induction node as [content|children IH] using FsNode_ind'; intros parts Hne; [done|].
  rewrite tree_records_dir, length_app. cbn [node_count].
  replace (length match parts with [] => [] | _ => [(parts, Dir [])] end) with 1%nat by (by destruct parts).
  simpl. f_equal. clear Hne. induction IH as [|[name child] children Hc _ IHch]; [done|].
  rewrite fmap_cons. cbn [concat fst snd] in *. rewrite length_app, Hc, IHch by (by destruct parts). done.
Qed.

Lemma length_root_records children : length (tree_records [] (Dir children)) = record_count (Dir children).
Proof.
  unfold record_count. rewrite tree_records_dir. simpl.
  induction children as [|[name child] children IH]; [done|].
  rewrite fmap_cons. cbn [concat fst snd]. by rewrite length_app, length_tree_records, IH.
Qed.

(** What serializing a well-formed tree and parsing the result back comes to: the
    tree, or an error when it has more records than the parser accepts. *)
Lemma serialize_deserialize root :
  wf_tree root = true →
  ∃ data, serialize_tree root = Ok (TREE_MAGIC ++ data) ∧
    deserialize_tree data =
      if decide (record_count root ≤ MAX_NODE_COUNT)%nat then Ok root
      else Err "too many metadata records".
Proof.
  destruct root as [|children]; [done|]. intros Hwf.
  destruct (all_flatten (Dir children) [] TREE_MAGIC) as [Hser Hok];
    [by constructor|by eexists|done|].
  eexists. split; [exact Hser|]. unfold deserialize_tree.
  rewrite deserialize_loop_records, length_root_records, insert_all_tree by done.
  case_decide; [done|].
  pose proof (insert_all_tree children Hwf) as Hall.
  rewrite <- (take_drop MAX_NODE_COUNT (tree_records [] (Dir children))), insert_all_app in Hall.
  by destruct (insert_all (take MAX_NODE_COUNT _) empty_root).
Qed.

(** ** What the parser accepts is well formed *)

Lemma wf_node_path path node : wf_node path node = true → zlen path <= 120.
Proof. destruct node; simpl; intros; bool_hyps; lia. Qed.

Lemma read_record_ok data path node rest :
  read_record data = Ok (path, node, rest) →
  record_ok (components path, node) ∧ join_components (components path) = path.
Proof.
  destruct data as [|kind [|path_len data]]; try done. cbn [read_record].
  rewrite ensure_bind_Ok. intros [_ H]. apply bind_Ok in H as (p & Hp & H).
  apply bind_Ok in H as ([] & Hvalid & H). unfold from_utf8 in Hp.
  destruct (utf8_valid _) eqn:Hu; [|done]. simplify_res.
  apply validate_metadata_path_inv in Hvalid as (Hv & Hne & Hj & Hlen); [|done].
  set (p := take _ data) in *. clearbody p.
  assert (path = p ∧ match node with File content => zlen content <= MAX_FILE_SIZE | Dir ch => ch = [] end) as [-> Hn].
  { destruct (_ =? 1).
    - destruct (drop _ data) as [|len0 [|len1 rest']]; try done.
      pose proof (le_decode_range [len0; len1]) as Hr. change (8 * zlen [len0; len1]) with 16 in Hr.
      revert H Hr. generalize (le_decode [len0; len1]). intros n H Hr.
      rewrite ensure_bind_Ok in H. destruct H as [Hle H]. simplify_res. split; [done|].
      unfold zlen, MAX_FILE_SIZE, u16_max. rewrite length_take. lia.
    - destruct (_ =? 2); [|done]. by simplify_res. }
  split; [|done]. unfold record_ok. cbn [fst snd]. by rewrite Hj.
Qed.

Lemma record_ok_wf parts node : record_ok (parts, node) → wf_node (join_components parts) node = true.
Proof.
  intros (_ & _ & Hlen & Hn). destruct node as [content|children]; cbn [fst snd] in *.
  - cbn. by rewrite !(proj2 (Z.leb_le _ _)).
  - subst. apply wf_node_dir. split_and!; [done|constructor|constructor].
Qed.

Lemma insert_parts_wf parts node : ∀ base root root',
  valid_parts base → valid_parts parts → parts ≠ [] →
  wf_node (join_components base) root = true →
  wf_node (join_components (base ++ parts)) node = true →
  insert_parts root parts node = Ok root' →
  wf_node (join_components base) root' = true
  ∧ node_count root' = (node_count root + node_count node)%nat ∧ is_Some (dir_of root').
Proof.
  induction parts as [|part rest IH]; [done|]. intros base root root' Hbase [Hp Hrest]%Forall_cons _ Hwf Hnode Hins.
  pose proof (valid_parts_components _ Hbase) as Hcb.
  destruct root as [|children]; [done|]. pose proof Hwf as (Hlen & Hnd & Hch)%wf_node_dir.
  cbn [insert_parts] in Hins. destruct rest as [|q rest].
  - destruct (has_entry part children) eqn:Hhas; [done|]. apply has_entry_false in Hhas. simplify_res.
    split_and!; [|cbn [node_count]; rewrite sum_list_with_app; cbn [sum_list_with]; lia|done]. apply wf_node_dir. split_and!; [done| |].
    + rewrite fmap_app. apply NoDup_app. split_and!; [done| |by apply NoDup_singleton].
      intros n Hn ->%list_elem_of_singleton. done.
    + apply Forall_app. split; [done|]. constructor; [|done]. cbn [fst snd].
      by rewrite join_path_components.
  - apply bind_Ok in Hins as ([pos child] & Hf%ok_or_Ok & Hins).
    apply bind_Ok in Hins as (child' & Hins & ?). simplify_res.
    pose proof (find_entry_elem _ _ _ _ Hf) as Hin.
    rewrite Forall_forall in Hch. destruct (Hch _ Hin) as [_ Hcwf]. cbn [fst snd] in Hcwf.
    rewrite join_path_components in Hcwf by done.
    destruct (IH (base ++ [part]) child child') as (Hwf' & Hcount & _); try done.
    { apply Forall_app. split; [done|]. by constructor. }
    { by rewrite <- app_assoc. }
    split_and!; [| |done].
    + apply wf_node_dir. split_and!; [done|by rewrite (set_entry_names _ _ _ _ _ Hf)|].
      apply Forall_insert; [by apply Forall_forall|]. cbn [fst snd].
      by rewrite join_path_components.
    + pose proof (sum_list_with_set_entry (λ '(_, c), node_count c) _ _ _ child' _ Hf). simpl in *. lia.
Qed.

Lemma deserialize_loop_wf budget data root root' :
  wf_node [] root = true → is_Some (dir_of root) →
  deserialize_loop budget data root = Ok root' →
  wf_tree root' = true ∧ (node_count root' ≤ budget + node_count root)%nat.
Proof.
  revert data root. induction budget as [|budget IH]; intros data root Hwf Hd.
  - destruct data; [|done]. intros [= <-]. split; [|lia]. destruct root; [by destruct Hd|done].
  - destruct data as [|b data]; [intros [= <-]; split; [|lia]; destruct root; [by destruct Hd|done]|].
    rewrite deserialize_loop_cons. intros H. apply bind_Ok in H as ([[path node] rest] & Hread & H).
    apply bind_Ok in H as (root1 & Hins & H).
    apply read_record_ok in Hread as [Hok Hj]. pose proof (record_ok_wf _ _ Hok) as Hnode.
    destruct Hok as (Hne & Hv & _ & Hn). cbn [fst snd] in *.
    destruct (insert_parts_wf (components path) node [] root root1) as (Hwf1 & Hc1 & Hd1); try done.
    { by constructor. }
    apply IH in H as [? Hc]; [|done|done]. split; [done|].
    assert (node_count node = 1%nat) by (destruct node; subst; done). lia.
Qed.

(** ** Properties *)

(** C20: a well-formed tree of at most 1,024 records survives the trip to bytes and
    back: serialization succeeds, the blob starts with the "TREE" magic, and the
    parser rebuilds exactly the same tree, order of children included. *)
Theorem serialize_deserialize_roundtrip root :
  wf_tree root = true → (record_count root ≤ MAX_NODE_COUNT)%nat →
  ∃ data, serialize_tree root = Ok (TREE_MAGIC ++ data) ∧ deserialize_tree data = Ok root.
Proof.
  intros Hwf Hc. destruct (serialize_deserialize root Hwf) as (data & Hs & Hd).
  exists data. by rewrite decide_True in Hd.
Qed.

Definition example_tree : FsNode :=
  Dir [(bs "home", Dir [(bs "a.txt", File (bs "hello")); (bs "empty", Dir [])]); (bs "b", File [])].

Lemma serialize_deserialize_roundtrip_witness :
  ∃ data, serialize_tree example_tree = Ok (TREE_MAGIC ++ data) ∧ deserialize_tree data = Ok example_tree.
Proof.
  apply (serialize_deserialize_roundtrip example_tree); [by vm_compute|].
  vm_compute. apply Nat.leb_le. by vm_compute.
Defined.

(** C33: whatever bytes the parser accepts, the tree it returns is well formed:
    names are valid and distinct in each directory, paths have at most 120 bytes,
    contents at most 65,535, and there are at most 1,024 nodes below the root. So
    nothing [deserialize_tree] lets in is refused when it is saved again. *)
Theorem deserialize_accepts_wf data root :
  deserialize_tree data = Ok root →
  wf_tree root = true ∧ (record_count root ≤ MAX_NODE_COUNT)%nat.
Proof.
  intros [Hwf Hc]%deserialize_loop_wf; [|done|by eexists]. split; [done|].
  unfold record_count. change (node_count empty_root) with 1%nat in Hc. lia.
Qed.

Lemma deserialize_accepts_wf_witness :
  wf_tree (Dir [(bs "d", Dir [(bs "f", File [Byte.x41])])]) = true
  ∧ (record_count (Dir [(bs "d", Dir [(bs "f", File [Byte.x41])])]) ≤ MAX_NODE_COUNT)%nat.
Proof.
  apply (deserialize_accepts_wf
    [Byte.x02; Byte.x01; Byte.x64; Byte.x01; Byte.x03; Byte.x64; Byte.x2f; Byte.x66; Byte.x01; Byte.x00; Byte.x41]).
  by vm_compute.
Defined.

(** The writer does not enforce the parser's record limit.  A well-formed tree
    of more than 1,024 records serializes without error to a blob its own parser
    rejects. *)
Theorem oversized_tree_is_written_but_rejected root :
  wf_tree root = true → (MAX_NODE_COUNT < record_count root)%nat →
  ∃ data, serialize_tree root = Ok (TREE_MAGIC ++ data)
          ∧ deserialize_tree data = Err "too many metadata records".
Proof.
  intros Hwf Hc. destruct (serialize_deserialize root Hwf) as (data & Hs & Hd).
  exists data. split; [done|]. rewrite decide_False in Hd by lia. done.
Qed.

(** 1,025 empty directories, named by a letter and two digits. *)
Definition crowded_tree : FsNode :=
  Dir ((λ i : Z, ([z2b (97 + i / 100); z2b (48 + i / 10 mod 10); z2b (48 + i mod 10)], Dir []))
       <$> seqZ 0 1025).

Lemma oversized_tree_is_written_but_rejected_witness :
  ∃ data, serialize_tree crowded_tree = Ok (TREE_MAGIC ++ data)
          ∧ deserialize_tree data = Err "too many metadata records".
Proof.
  apply (oversized_tree_is_written_but_rejected crowded_tree); [by vm_compute|].
  apply Nat.ltb_lt. by vm_compute.
Defined.
