(* ===== verification/Crc32.v ===== *)
(** The checksum of kernel/src/tuwaiqfs.rs ([crc32], the reflected CRC-32), with
    the algebra that makes it detect corruption: one shift step is linear over
    exclusive or and injective on 32-bit words. *)

From S2P Require Import Prelude.

Definition POLYNOMIAL : Z := 0xEDB88320.

(** [let mask = 0u32.wrapping_sub(crc & 1); crc = (crc >> 1) ^ (0xEDB8_8320 & mask)] *)
Definition crc_shift (crc : Z) : Z :=
  let mask := (0 - Z.land crc 1) mod 2 ^ 32 in
  Z.lxor (Z.shiftr crc 1) (Z.land POLYNOMIAL mask).

Definition crc_byte (crc : Z) (byte : byte) : Z :=
  Nat.iter 8 crc_shift (Z.lxor crc (b2z byte)).

Definition crc_feed (crc : Z) (bytes : list byte) : Z := foldl crc_byte crc bytes.

(** [!crc] on [u32] *)
Definition crc32 (bytes : list byte) : Z := u32_max - crc_feed u32_max bytes.

(** ** One shift step *)

Lemma land_1_odd a : Z.land a 1 = Z.b2z (Z.odd a).
Proof.
  change (Z.land a 1) with (Z.land a (Z.ones 1)). rewrite Z.land_ones by lia.
  change (2 ^ 1) with 2. rewrite Zmod_odd. by destruct (Z.odd a).
Qed.

Lemma crc_shift_odd a : crc_shift a = Z.lxor (Z.shiftr a 1) (if Z.odd a then POLYNOMIAL else 0).
Proof. unfold crc_shift. rewrite land_1_odd. by destruct (Z.odd a). Qed.

Lemma crc_shift_lxor a b : crc_shift (Z.lxor a b) = Z.lxor (crc_shift a) (crc_shift b).
Proof.
  rewrite !crc_shift_odd, Z.shiftr_lxor.
  assert (Z.odd (Z.lxor a b) = xorb (Z.odd a) (Z.odd b)) as -> by (rewrite <- !Z.bit0_odd; apply Z.lxor_spec).
  apply Z.bits_inj'. intros n _. rewrite !Z.lxor_spec.
  destruct (Z.odd a), (Z.odd b); simpl xorb; rewrite ?Z.bits_0;
    destruct (Z.testbit (Z.shiftr a 1) n), (Z.testbit (Z.shiftr b 1) n), (Z.testbit POLYNOMIAL n); done.
Qed.

Lemma crc_shift_double a : crc_shift (2 * a) = a.
Proof.
  rewrite crc_shift_odd. replace (Z.odd (2 * a)) with false by by rewrite Z.odd_mul.
  rewrite Z.lxor_0_r, Z.shiftr_div_pow2 by lia. rewrite Z.mul_comm. by apply Z.div_mul.
Qed.

Lemma lxor_bound n a b : 0 <= n → 0 <= a < 2 ^ n → 0 <= b < 2 ^ n → 0 <= Z.lxor a b < 2 ^ n.
Proof.
  intros Hn Ha Hb. split; [apply Z.lxor_nonneg; lia|].
  destruct (decide (Z.lxor a b = 0)) as [->|Hne]; [lia|].
  assert (0 <= Z.lxor a b) by (apply Z.lxor_nonneg; lia).
  apply Z.log2_lt_pow2; [lia|]. pose proof (Z.log2_lxor a b ltac:(lia) ltac:(lia)) as Hl.
  destruct (decide (a = 0)) as [->|Ha0].
  - rewrite Z.lxor_0_l in *. apply Z.log2_lt_pow2; lia.
  - destruct (decide (b = 0)) as [->|Hb0].
    + rewrite Z.lxor_0_r in *. apply Z.log2_lt_pow2; lia.
    + pose proof (proj1 (Z.log2_lt_pow2 a n ltac:(lia)) ltac:(lia)).
      pose proof (proj1 (Z.log2_lt_pow2 b n ltac:(lia)) ltac:(lia)). lia.
Qed.

Lemma crc_shift_bound a : 0 <= a < 2 ^ 32 → 0 <= crc_shift a < 2 ^ 32.
Proof.
  intros Ha. rewrite crc_shift_odd. apply lxor_bound; [lia| |].
  - rewrite Z.shiftr_div_pow2 by lia. change (2 ^ 1) with 2.
    pose proof (Z.div_mod a 2 ltac:(lia)). pose proof (Z.mod_pos_bound a 2 ltac:(lia)). lia.
  - unfold POLYNOMIAL. destruct (Z.odd a); lia.
Qed.

(** The kernel of a step is trivial: bit 31 of the polynomial records the bit
    shifted out. *)
Lemma crc_shift_0 a : 0 <= a < 2 ^ 32 → crc_shift a = 0 → a = 0.
Proof.
  intros Ha. rewrite crc_shift_odd. intros H%Z.lxor_eq.
  rewrite Z.shiftr_div_pow2 in H by lia. change (2 ^ 1) with 2 in H.
  pose proof (Z.div_mod a 2 ltac:(lia)) as Hdm. pose proof (Z.mod_pos_bound a 2 ltac:(lia)).
  rewrite Zmod_odd in *. unfold POLYNOMIAL in H. destruct (Z.odd a); lia.
Qed.

(** ** Several steps *)

Lemma crc_iter_lxor n a b : Nat.iter n crc_shift (Z.lxor a b) = Z.lxor (Nat.iter n crc_shift a) (Nat.iter n crc_shift b).
Proof. induction n as [|n IH]; simpl; [done|]. by rewrite IH, crc_shift_lxor. Qed.

Lemma crc_iter_bound n a : 0 <= a < 2 ^ 32 → 0 <= Nat.iter n crc_shift a < 2 ^ 32.
Proof. intros. induction n as [|n IH]; simpl; [done|]. by apply crc_shift_bound. Qed.

Lemma crc_iter_inj n a b :
  0 <= a < 2 ^ 32 → 0 <= b < 2 ^ 32 → Nat.iter n crc_shift a = Nat.iter n crc_shift b → a = b.
Proof.
  intros Ha Hb H. apply Z.lxor_eq.
  assert (Nat.iter n crc_shift (Z.lxor a b) = 0) as H0 by (by rewrite crc_iter_lxor, H, Z.lxor_nilpotent).
  assert (0 <= Z.lxor a b < 2 ^ 32) as Hab by (by apply lxor_bound).
  clear H. induction n as [|n IH]; simpl in H0; [done|].
  apply IH. apply crc_shift_0; [|done]. by apply crc_iter_bound.
Qed.

Lemma crc_iter_shiftl n a : Nat.iter n crc_shift (Z.shiftl a (Z.of_nat n)) = a.
Proof.
  revert a. induction n as [|n IH]; intros a; [apply Z.shiftl_0_r|].
  rewrite Nat.iter_succ_r. rewrite Z.shiftl_mul_pow2, Nat2Z.inj_succ, Z.pow_succ_r by lia.
  replace (a * (2 * 2 ^ Z.of_nat n)) with (2 * (a * 2 ^ Z.of_nat n)) by lia.
  rewrite crc_shift_double, <- Z.shiftl_mul_pow2 by lia. apply IH.
Qed.

(** ** Whole byte strings *)

Lemma lor_disjoint_lxor a b : 0 <= a < 2 ^ 8 → Z.lor a (Z.shiftl b 8) = Z.lxor a (Z.shiftl b 8).
Proof.
  intros Ha. symmetry. apply Z.lxor_lor. apply Z.bits_inj'. intros n Hn.
  rewrite Z.land_spec, Z.bits_0. destruct (decide (n < 8)).
  - by rewrite (Z.shiftl_spec_low b 8 n), andb_false_r.
  - replace (Z.testbit a n) with false; [done|]. symmetry.
    destruct (decide (a = 0)) as [->|]; [apply Z.bits_0|].
    apply Z.bits_above_log2; [lia|]. pose proof (proj1 (Z.log2_lt_pow2 a 8 ltac:(lia)) ltac:(lia)). lia.
Qed.

Lemma le_decode_cons b l : le_decode (b :: l) = Z.lor (b2z b) (Z.shiftl (le_decode l) 8).
Proof. done. Qed.

(** Feeding bytes is shifting the register xored with their little-endian value. *)
Lemma crc_feed_decode s l :
  crc_feed s l = Nat.iter (8 * length l) crc_shift (Z.lxor s (le_decode l)).
Proof.
  revert s. induction l as [|b l IH]; intros s; [by simpl; rewrite Z.lxor_0_r|].
  unfold crc_feed in *. cbn [foldl]. rewrite IH, le_decode_cons, lor_disjoint_lxor by apply b2z_range.
  rewrite <- Z.lxor_assoc, crc_iter_lxor. unfold crc_byte.
  replace (8 * length (b :: l))%nat with (8 * length l + 8)%nat by (simpl; lia).
  rewrite Nat.iter_add, !crc_iter_lxor. do 2 f_equal. symmetry. apply (crc_iter_shiftl 8).
Qed.

Lemma crc_feed_app s l k : crc_feed s (l ++ k) = crc_feed (crc_feed s l) k.
Proof. apply foldl_app. Qed.

Lemma crc_feed_bound s l : 0 <= s < 2 ^ 32 → 0 <= crc_feed s l < 2 ^ 32.
Proof.
  unfold crc_feed. revert s. induction l as [|b l IH]; intros s Hs; [done|]. cbn [foldl]. apply IH.
  apply crc_iter_bound. apply lxor_bound; [lia|done|]. pose proof (b2z_range b). lia.
Qed.

Lemma crc_feed_inj s s' l :
  0 <= s < 2 ^ 32 → 0 <= s' < 2 ^ 32 → crc_feed s l = crc_feed s' l → s = s'.
Proof.
  intros Hs Hs'. rewrite !crc_feed_decode, !crc_iter_lxor. intros H.
  apply (crc_iter_inj (8 * length l)); [done|done|].
  apply (f_equal (λ z, Z.lxor z (Nat.iter (8 * length l) crc_shift (le_decode l)))) in H.
  by rewrite !Z.lxor_assoc, !Z.lxor_nilpotent, !Z.lxor_0_r in H.
Qed.

Lemma crc32_bound l : 0 <= crc32 l < 2 ^ 32.
Proof. pose proof (crc_feed_bound u32_max l ltac:(done)). unfold crc32, u32_max in *. lia. Qed.

(** ** Properties *)

(** The checksum detects every corruption confined to four consecutive bytes:
    two blobs that differ only inside a window of at most four bytes never share
    a CRC, whatever surrounds the window. *)
Theorem crc32_detects_burst pre burst burst' post :
  length burst = length burst' → (length burst ≤ 4)%nat → burst ≠ burst' →
  crc32 (pre ++ burst ++ post) ≠ crc32 (pre ++ burst' ++ post).
Proof.
  intros Hlen H4 Hne Heq. apply Hne. unfold crc32 in Heq. rewrite !crc_feed_app in Heq.
  set (s := crc_feed u32_max pre) in *.
  assert (0 <= s < 2 ^ 32) as Hs by (by apply crc_feed_bound).
  assert (crc_feed s burst = crc_feed s burst') as H.
  { apply (crc_feed_inj _ _ post); [by apply crc_feed_bound|by apply crc_feed_bound|lia]. }
  rewrite !crc_feed_decode, <- Hlen in H.
  assert (∀ l, length l = length burst → 0 <= le_decode l < 2 ^ 32) as Hd.
  { intros l Hl. pose proof (le_decode_range l). unfold zlen in *.
    assert (2 ^ (8 * Z.of_nat (length l)) <= 2 ^ 32) by (apply Z.pow_le_mono_r; lia). lia. }
  apply crc_iter_inj in H; [|apply lxor_bound; auto; lia..].
  apply (f_equal (Z.lxor s)) in H. rewrite <- !Z.lxor_assoc, !Z.lxor_nilpotent, !Z.lxor_0_l in H.
  rewrite <- (le_encode_decode burst), <- (le_encode_decode burst'), Hlen. by rewrite H.
Qed.

Lemma crc32_detects_burst_witness :
  crc32 (bs "TREE" ++ bs "data" ++ bs "tail") ≠ crc32 (bs "TREE" ++ bs "dbta" ++ bs "tail").
Proof. apply (crc32_detects_burst (bs "TREE") (bs "data") (bs "dbta") (bs "tail")); [done|simpl; lia|done]. Defined.

Lemma crc32_check_value : crc32 (bs "123456789") = 0xCBF43926.
Proof. by vm_compute. Qed.
