(* ===== verification/TuwaiqFs.v ===== *)
(** The persistent store of kernel/src/tuwaiqfs.rs: two checkpoint slots on the
    block device, written alternately with the commit marker last, and the mount
    that picks the newest valid one.  The kernel's atomics [ACTIVE_SLOT],
    [GENERATION] and [FORMAT_VERSION] are fields of the state [tqfs] next to the
    device.  Every device operation may fail, and the fault-tolerance theorems
    quantify over any device that keeps [BlockDeviceSpec]. *)

From S2P Require Import Prelude Str Device Tree TuwaiqTree Crc32.

Definition SUPERBLOCK_LBA : Z := 8192.
Definition LEGACY_METADATA_LBA : Z := 8465.
Definition LEGACY_METADATA_SECTORS : Z := 248.
Definition SLOT_A_LBA : Z := 23490.
Definition SLOT_SECTORS : Z := 512.
Definition SLOT_B_LBA : Z := SLOT_A_LBA + SLOT_SECTORS.
Definition MAX_METADATA_BYTES : Z := (SLOT_SECTORS - 1) * 512.
Definition VERSION : Z := 3.
Definition LEGACY_VERSION : Z := 2.
Definition MAGIC : list byte := bs "TQFSv2" ++ [Byte.x00; Byte.x00].
Definition SLOT_MAGIC : list byte := bs "TQCKPT" ++ [Byte.x00; Byte.x00].
Definition SLOT_COMMITTED : Z := 0x434F4D54.
Definition SB_METADATA_LEN_OFFSET : nat := 20.

(** The device with the atomics of the module. *)
Record tqfs (D : Type) := Tqfs {
  dev : D;
  active_slot : Z;
  generation : Z;
  format_version : Z;
}.
Arguments Tqfs {D} dev active_slot generation format_version.
Arguments dev {D} t.
Arguments active_slot {D} t.
Arguments generation {D} t.
Arguments format_version {D} t.

Definition le_u32 (bytes : list byte) : Z := le_decode bytes.
Definition le_u64 (bytes : list byte) : Z := le_decode bytes.

Definition build_superblock : list byte :=
  copy_at 16 (le_encode 4 SLOT_SECTORS)
    (copy_at 12 (le_encode 4 SLOT_A_LBA)
      (copy_at 8 (le_encode 4 VERSION)
        (copy_at 0 MAGIC zero_sector))).

Definition slot_lba (slot : Z) : result Z :=
  if slot =? 0 then Ok SLOT_A_LBA
  else if slot =? 1 then Ok SLOT_B_LBA
  else Err "invalid checkpoint slot".

Definition checkpoint_header (generation : Z) (blob : list byte) (committed : bool) : result (list byte) :=
  _ ← ensure (zlen blob <=? u32_max) "checkpoint length overflow";
  let header := copy_at 0 SLOT_MAGIC zero_sector in
  let header := copy_at 8 (le_encode 8 generation) header in
  let header := copy_at 16 (le_encode 4 (zlen blob)) header in
  let header := copy_at 20 (le_encode 4 (crc32 blob)) header in
  Ok (if committed then copy_at 24 (le_encode 4 SLOT_COMMITTED) header else header).

Definition read_metadata_len (superblock : list byte) : Z :=
  le_decode (slice superblock SB_METADATA_LEN_OFFSET (SB_METADATA_LEN_OFFSET + 4)).

(** [blob.len().div_ceil(512)] *)
Definition sectors_of (len : nat) : nat := ((len + 511) / 512)%nat.

(** The [index]-th payload sector: the next 512 bytes of the blob, zero padded. *)
Definition payload_sector (blob : list byte) (index : nat) : list byte :=
  let offset := (index * 512)%nat in
  let count := ((length blob - offset) `min` 512)%nat in
  copy_at 0 (slice blob offset (offset + count)) zero_sector.

Section tuwaiqfs.
Context {D : Type} `{BlockDevice D}.

Definition set_dev (d : D) (s : tqfs D) : tqfs D :=
  Tqfs d (active_slot s) (generation s) (format_version s).

(** Run a device operation, [ata::read_sector] or [ata::write_sector]. *)
Definition on_dev {A} (m : M D A) : M (tqfs D) A := λ s,
  let '(r, d) := m (dev s) in (r, set_dev d s).

Definition read (lba : Z) : M (tqfs D) (list byte) := on_dev (read_sector lba).
Definition write (lba : Z) (sector : list byte) : M (tqfs D) unit := on_dev (write_sector lba sector).

Definition store_active_slot (slot : Z) : M (tqfs D) unit :=
  mmodify (λ s, Tqfs (dev s) slot (generation s) (format_version s)).
Definition store_generation (generation : Z) : M (tqfs D) unit :=
  mmodify (λ s, Tqfs (dev s) (active_slot s) generation (format_version s)).
Definition store_format_version (version : Z) : M (tqfs D) unit :=
  mmodify (λ s, Tqfs (dev s) (active_slot s) (generation s) version).

(** The payload loop of [write_checkpoint] over the sector indices left. *)
Fixpoint write_payload (lba : Z) (blob : list byte) (interrupt_after : option nat) (indices : list nat)
    : M (tqfs D) unit :=
  match indices with
  | [] => mret tt
  | index :: rest =>
      _ ← write (lba + 1 + Z.of_nat index) (payload_sector blob index);
      if decide (interrupt_after = Some (S index)) then mthrow "injected interrupted checkpoint"
      else write_payload lba blob interrupt_after rest
  end.

Definition write_checkpoint (slot generation : Z) (blob : list byte) (interrupt_after : option nat)
    : M (tqfs D) unit :=
  lba ← mlift (slot_lba slot);
  header ← mlift (checkpoint_header generation blob false);
  _ ← write lba header;
  _ ← write_payload lba blob interrupt_after (seq 0 (sectors_of (length blob)));
  header ← mlift (checkpoint_header generation blob true);
  write lba header.

(** The common part of [sync_tree] and [sync_tree_interrupted]: the blob, the
    next generation and the slot to write. *)
Definition prepare_checkpoint (root : FsNode) : M (tqfs D) (list byte * Z * Z) :=
  blob ← mlift (serialize_tree root);
  _ ← mensure (negb (MAX_METADATA_BYTES <? zlen blob)) "filesystem metadata too large";
  s ← mget;
  generation ← mlift (ok_or (checked_add u64_max (generation s) 1) "checkpoint generation exhausted");
  mret (blob, generation, 1 - Z.min (active_slot s) 1).

Definition sync_tree (root : FsNode) : M (tqfs D) unit :=
  '(blob, generation, target) ← prepare_checkpoint root;
  _ ← write_checkpoint target generation blob None;
  s ← mget;
  _ ← (if negb (format_version s =? VERSION) then
         _ ← write SUPERBLOCK_LBA build_superblock;
         store_format_version VERSION
       else mret tt);
  _ ← store_active_slot target;
  store_generation generation.

Definition sync_tree_interrupted (root : FsNode) (data_sectors : nat) : M (tqfs D) unit :=
  '(blob, generation, target) ← prepare_checkpoint root;
  r ← mtry (write_checkpoint target generation blob (Some data_sectors));
  match r with
  | Err reason => mthrow reason
  | Ok _ => mthrow "interruption point exceeded checkpoint length"
  end.

(** The loop of [read_metadata_at]; [fuel] sectors cover [len] bytes. *)
Fixpoint read_sectors (fuel : nat) (sector : Z) (len : nat) (blob : list byte) : M (tqfs D) (list byte) :=
  match fuel with
  | O => mret blob
  | S fuel =>
      if (length blob <? len)%nat then
        sector_buf ← read sector;
        let remaining := (len - length blob)%nat in
        read_sectors fuel (sector + 1) len (blob ++ take (remaining `min` 512) sector_buf)
      else mret blob
  end.

Definition read_metadata_at (lba : Z) (len : Z) : M (tqfs D) (list byte) :=
  _ ← mensure (negb (MAX_METADATA_BYTES <? len)) "metadata length exceeds reserved region";
  read_sectors (sectors_of (Z.to_nat len)) lba (Z.to_nat len) [].

Definition load_checkpoint (slot : Z) : M (tqfs D) (option (Z * FsNode)) :=
  lba ← mlift (slot_lba slot);
  header ← read lba;
  if negb (bool_decide (take 8 header = SLOT_MAGIC)) || negb (le_u32 (slice header 24 28) =? SLOT_COMMITTED)
  then mret None
  else
    let generation := le_u64 (slice header 8 16) in
    let length := le_u32 (slice header 16 20) in
    let expected_crc := le_u32 (slice header 20 24) in
    if (generation =? 0) || (length =? 0) || (MAX_METADATA_BYTES <? length) then mret None
    else
      blob ← read_metadata_at (lba + 1) length;
      if negb (crc32 blob =? expected_crc) || (zlen blob <? 4) || negb (bool_decide (take 4 blob = TREE_MAGIC))
      then mret None
      else match deserialize_tree (drop 4 blob) with
           | Ok tree => mret (Some (generation, tree))
           | Err _ => mret None
           end.

Definition load_latest_checkpoint : M (tqfs D) FsNode :=
  first ← mtry (load_checkpoint 0);
  second ← mtry (load_checkpoint 1);
  '(slot, (generation, tree)) ←
    match first, second with
    | Ok (Some a), Ok (Some b) => mret (if b.1 <=? a.1 then (0, a) else (1, b))
    | Ok (Some a), _ => mret (0, a)
    | _, Ok (Some b) => mret (1, b)
    | _, _ => mthrow "no valid committed TuwaiqFS checkpoint"
    end;
  _ ← store_active_slot slot;
  _ ← store_generation generation;
  mret tree.

Definition load_tree_at (metadata_lba metadata_len : Z) : M (tqfs D) FsNode :=
  if metadata_len =? 0 then mret empty_root
  else
    blob ← read_metadata_at metadata_lba metadata_len;
    if (zlen blob <? 4) || negb (bool_decide (take 4 blob = TREE_MAGIC))
    then mthrow "corrupt TuwaiqFS metadata: bad TREE magic"
    else mlift (deserialize_tree (drop 4 blob)).

Definition format_region : M (tqfs D) unit :=
  _ ← write SUPERBLOCK_LBA build_superblock;
  _ ← store_format_version VERSION;
  _ ← store_active_slot 1;
  _ ← store_generation 0;
  sync_tree empty_root.

Definition is_zero_sector (s : list byte) : bool := forallb (λ b, bool_decide (b = Byte.x00)) s.

Definition mount : M (tqfs D) FsNode :=
  superblock ← read SUPERBLOCK_LBA;
  if negb (bool_decide (take 8 superblock = MAGIC)) then
    slot_a ← read SLOT_A_LBA;
    slot_b ← read SLOT_B_LBA;
    if negb (is_zero_sector superblock) || negb (is_zero_sector slot_a) || negb (is_zero_sector slot_b)
    then mthrow "corrupt TuwaiqFS superblock or checkpoint headers"
    else _ ← format_region; mret empty_root
  else
    let version := le_u32 (slice superblock 8 12) in
    let metadata_lba := le_u32 (slice superblock 12 16) in
    let metadata_sectors := le_u32 (slice superblock 16 20) in
    if version =? VERSION then
      if negb (metadata_lba =? SLOT_A_LBA) || negb (metadata_sectors =? SLOT_SECTORS)
      then mthrow "invalid TuwaiqFS v3 checkpoint geometry"
      else _ ← store_format_version VERSION; load_latest_checkpoint
    else if negb (version =? LEGACY_VERSION) || negb (metadata_lba =? LEGACY_METADATA_LBA)
            || negb (metadata_sectors =? LEGACY_METADATA_SECTORS)
    then mthrow "invalid TuwaiqFS superblock geometry or version"
    else
      let metadata_len := read_metadata_len superblock in
      if LEGACY_METADATA_SECTORS * 512 <? metadata_len
      then mthrow "TuwaiqFS metadata length exceeds reserved region"
      else
        _ ← store_format_version LEGACY_VERSION;
        _ ← store_active_slot 0;
        _ ← store_generation 0;
        load_tree_at LEGACY_METADATA_LBA metadata_len.
End tuwaiqfs.

(** ** What the medium holds, as a function of the platter *)

(** [len] bytes read from the sectors at [lba] on. *)
Fixpoint bytes_at (p : gmap Z (list byte)) (fuel : nat) (lba : Z) (len : nat) : list byte :=
  match fuel with
  | O => []
  | S fuel =>
      if (0 <? len)%nat then take (len `min` 512) (sector_at p lba) ++ bytes_at p fuel (lba + 1) (len - 512)
      else []
  end.

(** The tree and generation a slot holds, when it holds a valid checkpoint. *)
Definition checkpoint_at (p : gmap Z (list byte)) (slot : Z) : option (Z * FsNode) :=
  let lba := if slot =? 0 then SLOT_A_LBA else SLOT_B_LBA in
  let header := sector_at p lba in
  let generation := le_u64 (slice header 8 16) in
  let length := le_u32 (slice header 16 20) in
  let blob := bytes_at p (sectors_of (Z.to_nat length)) (lba + 1) (Z.to_nat length) in
  if bool_decide (take 8 header = SLOT_MAGIC) && (le_u32 (slice header 24 28) =? SLOT_COMMITTED)
     && negb (generation =? 0) && negb (length =? 0) && negb (MAX_METADATA_BYTES <? length)
     && (crc32 blob =? le_u32 (slice header 20 24)) && negb (zlen blob <? 4)
     && bool_decide (take 4 blob = TREE_MAGIC)
  then match deserialize_tree (drop 4 blob) with
       | Ok tree => Some (generation, tree)
       | Err _ => None
       end
  else None.

(** The slot, generation and tree recovery chooses. *)
Definition recover (p : gmap Z (list byte)) : option (Z * (Z * FsNode)) :=
  match checkpoint_at p 0, checkpoint_at p 1 with
  | Some a, Some b => Some (if b.1 <=? a.1 then (0, a) else (1, b))
  | Some a, None => Some (0, a)
  | None, Some b => Some (1, b)
  | None, None => None
  end.

(** ** Reading bytes back *)

Lemma sectors_of_S len : (0 < len)%nat → sectors_of len = S (sectors_of (len - 512)).
Proof.
  intros Hlen. unfold sectors_of. destruct (decide (len ≤ 512)%nat).
  - replace (len - 512)%nat with 0%nat by lia. change ((0 + 511) / 512)%nat with 0%nat.
    symmetry. apply (Nat.div_unique _ _ _ (len - 1)%nat); lia.
  - replace (len + 511)%nat with (len - 512 + 511 + 1 * 512)%nat by lia.
    rewrite Nat.div_add by done. lia.
Qed.

Lemma sectors_of_0 : sectors_of 0 = 0%nat.
Proof. done. Qed.

Lemma sectors_of_bound len : Z.of_nat len <= MAX_METADATA_BYTES → (sectors_of len ≤ 511)%nat.
Proof.
  unfold MAX_METADATA_BYTES, SLOT_SECTORS, sectors_of. intros.
  apply Nat.lt_succ_r, Nat.Div0.div_lt_upper_bound. lia.
Qed.

Lemma length_payload_sector blob index : length (payload_sector blob index) = 512%nat.
Proof.
  unfold payload_sector. rewrite length_copy_at; [apply length_zero_sector|].
  unfold slice. rewrite length_take, length_drop, length_zero_sector. lia.
Qed.

Lemma payload_sector_S blob index : payload_sector blob (S index) = payload_sector (drop 512 blob) index.
Proof.
  unfold payload_sector, slice. rewrite length_drop, drop_drop.
  replace (S index * 512)%nat with (512 + index * 512)%nat by lia.
  replace (length blob - (512 + index * 512))%nat with (length blob - 512 - index * 512)%nat by lia.
  do 2 f_equal; lia.
Qed.

Lemma take_payload_sector blob n : (n = length blob `min` 512)%nat → take n (payload_sector blob 0) = take 512 blob.
Proof.
  intros ->. unfold payload_sector, slice, copy_at. rewrite Nat.mul_0_l, take_0, drop_0, !Nat.sub_0_r.
  cbn [app]. set (k := (length blob `min` 512)%nat).
  rewrite take_app_le by (rewrite length_take; lia). rewrite take_take. subst k.
  destruct (decide (length blob ≤ 512)%nat).
  - rewrite !take_ge by lia. done.
  - f_equal. lia.
Qed.

(** Sectors that hold the payload of [blob] read back as [blob]. *)
Lemma bytes_at_payload p blob lba :
  (∀ i, (i < sectors_of (length blob))%nat → sector_at p (lba + Z.of_nat i) = payload_sector blob i) →
  bytes_at p (sectors_of (length blob)) lba (length blob) = blob.
Proof.
  remember (sectors_of (length blob)) as n eqn:Hn. revert blob lba Hn.
  induction n as [|n IH]; intros blob lba Hn Hp.
  - destruct blob; [done|]. rewrite sectors_of_S in Hn by (simpl; lia). done.
  - destruct (decide (0 < length blob)%nat) as [Hpos|]; [|destruct blob; [done|simpl in *; lia]].
    rewrite sectors_of_S in Hn by done. injection Hn as Hn.
    cbn [bytes_at]. rewrite (proj2 (Nat.ltb_lt _ _)) by done.
    assert (length (drop 512 blob) = (length blob - 512)%nat) as Hd by apply length_drop.
    rewrite <- Hd. rewrite IH; [| by rewrite Hd | ].
    + pose proof (Hp 0%nat ltac:(lia)) as H0. rewrite Z.add_0_r in H0. rewrite H0.
      rewrite take_payload_sector by done. apply take_drop.
    + intros i Hi. rewrite <- payload_sector_S, <- Hp by lia. f_equal. lia.
Qed.

Lemma bytes_at_ext p p' fuel lba len :
  (∀ i, (i < fuel)%nat → sector_at p (lba + Z.of_nat i) = sector_at p' (lba + Z.of_nat i)) →
  bytes_at p fuel lba len = bytes_at p' fuel lba len.
Proof.
  revert lba len. induction fuel as [|fuel IH]; intros lba len Hp; [done|]. cbn [bytes_at].
  destruct (0 <? len)%nat; [|done]. f_equal.
  - pose proof (Hp 0%nat ltac:(lia)) as H0. rewrite Z.add_0_r in H0. by rewrite H0.
  - apply IH. intros i Hi. pose proof (Hp (S i) ltac:(lia)) as HS.
    by replace (lba + 1 + Z.of_nat i) with (lba + Z.of_nat (S i)) by lia.
Qed.

Lemma length_bytes_at p lba len :
  map_Forall (λ _ s, length s = 512%nat) p → length (bytes_at p (sectors_of len) lba len) = len.
Proof.
  intros Hp. remember (sectors_of len) as n eqn:Hn. revert lba len Hn.
  induction n as [|n IH]; intros lba len Hn; destruct (decide (0 < len)%nat) as [Hpos|].
  - by rewrite sectors_of_S in Hn.
  - simpl. lia.
  - rewrite sectors_of_S in Hn by done. injection Hn as Hn. cbn [bytes_at].
    rewrite (proj2 (Nat.ltb_lt _ _)) by done.
    rewrite length_app, length_take, length_sector_at, IH by done. lia.
  - assert (len = 0%nat) as -> by lia. done.
Qed.

(** ** Headers *)

Lemma checkpoint_header_fields generation blob committed :
  0 <= generation <= u64_max → zlen blob <= MAX_METADATA_BYTES →
  ∃ header, checkpoint_header generation blob committed = Ok header
    ∧ length header = 512%nat ∧ take 8 header = SLOT_MAGIC
    ∧ le_u64 (slice header 8 16) = generation ∧ le_u32 (slice header 16 20) = zlen blob
    ∧ le_u32 (slice header 20 24) = crc32 blob
    ∧ le_u32 (slice header 24 28) = if committed then SLOT_COMMITTED else 0.
Proof.
  unfold MAX_METADATA_BYTES, SLOT_SECTORS, u64_max. intros Hg Hb.
  pose proof (zlen_nonneg blob). pose proof (crc32_bound blob).
  unfold checkpoint_header. rewrite (proj2 (Z.leb_le _ _)) by (unfold u32_max; lia).
  cbn [ensure mbind result_bind]. eexists. split; [done|].
  change (take 8 ?h) with (slice h 0 8). unfold le_u32, le_u64.
  destruct committed; (split_and!; [solve_len| fields; rewrite ?le_decode_encode by lia; done..]).
Qed.

(** ** Writing one checkpoint *)

Definition slot_base (slot : Z) : Z := if slot =? 0 then SLOT_A_LBA else SLOT_B_LBA.
Definition is_slot (slot : Z) : Prop := slot = 0 ∨ slot = 1.

Lemma slot_lba_base slot : is_slot slot → slot_lba slot = Ok (slot_base slot).
Proof. by intros [->| ->]. Qed.

(** Only sectors of the region of [SLOT_SECTORS] sectors at [lba] differ. *)
Definition same_outside (lba : Z) (p p' : gmap Z (list byte)) : Prop :=
  ∀ x, x < lba ∨ lba + SLOT_SECTORS <= x → sector_at p' x = sector_at p x.

(** The region at [lba] holds the payload of [blob]. *)
Definition holds_payload (lba : Z) (blob : list byte) (p : gmap Z (list byte)) : Prop :=
  ∀ i, (i < sectors_of (length blob))%nat → sector_at p (lba + 1 + Z.of_nat i) = payload_sector blob i.

Definition uncommitted (lba : Z) (p : gmap Z (list byte)) : Prop :=
  le_u32 (slice (sector_at p lba) 24 28) ≠ SLOT_COMMITTED.

Lemma same_outside_trans lba p q r : same_outside lba p q → same_outside lba q r → same_outside lba p r.
Proof. intros H1 H2 x Hx. by rewrite H2, H1. Qed.

Lemma same_outside_insert lba p i s :
  lba <= i < lba + SLOT_SECTORS → same_outside lba p (<[i := s]> p).
Proof. intros Hi x Hx. apply sector_at_insert_ne. lia. Qed.

Lemma uncommitted_none slot p : is_slot slot → uncommitted (slot_base slot) p → checkpoint_at p slot = None.
Proof.
  intros Hs Hu. unfold uncommitted, slot_base in Hu. unfold checkpoint_at.
  rewrite (proj2 (Z.eqb_neq _ SLOT_COMMITTED)) by exact Hu. by rewrite andb_false_r, !andb_false_l.
Qed.

(** What a slot holds depends only on the sectors of its region. *)
Lemma checkpoint_at_ext slot p p' :
  (∀ i, 0 <= i < SLOT_SECTORS → sector_at p' (slot_base slot + i) = sector_at p (slot_base slot + i)) →
  checkpoint_at p' slot = checkpoint_at p slot.
Proof.
  intros Hsame. unfold checkpoint_at. fold (slot_base slot).
  pose proof (Hsame 0 ltac:(done)) as H0. rewrite Z.add_0_r in H0. rewrite H0.
  set (len := le_u32 (slice _ 16 20)). destruct (MAX_METADATA_BYTES <? len) eqn:Hlen; bool_hyps;
    [cbn [negb]; by rewrite andb_false_r, !andb_false_l|].
  rewrite (bytes_at_ext p' p); [done|]. intros i Hi.
  pose proof (sectors_of_bound (Z.to_nat len)) as Hb.
  assert (0 <= len) by apply le_decode_range.
  specialize (Hb ltac:(lia)).
  rewrite <- !Z.add_assoc. apply Hsame. unfold SLOT_SECTORS. lia.
Qed.

Lemma checkpoint_at_outside slot other p p' :
  is_slot slot → is_slot other → slot ≠ other →
  same_outside (slot_base slot) p p' → checkpoint_at p' other = checkpoint_at p other.
Proof.
  intros Hs Ho Hne Hout. apply checkpoint_at_ext. intros i Hi. apply Hout.
  unfold is_slot, slot_base, SLOT_B_LBA, SLOT_SECTORS, SLOT_A_LBA in *.
  destruct Hs as [->| ->], Ho as [->| ->]; simpl; lia.
Qed.

Lemma checkpoint_at_low slot p x s :
  x < SLOT_A_LBA → checkpoint_at (<[x := s]> p) slot = checkpoint_at p slot.
Proof.
  intros Hx. apply checkpoint_at_ext. intros i Hi. apply sector_at_insert_ne.
  unfold slot_base, SLOT_B_LBA, SLOT_SECTORS in *. destruct (slot =? 0); lia.
Qed.

Lemma checkpoint_at_generation p slot g t : checkpoint_at p slot = Some (g, t) → 0 < g <= u64_max.
Proof.
  unfold checkpoint_at. destruct (_ && _) eqn:E; [|done].
  destruct (deserialize_tree _); [|done]. intros [= <- _]. bool_hyps.
  pose proof (le_decode_slice (sector_at p (if slot =? 0 then SLOT_A_LBA else SLOT_B_LBA)) 8 16 8 ltac:(lia)).
  unfold le_u64, u64_max in *. lia.
Qed.

Lemma checkpoint_at_complete slot generation blob header tree p :
  is_slot slot → 0 < generation <= u64_max → zlen blob <= MAX_METADATA_BYTES →
  checkpoint_header generation blob true = Ok header →
  sector_at p (slot_base slot) = header → holds_payload (slot_base slot) blob p →
  take 4 blob = TREE_MAGIC → deserialize_tree (drop 4 blob) = Ok tree →
  checkpoint_at p slot = Some (generation, tree).
Proof.
  intros Hs Hg Hlen Hh Hp Hpay Hm Hd.
  destruct (checkpoint_header_fields generation blob true) as (h & Hh' & _ & H0 & H1 & H2 & H3 & H4); [lia|done|].
  rewrite Hh in Hh'. injection Hh' as <-.
  unfold checkpoint_at. fold (slot_base slot). rewrite Hp, H0, H1, H2, H3, H4.
  assert (4 <= zlen blob) as H4b.
  { apply (f_equal length) in Hm. rewrite length_take in Hm.
    change (length TREE_MAGIC) with 4%nat in Hm. unfold zlen. lia. }
  assert (Z.to_nat (zlen blob) = length blob) as -> by (unfold zlen; lia).
  rewrite bytes_at_payload by exact Hpay.
  rewrite Hm, Hd, !bool_decide_eq_true_2, !Z.eqb_refl by done.
  rewrite (proj2 (Z.eqb_neq generation 0)), (proj2 (Z.eqb_neq _ 0)), !(proj2 (Z.ltb_ge _ _)) by lia.
  done.
Qed.

(** Every sector of the region can be named. *)
Lemma slot_addressable slot i : is_slot slot → 0 <= i < SLOT_SECTORS → addressable (slot_base slot + i).
Proof.
  unfold addressable, slot_base, SLOT_B_LBA, SLOT_SECTORS, SLOT_A_LBA. intros [-> | ->] Hi; simpl; lia.
Qed.

Lemma base_addressable slot : is_slot slot → addressable (slot_base slot).
Proof. intros Hs. rewrite <- (Z.add_0_r (slot_base slot)). by apply slot_addressable. Qed.

Section specs.
Context {D : Type} `{BlockDeviceSpec D}.
Implicit Types (s : tqfs D).

Definition disk s : gmap Z (list byte) := platter (dev s).
Definition sound s : Prop := reliable (dev s).

(** The in-memory state (everything but the device) is untouched. *)
Definition same_memory s s' : Prop :=
  active_slot s' = active_slot s ∧ generation s' = generation s ∧ format_version s' = format_version s.

Lemma same_memory_refl s : same_memory s s.
Proof. done. Qed.

Lemma same_memory_trans s1 s2 s3 : same_memory s1 s2 → same_memory s2 s3 → same_memory s1 s3.
Proof. unfold same_memory. intuition congruence. Qed.

Lemma wp_on_dev {A} (m : M D A) (Q : A → tqfs D → Prop) (E : string → tqfs D → Prop) s :
  wp m (λ a d, Q a (set_dev d s)) (λ e d, E e (set_dev d s)) (dev s) → wp (on_dev m) Q E s.
Proof. unfold wp, on_dev. by destruct (m (dev s)) as [[a|e] d]. Qed.

Lemma wp_read lba (Q : list byte → tqfs D → Prop) (E : string → tqfs D → Prop) s :
  (∀ sec s', (addressable lba → sec = sector_at (disk s) lba) → disk s' = disk s → same_memory s s' → (sound s → sound s') → Q sec s') →
  (∀ e s', disk s' = disk s → same_memory s s' → ¬ sound s → E e s') →
  wp (read lba) Q E s.
Proof.
  intros HQ HE. apply wp_on_dev. eapply wp_mono; [apply read_sector_spec| |].
  - intros sec d (Hsec & Hp & Hr). by apply HQ.
  - intros e d (Hp & Hr). by apply HE.
Qed.

Lemma wp_write lba sec (Q : unit → tqfs D → Prop) (E : string → tqfs D → Prop) s :
  addressable lba → length sec = 512%nat →
  (∀ s', disk s' = <[lba := sec]> (disk s) → same_memory s s' → (sound s → sound s') → Q tt s') →
  (∀ e s', disk s' = disk s ∨ disk s' = <[lba := sec]> (disk s) → same_memory s s' → ¬ sound s → E e s') →
  wp (write lba sec) Q E s.
Proof.
  intros Hl Hs HQ HE. apply wp_on_dev. eapply wp_mono; [by apply write_sector_spec| |].
  - intros [] d (Hp & Hr). by apply HQ.
  - intros e d (Hp & Hr). by apply HE.
Qed.

(** The payload loop writes its sectors and no other. *)
Lemma wp_write_payload lba blob intr indices s :
  (∀ i, i ∈ indices → addressable (lba + 1 + Z.of_nat i)) →
  wp (write_payload lba blob intr indices)
    (λ _ s', (∀ i, i ∈ indices → sector_at (disk s') (lba + 1 + Z.of_nat i) = payload_sector blob i)
      ∧ (∀ x, (∀ i, i ∈ indices → x ≠ lba + 1 + Z.of_nat i) → sector_at (disk s') x = sector_at (disk s) x)
      ∧ same_memory s s' ∧ (sound s → sound s'))
    (λ _ s', (∀ x, (∀ i, i ∈ indices → x ≠ lba + 1 + Z.of_nat i) → sector_at (disk s') x = sector_at (disk s) x)
      ∧ same_memory s s' ∧ (intr = None → ¬ sound s)) s.
Proof.
  revert s. induction indices as [|i indices IH]; intros s Hnum; cbn [write_payload].
  { wp_step. split; [by intros i ?%elem_of_nil|]. done. }
  wp_step. apply wp_write; [apply Hnum; by left|apply length_payload_sector| |].
  - intros s1 Hd Hm Hr. case_decide as Hintr.
    + wp_step. split_and!; [|done|by intros ->].
      intros x Hx. rewrite Hd. apply sector_at_insert_ne. intros <-. apply (Hx i); [by left|done].
    + eapply wp_mono; [apply IH; intros k Hk; apply Hnum; by right| |].
      * intros _ s' (Hpay & Hsame & Hm' & Hr'). split_and!; [| |by eapply same_memory_trans|tauto].
        -- intros j Hj. destruct (decide (j ∈ indices)) as [|Hnin]; [by apply Hpay|].
           apply elem_of_cons in Hj as [->|]; [|done].
           rewrite Hsame, Hd, sector_at_insert; [done|]. intros k Hk Heq.
           assert (k = i) as -> by lia. done.
        -- intros x Hx. rewrite Hsame by (intros k Hk; apply Hx; by right).
           rewrite Hd. apply sector_at_insert_ne. intros <-. apply (Hx i); [by left|done].
      * intros e s' (Hsame & Hm' & Hr'). split_and!; [|by eapply same_memory_trans|tauto].
        intros x Hx. rewrite Hsame by (intros k Hk; apply Hx; by right).
        rewrite Hd. apply sector_at_insert_ne. intros <-. apply (Hx i); [by left|done].
  - intros e s1 Hd Hm Hr. split_and!; [|done|done].
    intros x Hx. destruct Hd as [-> | ->]; [done|].
    apply sector_at_insert_ne. intros <-. apply (Hx i); [by left|done].
Qed.

(** What a run of [write_checkpoint] may leave: nothing written, no valid
    checkpoint in the slot, or the complete new one. *)
Definition slot_outcome (slot generation : Z) (tree : FsNode) s s' : Prop :=
  checkpoint_at (disk s') slot = checkpoint_at (disk s) slot
  ∨ checkpoint_at (disk s') slot = None
  ∨ checkpoint_at (disk s') slot = Some (generation, tree).

Lemma wp_write_checkpoint slot generation blob tree intr s :
  is_slot slot → 0 < generation <= u64_max → zlen blob <= MAX_METADATA_BYTES →
  take 4 blob = TREE_MAGIC → deserialize_tree (drop 4 blob) = Ok tree →
  wp (write_checkpoint slot generation blob intr)
    (λ _ s', checkpoint_at (disk s') slot = Some (generation, tree)
      ∧ same_outside (slot_base slot) (disk s) (disk s') ∧ same_memory s s' ∧ (sound s → sound s'))
    (λ _ s', slot_outcome slot generation tree s s'
      ∧ same_outside (slot_base slot) (disk s) (disk s') ∧ same_memory s s' ∧ (intr = None → ¬ sound s)) s.
Proof.
  intros Hs Hg Hlen Hmagic Hdes.
  destruct (checkpoint_header_fields generation blob false) as (h0 & Hh0 & Hl0 & _ & _ & _ & _ & Hc0); [lia|done|].
  destruct (checkpoint_header_fields generation blob true) as (h1 & Hh1 & Hl1 & _ & _ & _ & _ & Hc1); [lia|done|].
  unfold write_checkpoint. wp_step. rewrite slot_lba_base by done. wp_step.
  wp_step. rewrite Hh0. wp_step. set (lba := slot_base slot).
  assert (0 <= SLOT_SECTORS) as Hss by done.
  assert (∀ i, i ∈ seq 0 (sectors_of (length blob)) → lba <= lba + 1 + Z.of_nat i < lba + SLOT_SECTORS) as Hidx.
  { intros i Hi%elem_of_seq. pose proof (sectors_of_bound (length blob) Hlen). unfold SLOT_SECTORS. lia. }
  assert (∀ i, i ∈ seq 0 (sectors_of (length blob)) → addressable (lba + 1 + Z.of_nat i)) as Hnum.
  { intros i Hi%Hidx. rewrite <- Z.add_assoc. apply slot_addressable; [done|lia]. }
  assert (∀ p i sec, p = i ∨ p = <[lba := sec]> i → same_outside lba i p) as Hwr.
  { intros p i sec [->| ->]; [done|]. apply same_outside_insert. unfold SLOT_SECTORS. lia. }
  wp_step. apply wp_write; [by apply base_addressable|done| |].
  2:{ intros e s1 Hd Hm Hr. split_and!; [|by eapply Hwr|done|done].
      destruct Hd as [Hd|Hd]; [by left; rewrite Hd|]. right; left. apply uncommitted_none; [done|].
      unfold uncommitted. fold lba. rewrite Hd, sector_at_insert, Hc0. done. }
  intros s1 Hd1 Hm1 Hr1.
  assert (same_outside lba (disk s) (disk s1)) as Ho1 by (eapply Hwr; by right).
  assert (∀ s2, (∀ x, (∀ i, i ∈ seq 0 (sectors_of (length blob)) → x ≠ lba + 1 + Z.of_nat i) →
      sector_at (disk s2) x = sector_at (disk s1) x) →
      uncommitted lba (disk s2) ∧ same_outside lba (disk s) (disk s2)) as Hpart.
  { intros s2 Hsame. split.
    - unfold uncommitted. rewrite Hsame, Hd1, sector_at_insert, Hc0; [done|]. intros i Hi. lia.
    - eapply same_outside_trans; [done|]. intros x Hx. apply Hsame. intros i Hi ->.
      specialize (Hidx i Hi). lia. }
  wp_step. eapply wp_mono; [by apply wp_write_payload| |].
  2:{ intros e s2 (Hsame & Hm2 & Hr2). destruct (Hpart s2 Hsame) as [Hu Ho].
      split_and!; [|done|by eapply same_memory_trans|tauto].
      right; left. by apply uncommitted_none. }
  intros _ s2 (Hpay & Hsame & Hm2 & Hr2). destruct (Hpart s2 Hsame) as [Hu2 Ho2].
  wp_step. rewrite Hh1. wp_step.
  assert (∀ s3, disk s3 = <[lba := h1]> (disk s2) → checkpoint_at (disk s3) slot = Some (generation, tree)) as Hdone.
  { intros s3 Hd3. eapply checkpoint_at_complete; try done.
    - fold lba. by rewrite Hd3, sector_at_insert.
    - intros i Hi. fold lba. rewrite Hd3, sector_at_insert_ne by lia. apply Hpay. apply elem_of_seq. lia. }
  apply wp_write; [by apply base_addressable|done| |].
  - intros s3 Hd3 Hm3 Hr3. split_and!; [by apply Hdone| |by eauto using same_memory_trans|tauto].
    eapply same_outside_trans; [done|]. eapply Hwr. by right.
  - intros e s3 Hd3 Hm3 Hr3. split_and!; [| |by eauto using same_memory_trans|tauto].
    + destruct Hd3 as [Hd3|Hd3]; [right; left; rewrite Hd3; by apply uncommitted_none|right; right; by apply Hdone].
    + eapply same_outside_trans; [done|]. by eapply Hwr.
Qed.

(** Nothing but the device's internal state changed. *)
Definition unchanged s s' : Prop := disk s' = disk s ∧ same_memory s s' ∧ (sound s → sound s').

Lemma unchanged_trans s1 s2 s3 : unchanged s1 s2 → unchanged s2 s3 → unchanged s1 s3.
Proof. intros (H1 & Hm1 & Hr1) (H2 & Hm2 & Hr2). split_and!; [congruence|by eapply same_memory_trans|tauto]. Qed.

(** A read-only computation: it leaves the state alone, computes [a] from the
    platter, and fails only on an unreliable device. *)
Definition reads {A} (m : M (tqfs D) A) (a : A) s : Prop :=
  wp m (λ a' s', a' = a ∧ unchanged s s') (λ _ s', disk s' = disk s ∧ same_memory s s' ∧ ¬ sound s) s.

Lemma reads_bind {A B} (m : M (tqfs D) A) (f : A → M (tqfs D) B) a b s :
  reads m a s → (∀ s', unchanged s s' → reads (f a) b s') → reads (m ≫= f) b s.
Proof.
  intros Hm Hf. apply wp_bind. eapply wp_mono; [exact Hm| |done].
  intros a' s1 [-> Hu1]. eapply wp_mono; [by apply Hf| |].
  - intros b' s2 [-> Hu2]. split; [done|]. by eapply unchanged_trans.
  - intros e s2 (Hd & Hm2 & Hr). destruct Hu1 as (Hd1 & Hm1 & Hr1).
    split_and!; [congruence|by eapply same_memory_trans|tauto].
Qed.

Lemma reads_ret {A} (a : A) s : reads (mret a) a s.
Proof. by split. Qed.

Lemma reads_read lba s : addressable lba → reads (read lba) (sector_at (disk s) lba) s.
Proof. intros Hl. apply wp_read; unfold unchanged; auto. Qed.

Lemma reads_read_sectors fuel lba len blob s :
  fuel = sectors_of (len - length blob) → (∀ i, 0 <= i < Z.of_nat fuel → addressable (lba + i)) →
  reads (read_sectors fuel lba len blob) (blob ++ bytes_at (disk s) fuel lba (len - length blob)) s.
Proof.
  revert lba blob s. induction fuel as [|fuel IH]; intros lba blob s Hfuel Hnum; cbn [read_sectors bytes_at].
  { rewrite app_nil_r. apply reads_ret. }
  destruct (Nat.ltb_spec (length blob) len) as [Hlt|Hge].
  - rewrite (proj2 (Nat.ltb_lt 0 _)) by lia. eapply reads_bind.
    { apply reads_read. rewrite <- (Z.add_0_r lba). apply Hnum. lia. }
    intros s1 (Hd & _). rewrite sectors_of_S in Hfuel by lia. injection Hfuel as Hfuel.
    set (chunk := take _ (sector_at (disk s) lba)).
    assert (length chunk = ((len - length blob) `min` 512)%nat) as Hchunk.
    { subst chunk. rewrite length_take, length_sector_at by apply platter_sized. lia. }
    replace (len - length blob - 512)%nat with (len - length (blob ++ chunk))%nat in *
      by (rewrite length_app; lia).
    rewrite app_assoc, <- Hd. apply IH; [done|]. intros i Hi. rewrite <- Z.add_assoc. apply Hnum. lia.
  - rewrite (proj2 (Nat.ltb_ge 0 _)) by lia. rewrite app_nil_r. apply reads_ret.
Qed.

Lemma reads_metadata lba len s :
  len <= MAX_METADATA_BYTES → (∀ i, 0 <= i < SLOT_SECTORS - 1 → addressable (lba + i)) →
  reads (read_metadata_at lba len) (bytes_at (disk s) (sectors_of (Z.to_nat len)) lba (Z.to_nat len)) s.
Proof.
  intros Hlen Hnum. unfold read_metadata_at. eapply (reads_bind _ _ tt).
  - unfold mensure. rewrite (proj2 (Z.ltb_ge _ _)) by done. apply reads_ret.
  - intros s1 (Hd & _). rewrite <- Hd. rewrite <- (app_nil_l (bytes_at _ _ _ _)).
    replace (Z.to_nat len) with (Z.to_nat len - length (@nil byte))%nat at 4 by (simpl; lia).
    apply reads_read_sectors; [simpl; by rewrite Nat.sub_0_r|]. intros i Hi. apply Hnum.
    assert (Z.of_nat (Z.to_nat len) <= MAX_METADATA_BYTES) as Hb by (unfold MAX_METADATA_BYTES, SLOT_SECTORS in *; lia).
    pose proof (sectors_of_bound _ Hb). unfold SLOT_SECTORS. lia.
Qed.

(** Loading a slot computes what the platter holds there. *)
Lemma reads_load_checkpoint slot s : is_slot slot → reads (load_checkpoint slot) (checkpoint_at (disk s) slot) s.
Proof.
  intros Hs. unfold load_checkpoint. eapply reads_bind.
  { rewrite slot_lba_base by done. apply reads_ret. }
  intros s1 (Hd1 & _). rewrite <- Hd1. eapply reads_bind; [by apply reads_read, base_addressable|].
  intros s2 (Hd2 & _). rewrite <- Hd2.
  unfold checkpoint_at. fold (slot_base slot). set (header := sector_at (disk s2) (slot_base slot)).
  destruct (bool_decide (take 8 header = SLOT_MAGIC)); [|apply reads_ret].
  destruct (le_u32 (slice header 24 28) =? SLOT_COMMITTED); [|apply reads_ret]. cbn [negb orb andb].
  destruct (le_u64 (slice header 8 16) =? 0); [apply reads_ret|].
  destruct (le_u32 (slice header 16 20) =? 0); [apply reads_ret|].
  destruct (MAX_METADATA_BYTES <? le_u32 (slice header 16 20)) eqn:Hlen; [apply reads_ret|].
  cbn [negb orb andb]. bool_hyps. eapply reads_bind.
  { apply reads_metadata; [done|]. intros i Hi. rewrite <- Z.add_assoc. apply slot_addressable; [done|lia]. }
  intros s3 (Hd3 & _). set (blob := bytes_at _ _ _ _).
  destruct (crc32 blob =? _); [|apply reads_ret]. destruct (zlen blob <? 4); [apply reads_ret|].
  destruct (bool_decide (take 4 blob = TREE_MAGIC)); [|apply reads_ret]. cbn [negb orb andb].
  destruct (deserialize_tree (drop 4 blob)); apply reads_ret.
Qed.

(** ** Syncing a tree *)

(** A tree that can be stored: well formed, within the record limit, and its
    blob within the slot. *)
Definition storable (tree : FsNode) : Prop :=
  wf_tree tree = true ∧ (record_count tree ≤ MAX_NODE_COUNT)%nat
  ∧ ∃ blob, serialize_tree tree = Ok blob ∧ zlen blob <= MAX_METADATA_BYTES.

Lemma storable_blob tree :
  storable tree → ∃ blob, serialize_tree tree = Ok blob ∧ zlen blob <= MAX_METADATA_BYTES
    ∧ take 4 blob = TREE_MAGIC ∧ deserialize_tree (drop 4 blob) = Ok tree.
Proof.
  intros (Hwf & Hcount & blob & Hser & Hlen).
  destruct (serialize_deserialize tree Hwf) as (data & Hs & Hd). rewrite decide_True in Hd by done.
  assert (blob = TREE_MAGIC ++ data) as -> by congruence. by exists (TREE_MAGIC ++ data).
Qed.

(** The sectors a v3 sync never writes, apart from the superblock. *)
Definition same_low s s' : Prop :=
  ∀ x, x < SLOT_A_LBA → x ≠ SUPERBLOCK_LBA → sector_at (disk s') x = sector_at (disk s) x.

Lemma slot_base_low slot x : is_slot slot → x < SLOT_A_LBA → x < slot_base slot.
Proof. unfold slot_base, SLOT_B_LBA, SLOT_A_LBA, SLOT_SECTORS. by intros [-> | ->]; simpl; lia. Qed.

Lemma wp_prepare_checkpoint tree (Q : list byte * Z * Z → tqfs D → Prop) (E : string → tqfs D → Prop) s :
  storable tree → is_slot (active_slot s) →
  (∀ blob, zlen blob <= MAX_METADATA_BYTES → take 4 blob = TREE_MAGIC →
     deserialize_tree (drop 4 blob) = Ok tree → generation s + 1 <= u64_max →
     Q (blob, generation s + 1, 1 - active_slot s) s) →
  (u64_max <= generation s → ∀ e, E e s) →
  wp (prepare_checkpoint tree) Q E s.
Proof.
  intros (blob & Hser & Hlen & Hmagic & Hdes)%storable_blob Hslot HQ HE.
  unfold prepare_checkpoint. wp_step. rewrite Hser. wp_step. wp_step. wp_step; bool_hyps; [|lia].
  wp_step. wp_step. wp_step. wp_step.
  destruct (checked_add u64_max (generation s) 1) as [g|] eqn:Hg; cbn [ok_or].
  - apply checked_add_Some in Hg as [-> Hg]. wp_step.
    replace (Z.min (active_slot s) 1) with (active_slot s) by (destruct Hslot as [-> | ->]; done).
    by apply HQ.
  - apply HE. unfold checked_add in Hg. destruct (Z.leb_spec (generation s + 1) u64_max); [done|lia].
Qed.

Lemma is_slot_other slot : is_slot slot → is_slot (1 - slot) ∧ 1 - slot ≠ slot.
Proof. unfold is_slot. lia. Qed.

(** A blob that does not fit the slot is refused before anything is written. *)
Lemma sync_tree_too_large tree blob s :
  serialize_tree tree = Ok blob → MAX_METADATA_BYTES < zlen blob →
  sync_tree tree s = (Err "filesystem metadata too large", s).
Proof.
  intros Hser Hlen. unfold sync_tree, prepare_checkpoint, mlift, mensure, mbind, M_bind. cbn. rewrite Hser. cbn.
  by rewrite (proj2 (Z.ltb_lt _ _)) by done.
Qed.

(** Run the updates of the atomics. *)
Ltac stores := unfold store_active_slot, store_generation, store_format_version; repeat wp_step.

(** [sync_tree] on a volume of either format. *)
Lemma wp_sync_tree tree s :
  storable tree → is_slot (active_slot s) → 0 <= generation s →
  wp (sync_tree tree)
    (λ _ s', active_slot s' = 1 - active_slot s ∧ generation s' = generation s + 1 ∧ generation s + 1 <= u64_max
      ∧ format_version s' = VERSION ∧ same_low s s'
      ∧ checkpoint_at (disk s') (1 - active_slot s) = Some (generation s + 1, tree)
      ∧ checkpoint_at (disk s') (active_slot s) = checkpoint_at (disk s) (active_slot s)
      ∧ sector_at (disk s') SUPERBLOCK_LBA
        = (if format_version s =? VERSION then sector_at (disk s) SUPERBLOCK_LBA else build_superblock)
      ∧ (sound s → sound s'))
    (λ _ s', same_memory s s' ∧ same_low s s'
      ∧ slot_outcome (1 - active_slot s) (generation s + 1) tree s s'
      ∧ checkpoint_at (disk s') (active_slot s) = checkpoint_at (disk s) (active_slot s)
      ∧ (sector_at (disk s') SUPERBLOCK_LBA = sector_at (disk s) SUPERBLOCK_LBA
         ∨ (format_version s ≠ VERSION ∧ sector_at (disk s') SUPERBLOCK_LBA = build_superblock
            ∧ checkpoint_at (disk s') (1 - active_slot s) = Some (generation s + 1, tree)))
      ∧ (sound s → generation s = u64_max ∨ u64_max < generation s)) s.
Proof.
  intros Hst Hslot Hg. destruct (is_slot_other _ Hslot) as [Hother Hne].
  assert (∀ s', same_outside (slot_base (1 - active_slot s)) (disk s) (disk s') →
    same_low s s' ∧ checkpoint_at (disk s') (active_slot s) = checkpoint_at (disk s) (active_slot s)
    ∧ sector_at (disk s') SUPERBLOCK_LBA = sector_at (disk s) SUPERBLOCK_LBA) as Hout.
  { intros s' Ho. split_and!.
    - intros x Hx _. apply Ho. left. by apply slot_base_low.
    - by apply (checkpoint_at_outside (1 - active_slot s)).
    - apply Ho. left. by apply slot_base_low. }
  unfold sync_tree. wp_step. apply wp_prepare_checkpoint; [done|done| |].
  2:{ intros Hmax e. split_and!; try done; [by left|by left|lia]. }
  intros blob Hlen Hmagic Hdes Hgen. wp_step.
  eapply wp_mono; [by apply wp_write_checkpoint; try done; lia| |].
  2:{ intros e s1 (Ho & Hsame & Hm & Hr). destruct (Hout s1 Hsame) as (Hl & Hc & Hsb).
      split_and!; try done; [by left|tauto]. }
  intros _ s1 (Hc1 & Hsame & Hm & Hr). destruct (Hout s1 Hsame) as (Hl & Hc & Hsb).
  pose proof Hm as (Hma & Hmg & Hmf). wp_step. wp_step. wp_step. rewrite Hmf.
  destruct (format_version s =? VERSION) eqn:Hv; bool_hyps; cbn [negb].
  - stores. split_and!; try done. cbn. congruence.
  - wp_step. apply wp_write; [done|by vm_compute| |].
    + intros s2 Hd2 (Hm2a & Hm2g & Hm2f) Hr2. stores. unfold disk in *. cbn [dev active_slot].
      rewrite Hd2, !checkpoint_at_low, sector_at_insert by done. split_and!; try done; [|tauto].
      intros x Hx Hxs. unfold disk. cbn [dev]. rewrite Hd2, sector_at_insert_ne by done. by apply Hl.
    + intros e s2 Hd2 Hm2 Hr2.
      assert (∀ slot, checkpoint_at (disk s2) slot = checkpoint_at (disk s1) slot) as Hsl.
      { intros slot. destruct Hd2 as [-> | ->]; [done|]. by apply checkpoint_at_low. }
      unfold slot_outcome. rewrite !Hsl. split_and!; [by eapply same_memory_trans| |tauto|done| |tauto].
      * intros x Hx Hxs. destruct Hd2 as [-> | ->]; [|rewrite sector_at_insert_ne by done]; by apply Hl.
      * destruct Hd2 as [-> | ->]; [by left|]. right. by rewrite sector_at_insert.
Qed.

(** ** Mounted volumes and what a remount finds *)

Definition v3_superblock (sb : list byte) : Prop :=
  take 8 sb = MAGIC ∧ le_u32 (slice sb 8 12) = VERSION
  ∧ le_u32 (slice sb 12 16) = SLOT_A_LBA ∧ le_u32 (slice sb 16 20) = SLOT_SECTORS.

Lemma build_superblock_v3 : v3_superblock build_superblock.
Proof. by vm_compute. Qed.

(** A mounted v3 volume whose committed tree is [tree]: the active slot holds it
    under the current generation, and the other slot holds nothing newer than
    what the next sync will write. *)
Definition mounted s tree : Prop :=
  format_version s = VERSION ∧ v3_superblock (sector_at (disk s) SUPERBLOCK_LBA)
  ∧ is_slot (active_slot s) ∧ 0 < generation s <= u64_max
  ∧ checkpoint_at (disk s) (active_slot s) = Some (generation s, tree)
  ∧ ∀ g t, checkpoint_at (disk s) (1 - active_slot s) = Some (g, t) →
      g + active_slot s <= generation s ∨ g = generation s + 1.

(** The tree a failed sync may have completed on the medium without telling. *)
Definition pending s : option FsNode :=
  match checkpoint_at (disk s) (1 - active_slot s) with
  | Some (g, t) => if g =? generation s + 1 then Some t else None
  | None => None
  end.

Definition recovered (p : gmap Z (list byte)) : option FsNode := (λ r, r.2.2) <$> recover p.

Lemma recovered_mounted s tree : mounted s tree → recovered (disk s) = Some (default tree (pending s)).
Proof.
  intros (_ & _ & Hslot & Hg & Hc & Hother). unfold recovered, recover, pending.
  destruct Hslot as [Ha|Ha]; rewrite Ha in *; rewrite Hc;
    [change (1 - 0) with 1 in *|change (1 - 1) with 0 in *]; cbn [fst snd].
  - destruct (checkpoint_at (disk s) 1) as [[g t]|] eqn:E; [|done].
    specialize (Hother g t eq_refl). simpl.
    destruct (Z.leb_spec g (generation s)), (Z.eqb_spec g (generation s + 1)); try lia; done.
  - destruct (checkpoint_at (disk s) 0) as [[g t]|] eqn:E; [|done].
    specialize (Hother g t eq_refl). simpl.
    destruct (Z.leb_spec (generation s) g), (Z.eqb_spec g (generation s + 1)); try lia; done.
Qed.

(** Replacing what the inactive slot holds, leaving the rest. *)
Lemma mounted_outcome s s' tree new :
  mounted s tree → same_memory s s' →
  slot_outcome (1 - active_slot s) (generation s + 1) new s s' →
  checkpoint_at (disk s') (active_slot s) = checkpoint_at (disk s) (active_slot s) →
  sector_at (disk s') SUPERBLOCK_LBA = sector_at (disk s) SUPERBLOCK_LBA →
  mounted s' tree ∧ (pending s' = pending s ∨ pending s' = None ∨ pending s' = Some new).
Proof.
  intros (Hf & Hsb & Hslot & [Hg0 Hg] & Hc & Hother) (Ha' & Hg' & Hf') Hout Hc' Hsb'.
  unfold mounted, pending. rewrite Ha', Hg', Hf', Hc', Hsb'. split.
  - destruct Hsb as (?&?&?&?). split_and!; try done. intros g t. destruct Hout as [-> | [-> | ->]]; [apply Hother|done|].
    intros [= <- <-]. by right.
  - destruct Hout as [-> | [-> | ->]]; [by left|by right; left|]. right; right.
    by rewrite Z.eqb_refl.
Qed.

(** [sync_tree] on a mounted volume. *)
Lemma wp_sync_mounted tree new s :
  mounted s tree → storable new →
  wp (sync_tree new)
    (λ _ s', mounted s' new ∧ pending s' = None ∧ (sound s → sound s'))
    (λ _ s', mounted s' tree ∧ same_memory s s'
      ∧ (pending s' = pending s ∨ pending s' = None ∨ pending s' = Some new)
      ∧ (sound s → generation s = u64_max)) s.
Proof.
  intros Hm Hst. pose proof Hm as (Hf & Hsb & Hslot & Hg & Hc & Hother).
  eapply wp_mono; [apply wp_sync_tree; [done|done|lia]| |].
  - intros _ s' (Ha & Hgen & Hmax & Hv & Hlow & Hnew & Hold & Hsb' & Hr).
    rewrite Hf in Hsb'. cbn in Hsb'. unfold mounted, pending. rewrite Ha, Hgen, Hv, Hnew, Hsb'.
    replace (1 - (1 - active_slot s)) with (active_slot s) by lia. rewrite Hold, Hc.
    split_and!; try done; try lia; [by apply is_slot_other| |].
    + intros g t [= <- <-]. left. unfold is_slot in Hslot. lia.
    + destruct (Z.eqb_spec (generation s) (generation s + 1 + 1)); [lia|done].
  - intros e s' (Hmem & Hlow & Hout & Hold & Hsb' & Hr).
    destruct Hsb' as [Hsb'|[Hbad _]]; [|done].
    destruct (mounted_outcome s s' tree new) as [Hm' Hp]; try done.
    split_and!; try done. intros Hs. destruct (Hr Hs); lia.
Qed.

(** ** Mounting *)

Lemma wp_load_latest s t :
  sound s → v3_superblock (sector_at (disk s) SUPERBLOCK_LBA) → format_version s = VERSION →
  recovered (disk s) = Some t →
  wp load_latest_checkpoint
    (λ t' s', t' = t ∧ mounted s' t ∧ pending s' = None ∧ disk s' = disk s) (λ _ _, False) s.
Proof.
  intros Hs Hsb Hf Hrec. unfold load_latest_checkpoint.
  wp_step. wp_step. eapply wp_mono; [apply (reads_load_checkpoint 0); by left| |by intros ? ? (_ & _ & ?)].
  intros a0 s1 [-> (Hd1 & Hm1 & Hr1)].
  wp_step. wp_step. eapply wp_mono; [apply (reads_load_checkpoint 1); by right| |by intros ? ? (_ & _ & ?); tauto].
  intros a1 s2 [-> (Hd2 & Hm2 & Hr2)]. rewrite Hd1 in *.
  pose proof (same_memory_trans _ _ _ Hm1 Hm2) as (_ & _ & Hf2).
  assert (∀ slot, checkpoint_at (disk s) slot = checkpoint_at (disk s2) slot) as Hc by (by rewrite Hd2).
  assert (disk s2 = disk s) as Hd by done.
  unfold recovered, recover in Hrec.
  assert (∀ slot g u, is_slot slot → checkpoint_at (disk s) slot = Some (g, u) → u = t →
    (∀ g' t', checkpoint_at (disk s) (1 - slot) = Some (g', t') → g' + slot <= g) →
    wp (store_active_slot slot ≫= λ _, store_generation g ≫= λ _, mret u)
      (λ t' s', t' = t ∧ mounted s' t ∧ pending s' = None ∧ disk s' = disk s) (λ _ _, False) s2) as Hfin.
  { intros slot g u Hslot Hg -> Hnewest. stores. unfold mounted, pending, disk in *. cbn.
    rewrite Hd, Hg. split_and!; try done; [by rewrite Hf2|by eapply checkpoint_at_generation..|by left; eapply Hnewest|].
    destruct (checkpoint_at _ (1 - slot)) as [[g' t']|] eqn:E; [|done].
    specialize (Hnewest g' t' eq_refl). unfold is_slot in Hslot.
    destruct (Z.eqb_spec g' (g + 1)); [lia|done]. }
  destruct (checkpoint_at (disk s) 0) as [[ga ta]|] eqn:E0, (checkpoint_at (disk s) 1) as [[gb tb]|] eqn:E1;
    cbn in Hrec; wp_step; wp_step; [|injection Hrec as Ht..|done].
  - cbn. destruct (Z.leb_spec gb ga); injection Hrec as Ht.
    + apply Hfin; [by left|done|done|]. change (1 - 0) with 1. rewrite E1. intros ? ? [= <- <-]. lia.
    + apply Hfin; [by right|done|done|]. change (1 - 1) with 0. rewrite E0. intros ? ? [= <- <-]. lia.
  - apply Hfin; [by left|done|done|]. change (1 - 0) with 1. by rewrite E1.
  - apply Hfin; [by right|done|done|]. change (1 - 1) with 0. by rewrite E0.
Qed.

(** Run a read-only prefix on a device that does not fail. *)
Lemma wp_reads_bind {A B} (m : M (tqfs D) A) (f : A → M (tqfs D) B) a Q s :
  sound s → reads m a s → (∀ s', unchanged s s' → sound s' → wp (f a) Q (λ _ _, False) s') →
  wp (m ≫= f) Q (λ _ _, False) s.
Proof.
  intros Hs Hm Hf. apply wp_bind. eapply wp_mono; [exact Hm| |by intros e s' (_ & _ & ?)].
  intros a' s' [-> Hu]. apply Hf; [done|]. by apply Hu.
Qed.

(** Mounting a v3 volume recovers the newest valid checkpoint and writes nothing. *)
Lemma wp_mount_v3 s t :
  sound s → v3_superblock (sector_at (disk s) SUPERBLOCK_LBA) → recovered (disk s) = Some t →
  wp mount (λ t' s', t' = t ∧ mounted s' t ∧ pending s' = None ∧ disk s' = disk s) (λ _ _, False) s.
Proof.
  intros Hs Hsb Hrec. pose proof Hsb as (Hmagic & Hver & Hlba & Hsec). unfold mount.
  eapply wp_reads_bind; [done|by apply reads_read|]. intros s1 (Hd & Hm & _) Hs1.
  rewrite Hmagic, bool_decide_eq_true_2, Hver, Hlba, Hsec by done. cbn.
  unfold store_format_version. repeat wp_step.
  eapply wp_mono; [apply (wp_load_latest _ t); unfold sound, disk in *; cbn; rewrite ?Hd; done| |done].
  intros t' s' (-> & Hm' & Hp & Hd'). split_and!; try done. by rewrite Hd', <- Hd.
Qed.

(** The state after a restart: the medium as it is, on a device that works. *)
Definition restarted s s' : Prop := disk s' = disk s ∧ sound s'.

Lemma wp_remount s s' tree :
  mounted s tree → restarted s s' →
  wp mount (λ t s'', t = default tree (pending s) ∧ mounted s'' t ∧ pending s'' = None) (λ _ _, False) s'.
Proof.
  intros Hm [Hd Hs]. eapply wp_mono; [apply (wp_mount_v3 s' (default tree (pending s))); [done|..]| |done].
  - rewrite Hd. by destruct Hm as (_ & ? & _).
  - rewrite Hd. by apply recovered_mounted.
  - intros t s'' (-> & Hm' & Hp & _). done.
Qed.

(** ** Sequences of syncs *)

(** Sync the trees one after the other, each one whatever became of the last;
    the log pairs each tree with its outcome. *)
Fixpoint sync_all (trees : list FsNode) s : list (FsNode * result unit) * tqfs D :=
  match trees with
  | [] => ([], s)
  | tree :: rest =>
      let '(r, s') := sync_tree tree s in
      let '(log, s'') := sync_all rest s' in
      ((tree, r) :: log, s'')
  end.

(** The last tree whose sync reported success ([tree] when none did), and the
    trees whose syncs failed since. *)
Fixpoint outcome (tree : FsNode) (attempts : list FsNode) (log : list (FsNode * result unit))
    : FsNode * list FsNode :=
  match log with
  | [] => (tree, attempts)
  | (t, Ok _) :: rest => outcome t [] rest
  | (t, Err _) :: rest => outcome tree (t :: attempts) rest
  end.

Lemma sync_all_outcome trees tree attempts s :
  mounted s tree → (∀ t, pending s = Some t → t ∈ attempts) → Forall storable trees →
  let '(log, s') := sync_all trees s in
  let '(committed, attempted) := outcome tree attempts log in
  mounted s' committed ∧ (∀ t, pending s' = Some t → t ∈ attempted).
Proof.
  revert tree attempts s. induction trees as [|new trees IH]; intros tree attempts s Hm Hp Hst; [done|].
  apply Forall_cons in Hst as [Hnew Hst]. cbn [sync_all].
  pose proof (wp_sync_mounted tree new s Hm Hnew) as Hwp. unfold wp in Hwp.
  destruct (sync_tree new s) as [[[]|e] s1].
  - destruct Hwp as (Hm1 & Hp1 & _). specialize (IH new [] s1 Hm1).
    destruct (sync_all trees s1) as [log s2]. apply IH; [|done]. by rewrite Hp1.
  - destruct Hwp as (Hm1 & _ & Hp1 & _). specialize (IH tree (new :: attempts) s1 Hm1).
    destruct (sync_all trees s1) as [log s2]. apply IH; [|done]. intros t Ht.
    destruct Hp1 as [Hp1|[Hp1|Hp1]]; rewrite Hp1 in Ht; [right; by apply Hp|done|].
    simplify_eq. by left.
Qed.

(** ** Interrupted checkpoints *)

Lemma wp_write_payload_interrupted lba blob n indices s :
  n ∈ indices → sound s → (∀ i, i ∈ indices → addressable (lba + 1 + Z.of_nat i)) →
  wp (write_payload lba blob (Some (S n)) indices)
    (λ _ _, False) (λ e _, e = "injected interrupted checkpoint"%string) s.
Proof.
  revert s. induction indices as [|i indices IH]; intros s Hn Hs Hnum; [by apply elem_of_nil in Hn|].
  cbn [write_payload]. wp_step. apply wp_write; [apply Hnum; by left|apply length_payload_sector| |done].
  intros s1 _ _ Hr. case_decide as Hd; [done|]. apply IH; [|by apply Hr|intros k Hk; apply Hnum; by right].
  apply elem_of_cons in Hn as [->|]; [|done]. by destruct Hd.
Qed.

Lemma write_checkpoint_interrupted slot generation blob n s :
  is_slot slot → 0 <= generation <= u64_max → zlen blob <= MAX_METADATA_BYTES →
  (n < sectors_of (length blob))%nat → sound s →
  wp (write_checkpoint slot generation blob (Some (S n)))
    (λ _ _, False)
    (λ e s', e = "injected interrupted checkpoint"%string ∧ checkpoint_at (disk s') slot = None) s.
Proof.
  intros Hslot Hg Hlen Hn Hs.
  destruct (checkpoint_header_fields generation blob false) as (h0 & Hh0 & Hl0 & _ & _ & _ & _ & Hc0); [done|done|].
  unfold write_checkpoint. rewrite slot_lba_base, Hh0 by done. repeat wp_step.
  apply wp_write; [by apply base_addressable|done| |done]. intros s1 Hd1 _ Hr1. wp_step.
  assert (n ∈ seq 0 (sectors_of (length blob))) as Hin by (apply elem_of_seq; lia).
  assert (∀ i, i ∈ seq 0 (sectors_of (length blob)) → addressable (slot_base slot + 1 + Z.of_nat i)) as Hnum.
  { intros i Hi%elem_of_seq. pose proof (sectors_of_bound _ Hlen). rewrite <- Z.add_assoc. apply slot_addressable; [done|].
    unfold SLOT_SECTORS. lia. }
  eapply wp_mono; [apply wp_and; [by apply wp_write_payload|by apply wp_write_payload_interrupted; auto]| |].
  - by intros _ s2 [_ []].
  - intros e s2 [(Hsame & _) ->]. split; [done|]. apply uncommitted_none; [done|].
    unfold uncommitted. rewrite Hsame, Hd1, sector_at_insert, Hc0; [done|]. intros i _. lia.
Qed.

(** ** Formatting and migration *)

Lemma is_zero_sector_spec sec : length sec = 512%nat → is_zero_sector sec = true ↔ sec = zero_sector.
Proof.
  intros Hlen. unfold is_zero_sector. split; [|intros ->; by vm_compute].
  intros Hz. unfold zero_sector. rewrite <- Hlen. clear Hlen.
  induction sec as [|b sec IH]; [done|]. simpl in *. bool_hyps. f_equal; auto.
Qed.

(** The region has never been used: superblock and both slot headers are zero. *)
Definition unformatted s : Prop :=
  sector_at (disk s) SUPERBLOCK_LBA = zero_sector
  ∧ sector_at (disk s) SLOT_A_LBA = zero_sector ∧ sector_at (disk s) SLOT_B_LBA = zero_sector.

Lemma zero_header_none slot p : is_slot slot → sector_at p (slot_base slot) = zero_sector → checkpoint_at p slot = None.
Proof. intros Hs Hz. apply uncommitted_none; [done|]. unfold uncommitted. rewrite Hz. by vm_compute. Qed.

Lemma storable_empty_root : storable empty_root.
Proof. split_and!; [done|apply Nat.le_0_l|]. eexists. split; [done|]. by vm_compute. Qed.

Lemma wp_mount_blank s :
  sound s → unformatted s →
  wp mount (λ t s', t = empty_root ∧ mounted s' empty_root ∧ pending s' = None ∧ sound s') (λ _ _, False) s.
Proof.
  intros Hs (Hsb & Ha & Hb). unfold mount.
  eapply wp_reads_bind; [done|by apply reads_read|]. intros s1 (Hd1 & _) Hs1. rewrite Hsb. cbn [negb].
  replace (bool_decide (take 8 zero_sector = MAGIC)) with false by by vm_compute. cbn [negb].
  eapply wp_reads_bind; [done|by apply reads_read|]. intros s2 (Hd2 & _) Hs2. rewrite Hd1, Ha.
  eapply wp_reads_bind; [done|by apply reads_read|]. intros s3 (Hd3 & _) Hs3. rewrite Hd2, Hd1, Hb.
  replace (is_zero_sector zero_sector) with true by by vm_compute. cbn [negb orb].
  unfold format_region. wp_step. wp_step. apply wp_write; [done|by vm_compute| |done].
  intros s4 Hd4 _ Hs4. stores. rewrite Hd3, Hd2, Hd1 in Hd4.
  set (s5 := Tqfs _ _ _ _). cbn in s5.
  assert (disk s5 = disk s4 ∧ sound s5) as [Hd5 Hs5] by (split; [done|by apply Hs4]).
  eapply wp_mono; [apply (wp_sync_tree empty_root s5); [apply storable_empty_root|by right|done]| |].
  - intros _ s6 (Hact & Hgen & Hmax & Hv & _ & Hnew & Hold & Hsup & Hr). wp_step.
    change (active_slot s5) with 1 in *. change (generation s5) with 0 in *.
    change (format_version s5) with VERSION in *. change (1 - 1) with 0 in *. change (0 + 1) with 1 in *.
    change (VERSION =? VERSION) with true in Hsup.
    assert (checkpoint_at (disk s6) 1 = None) as Hnone.
    { rewrite Hold, Hd5, Hd4, checkpoint_at_low by done. apply zero_header_none; [by right|done]. }
    unfold mounted, pending. rewrite Hact, Hgen, Hv, Hsup, Hd5, Hd4, sector_at_insert, Hnew.
    change (1 - 0) with 1. rewrite Hnone. split_and!; try done; [by left|by apply Hr].
  - intros e s6 (_ & _ & _ & _ & _ & Hbad). exfalso. by destruct (Hbad Hs5).
Qed.

(** A mounted legacy (v2) volume: one copy of the tree in the legacy region, its
    length in the superblock, and no checkpoint in slot A. *)
Definition legacy_superblock (sb : list byte) : Prop :=
  take 8 sb = MAGIC ∧ le_u32 (slice sb 8 12) = LEGACY_VERSION
  ∧ le_u32 (slice sb 12 16) = LEGACY_METADATA_LBA ∧ le_u32 (slice sb 16 20) = LEGACY_METADATA_SECTORS
  ∧ read_metadata_len sb <= LEGACY_METADATA_SECTORS * 512.

Definition legacy_tree (p : gmap Z (list byte)) : option FsNode :=
  let len := read_metadata_len (sector_at p SUPERBLOCK_LBA) in
  let blob := bytes_at p (sectors_of (Z.to_nat len)) LEGACY_METADATA_LBA (Z.to_nat len) in
  if len =? 0 then Some empty_root
  else if (4 <=? zlen blob) && bool_decide (take 4 blob = TREE_MAGIC)
  then match deserialize_tree (drop 4 blob) with Ok tree => Some tree | Err _ => None end
  else None.

Definition mounted_legacy s tree : Prop :=
  format_version s = LEGACY_VERSION ∧ active_slot s = 0 ∧ generation s = 0
  ∧ legacy_superblock (sector_at (disk s) SUPERBLOCK_LBA)
  ∧ legacy_tree (disk s) = Some tree ∧ checkpoint_at (disk s) 0 = None.

Lemma wp_mount_legacy s tree :
  sound s → legacy_superblock (sector_at (disk s) SUPERBLOCK_LBA) →
  legacy_tree (disk s) = Some tree → checkpoint_at (disk s) 0 = None →
  wp mount (λ t s', t = tree ∧ mounted_legacy s' tree ∧ disk s' = disk s ∧ sound s') (λ _ _, False) s.
Proof.
  intros Hs Hsb Htree Hnone. pose proof Hsb as (Hmagic & Hver & Hlba & Hsec & Hlen). unfold mount.
  eapply wp_reads_bind; [done|by apply reads_read|]. intros s1 (Hd & _) Hs1.
  rewrite Hmagic, bool_decide_eq_true_2, Hver, Hlba, Hsec by done.
  change (LEGACY_VERSION =? VERSION) with false. rewrite !Z.eqb_refl. cbn [negb orb].
  rewrite (proj2 (Z.ltb_ge _ _)) by done. stores. set (s2 := Tqfs _ _ _ _). cbn in s2.
  assert (disk s2 = disk s ∧ sound s2) as [Hd2 Hs2] by (by rewrite <- Hd).
  assert (∀ s', unchanged s2 s' → mounted_legacy s' tree ∧ disk s' = disk s) as Hfin.
  { intros s' (Hd' & (Ha & Hg & Hf) & _). unfold mounted_legacy.
    rewrite Ha, Hg, Hf, Hd', Hd2. done. }
  unfold load_tree_at. unfold legacy_tree in Htree. set (len := read_metadata_len _) in *.
  destruct (len =? 0) eqn:Hl0.
  - wp_step. simplify_eq. split_and!; [done| | |done]; by apply Hfin.
  - eapply wp_reads_bind; [done|apply reads_metadata|].
    { unfold LEGACY_METADATA_SECTORS, MAX_METADATA_BYTES, SLOT_SECTORS in *. lia. }
    { intros i Hi. unfold addressable, LEGACY_METADATA_LBA, SLOT_SECTORS in *. lia. }
    intros s3 Hu3 Hs3. rewrite Hd2.
    destruct (_ && _) eqn:E in Htree; [|done]. bool_hyps.
    rewrite (proj2 (Z.ltb_ge _ 4)), bool_decide_eq_true_2 by done. cbn [negb orb].
    wp_step. destruct (deserialize_tree _); [|done]. simplify_eq.
    split_and!; [done| | |done]; by apply Hfin.
Qed.

(** The first sync of a legacy volume either upgrades it or leaves it, on the
    medium, at the old or the new tree. *)
Lemma wp_sync_legacy tree new s :
  mounted_legacy s tree → storable new →
  wp (sync_tree new)
    (λ _ s', mounted s' new ∧ pending s' = None ∧ (sound s → sound s'))
    (λ _ s', same_memory s s' ∧ ¬ sound s ∧
      ((legacy_superblock (sector_at (disk s') SUPERBLOCK_LBA) ∧ legacy_tree (disk s') = Some tree
        ∧ checkpoint_at (disk s') 0 = None)
       ∨ (v3_superblock (sector_at (disk s') SUPERBLOCK_LBA) ∧ recovered (disk s') = Some new))) s.
Proof.
  intros (Hf & Ha & Hg & Hsb & Htree & Hnone) Hst.
  eapply wp_mono; [apply wp_sync_tree; [done|by left|lia]| |]; rewrite Ha, Hg, Hf; cbn [Z.sub Z.add].
  - intros _ s' (Ha' & Hg' & Hmax & Hv & Hlow & Hnew & Hold & Hsup & Hr).
    change (1 - 0) with 1 in *. change (0 + 1) with 1 in *. change (LEGACY_VERSION =? VERSION) with false in Hsup.
    unfold mounted, pending. rewrite Ha', Hg', Hv, Hsup, Hnew. change (1 - 1) with 0. rewrite Hold, Hnone.
    split_and!; try done. by right.
  - intros e s' (Hmem & Hlow & Hout & Hold & Hsup & Hr). split_and!; [done|intros Hs; destruct (Hr Hs); done|].
    change (1 - 0) with 1 in *. change (0 + 1) with 1 in *.
    destruct Hsup as [Hsup|(_ & Hsup & Hnew)].
    + left. rewrite Hsup, Hold. split_and!; try done. rewrite <- Htree. unfold legacy_tree. rewrite Hsup.
      set (len := read_metadata_len _). destruct (len =? 0); [done|].
      rewrite (bytes_at_ext (disk s') (disk s)); [done|]. intros i Hi.
      destruct Hsb as (_ & _ & _ & _ & Hlen). fold len in Hlen.
      assert (sectors_of (Z.to_nat len) ≤ 248)%nat.
      { unfold sectors_of. apply Nat.lt_succ_r, Nat.Div0.div_lt_upper_bound.
        unfold LEGACY_METADATA_SECTORS in Hlen. lia. }
      apply Hlow; unfold LEGACY_METADATA_LBA, SLOT_A_LBA, SUPERBLOCK_LBA; lia.
    + right. rewrite Hsup. split; [apply build_superblock_v3|].
      unfold recovered, recover. by rewrite Hold, Hnone, Hnew.
Qed.
End specs.

(** ** Properties *)

Section properties.
Context {D : Type} `{BlockDeviceSpec D}.
Implicit Types (s : tqfs D).


(** on hardware that works, a sync of a storable tree succeeds, the volume is
    mounted at that tree, and a remount recovers exactly it. *)
Theorem sync_tree_commits s tree new :
  mounted s tree → storable new → sound s → generation s < u64_max →
  ∃ s', sync_tree new s = (Ok tt, s') ∧ mounted s' new ∧ pending s' = None
        ∧ recovered (disk s') = Some new.
Proof.
  intros Hm Hst Hs Hg. pose proof (wp_sync_mounted tree new s Hm Hst) as Hwp. unfold wp in Hwp.
  destruct (sync_tree new s) as [[[]|e] s'].
  - destruct Hwp as (Hm' & Hp' & _). exists s'. split_and!; try done.
    by rewrite (recovered_mounted s' new Hm'), Hp'.
  - destruct Hwp as (_ & _ & _ & Hbad). specialize (Hbad Hs). lia.
Qed.

(** a failing sync leaves the committed state alone: the in-memory slot and
    generation are unchanged, the active checkpoint is intact, and the tree the
    medium recovers to is what it was, the committed tree, or (when only the
    acknowledgement of the last write was lost) the new one. *)
Theorem sync_tree_error_keeps_committed s tree new e s' :
  mounted s tree → storable new → sync_tree new s = (Err e, s') →
  mounted s' tree ∧ same_memory s s'
  ∧ (recovered (disk s') = recovered (disk s) ∨ recovered (disk s') = Some tree
     ∨ recovered (disk s') = Some new).
Proof.
  intros Hm Hst Hsync. pose proof (wp_sync_mounted tree new s Hm Hst) as Hwp. unfold wp in Hwp.
  rewrite Hsync in Hwp. destruct Hwp as (Hm' & Hmem & Hp & _). split_and!; [done|done|].
  rewrite (recovered_mounted s' tree Hm'), (recovered_mounted s tree Hm).
  destruct Hp as [-> | [-> | ->]]; auto.
Qed.

(** The power-loss injection does what its comment says when the interruption
    point lies within the payload: the call reports the injected error, memory is
    untouched, and the medium recovers to the committed tree. *)
Theorem sync_tree_interrupted_keeps_committed s tree new n :
  mounted s tree → storable new → sound s → generation s < u64_max →
  (∀ blob, serialize_tree new = Ok blob → (n < sectors_of (length blob))%nat) →
  ∃ s', sync_tree_interrupted new (S n) s = (Err "injected interrupted checkpoint", s')
        ∧ mounted s' tree ∧ same_memory s s' ∧ recovered (disk s') = Some tree.
Proof.
  intros Hm Hst Hs Hg Hn. pose proof Hm as (Hf & Hsb & Hslot & Hgen & Hc & Hother).
  destruct (is_slot_other _ Hslot) as [Hisl Hne].
  destruct (storable_blob new Hst) as (blob & Hser & Hlen & Hmagic & Hdes). specialize (Hn blob Hser).
  assert (prepare_checkpoint new s = (Ok (blob, generation s + 1, 1 - active_slot s), s)) as Hprep.
  { unfold prepare_checkpoint, mlift, mensure, mbind, M_bind, mget. cbn. rewrite Hser. cbn.
    rewrite (proj2 (Z.ltb_ge _ _)) by done. cbn. unfold checked_add.
    rewrite (proj2 (Z.leb_le _ _)) by lia. cbn.
    by replace (Z.min (active_slot s) 1) with (active_slot s) by (destruct Hslot as [-> | ->]; done). }
  pose proof (wp_and _ _ _ _ _ s
    (wp_write_checkpoint (1 - active_slot s) (generation s + 1) blob new (Some (S n)) s Hisl ltac:(lia) Hlen Hmagic Hdes)
    (write_checkpoint_interrupted (1 - active_slot s) (generation s + 1) blob n s Hisl ltac:(lia) Hlen Hn Hs)) as Hwp.
  unfold sync_tree_interrupted, mbind, M_bind. rewrite Hprep. cbn. unfold mtry.
  unfold wp in Hwp. destruct (write_checkpoint _ _ _ _ s) as [[[]|e] s1]; [by destruct Hwp|].
  destruct Hwp as [(_ & Hsame & Hmem & _) [-> Hnone]]. exists s1. split; [done|].
  destruct (mounted_outcome s s1 tree new) as [Hm1 _]; try done.
  - by right; left.
  - by apply (checkpoint_at_outside (1 - active_slot s)).
  - apply Hsame. left. by apply slot_base_low.
  - split_and!; try done. rewrite (recovered_mounted s1 tree Hm1). unfold pending.
    destruct Hmem as (-> & -> & _). by rewrite Hnone.
Qed.

(** Mounting a region of zeros formats it: the mount returns the empty root and
    the volume is mounted at it with nothing pending. *)
Theorem mount_formats_blank s :
  sound s → unformatted s →
  ∃ s', mount s = (Ok empty_root, s') ∧ mounted s' empty_root ∧ pending s' = None.
Proof.
  intros Hs Hu. destruct (wp_Ok _ _ _ (wp_mount_blank s Hs Hu)) as (t & s' & Hmount & -> & Hm & Hp & _).
  eauto.
Qed.

(** Migrating a legacy v2 volume is atomic.  A sync that succeeds mounts the
    volume in the v3 format at the new tree; one that fails leaves the atomics
    alone and a medium whose remount finds the old tree through the legacy
    superblock or the new tree through the v3 one. *)
Theorem legacy_migration_atomic s tree new r s' :
  mounted_legacy s tree → storable new → sync_tree new s = (r, s') →
  match r with
  | Ok _ => mounted s' new ∧ recovered (disk s') = Some new
  | Err _ => same_memory s s' ∧
      ((legacy_superblock (sector_at (disk s') SUPERBLOCK_LBA) ∧ legacy_tree (disk s') = Some tree)
       ∨ (v3_superblock (sector_at (disk s') SUPERBLOCK_LBA) ∧ recovered (disk s') = Some new))
  end.
Proof.
  intros Hm Hst Hsync. pose proof (wp_sync_legacy tree new s Hm Hst) as Hwp. unfold wp in Hwp.
  rewrite Hsync in Hwp. destruct r as [[]|e].
  - destruct Hwp as (Hm' & Hp & _). split; [done|]. by rewrite (recovered_mounted s' new Hm'), Hp.
  - destruct Hwp as (Hmem & _ & Hcase). tauto.
Qed.
End properties.

(** *** Witnesses: a fresh volume on a simulated disk *)

Definition fresh : tqfs sim_disk := Tqfs blank_disk 0 0 VERSION.
Definition formatted : tqfs sim_disk := (mount fresh).2.
Definition with_faults (fs : list fault) (s : tqfs sim_disk) : tqfs sim_disk :=
  set_dev (SimDisk (raw (dev s)) fs) s.

Definition tree_a : FsNode := Dir [(bs "a", File (bs "first"))].
Definition tree_b : FsNode := Dir [(bs "b", Dir [(bs "c", File (bs "second"))])].

Lemma fresh_unformatted : unformatted fresh.
Proof. by vm_compute. Qed.

Lemma fresh_sound : sound fresh.
Proof. exact (Forall_nil_2 (λ f, f = Fine)). Qed.

Lemma fresh_mounts : ∃ s, mount fresh = (Ok empty_root, s) ∧ mounted s empty_root ∧ pending s = None ∧ sound s.
Proof.
  destruct (wp_Ok _ _ _ (wp_mount_blank fresh fresh_sound fresh_unformatted)) as (t & s & Hm & -> & ?).
  eauto.
Qed.

Lemma formatted_mounted : mounted formatted empty_root ∧ pending formatted = None ∧ sound formatted.
Proof. unfold formatted. destruct fresh_mounts as (s & -> & ?). done. Qed.

Lemma mounted_with_faults fs s tree : mounted s tree → mounted (with_faults fs s) tree ∧ pending (with_faults fs s) = pending s.
Proof. done. Qed.

Lemma storable_example tree :
  wf_tree tree = true → (record_count tree <=? 1024)%nat = true →
  match serialize_tree tree with Ok blob => zlen blob <=? MAX_METADATA_BYTES | Err _ => false end = true →
  storable tree.
Proof.
  intros Hwf Hc%Nat.leb_le Hs. split_and!; [done|done|].
  destruct (serialize_tree tree) as [blob|]; [|done]. exists blob. split; [done|]. by apply Z.leb_le.
Qed.

Lemma storable_a : storable tree_a.
Proof. by apply storable_example; vm_compute. Qed.

Lemma storable_b : storable tree_b.
Proof. by apply storable_example; vm_compute. Qed.

(** The first sync goes through; the second loses power on its third write. *)
Definition cut_run : tqfs sim_disk := with_faults [Fine; Fine; Fine; Fine; Fine; Lost] formatted.


(** In that run the first tree is the one recovered. *)
Lemma crash_recovery_example : fst (mount (with_faults [] (sync_all [tree_a; tree_b] cut_run).2)) = Ok tree_a.
Proof. by vm_compute. Qed.

Lemma sync_tree_commits_witness :
  ∃ s', sync_tree tree_a formatted = (Ok tt, s') ∧ mounted s' tree_a ∧ pending s' = None
        ∧ recovered (disk s') = Some tree_a.
Proof.
  destruct formatted_mounted as (Hm & Hp & Hs).
  apply (sync_tree_commits formatted empty_root tree_a); [done|apply storable_a|done|by vm_compute].
Defined.

Lemma sync_tree_error_keeps_committed_witness :
  let s := with_faults [Fine; Fine; Late] formatted in
  mounted (sync_tree tree_a s).2 empty_root ∧ same_memory s (sync_tree tree_a s).2
  ∧ (recovered (disk (sync_tree tree_a s).2) = recovered (disk s)
     ∨ recovered (disk (sync_tree tree_a s).2) = Some empty_root
     ∨ recovered (disk (sync_tree tree_a s).2) = Some tree_a).
Proof.
  destruct formatted_mounted as (Hm & Hp & Hs).
  apply (sync_tree_error_keeps_committed (with_faults [Fine; Fine; Late] formatted) empty_root tree_a "ata error");
    [by apply mounted_with_faults|apply storable_a|by vm_compute].
Defined.

Lemma sync_tree_interrupted_keeps_committed_witness :
  ∃ s', sync_tree_interrupted tree_a 1 formatted = (Err "injected interrupted checkpoint", s')
        ∧ mounted s' empty_root ∧ same_memory formatted s' ∧ recovered (disk s') = Some empty_root.
Proof.
  destruct formatted_mounted as (Hm & Hp & Hs).
  apply (sync_tree_interrupted_keeps_committed formatted empty_root tree_a 0);
    [done|apply storable_a|done|by vm_compute|].
  intros blob [= <-]. by vm_compute; apply Nat.leb_le.
Defined.

Lemma mount_formats_blank_witness :
  ∃ s', mount fresh = (Ok empty_root, s') ∧ mounted s' empty_root ∧ pending s' = None.
Proof. apply (mount_formats_blank fresh); [apply fresh_sound|by vm_compute]. Defined.

(** A v2 volume whose tree is empty (metadata length 0). *)
Definition legacy_sector : list byte :=
  copy_at 16 (le_encode 4 LEGACY_METADATA_SECTORS) (copy_at 12 (le_encode 4 LEGACY_METADATA_LBA)
    (copy_at 8 (le_encode 4 LEGACY_VERSION) (copy_at 0 MAGIC zero_sector))).
Definition legacy_volume (fs : list fault) : tqfs sim_disk :=
  Tqfs (SimDisk {[SUPERBLOCK_LBA := legacy_sector]} fs) 0 0 LEGACY_VERSION.

Lemma legacy_migration_atomic_witness :
  let s := legacy_volume [Fine; Fine; Fine; Lost] in
  same_memory s (sync_tree tree_a s).2 ∧
  ((legacy_superblock (sector_at (disk (sync_tree tree_a s).2) SUPERBLOCK_LBA)
    ∧ legacy_tree (disk (sync_tree tree_a s).2) = Some empty_root)
   ∨ (v3_superblock (sector_at (disk (sync_tree tree_a s).2) SUPERBLOCK_LBA)
      ∧ recovered (disk (sync_tree tree_a s).2) = Some tree_a)).
Proof.
  apply (legacy_migration_atomic (legacy_volume [Fine; Fine; Fine; Lost]) empty_root tree_a (Err "ata error"));
    [by vm_compute|apply storable_a|by vm_compute].
Defined.

(** *** Findings *)

(** Formatting is not crash safe.  The superblock goes out before the first
    checkpoint, so a power cut between them leaves a region with a valid superblock
    and no checkpoint, which no later mount accepts or formats again. *)
Theorem interrupted_format_never_mounts :
  let cut := (mount (with_faults [Fine; Fine; Fine; Fine; Lost] fresh)).2 in
  is_err (mount (with_faults [Fine; Fine; Fine; Fine; Lost] fresh)).1 = true
  ∧ (mount (with_faults [] cut)).1 = Err "no valid committed TuwaiqFS checkpoint"
  ∧ (mount (with_faults [] (mount (with_faults [] cut)).2)).1 = Err "no valid committed TuwaiqFS checkpoint".
Proof. by vm_compute. Qed.

(** An interruption point outside the payload (0, or past its last sector)
    commits the checkpoint although the call reports an error: on the next mount the
    medium recovers to the tree of the "interrupted" sync. *)
Theorem interrupted_past_payload_commits :
  let s := (sync_tree_interrupted tree_a 0 formatted).2 in
  (sync_tree_interrupted tree_a 0 formatted).1 = Err "interruption point exceeded checkpoint length"
  ∧ same_memory formatted s ∧ (mount (with_faults [] s)).1 = Ok tree_a.
Proof. by vm_compute. Qed.
