(* ===== verification/Fs.v ===== *)
(** The in-memory filesystem of kernel/src/fs.rs: the [Entry] tree, the path
    operations on it, and the publish-after-persist protocol of
    [mutate_and_persist] over the store of TuwaiqFs.v.

    [Arc] sharing is invisible to the operations: contents are immutable behind
    it and the tree is cloned before every mutation, so an [Entry] is a value.
    The module's statics [FS] and [WRITER_ACTIVE] are fields of [fs_state]. *)

From S2P Require Import Prelude Str Device Tree TuwaiqTree TuwaiqFs.

(** [enum Entry] *)
Inductive Entry : Type :=
| EFile (content : list byte)
| EDir (children : list (str * Entry)).

Definition Entry_ind' (P : Entry → Prop)
  (HFile : ∀ content, P (EFile content))
  (HDir : ∀ children, Forall (λ c, P c.2) children → P (EDir children)) : ∀ entry, P entry :=
  fix go entry :=
    match entry with
    | EFile content => HFile content
    | EDir children =>
        HDir children ((fix go_children ch : Forall (λ c, P c.2) ch :=
          match ch with
          | [] => Forall_nil_2 _
          | c :: rest => Forall_cons_2 _ c rest (go c.2) (go_children rest)
          end) children)
    end.

#[global] Instance Entry_tree : DirTree Entry := {
  dir_of entry := match entry with EDir children => Some children | EFile _ => None end;
  mk_dir := EDir;
}.

#[global] Instance Entry_tree_spec : DirTreeSpec Entry.
Proof. split; [done|]. by intros [] ? [= <-]. Qed.

Record FileSystem := { root : Entry }.

Inductive EntryKind := KFile | KDirectory.
#[global] Instance EntryKind_eq_decision : EqDecision EntryKind.
Proof. solve_decision. Defined.

Record EntryMetadata := { kind : EntryKind; size : Z }.

(** ** Conversion from and to the stored tree *)

Fixpoint from_fs_node (node : FsNode) : Entry :=
  match node with
  | File content => EFile content
  | Dir children => EDir ((λ '(name, child), (name, from_fs_node child)) <$> children)
  end.

Fixpoint to_fs_node (entry : Entry) : FsNode :=
  match entry with
  | EFile content => File content
  | EDir children => Dir ((λ '(name, child), (name, to_fs_node child)) <$> children)
  end.

(** ** Paths and walks *)

Definition split_absolute_path (path : str) : result (list str) :=
  if starts_with [slash] path then Ok (components path) else Err "backend path must be absolute".

(** [find_child] and [find_child_mut]: the child and, for the mutable walk, where
    it sits. *)
Definition find_child (node : Entry) (name : str) : result (nat * Entry) :=
  match node with
  | EDir children => ok_or (find_entry name children) "entry not found"
  | EFile _ => Err "not a directory"
  end.

Fixpoint entry_at (node : Entry) (path : list str) : result Entry :=
  match path with
  | [] => Ok node
  | part :: rest => '(_, child) ← find_child node part; entry_at child rest
  end.

Definition children_at (node : Entry) (path : list str) : result (list (str * Entry)) :=
  entry ← entry_at node path;
  match entry with EDir children => Ok children | EFile _ => Err "not a directory" end.

(** [children_at_mut] together with what the caller does through the borrow: [f]
    sees the children and returns their new value. *)
Fixpoint children_at_mut (node : Entry) (path : list str)
    (f : list (str * Entry) → result (list (str * Entry))) : result Entry :=
  match path with
  | [] =>
      match node with
      | EDir children => children ← f children; Ok (EDir children)
      | EFile _ => Err "not a directory"
      end
  | part :: rest =>
      '(i, child) ← find_child node part;
      child ← children_at_mut child rest f;
      match node with
      | EDir children => Ok (EDir (set_entry i part child children))
      | EFile _ => Err "not a directory"
      end
  end.

Definition parent_and_name (path : str) : result (list str * str) :=
  parts ← split_absolute_path path;
  name ← ok_or (last parts) "root has no entry name";
  Ok (take (length parts - 1) parts, name).

(** ** The operations of [impl FileSystem] *)

Definition kind_at (fs : FileSystem) (path : str) : result EntryKind :=
  parts ← split_absolute_path path;
  entry ← entry_at (root fs) parts;
  match entry with EFile _ => Ok KFile | EDir _ => Ok KDirectory end.

Definition display_name : str * Entry → str :=
  λ '(name, entry), match entry with EDir _ => name ++ [slash] | EFile _ => name end.

Definition list_at (fs : FileSystem) (path : str) : result (list str) :=
  parts ← split_absolute_path path;
  children ← children_at (root fs) parts;
  Ok (display_name <$> (children : list (str * Entry))).

Definition read_at (fs : FileSystem) (path : str) : result (list byte) :=
  parts ← split_absolute_path path;
  if bool_decide (parts = []) then Err "is a directory"
  else
    entry ← entry_at (root fs) parts;
    match entry with EFile content => Ok content | EDir _ => Err "is a directory" end.

Definition metadata_at (fs : FileSystem) (path : str) : result EntryMetadata :=
  parts ← split_absolute_path path;
  entry ← entry_at (root fs) parts;
  match entry with
  | EFile content => Ok {| kind := KFile; size := zlen content |}
  | EDir children => Ok {| kind := KDirectory; size := zlen children |}
  end.

Definition set_root (r : result Entry) : result FileSystem := e ← r; Ok {| root := e |}.

Definition create_at (entry : Entry) (fs : FileSystem) (path : str) : result FileSystem :=
  '(parent, name) ← parent_and_name path;
  set_root (children_at_mut (root fs) parent (λ children,
    if has_entry name children then Err "file or directory already exists"
    else Ok (children ++ [(name, entry)]))).

Definition create_file_at : FileSystem → str → result FileSystem := create_at (EFile []).
Definition create_dir_at : FileSystem → str → result FileSystem := create_at (EDir []).

Definition write_at (fs : FileSystem) (path : str) (bytes : list byte) : result FileSystem :=
  if MAX_FILE_SIZE <? zlen bytes then Err "file too large"
  else
    '(parent, name) ← parent_and_name path;
    set_root (children_at_mut (root fs) parent (λ children,
      match find_entry name children with
      | Some (i, EFile _) => Ok (set_entry i name (EFile bytes) children)
      | Some (_, EDir _) => Err "is a directory"
      | None => Ok (children ++ [(name, EFile bytes)])
      end)).

Definition remove_at (fs : FileSystem) (path : str) : result FileSystem :=
  '(parent, name) ← parent_and_name path;
  set_root (children_at_mut (root fs) parent (λ children,
    '(index, entry) ← ok_or (find_entry name children) "entry not found";
    match entry with
    | EDir (_ :: _) => Err "directory not empty"
    | _ => Ok (remove_entry index children)
    end)).

(** The mutations the module exports, each handed to [mutate_and_persist]. *)
Inductive fs_op :=
| CreateFile (path : str)
| CreateDir (path : str)
| Write (path : str) (bytes : list byte)
| Remove (path : str).

Definition op_path (op : fs_op) : str :=
  match op with CreateFile p | CreateDir p | Write p _ | Remove p => p end.

Definition apply_op (op : fs_op) (fs : FileSystem) : result FileSystem :=
  match op with
  | CreateFile path => create_file_at fs path
  | CreateDir path => create_dir_at fs path
  | Write path bytes => write_at fs path bytes
  | Remove path => remove_at fs path
  end.

(** ** The abstract filesystem: a map from component lists to nodes *)

Inductive anode :=
| AFile (content : list byte)
| ADir (names : list str).

Definition aview : Type := list str → option anode.

#[global] Instance aview_equiv : Equiv aview := λ v w, ∀ q, v q = w q.
#[global] Instance aview_equivalence : Equivalence (≡@{aview}).
Proof. split; [done|intros v w H q; by rewrite H|intros u v w H1 H2 q; by rewrite H1]. Qed.

Definition summary (entry : Entry) : anode :=
  match entry with EFile content => AFile content | EDir children => ADir children.*1 end.

(** What the tree looks like from outside. *)
Definition view (fs : FileSystem) : aview := λ q, summary <$> node_at (root fs) q.

Definition upd (q : list str) (n : option anode) (v : aview) : aview :=
  λ q', if decide (q' = q) then n else v q'.

(** Walking in the abstract: every proper prefix must be a directory. *)
Fixpoint spec_entry (v : aview) (pre rest : list str) : result anode :=
  match v pre with
  | None => Err "entry not found"
  | Some n =>
      match rest, n with
      | [], _ => Ok n
      | part :: rest, ADir _ => spec_entry v (pre ++ [part]) rest
      | _ :: _, AFile _ => Err "not a directory"
      end
  end.

Definition spec_dir (v : aview) (parent : list str) : result (list str) :=
  n ← spec_entry v [] parent;
  match n with ADir names => Ok names | AFile _ => Err "not a directory" end.

Definition spec_add (parent : list str) (name : str) (names : list str) (n : anode) (v : aview) : aview :=
  upd (parent ++ [name]) (Some n) (upd parent (Some (ADir (names ++ [name]))) v).

Definition spec_op (op : fs_op) (v : aview) : result aview :=
  match op with
  | CreateFile path | CreateDir path =>
      '(parent, name) ← parent_and_name path;
      names ← spec_dir v parent;
      match v (parent ++ [name]) with
      | Some _ => Err "file or directory already exists"
      | None => Ok (spec_add parent name names (match op with CreateDir _ => ADir [] | _ => AFile [] end) v)
      end
  | Write path bytes =>
      if MAX_FILE_SIZE <? zlen bytes then Err "file too large"
      else
        '(parent, name) ← parent_and_name path;
        names ← spec_dir v parent;
        match v (parent ++ [name]) with
        | Some (AFile _) => Ok (upd (parent ++ [name]) (Some (AFile bytes)) v)
        | Some (ADir _) => Err "is a directory"
        | None => Ok (spec_add parent name names (AFile bytes) v)
        end
  | Remove path =>
      '(parent, name) ← parent_and_name path;
      names ← spec_dir v parent;
      match v (parent ++ [name]) with
      | None => Err "entry not found"
      | Some (ADir (_ :: _)) => Err "directory not empty"
      | Some _ => Ok (upd (parent ++ [name]) None
                       (upd parent (Some (ADir (filter (λ n, n ≠ name) names))) v))
      end
  end.

Definition spec_read (path : str) (v : aview) : result (list byte) :=
  parts ← split_absolute_path path;
  n ← spec_entry v [] parts;
  match n with AFile content => Ok content | ADir _ => Err "is a directory" end.

Definition spec_list (path : str) (v : aview) : result (list str) :=
  parts ← split_absolute_path path;
  names ← spec_dir v parts;
  Ok ((λ name, match v (parts ++ [name]) with Some (ADir _) => name ++ [slash] | _ => name end) <$> (names : list str)).

Definition spec_metadata (path : str) (v : aview) : result (EntryKind * Z) :=
  parts ← split_absolute_path path;
  n ← spec_entry v [] parts;
  match n with
  | AFile content => Ok (KFile, zlen content)
  | ADir names => Ok (KDirectory, zlen names)
  end.

(** Both sides succeed with related states or fail with the same reason. *)
Definition agree (r : result FileSystem) (r' : result aview) : Prop :=
  match r, r' with
  | Ok fs, Ok v => view fs ≡ v
  | Err e, Err e' => e = e'
  | _, _ => False
  end.

(** ** Walking agrees with the abstract walk *)

Lemma find_child_Ok node name i child :
  find_child node name = Ok (i, child) ↔ ∃ ch, dir_of node = Some ch ∧ find_entry name ch = Some (i, child).
Proof. destruct node as [|ch]; simpl; [naive_solver|]. rewrite ok_or_Ok. naive_solver. Qed.

Lemma entry_at_node node path e : entry_at node path = Ok e ↔ node_at node path = Some e.
Proof.
  revert node. induction path as [|part rest IH]; intros node; [simpl; naive_solver|].
  rewrite node_at_cons. cbn [entry_at]. rewrite bind_Ok. split.
  - intros ([i child] & (ch & Hd & Hf)%find_child_Ok & He%IH). eauto 10.
  - intros (ch & i & child & Hd & Hf & He). exists (i, child). split; [apply find_child_Ok; eauto|by apply IH].
Qed.

Lemma children_at_mut_entry node path f :
  children_at_mut node path f =
    (e ← entry_at node path;
     match e with
     | EDir ch => ch' ← f ch; Ok (set_at node path (EDir ch'))
     | EFile _ => Err "not a directory"
     end).
Proof.
  revert node. induction path as [|part rest IH]; intros node; [by destruct node|].
  cbn [children_at_mut entry_at]. destruct (find_child node part) as [[i child]|e] eqn:Hf; [|done].
  cbn [mbind result_bind]. rewrite IH.
  apply find_child_Ok in Hf as (ch & Hd & Hf). destruct node as [|ch0]; simplify_eq/=.
  destruct (entry_at child rest) as [[c|chs]|]; simpl; try done.
  destruct (f chs); simpl; [|done]. by rewrite Hf.
Qed.

Lemma spec_entry_from v node pre rest :
  (∀ q, v (pre ++ q) = summary <$> node_at node q) →
  spec_entry v pre rest = summary <$> entry_at node rest.
Proof.
  revert node pre. induction rest as [|part rest IH]; intros node pre Hv; cbn [spec_entry entry_at];
    pose proof (Hv []) as H0; rewrite app_nil_r in H0; rewrite H0; [done|].
  destruct node as [content|ch]; [done|]. cbn [summary fmap option_fmap option_map find_child].
  destruct (find_entry part ch) as [[i child]|] eqn:Hf; cbn.
  - apply IH. intros q. rewrite <- app_assoc. cbn [app]. rewrite Hv. cbn. by rewrite Hf.
  - specialize (Hv [part]). cbn in Hv. rewrite Hf in Hv. cbn in Hv.
    destruct rest; cbn; by rewrite Hv.
Qed.

Lemma spec_entry_view fs path : spec_entry (view fs) [] path = summary <$> entry_at (root fs) path.
Proof. by apply spec_entry_from. Qed.

(** ** The effect of replacing a directory's children *)

(** A node without descendants. *)
Definition leaf (e : option Entry) : Prop :=
  match e with Some (EDir (_ :: _)) => False | _ => True end.

Lemma node_at_leaf e part rest : leaf (Some e) → node_at e (part :: rest) = None.
Proof. by destruct e as [|[|]]. Qed.

Lemma node_at_EDir ch m r : node_at (EDir ch) (m :: r) = (c ← snd <$> find_entry m ch; node_at c r).
Proof. simpl. by destruct (find_entry m ch) as [[? ?]|]. Qed.

(** Where a path lies with respect to another. *)
Lemma path_cases (p q : list str) :
  (∃ r, q = p ++ r) ∨ (∃ a r, p = q ++ a :: r)
  ∨ ∃ pre a b s s', p = pre ++ a :: s ∧ q = pre ++ b :: s' ∧ a ≠ b.
Proof.
  revert q. induction p as [|a p IH]; intros q; [left; by exists q|].
  destruct q as [|b q]; [right; left; by exists a, p|].
  destruct (decide (a = b)) as [->|Hab]; [|right; right; by exists [], a, b, p, q].
  destruct (IH q) as [(r & ->)|[(c & r & ->)|(pre & c & d & s & s' & -> & -> & Hcd)]].
  - left. by exists r.
  - right; left. by exists c, r.
  - right; right. by exists (b :: pre), c, d, s, s'.
Qed.

Lemma summary_set_at_above (t : Entry) q a r w new :
  node_at t (q ++ a :: r) = Some w →
  summary <$> node_at (set_at t (q ++ a :: r) new) q = summary <$> node_at t q.
Proof.
  intros Hw. rewrite node_at_app in Hw. apply bind_Some in Hw as (u & Hu & Hw).
  erewrite set_at_app, node_at_set_at by done. rewrite Hu.
  apply node_at_cons in Hw as (ch & i & child & Hd & Hf & Hc). cbn [set_at]. rewrite Hd, Hf.
  destruct u as [|ch0]; [done|]. simpl in Hd. simplify_eq. simpl. by rewrite (set_entry_names _ _ _ _ _ Hf).
Qed.

(** Changing at most the leaf [name] of the directory at [parent]. *)
Lemma view_replace fs parent name ch ch' (e e' : option Entry) :
  node_at (root fs) parent = Some (EDir ch) →
  snd <$> find_entry name ch = e → snd <$> find_entry name ch' = e' → leaf e → leaf e' →
  (∀ m, m ≠ name → snd <$> find_entry m ch' = snd <$> find_entry m ch) →
  view {| root := set_at (root fs) parent (EDir ch') |}
  ≡ upd (parent ++ [name]) (summary <$> e') (upd parent (Some (ADir ch'.*1)) (view fs)).
Proof.
  intros Hdir He He' Hl Hl' Hother q. unfold upd, view. cbn [root].
  destruct (path_cases parent q) as [(r & ->)|[(a & r & ->)|(pre & a & b & s & s' & -> & -> & Hab)]].
  - destruct r as [|m r].
    { rewrite app_nil_r, decide_False, decide_True by (try done; intros E%(f_equal length); rewrite length_app in E; simpl in E; lia).
      by rewrite (node_at_set_at _ _ _ _ Hdir). }
    rewrite !node_at_app, (node_at_set_at _ _ _ _ Hdir), Hdir. cbn [mbind option_bind].
    rewrite !node_at_EDir.
    rewrite (decide_False (P := parent ++ m :: r = parent))
      by (intros E%(f_equal length); rewrite length_app in E; simpl in E; lia).
    destruct (decide (m = name)) as [->|Hm].
    + rewrite He, He'. destruct r as [|m' r].
      * rewrite decide_True by done. by destruct e'.
      * rewrite decide_False by (intros E%app_inv_head; done).
        destruct e as [c|], e' as [c'|]; cbn [mbind option_bind]; by rewrite ?node_at_leaf.
    + rewrite decide_False by (intros E%app_inv_head; simplify_eq). by rewrite Hother.
  - rewrite !decide_False; [by eapply summary_set_at_above| |];
      intros E%(f_equal length); rewrite ?length_app in E; simpl in E; lia.
  - rewrite (node_at_set_at_ne (root fs) (pre ++ a :: s) _ pre a b s s') by done.
    rewrite !decide_False; [done| |].
    + intros E%app_inv_head. simplify_eq.
    + rewrite <- app_assoc. intros E%app_inv_head. by simplify_eq/=.
Qed.

(** ** Every directory's names stay distinct *)

Fixpoint distinct (entry : Entry) : bool :=
  match entry with
  | EFile _ => true
  | EDir children => bool_decide (NoDup children.*1) && forallb (λ '(_, child), distinct child) children
  end.

Lemma distinct_dir children :
  distinct (EDir children) = true ↔ NoDup children.*1 ∧ Forall (λ c, distinct c.2 = true) children.
Proof.
  simpl. rewrite andb_true_iff, bool_decide_eq_true, forallb_forall, Forall_forall.
  setoid_rewrite <- list_elem_of_In. split; intros [? Hc]; split; try done.
  - intros [n c] Hin. by apply (Hc (n, c)).
  - intros [n c] Hin. by apply (Hc (n, c)).
Qed.

Lemma node_at_distinct e q e' : distinct e = true → node_at e q = Some e' → distinct e' = true.
Proof.
  revert e. induction q as [|part rest IH]; intros e He; [by intros [= <-]|].
  intros (ch & i & child & Hd & Hf & Hn)%node_at_cons. destruct e as [|ch0]; simplify_eq/=.
  apply distinct_dir in He as [_ Hch]. rewrite Forall_forall in Hch.
  eapply IH; [|done]. by apply (Hch _ (find_entry_elem _ _ _ _ Hf)).
Qed.

(** ** Each mutation refines its specification *)

Lemma spec_dir_view fs parent :
  spec_dir (view fs) parent =
    (e ← entry_at (root fs) parent;
     match e with EDir ch => Ok ch.*1 | EFile _ => Err "not a directory" end).
Proof. unfold spec_dir. rewrite spec_entry_view. by destruct (entry_at (root fs) parent) as [[]|]. Qed.

Lemma view_child fs parent ch name :
  node_at (root fs) parent = Some (EDir ch) →
  view fs (parent ++ [name]) = summary <$> (snd <$> find_entry name ch).
Proof.
  intros Hd. unfold view. rewrite node_at_app, Hd. cbn [mbind option_bind].
  rewrite node_at_EDir. by destruct (find_entry name ch) as [[? ?]|].
Qed.

Lemma find_entry_snoc_ne {A} (m name : str) (x : A) ch :
  m ≠ name → snd <$> find_entry m (ch ++ [(name, x)]) = snd <$> find_entry m ch.
Proof.
  intros Hm. destruct (find_entry m ch) as [[i y]|] eqn:Hf.
  - by rewrite (find_entry_app_Some _ _ _ _ _ Hf).
  - rewrite find_entry_app_None by (by apply find_entry_None).
    rewrite find_entry_cons, decide_False by congruence. done.
Qed.

(** Pushing a new leaf. *)
Lemma view_push fs parent name ch e :
  node_at (root fs) parent = Some (EDir ch) → name ∉ ch.*1 → leaf (Some e) →
  view {| root := set_at (root fs) parent (EDir (ch ++ [(name, e)])) |}
  ≡ spec_add parent name ch.*1 (summary e) (view fs).
Proof.
  intros Hd Hn Hl. rewrite (view_replace fs parent name ch _ None (Some e)); [|done|..].
  - unfold spec_add. by rewrite fmap_app.
  - by rewrite (proj2 (find_entry_None _ _) Hn).
  - by rewrite find_entry_snoc.
  - done.
  - done.
  - intros m Hm. by apply find_entry_snoc_ne.
Qed.

(** Overwriting a file. *)
Lemma view_overwrite fs parent name ch i c bytes :
  node_at (root fs) parent = Some (EDir ch) → find_entry name ch = Some (i, EFile c) →
  view {| root := set_at (root fs) parent (EDir (set_entry i name (EFile bytes) ch)) |}
  ≡ upd (parent ++ [name]) (Some (AFile bytes)) (view fs).
Proof.
  intros Hd Hf. rewrite (view_replace fs parent name ch _ (Some (EFile c)) (Some (EFile bytes))); [|done|..].
  - intros q. unfold upd. case_decide; [done|]. case_decide as Hq; [|done]. subst q.
    unfold view. rewrite Hd. simpl. by rewrite (set_entry_names _ _ _ _ _ Hf).
  - by rewrite Hf.
  - by rewrite (find_set_entry _ _ _ _ _ Hf).
  - done.
  - done.
  - intros m Hm. by rewrite (find_set_entry_ne _ _ _ _ _ _ Hf).
Qed.

(** Removing a leaf. *)
Lemma view_remove fs parent name ch i e :
  node_at (root fs) parent = Some (EDir ch) → NoDup ch.*1 → find_entry name ch = Some (i, e) → leaf (Some e) →
  view {| root := set_at (root fs) parent (EDir (remove_entry i ch)) |}
  ≡ upd (parent ++ [name]) None (upd parent (Some (ADir (filter (λ n, n ≠ name) ch.*1))) (view fs)).
Proof.
  intros Hd Hnd Hf Hl. rewrite (view_replace fs parent name ch _ (Some e) None); [|done|..].
  - assert ((remove_entry i ch).*1 = filter (λ n, n ≠ name) ch.*1) as ->; [|done].
    destruct (remove_entry_NoDup _ _ _ _ Hnd Hf) as [_ Hnin].
    destruct (remove_entry_names _ _ _ _ Hf) as (l & r & -> & _ & Hr). rewrite Hr in *.
    rewrite !fmap_app, fmap_cons, filter_app, filter_cons_False by naive_solver.
    rewrite fmap_app in Hnin. rewrite <- filter_app, filter_all; [done|].
    apply Forall_forall. by intros n Hn ->.
  - by rewrite Hf.
  - destruct (remove_entry_NoDup _ _ _ _ Hnd Hf) as [_ Hnin]. by rewrite (proj2 (find_entry_None _ _) Hnin).
  - done.
  - done.
  - intros m Hm. by eapply find_remove_entry_ne.
Qed.

Lemma leaf_new (op : fs_op) : leaf (Some (EFile [])) ∧ leaf (Some (EDir [])).
Proof. done. Qed.

(** Shared head of every mutation: split the path and walk to the parent. *)
Ltac walk_parent fs :=
  destruct (parent_and_name _) as [[parent name]|]; [|done];
  cbn [mbind result_bind set_root]; rewrite children_at_mut_entry, spec_dir_view;
  destruct (entry_at (root fs) parent) as [[content|ch]|] eqn:Hparent; [done| |done];
  apply entry_at_node in Hparent; cbn [mbind result_bind];
  rewrite (view_child fs parent ch name Hparent).

Lemma create_refines e fs path :
  leaf (Some e) →
  agree (create_at e fs path)
    ('(parent, name) ← parent_and_name path;
     names ← spec_dir (view fs) parent;
     match view fs (parent ++ [name]) with
     | Some _ => Err "file or directory already exists"
     | None => Ok (spec_add parent name names (summary e) (view fs))
     end).
Proof.
  intros Hl. unfold create_at, set_root. walk_parent fs. unfold has_entry.
  destruct (find_entry name ch) as [[i c]|] eqn:Hf; simpl; [done|].
  apply view_push; [done|by apply find_entry_None|done].
Qed.

Lemma write_refines fs path bytes : agree (write_at fs path bytes) (spec_op (Write path bytes) (view fs)).
Proof.
  unfold write_at. cbn [spec_op]. destruct (MAX_FILE_SIZE <? zlen bytes); [done|].
  unfold set_root. walk_parent fs.
  destruct (find_entry name ch) as [[i [c|chs]]|] eqn:Hf; simpl; [|done|].
  - by eapply view_overwrite.
  - apply view_push; [done|by apply find_entry_None|done].
Qed.

Lemma remove_refines fs path :
  distinct (root fs) = true → agree (remove_at fs path) (spec_op (Remove path) (view fs)).
Proof.
  intros Hdist. unfold remove_at. cbn [spec_op]. unfold set_root. walk_parent fs.
  pose proof (node_at_distinct _ _ _ Hdist Hparent) as [Hnd _]%distinct_dir.
  destruct (find_entry name ch) as [[i [c|[|[n c] chs]]]|] eqn:Hf; simpl; try done.
  - by eapply view_remove.
  - by eapply view_remove.
Qed.

(** ** Mutations preserve well-formedness *)

(** What [normalize] guarantees of the paths it hands to the backend: slash-joined
    valid names of at most 120 bytes. *)
Definition canonical (path : str) : Prop :=
  ∃ parts, path = absolute parts ∧ valid_parts parts ∧ zlen path <= 120.

Lemma to_fs_node_dir children : to_fs_node (EDir children) = Dir ((λ c, (c.1, to_fs_node c.2)) <$> children).
Proof. simpl. f_equal. apply list_fmap_ext. by intros ? [? ?]. Qed.

Lemma to_from_fs_node node : to_fs_node (from_fs_node node) = node.
Proof.
  induction node as [content|children IH] using FsNode_ind'; [done|]. simpl. f_equal.
  rewrite <- list_fmap_compose. rewrite <- (list_fmap_id children) at 2. apply list_fmap_ext.
  intros i [n c] Hi. rewrite Forall_forall in IH. simpl. f_equal.
  apply (IH (n, c)). by eapply list_elem_of_lookup_2.
Qed.

Lemma from_to_fs_node entry : from_fs_node (to_fs_node entry) = entry.
Proof.
  induction entry as [content|children IH] using Entry_ind'; [done|]. simpl. f_equal.
  rewrite <- list_fmap_compose. rewrite <- (list_fmap_id children) at 2. apply list_fmap_ext.
  intros i [n c] Hi. rewrite Forall_forall in IH. simpl. f_equal.
  apply (IH (n, c)). by eapply list_elem_of_lookup_2.
Qed.

(** The entry at [path] is storable there. *)
Definition wf_entry (path : str) (entry : Entry) : bool := wf_node path (to_fs_node entry).

Lemma wf_entry_dir path children :
  wf_entry path (EDir children) = true ↔
  zlen path <= 120 ∧ NoDup children.*1
  ∧ Forall (λ c, valid_name c.1 = true ∧ wf_entry (join_path path c.1) c.2 = true) children.
Proof.
  unfold wf_entry. rewrite to_fs_node_dir, wf_node_dir, <- list_fmap_compose, Forall_fmap. done.
Qed.

Lemma wf_entry_distinct path entry : wf_entry path entry = true → distinct entry = true.
Proof.
  revert path. induction entry as [content|children IH] using Entry_ind'; intros path; [done|].
  intros (_ & Hnd & Hch)%wf_entry_dir. apply distinct_dir. split; [done|].
  rewrite Forall_forall in *. intros c Hc. destruct (Hch c Hc) as [_ Hwf]. by eapply IH.
Qed.

(** Replacing the children of a directory reached through [parent] by others that
    are well formed there keeps the tree well formed. *)
Lemma wf_set_at parent : ∀ base t ch ch',
  valid_parts base → wf_entry (join_components base) t = true → node_at t parent = Some (EDir ch) →
  NoDup ch'.*1 →
  (∀ c, c ∈ ch' → c ∈ ch ∨ (valid_name c.1 = true ∧ wf_entry (join_components ((base ++ parent) ++ [c.1])) c.2 = true)) →
  wf_entry (join_components base) (set_at t parent (EDir ch')) = true.
Proof.
  induction parent as [|part rest IH]; intros base t ch ch' Hbase Hwf Hat Hnd Hch';
    pose proof (valid_parts_components _ Hbase) as Hcb.
  - simpl in *. simplify_eq. apply wf_entry_dir in Hwf as (Hlen & _ & Hch). apply wf_entry_dir.
    split_and!; [done|done|]. rewrite Forall_forall in Hch |- *. intros c Hc.
    destruct (Hch' c Hc) as [Hin|[Hv Hw]]; [by apply Hch|].
    rewrite app_nil_r in Hw. by rewrite join_path_components.
  - apply node_at_cons in Hat as (ch0 & i & child & Hd & Hf & Hat). destruct t as [|ch1]; simplify_eq/=.
    rewrite Hf. apply wf_entry_dir in Hwf as (Hlen & Hnd0 & Hch0).
    apply wf_entry_dir. split_and!; [done|by rewrite (set_entry_names _ _ _ _ _ Hf)|].
    pose proof (find_entry_elem _ _ _ _ Hf) as Hin.
    pose proof (proj1 (Forall_forall _ _) Hch0 _ Hin) as [Hv Hwc]. cbn [fst snd] in Hv, Hwc.
    apply Forall_insert; [done|]. cbn [fst snd]. split; [done|].
    rewrite join_path_components in * by done.
    apply (IH (base ++ [part]) child ch); [|done|done|done|].
    + apply Forall_app. split; [done|]. by constructor.
    + intros c Hc. rewrite <- (app_assoc base). by apply Hch'.
Qed.

Lemma canonical_parent path parent name :
  canonical path → parent_and_name path = Ok (parent, name) →
  valid_parts parent ∧ valid_name name = true ∧ zlen (join_components (parent ++ [name])) <= 120.
Proof.
  intros (parts & -> & Hv & Hlen). unfold parent_and_name, split_absolute_path.
  assert (starts_with [slash] (absolute parts) = true) as -> by (apply starts_with_slash; destruct parts; eauto).
  cbn [mbind result_bind]. rewrite components_absolute by (by apply valid_parts_components).
  destruct parts as [|n parts _] using rev_ind; [done|]. rewrite last_snoc. cbn. intros [= <- <-].
  rewrite length_app. cbn [length]. rewrite Nat.add_sub, take_app_length.
  apply Forall_app in Hv as [Hv [Hn _]%Forall_cons]. split_and!; [done|done|].
  unfold absolute in Hlen. destruct (parts ++ [n]) eqn:E; [by destruct parts|].
  rewrite zlen_cons in Hlen. lia.
Qed.

(** The changes a mutation makes to its parent directory: distinct names stay
    distinct, and the only new child is a well-formed one called [name]. *)
Definition child_change (path name : str) (ch ch' : list (str * Entry)) : Prop :=
  (NoDup ch.*1 → NoDup ch'.*1) ∧ ∀ c, c ∈ ch' → c ∈ ch ∨ (c.1 = name ∧ wf_entry path c.2 = true).

Lemma change_push path name e ch :
  has_entry name ch = false → wf_entry path e = true → child_change path name ch (ch ++ [(name, e)]).
Proof.
  intros Hn%has_entry_false He. split.
  - intros Hnd. rewrite fmap_app. apply NoDup_app. split_and!; [done| |by apply NoDup_singleton].
    by intros n Hin ->%list_elem_of_singleton.
  - intros c [Hc| ->%list_elem_of_singleton]%elem_of_app; [by left|by right].
Qed.

Lemma change_set path name i e e' ch :
  find_entry name ch = Some (i, e') → wf_entry path e = true → child_change path name ch (set_entry i name e ch).
Proof.
  intros Hf He. split; [by rewrite (set_entry_names _ _ _ _ _ Hf)|]. unfold set_entry.
  intros c [Hc| ->]%elem_of_insert_inv; [by left|by right].
Qed.

Lemma change_remove path name i e ch :
  find_entry name ch = Some (i, e) → child_change path name ch (remove_entry i ch).
Proof.
  intros Hf. split; [intros Hnd; by eapply remove_entry_NoDup|].
  destruct (remove_entry_names _ _ _ _ Hf) as (l & r & -> & _ & ->). intros c Hc. left. set_solver.
Qed.

Lemma children_at_mut_wf t parent name f t' :
  wf_entry [] t = true → valid_parts parent → valid_name name = true → children_at_mut t parent f = Ok t' →
  (∀ ch ch', f ch = Ok ch' → child_change (join_components (parent ++ [name])) name ch ch') →
  wf_entry [] t' = true.
Proof.
  intros Hwf Hv Hname Hmut Hf. rewrite children_at_mut_entry in Hmut.
  destruct (entry_at t parent) as [[content|ch]|] eqn:Hat; [done| |done]. apply entry_at_node in Hat.
  cbn [mbind result_bind] in Hmut. destruct (f ch) as [ch'|] eqn:Hch; [|done]. simplify_res.
  apply Hf in Hch as [Hnd Hch]. eapply (wf_set_at parent []); [by constructor|done|done| |].
  - apply Hnd. by pose proof (node_at_distinct _ _ _ (wf_entry_distinct _ _ Hwf) Hat) as [? _]%distinct_dir.
  - intros c [Hc|[-> Hc]]%Hch; [by left|by right].
Qed.

Lemma wf_leaf_file path content :
  zlen path <= 120 → zlen content <= MAX_FILE_SIZE → wf_entry path (EFile content) = true.
Proof. intros. unfold wf_entry. simpl. by rewrite !(proj2 (Z.leb_le _ _)). Qed.

Lemma wf_leaf_dir path : zlen path <= 120 → wf_entry path (EDir []) = true.
Proof. intros. unfold wf_entry. simpl. by rewrite (proj2 (Z.leb_le _ _)). Qed.

(** A mutation under a canonical path keeps the tree well formed. *)
Lemma apply_op_wf op fs fs' :
  wf_entry [] (root fs) = true → canonical (op_path op) → apply_op op fs = Ok fs' →
  wf_entry [] (root fs') = true.
Proof.
  intros Hwf Hcan Hop.
  destruct (parent_and_name (op_path op)) as [[parent name]|] eqn:Hp.
  2:{ by destruct op; cbn in *; unfold create_file_at, create_dir_at, create_at, write_at, remove_at in Hop;
      rewrite Hp in Hop; [..|destruct (MAX_FILE_SIZE <? zlen bytes)|]. }
  destruct (canonical_parent _ _ _ Hcan Hp) as (Hv & Hname & Hlen).
  assert (∃ f, children_at_mut (root fs) parent f = Ok (root fs')
    ∧ ∀ ch ch', f ch = Ok ch' → child_change (join_components (parent ++ [name])) name ch ch') as (f & Hmut & Hf);
    [|by eapply children_at_mut_wf].
  destruct op; cbn [op_path apply_op] in *;
    unfold create_file_at, create_dir_at, create_at, write_at, remove_at, set_root in Hop;
    [| |destruct (MAX_FILE_SIZE <? zlen bytes) eqn:Hsize; [done|]; bool_hyps|];
    rewrite Hp in Hop; cbn [mbind result_bind] in Hop;
    apply bind_Ok in Hop as (t & Hmut & ?); simplify_res; eexists; (split; [exact Hmut|]); intros ch ch'; cbn.
  - destruct (has_entry name ch) eqn:Hh; [done|]. intros [= <-]. by apply change_push, wf_leaf_file.
  - destruct (has_entry name ch) eqn:Hh; [done|]. intros [= <-]. by apply change_push, wf_leaf_dir.
  - destruct (find_entry name ch) as [[i [c|chs]]|] eqn:Hfe; [|done|]; intros [= <-].
    + by eapply change_set, wf_leaf_file.
    + apply change_push; [|by apply wf_leaf_file]. by apply has_entry_false, find_entry_None.
  - destruct (find_entry name ch) as [[i [c|[|]]]|] eqn:Hfe; cbn; try done; intros [= <-]; by eapply change_remove.
Qed.

Lemma children_at_mut_is_dir t parent f t' :
  children_at_mut t parent f = Ok t' → is_Some (dir_of t').
Proof.
  destruct parent as [|part rest], t as [content|ch]; simpl; try done.
  - rewrite bind_Ok. intros (ch' & _ & [= <-]). by eexists.
  - rewrite bind_Ok. intros ([i child] & _ & Ht). apply bind_Ok in Ht as (child' & _ & [= <-]). by eexists.
Qed.

(** The root stays a directory. *)
Lemma apply_op_root op fs fs' : apply_op op fs = Ok fs' → is_Some (dir_of (root fs')).
Proof.
  destruct op; cbn [apply_op]; unfold create_file_at, create_dir_at, create_at, write_at, remove_at, set_root;
    [| |destruct (MAX_FILE_SIZE <? zlen bytes); [done|]|];
    (destruct (parent_and_name path) as [[parent name]|]; [|done]; cbn [mbind result_bind];
     intros (t & Ht & [= <-])%bind_Ok; by eapply children_at_mut_is_dir).
Qed.

Lemma list_names_view fs parts ch :
  node_at (root fs) parts = Some (EDir ch) → NoDup ch.*1 →
  display_name <$> ch
  = (λ name, match view fs (parts ++ [name]) with Some (ADir _) => name ++ [slash] | _ => name end) <$> ch.*1.
Proof.
  intros Hat Hnd. rewrite <- list_fmap_compose. apply list_fmap_ext. intros i [n e] Hi. cbn.
  destruct (find_entry_NoDup n e ch Hnd) as [j Hf]; [by eapply list_elem_of_lookup_2|].
  rewrite (view_child fs parts ch n Hat), Hf. by destruct e.
Qed.

Lemma apply_op_refines op fs :
  distinct (root fs) = true → agree (apply_op op fs) (spec_op op (view fs)).
Proof.
  intros Hd. destruct op as [path|path|path bytes|path]; cbn [apply_op].
  - by apply (create_refines (EFile [])).
  - by apply (create_refines (EDir [])).
  - apply write_refines.
  - by apply remove_refines.
Qed.

Lemma spec_entry_at v pre rest n : spec_entry v pre rest = Ok n → v (pre ++ rest) = Some n.
Proof.
  revert pre. induction rest as [|part rest IH]; intros pre; cbn [spec_entry]; destruct (v pre) as [m|] eqn:E; try done.
  - intros [= <-]. by rewrite app_nil_r.
  - destruct m as [|names]; [done|]. intros Hr%IH. by rewrite <- app_assoc in Hr.
Qed.

Lemma spec_dir_at v parent names : spec_dir v parent = Ok names → v parent = Some (ADir names).
Proof. unfold spec_dir. intros ([|ns] & Hn%spec_entry_at & E)%bind_Ok; [done|]. by injection E as <-. Qed.

Lemma upd_ne q q' n v : q ≠ q' → upd q' n v q = v q.
Proof. intros. unfold upd. by rewrite decide_False. Qed.

Lemma spec_add_frame parent name names n v q : q ≠ parent → q ≠ parent ++ [name] → spec_add parent name names n v q = v q.
Proof. intros. unfold spec_add. by rewrite !upd_ne. Qed.

(** The specification touches the named node and its parent's listing only. *)
Lemma spec_op_frame op v v' parent name : parent_and_name (op_path op) = Ok (parent, name) → spec_op op v = Ok v' →
  (∀ q, q ≠ parent → q ≠ parent ++ [name] → v' q = v q) ∧
  (∀ path, op = CreateDir path → ∃ names, v parent = Some (ADir names) ∧ v' parent = Some (ADir (names ++ [name]))).
Proof.
  intros Hp Hop. destruct op as [path|path|path bytes|path]; cbn [spec_op op_path] in *;
    [| |destruct (MAX_FILE_SIZE <? zlen bytes); [done|]|]; rewrite Hp in Hop; cbn [mbind result_bind] in Hop;
    apply bind_Ok in Hop as (names & Hdir & Hop); apply spec_dir_at in Hdir.
  - destruct (v (parent ++ [name])); [done|]. injection Hop as <-. split; [|done]. intros. by apply spec_add_frame.
  - destruct (v (parent ++ [name])); [done|]. injection Hop as <-. split; [intros; by apply spec_add_frame|].
    intros _ _. exists names. split; [done|]. unfold spec_add. rewrite upd_ne.
    + unfold upd. by rewrite decide_True.
    + intros E. apply (f_equal length) in E. rewrite length_app in E. simpl in E. lia.
  - split; [|done]. intros q Hq1 Hq2. destruct (v (parent ++ [name])) as [[]|]; try done; injection Hop as <-; [by apply upd_ne|by apply spec_add_frame].
  - split; [|done]. intros q Hq1 Hq2. destruct (v (parent ++ [name])) as [[|[]]|]; try done; injection Hop as <-; by rewrite !upd_ne.
Qed.

(** ** Properties *)

(** C23: the tree operations implement the abstract filesystem.  Seen as a map from
    component lists to nodes, every create, write and remove has exactly the
    effect the specification gives (the named node, its parent's listing, and
    nothing else), or fails with the same reason. *)
Theorem mutations_refine_spec op fs :
  distinct (root fs) = true → agree (apply_op op fs) (spec_op op (view fs)).
Proof. apply apply_op_refines. Qed.

Definition example_fs : FileSystem :=
  {| root := EDir [(bs "home", EDir [(bs "a", EFile (bs "hi"))]); (bs "b", EFile [])] |}.

Lemma mutations_refine_spec_witness :
  agree (apply_op (Remove (bs "/home/a")) example_fs) (spec_op (Remove (bs "/home/a")) (view example_fs)).
Proof. apply (mutations_refine_spec (Remove (bs "/home/a")) example_fs). by vm_compute. Defined.

(** reading, listing and metadata are functions of the abstract filesystem,
    errors included: contents, names in order with a slash after directories, and
    sizes are those of the map. *)
Theorem queries_refine_spec fs path :
  distinct (root fs) = true → is_Some (dir_of (root fs)) →
  read_at fs path = spec_read path (view fs)
  ∧ list_at fs path = spec_list path (view fs)
  ∧ ((λ m, (kind m, size m)) <$> metadata_at fs path) = spec_metadata path (view fs).
Proof.
  intros Hd Hroot. unfold read_at, spec_read, list_at, spec_list, metadata_at, spec_metadata, children_at.
  destruct (split_absolute_path path) as [parts|]; [|done]. cbn [mbind result_bind].
  rewrite spec_dir_view, spec_entry_view.
  assert (parts = [] → entry_at (root fs) parts = Ok (root fs)) as Hnil by (by intros ->).
  destruct (entry_at (root fs) parts) as [[content|ch]|e] eqn:Hat; cbn.
  - case_bool_decide as Hp; [|done]. exfalso. specialize (Hnil Hp) as [= Hr]. rewrite <- Hr in Hroot.
    by destruct Hroot.
  - split_and!; [by case_bool_decide| |by rewrite zlen_map].
    apply entry_at_node in Hat. f_equal. apply list_names_view; [done|].
    by apply (node_at_distinct _ _ _ Hd), distinct_dir in Hat as [? _].
  - split_and!; [|done|done]. case_bool_decide as Hp; [|done]. by specialize (Hnil Hp).
Qed.

Lemma queries_refine_spec_witness :
  read_at example_fs (bs "/home/a") = spec_read (bs "/home/a") (view example_fs)
  ∧ list_at example_fs (bs "/home/a") = spec_list (bs "/home/a") (view example_fs)
  ∧ ((λ m, (kind m, size m)) <$> metadata_at example_fs (bs "/home/a")) = spec_metadata (bs "/home/a") (view example_fs).
Proof. apply (queries_refine_spec example_fs (bs "/home/a")); [by vm_compute|by eexists]. Defined.

Lemma example_listing : list_at example_fs (bs "/") = Ok [bs "home/"; bs "b"].
Proof. by vm_compute. Qed.
