(* ===== verification/FsPersist.v ===== *)
(** Mutation and persistence in kernel/src/fs.rs: [mutate_and_persist] and its
    callers as computations on the module's state, first run alone, then as
    threads whose steps interleave.  A mutation is published in memory only after
    [sync_tree] reported success; the [WRITER_ACTIVE] flag admits one writer at a
    time and makes the others fail instead of wait. *)

From S2P Require Import Prelude Str Device Tree TuwaiqTree TuwaiqFs Fs.

(** The statics [FS] and [WRITER_ACTIVE] with the store below. *)
Record fs_state (D : Type) := FsState {
  fs : option FileSystem;
  writer_active : bool;
  store : tqfs D;
}.
Arguments FsState {D} fs writer_active store.
Arguments fs {D} f.
Arguments writer_active {D} f.
Arguments store {D} f.

Section operations.
Context {D : Type} `{BlockDevice D}.
Implicit Types (s : fs_state D).

Definition on_store {A} (m : M (tqfs D) A) : M (fs_state D) A := λ s,
  let '(r, st) := m (store s) in (r, FsState (fs s) (writer_active s) st).

(** [WriterGuard::acquire] and the guard's [Drop]. *)
Definition acquire : M (fs_state D) unit := λ s,
  if writer_active s then (Err "filesystem busy", s) else (Ok tt, FsState (fs s) true (store s)).
Definition release : M (fs_state D) unit := mmodify (λ s, FsState (fs s) false (store s)).

(** Run [body] under the guard: it is dropped on every path out. *)
Definition with_writer {A} (body : M (fs_state D) A) : M (fs_state D) A :=
  _ ← acquire;
  r ← mtry body;
  _ ← release;
  mlift r.

Definition snapshot : M (fs_state D) FileSystem :=
  s ← mget; mlift (ok_or (fs s) "filesystem not initialized").

Definition publish (candidate : FileSystem) : M (fs_state D) unit :=
  s ← mget;
  match fs s with
  | None => mthrow "filesystem not initialized"
  | Some _ => mput (FsState (Some candidate) (writer_active s) (store s))
  end.

Definition with_fs {A} (f : FileSystem → result A) : M (fs_state D) A :=
  snap ← snapshot; mlift (f snap).

Definition mutate_and_persist (f : FileSystem → result FileSystem) : M (fs_state D) unit :=
  with_writer (
    snap ← snapshot;
    candidate ← mlift (f snap);
    _ ← on_store (sync_tree (to_fs_node (root candidate)));
    publish candidate).

Definition inject_interrupted_write (path : str) (bytes : list byte) (data_sectors : nat) : M (fs_state D) unit :=
  with_writer (
    snap ← snapshot;
    candidate ← mlift (write_at snap path bytes);
    r ← mtry (on_store (sync_tree_interrupted (to_fs_node (root candidate)) data_sectors));
    match r with
    | Err reason =>
        if String.eqb reason "injected interrupted checkpoint" then mret tt else mthrow reason
    | Ok _ => mthrow "interrupted checkpoint unexpectedly committed"
    end).

Definition sync_to_disk : M (fs_state D) unit :=
  with_writer (
    r ← with_fs (λ f, Ok (root f));
    on_store (sync_tree (to_fs_node r))).

Definition init : M (fs_state D) unit :=
  mounted ← on_store mount;
  match mounted with
  | Dir children =>
      let entries := (λ '(name, node), (name, from_fs_node node)) <$> children in
      mmodify (λ s, FsState (Some {| root := EDir entries |}) (writer_active s) (store s))
  | File _ => mthrow "TuwaiqFS root is not a directory"
  end.

(** The exported mutations. *)
Definition run_op (op : fs_op) : M (fs_state D) unit := mutate_and_persist (apply_op op).
End operations.

Section durability.
Context {D : Type} `{BlockDeviceSpec D}.
Implicit Types (s : fs_state D) (st : tqfs D).

(** The kernel between mutations: a tree is in memory, no writer is active, and
    the volume is mounted at exactly that tree. *)
Definition ready s (f : FileSystem) : Prop :=
  fs s = Some f ∧ writer_active s = false
  ∧ wf_entry [] (root f) = true ∧ is_Some (dir_of (root f))
  ∧ mounted (store s) (to_fs_node (root f)).

(** Within the record limit of the parser. *)
Definition fits (f : FileSystem) : Prop := (record_count (to_fs_node (root f)) ≤ MAX_NODE_COUNT)%nat.

Lemma wf_tree_entry e : wf_entry [] e = true → is_Some (dir_of e) → wf_tree (to_fs_node e) = true.
Proof. by destruct e as [|ch]; [intros _ [? ?]|]. Qed.

Lemma serialize_wf tree : wf_tree tree = true → ∃ blob, serialize_tree tree = Ok blob.
Proof. intros (data & Hs & _)%serialize_deserialize. eauto. Qed.

(** The candidate of a mutation is either stored or refused for its size. *)
Lemma storable_or_too_large f :
  wf_entry [] (root f) = true → is_Some (dir_of (root f)) → fits f →
  storable (to_fs_node (root f))
  ∨ ∃ blob, serialize_tree (to_fs_node (root f)) = Ok blob ∧ MAX_METADATA_BYTES < zlen blob.
Proof.
  intros Hwf Hd Hfit. pose proof (wf_tree_entry _ Hwf Hd) as Hwt.
  destruct (serialize_wf _ Hwt) as [blob Hs].
  destruct (decide (zlen blob <= MAX_METADATA_BYTES)); [left|right; exists blob; split; [done|lia]].
  split_and!; eauto.
Qed.

Lemma wp_on_store {A} (m : M (tqfs D) A) (Q : A → fs_state D → Prop) (E : string → fs_state D → Prop) s :
  wp m (λ a st, Q a (FsState (fs s) (writer_active s) st))
       (λ e st, E e (FsState (fs s) (writer_active s) st)) (store s) →
  wp (on_store m) Q E s.
Proof. unfold wp, on_store. by destruct (m (store s)) as [[a|e] st]. Qed.

(** The guard brackets the body: free before, free after. *)
Lemma wp_with_writer {A} (body : M (fs_state D) A) (Q : A → fs_state D → Prop) (E : string → fs_state D → Prop) s :
  writer_active s = false →
  wp body (λ a s', Q a (FsState (fs s') false (store s'))) (λ e s', E e (FsState (fs s') false (store s')))
    (FsState (fs s) true (store s)) →
  wp (with_writer body) Q E s.
Proof.
  intros Hfree Hbody. unfold with_writer. wp_step. unfold wp at 1, acquire. rewrite Hfree.
  wp_step. wp_step. eapply wp_mono; [exact Hbody| |]; intros; repeat wp_step; done.
Qed.

(** A mutation of a ready kernel either succeeds, and the kernel is ready at the
    new tree, or fails, and it is ready at the old one. *)
Lemma wp_run_op op s f :
  ready s f → canonical (op_path op) → (∀ f', apply_op op f = Ok f' → fits f') →
  wp (run_op op)
    (λ _ s', ∃ f', apply_op op f = Ok f' ∧ ready s' f' ∧ pending (store s') = None
      ∧ (sound (store s) → sound (store s')))
    (λ e s', ready s' f) s.
Proof.
  intros (Hfs & Hfree & Hwf & Hd & Hm) Hcan Hfits. unfold run_op, mutate_and_persist.
  apply wp_with_writer; [done|]. unfold snapshot. repeat wp_step. rewrite Hfs. cbn [ok_or fs].
  wp_step. wp_step. destruct (apply_op op f) as [f'|e] eqn:Hop; [|by split_and!].
  pose proof (apply_op_wf _ _ _ Hwf Hcan Hop) as Hwf'. pose proof (apply_op_root _ _ _ Hop) as Hd'.
  wp_step. apply wp_on_store. cbn [fs writer_active store].
  destruct (storable_or_too_large f' Hwf' Hd' (Hfits f' eq_refl)) as [Hst|(blob & Hser & Hbig)].
  - eapply wp_mono; [by apply wp_sync_mounted| |].
    + intros _ st (Hm' & Hp' & Hr'). unfold publish. repeat wp_step. cbn [fs]. wp_step.
      exists f'. by split_and!.
    + intros e st (Hm' & _). by split_and!.
  - unfold wp. rewrite (sync_tree_too_large _ _ _ Hser Hbig). by split_and!.
Qed.

(** [init] takes over the tree that the mount returns. *)
Lemma wp_init_mount s f :
  wp mount (λ t st, t = to_fs_node (root f) ∧ mounted st t) (λ _ _, False) (store s) → writer_active s = false →
  wf_entry [] (root f) = true → is_Some (dir_of (root f)) →
  wp init (λ _ s', ready s' f) (λ _ _, False) s.
Proof.
  intros Hm Hfree Hwf Hd. unfold init. wp_step. apply wp_on_store.
  eapply wp_mono; [exact Hm| |done]. intros t st' (-> & Hm').
  destruct f as [e]. cbn [root] in *. destruct (to_fs_node e) as [|children] eqn:He.
  { destruct e; [by destruct Hd|done]. }
  repeat wp_step. assert (EDir ((λ '(name, node), (name, from_fs_node node)) <$> children) = e) as ->.
  { rewrite <- (from_to_fs_node e), He. done. }
  split_and!; try done. cbn [root store]. by rewrite He.
Qed.

(** Restarting reads back the tree a ready kernel has in memory. *)
Lemma wp_init st s f :
  restarted st (store s) → mounted st (to_fs_node (root f)) → pending st = None → writer_active s = false →
  wf_entry [] (root f) = true → is_Some (dir_of (root f)) →
  wp init (λ _ s', ready s' f) (λ _ _, False) s.
Proof.
  intros Hre Hm Hp. apply wp_init_mount. eapply wp_mono; [by eapply wp_remount| |done].
  intros t st' (-> & Hm' & _). by rewrite Hp in *.
Qed.

(** ** Interleaved writers *)

(** Where a thread running a mutation is: about to acquire the guard, holding it,
    with a snapshot, with a persisted candidate, dropping the guard, finished.  A
    preemption may come between any two of these. *)
Inductive thread :=
| Starting (op : fs_op)
| Holding (op : fs_op)
| Snapshotted (op : fs_op) (snap : FileSystem)
| Persisted (op : fs_op) (candidate : FileSystem)
| Dropping (r : result unit)
| Finished (r : result unit).

(** One step of a thread of [mutate_and_persist (apply_op op)]. *)
Definition thread_step (th : thread) : fs_state D → option (thread * fs_state D) := λ s,
  match th with
  | Starting op =>
      match acquire s with
      | (Ok _, s') => Some (Holding op, s')
      | (Err e, s') => Some (Finished (Err e), s')
      end
  | Holding op =>
      match snapshot s with
      | (Ok snap, s') => Some (Snapshotted op snap, s')
      | (Err e, s') => Some (Dropping (Err e), s')
      end
  | Snapshotted op snap =>
      match apply_op op snap with
      | Ok candidate =>
          match on_store (sync_tree (to_fs_node (root candidate))) s with
          | (Ok _, s') => Some (Persisted op candidate, s')
          | (Err e, s') => Some (Dropping (Err e), s')
          end
      | Err e => Some (Dropping (Err e), s)
      end
  | Persisted op candidate => let '(r, s') := publish candidate s in Some (Dropping r, s')
  | Dropping r => let '(_, s') := release s in Some (Finished r, s')
  | Finished _ => None
  end.

(** The system: the shared state, the threads, and as ghost state the published
    mutations in order and the tree last persisted with success. *)
Record system := System {
  shared : fs_state D;
  threads : list thread;
  published : list fs_op;
  synced : FileSystem;
}.

Inductive step : system → system → Prop :=
| step_thread s before th after log y th' s' :
    thread_step th s = Some (th', s') →
    step (System s (before ++ th :: after) log y)
         (System s' (before ++ th' :: after)
            (match th with Persisted op _ => log ++ [op] | _ => log end)
            (match th' with Persisted _ candidate => candidate | _ => y end)).

Definition start (f : FileSystem) (st : tqfs D) (ops : list fs_op) : system :=
  System (FsState (Some f) false st) (Starting <$> ops) [] f.

Fixpoint replay (log : list fs_op) (f : FileSystem) : result FileSystem :=
  match log with [] => Ok f | op :: rest => f' ← apply_op op f; replay rest f' end.

(** Between acquiring the guard and dropping it. *)
Definition critical (th : thread) : bool :=
  match th with Starting _ | Finished _ => false | _ => true end.

(** What the owner of the guard knows about the shared tree [f]. *)
Definition owner_ok (f y : FileSystem) (th : thread) : Prop :=
  match th with
  | Snapshotted _ snap => snap = f ∧ y = f
  | Persisted op candidate => apply_op op f = Ok candidate ∧ y = candidate
  | _ => y = f
  end.

Definition system_inv (f0 : FileSystem) (c : system) : Prop :=
  ∃ f, fs (shared c) = Some f ∧ replay (published c) f0 = Ok f ∧
    match filter (λ th, critical th = true) (threads c) with
    | [] => writer_active (shared c) = false ∧ synced c = f
    | [th] => writer_active (shared c) = true ∧ owner_ok f (synced c) th
    | _ => False
    end.

Lemma replay_snoc log op f f' g : replay log f = Ok f' → apply_op op f' = Ok g → replay (log ++ [op]) f = Ok g.
Proof.
  revert f. induction log as [|o log IH]; intros f; simpl; [intros [= ->] ->; done|].
  destruct (apply_op o f); [apply IH|done].
Qed.

Lemma filter_middle {A} (P : A → Prop) `{∀ x, Decision (P x)} l x r :
  filter P (l ++ x :: r) = filter P l ++ (if decide (P x) then [x] else []) ++ filter P r.
Proof. rewrite filter_app, filter_cons. by case_decide. Qed.

Lemma sole_owner (l r : list thread) th (P0 : Prop) (P1 : thread → Prop) :
  match l ++ [th] ++ r with [] => P0 | [t] => P1 t | _ => False end → l = [] ∧ r = [] ∧ P1 th.
Proof. by destruct l as [|? [|? ?]], r. Qed.

Lemma start_inv f st ops : system_inv f (start f st ops).
Proof.
  exists f. split_and!; [done|done|]. unfold start. cbn.
  assert (filter (λ th, critical th = true) (Starting <$> ops) = []) as ->; [|done].
  by induction ops.
Qed.

Lemma step_inv f0 c c' : system_inv f0 c → step c c' → system_inv f0 c'.
Proof.
  intros (f & Hf & Hlog & Hown) Hstep. destruct Hstep as [s before th after log y th' s' Hth].
  unfold system_inv in *. cbn [shared threads published synced] in *.
  rewrite filter_middle in Hown. rewrite filter_middle.
  destruct (decide (critical th = true)) as [Hc|Hc].
  - (* the owner moves *)
    apply sole_owner in Hown as (-> & -> & Hact & Hown).
    destruct th as [op|op|op snap|op cand|r|r]; try done; cbn in Hth, Hown.
    + unfold snapshot, mbind, M_bind, mget, mlift in Hth. cbn in Hth. rewrite Hf in Hth. cbn in Hth. simplify_eq.
      exists f. by split_and!.
    + destruct Hown as [-> ->]. destruct (apply_op op f) as [cand|e] eqn:Hop.
      * unfold on_store in Hth. destruct (sync_tree (to_fs_node (root cand)) (store s)) as [[[]|e] st]; simplify_eq;
          exists f; by split_and!.
      * simplify_eq. exists f. by split_and!.
    + destruct Hown as [Hop ->]. unfold publish, mbind, M_bind, mget in Hth. cbn in Hth. rewrite Hf in Hth.
      cbn in Hth. simplify_eq. exists cand. split_and!; [done|by eapply replay_snoc|done].
    + simplify_eq. exists f. by split_and!.
  - (* a thread outside the critical section moves *)
    destruct th as [op|op|op snap|op cand|r|r]; try done. cbn in Hth. unfold acquire in Hth.
    destruct (writer_active s) eqn:Hact; simplify_eq; exists f; (split_and!; [done|done|]).
    + cbn. rewrite decide_False by done. by rewrite Hact.
    + cbn in Hown |- *. destruct (filter _ before ++ _) as [|t1 [|t2 ts]] eqn:E; [|by destruct Hown|done].
      apply app_nil in E as [E1 E2]. rewrite E1, E2. cbn. rewrite decide_True by done. by destruct Hown.
Qed.

Lemma reachable_inv f st ops c : rtc step (start f st ops) c → system_inv f c.
Proof.
  intros Hr. remember (start f st ops) as c0 eqn:Hstart. assert (system_inv f c0) as Hinv by (subst; apply start_inv).
  clear Hstart. induction Hr; eauto using step_inv.
Qed.

(** Run one thread alone. *)
Fixpoint run_alone (fuel : nat) (th : thread) (s : fs_state D) : thread * fs_state D :=
  match fuel with
  | O => (th, s)
  | S fuel => match thread_step th s with Some (th', s') => run_alone fuel th' s' | None => (th, s) end
  end.

(** ** Properties *)


(** A failed mutation is invisible.  Whatever step fails (path, lookup,
    serialization, size, the device), the tree in memory is the old one, the
    volume is still mounted at it, and the writer flag is free again. *)
Theorem failed_mutation_keeps_tree op s f e s' :
  ready s f → canonical (op_path op) → (∀ f', apply_op op f = Ok f' → fits f') →
  run_op op s = (Err e, s') → ready s' f.
Proof.
  intros Hready Hcan Hfits Hrun. pose proof (wp_run_op op s f Hready Hcan Hfits) as Hwp.
  unfold wp in Hwp. by rewrite Hrun in Hwp.
Qed.

(** C32: concurrent writers serialize.  From a tree [f0], whatever the interleaving
    of any number of mutating threads, preempted anywhere, the tree in memory is the
    result of the mutations published so far applied one after the other in their
    publication order (no update is lost), at most one thread is between acquiring
    and dropping the guard, and when none is, the last tree persisted is the one in
    memory. *)
Theorem writers_serialize f0 st ops c :
  rtc step (start f0 st ops) c →
  ∃ f, fs (shared c) = Some f ∧ replay (published c) f0 = Ok f
    ∧ (length (filter (λ th, critical th = true) (threads c)) ≤ 1)%nat
    ∧ (writer_active (shared c) = false → synced c = f).
Proof.
  intros (f & Hf & Hlog & Hown)%reachable_inv. exists f. split_and!; [done|done|..];
    destruct (filter _ (threads c)) as [|th [|]]; simpl; try done; try lia.
  - by destruct Hown.
  - destruct Hown as [-> _]. done.
Qed.

(** A thread that is not interrupted behaves as [mutate_and_persist]: its steps
    end within five with the result and the state of the sequential function. *)
Theorem thread_alone_is_run_op op s r s' :
  run_op op s = (r, s') → run_alone 5 (Starting op) s = (Finished r, s').
Proof.
  unfold run_op, mutate_and_persist, with_writer, mtry, mlift, mbind, M_bind.
  cbn [run_alone thread_step]. unfold acquire, release, mmodify.
  destruct (writer_active s) eqn:Ha; [by intros [= <- <-]|].
  cbn [thread_step]. unfold snapshot, mbind, M_bind, mget, mlift. cbn [fs store writer_active].
  destruct (fs s) as [f|] eqn:Hf; cbn [ok_or thread_step]; [|by intros [= <- <-]].
  destruct (apply_op op f) as [cand|e]; cbn [thread_step]; [|by intros [= <- <-]].
  unfold on_store. cbn [fs store writer_active].
  destruct (sync_tree (to_fs_node (root cand)) (store s)) as [[[]|e] st']; cbn [thread_step];
    by intros [= <- <-].
Qed.
End durability.

(** *** Witnesses *)

Definition ready_kernel : fs_state sim_disk := FsState (Some {| root := EDir [] |}) false formatted.

Lemma ready_kernel_ready : ready ready_kernel {| root := EDir [] |}.
Proof. destruct formatted_mounted as (Hm & _). split_and!; [done|done|by vm_compute|by eexists|exact Hm]. Qed.

Lemma canonical_example : canonical (bs "/a").
Proof. exists [bs "a"]. split_and!; [done|apply Forall_singleton; by vm_compute|by vm_compute]. Qed.

Definition write_a : fs_op := Write (bs "/a") (bs "hello").

Lemma write_a_fits f' : apply_op write_a {| root := EDir [] |} = Ok f' → fits f'.
Proof. intros [= <-]. unfold fits. cbn. unfold MAX_NODE_COUNT. lia. Qed.

Definition flaky (fs : list fault) (s : fs_state sim_disk) : fs_state sim_disk :=
  FsState (FsPersist.fs s) (writer_active s) (with_faults fs (store s)).

Lemma flaky_ready fs s f : ready s f → ready (flaky fs s) f.
Proof. done. Qed.


Lemma failed_mutation_keeps_tree_witness :
  ready (run_op write_a (flaky [Fine; Lost] ready_kernel)).2 {| root := EDir [] |}.
Proof.
  apply (failed_mutation_keeps_tree write_a (flaky [Fine; Lost] ready_kernel) {| root := EDir [] |} "ata error" _);
    [apply flaky_ready, ready_kernel_ready|apply canonical_example|apply write_a_fits|by vm_compute].
Defined.

Lemma thread_alone_is_run_op_witness :
  run_alone 5 (Starting write_a) ready_kernel = (Finished (Ok tt), (run_op write_a ready_kernel).2).
Proof. apply (thread_alone_is_run_op write_a ready_kernel (Ok tt)). by vm_compute. Defined.

Lemma writers_serialize_witness :
  let c := System (FsState (Some {| root := EDir [] |}) true formatted)
             [Finished (Err "filesystem busy"); Holding write_a] [] {| root := EDir [] |} in
  ∃ f, fs (shared c) = Some f ∧ replay (published c) {| root := EDir [] |} = Ok f
    ∧ (length (filter (λ th, critical th = true) (threads c)) ≤ 1)%nat
    ∧ (writer_active (shared c) = false → synced c = f).
Proof.
  apply (writers_serialize {| root := EDir [] |} formatted [CreateDir (bs "/d"); write_a]).
  eapply rtc_l; [apply (step_thread _ [Starting (CreateDir (bs "/d"))] _ [] _ _ (Holding write_a)); done|].
  eapply rtc_l; [apply (step_thread _ [] _ [Holding write_a] _ _ (Finished (Err "filesystem busy"))); done|].
  apply rtc_refl.
Defined.
