(* ===== verification/Fat32.v ===== *)
(** The read-only FAT32 reader of kernel/src/fat32.rs: MBR and BPB validation,
    cluster chains, directory decoding and path lookup.

    The sector read ([ata::read_sector]) is a parameter, so that a theorem can say
    which sectors an operation may consult.  The loops that follow a cluster chain
    are bounded by the volume's cluster count, as in the code: the structural
    argument [budget] is what is left of that bound. *)

From S2P Require Import Prelude Str.

Module fat32.

Definition SECTOR_SIZE : nat := 512.
Definition MBR_PARTITION_OFFSET : nat := 446.
Definition MBR_PARTITION_COUNT : nat := 4.
Definition FAT32_MIN_CLUSTERS : Z := 65525.
Definition FAT32_EOC : Z := 0x0FFFFFF8.
Definition FAT32_BAD : Z := 0x0FFFFFF7.
Definition MAX_DIRECTORY_ENTRIES : nat := 4096.
Definition MAX_READ_FILE_SIZE : Z := 256 * 1024.

Record Fat32Volume := {
  partition_start : Z;
  partition_sectors : Z;
  sectors_per_cluster : Z;
  fat_start : Z;
  fat_sectors : Z;
  data_start : Z;
  root_cluster : Z;
  cluster_count : Z;
}.

Inductive EntryKind := FatFile | FatDirectory.
#[global] Instance EntryKind_eq_decision : EqDecision EntryKind.
Proof. solve_decision. Defined.

Record Metadata := { meta_kind : EntryKind; meta_size : Z }.

Record DirectoryEntry := {
  name : str;
  entry_kind : EntryKind;
  first_cluster : Z;
  entry_size : Z;
}.

Inductive Located :=
| Root
| LocatedEntry (e : DirectoryEntry).

Definition le_u16 (bytes : list byte) : Z := le_decode (take 2 bytes).
Definition le_u32 (bytes : list byte) : Z := le_decode (take 4 bytes).
(** [bytes[index]] within bounds *)
Definition byte_at (bytes : list byte) (index : nat) : Z := b2z (nth index bytes Byte.x00).

(** [u8::is_power_of_two] *)
Definition is_power_of_two_u8 (z : Z) : bool :=
  existsb (Z.eqb z) [1; 2; 4; 8; 16; 32; 64; 128].

(** ** Directory entries *)

(** [bytes.iter().rposition(|b| *b != b' ').map(|i| i + 1).unwrap_or(0)] *)
Definition trimmed_length (bytes : list byte) : nat := length (trim_end_matches space bytes).

Definition append_short_component (out : str) (bytes : list byte) : result str :=
  let used := take (trimmed_length bytes) bytes in
  _ ← ensure (forallb (λ b, (33 <=? b2z b) && (b2z b <=? 126)
                            && negb (bool_decide (b = slash)) && negb (bool_decide (b = backslash))) used)
        "FAT32: unsupported short-name byte";
  Ok (out ++ used).

Definition decode_entry (raw : list byte) : result DirectoryEntry :=
  name ← append_short_component [] (slice raw 0 8);
  let extension_len := trimmed_length (slice raw 8 11) in
  name ← (if bool_decide (extension_len = 0%nat) then Ok name
          else append_short_component (name ++ [dot]) (slice raw 8 (8 + extension_len)));
  _ ← ensure (negb (bool_decide (name = []) || bool_decide (name = [dot]) || bool_decide (name = [dot; dot])))
        "FAT32: invalid short name";
  let high := le_u16 (slice raw 20 22) in
  let low := le_u16 (slice raw 26 28) in
  let first_cluster := Z.land (Z.lor (Z.shiftl high 16) low) 0x0FFFFFFF in
  let kind := if negb (Z.land (byte_at raw 11) 0x10 =? 0) then FatDirectory else FatFile in
  _ ← ensure (negb (bool_decide (kind = FatDirectory) && (first_cluster <? 2)))
        "FAT32: directory has invalid cluster";
  Ok {| name := name; entry_kind := kind; first_cluster := first_cluster;
        entry_size := le_u32 (slice raw 28 32) |}.

(** [sector.chunks_exact(32)] of a 512-byte sector *)
Definition raw_entries (sector : list byte) : list (list byte) :=
  (λ i, slice sector (32 * i) (32 * i + 32)) <$> seq 0 16.

Definition skip_entry (raw : list byte) : bool :=
  (byte_at raw 0 =? 0xE5) || (byte_at raw 11 =? 0x0F) || negb (Z.land (byte_at raw 11) 0x08 =? 0)
  || bool_decide (slice raw 0 11 = bs ".          ") || bool_decide (slice raw 0 11 = bs "..         ").

(** The loop over the raw entries of one sector: the entries so far and whether
    the end marker was met. *)
Fixpoint scan_entries (raws : list (list byte)) (entries : list DirectoryEntry)
    : result (list DirectoryEntry * bool) :=
  match raws with
  | [] => Ok (entries, false)
  | raw :: rest =>
      if byte_at raw 0 =? 0 then Ok (entries, true)
      else if skip_entry raw then scan_entries rest entries
      else if (MAX_DIRECTORY_ENTRIES <=? length entries)%nat then Err "FAT32: directory entry limit exceeded"
      else
        entry ← decode_entry raw;
        scan_entries rest (entries ++ [entry])
  end.

(** ** The volume *)

Definition validate_cluster (v : Fat32Volume) (cluster : Z) : result unit :=
  ensure (negb ((cluster <? 2) || (cluster_count v + 2 <=? cluster))) "FAT32: cluster outside data region".

Definition cluster_lba (v : Fat32Volume) (cluster : Z) : result Z :=
  _ ← validate_cluster v cluster;
  relative ← ok_or (checked_mul u32_max (cluster - 2) (sectors_per_cluster v)) "FAT32: cluster LBA overflow";
  lba ← ok_or (checked_add u32_max (data_start v) relative) "FAT32: data LBA overflow";
  partition_end ← ok_or (checked_add u32_max (partition_start v) (partition_sectors v)) "FAT32: partition end overflow";
  _ ← ensure (negb (partition_end <=? lba)) "FAT32: data LBA outside partition";
  Ok lba.

(** The checks of [mount] on the boot sector of the partition found. *)
Definition volume_of_bpb (start sectors : Z) (bpb : list byte) : result Fat32Volume :=
  _ ← ensure ((byte_at bpb 510 =? 0x55) && (byte_at bpb 511 =? 0xAA) && (le_u16 (slice bpb 11 13) =? 512))
        "FAT32: invalid boot sector";
  let spc := byte_at bpb 13 in
  let reserved := le_u16 (slice bpb 14 16) in
  let fat_count := byte_at bpb 16 in
  let root_entries := le_u16 (slice bpb 17 19) in
  let total_sectors := le_u32 (slice bpb 32 36) in
  let fat_sectors := le_u32 (slice bpb 36 40) in
  let root_cluster := Z.land (le_u32 (slice bpb 44 48)) 0x0FFFFFFF in
  _ ← ensure (negb ((spc =? 0) || negb (is_power_of_two_u8 spc) || (reserved =? 0) || (fat_count =? 0)
                    || negb (root_entries =? 0) || (total_sectors =? 0) || (sectors <? total_sectors)
                    || (fat_sectors =? 0) || (root_cluster <? 2)))
        "FAT32: invalid BPB geometry";
  fat_area ← ok_or (checked_mul u32_max fat_count fat_sectors) "FAT32: FAT geometry overflow";
  data_relative ← ok_or (checked_add u32_max reserved fat_area) "FAT32: data geometry overflow";
  _ ← ensure (negb (total_sectors <=? data_relative)) "FAT32: data region missing";
  let data_sectors := total_sectors - data_relative in
  let cluster_count := data_sectors / spc in
  _ ← ensure (negb (cluster_count <? FAT32_MIN_CLUSTERS)) "FAT32: volume has non-FAT32 cluster count";
  _ ← ensure (negb (fat_sectors * 128 <? cluster_count + 2)) "FAT32: FAT is too small for data region";
  _ ← ensure (negb (cluster_count + 2 <=? root_cluster)) "FAT32: root cluster outside data region";
  fat_start ← ok_or (checked_add u32_max start reserved) "FAT32: FAT LBA overflow";
  data_start ← ok_or (checked_add u32_max start data_relative) "FAT32: data LBA overflow";
  _ ← ok_or (checked_add u32_max start total_sectors) "FAT32: partition LBA overflow";
  Ok {| partition_start := start; partition_sectors := total_sectors; sectors_per_cluster := spc;
        fat_start := fat_start; fat_sectors := fat_sectors; data_start := data_start;
        root_cluster := root_cluster; cluster_count := cluster_count |}.

Section reader.
Context {St : Type} (read_sector : Z → M St (list byte)).

(** The MBR loop: the first FAT32-typed entry whose boot sector looks like FAT32.
    A candidate that cannot be read is skipped. *)
Fixpoint find_partition (mbr : list byte) (indices : list nat) : M St (option (Z * Z)) :=
  match indices with
  | [] => mret None
  | index :: rest =>
      let offset := (MBR_PARTITION_OFFSET + index * 16)%nat in
      let kind := byte_at mbr (offset + 4) in
      let start := le_u32 (slice mbr (offset + 8) (offset + 12)) in
      let sectors := le_u32 (slice mbr (offset + 12) (offset + 16)) in
      if ((kind =? 0x0B) || (kind =? 0x0C)) && negb (start =? 0) && negb (sectors =? 0) then
        r ← mtry (read_sector start);
        match r with
        | Ok candidate =>
            if (le_u16 (slice candidate 17 19) =? 0) && (le_u16 (slice candidate 22 24) =? 0)
               && negb (le_u32 (slice candidate 32 36) =? 0)
            then mret (Some (start, sectors))
            else find_partition mbr rest
        | Err _ => find_partition mbr rest
        end
      else find_partition mbr rest
  end.

Definition mount : M St Fat32Volume :=
  mbr ← read_sector 0;
  _ ← mensure ((byte_at mbr 510 =? 0x55) && (byte_at mbr 511 =? 0xAA)) "FAT32: invalid MBR signature";
  partition ← find_partition mbr (seq 0 MBR_PARTITION_COUNT);
  '(start, sectors) ← mlift (ok_or partition "FAT32: MBR partition not found");
  bpb ← read_sector start;
  mlift (volume_of_bpb start sectors bpb).

Section volume.
Context (v : Fat32Volume).

Definition next_cluster (cluster : Z) : M St (option Z) :=
  _ ← mlift (validate_cluster v cluster);
  byte_offset ← mlift (ok_or (checked_mul u32_max cluster 4) "FAT32: FAT offset overflow");
  let sector_offset := byte_offset / Z.of_nat SECTOR_SIZE in
  _ ← mensure (negb (fat_sectors v <=? sector_offset)) "FAT32: FAT lookup outside table";
  sector ← read_sector (fat_start v + sector_offset);
  let offset := Z.to_nat (byte_offset mod Z.of_nat SECTOR_SIZE) in
  let value := Z.land (le_u32 (slice sector offset (offset + 4))) 0x0FFFFFFF in
  if FAT32_EOC <=? value then mret None
  else if (value =? FAT32_BAD) || (value <? 2) then mthrow "FAT32: invalid cluster chain"
  else _ ← mlift (validate_cluster v value); mret (Some value).

(** The sector loop of [read] over the [count] sectors left in a cluster. *)
Fixpoint read_cluster (count : nat) (lba : Z) (size : nat) (bytes : list byte) : M St (list byte) :=
  match count with
  | O => mret bytes
  | S count =>
      sector ← read_sector lba;
      let remaining := (size - length bytes)%nat in
      let bytes := bytes ++ take (remaining `min` SECTOR_SIZE) sector in
      if bool_decide (length bytes = size) then mret bytes
      else read_cluster count (lba + 1) size bytes
  end.

(** The cluster loop of [read]. *)
Fixpoint read_chain (budget : nat) (cluster : Z) (size : nat) (bytes : list byte) : M St (list byte) :=
  if (length bytes <? size)%nat then
    match budget with
    | O => mthrow "FAT32: file cluster loop"
    | S budget =>
        first_lba ← mlift (cluster_lba v cluster);
        bytes ← read_cluster (Z.to_nat (sectors_per_cluster v)) first_lba size bytes;
        if (length bytes <? size)%nat then
          next ← next_cluster cluster;
          cluster ← mlift (ok_or next "FAT32: truncated file chain");
          read_chain budget cluster size bytes
        else mret bytes
    end
  else mret bytes.

(** The sector loop of [read_directory] in one cluster. *)
Fixpoint scan_cluster (count : nat) (lba : Z) (entries : list DirectoryEntry) : M St (list DirectoryEntry * bool) :=
  match count with
  | O => mret (entries, false)
  | S count =>
      sector ← read_sector lba;
      '(entries, stop) ← mlift (scan_entries (raw_entries sector) entries);
      if stop : bool then mret (entries, true) else scan_cluster count (lba + 1) entries
  end.

(** The cluster loop of [read_directory]. *)
Fixpoint scan_chain (budget : nat) (cluster : Z) (entries : list DirectoryEntry) : M St (list DirectoryEntry) :=
  match budget with
  | O => mthrow "FAT32: directory cluster loop"
  | S budget =>
      first_lba ← mlift (cluster_lba v cluster);
      '(entries, stop) ← scan_cluster (Z.to_nat (sectors_per_cluster v)) first_lba entries;
      if stop : bool then mret entries
      else
        next ← next_cluster cluster;
        match next with
        | Some next => scan_chain budget next entries
        | None => mret entries
        end
  end.

Definition read_directory (start_cluster : Z) : M St (list DirectoryEntry) :=
  _ ← mlift (validate_cluster v start_cluster);
  scan_chain (Z.to_nat (cluster_count v)) start_cluster [].

(** The component loop of [locate] from [cluster] on. *)
Fixpoint locate_from (cluster : Z) (components : list str) : M St Located :=
  match components with
  | [] => mthrow "FAT32: invalid path"
  | component :: rest =>
      entries ← read_directory cluster;
      '(_, entry) ← mlift (ok_or (list_find (λ e, eq_ignore_ascii_case (name e) component = true) entries)
                             "FAT32: entry not found");
      match rest with
      | [] => mret (LocatedEntry entry)
      | _ =>
          _ ← mensure (bool_decide (entry_kind entry = FatDirectory)) "FAT32: not a directory";
          locate_from (first_cluster entry) rest
      end
  end.

Definition locate (path : str) : M St Located :=
  _ ← mensure (starts_with [slash] path) "FAT32: backend path must be absolute";
  match components path with
  | [] => mret Root
  | parts => locate_from (root_cluster v) parts
  end.

Definition kind (path : str) : M St EntryKind :=
  located ← locate path;
  match located with Root => mret FatDirectory | LocatedEntry e => mret (entry_kind e) end.

Definition metadata (path : str) : M St Metadata :=
  located ← locate path;
  match located with
  | Root =>
      entries ← read_directory (root_cluster v);
      mret {| meta_kind := FatDirectory; meta_size := zlen entries |}
  | LocatedEntry e =>
      match entry_kind e with
      | FatFile => mret {| meta_kind := FatFile; meta_size := entry_size e |}
      | FatDirectory =>
          entries ← read_directory (first_cluster e);
          mret {| meta_kind := FatDirectory; meta_size := zlen entries |}
      end
  end.

Definition display (e : DirectoryEntry) : str :=
  match entry_kind e with FatDirectory => name e ++ [slash] | FatFile => name e end.

Definition list (path : str) : M St (list str) :=
  located ← locate path;
  cluster ← match located with
            | Root => mret (root_cluster v)
            | LocatedEntry e =>
                match entry_kind e with
                | FatDirectory => mret (first_cluster e)
                | FatFile => mthrow "FAT32: not a directory"
                end
            end;
  entries ← read_directory cluster;
  mret (display <$> (entries : Datatypes.list DirectoryEntry)).

Definition read (path : str) : M St (Datatypes.list byte) :=
  located ← locate path;
  entry ← match located with
          | Root => mthrow "FAT32: is a directory"
          | LocatedEntry e =>
              match entry_kind e with
              | FatFile => mret e
              | FatDirectory => mthrow "FAT32: is a directory"
              end
          end;
  let size := entry_size entry in
  _ ← mensure (negb (MAX_READ_FILE_SIZE <? size)) "FAT32: file exceeds read limit";
  if size =? 0 then mret []
  else
    _ ← mlift (validate_cluster v (first_cluster entry));
    read_chain (Z.to_nat (cluster_count v)) (first_cluster entry) (Z.to_nat size) [].
End volume.
End reader.

(** ** What [mount] guarantees *)

Record valid_volume (v : Fat32Volume) : Prop := {
  spc_range : 1 <= sectors_per_cluster v <= 128;
  partition_range : 0 < partition_start v ∧ 0 < partition_sectors v
                    ∧ partition_start v + partition_sectors v <= u32_max;
  fat_range : partition_start v < fat_start v ∧ 0 < fat_sectors v ∧ fat_start v + fat_sectors v <= data_start v;
  data_range : data_start v + cluster_count v * sectors_per_cluster v <= partition_start v + partition_sectors v;
  count_range : FAT32_MIN_CLUSTERS <= cluster_count v ∧ cluster_count v + 2 <= fat_sectors v * 128;
  root_range : 2 <= root_cluster v < cluster_count v + 2;
}.

Lemma is_power_of_two_u8_range z : is_power_of_two_u8 z = true → 1 <= z <= 128.
Proof. unfold is_power_of_two_u8. cbn [existsb]. lia. Qed.

Lemma le_take_range n l : 0 <= le_decode (take n l) < 2 ^ (8 * Z.of_nat n).
Proof. pose proof (le_decode_slice l 0 n n ltac:(lia)) as H. unfold slice in H. by rewrite drop_0, Nat.sub_0_r in H. Qed.

Lemma le_u16_range l : 0 <= le_u16 l < 2 ^ 16.
Proof. apply (le_take_range 2). Qed.

Lemma le_u32_range l : 0 <= le_u32 l < 2 ^ 32.
Proof. apply (le_take_range 4). Qed.

Lemma volume_of_bpb_valid start sectors bpb v :
  0 < start → volume_of_bpb start sectors bpb = Ok v → valid_volume v.
Proof.
  intros Hstart. unfold volume_of_bpb. rewrite ensure_bind_Ok. intros [_ H].
  rewrite ensure_bind_Ok in H. destruct H as [Hgeo H]. bool_hyps.
  apply bind_Ok in H as (area & Harea%ok_or_Ok%checked_mul_Some & H).
  apply bind_Ok in H as (rel & Hrel%ok_or_Ok%checked_add_Some & H).
  rewrite ensure_bind_Ok in H. destruct H as [Hdata H].
  rewrite ensure_bind_Ok in H. destruct H as [Hmin H].
  rewrite ensure_bind_Ok in H. destruct H as [Hfat H].
  rewrite ensure_bind_Ok in H. destruct H as [Hroot H].
  apply bind_Ok in H as (fs & Hfs%ok_or_Ok%checked_add_Some & H).
  apply bind_Ok in H as (ds & Hds%ok_or_Ok%checked_add_Some & H).
  apply bind_Ok in H as (e & He%ok_or_Ok%checked_add_Some & H). injection H as <-. bool_hyps.
  pose proof (is_power_of_two_u8_range (byte_at bpb 13) ltac:(done)).
  pose proof (le_u16_range (slice bpb 14 16)). pose proof (le_u32_range (slice bpb 32 36)).
  pose proof (le_u32_range (slice bpb 36 40)).
  pose proof (b2z_range (nth 16 bpb Byte.x00)) as Hfc. fold (byte_at bpb 16) in Hfc.
  set (total := le_u32 (slice bpb 32 36)) in *. set (fats := le_u32 (slice bpb 36 40)) in *.
  set (spc := byte_at bpb 13) in *. set (reserved := le_u16 (slice bpb 14 16)) in *.
  set (fc := byte_at bpb 16) in *. destruct Harea as [-> Harea], Hrel as [-> Hrel], Hfs as [-> Hfs], Hds as [-> Hds].
  assert (fats <= fc * fats) by nia.
  pose proof (Z.mul_div_le (total - (reserved + fc * fats)) spc ltac:(lia)).
  set (area := fc * fats) in *. set (clusters := (total - (reserved + area)) / spc) in *.
  clearbody clusters area total fats spc reserved.
  split; cbn [partition_start partition_sectors sectors_per_cluster fat_start fat_sectors data_start root_cluster
              cluster_count]; unfold FAT32_MIN_CLUSTERS in *; lia.
Qed.

Section proofs.
Context {St : Type}.
Implicit Types (r : Z → M St (Datatypes.list byte)) (v : Fat32Volume).

Lemma find_partition_start r mbr indices s start sectors s' :
  find_partition r mbr indices s = (Ok (Some (start, sectors)), s') → 0 < start.
Proof.
  revert s. induction indices as [|i indices IH]; intros s; cbn [find_partition]; [done|].
  pose proof (le_u32_range (slice mbr (MBR_PARTITION_OFFSET + i * 16 + 8) (MBR_PARTITION_OFFSET + i * 16 + 12))) as Hr.
  revert Hr. generalize (le_u32 (slice mbr (MBR_PARTITION_OFFSET + i * 16 + 8) (MBR_PARTITION_OFFSET + i * 16 + 12))).
  intros x Hr. destruct (_ && negb (_ =? 0)) eqn:E; [|apply IH].
  rewrite M_bind_Ok. intros (c & s1 & _ & H). destruct c as [c|]; [|by eapply IH].
  destruct (_ && negb (le_u32 (slice c 32 36) =? 0)); [|by eapply IH].
  injection H as <- _ _. bool_hyps. lia.
Qed.

Lemma mount_valid r s v s' : mount r s = (Ok v, s') → valid_volume v.
Proof.
  unfold mount. rewrite M_bind_Ok. intros (mbr & s1 & _ & H).
  apply M_bind_Ok in H as ([] & s2 & _ & H). apply M_bind_Ok in H as (p & s3 & Hp & H).
  apply M_bind_Ok in H as ([start sectors] & s4 & (Hq%ok_or_Ok & _)%mlift_Ok & H). subst p.
  apply M_bind_Ok in H as (bpb & s5 & _ & H). apply mlift_Ok in H as [H _].
  eapply volume_of_bpb_valid; [|done]. by eapply find_partition_start.
Qed.

(** ** Which sectors are consulted *)

(** The two reads agree on the sectors of the partition. *)
Definition agree_inside v r r' : Prop :=
  ∀ lba, partition_start v <= lba < partition_start v + partition_sectors v → ∀ s, r lba s = r' lba s.

Lemma validate_cluster_Ok v cl : validate_cluster v cl = Ok tt ↔ 2 <= cl < cluster_count v + 2.
Proof. unfold validate_cluster. rewrite ensure_Ok. lia. Qed.

Lemma cluster_lba_Ok v cl lba :
  valid_volume v → cluster_lba v cl = Ok lba →
  lba = data_start v + (cl - 2) * sectors_per_cluster v ∧ partition_start v < lba
  ∧ lba + sectors_per_cluster v <= partition_start v + partition_sectors v.
Proof.
  intros Hv. unfold cluster_lba. rewrite bind_Ok. intros ([] & Hc%validate_cluster_Ok & H).
  apply bind_Ok in H as (rel & [-> _]%ok_or_Ok%checked_mul_Some & H).
  apply bind_Ok in H as (l & [-> _]%ok_or_Ok%checked_add_Some & H).
  apply bind_Ok in H as (e & _ & H). rewrite ensure_bind_Ok in H. destruct H as [_ [= <-]].
  destruct Hv as [Hspc Hpart Hfat Hdata Hcount Hroot]. split_and!; [done|nia|nia].
Qed.

Section confined.
Context (v : Fat32Volume) (Hv : valid_volume v) (r r' : Z → M St (Datatypes.list byte)) (Hr : agree_inside v r r').

Lemma next_cluster_confined cl s : next_cluster r v cl s = next_cluster r' v cl s.
Proof.
  unfold next_cluster. apply (M_bind_ext_on (λ _, 2 <= cl)); [done| |].
  { intros s1 [] t [Hc%validate_cluster_Ok _]%mlift_Ok. lia. }
  intros _ s1 Hcl. apply (M_bind_ext_on (λ b, 0 <= b)); [done| |].
  { intros s2 b t [[-> _]%ok_or_Ok%checked_mul_Some _]%mlift_Ok. lia. }
  intros b s2 Hb. apply (M_bind_ext_on (λ _, b / Z.of_nat SECTOR_SIZE < fat_sectors v)); [done| |].
  { intros s3 [] t [H _]%mensure_Ok. lia. }
  intros _ s3 Hlt. apply M_bind_ext; [|done]. apply Hr.
  destruct Hv as [Hspc Hpart Hfat Hdata Hcount Hroot]. unfold FAT32_MIN_CLUSTERS in *.
  assert (0 <= b / Z.of_nat SECTOR_SIZE) by (by apply Z.div_pos). nia.
Qed.

Lemma read_cluster_confined count lba size bytes s :
  partition_start v <= lba → lba + Z.of_nat count <= partition_start v + partition_sectors v →
  read_cluster r count lba size bytes s = read_cluster r' count lba size bytes s.
Proof.
  revert lba bytes s. induction count as [|count IH]; intros lba bytes s Hlo Hhi; [done|]. cbn [read_cluster].
  apply M_bind_ext; [apply Hr; lia|]. intros sector s1. case_bool_decide; [done|]. apply IH; lia.
Qed.

Lemma scan_cluster_confined count lba entries s :
  partition_start v <= lba → lba + Z.of_nat count <= partition_start v + partition_sectors v →
  scan_cluster r count lba entries s = scan_cluster r' count lba entries s.
Proof.
  revert lba entries s. induction count as [|count IH]; intros lba entries s Hlo Hhi; [done|]. cbn [scan_cluster].
  apply M_bind_ext; [apply Hr; lia|]. intros sector s1. apply M_bind_ext; [done|].
  intros [es stop] s2. destruct stop; [done|]. apply IH; lia.
Qed.

(** The cluster's first sector, with room for the whole cluster behind it. *)
Lemma cluster_room cl s lba t :
  @mlift St Z (cluster_lba v cl) s = (Ok lba, t) →
  partition_start v <= lba ∧ lba + Z.of_nat (Z.to_nat (sectors_per_cluster v)) <= partition_start v + partition_sectors v.
Proof. intros [(_ & ? & ?)%cluster_lba_Ok _]%mlift_Ok; [|done]. destruct Hv as [Hspc]. lia. Qed.

Lemma read_chain_confined budget cl size bytes s :
  read_chain r v budget cl size bytes s = read_chain r' v budget cl size bytes s.
Proof.
  revert cl bytes s. induction budget as [|budget IH]; intros cl bytes s; [done|]. cbn [read_chain].
  destruct (length bytes <? size)%nat; [|done].
  eapply M_bind_ext_on; [done|apply cluster_room|]. intros lba s1 [Hlo Hhi].
  apply M_bind_ext; [intros s2; by apply read_cluster_confined|]. intros bytes' s2.
  destruct (length bytes' <? size)%nat; [|done].
  apply M_bind_ext; [apply next_cluster_confined|]. intros next s3. apply M_bind_ext; [done|]. intros; apply IH.
Qed.

Lemma scan_chain_confined budget cl entries s :
  scan_chain r v budget cl entries s = scan_chain r' v budget cl entries s.
Proof.
  revert cl entries s. induction budget as [|budget IH]; intros cl entries s; [done|]. cbn [scan_chain].
  eapply M_bind_ext_on; [done|apply cluster_room|]. intros lba s1 [Hlo Hhi].
  apply M_bind_ext; [intros s2; by apply scan_cluster_confined|]. intros [es stop] s2. destruct stop; [done|].
  apply M_bind_ext; [apply next_cluster_confined|]. intros [next|] s3; [apply IH|done].
Qed.

Lemma read_directory_confined cl s : read_directory r v cl s = read_directory r' v cl s.
Proof. unfold read_directory. apply M_bind_ext; [done|]. intros; apply scan_chain_confined. Qed.

Lemma locate_from_confined cl parts s : locate_from r v cl parts s = locate_from r' v cl parts s.
Proof.
  revert cl s. induction parts as [|part rest IH]; intros cl s; [done|]. cbn [locate_from].
  apply M_bind_ext; [apply read_directory_confined|]. intros entries s1. apply M_bind_ext; [done|].
  intros [i e] s2. destruct rest; [done|]. apply M_bind_ext; [done|]. intros; apply IH.
Qed.

Lemma locate_confined path s : locate r v path s = locate r' v path s.
Proof.
  unfold locate. apply M_bind_ext; [done|]. intros _ s1. destruct (components path); [done|].
  apply locate_from_confined.
Qed.
End confined.

(** ** Reading a file along an intact chain *)

(** The platter as a function, and a device that reads it without failing. *)
Definition perfect (c : Z → Datatypes.list byte) : Z → M St (Datatypes.list byte) := λ lba s, (Ok (c lba), s).

(** What the table says follows a cluster. *)
Definition fat_next (c : Z → Datatypes.list byte) v (cl : Z) : result (option Z) :=
  let offset := cl * 4 in
  let value := Z.land (le_u32 (slice (c (fat_start v + offset / 512)) (Z.to_nat (offset mod 512))
                                (Z.to_nat (offset mod 512) + 4))) 0x0FFFFFFF in
  if FAT32_EOC <=? value then Ok None
  else if (value =? FAT32_BAD) || (value <? 2) then Err "FAT32: invalid cluster chain"
  else _ ← validate_cluster v value; Ok (Some value).

Definition cluster_data (c : Z → Datatypes.list byte) v (cl : Z) : Datatypes.list byte :=
  concat (c <$> seqZ (data_start v + (cl - 2) * sectors_per_cluster v) (sectors_per_cluster v)).

(** A cluster of the data region, within the 28 bits of a table entry. *)
Definition data_cluster v (cl : Z) : Prop := 2 <= cl < cluster_count v + 2 ∧ cl < 2 ^ 28.

(** The clusters a file occupies: each valid, each the table's successor of the
    one before. *)
Inductive fat_chain (c : Z → Datatypes.list byte) v : Z → Datatypes.list Z → Prop :=
| fat_chain_last cl : data_cluster v cl → fat_chain c v cl [cl]
| fat_chain_step cl next rest :
    data_cluster v cl → fat_next c v cl = Ok (Some next) → fat_chain c v next rest →
    fat_chain c v cl (cl :: rest).

Lemma next_cluster_perfect c v cl s :
  valid_volume v → data_cluster v cl → next_cluster (perfect c) v cl s = (fat_next c v cl, s).
Proof.
  intros [Hspc Hpart Hfat Hdata Hcount Hroot] [Hcl H28]. unfold next_cluster.
  unfold mbind at 1, M_bind at 1, mlift at 1. rewrite (proj2 (validate_cluster_Ok v cl)) by done.
  unfold checked_mul. rewrite (proj2 (Z.leb_le _ _)) by (unfold u32_max; lia).
  unfold mbind, M_bind, mlift, ok_or, mensure, ensure, perfect. change (Z.of_nat SECTOR_SIZE) with 512.
  rewrite (proj2 (Z.leb_gt _ _)); [|apply Z.div_lt_upper_bound; lia]. cbn [negb].
  unfold fat_next. set (value := Z.land _ _). destruct (FAT32_EOC <=? value); [done|].
  destruct ((value =? FAT32_BAD) || (value <? 2)); [done|].
  destruct (validate_cluster v value) as [[]|]; done.
Qed.

Lemma read_cluster_perfect c count lba size bytes s :
  (∀ x, length (c x) = 512%nat) → (length bytes < size)%nat →
  read_cluster (perfect c) count lba size bytes s
  = (Ok (bytes ++ take (size - length bytes) (concat (c <$> seqZ lba (Z.of_nat count)))), s).
Proof.
  intros Hc. revert lba bytes. induction count as [|count IH]; intros lba bytes Hlt.
  { simpl. by rewrite take_nil, app_nil_r. }
  rewrite (seqZ_cons lba) by lia. cbn [read_cluster fmap list_fmap concat].
  unfold mbind at 1, M_bind at 1, perfect at 1.
  replace (Z.pred (Z.of_nat (Datatypes.S count))) with (Z.of_nat count) by lia.
  assert (length (take ((size - length bytes) `min` SECTOR_SIZE) (c lba)) = ((size - length bytes) `min` 512)%nat) as Hl.
  { rewrite length_take, Hc. unfold SECTOR_SIZE. lia. }
  rewrite length_app, Hl. case_bool_decide as Hdone.
  - unfold mret, M_ret. do 3 f_equal. rewrite take_app_le by (rewrite Hc; lia).
    f_equal. unfold SECTOR_SIZE. lia.
  - rewrite IH by (rewrite length_app, Hl; lia). rewrite <- app_assoc, length_app, Hl.
    rewrite (take_ge (c lba)) by (rewrite Hc; unfold SECTOR_SIZE; lia).
    rewrite (take_app_ge (c lba)) by (rewrite Hc; lia). rewrite Hc.
    do 5 f_equal. lia.
Qed.

Lemma length_cluster_data c v cl :
  (∀ x, length (c x) = 512%nat) → 0 <= sectors_per_cluster v →
  length (cluster_data c v cl) = (512 * Z.to_nat (sectors_per_cluster v))%nat.
Proof.
  intros Hc Hs. unfold cluster_data. rewrite <- (Z2Nat.id (sectors_per_cluster v)) at 2 by done.
  generalize (data_start v + (cl - 2) * sectors_per_cluster v). intros lba. revert lba.
  induction (Z.to_nat (sectors_per_cluster v)) as [|n IH]; intros lba; [done|].
  rewrite seqZ_cons by lia. cbn [fmap list_fmap concat]. rewrite length_app, Hc.
  replace (Z.pred (Z.of_nat (Datatypes.S n))) with (Z.of_nat n) by lia. rewrite IH. lia.
Qed.

Lemma read_chain_perfect c v budget cl clusters size bytes s :
  valid_volume v → (∀ x, length (c x) = 512%nat) → fat_chain c v cl clusters → (length clusters ≤ budget)%nat →
  (length bytes < size)%nat → (size ≤ length bytes + length (concat (cluster_data c v <$> clusters)))%nat →
  read_chain (perfect c) v budget cl size bytes s
  = (Ok (bytes ++ take (size - length bytes) (concat (cluster_data c v <$> clusters))), s).
Proof.
  intros Hv Hc Hchain. revert budget bytes.
  assert (∀ budget cl bytes, 2 <= cl < cluster_count v + 2 → (length bytes < size)%nat →
    read_chain (perfect c) v (Datatypes.S budget) cl size bytes s
    = (let bytes := bytes ++ take (size - length bytes) (cluster_data c v cl) in
       if (length bytes <? size)%nat then
         (next ← next_cluster (perfect c) v cl;
          cluster ← mlift (ok_or next "FAT32: truncated file chain");
          read_chain (perfect c) v budget cluster size bytes) s
       else (Ok bytes, s))) as Hstep.
  { intros budget cl0 bytes Hcl Hlt. cbn [read_chain]. rewrite (proj2 (Nat.ltb_lt _ _)) by done.
    assert (cluster_lba v cl0 = Ok (data_start v + (cl0 - 2) * sectors_per_cluster v)) as Hlba.
    { unfold cluster_lba. rewrite (proj2 (validate_cluster_Ok v cl0)) by done. cbn [mbind result_bind].
      destruct Hv as [Hspc Hpart Hfat Hdata Hcount Hroot]. unfold checked_mul, checked_add.
      rewrite (proj2 (Z.leb_le ((cl0 - 2) * _) _)) by nia. cbn.
      rewrite (proj2 (Z.leb_le (data_start v + _) _)) by nia. cbn.
      rewrite (proj2 (Z.leb_le (partition_start v + _) _)) by nia. cbn.
      by rewrite (proj2 (Z.leb_gt _ _)) by nia. }
    rewrite Hlba. unfold mbind at 1, M_bind at 1, mlift at 1.
    unfold mbind at 1, M_bind at 1. rewrite read_cluster_perfect by done.
    destruct Hv as [Hspc]. rewrite Z2Nat.id by lia. fold (cluster_data c v cl0). by case_match. }
  induction Hchain as [cl [Hcl H28]|cl next rest [Hcl H28] Hnext Hchain IH]; intros budget bytes Hb Hlt Hsize;
    (destruct budget as [|budget]; [simpl in Hb; lia|]); rewrite Hstep by done;
    cbn [fmap list_fmap concat] in *; rewrite ?app_nil_r in *; cbn zeta.
  - rewrite (proj2 (Nat.ltb_ge _ _)); [done|]. rewrite length_app, length_take. lia.
  - destruct (Nat.ltb_spec (length (bytes ++ take (size - length bytes) (cluster_data c v cl))) size) as [Hmore|Henough];
      rewrite length_app, length_take in *.
    + unfold mbind, M_bind. rewrite next_cluster_perfect, Hnext by done. cbn.
      rewrite (take_ge (cluster_data c v cl)) in * by lia. rewrite (take_app_ge (cluster_data c v cl)) by lia.
      rewrite IH; [|simpl in Hb; lia|rewrite length_app; lia|rewrite length_app in *; lia].
      rewrite <- app_assoc, length_app. do 5 f_equal. lia.
    + rewrite take_app_le by lia. done.
Qed.

(** ** Sizes and names *)

Lemma read_cluster_length r count lba size bytes s bytes' t :
  (length bytes ≤ size)%nat → read_cluster r count lba size bytes s = (Ok bytes', t) → (length bytes' ≤ size)%nat.
Proof.
  revert lba bytes s. induction count as [|count IH]; intros lba bytes s Hle; cbn [read_cluster].
  { by intros [= <- _]. }
  rewrite M_bind_Ok. intros (sector & s1 & _ & H).
  assert (length (bytes ++ take ((size - length bytes) `min` SECTOR_SIZE) sector) ≤ size)%nat.
  { rewrite length_app, length_take. lia. }
  case_bool_decide; [injection H as <- _; lia|]. by eapply IH.
Qed.

Lemma read_chain_length r v budget cl size bytes s bytes' t :
  (length bytes ≤ size)%nat → read_chain r v budget cl size bytes s = (Ok bytes', t) → length bytes' = size.
Proof.
  revert cl bytes s. induction budget as [|budget IH]; intros cl bytes s Hle; cbn [read_chain];
    destruct (Nat.ltb_spec (length bytes) size); try done; [by intros [= <- _]; lia| |by intros [= <- _]; lia].
  rewrite M_bind_Ok. intros (lba & s1 & _ & H1). apply M_bind_Ok in H1 as (b1 & s2 & Hb & H1).
  apply read_cluster_length in Hb; [|lia].
  destruct (Nat.ltb_spec (length b1) size); [|injection H1 as <- _; lia].
  apply M_bind_Ok in H1 as (next & s3 & _ & H1). apply M_bind_Ok in H1 as (cl' & s4 & _ & H1).
  eapply IH; [|exact H1]. lia.
Qed.

Lemma trimmed_length_le bytes : (trimmed_length bytes ≤ length bytes)%nat.
Proof.
  unfold trimmed_length. induction bytes as [|b l IH]; [done|]. cbn [trim_end_matches].
  destruct (trim_end_matches space l); simpl in *; [case_decide; simpl; lia|lia].
Qed.

(** A name [decode_entry] can produce. *)
Definition short_name (n : str) : Prop :=
  n ≠ [] ∧ n ≠ [dot] ∧ n ≠ [dot; dot] ∧ (length n ≤ 12)%nat
  ∧ Forall (λ b, 33 <= b2z b <= 126 ∧ b ≠ slash ∧ b ≠ backslash) n.

Lemma append_short_component_Ok out bytes out' :
  append_short_component out bytes = Ok out' →
  ∃ used, out' = out ++ used ∧ (length used ≤ length bytes)%nat
    ∧ Forall (λ b, 33 <= b2z b <= 126 ∧ b ≠ slash ∧ b ≠ backslash) used.
Proof.
  unfold append_short_component. rewrite ensure_bind_Ok, forallb_forall. intros [Hall [= <-]].
  eexists. split; [done|]. split; [rewrite length_take; lia|].
  apply Forall_forall. intros b Hb%list_elem_of_In%Hall. bool_hyps. split; [lia|done].
Qed.

Lemma decode_entry_name raw e : decode_entry raw = Ok e → short_name (name e).
Proof.
  unfold decode_entry. rewrite bind_Ok. intros (n1 & (used & -> & Hl & Hall)%append_short_component_Ok & H).
  apply bind_Ok in H as (n2 & Hn2 & H). rewrite ensure_bind_Ok in H. destruct H as [Hname H].
  rewrite ensure_bind_Ok in H. destruct H as [_ [= <-]]. cbn [name]. bool_hyps.
  assert ((length used ≤ 8)%nat) by (unfold slice in Hl; rewrite length_take in Hl; lia).
  unfold short_name. split_and!; try done;
    (case_bool_decide as He; [simplify_eq; cbn [app] in *; (lia || done)|];
     apply append_short_component_Ok in Hn2 as (ext & -> & Hle & Halle)).
  - rewrite !length_app. cbn [length]. assert ((length ext ≤ 3)%nat); [|simpl; lia].
    revert Hle He. unfold slice. rewrite length_take, length_drop. intros Hle He.
    pose proof (trimmed_length_le (take (11 - 8) (drop 8 raw))). rewrite length_take in *. lia.
  - apply Forall_app. split; [|done]. cbn [app]. apply Forall_app. split; [done|]. by repeat constructor.
Qed.
End proofs.


(** ** The state is touched by sector reads only *)

Section respects.
Context {St : Type} (R : St → St → Prop) `{!PreOrder R} (r : Z → M St (Datatypes.list byte)).
Context (Hr : ∀ lba, respects R (r lba)).

Lemma find_partition_respects mbr indices : respects R (find_partition r mbr indices).
Proof. induction indices as [|i indices IH]; cbn [find_partition]; repeat respects_step. Qed.

Lemma mount_respects : respects R (mount r).
Proof. pose proof find_partition_respects. unfold mount. repeat respects_step. Qed.

Lemma next_cluster_respects v cl : respects R (next_cluster r v cl).
Proof. unfold next_cluster. repeat respects_step. Qed.

Lemma read_cluster_respects count lba size bytes : respects R (read_cluster r count lba size bytes).
Proof.
  revert lba bytes. induction count as [|count IH]; intros lba bytes; cbn [read_cluster]; repeat respects_step.
Qed.

Lemma read_chain_respects v budget cl size bytes : respects R (read_chain r v budget cl size bytes).
Proof.
  pose proof read_cluster_respects. pose proof (next_cluster_respects v).
  revert cl bytes. induction budget as [|budget IH]; intros cl bytes; cbn [read_chain];
    repeat respects_step.
Qed.

Lemma scan_cluster_respects count lba entries : respects R (scan_cluster r count lba entries).
Proof.
  revert lba entries. induction count as [|count IH]; intros lba entries; cbn [scan_cluster]; repeat respects_step.
Qed.

Lemma scan_chain_respects v budget cl entries : respects R (scan_chain r v budget cl entries).
Proof.
  pose proof scan_cluster_respects. pose proof (next_cluster_respects v).
  revert cl entries. induction budget as [|budget IH]; intros cl entries; cbn [scan_chain]; repeat respects_step.
Qed.

Lemma read_directory_respects v cl : respects R (read_directory r v cl).
Proof. pose proof (scan_chain_respects v). unfold read_directory. repeat respects_step. Qed.

Lemma locate_respects v path : respects R (locate r v path).
Proof.
  pose proof (read_directory_respects v).
  assert (∀ parts cl, respects R (locate_from r v cl parts)) as Hfrom.
  { induction parts as [|part rest IH]; intros cl; cbn [locate_from]; repeat respects_step. }
  unfold locate. repeat respects_step.
Qed.

Lemma kind_respects v path : respects R (kind r v path).
Proof. pose proof (locate_respects v). unfold kind. repeat respects_step. Qed.
Lemma metadata_respects v path : respects R (metadata r v path).
Proof. pose proof (locate_respects v). pose proof (read_directory_respects v). unfold metadata. repeat respects_step. Qed.
Lemma list_respects v path : respects R (list r v path).
Proof. pose proof (locate_respects v). pose proof (read_directory_respects v). unfold list. repeat respects_step. Qed.
Lemma read_respects v path : respects R (read r v path).
Proof. pose proof (locate_respects v). pose proof (read_chain_respects v). unfold read. repeat respects_step. Qed.
End respects.

(** ** Properties *)

(** The mount accepts only consistent geometry, whatever the disk says: the
    FAT, the data region and every cluster lie inside the partition, nothing
    overflows a sector number, the FAT has an entry for every cluster and the root
    directory starts inside the data region. *)
Theorem mount_accepts_only_valid_geometry {St} (r : Z → M St (Datatypes.list byte)) s v s' :
  mount r s = (Ok v, s') → valid_volume v.
Proof. apply mount_valid. Qed.

(** C34: on a mounted volume every operation consults sectors of the partition only:
    two disks that agree there give the same answers to [kind], [metadata], [list]
    and [read], whatever the paths and the directory contents. *)
Theorem operations_stay_inside_partition {St} (r r' : Z → M St (Datatypes.list byte)) v path s :
  valid_volume v → agree_inside v r r' →
  kind r v path s = kind r' v path s ∧ metadata r v path s = metadata r' v path s
  ∧ list r v path s = list r' v path s ∧ read r v path s = read r' v path s.
Proof.
  intros Hv Hr. unfold kind, metadata, list, read. split_and!;
    (apply M_bind_ext; [by apply locate_confined|]).
  - done.
  - intros [|e] s1; [|destruct (entry_kind e); [done|]];
      (apply M_bind_ext; [by apply read_directory_confined|done]).
  - intros located s1. apply M_bind_ext; [done|]. intros cl s2.
    apply M_bind_ext; [by apply read_directory_confined|done].
  - intros located s1. apply M_bind_ext; [done|]. intros e s2. apply M_bind_ext; [done|]. intros _ s3.
    destruct (entry_size e =? 0); [done|]. apply M_bind_ext; [done|]. intros _ s4. by apply read_chain_confined.
Qed.

(** A read that succeeds returns exactly as many bytes as the directory entry of
    the path says, never more than the 256 KiB limit; corrupt chains end in an
    error, not in a short or padded file. *)
Theorem read_returns_entry_size {St} (r : Z → M St (Datatypes.list byte)) v path s bytes s' :
  read r v path s = (Ok bytes, s') →
  ∃ e s1, locate r v path s = (Ok (LocatedEntry e), s1) ∧ entry_kind e = FatFile
    ∧ zlen bytes = Z.max 0 (entry_size e) ∧ entry_size e <= MAX_READ_FILE_SIZE.
Proof.
  unfold read. rewrite M_bind_Ok. intros (located & s1 & Hloc & H).
  apply M_bind_Ok in H as (e & s2 & He & H). destruct located as [|e']; [done|].
  destruct (entry_kind e') eqn:Hk; [|done]. injection He as -> ->.
  apply M_bind_Ok in H as ([] & s3 & [Hle ->]%mensure_Ok & H). bool_hyps. exists e, s3.
  split_and!; [done|done| |done].
  destruct (Z.eqb_spec (entry_size e) 0) as [H0|]; [injection H as <- _; by rewrite H0|].
  apply M_bind_Ok in H as ([] & s4 & _ & H). apply read_chain_length in H; [|simpl; lia].
  unfold zlen. lia.
Qed.

(** C35: an intact file is read completely.  When the path names a file whose cluster
    chain in the table is valid, no longer than the volume, and long enough, reading
    it returns the first [size] bytes of the chain's clusters, in order. *)
Theorem read_follows_chain {St} (c : Z → Datatypes.list byte) v path (s : St) e clusters :
  valid_volume v → (∀ x, length (c x) = 512%nat) →
  locate (perfect c) v path s = (Ok (LocatedEntry e), s) → entry_kind e = FatFile →
  0 < entry_size e <= MAX_READ_FILE_SIZE →
  fat_chain c v (first_cluster e) clusters → zlen clusters <= cluster_count v →
  entry_size e <= zlen (concat (cluster_data c v <$> clusters)) →
  read (perfect c) v path s
  = (Ok (take (Z.to_nat (entry_size e)) (concat (cluster_data c v <$> clusters))), s).
Proof.
  intros Hv Hc Hloc Hk Hsize Hchain Hcount Hlen. unfold zlen in *.
  unfold read, mbind at 1, M_bind at 1. rewrite Hloc, Hk. unfold mbind, M_bind, mret, M_ret, mensure, mlift, ensure.
  rewrite (proj2 (Z.ltb_ge _ _)) by lia. cbn [negb].
  rewrite (proj2 (Z.eqb_neq _ 0)) by lia.
  assert (2 <= first_cluster e < cluster_count v + 2) as Hfc by (by destruct Hchain as [? []|? ? ? []]).
  rewrite (proj2 (validate_cluster_Ok v _)) by done.
  rewrite (read_chain_perfect c v _ _ clusters); [|done|done|done|lia|simpl; lia|simpl; lia].
  by rewrite Nat.sub_0_r.
Qed.

(** *** Witnesses: a volume of 65,525 one-sector clusters at LBA 2048 *)

Definition w_bpb : Datatypes.list byte :=
  copy_at 510 [Byte.x55; Byte.xaa] (copy_at 44 (le_encode 4 2) (copy_at 36 (le_encode 4 512)
    (copy_at 32 (le_encode 4 (32 + 512 + 65525)) (copy_at 16 [Byte.x01] (copy_at 14 (le_encode 2 32)
      (copy_at 13 [Byte.x01] (copy_at 11 (le_encode 2 512) zero_sector))))))).
Definition w_mbr : Datatypes.list byte :=
  copy_at 510 [Byte.x55; Byte.xaa] (copy_at 458 (le_encode 4 (32 + 512 + 65525))
    (copy_at 454 (le_encode 4 2048) (copy_at 450 [Byte.x0c] zero_sector))).
(** The table: root in cluster 2, one file in clusters 3 and 4. *)
Definition w_fat : Datatypes.list byte :=
  copy_at 8 (le_encode 4 0x0FFFFFFF) (copy_at 12 (le_encode 4 4) (copy_at 16 (le_encode 4 0x0FFFFFFF) zero_sector)).
Definition w_dir : Datatypes.list byte :=
  copy_at 0 (bs "HELLO   TXT") (copy_at 26 (le_encode 2 3) (copy_at 28 (le_encode 4 600) zero_sector)).
Definition w_disk (lba : Z) : Datatypes.list byte :=
  if lba =? 0 then w_mbr else if lba =? 2048 then w_bpb else if lba =? 2080 then w_fat
  else if lba =? 2592 then w_dir else if lba =? 2593 then replicate 512 Byte.x61
  else if lba =? 2594 then replicate 512 Byte.x62 else zero_sector.

Definition w_volume : Fat32Volume :=
  {| partition_start := 2048; partition_sectors := 66069; sectors_per_cluster := 1; fat_start := 2080;
     fat_sectors := 512; data_start := 2592; root_cluster := 2; cluster_count := 65525 |}.

Lemma w_mounts : mount (perfect w_disk) tt = (Ok w_volume, tt).
Proof. by vm_compute. Qed.

Lemma mount_accepts_only_valid_geometry_witness : valid_volume w_volume.
Proof. apply (mount_accepts_only_valid_geometry (perfect w_disk) tt w_volume tt). by vm_compute. Defined.

Lemma w_valid : valid_volume w_volume.
Proof. apply (mount_valid (perfect w_disk) tt w_volume tt), w_mounts. Qed.

Lemma operations_stay_inside_partition_witness :
  let r := perfect w_disk in
  let r' := perfect (λ lba, if lba =? 0 then zero_sector else w_disk lba) in
  kind r w_volume (bs "/hello.txt") tt = kind r' w_volume (bs "/hello.txt") tt
  ∧ metadata r w_volume (bs "/hello.txt") tt = metadata r' w_volume (bs "/hello.txt") tt
  ∧ list r w_volume (bs "/hello.txt") tt = list r' w_volume (bs "/hello.txt") tt
  ∧ read r w_volume (bs "/hello.txt") tt = read r' w_volume (bs "/hello.txt") tt.
Proof.
  apply (operations_stay_inside_partition (perfect w_disk) (perfect (λ lba, if lba =? 0 then zero_sector else w_disk lba))
    w_volume (bs "/hello.txt") tt w_valid).
  intros lba Hlba s. unfold perfect. rewrite (proj2 (Z.eqb_neq lba 0)); [done|]. cbn in Hlba. lia.
Defined.

Lemma read_returns_entry_size_witness :
  ∃ e s1, locate (perfect w_disk) w_volume (bs "/hello.txt") tt = (Ok (LocatedEntry e), s1) ∧ entry_kind e = FatFile
    ∧ zlen (replicate 512 Byte.x61 ++ replicate 88 Byte.x62) = Z.max 0 (entry_size e)
    ∧ entry_size e <= MAX_READ_FILE_SIZE.
Proof.
  apply (read_returns_entry_size (perfect w_disk) w_volume (bs "/hello.txt") tt _ tt). by vm_compute.
Defined.

Lemma w_disk_sized x : length (w_disk x) = 512%nat.
Proof. unfold w_disk. repeat case_match; by vm_compute. Qed.

Definition w_entry : DirectoryEntry :=
  {| name := bs "HELLO.TXT"; entry_kind := FatFile; first_cluster := 3; entry_size := 600 |}.

Lemma read_follows_chain_witness :
  read (perfect w_disk) w_volume (bs "/hello.txt") tt
  = (Ok (take 600 (concat (cluster_data w_disk w_volume <$> [3; 4]))), tt).
Proof.
  apply (read_follows_chain w_disk w_volume (bs "/hello.txt") tt w_entry [3; 4] w_valid w_disk_sized);
    [by vm_compute|done|done| |done|by vm_compute].
  apply (fat_chain_step _ _ 3 4); [done|by vm_compute|]. by apply fat_chain_last.
Defined.

End fat32.
