(* ===== verification/Vfs.v ===== *)
(** The virtual filesystem of kernel/src/vfs.rs: path normalization, the mount
    table with longest-prefix dispatch, and the operations routed to the writable
    TuwaiqFS tree or the read-only FAT32 volume.

    [with_runtime_interrupts] only changes when interrupts may arrive and has no
    counterpart here; allocation failure is not represented. *)

From S2P Require Import Prelude Str Device Tree TuwaiqTree TuwaiqFs Fs FsPersist Fat32.

Definition PATH_MAX : Z := 120.
Definition NAME_MAX : Z := 64.
Definition MAX_MOUNTS : nat := 8.

Inductive NodeKind := NFile | NDirectory.
#[global] Instance NodeKind_eq_decision : EqDecision NodeKind.
Proof. solve_decision. Defined.

Record NodeMetadata := { node_kind : NodeKind; node_size : Z }.

Inductive Backend :=
| Tuwaiq
| Fat32 (volume : fat32.Fat32Volume).

Record Mount := { mount_path : str; label : str; read_only : bool; backend : Backend }.
Record MountInfo := { info_path : str; info_label : str; info_read_only : bool }.

(** ** Paths *)

Definition validate_component (component : str) : result unit :=
  _ ← ensure (negb ((zlen component =? 0) || (NAME_MAX <? zlen component))) "invalid path component length";
  ensure (negb (bool_decide (component = [dot]) || bool_decide (component = [dot; dot]))) "reserved path component".

Fixpoint validate_components (cs : list str) : result unit :=
  match cs with
  | [] => Ok tt
  | c :: rest => _ ← validate_component c; validate_components rest
  end.

(** One iteration of the loop of [normalize]. *)
Definition push_component (normalized component : str) : result str :=
  if bool_decide (component = []) || bool_decide (component = [dot]) then Ok normalized
  else if bool_decide (component = [dot; dot]) then
    if (1 <? length normalized)%nat then
      let separator := default 0%nat (rfind slash normalized) in
      Ok (take (separator `max` 1) normalized)
    else Ok normalized
  else
    _ ← validate_component component;
    let separator_len := if bool_decide (normalized = [slash]) then 0 else 1 in
    let new_len := zlen normalized + separator_len + zlen component in
    _ ← ensure (negb (PATH_MAX <? new_len)) "path too long";
    Ok ((if separator_len =? 0 then normalized else normalized ++ [slash]) ++ component).

Fixpoint push_components (normalized : str) (cs : list str) : result str :=
  match cs with
  | [] => Ok normalized
  | c :: rest => normalized ← push_component normalized c; push_components normalized rest
  end.

Definition bad_characters (path : str) : bool := contains backslash path || existsb is_control path.

Definition normalize (cwd input : str) : result str :=
  _ ← ensure (negb (bool_decide (input = []))) "path required";
  _ ← ensure (negb (negb (starts_with [slash] cwd) || (PATH_MAX <? zlen cwd))) "invalid working directory";
  _ ← ensure (negb (bad_characters input)) "invalid path character";
  normalized ←
    (if starts_with [slash] input then Ok [slash]
     else
       _ ← ensure (negb (bad_characters cwd || (ends_with slash cwd && negb (bool_decide (cwd = [slash])))))
             "invalid working directory";
       _ ← validate_components (components cwd);
       Ok cwd);
  push_components normalized (split_on slash input).

(** [path.rsplit('/').find(|part| !part.is_empty()).unwrap_or("process")] *)
Definition basename (path : str) : str := default (bs "process") (last (components path)).

(** ** The mount table *)

Definition mount_matches (mount absolute : str) : bool :=
  bool_decide (mount = [slash]) || bool_decide (absolute = mount)
  || match strip_prefix mount absolute with Some suffix => starts_with [slash] suffix | None => false end.

Definition register (table : list Mount) (path label : str) (read_only : bool) (backend : Backend)
    : result (list Mount) :=
  _ ← ensure (negb (MAX_MOUNTS <=? length table)%nat) "mount table full";
  normalized ← normalize [slash] path;
  _ ← ensure (negb (negb (bool_decide (normalized = path)) || existsb (λ m, bool_decide (mount_path m = path)) table))
        "invalid or duplicate mount path";
  Ok (table ++ [{| mount_path := normalized; label := label; read_only := read_only; backend := backend |}]).

(** [iter().filter(..).max_by_key(|mount| mount.path.len())]: the last of the longest *)
Definition longest_match (absolute : str) (table : list Mount) : option Mount :=
  foldl (λ best m,
    match best with
    | Some b => if zlen (mount_path b) <=? zlen (mount_path m) then Some m else best
    | None => Some m
    end) None (filter (λ m, mount_matches (mount_path m) absolute = true) table).

Definition resolve (table : list Mount) (absolute : str) : result (Mount * str) :=
  mount ← ok_or (longest_match absolute table) "no VFS mount for path";
  suffix ← (if bool_decide (mount_path mount = [slash]) then Ok absolute
            else ok_or (strip_prefix (mount_path mount) absolute) "mount prefix mismatch");
  Ok (mount, match suffix with [] => [slash] | _ => suffix end).

(** ** State and dispatch *)

Record vfs_state (D : Type) := VfsState {
  mount_table : option (list Mount);
  cwd : option str;
  storage : fs_state D;
}.
Arguments VfsState {D} mount_table cwd storage.
Arguments mount_table {D} v.
Arguments cwd {D} v.
Arguments storage {D} v.

Section vfs.
Context {D : Type} `{BlockDevice D}.
Implicit Types (s : vfs_state D).

Definition on_storage {A} (m : M (fs_state D) A) : M (vfs_state D) A := λ s,
  let '(r, st) := m (storage s) in (r, VfsState (mount_table s) (cwd s) st).

(** [ata::read_sector], as the FAT32 backend calls it *)
Definition ata_read (lba : Z) : M (vfs_state D) (list byte) := on_storage (on_store (TuwaiqFs.read lba)).

Definition mount_snapshot : M (vfs_state D) (list Mount) :=
  s ← mget; mlift (ok_or (mount_table s) "VFS not initialized").

(** The common prologue: normalize, take the table, resolve. *)
Definition resolve_path (cwd path : str) : M (vfs_state D) (Mount * str) :=
  absolute ← mlift (normalize cwd path);
  table ← mount_snapshot;
  mlift (resolve table absolute).

Definition fs_kind (k : Fs.EntryKind) : NodeKind := match k with KFile => NFile | KDirectory => NDirectory end.
Definition fat_kind (k : fat32.EntryKind) : NodeKind :=
  match k with fat32.FatFile => NFile | fat32.FatDirectory => NDirectory end.

Definition backend_kind (b : Backend) (path : str) : M (vfs_state D) NodeKind :=
  match b with
  | Tuwaiq => k ← on_storage (with_fs (λ f, kind_at f path)); mret (fs_kind k)
  | Fat32 volume => k ← fat32.kind ata_read volume path; mret (fat_kind k)
  end.

Definition kind (cwd path : str) : M (vfs_state D) NodeKind :=
  '(mount, backend_path) ← resolve_path cwd path;
  backend_kind (backend mount) backend_path.

Definition read_file (cwd path : str) : M (vfs_state D) (list byte) :=
  '(mount, backend_path) ← resolve_path cwd path;
  match backend mount with
  | Tuwaiq => on_storage (with_fs (λ f, read_at f backend_path))
  | Fat32 volume => fat32.read ata_read volume backend_path
  end.

(** The name under which a mount shows in the listing of its parent [absolute]. *)
Definition mount_child (absolute : str) (m : Mount) : option str :=
  if bool_decide (mount_path m = [slash]) then None
  else
    separator ← rfind slash (mount_path m);
    let parent := if bool_decide (separator = 0%nat) then [slash] else take separator (mount_path m) in
    if bool_decide (parent = absolute) then Some (drop (separator + 1) (mount_path m)) else None.

(** The loop of [list_dir] that adds the mount points below the directory. *)
Fixpoint add_mount_points (absolute : str) (table : list Mount) (entries : list str) : list str :=
  match table with
  | [] => entries
  | m :: rest =>
      add_mount_points absolute rest
        match mount_child absolute m with
        | Some child =>
            if existsb (λ entry, bool_decide (trim_end_matches slash entry = child)) entries then entries
            else entries ++ [child ++ [slash]]
        | None => entries
        end
  end.

Definition list_dir (cwd path : str) : M (vfs_state D) (list str) :=
  absolute ← mlift (normalize cwd path);
  table ← mount_snapshot;
  '(mount, backend_path) ← mlift (resolve table absolute);
  entries ← match backend mount with
            | Tuwaiq => on_storage (with_fs (λ f, list_at f backend_path))
            | Fat32 volume => fat32.list ata_read volume backend_path
            end;
  mret (add_mount_points absolute table entries).

Definition metadata (cwd path : str) : M (vfs_state D) NodeMetadata :=
  '(mount, backend_path) ← resolve_path cwd path;
  match backend mount with
  | Tuwaiq =>
      value ← on_storage (with_fs (λ f, metadata_at f backend_path));
      mret {| node_kind := fs_kind (Fs.kind value); node_size := Fs.size value |}
  | Fat32 volume =>
      value ← fat32.metadata ata_read volume backend_path;
      mret {| node_kind := fat_kind (fat32.meta_kind value); node_size := fat32.meta_size value |}
  end.

(** [mount.read_only || !matches!(mount.backend, Backend::Tuwaiq)] *)
Definition writable (mount : Mount) : bool :=
  negb (read_only mount || match backend mount with Tuwaiq => false | Fat32 _ => true end).

Definition mutate (cwd path : str) (f : str → M (fs_state D) unit) : M (vfs_state D) unit :=
  '(mount, backend_path) ← resolve_path cwd path;
  _ ← mensure (writable mount) "read-only filesystem";
  on_storage (f backend_path).

Definition create_file (cwd path : str) : M (vfs_state D) unit := mutate cwd path (λ p, run_op (CreateFile p)).
Definition create_dir (cwd path : str) : M (vfs_state D) unit := mutate cwd path (λ p, run_op (CreateDir p)).
Definition write_file (cwd path : str) (bytes : list byte) : M (vfs_state D) unit :=
  mutate cwd path (λ p, run_op (Write p bytes)).
Definition remove (cwd path : str) : M (vfs_state D) unit := mutate cwd path (λ p, run_op (Remove p)).

Definition sync : M (vfs_state D) unit := on_storage sync_to_disk.

Definition inject_interrupted_write (cwd path : str) (bytes : list byte) (data_sectors : nat)
    : M (vfs_state D) unit :=
  '(mount, backend_path) ← resolve_path cwd path;
  _ ← mensure (writable mount) "interrupted-write injection requires writable TuwaiqFS";
  on_storage (FsPersist.inject_interrupted_write backend_path bytes data_sectors).

Definition mounts : M (vfs_state D) (list MountInfo) :=
  table ← mount_snapshot;
  mret ((λ m, {| info_path := mount_path m; info_label := label m; info_read_only := read_only m |})
        <$> (table : list Mount)).

(** [init]: register the root if TuwaiqFS mounts and [/boot] if FAT32 does; the two
    registrations cannot fail ([expect]). *)
Definition init : M (vfs_state D) unit :=
  root_ok ← mtry (on_storage FsPersist.init);
  let table := [] in
  table ← (if is_ok root_ok then mlift (register table [slash] (bs "TuwaiqFS v3") false Tuwaiq) else mret table);
  volume ← mtry (fat32.mount ata_read);
  table ← match volume with
          | Ok volume => mlift (register table (bs "/boot") (bs "FAT32") true (Fat32 volume))
          | Err _ => mret table
          end;
  mmodify (λ s, VfsState (Some table) (Some [slash]) (storage s)).

(** ** The shell's working directory *)

Definition get_shell_cwd : M (vfs_state D) str :=
  s ← mget;
  cwd ← mlift (ok_or (cwd s) "VFS not initialized");
  _ ← mensure (negb (PATH_MAX <? zlen cwd)) "invalid shell working directory";
  mlift (from_utf8 cwd "invalid shell working directory").

Definition shell_pwd : M (vfs_state D) str := get_shell_cwd.

Definition shell_chdir (path : str) : M (vfs_state D) str :=
  current ← get_shell_cwd;
  target ← mlift (normalize current (trim path));
  k ← kind [slash] target;
  _ ← mensure (bool_decide (k = NDirectory)) "not a directory";
  _ ← mmodify (λ s, VfsState (mount_table s) (Some target) (storage s));
  mret target.

Definition shell_list (path : option str) : M (vfs_state D) (list str) :=
  cwd ← get_shell_cwd; list_dir cwd (default [dot] path).

Definition shell_read (path : str) : M (vfs_state D) str :=
  cwd ← get_shell_cwd;
  bytes ← read_file cwd (trim path);
  mlift (from_utf8 bytes "file is not UTF-8 text").

Definition shell_create_file (path : str) : M (vfs_state D) unit :=
  cwd ← get_shell_cwd; create_file cwd (trim path).
Definition shell_create_dir (path : str) : M (vfs_state D) unit :=
  cwd ← get_shell_cwd; create_dir cwd (trim path).
Definition shell_write (path text : str) : M (vfs_state D) unit :=
  cwd ← get_shell_cwd; write_file cwd (trim path) text.

Definition completion_candidates (token : str) : M (vfs_state D) (list str) :=
  cwd ← get_shell_cwd;
  let '(typed_parent, leaf) :=
    match rfind slash token with
    | Some index => (take (index + 1) token, drop (index + 1) token)
    | None => ([], token)
    end in
  let parent_query := match typed_parent with [] => [dot] | _ => typed_parent end in
  parent ← mlift (normalize cwd parent_query);
  entries ← list_dir [slash] parent;
  mret ((λ entry, typed_parent ++ entry)
        <$> filter (λ entry, starts_with leaf (trim_end_matches slash entry) = true) (entries : list str)).
End vfs.

(** ** Normalization as a stack of components *)

Definition spec_push (parts : list str) (component : str) : result (list str) :=
  if bool_decide (component = []) || bool_decide (component = [dot]) then Ok parts
  else if bool_decide (component = [dot; dot]) then Ok (take (length parts - 1) parts)
  else
    _ ← validate_component component;
    _ ← ensure (negb (PATH_MAX <? zlen (absolute (parts ++ [component])))) "path too long";
    Ok (parts ++ [component]).

Fixpoint spec_pushes (parts : list str) (cs : list str) : result (list str) :=
  match cs with
  | [] => Ok parts
  | c :: rest => parts ← spec_push parts c; spec_pushes parts rest
  end.

Lemma absolute_nonempty parts : absolute parts ≠ [].
Proof. by destruct parts. Qed.

Lemma absolute_root parts : Forall is_component parts → absolute parts = [slash] ↔ parts = [].
Proof.
  intros Hp. split; [|by intros ->]. destruct parts as [|p ps]; [done|]. unfold absolute.
  intros E. assert (join_components (p :: ps) = []) as Hn by congruence.
  by apply join_components_nil_iff in Hn.
Qed.

Lemma length_absolute_gt parts : Forall is_component parts → parts ≠ [] → (1 < length (absolute parts))%nat.
Proof.
  intros Hp Hne. destruct parts as [|p ps]; [done|]. unfold absolute.
  destruct (join_components (p :: ps)) eqn:E; [by apply join_components_nil_iff in E|simpl; lia].
Qed.

Lemma spec_push_components parts c parts' :
  Forall is_component parts → slash ∉ c → spec_push parts c = Ok parts' → Forall is_component parts'.
Proof.
  intros Hp Hs. unfold spec_push. destruct (_ || _) eqn:E; [by intros [= <-]|].
  bool_hyps. case_bool_decide; [intros [= <-]; by apply Forall_take|].
  intros ([] & _ & Hb)%bind_Ok. apply bind_Ok in Hb as ([] & _ & [= <-]).
  apply Forall_app. split; [done|]. by constructor.
Qed.

Lemma push_component_spec parts c :
  Forall is_component parts → slash ∉ c → push_component (absolute parts) c = absolute <$> spec_push parts c.
Proof.
  intros Hp Hs. unfold push_component, spec_push. destruct (_ || _) eqn:Hskip; [done|]. bool_hyps.
  case_bool_decide as Hdd.
  - destruct parts as [|q ps _] using rev_ind; [done|].
    rewrite (proj2 (Nat.ltb_lt _ _)) by (apply length_absolute_gt; [done|by destruct ps]).
    apply Forall_app in Hp as [Hps [[Hq Hsq] _]%Forall_cons].
    rewrite length_app. cbn [length]. rewrite Nat.add_sub, take_app_length. cbn [fmap result_fmap]. f_equal.
    rewrite absolute_app. destruct ps as [|p0 ps].
    + pose proof (rfind_app slash [] q Hsq) as Hr. cbn [app] in Hr. by rewrite Hr.
    + rewrite rfind_app by done. cbn [default]. rewrite Nat.max_l by (unfold absolute; simpl; lia).
      apply take_app_length.
  - destruct (validate_component c) as [[]|]; [|done]. cbn [mbind result_bind].
    assert (zlen (absolute parts) + (if bool_decide (absolute parts = [slash]) then 0 else 1) + zlen c
            = zlen (absolute (parts ++ [c]))) as ->.
    { rewrite absolute_app. destruct parts as [|q ps].
      - rewrite bool_decide_eq_true_2 by done. by rewrite zlen_cons.
      - rewrite bool_decide_eq_false_2; [rewrite zlen_app, zlen_cons; lia|].
        rewrite absolute_root by done. done. }
    destruct (PATH_MAX <? _); [done|]. cbn [fmap result_fmap mbind result_bind ensure negb].
    rewrite absolute_app. destruct parts as [|q ps].
    + by rewrite bool_decide_eq_true_2.
    + rewrite bool_decide_eq_false_2; [change (1 =? 0) with false; cbv iota; by rewrite <- app_assoc|]. rewrite absolute_root by done. done.
Qed.

Lemma push_components_spec parts cs :
  Forall is_component parts → Forall (λ c, slash ∉ c) cs →
  push_components (absolute parts) cs = absolute <$> spec_pushes parts cs.
Proof.
  revert parts. induction cs as [|c cs IH]; intros parts Hp Hcs; [done|].
  apply Forall_cons in Hcs as [Hc Hcs]. cbn [push_components spec_pushes]. rewrite push_component_spec by done.
  destruct (spec_push parts c) as [parts'|] eqn:E; [|done]. apply IH; [|done]. by eapply spec_push_components.
Qed.

(** The directory a relative path starts from and an absolute one does not. *)
Definition start_parts (cwd_parts : list str) (input : str) : list str :=
  if starts_with [slash] input then [] else cwd_parts.

Lemma bad_characters_false path :
  bad_characters path = false ↔ ∀ b, b ∈ path → b ≠ backslash ∧ is_control b = false.
Proof.
  unfold bad_characters. rewrite orb_false_iff, contains_false, <- Bool.not_true_iff_false, existsb_exists.
  setoid_rewrite <- list_elem_of_In. split.
  - intros [Hb Hc] b Hin. split; [by intros ->|]. destruct (is_control b) eqn:E; [|done]. destruct Hc. eauto.
  - intros Hall. split; [by intros [? _]%Hall|]. intros (b & [_ Hc]%Hall & Ht). by rewrite Hc in Ht.
Qed.

Lemma valid_name_validate c : valid_name c = true → validate_component c = Ok tt.
Proof.
  rewrite valid_name_spec. intros ([Hne Hs] & Hlen & Hd & Hdd & _). unfold validate_component, NAME_MAX.
  rewrite !bool_decide_eq_false_2 by done. rewrite (proj2 (Z.ltb_ge 64 (zlen c))) by done.
  destruct (Z.eqb_spec (zlen c) 0) as [E|]; [by apply zlen_0_inv in E|done].
Qed.

Lemma validate_component_Ok c :
  validate_component c = Ok tt → c ≠ [] ∧ zlen c <= 64 ∧ c ≠ [dot] ∧ c ≠ [dot; dot].
Proof.
  unfold validate_component, NAME_MAX. rewrite bind_Ok. intros ([] & H1%ensure_Ok & H2%ensure_Ok). bool_hyps.
  split_and!; try done. by intros ->.
Qed.

Lemma absolute_elem b parts : b ∈ absolute parts → b = slash ∨ ∃ p, p ∈ parts ∧ b ∈ p.
Proof.
  unfold absolute. destruct parts as [|p ps]; [intros ->%list_elem_of_singleton; by left|].
  intros [->|Hin]%elem_of_cons; [by left|]. by apply elem_of_join.
Qed.

Lemma absolute_chars parts : valid_parts parts → bad_characters (absolute parts) = false.
Proof.
  intros Hv. apply bad_characters_false. intros b [->|(p & Hp & Hb)]%absolute_elem; [done|].
  pose proof (valid_parts_elem _ _ Hv Hp) as (_&_&_&_&Hbs&_)%valid_name_spec. by apply Hbs.
Qed.

Lemma absolute_ends parts : Forall is_component parts → parts ≠ [] → ends_with slash (absolute parts) = false.
Proof.
  intros Hp Hne. pose proof (join_ends parts Hp) as Hj. unfold absolute. destruct parts as [|p ps]; [done|].
  destruct (join_components (p :: ps)) eqn:E; [by apply join_components_nil_iff in E|]. done.
Qed.

Lemma starts_with_absolute parts : starts_with [slash] (absolute parts) = true.
Proof. apply starts_with_slash. destruct parts; eauto. Qed.

Lemma validate_components_valid parts : valid_parts parts → validate_components parts = Ok tt.
Proof. induction 1 as [|c cs Hc Hcs IH]; [done|]. cbn. by rewrite valid_name_validate. Qed.

Lemma normalize_stack parts input :
  valid_parts parts → zlen (absolute parts) <= PATH_MAX →
  normalize (absolute parts) input =
    (_ ← ensure (negb (bool_decide (input = []))) "path required";
     _ ← ensure (negb (bad_characters input)) "invalid path character";
     absolute <$> spec_pushes (start_parts parts input) (split_on slash input)).
Proof.
  intros Hv Hlen. pose proof (valid_parts_components _ Hv) as Hc. unfold normalize.
  destruct (ensure (negb (bool_decide (input = []))) _); [|done]. cbn [mbind result_bind].
  rewrite starts_with_absolute, (proj2 (Z.ltb_ge _ _)) by done. cbn [negb orb ensure mbind result_bind].
  destruct (bad_characters input); [done|]. cbn [negb ensure mbind result_bind]. unfold start_parts.
  assert (Forall (λ c, slash ∉ c) (split_on slash input)) as Hsplit.
  { apply Forall_forall. intros c Hin. by eapply split_on_pieces. }
  destruct (starts_with [slash] input).
  - cbn [mbind result_bind]. by apply (push_components_spec []).
  - rewrite absolute_chars, components_absolute, validate_components_valid by done.
    assert (ends_with slash (absolute parts) && negb (bool_decide (absolute parts = [slash])) = false) as ->.
    { destruct (decide (parts = [])) as [->|Hne]; [done|]. by rewrite absolute_ends. }
    cbn. by apply push_components_spec.
Qed.

Lemma spec_pushes_valid parts cs parts' :
  valid_parts parts → zlen (absolute parts) <= PATH_MAX →
  Forall (λ c, slash ∉ c ∧ utf8_valid c = true ∧ ∀ b, b ∈ c → b ≠ backslash ∧ is_control b = false) cs →
  spec_pushes parts cs = Ok parts' → valid_parts parts' ∧ zlen (absolute parts') <= PATH_MAX.
Proof.
  revert parts. induction cs as [|c cs IH]; intros parts Hv Hlen Hcs; cbn [spec_pushes]; [by intros [= <-]|].
  apply Forall_cons in Hcs as [(Hs & Hu & Hb) Hcs]. intros (p1 & Hpush & Hrest)%bind_Ok.
  apply IH in Hrest; [done|..|done]; revert Hpush; unfold spec_push; (destruct (_ || _); [by intros [= <-]|]);
    case_bool_decide.
  - intros [= <-]. by apply Forall_take.
  - intros ([] & Hval%validate_component_Ok & H1)%bind_Ok. apply bind_Ok in H1 as ([] & _ & [= <-]).
    apply Forall_app. split; [done|]. constructor; [|done]. apply valid_name_spec. unfold is_component. naive_solver.
  - intros [= <-]. destruct parts as [|q ps _] using rev_ind; [done|].
    rewrite length_app. cbn [length]. rewrite Nat.add_sub, take_app_length.
    rewrite absolute_app in Hlen. destruct ps as [|p0 ps]; [by vm_compute|].
    rewrite zlen_app in Hlen. pose proof (zlen_nonneg (slash :: q)). lia.
  - intros ([] & _ & H1)%bind_Ok. apply bind_Ok in H1 as ([] & Hl%ensure_Ok & [= <-]). bool_hyps. lia.
Qed.

Lemma normalize_result_canonical wd input p :
  canonical wd → utf8_valid input = true → normalize wd input = Ok p → canonical p.
Proof.
  intros (parts & -> & Hv & Hlen) Hu. rewrite normalize_stack by done.
  rewrite ensure_bind_Ok. intros [_ H]. rewrite ensure_bind_Ok in H. destruct H as [Hbad H].
  destruct (spec_pushes _ _) as [parts'|] eqn:E; [|done]. injection H as <-. bool_hyps.
  rewrite bad_characters_false in Hbad.
  destruct (spec_pushes_valid (start_parts parts input) (split_on slash input) parts') as [Hv' Hl']; [..|done|by exists parts'].
  - unfold start_parts. destruct (starts_with _ _); [constructor|done].
  - unfold start_parts. by destruct (starts_with _ _).
  - pose proof (utf8_split slash input eq_refl Hu) as Hus. rewrite Forall_forall in Hus |- *.
    intros c Hc. split_and!; [by eapply split_on_pieces|by apply Hus|].
    intros b Hb. apply Hbad. rewrite <- (join_split input). by eapply elem_of_join_part.
Qed.

Lemma spec_pushes_self pre parts :
  valid_parts parts → zlen (absolute (pre ++ parts)) <= PATH_MAX → Forall is_component pre →
  spec_pushes pre parts = Ok (pre ++ parts).
Proof.
  revert pre. induction parts as [|c parts IH]; intros pre Hv Hlen Hpre; [by rewrite app_nil_r|].
  apply Forall_cons in Hv as [Hc Hv]. cbn [spec_pushes].
  pose proof (valid_name_validate _ Hc) as Hval. apply validate_component_Ok in Hval as Hfacts.
  destruct Hfacts as (Hne & _ & Hd & Hdd). unfold spec_push.
  rewrite !bool_decide_eq_false_2 by done. rewrite Hval. cbn [orb mbind result_bind].
  assert (Forall is_component (pre ++ [c])) as Hpc.
  { apply Forall_app. split; [done|]. constructor; [|done]. by apply valid_name_component. }
  assert (zlen (absolute (pre ++ [c])) <= PATH_MAX) as Hl.
  { etrans; [|exact Hlen]. clear -Hpc. change (c :: parts) with ([c] ++ parts). rewrite app_assoc.
    generalize (pre ++ [c]). intros l. induction parts as [|q parts IH] using rev_ind; [by rewrite app_nil_r|].
    rewrite app_assoc, absolute_app. destruct (l ++ parts) eqn:E.
    { apply app_nil in E as [-> ->]. rewrite zlen_cons. pose proof (zlen_nonneg q). change (zlen (absolute [])) with 1. lia. }
    rewrite zlen_app. pose proof (zlen_nonneg (slash :: q)). lia. }
  rewrite (proj2 (Z.ltb_ge _ _)) by done. cbn. rewrite IH; [by rewrite <- app_assoc|done| |done].
  by rewrite <- app_assoc.
Qed.

Lemma split_absolute parts :
  Forall is_component parts → split_on slash (absolute parts) = [] :: match parts with [] => [[]] | _ => parts end.
Proof.
  intros Hp. unfold absolute. destruct parts as [|p ps]; [done|].
  change (slash :: join_components (p :: ps)) with ([] ++ slash :: join_components (p :: ps)).
  rewrite split_on_app, split_join; [done|done|].
  eapply Forall_impl; [exact Hp|]. intros x [_ Hx]. exact Hx.
Qed.

Lemma normalize_canonical wd p : canonical wd → canonical p → normalize wd p = Ok p.
Proof.
  intros (parts' & -> & Hv' & Hlen') (parts & -> & Hv & Hlen). pose proof (valid_parts_components _ Hv) as Hc.
  rewrite normalize_stack by done. unfold start_parts.
  rewrite bool_decide_eq_false_2 by apply absolute_nonempty.
  rewrite absolute_chars, starts_with_absolute, split_absolute by done. cbn.
  destruct parts as [|q ps]; [done|]. by rewrite (spec_pushes_self []).
Qed.

(** ** Mount matching is the prefix order on components *)

Lemma absolute_inj parts parts' :
  Forall is_component parts → Forall is_component parts' → absolute parts = absolute parts' → parts = parts'.
Proof. intros H H' E. rewrite <- (components_absolute parts), E by done. by apply components_absolute. Qed.

Lemma join_app parts rest :
  parts ≠ [] → rest ≠ [] → join_components (parts ++ rest) = join_components parts ++ slash :: join_components rest.
Proof.
  intros Hp Hr. induction parts as [|p ps IH]; [done|]. destruct ps as [|q ps].
  - cbn [app join_components]. by destruct rest.
  - change (join_components ((p :: q :: ps) ++ rest)) with (p ++ slash :: join_components ((q :: ps) ++ rest)).
    rewrite IH by done. change (join_components (p :: q :: ps)) with (p ++ slash :: join_components (q :: ps)).
    by rewrite <- app_assoc.
Qed.

Lemma absolute_app_rest parts rest :
  parts ≠ [] → rest ≠ [] → absolute (parts ++ rest) = absolute parts ++ absolute rest.
Proof.
  intros Hp Hr. pose proof (join_app parts rest Hp Hr) as Hj.
  destruct parts as [|p ps], rest as [|r rs]; try done. unfold absolute at 1 2 3. cbn [app].
  change (p :: ps ++ r :: rs) with ((p :: ps) ++ r :: rs). by rewrite Hj.
Qed.

Lemma absolute_prefix_length parts rest : zlen (absolute parts) <= zlen (absolute (parts ++ rest)).
Proof.
  destruct rest as [|r rs]; [by rewrite app_nil_r|]. destruct parts as [|p ps].
  - change (zlen (absolute [])) with 1. cbn [app]. unfold absolute. rewrite zlen_cons.
    pose proof (zlen_nonneg (join_components (r :: rs))). lia.
  - rewrite absolute_app_rest by done. rewrite zlen_app. pose proof (zlen_nonneg (absolute (r :: rs))). lia.
Qed.

Lemma absolute_prefix_strict parts rest :
  Forall is_component rest → rest ≠ [] → zlen (absolute parts) < zlen (absolute (parts ++ rest)).
Proof.
  intros Hr Hne. destruct parts as [|p ps].
  - pose proof (length_absolute_gt rest Hr Hne). change (zlen (absolute [])) with 1. unfold zlen. simpl. lia.
  - rewrite absolute_app_rest, zlen_app by done. pose proof (length_absolute_gt rest Hr Hne). unfold zlen in *. lia.
Qed.

Lemma strip_absolute parts rest :
  parts ≠ [] → strip_prefix (absolute parts) (absolute (parts ++ rest))
             = Some (match rest with [] => [] | _ => absolute rest end).
Proof.
  intros Hp. apply strip_prefix_Some. destruct rest as [|r rs]; [by rewrite !app_nil_r|].
  by apply absolute_app_rest.
Qed.

Lemma mount_matches_prefix mp q :
  Forall is_component mp → Forall is_component q →
  mount_matches (absolute mp) (absolute q) = true ↔ mp `prefix_of` q.
Proof.
  intros Hmp Hq. unfold mount_matches. split.
  - intros [[Hroot|Heq]%orb_true_iff|Hstrip]%orb_true_iff.
    + apply bool_decide_eq_true, absolute_root in Hroot as ->; [|done]. apply prefix_nil.
    + apply bool_decide_eq_true, absolute_inj in Heq as ->; done.
    + destruct (strip_prefix _ _) as [suffix|] eqn:E; [|done]. apply strip_prefix_Some in E.
      apply starts_with_slash in Hstrip as [t ->]. exists (components t).
      rewrite <- (components_absolute q), E, components_app by done. by rewrite components_absolute.
  - intros [rest ->]. destruct mp as [|p ps]; [done|]. rewrite strip_absolute by done.
    destruct rest as [|r rs].
    + rewrite app_nil_r, (bool_decide_eq_true_2 (absolute (p :: ps) = absolute (p :: ps))) by done.
      by rewrite orb_true_r.
    + rewrite starts_with_absolute. by rewrite orb_true_r.
Qed.

(** ** The mount table *)

Record table_ok (table : list Mount) : Prop := {
  table_bound : (length table ≤ MAX_MOUNTS)%nat;
  table_canonical : Forall (λ m, canonical (mount_path m)) table;
  table_distinct : NoDup (mount_path <$> table);
}.

Lemma canonical_root : canonical [slash].
Proof. exists []. split_and!; [done|constructor|by vm_compute]. Qed.

Lemma register_ok table path label ro b table' :
  table_ok table → utf8_valid path = true → register table path label ro b = Ok table' → table_ok table'.
Proof.
  intros [Hb Hc Hd] Hu. unfold register. rewrite ensure_bind_Ok. intros [Hlen H].
  apply bind_Ok in H as (n & Hn & H). rewrite ensure_bind_Ok in H. destruct H as [Hnew [= <-]]. bool_hyps.
  pose proof (normalize_result_canonical _ _ _ canonical_root Hu Hn) as Hcan.
  apply Nat.leb_gt in Hlen. split.
  - rewrite length_app. simpl. lia.
  - apply Forall_app. split; [done|]. by constructor.
  - rewrite fmap_app. apply NoDup_app. split_and!; [done| |by apply NoDup_singleton].
    intros p Hp ->%list_elem_of_singleton. cbn in Hp.
    apply list_elem_of_fmap in Hp as (m & Hm & Hin). apply Bool.not_true_iff_false in H0. apply H0.
    apply existsb_exists. exists m. split; [by apply list_elem_of_In|]. apply bool_decide_eq_true. congruence.
Qed.

Lemma longest_match_spec absolute table :
  match longest_match absolute table with
  | Some m => m ∈ table ∧ mount_matches (mount_path m) absolute = true
              ∧ ∀ m', m' ∈ table → mount_matches (mount_path m') absolute = true →
                  zlen (mount_path m') <= zlen (mount_path m)
  | None => ∀ m', m' ∈ table → mount_matches (mount_path m') absolute = false
  end.
Proof.
  unfold longest_match. set (l := filter _ table).
  assert (∀ m, m ∈ l ↔ mount_matches (mount_path m) absolute = true ∧ m ∈ table) as Hl
    by (intros m; unfold l; by rewrite list_elem_of_filter).
  assert (∀ best,
    match foldl (λ best m, match best with
            | Some b => if zlen (mount_path b) <=? zlen (mount_path m) then Some m else best
            | None => Some m end) best l with
    | Some m => (m ∈ l ∨ best = Some m) ∧ (∀ m', m' ∈ l → zlen (mount_path m') <= zlen (mount_path m))
                ∧ (∀ b, best = Some b → zlen (mount_path b) <= zlen (mount_path m))
    | None => best = None ∧ l = []
    end) as Hfold.
  { clear Hl. induction l as [|m l IH]; intros best; cbn [foldl].
    { destruct best; [|done]. split_and!; [by right|by intros ? ?%elem_of_nil|by intros ? [= <-]]. }
    specialize (IH (match best with
      | Some b => if zlen (mount_path b) <=? zlen (mount_path m) then Some m else best | None => Some m end)).
    destruct (foldl _ _ l) as [m1|]; [|destruct IH as [Hbad _]; destruct best; [case_match|]; done].
    destruct IH as (Hin & Hmax & Hb). split_and!.
    - destruct Hin as [Hin|Hin]; [left; by right|].
      destruct best as [b|]; [destruct (zlen (mount_path b) <=? _)|]; simplify_eq; [left; by left|by right|left; by left].
    - intros m' [->|Hm']%elem_of_cons; [|by apply Hmax].
      destruct best as [b|]; [destruct (Z.leb_spec (zlen (mount_path b)) (zlen (mount_path m)))|]; [by apply Hb| |by apply Hb].
      specialize (Hb b eq_refl). lia.
    - intros b ->. destruct (Z.leb_spec (zlen (mount_path b)) (zlen (mount_path m))); [|by apply Hb].
      specialize (Hb m eq_refl). lia. }
  specialize (Hfold None). destruct (foldl _ None l) as [m|].
  - destruct Hfold as ([Hin|] & Hmax & _); [|done]. apply Hl in Hin as [Hm Hin]. split_and!; [done|done|].
    intros m' Hin' Hm'. apply Hmax. by apply Hl.
  - destruct Hfold as [_ Hnil]. intros m' Hin. destruct (mount_matches (mount_path m') absolute) eqn:E; [|done].
    assert (m' ∈ l) by (by apply Hl). rewrite Hnil in *. by apply elem_of_nil in H.
Qed.

Lemma prefix_of_shorter mp mp' q :
  Forall is_component q → mp `prefix_of` q → mp' `prefix_of` q →
  zlen (absolute mp') <= zlen (absolute mp) → mp' `prefix_of` mp.
Proof.
  intros Hq H1 H2 Hlen. destruct (prefix_weak_total mp mp' q H1 H2) as [[k ->]|?]; [|done].
  destruct (decide (k = [])) as [->|Hk]; [by rewrite app_nil_r|].
  pose proof (absolute_prefix_strict mp k). destruct H2 as [j ->].
  apply Forall_app in Hq as [Hq _]. apply Forall_app in Hq as [_ Hq]. specialize (H Hq Hk). lia.
Qed.

(** The mount a path resolves to, in components. *)
Lemma resolve_spec table q m bp :
  table_ok table → valid_parts q → resolve table (absolute q) = Ok (m, bp) →
  ∃ mp rest, m ∈ table ∧ mount_path m = absolute mp ∧ q = mp ++ rest ∧ bp = absolute rest
    ∧ ∀ m' mp', m' ∈ table → mount_path m' = absolute mp' → Forall is_component mp' →
        mp' `prefix_of` q → mp' `prefix_of` mp.
Proof.
  intros [_ Hc _] Hq. pose proof (valid_parts_components _ Hq) as Hqc. unfold resolve.
  rewrite bind_Ok. intros (m1 & Hm%ok_or_Ok & H). pose proof (longest_match_spec (absolute q) table) as Hspec.
  rewrite Hm in Hspec. destruct Hspec as (Hin & Hmatch & Hmax).
  pose proof (proj1 (Forall_forall _ _) Hc _ Hin) as (mp & Hmp & Hvmp & _).
  pose proof (valid_parts_components _ Hvmp) as Hmpc. rewrite Hmp in Hmatch.
  apply mount_matches_prefix in Hmatch as Hpre; [|done|done]. destruct Hpre as [rest ->].
  apply bind_Ok in H as (suffix & Hsuf & [= <- <-]).
  exists mp, rest. split_and!; [done|done|done| |].
  - rewrite Hmp in Hsuf. destruct (decide (mp = [])) as [->|Hne].
    + rewrite bool_decide_eq_true_2 in Hsuf by done. cbn [app] in Hsuf. injection Hsuf as <-. by destruct rest.
    + rewrite bool_decide_eq_false_2 in Hsuf by (by rewrite absolute_root).
      apply ok_or_Ok in Hsuf. rewrite strip_absolute in Hsuf by done. injection Hsuf as <-. by destruct rest.
  - intros m' mp' Hin' Hmp' Hc' Hpre. apply (prefix_of_shorter mp mp' (mp ++ rest)); [done|by eexists|done|].
    rewrite <- Hmp, <- Hmp'. apply Hmax; [done|]. rewrite Hmp'. by apply mount_matches_prefix.
Qed.

Lemma resolve_canonical table wd path absolute m bp :
  table_ok table → canonical wd → utf8_valid path = true →
  normalize wd path = Ok absolute → resolve table absolute = Ok (m, bp) → canonical bp.
Proof.
  intros Ht Hwd Hu Hn Hr. destruct (normalize_result_canonical _ _ _ Hwd Hu Hn) as (q & -> & Hq & Hlen).
  destruct (resolve_spec _ _ _ _ Ht Hq Hr) as (mp & rest & _ & _ & -> & -> & _).
  apply Forall_app in Hq as [Hmp Hrest]. exists rest. split_and!; [done|done|].
  destruct (decide (mp = [])) as [->|Hne]; [done|]. destruct rest as [|r rs]; [by vm_compute|].
  rewrite absolute_app_rest, zlen_app in Hlen by done. pose proof (zlen_nonneg (absolute mp)). lia.
Qed.

(** ** Mount points in listings *)

Lemma trim_end_no_sep c p : c ∉ p → trim_end_matches c p = p.
Proof.
  induction p as [|b p IH]; [done|]. rewrite not_elem_of_cons. intros [Hb Hp]. cbn. rewrite IH by done.
  destruct p; [by rewrite decide_False by congruence|done].
Qed.

Lemma trim_end_app_sep c p : c ∉ p → trim_end_matches c (p ++ [c]) = p.
Proof.
  induction p as [|b p IH]; [intros _; cbn; by rewrite decide_True|]. rewrite not_elem_of_cons. intros [Hb Hp].
  cbn. rewrite IH by done. destruct p; [by rewrite decide_False by congruence|done].
Qed.

Lemma mount_child_parent q n m :
  Forall is_component q → is_component n → mount_path m = absolute (q ++ [n]) → mount_child (absolute q) m = Some n.
Proof.
  intros Hq [Hn Hs] Hm. unfold mount_child. rewrite Hm.
  rewrite bool_decide_eq_false_2.
  2:{ rewrite absolute_root; [by destruct q|]. apply Forall_app. split; [done|]. by constructor. }
  rewrite absolute_app. destruct q as [|p ps].
  - pose proof (rfind_app slash [] n Hs) as Hr. cbn [app length] in Hr. rewrite Hr. cbn.
    by rewrite bool_decide_eq_true_2.
  - rewrite rfind_app by done. cbn [mbind option_bind].
    rewrite (bool_decide_eq_false_2 (length (absolute (p :: ps)) = 0%nat)) by done.
    rewrite take_app_length, bool_decide_eq_true_2 by done.
    rewrite (cons_middle slash), app_assoc. by rewrite drop_app_length' by (rewrite length_app; simpl; lia).
Qed.

Lemma add_mount_points_spec absolute table entries :
  entries `prefix_of` add_mount_points absolute table entries
  ∧ ∀ m n, m ∈ table → mount_child absolute m = Some n → slash ∉ n →
      ∃ e, e ∈ add_mount_points absolute table entries ∧ trim_end_matches slash e = n.
Proof.
  revert entries. induction table as [|m table IH]; intros entries; cbn [add_mount_points].
  { split; [done|]. by intros m n ?%elem_of_nil. }
  set (entries' := match mount_child absolute m with Some _ => _ | None => entries end).
  assert (entries `prefix_of` entries') as Hpre.
  { subst entries'. destruct (mount_child absolute m); [case_match; [done|by eexists]|done]. }
  destruct (IH entries') as [Hpre' Hmounts]. split; [by etrans|].
  intros m' n [->|Hin]%elem_of_cons Hchild Hs; [|by eapply Hmounts].
  assert (∃ e, e ∈ entries' ∧ trim_end_matches slash e = n) as (e & He & Htrim).
  { subst entries'. rewrite Hchild. destruct (existsb _ entries) eqn:Hex.
    - apply existsb_exists in Hex as (e & He%list_elem_of_In & Heq). bool_hyps. eauto.
    - exists (n ++ [slash]). split; [set_solver|by apply trim_end_app_sep]. }
  exists e. split; [|done]. destruct Hpre' as [k ->]. apply elem_of_app. by left.
Qed.

(** ** Operations *)

Section specs.
Context {D : Type} `{BlockDeviceSpec D}.
Implicit Types (s : vfs_state D).

Lemma resolve_path_unfold wd path s :
  resolve_path wd path s =
    (match normalize wd path with
     | Err e => Err e
     | Ok absolute =>
         match mount_table s with
         | None => Err "VFS not initialized"
         | Some table => resolve table absolute
         end
     end, s).
Proof.
  unfold resolve_path, mount_snapshot, mbind, M_bind, mget, mlift. destruct (normalize wd path); [|done].
  cbn. by destruct (mount_table s).
Qed.

(** The four mutations a client can ask for. *)
Inductive vfs_op :=
| VCreateFile
| VCreateDir
| VWrite (bytes : list byte)
| VRemove.

Definition backend_op (op : vfs_op) (path : str) : fs_op :=
  match op with
  | VCreateFile => CreateFile path
  | VCreateDir => CreateDir path
  | VWrite bytes => Write path bytes
  | VRemove => Remove path
  end.

Definition vfs_run (op : vfs_op) (wd path : str) : M (vfs_state D) unit :=
  match op with
  | VCreateFile => create_file wd path
  | VCreateDir => create_dir wd path
  | VWrite bytes => write_file wd path bytes
  | VRemove => remove wd path
  end.

Lemma vfs_run_mutate op wd path : vfs_run op wd path = mutate wd path (λ p, run_op (backend_op op p)).
Proof. by destruct op. Qed.

(** The VFS between operations: a well-formed table, a canonical shell directory and
    a storage layer ready at [f]. *)
Definition vfs_ready s (table : list Mount) (f : FileSystem) : Prop :=
  mount_table s = Some table ∧ table_ok table ∧ (∃ wd, cwd s = Some wd ∧ canonical wd) ∧ ready (storage s) f.

Lemma mutate_resolved wd path f m bp s :
  resolve_path wd path s = (Ok (m, bp), s) →
  mutate wd path f s = (if writable m then on_storage (f bp) s else (Err "read-only filesystem", s)).
Proof.
  intros Hr. unfold mutate, mbind at 1, M_bind at 1. rewrite Hr. unfold mbind, M_bind, mensure, mlift, ensure.
  by destruct (writable m).
Qed.

Lemma mutate_unresolved wd path f e s :
  resolve_path wd path s = (Err e, s) → mutate wd path f s = (Err e, s).
Proof. intros Hr. unfold mutate, mbind at 1, M_bind at 1. by rewrite Hr. Qed.

(** Table and working directory as they were. *)
Definition same_names s s' : Prop := cwd s' = cwd s ∧ mount_table s' = mount_table s.

#[global] Instance same_names_preorder : PreOrder same_names.
Proof. split; [done|]. intros s1 s2 s3 [? ?] [? ?]. split; congruence. Qed.

Lemma on_storage_names {A} (m : M (fs_state D) A) : respects same_names (on_storage m).
Proof. intros s r s'. unfold on_storage. destruct (m (storage s)). by intros [= <- <-]. Qed.

Lemma kind_names wd path : respects same_names (kind wd path).
Proof.
  unfold kind, resolve_path, mount_snapshot, backend_kind.
  assert (∀ v p, respects same_names (fat32.kind ata_read v p)) as Hfat.
  { intros v p. apply fat32.kind_respects; [apply _|]. intros lba. apply on_storage_names. }
  repeat respects_step; apply on_storage_names.
Qed.

Lemma resolve_path_cases wd path s : ∃ r, resolve_path wd path s = (r, s).
Proof. rewrite resolve_path_unfold. eauto. Qed.

(** A mutation ends ready: at the old tree on error, and otherwise at what the
    backend makes of the resolved path. *)
Lemma vfs_run_ready op wd path s table f r s' :
  vfs_ready s table f → canonical wd → utf8_valid path = true →
  (∀ p f', apply_op (backend_op op p) f = Ok f' → fits f') →
  vfs_run op wd path s = (r, s') →
  match r with
  | Ok _ => ∃ m bp f', resolve_path wd path s = (Ok (m, bp), s) ∧ writable m = true ∧
      canonical bp ∧ apply_op (backend_op op bp) f = Ok f' ∧ vfs_ready s' table f'
  | Err _ => vfs_ready s' table f
  end.
Proof.
  intros (Ht & Hok & Hcwd & Hready) Hwd Hu Hfits. rewrite vfs_run_mutate.
  destruct (resolve_path_cases wd path s) as [rr Hr]. pose proof Hr as Hr'. rewrite resolve_path_unfold in Hr'.
  injection Hr' as Hr'. destruct rr as [[m bp]|e].
  2:{ rewrite (mutate_unresolved _ _ _ _ _ Hr). by intros [= <- <-]. }
  rewrite (mutate_resolved _ _ _ _ _ _ Hr). destruct (writable m) eqn:Hw; [|by intros [= <- <-]].
  assert (canonical bp) as Hbp.
  { destruct (normalize wd path) as [absolute|] eqn:Hn; [|done]. rewrite Ht in Hr'. by eapply resolve_canonical. }
  assert (op_path (backend_op op bp) = bp) as Hpath by (by destruct op).
  pose proof (wp_run_op (backend_op op bp) (storage s) f Hready) as Hwp. rewrite Hpath in Hwp.
  specialize (Hwp Hbp (Hfits bp)). unfold wp in Hwp. unfold on_storage.
  destruct (run_op (backend_op op bp) (storage s)) as [[[]|e] st]; intros [= <- <-].
  - destruct Hwp as (f' & Hop & Hready' & _). exists m, bp, f'. by split_and!.
  - by split_and!.
Qed.

(** ** Properties *)

(** C22: [normalize] is path resolution on a stack of components.  From a canonical
    working directory, and whatever the input, the result (or the error) is that of
    starting with the directory's components, or with none for an absolute input,
    skipping empty and "." components, popping for ".." (which does nothing at the
    root) and pushing the others while each name and the whole path stay within
    their limits. *)
Theorem normalize_is_component_stack parts input :
  valid_parts parts → zlen (absolute parts) <= PATH_MAX →
  normalize (absolute parts) input =
    (_ ← ensure (negb (bool_decide (input = []))) "path required";
     _ ← ensure (negb (bad_characters input)) "invalid path character";
     absolute <$> spec_pushes (start_parts parts input) (split_on slash input)).
Proof. apply normalize_stack. Qed.

(** Normalization is sound and idempotent.  From a canonical working directory,
    every accepted UTF-8 path normalizes to a canonical one (absolute, no empty, "."
    or ".." components, valid names, at most 120 bytes), and normalizing that again,
    from any canonical directory, changes nothing. *)
Theorem normalize_canonical_idempotent wd wd' input p :
  canonical wd → canonical wd' → utf8_valid input = true → normalize wd input = Ok p →
  canonical p ∧ normalize wd' p = Ok p.
Proof.
  intros Hwd Hwd' Hu Hn. pose proof (normalize_result_canonical _ _ _ Hwd Hu Hn). split; [done|by apply normalize_canonical].
Qed.

(** Resolution picks the deepest mount.  For a canonical path, the mount chosen
    is in the table, its path is a component-wise prefix of the path, no other mount
    that is a prefix is longer, and the backend gets the rest of the components as an
    absolute path. *)
Theorem resolve_longest_prefix table q m bp :
  table_ok table → valid_parts q → resolve table (absolute q) = Ok (m, bp) →
  ∃ mp rest, m ∈ table ∧ mount_path m = absolute mp ∧ q = mp ++ rest ∧ bp = absolute rest
    ∧ ∀ m' mp', m' ∈ table → mount_path m' = absolute mp' → Forall is_component mp' →
        mp' `prefix_of` q → mp' `prefix_of` mp.
Proof. apply resolve_spec. Qed.

(** Nothing is ever written through a read-only mount.  Creating, writing or
    removing under a path that resolves to a mount that is read-only or not backed by
    TuwaiqFS fails with "read-only filesystem" and leaves the whole state (disk
    included) as it was. *)
Theorem read_only_mounts_reject_mutations op wd path s m bp :
  resolve_path wd path s = (Ok (m, bp), s) →
  read_only m = true ∨ backend m ≠ Tuwaiq →
  vfs_run op wd path s = (Err "read-only filesystem", s).
Proof.
  intros Hr Hro. rewrite vfs_run_mutate, (mutate_resolved _ _ _ _ _ _ Hr). unfold writable.
  destruct Hro as [->|Hb]; [done|]. destruct (backend m); [done|]. by rewrite orb_true_r.
Qed.

(** The VFS keeps its own promises to the backend.  From a ready VFS, any
    mutation through any path leaves it ready: at the old tree when it reports an
    error, and otherwise at the tree the backend operation yields on the canonical
    backend path, which is also what the medium holds. *)
Theorem vfs_mutations_keep_ready op wd path s table f r s' :
  vfs_ready s table f → canonical wd → utf8_valid path = true →
  (∀ p f', apply_op (backend_op op p) f = Ok f' → fits f') →
  vfs_run op wd path s = (r, s') →
  match r with
  | Ok _ => ∃ bp f', canonical bp ∧ apply_op (backend_op op bp) f = Ok f' ∧ vfs_ready s' table f'
  | Err _ => vfs_ready s' table f
  end.
Proof.
  intros Hr Hwd Hu Hfits E. pose proof (vfs_run_ready op wd path s table f r s' Hr Hwd Hu Hfits E) as Hrun.
  destruct r as [u|e]; [|done]. destruct Hrun as (m&bp&f'&_&_&?). by exists bp, f'.
Qed.

(** The shell's working directory stays canonical and is only ever moved to an
    existing directory: a successful [shell_chdir] stores the normalized target,
    which the VFS reports as a directory, and a failing one changes nothing. *)
Theorem shell_chdir_moves_to_directories path s wd r s' :
  cwd s = Some wd → canonical wd → utf8_valid (trim path) = true → shell_chdir path s = (r, s') →
  match r with
  | Ok target => cwd s' = Some target ∧ canonical target ∧ normalize wd (trim path) = Ok target
                 ∧ ∃ s1, kind [slash] target s = (Ok NDirectory, s1)
  | Err _ => cwd s' = Some wd
  end.
Proof.
  intros Hcwd Hcan Hu. unfold shell_chdir, get_shell_cwd, mbind, M_bind, mget, mlift, mensure, mmodify. cbn.
  rewrite Hcwd. cbn. destruct (ensure (negb (PATH_MAX <? zlen wd)) _) as [[]|]; [|by intros [= <- <-]].
  unfold from_utf8. destruct (utf8_valid wd); [|by intros [= <- <-]].
  destruct (normalize wd (trim path)) as [target|] eqn:Hn; [|by intros [= <- <-]].
  assert (∀ k s1, kind [slash] target s = (k, s1) → cwd s1 = Some wd) as Hkeep.
  { intros k s1 Hk. rewrite <- Hcwd. by apply kind_names in Hk as [? _]. }
  destruct (kind [slash] target s) as [[k|e] s1] eqn:Hk; [|intros [= <- <-]; by eapply Hkeep].
  destruct k; cbn; intros [= <- <-]; [by eapply Hkeep|].
  split_and!; [done|by eapply normalize_result_canonical|done|by eexists].
Qed.

(** A directory listing shows every mount below the directory.  When listing
    succeeds, the backend's own entries come first and unchanged, and each mount whose
    parent is the listed directory appears under its name (with a slash, unless the
    backend already has an entry of that name). *)
Theorem list_dir_shows_mounts wd path s table q entries s' :
  canonical wd → utf8_valid path = true → mount_table s = Some table →
  normalize wd path = Ok (absolute q) → Forall is_component q → list_dir wd path s = (Ok entries, s') →
  ∃ own, own `prefix_of` entries ∧
    ∀ m n, m ∈ table → is_component n → mount_path m = absolute (q ++ [n]) →
      ∃ e, e ∈ entries ∧ trim_end_matches slash e = n.
Proof.
  intros Hwd Hu Ht Hn Hq. unfold list_dir. rewrite M_bind_Ok. intros (a & s1 & [Ha ->]%mlift_Ok & H1).
  assert (a = absolute q) as -> by congruence.
  apply M_bind_Ok in H1 as (tb & s2 & Htb & H1). unfold mount_snapshot, mbind, M_bind, mget, mlift in Htb.
  rewrite Ht in Htb. injection Htb as <- <-. apply M_bind_Ok in H1 as ([m bp] & s3 & _ & H1).
  apply M_bind_Ok in H1 as (own & s4 & _ & [= <- _]). exists own.
  destruct (add_mount_points_spec (absolute q) table own) as [Hpre Hm]. split; [done|].
  intros m' n Hin Hnc Hmp. eapply Hm; [done| |by destruct Hnc]. by apply mount_child_parent.
Qed.
End specs.

(** *** Witnesses: TuwaiqFS at the root and the FAT32 volume at /boot *)

Definition w_root : Mount := {| mount_path := bs "/"; label := bs "TuwaiqFS v3"; read_only := false; backend := Tuwaiq |}.
Definition w_boot : Mount :=
  {| mount_path := bs "/boot"; label := bs "FAT32"; read_only := true; backend := Fat32 fat32.w_volume |}.
Definition w_table : list Mount := [w_root; w_boot].
Definition w_vfs : vfs_state sim_disk := VfsState (Some w_table) (Some (bs "/")) ready_kernel.

Lemma w_registered :
  (t ← register [] (bs "/") (bs "TuwaiqFS v3") false Tuwaiq;
   register t (bs "/boot") (bs "FAT32") true (Fat32 fat32.w_volume)) = Ok w_table.
Proof. by vm_compute. Qed.

Lemma w_table_ok : table_ok w_table.
Proof.
  pose proof w_registered as Hr. apply bind_Ok in Hr as (t & Ht & Hr).
  refine (register_ok _ _ _ _ _ _ _ _ Hr); [|by vm_compute]. refine (register_ok _ _ _ _ _ _ _ _ Ht); [|by vm_compute].
  split; [simpl; unfold MAX_MOUNTS; lia|constructor|constructor].
Qed.

Lemma w_vfs_ready : vfs_ready w_vfs w_table {| root := EDir [] |}.
Proof.
  split_and!; [done|apply w_table_ok|exists (bs "/"); split; [done|apply canonical_root]|apply ready_kernel_ready].
Qed.

Lemma normalize_is_component_stack_witness :
  normalize (absolute [bs "home"; bs "user"]) (bs "../bin/./tool") =
    (_ ← ensure (negb (bool_decide (bs "../bin/./tool" = []))) "path required";
     _ ← ensure (negb (bad_characters (bs "../bin/./tool"))) "invalid path character";
     absolute <$> spec_pushes (start_parts [bs "home"; bs "user"] (bs "../bin/./tool"))
                    (split_on slash (bs "../bin/./tool"))).
Proof.
  apply (normalize_is_component_stack [bs "home"; bs "user"] (bs "../bin/./tool")).
  - constructor; [by vm_compute|]. constructor; [by vm_compute|constructor].
  - by vm_compute.
Defined.

(** The cases of [self_test]. *)
Lemma normalize_examples :
  normalize (bs "/home/user") (bs "../bin/./tool") = Ok (bs "/home/bin/tool")
  ∧ normalize (bs "/home/user") (bs "../../../../etc") = Ok (bs "/etc")
  ∧ normalize (bs "/") (bs "//apps///hello") = Ok (bs "/apps/hello")
  ∧ normalize (bs "/a") (bs ".") = Ok (bs "/a")
  ∧ normalize (bs "/") (bs "bad\path") = Err "invalid path character".
Proof. by vm_compute. Qed.

Lemma normalize_canonical_idempotent_witness :
  canonical (bs "/etc") ∧ normalize (bs "/a") (bs "/etc") = Ok (bs "/etc").
Proof.
  apply (normalize_canonical_idempotent (bs "/") (bs "/a") (bs "x/../../etc") (bs "/etc"));
    [apply canonical_root|apply canonical_example|by vm_compute|by vm_compute].
Defined.

Lemma resolve_longest_prefix_witness :
  ∃ mp rest, w_boot ∈ w_table ∧ mount_path w_boot = absolute mp ∧ [bs "boot"; bs "docs"] = mp ++ rest
    ∧ bs "/docs" = absolute rest
    ∧ ∀ m' mp', m' ∈ w_table → mount_path m' = absolute mp' → Forall is_component mp' →
        mp' `prefix_of` [bs "boot"; bs "docs"] → mp' `prefix_of` mp.
Proof.
  apply (resolve_longest_prefix w_table [bs "boot"; bs "docs"] w_boot (bs "/docs") w_table_ok); [|by vm_compute].
  constructor; [by vm_compute|]. constructor; [by vm_compute|constructor].
Defined.

Lemma read_only_mounts_reject_mutations_witness :
  vfs_run (VWrite (bs "no")) (bs "/") (bs "boot/REJECT.TXT") w_vfs = (Err "read-only filesystem", w_vfs).
Proof.
  apply (read_only_mounts_reject_mutations (VWrite (bs "no")) (bs "/") (bs "boot/REJECT.TXT") w_vfs w_boot
    (bs "/REJECT.TXT")); [by vm_compute|by left].
Defined.

Lemma vfs_write_fits p f' : apply_op (backend_op (VWrite (bs "hi")) p) {| root := EDir [] |} = Ok f' → fits f'.
Proof.
  cbn. unfold write_at. destruct (_ <? _); [done|]. destruct (parent_and_name p) as [[parent name]|]; [|done]. cbn.
  destruct parent as [|a l]; cbn; [|done]. intros [= <-]. unfold fits. cbn. unfold MAX_NODE_COUNT. lia.
Qed.

Lemma vfs_mutations_keep_ready_witness :
  ∃ bp f', canonical bp ∧ apply_op (backend_op (VWrite (bs "hi")) bp) {| root := EDir [] |} = Ok f'
    ∧ vfs_ready (vfs_run (VWrite (bs "hi")) (bs "/") (bs "./note.txt") w_vfs).2 w_table f'.
Proof.
  apply (vfs_mutations_keep_ready (VWrite (bs "hi")) (bs "/") (bs "./note.txt") w_vfs w_table {| root := EDir [] |}
    (Ok tt) _ w_vfs_ready canonical_root); [by vm_compute|apply vfs_write_fits|by vm_compute].
Defined.

Lemma shell_chdir_moves_to_directories_witness :
  cwd (shell_chdir (bs " .. ") w_vfs).2 = Some (bs "/") ∧ canonical (bs "/")
  ∧ normalize (bs "/") (trim (bs " .. ")) = Ok (bs "/")
  ∧ ∃ s1, kind [slash] (bs "/") w_vfs = (Ok NDirectory, s1).
Proof.
  apply (shell_chdir_moves_to_directories (bs " .. ") w_vfs (bs "/") (Ok (bs "/")));
    [done|apply canonical_root|by vm_compute|by vm_compute].
Defined.

Lemma list_dir_shows_mounts_witness :
  ∃ own, own `prefix_of` [bs "boot/"] ∧
    ∀ m n, m ∈ w_table → is_component n → mount_path m = absolute ([] ++ [n]) →
      ∃ e, e ∈ [bs "boot/"] ∧ trim_end_matches slash e = n.
Proof.
  apply (list_dir_shows_mounts (bs "/") (bs ".") w_vfs w_table [] [bs "boot/"] (list_dir (bs "/") (bs ".") w_vfs).2);
    [apply canonical_root|by vm_compute|done|by vm_compute|constructor|by vm_compute].
Defined.
