(* ===== verification/VfsData.v ===== *)
(** What the files of the virtual filesystem hold after a mutation: the bytes
    written are the bytes read back through the same path, and a mutation of one
    path leaves the contents of every other file as they were. The applications
    and the shell commands are verified from these. *)

From S2P Require Import Prelude Str Device Tree TuwaiqTree TuwaiqFs Fs FsPersist Fat32 Vfs.

(** ** The tree *)

Lemma parent_and_name_split path parent name :
  parent_and_name path = Ok (parent, name) → split_absolute_path path = Ok (parent ++ [name]).
Proof.
  unfold parent_and_name. intros (parts & Hs & Hn)%bind_Ok. apply bind_Ok in Hn as (n & Hlast%ok_or_Ok & [= <- <-]).
  rewrite Hs. f_equal. apply last_Some in Hlast as [front ->]. rewrite length_app. simpl.
  replace (length front + 1 - 1)%nat with (length front) by lia. by rewrite take_app_length.
Qed.

Lemma read_at_view fs path parts c : split_absolute_path path = Ok parts → parts ≠ [] →
  read_at fs path = Ok c ↔ view fs parts = Some (AFile c).
Proof.
  intros Hs Hne. unfold read_at, view. rewrite Hs. cbn [mbind result_bind]. rewrite bool_decide_false by done. split.
  - intros ([content|ch] & Hat%entry_at_node & E)%bind_Ok; [|done]. injection E as <-. by rewrite Hat.
  - destruct (node_at (root fs) parts) as [[content|ch]|] eqn:Hat; [|done..]. intros [= <-].
    apply entry_at_node in Hat. by rewrite Hat.
Qed.

(** What is written to a file is what it then holds. *)
Lemma write_then_read fs path bytes fs' :
  distinct (root fs) = true → write_at fs path bytes = Ok fs' → read_at fs' path = Ok bytes.
Proof.
  intros Hd Hw. pose proof (apply_op_refines (Write path bytes) fs Hd) as Hr. cbn [apply_op] in Hr. rewrite Hw in Hr.
  unfold agree in Hr. destruct (spec_op (Write path bytes) (view fs)) as [v|] eqn:Hs; [|done].
  cbn [spec_op] in Hs. destruct (MAX_FILE_SIZE <? zlen bytes); [done|].
  apply bind_Ok in Hs as ([parent name] & Hp & Hs). apply bind_Ok in Hs as (names & _ & Hs).
  apply (read_at_view _ _ (parent ++ [name])); [by apply parent_and_name_split|by destruct parent|].
  rewrite (Hr (parent ++ [name])).
  destruct (view fs (parent ++ [name])) as [[]|]; [|done|]; injection Hs as <-; unfold spec_add, upd; by rewrite decide_True.
Qed.

Lemma split_canonical parts : Forall is_component parts → split_absolute_path (absolute parts) = Ok parts.
Proof. intros Hp. unfold split_absolute_path. rewrite starts_with_absolute. by rewrite components_absolute. Qed.

(** A mutation of one path leaves the file at any other as it was. *)
Lemma op_keeps_files op fs fs' p q c :
  distinct (root fs) = true → apply_op op fs = Ok fs' → op_path op = absolute p → Forall is_component p →
  split_absolute_path q ≠ Ok p → read_at fs q = Ok c → read_at fs' q = Ok c.
Proof.
  intros Hd Hop Hpath Hp Hq Hread. pose proof (apply_op_refines op fs Hd) as Hr. rewrite Hop in Hr. unfold agree in Hr.
  destruct (spec_op op (view fs)) as [v|] eqn:Hs; [|done].
  assert (∃ parent name, parent_and_name (op_path op) = Ok (parent, name)) as (parent & name & Hpn).
  { destruct op as [path|path|path bytes|path]; cbn [spec_op op_path] in Hs |- *;
      [| |destruct (MAX_FILE_SIZE <? zlen bytes); [done|]|]; apply bind_Ok in Hs as ([parent name] & Hpn & _); eauto. }
  pose proof (parent_and_name_split _ _ _ Hpn) as Hsplit. rewrite Hpath, split_canonical in Hsplit by done.
  injection Hsplit as Hpp. destruct (spec_op_frame op (view fs) v parent name Hpn Hs) as [Hframe _].
  assert (∃ parts, split_absolute_path q = Ok parts ∧ parts ≠ []) as (parts & Hsq & Hne).
  { unfold read_at in Hread. apply bind_Ok in Hread as (parts & Hsq & Hread). exists parts. split; [done|].
    by case_bool_decide. }
  apply (read_at_view _ _ parts _ Hsq Hne). apply (read_at_view _ _ parts _ Hsq Hne) in Hread.
  rewrite (Hr parts). rewrite Hframe; [done| |].
  - intros ->. assert (∃ names, view fs parent = Some (ADir names)) as (names & E); [|congruence].
    destruct op as [path|path|path bytes|path]; cbn [spec_op op_path] in Hs, Hpn;
      [| |destruct (MAX_FILE_SIZE <? zlen bytes); [done|]|]; rewrite Hpn in Hs; cbn [mbind result_bind] in Hs;
      apply bind_Ok in Hs as (names & Hdir%spec_dir_at & _); eauto.
  - intros ->. rewrite Hpp in Hq. congruence.
Qed.

(** ** A mutation adds at most one record *)

Definition tree_nodes (e : Entry) : nat := node_count (to_fs_node e).
Definition entries_nodes (ch : list (str * Entry)) : nat := sum_list_with (λ c, tree_nodes c.2) ch.

Lemma tree_nodes_dir ch : tree_nodes (EDir ch) = S (entries_nodes ch).
Proof.
  unfold tree_nodes, entries_nodes. cbn [to_fs_node node_count]. f_equal. induction ch as [|[n e] ch IH]; [done|].
  rewrite fmap_cons. cbn [sum_list_with]. by rewrite IH.
Qed.

Lemma children_at_mut_nodes n node path f node' : children_at_mut node path f = Ok node' →
  (∀ ch ch', f ch = Ok ch' → (entries_nodes ch' ≤ n + entries_nodes ch)%nat) → (tree_nodes node' ≤ n + tree_nodes node)%nat.
Proof.
  intros E Hf. revert node node' E. induction path as [|part rest IH]; intros node node'; cbn [children_at_mut].
  - destruct node as [|ch]; [done|]. intros (ch' & E & [= <-])%bind_Ok. rewrite !tree_nodes_dir. apply Hf in E. lia.
  - intros ([i child] & (ch & Hd & Hfe)%find_child_Ok & (child' & Hc%IH & E)%bind_Ok)%bind_Ok.
    destruct node as [|ch0]; [done|]. injection Hd as ->. injection E as <-. rewrite !tree_nodes_dir. unfold entries_nodes.
    pose proof (sum_list_with_set_entry (λ c, tree_nodes c.2) _ _ _ child' _ Hfe). simpl in *. lia.
Qed.

Lemma entries_nodes_push ch name e : tree_nodes e = 1%nat → entries_nodes (ch ++ [(name, e)]) = S (entries_nodes ch).
Proof. intros He. unfold entries_nodes. rewrite sum_list_with_app. simpl. lia. Qed.

Lemma entries_nodes_remove i ch : (entries_nodes (remove_entry i ch) ≤ entries_nodes ch)%nat.
Proof.
  unfold remove_entry, entries_nodes. revert i. induction ch as [|c ch IH]; intros [|i]; simpl; try lia.
  - destruct (drop 0 ch) eqn:E; rewrite drop_0 in E; subst; simpl; lia.
  - specialize (IH i). lia.
Qed.

(** How many records an operation may add. *)
Definition op_records (op : fs_op) : nat := match op with Remove _ => 0 | _ => 1 end.

Lemma apply_op_nodes op f f' : apply_op op f = Ok f' → (tree_nodes (root f') ≤ op_records op + tree_nodes (root f))%nat.
Proof.
  assert (∀ n path g, (parent_and_name path ≫= λ '(parent, name), set_root (children_at_mut (root f) parent (g name))) = Ok f' →
    (∀ name ch ch', g name ch = Ok ch' → (entries_nodes ch' ≤ n + entries_nodes ch)%nat) →
    (tree_nodes (root f') ≤ n + tree_nodes (root f))%nat) as Hgen.
  { intros n path g ([parent name] & _ & (t & Ht & [= <-])%bind_Ok)%bind_Ok Hg. simpl. eapply children_at_mut_nodes; [exact Ht|apply Hg]. }
  destruct op as [path|path|path bytes|path]; cbn [apply_op].
  - intros E. refine (Hgen 1%nat path _ E _). intros name ch ch' Hch. cbv beta in Hch. destruct (has_entry name ch); [done|]. injection Hch as <-. by rewrite entries_nodes_push.
  - intros E. refine (Hgen 1%nat path _ E _). intros name ch ch' Hch. cbv beta in Hch. destruct (has_entry name ch); [done|]. injection Hch as <-. by rewrite entries_nodes_push.
  - unfold write_at. destruct (MAX_FILE_SIZE <? zlen bytes); [done|]. intros E. refine (Hgen 1%nat path _ E _).
    intros name ch ch' Hch. cbv beta in Hch. destruct (find_entry name ch) as [[i [c|chs]]|] eqn:Hfe; [|done|].
    + injection Hch as <-. pose proof (sum_list_with_set_entry (λ c, tree_nodes c.2) _ _ _ (EFile bytes) _ Hfe). unfold entries_nodes, tree_nodes in *. simpl in *. lia.
    + injection Hch as <-. by rewrite entries_nodes_push.
  - intros E. refine (Hgen 0%nat path _ E _). intros name ch ch' Hch. cbv beta in Hch. apply bind_Ok in Hch as ([i e] & _ & Hch).
    assert (ch' = remove_entry i ch) as -> by (destruct e as [|[]]; congruence). pose proof (entries_nodes_remove i ch). lia.
Qed.

(** Room for one more record. *)
Definition room (f : FileSystem) : Prop := (record_count (to_fs_node (root f)) < MAX_NODE_COUNT)%nat.

Lemma room_fits op f f' : room f → apply_op op f = Ok f' → fits f'.
Proof. intros Hr Hop%apply_op_nodes. unfold room, fits, record_count, tree_nodes in *. destruct op; simpl in Hop; lia. Qed.

(** Room for [n] more records. *)
Definition room_for (n : nat) (f : FileSystem) : Prop := (record_count (to_fs_node (root f)) + n ≤ MAX_NODE_COUNT)%nat.

Lemma room_for_records n op f f' : room_for (op_records op + n) f → apply_op op f = Ok f' → fits f' ∧ room_for n f'.
Proof. intros Hr Hop%apply_op_nodes. unfold room_for, fits, record_count, tree_nodes in *. lia. Qed.

Lemma room_for_mono n n' f : (n' ≤ n)%nat → room_for n f → room_for n' f.
Proof. unfold room_for. lia. Qed.

Lemma room_for_step n op f f' : room_for (S n) f → apply_op op f = Ok f' → fits f' ∧ room_for n f'.
Proof. intros Hr. apply room_for_records. revert Hr. apply room_for_mono. destruct op; simpl; lia. Qed.

(** ** [vfs::self_test] *)

Section self_test.
Context {D : Type} `{BlockDevice D}.

Fixpoint normalize_cases (cases : list (str * str * str)) : result unit :=
  match cases with
  | [] => Ok tt
  | (cwd, input, expected) :: cases =>
      p ← normalize cwd input;
      _ ← ensure (bool_decide (p = expected)) "path normalization mismatch";
      normalize_cases cases
  end.

Definition vfs_self_test : M (vfs_state D) unit :=
  _ ← mlift (normalize_cases
        [(bs "/", bs "/", bs "/"); (bs "/home/user", bs "../bin/./tool", bs "/home/bin/tool");
         (bs "/home/user", bs "../../../../etc", bs "/etc"); (bs "/", bs "//apps///hello", bs "/apps/hello"); (bs "/a", bs ".", bs "/a")]);
  _ ← mensure (negb (existsb (λ input, is_ok (normalize [slash] input))
        [[]; bs "bad\path"; bs "bad" ++ [Byte.x00] ++ bs "path"; replicate (Z.to_nat (NAME_MAX + 1)) (z2b 120)])) "invalid path accepted";
  k ← Vfs.kind [slash] (bs "/boot");
  _ ← mensure (bool_decide (k = NDirectory)) "FAT32 mount/backend contract mismatch";
  readme ← read_file [slash] (bs "/boot/README.TXT");
  _ ← mensure (bool_decide (readme = bs "TuwaiqOS FAT32 resource volume" ++ [newline])) "FAT32 mount/backend contract mismatch";
  apps ← read_file [slash] (bs "/boot/DOCS/APPS.TXT");
  _ ← mensure (bool_decide (apps = bs "desktop" ++ [newline] ++ bs "file-manager" ++ [newline] ++ bs "terminal" ++ [newline]))
        "FAT32 mount/backend contract mismatch";
  rejected ← mtry (write_file [slash] (bs "/boot/REJECT.TXT") (bs "no"));
  mensure (is_err rejected) "FAT32 mount/backend contract mismatch".
End self_test.

(** ** Reading *)

(** Only the root is writable: one TuwaiqFS mount, at "/". *)
Definition root_only (table : list Mount) : Prop := Forall (λ m, backend m = Tuwaiq → mount_path m = [slash]) table.

Section reads.
Context {D : Type} `{BlockDeviceSpec D}.
Implicit Types (v : vfs_state D).

(** The names, the tree and the volume are as they were. *)
Definition keeps v v' : Prop :=
  same_names v v' ∧ fs (storage v') = fs (storage v) ∧ ∀ f, ready (storage v) f → ready (storage v') f.

#[global] Instance keeps_preorder : PreOrder keeps.
Proof. split; [done|]. intros v1 v2 v3 [[? ?] [? H12]] [[? ?] [? H23]]. split; [split; congruence|split; [congruence|auto]]. Qed.

(** The filesystem between operations as programs see it: a well-formed tree
    [f] in memory, whatever the volume holds. *)
Definition vfs_live v (table : list Mount) (f : FileSystem) : Prop :=
  mount_table v = Some table ∧ table_ok table ∧ (∃ wd, cwd v = Some wd ∧ canonical wd) ∧
  fs (storage v) = Some f ∧ wf_entry [] (root f) = true ∧ is_Some (dir_of (root f)).

Lemma vfs_ready_live v table f : vfs_ready v table f ↔ vfs_live v table f ∧ ready (storage v) f.
Proof.
  split; [|by intros [(?&?&?&_) ?]]. intros (Ht&Hok&Hwd&Hr). split; [|done]. destruct Hr as (?&_&?&?&_). by split_and!.
Qed.

Lemma keeps_live v v' table f : keeps v v' → vfs_live v table f → vfs_live v' table f.
Proof. intros [[Hc Hm] [Hf _]] (Ht&Hok&Hwd&Hs&?&?). split_and!; [by rewrite Hm|done|by rewrite Hc|by rewrite Hf|done|done]. Qed.
Lemma keeps_ready v v' table f : keeps v v' → vfs_ready v table f → vfs_ready v' table f.
Proof. rewrite !vfs_ready_live. intros Hk [Hl Hr]. split; [by eapply keeps_live|by apply Hk]. Qed.

Lemma ata_read_keeps lba : respects keeps (ata_read lba).
Proof.
  intros v r v'. unfold ata_read, on_storage, on_store. intros E.
  assert (wp (TuwaiqFs.read lba) (λ _ st, disk st = disk (store (storage v)) ∧ same_memory (store (storage v)) st)
    (λ _ st, disk st = disk (store (storage v)) ∧ same_memory (store (storage v)) st) (store (storage v))) as Hwp
    by (apply wp_read; intros; done).
  unfold wp in Hwp. destruct (TuwaiqFs.read lba (store (storage v))) as [res st]. injection E as <- <-.
  split; [done|]. split; [done|]. intros f (Hfs&Hw&Hwf&Hd&Hm). split_and!; [done..|].
  assert (disk st = disk (store (storage v)) ∧ same_memory (store (storage v)) st) as (Hdisk&Ha&Hg&Hfv) by (by destruct res).
  unfold mounted. cbn [storage store]. rewrite Hdisk, Ha, Hg, Hfv. exact Hm.
Qed.

(** [init] ends ready: the root is mounted at the tree of the volume, and /boot
    when the disk has a FAT32 partition. *)
Lemma wp_vfs_init v f : wp FsPersist.init (λ _ s, ready s f) (λ _ _, False) (storage v) →
  wp Vfs.init (λ _ v', cwd v' = Some [slash] ∧ ∃ table, vfs_ready v' table f ∧ root_only table) (λ _ _, False) v.
Proof.
  intros Hi. unfold Vfs.init. apply wp_bind, wp_try. unfold wp, on_storage in *. destruct (FsPersist.init (storage v)) as [[[]|e] s]; [|done].
  change (is_ok (Ok tt)) with true. cbv iota. set (v1 := VfsState _ _ s).
  change (wp (table ← mlift (register [] (bs "/") (bs "TuwaiqFS v3") false Tuwaiq);
    volume ← mtry (fat32.mount ata_read);
    table ← match volume with Ok volume => mlift (register table (bs "/boot") (bs "FAT32") true (Fat32 volume)) | Err _ => mret table end;
    mmodify (λ s, VfsState (Some table) (Some [slash]) (storage s)))
    (λ _ v', cwd v' = Some [slash] ∧ ∃ table, vfs_ready v' table f ∧ root_only table) (λ _ _, False) v1).
  set (root_mount := {| mount_path := bs "/"; label := bs "TuwaiqFS v3"; read_only := false; backend := Tuwaiq |}).
  assert (register [] (bs "/") (bs "TuwaiqFS v3") false Tuwaiq = Ok [root_mount]) as Er by done.
  assert (table_ok [root_mount]) as Hr by (apply (register_ok [] (bs "/") (bs "TuwaiqFS v3") false Tuwaiq); [split; [simpl; unfold MAX_MOUNTS; lia|constructor|constructor]|done|done]).
  rewrite Er. wp_step. wp_step. apply wp_bind, wp_try. pose proof (fat32.mount_respects keeps ata_read ata_read_keeps v1) as Hk.
  unfold wp at 1. destruct (fat32.mount ata_read v1) as [[volume|e] v2]; destruct (Hk _ _ eq_refl) as [_ [_ Hready]]; apply Hready in Hi.
  - set (boot := {| mount_path := bs "/boot"; label := bs "FAT32"; read_only := true; backend := Fat32 volume |}).
    assert (register [root_mount] (bs "/boot") (bs "FAT32") true (Fat32 volume) = Ok [root_mount; boot]) as Eb by done.
    rewrite Eb. repeat wp_step. split; [done|]. exists [root_mount; boot]. split; [|by repeat constructor].
    split_and!; [done|by eapply register_ok; [exact Hr|..|exact Eb]|by exists [slash]; split; [|apply canonical_root]|exact Hi].
  - repeat wp_step. split; [done|]. exists [root_mount]. split; [|by repeat constructor].
    split_and!; [done|done|by exists [slash]; split; [|apply canonical_root]|exact Hi].
Qed.

(** Whatever the disk holds, [init] ends with its mounts in order: the root's, when
    TuwaiqFS could be mounted, and /boot's. *)
Definition mounts_ok v : Prop := ∃ table, mount_table v = Some table ∧ table_ok table ∧ root_only table.

Lemma wp_vfs_init_names v : wp Vfs.init (λ _ v', cwd v' = Some [slash] ∧ mounts_ok v') (λ _ _, False) v.
Proof.
  assert (table_ok []) as Hnil by (split; [simpl; unfold MAX_MOUNTS; lia|constructor|constructor]).
  assert (∀ table v1, table_ok table → root_only table →
    (∀ volume, ∃ table', register table (bs "/boot") (bs "FAT32") true (Fat32 volume) = Ok table' ∧ root_only table') →
    wp (volume ← mtry (fat32.mount ata_read);
      table ← match volume with Ok volume => mlift (register table (bs "/boot") (bs "FAT32") true (Fat32 volume)) | Err _ => mret table end;
      mmodify (λ s, VfsState (Some table) (Some [slash]) (storage s)))
    (λ _ v', cwd v' = Some [slash] ∧ mounts_ok v') (λ _ _, False) v1) as Hrest.
  { intros table v1 Hok Hro Hreg. apply wp_bind, wp_try. unfold wp at 1. destruct (fat32.mount ata_read v1) as [[volume|e] v2].
    - destruct (Hreg volume) as (table'&E&Hro'). rewrite E. repeat wp_step. split; [done|]. exists table'. split_and!; [done| |done].
      by eapply register_ok; [exact Hok|..|exact E].
    - repeat wp_step. split; [done|]. by exists table. }
  unfold Vfs.init. apply wp_bind, wp_try. unfold wp at 1, on_storage. destruct (FsPersist.init (storage v)) as [[[]|e] s]; apply wp_bind.
  - set (root_mount := {| mount_path := bs "/"; label := bs "TuwaiqFS v3"; read_only := false; backend := Tuwaiq |}).
    assert (register [] [slash] (bs "TuwaiqFS v3") false Tuwaiq = Ok [root_mount]) as E by done.
    cbn [is_ok]. rewrite E. wp_step. apply Hrest; [by eapply register_ok; [exact Hnil|..|exact E]|by repeat constructor|].
    intros volume. eexists. split; [reflexivity|]. by repeat constructor.
  - cbn [is_ok]. wp_step. apply Hrest; [done|constructor|]. intros volume. eexists. split; [reflexivity|]. by repeat constructor.
Qed.

Lemma with_fs_keeps {A} (g : FileSystem → result A) : respects keeps (on_storage (with_fs g)).
Proof.
  intros v r v'. unfold on_storage, with_fs, FsPersist.snapshot, mbind, M_bind, mget, mlift. destruct (fs (storage v)); intros E; cbn in E.
  all: injection E as <- <-;
    by destruct v.
Qed.

Ltac keeps_step := first [apply ata_read_keeps | apply with_fs_keeps | respects_step].

Lemma kind_keeps wd path : respects keeps (Vfs.kind wd path).
Proof.
  pose proof (fat32.kind_respects keeps ata_read ata_read_keeps). unfold Vfs.kind, resolve_path, mount_snapshot, backend_kind. repeat keeps_step.
Qed.
Lemma read_file_keeps wd path : respects keeps (read_file wd path).
Proof.
  pose proof (fat32.read_respects keeps ata_read ata_read_keeps). unfold read_file, resolve_path, mount_snapshot. repeat keeps_step.
Qed.
Lemma list_dir_keeps wd path : respects keeps (list_dir wd path).
Proof.
  pose proof (fat32.list_respects keeps ata_read ata_read_keeps). unfold list_dir, mount_snapshot. repeat keeps_step.
Qed.
Lemma metadata_keeps wd path : respects keeps (Vfs.metadata wd path).
Proof.
  pose proof (fat32.metadata_respects keeps ata_read ata_read_keeps). unfold Vfs.metadata, resolve_path, mount_snapshot. repeat keeps_step.
Qed.
End reads.

Ltac keeps_step := first [apply ata_read_keeps | apply with_fs_keeps | respects_step].

(** ** The virtual filesystem *)

Section data.
Context {D : Type} `{BlockDeviceSpec D}.
Implicit Types (s : vfs_state D).

Lemma vfs_ready_distinct s table f : vfs_ready s table f → distinct (root f) = true.
Proof. intros (_ & _ & _ & _ & _ & Hwf & _). by eapply wf_entry_distinct. Qed.

(** A mutation and the tree in memory, whatever the volume holds: on success the
    tree is what the operation makes of it, otherwise it stays. *)
Lemma run_op_in_memory op (s : fs_state D) f r (s' : fs_state D) : fs s = Some f → run_op op s = (r, s') →
  match r with Ok _ => ∃ f', apply_op op f = Ok f' ∧ fs s' = Some f' | Err _ => fs s' = Some f end.
Proof.
  intros Hf. unfold run_op, mutate_and_persist, with_writer, acquire, mbind, M_bind, mtry, release, mmodify, mlift.
  destruct (writer_active s); [by intros [= <- <-]|]. unfold FsPersist.snapshot, mbind, M_bind, mget, mlift. cbn [fs]. rewrite Hf. cbn [ok_or].
  destruct (apply_op op f) as [f'|e]; [|by intros [= <- <-]]. unfold on_store. cbn [store fs writer_active].
  destruct (sync_tree _ (store s)) as [[u|e] st]; [|by intros [= <- <-]].
  unfold publish, mbind, M_bind, mget, mput. cbn [fs]. rewrite ?Hf. cbn. intros [= <- <-]. by exists f'.
Qed.

Lemma vfs_run_live op wd path s table f r s' : vfs_live s table f → canonical wd → utf8_valid path = true →
  vfs_run op wd path s = (r, s') →
  match r with
  | Ok _ => ∃ m bp f', resolve_path wd path s = (Ok (m, bp), s) ∧ writable m = true ∧
      canonical bp ∧ apply_op (backend_op op bp) f = Ok f' ∧ vfs_live s' table f'
  | Err _ => vfs_live s' table f
  end.
Proof.
  intros Hlive Hwd Hu. pose proof Hlive as (Ht & Hok & Hcwd & Hfs & Hwf & Hd). rewrite vfs_run_mutate.
  destruct (resolve_path_cases wd path s) as [rr Hr]. pose proof Hr as Hr'. rewrite resolve_path_unfold in Hr'.
  injection Hr' as Hr'. destruct rr as [[m bp]|e].
  2:{ rewrite (mutate_unresolved _ _ _ _ _ Hr). by intros [= <- <-]. }
  rewrite (mutate_resolved _ _ _ _ _ _ Hr). destruct (writable m) eqn:Hw; [|by intros [= <- <-]].
  assert (canonical bp) as Hbp.
  { destruct (normalize wd path) as [absolute|] eqn:Hn; [|done]. rewrite Ht in Hr'. by eapply resolve_canonical. }
  assert (op_path (backend_op op bp) = bp) as Hpath by (by destruct op).
  unfold on_storage. destruct (run_op (backend_op op bp) (storage s)) as [r1 st] eqn:E. intros [= <- <-].
  pose proof (run_op_in_memory _ _ _ _ _ Hfs E) as Hrun. destruct r1 as [u|e]; [|by split_and!].
  destruct Hrun as (f'&Hop&Hfs'). exists m, bp, f'. do 4 (split; [done|]). do 4 (split; [done|]). split.
  - eapply apply_op_wf; [exact Hwf| |exact Hop]. by rewrite Hpath.
  - by eapply apply_op_root.
Qed.

Lemma vfs_run_names op wd path : respects same_names (vfs_run op wd path).
Proof.
  rewrite vfs_run_mutate. unfold mutate, resolve_path, mount_snapshot. repeat respects_step; apply on_storage_names.
Qed.

(** Reading from the root filesystem is reading the tree in memory. *)
Lemma read_file_ready wd path s table f m bp :
  vfs_ready s table f → resolve_path wd path s = (Ok (m, bp), s) → backend m = Tuwaiq →
  read_file wd path s = (read_at f bp, s).
Proof.
  intros (_ & _ & _ & Hfs & _) Hr Hb. unfold read_file, mbind at 1, M_bind at 1. rewrite Hr, Hb.
  unfold on_storage, with_fs, snapshot, mbind, M_bind, mget, mlift. rewrite Hfs. cbn. destruct s; cbn.
  by destruct (read_at f bp).
Qed.

Lemma resolve_same wd path s s' table f f' : vfs_ready s table f → vfs_ready s' table f' →
  (resolve_path wd path s').1 = (resolve_path wd path s).1.
Proof. intros (Ht & _) (Ht' & _). rewrite !resolve_path_unfold, Ht, Ht'. done. Qed.

Lemma writable_tuwaiq m : writable m = true → backend m = Tuwaiq.
Proof. unfold writable. destruct (read_only m), (backend m); done. Qed.

(** A successful write is read back, through the same path, until the next
    mutation. *)
Lemma vfs_write_then_read wd path bytes s table f s' :
  vfs_ready s table f → canonical wd → utf8_valid path = true →
  (∀ p f', apply_op (Write p bytes) f = Ok f' → fits f') →
  write_file wd path bytes s = (Ok tt, s') →
  read_file wd path s' = (Ok bytes, s') ∧ ∃ f', vfs_ready s' table f'.
Proof.
  intros Hready Hwd Hu Hfits Hw.
  destruct (vfs_run_ready (VWrite bytes) wd path s table f (Ok tt) s' Hready Hwd Hu Hfits Hw)
    as (m & bp & f' & Hr & Hwr & Hbp & Hop & Hready'). split; [|by exists f'].
  pose proof (resolve_same wd path s s' table f f' Hready Hready') as Hsame.
  destruct (resolve_path_cases wd path s') as [rr Hr']. rewrite Hr, Hr' in Hsame. cbn in Hsame. subst rr.
  rewrite (read_file_ready _ _ _ _ _ _ _ Hready' Hr' (writable_tuwaiq _ Hwr)). f_equal.
  by eapply write_then_read, Hop; eapply vfs_ready_distinct.
Qed.

(** A mutation through one path leaves what another one reads as it was, when
    they resolve to different files. *)
Lemma vfs_run_keeps_files op wd path s table f s' wd' q m bq c :
  vfs_ready s table f → canonical wd → utf8_valid path = true →
  (∀ p f', apply_op (backend_op op p) f = Ok f' → fits f') →
  vfs_run op wd path s = (Ok tt, s') →
  resolve_path wd' q s = (Ok (m, bq), s) → backend m = Tuwaiq →
  (∀ m', resolve_path wd path s ≠ (Ok (m', bq), s)) → canonical bq →
  read_file wd' q s = (Ok c, s) → read_file wd' q s' = (Ok c, s').
Proof.
  intros Hready Hwd Hu Hfits Hrun Hq Hm Hne Hbq Hread.
  destruct (vfs_run_ready op wd path s table f (Ok tt) s' Hready Hwd Hu Hfits Hrun)
    as (m' & bp & f' & Hr & Hwr & Hbp & Hop & Hready').
  pose proof (resolve_same wd' q s s' table f f' Hready Hready') as Hsame.
  destruct (resolve_path_cases wd' q s') as [rr Hr']. rewrite Hq, Hr' in Hsame. cbn in Hsame. subst rr.
  rewrite (read_file_ready _ _ _ _ _ _ _ Hready Hq Hm) in Hread. injection Hread as Hread.
  rewrite (read_file_ready _ _ _ _ _ _ _ Hready' Hr' Hm). f_equal.
  destruct Hbp as (p & -> & Hp & _). destruct Hbq as (pq & -> & Hpq & _).
  apply valid_parts_components in Hp as Hcp. apply valid_parts_components in Hpq as Hcq.
  eapply (op_keeps_files (backend_op op (absolute p)) f f' p); [by eapply vfs_ready_distinct|done|by destruct op|done| |done].
  rewrite split_canonical by done. intros [= ->]. by apply (Hne m').
Qed.
End data.

(** ** Syncing without a change *)

Section sync.
Context {D : Type} `{BlockDeviceSpec D}.
Implicit Types (v : vfs_state D) (s : fs_state D) (st : tqfs D).

(** An interrupted checkpoint never replaces the committed tree. *)
Lemma wp_sync_interrupted st tree new n : mounted st tree → storable new →
  wp (sync_tree_interrupted new n) (λ _ st', mounted st' tree) (λ _ st', mounted st' tree) st.
Proof.
  intros Hm Hst. pose proof Hm as (Hf & Hsb & Hslot & Hgen & Hc & Hother). destruct (is_slot_other _ Hslot) as [Hisl Hne].
  unfold sync_tree_interrupted. wp_step. apply wp_prepare_checkpoint; [done|done| |by intros].
  intros blob Hlen Hmagic Hdes Hmax. wp_step.
  assert (∀ st', slot_outcome (1 - active_slot st) (generation st + 1) new st st' →
    same_outside (slot_base (1 - active_slot st)) (disk st) (disk st') → same_memory st st' → mounted st' tree) as Hout.
  { intros st' Ho Hsame Hmem. apply (mounted_outcome st st' tree new); [done|done|done| |].
    - by apply (checkpoint_at_outside (1 - active_slot st)).
    - apply Hsame. left. by apply slot_base_low. }
  wp_step. eapply wp_mono; [apply (wp_write_checkpoint _ _ _ new); [done|lia|done..]| |].
  - intros [] st' (Hck & Hsame & Hmem & _). wp_step. apply Hout; [|done|done]. by right; right.
  - intros e st' (Ho & Hsame & Hmem & _). wp_step. by apply Hout.
Qed.

Lemma interrupted_too_large new n blob st : serialize_tree new = Ok blob → MAX_METADATA_BYTES < zlen blob →
  sync_tree_interrupted new n st = (Err "filesystem metadata too large", st).
Proof.
  intros Hser Hbig. unfold sync_tree_interrupted, prepare_checkpoint, mlift, mensure, mbind, M_bind. rewrite Hser. cbn.
  by rewrite (proj2 (Z.ltb_lt _ _) Hbig).
Qed.

(** Writing the tree that is in memory, or failing to. *)
Lemma wp_sync_to_disk s f : ready s f → fits f → wp sync_to_disk (λ _ s', ready s' f) (λ _ s', ready s' f) s.
Proof.
  intros (Hfs & Hfree & Hwf & Hd & Hm) Hfit. unfold sync_to_disk. apply wp_with_writer; [done|].
  unfold with_fs, FsPersist.snapshot. repeat wp_step. rewrite Hfs. cbn [ok_or fs]. repeat wp_step.
  apply wp_on_store. cbn [fs writer_active store].
  destruct (storable_or_too_large f Hwf Hd Hfit) as [Hst|(blob & Hser & Hbig)].
  - eapply wp_mono; [by apply (wp_sync_mounted (to_fs_node (root f)))| |].
    + intros _ st (Hm' & _). by split_and!.
    + intros e st (Hm' & _). by split_and!.
  - unfold wp. rewrite (sync_tree_too_large _ _ _ Hser Hbig). by split_and!.
Qed.

Lemma wp_inject s f path bytes n : ready s f → canonical path → (∀ f', write_at f path bytes = Ok f' → fits f') →
  wp (FsPersist.inject_interrupted_write path bytes n) (λ _ s', ready s' f) (λ _ s', ready s' f) s.
Proof.
  intros (Hfs & Hfree & Hwf & Hd & Hm) Hcan Hfits. unfold FsPersist.inject_interrupted_write. apply wp_with_writer; [done|].
  unfold FsPersist.snapshot. repeat wp_step. rewrite Hfs. cbn [ok_or fs]. repeat wp_step.
  destruct (write_at f path bytes) as [f'|e] eqn:Hop; [|by split_and!].
  pose proof (apply_op_wf (Write path bytes) _ _ Hwf Hcan Hop) as Hwf'. pose proof (apply_op_root (Write path bytes) _ _ Hop) as Hd'.
  wp_step. wp_step. apply wp_on_store. cbn [fs writer_active store].
  assert (∀ st (r : result unit), mounted st (to_fs_node (root f)) → wp (match r return M (fs_state D) unit with
      | Err reason => if String.eqb reason "injected interrupted checkpoint" then mret tt else mthrow reason
      | Ok _ => mthrow "interrupted checkpoint unexpectedly committed" end)
    (λ _ (s' : fs_state D), ready (FsState (fs s') false (store s')) f) (λ _ s', ready (FsState (fs s') false (store s')) f)
    (FsState (Some f) true st)) as Hend.
  { intros st [[]|reason] Hst; repeat wp_step; [by split_and!|]. destruct (String.eqb _ _); repeat wp_step; by split_and!. }
  destruct (storable_or_too_large f' Hwf' Hd' (Hfits f' eq_refl)) as [Hst|(blob & Hser & Hbig)].
  - eapply wp_mono; [by apply (wp_sync_interrupted _ (to_fs_node (root f)))| |].
    + intros a st Hm'. by apply (Hend st (Ok a)).
    + intros e st Hm'. by apply (Hend st (Err e)).
  - unfold wp at 1. rewrite (interrupted_too_large _ _ _ _ Hser Hbig). by apply (Hend (store s) (Err _)).
Qed.
End sync.
