(* ===== verification/Wake.v ===== *)
(** The two scheduler atomics of kernel/src/task.rs that interrupt handlers
    write: the task whose input arrived and the age of the running time slice.
    The input queue requests a wake-up through them, the scheduler (Scheduler.v)
    consumes it. *)

From S2P Require Import Prelude.

Definition TIME_SLICE_TICKS : Z := 5.

Record Wake := { foreground_wake_id : Z; ticks_since_switch : Z }.

Definition request_foreground_wake (id : Z) (w : Wake) : Wake :=
  {| foreground_wake_id := id; ticks_since_switch := TIME_SLICE_TICKS |}.
