(* ===== verification/Input.v ===== *)
(** Keyboard, mouse and the input queue: kernel/src/keyboard.rs, input.rs and
    mouse.rs.

    The three modules share one state, [io]: the keyboard's shift and prefix
    flags with its shell queue and foreground owner, the bounded event queue
    of the foreground process with its telemetry, and the mouse decoder with
    the cursor. Interrupt handlers are functions on that state; the lock and
    interrupt masking around each of them make every handler one step of a
    trace. The 8042 set-up of the mouse, port
    writes and reads, is not modelled. *)

From S2P Require Import Prelude Wake.

(** ** keyboard.rs: events and decoder *)

Inductive KeyEvent :=
| Char (c : Z)
| Enter
| Backspace
| ArrowUp
| ArrowDown
| Tab
| Escape
| NoKey.

#[global] Instance KeyEvent_eq_decision : EqDecision KeyEvent.
Proof. solve_decision. Defined.

Inductive ForegroundInputOwner := Shell | Desktop.

Definition KEYBOARD_QUEUE_CAPACITY : nat := 32.

Record Keyboard := mk_keyboard {
  left_shift : bool;
  right_shift : bool;
  extended_pending : bool;
  foreground_pid : Z;
  shell_queue : list KeyEvent
}.

Definition shift_active (k : Keyboard) : bool := left_shift k || right_shift k.

Definition set_left_shift (b : bool) (k : Keyboard) : Keyboard :=
  mk_keyboard b (right_shift k) (extended_pending k) (foreground_pid k) (shell_queue k).
Definition set_right_shift (b : bool) (k : Keyboard) : Keyboard :=
  mk_keyboard (left_shift k) b (extended_pending k) (foreground_pid k) (shell_queue k).
Definition set_extended (b : bool) (k : Keyboard) : Keyboard :=
  mk_keyboard (left_shift k) (right_shift k) b (foreground_pid k) (shell_queue k).
Definition set_shell_queue (q : list KeyEvent) (k : Keyboard) : Keyboard :=
  mk_keyboard (left_shift k) (right_shift k) (extended_pending k) (foreground_pid k) q.

Definition foreground_process_id (k : Keyboard) : option Z :=
  if foreground_pid k =? 0 then None else Some (foreground_pid k).

Definition foreground_owner (k : Keyboard) : ForegroundInputOwner :=
  match foreground_process_id k with Some _ => Desktop | None => Shell end.

Definition push_shell (event : KeyEvent) (k : Keyboard) : Keyboard :=
  if (length (shell_queue k) <? KEYBOARD_QUEUE_CAPACITY)%nat
  then set_shell_queue (shell_queue k ++ [event]) k else k.

Definition poll_key (k : Keyboard) : KeyEvent * Keyboard :=
  match shell_queue k with
  | e :: rest => (e, set_shell_queue rest k)
  | [] => (NoKey, k)
  end.

Definition translate_extended (scancode : Z) : option KeyEvent :=
  if negb (Z.land scancode 128 =? 0) then None
  else if scancode =? 0x48 then Some ArrowUp
  else if scancode =? 0x50 then Some ArrowDown
  else None.

Definition emit_pair (k : Keyboard) (normal shifted : Z) : option KeyEvent :=
  Some (Char (if shift_active k then shifted else normal)).

Definition emit_letter (k : Keyboard) (lower : Z) : option KeyEvent :=
  Some (Char (if shift_active k then lower - 97 + 65 else lower)).

Definition translate_scancode (scancode : Z) (k : Keyboard) : option KeyEvent * Keyboard :=
  if negb (Z.land scancode 128 =? 0) then
    (None, if scancode =? 0xAA then set_left_shift false k
           else if scancode =? 0xB6 then set_right_shift false k else k)
  else
    match scancode with
    | 0x2A => (None, set_left_shift true k)
    | 0x36 => (None, set_right_shift true k)
    | 0x1C => (Some Enter, k)
    | 0x0E => (Some Backspace, k)
    | 0x0F => (Some Tab, k)
    | 0x01 => (Some Escape, k)
    | 0x39 => (Some (Char 32), k)
    | 0x02 => (emit_pair k 49 33, k)
    | 0x03 => (emit_pair k 50 64, k)
    | 0x04 => (emit_pair k 51 35, k)
    | 0x05 => (emit_pair k 52 36, k)
    | 0x06 => (emit_pair k 53 37, k)
    | 0x07 => (emit_pair k 54 94, k)
    | 0x08 => (emit_pair k 55 38, k)
    | 0x09 => (emit_pair k 56 42, k)
    | 0x0A => (emit_pair k 57 40, k)
    | 0x0B => (emit_pair k 48 41, k)
    | 0x0C => (emit_pair k 45 95, k)
    | 0x0D => (emit_pair k 61 43, k)
    | 0x29 => (emit_pair k 96 126, k)
    | 0x1A => (emit_pair k 91 123, k)
    | 0x1B => (emit_pair k 93 125, k)
    | 0x2B => (emit_pair k 92 124, k)
    | 0x27 => (emit_pair k 59 58, k)
    | 0x28 => (emit_pair k 39 34, k)
    | 0x33 => (emit_pair k 44 60, k)
    | 0x34 => (emit_pair k 46 62, k)
    | 0x35 => (emit_pair k 47 63, k)
    | 0x10 => (emit_letter k 113, k)
    | 0x11 => (emit_letter k 119, k)
    | 0x12 => (emit_letter k 101, k)
    | 0x13 => (emit_letter k 114, k)
    | 0x14 => (emit_letter k 116, k)
    | 0x15 => (emit_letter k 121, k)
    | 0x16 => (emit_letter k 117, k)
    | 0x17 => (emit_letter k 105, k)
    | 0x18 => (emit_letter k 111, k)
    | 0x19 => (emit_letter k 112, k)
    | 0x1E => (emit_letter k 97, k)
    | 0x1F => (emit_letter k 115, k)
    | 0x20 => (emit_letter k 100, k)
    | 0x21 => (emit_letter k 102, k)
    | 0x22 => (emit_letter k 103, k)
    | 0x23 => (emit_letter k 104, k)
    | 0x24 => (emit_letter k 106, k)
    | 0x25 => (emit_letter k 107, k)
    | 0x26 => (emit_letter k 108, k)
    | 0x2C => (emit_letter k 122, k)
    | 0x2D => (emit_letter k 120, k)
    | 0x2E => (emit_letter k 99, k)
    | 0x2F => (emit_letter k 118, k)
    | 0x30 => (emit_letter k 98, k)
    | 0x31 => (emit_letter k 110, k)
    | 0x32 => (emit_letter k 109, k)
    | _ => (None, k)
    end.

(** ** input.rs: events, their encoding and the queue *)

Definition INPUT_QUEUE_CAPACITY : nat := 64.

Inductive InputEvent :=
| KeyDown (code : Z)
| MouseMove (x y : Z)
| MouseButton (button : Z) (pressed : bool).

#[global] Instance InputEvent_eq_decision : EqDecision InputEvent.
Proof. solve_decision. Defined.

Definition KEY_ENTER : Z := 0x0D.
Definition KEY_BACKSPACE : Z := 0x08.
Definition KEY_TAB : Z := 0x09.
Definition KEY_ARROW_UP : Z := 0x11.
Definition KEY_ARROW_DOWN : Z := 0x12.
Definition KEY_ESCAPE : Z := 0x1B.

Definition ENCODED_EVENT_LEN : Z := 8.

(** [i16::to_le_bytes] *)
Definition i16_to_le_bytes (z : Z) : list byte := le_encode 2 (z mod 2 ^ 16).

Definition to_le_bytes (event : InputEvent) : list byte :=
  let out := replicate (Z.to_nat ENCODED_EVENT_LEN) (z2b 0) in
  match event with
  | KeyDown code => <[1%nat := z2b code]> (<[0%nat := z2b 1]> out)
  | MouseMove x y =>
      copy_at 6 (i16_to_le_bytes y) (copy_at 4 (i16_to_le_bytes x) (<[0%nat := z2b 2]> out))
  | MouseButton button pressed =>
      <[2%nat := z2b (Z.b2z pressed)]> (<[1%nat := z2b button]> (<[0%nat := z2b 3]> out))
  end.

Record QueuedInputEvent := mk_queued { event : InputEvent; queued_at_tick : Z }.

Record InputQueue := mk_input {
  queue : list QueuedInputEvent;
  max_depth : Z;
  coalesced_mouse_moves : Z;
  dropped_events : Z;
  delivered_mouse_moves : Z;
  mouse_age_total_ticks : Z;
  mouse_age_max_ticks : Z
}.

Definition is_move (e : InputEvent) : bool :=
  match e with MouseMove _ _ => true | _ => false end.

(** The compare-and-swap loops of [update_max] and [update_max_u64]; the
    kernel has one core and their callers mask interrupts. *)
Definition update_max (current value : Z) : Z := if current <? value then value else current.

(** The closure of [push] that runs under the queue's lock. *)
Definition enqueue (queued : QueuedInputEvent) (q : InputQueue) : bool * InputQueue :=
  match last (queue q) with
  | Some l =>
      if is_move (event queued) && is_move (event l) then
        (true, mk_input (removelast (queue q) ++ [queued]) (max_depth q)
                 (wrapping_add u64_max (coalesced_mouse_moves q) 1) (dropped_events q)
                 (delivered_mouse_moves q) (mouse_age_total_ticks q) (mouse_age_max_ticks q))
      else if (length (queue q) <? INPUT_QUEUE_CAPACITY)%nat then
        (true, mk_input (queue q ++ [queued])
                 (update_max (max_depth q) (zlen (queue q ++ [queued])))
                 (coalesced_mouse_moves q) (dropped_events q)
                 (delivered_mouse_moves q) (mouse_age_total_ticks q) (mouse_age_max_ticks q))
      else
        (false, mk_input (queue q) (max_depth q) (coalesced_mouse_moves q)
                  (wrapping_add u64_max (dropped_events q) 1)
                  (delivered_mouse_moves q) (mouse_age_total_ticks q) (mouse_age_max_ticks q))
  | None =>
      (true, mk_input [queued] (update_max (max_depth q) 1)
               (coalesced_mouse_moves q) (dropped_events q)
               (delivered_mouse_moves q) (mouse_age_total_ticks q) (mouse_age_max_ticks q))
  end.

(** [poll], with the current tick. *)
Definition dequeue (now : Z) (q : InputQueue) : option InputEvent * InputQueue :=
  match queue q with
  | [] => (None, q)
  | queued :: rest =>
      if is_move (event queued) then
        let age := saturating_sub now (queued_at_tick queued) in
        (Some (event queued),
         mk_input rest (max_depth q) (coalesced_mouse_moves q) (dropped_events q)
           (wrapping_add u64_max (delivered_mouse_moves q) 1)
           (wrapping_add u64_max (mouse_age_total_ticks q) age)
           (update_max (mouse_age_max_ticks q) age))
      else
        (Some (event queued),
         mk_input rest (max_depth q) (coalesced_mouse_moves q) (dropped_events q)
           (delivered_mouse_moves q) (mouse_age_total_ticks q) (mouse_age_max_ticks q))
  end.

Definition clear_queue (q : InputQueue) : InputQueue :=
  mk_input [] (max_depth q) (coalesced_mouse_moves q) (dropped_events q)
    (delivered_mouse_moves q) (mouse_age_total_ticks q) (mouse_age_max_ticks q).

Definition reset_telemetry (q : InputQueue) : InputQueue := mk_input (queue q) 0 0 0 0 0 0.

Record InputTelemetry := {
  tel_current_depth : Z;
  tel_max_depth : Z;
  tel_coalesced : Z;
  tel_dropped : Z;
  tel_delivered : Z;
  tel_age_total : Z;
  tel_age_max : Z
}.

Definition input_telemetry (q : InputQueue) : InputTelemetry := {|
  tel_current_depth := zlen (queue q);
  tel_max_depth := max_depth q;
  tel_coalesced := coalesced_mouse_moves q;
  tel_dropped := dropped_events q;
  tel_delivered := delivered_mouse_moves q;
  tel_age_total := mouse_age_total_ticks q;
  tel_age_max := mouse_age_max_ticks q
|}.

(** ** mouse.rs: packet assembly and decoding *)

Definition PACKET_SYNC_BIT : Z := 0x08.
Definition FLAG_X_SIGN : Z := 0x10.
Definition FLAG_Y_SIGN : Z := 0x20.
Definition FLAG_X_OVERFLOW : Z := 0x40.
Definition FLAG_Y_OVERFLOW : Z := 0x80.
Definition FLAG_LEFT : Z := 0x01.
Definition FLAG_RIGHT : Z := 0x02.
Definition FLAG_MIDDLE : Z := 0x04.

(** [flags & bit != 0] *)
Definition has_flag (flags bit : Z) : bool := negb (Z.land flags bit =? 0).

Record PacketDecoder := mk_decoder { bytes : list Z; index : nat }.

Definition new_decoder : PacketDecoder := mk_decoder [0; 0; 0] 0.

Definition feed (byte : Z) (d : PacketDecoder) : option (list Z) * PacketDecoder :=
  if (index d =? 0)%nat && negb (has_flag byte PACKET_SYNC_BIT) then (None, d)
  else
    let bytes' := <[index d := byte]> (bytes d) in
    if negb (S (index d) =? length bytes')%nat then (None, mk_decoder bytes' (S (index d)))
    else (Some bytes', mk_decoder bytes' 0).

Record MouseState := mk_mouse_state { ms_x : Z; ms_y : Z; ms_buttons : Z }.

Record DecodedPacket := {
  dp_x : Z;
  dp_y : Z;
  dp_moved : bool;
  dp_buttons : Z;
  dp_changed_buttons : Z
}.

Definition decode_packet (packet : list Z) (previous : MouseState) (max_x max_y : Z)
    : option DecodedPacket :=
  match packet with
  | [flags; x_raw; y_raw] =>
      if has_flag flags (Z.lor FLAG_X_OVERFLOW FLAG_Y_OVERFLOW) then None
      else
        let dx := if has_flag flags FLAG_X_SIGN then x_raw - 256 else x_raw in
        let ps2_dy := if has_flag flags FLAG_Y_SIGN then y_raw - 256 else y_raw in
        let dy := - ps2_dy in
        let x := clamp 0 (Z.max max_x 0) (saturating_add_i32 (ms_x previous) dx) in
        let y := clamp 0 (Z.max max_y 0) (saturating_add_i32 (ms_y previous) dy) in
        let buttons := Z.land flags 7 in
        Some {| dp_x := x; dp_y := y;
                dp_moved := negb (x =? ms_x previous) || negb (y =? ms_y previous);
                dp_buttons := buttons;
                dp_changed_buttons := Z.lxor (ms_buttons previous) buttons |}
  | _ => None
  end.

Record Mouse := mk_mouse {
  cursor : MouseState;
  decoder : PacketDecoder;
  raw_bytes : Z;
  complete_packets : Z;
  desync_bytes : Z;
  overflow_packets : Z
}.

Record MouseTelemetry := {
  tel_raw_bytes : Z;
  tel_complete_packets : Z;
  tel_desync_bytes : Z;
  tel_overflow_packets : Z
}.

Definition mouse_telemetry (m : Mouse) : MouseTelemetry := {|
  tel_raw_bytes := raw_bytes m;
  tel_complete_packets := complete_packets m;
  tel_desync_bytes := desync_bytes m;
  tel_overflow_packets := overflow_packets m
|}.

Definition cursor_position (m : Mouse) : Z * Z := (ms_x (cursor m), ms_y (cursor m)).

Definition set_decoder (d : PacketDecoder) (m : Mouse) : Mouse :=
  mk_mouse (cursor m) d (raw_bytes m) (complete_packets m) (desync_bytes m) (overflow_packets m).
Definition set_cursor (c : MouseState) (m : Mouse) : Mouse :=
  mk_mouse c (decoder m) (raw_bytes m) (complete_packets m) (desync_bytes m) (overflow_packets m).
Definition count_raw (m : Mouse) : Mouse :=
  mk_mouse (cursor m) (decoder m) (wrapping_add u64_max (raw_bytes m) 1)
    (complete_packets m) (desync_bytes m) (overflow_packets m).
Definition count_complete (m : Mouse) : Mouse :=
  mk_mouse (cursor m) (decoder m) (raw_bytes m)
    (wrapping_add u64_max (complete_packets m) 1) (desync_bytes m) (overflow_packets m).
Definition count_desync (m : Mouse) : Mouse :=
  mk_mouse (cursor m) (decoder m) (raw_bytes m) (complete_packets m)
    (wrapping_add u64_max (desync_bytes m) 1) (overflow_packets m).
Definition count_overflow (m : Mouse) : Mouse :=
  mk_mouse (cursor m) (decoder m) (raw_bytes m) (complete_packets m) (desync_bytes m)
    (wrapping_add u64_max (overflow_packets m) 1).

(** ** The shared state *)

(** [display] is the width and height reported by the display, when active. *)
Record io := mk_io {
  keyboard : Keyboard;
  input : InputQueue;
  mouse : Mouse;
  wake : Wake;
  ticks : Z;
  display : option (Z * Z)
}.

Definition with_keyboard (f : Keyboard → Keyboard) (s : io) : io :=
  mk_io (f (keyboard s)) (input s) (mouse s) (wake s) (ticks s) (display s).
Definition with_input (f : InputQueue → InputQueue) (s : io) : io :=
  mk_io (keyboard s) (f (input s)) (mouse s) (wake s) (ticks s) (display s).
Definition with_mouse (f : Mouse → Mouse) (s : io) : io :=
  mk_io (keyboard s) (input s) (f (mouse s)) (wake s) (ticks s) (display s).
Definition with_wake (f : Wake → Wake) (s : io) : io :=
  mk_io (keyboard s) (input s) (mouse s) (f (wake s)) (ticks s) (display s).

(** [input::push] *)
Definition push (e : InputEvent) (s : io) : io :=
  match foreground_process_id (keyboard s) with
  | None => s
  | Some id =>
      let '(accepted, q) := enqueue (mk_queued e (ticks s)) (input s) in
      let s := with_input (λ _, q) s in
      if accepted then with_wake (request_foreground_wake id) s else s
  end.

(** [input::poll] *)
Definition poll (s : io) : option InputEvent * io :=
  let '(e, q) := dequeue (ticks s) (input s) in (e, with_input (λ _, q) s).

Definition key_code (event : KeyEvent) : option Z :=
  match event with
  | Char c => Some c
  | Enter => Some KEY_ENTER
  | Backspace => Some KEY_BACKSPACE
  | Tab => Some KEY_TAB
  | ArrowUp => Some KEY_ARROW_UP
  | ArrowDown => Some KEY_ARROW_DOWN
  | Escape => Some KEY_ESCAPE
  | NoKey => None
  end.

Definition push_key_event (event : KeyEvent) (s : io) : io :=
  match key_code event with Some code => push (KeyDown code) s | None => s end.

Definition route (event : KeyEvent) (s : io) : io :=
  match foreground_owner (keyboard s) with
  | Shell => with_keyboard (push_shell event) s
  | Desktop => push_key_event event s
  end.

Definition on_scancode (scancode : Z) (s : io) : io :=
  if extended_pending (keyboard s) then
    let s := with_keyboard (set_extended false) s in
    match translate_extended scancode with Some e => route e s | None => s end
  else if scancode =? 0xE0 then with_keyboard (set_extended true) s
  else
    let '(e, k) := translate_scancode scancode (keyboard s) in
    let s := with_keyboard (λ _, k) s in
    match e with Some e => route e s | None => s end.

Definition set_foreground_process_id (process_id : option Z) (s : io) : io :=
  let s := with_keyboard (set_shell_queue []) s in
  let s := with_input clear_queue s in
  let s := match process_id with Some _ => with_input reset_telemetry s | None => s end in
  let s := with_keyboard (set_extended false) s in
  with_keyboard (λ k, mk_keyboard (left_shift k) (right_shift k) (extended_pending k)
                        (default 0 process_id) (shell_queue k)) s.

Definition dimension_max (z : Z) : Z := Z.min z i32_max - 1.

Definition screen_max (s : io) : Z * Z :=
  match display s with
  | Some (width, height) => (dimension_max width, dimension_max height)
  | None => (i32_max, i32_max)
  end.

Definition clamp_i16 (z : Z) : Z := clamp i16_min i16_max z.

(** The button loop of [handle_packet]. *)
Fixpoint push_buttons (decoded : DecodedPacket) (ids : list (Z * Z)) (s : io) : io :=
  match ids with
  | [] => s
  | (mask, id) :: rest =>
      push_buttons decoded rest
        (if has_flag (dp_changed_buttons decoded) mask
         then push (MouseButton id (has_flag (dp_buttons decoded) mask)) s else s)
  end.

Definition button_ids : list (Z * Z) := [(FLAG_LEFT, 0); (FLAG_RIGHT, 1); (FLAG_MIDDLE, 2)].

Definition handle_packet (packet : list Z) (s : io) : io :=
  if has_flag (nth 0 packet 0) (Z.lor FLAG_X_OVERFLOW FLAG_Y_OVERFLOW) then with_mouse count_overflow s
  else
    let '(max_x, max_y) := screen_max s in
    match decode_packet packet (cursor (mouse s)) max_x max_y with
    | None => s
    | Some d =>
        let s := with_mouse (set_cursor (mk_mouse_state (dp_x d) (dp_y d) (dp_buttons d))) s in
        let s := if dp_moved d then push (MouseMove (clamp_i16 (dp_x d)) (clamp_i16 (dp_y d))) s else s in
        push_buttons d button_ids s
    end.

Definition on_byte (byte : Z) (s : io) : io :=
  let s := with_mouse count_raw s in
  let s := if (index (decoder (mouse s)) =? 0)%nat && negb (has_flag byte PACKET_SYNC_BIT)
           then with_mouse count_desync s else s in
  let '(packet, d) := feed byte (decoder (mouse s)) in
  let s := with_mouse (set_decoder d) s in
  match packet with
  | Some p => handle_packet p (with_mouse count_complete s)
  | None => s
  end.

Definition in_ps2_range (z : Z) : bool := (-256 <=? z) && (z <=? 255).

Definition inject_screen_packet (dx dy buttons : Z) (s : io) : result unit * io :=
  if negb (in_ps2_range dx) || negb (in_ps2_range dy) || negb (Z.land buttons 248 =? 0) then
    (Err "injected packet is outside standard PS/2 bounds", s)
  else
    let ps2_dy := - dy in
    if negb (in_ps2_range ps2_dy) then (Err "injected Y delta is outside standard PS/2 bounds", s)
    else
      let flags := Z.lor PACKET_SYNC_BIT buttons in
      let flags := if dx <? 0 then Z.lor flags FLAG_X_SIGN else flags in
      let flags := if ps2_dy <? 0 then Z.lor flags FLAG_Y_SIGN else flags in
      (Ok tt, on_byte (ps2_dy mod 256) (on_byte (dx mod 256) (on_byte flags s))).

Definition reset_decoder_for_diagnostics (s : io) : io := with_mouse (set_decoder new_decoder) s.

(** [mouse::self_test] *)
Definition mouse_self_test : result unit :=
  let '(p0, d0) := feed 0 new_decoder in
  _ ← ensure (negb (bool_decide (is_Some p0) || negb (index d0 =? 0)%nat))
        "unsynchronized byte was not discarded";
  let '(p1, d1) := feed PACKET_SYNC_BIT d0 in
  let '(p2, d2) := feed 5 d1 in
  let '(p3, _) := feed 0 d2 in
  _ ← ensure (negb (bool_decide (is_Some p1) || bool_decide (is_Some p2)
                    || negb (bool_decide (p3 = Some [PACKET_SYNC_BIT; 5; 0]))))
        "three-byte packet assembly/resynchronization failed";
  let initial := mk_mouse_state 10 10 0 in
  signed ← ok_or (decode_packet [Z.lor PACKET_SYNC_BIT FLAG_X_SIGN; 0xFF; 1] initial 20 20)
             "signed packet was discarded";
  _ ← ensure (negb (negb (dp_x signed =? 9) || negb (dp_y signed =? 9) || negb (dp_moved signed)))
        "signed X/Y decode or Y inversion failed";
  clamped ← ok_or (decode_packet [PACKET_SYNC_BIT; 0x7F; 0x7F] initial 20 20)
              "clamp packet was discarded";
  _ ← ensure (negb (negb (dp_x clamped =? 20) || negb (dp_y clamped =? 0)))
        "screen-edge clamping failed";
  _ ← ensure (negb (bool_decide (is_Some
          (decode_packet [Z.lor PACKET_SYNC_BIT FLAG_X_OVERFLOW; 1; 1] initial 20 20))))
        "overflow packet was not discarded";
  pressed ← ok_or (decode_packet [Z.lor PACKET_SYNC_BIT FLAG_LEFT; 0; 0] initial 20 20)
              "button press packet was discarded";
  _ ← ensure (negb (negb (dp_changed_buttons pressed =? FLAG_LEFT) || negb (dp_buttons pressed =? FLAG_LEFT)))
        "button press edge was not detected";
  held ← ok_or (decode_packet [Z.lor PACKET_SYNC_BIT FLAG_LEFT; 0; 0]
                  (mk_mouse_state (ms_x initial) (ms_y initial) (dp_buttons pressed)) 20 20)
           "held-button packet was discarded";
  _ ← ensure (negb (negb (dp_changed_buttons held =? 0))) "held button generated a duplicate edge";
  released ← ok_or (decode_packet [PACKET_SYNC_BIT; 0; 0]
                      (mk_mouse_state (ms_x initial) (ms_y initial) (dp_buttons held)) 20 20)
               "button release packet was discarded";
  ensure (negb (negb (dp_changed_buttons released =? FLAG_LEFT) || negb (dp_buttons released =? 0)))
    "button release edge was not detected".

(** ** Traces: interrupts, polls and hand-overs in any order *)

Inductive io_op :=
| Scancode (b : Z)
| MouseByte (b : Z)
| PollKey
| PollInput
| Handoff (process_id : option Z)
| Tick.

Inductive io_out :=
| NoOut
| KeyOut (k : KeyEvent)
| EventOut (e : option InputEvent).

Definition io_step (op : io_op) (s : io) : io_out * io :=
  match op with
  | Scancode b => (NoOut, on_scancode b s)
  | MouseByte b => (NoOut, on_byte b s)
  | PollKey => let '(k, kb) := poll_key (keyboard s) in (KeyOut k, with_keyboard (λ _, kb) s)
  | PollInput => let '(e, s) := poll s in (EventOut e, s)
  | Handoff pid => (NoOut, set_foreground_process_id pid s)
  | Tick => (NoOut, mk_io (keyboard s) (input s) (mouse s) (wake s) (ticks s + 1) (display s))
  end.

Fixpoint io_run (ops : list io_op) (s : io) : list io_out * io :=
  match ops with
  | [] => ([], s)
  | op :: rest =>
      let '(o, s) := io_step op s in
      let '(os, s) := io_run rest s in (o :: os, s)
  end.

(** ** Specification *)

(** The keys a sequence of scancodes types, whoever receives them. *)
Definition decode_scancode (scancode : Z) (k : Keyboard) : option KeyEvent * Keyboard :=
  if extended_pending k then (translate_extended scancode, set_extended false k)
  else if scancode =? 0xE0 then (None, set_extended true k)
  else translate_scancode scancode k.

Fixpoint typed (ops : list io_op) (k : Keyboard) : list KeyEvent :=
  match ops with
  | [] => []
  | Scancode b :: rest =>
      let '(e, k) := decode_scancode b k in option_list e ++ typed rest k
  | _ :: rest => typed rest k
  end.

Definition is_handoff (op : io_op) : bool := match op with Handoff _ => true | _ => false end.

(** What the two readers received. *)
Definition shell_keys (outs : list io_out) : list KeyEvent :=
  omap (λ o, match o with KeyOut NoKey => None | KeyOut k => Some k | _ => None end) outs.
Definition events_out (outs : list io_out) : list InputEvent :=
  omap (λ o, match o with EventOut e => e | _ => None end) outs.
Definition key_codes (l : list InputEvent) : list Z :=
  omap (λ e, match e with KeyDown c => Some c | _ => None end) l.

(** Queue operations, for the queue's own specification. *)
Inductive queue_op := QPush (e : InputEvent) | QPoll | QTick.

Definition queue_step (op : queue_op) (s : io) : list InputEvent * io :=
  match op with
  | QPush e => ([], push e s)
  | QPoll => let '(e, s) := poll s in (option_list e, s)
  | QTick => ([], mk_io (keyboard s) (input s) (mouse s) (wake s) (ticks s + 1) (display s))
  end.

Fixpoint queue_run (ops : list queue_op) (s : io) : list InputEvent * io :=
  match ops with
  | [] => ([], s)
  | op :: rest =>
      let '(o, s) := queue_step op s in
      let '(os, s) := queue_run rest s in (o ++ os, s)
  end.

Definition pushed (ops : list queue_op) : list InputEvent :=
  omap (λ op, match op with QPush e => Some e | _ => None end) ops.

(** Every run of adjacent pointer moves reduced to its last one. *)
Fixpoint collapse (l : list InputEvent) : list InputEvent :=
  match l with
  | [] => []
  | e :: r =>
      if is_move e && match r with e' :: _ => is_move e' | [] => false end
      then collapse r else e :: collapse r
  end.

Definition queued_events (s : io) : list InputEvent := event <$> queue (input s).

(** No two adjacent moves. *)
Definition collapsed (l : list InputEvent) : Prop := collapse l = l.

(** ** Lemmas: projections *)

Lemma mouse_self_test_passes : mouse_self_test = Ok tt.
Proof. reflexivity. Qed.

Lemma push_shell_pid e k : foreground_pid (push_shell e k) = foreground_pid k.
Proof. unfold push_shell. by case_match. Qed.

Lemma push_keyboard e s : keyboard (push e s) = keyboard s.
Proof. unfold push. destruct (foreground_process_id _); [|done]. destruct (enqueue _ _) as [[] ?]; done. Qed.

Lemma push_buttons_keyboard d ids s : keyboard (push_buttons d ids s) = keyboard s.
Proof.
  revert s. induction ids as [|[m i] ids IH]; intros s; [done|]. simpl. rewrite IH.
  destruct (has_flag _ _); [apply push_keyboard|done].
Qed.

Lemma handle_packet_keyboard p s : keyboard (handle_packet p s) = keyboard s.
Proof.
  unfold handle_packet. destruct (has_flag _ _); [done|]. destruct (screen_max s).
  destruct (decode_packet _ _ _ _); [|done]. rewrite push_buttons_keyboard.
  destruct (dp_moved _); [by rewrite push_keyboard|done].
Qed.

Lemma on_byte_keyboard b s : keyboard (on_byte b s) = keyboard s.
Proof.
  unfold on_byte. destruct (_ && _); destruct (feed _ _) as [[p|] d];
    rewrite ?handle_packet_keyboard; done.
Qed.

(** While the shell owns the keyboard nothing reaches the event queue. *)
Lemma push_no_owner e s : foreground_process_id (keyboard s) = None → push e s = s.
Proof. intros H. unfold push. by rewrite H. Qed.

Lemma push_buttons_no_owner d ids s :
  foreground_process_id (keyboard s) = None → push_buttons d ids s = s.
Proof.
  intros H. revert s H. induction ids as [|[m i] ids IH]; intros s H; [done|]. simpl.
  destruct (has_flag _ _); [rewrite (push_no_owner _ _ H)|]; by apply IH.
Qed.

Lemma on_byte_no_owner b s :
  foreground_process_id (keyboard s) = None → input (on_byte b s) = input s.
Proof.
  intros H. unfold on_byte. destruct (_ && _); destruct (feed _ _) as [[p|] d]; try done;
    unfold handle_packet; (destruct (has_flag _ _); [done|]); destruct (screen_max _);
    (destruct (decode_packet _ _ _ _); [|done]);
    (destruct (dp_moved _); [rewrite push_no_owner by exact H|]);
    rewrite push_buttons_no_owner by exact H; done.
Qed.

(** ** Collapsing runs of moves *)

Definition starts_with_move (l : list InputEvent) : bool :=
  match l with e :: _ => is_move e | [] => false end.

Lemma collapse_cons e r :
  collapse (e :: r) = if is_move e && starts_with_move r then collapse r else e :: collapse r.
Proof. done. Qed.

Lemma collapse_starts l : starts_with_move (collapse l) = starts_with_move l.
Proof.
  induction l as [|e r IH]; [done|]. rewrite collapse_cons.
  destruct (is_move e && starts_with_move r) eqn:E; [|done].
  apply andb_true_iff in E as [He Hr]. by rewrite IH, Hr.
Qed.

Lemma collapse_cons_congr e a b : collapse a = collapse b → collapse (e :: a) = collapse (e :: b).
Proof.
  intros H. rewrite !collapse_cons, <- (collapse_starts a), H, collapse_starts. done.
Qed.

Lemma collapse_app_congr l a b : collapse a = collapse b → collapse (l ++ a) = collapse (l ++ b).
Proof. intros H. induction l as [|e l IH]; [done|]. simpl app. by apply collapse_cons_congr. Qed.

Lemma collapse_move_move m1 m2 r :
  is_move m1 = true → is_move m2 = true → collapse (m1 :: m2 :: r) = collapse (m2 :: r).
Proof. intros H1 H2. rewrite (collapse_cons m1). simpl starts_with_move. by rewrite H1, H2. Qed.

Lemma collapse_length l : (length (collapse l) ≤ length l)%nat.
Proof.
  induction l as [|e l IH]; [done|]. rewrite collapse_cons.
  destruct (_ && _); simpl; lia.
Qed.

Lemma collapsed_cons e r : collapsed (e :: r) → collapsed r.
Proof.
  unfold collapsed. rewrite collapse_cons. destruct (_ && _); intros H; [|congruence].
  pose proof (collapse_length r) as L. rewrite H in L. simpl in L. lia.
Qed.

Lemma collapsed_snoc l e :
  collapsed l → (is_move e = true → ∀ m, last l = Some m → is_move m = false) → collapsed (l ++ [e]).
Proof.
  induction l as [|x r IH]; intros Hc Hm.
  - unfold collapsed. simpl. by rewrite andb_false_r.
  - pose proof (collapsed_cons _ _ Hc) as Hr.
    unfold collapsed in *. simpl app. rewrite collapse_cons in Hc |- *.
    destruct (is_move x && starts_with_move r) eqn:E.
    { pose proof (collapse_length r) as L. rewrite Hc in L. simpl in L. lia. }
    destruct r as [|y r].
    + simpl. destruct (is_move x) eqn:Ex, (is_move e) eqn:Ee; simpl; try done.
      specialize (Hm eq_refl x eq_refl). congruence.
    + simpl app. simpl starts_with_move in *. rewrite E. f_equal. apply (IH Hr).
      intros He m Hl. by apply (Hm He m).
Qed.

Lemma collapsed_replace l m e : is_move m = true → is_move e = true → collapsed (l ++ [m]) → collapsed (l ++ [e]).
Proof.
  intros Hm He. induction l as [|x l IH]; intros Hc.
  - unfold collapsed. simpl. by rewrite andb_false_r.
  - pose proof (collapsed_cons _ _ Hc) as Hr. specialize (IH Hr).
    unfold collapsed in *. simpl app in *. rewrite collapse_cons in Hc |- *.
    replace (starts_with_move (l ++ [e])) with (starts_with_move (l ++ [m]))
      by (destruct l; simpl; congruence).
    destruct (_ && _); [|by rewrite IH].
    pose proof (collapse_length (l ++ [m])) as L. rewrite Hc in L. simpl in L. lia.
Qed.

(** ** The queue *)

(** The three outcomes of [enqueue]: replace the move at the back, append, drop. *)
Lemma enqueue_cases x q : (length (queue q) ≤ INPUT_QUEUE_CAPACITY)%nat →
  let q' := (enqueue x q).2 in
  (∃ l0 m, queue q = l0 ++ [m] ∧ is_move (event x) = true ∧ is_move (event m) = true ∧
     queue q' = l0 ++ [x] ∧ dropped_events q' = dropped_events q)
  ∨ ((length (queue q) < INPUT_QUEUE_CAPACITY)%nat ∧ queue q' = queue q ++ [x] ∧
     (is_move (event x) = true → ∀ m, last (queue q) = Some m → is_move (event m) = false) ∧
     dropped_events q' = dropped_events q)
  ∨ (length (queue q) = INPUT_QUEUE_CAPACITY ∧ queue q' = queue q ∧
     dropped_events q' = wrapping_add u64_max (dropped_events q) 1).
Proof.
  intros Hlen. unfold enqueue. destruct (last (queue q)) as [l|] eqn:Hl.
  - apply last_Some in Hl as [l0 Hq].
    destruct (is_move (event x) && is_move (event l)) eqn:Em.
    + apply andb_true_iff in Em as [??]. left. exists l0, l. rewrite Hq. simpl.
      rewrite removelast_last. done.
    + destruct (Nat.ltb_spec (length (queue q)) INPUT_QUEUE_CAPACITY).
      * right; left. split_and!; [done|done| |done]. intros He m [= <-]. by rewrite He in Em.
      * right; right. split_and!; [lia|done|done].
  - apply last_None in Hl. right; left. rewrite Hl. simpl.
    split_and!; [unfold INPUT_QUEUE_CAPACITY; lia|done|done|done].
Qed.

Lemma push_input e s id : foreground_process_id (keyboard s) = Some id →
  input (push e s) = (enqueue (mk_queued e (ticks s)) (input s)).2.
Proof. intros H. unfold push. rewrite H. by destruct (enqueue _ _) as [[] q]. Qed.

Definition queue_inv (s : io) : Prop :=
  (length (queue (input s)) ≤ INPUT_QUEUE_CAPACITY)%nat ∧ collapsed (queued_events s).

Lemma last_fmap_event l : last (event <$> l) = event <$> last l.
Proof. by rewrite fmap_last. Qed.

(** A push appends to the queued events up to [collapse], or counts a drop. *)
Lemma push_spec e s id : foreground_process_id (keyboard s) = Some id → queue_inv s →
  queue_inv (push e s) ∧
  ((∀ r, collapse (queued_events (push e s) ++ r) = collapse (queued_events s ++ e :: r)) ∧
     dropped_events (input (push e s)) = dropped_events (input s)
   ∨ queued_events (push e s) = queued_events s ∧
     dropped_events (input (push e s)) = wrapping_add u64_max (dropped_events (input s)) 1).
Proof.
  intros Hid [Hlen Hc]. unfold queue_inv, queued_events in *. rewrite (push_input _ _ _ Hid).
  set (x := mk_queued e (ticks s)).
  destruct (enqueue_cases x (input s) Hlen) as [(l0&m&Hq&Hx&Hm&Hq'&Hd)|[(Hl&Hq'&Hm&Hd)|(Hl&Hq'&Hd)]];
    rewrite Hq', Hd.
  - rewrite Hq in *. rewrite fmap_app in *. simpl in *. split; [split|left; split].
    + by rewrite length_app in *.
    + by apply collapsed_replace with (event m).
    + intros r. rewrite !fmap_app, <- !app_assoc. simpl. apply collapse_app_congr.
      symmetry. by apply collapse_move_move.
    + done.
  - rewrite fmap_app. simpl. split; [split|left; split].
    + rewrite length_app. simpl. lia.
    + apply collapsed_snoc; [done|]. intros He m. rewrite last_fmap_event.
      destruct (last _) as [l|] eqn:El; simpl; [|done]. intros [= <-]. by apply Hm.
    + intros r. by rewrite <- app_assoc.
    + done.
  - split; [split; [lia|done]|by right].
Qed.

Lemma poll_spec s : queue_inv s →
  let '(o, s') := poll s in
  queue_inv s' ∧ queued_events s = option_list o ++ queued_events s' ∧ keyboard s' = keyboard s ∧
  dropped_events (input s') = dropped_events (input s).
Proof.
  intros [Hlen Hc]. unfold poll, dequeue. destruct (queue (input s)) as [|x r] eqn:Hq; simpl.
  { unfold queue_inv, queued_events. simpl. rewrite Hq. done. }
  unfold queued_events in Hc. rewrite Hq in Hc.
  destruct (is_move (event x)); unfold queue_inv, queued_events; simpl; rewrite Hq;
    (split_and!; [simpl in Hlen; lia|by apply collapsed_cons in Hc|done..]).
Qed.

Lemma queue_run_spec ops s id out s' :
  foreground_process_id (keyboard s) = Some id → queue_inv s → queue_run ops s = (out, s') →
  queue_inv s' ∧
  ∃ kept, kept `sublist_of` pushed ops ∧
    collapse (out ++ queued_events s') = collapse (queued_events s ++ kept) ∧
    dropped_events (input s') mod 2 ^ 64
    = (dropped_events (input s) + (zlen (pushed ops) - zlen kept)) mod 2 ^ 64.
Proof.
  revert s out. induction ops as [|op ops IH]; intros s out Hid Hinv Hrun; simpl in Hrun.
  { injection Hrun as <- <-. split; [done|]. exists []. rewrite app_nil_r. split_and!; [done|done|].
    f_equal. unfold zlen. simpl. lia. }
  destruct (queue_step op s) as [o1 s1] eqn:E1, (queue_run ops s1) as [o2 s2] eqn:E2.
  injection Hrun as <- <-. destruct op as [e| |]; simpl in E1.
  - injection E1 as <- <-. destruct (push_spec e _ _ Hid Hinv) as [Hinv1 Hc].
    destruct (IH _ _ ltac:(by rewrite push_keyboard) Hinv1 E2) as [Hinv2 (kept&Hs&Hk&Hd)].
    split; [done|]. simpl. destruct Hc as [[Hc Hd1]|[Hc Hd1]].
    + exists (e :: kept). split_and!; [by constructor|by rewrite Hk, Hc|].
      rewrite Hd, Hd1. f_equal. autorewrite with zlen. lia.
    + exists kept. split_and!; [by constructor|by rewrite Hk, Hc|].
      rewrite Hd, Hd1. unfold wrapping_add. replace (u64_max + 1) with (2 ^ 64) by done.
      rewrite Z.add_mod_idemp_l by done. f_equal. autorewrite with zlen. lia.
  - pose proof (poll_spec s Hinv) as Hp. destruct (poll s) as [o sp].
    destruct Hp as (Hinv1&Hq&Hkb&Hd1). injection E1 as <- <-.
    destruct (IH _ _ ltac:(by rewrite Hkb) Hinv1 E2) as [Hinv2 (kept&Hs&Hk&Hd)].
    split; [done|]. exists kept. split_and!; [done| |by rewrite Hd, Hd1].
    rewrite Hq, <- !app_assoc. by apply collapse_app_congr.
  - injection E1 as <- <-. refine (IH _ _ _ _ E2); [exact Hid|exact Hinv].
Qed.

Lemma foreground_after_handoff pid s : pid ≠ 0 →
  foreground_process_id (keyboard (set_foreground_process_id (Some pid) s)) = Some pid.
Proof.
  intros H. change (foreground_process_id _) with (if pid =? 0 then None else Some pid).
  apply Z.eqb_neq in H. by rewrite H.
Qed.

(** Whatever is pushed and polled after the event queue was handed to a
    process, the queue holds at most 64 events with no two adjacent pointer
    moves; the events delivered and still queued are, up to reducing runs of
    moves to their last one, the pushed events in order except those the drop
    counter counted. *)
Theorem input_queue_collapses_bursts ops pid s out s' :
  pid ≠ 0 →
  queue_run ops (set_foreground_process_id (Some pid) s) = (out, s') →
  (length (queue (input s')) ≤ INPUT_QUEUE_CAPACITY)%nat ∧
  collapsed (queued_events s') ∧
  ∃ kept, kept `sublist_of` pushed ops ∧
    collapse (out ++ queued_events s') = collapse kept ∧
    dropped_events (input s') mod 2 ^ 64 = (zlen (pushed ops) - zlen kept) mod 2 ^ 64.
Proof.
  intros Hpid Hrun.
  destruct (queue_run_spec _ _ pid _ _ (foreground_after_handoff _ _ Hpid)
              ltac:(split; [apply Nat.le_0_l|done]) Hrun) as [[Hl Hc] (kept&Hs&Hk&Hd)].
  split_and!; [done..|]. exists kept. done.
Qed.

(** ** Exclusive routing *)

Lemma key_codes_app l k : key_codes (l ++ k) = key_codes l ++ key_codes k.
Proof. apply omap_app. Qed.

Lemma key_codes_push e s :
  key_codes (queued_events (push e s)) `sublist_of` key_codes (queued_events s) ++ key_codes [e].
Proof.
  destruct (foreground_process_id (keyboard s)) as [id|] eqn:Hid.
  2:{ rewrite push_no_owner by done. by apply sublist_inserts_r. }
  unfold queued_events. rewrite (push_input _ _ _ Hid). unfold enqueue.
  destruct (last _) as [l|] eqn:Hl; simpl.
  2:{ apply last_None in Hl. by rewrite Hl. }
  apply last_Some in Hl as [l0 Hq].
  destruct (is_move e && is_move (event l)) eqn:Em; simpl.
  { apply andb_true_iff in Em as [He Hm]. rewrite Hq, removelast_last, !fmap_app, !key_codes_app.
    destruct e, l as [[] ?]; try done. simpl. by rewrite !app_nil_r. }
  destruct (_ <? _)%nat; simpl.
  - by rewrite fmap_app, key_codes_app.
  - by apply sublist_inserts_r.
Qed.

Lemma key_codes_push_buttons d ids s :
  key_codes (queued_events (push_buttons d ids s)) `sublist_of` key_codes (queued_events s).
Proof.
  revert s. induction ids as [|[m i] ids IH]; intros s; [done|]. simpl. etrans; [apply IH|].
  destruct (has_flag _ _); [|done]. etrans; [apply key_codes_push|]. by rewrite app_nil_r.
Qed.

Lemma key_codes_on_byte b s :
  key_codes (queued_events (on_byte b s)) `sublist_of` key_codes (queued_events s).
Proof.
  unfold on_byte. destruct (_ && _); destruct (feed _ _) as [[p|] d]; try done;
    unfold handle_packet; (destruct (has_flag _ _); [done|]); destruct (screen_max _);
    (destruct (decode_packet _ _ _ _) as [dp|]; [|done]);
    (etrans; [apply key_codes_push_buttons|]);
    (destruct (dp_moved _); [|done]); (etrans; [apply key_codes_push|]); by rewrite app_nil_r.
Qed.

Lemma translate_scancode_frame b k :
  foreground_pid (translate_scancode b k).2 = foreground_pid k ∧
  shell_queue (translate_scancode b k).2 = shell_queue k ∧
  (translate_scancode b k).1 ≠ Some NoKey.
Proof.
  unfold translate_scancode, emit_pair, emit_letter. destruct (negb _).
  - repeat case_match; done.
  - repeat case_match; done.
Qed.

Lemma decode_scancode_frame b k :
  foreground_pid (decode_scancode b k).2 = foreground_pid k ∧
  shell_queue (decode_scancode b k).2 = shell_queue k ∧
  (decode_scancode b k).1 ≠ Some NoKey.
Proof.
  unfold decode_scancode. destruct (extended_pending k).
  - simpl. unfold translate_extended. split_and!; [done..|]. repeat case_match; done.
  - destruct (_ =? _); [done|]. apply translate_scancode_frame.
Qed.

(** The interrupt handler is the decoder followed by the router. *)
Lemma on_scancode_decode b s :
  on_scancode b s =
  let '(e, k) := decode_scancode b (keyboard s) in
  let s := with_keyboard (λ _, k) s in
  match e with Some e => route e s | None => s end.
Proof.
  unfold on_scancode, decode_scancode. destruct (extended_pending _); [done|].
  destruct (_ =? _); done.
Qed.

Lemma set_keyboard_queued k s : queued_events (with_keyboard k s) = queued_events s.
Proof. done. Qed.

Lemma push_key_event_spec e s : e ≠ NoKey →
  key_codes (queued_events (push_key_event e s))
    `sublist_of` key_codes (queued_events s) ++ option_list (key_code e).
Proof.
  intros He. unfold push_key_event. destruct (key_code e) as [c|] eqn:Hc.
  - apply key_codes_push.
  - by destruct e.
Qed.

Lemma push_key_event_keyboard e s : keyboard (push_key_event e s) = keyboard s.
Proof. unfold push_key_event. destruct (key_code e); [apply push_keyboard|done]. Qed.

Lemma foreground_owner_pid k k' :
  foreground_pid k = foreground_pid k' → foreground_owner k = foreground_owner k'.
Proof. intros H. unfold foreground_owner, foreground_process_id. by rewrite H. Qed.

Lemma owner_Shell k : foreground_owner k = Shell → foreground_process_id k = None.
Proof. unfold foreground_owner. by destruct (foreground_process_id k). Qed.

Lemma decode_scancode_queue b q k :
  decode_scancode b (set_shell_queue q k) =
  ((decode_scancode b k).1, set_shell_queue q (decode_scancode b k).2).
Proof.
  destruct k as [l r x p q0]. unfold decode_scancode. simpl. destruct x; [done|].
  destruct (b =? 0xE0); [done|]. unfold translate_scancode. destruct (negb _).
  - repeat case_match; done.
  - repeat case_match; done.
Qed.

Lemma typed_queue ops q k : typed ops (set_shell_queue q k) = typed ops k.
Proof.
  revert k. induction ops as [|[b| | | | |] ops IH]; intros k; try apply IH; [done|].
  simpl. rewrite decode_scancode_queue. destruct (decode_scancode b k) as [e k']. simpl. by rewrite IH.
Qed.

Lemma typed_push_shell ops e k : typed ops (push_shell e k) = typed ops k.
Proof. unfold push_shell. destruct (_ <? _)%nat; [apply typed_queue|done]. Qed.

Definition shell_owns (s : io) : Prop :=
  foreground_owner (keyboard s) = Shell ∧ queue (input s) = [] ∧ NoKey ∉ shell_queue (keyboard s).

(** One interrupt or poll while the shell owns the keyboard: the event queue
    stays empty and the shell queue moves on by the typed keys. *)
Lemma io_step_shell op s o s1 :
  shell_owns s → is_handoff op = false → io_step op s = (o, s1) →
  shell_owns s1 ∧ events_out [o] = [] ∧
  ∀ ops, let k := keyboard s in let k1 := keyboard s1 in
    (∀ out, out `sublist_of` shell_queue k1 ++ typed ops k1 →
       shell_keys [o] ++ out `sublist_of` shell_queue k ++ typed (op :: ops) k) ∧
    ((length (shell_queue k ++ typed (op :: ops) k) ≤ KEYBOARD_QUEUE_CAPACITY)%nat →
       shell_keys [o] ++ shell_queue k1 ++ typed ops k1 = shell_queue k ++ typed (op :: ops) k).
Proof.
  intros (Ho&Hq&Hn) Hop Hs. destruct op as [b|b| | |pid|]; simpl in Hs; [..|done|].
  - injection Hs as <- <-. rewrite on_scancode_decode. simpl typed.
    pose proof (decode_scancode_frame b (keyboard s)) as (Hp&Hsq&He).
    assert (foreground_owner (decode_scancode b (keyboard s)).2 = Shell) as Hk
      by (rewrite <- Ho; by apply foreground_owner_pid).
    destruct (decode_scancode b (keyboard s)) as [[e|] k] eqn:Ed; simpl in *.
    2:{ unfold shell_owns. simpl. rewrite Hsq. split_and!; [done..|]. intros ops. by rewrite Ed. }
    unfold route. simpl. rewrite Hk. simpl. split_and!; [split_and!|done|].
    + simpl. rewrite <- Hk. apply foreground_owner_pid, push_shell_pid.
    + done.
    + simpl. unfold push_shell. destruct (_ <? _)%nat; simpl; [|by rewrite Hsq].
      rewrite Hsq. set_unfold. naive_solver.
    + intros ops. rewrite Ed. simpl. rewrite typed_push_shell. unfold push_shell. rewrite <- Hsq.
      destruct (Nat.ltb_spec (length (shell_queue k)) KEYBOARD_QUEUE_CAPACITY); simpl.
      * by rewrite <- !app_assoc.
      * split; [|intros L; rewrite length_app in L; simpl in L; lia].
        intros out Hout. etrans; [exact Hout|]. apply sublist_app; [done|by constructor].
  - injection Hs as <- <-. unfold shell_owns.
    rewrite on_byte_no_owner by (by apply owner_Shell). by rewrite on_byte_keyboard.
  - unfold poll_key in Hs. destruct (shell_queue (keyboard s)) as [|e r] eqn:E; injection Hs as <- <-.
    + unfold shell_owns. simpl. rewrite E. done.
    + assert (e ≠ NoKey) as He by set_solver. split_and!; [split_and!; [|done|set_solver]|done|].
      { simpl. rewrite <- Ho. by apply foreground_owner_pid. }
      intros ops. simpl. rewrite typed_queue, E. destruct e; try done; simpl;
        (split; [intros out; by apply sublist_skip|done]).
  - unfold poll, dequeue in Hs. rewrite Hq in Hs. injection Hs as <- <-. unfold shell_owns. done.
  - injection Hs as <- <-. done.
Qed.

Definition desktop_owns (s : io) : Prop :=
  foreground_owner (keyboard s) = Desktop ∧ shell_queue (keyboard s) = [].

(** The same while a process owns it: the shell queue stays empty. *)
Lemma io_step_desktop op s o s1 :
  desktop_owns s → is_handoff op = false → io_step op s = (o, s1) →
  desktop_owns s1 ∧ shell_keys [o] = [] ∧
  ∀ ops out,
    out `sublist_of` key_codes (queued_events s1) ++ omap key_code (typed ops (keyboard s1)) →
    key_codes (events_out [o]) ++ out
      `sublist_of` key_codes (queued_events s) ++ omap key_code (typed (op :: ops) (keyboard s)).
Proof.
  intros (Ho&Hq) Hop Hs. destruct op as [b|b| | |pid|]; simpl in Hs; [..|done|].
  - injection Hs as <- <-. rewrite on_scancode_decode.
    pose proof (decode_scancode_frame b (keyboard s)) as (Hp&Hsq&He).
    assert (foreground_owner (decode_scancode b (keyboard s)).2 = Desktop) as Hk
      by (rewrite <- Ho; by apply foreground_owner_pid).
    unfold typed. fold typed.
    destruct (decode_scancode b (keyboard s)) as [[e|] k] eqn:Ed; simpl in *.
    2:{ unfold desktop_owns. simpl. rewrite Hsq. done. }
    unfold route. simpl. rewrite Hk. split_and!; [|done|].
    + unfold desktop_owns. rewrite push_key_event_keyboard. simpl. by rewrite Hsq.
    + intros ops out Hout. rewrite push_key_event_keyboard in Hout. simpl in Hout.
      etrans; [exact Hout|].
      replace (match key_code e with Some y => y :: _ | None => _ end)
        with (option_list (key_code e) ++ omap key_code (typed ops k)) by (by destruct (key_code e)).
      rewrite app_assoc. apply sublist_app; [|done].
      apply (push_key_event_spec e (with_keyboard (λ _, k) s)). congruence.
  - injection Hs as <- <-. unfold desktop_owns. rewrite !on_byte_keyboard. split_and!; [done..|].
    intros ops out Hout. simpl in *. etrans; [exact Hout|].
    apply sublist_app; [apply key_codes_on_byte|done].
  - unfold poll_key in Hs. rewrite Hq in Hs. injection Hs as <- <-. done.
  - unfold poll, dequeue in Hs. destruct (queue (input s)) as [|x r] eqn:E.
    + injection Hs as <- <-. unfold desktop_owns, queued_events. simpl. by rewrite E.
    + assert (∃ q, (o, s1) = (EventOut (Some (event x)), with_input (λ _, q) s) ∧ queue q = r)
        as (q&[= -> ->]&Hr) by (destruct (is_move (event x)); injection Hs as <- <-; eauto).
      split_and!; [done..|]. intros ops out Hout. unfold queued_events in *. rewrite E.
      cbn [queue input with_input keyboard typed] in *. rewrite Hr in Hout.
      change (events_out [EventOut (Some (event x))]) with [event x]. rewrite fmap_cons.
      change (event x :: (event <$> r)) with ([event x] ++ (event <$> r)).
      rewrite key_codes_app, <- app_assoc. by apply sublist_app.
  - injection Hs as <- <-. done.
Qed.

Lemma shell_keys_cons o os : shell_keys (o :: os) = shell_keys [o] ++ shell_keys os.
Proof. apply (omap_app _ [o] os). Qed.

Lemma events_out_cons o os : events_out (o :: os) = events_out [o] ++ events_out os.
Proof. apply (omap_app _ [o] os). Qed.

Lemma io_run_shell ops s outs s' :
  shell_owns s → forallb (negb ∘ is_handoff) ops = true → io_run ops s = (outs, s') →
  shell_owns s' ∧ events_out outs = [] ∧
  shell_keys outs ++ shell_queue (keyboard s') `sublist_of` shell_queue (keyboard s) ++ typed ops (keyboard s) ∧
  ((length (shell_queue (keyboard s) ++ typed ops (keyboard s)) ≤ KEYBOARD_QUEUE_CAPACITY)%nat →
   shell_keys outs ++ shell_queue (keyboard s') = shell_queue (keyboard s) ++ typed ops (keyboard s)).
Proof.
  revert s outs. induction ops as [|op ops IH]; intros s outs Hs Hh Hrun; simpl in Hrun.
  { injection Hrun as <- <-. simpl. by rewrite app_nil_r. }
  simpl in Hh. apply andb_true_iff in Hh as [Hop Hh]. apply negb_true_iff in Hop.
  destruct (io_step op s) as [o s1] eqn:E1, (io_run ops s1) as [os s2] eqn:E2.
  injection Hrun as <- <-. destruct (io_step_shell _ _ _ _ Hs Hop E1) as (Hs1&He1&Hstep).
  destruct (IH _ _ Hs1 Hh E2) as (Hs2&He2&Hsub&Heq). specialize (Hstep ops) as [Hsub1 Heq1].
  rewrite shell_keys_cons, events_out_cons, He1, He2, <- app_assoc.
  split_and!; [done|done|by apply Hsub1|]. intros Hl. rewrite Heq; [by apply Heq1|].
  specialize (Heq1 Hl). rewrite <- Heq1, length_app in Hl. lia.
Qed.

Lemma io_run_desktop ops s outs s' :
  desktop_owns s → forallb (negb ∘ is_handoff) ops = true → io_run ops s = (outs, s') →
  desktop_owns s' ∧ shell_keys outs = [] ∧
  key_codes (events_out outs ++ queued_events s')
    `sublist_of` key_codes (queued_events s) ++ omap key_code (typed ops (keyboard s)).
Proof.
  revert s outs. induction ops as [|op ops IH]; intros s outs Hs Hh Hrun; simpl in Hrun.
  { injection Hrun as <- <-. simpl. by rewrite app_nil_r. }
  simpl in Hh. apply andb_true_iff in Hh as [Hop Hh]. apply negb_true_iff in Hop.
  destruct (io_step op s) as [o s1] eqn:E1, (io_run ops s1) as [os s2] eqn:E2.
  injection Hrun as <- <-. destruct (io_step_desktop _ _ _ _ Hs Hop E1) as (Hs1&He1&Hstep).
  destruct (IH _ _ Hs1 Hh E2) as (Hs2&He2&Hsub).
  rewrite shell_keys_cons, events_out_cons, He1, He2, <- app_assoc, key_codes_app.
  split_and!; [done|done|]. by apply Hstep.
Qed.

(** C40: After a hand-over of the keyboard, whatever interrupts and polls
    follow until the next one, only the new owner receives input, and only
    keys typed since: nothing typed for one owner is ever replayed to the
    other. The shell misses no key while at most 32 were typed. *)
Theorem handoff_isolates_owners pid ops s outs s' :
  forallb (negb ∘ is_handoff) ops = true →
  let s0 := set_foreground_process_id pid s in
  io_run ops s0 = (outs, s') →
  let keys := typed ops (keyboard s0) in
  match foreground_owner (keyboard s0) with
  | Shell =>
      events_out outs = [] ∧ queue (input s') = [] ∧
      shell_keys outs ++ shell_queue (keyboard s') `sublist_of` keys ∧
      ((length keys ≤ KEYBOARD_QUEUE_CAPACITY)%nat → shell_keys outs ++ shell_queue (keyboard s') = keys)
  | Desktop =>
      shell_keys outs = [] ∧ shell_queue (keyboard s') = [] ∧
      key_codes (events_out outs ++ queued_events s') `sublist_of` omap key_code keys
  end.
Proof.
  intros Hh s0 Hrun keys.
  assert (shell_queue (keyboard s0) = [] ∧ queue (input s0) = []) as [Hk Hq] by (by destruct pid).
  destruct (foreground_owner (keyboard s0)) eqn:Ho.
  - destruct (io_run_shell ops s0 outs s') as ((_&Hq'&_)&He&Hs&Heq); [|done..|].
    { split_and!; [done|done|]. rewrite Hk. set_solver. }
    rewrite Hk in Hs, Heq. done.
  - destruct (io_run_desktop ops s0 outs s') as ((_&Hq')&He&Hs); [done..|].
    unfold queued_events at 2 in Hs. rewrite Hq in Hs. done.
Qed.

(** ** The cursor *)

Definition on_axis (max z : Z) : Prop := 0 <= z <= Z.max max 0.

Definition mouse_ok (s : io) : Prop :=
  let '(max_x, max_y) := screen_max s in
  on_axis max_x (ms_x (cursor (mouse s))) ∧ on_axis max_y (ms_y (cursor (mouse s))) ∧
  0 <= ms_buttons (cursor (mouse s)) < 8 ∧
  length (bytes (decoder (mouse s))) = 3%nat ∧ (index (decoder (mouse s)) < 3)%nat.

Definition push_all (events : list InputEvent) (s : io) : io := foldl (λ s e, push e s) s events.

(** The events a packet must produce: a move when the position changed, then an
    edge for each button that changed. *)
Definition button_edges (old new : Z) : list InputEvent :=
  omap (λ '(mask, id),
    if Bool.eqb (has_flag old mask) (has_flag new mask) then None
    else Some (MouseButton id (has_flag new mask))) button_ids.

Definition packet_events (old new : MouseState) : list InputEvent :=
  (if (ms_x new =? ms_x old) && (ms_y new =? ms_y old) then []
   else [MouseMove (clamp_i16 (ms_x new)) (clamp_i16 (ms_y new))])
  ++ button_edges (ms_buttons old) (ms_buttons new).

(** Where a relative movement takes the cursor. *)
Definition moved_cursor (s : io) (dx dy buttons : Z) : MouseState :=
  let '(max_x, max_y) := screen_max s in
  mk_mouse_state (clamp 0 (Z.max max_x 0) (ms_x (cursor (mouse s)) + dx))
    (clamp 0 (Z.max max_y 0) (ms_y (cursor (mouse s)) + dy)) buttons.

Lemma clamp_on_axis max z : on_axis max (clamp 0 (Z.max max 0) z).
Proof. unfold on_axis, clamp. lia. Qed.

Lemma clamp_saturating max x d : max <= i32_max →
  clamp 0 (Z.max max 0) (saturating_add_i32 x d) = clamp 0 (Z.max max 0) (x + d).
Proof. unfold clamp, saturating_add_i32, i32_min, i32_max. lia. Qed.

Lemma screen_max_i32 s : (screen_max s).1 <= i32_max ∧ (screen_max s).2 <= i32_max.
Proof. unfold screen_max, dimension_max, i32_max. destruct (display s) as [[w h]|]; simpl; lia. Qed.

Lemma push_mouse e s : mouse (push e s) = mouse s.
Proof. unfold push. destruct (foreground_process_id _); [|done]. destruct (enqueue _ _) as [[] ?]; done. Qed.

Lemma push_display e s : display (push e s) = display s.
Proof. unfold push. destruct (foreground_process_id _); [|done]. destruct (enqueue _ _) as [[] ?]; done. Qed.

Lemma push_all_mouse l s : mouse (push_all l s) = mouse s.
Proof. unfold push_all. revert s. induction l as [|e l IH]; intros s; [done|]. simpl. by rewrite IH, push_mouse. Qed.

Lemma push_all_display l s : display (push_all l s) = display s.
Proof. unfold push_all. revert s. induction l as [|e l IH]; intros s; [done|]. simpl. by rewrite IH, push_display. Qed.

Lemma push_all_app l k s : push_all (l ++ k) s = push_all k (push_all l s).
Proof. apply foldl_app. Qed.

Lemma push_buttons_all d ids s :
  push_buttons d ids s =
  push_all (omap (λ '(mask, id), if has_flag (dp_changed_buttons d) mask
                  then Some (MouseButton id (has_flag (dp_buttons d) mask)) else None) ids) s.
Proof.
  revert s. induction ids as [|[mask id] ids IH]; intros s; [done|]. simpl. rewrite IH.
  destruct (has_flag _ mask); done.
Qed.

(** Case analysis on a number below 8. *)
Lemma below_8 z : 0 <= z < 8 → z = 0 ∨ z = 1 ∨ z = 2 ∨ z = 3 ∨ z = 4 ∨ z = 5 ∨ z = 6 ∨ z = 7.
Proof. lia. Qed.

Ltac cases_8 H := apply below_8 in H as [->|[->|[->|[->|[->|[->|[->| -> ] ] ] ] ] ] ].

Lemma button_edges_xor old new : 0 <= old < 8 → 0 <= new < 8 →
  omap (λ '(mask, id), if has_flag (Z.lxor old new) mask
        then Some (MouseButton id (has_flag new mask)) else None) button_ids = button_edges old new.
Proof. intros Ho Hn. cases_8 Ho; cases_8 Hn; reflexivity. Qed.

Lemma land_7_range z : 0 <= Z.land z 7 < 8.
Proof. change 7 with (Z.ones 3). rewrite Z.land_ones by lia. apply Z.mod_pos_bound. lia. Qed.

(** A packet moves the cursor and pushes exactly the packet's events. *)
Lemma handle_packet_spec flags x_raw y_raw s :
  mouse_ok s → has_flag flags (Z.lor FLAG_X_OVERFLOW FLAG_Y_OVERFLOW) = false →
  let dx := if has_flag flags FLAG_X_SIGN then x_raw - 256 else x_raw in
  let dy := if has_flag flags FLAG_Y_SIGN then y_raw - 256 else y_raw in
  let new := moved_cursor s dx (- dy) (Z.land flags 7) in
  handle_packet [flags; x_raw; y_raw] s =
  push_all (packet_events (cursor (mouse s)) new) (with_mouse (set_cursor new) s).
Proof.
  intros Hok Hf dx dy new. unfold handle_packet, mouse_ok in *. cbn [nth]. rewrite Hf.
  pose proof (screen_max_i32 s) as [Hx Hy].
  assert (new = let '(max_x, max_y) := screen_max s in
    mk_mouse_state (clamp 0 (Z.max max_x 0) (saturating_add_i32 (ms_x (cursor (mouse s))) dx))
      (clamp 0 (Z.max max_y 0) (saturating_add_i32 (ms_y (cursor (mouse s))) (- dy))) (Z.land flags 7)) as Hnew.
  { unfold new, moved_cursor. destruct (screen_max s) as [mx my]. simpl in *. by rewrite !clamp_saturating. }
  destruct (screen_max s) as [mx my]. unfold decode_packet. rewrite Hf. cbv zeta.
  fold dx dy. cbn [dp_x dp_y dp_buttons dp_moved dp_changed_buttons]. rewrite <- Hnew.
  rewrite push_buttons_all. cbn [dp_buttons dp_changed_buttons].
  rewrite button_edges_xor; [|tauto|apply land_7_range].
  unfold packet_events. rewrite push_all_app.
  replace (Z.land flags 7) with (ms_buttons new) by (by rewrite Hnew).
  f_equal. rewrite Hnew. cbn [ms_x ms_y]. rewrite <- negb_andb. by destruct (_ && _).
Qed.

Lemma mouse_ok_frame s s' :
  display s' = display s → cursor (mouse s') = cursor (mouse s) → decoder (mouse s') = decoder (mouse s) →
  mouse_ok s → mouse_ok s'.
Proof. unfold mouse_ok, screen_max. intros -> -> ->. done. Qed.

Lemma push_all_ok l s : mouse_ok s → mouse_ok (push_all l s).
Proof. apply mouse_ok_frame; [apply push_all_display|by rewrite push_all_mouse..]. Qed.

Lemma handle_packet_ok p s : length p = 3%nat → mouse_ok s → mouse_ok (handle_packet p s).
Proof.
  intros Hl Hok. destruct p as [|flags [|x [|y [|]]]]; try done.
  destruct (has_flag flags (Z.lor FLAG_X_OVERFLOW FLAG_Y_OVERFLOW)) eqn:Hf.
  { unfold handle_packet. cbn [nth]. rewrite Hf. revert Hok. by apply mouse_ok_frame. }
  rewrite handle_packet_spec by done. cbv zeta. apply push_all_ok.
  unfold mouse_ok, moved_cursor in *. change (screen_max (with_mouse _ s)) with (screen_max s).
  destruct (screen_max s) as [mx my]. cbn [cursor mouse with_mouse set_cursor ms_x ms_y ms_buttons decoder].
  split_and!; [apply clamp_on_axis|apply clamp_on_axis|apply land_7_range..|tauto|tauto].
Qed.

Lemma feed_spec b d : length (bytes d) = 3%nat → (index d < 3)%nat →
  let '(p, d') := feed b d in
  length (bytes d') = 3%nat ∧ (index d' < 3)%nat ∧
  match p with Some p => length p = 3%nat ∧ index d' = 0%nat | None => True end.
Proof.
  intros Hl Hi. unfold feed. destruct (_ && _); [done|]. rewrite length_insert, Hl.
  destruct (Nat.eqb_spec (S (index d)) 3); cbn [negb bytes index];
    rewrite ?length_insert; repeat split; lia.
Qed.

Lemma on_byte_ok b s : mouse_ok s → mouse_ok (on_byte b s).
Proof.
  intros Hok. unfold on_byte.
  set (s1 := if _ && _ then with_mouse count_desync (with_mouse count_raw s) else with_mouse count_raw s).
  assert (mouse_ok s1) as Hok1 by (unfold s1; destruct (_ && _); revert Hok; by apply mouse_ok_frame).
  clearbody s1. pose proof Hok1 as Hok2. unfold mouse_ok in Hok2.
  assert (length (bytes (decoder (mouse s1))) = 3%nat ∧ (index (decoder (mouse s1)) < 3)%nat) as [Hl Hi]
    by (destruct (screen_max s1); tauto).
  pose proof (feed_spec b _ Hl Hi) as Hf. destruct (feed b (decoder (mouse s1))) as [[p|] d].
  - destruct Hf as (?&?&?&?). apply handle_packet_ok; [done|]. revert Hok1. unfold mouse_ok.
    change (screen_max (with_mouse count_complete _)) with (screen_max s1).
    destruct (screen_max s1). simpl. naive_solver.
  - destruct Hf as (?&?&_). revert Hok1. unfold mouse_ok.
    change (screen_max (with_mouse _ s1)) with (screen_max s1).
    destruct (screen_max s1). simpl. naive_solver.
Qed.

Lemma io_step_mouse_ok op s : mouse_ok s → mouse_ok (io_step op s).2.
Proof.
  intros Hok. destruct op as [b|b| | |pid|]; simpl.
  - rewrite on_scancode_decode. destruct (decode_scancode b (keyboard s)) as [[e|] k]; [|done].
    unfold route. destruct (foreground_owner _); [done|]. unfold push_key_event.
    destruct (key_code e) as [c|]; [|done]. by apply (push_all_ok [KeyDown c]).
  - by apply on_byte_ok.
  - destruct (poll_key (keyboard s)). done.
  - unfold poll. destruct (dequeue (ticks s) (input s)). done.
  - destruct pid; done.
  - done.
Qed.

Lemma io_run_mouse_ok ops s : mouse_ok s → mouse_ok (io_run ops s).2.
Proof.
  revert s. induction ops as [|op ops IH]; intros s Hok; [done|]. simpl.
  pose proof (io_step_mouse_ok op s Hok) as H. destruct (io_step op s) as [o s1].
  apply (IH s1) in H. by destruct (io_run ops s1) as [os s2].
Qed.

(** The flag byte [inject_screen_packet] builds, read back. *)
Definition inject_flags (dx ps2_dy buttons : Z) : Z :=
  let flags := Z.lor PACKET_SYNC_BIT buttons in
  let flags := if dx <? 0 then Z.lor flags FLAG_X_SIGN else flags in
  if ps2_dy <? 0 then Z.lor flags FLAG_Y_SIGN else flags.

Lemma inject_flags_spec dx dy b : 0 <= b < 8 → let f := inject_flags dx dy b in
  has_flag f PACKET_SYNC_BIT = true ∧ has_flag f (Z.lor FLAG_X_OVERFLOW FLAG_Y_OVERFLOW) = false ∧
  has_flag f FLAG_X_SIGN = (dx <? 0) ∧ has_flag f FLAG_Y_SIGN = (dy <? 0) ∧ Z.land f 7 = b.
Proof.
  intros Hb. unfold inject_flags. destruct (dx <? 0), (dy <? 0); cases_8 Hb; by vm_compute.
Qed.

(** A two's complement byte with its sign bit elsewhere. *)
Lemma byte_signed z : -256 <= z < 256 → (if z <? 0 then z mod 256 - 256 else z mod 256) = z.
Proof. intros H. destruct (Z.ltb_spec z 0); Z.to_euclidean_division_equations; lia. Qed.

(** Three bytes from a packet boundary are one packet. *)
Lemma on_byte_packet f x y s : length (bytes (decoder (mouse s))) = 3%nat →
  index (decoder (mouse s)) = 0%nat → has_flag f PACKET_SYNC_BIT = true →
  on_byte y (on_byte x (on_byte f s)) =
  handle_packet [f; x; y] (with_mouse (λ m, count_complete (set_decoder (mk_decoder [f; x; y] 0)
    (count_raw (count_raw (count_raw m))))) s).
Proof.
  intros Hl Hi Hf. unfold on_byte at 3. cbn [mouse with_mouse count_raw decoder]. rewrite Hi, Hf. cbn [negb andb Nat.eqb].
  cbn [mouse with_mouse count_raw decoder].
  destruct (decoder (mouse s)) as [[|b0 [|b1 [|b2 [|]]]] i] eqn:E; try done. simpl in Hi. subst i.
  unfold feed at 1. cbn [index bytes]. rewrite Hf. cbn. unfold on_byte. cbn. unfold feed. cbn.
  destruct s as [kb inp [cur dec r c ds ov] wk tk dp]. cbn in *. done.
Qed.

Lemma push_all_with_mouse l f s : push_all l (with_mouse f s) = with_mouse f (push_all l s).
Proof.
  unfold push_all. revert s. induction l as [|e l IH]; intros s; [done|]. simpl. rewrite <- IH. f_equal.
  unfold push. simpl. destruct (foreground_process_id _); [|done]. destruct (enqueue _ _) as [[] ?]; done.
Qed.

Lemma push_all_keyboard l s : keyboard (push_all l s) = keyboard s.
Proof. unfold push_all. revert s. induction l as [|e l IH]; intros s; [done|]. simpl. by rewrite IH, push_keyboard. Qed.

(** An injected packet from a packet boundary. *)
Lemma inject_packet_spec s dx dy buttons :
  mouse_ok s → -256 <= dx <= 255 → -255 <= dy <= 255 → 0 <= buttons < 8 → index (decoder (mouse s)) = 0%nat →
  let new := moved_cursor s dx dy buttons in
  ∃ s', inject_screen_packet dx dy buttons s = (Ok tt, s') ∧ mouse_ok s' ∧
    cursor (mouse s') = new ∧ index (decoder (mouse s')) = 0%nat ∧ keyboard s' = keyboard s ∧ display s' = display s ∧
    input s' = input (push_all (packet_events (cursor (mouse s)) new) s).
Proof.
  intros Hok Hdx Hdy Hb Hi new. unfold inject_screen_packet, in_ps2_range.
  replace (Z.land buttons 248 =? 0) with true by (clear -Hb; cases_8 Hb; done).
  repeat (rewrite (proj2 (Z.leb_le _ _)) by lia). cbn [negb andb orb]. eexists. split; [reflexivity|].
  split; [by do 3 apply on_byte_ok|].
  change (if - dy <? 0 then _ else _) with (inject_flags dx (- dy) buttons).
  destruct (inject_flags_spec dx (- dy) buttons Hb) as (Hsync&Hov&Hsx&Hsy&Hbt).
  set (f := inject_flags dx (- dy) buttons) in *. clearbody f.
  assert (length (bytes (decoder (mouse s))) = 3%nat) as Hl
    by (unfold mouse_ok in Hok; destruct (screen_max s); tauto).
  rewrite on_byte_packet by done.
  set (s1 := with_mouse _ s).
  assert (mouse_ok s1) as Hok1.
  { revert Hok. unfold mouse_ok, s1. change (screen_max (with_mouse _ s)) with (screen_max s).
    destruct (screen_max s). simpl. intuition lia. }
  rewrite handle_packet_spec by done. cbv zeta. rewrite Hsx, Hsy, Hbt, !byte_signed, Z.opp_involutive by lia.
  change (moved_cursor s1 dx dy buttons) with new. change (cursor (mouse s1)) with (cursor (mouse s)).
  unfold s1. rewrite !push_all_with_mouse. cbn [mouse with_mouse set_cursor cursor decoder count_complete
    set_decoder count_raw index keyboard input display]. rewrite push_all_keyboard, push_all_display. done.
Qed.

(** Through any sequence of interrupts, polls and hand-overs the cursor
    stays on the screen, and whenever the decoder is between packets an
    injected movement goes through the packet format unchanged: the cursor
    moves by it (clamped to the screen), the buttons become the given ones,
    and the events pushed are exactly the move and the button edges. *)
Theorem injected_packet_moves_cursor ops s0 outs s dx dy buttons :
  mouse_ok s0 → io_run ops s0 = (outs, s) →
  -256 <= dx <= 255 → -255 <= dy <= 255 → 0 <= buttons < 8 →
  mouse_ok s ∧
  (index (decoder (mouse s)) = 0%nat →
   let new := moved_cursor s dx dy buttons in
   ∃ s', inject_screen_packet dx dy buttons s = (Ok tt, s') ∧
     cursor (mouse s') = new ∧ index (decoder (mouse s')) = 0%nat ∧ keyboard s' = keyboard s ∧
     input s' = input (push_all (packet_events (cursor (mouse s)) new) s)).
Proof.
  intros Hok0 Hrun Hdx Hdy Hb. assert (mouse_ok s) as Hok.
  { apply (io_run_mouse_ok ops) in Hok0. by rewrite Hrun in Hok0. }
  split; [done|]. intros Hi new.
  destruct (inject_packet_spec s dx dy buttons Hok Hdx Hdy Hb Hi) as (s'&E&_&Hc&Hi'&Hk&_&Hin). by exists s'.
Qed.

(** ** Witnesses *)

Definition boot_keyboard : Keyboard := mk_keyboard false false false 0 [].
Definition boot_mouse : Mouse := mk_mouse (mk_mouse_state 0 0 0) new_decoder 0 0 0 0.

(** A booted system with a 640 x 480 display. *)
Definition boot_io : io :=
  mk_io boot_keyboard (mk_input [] 0 0 0 0 0 0) boot_mouse
    {| foreground_wake_id := 0; ticks_since_switch := 0 |} 0 (Some (640, 480)).

Lemma injected_packet_moves_cursor_witness :
  let '(outs, s) := io_run [Handoff (Some 7); MouseByte 0x09; MouseByte 5; MouseByte 0] boot_io in
  cursor (mouse s) = mk_mouse_state 5 0 1 ∧
  mouse_ok s ∧
  ∃ s', inject_screen_packet (-3) 40 0 s = (Ok tt, s') ∧
    cursor (mouse s') = mk_mouse_state 2 40 0 ∧ index (decoder (mouse s')) = 0%nat ∧
    keyboard s' = keyboard s ∧
    input s' = input (push_all (packet_events (cursor (mouse s)) (moved_cursor s (-3) 40 0)) s).
Proof.
  destruct (injected_packet_moves_cursor
    [Handoff (Some 7); MouseByte 0x09; MouseByte 5; MouseByte 0] boot_io _ _ (-3) 40 0
    ltac:(vm_compute; repeat split; discriminate || lia) eq_refl ltac:(lia) ltac:(lia) ltac:(lia))
    as [Hok H].
  split; [reflexivity|]. split; [exact Hok|]. exact (H eq_refl).
Defined.

Lemma handoff_isolates_owners_witness :
  let s0 := set_foreground_process_id None boot_io in
  let ops := [Scancode 0x2A; Scancode 0x1E; Scancode 0xAA; MouseByte 8; PollKey; Scancode 0x1C; PollInput] in
  ∃ outs s', io_run ops s0 = (outs, s') ∧
    shell_keys outs = [Char 65] ∧ shell_queue (keyboard s') = [Enter] ∧
    match foreground_owner (keyboard s0) with
    | Shell =>
        events_out outs = [] ∧ queue (input s') = [] ∧
        shell_keys outs ++ shell_queue (keyboard s') `sublist_of` typed ops (keyboard s0) ∧
        ((length (typed ops (keyboard s0)) ≤ KEYBOARD_QUEUE_CAPACITY)%nat →
         shell_keys outs ++ shell_queue (keyboard s') = typed ops (keyboard s0))
    | Desktop => False
    end.
Proof.
  intros s0 ops. eexists _, _. split; [vm_compute; reflexivity|]. split; [reflexivity|]. split; [reflexivity|].
  apply (handoff_isolates_owners None ops boot_io); vm_compute; reflexivity.
Defined.

Lemma input_queue_collapses_bursts_witness :
  let ops := [QPush (MouseMove 1 1); QPush (MouseMove 2 2); QPush (KeyDown 97); QPoll;
              QPush (MouseMove 3 3); QPush (MouseButton 0 true)] in
  ∃ out s', queue_run ops (set_foreground_process_id (Some 4) boot_io) = (out, s') ∧
    out = [MouseMove 2 2] ∧
    (length (queue (input s')) ≤ INPUT_QUEUE_CAPACITY)%nat ∧ collapsed (queued_events s') ∧
    ∃ kept, kept `sublist_of` pushed ops ∧ collapse (out ++ queued_events s') = collapse kept ∧
      dropped_events (input s') mod 2 ^ 64 = (zlen (pushed ops) - zlen kept) mod 2 ^ 64.
Proof.
  intros ops. eexists _, _. split; [vm_compute; reflexivity|]. split; [reflexivity|].
  apply (input_queue_collapses_bursts ops 4 boot_io); [lia|vm_compute; reflexivity].
Defined.
