(* ===== verification/Window.v ===== *)
(** The desktop's window manager: userland/hello/src/bin/desktop/window.rs.

    [WindowManager] keeps four window slots, the number of slots ever used,
    the back-to-front order of the used slots, and the drag in progress.
    Coordinates are mathematical integers: the code's [i32] sums do not wrap
    for windows within the [i32] range minus one window size, which
    [no_overflow] states and the statements that need it assume. Indexing a
    slice out of range panics; [None] of the partial accessors stands for it
    and the invariant shows it does not happen. *)

From S2P Require Import Prelude.

Definition MAX_WINDOWS : nat := 4.
Definition TITLE_BAR_HEIGHT : Z := 22.
Definition CLOSE_BOX_WIDTH : Z := 20.
Definition TITLE_MAX : nat := 20.

Record Window := mk_window {
  wx : Z;
  wy : Z;
  ww : Z;
  wh : Z;
  title : list byte;
  title_len : nat;
  visible : bool
}.

Inductive PressAction :=
| PNone
| Raised (window_index : nat)
| DragStarted (window_index : nat)
| Closed (window_index : nat).

#[global] Instance PressAction_eq_decision : EqDecision PressAction.
Proof. solve_decision. Defined.

Record DragState := mk_drag {
  drag_window : nat;
  offset_x : Z;
  offset_y : Z;
  start_x : Z;
  start_y : Z
}.

Record DragResult := mk_drag_result {
  result_window : nat;
  from_x : Z;
  from_y : Z;
  to_x : Z;
  to_y : Z
}.

Definition empty_window : Window := mk_window 0 0 0 0 (replicate TITLE_MAX (z2b 0)) 0 false.

#[global] Instance window_inhabited : Inhabited Window := populate empty_window.

Definition title_bytes (w : Window) : list byte := take (title_len w) (title w).

Definition contains (w : Window) (x y : Z) : bool :=
  (wx w <=? x) && (x <? wx w + ww w) && (wy w <=? y) && (y <? wy w + wh w).

Definition in_close_box (w : Window) (x y : Z) : bool :=
  (wy w <=? y) && (y <? wy w + TITLE_BAR_HEIGHT)
  && (wx w + ww w - CLOSE_BOX_WIDTH <=? x) && (x <? wx w + ww w).

Definition in_title_bar (w : Window) (x y : Z) : bool :=
  (wy w <=? y) && (y <? wy w + TITLE_BAR_HEIGHT) && (wx w <=? x) && (x <? wx w + ww w).

Definition set_visible (b : bool) (w : Window) : Window :=
  mk_window (wx w) (wy w) (ww w) (wh w) (title w) (title_len w) b.
Definition move_to (x y : Z) (w : Window) : Window :=
  mk_window x y (ww w) (wh w) (title w) (title_len w) (visible w).

Record WindowManager := mk_wm {
  windows : list Window;
  count : nat;
  order : list nat;
  dragging : option DragState
}.

Definition new_wm : WindowManager :=
  mk_wm (replicate MAX_WINDOWS empty_window) 0 (replicate MAX_WINDOWS 0%nat) None.

(** [&self.order[..self.count]] *)
Definition draw_order (wm : WindowManager) : list nat := take (count wm) (order wm).

Definition window (wm : WindowManager) (idx : nat) : Window := windows wm !!! idx.

(** The loop [for k in pos..count - 1 { order[k] = order[k + 1] }]. *)
Fixpoint shift_left (pos n : nat) (order : list nat) : list nat :=
  match n with
  | 0%nat => order
  | S n => shift_left (S pos) n (<[pos := order !!! S pos]> order)
  end.

Definition bring_to_front (idx : nat) (wm : WindowManager) : WindowManager :=
  match position (Nat.eqb idx) (draw_order wm) with
  | Some pos =>
      mk_wm (windows wm) (count wm)
        (<[(count wm - 1)%nat := idx]> (shift_left pos (count wm - 1 - pos) (order wm))) (dragging wm)
  | None => wm
  end.

Definition spawn (x y w h : Z) (title : list byte) (wm : WindowManager) : option nat * WindowManager :=
  let recycled := position (λ window, negb (visible window)) (take (count wm) (windows wm)) in
  let slot := match recycled with
              | Some idx => Some idx
              | None => if (count wm <? MAX_WINDOWS)%nat then Some (count wm) else None
              end in
  match slot with
  | None => (None, wm)
  | Some idx =>
      let len := (length title `min` TITLE_MAX)%nat in
      let window := mk_window x y w h (copy_at 0 (take len title) (replicate TITLE_MAX (z2b 0))) len true in
      let wm := mk_wm (<[idx := window]> (windows wm)) (count wm) (order wm) (dragging wm) in
      (Some idx,
       match recycled with
       | Some _ => bring_to_front idx wm
       | None => mk_wm (windows wm) (S (count wm)) (<[idx := idx]> (order wm)) (dragging wm)
       end)
  end.

(** The loop of [hit_test] over the reversed draw order. *)
Fixpoint first_hit (ws : list Window) (x y : Z) (indices : list nat) : option nat :=
  match indices with
  | [] => None
  | idx :: rest =>
      let window := ws !!! idx in
      if visible window && contains window x y then Some idx else first_hit ws x y rest
  end.

Definition hit_test (x y : Z) (wm : WindowManager) : option nat :=
  first_hit (windows wm) x y (reverse (draw_order wm)).

Definition close (idx : nat) (wm : WindowManager) : WindowManager :=
  mk_wm (alter (set_visible false) idx (windows wm)) (count wm) (order wm)
    (if bool_decide (drag_window <$> dragging wm = Some idx) then None else dragging wm).

Definition handle_press (x y : Z) (wm : WindowManager) : PressAction * WindowManager :=
  match hit_test x y wm with
  | None => (PNone, wm)
  | Some idx =>
      let wm := bring_to_front idx wm in
      let w := windows wm !!! idx in
      if in_close_box w x y then (Closed idx, close idx wm)
      else if in_title_bar w x y then
        (DragStarted idx,
         mk_wm (windows wm) (count wm) (order wm)
           (Some (mk_drag idx (x - wx w) (y - wy w) (wx w) (wy w))))
      else (Raised idx, wm)
  end.

Definition handle_drag (x y : Z) (wm : WindowManager) : WindowManager :=
  match dragging wm with
  | Some drag =>
      mk_wm (alter (move_to (x - offset_x drag) (y - offset_y drag)) (drag_window drag) (windows wm))
        (count wm) (order wm) (dragging wm)
  | None => wm
  end.

Definition handle_release (wm : WindowManager) : option DragResult * WindowManager :=
  match dragging wm with
  | None => (None, wm)
  | Some drag =>
      let w := windows wm !!! drag_window drag in
      (Some (mk_drag_result (drag_window drag) (start_x drag) (start_y drag) (wx w) (wy w)),
       mk_wm (windows wm) (count wm) (order wm) None)
  end.

(** [window::self_test], in the state-and-error monad over the manager. *)
Definition wm_do {A} (f : WindowManager → A * WindowManager) : M WindowManager A :=
  λ wm, let '(a, wm) := f wm in (Ok a, wm).
Definition wm_upd (f : WindowManager → WindowManager) : M WindowManager unit := mmodify f.

Definition window_self_test : M WindowManager unit :=
  back ← wm_do (spawn 0 0 100 80 (bs "back"));
  back ← mlift (ok_or back "initial spawn failed");
  front ← wm_do (spawn 10 10 100 80 (bs "front"));
  front ← mlift (ok_or front "overlapping spawn failed");
  wm ← mget;
  _ ← mensure (bool_decide (hit_test 20 30 wm = Some front)) "initial z-order is not front-to-back";
  action ← wm_do (handle_press 5 5);
  _ ← mensure (bool_decide (action = DragStarted back)) "title-bar press missed visible window";
  _ ← wm_do handle_release;
  wm ← mget;
  _ ← mensure (bool_decide (hit_test 20 30 wm = Some back)) "clicked window was not raised";
  _ ← wm_do (handle_press 20 10);
  _ ← wm_upd (handle_drag 50 45);
  drag ← wm_do handle_release;
  drag ← mlift (ok_or drag "drag release was not recorded");
  wm ← mget;
  let dragged := window wm back in
  _ ← mensure (negb (negb (wx dragged =? 30) || negb (wy dragged =? 35) || negb (from_x drag =? 0)
                     || negb (from_y drag =? 0) || negb (to_x drag =? 30) || negb (to_y drag =? 35)))
        "title-bar drag produced incorrect bounds";
  _ ← wm_upd (handle_drag 70 70);
  wm ← mget;
  _ ← mensure (negb (negb (wx (window wm back) =? 30) || negb (wy (window wm back) =? 35)))
        "window continued moving after button release";
  let close_x := wx (window wm back) + ww (window wm back) - 1 in
  let close_y := wy (window wm back) + 1 in
  action ← wm_do (handle_press close_x close_y);
  _ ← mensure (bool_decide (action = Closed back)) "close-box did not report close action";
  wm ← mget;
  _ ← mensure (negb (visible (window wm back))) "close-box did not hide window";
  recycled ← wm_do (spawn 40 40 80 60 (bs "reused"));
  recycled ← mlift (ok_or recycled "closed slot was not reusable");
  wm ← mget;
  mensure (negb (negb (recycled =? back)%nat || negb (bool_decide (hit_test 45 45 wm = Some recycled))))
    "recycled window was not restored at front".

Lemma window_self_test_passes : (window_self_test new_wm).1 = Ok tt.
Proof. vm_compute. reflexivity. Qed.

(** ** Specification: a stack of visible windows, front first *)

Record desk := mk_desk { stack : list (nat * Window); held : option DragState }.

Definition make_window (x y w h : Z) (t : list byte) : Window :=
  let shown := take TITLE_MAX t in
  mk_window x y w h (shown ++ replicate (TITLE_MAX - length shown) (z2b 0)) (length shown) true.

Definition on_desk (i : nat) (d : desk) : bool := existsb (λ p, p.1 =? i)%nat (stack d).
Definition without (i : nat) (st : list (nat * Window)) : list (nat * Window) :=
  List.filter (λ p, negb (p.1 =? i)%nat) st.

(** The lowest slot no visible window has. *)
Definition free_slot (d : desk) : option nat :=
  List.find (λ i, negb (on_desk i d)) (seq 0 MAX_WINDOWS).

Inductive wm_op :=
| OpSpawn (x y w h : Z) (t : list byte)
| OpPress (x y : Z)
| OpDrag (x y : Z)
| OpRelease
| OpClose (i : nat).

Inductive wm_out :=
| OutSpawn (slot : option nat)
| OutPress (a : PressAction)
| OutRelease (r : option DragResult)
| OutNone.

Definition wm_step (op : wm_op) (wm : WindowManager) : wm_out * WindowManager :=
  match op with
  | OpSpawn x y w h t => let '(o, wm) := spawn x y w h t wm in (OutSpawn o, wm)
  | OpPress x y => let '(a, wm) := handle_press x y wm in (OutPress a, wm)
  | OpDrag x y => (OutNone, handle_drag x y wm)
  | OpRelease => let '(r, wm) := handle_release wm in (OutRelease r, wm)
  | OpClose i => (OutNone, close i wm)
  end.

Definition release_if (i : nat) (h : option DragState) : option DragState :=
  match h with Some d => if (drag_window d =? i)%nat then None else Some d | None => None end.

Definition desk_step (op : wm_op) (d : desk) : wm_out * desk :=
  match op with
  | OpSpawn x y w h t =>
      match free_slot d with
      | Some i => (OutSpawn (Some i), mk_desk ((i, make_window x y w h t) :: stack d) (held d))
      | None => (OutSpawn None, d)
      end
  | OpPress x y =>
      match List.find (λ p, contains p.2 x y) (stack d) with
      | None => (OutPress PNone, d)
      | Some (i, w) =>
          if in_close_box w x y then
            (OutPress (Closed i), mk_desk (without i (stack d)) (release_if i (held d)))
          else
            let raised := (i, w) :: without i (stack d) in
            if in_title_bar w x y then
              (OutPress (DragStarted i), mk_desk raised (Some (mk_drag i (x - wx w) (y - wy w) (wx w) (wy w))))
            else (OutPress (Raised i), mk_desk raised (held d))
      end
  | OpDrag x y =>
      match held d with
      | None => (OutNone, d)
      | Some h =>
          (OutNone,
           mk_desk ((λ p, if (p.1 =? drag_window h)%nat
                          then (p.1, move_to (x - offset_x h) (y - offset_y h) p.2) else p) <$> stack d)
             (held d))
      end
  | OpRelease =>
      match held d with
      | None => (OutRelease None, d)
      | Some h =>
          (OutRelease
             ((λ p, mk_drag_result (drag_window h) (start_x h) (start_y h) (wx p.2) (wy p.2)) <$>
                List.find (λ p, p.1 =? drag_window h)%nat (stack d)),
           mk_desk (stack d) None)
      end
  | OpClose i => (OutNone, mk_desk (without i (stack d)) (release_if i (held d)))
  end.

Section run.
Context {ST : Type} (step : wm_op → ST → wm_out * ST).
Fixpoint wm_run (ops : list wm_op) (s : ST) : list wm_out * ST :=
  match ops with
  | [] => ([], s)
  | op :: rest => let '(o, s) := step op s in let '(os, s) := wm_run rest s in (o :: os, s)
  end.
End run.

Definition shown (ws : list Window) (i : nat) : option (nat * Window) :=
  if visible (ws !!! i) then Some (i, ws !!! i) else None.

Definition desk_of (wm : WindowManager) : desk :=
  mk_desk (omap (shown (windows wm)) (reverse (draw_order wm))) (dragging wm).

(** ** Invariant *)

(** Coordinates far from the limits of [i32]: none of the code's sums and
    differences wraps. *)
Definition coordinate (z : Z) : Prop := - 2 ^ 17 <= z <= 2 ^ 17.
Definition extent (z : Z) : Prop := 0 <= z <= 2 ^ 16.
Definition no_overflow (w : Window) : Prop :=
  coordinate (wx w) ∧ coordinate (wy w) ∧ extent (ww w) ∧ extent (wh w).
Definition drag_ok (d : DragState) : Prop :=
  extent (offset_x d) ∧ extent (offset_y d) ∧ coordinate (start_x d) ∧ coordinate (start_y d).

(** What the desktop passes: windows of screen size, pointer positions of
    [i16] events. *)
Definition op_ok (op : wm_op) : Prop :=
  match op with
  | OpSpawn x y w h _ => is_i16 x ∧ is_i16 y ∧ extent w ∧ extent h
  | OpPress x y | OpDrag x y => is_i16 x ∧ is_i16 y
  | OpRelease => True
  | OpClose i => (i < MAX_WINDOWS)%nat
  end.

Record wm_ok (wm : WindowManager) : Prop := {
  ok_windows : length (windows wm) = MAX_WINDOWS;
  ok_order : length (order wm) = MAX_WINDOWS;
  ok_count : (count wm ≤ MAX_WINDOWS)%nat;
  ok_perm : draw_order wm ≡ₚ seq 0 (count wm);
  ok_bounds : Forall no_overflow (windows wm);
  ok_drag : ∀ d, dragging wm = Some d →
    (drag_window d < count wm)%nat ∧ visible (windows wm !!! drag_window d) = true ∧ drag_ok d
}.

(** ** Lemmas *)

Lemma elem_of_draw_order wm i : wm_ok wm → i ∈ draw_order wm ↔ (i < count wm)%nat.
Proof. intros H. rewrite (ok_perm _ H), elem_of_seq. lia. Qed.

Lemma NoDup_draw_order wm : wm_ok wm → NoDup (draw_order wm).
Proof. intros H. rewrite (ok_perm _ H). apply NoDup_seq. Qed.

(** [shift_left] followed by the store at the back moves one entry of the
    used prefix to its end. *)
Lemma shift_left_spec pos n l : (pos + n < length l)%nat →
  shift_left pos n l = take pos l ++ take n (drop (S pos) l) ++ drop (pos + n) l.
Proof.
  revert pos l. induction n as [|n IH]; intros pos l Hl; simpl.
  - rewrite Nat.add_0_r. by rewrite take_drop.
  - rewrite IH by (rewrite length_insert; lia).
    destruct (lookup_lt_is_Some_2 l (S pos)) as [z Hz]; [lia|].
    rewrite (list_lookup_total_correct _ _ _ Hz).
    rewrite (take_S_r _ _ z) by (apply list_lookup_insert_eq; lia).
    rewrite take_insert_ge, !drop_insert_lt by lia.
    rewrite (drop_S l z (S pos)) by done. simpl. rewrite <- app_assoc. simpl.
    replace (S (pos + n)) with (pos + S n)%nat by lia. done.
Qed.

Definition others (idx : nat) (l : list nat) : list nat := List.filter (λ i, negb (i =? idx)%nat) l.

Lemma others_notin idx l : idx ∉ l → others idx l = l.
Proof.
  induction l as [|i l IH]; intros H; [done|]. simpl.
  apply not_elem_of_cons in H as [Hi H]. rewrite (proj2 (Nat.eqb_neq i idx)) by congruence.
  simpl. by rewrite (IH H).
Qed.

Lemma shift_front l1 x l2 rest :
  <[(length l1 + length l2)%nat := x]> (shift_left (length l1) (length l2) (l1 ++ x :: l2 ++ rest))
  = l1 ++ l2 ++ x :: rest.
Proof.
  rewrite shift_left_spec by (rewrite !length_app; simpl; rewrite length_app; lia).
  assert (drop (S (length l1)) (l1 ++ x :: l2 ++ rest) = l2 ++ rest) as ->.
  { rewrite <- (Nat.add_1_r (length l1)), drop_app_add. done. }
  rewrite !take_app_length, drop_app_add, insert_app_r. f_equal.
  rewrite <- (Nat.add_0_r (length l2)) at 1. rewrite insert_app_r. f_equal.
  destruct (drop (length l2) (x :: l2 ++ rest)) as [|y ys] eqn:E.
  { apply (f_equal length) in E. rewrite length_drop in E. simpl in E. rewrite length_app in E. lia. }
  simpl. f_equal. apply (f_equal (drop 1)) in E. rewrite drop_drop, Nat.add_comm in E.
  simpl in E. by rewrite drop_app_length in E.
Qed.

Lemma draw_order_bring idx wm : wm_ok wm → (idx < count wm)%nat →
  draw_order (bring_to_front idx wm) = others idx (draw_order wm) ++ [idx] ∧
  length (order (bring_to_front idx wm)) = length (order wm).
Proof.
  intros Hok Hidx. pose proof (NoDup_draw_order _ Hok) as Hnd. unfold bring_to_front.
  destruct (position _ (draw_order wm)) as [pos|] eqn:Hp.
  2:{ rewrite position_None in Hp. specialize (Hp idx).
      rewrite elem_of_draw_order, Nat.eqb_refl in Hp by done. by specialize (Hp Hidx). }
  apply position_Some in Hp as (x&Hx&He&_). apply Nat.eqb_eq in He as <-.
  pose proof (take_drop_middle _ _ _ Hx) as Hl. set (l1 := take pos _) in Hl. set (l2 := drop (S pos) _) in Hl.
  pose proof (ok_order _ Hok) as Ho. pose proof (ok_count _ Hok) as Hc.
  assert (length (draw_order wm) = count wm) as Hlen by (unfold draw_order; rewrite length_take; lia).
  assert (pos = length l1) as Hpos.
  { unfold l1. rewrite length_take. apply lookup_lt_Some in Hx. lia. }
  clearbody l1 l2. subst pos. rewrite <- Hl, length_app in Hlen. simpl in Hlen.
  assert (order wm = l1 ++ idx :: l2 ++ drop (count wm) (order wm)) as Hord.
  { rewrite <- (take_drop (count wm) (order wm)) at 1. change (take _ _) with (draw_order wm).
    by rewrite <- Hl, <- app_assoc. }
  set (rest := drop (count wm) (order wm)) in *. clearbody rest.
  unfold draw_order. cbn [order count]. fold (draw_order wm). rewrite Hord, <- Hl.
  replace (count wm - 1)%nat with (length l1 + length l2)%nat by lia.
  replace (length l1 + length l2 - length l1)%nat with (length l2) by lia.
  rewrite shift_front. split; [|rewrite !length_app; simpl; rewrite !length_app; simpl; lia].
  rewrite <- Hl in Hnd. apply NoDup_app in Hnd as (H1&H12&H2). apply NoDup_cons in H2 as [H2 _].
  unfold others. rewrite List.filter_app. simpl. rewrite Nat.eqb_refl. simpl.
  fold (others idx l1) (others idx l2). rewrite !others_notin by set_solver.
  rewrite !app_assoc. change (idx :: rest) with ([idx] ++ rest). rewrite app_assoc.
  apply take_app_length'. rewrite !length_app. simpl. lia.
Qed.

(** ** The desk of a window manager *)

Lemma stack_raise ws idx l : visible (ws !!! idx) = true →
  omap (shown ws) (reverse (others idx l ++ [idx]))
  = (idx, ws !!! idx) :: without idx (omap (shown ws) (reverse l)).
Proof.
  intros Hv. rewrite reverse_app. simpl. unfold shown at 1. rewrite Hv. f_equal.
  assert (reverse (others idx l) = others idx (reverse l)) as ->.
  { induction l as [|i l IH]; [done|]. rewrite reverse_cons. unfold others in *.
    rewrite List.filter_app. simpl. destruct (i =? idx)%nat; simpl.
    - by rewrite IH, app_nil_r.
    - by rewrite reverse_cons, IH. }
  induction (reverse l) as [|i k IH]; [done|]. simpl. unfold shown at 2.
  destruct (Nat.eqb_spec i idx) as [->|Hi]; simpl.
  - rewrite Hv. simpl. by rewrite Nat.eqb_refl.
  - unfold shown at 1. destruct (visible (ws !!! i)); simpl; [|done].
    rewrite (proj2 (Nat.eqb_neq i idx)) by done. simpl. by f_equal.
Qed.

Lemma shown_fst ws i p : shown ws i = Some p → p = (i, ws !!! i) ∧ visible (ws !!! i) = true.
Proof. unfold shown. destruct (visible _); naive_solver. Qed.

Lemma stack_cons ws i l : omap (shown ws) (i :: l) = option_list (shown ws i) ++ omap (shown ws) l.
Proof. unfold shown. simpl. by destruct (visible _). Qed.

Lemma without_app i k l : without i (k ++ l) = without i k ++ without i l.
Proof. apply List.filter_app. Qed.

Lemma without_shown ws i idx : without idx (option_list (shown ws i)) = if (i =? idx)%nat then [] else option_list (shown ws i).
Proof. unfold shown. destruct (visible _); simpl; [|by destruct (i =? idx)%nat]. by destruct (i =? idx)%nat. Qed.

Lemma stack_hide ws idx (l : list nat) : (idx < length ws)%nat →
  omap (shown (alter (set_visible false) idx ws)) l = without idx (omap (shown ws) l).
Proof.
  intros Hidx. induction l as [|i l IH]; [done|]. rewrite !stack_cons, without_app, without_shown, IH. f_equal.
  unfold shown. destruct (Nat.eqb_spec i idx) as [->|Hi].
  - by rewrite list_lookup_total_alter_eq.
  - by rewrite list_lookup_total_alter_ne by congruence.
Qed.

Lemma stack_move ws idx (l : list nat) x y : (idx < length ws)%nat →
  omap (shown (alter (move_to x y) idx ws)) l =
  (λ p, if (p.1 =? idx)%nat then (p.1, move_to x y p.2) else p) <$> omap (shown ws) l.
Proof.
  intros Hidx. induction l as [|i l IH]; [done|]. rewrite !stack_cons, fmap_app, IH. f_equal.
  unfold shown. destruct (decide (i = idx)) as [->|Hi].
  - rewrite list_lookup_total_alter_eq by done. simpl.
    destruct (visible (ws !!! idx)); [|done]. simpl. by rewrite Nat.eqb_refl.
  - rewrite list_lookup_total_alter_ne by congruence.
    destruct (visible (ws !!! i)); [|done]. simpl. by rewrite (proj2 (Nat.eqb_neq i idx)) by done.
Qed.

Lemma stack_store ws idx w (l : list nat) : idx ∉ l → omap (shown (<[idx := w]> ws)) l = omap (shown ws) l.
Proof.
  induction l as [|i l IH]; intros Hi; [done|]. apply not_elem_of_cons in Hi as [Hi Hl].
  rewrite !stack_cons, (IH Hl). f_equal. unfold shown. by rewrite list_lookup_total_insert_ne by done.
Qed.

(** Overwriting a hidden window adds at most that window. *)
Lemma stack_recycle ws idx w (l : list nat) : visible (ws !!! idx) = false →
  without idx (omap (shown (<[idx := w]> ws)) l) = omap (shown ws) l.
Proof.
  intros Hv. induction l as [|i l IH]; [done|]. rewrite !stack_cons, without_app, without_shown, IH. f_equal.
  destruct (Nat.eqb_spec i idx) as [->|Hi]; unfold shown.
  - by rewrite Hv.
  - by rewrite list_lookup_total_insert_ne by congruence.
Qed.

Lemma first_hit_spec ws x y l :
  first_hit ws x y l = fst <$> List.find (λ p, contains p.2 x y) (omap (shown ws) l).
Proof.
  induction l as [|i l IH]; [done|]. rewrite stack_cons. unfold shown at 1. cbn [first_hit].
  destruct (visible (ws !!! i)) eqn:Hv; simpl; [|done]. by destruct (contains _ x y).
Qed.

Lemma on_desk_spec wm i : wm_ok wm →
  on_desk i (desk_of wm) = true ↔ (i < count wm)%nat ∧ visible (windows wm !!! i) = true.
Proof.
  intros Hok. unfold on_desk. rewrite existsb_exists. simpl. split.
  - intros (p&Hp&He). apply Nat.eqb_eq in He. apply list_elem_of_In, list_elem_of_omap in Hp as (j&Hj&Hs).
    apply shown_fst in Hs as [-> Hv]. simpl in He. subst j. split; [|done].
    by rewrite elem_of_reverse, elem_of_draw_order in Hj.
  - intros [Hi Hv]. exists (i, windows wm !!! i). simpl. rewrite Nat.eqb_refl. split; [|done].
    apply list_elem_of_In, list_elem_of_omap. exists i.
    rewrite elem_of_reverse, elem_of_draw_order by done. unfold shown. by rewrite Hv.
Qed.

Lemma find_stack wm p y : wm_ok wm → List.find y (stack (desk_of wm)) = Some p →
  p = (p.1, windows wm !!! p.1) ∧ visible (windows wm !!! p.1) = true ∧ (p.1 < count wm)%nat ∧ y p = true.
Proof.
  intros Hok Hf. apply List.find_some in Hf as [Hin Hy].
  apply list_elem_of_In, list_elem_of_omap in Hin as (j&Hj&Hs). apply shown_fst in Hs as [-> Hv]. simpl.
  by rewrite elem_of_reverse, elem_of_draw_order in Hj.
Qed.

(** ** Simulation *)

Lemma bring_to_front_frame idx wm :
  windows (bring_to_front idx wm) = windows wm ∧ count (bring_to_front idx wm) = count wm ∧
  dragging (bring_to_front idx wm) = dragging wm.
Proof. unfold bring_to_front. by destruct (position _ _). Qed.

Lemma others_perm idx l : NoDup l → idx ∈ l → others idx l ++ [idx] ≡ₚ l.
Proof.
  induction l as [|i l IH]; intros Hnd Hi; [set_solver|]. apply NoDup_cons in Hnd as [Hn Hnd].
  simpl. destruct (Nat.eqb_spec i idx) as [->|Hne]; simpl.
  - fold (others idx l). rewrite others_notin by done. by rewrite Permutation_app_comm.
  - constructor. apply IH; [done|]. set_solver.
Qed.

Lemma bring_to_front_ok idx wm : wm_ok wm → (idx < count wm)%nat → wm_ok (bring_to_front idx wm).
Proof.
  intros Hok Hi. destruct (bring_to_front_frame idx wm) as (Hw&Hc&Hd).
  destruct (draw_order_bring idx wm Hok Hi) as [Ho Hl]. pose proof Hok as [H1 H2 H3 H4 H5 H6].
  constructor; rewrite ?Hw, ?Hc, ?Hd; try done.
  - congruence.
  - rewrite Ho, <- H4. apply others_perm; [by apply NoDup_draw_order|]. by apply elem_of_draw_order.
Qed.

Lemma desk_of_bring idx wm : wm_ok wm → (idx < count wm)%nat → visible (windows wm !!! idx) = true →
  desk_of (bring_to_front idx wm) =
  mk_desk ((idx, windows wm !!! idx) :: without idx (stack (desk_of wm))) (dragging wm).
Proof.
  intros Hok Hi Hv. destruct (bring_to_front_frame idx wm) as (Hw&Hc&Hd).
  destruct (draw_order_bring idx wm Hok Hi) as [Ho _]. unfold desk_of. rewrite Hw, Hd, Ho.
  by rewrite stack_raise.
Qed.

Lemma Forall_alter_window f i ws : (∀ w, no_overflow w → no_overflow (f w)) →
  Forall no_overflow ws → Forall no_overflow (alter f i ws).
Proof. intros Hf H. apply Forall_alter; [done|]. eauto. Qed.

Lemma close_sim idx wm : wm_ok wm → (idx < MAX_WINDOWS)%nat →
  wm_ok (close idx wm) ∧
  desk_of (close idx wm) = mk_desk (without idx (stack (desk_of wm))) (release_if idx (dragging wm)).
Proof.
  intros Hok Hi. assert (dragging (close idx wm) = release_if idx (dragging wm)) as Hd.
  { simpl. unfold release_if. destruct (dragging wm) as [d|]; [|done]. simpl.
    destruct (Nat.eqb_spec (drag_window d) idx); case_bool_decide; congruence. }
  split.
  - destruct Hok as [H1 H2 H3 H4 H5 H6]. constructor; [simpl; by rewrite length_alter|exact H2|exact H3|exact H4| |].
    + by apply Forall_alter_window.
    + intros d. rewrite Hd. unfold release_if. destruct (dragging wm) as [d'|]; [|done].
      destruct (Nat.eqb_spec (drag_window d') idx); [done|]. intros [= <-]. simpl.
      rewrite list_lookup_total_alter_ne by congruence. by apply H6.
  - unfold desk_of. rewrite Hd. simpl. f_equal. apply stack_hide. by rewrite (ok_windows _ Hok).
Qed.

Lemma window_bounds wm i : wm_ok wm → (i < MAX_WINDOWS)%nat → no_overflow (windows wm !!! i).
Proof.
  intros Hok Hi. pose proof (ok_bounds _ Hok) as Hb. rewrite Forall_lookup in Hb. apply (Hb i).
  apply list_lookup_lookup_total_lt. by rewrite (ok_windows _ Hok).
Qed.

Lemma press_sim x y wm : wm_ok wm → op_ok (OpPress x y) →
  let '(o, wm') := wm_step (OpPress x y) wm in
  wm_ok wm' ∧ desk_step (OpPress x y) (desk_of wm) = (o, desk_of wm').
Proof.
  intros Hok Hop. simpl. unfold handle_press, hit_test. rewrite first_hit_spec.
  change (omap _ (reverse _)) with (stack (desk_of wm)).
  destruct (List.find _ (stack (desk_of wm))) as [[i w]|] eqn:Hf; simpl; [|done].
  destruct (find_stack wm _ _ Hok Hf) as (Hw&Hv&Hi&Hc). simpl in *. injection Hw as Hw. clear Hf.
  pose proof (bring_to_front_ok i wm Hok Hi) as Hok'.
  destruct (bring_to_front_frame i wm) as (Hw'&Hc'&Hd'). rewrite Hw', <- Hw.
  assert (i < MAX_WINDOWS)%nat as Hi4 by (pose proof (ok_count _ Hok); lia).
  pose proof (desk_of_bring i wm Hok Hi Hv) as Hdesk. rewrite <- Hw in Hdesk.
  destruct (in_close_box w x y).
  { destruct (close_sim i _ Hok' Hi4) as [Hok'' ->]. split; [done|].
    rewrite Hdesk, Hd'. simpl. rewrite Nat.eqb_refl. simpl. do 2 f_equal.
    unfold without. clear. induction (omap _ _) as [|p l IH]; [done|]. simpl.
    destruct (negb _) eqn:E; simpl; [rewrite E|]; by rewrite <- IH. }
  destruct (in_title_bar w x y) eqn:Ht; [|split; [done|by rewrite Hdesk]].
  split.
  - destruct Hok' as [H1 H2 H3 H4 H5 H6]. rewrite Hw' in *.
    constructor; [exact H1|exact H2|exact H3|exact H4|exact H5|].
    cbn [dragging]. intros d [= <-]. simpl. rewrite Hc'. split_and!; [done|done|].
    pose proof (window_bounds wm i Hok Hi4) as Hb. rewrite <- Hw in Hb.
    unfold in_title_bar in Ht. bool_hyps. unfold no_overflow, drag_ok, coordinate, extent, TITLE_BAR_HEIGHT in *.
    simpl. lia.
  - pose proof (f_equal stack Hdesk) as Hst. unfold desk_of at 1 in Hst. cbn [stack] in Hst.
    rewrite Hw' in Hst. f_equal. unfold desk_of at 1. cbn [windows dragging]. f_equal. by symmetry.
Qed.

Lemma drag_sim x y wm : wm_ok wm → op_ok (OpDrag x y) →
  wm_ok (handle_drag x y wm) ∧ desk_step (OpDrag x y) (desk_of wm) = (OutNone, desk_of (handle_drag x y wm)).
Proof.
  intros Hok [Hx Hy]. simpl. unfold handle_drag. destruct (dragging wm) as [d|] eqn:Hd; [|done].
  destruct (ok_drag _ Hok d Hd) as (Hi&Hv&Hdr).
  assert (drag_window d < length (windows wm))%nat as Hl
    by (rewrite (ok_windows _ Hok); pose proof (ok_count _ Hok); lia).
  split.
  - destruct Hok as [H1 H2 H3 H4 H5 H6]. constructor; [simpl; by rewrite length_alter|exact H2|exact H3|exact H4| |].
    + apply Forall_alter_window; [|done]. intros w (_&_&?&?).
      unfold no_overflow, drag_ok, is_i16, i16_min, i16_max, coordinate, extent in *. simpl. lia.
    + simpl. intros d' [= <-]. rewrite list_lookup_total_alter_eq by done. done.
  - unfold desk_of. cbn [windows dragging]. by rewrite stack_move.
Qed.

Lemma release_sim wm : wm_ok wm →
  let '(o, wm') := wm_step OpRelease wm in
  wm_ok wm' ∧ desk_step OpRelease (desk_of wm) = (o, desk_of wm').
Proof.
  intros Hok. simpl. unfold handle_release. destruct (dragging wm) as [d|] eqn:Hd; simpl; [|done].
  destruct (ok_drag _ Hok d Hd) as (Hi&Hv&Hdr). split.
  - destruct Hok as [H1 H2 H3 H4 H5 H6]. by constructor; [exact H1|exact H2|exact H3|exact H4|exact H5|].
  - change (omap _ (reverse _)) with (stack (desk_of wm)).
    assert (∃ p, List.find (λ p, p.1 =? drag_window d)%nat (stack (desk_of wm)) = Some p) as [p Hp].
    { destruct (List.find _ (stack _)) as [p|] eqn:E; [by exists p|].
      assert (on_desk (drag_window d) (desk_of wm) = true) as H by by apply on_desk_spec.
      unfold on_desk in H. apply existsb_exists in H as (p&Hp&He).
      rewrite (List.find_none _ _ E p Hp) in He. done. }
    rewrite Hp. destruct (find_stack wm _ _ Hok Hp) as (Hpe&_&_&He). apply Nat.eqb_eq in He.
    rewrite He in Hpe. simpl. rewrite Hpe. done.
Qed.

Lemma find_seq f n i : List.find f (seq 0 n) = Some i ↔
  (i < n)%nat ∧ f i = true ∧ ∀ j, (j < i)%nat → f j = false.
Proof.
  enough (∀ m, List.find f (seq m n) = Some i ↔
    (m ≤ i < m + n)%nat ∧ f i = true ∧ ∀ j, (m ≤ j < i)%nat → f j = false) as H.
  { rewrite (H 0%nat). split; intros (?&?&Hf); (split; [lia|split; [done|]]); intros j ?; apply Hf; lia. }
  induction n as [|n IH]; intros m; simpl; [split; [done|lia]|].
  destruct (f m) eqn:E.
  - split.
    + intros [= <-]. split_and!; [lia|lia|done|]. intros j ?. lia.
    + intros (?&?&Hf). destruct (decide (m = i)) as [->|]; [done|]. rewrite Hf in E by lia. done.
  - rewrite IH. split; intros (?&?&Hf); (split; [|split; [done|]]).
    + lia.
    + intros j ?. destruct (decide (j = m)) as [->|]; [done|]. apply Hf. lia.
    + destruct (decide (i = m)) as [->|]; [congruence|lia].
    + intros j ?. apply Hf. lia.
Qed.

Lemma find_seq_none f n : List.find f (seq 0 n) = None ↔ ∀ j, (j < n)%nat → f j = false.
Proof.
  split.
  - intros H j Hj. apply (List.find_none _ _ H). apply in_seq. lia.
  - intros H. destruct (List.find _ _) as [i|] eqn:E; [|done]. apply find_seq in E as (?&Hi&_).
    by rewrite H in Hi.
Qed.

Lemma make_window_spec x y w h t :
  mk_window x y w h (copy_at 0 (take (length t `min` TITLE_MAX) t) (replicate TITLE_MAX (z2b 0)))
    (length t `min` TITLE_MAX) true = make_window x y w h t.
Proof.
  unfold make_window, copy_at. rewrite Nat.add_0_l. simpl take at 1. rewrite app_nil_l, drop_replicate.
  assert (take (length t `min` TITLE_MAX) t = take TITLE_MAX t) as ->.
  { destruct (decide (length t ≤ TITLE_MAX)%nat).
    - rewrite Nat.min_l, !take_ge by lia. done.
    - by rewrite Nat.min_r by lia. }
  f_equal. rewrite length_take. lia.
Qed.

(** Which slot [spawn] uses is what [free_slot] says. *)
Lemma spawn_slot wm : wm_ok wm →
  let recycled := position (λ w, negb (visible w)) (take (count wm) (windows wm)) in
  free_slot (desk_of wm) =
    match recycled with
    | Some i => Some i
    | None => if (count wm <? MAX_WINDOWS)%nat then Some (count wm) else None
    end ∧
  match recycled with
  | Some i => (i < count wm)%nat ∧ visible (windows wm !!! i) = false
  | None => True
  end.
Proof.
  intros Hok recycled. pose proof (ok_count _ Hok) as Hc. pose proof (ok_windows _ Hok) as Hw.
  assert (∀ i, (i < count wm)%nat → take (count wm) (windows wm) !! i = Some (windows wm !!! i)) as Hl.
  { intros i Hi. rewrite lookup_take_lt by done. apply list_lookup_lookup_total_lt. lia. }
  assert (∀ i, negb (on_desk i (desk_of wm)) = true ↔ ¬ ((i < count wm)%nat ∧ visible (windows wm !!! i) = true)) as Hon.
  { intros i. rewrite negb_true_iff, <- not_true_iff_false, on_desk_spec by done. done. }
  assert (∀ i, negb (on_desk i (desk_of wm)) = false ↔ (i < count wm)%nat ∧ visible (windows wm !!! i) = true) as Hon'.
  { intros i. rewrite negb_false_iff, on_desk_spec by done. done. }
  unfold free_slot. destruct recycled as [i|] eqn:Hr; unfold recycled in Hr.
  - apply position_Some in Hr as (w&Hi&Hv&Hbefore).
    assert (i < count wm)%nat as Hlt
      by (apply lookup_lt_Some in Hi; rewrite length_take in Hi; lia).
    rewrite (Hl i Hlt) in Hi. injection Hi as <-. apply negb_true_iff in Hv.
    split; [|done]. apply find_seq. split_and!; [lia|apply Hon; intros [_ ?]; congruence|].
    intros j Hj. apply Hon'. split; [lia|]. specialize (Hbefore j _ (Hl j ltac:(lia)) Hj).
    by apply negb_false_iff in Hbefore.
  - rewrite position_None in Hr. split; [|done].
    assert (∀ j, (j < count wm)%nat → visible (windows wm !!! j) = true) as Hall.
    { intros j Hj. apply negb_false_iff, Hr. eapply list_elem_of_lookup_2, (Hl j Hj). }
    destruct (Nat.ltb_spec (count wm) MAX_WINDOWS).
    + apply find_seq. split_and!; [done|apply Hon; lia|]. intros j Hj. apply Hon'. auto.
    + apply find_seq_none. intros j Hj. apply Hon'. split; [lia|]. apply Hall. lia.
Qed.

Lemma store_window_ok i win wm : wm_ok wm → (i < MAX_WINDOWS)%nat → no_overflow win →
  visible (windows wm !!! i) = false ∨ (count wm ≤ i)%nat →
  wm_ok (mk_wm (<[i := win]> (windows wm)) (count wm) (order wm) (dragging wm)).
Proof.
  intros [H1 H2 H3 H4 H5 H6] Hi Hw Hfree. constructor; [simpl; by rewrite length_insert|done..| |].
  - by apply Forall_insert.
  - intros d Hd. destruct (H6 d Hd) as (Hlt&Hv&Hok). split_and!; [done| |done]. simpl.
    rewrite list_lookup_total_insert_ne; [done|]. intros ->. destruct Hfree; [congruence|lia].
Qed.

Lemma spawn_sim x y w h title wm : wm_ok wm → op_ok (OpSpawn x y w h title) →
  let '(o, wm') := wm_step (OpSpawn x y w h title) wm in
  wm_ok wm' ∧ desk_step (OpSpawn x y w h title) (desk_of wm) = (o, desk_of wm').
Proof.
  intros Hok (Hx&Hy&Hw&Hh). destruct (spawn_slot wm Hok) as [Hslot Hrec].
  pose proof (ok_count _ Hok) as Hc. pose proof (ok_windows _ Hok) as Hwl. pose proof (ok_order _ Hok) as Ho.
  cbn [wm_step desk_step]. unfold spawn. rewrite make_window_spec. set (win := make_window x y w h title).
  assert (no_overflow win) as Hwin.
  { unfold no_overflow, win, make_window, coordinate, extent, is_i16, i16_min, i16_max in *. simpl. lia. }
  rewrite Hslot. destruct (position _ _) as [i|].
  - destruct Hrec as [Hi Hv].
    pose proof (store_window_ok i win wm Hok ltac:(lia) Hwin (or_introl Hv)) as Hok1.
    split; [by apply bring_to_front_ok|]. f_equal.
    rewrite desk_of_bring; [|done|done|simpl; by rewrite list_lookup_total_insert_eq by lia].
    simpl. rewrite list_lookup_total_insert_eq by lia. do 2 f_equal.
    change (draw_order (mk_wm _ _ _ _)) with (draw_order wm). by rewrite stack_recycle.
  - destruct (Nat.ltb_spec (count wm) MAX_WINDOWS) as [Hlt|Hge]; [|done].
    pose proof (store_window_ok (count wm) win wm Hok Hlt Hwin (or_intror (le_n _))) as Hok1.
    assert (take (S (count wm)) (<[count wm := count wm]> (order wm)) = draw_order wm ++ [count wm]) as Hdo.
    { rewrite (take_S_r _ _ (count wm)) by (apply list_lookup_insert_eq; lia).
      by rewrite take_insert_ge. }
    split.
    + destruct Hok1 as [H1 H2 H3 H4 H5 H6]. constructor; [exact H1|simpl; by rewrite length_insert|simpl; lia| |exact H5|].
      * unfold draw_order at 1. cbn [count order]. rewrite Hdo, (ok_perm _ Hok), seq_S. done.
      * intros d Hd. destruct (H6 d Hd) as (?&?&?). simpl in *. split_and!; [lia|done..].
    + f_equal. set (wm' := mk_wm _ (S _) _ _).
      change (desk_of wm') with (mk_desk (omap (shown (windows wm')) (reverse (draw_order wm'))) (dragging wm)).
      replace (draw_order wm') with (draw_order wm ++ [count wm]) by (symmetry; exact Hdo). unfold wm'.
      rewrite reverse_app. change (reverse [count wm]) with [count wm].
      cbn [windows app dragging]. rewrite stack_cons. unfold shown at 1.
      rewrite list_lookup_total_insert_eq by lia. change (visible win) with true.
      cbn [option_list app]. rewrite stack_store; [done|].
      rewrite elem_of_reverse, elem_of_draw_order by done. lia.
Qed.

Lemma wm_step_sim op wm : wm_ok wm → op_ok op →
  let '(o, wm') := wm_step op wm in wm_ok wm' ∧ desk_step op (desk_of wm) = (o, desk_of wm').
Proof.
  intros Hok Hop. destruct op as [x y w h title|x y|x y| |i].
  - by apply spawn_sim.
  - by apply press_sim.
  - by apply drag_sim.
  - by apply release_sim.
  - destruct (close_sim i wm Hok Hop) as [Hok' Hd]. simpl. by rewrite Hd.
Qed.

Lemma wm_run_sim ops wm : wm_ok wm → Forall op_ok ops →
  let '(os, wm') := wm_run wm_step ops wm in
  wm_ok wm' ∧ wm_run desk_step ops (desk_of wm) = (os, desk_of wm').
Proof.
  revert wm. induction ops as [|op ops IH]; intros wm Hok Hops; [done|].
  apply Forall_cons in Hops as [Hop Hops]. simpl.
  pose proof (wm_step_sim op wm Hok Hop) as Hs. destruct (wm_step op wm) as [o wm1]. destruct Hs as [Hok1 ->].
  specialize (IH wm1 Hok1 Hops). destruct (wm_run wm_step ops wm1) as [os wm2]. by destruct IH as [? ->].
Qed.

Lemma new_wm_ok : wm_ok new_wm.
Proof.
  constructor; [done|done|apply Nat.le_0_l|done| |done]. apply Forall_replicate.
  unfold no_overflow, coordinate, extent, empty_window. simpl. lia.
Qed.

(** The window manager is a stack of visible windows: any sequence of
    spawns, presses, drags, releases and closes on the four slots gives
    exactly the answers of the stack, in which a press acts on the topmost
    window under the pointer, raises it, closes it from its close box or
    starts dragging it, and a new window takes the lowest free slot and is in
    front. All along the order is a permutation of the used slots, only
    visible windows are dragged and no coordinate leaves the [i32] range. *)
Theorem window_manager_is_a_stack ops os wm :
  Forall op_ok ops → wm_run wm_step ops new_wm = (os, wm) →
  wm_ok wm ∧ wm_run desk_step ops (mk_desk [] None) = (os, desk_of wm).
Proof.
  intros Hops Hrun. pose proof (wm_run_sim ops new_wm new_wm_ok Hops) as H. rewrite Hrun in H. exact H.
Qed.

Lemma window_manager_is_a_stack_witness :
  let ops := [OpSpawn 0 0 100 80 (bs "back"); OpSpawn 10 10 100 80 (bs "front"); OpPress 5 5;
              OpDrag 35 40; OpRelease; OpPress 129 36; OpSpawn 40 40 80 60 (bs "reused")] in
  ∃ os wm, wm_run wm_step ops new_wm = (os, wm) ∧
    os = [OutSpawn (Some 0%nat); OutSpawn (Some 1%nat); OutPress (DragStarted 0); OutNone;
          OutRelease (Some (mk_drag_result 0 0 0 30 35)); OutPress (Closed 0); OutSpawn (Some 0%nat)] ∧
    wm_ok wm ∧ wm_run desk_step ops (mk_desk [] None) = (os, desk_of wm).
Proof.
  intros ops. eexists _, _. split; [vm_compute; reflexivity|]. split; [reflexivity|].
  apply (window_manager_is_a_stack ops); [|vm_compute; reflexivity].
  unfold ops. repeat constructor; vm_compute; discriminate.
Defined.
