(* ===== verification/X86.v ===== *)
(** The interface of the x86_64 crate the kernel's paging code calls: virtual
    addresses, frames, pages and the page-table mapper, what the crate
    documents about them, and a simulated page table that satisfies it.

    Addresses, pages and frames are integers: a page and a frame are named by
    their start address. [PT] is a level-4 table with everything below it. The
    mapper's calls back into the frame allocator are explicit: [map_to] and
    [clean_up_addr_range] take the allocator's state and its operation. *)

From S2P Require Import Prelude.

Record PageTableFlags := mk_flags {
  PRESENT : bool;
  WRITABLE : bool;
  USER_ACCESSIBLE : bool;
  NO_EXECUTE : bool
}.

#[global] Instance PageTableFlags_eq_decision : EqDecision PageTableFlags.
Proof. solve_decision. Defined.

Inductive TranslateResult :=
| Mapped (frame offset : Z) (flags : PageTableFlags)
| NotMapped
| InvalidFrameAddress.

Class X86Addr := {
  (** [VirtAddr::try_new(raw).ok()] *)
  virt_addr_try_new : Z → option Z;
  (** [PhysFrame::from_start_address(addr).ok()] *)
  frame_from_start_address : Z → option Z;
  (** [Page::<Size4KiB>::containing_address(addr)] *)
  page_containing : Z → Z;
}.

Class X86_64 (PT : Type) := {
  (** level-4 entries *)
  l4_entry : Type;
  l4_zero : PT;
  l4_get : nat → PT → l4_entry;
  l4_set : nat → l4_entry → PT → PT;
  translate : PT → Z → TranslateResult;
  (** [map_to(page, frame, flags, allocator)]: whether it succeeded *)
  map_to : ∀ {A}, (A → option Z * A) → Z → Z → PageTableFlags → PT → A → bool * PT * A;
  (** [unmap(page)]: the frame that was mapped *)
  unmap : Z → PT → option Z * PT;
  update_flags : Z → PageTableFlags → PT → bool * PT;
  (** [clean_up_addr_range(start..=end, deallocator)] *)
  clean_up_addr_range : ∀ {A}, (Z → A → A) → Z → Z → PT → A → PT * A;
}.

(** Allocator calls: [allocs alloc a new a'] takes the allocator from [a] to
    [a'] through calls that returned the frames [new] (and possibly failures). *)
Inductive allocs {A} (alloc : A → option Z * A) : A → list Z → A → Prop :=
| allocs_nil a : allocs alloc a [] a
| allocs_some a f a1 l a2 : alloc a = (Some f, a1) → allocs alloc a1 l a2 → allocs alloc a (f :: l) a2
| allocs_none a a1 l a2 : alloc a = (None, a1) → allocs alloc a1 l a2 → allocs alloc a l a2.

Definition align_down (a : Z) : Z := a - a mod 4096.

(** Addresses below one level-4 slot of the lower half. *)
Definition in_slot (slot a : Z) : Prop := 0 <= slot < 256 ∧ 2 ^ 39 * slot <= a < 2 ^ 39 * (slot + 1).

Class X86AddrSpec `{X86Addr} : Prop := {
  virt_addr_low a : 0 <= a < 2 ^ 47 → virt_addr_try_new a = Some a;
  frame_aligned a : frame_from_start_address a = if a mod 4096 =? 0 then Some a else None;
  page_align a : page_containing a = align_down a;
}.

(** What the crate documents, for a slot mapped with 4 KiB pages only:
    [leaves] are its mappings by page start, [tables] the frames of its level
    3 to 1 tables, [has_tables pt page] that mapping [page] needs no new table. *)
Class X86_64Spec (PT : Type) (slot : Z) `{X86_64 PT} := {
  pt_ok : PT → Prop;
  leaves : PT → gmap Z (Z * PageTableFlags);
  tables : PT → list Z;
  has_tables : PT → Z → Prop;
  l4_zero_spec : pt_ok l4_zero ∧ leaves l4_zero = ∅ ∧ tables l4_zero = [];
  l4_set_spec i e pt : pt_ok pt → Z.of_nat i ≠ slot →
    pt_ok (l4_set i e pt) ∧ leaves (l4_set i e pt) = leaves pt ∧ tables (l4_set i e pt) = tables pt;
  translate_spec pt a : pt_ok pt → in_slot slot a →
    translate pt a = match leaves pt !! align_down a with
                     | Some (f, fl) => Mapped f (a mod 4096) fl
                     | None => NotMapped
                     end;
  leaves_spec pt : pt_ok pt →
    map_Forall (λ p '(f, fl), in_slot slot p ∧ p mod 4096 = 0 ∧ f mod 4096 = 0 ∧ has_tables pt p) (leaves pt);
  map_to_spec {A} (alloc : A → option Z * A) p f fl pt (a : A) :
    pt_ok pt → in_slot slot p → p mod 4096 = 0 → f mod 4096 = 0 →
    let '(ok, pt', a') := map_to alloc p f fl pt a in
    ∃ new, allocs alloc a new a' ∧ pt_ok pt' ∧ tables pt' ≡ₚ tables pt ++ new ∧
      (∀ q, has_tables pt q → has_tables pt' q) ∧
      if ok then leaves pt !! p = None ∧ leaves pt' = <[p := (f, fl)]> (leaves pt)
      else leaves pt' = leaves pt;
  map_to_has_tables {A} (alloc : A → option Z * A) p f fl pt (a : A) :
    pt_ok pt → in_slot slot p → p mod 4096 = 0 → f mod 4096 = 0 →
    has_tables pt p → leaves pt !! p = None →
    ∃ pt', map_to alloc p f fl pt a = (true, pt', a);
  unmap_spec p pt :
    pt_ok pt → in_slot slot p → p mod 4096 = 0 →
    let '(r, pt') := unmap p pt in
    r = fst <$> leaves pt !! p ∧ pt_ok pt' ∧ leaves pt' = delete p (leaves pt) ∧ tables pt' = tables pt ∧
    (∀ q, has_tables pt q → has_tables pt' q);
  update_flags_spec p fl pt :
    pt_ok pt → in_slot slot p → p mod 4096 = 0 →
    let '(ok, pt') := update_flags p fl pt in
    pt_ok pt' ∧ leaves pt' = alter (λ l, (l.1, fl)) p (leaves pt) ∧ tables pt' = tables pt ∧
    ok = bool_decide (is_Some (leaves pt !! p));
  clean_up_spec {A} (dealloc : Z → A → A) start end_ pt (a : A) :
    pt_ok pt → in_slot slot start → in_slot slot end_ →
    let '(pt', a') := clean_up_addr_range dealloc start end_ pt a in
    ∃ removed, a' = foldl (λ a f, dealloc f a) a removed ∧ pt_ok pt' ∧
      tables pt ≡ₚ removed ++ tables pt' ∧ leaves pt' = leaves pt;
}.

Lemma align_down_spec a : align_down a mod 4096 = 0 ∧ align_down a <= a < align_down a + 4096.
Proof. unfold align_down. split; Z.to_euclidean_division_equations; lia. Qed.

Lemma align_down_id a : a mod 4096 = 0 → align_down a = a.
Proof. unfold align_down. lia. Qed.

Lemma align_down_slot slot a : in_slot slot a → in_slot slot (align_down a).
Proof. unfold in_slot, align_down. intros [? ?]. split; [done|]. Z.to_euclidean_division_equations; lia. Qed.

(** ** A simulated page table *)

(** A table is named by its level's shift and the address bits above it. *)
Record sim_pt := mk_sim {
  sim_entries : gmap nat Z;
  sim_leaves : gmap Z (Z * PageTableFlags);
  sim_tables : gmap (Z * Z) Z
}.

Definition table_key (shift a : Z) : Z * Z := (shift, Z.shiftr a shift).
Definition table_shifts : list Z := [39; 30; 21].

Fixpoint sim_walk {A} (alloc : A → option Z * A) (shifts : list Z) (p : Z) (t : gmap (Z * Z) Z) (a : A)
    : bool * gmap (Z * Z) Z * A :=
  match shifts with
  | [] => (true, t, a)
  | s :: rest =>
      match t !! table_key s p with
      | Some _ => sim_walk alloc rest p t a
      | None =>
          match alloc a with
          | (Some f, a) => sim_walk alloc rest p (<[table_key s p := f]> t) a
          | (None, a) => (false, t, a)
          end
      end
  end.

Definition sim_map_to {A} (alloc : A → option Z * A) (p f : Z) (fl : PageTableFlags) (pt : sim_pt) (a : A)
    : bool * sim_pt * A :=
  let '(ok, t, a) := sim_walk alloc table_shifts p (sim_tables pt) a in
  if ok && bool_decide (sim_leaves pt !! p = None)
  then (true, mk_sim (sim_entries pt) (<[p := (f, fl)]> (sim_leaves pt)) t, a)
  else (false, mk_sim (sim_entries pt) (sim_leaves pt) t, a).

Definition sim_unmap (p : Z) (pt : sim_pt) : option Z * sim_pt :=
  (fst <$> sim_leaves pt !! p, mk_sim (sim_entries pt) (delete p (sim_leaves pt)) (sim_tables pt)).

Definition sim_update_flags (p : Z) (fl : PageTableFlags) (pt : sim_pt) : bool * sim_pt :=
  (bool_decide (is_Some (sim_leaves pt !! p)),
   mk_sim (sim_entries pt) (alter (λ l, (l.1, fl)) p (sim_leaves pt)) (sim_tables pt)).

Definition sim_translate (pt : sim_pt) (a : Z) : TranslateResult :=
  match sim_leaves pt !! align_down a with
  | Some (f, fl) => Mapped f (a mod 4096) fl
  | None => NotMapped
  end.

(** A table goes when it meets the range and no leaf is below it. *)
Definition sim_removable (start end_ : Z) (l : gmap Z (Z * PageTableFlags)) (k : Z * Z) : Prop :=
  Z.shiftr start k.1 <= k.2 <= Z.shiftr end_ k.1 ∧ Forall (λ p, Z.shiftr p k.1 ≠ k.2) (map_to_list l).*1.

#[global] Instance sim_removable_dec start end_ l k : Decision (sim_removable start end_ l k).
Proof. apply _. Defined.

Definition sim_clean_up {A} (dealloc : Z → A → A) (start end_ : Z) (pt : sim_pt) (a : A) : sim_pt * A :=
  let gone := filter (λ kf, sim_removable start end_ (sim_leaves pt) kf.1) (sim_tables pt) in
  let kept := filter (λ kf, ¬ sim_removable start end_ (sim_leaves pt) kf.1) (sim_tables pt) in
  (mk_sim (sim_entries pt) (sim_leaves pt) kept, foldl (λ a f, dealloc f a) a (map_to_list gone).*2).

Definition sim_addr : X86Addr := {|
  virt_addr_try_new a := if (0 <=? a) && (a <? 2 ^ 47) then Some a else None;
  frame_from_start_address a := if a mod 4096 =? 0 then Some a else None;
  page_containing := align_down;
|}.

Lemma sim_addr_spec : @X86AddrSpec sim_addr.
Proof.
  split; [|done|done]. intros a Ha. simpl.
  destruct (Z.leb_spec 0 a), (Z.ltb_spec a (2 ^ 47)); done || lia.
Qed.

Definition sim_x86 : X86_64 sim_pt := {|
  l4_entry := option Z;
  l4_zero := mk_sim ∅ ∅ ∅;
  l4_get i pt := sim_entries pt !! i;
  l4_set i e pt := mk_sim (partial_alter (λ _, e) i (sim_entries pt)) (sim_leaves pt) (sim_tables pt);
  translate := sim_translate;
  map_to A := @sim_map_to A;
  unmap := sim_unmap;
  update_flags := sim_update_flags;
  clean_up_addr_range A := @sim_clean_up A;
|}.

(** ** The simulated table keeps the crate's promises *)

Definition sim_has_tables (t : gmap (Z * Z) Z) (p : Z) : Prop :=
  Forall (λ s, is_Some (t !! table_key s p)) table_shifts.

Definition sim_ok (slot : Z) (pt : sim_pt) : Prop :=
  map_Forall (λ p '(f, fl), in_slot slot p ∧ p mod 4096 = 0 ∧ f mod 4096 = 0 ∧ sim_has_tables (sim_tables pt) p)
    (sim_leaves pt).

Lemma sim_has_tables_mono t t' p : t ⊆ t' → sim_has_tables t p → sim_has_tables t' p.
Proof.
  intros Ht Hp. apply (Forall_impl _ _ _ Hp). intros s [f Hf]. exists f. by apply (lookup_weaken _ _ _ _ Hf).
Qed.

Lemma sim_walk_spec {A} (alloc : A → option Z * A) shifts p t a :
  let '(ok, t', a') := sim_walk alloc shifts p t a in
  ∃ new, allocs alloc a new a' ∧ (map_to_list t').*2 ≡ₚ (map_to_list t).*2 ++ new ∧ t ⊆ t' ∧
    (ok = true → Forall (λ s, is_Some (t' !! table_key s p)) shifts).
Proof.
  revert t a. induction shifts as [|s shifts IH]; intros t a; simpl.
  { exists []. rewrite app_nil_r. split_and!; [constructor|done..]. }
  destruct (t !! table_key s p) as [f|] eqn:E.
  - specialize (IH t a). destruct (sim_walk alloc shifts p t a) as [[ok t'] a'].
    destruct IH as (new&?&?&Hsub&Hall). exists new. split_and!; [done..|]. intros Hok. constructor; [|auto].
    exists f. by apply (lookup_weaken _ _ _ _ E).
  - destruct (alloc a) as [[f|] a1] eqn:Ha.
    2:{ exists []. rewrite app_nil_r. split_and!; [|done..]. by econstructor; [|constructor]. }
    specialize (IH (<[table_key s p := f]> t) a1).
    destruct (sim_walk alloc shifts p _ a1) as [[ok t'] a']. destruct IH as (new&?&Hp&Hsub&Hall).
    assert (t ⊆ t') as Hsub' by (etrans; [apply insert_subseteq; exact E|exact Hsub]).
    exists (f :: new). split_and!; [by econstructor| |done|].
    + rewrite Hp, map_to_list_insert by done. simpl. by rewrite Permutation_middle.
    + intros Hok. constructor; [|auto]. exists f. eapply lookup_weaken; [|exact Hsub]. apply lookup_insert_eq.
Qed.

Lemma sim_walk_present {A} (alloc : A → option Z * A) shifts p t a :
  Forall (λ s, is_Some (t !! table_key s p)) shifts → sim_walk alloc shifts p t a = (true, t, a).
Proof. induction 1 as [|s shifts [f Hf] _ IH]; [done|]. simpl. by rewrite Hf. Qed.

Lemma map_to_list_filter (t : gmap (Z * Z) Z) (P : (Z * Z) * Z → Prop) `{∀ k, Decision (P k)} :
  map_to_list (filter P t) ≡ₚ filter P (map_to_list t).
Proof.
  apply NoDup_Permutation; [apply NoDup_map_to_list|apply NoDup_filter, NoDup_map_to_list|].
  intros [k f]. rewrite elem_of_map_to_list, map_lookup_filter_Some, list_elem_of_filter, elem_of_map_to_list.
  tauto.
Qed.

Lemma sim_clean_up_tables (t : gmap (Z * Z) Z) (P : (Z * Z) → Prop) `{∀ k, Decision (P k)} :
  (map_to_list t).*2 ≡ₚ
    (map_to_list (filter (λ kf, P kf.1) t)).*2 ++ (map_to_list (filter (λ kf, ¬ P kf.1) t)).*2.
Proof.
  rewrite <- fmap_app, !map_to_list_filter. by rewrite filter_app_complement.
Qed.

#[refine] Definition sim_x86_spec slot : @X86_64Spec sim_pt slot sim_x86 := {|
  pt_ok := sim_ok slot;
  leaves := sim_leaves;
  tables pt := (map_to_list (sim_tables pt)).*2;
  has_tables pt := sim_has_tables (sim_tables pt);
|}.
Proof.
  - simpl. split_and!; [apply map_Forall_empty|done|by rewrite map_to_list_empty].
  - intros i e pt Hok _. done.
  - done.
  - intros pt Hok. exact Hok.
  - intros A alloc p f fl pt a Hok Hp Hal Hf. simpl. unfold sim_map_to.
    pose proof (sim_walk_spec alloc table_shifts p (sim_tables pt) a) as Hw.
    destruct (sim_walk alloc table_shifts p (sim_tables pt) a) as [[ok t] a'].
    destruct Hw as (new&Ha&Hperm&Hsub&Hall).
    assert (sim_ok slot (mk_sim (sim_entries pt) (sim_leaves pt) t)) as Hok'.
    { intros q [g gl] Hq. destruct (Hok _ _ Hq) as (?&?&?&?). split_and!; [done..|].
      by apply (sim_has_tables_mono (sim_tables pt)). }
    destruct (ok && _) eqn:E; exists new; simpl.
    + apply andb_true_iff in E as [-> Hn]. apply bool_decide_eq_true in Hn.
      split_and!; [done| |done| |done|done].
      * apply map_Forall_insert_2; [|exact Hok']. split_and!; [apply Hp..|done|done|by apply Hall].
      * intros q. by apply sim_has_tables_mono.
    + split_and!; [done|done|done| |done]. intros q. by apply sim_has_tables_mono.
  - intros A alloc p f fl pt a Hok Hp Hal Hf Ht Hn. simpl. unfold sim_map_to.
    rewrite sim_walk_present by done. rewrite (bool_decide_eq_true_2 _ Hn). simpl. eauto.
  - intros p pt Hok Hp Hal. simpl. split_and!; [done| |done..].
    by apply map_Forall_delete.
  - intros p fl pt Hok Hp Hal. simpl. split_and!; [|done..].
    intros q [g gl] Hq. simpl in Hq. apply lookup_alter_Some in Hq as [(->&[g' gl']&Hq&[= -> ->])|(_&Hq)];
      by apply (Hok _ _ Hq).
  - intros A dealloc start end_ pt a Hok Hs He. simpl. unfold sim_clean_up.
    eexists. split_and!; [reflexivity| |apply sim_clean_up_tables|done].
    intros q [g gl] Hq. simpl in Hq. destruct (Hok _ _ Hq) as (?&?&?&Ht). split_and!; [done..|].
    simpl. unfold sim_has_tables in *. eapply Forall_impl; [exact Ht|]. intros s [f Hf]. exists f.
    apply map_lookup_filter_Some. split; [exact Hf|]. intros [_ Hall]. rewrite Forall_forall in Hall.
    apply (Hall q); [|done]. apply list_elem_of_fmap. exists (q, (g, gl)). split; [done|].
    by apply elem_of_map_to_list.
Defined.
