(* ===== verification/Frames.v ===== *)
(** The physical frame allocator of kernel/src/paging.rs: bump allocation over
    the usable regions of the boot memory map with a pool of freed frames.

    Frames are start addresses. [issued] is every frame the bump cursor has
    passed; the lemmas show the allocator never hands out a frame twice
    without it being freed in between, and that [frames_available] counts
    exactly the allocations that will succeed. *)

From S2P Require Import Prelude X86.

Inductive MemoryRegionKind := Usable | NotUsable.

Record MemoryRegion := mk_region { region_start : Z; region_end : Z; region_kind : MemoryRegionKind }.

Record BootInfoFrameAllocator := mk_allocator {
  memory_regions : list MemoryRegion;
  next : Z;
  freed : list Z;
  allocated_count : Z
}.

Definition is_usable (r : MemoryRegion) : bool :=
  match region_kind r with Usable => true | NotUsable => false end.

Definition usable_regions (al : BootInfoFrameAllocator) : list MemoryRegion :=
  List.filter is_usable (memory_regions al).

Definition allocator_init (regions : list MemoryRegion) : BootInfoFrameAllocator :=
  mk_allocator regions 0 [] 0.

(** The memory map the bootloader handed over. *)
Class BootMap := boot_map : list MemoryRegion.

Section allocator.
Context `{X86Addr}.

(** The loop of [usable_frame_at]. *)
Fixpoint frame_in (regions : list MemoryRegion) (index : Z) : option Z :=
  match regions with
  | [] => None
  | r :: rest =>
      bytes ← checked_sub (region_end r) (region_start r);
      let frames := bytes / 4096 in
      if index <? frames then
        offset ← checked_mul u64_max index 4096;
        address ← checked_add u64_max (region_start r) offset;
        frame_from_start_address address
      else frame_in rest (index - frames)
  end.

Definition usable_frame_at (al : BootInfoFrameAllocator) (index : Z) : option Z :=
  frame_in (usable_regions al) index.

Definition usable_frame_count (al : BootInfoFrameAllocator) : Z :=
  foldl (saturating_add_u u64_max) 0
    (omap (λ r, (λ bytes, bytes / 4096) <$> checked_sub (region_end r) (region_start r)) (usable_regions al)).

Definition frames_allocated (al : BootInfoFrameAllocator) : Z := allocated_count al.
Definition frames_in_free_pool (al : BootInfoFrameAllocator) : Z := zlen (freed al).
Definition frames_bumped (al : BootInfoFrameAllocator) : Z := next al.

Definition frames_available (al : BootInfoFrameAllocator) : Z :=
  saturating_add_u u64_max (zlen (freed al)) (saturating_sub (usable_frame_count al) (next al)).

Definition allocate_frame (al : BootInfoFrameAllocator) : option Z * BootInfoFrameAllocator :=
  match last (freed al) with
  | Some frame =>
      (Some frame, mk_allocator (memory_regions al) (next al) (removelast (freed al)) (allocated_count al + 1))
  | None =>
      match usable_frame_at al (next al) with
      | Some frame => (Some frame, mk_allocator (memory_regions al) (next al + 1) (freed al) (allocated_count al + 1))
      | None => (None, al)
      end
  end.

Definition deallocate_frame (frame : Z) (al : BootInfoFrameAllocator) : BootInfoFrameAllocator :=
  mk_allocator (memory_regions al) (next al) (freed al ++ [frame]) (allocated_count al).

(** ** The boot memory map *)

Definition region_ok (r : MemoryRegion) : Prop :=
  0 <= region_start r <= region_end r ∧ region_end r < 2 ^ 52 ∧
  region_start r mod 4096 = 0 ∧ region_end r mod 4096 = 0.

(** What the bootloader documents: aligned regions that do not overlap. *)
Definition regions_ok (rs : list MemoryRegion) : Prop :=
  Forall region_ok rs ∧
  ∀ i j r r', rs !! i = Some r → rs !! j = Some r' → (i < j)%nat →
    region_end r <= region_start r' ∨ region_end r' <= region_start r.

Definition region_frames (r : MemoryRegion) : Z := (region_end r - region_start r) / 4096.

Fixpoint total_frames (rs : list MemoryRegion) : Z :=
  match rs with [] => 0 | r :: rest => region_frames r + total_frames rest end.

Definition in_region (f : Z) (r : MemoryRegion) : Prop :=
  region_start r <= f < region_end r ∧ f mod 4096 = 0.

Context `{!X86AddrSpec}.

Lemma region_frames_nonneg r : region_ok r → 0 <= region_frames r.
Proof. intros (?&?&_). apply Z.div_pos; lia. Qed.

Lemma total_frames_nonneg rs : Forall region_ok rs → 0 <= total_frames rs.
Proof. induction 1 as [|r rs Hr _ IH]; simpl; [done|]. apply region_frames_nonneg in Hr. lia. Qed.

Lemma frame_in_cons r rs i : region_ok r → 0 <= i →
  frame_in (r :: rs) i =
  if i <? region_frames r then Some (region_start r + i * 4096) else frame_in rs (i - region_frames r).
Proof.
  intros (?&?&Ha&_) Hi. simpl. unfold checked_sub. rewrite (proj2 (Z.leb_le _ _)) by lia.
  cbn [mbind option_bind]. fold (region_frames r). destruct (Z.ltb_spec i (region_frames r)) as [Hlt|]; [|done].
  assert (i * 4096 < region_end r - region_start r) as Hb
    by (unfold region_frames in Hlt; Z.to_euclidean_division_equations; lia).
  unfold checked_mul, checked_add, u64_max. rewrite (proj2 (Z.leb_le _ _)) by lia.
  cbn [mbind option_bind]. rewrite (proj2 (Z.leb_le _ _)) by lia. cbn [mbind option_bind].
  rewrite frame_aligned. rewrite (proj2 (Z.eqb_eq _ 0)); [done|].
  rewrite Z.mod_add by lia. exact Ha.
Qed.

(** The frames of the map, by bump index. *)
Lemma frame_in_spec rs i : Forall region_ok rs → 0 <= i →
  match frame_in rs i with
  | Some f => i < total_frames rs ∧ ∃ r, r ∈ rs ∧ in_region f r
  | None => total_frames rs <= i
  end.
Proof.
  intros Hrs. revert i. induction Hrs as [|r rs Hr Hrs IH]; intros i Hi; [done|].
  rewrite frame_in_cons by done. simpl total_frames. pose proof (total_frames_nonneg rs Hrs).
  destruct (Z.ltb_spec i (region_frames r)) as [Hlt|Hge].
  - split; [lia|]. exists r. split; [set_solver|]. destruct Hr as (?&?&Ha&He).
    unfold in_region, region_frames in *. split; [|rewrite Z.mod_add by lia; exact Ha].
    Z.to_euclidean_division_equations; lia.
  - specialize (IH (i - region_frames r) ltac:(lia)). destruct (frame_in rs _) as [f|]; [|lia].
    destruct IH as (?&r'&?&?). split; [lia|]. exists r'. split; [set_solver|done].
Qed.

Lemma regions_ok_cons r rs : regions_ok (r :: rs) →
  region_ok r ∧ regions_ok rs ∧ ∀ r', r' ∈ rs → region_end r <= region_start r' ∨ region_end r' <= region_start r.
Proof.
  intros [Hf Hd]. apply Forall_cons in Hf as [Hr Hf]. split_and!; [done|split; [done|]|].
  - intros i j r1 r2 E1 E2 Hij. apply (Hd (S i) (S j)); [done|done|lia].
  - intros r' Hr'. apply list_elem_of_lookup in Hr' as [j Hj]. apply (Hd 0%nat (S j)); [done|done|lia].
Qed.

Lemma frame_in_inj rs i j f : regions_ok rs → 0 <= i → 0 <= j →
  frame_in rs i = Some f → frame_in rs j = Some f → i = j.
Proof.
  revert i j. induction rs as [|r rs IH]; intros i j Hrs Hi Hj; [done|].
  apply regions_ok_cons in Hrs as (Hr&Hrs&Hdis). rewrite !frame_in_cons by done.
  pose proof (region_frames_nonneg r Hr) as Hn.
  assert (∀ k, k < region_frames r → 0 <= k → region_start r + k * 4096 < region_end r) as Hin.
  { intros k ? ?. unfold region_frames in *. Z.to_euclidean_division_equations; lia. }
  assert (∀ k, 0 <= k → frame_in rs k = Some f → ¬ region_start r <= f < region_end r) as Hout.
  { intros k Hk Hf. pose proof (frame_in_spec rs k (proj1 Hrs) Hk) as Hs. rewrite Hf in Hs.
    destruct Hs as (_&r'&Hr'&[? _]). specialize (Hdis r' Hr'). lia. }
  destruct (Z.ltb_spec i (region_frames r)), (Z.ltb_spec j (region_frames r)); intros E1 E2.
  - injection E1. injection E2. lia.
  - injection E1 as E1. apply Hout in E2; [|lia]. specialize (Hin i). lia.
  - injection E2 as E2. apply Hout in E1; [|lia]. specialize (Hin j). lia.
  - enough (i - region_frames r = j - region_frames r) by lia. apply IH; [done|lia|lia|done|done].
Qed.

(** ** The frames in circulation *)

Definition issued (al : BootInfoFrameAllocator) : list Z :=
  omap (λ i, usable_frame_at al (Z.of_nat i)) (seq 0 (Z.to_nat (next al))).

Context `{!BootMap}.

(** Every frame ever bumped is either in use or in the pool, once. *)
Record conserves (al : BootInfoFrameAllocator) (used : list Z) : Prop := {
  conserve_regions : regions_ok (usable_regions al);
  conserve_next : 0 <= next al;
  conserve_frames : used ++ freed al ≡ₚ issued al;
  conserve_map : memory_regions al = boot_map
}.

#[global] Instance conserves_perm al : Proper ((≡ₚ) ==> iff) (conserves al).
Proof. intros u v Huv. split; intros []; constructor; try done; [by rewrite <- Huv|by rewrite Huv]. Qed.

Lemma issued_NoDup al : regions_ok (usable_regions al) → NoDup (issued al).
Proof.
  intros Hr. unfold issued. generalize (Z.to_nat (next al)) as n. intros n.
  enough (∀ m, NoDup (omap (λ i, usable_frame_at al (Z.of_nat i)) (seq m n))) by auto.
  induction n as [|n IH]; intros m; simpl; [constructor|].
  destruct (usable_frame_at al (Z.of_nat m)) as [f|] eqn:E; [|apply IH].
  constructor; [|apply IH]. intros Hin. apply list_elem_of_omap in Hin as (j&Hj&Hf).
  apply elem_of_seq in Hj. enough (Z.of_nat m = Z.of_nat j) by lia.
  eapply frame_in_inj; [exact Hr|lia|lia|exact E|exact Hf].
Qed.

Lemma conserves_NoDup al used : conserves al used → NoDup (used ++ freed al).
Proof. intros [Hr _ Hp]. rewrite Hp. by apply issued_NoDup. Qed.

Lemma conserves_usable al used f : conserves al used → f ∈ used ++ freed al →
  ∃ r, r ∈ usable_regions al ∧ in_region f r.
Proof.
  intros [[Hr _] Hn Hp] Hf. rewrite Hp in Hf. apply list_elem_of_omap in Hf as (i&_&Hi).
  pose proof (frame_in_spec (usable_regions al) (Z.of_nat i) Hr ltac:(lia)) as Hs.
  unfold usable_frame_at in Hi. rewrite Hi in Hs. by destruct Hs as [_ ?].
Qed.

Lemma conserves_aligned al used f : conserves al used → f ∈ used → f mod 4096 = 0.
Proof.
  intros Hc Hf. destruct (conserves_usable al used f Hc) as (r&_&_&?); [set_solver|done].
Qed.

Lemma allocate_spec al used : conserves al used →
  match allocate_frame al with
  | (Some f, al') => conserves al' (f :: used)
  | (None, al') => al' = al
  end.
Proof.
  intros [Hr Hn Hp Hm]. unfold allocate_frame. destruct (last (freed al)) as [f|] eqn:Hl.
  - apply last_Some in Hl as [l' Hl]. constructor; [done|done| |done]. simpl. rewrite Hl, removelast_last.
    change (issued _) with (issued al). rewrite <- Hp, Hl. solve_Permutation.
  - destruct (usable_frame_at al (next al)) as [f|] eqn:Hf; [|done]. constructor; [done|simpl; lia| |done].
    unfold issued. cbn [next]. replace (Z.to_nat (next al + 1)) with (S (Z.to_nat (next al))) by lia.
    rewrite seq_S, omap_app. simpl. rewrite Z2Nat.id by done.
    change (usable_frame_at (mk_allocator _ _ _ _)) with (usable_frame_at al). rewrite Hf.
    fold (issued al). rewrite <- Hp. solve_Permutation.
Qed.

Lemma deallocate_spec al used f : conserves al (f :: used) → conserves (deallocate_frame f al) used.
Proof.
  intros [Hr Hn Hp Hm]. constructor; [done|done| |done]. simpl. change (issued _) with (issued al).
  rewrite <- Hp. solve_Permutation.
Qed.

Lemma deallocate_all al used fs : conserves al (fs ++ used) →
  conserves (foldl (λ a f, deallocate_frame f a) al fs) used.
Proof.
  revert al. induction fs as [|f fs IH]; intros al Hc; simpl; [done|]. apply IH, deallocate_spec, Hc.
Qed.

Lemma allocs_conserves al new al' used : allocs allocate_frame al new al' →
  conserves al used → conserves al' (new ++ used).
Proof.
  intros Ha. revert used. induction Ha as [a|a f a1 l a2 Hf _ IH|a a1 l a2 Hf _ IH]; intros used Hc; [done| |].
  - pose proof (allocate_spec a used Hc) as Hs. rewrite Hf in Hs.
    apply IH in Hs. by rewrite <- Permutation_middle in Hs.
  - pose proof (allocate_spec a used Hc) as Hs. rewrite Hf in Hs. subst a1. by apply IH.
Qed.

(** ** Admission control *)

Lemma usable_frame_count_spec al : Forall region_ok (usable_regions al) →
  usable_frame_count al = Z.min u64_max (total_frames (usable_regions al)).
Proof.
  intros Hr. unfold usable_frame_count.
  enough (∀ rs acc, Forall region_ok rs → 0 <= acc →
    foldl (saturating_add_u u64_max) (Z.min u64_max acc)
      (omap (λ r, (λ bytes, bytes / 4096) <$> checked_sub (region_end r) (region_start r)) rs)
    = Z.min u64_max (acc + total_frames rs)) as E.
  { specialize (E (usable_regions al) 0 Hr ltac:(lia)). exact E. }
  intros rs acc Hrs. revert acc. induction Hrs as [|r rs Hr' Hrs IH]; intros acc Hacc; simpl; [f_equal; lia|].
  pose proof (region_frames_nonneg r Hr'). destruct Hr' as (?&?&_).
  unfold checked_sub at 1. rewrite (proj2 (Z.leb_le _ _)) by lia. simpl.
  fold (region_frames r). unfold saturating_add_u at 2.
  replace (Z.min u64_max (Z.min u64_max acc + region_frames r)) with (Z.min u64_max (acc + region_frames r)) by lia.
  rewrite IH by lia. f_equal. lia.
Qed.

(** [n] allocations in a row all succeed. *)
Fixpoint can_take (n : nat) (al : BootInfoFrameAllocator) : bool :=
  match n with
  | 0%nat => true
  | S n => match allocate_frame al with (Some _, al) => can_take n al | (None, _) => false end
  end.

(** Frames left, without saturation. *)
Definition remaining (al : BootInfoFrameAllocator) : Z :=
  zlen (freed al) + Z.max 0 (total_frames (usable_regions al) - next al).

Lemma can_take_spec n al : Forall region_ok (usable_regions al) → 0 <= next al →
  can_take n al = (Z.of_nat n <=? remaining al).
Proof.
  intros Hr. revert al Hr. induction n as [|n IH]; intros al Hr Hn; simpl.
  { symmetry. apply Z.leb_le. unfold remaining, zlen. lia. }
  unfold allocate_frame. destruct (last (freed al)) as [f|] eqn:Hl.
  - apply last_Some in Hl as [l' Hl]. rewrite IH by done. unfold remaining.
    cbn [freed next usable_regions memory_regions]. rewrite Hl, removelast_last, zlen_app.
    change (zlen [f]) with 1. change (usable_regions (mk_allocator _ _ _ _)) with (usable_regions al).
    destruct (Z.leb_spec (Z.of_nat n) (zlen l' + Z.max 0 (total_frames (usable_regions al) - next al))); symmetry;
      [apply Z.leb_le|apply Z.leb_gt]; lia.
  - apply last_None in Hl. pose proof (frame_in_spec _ (next al) Hr Hn) as Hf. unfold usable_frame_at.
    unfold remaining. rewrite Hl. change (zlen []) with 0.
    destruct (frame_in _ (next al)) as [f|].
    + rewrite IH; [|done|simpl; lia]. unfold remaining. cbn [freed next].
      change (usable_regions (mk_allocator _ _ _ _)) with (usable_regions al). rewrite ?Hl.
      destruct Hf as [Hlt _]. change (zlen []) with 0.
      destruct (Z.leb_spec (Z.of_nat n) (0 + Z.max 0 (total_frames (usable_regions al) - (next al + 1)))); symmetry;
        [apply Z.leb_le|apply Z.leb_gt]; lia.
    + symmetry. apply Z.leb_gt. lia.
Qed.

Lemma frames_available_spec al : Forall region_ok (usable_regions al) → 0 <= next al →
  remaining al <= u64_max → next al <= u64_max → total_frames (usable_regions al) <= u64_max →
  frames_available al = remaining al.
Proof.
  intros Hr Hn Hrem Hn' Ht. unfold frames_available, saturating_add_u, saturating_sub.
  rewrite usable_frame_count_spec by done. unfold remaining in *. lia.
Qed.
End allocator.
