(* ===== verification/Paging.v ===== *)
(** Virtual memory of kernel/src/paging.rs: private address spaces, mapping
    and unmapping with ownership tracking, validation of user ranges and
    copies to and from user memory.

    [Machine] holds the kernel-wide state: the physical-memory offset, the
    kernel's own table, the frame allocator, the level-4 table rooted at each
    frame, and the contents of physical memory. Page tables are kept apart
    from [memory]: the kernel reaches both through the offset mapping, but
    only the mapper reads a table's bytes, so [memory] is meaningful for
    frames that hold data. TLB flushes and the interrupt masking of
    [with_paging] have no counterpart. *)

From S2P Require Import Prelude X86 Frames.

Record AddressSpace := mk_space { pml4_frame : Z; owned_frames : list Z }.

Record Machine (PT : Type) := mk_machine {
  phys_mem_offset : Z;
  kernel_pml4 : Z;
  kernel_mapper : option PT;
  frame_allocator : option BootInfoFrameAllocator;
  page_tables : gmap Z PT;
  memory : Z → byte
}.
Arguments mk_machine {PT}.
Arguments phys_mem_offset {PT}.
Arguments kernel_pml4 {PT}.
Arguments kernel_mapper {PT}.
Arguments frame_allocator {PT}.
Arguments page_tables {PT}.
Arguments memory {PT}.

Definition USER_SPACE_BASE : Z := 0x700000000000.
Definition USER_SPACE_SIZE : Z := 0x40000000.
Definition USER_MMAP_BASE : Z := USER_SPACE_BASE + 0x10000000.
Definition USER_MMAP_LIMIT : Z := USER_SPACE_BASE + USER_SPACE_SIZE - 0x100000.

Definition pml4_index (addr : Z) : Z := Z.land (Z.shiftr addr 39) 0x1FF.
Definition USER_REGION_PML4_INDEX : Z := pml4_index USER_SPACE_BASE.

Record UnmapRecord := mk_record { rec_page : Z; rec_frame : Z; rec_flags : PageTableFlags }.
Record OwnershipRemoval := mk_removal { rem_index : nat; rem_frame : Z }.

Record FrameStats := { stat_allocated : Z; stat_free_in_pool : Z; stat_bumped : Z }.

(** [sort_unstable_by]: the order of equal keys is not specified, and the keys
    sorted here are distinct. *)
Fixpoint insert_by {A} (before : A → A → bool) (x : A) (l : list A) : list A :=
  match l with
  | [] => [x]
  | y :: r => if before x y then x :: l else y :: insert_by before x r
  end.
Definition sort_by {A} (before : A → A → bool) (l : list A) : list A := foldr (insert_by before) [] l.

(** [dedup] of adjacent equal elements *)
Fixpoint dedup (l : list Z) : list Z :=
  match l with
  | x :: (y :: _) as r => if x =? y then dedup r else x :: dedup r
  | _ => l
  end.

Section paging.
Context {PT : Type} `{X86Addr} `{!X86_64 PT}.
Implicit Types (m : Machine PT) (space : AddressSpace).

Definition set_allocator (al : BootInfoFrameAllocator) m : Machine PT :=
  mk_machine (phys_mem_offset m) (kernel_pml4 m) (kernel_mapper m) (Some al) (page_tables m) (memory m).
Definition set_table (root : Z) (pt : PT) m : Machine PT :=
  mk_machine (phys_mem_offset m) (kernel_pml4 m) (kernel_mapper m) (frame_allocator m)
    (<[root := pt]> (page_tables m)) (memory m).
Definition set_memory (mem : Z → byte) m : Machine PT :=
  mk_machine (phys_mem_offset m) (kernel_pml4 m) (kernel_mapper m) (frame_allocator m) (page_tables m) mem.

(** The table [mapper_for(frame)] works on. *)
Definition mapper_for (root : Z) m : PT := default l4_zero (page_tables m !! root).

Definition install (mapper : PT) (al : BootInfoFrameAllocator) (offset cr3 : Z) m : Machine PT :=
  mk_machine offset cr3 (Some mapper) (Some al) (page_tables m) (memory m).

Definition physical_memory_offset m : option Z :=
  if phys_mem_offset m =? 0 then None else Some (phys_mem_offset m).

Definition kernel_pml4_frame m : option Z :=
  if kernel_pml4 m =? 0 then None else Some (page_containing (kernel_pml4 m)).

Definition is_active m : bool := bool_decide (is_Some (kernel_mapper m)).

Definition frame_stats m : option FrameStats :=
  (λ al, {| stat_allocated := frames_allocated al; stat_free_in_pool := frames_in_free_pool al;
            stat_bumped := frames_bumped al |}) <$> frame_allocator m.

Definition can_allocate_frames (required : Z) m : bool :=
  match frame_allocator m with Some al => required <=? frames_available al | None => false end.

Definition frame_count space : Z := zlen (owned_frames space).

(** The loop copying every level-4 entry but the user region's. *)
Definition clone_kernel (kernel_table : PT) : PT :=
  foldl (λ t i, if (Z.of_nat i =? USER_REGION_PML4_INDEX) then t else l4_set i (l4_get i kernel_table) t)
    l4_zero (seq 0 512).

Definition new_address_space : M (Machine PT) AddressSpace :=
  m ← mget;
  _ ← mlift (ok_or (physical_memory_offset m) "physical memory offset not set");
  kernel_table ← mlift (ok_or (kernel_mapper m) "paging not active");
  al ← mlift (ok_or (frame_allocator m) "frame allocator not active");
  let '(frame, al) := allocate_frame al in
  pml4 ← mlift (ok_or frame "out of physical memory frames");
  _ ← mput (set_table pml4 (clone_kernel kernel_table) (set_allocator al m));
  mret (mk_space pml4 [pml4]).

(** [TrackingFrameAllocator::allocate_frame] *)
Definition tracking_allocate (s : BootInfoFrameAllocator * list Z) : option Z * (BootInfoFrameAllocator * list Z) :=
  let '(al, owned) := s in
  match allocate_frame al with
  | (Some frame, al) => (Some frame, (al, owned ++ [frame]))
  | (None, al) => (None, (al, owned))
  end.

(** Operations on one address space of the machine. *)
Abbreviation space_op := (M (Machine PT * AddressSpace)).

Definition on_machine {A} (c : M (Machine PT) A) : space_op A :=
  λ s, let '(r, m) := c s.1 in (r, (m, s.2)).

(** [owned.iter().position(..)] and [owned.remove(pos)] *)
Definition remove_owned (frame : Z) (owned : list Z) : list Z :=
  match position (Z.eqb frame) owned with Some pos => delete pos owned | None => owned end.

Definition map_in_address_space (page : Z) (flags : PageTableFlags) : space_op unit :=
  _ ← mensure (pml4_index page =? USER_REGION_PML4_INDEX)
        "refusing to map outside the process's private address-space region";
  s ← mget;
  let '(m, space) := s in
  _ ← mlift (ok_or (physical_memory_offset m) "physical memory offset not set");
  al ← mlift (ok_or (frame_allocator m) "frame allocator not active");
  let '(frame, (al, owned)) := tracking_allocate (al, owned_frames space) in
  frame ← mlift (ok_or frame "out of physical memory frames");
  let '(ok, pt, (al, owned)) :=
    map_to tracking_allocate page frame flags (mapper_for (pml4_frame space) m) (al, owned) in
  let m := set_table (pml4_frame space) pt m in
  if ok : bool then mput (set_allocator al m, mk_space (pml4_frame space) owned)
  else
    _ ← mput (set_allocator (deallocate_frame frame al) m,
              mk_space (pml4_frame space) (remove_owned frame owned));
    mthrow "page mapping failed: already mapped or invalid page table state".

(** [TrackingFrameDeallocator]: allocator, owned frames, released, mismatch *)
Record TrackingDealloc := mk_dealloc {
  td_inner : BootInfoFrameAllocator;
  td_owned : list Z;
  td_released : Z;
  td_mismatch : bool
}.

Definition tracking_deallocate (frame : Z) (d : TrackingDealloc) : TrackingDealloc :=
  match position (Z.eqb frame) (td_owned d) with
  | None => mk_dealloc (td_inner d) (td_owned d) (td_released d) true
  | Some index =>
      mk_dealloc (deallocate_frame frame (td_inner d)) (delete index (td_owned d)) (td_released d + 1) (td_mismatch d)
  end.

Definition user_end : Z := USER_SPACE_BASE + USER_SPACE_SIZE.

Definition checked_user_virt_addr (raw : Z) : result Z :=
  addr ← ok_or (virt_addr_try_new raw) "non-canonical user address";
  _ ← ensure (addr =? raw) "non-canonical user address";
  user_end ← ok_or (checked_add u64_max USER_SPACE_BASE USER_SPACE_SIZE) "user address-space bound overflow";
  _ ← ensure (negb ((raw <? USER_SPACE_BASE) || (user_end <=? raw))) "address is outside the process user region";
  Ok addr.

Definition clean_up_empty_tables_in_range (raw_start page_count : Z) : space_op Z :=
  _ ← mensure (negb ((page_count =? 0) || negb (raw_start mod 4096 =? 0)))
        "page-table cleanup range must contain aligned whole pages";
  byte_len ← mlift (ok_or (checked_mul u64_max page_count 4096) "page-table cleanup range overflow");
  last ← mlift (ok_or (checked_sub byte_len 1) "empty cleanup range");
  raw_end ← mlift (ok_or (checked_add u64_max raw_start last) "page-table cleanup end overflow");
  start ← mlift (checked_user_virt_addr raw_start);
  end_ ← mlift (checked_user_virt_addr raw_end);
  s ← mget;
  let '(m, space) := s in
  _ ← mlift (ok_or (physical_memory_offset m) "physical memory offset not set");
  al ← mlift (ok_or (frame_allocator m) "frame allocator not active");
  let '(pt, d) :=
    clean_up_addr_range tracking_deallocate (page_containing start) (page_containing end_)
      (mapper_for (pml4_frame space) m) (mk_dealloc al (owned_frames space) 0 false) in
  _ ← mput (set_allocator (td_inner d) (set_table (pml4_frame space) pt m),
            mk_space (pml4_frame space) (td_owned d));
  _ ← mensure (negb (td_mismatch d)) "cleaned page-table frame was not owned by address space";
  mret (td_released d).

Definition translate_in_address_space space (addr : Z) m : option (Z * PageTableFlags) :=
  _ ← physical_memory_offset m;
  match translate (mapper_for (pml4_frame space) m) addr with
  | Mapped frame offset flags => Some (frame + offset, flags)
  | NotMapped | InvalidFrameAddress => None
  end.

(** The loop of [validate_user_range]; [fuel] bounds its iterations. *)
Fixpoint validate_loop (fuel : nat) space (raw_start len : Z) (require_writable : bool) (checked : Z) m : result unit :=
  if len <=? checked then Ok tt
  else
    match fuel with
    | 0%nat => Err "out of fuel"
    | S fuel =>
        raw ← ok_or (checked_add u64_max raw_start checked) "user range arithmetic overflow";
        addr ← ok_or (virt_addr_try_new raw) "non-canonical user address";
        _ ← ensure (addr =? raw) "non-canonical user address";
        t ← ok_or (translate_in_address_space space addr m) "user range contains an unmapped page";
        let flags := t.2 in
        _ ← ensure (PRESENT flags) "user range contains a non-present page";
        _ ← ensure (USER_ACCESSIBLE flags) "user range contains a supervisor-only page";
        _ ← ensure (negb (require_writable && negb (WRITABLE flags))) "user range contains a read-only page";
        let page_offset := raw mod 4096 in
        validate_loop fuel space raw_start len require_writable
          (checked + Z.min (4096 - page_offset) (len - checked)) m
    end.

(** One iteration per page touched. *)
Definition range_fuel (len : Z) : nat := Z.to_nat (len / 4096 + 2).

Definition validate_user_range space (raw_start len : Z) (require_writable : bool) m : result Z :=
  start ← checked_user_virt_addr raw_start;
  end_ ← ok_or (checked_add u64_max raw_start len) "user range arithmetic overflow";
  user_end ← ok_or (checked_add u64_max USER_SPACE_BASE USER_SPACE_SIZE) "user address-space bound overflow";
  _ ← ensure (negb (user_end <? end_)) "user range leaves the process user region";
  if len =? 0 then Ok start
  else
    _ ← validate_loop (range_fuel len) space raw_start len require_writable 0 m;
    Ok start.

Definition update_flags_in_address_space space (page : Z) (flags : PageTableFlags) : M (Machine PT) unit :=
  m ← mget;
  _ ← mlift (ok_or (physical_memory_offset m) "physical memory offset not set");
  let '(ok, pt) := update_flags page flags (mapper_for (pml4_frame space) m) in
  _ ← mput (set_table (pml4_frame space) pt m);
  mensure ok "flag update failed: page not mapped".

(** [f written dst chunk_len]: what the closure does to memory at the chunk
    [written] bytes into the range. *)
Fixpoint chunk_loop (fuel : nat) space (start len : Z) (f : Z → Z → Z → (Z → byte) → Z → byte) (written : Z)
    : M (Machine PT) unit :=
  if len <=? written then mret tt
  else
    match fuel with
    | 0%nat => mthrow "out of fuel"
    | S fuel =>
        let addr := start + written in
        m ← mget;
        t ← mlift (ok_or (translate_in_address_space space addr m) "destination page not mapped in this address space");
        let '(phys, flags) := t in
        _ ← mensure (WRITABLE flags) "destination page not writable";
        _ ← mensure (USER_ACCESSIBLE flags) "destination page not user-accessible";
        let page_offset := addr mod 4096 in
        let chunk_len := Z.min (4096 - page_offset) (len - written) in
        _ ← mput (set_memory (f written phys chunk_len (memory m)) m);
        chunk_loop fuel space start len f (written + chunk_len)
    end.

Definition for_each_mapped_chunk space (start len : Z) (f : Z → Z → Z → (Z → byte) → Z → byte)
    : M (Machine PT) unit :=
  m ← mget;
  _ ← mlift (validate_user_range space start len true m);
  _ ← mlift (ok_or (physical_memory_offset m) "physical memory offset not set");
  chunk_loop (range_fuel len) space start len f 0.

(** [copy_nonoverlapping(bytes, dst, len)] on physical memory *)
Definition store_bytes (dst : Z) (bs : list byte) (mem : Z → byte) : Z → byte :=
  λ a, if (dst <=? a) && (a <? dst + zlen bs) then nth (Z.to_nat (a - dst)) bs Byte.x00 else mem a.
Definition load_bytes (src : Z) (len : nat) (mem : Z → byte) : list byte :=
  (λ i, mem (src + Z.of_nat i)) <$> seq 0 len.

Definition write_bytes_in_address_space space (dest : Z) (data : list byte) : M (Machine PT) unit :=
  for_each_mapped_chunk space dest (zlen data)
    (λ src_offset dst chunk_len,
       store_bytes dst (slice data (Z.to_nat src_offset) (Z.to_nat (src_offset + chunk_len)))).

Definition zero_bytes_in_address_space space (dest len : Z) : M (Machine PT) unit :=
  for_each_mapped_chunk space dest len
    (λ _ dst chunk_len, store_bytes dst (replicate (Z.to_nat chunk_len) Byte.x00)).

(** The copy loop; the bytes read so far are the filled prefix of [out]. *)
Fixpoint read_loop (fuel : nat) space (src len read : Z) m : result (list byte) :=
  if len <=? read then Ok []
  else
    match fuel with
    | 0%nat => Err "out of fuel"
    | S fuel =>
        let addr := src + read in
        t ← ok_or (translate_in_address_space space addr m) "source page not mapped";
        let '(phys, flags) := t in
        _ ← ensure (USER_ACCESSIBLE flags) "source page not user-accessible";
        let page_offset := addr mod 4096 in
        let chunk_len := Z.min (4096 - page_offset) (len - read) in
        rest ← read_loop fuel space src len (read + chunk_len) m;
        Ok (load_bytes phys (Z.to_nat chunk_len) (memory m) ++ rest)
    end.

Definition read_bytes_from_address_space_into space (src len : Z) m : result (list byte) :=
  _ ← ok_or (physical_memory_offset m) "physical memory offset not set";
  _ ← validate_user_range space src len false m;
  read_loop (range_fuel len) space src len 0 m.

(** ** Unmapping *)

Definition no_frames (u : unit) : option Z * unit := (None, u).

Fixpoint collect_loop (n : nat) space (raw : Z) m : result (list UnmapRecord) :=
  match n with
  | 0%nat => Ok []
  | S n =>
      addr ← ok_or (virt_addr_try_new raw) "non-canonical unmap address";
      t ← ok_or (translate_in_address_space space addr m) "unmap range contains an unmapped page";
      let '(phys, flags) := t in
      frame ← ok_or (frame_from_start_address phys) "unmap translation was not frame-aligned";
      raw ← ok_or (checked_add u64_max raw 4096) "unmap address overflow";
      rest ← collect_loop n space raw m;
      Ok (mk_record (page_containing addr) frame flags :: rest)
  end.

(** The records pushed onto [out]. *)
Definition collect_unmap_records space (raw_start page_count : Z) m : result (list UnmapRecord) :=
  _ ← ensure (negb ((page_count =? 0) || negb (raw_start mod 4096 =? 0)))
        "unmap range must contain aligned whole pages";
  byte_len ← ok_or (checked_mul u64_max page_count 4096) "unmap range length overflow";
  _ ← validate_user_range space raw_start byte_len false m;
  collect_loop (Z.to_nat page_count) space raw_start m.

Definition unmap_record_frames (records : list UnmapRecord) : option (list Z) :=
  let frames := dedup (sort_by Z.leb (rec_frame <$> records)) in
  if (length frames =? length records)%nat then Some frames else None.

Definition owned_frame_snapshot space : list Z := owned_frames space.

(** [binary_search] in a sorted list is membership. *)
Fixpoint planned (index : nat) (snapshot sorted_frames : list Z) : list OwnershipRemoval :=
  match snapshot with
  | [] => []
  | frame :: rest =>
      (if bool_decide (frame ∈ sorted_frames) then [mk_removal index frame] else [])
      ++ planned (S index) rest sorted_frames
  end.

Definition plan_unmap_ownership (snapshot sorted_frames : list Z) : option (list OwnershipRemoval) :=
  let removals := planned 0 snapshot sorted_frames in
  if (length removals =? length sorted_frames)%nat
  then Some (sort_by (λ l r, (rem_index r <=? rem_index l)%nat) removals) else None.

(** How many records were unmapped before the first failure. *)
Fixpoint unmap_loop (records : list UnmapRecord) (pt : PT) : nat * PT :=
  match records with
  | [] => (0%nat, pt)
  | r :: rest =>
      match unmap (rec_page r) pt with
      | (Some actual, pt) =>
          if actual =? rec_frame r then let '(n, pt) := unmap_loop rest pt in (S n, pt)
          else let '(_, pt, _) := map_to no_frames (rec_page r) actual (rec_flags r) pt tt in (0%nat, pt)
      | (None, pt) => (0%nat, pt)
      end
  end.

(** Map the records again with an allocator that has no frames. *)
Fixpoint remap_loop (records : list UnmapRecord) (pt : PT) : bool * PT :=
  match records with
  | [] => (true, pt)
  | r :: rest =>
      let '(ok, pt, _) := map_to no_frames (rec_page r) (rec_frame r) (rec_flags r) pt tt in
      if ok then remap_loop rest pt else (false, pt)
  end.

Definition unmap_records_atomic space (records : list UnmapRecord) : M (Machine PT) unit :=
  if bool_decide (records = []) then mret tt
  else
    m ← mget;
    _ ← mlift (ok_or (physical_memory_offset m) "physical memory offset not set");
    let '(removed, pt) := unmap_loop records (mapper_for (pml4_frame space) m) in
    if (removed =? length records)%nat then mput (set_table (pml4_frame space) pt m)
    else
      let '(ok, pt) := remap_loop (reverse (take removed records)) pt in
      _ ← mput (set_table (pml4_frame space) pt m);
      _ ← mensure ok "failed to restore atomic unmap batch";
      mthrow "atomic unmap batch failed; removed prefix was restored".

Definition restore_unmap_records space (records : list UnmapRecord) : M (Machine PT) unit :=
  m ← mget;
  _ ← mlift (ok_or (physical_memory_offset m) "physical memory offset not set");
  let '(ok, pt) := remap_loop records (mapper_for (pml4_frame space) m) in
  _ ← mput (set_table (pml4_frame space) pt m);
  mensure ok "failed to restore unmap transaction".

Fixpoint remove_unmapped (removals : list OwnershipRemoval) (owned : list Z) : bool * list Z :=
  match removals with
  | [] => (true, owned)
  | r :: rest =>
      if bool_decide (owned !! rem_index r = Some (rem_frame r))
      then remove_unmapped rest (delete (rem_index r) owned) else (false, owned)
  end.

Definition remove_unmapped_ownership (removals : list OwnershipRemoval) : space_op bool :=
  s ← mget;
  let '(ok, owned) := remove_unmapped removals (owned_frames s.2) in
  _ ← mput (s.1, mk_space (pml4_frame s.2) owned);
  mret ok.

Definition release_frames (frames : list Z) : M (Machine PT) unit :=
  m ← mget;
  al ← mlift (ok_or (frame_allocator m) "frame allocator not active");
  mput (set_allocator (foldl (λ al f, deallocate_frame f al) al frames) m).

Definition unmap_range_in_address_space_atomic (raw_start page_count : Z) : space_op unit :=
  s ← mget;
  records ← mlift (collect_unmap_records s.2 raw_start page_count s.1);
  frames ← mlift (ok_or (unmap_record_frames records) "duplicate frame in unmap transaction");
  removals ← mlift (ok_or (plan_unmap_ownership (owned_frame_snapshot s.2) frames)
                      "unmap range contains a frame not owned by this address space");
  _ ← on_machine (unmap_records_atomic s.2 records);
  ok ← remove_unmapped_ownership removals;
  if ok : bool then on_machine (release_frames frames)
  else
    _ ← on_machine (restore_unmap_records s.2 records);
    mthrow "unmapped leaf frame missing from address-space ownership".

Definition free_address_space space m : Machine PT :=
  match frame_allocator m with
  | Some al => set_allocator (foldl (λ al f, deallocate_frame f al) al (owned_frames space)) m
  | None => m
  end.
End paging.
