(* ===== verification/PagingSpaces.v ===== *)
(** Ownership of physical frames across address spaces: every operation of
    Paging.v keeps each frame with exactly one owner, maps and unmaps exactly
    what it says, and changes nothing when it fails. *)

From S2P Require Import Prelude X86 Frames Paging.

(** The frames taken for the kernel heap before the allocator was installed;
    they are never given back. *)
Class KernelFrames := kernel_frames : list Z.

Section spaces.
Context {PT : Type} `{!BootMap, !KernelFrames, !X86Addr, !X86AddrSpec, !X86_64 PT, !X86_64Spec PT USER_REGION_PML4_INDEX}.
Implicit Types (m : Machine PT) (space : AddressSpace).

(** A page number inside the user region's level-4 slot. *)
Abbreviation in_user_slot := (in_slot USER_REGION_PML4_INDEX).

Definition leaf_frames (pt : PT) : list Z := fst <$> (map_to_list (leaves pt)).*2.

(** The mappings of a space. *)
Definition space_leaves space m : gmap Z (Z * PageTableFlags) := leaves (mapper_for (pml4_frame space) m).

(** A space owns exactly its root, its tables and its mapped frames. *)
Definition space_ok m space : Prop :=
  pt_ok (mapper_for (pml4_frame space) m) ∧
  owned_frames space ≡ₚ
    pml4_frame space :: tables (mapper_for (pml4_frame space) m) ++ leaf_frames (mapper_for (pml4_frame space) m).

(** The live spaces of a booted machine: no frame is lost or shared. *)
Record machine_ok m (spaces : list AddressSpace) : Prop := {
  ok_offset : phys_mem_offset m ≠ 0;
  ok_kernel : is_Some (kernel_mapper m);
  ok_alloc : ∃ al, frame_allocator m = Some al ∧ conserves al ((spaces ≫= owned_frames) ++ kernel_frames);
  ok_spaces : Forall (space_ok m) spaces
}.

Lemma machine_ok_perm m s1 s2 : s1 ≡ₚ s2 → machine_ok m s1 → machine_ok m s2.
Proof.
  intros Hp [Ho Hk (al&Ha&Hc) Hs]. constructor; [done|done| |by rewrite <- Hp].
  exists al. split; [done|]. by rewrite <- Hp.
Qed.

(** What an operation on the space rooted at [root] leaves alone. *)
Record frame_rest (root : Z) m m' : Prop := {
  fr_offset : phys_mem_offset m' = phys_mem_offset m;
  fr_kernel : kernel_mapper m' = kernel_mapper m;
  fr_root : kernel_pml4 m' = kernel_pml4 m;
  fr_tables : ∀ r, r ≠ root → mapper_for r m' = mapper_for r m;
  fr_memory : memory m' = memory m
}.

Lemma mapper_for_set root pt m : mapper_for root (set_table root pt m) = pt.
Proof. unfold mapper_for. simpl. by rewrite lookup_insert_eq. Qed.

Lemma mapper_for_alloc root pt al m : mapper_for root (set_allocator al (set_table root pt m)) = pt.
Proof. apply mapper_for_set. Qed.

Lemma frame_rest_set root pt al m : frame_rest root m (set_allocator al (set_table root pt m)).
Proof.
  constructor; [done|done|done| |done]. intros r Hr. unfold mapper_for. simpl. by rewrite lookup_insert_ne.
Qed.

Lemma space_ok_other root m m' space :
  frame_rest root m m' → pml4_frame space ≠ root → space_ok m space → space_ok m' space.
Proof. intros Hf Hne [Hok Hp]. unfold space_ok. by rewrite !(fr_tables _ _ _ Hf). Qed.

Lemma root_owned m space : space_ok m space → pml4_frame space ∈ owned_frames space.
Proof. intros [_ Hp]. rewrite Hp. set_solver. Qed.

Lemma other_roots m space rest : machine_ok m (space :: rest) →
  Forall (λ s, pml4_frame s ≠ pml4_frame space) rest.
Proof.
  intros [_ _ (al&_&Hc) Hs]. apply conserves_NoDup in Hc. simpl in Hc.
  apply Forall_cons in Hs as [Hs Hrest]. rewrite Forall_forall in Hrest |- *. intros s Hin E.
  rewrite <- !app_assoc in Hc. apply NoDup_app in Hc as (_&Hd&_). apply (Hd (pml4_frame space)).
  - by eapply root_owned.
  - apply elem_of_app. left. apply list_elem_of_bind. exists s.
    split; [rewrite <- E; eapply root_owned; eauto|done].
Qed.

(** Rebuild [machine_ok] after an operation on one space. *)
Lemma machine_ok_step m m' space space' rest al' :
  machine_ok m (space :: rest) → frame_rest (pml4_frame space) m m' →
  pml4_frame space' = pml4_frame space → frame_allocator m' = Some al' →
  conserves al' (owned_frames space' ++ (rest ≫= owned_frames) ++ kernel_frames) → space_ok m' space' →
  machine_ok m' (space' :: rest).
Proof.
  intros Hok Hf Hroot Ha Hc Hs. pose proof (other_roots _ _ _ Hok) as Hne. destruct Hok as [Ho Hk _ Hss].
  constructor.
  - by rewrite (fr_offset _ _ _ Hf).
  - by rewrite (fr_kernel _ _ _ Hf).
  - exists al'. split; [done|]. by rewrite bind_cons, <- app_assoc.
  - apply Forall_cons in Hss as [_ Hss]. constructor; [done|]. rewrite Forall_forall in *. intros s Hin.
    eapply space_ok_other; [exact Hf| |by apply Hss]. by apply Hne.
Qed.

Lemma offset_some m spaces : machine_ok m spaces → ∃ o, physical_memory_offset m = Some o.
Proof.
  intros [Ho _ _ _]. unfold physical_memory_offset. apply Z.eqb_neq in Ho. rewrite Ho. eauto.
Qed.

(** ** Addresses *)

Lemma user_slot_region a : USER_SPACE_BASE <= a < user_end → in_user_slot a ∧ 0 <= a < 2 ^ 47.
Proof.
  unfold in_slot, user_end. change USER_REGION_PML4_INDEX with 224.
  unfold USER_SPACE_BASE, USER_SPACE_SIZE. lia.
Qed.

Lemma checked_user_virt_addr_Ok raw a :
  checked_user_virt_addr raw = Ok a ↔ a = raw ∧ USER_SPACE_BASE <= raw < user_end.
Proof.
  unfold checked_user_virt_addr.
  change (checked_add u64_max USER_SPACE_BASE USER_SPACE_SIZE) with (Some user_end). split.
  - destruct (virt_addr_try_new raw) as [b|] eqn:Eb; [|done].
    cbn [ok_or mbind result_bind]. unfold ensure. destruct (Z.eqb_spec b raw) as [->|]; [|done].
    cbn [mbind result_bind]. destruct (Z.ltb_spec raw USER_SPACE_BASE), (Z.leb_spec user_end raw); try done.
    simpl. intros [= ->]. done.
  - intros [-> Hr]. rewrite virt_addr_low by (by apply user_slot_region).
    cbn [ok_or mbind result_bind]. unfold ensure. rewrite Z.eqb_refl. cbn [mbind result_bind].
    rewrite (proj2 (Z.ltb_ge _ _)), (proj2 (Z.leb_gt _ _)) by lia. done.
Qed.

(** The page of a canonical address with the user region's index. *)
Lemma pml4_index_slot p : 0 <= p < 2 ^ 47 ∨ 2 ^ 64 - 2 ^ 47 <= p < 2 ^ 64 →
  pml4_index p = USER_REGION_PML4_INDEX → in_user_slot p.
Proof.
  change USER_REGION_PML4_INDEX with 224. unfold pml4_index, in_slot.
  change 0x1FF with (Z.ones 9). rewrite Z.land_ones, Z.shiftr_div_pow2 by lia.
  change (2 ^ 9) with 512. intros Hp Hi.
  assert (p / 2 ^ 39 = 224).
  { destruct Hp as [Hp|Hp].
    - rewrite Z.mod_small in Hi; [done|]. split; [apply Z.div_pos; lia|].
      apply Z.div_lt_upper_bound; lia.
    - assert (2 ^ 25 - 256 <= p / 2 ^ 39 < 2 ^ 25) as Hq.
      { split; [apply Z.div_le_lower_bound; lia|apply Z.div_lt_upper_bound; lia]. }
      exfalso. set (q := p / 2 ^ 39) in *. clearbody q. Z.to_euclidean_division_equations; lia. }
  split; [lia|]. pose proof (Z.div_mod p (2 ^ 39) ltac:(lia)) as E.
  pose proof (Z.mod_pos_bound p (2 ^ 39) ltac:(lia)). lia.
Qed.

(** ** Allocation with tracking *)

Lemma tracking_allocs al owned new al' owned' :
  allocs tracking_allocate (al, owned) new (al', owned') →
  owned' = owned ++ new ∧ allocs allocate_frame al new al'.
Proof.
  intros Ha. remember (al, owned) as s. remember (al', owned') as s'.
  revert al owned Heqs Heqs'. induction Ha as [s|s f s1 l s2 Hf _ IH|s s1 l s2 Hf _ IH]; intros al owned -> E.
  - injection E as -> ->. rewrite app_nil_r. split; [done|constructor].
  - destruct s1 as [al1 owned1]. unfold tracking_allocate in Hf.
    destruct (allocate_frame al) as [[g|] al2] eqn:Ea; [|done]. injection Hf as -> -> <-.
    destruct (IH _ _ eq_refl E) as [-> IHa]. rewrite <- app_assoc. split; [done|by econstructor].
  - destruct s1 as [al1 owned1]. unfold tracking_allocate in Hf.
    destruct (allocate_frame al) as [[g|] al2] eqn:Ea; [done|]. injection Hf as -> ->.
    destruct (IH _ _ eq_refl E) as [-> IHa]. split; [done|by eapply allocs_none].
Qed.

Lemma remove_owned_perm f owned : f ∈ owned → f :: remove_owned f owned ≡ₚ owned.
Proof.
  intros Hf. unfold remove_owned. destruct (position _ owned) as [pos|] eqn:E.
  - apply position_Some in E as (x&Hx&He&_). apply Z.eqb_eq in He as <-.
    symmetry. by apply delete_Permutation.
  - rewrite position_None in E. specialize (E f Hf). by rewrite Z.eqb_refl in E.
Qed.

Lemma leaf_frames_insert pt pt' p f fl :
  leaves pt !! p = None → leaves pt' = <[p := (f, fl)]> (leaves pt) → leaf_frames pt' ≡ₚ f :: leaf_frames pt.
Proof. intros Hn Hl. unfold leaf_frames. by rewrite Hl, map_to_list_insert. Qed.

Lemma leaf_frames_eq pt pt' : leaves pt' = leaves pt → leaf_frames pt' = leaf_frames pt.
Proof. intros Hl. unfold leaf_frames. by rewrite Hl. Qed.

(** Mapping one page: on success the page alone is added, on failure nothing
    changes but tables that may have been built, and no frame is lost. *)
Lemma map_in_address_space_spec page flags m space rest :
  machine_ok m (space :: rest) → page mod 4096 = 0 →
  0 <= page < 2 ^ 47 ∨ 2 ^ 64 - 2 ^ 47 <= page < 2 ^ 64 →
  let '(r, (m', space')) := map_in_address_space page flags (m, space) in
  machine_ok m' (space' :: rest) ∧ pml4_frame space' = pml4_frame space ∧ frame_rest (pml4_frame space) m m' ∧
  match r with
  | Ok _ => space_leaves space m !! page = None ∧
            ∃ f, space_leaves space' m' = <[page := (f, flags)]> (space_leaves space m)
  | Err _ => space_leaves space' m' = space_leaves space m
  end.
Proof.
  intros Hok Hal Hcan. destruct (offset_some _ _ Hok) as [o Ho]. pose proof Hok as [_ _ (al&Ha&Hc) Hs].
  apply Forall_cons in Hs as [[Hpt Hp] _]. rewrite bind_cons, <- app_assoc in Hc.
  unfold map_in_address_space, mbind, M_bind, mensure, mlift, ensure, mget.
  destruct (Z.eqb_spec (pml4_index page) USER_REGION_PML4_INDEX) as [Hi|_]; [|by split_and!].
  pose proof (pml4_index_slot page Hcan Hi) as Hslot. cbn beta iota. rewrite Ho, Ha. cbn [ok_or].
  unfold tracking_allocate at 1. pose proof (allocate_spec al _ Hc) as Hal1.
  destruct (allocate_frame al) as [[f|] al1]; cbn [ok_or].
  2:{ by split_and!. }
  assert (f mod 4096 = 0) as Hf by (eapply conserves_aligned; [exact Hal1|set_solver]).
  pose proof (map_to_spec tracking_allocate page f flags (mapper_for (pml4_frame space) m)
    (al1, owned_frames space ++ [f]) Hpt Hslot Hal Hf) as Hm.
  destruct (map_to _ _ _ _ _ _) as [[ok pt] [al2 owned2]]. destruct Hm as (new&Hallocs&Hpt'&Htab&_&Hleaf).
  apply tracking_allocs in Hallocs as [-> Hallocs].
  apply (allocs_conserves _ _ _ _ Hallocs) in Hal1. unfold space_leaves.
  destruct ok.
  - destruct Hleaf as [Hnone Hleaf]. cbn [mput pml4_frame]. rewrite mapper_for_alloc.
    split_and!; [|done|apply frame_rest_set|done|by exists f].
    eapply machine_ok_step; [exact Hok|apply frame_rest_set|done|done| |].
    + simpl. eapply conserves_perm; [|exact Hal1]. solve_Permutation.
    + unfold space_ok; cbn [pml4_frame owned_frames]; rewrite mapper_for_alloc; split; [done|].
      rewrite Htab, (leaf_frames_insert _ _ _ _ _ Hnone Hleaf), Hp. solve_Permutation.
  - cbn [mput mthrow pml4_frame]. rewrite mapper_for_alloc. split_and!; [|done|apply frame_rest_set|done].
    assert (f :: remove_owned f ((owned_frames space ++ [f]) ++ new) ≡ₚ f :: owned_frames space ++ new) as Hrem
      by (rewrite remove_owned_perm by set_solver; solve_Permutation).
    apply (inj (cons f)) in Hrem.
    eapply machine_ok_step; [exact Hok|apply frame_rest_set|done|done| |].
    + simpl. apply deallocate_spec. eapply conserves_perm; [|exact Hal1]. rewrite Hrem. solve_Permutation.
    + unfold space_ok; cbn [pml4_frame owned_frames]; rewrite mapper_for_alloc; split; [done|]. rewrite Hrem, Htab, (leaf_frames_eq _ _ Hleaf), Hp.
      solve_Permutation.
Qed.

(** ** Creating, cleaning and freeing spaces *)

Lemma clone_kernel_spec kernel_table :
  pt_ok (clone_kernel kernel_table) ∧ leaves (clone_kernel kernel_table) = ∅ ∧ tables (clone_kernel kernel_table) = [].
Proof.
  unfold clone_kernel. generalize (seq 0 512) as idxs. intros idxs.
  assert (∀ t, pt_ok t ∧ leaves t = ∅ ∧ tables t = [] →
    let t' := foldl (λ t i, if Z.of_nat i =? USER_REGION_PML4_INDEX then t else l4_set i (l4_get i kernel_table) t) t idxs in
    pt_ok t' ∧ leaves t' = ∅ ∧ tables t' = []) as Hfold; [|apply Hfold, l4_zero_spec].
  induction idxs as [|i idxs IH]; intros t (Hok&Hl&Ht); simpl; [done|]. apply IH.
  destruct (Z.eqb_spec (Z.of_nat i) USER_REGION_PML4_INDEX); [done|].
  destruct (l4_set_spec i (l4_get i kernel_table) t Hok n) as (?&->&->). done.
Qed.

(** A new space owns one frame and maps nothing. *)
Lemma new_address_space_spec m rest : machine_ok m rest →
  match new_address_space m with
  | (Ok space, m') =>
      machine_ok m' (space :: rest) ∧ space_leaves space m' = ∅ ∧ owned_frames space = [pml4_frame space] ∧
      frame_rest (pml4_frame space) m m'
  | (Err _, m') => m' = m
  end.
Proof.
  intros Hok. destruct (offset_some _ _ Hok) as [o Ho]. pose proof Hok as [Hoff [k Hk] (al&Ha&Hc) Hs].
  unfold new_address_space, mbind, M_bind, mlift, mget. rewrite Ho, Hk, Ha. cbn [ok_or].
  pose proof (allocate_spec al _ Hc) as Hal. destruct (allocate_frame al) as [[f|] al1]; cbn [ok_or]; [|done].
  cbn [mput mret M_ret]. destruct (clone_kernel_spec k) as (Hpt&Hl&Ht).
  set (m' := set_table f (clone_kernel k) (set_allocator al1 m)).
  assert (mapper_for f m' = clone_kernel k) as Hm' by apply mapper_for_set.
  assert (frame_rest f m m') as Hrest.
  { constructor; [done|done|done| |done]. intros r Hr. unfold mapper_for. simpl. by rewrite lookup_insert_ne. }
  unfold space_leaves. cbn [pml4_frame owned_frames]. rewrite Hm'. split_and!; [|done..].
  constructor; [done|by exists k|by exists al1|]. constructor.
  - unfold space_ok. cbn [pml4_frame owned_frames]. rewrite Hm', Ht. split; [done|].
    unfold leaf_frames. by rewrite Hl, map_to_list_empty.
  - rewrite Forall_forall in Hs |- *. intros s Hin. eapply space_ok_other; [exact Hrest| |by apply Hs].
    intros E. apply conserves_NoDup in Hal. simpl in Hal. apply NoDup_cons in Hal as [Hn _]. apply Hn.
    rewrite <- app_assoc. apply elem_of_app. left. apply list_elem_of_bind. exists s. split; [|done].
    rewrite <- E. by apply (root_owned m), Hs.
Qed.

(** Freeing a space returns all its frames. *)
Lemma free_address_space_spec m space rest :
  machine_ok m (space :: rest) → machine_ok (free_address_space space m) rest.
Proof.
  intros [Ho Hk (al&Ha&Hc) Hs]. unfold free_address_space. rewrite Ha. apply Forall_cons in Hs as [_ Hs].
  constructor; [done|done| |done]. eexists. split; [reflexivity|]. apply deallocate_all.
  by rewrite bind_cons, <- app_assoc in Hc.
Qed.

Lemma tracking_dealloc_spec removed kept others al owned n :
  conserves al (owned ++ others) → owned ≡ₚ removed ++ kept →
  let d := foldl (λ a f, tracking_deallocate f a) (mk_dealloc al owned n false) removed in
  conserves (td_inner d) (td_owned d ++ others) ∧ td_owned d ≡ₚ kept ∧ td_mismatch d = false ∧
  td_released d = n + zlen removed.
Proof.
  revert al owned n. induction removed as [|f removed IH]; intros al owned n Hc Hp; simpl.
  { rewrite zlen_nil, Z.add_0_r. done. }
  destruct (position (Z.eqb f) owned) as [i|] eqn:E.
  2:{ rewrite position_None in E. specialize (E f). rewrite Z.eqb_refl in E.
      enough (f ∈ owned) as Hin by (by specialize (E Hin)). rewrite Hp. set_solver. }
  pose proof (remove_owned_perm f owned) as Hrem. unfold remove_owned in Hrem. rewrite E in Hrem.
  specialize (Hrem ltac:(rewrite Hp; set_solver)).
  assert (tracking_deallocate f (mk_dealloc al owned n false)
    = mk_dealloc (deallocate_frame f al) (delete i owned) (n + 1) false) as ->
    by (unfold tracking_deallocate; simpl; by rewrite E).
  replace (n + zlen (f :: removed)) with (n + 1 + zlen removed) by (rewrite zlen_cons; lia).
  apply IH.
  - apply deallocate_spec. eapply conserves_perm; [|exact Hc].
    change (f :: delete i owned ++ others) with ((f :: delete i owned) ++ others). by rewrite Hrem.
  - apply (inj (cons f)). by rewrite Hrem, Hp.
Qed.

(** A clean-up request for whole pages of the user region. *)
Definition clean_request_ok (start count : Z) : Prop :=
  0 < count ∧ start mod 4096 = 0 ∧ USER_SPACE_BASE <= start ∧ start + 4096 * count <= user_end.

(** None of the checks refuses such a request. *)
Lemma clean_request_checks start count : clean_request_ok start count →
  (count =? 0) || negb (start mod 4096 =? 0) = false ∧ checked_mul u64_max count 4096 = Some (count * 4096) ∧
  checked_sub (count * 4096) 1 = Some (count * 4096 - 1) ∧
  checked_add u64_max start (count * 4096 - 1) = Some (start + (count * 4096 - 1)) ∧
  checked_user_virt_addr start = Ok start ∧ checked_user_virt_addr (start + (count * 4096 - 1)) = Ok (start + (count * 4096 - 1)).
Proof.
  intros (?&Hal&?&He). assert (user_end <= u64_max) as Hu by done. assert (0 <= USER_SPACE_BASE) as Hb by done.
  split_and!.
  - rewrite Hal, (proj2 (Z.eqb_neq _ _)) by lia. done.
  - apply checked_mul_Some. lia.
  - apply checked_sub_Some. lia.
  - apply checked_add_Some. lia.
  - apply checked_user_virt_addr_Ok. lia.
  - apply checked_user_virt_addr_Ok. lia.
Qed.

(** Cleaning up returns empty tables only: mappings stay, no frame is lost. *)
Lemma clean_up_spec' start count m space rest :
  machine_ok m (space :: rest) →
  let '(r, (m', space')) := clean_up_empty_tables_in_range start count (m, space) in
  machine_ok m' (space' :: rest) ∧ pml4_frame space' = pml4_frame space ∧ frame_rest (pml4_frame space) m m' ∧
  space_leaves space' m' = space_leaves space m ∧
  match r with
  | Ok n => 0 <= n ∧ frame_count space = frame_count space' + n
  | Err _ => m' = m ∧ space' = space ∧ ¬ clean_request_ok start count
  end.
Proof.
  intros Hok. destruct (offset_some _ _ Hok) as [o Ho]. pose proof Hok as [_ _ (al&Ha&Hc) Hs].
  apply Forall_cons in Hs as [[Hpt Hp] _]. rewrite bind_cons, <- app_assoc in Hc.
  unfold clean_up_empty_tables_in_range, mbind, M_bind, mensure, mlift, ensure, mget.
  pose proof (clean_request_checks start count) as Hreq.
  destruct ((count =? 0) || _); cbn [negb]; cbn beta iota; [by split_and!; try done; intros (?&_)%Hreq|].
  destruct (checked_mul _ _ _) as [len|]; cbn [ok_or]; [|by split_and!; try done; intros (_&?&_)%Hreq].
  destruct (checked_sub len 1) as [lst|] eqn:E1; cbn [ok_or];
    [|split_and!; try done; intros (_&[= ->]&?&_)%Hreq; congruence].
  destruct (checked_add _ start lst) as [raw_end|] eqn:E2; cbn [ok_or];
    [|split_and!; try done; intros (_&[= ->]&?&?&_)%Hreq; congruence].
  destruct (checked_user_virt_addr start) as [a|] eqn:Est; [|by split_and!; try done; intros (_&_&_&_&?&_)%Hreq].
  apply checked_user_virt_addr_Ok in Est as [-> [Hs1 _]%user_slot_region].
  destruct (checked_user_virt_addr raw_end) as [a|] eqn:Een;
    [|split_and!; try done; intros (_&[= ->]&?&?&_&?)%Hreq; congruence].
  apply checked_user_virt_addr_Ok in Een as [-> [Hs2 _]%user_slot_region]. rewrite Ho, Ha. cbn [ok_or].
  pose proof (clean_up_spec tracking_deallocate (page_containing start) (page_containing raw_end)
    (mapper_for (pml4_frame space) m) (mk_dealloc al (owned_frames space) 0 false) Hpt
    ltac:(rewrite page_align; by apply align_down_slot) ltac:(rewrite page_align; by apply align_down_slot)) as Hcl.
  destruct (clean_up_addr_range _ _ _ _ _) as [pt d]. destruct Hcl as (removed&->&Hpt'&Htab&Hleaf).
  destruct (tracking_dealloc_spec removed (pml4_frame space :: tables pt ++ leaf_frames pt)
    ((rest ≫= owned_frames) ++ kernel_frames) al (owned_frames space) 0 Hc) as (Hc'&Hp'&Hmis&Hrel).
  { rewrite Hp, Htab, (leaf_frames_eq _ _ Hleaf). solve_Permutation. }
  set (d := foldl _ _ _) in *. cbn [mput]. rewrite Hmis. cbn [negb mret M_ret pml4_frame].
  unfold space_leaves. cbn [pml4_frame]. rewrite mapper_for_alloc. split_and!; [|done|apply frame_rest_set|done| |].
  - eapply machine_ok_step; [exact Hok|apply frame_rest_set|done|done|exact Hc'|].
    unfold space_ok. cbn [pml4_frame owned_frames]. by rewrite mapper_for_alloc.
  - rewrite Hrel. pose proof (zlen_nonneg removed). lia.
  - unfold frame_count. cbn [owned_frames]. rewrite Hrel. unfold zlen.
    apply Permutation_length in Hp, Hp', Htab. rewrite (leaf_frames_eq _ _ Hleaf) in Hp'.
    simpl in Hp, Hp'. rewrite length_app in *. lia.
Qed.
End spaces.
