(* ===== verification/PagingRange.v ===== *)
(** User ranges: what [validate_user_range] accepts, and the transactional
    unmapping of a range. *)

From S2P Require Import Prelude X86 Frames Paging PagingSpaces.

(** ** Page-sized chunks *)

(** Bytes from [raw] to the end of its page or of the range. *)
Definition chunk (raw rem : Z) : Z := Z.min (4096 - raw mod 4096) rem.

(** Pages touched by [raw, end_). *)
Definition pages_left (raw end_ : Z) : Z := if raw <? end_ then (end_ - 1) / 4096 - raw / 4096 + 1 else 0.

Lemma chunk_pos raw rem : 0 < rem → 0 < chunk raw rem <= rem.
Proof. unfold chunk. pose proof (Z.mod_pos_bound raw 4096). lia. Qed.

Lemma chunk_page raw rem a : raw <= a < raw + chunk raw rem →
  align_down a = align_down raw ∧ a mod 4096 = raw mod 4096 + (a - raw).
Proof. unfold chunk, align_down. Z.to_euclidean_division_equations. lia. Qed.

Lemma pages_left_chunk raw end_ : raw < end_ →
  pages_left (raw + chunk raw (end_ - raw)) end_ = pages_left raw end_ - 1.
Proof.
  intros H. unfold pages_left, chunk. rewrite (proj2 (Z.ltb_lt raw end_)) by done.
  destruct (Z.ltb_spec (raw + Z.min (4096 - raw mod 4096) (end_ - raw)) end_);
    Z.to_euclidean_division_equations; lia.
Qed.

Lemma pages_left_pos raw end_ : raw < end_ → 0 < pages_left raw end_.
Proof.
  intros H. unfold pages_left. rewrite (proj2 (Z.ltb_lt raw end_)) by done.
  Z.to_euclidean_division_equations; lia.
Qed.

Lemma range_fuel_enough start len : 0 <= len → pages_left start (start + len) <= Z.of_nat (range_fuel len).
Proof.
  intros H. unfold pages_left, range_fuel. destruct (Z.ltb_spec start (start + len));
    Z.to_euclidean_division_equations; lia.
Qed.

Section range.
Context {PT : Type} `{!X86Addr, !X86AddrSpec, !X86_64 PT, !X86_64Spec PT USER_REGION_PML4_INDEX}.
Implicit Types (m : Machine PT) (space : AddressSpace).

(** Where an address of a space lives, with the permissions of its page. *)
Definition located space m (a : Z) : option (Z * PageTableFlags) :=
  (λ l, (l.1 + a mod 4096, l.2)) <$> space_leaves space m !! align_down a.

Definition allowed (writable : bool) (fl : PageTableFlags) : bool :=
  PRESENT fl && USER_ACCESSIBLE fl && (negb writable || WRITABLE fl).

(** A Ring 3 range the kernel may touch: inside the user region, with every
    byte on a present, user-accessible (and writable) page. *)
Definition range_ok space m (start len : Z) (writable : bool) : Prop :=
  USER_SPACE_BASE <= start < user_end ∧ start + len <= user_end ∧
  ∀ a, start <= a < start + len → ∃ l, located space m a = Some l ∧ allowed writable l.2 = true.

Lemma translate_located space m a :
  phys_mem_offset m ≠ 0 → pt_ok (mapper_for (pml4_frame space) m) → USER_SPACE_BASE <= a < user_end →
  translate_in_address_space space a m = located space m a.
Proof.
  intros Ho Hpt Ha. unfold translate_in_address_space, physical_memory_offset.
  apply Z.eqb_neq in Ho. rewrite Ho. cbn [mbind option_bind].
  rewrite translate_spec by (done || by apply user_slot_region).
  unfold located, space_leaves. by destruct (leaves _ !! _) as [[f fl]|].
Qed.

(** A whole chunk is on one page. *)
Lemma located_chunk space m raw rem a : raw <= a < raw + chunk raw rem →
  located space m a = (λ l, (l.1 + (a - raw), l.2)) <$> located space m raw.
Proof.
  intros Ha. unfold located. destruct (chunk_page _ _ _ Ha) as [-> ->].
  destruct (space_leaves space m !! align_down raw) as [[f fl]|]; simpl; [|done]. do 2 f_equal. lia.
Qed.

Lemma validate_loop_spec fuel space start len w checked m :
  phys_mem_offset m ≠ 0 → pt_ok (mapper_for (pml4_frame space) m) →
  USER_SPACE_BASE <= start → start + len <= user_end → 0 <= checked →
  pages_left (start + checked) (start + len) <= Z.of_nat fuel →
  validate_loop fuel space start len w checked m = Ok tt ↔
  ∀ a, start + checked <= a < start + len → ∃ l, located space m a = Some l ∧ allowed w l.2 = true.
Proof.
  intros Ho Hpt Hs He. revert checked. induction fuel as [|fuel IH]; intros checked Hc Hf; simpl;
    (destruct (Z.leb_spec len checked); [split; [intros _ a ?; lia|done]|]).
  { pose proof (pages_left_pos (start + checked) (start + len)). lia. }
  assert (USER_SPACE_BASE <= start + checked < user_end) as Hr by lia.
  destruct (user_slot_region _ Hr) as [_ Hlow].
  unfold checked_add, u64_max. rewrite (proj2 (Z.leb_le _ _)) by lia. cbn [ok_or mbind result_bind].
  rewrite virt_addr_low by done. cbn [ok_or mbind result_bind]. unfold ensure. rewrite Z.eqb_refl. cbn [mbind result_bind].
  rewrite translate_located by done. destruct (located space m (start + checked)) as [[ph fl]|] eqn:El.
  2:{ split; [done|]. intros Hall. destruct (Hall (start + checked)) as (l&Hl&_); [lia|]. congruence. }
  cbn [ok_or mbind result_bind snd].
  assert (Hstep : (start + checked) + chunk (start + checked) (start + len - (start + checked))
    = start + (checked + Z.min (4096 - (start + checked) mod 4096) (len - checked)))
    by (unfold chunk; replace (start + len - (start + checked)) with (len - checked) by lia; lia).
  pose proof (chunk_pos (start + checked) (len - checked) ltac:(lia)) as Hcp.
  pose proof (pages_left_chunk (start + checked) (start + len) ltac:(lia)) as Hpl. rewrite Hstep in Hpl.
  assert (allowed w fl = true ∧ (∀ a, start + (checked + Z.min (4096 - (start + checked) mod 4096) (len - checked)) <= a < start + len →
      ∃ l, located space m a = Some l ∧ allowed w l.2 = true) ↔
    ∀ a, start + checked <= a < start + len → ∃ l, located space m a = Some l ∧ allowed w l.2 = true) as Hsplit.
  { split.
    - intros [Hfl Hrest] a Ha. destruct (decide (a < start + checked + chunk (start + checked) (len - checked))).
      + rewrite (located_chunk _ _ (start + checked) (len - checked)) by lia. rewrite El. simpl. eauto.
      + apply Hrest. unfold chunk in *. lia.
    - intros Hall. split; [|intros a ?; apply Hall; unfold chunk in *; lia].
      destruct (Hall (start + checked)) as (l&Hl&Hfl); [lia|]. rewrite El in Hl. by injection Hl as <-. }
  rewrite <- Hsplit, <- IH by (unfold chunk in *; lia). unfold allowed.
  destruct (PRESENT fl), (USER_ACCESSIBLE fl), w, (WRITABLE fl); simpl; tauto || (split; [done|intros [? _]; done]).
Qed.

(** The validator accepts exactly the allowed ranges. *)
Lemma validate_user_range_spec space start len w m :
  phys_mem_offset m ≠ 0 → pt_ok (mapper_for (pml4_frame space) m) → 0 <= len →
  (∃ a, validate_user_range space start len w m = Ok a) ↔ range_ok space m start len w.
Proof.
  intros Ho Hpt Hlen. unfold validate_user_range, range_ok.
  change (checked_add u64_max USER_SPACE_BASE USER_SPACE_SIZE) with (Some user_end).
  destruct (checked_user_virt_addr start) as [a|] eqn:Ea.
  2:{ split; [intros [? ?]; done|]. intros [Hr _].
      pose proof (proj2 (checked_user_virt_addr_Ok start start) (conj eq_refl Hr)). congruence. }
  apply checked_user_virt_addr_Ok in Ea as [-> Hr]. cbn [mbind result_bind].
  unfold checked_add at 1. destruct (Z.leb_spec (start + len) u64_max).
  2:{ split; [intros [? ?]; done|]. intros (_&?&_). unfold user_end, USER_SPACE_BASE, USER_SPACE_SIZE, u64_max in *. lia. }
  cbn [ok_or mbind result_bind]. unfold ensure. destruct (Z.ltb_spec user_end (start + len)).
  { split; [intros [? ?]; done|]. lia. }
  cbn [negb mbind result_bind]. destruct (Z.eqb_spec len 0) as [->|].
  { split; [|eauto]. intros _. split_and!; [lia|lia|lia|]. intros ? ?. lia. }
  pose proof (validate_loop_spec (range_fuel len) space start len w 0 m Ho Hpt ltac:(lia) ltac:(lia) ltac:(lia)
    ltac:(rewrite Z.add_0_r; by apply range_fuel_enough)) as Hloop.
  rewrite Z.add_0_r in Hloop. destruct (validate_loop _ _ _ _ _ _ _) as [[]|e]; cbn [mbind result_bind].
  - split; [|eauto]. intros _. split_and!; [lia|lia|lia|by apply Hloop].
  - split; [intros [? ?]; done|]. intros (_&_&Hall). apply Hloop in Hall. done.
Qed.

(** ** Unmapping a range *)

Definition range_pages (start : Z) (n : nat) : list Z := (λ i, start + 4096 * Z.of_nat i) <$> seq 0 n.

Lemma range_pages_S start n : range_pages start (S n) = start :: range_pages (start + 4096) n.
Proof.
  unfold range_pages. cbn [seq fmap list_fmap]. f_equal; [lia|].
  rewrite <- fmap_S_seq, <- list_fmap_compose. apply list_fmap_ext. intros ? i _. simpl. lia.
Qed.

Lemma elem_of_range_pages start n p :
  p ∈ range_pages start n ↔ ∃ i, (i < n)%nat ∧ p = start + 4096 * Z.of_nat i.
Proof.
  unfold range_pages. rewrite list_elem_of_fmap. setoid_rewrite elem_of_seq. split.
  - intros (i&->&?). exists i. lia.
  - intros (i&?&->). exists i. lia.
Qed.

Lemma NoDup_range_pages start n : NoDup (range_pages start n).
Proof. apply NoDup_fmap_2; [|apply NoDup_seq]. intros i j ?. lia. Qed.

(** Records that describe the current mapping of their pages. *)
Definition records_of (l : gmap Z (Z * PageTableFlags)) (records : list UnmapRecord) : Prop :=
  Forall (λ r, l !! rec_page r = Some (rec_frame r, rec_flags r)) records.

Lemma collect_loop_spec n space raw m :
  phys_mem_offset m ≠ 0 → pt_ok (mapper_for (pml4_frame space) m) →
  raw mod 4096 = 0 → USER_SPACE_BASE <= raw → raw + 4096 * Z.of_nat n <= user_end →
  (∀ p, p ∈ range_pages raw n → is_Some (located space m p)) →
  ∃ records, collect_loop n space raw m = Ok records ∧
    rec_page <$> records = range_pages raw n ∧ records_of (space_leaves space m) records.
Proof.
  intros Ho Hpt. revert raw. induction n as [|n IH]; intros raw Hal Hb He Hmap.
  { exists []. split_and!; [done|done|constructor]. }
  simpl. assert (USER_SPACE_BASE <= raw < user_end) as Hr by lia.
  rewrite virt_addr_low by (by apply user_slot_region). cbn [ok_or mbind result_bind].
  rewrite translate_located by done. rewrite range_pages_S in Hmap.
  destruct (Hmap raw) as [l Hl]; [set_solver|]. rewrite Hl. cbn [ok_or mbind result_bind].
  unfold located in Hl. rewrite (align_down_id raw Hal) in Hl.
  destruct (space_leaves space m !! raw) as [[f fl]|] eqn:El; [|done]. injection Hl as <-. cbn [fst snd].
  rewrite Hal, Z.add_0_r.
  destruct (leaves_spec _ Hpt _ _ El) as (_&_&Hf&_). rewrite frame_aligned, Hf. cbn [Z.eqb ok_or mbind result_bind].
  unfold checked_add, u64_max. unfold user_end, USER_SPACE_BASE, USER_SPACE_SIZE in He, Hb.
  rewrite (proj2 (Z.leb_le _ _)) by lia. cbn [ok_or mbind result_bind].
  destruct (IH (raw + 4096)) as (records&->&Hpages&Hrec).
  - rewrite <- Z.add_mod_idemp_l, Hal by lia. done.
  - unfold USER_SPACE_BASE. lia.
  - unfold user_end, USER_SPACE_BASE, USER_SPACE_SIZE. lia.
  - intros p Hp. apply Hmap. set_solver.
  - cbn [mbind result_bind]. eexists. split; [reflexivity|]. rewrite range_pages_S, fmap_cons, Hpages.
    cbn [rec_page]. rewrite page_align, align_down_id by done. split; [done|]. by constructor.
Qed.

(** Removing the records' pages one by one. *)
Definition without_pages (pages : list Z) (l : gmap Z (Z * PageTableFlags)) : gmap Z (Z * PageTableFlags) :=
  foldl (λ l p, delete p l) l pages.

Lemma without_pages_lookup pages l q :
  without_pages pages l !! q = if bool_decide (q ∈ pages) then None else l !! q.
Proof.
  revert l. induction pages as [|p pages IH]; intros l; simpl; [done|]. rewrite IH.
  destruct (decide (q ∈ pages)) as [Hq|Hq].
  - rewrite !bool_decide_eq_true_2 by set_solver. done.
  - rewrite (bool_decide_eq_false_2 (q ∈ pages)) by done. destruct (decide (q = p)) as [->|Hne].
    + rewrite bool_decide_eq_true_2 by set_solver. by rewrite lookup_delete_eq.
    + rewrite bool_decide_eq_false_2 by set_solver. by rewrite lookup_delete_ne.
Qed.

Lemma unmap_loop_spec records pt :
  pt_ok pt → NoDup (rec_page <$> records) → records_of (leaves pt) records →
  let '(n, pt') := unmap_loop records pt in
  n = length records ∧ pt_ok pt' ∧ tables pt' = tables pt ∧
  leaves pt' = without_pages (rec_page <$> records) (leaves pt) ∧
  leaf_frames pt ≡ₚ (rec_frame <$> records) ++ leaf_frames pt'.
Proof.
  revert pt. induction records as [|r records IH]; intros pt Hpt Hnd Hrec; simpl; [done|].
  simpl in Hnd. apply NoDup_cons in Hnd as [Hn Hnd]. apply Forall_cons in Hrec as [Hr Hrec].
  destruct (leaves_spec _ Hpt _ _ Hr) as (Hslot&Hal&_&_).
  pose proof (unmap_spec (rec_page r) pt Hpt Hslot Hal) as Hu.
  destruct (unmap (rec_page r) pt) as [a pt1]. destruct Hu as (->&Hpt1&Hl1&Ht1&_).
  rewrite Hr. cbn [fmap option_fmap option_map fst]. rewrite Z.eqb_refl.
  assert (records_of (leaves pt1) records) as Hrec1.
  { unfold records_of in *. rewrite Forall_forall in *. intros r' Hin. rewrite Hl1, lookup_delete_ne; [by apply Hrec|].
    intros E. apply Hn. rewrite E. by apply list_elem_of_fmap_2. }
  specialize (IH pt1 Hpt1 Hnd Hrec1). destruct (unmap_loop records pt1) as [n pt'].
  destruct IH as (->&Hpt'&Ht'&Hl'&Hperm). split_and!; [done|done|congruence|by rewrite Hl', Hl1|].
  change (list_fmap _ _ rec_frame records) with (rec_frame <$> records).
  rewrite <- Hperm. unfold leaf_frames.
  rewrite <- (map_to_list_delete _ _ _ Hr), Hl1. done.
Qed.
End range.

(** ** Sorting and planning *)

Lemma insert_by_perm {A} before (x : A) l : insert_by before x l ≡ₚ x :: l.
Proof.
  induction l as [|y l IH]; simpl; [done|]. destruct (before x y); [done|]. rewrite IH. apply perm_swap.
Qed.

Lemma sort_by_perm {A} before (l : list A) : sort_by before l ≡ₚ l.
Proof. induction l as [|x l IH]; simpl; [done|]. by rewrite insert_by_perm, IH. Qed.

Lemma dedup_NoDup l : NoDup l → dedup l = l.
Proof.
  induction l as [|x [|y l] IH]; intros Hnd; [done|done|]. apply NoDup_cons in Hnd as [Hn Hnd].
  change (dedup (x :: y :: l)) with (if x =? y then dedup (y :: l) else x :: dedup (y :: l)).
  destruct (Z.eqb_spec x y) as [->|]; [set_solver|]. by rewrite (IH Hnd).
Qed.

Lemma unmap_record_frames_spec records : NoDup (rec_frame <$> records) →
  ∃ frames, unmap_record_frames records = Some frames ∧ frames ≡ₚ rec_frame <$> records.
Proof.
  intros Hnd. unfold unmap_record_frames. pose proof (sort_by_perm Z.leb (rec_frame <$> records)) as Hp.
  rewrite dedup_NoDup by (by rewrite Hp). rewrite (Permutation_length Hp), length_fmap, Nat.eqb_refl. eauto.
Qed.

Lemma planned_lower i l frames r : r ∈ planned i l frames → (i ≤ rem_index r)%nat.
Proof.
  revert i. induction l as [|f l IH]; intros i; simpl; [set_solver|]. intros [Hr|Hr]%elem_of_app.
  - case_bool_decide; [|set_solver]. apply list_elem_of_singleton in Hr as ->. done.
  - apply IH in Hr. lia.
Qed.

(** The plan lists indices upwards; sorting it downwards reverses it. *)
Lemma insert_by_last r l : (∀ r', r' ∈ l → (rem_index r < rem_index r')%nat) →
  insert_by (λ l r, (rem_index r <=? rem_index l)%nat) r l = l ++ [r].
Proof.
  induction l as [|y l IH]; intros Hl; simpl; [done|].
  rewrite (proj2 (Nat.leb_gt _ _)) by (apply Hl; set_solver). rewrite IH; [done|]. set_solver.
Qed.

Lemma sort_planned i l frames :
  sort_by (λ l r, (rem_index r <=? rem_index l)%nat) (planned i l frames) = reverse (planned i l frames).
Proof.
  revert i. induction l as [|f l IH]; intros i; cbn [planned]; [done|]. case_bool_decide; [|cbn [app]; by rewrite IH].
  change ([mk_removal i f] ++ ?x) with (mk_removal i f :: x). rewrite reverse_cons.
  change (sort_by ?b (?x :: ?l)) with (insert_by b x (sort_by b l)). rewrite IH.
  apply insert_by_last. intros r' Hr'. rewrite elem_of_reverse in Hr'. apply planned_lower in Hr'. simpl. lia.
Qed.

Lemma planned_shift i l frames :
  planned (S i) l frames = (λ r, mk_removal (S (rem_index r)) (rem_frame r)) <$> planned i l frames.
Proof.
  revert i. induction l as [|f l IH]; intros i; simpl; [done|]. rewrite fmap_app, <- IH.
  by case_bool_decide.
Qed.

Lemma remove_unmapped_app l1 l2 owned :
  remove_unmapped (l1 ++ l2) owned =
  let '(ok, owned') := remove_unmapped l1 owned in if ok then remove_unmapped l2 owned' else (false, owned').
Proof.
  revert owned. induction l1 as [|r l1 IH]; intros owned; simpl; [done|].
  case_bool_decide; [apply IH|done].
Qed.

Lemma remove_unmapped_shift rs x owned :
  remove_unmapped ((λ r, mk_removal (S (rem_index r)) (rem_frame r)) <$> rs) (x :: owned) =
  let '(ok, owned') := remove_unmapped rs owned in (ok, x :: owned').
Proof.
  revert owned. induction rs as [|r rs IH]; intros owned; simpl; [done|].
  case_bool_decide; [apply IH|done].
Qed.

(** Removing the planned indices from the top leaves the other frames. *)
Lemma remove_planned owned frames :
  remove_unmapped (reverse (planned 0 owned frames)) owned = (true, filter (λ f, f ∉ frames) owned).
Proof.
  induction owned as [|f owned IH]; [done|]. simpl. rewrite reverse_app, remove_unmapped_app, planned_shift.
  rewrite <- fmap_reverse, remove_unmapped_shift, IH. rewrite filter_cons.
  case_bool_decide; simpl.
  - rewrite bool_decide_eq_true_2 by done. rewrite decide_False by tauto. done.
  - by rewrite decide_True by done.
Qed.

Lemma planned_length owned frames i :
  length (planned i owned frames) = length (filter (λ f, f ∈ frames) owned).
Proof.
  revert i. induction owned as [|f owned IH]; intros i; [done|]. simpl. rewrite length_app, IH, filter_cons.
  case_bool_decide; [by rewrite decide_True|by rewrite decide_False].
Qed.

Lemma filter_none {A} (P : A → Prop) `{∀ x, Decision (P x)} (l : list A) :
  Forall (λ x, ¬ P x) l → filter P l = [].
Proof. induction 1 as [|x l Hx _ IH]; [done|]. rewrite filter_cons. by rewrite decide_False. Qed.

Lemma filter_in_perm (frames others owned : list Z) : NoDup owned → owned ≡ₚ frames ++ others →
  filter (λ f, f ∈ frames) owned ≡ₚ frames ∧ filter (λ f, f ∉ frames) owned ≡ₚ others.
Proof.
  intros Hnd Hp. pose proof Hnd as Hnd'. rewrite Hp in Hnd'. apply NoDup_app in Hnd' as (_&Hd&_).
  assert (filter (λ f, f ∈ frames) owned ≡ₚ frames) as Hin.
  { rewrite Hp, filter_app, filter_all by (by rewrite Forall_forall).
    rewrite filter_none; [by rewrite app_nil_r|]. rewrite Forall_forall. intros f Hf Hf'. by apply (Hd f). }
  split; [done|]. apply (Permutation_app_inv_l frames). rewrite <- Hp, <- Hin at 1. apply filter_app_complement.
Qed.

Lemma plan_unmap_ownership_spec owned frames others :
  NoDup owned → owned ≡ₚ frames ++ others →
  ∃ removals owned', plan_unmap_ownership owned frames = Some removals ∧
    remove_unmapped removals owned = (true, owned') ∧ owned' ≡ₚ others.
Proof.
  intros Hnd Hp. destruct (filter_in_perm _ _ _ Hnd Hp) as [Hin Hout]. unfold plan_unmap_ownership.
  rewrite planned_length, (Permutation_length Hin), Nat.eqb_refl, sort_planned.
  eexists _, _. split; [reflexivity|]. rewrite remove_planned. split; [reflexivity|done].
Qed.

Section unmap_range.
Context {PT : Type} `{!BootMap, !KernelFrames, !X86Addr, !X86AddrSpec, !X86_64 PT, !X86_64Spec PT USER_REGION_PML4_INDEX}.
Implicit Types (m : Machine PT) (space : AddressSpace).

Lemma leaf_frames_NoDup m space rest : machine_ok m (space :: rest) →
  NoDup (owned_frames space).
Proof.
  intros [_ _ (al&_&Hc) _]. apply conserves_NoDup in Hc. rewrite bind_cons, <- app_assoc in Hc.
  rewrite <- app_assoc in Hc. by apply NoDup_app in Hc as [? _].
Qed.

(** Which pages a range request names. *)
Definition unmap_request_ok space m (start count : Z) : Prop :=
  0 < count ∧ start mod 4096 = 0 ∧ range_ok space m start (4096 * count) false.

Definition in_range (start len p : Z) : Prop := start <= p < start + len.
#[global] Instance in_range_dec start len p : Decision (in_range start len p).
Proof. unfold in_range. apply _. Defined.

Lemma unmap_range_pages l start n : (∀ p, is_Some (l !! p) → p mod 4096 = 0) → start mod 4096 = 0 →
  without_pages (range_pages start n) l = filter (λ pl, ¬ in_range start (4096 * Z.of_nat n) pl.1) l.
Proof.
  intros Hl Hs. apply map_eq. intros p. rewrite without_pages_lookup. apply option_eq. intros fl.
  rewrite map_lookup_filter_Some. simpl. unfold in_range. case_bool_decide as Hp.
  - split; [done|]. intros [_ Hn]. apply elem_of_range_pages in Hp as (i&?&->). lia.
  - split; [|tauto]. intros Hpl. split; [done|]. intros Hr. apply Hp. apply elem_of_range_pages.
    exists (Z.to_nat ((p - start) / 4096)). specialize (Hl p ltac:(eauto)).
    assert (p - start = 4096 * ((p - start) / 4096)) as E by (Z.to_euclidean_division_equations; lia).
    split; [Z.to_euclidean_division_equations; lia|]. rewrite Z2Nat.id by (apply Z.div_pos; lia). lia.
Qed.

Lemma collect_unmap_records_spec space start count m :
  phys_mem_offset m ≠ 0 → pt_ok (mapper_for (pml4_frame space) m) → 0 <= count →
  match collect_unmap_records space start count m with
  | Ok records =>
      unmap_request_ok space m start count ∧ rec_page <$> records = range_pages start (Z.to_nat count) ∧
      records_of (space_leaves space m) records
  | Err _ => ¬ unmap_request_ok space m start count
  end.
Proof.
  intros Hoff Hpt Hcount. unfold collect_unmap_records, unmap_request_ok.
  destruct (Z.eqb_spec count 0) as [->|Hpos]; [simpl; lia|].
  destruct (Z.eqb_spec (start mod 4096) 0) as [Hal|]; [|simpl; tauto].
  cbn [negb orb ensure mbind result_bind]. unfold checked_mul. replace (count * 4096) with (4096 * count) by lia.
  destruct (Z.leb_spec (4096 * count) u64_max).
  2:{ cbn [ok_or mbind result_bind]. intros (_&_&Hb&He&_).
      unfold u64_max, user_end, USER_SPACE_BASE, USER_SPACE_SIZE in *. lia. }
  cbn [ok_or mbind result_bind].
  pose proof (validate_user_range_spec space start (4096 * count) false m Hoff Hpt ltac:(lia)) as Hv.
  destruct (validate_user_range _ _ _ _ _) as [a|e]; cbn [mbind result_bind].
  2:{ intros (_&_&Hr). apply Hv in Hr as [? ?]. done. }
  assert (range_ok space m start (4096 * count) false) as Hr by (apply Hv; eauto).
  pose proof Hr as (Hb&He&Hall).
  destruct (collect_loop_spec (Z.to_nat count) space start m Hoff Hpt Hal) as (rs&->&Hpg&Hrec);
    [lia|lia| |by split_and!; try lia].
  intros p Hp'. apply elem_of_range_pages in Hp' as (i&?&->).
  destruct (Hall (start + 4096 * Z.of_nat i)) as (l&->&_); [lia|done].
Qed.

Lemma unmap_records_atomic_spec m space records :
  phys_mem_offset m ≠ 0 → pt_ok (mapper_for (pml4_frame space) m) → records ≠ [] →
  NoDup (rec_page <$> records) → records_of (space_leaves space m) records →
  ∃ pt, unmap_records_atomic space records m = (Ok tt, set_table (pml4_frame space) pt m) ∧
    pt_ok pt ∧ tables pt = tables (mapper_for (pml4_frame space) m) ∧
    leaves pt = without_pages (rec_page <$> records) (space_leaves space m) ∧
    leaf_frames (mapper_for (pml4_frame space) m) ≡ₚ (rec_frame <$> records) ++ leaf_frames pt.
Proof.
  intros Ho Hpt Hne Hnd Hrec. unfold unmap_records_atomic. rewrite bool_decide_eq_false_2 by done.
  unfold physical_memory_offset, mbind, M_bind, mget, mlift. apply Z.eqb_neq in Ho. rewrite Ho. cbn [ok_or].
  pose proof (unmap_loop_spec records _ Hpt Hnd Hrec) as Hl.
  destruct (unmap_loop records _) as [n pt]. destruct Hl as (->&?&?&?&?). rewrite Nat.eqb_refl.
  exists pt. done.
Qed.

(** The transaction: a valid request unmaps its pages and releases their
    frames, any other changes nothing. *)
Lemma unmap_range_spec start count m space rest :
  machine_ok m (space :: rest) → 0 <= count →
  let '(r, (m', space')) := unmap_range_in_address_space_atomic start count (m, space) in
  machine_ok m' (space' :: rest) ∧ pml4_frame space' = pml4_frame space ∧ frame_rest (pml4_frame space) m m' ∧
  match r with
  | Ok _ =>
      unmap_request_ok space m start count ∧
      space_leaves space' m' = filter (λ pl, ¬ in_range start (4096 * count) pl.1) (space_leaves space m) ∧
      frame_count space = frame_count space' + count
  | Err _ => ¬ unmap_request_ok space m start count ∧ (m', space') = (m, space)
  end.
Proof.
  intros Hok Hcount. pose proof (leaf_frames_NoDup _ _ _ Hok) as Hnd.
  pose proof Hok as [Hoff _ (al&Ha&Hc) Hs]. apply Forall_cons in Hs as [[Hpt Hp] _]. rewrite bind_cons, <- app_assoc in Hc.
  unfold unmap_range_in_address_space_atomic, mbind, M_bind, mget, mlift. cbn [fst snd].
  pose proof (collect_unmap_records_spec space start count m Hoff Hpt Hcount) as Hcol.
  destruct (collect_unmap_records space start count m) as [records|e]; [|by split_and!].
  destruct Hcol as (Hreq&Hpages&Hrecs).
  assert (length records = Z.to_nat count) as Hlen
    by (apply (f_equal length) in Hpages; unfold range_pages in Hpages;
        by rewrite !length_fmap, length_seq in Hpages).
  destruct (unmap_records_atomic_spec m space records Hoff Hpt) as (pt&Hun&Hpt'&Htab&Hleaf&Hperm); [..|done|].
  { intros ->. destruct Hreq as [? _]. simpl in Hlen. lia. }
  { rewrite Hpages. apply NoDup_range_pages. }
  assert (owned_frames space ≡ₚ (rec_frame <$> records) ++ pml4_frame space :: tables pt ++ leaf_frames pt) as Hown
    by (rewrite Hp, Hperm, Htab; solve_Permutation).
  destruct (unmap_record_frames_spec records) as (frames&->&Hfr).
  { rewrite Hown in Hnd. by apply NoDup_app in Hnd as [? _]. }
  destruct (plan_unmap_ownership_spec (owned_frames space) frames (pml4_frame space :: tables pt ++ leaf_frames pt) Hnd)
    as (removals&owned'&Hplan&Hrem&Hown').
  { by rewrite Hfr. }
  cbn [ok_or]. unfold owned_frame_snapshot. rewrite Hplan. cbn [ok_or]. unfold on_machine at 1. cbn [fst snd]. rewrite Hun.
  unfold remove_unmapped_ownership, mbind, M_bind, mget, mput, mret, M_ret. cbn [fst snd]. rewrite Hrem.
  cbn [fst snd pml4_frame].
  unfold on_machine, release_frames, mbind, M_bind, mget, mlift, mput. cbn [fst snd frame_allocator set_table].
  rewrite Ha. cbn [ok_or]. unfold space_leaves. cbn [pml4_frame]. rewrite mapper_for_alloc.
  split_and!; [|done|apply frame_rest_set|done| |].
  - eapply machine_ok_step; [exact Hok|apply frame_rest_set|done|done| |].
    + cbn [owned_frames]. apply deallocate_all. eapply conserves_perm; [|exact Hc].
      rewrite Hown, Hfr, Hown'. solve_Permutation.
    + unfold space_ok. cbn [pml4_frame owned_frames]. by rewrite mapper_for_alloc.
  - rewrite Hleaf, Hpages, unmap_range_pages; [by rewrite Z2Nat.id| |by destruct Hreq as (_&?&_)].
    intros p [[f fl] Hl]. by destruct (leaves_spec _ Hpt _ _ Hl) as (_&?&_).
  - unfold frame_count. cbn [owned_frames]. unfold zlen.
    rewrite (Permutation_length Hown), (Permutation_length Hown'), length_app, length_fmap. lia.
Qed.
End unmap_range.
