(* ===== verification/PagingCopy.v ===== *)
(** Copies to and from user memory: a copy reaches exactly the bytes of the
    range it validated, in the address space it was given. *)

From S2P Require Import Prelude X86 Frames Paging PagingSpaces PagingRange.

Lemma store_bytes_at dst bs mem ph :
  dst <= ph < dst + zlen bs → store_bytes dst bs mem ph = nth (Z.to_nat (ph - dst)) bs Byte.x00.
Proof.
  intros H. unfold store_bytes.
  destruct (Z.leb_spec dst ph), (Z.ltb_spec ph (dst + zlen bs)); done || lia.
Qed.

Lemma store_bytes_other dst bs mem ph :
  ¬ (dst <= ph < dst + zlen bs) → store_bytes dst bs mem ph = mem ph.
Proof.
  intros H. unfold store_bytes.
  destruct (Z.leb_spec dst ph), (Z.ltb_spec ph (dst + zlen bs)); done || lia.
Qed.

Lemma nth_slice (data : list byte) i j k : (k < j - i)%nat → nth k (slice data i j) Byte.x00 = nth (i + k) data Byte.x00.
Proof.
  intros Hk. rewrite !nth_lookup. unfold slice. rewrite lookup_take, lookup_drop. by rewrite decide_True.
Qed.

Lemma zlen_slice {A} (l : list A) i j : 0 <= i <= j → j <= zlen l → zlen (slice l (Z.to_nat i) (Z.to_nat j)) = j - i.
Proof. intros. unfold zlen in *. rewrite slice_length by lia. lia. Qed.

Lemma load_bytes_lookup src n mem i : (i < n)%nat → load_bytes src n mem !! i = Some (mem (src + Z.of_nat i)).
Proof. intros Hi. unfold load_bytes. rewrite list_lookup_fmap, lookup_seq_lt by done. done. Qed.

Lemma length_load_bytes src n mem : length (load_bytes src n mem) = n.
Proof. unfold load_bytes. by rewrite length_fmap, length_seq. Qed.

Section copy.
Context {PT : Type} `{!BootMap, !KernelFrames, !X86Addr, !X86AddrSpec, !X86_64 PT, !X86_64Spec PT USER_REGION_PML4_INDEX}.
Implicit Types (m : Machine PT) (space : AddressSpace).

(** The byte a program in [space] sees at [a]. *)
Definition user_byte space m (a : Z) : option byte := (λ l, memory m l.1) <$> located space m a.

(** ** Distinct addresses have distinct storage *)

Lemma located_frame space m a l : pt_ok (mapper_for (pml4_frame space) m) → located space m a = Some l →
  ∃ f fl, space_leaves space m !! align_down a = Some (f, fl) ∧ f mod 4096 = 0 ∧ l = (f + a mod 4096, fl).
Proof.
  intros Hpt. unfold located. destruct (space_leaves space m !! align_down a) as [[f fl]|] eqn:E; [|done].
  intros [= <-]. exists f, fl. split_and!; [done| |done]. by destruct (leaves_spec _ Hpt _ _ E) as (_&_&?&_).
Qed.

Lemma leaf_frame_owned m space p f fl :
  space_ok m space → space_leaves space m !! p = Some (f, fl) → f ∈ owned_frames space.
Proof.
  intros [_ Hp] Hl. rewrite Hp. apply elem_of_cons. right. apply elem_of_app. right.
  unfold leaf_frames. apply list_elem_of_fmap. exists (f, fl). split; [done|].
  apply list_elem_of_fmap. exists (p, (f, fl)). split; [done|]. by apply elem_of_map_to_list.
Qed.

Lemma frame_split f g a b : f mod 4096 = 0 → g mod 4096 = 0 → f + a mod 4096 = g + b mod 4096 →
  f = g ∧ a mod 4096 = b mod 4096.
Proof. intros. Z.to_euclidean_division_equations; lia. Qed.

Lemma leaves_inj (t : gmap Z (Z * PageTableFlags)) p q f fl fl' :
  NoDup (fst <$> (map_to_list t).*2) → t !! p = Some (f, fl) → t !! q = Some (f, fl') → p = q.
Proof.
  intros Hnd Hp Hq. apply elem_of_map_to_list, list_elem_of_lookup in Hp as [i Hi].
  apply elem_of_map_to_list, list_elem_of_lookup in Hq as [j Hj].
  enough (i = j) as -> by congruence. eapply NoDup_lookup; [exact Hnd| |];
    by rewrite !list_lookup_fmap, ?Hi, ?Hj.
Qed.

Lemma located_inj m space rest a b la lb : machine_ok m (space :: rest) →
  located space m a = Some la → located space m b = Some lb → la.1 = lb.1 → a = b.
Proof.
  intros Hok Ha Hb E. pose proof (leaf_frames_NoDup _ _ _ Hok) as Hnd.
  pose proof (ok_spaces _ _ Hok) as Hs. apply Forall_cons in Hs as [[Hpt Hp] _].
  destruct (located_frame _ _ _ _ Hpt Ha) as (f&fl&Hf&Hfa&->).
  destruct (located_frame _ _ _ _ Hpt Hb) as (g&gl&Hg&Hga&->). simpl in E.
  destruct (frame_split _ _ _ _ Hfa Hga E) as [-> Emod].
  rewrite Hp in Hnd. apply NoDup_cons in Hnd as [_ Hnd]. apply NoDup_app in Hnd as (_&_&Hnd).
  pose proof (leaves_inj _ _ _ _ _ _ Hnd Hf Hg) as Ep. unfold align_down in Ep. lia.
Qed.

Lemma located_disjoint m space other rest a b la lb : machine_ok m (space :: rest) → other ∈ rest →
  located space m a = Some la → located other m b = Some lb → la.1 ≠ lb.1.
Proof.
  intros Hok Hin Ha Hb E. pose proof Hok as [_ _ (al&_&Hc) Hs]. apply Forall_cons in Hs as [Hs Hrest].
  rewrite Forall_forall in Hrest. pose proof (Hrest _ Hin) as Ho.
  destruct (located_frame _ _ _ _ (proj1 Hs) Ha) as (f&fl&Hf&Hfa&->).
  destruct (located_frame _ _ _ _ (proj1 Ho) Hb) as (g&gl&Hg&Hga&->). simpl in E.
  destruct (frame_split _ _ _ _ Hfa Hga E) as [-> _].
  apply conserves_NoDup in Hc. rewrite bind_cons, <- !app_assoc in Hc. apply NoDup_app in Hc as (_&Hd&_).
  apply (Hd g); [by eapply leaf_frame_owned|]. apply elem_of_app. left. apply list_elem_of_bind.
  exists other. split; [by eapply leaf_frame_owned|done].
Qed.

(** ** The copy loops *)

(** [mem'] is [mem] with the bytes [from..to] of the range at [start] taken
    from [data]. *)
Definition copied space m (start from to : Z) (data : list byte) (mem mem' : Z → byte) : Prop :=
  (∀ a l, start + from <= a < start + to → located space m a = Some l →
    mem' l.1 = nth (Z.to_nat (a - start)) data Byte.x00) ∧
  (∀ ph, (∀ a l, start + from <= a < start + to → located space m a = Some l → l.1 ≠ ph) → mem' ph = mem ph).

Definition located_injective space m : Prop :=
  ∀ a b la lb, located space m a = Some la → located space m b = Some lb → la.1 = lb.1 → a = b.

Lemma copied_chunk space m start w data mem l :
  0 <= w < zlen data → located space m (start + w) = Some l →
  let c := chunk (start + w) (zlen data - w) in
  copied space m start w (w + c) data mem
    (store_bytes l.1 (slice data (Z.to_nat w) (Z.to_nat (w + c))) mem).
Proof.
  intros Hw Hl c. pose proof (chunk_pos (start + w) (zlen data - w) ltac:(lia)) as Hc. fold c in Hc.
  assert (zlen (slice data (Z.to_nat w) (Z.to_nat (w + c))) = c) as Hlen by (rewrite zlen_slice; lia).
  assert (∀ a, start + w <= a < start + (w + c) → located space m a = Some (l.1 + (a - (start + w)), l.2)) as Hloc.
  { intros a Ha. rewrite (located_chunk _ _ (start + w) (zlen data - w)) by (fold c; lia). by rewrite Hl. }
  split.
  - intros a la Ha E. rewrite (Hloc a Ha) in E. injection E as <-. simpl.
    rewrite store_bytes_at by lia. rewrite nth_slice by lia. f_equal. lia.
  - intros ph Hph. apply store_bytes_other. rewrite Hlen. intros Hr.
    apply (Hph (start + w + (ph - l.1)) (ph, l.2)); [lia| |done]. rewrite Hloc by lia. f_equal. f_equal. lia.
Qed.

Lemma copied_trans space m start a b c data mem1 mem2 mem3 :
  located_injective space m → a <= b <= c →
  copied space m start a b data mem1 mem2 → copied space m start b c data mem2 mem3 →
  copied space m start a c data mem1 mem3.
Proof.
  intros Hinj Hbc [Hin1 Hout1] [Hin2 Hout2]. split.
  - intros x l Hx Hl. destruct (decide (start + b <= x)); [apply Hin2; [lia|done]|].
    rewrite Hout2; [apply Hin1; [lia|done]|]. intros y ly Hy Hly E.
    pose proof (Hinj _ _ _ _ Hly Hl E). lia.
  - intros ph Hph. rewrite Hout2; [apply Hout1|]; intros x l Hx Hl; (apply (Hph x); [lia|done]).
Qed.

(** What a closure of [for_each_mapped_chunk] must do with its chunk. *)
Definition stores (data : list byte) (f : Z → Z → Z → (Z → byte) → Z → byte) : Prop :=
  ∀ w dst c mem, 0 <= w → 0 <= c → w + c <= zlen data →
    f w dst c mem = store_bytes dst (slice data (Z.to_nat w) (Z.to_nat (w + c))) mem.

Lemma chunk_loop_spec fuel space start data f w m :
  phys_mem_offset m ≠ 0 → pt_ok (mapper_for (pml4_frame space) m) → located_injective space m →
  stores data f → range_ok space m start (zlen data) true → 0 <= w <= zlen data →
  pages_left (start + w) (start + zlen data) <= Z.of_nat fuel →
  ∃ mem', chunk_loop fuel space start (zlen data) f w m = (Ok tt, set_memory mem' m) ∧
    copied space m start w (zlen data) data (memory m) mem'.
Proof.
  intros Ho Hpt Hinj Hf Hr. revert w m Ho Hpt Hinj Hr. induction fuel as [|fuel IH]; intros w m Ho Hpt Hinj Hr Hw Hfuel;
    cbn [chunk_loop]; (destruct (Z.leb_spec (zlen data) w);
    [exists (memory m); split; [by destruct m|split; [intros a l ?; lia|done]]|]).
  { pose proof (pages_left_pos (start + w) (start + zlen data)). lia. }
  pose proof Hr as (Hb&He&Hall). destruct (Hall (start + w)) as (l&Hl&Hfl); [lia|].
  unfold mbind, M_bind, mget, mlift, mensure, mput. rewrite translate_located by (done || lia). rewrite Hl. cbn [ok_or].
  destruct l as [phys fl]. unfold allowed in Hfl. apply andb_true_iff in Hfl as [[_ Hu]%andb_true_iff Hwr].
  simpl in Hu, Hwr. unfold ensure. rewrite Hu, Hwr.
  change (Z.min (4096 - (start + w) mod 4096) (zlen data - w)) with (chunk (start + w) (zlen data - w)).
  pose proof (copied_chunk space m start w data (memory m) (phys, fl) ltac:(lia) Hl) as Hcop. cbn zeta in Hcop.
  pose proof (chunk_pos (start + w) (zlen data - w) ltac:(lia)) as Hc.
  pose proof (pages_left_chunk (start + w) (start + zlen data) ltac:(lia)) as Hpl.
  replace (start + zlen data - (start + w)) with (zlen data - w) in Hpl by lia.
  set (c := chunk (start + w) (zlen data - w)) in *. rewrite Hf by lia. cbn [fst snd].
  set (mem1 := store_bytes _ _ _) in *.
  destruct (IH (w + c) (set_memory mem1 m)) as (mem'&Hrun&Hcop'); [done..|lia| |].
  { replace (start + (w + c)) with (start + w + c) by lia. lia. }
  exists mem'. split; [exact Hrun|]. eapply copied_trans; [exact Hinj| |exact Hcop|exact Hcop']. lia.
Qed.

Lemma for_each_mapped_chunk_spec space start data f m :
  phys_mem_offset m ≠ 0 → pt_ok (mapper_for (pml4_frame space) m) → located_injective space m → stores data f →
  match for_each_mapped_chunk space start (zlen data) f m with
  | (Ok _, m') => range_ok space m start (zlen data) true ∧
      ∃ mem', m' = set_memory mem' m ∧ copied space m start 0 (zlen data) data (memory m) mem'
  | (Err _, m') => ¬ range_ok space m start (zlen data) true ∧ m' = m
  end.
Proof.
  intros Ho Hpt Hinj Hf. pose proof (zlen_nonneg data) as Hlen.
  pose proof (validate_user_range_spec space start (zlen data) true m Ho Hpt Hlen) as Hv.
  unfold for_each_mapped_chunk, mbind, M_bind, mget, mlift.
  destruct (validate_user_range _ _ _ _ _) as [a|e].
  2:{ split; [|done]. intros Hr. apply Hv in Hr as [? ?]. done. }
  assert (range_ok space m start (zlen data) true) as Hr by (apply Hv; eauto).
  unfold physical_memory_offset. pose proof (proj2 (Z.eqb_neq _ _) Ho) as Ho'. rewrite Ho'. cbn [ok_or].
  destruct (chunk_loop_spec (range_fuel (zlen data)) space start data f 0 m Ho Hpt Hinj Hf Hr) as (mem'&->&Hcop).
  - lia.
  - rewrite Z.add_0_r. by apply range_fuel_enough.
  - split; [done|]. by exists mem'.
Qed.

Lemma write_stores data :
  stores data (λ src_offset dst chunk_len,
    store_bytes dst (slice data (Z.to_nat src_offset) (Z.to_nat (src_offset + chunk_len)))).
Proof. done. Qed.

Lemma zero_stores len : 0 <= len →
  stores (replicate (Z.to_nat len) Byte.x00) (λ _ dst chunk_len, store_bytes dst (replicate (Z.to_nat chunk_len) Byte.x00)).
Proof.
  intros Hlen w dst c mem Hw Hc Hwc. f_equal. unfold slice, zlen in *. rewrite length_replicate in Hwc.
  rewrite drop_replicate, take_replicate. f_equal. lia.
Qed.

Lemma zlen_replicate {A} n (x : A) : 0 <= n → zlen (replicate (Z.to_nat n) x) = n.
Proof. intros. unfold zlen. rewrite length_replicate. lia. Qed.

(** ** Reading back *)

Lemma read_loop_spec fuel space src len r m :
  phys_mem_offset m ≠ 0 → pt_ok (mapper_for (pml4_frame space) m) → range_ok space m src len false →
  0 <= r <= len → pages_left (src + r) (src + len) <= Z.of_nat fuel →
  ∃ bs, read_loop fuel space src len r m = Ok bs ∧ zlen bs = len - r ∧
    ∀ i, 0 <= i < len - r → bs !! Z.to_nat i = user_byte space m (src + r + i).
Proof.
  intros Ho Hpt Hr. revert r. induction fuel as [|fuel IH]; intros r Hr0 Hfuel;
    cbn [read_loop]; (destruct (Z.leb_spec len r); [exists []; split_and!; [done|rewrite zlen_nil; lia|lia]|]).
  { pose proof (pages_left_pos (src + r) (src + len)). lia. }
  pose proof Hr as (Hb&He&Hall). destruct (Hall (src + r)) as (l&Hl&Hfl); [lia|].
  rewrite translate_located by (done || lia). rewrite Hl. cbn [ok_or mbind result_bind].
  destruct l as [phys fl]. unfold allowed in Hfl. apply andb_true_iff in Hfl as [[_ Hu]%andb_true_iff _].
  simpl in Hu. unfold ensure. rewrite Hu. cbn [mbind result_bind].
  change (Z.min (4096 - (src + r) mod 4096) (len - r)) with (chunk (src + r) (len - r)).
  pose proof (chunk_pos (src + r) (len - r) ltac:(lia)) as Hc.
  pose proof (pages_left_chunk (src + r) (src + len) ltac:(lia)) as Hpl.
  replace (src + len - (src + r)) with (len - r) in Hpl by lia.
  assert (∀ a, src + r <= a < src + r + chunk (src + r) (len - r) →
    user_byte space m a = Some (memory m (phys + (a - (src + r))))) as Hloc.
  { intros a Ha. unfold user_byte. rewrite (located_chunk _ _ (src + r) (len - r)) by lia. by rewrite Hl. }
  set (c := chunk (src + r) (len - r)) in *.
  destruct (IH (r + c)) as (bs&->&Hlen&Hbs); [lia|replace (src + (r + c)) with (src + r + c) by lia; lia|].
  cbn [mbind result_bind]. eexists. split; [reflexivity|]. split.
  { rewrite zlen_app, Hlen. unfold zlen. rewrite length_load_bytes. lia. }
  intros i Hi. destruct (decide (i < c)).
  - rewrite lookup_app_l by (rewrite length_load_bytes; lia). rewrite load_bytes_lookup by lia.
    rewrite Hloc by lia. do 2 f_equal. lia.
  - rewrite lookup_app_r by (rewrite length_load_bytes; lia). rewrite length_load_bytes.
    replace (Z.to_nat i - Z.to_nat c)%nat with (Z.to_nat (i - c)) by lia. rewrite Hbs by lia. f_equal. lia.
Qed.

(** Reading returns the bytes the program sees, or refuses the range. *)
Lemma read_bytes_spec space src len m :
  phys_mem_offset m ≠ 0 → pt_ok (mapper_for (pml4_frame space) m) → 0 <= len →
  match read_bytes_from_address_space_into space src len m with
  | Ok bs => range_ok space m src len false ∧ zlen bs = len ∧
      ∀ i, 0 <= i < len → bs !! Z.to_nat i = user_byte space m (src + i)
  | Err _ => ¬ range_ok space m src len false
  end.
Proof.
  intros Ho Hpt Hlen. pose proof (validate_user_range_spec space src len false m Ho Hpt Hlen) as Hv.
  unfold read_bytes_from_address_space_into, physical_memory_offset. pose proof (proj2 (Z.eqb_neq _ _) Ho) as ->.
  cbn [ok_or mbind result_bind]. destruct (validate_user_range _ _ _ _ _) as [a|e]; cbn [mbind result_bind].
  2:{ intros Hr. apply Hv in Hr as [? ?]. done. }
  assert (range_ok space m src len false) as Hr by (apply Hv; eauto).
  destruct (read_loop_spec (range_fuel len) space src len 0 m Ho Hpt Hr) as (bs&->&Hl&Hbs).
  - lia.
  - rewrite Z.add_0_r. by apply range_fuel_enough.
  - rewrite Z.sub_0_r in *. split_and!; [done|done|]. intros i Hi. rewrite Hbs by lia. f_equal. lia.
Qed.
End copy.
