(* ===== verification/PagingSafety.v ===== *)
(** What the paging code guarantees to the processes: frames are never shared
    or lost, spaces cannot disturb each other, copies are exact, and
    unmapping is a transaction.

    [run_ops] is a run of the kernel: any sequence of the operations the rest
    of the kernel performs on address spaces, failures included. *)

From S2P Require Import Prelude X86 Frames Paging PagingSpaces PagingRange PagingCopy.

(** Operations on one live space. *)
Inductive SpaceOp :=
| MapPage (page : Z) (flags : PageTableFlags)
| SetFlags (page : Z) (flags : PageTableFlags)
| UnmapRange (start count : Z)
| CleanTables (start count : Z)
| WriteBytes (dest : Z) (data : list byte)
| ZeroBytes (dest len : Z).

Inductive PagingOp :=
| NewSpace
| OnSpace (i : nat) (op : SpaceOp)
| FreeSpace (i : nat).

(** Pages are whole pages with canonical addresses (the type [Page] of the
    crate); lengths and counts are unsigned. Flags are only changed on pages
    of the user region, as the loader does. *)
Definition space_op_ok (op : SpaceOp) : Prop :=
  match op with
  | MapPage page _ => page mod 4096 = 0 ∧ (0 <= page < 2 ^ 47 ∨ 2 ^ 64 - 2 ^ 47 <= page < 2 ^ 64)
  | SetFlags page _ => page mod 4096 = 0 ∧ USER_SPACE_BASE <= page < user_end
  | UnmapRange _ count | CleanTables _ count => 0 <= count
  | WriteBytes _ _ => True
  | ZeroBytes _ len => 0 <= len
  end.

Definition paging_op_ok (op : PagingOp) : Prop := match op with OnSpace _ op => space_op_ok op | _ => True end.

#[global] Instance space_op_ok_dec op : Decision (space_op_ok op).
Proof. destruct op; simpl; apply _. Defined.
#[global] Instance paging_op_ok_dec op : Decision (paging_op_ok op).
Proof. destruct op; simpl; apply _. Defined.

Section safety.
Context {PT : Type} `{!BootMap, !KernelFrames, !X86Addr, !X86_64 PT}.
Implicit Types (m : Machine PT) (space : AddressSpace).

Definition run_space_op (op : SpaceOp) : M (Machine PT * AddressSpace) unit :=
  s ← mget;
  match op with
  | MapPage page flags => map_in_address_space page flags
  | SetFlags page flags => on_machine (update_flags_in_address_space s.2 page flags)
  | UnmapRange start count => unmap_range_in_address_space_atomic start count
  | CleanTables start count => _ ← clean_up_empty_tables_in_range start count; mret tt
  | WriteBytes dest data => on_machine (write_bytes_in_address_space s.2 dest data)
  | ZeroBytes dest len => on_machine (zero_bytes_in_address_space s.2 dest len)
  end.

Definition paging_step (s : Machine PT * list AddressSpace) (op : PagingOp) : Machine PT * list AddressSpace :=
  let '(m, spaces) := s in
  match op with
  | NewSpace =>
      match new_address_space m with
      | (Ok space, m) => (m, space :: spaces)
      | (Err _, m) => (m, spaces)
      end
  | OnSpace i op =>
      match spaces !! i with
      | Some space => let '(_, (m, space)) := run_space_op op (m, space) in (m, <[i := space]> spaces)
      | None => s
      end
  | FreeSpace i =>
      match spaces !! i with
      | Some space => (free_address_space space m, delete i spaces)
      | None => s
      end
  end.

Definition run_ops (s : Machine PT * list AddressSpace) (ops : list PagingOp) := foldl paging_step s ops.

(** The machine [memory::init_heap] leaves: the allocator over the boot memory
    map has issued the frames under the kernel heap, and no process exists. *)
Definition booted m : Prop :=
  phys_mem_offset m ≠ 0 ∧ is_Some (kernel_mapper m) ∧ regions_ok (List.filter is_usable boot_map) ∧
  ∃ al, frame_allocator m = Some al ∧ allocs allocate_frame (allocator_init boot_map) kernel_frames al.

(** What an operation must leave alone: what the spaces it does not name see,
    and the kernel heap. *)
Definition undisturbed `{!X86_64Spec PT USER_REGION_PML4_INDEX} (others : list AddressSpace) m m' : Prop :=
  (∀ s a, s ∈ others → located s m' a = located s m a ∧ user_byte s m' a = user_byte s m a) ∧
  (∀ ph, align_down ph ∈ kernel_frames → memory m' ph = memory m ph) ∧
  kernel_pml4 m' = kernel_pml4 m.

Context `{!X86AddrSpec, !X86_64Spec PT USER_REGION_PML4_INDEX}.

Lemma machine_ok_inj m space rest : machine_ok m (space :: rest) → located_injective space m.
Proof. intros Hok x y lx ly. by eapply located_inj. Qed.

Lemma undisturbed_refl others m : undisturbed others m m.
Proof. done. Qed.

Lemma undisturbed_rest m m' space rest : machine_ok m (space :: rest) →
  frame_rest (pml4_frame space) m m' → undisturbed rest m m'.
Proof.
  intros Hok Hf. split_and!; [|intros ph _; by rewrite (fr_memory _ _ _ Hf)|by rewrite (fr_root _ _ _ Hf)].
  intros s a Hs. apply other_roots in Hok. rewrite Forall_forall in Hok.
  assert (located s m' a = located s m a) as E
    by (unfold located, space_leaves; by rewrite (fr_tables _ _ _ Hf _ (Hok _ Hs))).
  unfold user_byte. rewrite E, (fr_memory _ _ _ Hf). done.
Qed.

Lemma machine_ok_memory m spaces mem : machine_ok m spaces → machine_ok (set_memory mem m) spaces.
Proof. intros [Ho Hk Ha Hs]. by constructor. Qed.

Lemma located_not_kernel m space rest a l : machine_ok m (space :: rest) →
  located space m a = Some l → align_down l.1 ∉ kernel_frames.
Proof.
  intros Hok Hl Hin. pose proof Hok as [_ _ (al&_&Hc) [Hs _]%Forall_cons].
  destruct (located_frame _ _ _ _ (proj1 Hs) Hl) as (f&fl&Hf&Hal&->). simpl in Hin.
  assert (align_down (f + a mod 4096) = f) as E
    by (unfold align_down; Z.to_euclidean_division_equations; lia).
  rewrite E in Hin. apply conserves_NoDup in Hc. rewrite bind_cons, <- !app_assoc in Hc.
  apply NoDup_app in Hc as (_&Hd&_). apply (Hd f); [by eapply leaf_frame_owned|set_solver].
Qed.

(** A copy into a space changes no other space. *)
Lemma copy_undisturbed m space rest start data f :
  machine_ok m (space :: rest) → stores data f →
  let '(_, m') := for_each_mapped_chunk space start (zlen data) f m in
  machine_ok m' (space :: rest) ∧ undisturbed rest m m'.
Proof.
  intros Hok Hf. pose proof Hok as [Ho _ _ [[Hpt _] _]%Forall_cons].
  pose proof (for_each_mapped_chunk_spec space start data f m Ho Hpt (machine_ok_inj _ _ _ Hok) Hf) as Hs.
  destruct (for_each_mapped_chunk _ _ _ _ _) as [[u|e] m'].
  - destruct Hs as (_&mem'&->&_&Hout). split; [by apply machine_ok_memory|]. split_and!; [| |done].
    2:{ intros ph Hph. apply Hout. intros b lb _ Hlb <-. by eapply located_not_kernel. }
    intros s a Hin. split; [done|]. unfold user_byte. change (located s (set_memory mem' m) a) with (located s m a).
    destruct (located s m a) as [l|] eqn:El; [|done]. simpl. f_equal. apply Hout.
    intros b lb _ Hlb. by eapply located_disjoint.
  - destruct Hs as [_ ->]. done.
Qed.

Lemma leaf_frames_alter (pt pt' : PT) p fl :
  leaves pt' = alter (λ l, (l.1, fl)) p (leaves pt) → leaf_frames pt' ≡ₚ leaf_frames pt.
Proof.
  intros E. unfold leaf_frames. rewrite E. destruct (leaves pt !! p) as [[f fl0]|] eqn:Hp.
  - rewrite <- (insert_delete_id _ _ _ Hp) at 2. 
    assert (alter (λ l : Z * PageTableFlags, (l.1, fl)) p (leaves pt) = <[p := (f, fl)]> (delete p (leaves pt))) as ->.
    { apply map_eq. intros q. destruct (decide (p = q)) as [<-|Hne].
      - by rewrite lookup_alter_eq, Hp, lookup_insert_eq.
      - by rewrite lookup_alter_ne, lookup_insert_ne, lookup_delete_ne. }
    rewrite !map_to_list_insert by apply lookup_delete_eq. done.
  - assert (alter (λ l : Z * PageTableFlags, (l.1, fl)) p (leaves pt) = leaves pt) as ->; [|done].
    apply map_eq. intros q. destruct (decide (p = q)) as [<-|Hne]; [by rewrite lookup_alter_eq, Hp|by rewrite lookup_alter_ne].
Qed.

Lemma update_flags_step page flags m space rest :
  machine_ok m (space :: rest) → page mod 4096 = 0 → USER_SPACE_BASE <= page < user_end →
  let '(_, m') := update_flags_in_address_space space page flags m in
  machine_ok m' (space :: rest) ∧ frame_rest (pml4_frame space) m m'.
Proof.
  intros Hok Hal Hr. destruct (offset_some _ _ Hok) as [o Ho]. pose proof Hok as [_ _ (al&Ha&Hc) Hs].
  apply Forall_cons in Hs as [[Hpt Hp] _].
  unfold update_flags_in_address_space, mbind, M_bind, mget, mlift, mensure, mput. rewrite Ho. cbn [ok_or].
  pose proof (update_flags_spec page flags (mapper_for (pml4_frame space) m) Hpt
    (proj1 (user_slot_region _ Hr)) Hal) as Hu.
  destruct (update_flags _ _ _) as [ok pt]. destruct Hu as (Hpt'&Hl&Ht&_).
  assert (frame_rest (pml4_frame space) m (set_table (pml4_frame space) pt m)) as Hfr.
  { constructor; [done|done|done| |done]. intros r Hne. unfold mapper_for. simpl. by rewrite lookup_insert_ne. }
  destruct (ensure ok _); cbn beta iota; (split; [|done]);
    (eapply machine_ok_step; [exact Hok|done|done|exact Ha| |];
      [by rewrite bind_cons, <- app_assoc in Hc|
       split; rewrite mapper_for_set; [done|]; by rewrite Ht, (leaf_frames_alter _ _ _ _ Hl)]).
Qed.

(** Every operation on a space keeps the machine well formed and leaves the
    other spaces alone. *)
Lemma run_space_op_spec op m space rest :
  machine_ok m (space :: rest) → space_op_ok op →
  let '(_, (m', space')) := run_space_op op (m, space) in
  machine_ok m' (space' :: rest) ∧ undisturbed rest m m' ∧ pml4_frame space' = pml4_frame space.
Proof.
  intros Hok Hop. unfold run_space_op, on_machine, mbind, M_bind, mget. cbn [fst snd]. destruct op; simpl in Hop.
  - pose proof (map_in_address_space_spec page flags m space rest Hok (proj1 Hop) (proj2 Hop)) as H'.
    destruct (map_in_address_space _ _ _) as [? [m' sp']]. destruct H' as (?&?&?&_). eauto using undisturbed_rest.
  - pose proof (update_flags_step page flags m space rest Hok (proj1 Hop) (proj2 Hop)) as H'.
    destruct (update_flags_in_address_space _ _ _ _) as [? m']. destruct H'. eauto using undisturbed_rest.
  - pose proof (unmap_range_spec start count m space rest Hok Hop) as H'.
    destruct (unmap_range_in_address_space_atomic _ _ _) as [? [m' sp']]. destruct H' as (?&?&?&_).
    eauto using undisturbed_rest.
  - pose proof (clean_up_spec' start count m space rest Hok) as H'.
    destruct (clean_up_empty_tables_in_range _ _ _) as [[] [m' sp']]; destruct H' as (?&?&?&_); cbn [mret M_ret];
      eauto using undisturbed_rest.
  - pose proof (copy_undisturbed m space rest dest data _ Hok (write_stores data)) as H'.
    unfold write_bytes_in_address_space. destruct (for_each_mapped_chunk _ _ _ _ _). by destruct H'.
  - pose proof (copy_undisturbed m space rest dest _ _ Hok (zero_stores len Hop)) as H'.
    rewrite zlen_replicate in H' by done. unfold zero_bytes_in_address_space.
    destruct (for_each_mapped_chunk _ _ _ _ _). by destruct H'.
Qed.

Lemma insert_perm {A} (l : list A) i x : (i < length l)%nat → <[i := x]> l ≡ₚ x :: delete i l.
Proof.
  revert i. induction l as [|y l IH]; intros [|i] Hi; simpl in *; [lia|lia|done|].
  rewrite IH by lia. apply perm_swap.
Qed.

Lemma elem_of_delete_ne {A} (l : list A) i j x : l !! j = Some x → i ≠ j → x ∈ delete i l.
Proof.
  intros Hj Hne. apply list_elem_of_lookup. destruct (decide (j < i)%nat).
  - exists j. by rewrite list_lookup_delete_lt.
  - exists (j - 1)%nat. rewrite list_lookup_delete_ge by lia. by replace (S (j - 1)) with j by lia.
Qed.

Lemma run_op_ok op m spaces : machine_ok m spaces → paging_op_ok op →
  machine_ok (paging_step (m, spaces) op).1 (paging_step (m, spaces) op).2.
Proof.
  intros Hok Hop. destruct op as [|i op|i]; simpl.
  - pose proof (new_address_space_spec m spaces Hok) as H'. destruct (new_address_space m) as [[sp|] m']; simpl.
    + by destruct H' as [? _].
    + by subst m'.
  - destruct (spaces !! i) as [sp|] eqn:Ei; [|done].
    pose proof (run_space_op_spec op m sp (delete i spaces)) as H'.
    specialize (H' (machine_ok_perm _ _ _ (delete_Permutation _ _ _ Ei) Hok) Hop).
    destruct (run_space_op op (m, sp)) as [? [m' sp']]. simpl.
    eapply machine_ok_perm; [|apply H']. symmetry. apply insert_perm. by eapply lookup_lt_Some.
  - destruct (spaces !! i) as [sp|] eqn:Ei; [|done]. simpl. apply free_address_space_spec.
    eapply machine_ok_perm; [|exact Hok]. by apply delete_Permutation.
Qed.

Lemma run_ops_ok ops s : machine_ok s.1 s.2 → Forall paging_op_ok ops →
  machine_ok (run_ops s ops).1 (run_ops s ops).2.
Proof.
  intros Hok Hops. revert s Hok. induction Hops as [|op ops Hop _ IH]; intros [m spaces] Hok; [done|].
  simpl. apply IH. by apply run_op_ok.
Qed.

Lemma booted_ok m : booted m → machine_ok m [].
Proof.
  intros (Ho&Hk&Hr&al&Ha&Hallocs). constructor; [done|done| |constructor]. exists al. split; [done|].
  eapply conserves_perm; [|eapply (allocs_conserves _ _ _ []); [exact Hallocs|by constructor]].
  by rewrite app_nil_r.
Qed.

(** The states a run from boot can reach. *)
Definition reachable m (spaces : list AddressSpace) : Prop :=
  ∃ m0 ops, booted m0 ∧ Forall paging_op_ok ops ∧ run_ops (m0, []) ops = (m, spaces).

Lemma reachable_ok m spaces : reachable m spaces → machine_ok m spaces.
Proof.
  intros (m0&ops&Hb&Hops&E). pose proof (run_ops_ok ops (m0, []) (booted_ok _ Hb) Hops) as Hok.
  by rewrite E in Hok.
Qed.

Lemma reachable_space m spaces i space : reachable m spaces → spaces !! i = Some space →
  machine_ok m (space :: delete i spaces).
Proof. intros Hr Hi. eapply machine_ok_perm; [by apply delete_Permutation|by apply reachable_ok]. Qed.

(** Whether the operation works on the [j]-th space. *)
Definition names (op : PagingOp) (j : nat) : bool :=
  match op with NewSpace => false | OnSpace i _ | FreeSpace i => (i =? j)%nat end.

(** The kernel never issues a frame twice and loses none. *)
Definition frames_partition m (spaces : list AddressSpace) : Prop :=
  ∃ al, frame_allocator m = Some al ∧
    let in_use := (spaces ≫= owned_frames) ++ kernel_frames in
    NoDup (in_use ++ freed al) ∧ in_use ++ freed al ≡ₚ issued al ∧
    Forall (λ f, ∃ r, r ∈ List.filter is_usable boot_map ∧ in_region f r) (in_use ++ freed al).

(** C39: in every run, each frame the allocator has issued is in use exactly
    once, by the kernel heap or by one address space, or waits in the pool; it
    lies in usable memory; and each space owns exactly its root, its tables
    and the frames it maps. *)
Theorem frames_are_partitioned m spaces : reachable m spaces →
  frames_partition m spaces ∧
  Forall (λ s, owned_frames s ≡ₚ pml4_frame s :: tables (mapper_for (pml4_frame s) m)
                                ++ leaf_frames (mapper_for (pml4_frame s) m)) spaces.
Proof.
  intros Hr. pose proof (reachable_ok _ _ Hr) as [_ _ (al&Ha&Hc) Hs]. split.
  - exists al. split; [done|]. split_and!; [by eapply conserves_NoDup|by destruct Hc|].
    rewrite Forall_forall. intros f Hf. destruct (conserves_usable _ _ _ Hc Hf) as (r&Hr'&?).
    exists r. split; [|done]. destruct Hc as [_ _ _ Hm]. unfold usable_regions in Hr'. by rewrite Hm in Hr'.
  - apply (Forall_impl _ _ _ Hs). by intros s [_ ?].
Qed.

(** C38: an operation on one address space, successful or not, leaves every
    other process's view of its memory and the kernel heap unchanged. *)
Theorem spaces_are_isolated m spaces op j s a :
  reachable m spaces → paging_op_ok op → spaces !! j = Some s → names op j = false →
  let '(m', spaces') := paging_step (m, spaces) op in
  s ∈ spaces' ∧ user_byte s m' a = user_byte s m a ∧
  ∀ ph, align_down ph ∈ kernel_frames → memory m' ph = memory m ph.
Proof.
  intros Hr Hop Hj Hn. pose proof (list_elem_of_lookup_2 _ _ _ Hj) as Hin.
  pose proof (reachable_ok _ _ Hr) as Hok. destruct op as [|i op|i]; simpl in *.
  - pose proof (new_address_space_spec m spaces Hok) as H'. destruct (new_address_space m) as [[sp|e] m'].
    + destruct H' as (Hok'&_&_&Hf). apply other_roots in Hok'. rewrite Forall_forall in Hok'.
      split_and!; [set_solver| |intros; by rewrite (fr_memory _ _ _ Hf)].
      unfold user_byte, located, space_leaves.
      by rewrite (fr_tables _ _ _ Hf _ (Hok' _ Hin)), (fr_memory _ _ _ Hf).
    + by subst.
  - apply Nat.eqb_neq in Hn. destruct (spaces !! i) as [sp|] eqn:Ei; [|done].
    pose proof (run_space_op_spec op m sp _ (reachable_space _ _ _ _ Hr Ei) Hop) as H'.
    destruct (run_space_op op (m, sp)) as [? [m' sp']]. destruct H' as (_&(Hu&Hk&_)&_).
    assert (s ∈ delete i spaces) as Hd by (by eapply elem_of_delete_ne).
    split_and!; [|by apply Hu|done]. apply list_elem_of_lookup. exists j. by rewrite list_lookup_insert_ne.
  - apply Nat.eqb_neq in Hn. destruct (spaces !! i) as [sp|] eqn:Ei; [|done].
    assert (memory (free_address_space sp m) = memory m) as Em
      by (unfold free_address_space; by destruct (frame_allocator m)).
    split_and!.
    + by eapply elem_of_delete_ne.
    + unfold free_address_space. by destruct (frame_allocator m).
    + by rewrite Em.
Qed.

Lemma read_after_write m space start data mem' :
  phys_mem_offset m ≠ 0 → pt_ok (mapper_for (pml4_frame space) m) → range_ok space m start (zlen data) true →
  copied space m start 0 (zlen data) data (memory m) mem' →
  read_bytes_from_address_space_into space start (zlen data) (set_memory mem' m) = Ok data.
Proof.
  intros Ho Hpt (Hb&He&Hall) [Hin _].
  pose proof (read_bytes_spec space start (zlen data) (set_memory mem' m) Ho Hpt (zlen_nonneg data)) as Hr.
  destruct (read_bytes_from_address_space_into _ _ _ _) as [bs|e].
  - destruct Hr as (_&Hlen&Hbs). f_equal. apply list_eq_same_length with (n := length data);
      [done|unfold zlen in Hlen; lia|]. intros i x y Hi Hx Hy.
    destruct (Hall (start + Z.of_nat i)) as (l&Hl&_); [unfold zlen; lia|].
    specialize (Hbs (Z.of_nat i) ltac:(unfold zlen; lia)). rewrite Nat2Z.id, Hx in Hbs.
    unfold user_byte in Hbs. change (located space (set_memory mem' m) (start + Z.of_nat i))
      with (located space m (start + Z.of_nat i)) in Hbs.
    rewrite Hl in Hbs. simpl in Hbs. injection Hbs as ->.
    rewrite (Hin (start + Z.of_nat i) l) by (done || unfold zlen; lia).
    replace (Z.to_nat (start + Z.of_nat i - start)) with i by lia. by apply nth_lookup_Some.
  - destruct Hr. split_and!; [lia|lia|done|]. intros a Ha. destruct (Hall a Ha) as (l&Hl&Hfl).
    exists l. split; [exact Hl|]. unfold allowed in *. simpl. by apply andb_true_iff in Hfl as [-> _].
Qed.

(** A copy into user memory is refused, with nothing written, unless every
    byte of the range lies on present, user-accessible, writable pages of the
    user region; when accepted, the data reads back from that range and no
    other byte the process sees changes. *)
Theorem user_copy_is_exact m spaces i space dest data :
  reachable m spaces → spaces !! i = Some space →
  match write_bytes_in_address_space space dest data m with
  | (Ok _, m') =>
      range_ok space m dest (zlen data) true ∧
      read_bytes_from_address_space_into space dest (zlen data) m' = Ok data ∧
      ∀ a, ¬ (dest <= a < dest + zlen data) → user_byte space m' a = user_byte space m a
  | (Err _, m') => ¬ range_ok space m dest (zlen data) true ∧ m' = m
  end.
Proof.
  intros Hr Hi. pose proof (reachable_space _ _ _ _ Hr Hi) as Hok. pose proof Hok as [Ho _ _ [[Hpt _] _]%Forall_cons].
  pose proof (machine_ok_inj _ _ _ Hok) as Hinj.
  pose proof (for_each_mapped_chunk_spec space dest data _ m Ho Hpt Hinj (write_stores data)) as Hw.
  unfold write_bytes_in_address_space. destruct (for_each_mapped_chunk _ _ _ _ _) as [[u|e] m']; [|done].
  destruct Hw as (Hrange&mem'&->&Hcop). split_and!; [done|by apply read_after_write|].
  intros a Ha. unfold user_byte. change (located space (set_memory mem' m) a) with (located space m a).
  destruct (located space m a) as [l|] eqn:El; [|done]. simpl. f_equal. apply Hcop.
  intros b lb Hb Hlb E. apply Ha. rewrite <- (Hinj _ _ _ _ Hlb El E). lia.
Qed.

(** Unmapping a range is a transaction: it succeeds exactly when the range
    is whole pages of mapped user memory, then removes those mappings and
    nothing else and gives up one frame per page; a refused request changes
    neither the machine nor the space. *)
Theorem unmap_is_all_or_nothing m spaces i space start count :
  reachable m spaces → spaces !! i = Some space → 0 <= count →
  let '(r, (m', space')) := unmap_range_in_address_space_atomic start count (m, space) in
  match r with
  | Ok _ =>
      unmap_request_ok space m start count ∧
      space_leaves space' m' = filter (λ pl, ¬ in_range start (4096 * count) pl.1) (space_leaves space m) ∧
      frame_count space = frame_count space' + count
  | Err _ => ¬ unmap_request_ok space m start count ∧ (m', space') = (m, space)
  end.
Proof.
  intros Hr Hi Hcount.
  pose proof (unmap_range_spec start count m space _ (reachable_space _ _ _ _ Hr Hi) Hcount) as H'.
  destruct (unmap_range_in_address_space_atomic _ _ _) as [r [m' space']]. by destruct H' as (_&_&_&?).
Qed.
End safety.

(** ** What a process sees: at each address, the byte and the permissions of its
    page. The loader and the memory calls are described by what they do to this
    view. *)

Section view.
Context {PT : Type} `{!BootMap, !KernelFrames, !X86Addr, !X86AddrSpec, !X86_64 PT, !X86_64Spec PT USER_REGION_PML4_INDEX}.
Implicit Types (m : Machine PT) (space : AddressSpace).

Definition view (s : Machine PT * AddressSpace) (a : Z) : option (byte * PageTableFlags) :=
  (λ l, (memory s.1 l.1, l.2)) <$> located s.2 s.1 a.

Lemma view_located m space a b fl : view (m, space) a = Some (b, fl) → ∃ l, located space m a = Some l ∧ l.2 = fl.
Proof. unfold view. simpl. destruct (located space m a) as [l|]; [|done]. intros [= _ <-]. eauto. Qed.

(** The bytes from [start] on replaced by [data]. *)
Definition overlay (start : Z) (data : list byte) (a : Z) (b : byte) : byte :=
  if (start <=? a) && (a <? start + zlen data) then nth (Z.to_nat (a - start)) data Byte.x00 else b.

Lemma overlay_in start data a b : start <= a < start + zlen data →
  overlay start data a b = nth (Z.to_nat (a - start)) data Byte.x00.
Proof.
  intros Ha. unfold overlay. destruct (Z.leb_spec start a), (Z.ltb_spec a (start + zlen data)); done || lia.
Qed.

Lemma overlay_out start data a b : ¬ (start <= a < start + zlen data) → overlay start data a b = b.
Proof.
  intros Ha. unfold overlay. destruct (Z.leb_spec start a), (Z.ltb_spec a (start + zlen data)); done || lia.
Qed.

(** A step of a space within the machine: the machine stays well formed, the
    other spaces and the kernel heap are left alone, and the space keeps its
    root. *)
Definition steps rest (s s' : Machine PT * AddressSpace) : Prop :=
  machine_ok s.1 (s.2 :: rest) →
  machine_ok s'.1 (s'.2 :: rest) ∧ undisturbed rest s.1 s'.1 ∧ pml4_frame s'.2 = pml4_frame s.2.

Lemma undisturbed_trans rest m1 m2 m3 : undisturbed rest m1 m2 → undisturbed rest m2 m3 → undisturbed rest m1 m3.
Proof.
  intros (Hu2&Hk2&Hr2) (Hu3&Hk3&Hr3). split_and!; [| |congruence].
  - intros s a Hs. destruct (Hu2 s a Hs) as [<- <-]. by apply Hu3.
  - intros ph Hph. rewrite <- Hk2 by done. by apply Hk3.
Qed.

#[global] Instance steps_preorder rest : PreOrder (steps rest).
Proof.
  split.
  - intros s Hok. split; [done|]. split; [apply undisturbed_refl|done].
  - intros s1 s2 s3 H12 H23 Hok. destruct (H12 Hok) as (Hok2&Hu2&Hr2). destruct (H23 Hok2) as (Hok3&Hu3&Hr3).
    split; [done|]. split; [by eapply undisturbed_trans|congruence].
Qed.

Lemma run_space_op_steps op rest : space_op_ok op → respects (steps rest) (run_space_op op).
Proof.
  intros Hop [m space] r [m' space'] E Hok. pose proof (run_space_op_spec op m space rest Hok Hop) as Hs.
  by rewrite E in Hs.
Qed.

(** ** The view after each operation *)

Lemma page_of_view m space page a f fl : page mod 4096 = 0 →
  space_leaves space m !! page = Some (f, fl) → align_down a = page →
  view (m, space) a = Some (memory m (f + a mod 4096), fl).
Proof. intros Hp Hl <-. unfold view, located. simpl. by rewrite Hl. Qed.

Lemma map_in_address_space_view page flags m space m' space' rest :
  machine_ok m (space :: rest) → page mod 4096 = 0 →
  0 <= page < 2 ^ 47 ∨ 2 ^ 64 - 2 ^ 47 <= page < 2 ^ 64 →
  map_in_address_space page flags (m, space) = (Ok tt, (m', space')) →
  ∀ a, if decide (align_down a = page)
       then view (m, space) a = None ∧ ∃ b, view (m', space') a = Some (b, flags)
       else view (m', space') a = view (m, space) a.
Proof.
  intros Hok Hal Hcan E a. pose proof (map_in_address_space_spec page flags m space rest Hok Hal Hcan) as Hs.
  rewrite E in Hs. destruct Hs as (_&_&Hf&Hn&f&Hl). unfold view, located. simpl. rewrite Hl, (fr_memory _ _ _ Hf).
  case_decide as Ha.
  - rewrite Ha, lookup_insert_eq, Hn. simpl. eauto.
  - by rewrite lookup_insert_ne.
Qed.

Lemma copy_view space start data f m m' rest u :
  machine_ok m (space :: rest) → stores data f →
  for_each_mapped_chunk space start (zlen data) f m = (Ok u, m') →
  ∀ a, view (m', space) a = (λ bf, (overlay start data a bf.1, bf.2)) <$> view (m, space) a.
Proof.
  intros Hok Hf E a. pose proof Hok as [Ho _ _ [[Hpt _] _]%Forall_cons].
  pose proof (for_each_mapped_chunk_spec space start data f m Ho Hpt (machine_ok_inj _ _ _ Hok) Hf) as Hs.
  rewrite E in Hs. destruct Hs as (_&mem'&->&Hin&Hout). unfold view. simpl.
  change (located space (set_memory mem' m) a) with (located space m a).
  destruct (located space m a) as [l|] eqn:El; [|done]. simpl. do 2 f_equal.
  destruct (decide (start <= a < start + zlen data)) as [Ha|Ha].
  - rewrite overlay_in by done. apply Hin; [lia|done].
  - rewrite overlay_out by done. apply Hout. intros b lb Hb Hlb Eb. apply Ha.
    pose proof (machine_ok_inj _ _ _ Hok _ _ _ _ Hlb El Eb) as <-. lia.
Qed.

Lemma update_flags_view page flags m m' space rest r :
  machine_ok m (space :: rest) → page mod 4096 = 0 → USER_SPACE_BASE <= page < user_end →
  update_flags_in_address_space space page flags m = (r, m') →
  ∀ a, view (m', space) a =
       (λ bf, (bf.1, if decide (align_down a = page) then flags else bf.2)) <$> view (m, space) a.
Proof.
  intros Hok Hal Hr E a. destruct (offset_some _ _ Hok) as [o Ho]. pose proof Hok as [_ _ _ [[Hpt _] _]%Forall_cons].
  unfold update_flags_in_address_space, mbind, M_bind, mget, mlift, mensure, mput in E. rewrite Ho in E. cbn [ok_or] in E.
  pose proof (update_flags_spec page flags (mapper_for (pml4_frame space) m) Hpt
    (proj1 (user_slot_region _ Hr)) Hal) as Hu.
  destruct (update_flags _ _ _) as [ok pt]. destruct Hu as (_&Hl&_&_). injection E as _ <-.
  unfold view, located, space_leaves. simpl. rewrite mapper_for_set, Hl.
  case_decide as Ha.
  - rewrite Ha, lookup_alter_eq. by destruct (leaves _ !! page) as [[f fl]|].
  - rewrite lookup_alter_ne by done. by destruct (leaves _ !! align_down a) as [[f fl]|].
Qed.
End view.


(** ** A concrete machine *)

Module Sample.
Definition regions : list MemoryRegion :=
  [mk_region 0x1000 0x9000 Usable; mk_region 0x9000 0xA000 NotUsable; mk_region 0x100000 0x140000 Usable].
Definition heap_frames : list Z := [0x1000; 0x2000].
Definition booted_allocator : BootInfoFrameAllocator := mk_allocator regions 2 [] 2.
Definition machine : Machine sim_pt :=
  mk_machine 0x10000000000 0x7000 (Some (mk_sim ∅ ∅ ∅)) (Some booted_allocator) ∅ (λ _, Byte.xaa).
Definition rw : PageTableFlags := mk_flags true true true true.
Definition ro : PageTableFlags := mk_flags true false true true.
Definition U := USER_SPACE_BASE.

(** Two processes; one writes across a page boundary. *)
Definition ops : list PagingOp :=
  [NewSpace; NewSpace; OnSpace 0 (MapPage U rw); OnSpace 0 (MapPage (U + 0x1000) rw); OnSpace 1 (MapPage U rw);
   OnSpace 0 (ZeroBytes U 0x2000); OnSpace 1 (MapPage (U + 0x200000) rw); OnSpace 1 (SetFlags (U + 0x200000) ro);
   OnSpace 0 (WriteBytes (U + 0xffe) [Byte.x01; Byte.x02; Byte.x03; Byte.x04]);
   OnSpace 1 (UnmapRange U 1); OnSpace 1 (CleanTables U 1)].

#[local] Existing Instance sim_addr.
#[local] Existing Instance sim_addr_spec.
#[local] Existing Instance sim_x86.
#[local] Instance sample_spec : X86_64Spec sim_pt USER_REGION_PML4_INDEX := sim_x86_spec _.
#[local] Instance sample_map : BootMap := regions.
#[local] Instance sample_heap : KernelFrames := heap_frames.

Lemma sample_booted : booted machine.
Proof.
  split_and!; [done|by eexists| |].
  - split; [by repeat constructor|]. intros [|[|i]] [|[|j]] r r' Hi Hj Hij; simpl in *; simplify_eq; simpl; lia.
  - exists booted_allocator. split; [done|]. do 2 (eapply allocs_some; [vm_compute; reflexivity|]). constructor.
Qed.

Lemma sample_reaches (l : list PagingOp) : Forall paging_op_ok l →
  reachable (run_ops (machine, []) l).1 (run_ops (machine, []) l).2.
Proof.
  intros Hl. exists machine, l. split_and!; [apply sample_booted|done|apply surjective_pairing].
Qed.

Definition run : Machine sim_pt * list AddressSpace := run_ops (machine, []) ops.
Definition space (i : nat) : AddressSpace := default (mk_space 0 []) (run.2 !! i).

Lemma sample_reachable : reachable run.1 run.2.
Proof. apply sample_reaches. by apply (bool_decide_eq_true_1 (Forall paging_op_ok ops)); vm_compute. Qed.

Lemma frames_are_partitioned_witness :
  frame_count <$> run.2 = [6; 5] ∧ frames_partition run.1 run.2.
Proof.
  split; [vm_compute; reflexivity|]. apply (frames_are_partitioned run.1 run.2 sample_reachable).
Defined.

Definition write_op : PagingOp := OnSpace 0 (WriteBytes (U + 0xfff) [Byte.x05]).

Lemma spaces_are_isolated_witness :
  let '(m', spaces') := paging_step (run.1, run.2) write_op in
  space 1 ∈ spaces' ∧ user_byte (space 1) m' U = user_byte (space 1) run.1 U ∧
  ∀ ph, align_down ph ∈ @kernel_frames heap_frames → memory m' ph = memory run.1 ph.
Proof.
  apply (spaces_are_isolated run.1 run.2 write_op 1 (space 1) U sample_reachable);
    [by apply (bool_decide_eq_true_1 (paging_op_ok write_op)); vm_compute|vm_compute; reflexivity|reflexivity].
Defined.

Definition crossing : list byte := [Byte.x07; Byte.x08].

Lemma user_copy_is_exact_witness :
  (write_bytes_in_address_space (space 0) (U + 0xfff) crossing run.1).1 = Ok tt ∧
  match write_bytes_in_address_space (space 0) (U + 0xfff) crossing run.1 with
  | (Ok _, m') =>
      range_ok (space 0) run.1 (U + 0xfff) (zlen crossing) true ∧
      read_bytes_from_address_space_into (space 0) (U + 0xfff) (zlen crossing) m' = Ok crossing ∧
      ∀ a, ¬ (U + 0xfff <= a < U + 0xfff + zlen crossing) → user_byte (space 0) m' a = user_byte (space 0) run.1 a
  | (Err _, m') => ¬ range_ok (space 0) run.1 (U + 0xfff) (zlen crossing) true ∧ m' = run.1
  end.
Proof.
  split; [vm_compute; reflexivity|].
  apply (user_copy_is_exact run.1 run.2 0 (space 0) (U + 0xfff) crossing sample_reachable). vm_compute. reflexivity.
Defined.

Lemma unmap_is_all_or_nothing_witness :
  (unmap_range_in_address_space_atomic U 2 (run.1, space 0)).1 = Ok tt ∧
  let '(r, (m', space')) := unmap_range_in_address_space_atomic U 2 (run.1, space 0) in
  match r with
  | Ok _ =>
      unmap_request_ok (space 0) run.1 U 2 ∧
      space_leaves space' m' = filter (λ pl, ¬ in_range U (4096 * 2) pl.1) (space_leaves (space 0) run.1) ∧
      frame_count (space 0) = frame_count space' + 2
  | Err _ => ¬ unmap_request_ok (space 0) run.1 U 2 ∧ (m', space') = (run.1, space 0)
  end.
Proof.
  split; [vm_compute; reflexivity|].
  apply (unmap_is_all_or_nothing run.1 run.2 0 (space 0) U 2 sample_reachable); [vm_compute; reflexivity|lia].
Defined.

(** A request that runs past the mapped pages, and one that is not aligned. *)
Example unmap_refused :
  (unmap_range_in_address_space_atomic U 3 (run.1, space 0)).1 = Err "user range contains an unmapped page" ∧
  (unmap_range_in_address_space_atomic (U + 1) 1 (run.1, space 0)).1
    = Err "unmap range must contain aligned whole pages" ∧
  (write_bytes_in_address_space (space 1) (U + 0x200000) [Byte.x01] run.1).1
    = Err "user range contains a read-only page".
Proof. split_and!; vm_compute; reflexivity. Qed.
End Sample.
