(* ===== verification/Memory.v ===== *)
(** Memory set-up at boot: kernel/memory.rs, kernel/allocator.rs as far as the
    kernel decides it, and the part of kernel/paging.rs that runs before there
    is a kernel-wide mapper ([enable_nx], [init], [map_page], [install]).

    [init_heap] maps the 4 MiB of the kernel heap page by page and hands the
    mapper and the frame allocator over to the kernel; when the bootloader gave
    no mapping of physical memory, or frames run out, the heap is a static array
    instead. The theorem ties it to what the rest of the library starts from:
    a machine that [booted] with the frames that went into the heap.

    The free list of the heap is the linked_list_allocator crate's; here the
    heap is the range that it was given. *)

From S2P Require Import Prelude X86 Frames Paging PagingSpaces PagingSafety.

Definition HEAP_START : Z := 0x444444440000.
Definition HEAP_SIZE : Z := 4 * 1024 * 1024.

(** [Efer::update] and [Efer::read]: [wrmsr] is what the processor makes of a
    value that is written to the register. *)
Definition EFER_NXE : Z := 11.
Definition enable_nx (wrmsr : Z → Z) (efer : Z) : option Z :=
  let efer := wrmsr (Z.setbit efer EFER_NXE) in
  if Z.testbit efer EFER_NXE then Some efer else None.

(** [HEAP] and [INITIALIZED] of allocator.rs *)
Record Heap := mk_heap { heap_range : option (Z * Z); heap_initialized : bool }.
Definition heap_new : Heap := mk_heap None false.
Definition heap_init (start size : Z) (h : Heap) : Heap := mk_heap (Some (start, size)) true.

(** [Page::range_inclusive(containing_address(start), containing_address(end))] *)
Definition page_range `{X86Addr} (start end_ : Z) : list Z :=
  let first := page_containing start in
  (λ i, first + 4096 * i) <$> seqZ 0 ((page_containing end_ - first) / 4096 + 1).

Section memory.
Context {PT : Type} `{!BootMap, !X86Addr} `{!X86_64 PT}.

Definition map_page (page : Z) (flags : PageTableFlags) : M (PT * BootInfoFrameAllocator) unit := λ s,
  let '(mapper, al) := s in
  match allocate_frame al with
  | (None, al) => (Err "out of physical memory frames", (mapper, al))
  | (Some frame, al) =>
      let '(ok, mapper, al) := map_to allocate_frame page frame flags mapper al in
      (ensure ok "page mapping failed: already mapped or invalid page table state", (mapper, al))
  end.

(** The loop of [init_heap]. *)
Fixpoint map_heap_pages (pages : list Z) (flags : PageTableFlags) : M (PT * BootInfoFrameAllocator) unit :=
  match pages with
  | [] => mret tt
  | page :: pages => _ ← map_page page flags; map_heap_pages pages flags
  end.

Definition heap_flags : PageTableFlags := mk_flags true true false false.

(** [HEAP_STORAGE] is the address of the static array. *)
Definition fallback_static_heap (HEAP_STORAGE : Z) (h : Heap) : Heap := heap_init HEAP_STORAGE HEAP_SIZE h.

(** [cr3] is the level-4 frame in use, [table] the table [paging::init] finds in
    it at the offset. *)
Definition init_heap (physical_memory_offset : option Z) (cr3 : Z) (table : PT) (HEAP_STORAGE : Z) (m : Machine PT) (h : Heap)
    : Machine PT * Heap :=
  match physical_memory_offset with
  | None => (m, fallback_static_heap HEAP_STORAGE h)
  | Some offset =>
      match map_heap_pages (page_range HEAP_START (HEAP_START + (HEAP_SIZE - 1))) heap_flags (table, allocator_init boot_map) with
      | (Err _, _) => (m, fallback_static_heap HEAP_STORAGE h)
      | (Ok _, (mapper, al)) => (install mapper al offset cr3 m, heap_init HEAP_START HEAP_SIZE h)
      end
  end.
End memory.

(** ** The heap is made of frames of its own *)

Definition HEAP_SLOT : Z := pml4_index HEAP_START.

Section proofs.
Context {PT : Type} `{!BootMap, !X86Addr, !X86AddrSpec} `{!X86_64 PT, !X86_64Spec PT HEAP_SLOT}.
Implicit Types (pt : PT) (al : BootInfoFrameAllocator).

Lemma heap_slot a : HEAP_START <= a < HEAP_START + HEAP_SIZE → in_slot HEAP_SLOT a.
Proof. intros Ha. unfold in_slot. change HEAP_SLOT with 136. unfold HEAP_START, HEAP_SIZE in *. lia. Qed.

Lemma allocs_app al1 l1 al2 l2 al3 :
  allocs allocate_frame al1 l1 al2 → allocs allocate_frame al2 l2 al3 → allocs allocate_frame al1 (l1 ++ l2) al3.
Proof. induction 1; [done| |]; intros Ha; [eapply allocs_some|eapply allocs_none]; eauto. Qed.

(** A page is mapped to a frame of its own. *)
Lemma map_page_spec page fl pt al used : pt_ok pt → conserves al used → in_slot HEAP_SLOT page → page mod 4096 = 0 →
  wp (map_page page fl)
    (λ _ '(pt', al'), ∃ f new, allocs allocate_frame al (f :: new) al' ∧ pt_ok pt' ∧ leaves pt !! page = None ∧
       leaves pt' = <[page := (f, fl)]> (leaves pt))
    (λ _ _, True) (pt, al).
Proof.
  intros Hpt Hc Hs Hp. unfold wp, map_page. pose proof (allocate_spec al used Hc) as Ha. destruct (allocate_frame al) as [[f|] al1] eqn:E; [|done].
  pose proof (map_to_spec allocate_frame page f fl pt al1 Hpt Hs Hp) as Hm.
  rewrite (conserves_aligned _ _ f Ha ltac:(by left)) in Hm. specialize (Hm eq_refl).
  destruct (map_to _ _ _ _ _ _) as [[ok pt'] al2]. destruct Hm as (new&Hn&Hpt'&_&_&Hl). destruct ok; [|done].
  exists f, new. split; [by eapply allocs_some|done].
Qed.

(** Pages that are mapped, each to a frame of [frames]. *)
Definition backed (fl : PageTableFlags) pt (pages frames : list Z) : Prop :=
  Forall2 (λ page f, leaves pt !! page = Some (f, fl)) pages frames.

Lemma map_pages_spec fl pages pt al used : pt_ok pt → conserves al used →
  Forall (λ page, in_slot HEAP_SLOT page ∧ page mod 4096 = 0) pages →
  wp (map_heap_pages pages fl)
    (λ _ '(pt', al'), ∃ frames new, allocs allocate_frame al new al' ∧ pt_ok pt' ∧ frames ⊆+ new ∧ backed fl pt' pages frames ∧
       leaves pt ⊆ leaves pt')
    (λ _ _, True) (pt, al).
Proof.
  intros Hpt Hc Hps. revert pt al used Hpt Hc. induction Hps as [|page pages [Hs Hp] _ IH]; intros pt al used Hpt Hc.
  { apply wp_ret. exists [], []. split_and!; [constructor|done|done|constructor|done]. }
  cbn [map_heap_pages]. apply wp_bind. eapply wp_mono; [by eapply map_page_spec| |done].
  intros _ [pt1 al1] (f&new1&Ha1&Hpt1&Hfree&Hl1). eapply wp_mono; [eapply (IH pt1 al1); [done|by eapply allocs_conserves]| |done].
  intros _ [pt2 al2] (frames&new2&Ha2&Hpt2&Hsub&Hb&Hl2). exists (f :: frames), ((f :: new1) ++ new2).
  split_and!; [by eapply allocs_app|done| | |].
  - cbn [app]. apply submseteq_skip. by apply submseteq_inserts_l.
  - constructor; [|done]. eapply lookup_weaken; [|exact Hl2]. by rewrite Hl1, lookup_insert_eq.
  - etrans; [|exact Hl2]. rewrite Hl1. by apply insert_subseteq.
Qed.

Lemma heap_pages : page_range HEAP_START (HEAP_START + (HEAP_SIZE - 1)) = (λ i, HEAP_START + 4096 * i) <$> seqZ 0 1024.
Proof. unfold page_range. rewrite !page_align. reflexivity. Qed.

Lemma backed_address fl pt frames a : pt_ok pt → backed fl pt ((λ i, HEAP_START + 4096 * i) <$> seqZ 0 1024) frames →
  HEAP_START <= a < HEAP_START + HEAP_SIZE →
  ∃ f, frames !! Z.to_nat ((a - HEAP_START) / 4096) = Some f ∧ translate pt a = Mapped f (a mod 4096) fl.
Proof.
  intros Hpt Hb Ha. set (i := (a - HEAP_START) / 4096). assert (0 <= i < 1024) as Hi
    by (unfold i, HEAP_START, HEAP_SIZE in *; Z.to_euclidean_division_equations; lia).
  destruct (Forall2_lookup_l _ _ _ (Z.to_nat i) (HEAP_START + 4096 * i) Hb) as (f&Hf&Hl).
  { rewrite list_lookup_fmap, lookup_seqZ_lt by lia. cbn. do 2 f_equal. lia. }
  exists f. split; [done|]. rewrite (translate_spec pt a Hpt (heap_slot a Ha)).
  replace (align_down a) with (HEAP_START + 4096 * i); [by rewrite Hl|].
  unfold align_down, i, HEAP_START in *. Z.to_euclidean_division_equations. lia.
Qed.

(** The machine booted, with [frames] under its heap. *)
Definition booted_with (frames : KernelFrames) (m : Machine PT) : Prop := booted m.

Lemma init_heap_spec offset cr3 pt HEAP_STORAGE (m : Machine PT) h :
  regions_ok (List.filter is_usable boot_map) → pt_ok pt → offset ≠ Some 0 →
  let '(m', h') := init_heap offset cr3 pt HEAP_STORAGE m h in
  heap_initialized h' = true ∧
  (heap_range h' = Some (HEAP_STORAGE, HEAP_SIZE) ∧ m' = m ∨
   heap_range h' = Some (HEAP_START, HEAP_SIZE) ∧
   ∃ mapper frames kernel_frames,
     kernel_mapper m' = Some mapper ∧ kernel_pml4 m' = cr3 ∧ booted_with kernel_frames m' ∧ pt_ok mapper ∧
     backed heap_flags mapper ((λ i, HEAP_START + 4096 * i) <$> seqZ 0 1024) frames ∧ frames ⊆+ kernel_frames ∧ NoDup kernel_frames).
Proof.
  intros Hr Hpt Ho. unfold init_heap. destruct offset as [offset|]; [|split; [done|by left]].
  assert (conserves (allocator_init boot_map) []) as Hc by (by constructor).
  pose proof (map_pages_spec heap_flags (page_range HEAP_START (HEAP_START + (HEAP_SIZE - 1))) pt _ [] Hpt Hc) as Hm.
  rewrite heap_pages in *. unfold wp in Hm. destruct (map_heap_pages _ _ _) as [[[]|e] [mapper al]]; [|split; [done|by left]].
  destruct Hm as (frames&new&Ha&Hpt'&Hsub&Hb&_).
  { apply Forall_fmap, Forall_forall. intros i Hi%elem_of_seqZ. cbn. unfold in_slot. change HEAP_SLOT with 136. unfold HEAP_START.
    split; [lia|]. Z.to_euclidean_division_equations; lia. }
  split; [done|]. right. split; [done|]. exists mapper, frames, new. split_and!; [done|done| |done|done|done|].
  - split_and!; [by intros [=->]|by eexists|done|]. by exists al.
  - pose proof (allocs_conserves _ _ _ _ Ha Hc) as Hc'. apply conserves_NoDup in Hc'. rewrite app_nil_r in Hc'.
    by apply NoDup_app in Hc' as [? _].
Qed.

(** C37: The kernel heap is made of frames of its own. Whatever memory map and
    page table the bootloader leaves, after [init_heap] the heap is initialized
    and 4 MiB large. Either every address of it translates to one of 1,024
    different frames, writable and out of the reach of programs, no frame of the
    heap or of the tables below it is ever handed out again, and the machine is
    one the rest of the kernel starts from; or the heap is the static array and
    the kernel has no mapper. *)
Theorem kernel_heap_is_backed offset cr3 pt HEAP_STORAGE (m : Machine PT) h :
  regions_ok (List.filter is_usable boot_map) → pt_ok pt → offset ≠ Some 0 →
  let '(m', h') := init_heap offset cr3 pt HEAP_STORAGE m h in
  heap_initialized h' = true ∧
  (heap_range h' = Some (HEAP_STORAGE, HEAP_SIZE) ∧ m' = m ∨
   heap_range h' = Some (HEAP_START, HEAP_SIZE) ∧
   ∃ mapper frames kernel_frames,
     kernel_mapper m' = Some mapper ∧ kernel_pml4 m' = cr3 ∧ booted_with kernel_frames m' ∧
     length frames = 1024%nat ∧ NoDup frames ∧ frames ⊆+ kernel_frames ∧
     ∀ a, HEAP_START <= a < HEAP_START + HEAP_SIZE →
       ∃ f, frames !! Z.to_nat ((a - HEAP_START) / 4096) = Some f ∧ translate mapper a = Mapped f (a mod 4096) heap_flags).
Proof.
  intros Hr Hpt Ho. pose proof (init_heap_spec offset cr3 pt HEAP_STORAGE m h Hr Hpt Ho) as Hs.
  destruct (init_heap _ _ _ _ _ _) as [m' h']. destruct Hs as [Hi [Hf|(He&mapper&frames&ks&Hk&Hp&Hb&Hok&Hm&Hsub&Hd)]]; split; try done; [by left|right].
  split; [done|]. exists mapper, frames, ks. split_and!; [done..| | |done|].
  - by rewrite <- (Forall2_length _ _ _ Hm), length_fmap, length_seqZ.
  - apply submseteq_Permutation in Hsub as [k E]. rewrite E in Hd. by apply NoDup_app in Hd as [? _].
  - intros a. by eapply backed_address.
Qed.
End proofs.

(** ** A machine with 8 MiB of memory, and one with half of that *)

Module MemorySample.
Definition big : list MemoryRegion := [mk_region 0x1000 0x9000 Usable; mk_region 0x100000 0x900000 Usable].
Definition small : list MemoryRegion := [mk_region 0x100000 0x500000 Usable].
#[local] Existing Instance sim_addr.
#[local] Existing Instance sim_addr_spec.
#[local] Existing Instance sim_x86.
#[local] Instance heap_spec : X86_64Spec sim_pt HEAP_SLOT := sim_x86_spec _.

Definition powered_on : Machine sim_pt := mk_machine 0 0 None None ∅ (λ _, Byte.xaa).

Lemma big_regions_ok : regions_ok (List.filter is_usable big).
Proof. split; [by repeat constructor|]. intros [|[|i]] [|[|j]] r r' Hi Hj Hij; simpl in *; simplify_eq; simpl; lia. Qed.

(** What set-up leaves: where the heap is, its first two pages, and how many
    frames went into it (1,024, and four tables as the heap crosses two 2 MiB boundaries). *)
Definition heap_report (regions : BootMap) (offset : option Z) : option (Z * Z) * list TranslateResult * option FrameStats :=
  let '(m, h) := init_heap offset 0x7000 (mk_sim ∅ ∅ {[table_key 39 HEAP_START := 0x6000]}) 0xE000 powered_on heap_new in
  (heap_range h, match kernel_mapper m with Some pt => translate pt <$> [HEAP_START + 5; HEAP_START + 4096] | None => [] end, frame_stats m).

Example heap_of_big : heap_report big (Some 0x10000000000) =
  (Some (HEAP_START, HEAP_SIZE), [Mapped 0x1000 5 heap_flags; Mapped 0x4000 0 heap_flags],
   Some {| stat_allocated := 1028; stat_free_in_pool := 0; stat_bumped := 1028 |}).
Proof. vm_compute. reflexivity. Qed.

Example heap_of_small : (heap_report small (Some 0x10000000000), heap_report big None) =
  ((Some (0xE000, HEAP_SIZE), [], None), (Some (0xE000, HEAP_SIZE), [], None)).
Proof. vm_compute. reflexivity. Qed.

Lemma kernel_heap_is_backed_witness :
  let '(m', h') := init_heap (H := big) (Some 0x10000000000) 0x7000 (mk_sim ∅ ∅ ∅) 0xE000 powered_on heap_new in
  heap_initialized h' = true ∧
  (heap_range h' = Some (0xE000, HEAP_SIZE) ∧ m' = powered_on ∨
   heap_range h' = Some (HEAP_START, HEAP_SIZE) ∧
   ∃ mapper frames kernel_frames,
     kernel_mapper m' = Some mapper ∧ kernel_pml4 m' = 0x7000 ∧ booted_with (H := big) kernel_frames m' ∧
     length frames = 1024%nat ∧ NoDup frames ∧ frames ⊆+ kernel_frames ∧
     ∀ a, HEAP_START <= a < HEAP_START + HEAP_SIZE →
       ∃ f, frames !! Z.to_nat ((a - HEAP_START) / 4096) = Some f ∧ translate mapper a = Mapped f (a mod 4096) heap_flags).
Proof.
  apply (kernel_heap_is_backed (H := big) (Some 0x10000000000) 0x7000 (mk_sim ∅ ∅ ∅) 0xE000 powered_on heap_new);
    [apply big_regions_ok|done|discriminate].
Defined.
End MemorySample.
