(* ===== verification/Elf.v ===== *)
(** The program loader of kernel/src/elf.rs: validation of an ELF64 file, and
    mapping its segments into an address space.

    A [while page_addr < page_end] loop walks the list of page addresses it
    enumerates. [VirtAddr::new] panics on a non-canonical address; the pages of
    a validated segment lie in the user region, where it is the identity. *)

From S2P Require Import Prelude X86 Frames Paging PagingSpaces PagingRange PagingCopy PagingSafety.

Definition EI_CLASS : nat := 4.
Definition EI_DATA : nat := 5.
Definition EI_VERSION : nat := 6.
Definition ELFCLASS64 : Z := 2.
Definition ELFDATA2LSB : Z := 1.
Definition EV_CURRENT : Z := 1.
Definition ET_EXEC : Z := 2.
Definition EM_X86_64 : Z := 62.
Definition PT_LOAD : Z := 1.
Definition PT_DYNAMIC : Z := 2.
Definition PT_INTERP : Z := 3.
Definition PF_X : Z := 1.
Definition PF_W : Z := 2.
Definition PF_R : Z := 4.
Definition EHDR_SIZE : Z := 64.
Definition PHDR_SIZE : Z := 56.

(** [bytes.get(from..to)] *)
Definition get_range (bytes : list byte) (from to : Z) : option (list byte) :=
  if (from <=? to) && (to <=? zlen bytes) then Some (slice bytes (Z.to_nat from) (Z.to_nat to)) else None.

Definition read_u16 (bytes : list byte) (offset : Z) : result Z :=
  le_decode <$> ok_or (get_range bytes offset (offset + 2)) "truncated ELF header".
Definition read_u32 (bytes : list byte) (offset : Z) : result Z :=
  le_decode <$> ok_or (get_range bytes offset (offset + 4)) "truncated ELF header".
Definition read_u64 (bytes : list byte) (offset : Z) : result Z :=
  le_decode <$> ok_or (get_range bytes offset (offset + 8)) "truncated ELF header".

Record ProgramHeader := mk_phdr {
  p_type : Z;
  p_flags : Z;
  p_offset : Z;
  p_vaddr : Z;
  p_filesz : Z;
  p_memsz : Z
}.

Definition parse_program_header (bytes : list byte) (offset : Z) : result ProgramHeader :=
  end_ ← ok_or (checked_add u64_max offset PHDR_SIZE) "program header offset overflow";
  _ ← ensure (negb (zlen bytes <? end_)) "program header out of bounds";
  p_type ← read_u32 bytes offset;
  p_flags ← read_u32 bytes (offset + 4);
  p_offset ← read_u64 bytes (offset + 8);
  p_vaddr ← read_u64 bytes (offset + 16);
  p_filesz ← read_u64 bytes (offset + 32);
  p_memsz ← read_u64 bytes (offset + 40);
  Ok (mk_phdr p_type p_flags p_offset p_vaddr p_filesz p_memsz).

Definition in_user_range (addr len : Z) : bool :=
  match checked_add u64_max addr len with
  | Some end_ => (USER_SPACE_BASE <=? addr) && (end_ <=? USER_SPACE_BASE + USER_SPACE_SIZE)
  | None => false
  end.

Definition segment_page_flags (p_flags : Z) : PageTableFlags :=
  mk_flags true (negb (Z.land p_flags PF_W =? 0)) true (Z.land p_flags PF_X =? 0).

(** The body of the validation loop: whether the header is kept. *)
Definition check_segment (bytes : list byte) (ph : ProgramHeader) : result bool :=
  _ ← ensure (negb ((p_type ph =? PT_DYNAMIC) || (p_type ph =? PT_INTERP)))
        "ELF: dynamic linking is not supported by this loader";
  if negb (p_type ph =? PT_LOAD) then Ok false
  else
    _ ← ensure (negb (p_memsz ph <? p_filesz ph)) "ELF: segment p_filesz exceeds p_memsz";
    file_end ← ok_or (checked_add u64_max (p_offset ph) (p_filesz ph)) "ELF: segment file range overflow";
    _ ← ensure (negb (zlen bytes <? file_end)) "ELF: segment file range out of bounds";
    _ ← ensure (in_user_range (p_vaddr ph) (p_memsz ph))
          "ELF: segment virtual address range outside the permitted user region";
    _ ← ensure (negb (Z.land (p_flags ph) PF_R =? 0))
          "ELF: segment without PF_R is not supported (nothing this loader maps is ever fully inaccessible)";
    Ok true.

Fixpoint collect_headers (bytes : list byte) (offset : Z) (n : nat) : result (list ProgramHeader) :=
  match n with
  | 0%nat => Ok []
  | S n =>
      ph ← parse_program_header bytes offset;
      keep ← check_segment bytes ph;
      rest ← collect_headers bytes (offset + PHDR_SIZE) n;
      Ok (if keep : bool then ph :: rest else rest)
  end.

Definition ident_byte (bytes : list byte) (i : nat) : Z := b2z (nth i bytes Byte.x00).

(** Everything [load] checks before it maps a page: the entry point and the
    segments to load. *)
Definition validate (bytes : list byte) : result (Z * list ProgramHeader) :=
  _ ← ensure (negb (zlen bytes <? EHDR_SIZE)) "ELF: file too small for a header";
  _ ← ensure (bool_decide (slice bytes 0 4 = [Byte.x7f; Byte.x45; Byte.x4c; Byte.x46])) "ELF: bad magic";
  _ ← ensure (ident_byte bytes EI_CLASS =? ELFCLASS64) "ELF: not a 64-bit object (ELFCLASS64 required)";
  _ ← ensure (ident_byte bytes EI_DATA =? ELFDATA2LSB) "ELF: not little-endian (ELFDATA2LSB required)";
  _ ← ensure (ident_byte bytes EI_VERSION =? EV_CURRENT) "ELF: unsupported e_ident version";
  e_type ← read_u16 bytes 16;
  e_machine ← read_u16 bytes 18;
  e_version ← read_u32 bytes 20;
  e_entry ← read_u64 bytes 24;
  e_phoff ← read_u64 bytes 32;
  e_phentsize ← read_u16 bytes 54;
  e_phnum ← read_u16 bytes 56;
  _ ← ensure (e_type =? ET_EXEC) "ELF: unsupported e_type (only ET_EXEC is supported -- no relocations/PIE)";
  _ ← ensure (e_machine =? EM_X86_64) "ELF: unsupported e_machine (only EM_X86_64 is supported)";
  _ ← ensure (e_version =? EV_CURRENT) "ELF: unsupported e_version";
  _ ← ensure (e_phentsize =? PHDR_SIZE)
        "ELF: unsupported e_phentsize (only the standard 56-byte Elf64_Phdr is supported)";
  _ ← ensure (negb (e_phnum =? 0)) "ELF: no program headers (nothing to load)";
  ph_table_len ← ok_or (checked_mul u64_max e_phentsize e_phnum) "ELF: program header table size overflow";
  ph_table_end ← ok_or (checked_add u64_max e_phoff ph_table_len) "ELF: program header table offset overflow";
  _ ← ensure (negb (zlen bytes <? ph_table_end)) "ELF: program header table out of bounds";
  _ ← ensure (in_user_range e_entry 1) "ELF: entry point outside the permitted user address range";
  headers ← collect_headers bytes e_phoff (Z.to_nat e_phnum);
  _ ← ensure (negb (bool_decide (headers = []))) "ELF: no PT_LOAD segments (nothing to load)";
  Ok (e_entry, headers).

(** [a & !0xFFF] *)
Definition page_floor (a : Z) : Z := Z.land a (Z.lnot 0xFFF).

Definition seg_page_start (ph : ProgramHeader) : Z := page_floor (p_vaddr ph).
Definition seg_page_end (ph : ProgramHeader) : Z := page_floor (p_vaddr ph + p_memsz ph + 0xFFF).

(** The values [page_addr] takes in [while page_addr < page_end]. *)
Definition page_addrs (page_start page_end : Z) : list Z :=
  range_pages page_start (Z.to_nat ((page_end - page_start + 4095) / 4096)).

Section load.
Context {PT : Type} `{X86Addr} `{!X86_64 PT}.

(** Run an operation that takes the space by shared reference. *)
Definition on_space {A} (f : AddressSpace → M (Machine PT) A) : M (Machine PT * AddressSpace) A :=
  s ← mget; on_machine (f s.2).

Fixpoint map_pages (pages : list Z) (flags : PageTableFlags) : M (Machine PT * AddressSpace) unit :=
  match pages with
  | [] => mret tt
  | page_addr :: pages => _ ← map_in_address_space (page_containing page_addr) flags; map_pages pages flags
  end.

Fixpoint update_pages (pages : list Z) (flags : PageTableFlags) : M (Machine PT * AddressSpace) unit :=
  match pages with
  | [] => mret tt
  | page_addr :: pages =>
      _ ← on_space (λ space, update_flags_in_address_space space (page_containing page_addr) flags);
      update_pages pages flags
  end.

Definition staging_flags : PageTableFlags := mk_flags true true true false.

Definition load_segment (bytes : list byte) (ph : ProgramHeader) : M (Machine PT * AddressSpace) unit :=
  let page_start := seg_page_start ph in
  let page_end := seg_page_end ph in
  let final_flags := segment_page_flags (p_flags ph) in
  _ ← map_pages (page_addrs page_start page_end) staging_flags;
  _ ← on_space (λ space, zero_bytes_in_address_space space page_start (page_end - page_start));
  let file_bytes := slice bytes (Z.to_nat (p_offset ph)) (Z.to_nat (p_offset ph + p_filesz ph)) in
  _ ← on_space (λ space, write_bytes_in_address_space space (p_vaddr ph) file_bytes);
  if bool_decide (final_flags = staging_flags) then mret tt
  else update_pages (page_addrs page_start page_end) final_flags.

Fixpoint load_segments (bytes : list byte) (headers : list ProgramHeader) : M (Machine PT * AddressSpace) unit :=
  match headers with
  | [] => mret tt
  | ph :: headers => _ ← load_segment bytes ph; load_segments bytes headers
  end.

Definition load (bytes : list byte) : M (Machine PT * AddressSpace) Z :=
  v ← mlift (validate bytes);
  let '(e_entry, headers) := v in
  _ ← load_segments bytes headers;
  mret e_entry.
End load.

(** ** Validated segments *)

Lemma page_floor_align a : page_floor a = align_down a.
Proof.
  unfold page_floor, align_down. rewrite <- Z.ldiff_land. change 0xFFF with (Z.ones 12).
  rewrite Z.ldiff_ones_r, Z.shiftl_mul_pow2, Z.shiftr_div_pow2 by lia. change (2 ^ 12) with 4096.
  pose proof (Z.div_mod a 4096). lia.
Qed.

(** What the validation pass guarantees of a segment it keeps. *)
Definition segment_ok (bytes : list byte) (ph : ProgramHeader) : Prop :=
  0 <= p_filesz ph <= p_memsz ph ∧ 0 <= p_offset ph ∧ p_offset ph + p_filesz ph <= zlen bytes ∧
  USER_SPACE_BASE <= p_vaddr ph ∧ p_vaddr ph + p_memsz ph <= user_end ∧ Z.land (p_flags ph) PF_R ≠ 0.

Lemma read_nonneg bytes from n reason (v : Z) :
  le_decode <$> ok_or (get_range bytes from n) reason = Ok v → 0 <= v.
Proof.
  destruct (get_range bytes from n) as [s|]; [|done]. simpl. intros [= <-]. apply le_decode_range.
Qed.

Lemma parse_program_header_nonneg bytes offset ph : parse_program_header bytes offset = Ok ph →
  0 <= p_filesz ph ∧ 0 <= p_offset ph ∧ 0 <= p_memsz ph.
Proof.
  unfold parse_program_header. rewrite bind_Ok. intros (e&_&E). apply ensure_bind_Ok in E as [_ E].
  repeat (apply bind_Ok in E as (?&?%read_nonneg&E)). injection E as <-. done.
Qed.

Lemma in_user_range_spec a len : in_user_range a len = true → USER_SPACE_BASE <= a ∧ a + len <= user_end.
Proof.
  unfold in_user_range. destruct (checked_add u64_max a len) as [e|] eqn:E; [|done].
  apply checked_add_Some in E as [-> _]. intros H. unfold user_end. bool_hyps. lia.
Qed.

Lemma check_segment_ok bytes ph : 0 <= p_filesz ph → 0 <= p_offset ph →
  check_segment bytes ph = Ok true → segment_ok bytes ph.
Proof.
  intros Hf Ho. unfold check_segment, segment_ok. rewrite ensure_bind_Ok. intros [_ E].
  destruct (negb (p_type ph =? PT_LOAD)); [done|]. apply ensure_bind_Ok in E as [E1 E].
  apply bind_Ok in E as (e&He&E). apply ok_or_Ok, checked_add_Some in He as [-> _].
  repeat (apply ensure_bind_Ok in E as [? E]). bool_hyps.
  pose proof (in_user_range_spec (p_vaddr ph) (p_memsz ph) ltac:(done)). split_and!; lia || done.
Qed.

Lemma collect_headers_ok bytes offset n headers :
  collect_headers bytes offset n = Ok headers → Forall (segment_ok bytes) headers.
Proof.
  revert offset headers. induction n as [|n IH]; intros offset headers; simpl; [by intros [= <-]|].
  rewrite bind_Ok. intros (ph&(?&?&_)%parse_program_header_nonneg&E).
  apply bind_Ok in E as (keep&Hk&E). apply bind_Ok in E as (rest&Hr%IH&E). injection E as <-.
  destruct keep; [|done]. constructor; [by apply check_segment_ok|done].
Qed.

Lemma validate_ok bytes entry headers : validate bytes = Ok (entry, headers) →
  USER_SPACE_BASE <= entry < user_end ∧ headers ≠ [] ∧ Forall (segment_ok bytes) headers.
Proof.
  unfold validate. intros E.
  repeat first [ apply ensure_bind_Ok in E as [?E' E] | apply bind_Ok in E as (?v&?Hv&E) ].
  injection E as <- <-. bool_hyps. split_and!; [..|done|by eapply collect_headers_ok].
  - by apply (in_user_range_spec _ 1).
  - destruct (in_user_range_spec _ 1 ltac:(eassumption)). lia.
Qed.

(** The pages of a validated segment are whole pages of the user region. *)
Lemma segment_pages bytes ph : segment_ok bytes ph →
  seg_page_start ph mod 4096 = 0 ∧ seg_page_end ph mod 4096 = 0 ∧ USER_SPACE_BASE <= seg_page_start ph ∧
  seg_page_end ph <= user_end ∧ seg_page_start ph <= p_vaddr ph ∧ p_vaddr ph + p_memsz ph <= seg_page_end ph ∧
  seg_page_start ph <= seg_page_end ph.
Proof.
  intros (?&_&_&?&?&_). unfold seg_page_start, seg_page_end. rewrite !page_floor_align. unfold align_down.
  unfold user_end, USER_SPACE_BASE, USER_SPACE_SIZE in *.
  split_and!; Z.to_euclidean_division_equations; lia.
Qed.

Lemma elem_of_page_addrs start end_ p : start mod 4096 = 0 → end_ mod 4096 = 0 → start <= end_ →
  p ∈ page_addrs start end_ ↔ p mod 4096 = 0 ∧ start <= p < end_.
Proof.
  intros Hs He Hle. unfold page_addrs. rewrite elem_of_range_pages. split.
  - intros (i&Hi&->). split; [rewrite <- Zplus_mod_idemp_l, Hs; Z.to_euclidean_division_equations; lia|].
    Z.to_euclidean_division_equations; lia.
  - intros [Hp Hr]. exists (Z.to_nat ((p - start) / 4096)). split; Z.to_euclidean_division_equations; lia.
Qed.

Lemma align_down_in_pages start end_ a : start mod 4096 = 0 → end_ mod 4096 = 0 → start <= end_ →
  align_down a ∈ page_addrs start end_ ↔ start <= a < end_.
Proof.
  intros Hs He Hle. rewrite elem_of_page_addrs by done. unfold align_down.
  split; [intros [_ ?]|intros ?; split]; Z.to_euclidean_division_equations; lia.
Qed.

(** ** The effect of each loop *)

Section loops.
Context {PT : Type} `{!BootMap, !KernelFrames, !X86Addr, !X86AddrSpec, !X86_64 PT, !X86_64Spec PT USER_REGION_PML4_INDEX}.
Implicit Types (s : Machine PT * AddressSpace) (rest : list AddressSpace).

Definition user_page (p : Z) : Prop := p mod 4096 = 0 ∧ USER_SPACE_BASE <= p < user_end.

Lemma user_page_containing p : user_page p → page_containing p = p.
Proof. intros [Hp _]. rewrite page_align. by apply align_down_id. Qed.

Lemma user_page_canonical p : user_page p → 0 <= p < 2 ^ 47 ∨ 2 ^ 64 - 2 ^ 47 <= p < 2 ^ 64.
Proof. intros [_ ?]. unfold user_end, USER_SPACE_BASE, USER_SPACE_SIZE in *. lia. Qed.

Lemma map_page_steps p flags rest : user_page p → respects (steps rest) (map_in_address_space p flags).
Proof. intros Hp. apply (run_space_op_steps (MapPage p flags)). split; [apply Hp|by apply user_page_canonical]. Qed.

Lemma update_page_steps p flags rest : user_page p →
  respects (steps rest) (on_space (λ space, update_flags_in_address_space space p flags)).
Proof. intros Hp. exact (run_space_op_steps (SetFlags p flags) rest Hp). Qed.

Lemma write_steps a data rest : respects (steps rest) (on_space (λ space, write_bytes_in_address_space space a data)).
Proof. exact (run_space_op_steps (WriteBytes a data) rest I). Qed.

Lemma zero_steps a len rest : 0 <= len →
  respects (steps rest) (on_space (λ space, zero_bytes_in_address_space space a len)).
Proof. intros Hl. exact (run_space_op_steps (ZeroBytes a len) rest Hl). Qed.

Lemma map_pages_steps pages flags rest : Forall user_page pages → respects (steps rest) (map_pages pages flags).
Proof.
  induction 1 as [|p pages Hp _ IH]; cbn [map_pages]; [apply respects_ret; apply _|].
  apply respects_bind; [apply _| |done]. rewrite user_page_containing by done. by apply map_page_steps.
Qed.

Lemma update_pages_steps pages flags rest : Forall user_page pages → respects (steps rest) (update_pages pages flags).
Proof.
  induction 1 as [|p pages Hp _ IH]; cbn [update_pages]; [apply respects_ret; apply _|].
  apply respects_bind; [apply _| |done]. rewrite user_page_containing by done. by apply update_page_steps.
Qed.

Lemma map_pages_view pages flags rest s s' : Forall user_page pages → machine_ok s.1 (s.2 :: rest) →
  map_pages pages flags s = (Ok tt, s') →
  ∀ a, if decide (align_down a ∈ pages) then view s a = None ∧ ∃ b, view s' a = Some (b, flags)
       else view s' a = view s a.
Proof.
  intros Hp. revert s. induction Hp as [|p pages Hp Hps IH]; intros s Hok E a; cbn [map_pages] in E.
  { injection E as <-. case_decide; [set_solver|done]. }
  apply M_bind_Ok in E as ([]&s1&E1&E). rewrite user_page_containing in E1 by done.
  destruct (map_page_steps p flags rest Hp _ _ _ E1 Hok) as [Hok1 _]. specialize (IH s1 Hok1 E a).
  destruct s as [m space], s1 as [m1 space1].
  pose proof (map_in_address_space_view p flags m space m1 space1 rest Hok (proj1 Hp) (user_page_canonical p Hp) E1 a) as Hv.
  destruct (decide (align_down a = p)) as [<-|Hne].
  - rewrite decide_True by set_solver. destruct Hv as (Hn&b&Hb). split; [done|].
    destruct (decide (align_down a ∈ pages)); [destruct IH as [IH _]; congruence|exists b; congruence].
  - destruct (decide (align_down a ∈ pages)) as [Hin|Hin].
    + rewrite decide_True by set_solver. rewrite <- Hv. done.
    + rewrite decide_False by set_solver. congruence.
Qed.

Lemma update_pages_view pages flags rest s s' : Forall user_page pages → machine_ok s.1 (s.2 :: rest) →
  update_pages pages flags s = (Ok tt, s') →
  ∀ a, view s' a = (λ bf, (bf.1, if decide (align_down a ∈ pages) then flags else bf.2)) <$> view s a.
Proof.
  intros Hp. revert s. induction Hp as [|p pages Hp Hps IH]; intros s Hok E a; cbn [update_pages] in E.
  { injection E as <-. destruct (decide _); [set_solver|]. by destruct (view s a) as [[b fl]|]. }
  apply M_bind_Ok in E as ([]&s1&E1&E). rewrite user_page_containing in E1 by done.
  destruct (update_page_steps p flags rest Hp _ _ _ E1 Hok) as [Hok1 _]. rewrite (IH s1 Hok1 E a).
  destruct s as [m space]. unfold on_space, on_machine, mbind, M_bind, mget in E1. cbn [fst snd] in E1.
  destruct (update_flags_in_address_space space p flags m) as [r m1] eqn:Eu. injection E1 as -> <-.
  rewrite (update_flags_view p flags m m1 space rest (Ok tt) Hok (proj1 Hp) (proj2 Hp) Eu a), <- option_fmap_compose.
  destruct (view (m, space) a) as [[b fl]|]; [|done]. simpl. do 2 f_equal.
  destruct (decide (align_down a = p)) as [<-|Hne].
  - rewrite (decide_True (P := align_down a ∈ _ :: _)) by set_solver. by case_decide.
  - destruct (decide (align_down a ∈ pages)); [by rewrite decide_True by set_solver|by rewrite decide_False by set_solver].
Qed.

Lemma write_view start data rest s s' : machine_ok s.1 (s.2 :: rest) →
  on_space (λ space, write_bytes_in_address_space space start data) s = (Ok tt, s') →
  ∀ a, view s' a = (λ bf, (overlay start data a bf.1, bf.2)) <$> view s a.
Proof.
  destruct s as [m space]. intros Hok E. unfold on_space, on_machine, mbind, M_bind, mget in E. cbn [fst snd] in E.
  destruct (write_bytes_in_address_space space start data m) as [r m1] eqn:Ew. injection E as -> <-.
  eapply copy_view; [exact Hok|apply write_stores|exact Ew].
Qed.

Lemma zero_view start len rest s s' : 0 <= len → machine_ok s.1 (s.2 :: rest) →
  on_space (λ space, zero_bytes_in_address_space space start len) s = (Ok tt, s') →
  ∀ a, view s' a = (λ bf, (if decide (start <= a < start + len) then Byte.x00 else bf.1, bf.2)) <$> view s a.
Proof.
  destruct s as [m space]. intros Hlen Hok E a. unfold on_space, on_machine, mbind, M_bind, mget in E. cbn [fst snd] in E.
  destruct (zero_bytes_in_address_space space start len m) as [r m1] eqn:Ew. injection E as -> <-.
  pose proof (zlen_replicate len Byte.x00 Hlen) as Hz. unfold zero_bytes_in_address_space in Ew. rewrite <- Hz in Ew at 1.
  rewrite (copy_view space start _ _ m m1 rest tt Hok (zero_stores len Hlen) Ew a).
  destruct (view (m, space) a) as [[b fl]|]; [|done]. simpl. do 2 f_equal. case_decide.
  - rewrite overlay_in, nth_lookup, lookup_replicate_2 by lia. done.
  - rewrite overlay_out by lia. done.
Qed.
End loops.

(** ** The loaded image *)

(** The byte the file gives to an address of a segment's pages: its contents,
    then zeros, with zeros around it up to page boundaries. *)
Definition segment_byte (bytes : list byte) (ph : ProgramHeader) (a : Z) : byte :=
  if decide (p_vaddr ph <= a < p_vaddr ph + p_filesz ph)
  then nth (Z.to_nat (p_offset ph + (a - p_vaddr ph))) bytes Byte.x00 else Byte.x00.

Definition on_segment (a : Z) (ph : ProgramHeader) : bool := (seg_page_start ph <=? a) && (a <? seg_page_end ph).

Definition image (bytes : list byte) (headers : list ProgramHeader) (a : Z) : option (byte * PageTableFlags) :=
  match List.find (on_segment a) headers with
  | Some ph => Some (segment_byte bytes ph a, segment_page_flags (p_flags ph))
  | None => None
  end.

Lemma on_segment_spec a ph : on_segment a ph = true ↔ seg_page_start ph <= a < seg_page_end ph.
Proof. unfold on_segment. rewrite andb_true_iff, Z.leb_le, Z.ltb_lt. done. Qed.

Section image.
Context {PT : Type} `{!BootMap, !KernelFrames, !X86Addr, !X86AddrSpec, !X86_64 PT, !X86_64Spec PT USER_REGION_PML4_INDEX}.
Implicit Types (s : Machine PT * AddressSpace) (rest : list AddressSpace).

Lemma segment_user_pages bytes ph : segment_ok bytes ph →
  Forall user_page (page_addrs (seg_page_start ph) (seg_page_end ph)).
Proof.
  intros (Hs&He&Hb&Hu&_&_&Hle)%segment_pages. apply Forall_forall. intros p Hp.
  apply elem_of_page_addrs in Hp as [Hp Hr]; [|done..]. split; [done|lia].
Qed.

Lemma load_segment_steps bytes ph rest : segment_ok bytes ph → respects (steps rest) (load_segment bytes ph).
Proof.
  intros Hok. pose proof (segment_user_pages bytes ph Hok) as Hp. destruct (segment_pages bytes ph Hok) as (_&_&_&_&_&_&?).
  unfold load_segment. apply respects_bind; [apply _|by apply map_pages_steps|intros _].
  apply respects_bind; [apply _|apply zero_steps; lia|intros _].
  apply respects_bind; [apply _|apply write_steps|intros _].
  case_bool_decide; [apply respects_ret; apply _|by apply update_pages_steps].
Qed.

(** Loading a segment adds its pages with exactly the contents and permissions
    the file describes, and changes no other byte of the space. *)
Lemma load_segment_view bytes ph rest s s' : segment_ok bytes ph → machine_ok s.1 (s.2 :: rest) →
  load_segment bytes ph s = (Ok tt, s') →
  ∀ a, if decide (on_segment a ph = true)
       then view s a = None ∧ view s' a = Some (segment_byte bytes ph a, segment_page_flags (p_flags ph))
       else view s' a = view s a.
Proof.
  intros Hseg Hok E a. pose proof (segment_user_pages bytes ph Hseg) as Hp.
  destruct (segment_pages bytes ph Hseg) as (Hs&He&_&_&Hlo&Hhi&Hle).
  assert (0 <= seg_page_end ph - seg_page_start ph) as Hd by lia.
  pose proof Hseg as (Hf&Ho&Hlen&_). unfold load_segment in E.
  apply M_bind_Ok in E as ([]&s1&E1&E). destruct (map_pages_steps _ _ rest Hp _ _ _ E1 Hok) as [Hok1 _].
  pose proof (map_pages_view _ _ rest s s1 Hp Hok E1 a) as V1.
  apply M_bind_Ok in E as ([]&s2&E2&E).
  destruct (zero_steps _ _ rest Hd _ _ _ E2 Hok1) as [Hok2 _].
  pose proof (zero_view _ _ rest s1 s2 Hd Hok1 E2 a) as V2.
  apply M_bind_Ok in E as ([]&s3&E3&E). destruct (write_steps _ _ rest _ _ _ E3 Hok2) as [Hok3 _].
  pose proof (write_view _ _ rest s2 s3 Hok2 E3 a) as V3.
  assert (view s' a = (λ bf, (bf.1, if decide (align_down a ∈ page_addrs (seg_page_start ph) (seg_page_end ph))
    then segment_page_flags (p_flags ph) else bf.2)) <$> view s3 a) as V4.
  { case_bool_decide as Hfl; [|by apply (update_pages_view _ _ rest s3 s' Hp Hok3 E)].
    injection E as <-. rewrite V3, V2. destruct (decide (align_down a ∈ _)) as [Hin|Hin].
    - destruct V1 as (_&b&->). simpl. by rewrite Hfl.
    - by destruct (view s1 a) as [[b fl]|]. }
  rewrite V4, V3, V2. clear V2 V3 V4.
  assert (zlen (slice bytes (Z.to_nat (p_offset ph)) (Z.to_nat (p_offset ph + p_filesz ph))) = p_filesz ph) as Hz
    by (rewrite zlen_slice by lia; lia).
  destruct (decide (on_segment a ph = true)) as [Hin|Hin].
  - apply on_segment_spec in Hin. pose proof (proj2 (align_down_in_pages _ _ a Hs He Hle) Hin) as Hin'.
    rewrite decide_True in V1 by done. destruct V1 as (Hn&b&->). split; [done|]. simpl.
    rewrite !decide_True by (done || lia). do 2 f_equal. unfold segment_byte.
    destruct (decide (p_vaddr ph <= a < p_vaddr ph + p_filesz ph)).
    + rewrite overlay_in by (rewrite Hz; lia). rewrite nth_slice by lia. f_equal. lia.
    + by rewrite overlay_out by (rewrite Hz; lia).
  - assert (align_down a ∉ page_addrs (seg_page_start ph) (seg_page_end ph)) as Hout
      by (by rewrite align_down_in_pages, <- on_segment_spec by done).
    rewrite on_segment_spec in Hin. rewrite decide_False in V1 by done. rewrite V1.
    destruct (view s a) as [[b fl]|]; [|done]. simpl. rewrite !decide_False by (done || lia).
    by rewrite overlay_out by (rewrite Hz; lia).
Qed.

Lemma load_segments_steps bytes headers rest : Forall (segment_ok bytes) headers →
  respects (steps rest) (load_segments bytes headers).
Proof.
  induction 1 as [|ph headers Hph _ IH]; cbn [load_segments]; [apply respects_ret; apply _|].
  apply respects_bind; [apply _|by apply load_segment_steps|done].
Qed.

Lemma load_segments_view bytes headers rest s s' : Forall (segment_ok bytes) headers →
  machine_ok s.1 (s.2 :: rest) → load_segments bytes headers s = (Ok tt, s') →
  ∀ a, match image bytes headers a with
       | Some v => view s a = None ∧ view s' a = Some v
       | None => view s' a = view s a
       end.
Proof.
  intros Hh. revert s. induction Hh as [|ph headers Hph Hhs IH]; intros s Hok E a; cbn [load_segments] in E.
  { by injection E as <-. }
  apply M_bind_Ok in E as ([]&s1&E1&E). destruct (load_segment_steps bytes ph rest Hph _ _ _ E1 Hok) as [Hok1 _].
  pose proof (load_segment_view bytes ph rest s s1 Hph Hok E1 a) as V1. specialize (IH s1 Hok1 E a).
  unfold image in *. cbn [List.find]. destruct (on_segment a ph) eqn:Ea.
  - rewrite decide_True in V1 by done. destruct V1 as [Hn V1]. split; [done|].
    destruct (List.find (on_segment a) headers); [destruct IH as [IH _]|]; congruence.
  - rewrite decide_False in V1 by done. destruct (List.find (on_segment a) headers); [|congruence].
    destruct IH as [IH ?]. split; [congruence|done].
Qed.

(** C26: the loader rejects a malformed file before it touches the process; a
    file it accepts has its entry point and every segment inside the user
    region and the file, and after a successful load the process sees exactly
    the image the file describes: file contents, zeros elsewhere on the
    segments' pages, each page with its segment's permissions, nothing else
    mapped. No other process and no kernel memory is affected either way. *)
Theorem load_maps_exact_image bytes m spaces i space :
  reachable m spaces → spaces !! i = Some space → space_leaves space m = ∅ →
  let '(r, (m', space')) := load bytes (m, space) in
  machine_ok m' (space' :: delete i spaces) ∧ undisturbed (delete i spaces) m m' ∧
  match validate bytes with
  | Err e => r = Err e ∧ (m', space') = (m, space)
  | Ok (entry, headers) =>
      USER_SPACE_BASE <= entry < user_end ∧ Forall (segment_ok bytes) headers ∧
      match r with
      | Ok e => e = entry ∧ ∀ a, view (m', space') a = image bytes headers a
      | Err _ => True
      end
  end.
Proof.
  intros Hr Hi Hempty. pose proof (reachable_space _ _ _ _ Hr Hi) as Hok. unfold load, mbind, M_bind, mlift.
  destruct (validate bytes) as [[entry headers]|e] eqn:Ev; [|done].
  apply validate_ok in Ev as (He&_&Hh). destruct (load_segments bytes headers (m, space)) as [r [m' space']] eqn:El.
  destruct (load_segments_steps bytes headers _ Hh _ _ _ El Hok) as (Hok'&Hu&_). cbn [fst snd] in Hok', Hu.
  destruct r as [[]|e]; [|done]. split_and!; [done|done|lia|lia|done|done|]. intros a.
  pose proof (load_segments_view bytes headers (delete i spaces) (m, space) (m', space') Hh Hok El a) as Hv.
  destruct (image bytes headers a) as [v|]; [by destruct Hv|]. rewrite Hv.
  unfold view, located. simpl. by rewrite Hempty, lookup_empty.
Qed.
End image.

(** ** A small executable *)

Module ElfSample.
#[local] Existing Instance sim_addr.
#[local] Existing Instance sim_addr_spec.
#[local] Existing Instance sim_x86.
#[local] Existing Instance PagingSafety.Sample.sample_spec.
#[local] Existing Instance PagingSafety.Sample.sample_map.
#[local] Existing Instance PagingSafety.Sample.sample_heap.

(** One read-execute segment of four bytes in the file and six in memory. *)
Definition phdr (vaddr flags : Z) : list byte :=
  le_encode 4 PT_LOAD ++ le_encode 4 flags ++ le_encode 8 120 ++ le_encode 8 vaddr ++ le_encode 8 0
  ++ le_encode 8 4 ++ le_encode 8 6 ++ le_encode 8 4096.

Definition ehdr (entry : Z) : list byte :=
  [Byte.x7f; Byte.x45; Byte.x4c; Byte.x46; Byte.x02; Byte.x01; Byte.x01] ++ replicate 9 Byte.x00
  ++ le_encode 2 2 ++ le_encode 2 62 ++ le_encode 4 1 ++ le_encode 8 entry ++ le_encode 8 64 ++ le_encode 8 0
  ++ le_encode 4 0 ++ le_encode 2 64 ++ le_encode 2 56 ++ le_encode 2 1 ++ replicate 6 Byte.x00.

Definition program : list byte :=
  ehdr USER_SPACE_BASE ++ phdr (USER_SPACE_BASE + 0xffe) 5 ++ [Byte.xeb; Byte.xfe; Byte.x90; Byte.xc3].

Definition ops : list PagingOp := [NewSpace; NewSpace].
Definition fresh := run_ops (Sample.machine, []) ops.
Definition target : AddressSpace := default (mk_space 0 []) (fresh.2 !! 0%nat).
Definition loaded := load program (fresh.1, target).

(** The file ends on the second page; the tail of the segment is zero. *)
Example load_runs :
  loaded.1 = Ok USER_SPACE_BASE ∧
  view loaded.2 (USER_SPACE_BASE + 0x1001) = Some (Byte.xc3, mk_flags true false true false) ∧
  view loaded.2 (USER_SPACE_BASE + 0x1003) = Some (Byte.x00, mk_flags true false true false) ∧
  view loaded.2 (USER_SPACE_BASE + 0x2000) = None.
Proof. split_and!; vm_compute; reflexivity. Qed.

Example load_rejects :
  validate (ehdr USER_SPACE_BASE ++ phdr 0x400000 5 ++ [Byte.x90; Byte.x90; Byte.x90; Byte.x90])
    = Err "ELF: segment virtual address range outside the permitted user region" ∧
  validate (take 130 program) = Ok (USER_SPACE_BASE, [mk_phdr 1 5 120 (USER_SPACE_BASE + 0xffe) 4 6]) ∧
  validate (take 122 program) = Err "ELF: segment file range out of bounds".
Proof. split_and!; vm_compute; reflexivity. Qed.

Lemma load_maps_exact_image_witness :
  is_ok loaded.1 = true ∧
  let '(r, (m', space')) := load program (fresh.1, target) in
  machine_ok m' (space' :: delete 0%nat fresh.2) ∧ undisturbed (delete 0%nat fresh.2) fresh.1 m' ∧
  match validate program with
  | Err e => r = Err e ∧ (m', space') = (fresh.1, target)
  | Ok (entry, headers) =>
      USER_SPACE_BASE <= entry < user_end ∧ Forall (segment_ok program) headers ∧
      match r with
      | Ok e => e = entry ∧ ∀ a, view (m', space') a = image program headers a
      | Err _ => True
      end
  end.
Proof.
  split; [vm_compute; reflexivity|].
  apply (load_maps_exact_image program fresh.1 fresh.2 0 target);
    [|vm_compute; reflexivity|vm_compute; reflexivity].
  apply Sample.sample_reaches. by apply (bool_decide_eq_true_1 (Forall paging_op_ok ops)); vm_compute.
Defined.
End ElfSample.
