(* ===== verification/Scheduler.v ===== *)
(** The task table and the scheduler of kernel/src/task.rs.

    [Kernel] holds the module's statics, the machine of Paging.v, and the two
    processor registers a switch loads: the address-space root (CR3) and the
    Ring 0 stack of the task segment. The code that runs on a task's stack is
    not modelled; an operation that may switch away takes as [rsp] the stack
    pointer [context_switch] saves. Indexing out of bounds and [expect] panic:
    [None] of a partial function stands for a panic. The kernel stacks are
    known by the address the heap gave them. *)

From S2P Require Import Prelude X86 Frames Paging Wake.

Definition STACK_SIZE : Z := 32 * 1024.
Definition INITIAL_FRAME_SIZE : Z := 7 * 8.
Definition REAP_GRACE_TICKS : Z := 500.
Definition MAX_TASKS : Z := 64.

Inductive TaskState := Ready | Running | Blocked | Terminated.
Inductive Privilege := KernelTask | UserTask.

#[global] Instance TaskState_eq_decision : EqDecision TaskState.
Proof. solve_decision. Defined.

Record OpenFile := mk_file { file_data : list byte; file_offset : Z }.

Record ProcessState := mk_process {
  address_space : option AddressSpace;
  entry_point : Z;
  user_stack_top : Z;
  exit_code : option Z;
  mmap_next : Z;
  cwd : str;
  open_files : list (option OpenFile);
  open_file_bytes : Z
}.

Record Tcb := mk_tcb {
  tcb_id : Z;
  tcb_name : str;
  tcb_state : TaskState;
  saved_rsp : Z;
  wake_at_tick : Z;
  kernel_stack_top : Z;
  tcb_process : option ProcessState;
  terminated_at_tick : Z
}.

(** The snapshot [list] and [info] return. *)
Record Task := mk_task {
  task_id : Z;
  task_name : str;
  task_state : TaskState;
  task_privilege : Privilege;
  task_exit_code : option Z
}.

Record Scheduler := mk_sched { tasks : list Tcb; current : nat }.

Record SwitchPlan := mk_plan {
  plan_old : nat;
  new_rsp : Z;
  new_cr3 : Z;
  new_kernel_stack_top : Z;
  reclaim : option AddressSpace
}.

Record Kernel (PT : Type) := mk_kernel {
  scheduler : option Scheduler;
  next_id : Z;
  wake : Wake;
  ticks : Z;
  mach : Machine PT;
  cr3 : Z;
  rsp0 : Z
}.
Arguments mk_kernel {PT}.
Arguments scheduler {PT}.
Arguments next_id {PT}.
Arguments wake {PT}.
Arguments ticks {PT}.
Arguments mach {PT}.
Arguments cr3 {PT}.
Arguments rsp0 {PT}.

(** ** Field updates *)

Definition set_state (st : TaskState) (t : Tcb) : Tcb :=
  mk_tcb (tcb_id t) (tcb_name t) st (saved_rsp t) (wake_at_tick t) (kernel_stack_top t) (tcb_process t) (terminated_at_tick t).
Definition set_wake_at (w : Z) (t : Tcb) : Tcb :=
  mk_tcb (tcb_id t) (tcb_name t) (tcb_state t) (saved_rsp t) w (kernel_stack_top t) (tcb_process t) (terminated_at_tick t).
Definition set_rsp (rsp : Z) (t : Tcb) : Tcb :=
  mk_tcb (tcb_id t) (tcb_name t) (tcb_state t) rsp (wake_at_tick t) (kernel_stack_top t) (tcb_process t) (terminated_at_tick t).
Definition set_process (p : option ProcessState) (t : Tcb) : Tcb :=
  mk_tcb (tcb_id t) (tcb_name t) (tcb_state t) (saved_rsp t) (wake_at_tick t) (kernel_stack_top t) p (terminated_at_tick t).
Definition terminate (now : Z) (t : Tcb) : Tcb :=
  mk_tcb (tcb_id t) (tcb_name t) Terminated (saved_rsp t) (wake_at_tick t) (kernel_stack_top t) (tcb_process t) now.

Definition set_space (sp : option AddressSpace) (p : ProcessState) : ProcessState :=
  mk_process sp (entry_point p) (user_stack_top p) (exit_code p) (mmap_next p) (cwd p) (open_files p) (open_file_bytes p).
Definition set_exit_code (code : Z) (p : ProcessState) : ProcessState :=
  mk_process (address_space p) (entry_point p) (user_stack_top p) (Some code) (mmap_next p) (cwd p) (open_files p) (open_file_bytes p).

(** [process.as_mut().and_then(|p| p.address_space.take())] *)
Definition take_space (t : Tcb) : option AddressSpace * Tcb :=
  match tcb_process t with
  | Some p => (address_space p, set_process (Some (set_space None p)) t)
  | None => (None, t)
  end.

Definition space_of (t : Tcb) : option AddressSpace := p ← tcb_process t; address_space p.

(** ** [Scheduler] *)

Definition should_reap (current_id now : Z) (force : bool) (t : Tcb) : bool :=
  negb (tcb_id t =? current_id) && bool_decide (tcb_state t = Terminated)
  && (force || (REAP_GRACE_TICKS <=? saturating_sub now (terminated_at_tick t))).

(** [request_foreground_wake] set the identifier; the scheduler swaps it out. *)
Definition clear_wake (w : Wake) : Wake := {| foreground_wake_id := 0; ticks_since_switch := ticks_since_switch w |}.

(** The scan [for offset in 1..=n]. *)
Definition next_ready (ts : list Tcb) (cur : nat) : nat :=
  let n := length ts in
  match List.find (λ idx, match ts !! idx with Some t => bool_decide (tcb_state t = Ready) | None => false end)
          ((λ offset, (cur + offset) mod n)%nat <$> seq 1 n) with
  | Some idx => idx
  | None => cur
  end.

(** The task to run after the current one [c]: the one the input queue asked
    for, if it is ready, or else the next ready task in table order. *)
Definition pick_next (ts : list Tcb) (cur : nat) (c : Tcb) (requested : Z) : nat :=
  let next :=
    if negb (requested =? 0)
    then default cur
           (position (λ t, (tcb_id t =? requested) && bool_decide (tcb_state t = Ready) && negb (tcb_id t =? tcb_id c)) ts)
    else cur in
  if (next =? cur)%nat then next_ready ts cur else next.

Section scheduler.
Context {PT : Type} `{X86Addr}.
Implicit Types (m : Machine PT).

Definition free_opt (sp : option AddressSpace) m : Machine PT :=
  match sp with Some space => free_address_space space m | None => m end.

Definition reap_terminated (force : bool) (now : Z) (sc : Scheduler) m : option (Scheduler * Machine PT) :=
  cur ← tasks sc !! current sc;
  let current_id := tcb_id cur in
  let reap := should_reap current_id now force in
  let m := foldl (λ m t, if reap t then free_opt (space_of t) m else m) m (tasks sc) in
  let kept := List.filter (λ t, negb (reap t)) (tasks sc) in
  pos ← position (λ t, tcb_id t =? current_id) kept;
  Some (mk_sched kept pos, m).

(** [None] inside the result: no switch. *)
Definition prepare_switch (now : Z) (sc : Scheduler) (w : Wake) m
    : option (option SwitchPlan * Scheduler * Wake * Machine PT) :=
  r ← reap_terminated false now sc m;
  let '(sc, m) := r in
  let n := length (tasks sc) in
  if (n <? 2)%nat then Some (None, sc, w, m)
  else
    c ← tasks sc !! current sc;
    let ts := if bool_decide (tcb_state c = Running) then <[current sc := set_state Ready c]> (tasks sc) else tasks sc in
    let next := pick_next ts (current sc) c (foreground_wake_id w) in
    let w := clear_wake w in
    c ← ts !! current sc;
    if (next =? current sc)%nat
    then
      let ts := if bool_decide (tcb_state c = Terminated) then ts else <[current sc := set_state Running c]> ts in
      Some (None, mk_sched ts (current sc), w, m)
    else
      let '(reclaimed, c) := if bool_decide (tcb_state c = Terminated) then take_space c else (None, c) in
      let ts := <[current sc := c]> ts in
      t ← ts !! next;
      root ← match space_of t with
             | Some sp => Some (pml4_frame sp)
             | None => kernel_pml4_frame m
             end;
      let plan := mk_plan (current sc) (saved_rsp t) root (kernel_stack_top t) reclaimed in
      Some (Some plan, mk_sched (<[next := set_state Running t]> ts) next, w, m).

(** ** The module's entry points *)

Implicit Types (k : Kernel PT).

Definition with_sched (sc : Scheduler) k : Kernel PT :=
  mk_kernel (Some sc) (next_id k) (wake k) (ticks k) (mach k) (cr3 k) (rsp0 k).
Definition with_wake (w : Wake) k : Kernel PT :=
  mk_kernel (scheduler k) (next_id k) w (ticks k) (mach k) (cr3 k) (rsp0 k).
Definition with_mach m k : Kernel PT :=
  mk_kernel (scheduler k) (next_id k) (wake k) (ticks k) m (cr3 k) (rsp0 k).
Definition with_next_id (id : Z) k : Kernel PT :=
  mk_kernel (scheduler k) id (wake k) (ticks k) (mach k) (cr3 k) (rsp0 k).

(** [sched.tasks[sched.current]], updated in place *)
Definition update_current (f : Tcb → Tcb) (sc : Scheduler) : option Scheduler :=
  c ← tasks sc !! current sc; Some (mk_sched (<[current sc := f c]> (tasks sc)) (current sc)).

(** Carry out a plan: load CR3, set the Ring 0 stack, free the space left
    behind, save the old stack pointer. *)
Definition switch (plan : SwitchPlan) (rsp : Z) k : option (Kernel PT) :=
  sc ← scheduler k;
  old ← tasks sc !! plan_old plan;
  let m := free_opt (reclaim plan) (mach k) in
  Some (mk_kernel (Some (mk_sched (<[plan_old plan := set_rsp rsp old]> (tasks sc)) (current sc)))
          (next_id k) (wake k) (ticks k) m (new_cr3 plan)
          (if new_kernel_stack_top plan =? 0 then rsp0 k else new_kernel_stack_top plan)).

Definition schedule (rsp : Z) k : option (Kernel PT) :=
  match scheduler k with
  | None => Some k
  | Some sc =>
      r ← prepare_switch (ticks k) sc (wake k) (mach k);
      let '(plan, sc, w, m) := r in
      let k := mk_kernel (Some sc) (next_id k) w (ticks k) m (cr3 k) (rsp0 k) in
      match plan with Some plan => switch plan rsp k | None => Some k end
  end.

Definition wake_due (now : Z) (t : Tcb) : Tcb :=
  if bool_decide (tcb_state t = Blocked) && negb (wake_at_tick t =? 0) && (wake_at_tick t <=? now)
  then set_wake_at 0 (set_state Ready t) else t.

Definition set_ticks_since (n : Z) (w : Wake) : Wake :=
  {| foreground_wake_id := foreground_wake_id w; ticks_since_switch := n |}.

Definition on_timer_tick (rsp : Z) k : option (Kernel PT) :=
  let k :=
    match scheduler k with
    | Some sc => with_sched (mk_sched (wake_due (ticks k) <$> tasks sc) (current sc)) k
    | None => k
    end in
  let since := wrapping_add u64_max (ticks_since_switch (wake k)) 1 in
  let k := with_wake (set_ticks_since since (wake k)) k in
  if TIME_SLICE_TICKS <=? ticks_since_switch (wake k)
  then schedule rsp (with_wake (set_ticks_since 0 (wake k)) k) else Some k.

(** The timer interrupt: count the tick, then the scheduler's handler. *)
Definition timer_interrupt (rsp : Z) k : option (Kernel PT) :=
  on_timer_tick rsp (mk_kernel (scheduler k) (next_id k) (wake k) (wrapping_add u64_max (ticks k) 1) (mach k) (cr3 k) (rsp0 k)).

Definition yield_now (rsp : Z) k : option (Kernel PT) := schedule rsp (with_wake (set_ticks_since 0 (wake k)) k).

Definition sleep_ticks (n rsp : Z) k : option (Kernel PT) :=
  match scheduler k with
  | Some sc =>
      sc ← update_current (λ t, set_wake_at (wrapping_add u64_max (ticks k) n) (set_state Blocked t)) sc;
      schedule rsp (with_sched sc k)
  | None => schedule rsp k
  end.

(** One turn of the final loop of [exit_with_code]; it repeats [schedule]
    until another task takes the processor. *)
Definition exit_with_code (code rsp : Z) k : option (Kernel PT) :=
  match scheduler k with
  | Some sc =>
      sc ← update_current (λ t,
        let t := terminate (ticks k) t in set_process (set_exit_code code <$> tcb_process t) t) sc;
      schedule rsp (with_sched sc k)
  | None => schedule rsp k
  end.

Definition exit (rsp : Z) k : option (Kernel PT) := exit_with_code 0 rsp k.

Definition kill (id : Z) k : option (result unit * Kernel PT) :=
  if id =? 1 then Some (Err "cannot kill shell task", k)
  else
    match scheduler k with
    | None => Some (Err "scheduler not initialized", k)
    | Some sc =>
        c ← tasks sc !! current sc;
        let is_current := tcb_id c =? id in
        match position (λ t, tcb_id t =? id) (tasks sc) with
        | Some pos =>
            t ← tasks sc !! pos;
            let t := terminate (ticks k) t in
            let '(freed, t) := if is_current then (None, t) else take_space t in
            Some (Ok tt, with_mach (free_opt freed (mach k)) (with_sched (mk_sched (<[pos := t]> (tasks sc)) (current sc)) k))
        | None => Some (Err "task not found", k)
        end
    end.

Definition reap_now k : option (Kernel PT) :=
  match scheduler k with
  | Some sc => r ← reap_terminated true (ticks k) sc (mach k); let '(sc, m) := r in Some (with_mach m (with_sched sc k))
  | None => Some k
  end.

Definition aligned_top (stack : Z) : Z := Z.land (stack + STACK_SIZE) (Z.lnot 0xF).

Definition new_tcb (id : Z) (name : str) (stack : Z) : Tcb :=
  mk_tcb id name Ready (aligned_top stack - INITIAL_FRAME_SIZE) 0 (aligned_top stack) None 0.

Definition spawn (name : str) (stack : Z) k : option (Z * Kernel PT) :=
  let id := next_id k in
  let k := with_next_id (wrapping_add u32_max (next_id k) 1) k in
  sc ← scheduler k;
  Some (id, with_sched (mk_sched (tasks sc ++ [new_tcb id name stack]) (current sc)) k).

Definition init (idle_stack heartbeat_stack : Z) k : option (Kernel PT) :=
  let shell := mk_tcb 1 (bs "shell") Running 0 0 0 None 0 in
  let idle := new_tcb 2 (bs "idle") idle_stack in
  '(_, k) ← spawn (bs "heartbeat") heartbeat_stack (with_sched (mk_sched [shell; idle] 0) k);
  Some k.

Definition snapshot (t : Tcb) : Task :=
  mk_task (tcb_id t) (tcb_name t) (tcb_state t)
    (match tcb_process t with Some _ => UserTask | None => KernelTask end)
    (p ← tcb_process t; exit_code p).

Definition list_tasks k : result (list Task) :=
  sc ← ok_or (scheduler k) "scheduler not initialized"; Ok (snapshot <$> tasks sc).

Definition task_count k : Z := match scheduler k with Some sc => zlen (tasks sc) | None => 0 end.

Definition find_task (id : Z) (sc : Scheduler) : option Tcb := List.find (λ t, tcb_id t =? id) (tasks sc).

Definition info (id : Z) k : result Task :=
  sc ← ok_or (scheduler k) "scheduler not initialized";
  t ← ok_or (find_task id sc) "task not found";
  Ok (snapshot t).

Definition current_task k : option Tcb := sc ← scheduler k; tasks sc !! current sc.

Definition current_task_id k : option Z := tcb_id <$> current_task k.

Definition activate_task (id : Z) k : bool * Kernel PT :=
  match scheduler k with
  | None => (false, k)
  | Some sc =>
      match position (λ t, tcb_id t =? id) (tasks sc) with
      | None => (false, k)
      | Some pos =>
          match tasks sc !! pos with
          | Some t =>
              if negb (bool_decide (tcb_state t = Blocked)) || negb (wake_at_tick t =? 0) then (false, k)
              else (true, with_sched (mk_sched (<[pos := set_state Ready t]> (tasks sc)) (current sc)) k)
          | None => (false, k)
          end
      end
  end.

Definition process_frame_count (id : Z) k : option Z :=
  sc ← scheduler k; t ← find_task id sc; sp ← space_of t; Some (frame_count sp).

Definition process_pml4_phys (id : Z) k : option Z :=
  sc ← scheduler k; t ← find_task id sc; sp ← space_of t; Some (pml4_frame sp).
End scheduler.
