(* ===== verification/SchedulerInv.v ===== *)
(** The scheduler's invariant, and how reaping, picking and switching act on
    the task table seen as the current task and the others in the order they
    will be considered. *)

From S2P Require Import Prelude X86 Frames Paging PagingSpaces PagingRange PagingCopy PagingSafety Wake Scheduler.

(** ** Positions in a table [l ++ c :: r] *)

Definition ids (ts : list Tcb) : list Z := tcb_id <$> ts.

(** The other tasks, in the order the scheduler scans them. *)
Definition others (sc : Scheduler) : list Tcb := drop (S (current sc)) (tasks sc) ++ take (current sc) (tasks sc).

(** The table with the current task singled out. *)
Definition split_at (sc : Scheduler) (l : list Tcb) (c : Tcb) (r : list Tcb) : Prop :=
  tasks sc = l ++ c :: r ∧ current sc = length l.

Lemma split_at_exists sc c : tasks sc !! current sc = Some c → ∃ l r, split_at sc l c r.
Proof.
  intros Hc. exists (take (current sc) (tasks sc)), (drop (S (current sc)) (tasks sc)). split.
  - by rewrite take_drop_middle.
  - rewrite length_take. apply lookup_lt_Some in Hc. lia.
Qed.

Lemma split_at_others sc l c r : split_at sc l c r → others sc = r ++ l.
Proof.
  intros [Ht Hc]. unfold others. rewrite Ht, Hc. f_equal.
  - rewrite drop_app_ge by lia. by replace (S (length l) - length l)%nat with 1%nat by lia.
  - by apply take_app_length.
Qed.

Lemma split_at_current sc l c r : split_at sc l c r → tasks sc !! current sc = Some c.
Proof. intros [-> ->]. by rewrite list_lookup_middle. Qed.

Lemma split_at_insert sc l c r x : split_at sc l c r → <[current sc := x]> (tasks sc) = l ++ x :: r.
Proof. intros [-> ->]. rewrite insert_app_r_alt by done. by rewrite Nat.sub_diag. Qed.

Lemma position_app_r {A} (P : A → bool) l x r :
  Forall (λ y, P y = false) l → P x = true → position P (l ++ x :: r) = Some (length l).
Proof. intros Hl Hx. induction Hl as [|y l Hy _ IH]; simpl; [by rewrite Hx|]. by rewrite Hy, IH. Qed.

Lemma filter_app_bool {A} (P : A → bool) l k : List.filter P (l ++ k) = List.filter P l ++ List.filter P k.
Proof. induction l as [|x l IH]; simpl; [done|]. destruct (P x); simpl; by rewrite IH. Qed.

Lemma elem_of_filter_bool {A} (P : A → bool) l x : x ∈ List.filter P l ↔ x ∈ l ∧ P x = true.
Proof. rewrite !list_elem_of_In. apply filter_In. Qed.

(** ** The scan for a ready task *)

Lemma find_ready_seq (P : nat → bool) (f : nat → nat) (Q : Tcb → bool) (L : list Tcb) s :
  (∀ j t, L !! j = Some t → P (f (s + j)%nat) = Q t) →
  List.find P (f <$> seq s (length L)) = (λ j, f (s + j)%nat) <$> position Q L.
Proof.
  revert s. induction L as [|t L IH]; intros s HP; simpl; [done|].
  pose proof (HP 0%nat t eq_refl) as H0. rewrite Nat.add_0_r in H0. rewrite H0. destruct (Q t); simpl.
  { f_equal. f_equal. lia. }
  change (list_fmap _ _ f (seq (S s) (length L))) with (f <$> seq (S s) (length L)). rewrite (IH (S s)).
  - destruct (position Q L); simpl; [|done]. do 2 f_equal. lia.
  - intros j u Hj. replace (S s + j)%nat with (s + S j)%nat by lia. by apply HP.
Qed.

(** Index [1 + j] places after the current task, cyclically. *)
Lemma lookup_cyclic (l r : list Tcb) c j t : (r ++ l ++ [c]) !! j = Some t →
  (l ++ c :: r) !! ((length l + (1 + j)) mod length (l ++ c :: r))%nat = Some t.
Proof.
  intros Hj. pose proof (lookup_lt_Some _ _ _ Hj) as Hlt. rewrite !length_app in Hlt. cbn [length] in Hlt.
  rewrite length_app. cbn [length]. destruct (decide (j < length r)%nat) as [Hr|Hr].
  - rewrite lookup_app_l in Hj by done. rewrite Nat.mod_small by lia.
    rewrite lookup_app_r by lia. by replace (length l + (1 + j) - length l)%nat with (S j) by lia.
  - rewrite lookup_app_r in Hj by lia.
    replace ((length l + (1 + j)) mod (length l + S (length r)))%nat with (j - length r)%nat.
    2:{ rewrite <- (Nat.mod_small (j - length r) (length l + S (length r))) by lia.
        rewrite <- (Nat.Div0.mod_add (j - length r) 1). f_equal. lia. }
    destruct (decide (j - length r < length l)%nat) as [Hl|Hl].
    + rewrite lookup_app_l in Hj |- * by done. done.
    + rewrite lookup_app_r in Hj |- * by lia.
      by replace (j - length r - length l)%nat with 0%nat in * by lia.
Qed.

Definition is_ready (t : Tcb) : bool := bool_decide (tcb_state t = Ready).

Lemma next_ready_scan l c r :
  next_ready (l ++ c :: r) (length l) =
  match position is_ready (r ++ l ++ [c]) with
  | Some j => ((length l + (1 + j)) mod length (l ++ c :: r))%nat
  | None => length l
  end.
Proof.
  unfold next_ready.
  assert (length (l ++ c :: r) = length (r ++ l ++ [c])) as Hlen by (rewrite !length_app; simpl; lia).
  rewrite Hlen at 1. rewrite (find_ready_seq _ _ is_ready).
  - by destruct (position is_ready (r ++ l ++ [c])).
  - intros j t Hj. by rewrite (lookup_cyclic _ _ _ _ _ Hj).
Qed.

(** Switching to another task [t]: it becomes the current one, and the old
    one is last in the new scan order but for the tasks skipped over. *)
Lemma switch_split (l r : list Tcb) c a t b : r ++ l = a ++ t :: b →
  let pos := ((length l + (1 + length a)) mod length (l ++ c :: r))%nat in
  (l ++ c :: r) !! pos = Some t ∧ pos ≠ length l ∧
  ∀ x, ∃ l' r', <[pos := x]> (l ++ c :: r) = l' ++ x :: r' ∧ pos = length l' ∧ r' ++ l' = b ++ c :: a.
Proof.
  intros E pos.
  assert (∃ l' r', l ++ c :: r = l' ++ t :: r' ∧ pos = length l' ∧ r' ++ l' = b ++ c :: a ∧ pos ≠ length l)
    as (l'&r'&Ets&Hpos&Erot&Hne).
  { assert ((∃ k, r = a ++ t :: k ∧ b = k ++ l) ∨ ∃ k, a = r ++ k ∧ l = k ++ t :: b) as [(k&->&->)|(k&->&->)].
    { apply app_eq_inv in E as [([|u k]&->&E)|(k&->&->)]; simpl in *; [|injection E as -> ->; eauto|eauto].
      subst l. right. exists []. by rewrite !app_nil_r. }
    - exists (l ++ c :: a), k. unfold pos. rewrite !length_app. simpl. rewrite length_app. simpl.
      rewrite Nat.mod_small by lia. rewrite <- !app_assoc. simpl. split_and!; [done|lia|done|lia].
    - exists k, (b ++ c :: r). unfold pos. rewrite !length_app. simpl. rewrite ?length_app. simpl.
      set (n := (length k + S (length b) + S (length r))%nat).
      replace (length k + S (length b) + S (length r + length k))%nat with (length k + 1 * n)%nat by lia.
      rewrite Nat.Div0.mod_add, Nat.mod_small by lia. rewrite <- !app_assoc. simpl. split_and!; [done|done|done|lia]. }
  rewrite Ets, Hpos. split; [by apply list_lookup_middle|]. split; [congruence|]. intros x.
  exists l', r'. split; [|done]. rewrite insert_app_r_alt by done. by rewrite Nat.sub_diag.
Qed.

(** Splitting at the first element that satisfies a test. *)
Lemma position_split {A} (P : A → bool) (L : list A) :
  match position P L with
  | Some j => ∃ a x b, L = a ++ x :: b ∧ j = length a ∧ P x = true ∧ Forall (λ y, P y = false) a
  | None => Forall (λ y, P y = false) L
  end.
Proof.
  induction L as [|y L IH]; simpl; [constructor|]. destruct (P y) eqn:E.
  - exists [], y, L. done.
  - destruct (position P L) as [j|]; simpl.
    + destruct IH as (a&x&b&->&->&?&?). exists (y :: a), x, b. split_and!; [done..|by constructor].
    + by constructor.
Qed.

Lemma position_app {A} (P : A → bool) (L K : list A) : Forall (λ y, P y = false) K → position P (L ++ K) = position P L.
Proof.
  intros HK. induction L as [|y L IH]; simpl; [|by rewrite IH]. apply position_None. by rewrite Forall_forall in HK.
Qed.

(** Every other index is a place in the scan order. *)
Lemma other_index (l r : list Tcb) c i t : (l ++ c :: r) !! i = Some t → i ≠ length l →
  ∃ a b, r ++ l = a ++ t :: b ∧ i = ((length l + (1 + length a)) mod length (l ++ c :: r))%nat.
Proof.
  intros Hi Hne. rewrite length_app. cbn [length]. destruct (decide (i < length l)%nat) as [Hl|Hl].
  - rewrite lookup_app_l in Hi by done. apply list_elem_of_split_length in Hi as (l1&l2&->&->).
    exists (r ++ l1), l2. split; [by rewrite <- app_assoc|]. rewrite !length_app. cbn [length].
    set (n := (length l1 + S (length l2) + S (length r))%nat).
    replace (length l1 + S (length l2) + (1 + (length r + length l1)))%nat with (length l1 + 1 * n)%nat by lia.
    rewrite Nat.Div0.mod_add, Nat.mod_small by lia. done.
  - rewrite lookup_app_r in Hi by lia. destruct (i - length l)%nat as [|j] eqn:Ej; [lia|]. simpl in Hi.
    pose proof (lookup_lt_Some _ _ _ Hi) as Hlt. apply list_elem_of_split_length in Hi as (r1&r2&->&->).
    exists r1, (r2 ++ l). split; [by rewrite <- app_assoc|]. rewrite Nat.mod_small by lia. lia.
Qed.

(** A task other than [c] is ready and asked for. *)
Definition wanted (requested : Z) (c : Tcb) (ts : list Tcb) : Prop :=
  requested ≠ 0 ∧ requested ≠ tcb_id c ∧ ∃ u, u ∈ ts ∧ is_ready u = true ∧ tcb_id u = requested.

Lemma pick_next_spec l c r requested :
  let next := pick_next (l ++ c :: r) (length l) c requested in
  (next = length l ∧ Forall (λ t, is_ready t = false) (r ++ l)) ∨
  ∃ a t b, r ++ l = a ++ t :: b ∧ is_ready t = true ∧
    next = ((length l + (1 + length a)) mod length (l ++ c :: r))%nat ∧
    (requested = 0 → Forall (λ t, is_ready t = false) a) ∧ (wanted requested c (r ++ l) → tcb_id t = requested).
Proof.
  unfold pick_next. set (P := λ t, _ && _ && _).
  assert ((let next := next_ready (l ++ c :: r) (length l) in
    (next = length l ∧ Forall (λ t, is_ready t = false) (r ++ l)) ∨
    ∃ a t b, r ++ l = a ++ t :: b ∧ is_ready t = true ∧
      next = ((length l + (1 + length a)) mod length (l ++ c :: r))%nat ∧
      Forall (λ t, is_ready t = false) a)) as Hscan.
  { cbn zeta. rewrite next_ready_scan. rewrite app_assoc. pose proof (position_split is_ready ((r ++ l) ++ [c])) as Hs.
    destruct (position is_ready _) as [j|]; [|apply Forall_app in Hs as [? _]; by left].
    destruct Hs as (a&t&b&E&->&Ht&Ha). destruct b as [|u b _] using rev_ind.
    - apply app_inj_tail in E as [<- <-]. left. split; [|done]. rewrite !length_app. cbn [length].
      set (n := (length l + S (length r))%nat).
      replace (length l + (1 + (length r + length l)))%nat with (length l + 1 * n)%nat by lia.
      rewrite Nat.Div0.mod_add, Nat.mod_small by lia. done.
    - rewrite app_comm_cons, app_assoc in E. apply app_inj_tail in E as [E _]. right. by exists a, t, b. }
  destruct (Z.eqb_spec requested 0) as [->|Hreq]; cbn [negb].
  { rewrite Nat.eqb_refl. destruct Hscan as [?|(a&t&b&?&?&?&?)]; [by left|right; exists a, t, b].
    split_and!; [done..|]. by intros [? _]. }
  pose proof (position_split P (l ++ c :: r)) as Hp. destruct (position P _) as [i|] eqn:Ei; cbn [default].
  2:{ rewrite Nat.eqb_refl. destruct Hscan as [?|(a&t&b&?&?&?&?)]; [by left|right; exists a, t, b].
      split_and!; [done..|]. intros (_&Hnc&u&Hu&Hru&Hid). rewrite Forall_forall in Hp. specialize (Hp u ltac:(set_solver)).
      unfold P in Hp. rewrite Hid, Z.eqb_refl, (proj2 (Z.eqb_neq _ _) Hnc) in Hp. unfold is_ready in Hru. by rewrite Hru in Hp. }
  apply position_Some in Ei as (t&Ht&HP&_). unfold P in HP. bool_hyps.
  assert (i ≠ length l) as Hne by (intros ->; rewrite list_lookup_middle in Ht by done; congruence).
  rewrite (proj2 (Nat.eqb_neq _ _)) by done. right.
  destruct (other_index _ _ _ _ _ Ht Hne) as (a&b&E&Hi). exists a, t, b. split_and!; [done| |done|done|].
  - unfold is_ready. by apply bool_decide_eq_true.
  - intros _. congruence.
Qed.

(** ** The invariant of the table *)

Section table.
Context {PT : Type} `{!BootMap, !KernelFrames, !X86Addr, !X86AddrSpec, !X86_64 PT, !X86_64Spec PT USER_REGION_PML4_INDEX}.
Implicit Types (m : Machine PT).

(** The live address spaces of a table. *)
Definition spaces_of (ts : list Tcb) : list AddressSpace := omap space_of ts.

(** A task that does not hold the processor is not running, and owns no
    address space once it has ended. *)
Definition quiet (t : Tcb) : Prop := tcb_state t ≠ Running ∧ (tcb_state t = Terminated → space_of t = None).

Record table_ok (l : list Tcb) (c : Tcb) (r : list Tcb) m : Prop := {
  table_ids : NoDup (ids (l ++ c :: r));
  table_quiet : Forall quiet (r ++ l);
  table_machine : machine_ok m (spaces_of (l ++ c :: r));
  table_root : kernel_pml4 m ≠ 0
}.

Lemma spaces_of_app ts us : spaces_of (ts ++ us) = spaces_of ts ++ spaces_of us.
Proof. apply omap_app. Qed.

Lemma ids_app ts us : ids (ts ++ us) = ids ts ++ ids us.
Proof. apply fmap_app. Qed.

(** The table's order does not matter to the invariant, only who is current. *)
Lemma table_ok_rotate l c r l' c' r' m :
  l ++ c :: r ≡ₚ l' ++ c' :: r' → Forall quiet (r' ++ l') → table_ok l c r m → table_ok l' c' r' m.
Proof.
  intros Hp Hq [Hi _ Hm Hr]. constructor; [|done| |done].
  - unfold ids in *. by rewrite <- Hp.
  - eapply machine_ok_perm; [|exact Hm]. unfold spaces_of. by rewrite Hp.
Qed.

(** Replace the current task by one with the same identity and space. *)
Lemma table_ok_current l c r c' m : tcb_id c' = tcb_id c → space_of c' = space_of c →
  table_ok l c r m → table_ok l c' r m.
Proof.
  intros Hid Hsp [Hi Hq Hm Hr]. constructor; [|done| |done].
  - revert Hi. by rewrite !ids_app; simpl; rewrite Hid.
  - revert Hm. rewrite !spaces_of_app. simpl. by rewrite Hsp.
Qed.

(** The current task's space, if it has one, is live. *)
Lemma table_ok_space l c r m sp : table_ok l c r m → space_of c = Some sp →
  machine_ok m (sp :: spaces_of (l ++ r)).
Proof.
  intros [_ _ Hm _] Hsp. eapply machine_ok_perm; [|exact Hm]. rewrite !spaces_of_app. simpl. rewrite Hsp.
  by rewrite Permutation_middle.
Qed.

Lemma filter_spaces (keep : Tcb → bool) ts :
  Forall (λ t, keep t = false → space_of t = None) ts → spaces_of (List.filter keep ts) = spaces_of ts.
Proof.
  induction 1 as [|t ts Ht _ IH]; simpl; [done|]. destruct (keep t); simpl; rewrite IH; [done|].
  by rewrite Ht.
Qed.

Lemma filter_ids (keep : Tcb → bool) ts : NoDup (ids ts) → NoDup (ids (List.filter keep ts)).
Proof.
  induction ts as [|t ts IH]; simpl; [done|]. rewrite NoDup_cons. intros [Hn Hnd].
  destruct (keep t); simpl; [|auto]. apply NoDup_cons. split; [|auto]. intros Hin. apply Hn.
  apply list_elem_of_fmap in Hin as (u&->&Hu). apply elem_of_filter_bool in Hu as [Hu _].
  by apply list_elem_of_fmap_2.
Qed.

Lemma filter_id_all {A} (keep : A → bool) l : Forall (λ x, keep x = true) l → List.filter keep l = l.
Proof. induction 1 as [|x l Hx _ IH]; simpl; [done|]. by rewrite Hx, IH. Qed.

(** ** Reaping *)

Definition keep (cur : Z) (now : Z) (force : bool) (t : Tcb) : bool := negb (should_reap cur now force t).

Lemma table_ids_ne l c r m t : table_ok l c r m → t ∈ r ++ l → tcb_id t ≠ tcb_id c.
Proof.
  intros [Hi _ _ _] Ht E. unfold ids in Hi. rewrite <- Permutation_middle in Hi. simpl in Hi.
  apply NoDup_cons in Hi as [Hn _]. apply Hn. rewrite <- E. apply list_elem_of_fmap_2. set_solver.
Qed.

Lemma reap_spec force now sc l c r m : split_at sc l c r → table_ok l c r m →
  let k := keep (tcb_id c) now force in
  reap_terminated force now sc m
    = Some (mk_sched (List.filter k l ++ c :: List.filter k r) (length (List.filter k l)), m) ∧
  table_ok (List.filter k l) c (List.filter k r) m.
Proof.
  intros Hsp Hok k. pose proof Hok as [Hi Hq Hm Hr].
  assert (∀ t, t ∈ r ++ l → k t = false → space_of t = None) as Hdead.
  { intros t Ht Hk. rewrite Forall_forall in Hq. apply (Hq t Ht). unfold k, keep, should_reap in Hk. bool_hyps. done. }
  assert (k c = true) as Hkc by (unfold k, keep, should_reap; by rewrite Z.eqb_refl).
  assert (List.filter k (l ++ c :: r) = List.filter k l ++ c :: List.filter k r) as Hf
    by (rewrite filter_app_bool; cbn [List.filter]; by rewrite Hkc).
  split.
  - unfold reap_terminated. rewrite (split_at_current _ _ _ _ Hsp). cbn [mbind option_bind].
    destruct Hsp as [-> _]. fold (keep (tcb_id c) now force).
    assert (foldl (λ m t, if should_reap (tcb_id c) now force t then free_opt (space_of t) m else m) m (l ++ c :: r) = m) as ->.
    { assert (Forall (λ t, should_reap (tcb_id c) now force t = true → space_of t = None) (l ++ c :: r)) as Hall.
      { apply Forall_forall. intros t Ht Hre. apply elem_of_app in Ht as [Ht|[->|Ht]%elem_of_cons].
        - apply Hdead; [set_solver|]. unfold k, keep. by rewrite Hre.
        - unfold k, keep in Hkc. by rewrite Hre in Hkc.
        - apply Hdead; [set_solver|]. unfold k, keep. by rewrite Hre. }
      revert Hall. generalize (l ++ c :: r). induction 1 as [|t ts Ht _ IH]; simpl; [done|].
      destruct (should_reap _ _ _ t); [by rewrite Ht|done]. }
    fold k. rewrite Hf.
    rewrite (position_app_r (λ t, tcb_id t =? tcb_id c)); [done| |apply Z.eqb_refl].
    apply Forall_forall. intros t [Ht _]%elem_of_filter_bool. apply Z.eqb_neq. eapply table_ids_ne; [exact Hok|set_solver].
  - constructor; [| | |done].
    + pose proof (filter_ids k _ Hi) as Hids. by rewrite Hf in Hids.
    + rewrite <- filter_app_bool. rewrite Forall_forall in Hq |- *. intros t [Ht _]%elem_of_filter_bool. by apply Hq.
    + revert Hm. rewrite !spaces_of_app. simpl. rewrite !filter_spaces; [done|..];
        apply Forall_forall; intros t Ht; apply Hdead; set_solver.
Qed.

(** ** Switching *)

(** The page-table root a task runs on. *)
Definition root_of m (t : Tcb) : Z :=
  match space_of t with Some sp => pml4_frame sp | None => page_containing (kernel_pml4 m) end.

Lemma root_of_plan m t : kernel_pml4 m ≠ 0 →
  match space_of t with Some sp => Some (pml4_frame sp) | None => kernel_pml4_frame m end = Some (root_of m t).
Proof.
  intros Hr. unfold root_of, kernel_pml4_frame. destruct (space_of t); [done|]. apply Z.eqb_neq in Hr. by rewrite Hr.
Qed.

(** What is left of the task that is switched away from. *)
Definition left_behind (c : Tcb) : Tcb :=
  let c := if bool_decide (tcb_state c = Running) then set_state Ready c else c in
  if bool_decide (tcb_state c = Terminated) then (take_space c).2 else c.

Lemma take_space_facts c : space_of (take_space c).2 = None ∧ tcb_id (take_space c).2 = tcb_id c ∧
  (take_space c).1 = space_of c ∧ tcb_state (take_space c).2 = tcb_state c.
Proof. unfold take_space, space_of. destruct (tcb_process c) as [p|] eqn:E; simpl; [done|]. by rewrite E. Qed.

Lemma left_behind_quiet c : quiet (left_behind c) ∧ tcb_id (left_behind c) = tcb_id c.
Proof.
  unfold left_behind, quiet. destruct (take_space_facts c) as (Hs&Hid&_&Hst).
  destruct (tcb_state c) eqn:E; simpl; rewrite ?E; simpl; rewrite ?Hst, ?E; (split; [split; [done|]|done]); done.
Qed.

Lemma left_behind_terminated c : tcb_state c = Terminated → tcb_state (left_behind c) = Terminated.
Proof.
  intros Hc. destruct (take_space_facts c) as (_&_&_&Hst). unfold left_behind. rewrite Hc. simpl. rewrite Hc. simpl. by rewrite Hst.
Qed.

(** The process of [u] is that of [t], but for the address space. *)
Definition kept_process (t u : Tcb) : Prop := ∃ sp, tcb_process u = set_space sp <$> tcb_process t.

Lemma kept_same t u : tcb_process u = tcb_process t → kept_process t u.
Proof. intros E. unfold kept_process. rewrite E. destruct (tcb_process t) as [[sp]|]; [by exists sp|by exists None]. Qed.

Lemma left_behind_process c : kept_process c (left_behind c).
Proof.
  unfold left_behind. destruct (tcb_state c) eqn:E; simpl; rewrite ?E; simpl; try by apply kept_same.
  exists None. unfold take_space. destruct (tcb_process c) eqn:Ep; simpl; by rewrite ?Ep.
Qed.

(** The address space a switch frees. *)
Definition freed_by (c : Tcb) : option AddressSpace :=
  if bool_decide (tcb_state c = Terminated) then space_of c else None.

Lemma left_behind_ended c : tcb_state c = Terminated →
  left_behind c = (take_space c).2 ∧ freed_by c = space_of c.
Proof. destruct c. simpl. by intros ->. Qed.

Lemma free_opt_root (sp : option AddressSpace) m : kernel_pml4 (free_opt sp m) = kernel_pml4 m.
Proof. destruct sp; simpl; [|done]. unfold free_address_space. by destruct (frame_allocator m). Qed.

(** Leaving [c] frees its space if it has ended, and only then. *)
Lemma table_ok_leave l c r m : table_ok l c r m → table_ok l (left_behind c) r (free_opt (freed_by c) m).
Proof.
  intros Hok. destruct (decide (tcb_state c = Terminated)) as [Ht|Ht].
  - destruct (left_behind_ended c Ht) as [-> ->].
    destruct (take_space_facts c) as (Hs&Hid&_&_).
    destruct (space_of c) as [sp|] eqn:Esp.
    + pose proof (table_ok_space _ _ _ _ _ Hok Esp) as Hm. apply free_address_space_spec in Hm.
      destruct Hok as [Hi Hq _ Hr]. constructor; [|done| |by rewrite free_opt_root].
      * revert Hi. rewrite !ids_app. simpl. by rewrite Hid.
      * rewrite spaces_of_app in Hm |- *. simpl. by rewrite Hs.
    + apply (table_ok_current _ c); [done|by rewrite Esp|done].
  - unfold freed_by. rewrite bool_decide_eq_false_2 by done. cbn [free_opt].
    apply (table_ok_current _ c); [apply left_behind_quiet| |done].
    unfold left_behind. destruct (tcb_state c) eqn:E; simpl; by rewrite ?E.
Qed.

Lemma set_state_facts st t : tcb_id (set_state st t) = tcb_id t ∧ space_of (set_state st t) = space_of t.
Proof. done. Qed.

(** What [prepare_switch] does to the table that is left after reaping. *)
Lemma prepare_switch_spec now sc l c r w m : split_at sc l c r → table_ok l c r m →
  let l1 := List.filter (keep (tcb_id c) now false) l in
  let r1 := List.filter (keep (tcb_id c) now false) r in
  (∃ c' w', prepare_switch now sc w m = Some (None, mk_sched (l1 ++ c' :: r1) (length l1), w', m) ∧
     tcb_id c' = tcb_id c ∧ tcb_process c' = tcb_process c ∧ Forall (λ t, is_ready t = false) (r1 ++ l1) ∧
     (foreground_wake_id w = 0 → foreground_wake_id w' = 0) ∧ ticks_since_switch w' = ticks_since_switch w ∧
     (tcb_state c = Terminated → tcb_state c' = Terminated)) ∨
  (∃ a t b, r1 ++ l1 = a ++ t :: b ∧ is_ready t = true ∧
     (foreground_wake_id w = 0 → Forall (λ t, is_ready t = false) a) ∧
     (wanted (foreground_wake_id w) c (r1 ++ l1) → tcb_id t = foreground_wake_id w) ∧
     let pos := ((length l1 + (1 + length a)) mod length (l1 ++ left_behind c :: r1))%nat in
     prepare_switch now sc w m =
       Some (Some (mk_plan (length l1) (saved_rsp t) (root_of m t) (kernel_stack_top t) (freed_by c)),
             mk_sched (<[pos := set_state Running t]> (l1 ++ left_behind c :: r1)) pos, clear_wake w, m)).
Proof.
  intros Hsp Hok l1 r1. destruct (reap_spec false now sc l c r m Hsp Hok) as [Hreap Hok1].
  unfold prepare_switch. rewrite Hreap. cbn [mbind option_bind tasks current]. fold l1 r1.
  destruct (Nat.ltb_spec (length (l1 ++ c :: r1)) 2) as [Hn|Hn].
  { left. rewrite length_app in Hn. simpl in Hn. exists c, w. destruct l1 as [|? ?], r1 as [|? ?]; simpl in Hn; try lia.
    split_and!; [done..|constructor|done|done|done]. }
  rewrite list_lookup_middle by done. cbn [mbind option_bind].
  set (c1 := if bool_decide (tcb_state c = Running) then set_state Ready c else c).
  assert ((if bool_decide (tcb_state c = Running) then <[length l1 := set_state Ready c]> (l1 ++ c :: r1)
           else l1 ++ c :: r1) = l1 ++ c1 :: r1) as ->.
  { unfold c1. destruct (bool_decide _); [|done]. rewrite insert_app_r_alt by done. by rewrite Nat.sub_diag. }
  rewrite list_lookup_middle by done. cbn [mbind option_bind].
  assert (tcb_id c1 = tcb_id c ∧ tcb_process c1 = tcb_process c) as [Hid1 Hsp1] by (unfold c1; by destruct (bool_decide _)).
  assert (pick_next (l1 ++ c1 :: r1) (length l1) c (foreground_wake_id w)
    = pick_next (l1 ++ c1 :: r1) (length l1) c1 (foreground_wake_id w)) as -> by (unfold pick_next; by rewrite Hid1).
  destruct (pick_next_spec l1 c1 r1 (foreground_wake_id w)) as [[Hp Hnone]|(a&t&b&E&Ht&Hp&Hfirst&Hwant)]; rewrite Hp.
  - rewrite Nat.eqb_refl. left. exists (if bool_decide (tcb_state c1 = Terminated) then c1 else set_state Running c1), (clear_wake w).
    assert (tcb_state c = Terminated → tcb_state c1 = Terminated) as Hended.
    { unfold c1. intros Hc. by rewrite bool_decide_eq_false_2 by congruence. }
    split_and!; [|by destruct (bool_decide (tcb_state c1 = Terminated))..|done|done|done|].
    2:{ intros Hc. rewrite bool_decide_eq_true_2; by apply Hended. }
    do 3 f_equal. f_equal.
    destruct (bool_decide (tcb_state c1 = Terminated)); [done|]. rewrite insert_app_r_alt by done. by rewrite Nat.sub_diag.
  - right. exists a, t, b. split_and!; [done|done|done|unfold wanted in *; by rewrite Hid1 in Hwant|].
    pose proof (switch_split l1 r1 c1 a t b E) as (_&Hne&_). cbn zeta in Hne.
    rewrite (proj2 (Nat.eqb_neq _ _)) by done.
    assert ((if bool_decide (tcb_state c1 = Terminated) then take_space c1 else (None, c1)) = (freed_by c, left_behind c)) as ->.
    { unfold left_behind, freed_by. fold c1. destruct (decide (tcb_state c = Terminated)) as [Hc|Hc].
      - assert (c1 = c) as -> by (unfold c1; rewrite bool_decide_eq_false_2; congruence).
        rewrite !bool_decide_eq_true_2 by done. destruct (take_space_facts c) as (_&_&<-&_). apply surjective_pairing.
      - assert (tcb_state c1 ≠ Terminated) by (unfold c1; destruct (bool_decide _); simpl; congruence).
        by rewrite !bool_decide_eq_false_2. }
    rewrite insert_app_r_alt, Nat.sub_diag by done. cbn [insert list_insert].
    pose proof (switch_split l1 r1 (left_behind c) a t b E) as (Hpos&_&_). cbn zeta in Hpos.
    assert (length (l1 ++ left_behind c :: r1) = length (l1 ++ c1 :: r1)) as El by (rewrite !length_app; done).
    rewrite El in Hpos |- *. rewrite Hpos. cbn [mbind option_bind].
    rewrite root_of_plan by (by destruct Hok). done.
Qed.

(** ** The whole kernel *)

Implicit Types (k : Kernel PT).

(** The processor runs on the address space of the current task; identifiers
    are unique and below the next one. *)
Record kernel_ok k (l : list Tcb) (c : Tcb) (r : list Tcb) : Prop := {
  kernel_sched : ∃ sc, scheduler k = Some sc ∧ split_at sc l c r;
  kernel_table : table_ok l c r (mach k);
  kernel_cr3 : cr3 k = root_of (mach k) c;
  kernel_ids : Forall (λ x, 0 < x < next_id k) (ids (l ++ c :: r))
}.

Lemma ids_sub (P : Z → Prop) l c r l' c' r' : Forall P (ids (l ++ c :: r)) →
  (∀ x, x ∈ c' :: r' ++ l' → tcb_id x ∈ ids (c :: r ++ l)) → Forall P (ids (l' ++ c' :: r')).
Proof.
  unfold ids. rewrite !Forall_forall. intros Hall Hsub x Hx. apply list_elem_of_fmap in Hx as (t&->&Ht).
  apply Hall. enough (tcb_id t ∈ ids (c :: r ++ l)) as Hin.
  { revert Hin. unfold ids. rewrite !list_elem_of_fmap. intros (u&?&Hu). exists u. split; [done|set_solver]. }
  apply Hsub. set_solver.
Qed.

Lemma root_of_free (sp : option AddressSpace) m t : root_of (free_opt sp m) t = root_of m t.
Proof. unfold root_of. by rewrite free_opt_root. Qed.

(** The other tasks that survive reaping, in scan order. *)
Definition waiting k (l : list Tcb) (c : Tcb) (r : list Tcb) : list Tcb :=
  List.filter (keep (tcb_id c) (ticks k) false) (r ++ l).

(** The same memory behind the same tables; frames may have come free. *)
Definition same_ram m m' : Prop :=
  phys_mem_offset m' = phys_mem_offset m ∧ page_tables m' = page_tables m ∧ memory m' = memory m.

Lemma free_opt_memory (sp : option AddressSpace) m : same_ram m (free_opt sp m).
Proof. destruct sp; [|done]. simpl. unfold free_address_space. by destruct (frame_allocator m). Qed.

(** One call of [schedule]: it never panics, keeps the invariant, and either
    stays with the current task because no other is ready, or hands the
    processor to a ready one. *)
Lemma schedule_spec rsp k l c r : kernel_ok k l c r →
  ∃ k' l' c' r', schedule rsp k = Some k' ∧ kernel_ok k' l' c' r' ∧
    next_id k' = next_id k ∧ ticks k' = ticks k ∧
    (foreground_wake_id (wake k) = 0 → foreground_wake_id (wake k') = 0) ∧
    ticks_since_switch (wake k') = ticks_since_switch (wake k) ∧ same_ram (mach k) (mach k') ∧
    ((tcb_id c' = tcb_id c ∧ tcb_process c' = tcb_process c ∧ r' ++ l' = waiting k l c r ∧ Forall (λ t, is_ready t = false) (waiting k l c r) ∧
        (tcb_state c = Terminated → tcb_state c' = Terminated)) ∨
     (∃ a t b c2, waiting k l c r = a ++ t :: b ∧ is_ready t = true ∧
        (foreground_wake_id (wake k) = 0 → Forall (λ t, is_ready t = false) a) ∧
        (wanted (foreground_wake_id (wake k)) c (waiting k l c r) → tcb_id t = foreground_wake_id (wake k)) ∧
        c' = set_state Running t ∧ r' ++ l' = b ++ c2 :: a ∧ tcb_id c2 = tcb_id c ∧ kept_process c c2 ∧
        foreground_wake_id (wake k') = 0 ∧ (tcb_state c = Terminated → tcb_state c2 = Terminated))).
Proof.
  intros [(sc&Hsc&Hsp) Htab Hcr3 Hids]. unfold schedule. rewrite Hsc. unfold waiting. rewrite filter_app_bool.
  destruct (reap_spec false (ticks k) sc l c r (mach k) Hsp Htab) as [_ Hok1].
  set (l1 := List.filter (keep (tcb_id c) (ticks k) false) l) in *.
  set (r1 := List.filter (keep (tcb_id c) (ticks k) false) r) in *.
  assert (∀ x, x ∈ r1 ++ l1 → tcb_id x ∈ ids (c :: r ++ l)) as Hsub.
  { intros x Hx. unfold ids. apply list_elem_of_fmap_2. apply elem_of_app in Hx as [[Hx _]%elem_of_filter_bool|[Hx _]%elem_of_filter_bool]; set_solver. }
  assert (tcb_id c ∈ ids (c :: r ++ l)) as Hsubc by (simpl; set_solver).
  destruct (prepare_switch_spec (ticks k) sc l c r (wake k) (mach k) Hsp Htab) as [(c'&w'&->&Hid&Hspc&Hnone&Hw&Hts&Hended)|(a&t&b&E&Ht&Hfirst&Hwant&->)];
    fold l1 r1; cbn [mbind option_bind].
  - eexists _, l1, c', r1. split; [reflexivity|]. split_and!; [|done|done|done|done|done|by left].
    constructor; cbn [scheduler mach cr3 next_id].
    + eexists. split; [reflexivity|done].
    + apply (table_ok_current _ c); [done|unfold space_of; by rewrite Hspc|done].
    + unfold root_of, space_of. by rewrite Hspc.
    + eapply ids_sub; [exact Hids|]. intros x [->|Hx]%elem_of_cons; [by rewrite Hid|auto].
  - change (r1 ++ l1 = a ++ t :: b) in E. unfold switch. cbn [scheduler mbind option_bind tasks current plan_old].
    set (pos := ((length l1 + (1 + length a)) mod length (l1 ++ left_behind c :: r1))%nat).
    pose proof (switch_split l1 r1 (set_rsp rsp (left_behind c)) a t b E) as (_&Hne&Hins).
    assert (length (l1 ++ set_rsp rsp (left_behind c) :: r1) = length (l1 ++ left_behind c :: r1)) as El by (rewrite !length_app; done).
    rewrite El in Hne, Hins. cbn zeta in Hne, Hins. fold pos in Hne, Hins.
    rewrite list_lookup_insert_ne, list_lookup_middle by done. cbn [mbind option_bind].
    rewrite list_insert_insert_ne by done. rewrite (insert_app_r_alt l1 _ (length l1)), Nat.sub_diag by done. cbn [insert list_insert].
    destruct (Hins (set_state Running t)) as (l'&r'&->&->&Erot).
    eexists _, l', (set_state Running t), r'. split; [reflexivity|].
    split_and!; [|done|done|done|done|apply free_opt_memory|right; exists a, t, b, (set_rsp rsp (left_behind c));
      split_and!; [done..|apply left_behind_quiet|apply left_behind_process|done|apply left_behind_terminated]].
    destruct (left_behind_quiet c) as [Hq Hidl].
    constructor; cbn [scheduler mach cr3 next_id new_cr3 reclaim].
    + eexists. split; [reflexivity|done].
    + pose proof (table_ok_leave _ _ _ _ Hok1) as Hleave.
      pose proof (table_ok_current l1 (left_behind c) r1 (set_rsp rsp (left_behind c)) _ eq_refl eq_refl Hleave) as Hleave'.
      assert (table_ok l' t r' (free_opt (freed_by c) (mach k))) as Hrot.
      { eapply table_ok_rotate; [| |exact Hleave'].
        - rewrite <- !Permutation_middle, (Permutation_app_comm l1), E, (Permutation_app_comm l' r'), Erot. solve_Permutation.
        - rewrite Erot. destruct Hok1 as [_ Hqs _ _]. rewrite E in Hqs. rewrite !Forall_app, !Forall_cons in *.
          split_and!; [tauto|exact Hq|tauto]. }
      by apply (table_ok_current _ t).
    + unfold root_of. rewrite free_opt_root. done.
    + eapply ids_sub; [exact Hids|]. rewrite Erot. intros x Hx.
      assert (x = set_state Running t ∨ x = set_rsp rsp (left_behind c) ∨ x ∈ r1 ++ l1) as [->|[->|?]] by (rewrite E; set_solver).
      * apply (Hsub t). rewrite E. set_solver.
      * simpl. rewrite Hidl. simpl. set_solver.
      * auto.
Qed.
End table.
