(* ===== verification/OpenFiles.v ===== *)
(** The open-file table of a process (kernel/src/task.rs): the operations on
    [ProcessState.open_files] and their lifting to the current process.

    A handle is a table index plus [FIRST_FILE_HANDLE]. The lifted operations
    return [None] or [false] when no user process is current, as the code does. *)

From S2P Require Import Prelude X86 Frames Paging Wake Scheduler.

Definition MAX_OPEN_FILES : Z := 16.
Definition MAX_OPEN_FILE_BYTES : Z := 256 * 1024.
Definition FIRST_FILE_HANDLE : Z := 3.

Definition set_files (files : list (option OpenFile)) (bytes : Z) (p : ProcessState) : ProcessState :=
  mk_process (address_space p) (entry_point p) (user_stack_top p) (exit_code p) (mmap_next p) (cwd p) files bytes.
Definition set_cwd (cwd : str) (p : ProcessState) : ProcessState :=
  mk_process (address_space p) (entry_point p) (user_stack_top p) (exit_code p) (mmap_next p) cwd (open_files p) (open_file_bytes p).

(** [u32::try_from(index).ok()?.checked_add(FIRST_FILE_HANDLE)] *)
Definition handle_of (index : nat) : option Z :=
  if Z.of_nat index <=? u32_max then checked_add u32_max (Z.of_nat index) FIRST_FILE_HANDLE else None.

(** [handle.checked_sub(FIRST_FILE_HANDLE)] as an index *)
Definition index_of (handle : Z) : option nat := Z.to_nat <$> checked_sub handle FIRST_FILE_HANDLE.

(** [process.open_files.get(index)?.as_ref()?] *)
Definition file_at (index : nat) (p : ProcessState) : option OpenFile := f ← open_files p !! index; f.

Definition is_none {A} (o : option A) : bool := match o with None => true | Some _ => false end.

(** The bodies of the closures, on the process they find. *)
Definition open_file (data : list byte) (p : ProcessState) : option Z * ProcessState :=
  match checked_add u64_max (open_file_bytes p) (zlen data) with
  | None => (None, p)
  | Some total =>
      if MAX_OPEN_FILE_BYTES <? total then (None, p)
      else
        match position is_none (open_files p) with
        | Some index =>
            (handle_of index, set_files (<[index := Some (mk_file data 0)]> (open_files p)) total p)
        | None =>
            if MAX_OPEN_FILES <=? zlen (open_files p) then (None, p)
            else
              let index := length (open_files p) in
              (handle_of index, set_files (open_files p ++ [Some (mk_file data 0)]) total p)
        end
  end.

Definition peek_file (handle max_len : Z) (p : ProcessState) : option (list byte * Z * Z) :=
  index ← index_of handle;
  file ← file_at index p;
  end_ ← checked_add u64_max (file_offset file) max_len;
  Some (file_data file, file_offset file, Z.min end_ (zlen (file_data file))).

Definition set_offset (index : nat) (file : OpenFile) (offset : Z) (p : ProcessState) : ProcessState :=
  set_files (<[index := Some (mk_file (file_data file) offset)]> (open_files p)) (open_file_bytes p) p.

Definition advance_file (handle amount : Z) (p : ProcessState) : option unit * ProcessState :=
  match (index ← index_of handle; file ← file_at index p;
         new_offset ← checked_add u64_max (file_offset file) amount; Some (index, file, new_offset)) with
  | Some (index, file, new_offset) =>
      if zlen (file_data file) <? new_offset then (None, p) else (Some tt, set_offset index file new_offset p)
  | None => (None, p)
  end.

Definition seek_file (handle offset : Z) (p : ProcessState) : option unit * ProcessState :=
  match (index ← index_of handle; file ← file_at index p; Some (index, file)) with
  | Some (index, file) =>
      if zlen (file_data file) <? offset then (None, p) else (Some tt, set_offset index file offset p)
  | None => (None, p)
  end.

(** The slot is emptied before the byte count is adjusted. *)
Definition close_file (handle : Z) (p : ProcessState) : option unit * ProcessState :=
  match (index ← index_of handle; file ← file_at index p; Some (index, file)) with
  | Some (index, file) =>
      let files := <[index := None]> (open_files p) in
      match checked_sub (open_file_bytes p) (zlen (file_data file)) with
      | Some bytes => (Some tt, set_files files bytes p)
      | None => (None, set_files files (open_file_bytes p) p)
      end
  | None => (None, p)
  end.

(** ** On the current process *)

Section current.
Context {PT : Type}.
Implicit Types (k : Kernel PT).

Definition current_process k : option ProcessState :=
  sc ← scheduler k; t ← tasks sc !! current sc; tcb_process t.

(** Run a closure on the current process. *)
Definition on_process {A} (f : ProcessState → option A * ProcessState) k : option A * Kernel PT :=
  match scheduler k with
  | None => (None, k)
  | Some sc =>
      match tasks sc !! current sc with
      | None => (None, k)
      | Some t =>
          match tcb_process t with
          | None => (None, k)
          | Some p =>
              let '(r, p) := f p in
              (r, with_sched (mk_sched (<[current sc := set_process (Some p) t]> (tasks sc)) (current sc)) k)
          end
      end
  end.

(** [.is_some()] of a closure's result *)
Definition on_process_ok (f : ProcessState → option unit * ProcessState) k : bool * Kernel PT :=
  let '(r, k) := on_process f k in (match r with Some _ => true | None => false end, k).

Definition open_file_for_current_process (data : list byte) k : option Z * Kernel PT := on_process (open_file data) k.
Definition peek_file_for_current_process (handle max_len : Z) k : option (list byte * Z * Z) :=
  p ← current_process k; peek_file handle max_len p.
Definition advance_file_for_current_process (handle amount : Z) k : bool * Kernel PT := on_process_ok (advance_file handle amount) k.
Definition seek_file_for_current_process (handle offset : Z) k : bool * Kernel PT := on_process_ok (seek_file handle offset) k.
Definition close_file_for_current_process (handle : Z) k : bool * Kernel PT := on_process_ok (close_file handle) k.

Definition set_current_working_directory (dir : str) k : bool * Kernel PT :=
  on_process_ok (λ p, (Some tt, set_cwd dir p)) k.
End current.

(** ** The table refines a map from handles to files *)

(** The files by handle. *)
Definition file (handle : Z) (p : ProcessState) : option OpenFile := index ← index_of handle; file_at index p.

Definition file_lengths (files : list (option OpenFile)) : Z :=
  foldr (λ f n, match f with Some f => zlen (file_data f) + n | None => n end) 0 files.

Record files_ok (p : ProcessState) : Prop := {
  files_count : zlen (open_files p) <= MAX_OPEN_FILES;
  files_bytes : open_file_bytes p = file_lengths (open_files p);
  files_limit : open_file_bytes p <= MAX_OPEN_FILE_BYTES;
  files_offsets : Forall (λ f, match f with Some f => 0 <= file_offset f <= zlen (file_data f) | None => True end) (open_files p)
}.

Lemma file_lengths_nonneg files : 0 <= file_lengths files.
Proof. induction files as [|[f|] files IH]; simpl; [done| |done]. pose proof (zlen_nonneg (file_data f)). lia. Qed.

Lemma file_lengths_app files files' : file_lengths (files ++ files') = file_lengths files + file_lengths files'.
Proof. induction files as [|[f|] files IH]; simpl; lia. Qed.

Lemma file_lengths_insert files i f f' : files !! i = Some f →
  file_lengths (<[i := f']> files) = file_lengths files - file_lengths [f] + file_lengths [f'].
Proof.
  revert i. induction files as [|g files IH]; intros [|i]; simpl; [done|done| |].
  - intros [= ->]. destruct f, f'; simpl; lia.
  - intros Hi. specialize (IH i Hi). simpl in IH. destruct g; lia.
Qed.

Lemma index_of_spec handle i : index_of handle = Some i ↔ handle = Z.of_nat i + FIRST_FILE_HANDLE.
Proof.
  unfold index_of. destruct (checked_sub handle FIRST_FILE_HANDLE) as [z|] eqn:E; simpl.
  - apply checked_sub_Some in E as [-> ?]. unfold FIRST_FILE_HANDLE in *. split; [intros [= <-]; lia|intros ->; f_equal; lia].
  - split; [done|]. intros ->. unfold checked_sub, FIRST_FILE_HANDLE in E. destruct (Z.leb_spec 3 (Z.of_nat i + 3)); [done|lia].
Qed.

Lemma file_index i p : file (Z.of_nat i + FIRST_FILE_HANDLE) p = file_at i p.
Proof. unfold file. by rewrite (proj2 (index_of_spec _ i)). Qed.

Lemma file_at_insert i j f p : (i < length (open_files p))%nat →
  file_at j (set_files (<[i := f]> (open_files p)) (open_file_bytes p) p) = if decide (j = i) then f else file_at j p.
Proof.
  intros Hi. unfold file_at. simpl. case_decide as E.
  - subst. by rewrite list_lookup_insert_eq.
  - by rewrite list_lookup_insert_ne.
Qed.

Lemma file_at_lt i p f : file_at i p = Some f → (i < length (open_files p))%nat ∧ open_files p !! i = Some (Some f).
Proof.
  unfold file_at. destruct (open_files p !! i) as [g|] eqn:E; [|done]. simpl. intros ->.
  split; [by eapply lookup_lt_Some|done].
Qed.

(** Replace the file in a slot that is in use. *)
Lemma files_ok_replace i f g p bytes : files_ok p → file_at i p = Some f →
  match g with Some g => 0 <= file_offset g <= zlen (file_data g) | None => True end →
  bytes = open_file_bytes p - zlen (file_data f) + file_lengths [g] → bytes <= MAX_OPEN_FILE_BYTES →
  files_ok (set_files (<[i := g]> (open_files p)) bytes p).
Proof.
  intros [Hc Hb Hl Ho] Hf Hg -> Hle. apply file_at_lt in Hf as [Hi Hf]. constructor; simpl.
  - unfold zlen in *. by rewrite length_insert.
  - rewrite (file_lengths_insert _ _ _ _ Hf), Hb. simpl. lia.
  - done.
  - by apply Forall_insert.
Qed.

(** What a file operation promises, on the map [file] from handles to files. *)
Inductive FileOp :=
| OpenFileOp (data : list byte)
| PeekOp (handle max_len : Z)
| AdvanceOp (handle amount : Z)
| SeekOp (handle offset : Z)
| CloseOp (handle : Z).

Inductive FileResult :=
| Handle (h : option Z)
| Peeked (r : option (list byte * Z * Z))
| Done (ok : bool).

Definition run_file_op (op : FileOp) (p : ProcessState) : FileResult * ProcessState :=
  match op with
  | OpenFileOp data => let '(r, p) := open_file data p in (Handle r, p)
  | PeekOp h n => (Peeked (peek_file h n p), p)
  | AdvanceOp h n => let '(r, p) := advance_file h n p in (Done (bool_decide (r = Some tt)), p)
  | SeekOp h off => let '(r, p) := seek_file h off p in (Done (bool_decide (r = Some tt)), p)
  | CloseOp h => let '(r, p) := close_file h p in (Done (bool_decide (r = Some tt)), p)
  end.

Definition file_op_ok (op : FileOp) : Prop :=
  match op with
  | OpenFileOp _ | CloseOp _ => True
  | PeekOp _ n | AdvanceOp _ n => 0 <= n <= u32_max
  | SeekOp _ n => 0 <= n
  end.

(** The table where [h] holds [f] and every other handle what it held. *)
Definition updated (h : Z) (f : option OpenFile) (p p' : ProcessState) : Prop :=
  ∀ h', file h' p' = if decide (h' = h) then f else file h' p.

Definition in_use (p : ProcessState) (h : Z) : Prop := is_Some (file h p).

Definition file_spec (op : FileOp) (p : ProcessState) (r : FileResult) (p' : ProcessState) : Prop :=
  match op, r with
  | OpenFileOp data, Handle (Some h) =>
      (** the lowest free handle, positioned at the start *)
      file h p = None ∧ 3 <= h < 19 ∧ (∀ h', 3 <= h' < h → in_use p h') ∧ updated h (Some (mk_file data 0)) p p'
  | OpenFileOp data, Handle None =>
      p' = p ∧ (open_file_bytes p + zlen data > MAX_OPEN_FILE_BYTES ∨ ∀ h, 3 <= h < 19 → in_use p h)
  | PeekOp h n, Peeked r =>
      p' = p ∧ r = (λ f, (file_data f, file_offset f, Z.min (file_offset f + n) (zlen (file_data f)))) <$> file h p
  | AdvanceOp h n, Done ok =>
      match file h p with
      | Some f => if decide (file_offset f + n <= zlen (file_data f))
                  then ok = true ∧ updated h (Some (mk_file (file_data f) (file_offset f + n))) p p'
                  else ok = false ∧ p' = p
      | None => ok = false ∧ p' = p
      end
  | SeekOp h off, Done ok =>
      match file h p with
      | Some f => if decide (off <= zlen (file_data f))
                  then ok = true ∧ updated h (Some (mk_file (file_data f) off)) p p' else ok = false ∧ p' = p
      | None => ok = false ∧ p' = p
      end
  | CloseOp h, Done ok =>
      match file h p with
      | Some _ => ok = true ∧ updated h None p p'
      | None => ok = false ∧ p' = p
      end
  | _, _ => False
  end.

Lemma updated_insert i f p bytes : (i < length (open_files p))%nat →
  updated (Z.of_nat i + FIRST_FILE_HANDLE) f p (set_files (<[i := f]> (open_files p)) bytes p).
Proof.
  intros Hi h. unfold file. destruct (index_of h) as [j|] eqn:E; simpl.
  - apply index_of_spec in E as ->. unfold file_at. simpl. case_decide as Hj.
    + assert (j = i) as -> by lia. by rewrite list_lookup_insert_eq.
    + rewrite list_lookup_insert_ne by congruence. done.
  - case_decide as Hj; [|done]. subst h. by rewrite (proj2 (index_of_spec _ i) eq_refl) in E.
Qed.

Lemma updated_push f p bytes :
  updated (Z.of_nat (length (open_files p)) + FIRST_FILE_HANDLE) f p (set_files (open_files p ++ [f]) bytes p).
Proof.
  intros h. unfold file. destruct (index_of h) as [j|] eqn:E; simpl.
  - apply index_of_spec in E as ->. unfold file_at. simpl. case_decide as Hj.
    + assert (j = length (open_files p)) as -> by lia. by rewrite list_lookup_middle.
    + destruct (decide (j < length (open_files p))%nat).
      * by rewrite lookup_app_l.
      * rewrite !lookup_ge_None_2; [done|lia|rewrite length_app; simpl; lia].
  - case_decide as Hj; [|done]. subst h. by rewrite (proj2 (index_of_spec _ _) eq_refl) in E.
Qed.

(** Finding the file of a handle, as every operation but [open] starts. *)
Lemma file_lookup h p :
  (file h p = None ∧ (index ← index_of h; file_at index p) = None) ∨
  ∃ i f, h = Z.of_nat i + FIRST_FILE_HANDLE ∧ index_of h = Some i ∧ file h p = Some f ∧ file_at i p = Some f.
Proof.
  unfold file. destruct (index_of h) as [i|] eqn:E; simpl; [|by left].
  destruct (file_at i p) as [f|] eqn:Ef; [|by left]. right. exists i, f. split; [by apply index_of_spec|done].
Qed.

Lemma handle_of_small i : (i < 16)%nat → handle_of i = Some (Z.of_nat i + FIRST_FILE_HANDLE).
Proof.
  intros Hi. unfold handle_of, checked_add, FIRST_FILE_HANDLE, u32_max.
  rewrite !(proj2 (Z.leb_le _ _)) by lia. done.
Qed.

Lemma files_small p : files_ok p → (length (open_files p) ≤ 16)%nat ∧ 0 <= open_file_bytes p.
Proof.
  intros [Hc Hb _ _]. unfold zlen, MAX_OPEN_FILES in Hc. rewrite Hb. pose proof (file_lengths_nonneg (open_files p)). lia.
Qed.

Lemma in_use_index p h i : h = Z.of_nat i + FIRST_FILE_HANDLE → (∃ f, open_files p !! i = Some (Some f)) → in_use p h.
Proof. intros -> [f Hf]. unfold in_use. rewrite file_index. unfold file_at. by rewrite Hf. Qed.

Lemma open_file_spec data p : files_ok p →
  let '(r, p') := open_file data p in files_ok p' ∧ file_spec (OpenFileOp data) p (Handle r) p'.
Proof.
  intros Hok. pose proof (files_small p Hok) as [Hsmall Hb0]. pose proof (zlen_nonneg data) as Hd. pose proof Hok as [Hc Hb Hl Ho].
  unfold open_file. destruct (checked_add u64_max (open_file_bytes p) (zlen data)) as [total|] eqn:Et.
  2:{ split; [done|]. split; [done|]. left. unfold checked_add in Et.
      destruct (Z.leb_spec (open_file_bytes p + zlen data) u64_max); [done|]. unfold u64_max, MAX_OPEN_FILE_BYTES in *. lia. }
  apply checked_add_Some in Et as [-> _]. destruct (Z.ltb_spec MAX_OPEN_FILE_BYTES (open_file_bytes p + zlen data)) as [Hbig|Hfit].
  { split; [done|]. split; [done|]. left. lia. }
  destruct (position is_none (open_files p)) as [i|] eqn:Ei.
  - apply position_Some in Ei as ([f|]&Hi&Hn&Hfirst); [done|]. pose proof (lookup_lt_Some _ _ _ Hi) as Hlt.
    rewrite handle_of_small by lia. split.
    + constructor; simpl; [unfold zlen; by rewrite length_insert| |done|by apply Forall_insert; [done|simpl; lia]].
      rewrite (file_lengths_insert _ _ _ _ Hi), Hb. simpl. lia.
    + split_and!; [by rewrite file_index; unfold file_at; rewrite Hi|unfold FIRST_FILE_HANDLE; lia|unfold FIRST_FILE_HANDLE; lia| |by apply updated_insert].
      intros h Hh. unfold FIRST_FILE_HANDLE in Hh. apply (in_use_index p h (Z.to_nat (h - 3))); [unfold FIRST_FILE_HANDLE; lia|].
      destruct (lookup_lt_is_Some_2 (open_files p) (Z.to_nat (h - 3))) as [f Hf]; [lia|].
      specialize (Hfirst _ _ Hf ltac:(lia)). destruct f as [f|]; [by exists f|done].
  - rewrite position_None in Ei. destruct (Z.leb_spec MAX_OPEN_FILES (zlen (open_files p))) as [Hfull|Hroom].
    + split; [done|]. split; [done|]. right. intros h Hh. unfold MAX_OPEN_FILES, zlen in Hfull.
      apply (in_use_index p h (Z.to_nat (h - 3))); [unfold FIRST_FILE_HANDLE; lia|].
      destruct (lookup_lt_is_Some_2 (open_files p) (Z.to_nat (h - 3))) as [f Hf]; [lia|].
      pose proof (Ei f (list_elem_of_lookup_2 _ _ _ Hf)) as Hn. destruct f as [f|]; [by exists f|done].
    + unfold MAX_OPEN_FILES, zlen in Hroom. rewrite handle_of_small by lia. split.
      * constructor; simpl; [unfold zlen, MAX_OPEN_FILES; rewrite length_app; simpl; lia| |done|].
        { rewrite file_lengths_app, Hb. simpl. lia. }
        { apply Forall_app. split; [done|]. constructor; [simpl; lia|constructor]. }
      * split_and!; [|unfold FIRST_FILE_HANDLE; lia|unfold FIRST_FILE_HANDLE; lia| |by apply updated_push].
        { rewrite file_index. unfold file_at. by rewrite lookup_ge_None_2. }
        intros h Hh. unfold FIRST_FILE_HANDLE in Hh. apply (in_use_index p h (Z.to_nat (h - 3))); [unfold FIRST_FILE_HANDLE; lia|].
        destruct (lookup_lt_is_Some_2 (open_files p) (Z.to_nat (h - 3))) as [f Hf]; [lia|].
        pose proof (Ei f (list_elem_of_lookup_2 _ _ _ Hf)) as Hn. destruct f as [f|]; [by exists f|done].
Qed.

(** A file's offset is within the file, and the file within the byte limit. *)
Lemma file_bounds p i f : files_ok p → file_at i p = Some f →
  0 <= file_offset f <= zlen (file_data f) ∧ zlen (file_data f) <= open_file_bytes p.
Proof.
  intros [Hc Hb Hl Ho] Hf. apply file_at_lt in Hf as [_ Hf]. split.
  - rewrite Forall_forall in Ho. by apply (Ho (Some f)), list_elem_of_lookup_2 with i.
  - rewrite Hb. pose proof (file_lengths_insert (open_files p) i (Some f) None Hf) as E. simpl in E.
    pose proof (file_lengths_nonneg (<[i:=None]> (open_files p))). lia.
Qed.

Lemma set_offset_spec p i f off : files_ok p → file_at i p = Some f → 0 <= off <= zlen (file_data f) →
  files_ok (set_offset i f off p) ∧
  updated (Z.of_nat i + FIRST_FILE_HANDLE) (Some (mk_file (file_data f) off)) p (set_offset i f off p).
Proof.
  intros Hok Hf Hoff. split; [|by apply updated_insert; apply file_at_lt in Hf as [? _]].
  eapply files_ok_replace; [done|exact Hf|done|simpl; lia|by destruct Hok].
Qed.

Lemma run_file_op_spec op p : files_ok p → file_op_ok op →
  let '(r, p') := run_file_op op p in files_ok p' ∧ file_spec op p r p'.
Proof.
  intros Hok Hop. destruct op as [data|h n|h n|h off|h]; simpl run_file_op; simpl in Hop.
  - pose proof (open_file_spec data p Hok) as Hs. by destruct (open_file data p) as [r p'].
  - split; [done|]. split; [done|]. unfold peek_file.
    destruct (file_lookup h p) as [[Hn E]|(i&f&->&Hi&Hf&Ha)].
    + rewrite Hn. by destruct (index_of h); simpl in *; rewrite ?E.
    + rewrite Hi, Hf. simpl. rewrite Ha. simpl. destruct (file_bounds _ _ _ Hok Ha) as [? ?]. destruct Hok as [_ _ Hl _].
      unfold checked_add, u64_max, u32_max, MAX_OPEN_FILE_BYTES in *. rewrite (proj2 (Z.leb_le _ _)) by lia. done.
  - unfold advance_file. destruct (file_lookup h p) as [[Hn E]|(i&f&->&Hi&Hf&Ha)].
    + simpl. rewrite Hn. destruct (index_of h); simpl in *; rewrite ?E; done.
    + rewrite Hi. simpl. rewrite Ha, Hf. simpl. destruct (file_bounds _ _ _ Hok Ha) as [? ?]. pose proof Hok as [_ _ Hl _].
      unfold checked_add, u64_max, u32_max, MAX_OPEN_FILE_BYTES in *. rewrite (proj2 (Z.leb_le _ _)) by lia. simpl.
      destruct (Z.ltb_spec (zlen (file_data f)) (file_offset f + n)).
      * rewrite decide_False by lia. done.
      * rewrite decide_True by lia. destruct (set_offset_spec p i f (file_offset f + n) Hok Ha ltac:(lia)). done.
  - unfold seek_file. destruct (file_lookup h p) as [[Hn E]|(i&f&->&Hi&Hf&Ha)].
    + simpl. rewrite Hn. destruct (index_of h); simpl in *; rewrite ?E; done.
    + rewrite Hi. simpl. rewrite Ha, Hf. simpl. destruct (Z.ltb_spec (zlen (file_data f)) off).
      * rewrite decide_False by lia. done.
      * rewrite decide_True by lia. destruct (set_offset_spec p i f off Hok Ha ltac:(lia)). done.
  - unfold close_file. destruct (file_lookup h p) as [[Hn E]|(i&f&->&Hi&Hf&Ha)].
    + simpl. rewrite Hn. destruct (index_of h); simpl in *; rewrite ?E; done.
    + rewrite Hi. simpl. rewrite Ha, Hf. simpl. destruct (file_bounds _ _ _ Hok Ha) as [? ?].
      unfold checked_sub. rewrite (proj2 (Z.leb_le _ _)) by lia. split.
      * eapply files_ok_replace; [done|exact Ha|done|simpl; lia|]. destruct Hok as [_ _ Hl _]. pose proof (zlen_nonneg (file_data f)). lia.
      * split; [done|]. apply updated_insert. by apply file_at_lt in Ha as [? _].
Qed.

(** The open-file table of a process is a map from handles to files: opening
    uses the lowest free handle from 3 on, reading, advancing, seeking and
    closing see and change only the file of their handle, offsets never leave
    the file, and at most 16 files and 256 KiB are open. A refused operation
    changes nothing. *)
Theorem open_files_refine_map op p : files_ok p → file_op_ok op →
  let '(r, p') := run_file_op op p in files_ok p' ∧ file_spec op p r p'.
Proof. apply run_file_op_spec. Qed.

(** ** A process with two files *)

Module FilesSample.
Definition empty_process : ProcessState := mk_process None 0 0 None 0 [] [] 0.
Definition opened : ProcessState :=
  (open_file [Byte.x61; Byte.x62; Byte.x63] (open_file [Byte.x7a] empty_process).2).2.

Example files_run :
  (run_file_op (PeekOp 4 2) opened).1 = Peeked (Some ([Byte.x61; Byte.x62; Byte.x63], 0, 2)) ∧
  (run_file_op (AdvanceOp 4 4) opened).1 = Done false ∧
  (run_file_op (OpenFileOp []) (run_file_op (CloseOp 3) opened).2).1 = Handle (Some 3).
Proof. split_and!; vm_compute; reflexivity. Qed.

Lemma open_files_refine_map_witness :
  (run_file_op (AdvanceOp 4 2) opened).1 = Done true ∧
  let '(r, p') := run_file_op (AdvanceOp 4 2) opened in files_ok p' ∧ file_spec (AdvanceOp 4 2) opened r p'.
Proof.
  split; [vm_compute; reflexivity|]. apply (open_files_refine_map (AdvanceOp 4 2) opened).
  - constructor; [vm_compute; discriminate|reflexivity|vm_compute; discriminate|].
    repeat constructor; vm_compute; discriminate.
  - vm_compute. split; discriminate.
Defined.
End FilesSample.
