(* ===== verification/Process.v ===== *)
(** User processes of kernel/src/task.rs: creating them from an executable,
    and the copies between the kernel and the current process.

    The allocations that build a task ([try_user_process_resources],
    [try_box_value]) are taken to succeed. A spawn runs as one step: the space
    under construction belongs to no task, so nothing else can reach it. *)

From S2P Require Import Prelude Str Vfs X86 Frames Paging PagingRange Elf Wake Scheduler OpenFiles.

Definition USER_STACK_PAGES : Z := 4.

Section process.
Context {PT : Type} `{X86Addr} `{!X86_64 PT}.
Implicit Types (k : Kernel PT).

Definition new_user_tcb (id : Z) (name cwd : str) (stack : Z) (space : AddressSpace) (entry stack_top : Z) : Tcb :=
  mk_tcb id name Ready (aligned_top stack - INITIAL_FRAME_SIZE) 0 (aligned_top stack)
    (Some (mk_process (Some space) entry stack_top None USER_MMAP_BASE cwd [] 0)) 0.

Definition stack_top : Z := USER_SPACE_BASE + USER_SPACE_SIZE - 0x1000.
Definition stack_bottom : Z := stack_top - USER_STACK_PAGES * 4096.
Definition stack_flags : PageTableFlags := mk_flags true true true true.

(** The part of [build_user_tcb] that fills the address space: the loaded
    image and a zeroed stack. *)
Definition build_user_space (elf_bytes : list byte) : M (Machine PT * AddressSpace) Z :=
  entry ← load elf_bytes;
  _ ← map_pages (page_addrs stack_bottom stack_top) stack_flags;
  _ ← on_space (λ space, zero_bytes_in_address_space space stack_bottom (USER_STACK_PAGES * 4096));
  mret entry.

(** On failure the space is freed and no identifier is used. *)
Definition build_user_tcb (elf_bytes : list byte) (name cwd : str) (stack : Z) (space : AddressSpace) k
    : result Tcb * Kernel PT :=
  let '(r, (m, space)) := build_user_space elf_bytes (mach k, space) in
  match r with
  | Err e => (Err e, with_mach (free_address_space space m) k)
  | Ok entry =>
      (Ok (new_user_tcb (next_id k) name cwd stack space entry stack_top),
       with_next_id (wrapping_add u32_max (next_id k) 1) (with_mach m k))
  end.

Definition reclaim_unstarted_process (t : Tcb) k : Kernel PT := with_mach (free_opt (space_of t) (mach k)) k.

(** [stack] is where the heap puts the new kernel stack. *)
Definition spawn_user_process_with_state (name elf_bytes cwd : list byte) (initial_state : TaskState) (stack : Z) k
    : result Z * Kernel PT :=
  if MAX_TASKS <=? task_count k then (Err "task limit reached", k)
  else
    let '(r, m) := new_address_space (mach k) in
    let k := with_mach m k in
    match r with
    | Err e => (Err e, k)
    | Ok space =>
        let '(r, k) := build_user_tcb elf_bytes name cwd stack space k in
        match r with
        | Err e => (Err e, k)
        | Ok t =>
            let t := set_state initial_state t in
            match scheduler k with
            | None => (Err "scheduler not initialized", reclaim_unstarted_process t k)
            | Some sc =>
                if MAX_TASKS <=? zlen (tasks sc) then (Err "task limit reached", reclaim_unstarted_process t k)
                else (Ok (tcb_id t), with_sched (mk_sched (tasks sc ++ [t]) (current sc)) k)
            end
        end
    end.

Definition spawn_user_process_with_cwd (name elf_bytes cwd : list byte) := spawn_user_process_with_state name elf_bytes cwd Ready.
Definition spawn_user_process (name elf_bytes : list byte) := spawn_user_process_with_cwd name elf_bytes (bs "/").
Definition spawn_user_process_suspended (name elf_bytes cwd : list byte) := spawn_user_process_with_state name elf_bytes cwd Blocked.

(** ** The current process *)

Definition current_process_entry k : option (Z * Z) :=
  p ← current_process k; Some (entry_point p, user_stack_top p).

Definition current_space k : option AddressSpace := p ← current_process k; address_space p.

(** [VirtAddr::try_new(addr).ok()?] that must be [addr] itself *)
Definition exact_virt_addr (addr : Z) : option Z :=
  a ← virt_addr_try_new addr; if a =? addr then Some a else None.

Definition result_ok {A} (r : result A) : option A := match r with Ok a => Some a | Err _ => None end.

Definition copy_from_current_user (addr : Z) (len : nat) k : option (list byte) :=
  a ← exact_virt_addr addr;
  space ← current_space k;
  result_ok (read_bytes_from_address_space_into space a (Z.of_nat len) (mach k)).

Definition copy_to_current_user (addr : Z) (data : list byte) k : bool * Kernel PT :=
  match (a ← exact_virt_addr addr; space ← current_space k; Some (a, space)) with
  | None => (false, k)
  | Some (a, space) =>
      let '(r, m) := write_bytes_in_address_space space a data (mach k) in (is_ok r, with_mach m k)
  end.

Definition validate_current_user_range (addr len : Z) (writable : bool) k : bool :=
  match current_space k with
  | Some space => is_ok (validate_user_range space addr len writable (mach k))
  | None => false
  end.

Definition current_working_directory k : option str :=
  p ← current_process k;
  if PATH_MAX <? zlen (cwd p) then None else if utf8_valid (cwd p) then Some (cwd p) else None.

Definition current_process_name k : option str :=
  t ← current_task k;
  _ ← tcb_process t;
  if NAME_MAX <? zlen (tcb_name t) then None else if utf8_valid (tcb_name t) then Some (tcb_name t) else None.
End process.
