(* ===== verification/Vm.v ===== *)
(** Anonymous memory of a process: [mmap_in_current_process],
    [rollback_mmap_or_exit] and [munmap_in_current_process] of
    kernel/src/task.rs.

    The code runs in batches of four pages with interrupts enabled in between.
    A batch only reads and writes the caller's own space and the frame
    allocator, and nothing but the caller changes its space or its arena
    pointer, so the batches run back to back here; frames another task takes in
    between appear as allocation failures of a later batch. The cycle counters
    of [with_vm_batch] are not modelled. Where the code gives up with
    [exit_with_code(255)] the outcome is [Killed]. *)

From S2P Require Import Prelude X86 Frames Paging PagingRange Elf Wake Scheduler OpenFiles Process.

Definition MAX_MMAP_LEN : Z := 64 * 1024 * 1024.
Definition VM_BATCH_PAGES : Z := 4.
Definition TABLE_CLEANUP_BATCH_PAGES : Z := 512.

Inductive outcome (A : Type) := Returned (a : A) | Killed.
Arguments Returned {A} a.
Arguments Killed {A}.

(** [(len + 0xFFF) & !0xFFF) / 4096] *)
Definition page_count_for (len : Z) : option Z :=
  if len =? 0 then None
  else rounded ← checked_add u64_max len 0xFFF; Some (Z.land rounded (Z.lnot 0xFFF) / 4096).

(** The values of the loop [while done < pages { batch = size.min(pages - done); .. }]:
    the pages done so far and the size of the batch. *)
Definition batch (size pages : Z) (i : nat) : Z * Z :=
  let done := size * Z.of_nat i in (done, Z.min size (pages - done)).
Definition batches (size pages : Z) : list (Z * Z) :=
  batch size pages <$> seq 0 (Z.to_nat ((pages + size - 1) / size)).

(** The pages of one batch. *)
Definition batch_pages (start : Z) (b : Z * Z) : list Z := range_pages (start + b.1 * 4096) (Z.to_nat b.2).

Section vm.
Context {PT : Type} `{X86Addr} `{!X86_64 PT}.
Implicit Types (s : Machine PT * AddressSpace) (k : Kernel PT).

(** Run [f] on each batch until one fails. *)
Fixpoint each_batch (f : Z * Z → Machine PT * AddressSpace → bool * (Machine PT * AddressSpace))
    (bs : list (Z * Z)) s : bool * (Machine PT * AddressSpace) :=
  match bs with
  | [] => (true, s)
  | b :: bs => let '(ok, s) := f b s in if ok : bool then each_batch f bs s else (false, s)
  end.

(** A space operation's success, as [.is_ok()] *)
Definition succeeds {A} (c : M (Machine PT * AddressSpace) A) s : bool * (Machine PT * AddressSpace) :=
  let '(r, s) := c s in (is_ok r, s).

(** Whether the rollback restored the space; otherwise the caller is killed. *)
Definition rollback_mmap_or_exit (start mapped_pages requested_pages owned_frames_before : Z) s
    : bool * (Machine PT * AddressSpace) :=
  let '(restored, s) :=
    each_batch (λ b, succeeds (unmap_range_in_address_space_atomic (start + b.1 * 4096) b.2))
      (batches VM_BATCH_PAGES mapped_pages) s in
  if restored : bool then
    let '(exact, s) := succeeds (clean_up_empty_tables_in_range start requested_pages) s in
    (exact && (frame_count s.2 =? owned_frames_before), s)
  else (false, s).

(** Failure of a request after it started mapping. *)
Definition abandon (start mapped_pages requested_pages owned_frames_before : Z) s
    : outcome (option Z) * (Machine PT * AddressSpace) :=
  let '(restored, s) := rollback_mmap_or_exit start mapped_pages requested_pages owned_frames_before s in
  (if restored : bool then Returned None else Killed, s).

Definition mmap_staging_flags : PageTableFlags := mk_flags true true true true.
Definition mmap_final_flags : PageTableFlags := mk_flags true false true true.

(** No page of the batch is mapped. *)
Definition batch_clear (start : Z) s (b : Z * Z) : bool :=
  forallb (λ page, is_none (a ← virt_addr_try_new page; translate_in_address_space s.2 a s.1)) (batch_pages start b).

(** Map pages until one fails; how many were mapped. *)
Fixpoint map_until (pages : list Z) (flags : PageTableFlags) s : Z * (Machine PT * AddressSpace) :=
  match pages with
  | [] => (0, s)
  | page :: pages =>
      match virt_addr_try_new page with
      | None => (0, s)
      | Some a =>
          match map_in_address_space (page_containing a) flags s with
          | (Ok _, s) => let '(n, s) := map_until pages flags s in (1 + n, s)
          | (Err _, s) => (0, s)
          end
      end
  end.

(** The mapping loop: whether all batches were mapped, the pages mapped, and
    the injected failure point, which is cleared when it fires. *)
Fixpoint map_batches (start : Z) (bs : list (Z * Z)) (mapped fail_after : Z) s
    : bool * Z * Z * (Machine PT * AddressSpace) :=
  match bs with
  | [] => (true, mapped, fail_after, s)
  | b :: bs =>
      if negb (fail_after =? u64_max) && (fail_after <=? mapped) then (false, mapped, u64_max, s)
      else
        let '(n, s) := map_until (batch_pages start b) mmap_staging_flags s in
        if n =? b.2 then map_batches start bs (mapped + n) fail_after s else (false, mapped + n, fail_after, s)
  end.

Definition zero_batch (start : Z) (b : Z * Z) s : bool * (Machine PT * AddressSpace) :=
  match virt_addr_try_new (start + b.1 * 4096) with
  | Some a => succeeds (on_space (λ space, zero_bytes_in_address_space space a (b.2 * 4096))) s
  | None => (false, s)
  end.

(** Flags of one batch's pages, until one fails. *)
Fixpoint protect_pages (pages : list Z) s : bool * (Machine PT * AddressSpace) :=
  match pages with
  | [] => (true, s)
  | page :: pages =>
      match virt_addr_try_new page with
      | None => (false, s)
      | Some a =>
          let '(ok, s) := succeeds (on_space (λ space, update_flags_in_address_space space (page_containing a) mmap_final_flags)) s in
          if ok : bool then protect_pages pages s else (false, s)
      end
  end.

(** The request's region and the frames it may need, or [None]. *)
Definition mmap_plan (len mmap_next : Z) : option (Z * Z * Z) :=
  if (len =? 0) || (MAX_MMAP_LEN <? len) then None
  else
    pages ← page_count_for len;
    region_len ← checked_mul u64_max pages 4096;
    let start := mmap_next in
    end_ ← checked_add u64_max start region_len;
    if USER_MMAP_LIMIT <? end_ then None
    else
      let first_2m := Z.shiftr start 21 in
      last ← checked_sub end_ 1;
      let last_2m := Z.shiftr last 21 in
      span ← checked_sub last_2m first_2m;
      p1_tables ← checked_add u64_max span 1;
      with_tables ← checked_add u64_max pages p1_tables;
      worst_case_frames ← checked_add u64_max with_tables 2;
      Some (pages, end_, worst_case_frames).

(** [mmap_in_current_process] on the caller's space and arena pointer: the
    outcome, the new arena pointer and the failure injection left. *)
Definition mmap (len : Z) (writable : bool) (mmap_next fail_after : Z) s
    : outcome (option Z) * Z * Z * (Machine PT * AddressSpace) :=
  match mmap_plan len mmap_next with
  | None => (Returned None, mmap_next, fail_after, s)
  | Some (pages, end_, worst_case_frames) =>
      let start := mmap_next in
      let owned_frames_before := frame_count s.2 in
      if negb (can_allocate_frames worst_case_frames s.1) then (Returned None, mmap_next, fail_after, s)
      else if negb (forallb (batch_clear start s) (batches VM_BATCH_PAGES pages)) then (Returned None, mmap_next, fail_after, s)
      else
        let '(ok, mapped_pages, fail_after, s) := map_batches start (batches VM_BATCH_PAGES pages) 0 fail_after s in
        let fail s := let '(o, s) := abandon start mapped_pages pages owned_frames_before s in (o, mmap_next, fail_after, s) in
        if negb ok then fail s
        else
          let '(ok, s) := each_batch (zero_batch start) (batches VM_BATCH_PAGES pages) s in
          if negb ok then fail s
          else
            let '(ok, s) :=
              if writable then (true, s)
              else each_batch (λ b, protect_pages (batch_pages start b)) (batches VM_BATCH_PAGES pages) s in
            if negb ok then fail s else (Returned (Some start), end_, fail_after, s)
  end.

(** ** Unmapping *)

(** The validation loop, collecting the records of each batch. *)
Fixpoint collect_batches (ptr : Z) (bs : list (Z * Z)) s : option (list UnmapRecord) :=
  match bs with
  | [] => Some []
  | b :: bs =>
      match collect_unmap_records s.2 (ptr + b.1 * 4096) b.2 s.1 with
      | Ok records => rest ← collect_batches ptr bs s; Some (records ++ rest)
      | Err _ => None
      end
  end.

(** [records.chunks(n)] *)
Fixpoint chunks {A} (fuel : nat) (n : nat) (l : list A) : list (list A) :=
  match fuel with
  | 0%nat => []
  | S fuel => match l with [] => [] | _ => take n l :: chunks fuel n (drop n l) end
  end.
Definition vm_chunks {A} (l : list A) : list (list A) := chunks (length l) (Z.to_nat VM_BATCH_PAGES) l.

(** Unmap chunk by chunk; on a failure the records removed so far are restored:
    [Returned false] if that worked. *)
Fixpoint unmap_chunks (removed : list UnmapRecord) (cs : list (list UnmapRecord)) s
    : outcome bool * (Machine PT * AddressSpace) :=
  match cs with
  | [] => (Returned true, s)
  | c :: cs =>
      let '(ok, s) := succeeds (on_space (λ space, unmap_records_atomic space c)) s in
      if ok : bool then unmap_chunks (removed ++ c) cs s
      else
        let '(restored, s) := succeeds (on_space (λ space, restore_unmap_records space removed)) s in
        (if restored : bool then Returned false else Killed, s)
  end.

(** Give up ownership and release the frames, chunk by chunk. *)
Fixpoint release_chunks (cs : list (list OwnershipRemoval)) s : bool * (Machine PT * AddressSpace) :=
  match cs with
  | [] => (true, s)
  | c :: cs =>
      let '(r, s) := remove_unmapped_ownership c s in
      match r with
      | Ok true =>
          let '(released, s) := succeeds (on_machine (release_frames (rem_frame <$> c))) s in
          if released : bool then release_chunks cs s else (false, s)
      | _ => (false, s)
      end
  end.

(** [munmap_in_current_process] on the caller's space and arena pointer. *)
Definition munmap (ptr len mmap_next : Z) s : outcome bool * (Machine PT * AddressSpace) :=
  if (len =? 0) || negb (ptr mod 4096 =? 0) || negb (len mod 4096 =? 0) then (Returned false, s)
  else
    match checked_add u64_max ptr len with
    | None => (Returned false, s)
    | Some end_ =>
        if negb ((USER_MMAP_BASE <=? ptr) && (end_ <=? mmap_next)) then (Returned false, s)
        else
          let pages := len / 4096 in
          match (records ← collect_batches ptr (batches VM_BATCH_PAGES pages) s;
                 frames ← unmap_record_frames records;
                 removals ← plan_unmap_ownership (owned_frame_snapshot s.2) frames;
                 Some (records, removals)) with
          | None => (Returned false, s)
          | Some (records, removals) =>
              let '(o, s) := unmap_chunks [] (vm_chunks records) s in
              match o with
              | Returned true =>
                  let '(ok, s) := release_chunks (vm_chunks removals) s in
                  if negb ok then (Killed, s)
                  else
                    let '(ok, s) :=
                      each_batch (λ b, succeeds (clean_up_empty_tables_in_range (ptr + b.1 * 4096) b.2))
                        (batches TABLE_CLEANUP_BATCH_PAGES pages) s in
                    if ok : bool then (Returned true, s) else (Killed, s)
              | _ => (o, s)
              end
          end
    end.

(** ** On the current process *)

Definition set_mmap_next (n : Z) (p : ProcessState) : ProcessState :=
  mk_process (address_space p) (entry_point p) (user_stack_top p) (exit_code p) n (cwd p) (open_files p) (open_file_bytes p).

(** Put back the machine, the space and the arena pointer of the current process. *)
Definition store_space (s : Machine PT * AddressSpace) (mmap_next : Z) k : Kernel PT :=
  (on_process (λ p, (Some tt, set_mmap_next mmap_next (set_space (Some s.2) p))) (with_mach s.1 k)).2.

(** [fail_after] is [MMAP_FAIL_AFTER_PAGES], returned as the call leaves it. A
    killed caller exits with 255 and does not see the call return. *)
Definition mmap_in_current_process (len : Z) (writable : bool) (fail_after rsp : Z) k
    : option (outcome (option Z) * Z * Kernel PT) :=
  match (p ← current_process k; space ← address_space p; Some (p, space)) with
  | None => Some (Returned None, fail_after, k)
  | Some (p, space) =>
      let '(o, next, fail_after, s) := mmap len writable (mmap_next p) fail_after (mach k, space) in
      let k := store_space s next k in
      match o with
      | Returned r => Some (Returned r, fail_after, k)
      | Killed => k ← exit_with_code 255 rsp k; Some (Killed, fail_after, k)
      end
  end.

Definition munmap_in_current_process (ptr len rsp : Z) k : option (outcome bool * Kernel PT) :=
  match (p ← current_process k; space ← address_space p; Some (p, space)) with
  | None => Some (Returned false, k)
  | Some (p, space) =>
      let '(o, s) := munmap ptr len (mmap_next p) (mach k, space) in
      let k := store_space s (mmap_next p) k in
      match o with
      | Returned r => Some (Returned r, k)
      | Killed => k ← exit_with_code 255 rsp k; Some (Killed, k)
      end
  end.
End vm.
