(* ===== verification/Display.v ===== *)
(** The display abstraction of kernel/src/display.rs: the record a process can
    ask for, and the one operation that writes a process's pixels to the
    screen.

    [raw_info] and [raw_buffer_mut] of framebuffer_console.rs give the
    description and the bytes of the framebuffer, when one is active: [screen].
    The copy runs in chunks with an interrupt window in between; the caller is
    the foreground process, and nothing else draws or changes its mappings
    meanwhile, so the frame is copied in one go. The cycle counters are not
    modelled. *)

From S2P Require Import Prelude X86 Frames Paging Wake Scheduler OpenFiles Process.

Definition PIXEL_FORMAT_RGB : Z := 0.
Definition PIXEL_FORMAT_BGR : Z := 1.
Definition PIXEL_FORMAT_U8 : Z := 2.
Definition PIXEL_FORMAT_UNKNOWN : Z := 3.
Definition PRESENT_COPY_CHUNK : Z := 64 * 1024.

(** [bootloader_api::info::PixelFormat] and [FrameBufferInfo] *)
Inductive PixelFormat := Rgb | Bgr | U8 | OtherFormat.

Record FrameBufferInfo := mk_fb {
  byte_len : Z;
  fb_width : Z;
  fb_height : Z;
  fb_stride : Z;
  fb_bytes_per_pixel : Z;
  fb_pixel_format : PixelFormat
}.

Record Screen := mk_screen { fb_info : FrameBufferInfo; fb_buffer : list byte }.

Definition raw_info (screen : option Screen) : option FrameBufferInfo := fb_info <$> screen.
Definition raw_buffer (screen : option Screen) : option (list byte) := fb_buffer <$> screen.

Record DisplayInfo := mk_display {
  width : Z;
  height : Z;
  stride : Z;
  bytes_per_pixel : Z;
  pixel_format : Z
}.

(** [as u32] *)
Definition as_u32 (z : Z) : Z := z mod 2 ^ 32.

Definition display_to_le_bytes (d : DisplayInfo) : list byte :=
  le_encode 4 (width d) ++ le_encode 4 (height d) ++ le_encode 4 (stride d)
  ++ le_encode 4 (bytes_per_pixel d) ++ le_encode 4 (pixel_format d).

Definition display_info (screen : option Screen) : option DisplayInfo :=
  fb ← raw_info screen;
  let format := match fb_pixel_format fb with
                | Rgb => PIXEL_FORMAT_RGB | Bgr => PIXEL_FORMAT_BGR
                | U8 => PIXEL_FORMAT_U8 | OtherFormat => PIXEL_FORMAT_UNKNOWN end in
  Some (mk_display (as_u32 (fb_width fb)) (as_u32 (fb_height fb)) (as_u32 (fb_stride fb))
          (as_u32 (fb_bytes_per_pixel fb)) format).

Definition FNV_OFFSET_BASIS : Z := 0xCBF29CE484222325.
Definition FNV_PRIME : Z := 0x00000100000001B3.

(** 64-bit FNV-1a of the whole framebuffer. *)
Definition framebuffer_checksum (screen : option Screen) : option Z :=
  buffer ← raw_buffer screen;
  Some (foldl (λ hash b, (Z.lxor hash (b2z b) * FNV_PRIME) mod 2 ^ 64) FNV_OFFSET_BASIS buffer).

Section display.
Context {PT : Type} `{X86Addr} `{!X86_64 PT}.
Implicit Types (k : Kernel PT).

(** A load from the current address space, through the loaded page tables. *)
Definition user_load (k : Kernel PT) (addr : Z) : byte :=
  match (space ← current_space k; translate_in_address_space space addr (mach k)) with
  | Some l => memory (mach k) l.1
  | None => Byte.x00
  end.

(** One chunk of [copy_framebuffer_bytes_batched]. *)
Definition copy_chunk (source copied chunk_len : Z) k (destination : list byte) : list byte :=
  copy_at (Z.to_nat copied) ((λ i, user_load k (source + copied + Z.of_nat i)) <$> seq 0 (Z.to_nat chunk_len)) destination.

(** The loop; [fuel] chunks cover [len] bytes. *)
Fixpoint copy_framebuffer_bytes_batched (fuel : nat) (source len copied : Z) k (destination : list byte) : list byte :=
  match fuel with
  | 0%nat => destination
  | S fuel =>
      if copied <? len then
        let chunk_len := Z.min PRESENT_COPY_CHUNK (len - copied) in
        copy_framebuffer_bytes_batched fuel source len (copied + chunk_len) k (copy_chunk source copied chunk_len k destination)
      else destination
  end.

Definition chunk_fuel (len : Z) : nat := Z.to_nat (len / PRESENT_COPY_CHUNK + 1).

Definition present (user_ptr user_len : Z) k (screen : option Screen) : result unit * option Screen :=
  match screen with
  | None => (Err "display not active", screen)
  | Some sc =>
      if negb (user_len =? byte_len (fb_info sc)) then (Err "buffer size does not match display dimensions", screen)
      else
        match checked_user_virt_addr user_ptr with
        | Err e => (Err e, screen)
        | Ok addr =>
            if negb (validate_current_user_range user_ptr user_len false k) then (Err "invalid source buffer", screen)
            else
              (Ok tt, Some (mk_screen (fb_info sc)
                (copy_framebuffer_bytes_batched (chunk_fuel user_len) addr user_len 0 k (fb_buffer sc))))
        end
  end.
End display.
