(* ===== verification/VmSafety.v ===== *)
(** Mapping and unmapping anonymous memory are transactions: what the caller
    sees afterwards is either the new state in full or the old one. *)

From S2P Require Import Prelude X86 Frames Paging PagingSpaces PagingRange PagingCopy PagingSafety Elf Process Vm.

(** ** Batches *)

(** Consecutive batches from [from] to [to]. *)
Fixpoint consecutive (from : Z) (bs : list (Z * Z)) (to : Z) : Prop :=
  match bs with
  | [] => from = to
  | b :: bs => b.1 = from ∧ 0 < b.2 ∧ consecutive (from + b.2) bs to
  end.

Lemma consecutive_le from bs to : consecutive from bs to → from <= to.
Proof. revert from. induction bs as [|b bs IH]; intros from; simpl; [lia|]. intros (_&?&?%IH). lia. Qed.

Lemma batches_consecutive size pages : 0 < size → 0 <= pages → consecutive 0 (batches size pages) pages.
Proof.
  intros Hs Hp. unfold batches.
  assert (∀ n i, pages <= size * Z.of_nat (i + n) → (n = 0%nat ∨ size * Z.of_nat (i + n - 1) < pages) →
    consecutive (Z.min pages (size * Z.of_nat i))
      (batch size pages <$> seq i n) pages) as H.
  { induction n as [|n IH]; intros i Hle Hlt.
    - rewrite Nat.add_0_r in Hle. simpl. lia.
    - destruct Hlt as [|Hlt]; [done|].
      assert (size * Z.of_nat i < pages) as Hi by nia. cbn [seq]. rewrite fmap_cons. split_and!; [cbn [batch fst]; lia|cbn [batch snd]; lia|]. cbn [batch snd].
      replace (Z.min pages (size * Z.of_nat i) + Z.min size (pages - size * Z.of_nat i))
        with (Z.min pages (size * Z.of_nat (S i))) by lia.
      apply IH; [by replace (S i + n)%nat with (i + S n)%nat by lia|].
      destruct n; [by left|right]. by replace (S i + S n - 1)%nat with (i + S (S n) - 1)%nat by lia. }
  replace 0 with (Z.min pages (size * Z.of_nat 0)) at 1 by lia. apply H.
  - rewrite Nat.add_0_l, Z2Nat.id by (apply Z.div_pos; lia). Z.to_euclidean_division_equations. nia.
  - destruct (decide (pages = 0)) as [->|]; [left|right].
    + rewrite Z.add_0_l. rewrite Z.div_small by lia. done.
    + assert (1 <= (pages + size - 1) / size) by (apply Z.div_le_lower_bound; lia).
      rewrite Nat.add_0_l, Nat2Z.inj_sub, Z2Nat.id by lia. Z.to_euclidean_division_equations. nia.
Qed.

Section vm.
Context {PT : Type} `{!BootMap, !KernelFrames, !X86Addr, !X86AddrSpec, !X86_64 PT, !X86_64Spec PT USER_REGION_PML4_INDEX}.
Implicit Types (s : Machine PT * AddressSpace) (rest : list AddressSpace).

(** [s] shows the region [lo, hi), unmapped in [s0], with bytes and
    permissions that satisfy [P], and otherwise what [s0] shows. *)
Definition region_of s0 (lo hi : Z) (P : Z → byte → PageTableFlags → Prop) s : Prop :=
  ∀ x, if decide (lo <= x < hi)
       then view s0 x = None ∧ ∃ b fl, view s x = Some (b, fl) ∧ P x b fl
       else view s x = view s0 x.

Definition any (x : Z) (b : byte) (fl : PageTableFlags) : Prop := True.

Lemma region_weaken s0 lo hi (P Q : Z → byte → PageTableFlags → Prop) s :
  (∀ x b fl, lo <= x < hi → P x b fl → Q x b fl) → region_of s0 lo hi P s → region_of s0 lo hi Q s.
Proof.
  intros HPQ Hr x. specialize (Hr x). case_decide; [|done]. destruct Hr as (?&b&fl&?&?).
  split; [done|]. exists b, fl. split; [done|]. by apply HPQ.
Qed.

Lemma region_refl s lo P : region_of s lo lo P s.
Proof. intros x. by rewrite decide_False by lia. Qed.

(** A step of the caller: the machine and its other spaces are as before. *)
Lemma succeeds_steps {A} (c : M (Machine PT * AddressSpace) A) rest ok s s' :
  respects (steps rest) c → succeeds c s = (ok, s') → steps rest s s'.
Proof. unfold succeeds. intros Hc. destruct (c s) as [r s1] eqn:E. intros [= <- <-]. by eapply Hc. Qed.

Lemma succeeds_true {A} (c : M (Machine PT * AddressSpace) A) s s' :
  succeeds c s = (true, s') → ∃ a, c s = (Ok a, s').
Proof. unfold succeeds. destruct (c s) as [[a|e] s1]; [|done]. intros [= <-]. eauto. Qed.

Lemma unmap_steps start count rest : 0 <= count → respects (steps rest) (unmap_range_in_address_space_atomic start count).
Proof. intros Hc. exact (run_space_op_steps (UnmapRange start count) rest Hc). Qed.

Lemma clean_steps start count rest : 0 <= count → respects (steps rest) (clean_up_empty_tables_in_range start count).
Proof.
  intros Hc s r s' E. pose proof (run_space_op_steps (CleanTables start count) rest Hc s) as Hs.
  unfold run_space_op, mbind, M_bind, mget in Hs. rewrite E in Hs. destruct r; eapply Hs; reflexivity.
Qed.

(** The view without a range of pages. *)
Lemma filter_view start count m space m' space' : 0 <= count → start mod 4096 = 0 → memory m' = memory m →
  space_leaves space' m' = filter (λ pl, ¬ in_range start (4096 * count) pl.1) (space_leaves space m) →
  ∀ x, view (m', space') x = if decide (start <= x < start + 4096 * count) then None else view (m, space) x.
Proof.
  intros Hc Hal Hmem Hl x. unfold view, located. simpl. rewrite Hl, Hmem.
  assert (in_range start (4096 * count) (align_down x) ↔ start <= x < start + 4096 * count) as Hin
    by (unfold in_range, align_down; Z.to_euclidean_division_equations; lia).
  case_decide as Hx.
  - rewrite map_lookup_filter_None_2; [done|]. right. intros pl _ Hn. simpl in Hn. tauto.
  - destruct (space_leaves space m !! align_down x) as [pl|] eqn:El.
    + rewrite (map_lookup_filter_Some_2 _ _ _ pl); [done|done|]. simpl. tauto.
    + rewrite map_lookup_filter_None_2; [done|]. by left.
Qed.

(** Unmapping a range removes it from the view. *)
Lemma unmap_view start count rest s s' u : 0 <= count → machine_ok s.1 (s.2 :: rest) →
  unmap_range_in_address_space_atomic start count s = (Ok u, s') →
  start mod 4096 = 0 ∧ ∀ x, view s' x = if decide (start <= x < start + 4096 * count) then None else view s x.
Proof.
  destruct s as [m space], s' as [m' space']. intros Hc Hok E. pose proof (unmap_range_spec start count m space rest Hok Hc) as Hs.
  rewrite E in Hs. destruct Hs as (_&_&Hf&(_&Hal&_)&Hl&_). split; [done|].
  apply filter_view; [done|done|by apply (fr_memory _ _ _ Hf)|done].
Qed.

(** Cleaning up tables does not change the view. *)
Lemma clean_view start count rest s s' r : machine_ok s.1 (s.2 :: rest) →
  clean_up_empty_tables_in_range start count s = (r, s') → ∀ x, view s' x = view s x.
Proof.
  destruct s as [m space], s' as [m' space']. intros Hok E x. pose proof (clean_up_spec' start count m space rest Hok) as Hs.
  rewrite E in Hs. destruct Hs as (_&_&Hf&Hl&_). unfold view, located. simpl. by rewrite Hl, (fr_memory _ _ _ Hf).
Qed.

(** A page that could not be mapped leaves the view as it was. *)
Lemma map_fails_view page flags rest s s' e : machine_ok s.1 (s.2 :: rest) → user_page page →
  map_in_address_space page flags s = (Err e, s') → ∀ x, view s' x = view s x.
Proof.
  destruct s as [m space], s' as [m' space']. intros Hok Hp E x.
  pose proof (map_in_address_space_spec page flags m space rest Hok (proj1 Hp) (user_page_canonical page Hp)) as Hs.
  rewrite E in Hs. destruct Hs as (_&_&Hf&Hl). unfold view, located. simpl. by rewrite Hl, (fr_memory _ _ _ Hf).
Qed.

(** ** The mapping loop *)

Lemma user_page_virt p : user_page p → virt_addr_try_new p = Some p.
Proof. intros [_ ?]. apply virt_addr_low. unfold user_end, USER_SPACE_BASE, USER_SPACE_SIZE in *. lia. Qed.

(** Whole pages of the user region. *)
Definition user_pages (lo hi : Z) : Prop := lo mod 4096 = 0 ∧ hi mod 4096 = 0 ∧ USER_SPACE_BASE <= lo ∧ hi <= user_end.

Lemma user_pages_page lo hi p : user_pages lo hi → p mod 4096 = 0 → lo <= p < hi → user_page p.
Proof. intros (_&_&?&?) Hp Hr. split; [done|lia]. Qed.

Lemma region_extend s0 lo mid P s s' fl : mid mod 4096 = 0 → lo <= mid → region_of s0 lo mid P s →
  (∀ x b, P x b fl) →
  (∀ a, if decide (align_down a = mid) then view s a = None ∧ ∃ b, view s' a = Some (b, fl)
        else view s' a = view s a) →
  region_of s0 lo (mid + 4096) P s'.
Proof.
  intros Hal Hle Hr HP Hv x. specialize (Hr x). specialize (Hv x).
  assert (align_down x = mid ↔ mid <= x < mid + 4096) as Hx
    by (unfold align_down; Z.to_euclidean_division_equations; lia).
  destruct (decide (align_down x = mid)) as [E|E].
  - rewrite decide_False in Hr by lia. rewrite decide_True by lia. destruct Hv as (Hn&b&Hb).
    split; [congruence|]. eauto.
  - rewrite Hv. destruct (decide (lo <= x < mid)).
    + rewrite decide_True by lia. done.
    + rewrite decide_False by lia. done.
Qed.

Lemma region_same_view s0 lo hi P s s' : (∀ x, view s' x = view s x) → region_of s0 lo hi P s → region_of s0 lo hi P s'.
Proof. intros Hv Hr x. rewrite Hv. apply Hr. Qed.

Lemma map_until_region flags P rest s0 lo n mid c s s' :
  user_pages mid (mid + 4096 * Z.of_nat n) → lo <= mid → machine_ok s.1 (s.2 :: rest) →
  region_of s0 lo mid P s → (∀ x b, P x b flags) →
  map_until (range_pages mid n) flags s = (c, s') →
  0 <= c <= Z.of_nat n ∧ steps rest s s' ∧ region_of s0 lo (mid + 4096 * c) P s'.
Proof.
  revert mid c s. induction n as [|n IH]; intros mid c s Hp Hle Hok Hr HP E.
  { injection E as <- <-. rewrite Z.mul_0_r, Z.add_0_r. split_and!; [lia|lia|reflexivity|done]. }
  rewrite range_pages_S in E. cbn [map_until] in E. pose proof Hp as (Hal&_&_&Hu).
  assert (user_page mid) as Hmid by (eapply user_pages_page; [exact Hp|done|lia]).
  rewrite user_page_virt in E by done. rewrite user_page_containing in E by done.
  destruct (map_in_address_space mid flags s) as [r s1] eqn:E1.
  pose proof (map_page_steps mid flags rest Hmid _ _ _ E1) as Hst. destruct (Hst Hok) as [Hok1 _].
  destruct r as [[]|e].
  - destruct (map_until (range_pages (mid + 4096) n) flags s1) as [c' s2] eqn:E2. injection E as <- <-.
    assert (region_of s0 lo (mid + 4096) P s1) as Hr1.
    { destruct s as [m space], s1 as [m1 space1]. eapply region_extend; [done|done|exact Hr|done|].
      apply (map_in_address_space_view mid flags m space m1 space1 rest Hok Hal (user_page_canonical mid Hmid) E1). }
    assert (user_pages (mid + 4096) (mid + 4096 + 4096 * Z.of_nat n)) as Hp1.
    { destruct Hp as (_&Hal2&?&?). replace (mid + 4096 + 4096 * Z.of_nat n) with (mid + 4096 * Z.of_nat (S n)) by lia.
      split_and!; [rewrite <- Zplus_mod_idemp_l, Hal; done|done|lia|lia]. }
    destruct (IH (mid + 4096) c' s1 Hp1 ltac:(lia) Hok1 Hr1 HP E2) as (?&Hst2&Hr2).
    split_and!; [lia|lia|by etrans|]. by replace (mid + 4096 * (1 + c')) with (mid + 4096 + 4096 * c') by lia.
  - injection E as <- <-. rewrite Z.mul_0_r, Z.add_0_r. split_and!; [lia|lia|done|].
    eapply region_same_view; [|exact Hr]. by eapply map_fails_view.
Qed.

(** The pages of the batches from [from] to [to] of a region. *)
Lemma batch_user_pages start to (b : Z * Z) : user_pages start (start + 4096 * to) → 0 <= b.1 → 0 < b.2 → b.1 + b.2 <= to →
  user_pages (start + b.1 * 4096) (start + b.1 * 4096 + 4096 * Z.of_nat (Z.to_nat b.2)).
Proof.
  intros (Hs&He&?&?) ? ? ?. split_and!; [rewrite Z.mod_add by lia; done| |lia|lia].
  rewrite Z2Nat.id by lia. replace (start + b.1 * 4096 + 4096 * b.2) with (start + (b.1 + b.2) * 4096) by lia.
  by rewrite Z.mod_add by lia.
Qed.

Definition staged (x : Z) (b : byte) (fl : PageTableFlags) : Prop := fl = mmap_staging_flags.

Lemma map_batches_region rest s0 start to bs from fail_after s ok mapped fa s' :
  user_pages start (start + 4096 * to) → 0 <= from → consecutive from bs to → machine_ok s.1 (s.2 :: rest) →
  region_of s0 start (start + 4096 * from) staged s →
  map_batches start bs from fail_after s = (ok, mapped, fa, s') →
  from <= mapped <= to ∧ (ok = true → mapped = to) ∧ steps rest s s' ∧
  region_of s0 start (start + 4096 * mapped) staged s'.
Proof.
  intros Hp. revert from fail_after s. induction bs as [|b bs IH]; intros from fail_after s Hf Hc Hok Hr E; cbn [map_batches] in E.
  { simpl in Hc. subst to. injection E as <- <- <- <-. split_and!; [lia|lia|done|reflexivity|done]. }
  pose proof (consecutive_le _ _ _ Hc) as Hft. destruct Hc as (Hb1&Hb2&Hc). pose proof (consecutive_le _ _ _ Hc) as Hle.
  destruct (negb _ && _). { injection E as <- <- <- <-. split_and!; [lia|lia|done|reflexivity|done]. }
  destruct (map_until _ _ s) as [n s1] eqn:E1. unfold batch_pages in E1.
  destruct (map_until_region mmap_staging_flags staged rest s0 start (Z.to_nat b.2) (start + b.1 * 4096) n s s1)
    as (Hn&Hst&Hr1); [apply (batch_user_pages start to b); [done|lia|lia|lia]|lia|done| |done|exact E1|].
  { by replace (start + b.1 * 4096) with (start + 4096 * from) by lia. }
  destruct (Hst Hok) as [Hok1 _]. replace (start + b.1 * 4096 + 4096 * n) with (start + 4096 * (from + n)) in Hr1 by lia.
  destruct (Z.eqb_spec n b.2) as [->|Hne].
  - destruct (IH (from + b.2) fail_after s1 ltac:(lia) Hc Hok1 Hr1 E) as (?&?&?&?).
    split_and!; [lia|lia|done|by etrans|done].
  - injection E as <- <- <- <-. split_and!; [lia|lia|done|done|done].
Qed.

(** ** Loops over the batches of a mapped region *)

(** [each_batch] keeps an invariant indexed by the pages done. *)
Lemma each_batch_inv (f : Z * Z → Machine PT * AddressSpace → bool * (Machine PT * AddressSpace)) rest
    (Inv : Z → Machine PT * AddressSpace → Prop) (Bad : Machine PT * AddressSpace → Prop)
    (start to : Z) (bs : list (Z * Z)) (from : Z) s ok s' :
  user_pages start (start + 4096 * to) → 0 <= from → consecutive from bs to →
  (∀ b s ok s', 0 <= b.1 → 0 < b.2 → b.1 + b.2 <= to → machine_ok s.1 (s.2 :: rest) → Inv b.1 s → f b s = (ok, s') →
    steps rest s s' ∧ if ok then Inv (b.1 + b.2) s' else Bad s') →
  machine_ok s.1 (s.2 :: rest) → Inv from s → each_batch f bs s = (ok, s') →
  steps rest s s' ∧ if ok then Inv to s' else Bad s'.
Proof.
  intros Hp Hf Hc Hstep. revert from s Hf Hc. induction bs as [|b bs IH]; intros from s Hf Hc Hok Hi E; cbn [each_batch] in E.
  { simpl in Hc. subst to. injection E as <- <-. split; [reflexivity|done]. }
  destruct Hc as (Hb1&Hb2&Hc). pose proof (consecutive_le _ _ _ Hc) as Hle.
  destruct (f b s) as [o s1] eqn:E1. rewrite <- Hb1 in Hi.
  destruct (Hstep b s o s1 ltac:(lia) Hb2 ltac:(lia) Hok Hi E1) as [Hst Hnext]. destruct o.
  - destruct (Hst Hok) as [Hok1 _]. rewrite Hb1 in Hnext. destruct (IH (from + b.2) s1 ltac:(lia) Hc Hok1 Hnext E) as [Hst2 ?].
    split; [by etrans|done].
  - by injection E as <- <-.
Qed.

Lemma zero_fails_view start len rest s s' e : 0 <= len → machine_ok s.1 (s.2 :: rest) →
  on_space (λ space, zero_bytes_in_address_space space start len) s = (Err e, s') → s' = s.
Proof.
  destruct s as [m space]. intros Hlen Hok E. unfold on_space, on_machine, mbind, M_bind, mget in E. cbn [fst snd] in E.
  pose proof Hok as [Ho _ _ [[Hpt _] _]%Forall_cons].
  pose proof (for_each_mapped_chunk_spec space start _ _ m Ho Hpt (machine_ok_inj _ _ _ Hok) (zero_stores len Hlen)) as Hs.
  rewrite zlen_replicate in Hs by done. unfold zero_bytes_in_address_space in E.
  destruct (for_each_mapped_chunk space start len _ m) as [r m1]. injection E as -> <-. by destruct Hs as [_ ->].
Qed.

Definition zeroed_below (c : Z) (x : Z) (b : byte) (fl : PageTableFlags) : Prop :=
  fl = mmap_staging_flags ∧ (x < c → b = Byte.x00).

Lemma zero_batch_region rest s0 start to b s ok s' :
  user_pages start (start + 4096 * to) → 0 <= b.1 → 0 < b.2 → b.1 + b.2 <= to → machine_ok s.1 (s.2 :: rest) →
  region_of s0 start (start + 4096 * to) (zeroed_below (start + 4096 * b.1)) s → zero_batch start b s = (ok, s') →
  steps rest s s' ∧
  if ok then region_of s0 start (start + 4096 * to) (zeroed_below (start + 4096 * (b.1 + b.2))) s'
  else region_of s0 start (start + 4096 * to) any s'.
Proof.
  intros Hp Hb1 Hb2 Hbt Hok Hr E. assert (0 <= b.2 * 4096) as Hz by lia. unfold zero_batch in E. pose proof (batch_user_pages start to b Hp Hb1 Hb2 Hbt) as (Hal&_&?&?).
  rewrite user_page_virt in E by (split; [done|lia]).
  pose proof (zero_steps (start + b.1 * 4096) (b.2 * 4096) rest Hz) as Hst.
  split; [by eapply succeeds_steps|]. destruct ok.
  - apply succeeds_true in E as ([]&E). intros x. specialize (Hr x).
    rewrite (zero_view _ _ rest s s' Hz Hok E x). destruct (decide (start <= x < start + 4096 * to)).
    + destruct Hr as (Hn&b'&fl&->&Hfl&Hb). split; [done|]. simpl. eexists _, fl. split; [reflexivity|]. split; [done|].
      intros Hx. case_decide; [done|]. apply Hb. lia.
    + rewrite Hr. destruct (view s0 x) as [[b' fl]|]; [|done]. simpl. case_decide; [lia|done].
  - unfold succeeds in E. destruct (on_space _ s) as [[|e] s1] eqn:E1; [done|]. injection E as <-.
    rewrite (zero_fails_view _ _ rest s s1 e Hz Hok E1). by eapply region_weaken; [|exact Hr].
Qed.

Definition protected_below (c : Z) (x : Z) (b : byte) (fl : PageTableFlags) : Prop :=
  b = Byte.x00 ∧ fl = if decide (x < c) then mmap_final_flags else mmap_staging_flags.

Lemma protect_pages_region rest s0 start hi n mid s ok s' :
  user_pages mid (mid + 4096 * Z.of_nat n) → start <= mid → mid + 4096 * Z.of_nat n <= hi → machine_ok s.1 (s.2 :: rest) →
  region_of s0 start hi (protected_below mid) s →
  protect_pages (range_pages mid n) s = (ok, s') →
  steps rest s s' ∧
  if ok then region_of s0 start hi (protected_below (mid + 4096 * Z.of_nat n)) s' else region_of s0 start hi any s'.
Proof.
  revert mid s. induction n as [|n IH]; intros mid s Hp Hlo Hhi Hok Hr E.
  { injection E as <- <-. split; [reflexivity|]. by rewrite Z.mul_0_r, Z.add_0_r. }
  rewrite range_pages_S in E. cbn [protect_pages] in E. pose proof Hp as (Hal&_&_&_).
  assert (user_page mid) as Hmid by (eapply user_pages_page; [exact Hp|done|lia]).
  rewrite user_page_virt in E by done. rewrite user_page_containing in E by done.
  destruct (succeeds _ s) as [o s1] eqn:E1. pose proof (succeeds_steps _ rest _ _ _ (update_page_steps mid mmap_final_flags rest Hmid) E1) as Hst.
  assert (∀ x, view s1 x = (λ bf, (bf.1, if decide (align_down x = mid) then mmap_final_flags else bf.2)) <$> view s x) as Hv.
  { intros x. destruct s as [m space]. unfold succeeds, on_space, on_machine, mbind, M_bind, mget in E1. cbn [fst snd] in E1.
    destruct (update_flags_in_address_space space mid mmap_final_flags m) as [r m1] eqn:Eu. injection E1 as _ <-.
    by apply (update_flags_view mid mmap_final_flags m m1 space rest r Hok Hal (proj2 Hmid) Eu). }
  assert (region_of s0 start hi (protected_below (mid + 4096)) s1) as Hr1.
  { intros x. specialize (Hr x). rewrite Hv. destruct (decide (start <= x < hi)).
    - destruct Hr as (Hn&b&fl&->&->&->). split; [done|]. simpl. eexists _, _. split; [reflexivity|]. split; [done|].
      unfold align_down. repeat case_decide; try done; Z.to_euclidean_division_equations; lia.
    - rewrite Hr. destruct (view s0 x) as [[b fl]|]; [|done]. simpl. case_decide as Hx; [|done].
      unfold align_down in Hx. Z.to_euclidean_division_equations; lia. }
  destruct o.
  - assert (user_pages (mid + 4096) (mid + 4096 + 4096 * Z.of_nat n)) as Hp1.
    { destruct Hp as (_&Hal2&?&?). replace (mid + 4096 + 4096 * Z.of_nat n) with (mid + 4096 * Z.of_nat (S n)) by lia.
      split_and!; [rewrite <- Zplus_mod_idemp_l, Hal; done|done|lia|lia]. }
    destruct (Hst Hok) as [Hok1 _]. destruct (IH (mid + 4096) s1 Hp1 ltac:(lia) ltac:(lia) Hok1 Hr1 E) as [Hst2 Hr2].
    split; [by etrans|]. by replace (mid + 4096 * Z.of_nat (S n)) with (mid + 4096 + 4096 * Z.of_nat n) by lia.
  - injection E as <- <-. split; [done|]. by eapply region_weaken; [|exact Hr1].
Qed.

(** ** Rolling back *)

(** Outside [lo, hi) the view is that of [s0]. *)
Definition outside s0 (lo hi : Z) s : Prop := ∀ x, ¬ (lo <= x < hi) → view s x = view s0 x.

Lemma region_outside s0 lo hi P s : region_of s0 lo hi P s → outside s0 lo hi s.
Proof. intros Hr x Hx. specialize (Hr x). by rewrite decide_False in Hr. Qed.

Lemma outside_weaken s0 lo hi hi' s : hi <= hi' → outside s0 lo hi s → outside s0 lo hi' s.
Proof. intros Hle Ho x Hx. apply Ho. lia. Qed.

Lemma region_unmap s0 start mid hi count rest P s s' u : 0 <= count → machine_ok s.1 (s.2 :: rest) → mid + 4096 * count <= hi →
  start = mid → region_of s0 mid hi P s → unmap_range_in_address_space_atomic start count s = (Ok u, s') →
  region_of s0 (mid + 4096 * count) hi P s'.
Proof.
  intros Hc Hok Hle -> Hr E x. destruct (unmap_view _ _ _ _ _ _ Hc Hok E) as [_ Hv]. specialize (Hr x). rewrite Hv.
  destruct (decide (mid <= x < mid + 4096 * count)).
  - rewrite decide_True in Hr by lia. rewrite decide_False by lia. by destruct Hr as [-> _].
  - destruct (decide (mid <= x < hi)); [rewrite decide_True by lia|rewrite decide_False by lia]; done.
Qed.

Lemma succeeds_false {A} (c : M (Machine PT * AddressSpace) A) s s' :
  succeeds c s = (false, s') → ∃ e, c s = (Err e, s').
Proof. unfold succeeds. destruct (c s) as [[a|e] s1]; [done|]. intros [= <-]. eauto. Qed.

(** A refused unmapping changes nothing. *)
Lemma unmap_fails start count rest s s' e : 0 <= count → machine_ok s.1 (s.2 :: rest) →
  unmap_range_in_address_space_atomic start count s = (Err e, s') → s' = s.
Proof.
  destruct s as [m space], s' as [m' space']. intros Hc Hok E. pose proof (unmap_range_spec start count m space rest Hok Hc) as Hs.
  rewrite E in Hs. by destruct Hs as (_&_&_&_&->).
Qed.

Lemma rollback_spec rest s0 start mapped requested before s ok s' :
  0 <= mapped → 0 <= requested → user_pages start (start + 4096 * mapped) → machine_ok s.1 (s.2 :: rest) →
  region_of s0 start (start + 4096 * mapped) any s →
  rollback_mmap_or_exit start mapped requested before s = (ok, s') →
  steps rest s s' ∧ outside s0 start (start + 4096 * mapped) s' ∧
  (ok = true → (∀ x, view s' x = view s0 x) ∧ frame_count s'.2 = before).
Proof.
  intros Hm Hq Hp Hok Hr E. unfold rollback_mmap_or_exit in E.
  destruct (each_batch _ _ s) as [restored s1] eqn:E1.
  eapply (each_batch_inv _ rest (λ c, region_of s0 (start + 4096 * c) (start + 4096 * mapped) any)
    (outside s0 start (start + 4096 * mapped)) start mapped _ 0) in E1;
    [|done|lia|apply batches_consecutive; [done|lia]| |done|by rewrite Z.mul_0_r, Z.add_0_r].
  2:{ intros b s2 o s3 ? ? ? Hok2 Hr2 Eb. split; [eapply succeeds_steps; [|exact Eb]; apply unmap_steps; lia|]. destruct o.
      - apply succeeds_true in Eb as (?&Eb). assert (0 <= b.2) by lia.
        replace (start + 4096 * (b.1 + b.2)) with (start + 4096 * b.1 + 4096 * b.2) by lia.
        eapply region_unmap; [..|exact Eb]; [done|done|lia|lia|done].
      - apply succeeds_false in Eb as (?&Eb). apply (unmap_fails _ _ rest) in Eb as ->; [|lia|done].
        intros y Hy. apply (region_outside _ _ _ _ _ Hr2). lia. }
  destruct E1 as [Hst1 Hr1]. destruct restored; [|injection E as <- <-; split_and!; [done|done|done]].
  destruct (succeeds _ s1) as [exact s2] eqn:E2. injection E as <- <-. destruct (Hst1 Hok) as [Hok1 _].
  assert (∀ x, view s2 x = view s0 x) as Hv.
  { intros x. unfold succeeds in E2. destruct (clean_up_empty_tables_in_range _ _ s1) as [r s3] eqn:E3. injection E2 as _ <-.
    rewrite (clean_view _ _ rest _ _ _ Hok1 E3 x). apply (region_outside _ _ _ _ _ Hr1). lia. }
  split_and!; [etrans; [exact Hst1|]; eapply succeeds_steps; [|exact E2]; by apply clean_steps|by intros x _|].
  intros [_ ?%Z.eqb_eq]%andb_prop. by split.
Qed.

(** ** Mapping anonymous memory *)

(** Pages of [len] bytes. *)
Definition page_count (len : Z) : Z := (len + 4095) / 4096.

Lemma page_count_for_spec len : 0 <= len <= MAX_MMAP_LEN → len ≠ 0 → page_count_for len = Some (page_count len).
Proof.
  intros Hl Hn. unfold page_count_for, checked_add. rewrite (proj2 (Z.eqb_neq _ _) Hn).
  unfold MAX_MMAP_LEN in Hl. destruct (Z.leb_spec (len + 0xFFF) u64_max) as [_|Hx]; [|unfold u64_max in Hx; lia]. cbn [mbind option_bind].
  f_equal. unfold page_count. change (Z.lnot 0xFFF) with (Z.lnot (Z.ones 12)). rewrite <- Z.ldiff_land, Z.ldiff_ones_r by lia.
  rewrite Z.shiftl_mul_pow2, Z.shiftr_div_pow2 by lia. by rewrite Z.div_mul by done.
Qed.

Lemma mmap_plan_spec len next pages end_ worst : 0 <= len → USER_MMAP_BASE <= next <= USER_MMAP_LIMIT →
  mmap_plan len next = Some (pages, end_, worst) →
  0 < len <= MAX_MMAP_LEN ∧ pages = page_count len ∧ end_ = next + 4096 * pages ∧ end_ <= USER_MMAP_LIMIT.
Proof.
  intros Hl Hn. unfold mmap_plan. destruct (Z.eqb_spec len 0); [done|]. destruct (Z.ltb_spec MAX_MMAP_LEN len); [done|].
  cbn [orb]. rewrite page_count_for_spec by lia. cbn [mbind option_bind].
  intros (rl&[-> _]%checked_mul_Some&Hp)%bind_Some. apply bind_Some in Hp as (e&[-> _]%checked_add_Some&Hp).
  destruct (Z.ltb_spec USER_MMAP_LIMIT (next + page_count len * 4096)); [done|].
  do 5 apply bind_Some in Hp as (?&_&Hp). simplify_eq. lia.
Qed.

Lemma mmap_user_pages next pages : next mod 4096 = 0 → USER_MMAP_BASE <= next → next + 4096 * pages <= USER_MMAP_LIMIT →
  user_pages next (next + 4096 * pages).
Proof.
  intros Ha Hl Hh. split_and!; [done| | |].
  - rewrite (Z.mul_comm 4096), Z.mod_add by lia. done.
  - unfold USER_MMAP_BASE in Hl. lia.
  - unfold USER_MMAP_LIMIT in Hh. unfold user_end. lia.
Qed.

(** A zero byte with the permissions the caller asked for. *)
Definition fresh_page (writable : bool) (x : Z) (b : byte) (fl : PageTableFlags) : Prop :=
  b = Byte.x00 ∧ fl = if writable then mmap_staging_flags else mmap_final_flags.

Lemma abandon_spec rest s0 start mapped requested pages s o s' :
  0 <= mapped <= pages → 0 <= requested → user_pages start (start + 4096 * mapped) → machine_ok s.1 (s.2 :: rest) →
  region_of s0 start (start + 4096 * mapped) any s → abandon start mapped requested (frame_count s0.2) s = (o, s') →
  steps rest s s' ∧ outside s0 start (start + 4096 * pages) s' ∧
  match o with
  | Returned r => r = None ∧ (∀ x, view s' x = view s0 x) ∧ frame_count s'.2 = frame_count s0.2
  | Killed => True
  end.
Proof.
  intros Hm Hq Hp Hok Hr E. unfold abandon in E. destruct (rollback_mmap_or_exit _ _ _ _ s) as [restored s1] eqn:E1.
  injection E as <- <-. destruct (rollback_spec rest s0 start mapped requested _ s restored s1 (proj1 Hm) Hq Hp Hok Hr E1) as (?&?&Hres).
  split_and!; [done|apply (outside_weaken _ _ (start + 4096 * mapped)); [lia|done]|]. destruct restored; [|done]. by destruct Hres.
Qed.

Lemma protect_batches_region rest s0 start pages s ok s' :
  0 <= pages → user_pages start (start + 4096 * pages) → machine_ok s.1 (s.2 :: rest) →
  region_of s0 start (start + 4096 * pages) (protected_below start) s →
  each_batch (λ b, protect_pages (batch_pages start b)) (batches VM_BATCH_PAGES pages) s = (ok, s') →
  steps rest s s' ∧
  if ok then region_of s0 start (start + 4096 * pages) (protected_below (start + 4096 * pages)) s'
  else region_of s0 start (start + 4096 * pages) any s'.
Proof.
  intros Hpg Hp Hok Hr E. eapply (each_batch_inv _ rest
    (λ c, region_of s0 start (start + 4096 * pages) (protected_below (start + 4096 * c)))
    (region_of s0 start (start + 4096 * pages) any) start pages _ 0) in E;
    [exact E|done|lia|by apply batches_consecutive| |done|by rewrite Z.mul_0_r, Z.add_0_r].
  intros b s2 o s3 ? ? ? Hok2 Hr2 Eb. unfold batch_pages in Eb. pose proof (batch_user_pages start pages b Hp ltac:(lia) ltac:(lia) ltac:(lia)) as Hbp.
  replace (start + 4096 * b.1) with (start + b.1 * 4096) in Hr2 by lia.
  pose proof (protect_pages_region rest s0 start (start + 4096 * pages) _ _ _ _ _ Hbp ltac:(lia) ltac:(lia) Hok2 Hr2 Eb) as [? Hx].
  split; [done|]. destruct o; [|done]. by replace (start + 4096 * (b.1 + b.2)) with (start + b.1 * 4096 + 4096 * Z.of_nat (Z.to_nat b.2)) by lia.
Qed.

(** Zeroing and protecting a staged region. *)
Lemma finish_region rest s0 start pages (writable : bool) s (ok1 : bool) s1 (ok2 : bool) s2 :
  0 <= pages → user_pages start (start + 4096 * pages) → machine_ok s.1 (s.2 :: rest) →
  region_of s0 start (start + 4096 * pages) staged s →
  each_batch (zero_batch start) (batches VM_BATCH_PAGES pages) s = (ok1, s1) →
  (if writable then (true, s1) else each_batch (λ b, protect_pages (batch_pages start b)) (batches VM_BATCH_PAGES pages) s1) = (ok2, s2) →
  steps rest s s1 ∧ region_of s0 start (start + 4096 * pages) any s1 ∧
  (ok1 = true → steps rest s1 s2 ∧ region_of s0 start (start + 4096 * pages) (if ok2 then fresh_page writable else any) s2).
Proof.
  intros Hpg Hp Hok Hr E1 E2.
  eapply (each_batch_inv _ rest (λ c, region_of s0 start (start + 4096 * pages) (zeroed_below (start + 4096 * c)))
    (region_of s0 start (start + 4096 * pages) any) start pages _ 0) in E1;
    [|done|lia|by apply batches_consecutive| |done|].
  2:{ intros b s3 o s4 ? ? ? Hok3 Hr3 Eb. by eapply zero_batch_region; [..|exact Eb]; try done; lia. }
  2:{ eapply region_weaken; [|exact Hr]. intros x b fl Hx Hfl. split; [done|lia]. }
  destruct E1 as [Hst1 Hr1]. destruct (Hst1 Hok) as [Hok1 _]. split; [done|]. destruct ok1; [|done].
  split; [by eapply region_weaken; [|exact Hr1]|]. intros _. destruct writable.
  - injection E2 as <- <-. split; [reflexivity|]. eapply region_weaken; [|exact Hr1]. intros x b fl Hx [-> Hb]. split; [apply Hb; lia|done].
  - eapply protect_batches_region in E2; [|done|done|done|].
    2:{ eapply region_weaken; [|exact Hr1]. intros x b fl Hx [-> Hb]. split; [apply Hb; lia|]. by rewrite decide_False by lia. }
    destruct E2 as [Hst2 Hr2]. split; [done|]. destruct ok2; [|done]. eapply region_weaken; [|exact Hr2].
    intros x b fl Hx [-> ->]. split; [done|]. by rewrite decide_True by lia.
Qed.

Lemma mmap_spec len writable next fail_after rest s o next' fa s' :
  0 <= len → next mod 4096 = 0 → USER_MMAP_BASE <= next <= USER_MMAP_LIMIT → machine_ok s.1 (s.2 :: rest) →
  mmap len writable next fail_after s = (o, next', fa, s') →
  steps rest s s' ∧
  match o with
  | Returned (Some start) =>
      start = next ∧ 0 < len <= MAX_MMAP_LEN ∧ next' = next + 4096 * page_count len ∧ next' <= USER_MMAP_LIMIT ∧
      region_of s next next' (fresh_page writable) s'
  | Returned None => next' = next ∧ (∀ x, view s' x = view s x) ∧ frame_count s'.2 = frame_count s.2
  | Killed => next' = next ∧ outside s next (next + 4096 * page_count len) s'
  end.
Proof.
  intros Hlen Hal Hn Hok E. unfold mmap in E. destruct (mmap_plan len next) as [[[pages end_] worst]|] eqn:Ep;
    [|by injection E as <- <- <- <-].
  apply mmap_plan_spec in Ep as (Hl&->&->&Hend); [|done|done]. set (pages := page_count len) in *.
  assert (0 <= pages) as Hpg by (apply Z.div_pos; lia). pose proof (mmap_user_pages next pages Hal (proj1 Hn) Hend) as Hp.
  destruct (negb (can_allocate_frames _ _)); [by injection E as <- <- <- <-|].
  destruct (negb (forallb _ _)); [by injection E as <- <- <- <-|].
  destruct (map_batches next _ 0 fail_after s) as [[[ok mapped] fa1] s1] eqn:E1.
  eapply (map_batches_region rest s next pages) in E1 as (Hm&Hfull&Hst1&Hr1);
    [|done|lia|by apply batches_consecutive|done|rewrite Z.mul_0_r, Z.add_0_r; apply region_refl].
  destruct (Hst1 Hok) as [Hok1 _].
  assert (∀ s2, steps rest s s2 → region_of s next (next + 4096 * mapped) any s2 →
    (let '(o, s) := abandon next mapped pages (frame_count s.2) s2 in (o, next, fa1, s)) = (o, next', fa, s') →
    steps rest s s' ∧
    match o with
    | Returned (Some start) =>
        start = next ∧ 0 < len <= MAX_MMAP_LEN ∧ next' = next + 4096 * pages ∧ next' <= USER_MMAP_LIMIT ∧
        region_of s next next' (fresh_page writable) s'
    | Returned None => next' = next ∧ (∀ x, view s' x = view s x) ∧ frame_count s'.2 = frame_count s.2
    | Killed => next' = next ∧ outside s next (next + 4096 * pages) s'
    end) as Hfail.
  { intros s2 Hst2 Hr2 Eg. destruct (abandon _ _ _ _ s2) as [o2 s3] eqn:E2. injection Eg as <- <- <- <-.
    destruct (Hst2 Hok) as [Hok2 _]. eapply (abandon_spec rest s next mapped _ pages) in E2 as (Hst3&Hout&Ho);
      [|lia|lia|apply mmap_user_pages; [done|lia|lia]|done|done].
    split; [by etrans|]. destruct o2 as [r|]; [|done]. by destruct Ho as (->&?&?). }
  destruct ok; [rewrite (Hfull eq_refl) in *|by eapply Hfail; [| |exact E]; [|eapply region_weaken; [|exact Hr1]]]. cbn [negb] in E.
  destruct (each_batch (zero_batch next) _ s1) as [ok1 s2] eqn:E2.
  destruct (if writable then _ else _) as [ok2 s3] eqn:E3.
  pose proof (finish_region rest s next pages writable s1 ok1 s2 ok2 s3 Hpg Hp Hok1 Hr1 E2 E3) as (Hst2&Hr2&Hfin).
  destruct ok1; cbn [negb] in E; [|by eapply Hfail; [| |exact E]; [etrans|]].
  destruct (Hfin eq_refl) as [Hst3 Hr3]. destruct ok2; cbn [negb] in E.
  - injection E as <- <- <- <-. split; [by do 2 (etrans; [done|])|]. done.
  - eapply Hfail; [| |exact E]; [by do 2 (etrans; [done|])|done].
Qed.

(** C24: mapping anonymous memory is a transaction. A granted request returns
    the arena pointer and advances it past the pages of the request, which were
    unmapped and now read as zero bytes with the permissions asked for (write
    access only when requested, never execute); a refused one leaves the memory
    the process sees, its arena pointer and its number of frames as they were;
    when the caller has to be killed, nothing outside the request has changed.
    No other process and no kernel memory is affected in any case. *)
Theorem mmap_is_transactional len writable next fail_after m spaces i space :
  reachable m spaces → spaces !! i = Some space →
  0 <= len → next mod 4096 = 0 → USER_MMAP_BASE <= next <= USER_MMAP_LIMIT →
  let '(o, next', _, (m', space')) := mmap len writable next fail_after (m, space) in
  machine_ok m' (space' :: delete i spaces) ∧ undisturbed (delete i spaces) m m' ∧
  match o with
  | Returned (Some start) =>
      start = next ∧ 0 < len <= MAX_MMAP_LEN ∧ next' = next + 4096 * page_count len ∧ next' <= USER_MMAP_LIMIT ∧
      region_of (m, space) next next' (fresh_page writable) (m', space')
  | Returned None =>
      next' = next ∧ (∀ x, view (m', space') x = view (m, space) x) ∧ frame_count space' = frame_count space
  | Killed => next' = next ∧ outside (m, space) next (next + 4096 * page_count len) (m', space')
  end.
Proof.
  intros Hr Hi Hlen Hal Hn. pose proof (reachable_space _ _ _ _ Hr Hi) as Hok.
  destruct (mmap _ _ _ _ _) as [[[o next'] fa] [m' space']] eqn:E.
  apply (mmap_spec _ _ _ _ (delete i spaces)) in E as [Hst Ho]; [|done|done|done|done].
  destruct (Hst Hok) as (Hok'&Hu&_). by split_and!.
Qed.
End vm.

(** ** A small process *)

Module VmSample.
#[local] Existing Instance sim_addr.
#[local] Existing Instance sim_addr_spec.
#[local] Existing Instance sim_x86.
#[local] Existing Instance PagingSafety.Sample.sample_spec.
#[local] Existing Instance PagingSafety.Sample.sample_map.
#[local] Existing Instance PagingSafety.Sample.sample_heap.

Definition ops : list PagingOp := [NewSpace; NewSpace].
Definition fresh := run_ops (Sample.machine, []) ops.
Definition process : AddressSpace := default (mk_space 0 []) (fresh.2 !! 0%nat).

(** Two read-only pages for 5000 bytes. *)
Definition mapped := mmap 5000 false USER_MMAP_BASE u64_max (fresh.1, process).

Example mmap_runs :
  mapped.1.1 = (Returned (Some USER_MMAP_BASE), USER_MMAP_BASE + 0x2000) ∧
  view mapped.2 (USER_MMAP_BASE + 0x1fff) = Some (Byte.x00, mk_flags true false true true) ∧
  view mapped.2 (USER_MMAP_BASE + 0x2000) = None.
Proof. split_and!; vm_compute; reflexivity. Qed.

(** Refused: too long, past the arena; rolled back: the injected failure after
    one batch. *)
Example mmap_refused :
  (mmap (MAX_MMAP_LEN + 1) true USER_MMAP_BASE u64_max (fresh.1, process)).1.1.1 = Returned None ∧
  (mmap 4097 true (USER_MMAP_LIMIT - 4096) u64_max (fresh.1, process)).1.1.1 = Returned None ∧
  (mmap 20000 true USER_MMAP_BASE 4 (fresh.1, process)).1 = (Returned None, USER_MMAP_BASE, u64_max).
Proof. split_and!; vm_compute; reflexivity. Qed.

Lemma mmap_is_transactional_witness :
  mapped.1.1.1 = Returned (Some USER_MMAP_BASE) ∧
  let '(o, next', _, (m', space')) := mmap 5000 false USER_MMAP_BASE u64_max (fresh.1, process) in
  machine_ok m' (space' :: delete 0%nat fresh.2) ∧ undisturbed (delete 0%nat fresh.2) fresh.1 m' ∧
  match o with
  | Returned (Some start) =>
      start = USER_MMAP_BASE ∧ 0 < 5000 <= MAX_MMAP_LEN ∧ next' = USER_MMAP_BASE + 4096 * page_count 5000 ∧
      next' <= USER_MMAP_LIMIT ∧ region_of (fresh.1, process) USER_MMAP_BASE next' (fresh_page false) (m', space')
  | Returned None =>
      next' = USER_MMAP_BASE ∧ (∀ x, view (m', space') x = view (fresh.1, process) x) ∧
      frame_count space' = frame_count process
  | Killed =>
      next' = USER_MMAP_BASE ∧
      outside (fresh.1, process) USER_MMAP_BASE (USER_MMAP_BASE + 4096 * page_count 5000) (m', space')
  end.
Proof.
  split; [vm_compute; reflexivity|].
  apply (mmap_is_transactional 5000 false USER_MMAP_BASE u64_max fresh.1 fresh.2 0 process);
    [|vm_compute; reflexivity|lia|vm_compute; reflexivity|vm_compute; split; discriminate].
  apply Sample.sample_reaches. by apply (bool_decide_eq_true_1 (Forall paging_op_ok ops)); vm_compute.
Defined.
End VmSample.
