(* ===== verification/VmUnmap.v ===== *)
(** Unmapping anonymous memory: the chunked [munmap] either removes the whole
    range or changes nothing, and never has to kill its caller. *)

From S2P Require Import Prelude X86 Frames Paging PagingSpaces PagingRange PagingCopy PagingSafety Elf Process Vm VmSafety.

(** ** Chunks *)

Lemma chunks_concat {A} fuel n (l : list A) : (0 < n)%nat → (length l ≤ fuel)%nat →
  concat (chunks fuel n l) = l ∧ Forall (λ c, c ≠ []) (chunks fuel n l).
Proof.
  intros Hn. revert l. induction fuel as [|fuel IH]; intros l Hl; cbn [chunks].
  { by destruct l; [|simpl in Hl; lia]. }
  destruct l as [|x l]; [done|]. destruct (IH (drop n (x :: l))) as [IH1 IH2]; [rewrite length_drop; simpl in *; lia|].
  split; [cbn [concat]; by rewrite IH1, take_drop|]. constructor; [|done]. by destruct n; [lia|].
Qed.

Lemma vm_chunks_concat {A} (l : list A) : concat (vm_chunks l) = l ∧ Forall (λ c, c ≠ []) (vm_chunks l).
Proof. apply chunks_concat; [vm_compute; lia|lia]. Qed.

Lemma range_pages_app start n m :
  range_pages start (n + m) = range_pages start n ++ range_pages (start + 4096 * Z.of_nat n) m.
Proof.
  revert start. induction n as [|n IH]; intros start; [by replace (start + 4096 * Z.of_nat 0) with start by lia|].
  cbn [Nat.add]. rewrite !range_pages_S, IH. cbn [app]. do 3 f_equal. lia.
Qed.

Lemma without_pages_app p1 p2 l : without_pages (p1 ++ p2) l = without_pages p2 (without_pages p1 l).
Proof. apply foldl_app. Qed.

(** What a removal takes out of the ownership list. *)
Lemma remove_unmapped_perm rs owned owned' :
  remove_unmapped rs owned = (true, owned') → owned ≡ₚ (rem_frame <$> rs) ++ owned'.
Proof.
  revert owned. induction rs as [|r rs IH]; intros owned; simpl; [by intros [= ->]|].
  case_bool_decide as E; [|done]. intros H. apply IH in H. rewrite <- H. by apply delete_Permutation.
Qed.

Section vm.
Context {PT : Type} `{!BootMap, !KernelFrames, !X86Addr, !X86AddrSpec, !X86_64 PT, !X86_64Spec PT USER_REGION_PML4_INDEX}.
Implicit Types (s : Machine PT * AddressSpace) (m : Machine PT) (space : AddressSpace) (rest : list AddressSpace).

(** ** Validation *)

(** Every byte from [lo] to [hi] is on a page the process may read. *)
Definition readable space m (lo hi : Z) : Prop :=
  ∀ a, lo <= a < hi → ∃ l, located space m a = Some l ∧ allowed false l.2 = true.

Lemma collect_batches_spec ptr bs m space rest from to :
  machine_ok m (space :: rest) → 0 <= from → consecutive from bs to → user_pages ptr (ptr + 4096 * to) →
  match collect_batches ptr bs (m, space) with
  | Some records =>
      readable space m (ptr + 4096 * from) (ptr + 4096 * to) ∧
      rec_page <$> records = range_pages (ptr + 4096 * from) (Z.to_nat (to - from)) ∧
      records_of (space_leaves space m) records
  | None => ¬ readable space m (ptr + 4096 * from) (ptr + 4096 * to)
  end.
Proof.
  intros Hok Hf Hc Hp. pose proof Hok as [Hoff _ _ [[Hpt _] _]%Forall_cons].
  revert from Hf Hc. induction bs as [|b bs IH]; intros from Hf Hc; cbn [collect_batches].
  { simpl in Hc. subst to. split_and!; [intros a ?; lia|by rewrite Z.sub_diag|constructor]. }
  destruct Hc as (Hb1&Hb2&Hc). pose proof (consecutive_le _ _ _ Hc) as Hle. cbn [fst snd].
  pose proof (batch_user_pages ptr to b Hp ltac:(lia) Hb2 ltac:(lia)) as Hbp. rewrite Z2Nat.id in Hbp by lia.
  replace (ptr + b.1 * 4096) with (ptr + 4096 * from) in * by lia. destruct Hbp as (Hal&_&Hlo&Hhi).
  pose proof (collect_unmap_records_spec space (ptr + 4096 * from) b.2 m Hoff Hpt ltac:(lia)) as Hcol.
  destruct (collect_unmap_records _ _ _ _) as [records|e].
  2:{ intros Hr. apply Hcol. split_and!; [lia|done|]. unfold range_ok. split_and!; [lia|lia|lia|]. intros a Ha. apply Hr. lia. }
  destruct Hcol as ((_&_&_&_&Hread)&Hpages&Hrecs). specialize (IH (from + b.2) ltac:(lia) Hc).
  destruct (collect_batches ptr bs (m, space)) as [records'|]; cbn [mbind option_bind].
  2:{ intros Hr. apply IH. intros a Ha. apply Hr. lia. }
  destruct IH as (Hread'&Hpages'&Hrecs'). split_and!.
  - intros a Ha. destruct (decide (a < ptr + 4096 * from + 4096 * b.2)); [apply Hread; lia|apply Hread'; lia].
  - rewrite fmap_app, Hpages, Hpages'. replace (Z.to_nat (to - from)) with (Z.to_nat b.2 + Z.to_nat (to - (from + b.2)))%nat by lia.
    rewrite range_pages_app, Z2Nat.id by lia. do 2 f_equal. lia.
  - by apply Forall_app.
Qed.

(** ** Unmapping the chunks *)

(** The pages of [removed] are unmapped but their frames are still owned. *)
Record unmapped_pages m0 space (removed : list UnmapRecord) m : Prop := {
  um_rest : frame_rest (pml4_frame space) m0 m;
  um_alloc : frame_allocator m = frame_allocator m0;
  um_ok : pt_ok (mapper_for (pml4_frame space) m);
  um_tables : tables (mapper_for (pml4_frame space) m) = tables (mapper_for (pml4_frame space) m0);
  um_leaves : space_leaves space m = without_pages (rec_page <$> removed) (space_leaves space m0);
  um_frames : leaf_frames (mapper_for (pml4_frame space) m0) ≡ₚ
    (rec_frame <$> removed) ++ leaf_frames (mapper_for (pml4_frame space) m)
}.

Lemma unmap_chunk m0 space removed c m :
  phys_mem_offset m0 ≠ 0 → unmapped_pages m0 space removed m → c ≠ [] →
  NoDup (rec_page <$> removed ++ c) → records_of (space_leaves space m0) (removed ++ c) →
  ∃ m', unmap_records_atomic space c m = (Ok tt, m') ∧ unmapped_pages m0 space (removed ++ c) m'.
Proof.
  intros Ho [Hrest Hal Hpt Htab Hleaf Hfr] Hne Hnd Hrec.
  rewrite fmap_app in Hnd. apply NoDup_app in Hnd as (_&Hdisj&Hnd). apply Forall_app in Hrec as [_ Hrec].
  destruct (unmap_records_atomic_spec m space c) as (pt&E&Hpt'&Htab'&Hleaf'&Hperm); [|done|done|done| |].
  { by rewrite (fr_offset _ _ _ Hrest). }
  { unfold records_of in *. rewrite Forall_forall in *. intros r Hr. rewrite Hleaf, without_pages_lookup.
    rewrite bool_decide_eq_false_2; [by apply Hrec|]. intros Hin. apply (Hdisj _ Hin). by apply list_elem_of_fmap_2. }
  eexists. split; [exact E|]. constructor.
  - destruct Hrest as [? ? ? Htabs ?]. constructor; [done|done|done| |done].
    intros r Hr. rewrite <- Htabs by done. unfold mapper_for. simpl. by rewrite lookup_insert_ne.
  - done.
  - by rewrite mapper_for_set.
  - rewrite mapper_for_set. congruence.
  - unfold space_leaves at 1. by rewrite mapper_for_set, Hleaf', Hleaf, fmap_app, without_pages_app.
  - rewrite mapper_for_set, Hfr, fmap_app. rewrite Hperm. by rewrite <- app_assoc.
Qed.

Lemma unmap_chunks_spec m0 space removed cs m :
  phys_mem_offset m0 ≠ 0 → unmapped_pages m0 space removed m → Forall (λ c, c ≠ []) cs →
  NoDup (rec_page <$> removed ++ concat cs) → records_of (space_leaves space m0) (removed ++ concat cs) →
  ∃ m', unmap_chunks removed cs (m, space) = (Returned true, (m', space)) ∧
    unmapped_pages m0 space (removed ++ concat cs) m'.
Proof.
  intros Ho Hm Hne. revert removed m Hm. induction Hne as [|c cs Hc _ IH]; intros removed m Hm Hnd Hrec; cbn [unmap_chunks concat] in *.
  { rewrite app_nil_r in *. eauto. }
  rewrite app_assoc in Hnd, Hrec |- *.
  destruct (unmap_chunk m0 space removed c m Ho Hm Hc) as (m'&E&Hm').
  { rewrite fmap_app in Hnd. by apply NoDup_app in Hnd as [? _]. }
  { by apply Forall_app in Hrec as [? _]. }
  unfold succeeds, on_space, on_machine, mbind, M_bind, mget. cbn [fst snd]. rewrite E. cbn [is_ok]. by apply IH.
Qed.

(** ** Releasing the frames *)

Lemma release_chunks_spec cs m space al others owned' :
  remove_unmapped (concat cs) (owned_frames space) = (true, owned') → frame_allocator m = Some al →
  conserves al (owned_frames space ++ others) →
  ∃ al', release_chunks cs (m, space) = (true, (set_allocator al' m, mk_space (pml4_frame space) owned')) ∧
    conserves al' (owned' ++ others).
Proof.
  revert m space al. induction cs as [|c cs IH]; intros m space al Hrem Ha Hc; cbn [release_chunks].
  { simpl in Hrem. injection Hrem as <-. exists al. split; [|done].
    destruct m, space. simpl in *. by subst. }
  cbn [concat] in Hrem. rewrite remove_unmapped_app in Hrem.
  destruct (remove_unmapped c (owned_frames space)) as [ok owned1] eqn:E1. destruct ok; [|done].
  unfold remove_unmapped_ownership, succeeds, on_machine, release_frames, mbind, M_bind, mget, mput, mret, M_ret, mlift.
  cbn [fst snd]. rewrite E1. cbn [fst snd]. rewrite Ha. cbn [ok_or fst snd is_ok].
  destruct (IH (set_allocator (foldl (λ al f, deallocate_frame f al) al (rem_frame <$> c)) m)
    (mk_space (pml4_frame space) owned1) _ Hrem eq_refl) as (al'&->&Hc').
  { cbn [owned_frames]. apply deallocate_all. eapply conserves_perm; [|exact Hc].
    rewrite (remove_unmapped_perm _ _ _ E1). by rewrite <- app_assoc. }
  exists al'. split; [|done]. by destruct m.
Qed.

(** ** The transaction *)

(** The requests [munmap] grants: whole pages of the process's arena, all of
    them mapped. *)
Definition munmap_ok (ptr len mmap_next : Z) s : Prop :=
  0 < len ∧ ptr mod 4096 = 0 ∧ len mod 4096 = 0 ∧ USER_MMAP_BASE <= ptr ∧ ptr + len <= mmap_next ∧
  readable s.2 s.1 ptr (ptr + len).

(** Cleaning up after the request cannot fail, and changes nothing visible. *)
Lemma clean_batches rest ptr pages s ok s' : 0 <= pages → user_pages ptr (ptr + 4096 * pages) → machine_ok s.1 (s.2 :: rest) →
  each_batch (λ b, succeeds (clean_up_empty_tables_in_range (ptr + b.1 * 4096) b.2))
    (batches TABLE_CLEANUP_BATCH_PAGES pages) s = (ok, s') →
  ok = true ∧ steps rest s s' ∧ (∀ x, view s' x = view s x) ∧ frame_count s'.2 <= frame_count s.2.
Proof.
  intros Hpg Hp Hok E. eapply (each_batch_inv _ rest
    (λ _ s1, (∀ x, view s1 x = view s x) ∧ frame_count s1.2 <= frame_count s.2) (λ _, False) ptr pages _ 0) in E;
    [|done|lia|by apply batches_consecutive| |done|done].
  - destruct E as [? Hi]. by destruct ok.
  - intros b s1 o s2 ? ? ? Hok1 [Hv Hn] Eb. split; [eapply succeeds_steps; [|exact Eb]; apply clean_steps; lia|].
    pose proof (batch_user_pages ptr pages b Hp ltac:(lia) ltac:(lia) ltac:(lia)) as (Hal&_&?&Hhi). rewrite Z2Nat.id in Hhi by lia.
    unfold succeeds in Eb. destruct (clean_up_empty_tables_in_range _ _ s1) as [r s3] eqn:Ec. injection Eb as <- <-.
    pose proof (clean_view _ _ rest _ _ _ Hok1 Ec) as Hv'. destruct s1 as [m1 sp1], s3 as [m3 sp3].
    pose proof (clean_up_spec' (ptr + b.1 * 4096) b.2 m1 sp1 rest Hok1) as Hs. rewrite Ec in Hs.
    destruct Hs as (_&_&_&_&Hr). destruct r as [n|e]; cbn [is_ok fst snd] in *.
    + split; [intros x; by rewrite Hv', Hv|]. destruct Hr. lia.
    + destruct Hr as (_&_&Hr). apply Hr. split_and!; [lia|done|lia|lia].
Qed.

(** The part of [munmap] between validation and clean-up. *)
Lemma take_out_spec m space rest records :
  machine_ok m (space :: rest) → NoDup (rec_page <$> records) → records_of (space_leaves space m) records →
  ∃ frames removals m1 m2 space2, unmap_record_frames records = Some frames ∧
    plan_unmap_ownership (owned_frame_snapshot space) frames = Some removals ∧
    unmap_chunks [] (vm_chunks records) (m, space) = (Returned true, (m1, space)) ∧
    release_chunks (vm_chunks removals) (m1, space) = (true, (m2, space2)) ∧
    machine_ok m2 (space2 :: rest) ∧ undisturbed rest m m2 ∧ pml4_frame space2 = pml4_frame space ∧ memory m2 = memory m ∧
    space_leaves space2 m2 = without_pages (rec_page <$> records) (space_leaves space m) ∧
    frame_count space2 + zlen records = frame_count space.
Proof.
  intros Hok Hnd Hrecs. pose proof Hok as [Hoff _ (al&Ha&Hc) [[Hpt Hp] _]%Forall_cons].
  rewrite bind_cons, <- app_assoc in Hc.
  destruct (vm_chunks_concat records) as [Hcat Hne].
  destruct (unmap_chunks_spec m space [] (vm_chunks records) m Hoff) as (m1&E1&[Hrest Hal Hpt1 Htab Hleaf Hlf]);
    [by constructor|done|by rewrite Hcat|by rewrite Hcat|]. cbn [app] in Hleaf, Hlf. rewrite Hcat in Hleaf, Hlf.
  pose proof (leaf_frames_NoDup _ _ _ Hok) as Hndo.
  assert (owned_frames space ≡ₚ (rec_frame <$> records) ++ pml4_frame space :: tables (mapper_for (pml4_frame space) m1) ++ leaf_frames (mapper_for (pml4_frame space) m1)) as Hown
    by (rewrite Hp, Hlf, Htab; solve_Permutation).
  destruct (unmap_record_frames_spec records) as (frames&Hfr&Hperm).
  { rewrite Hown in Hndo. by apply NoDup_app in Hndo as [? _]. }
  rewrite <- Hperm in Hown.
  destruct (plan_unmap_ownership_spec _ _ _ Hndo Hown) as (removals&owned'&Hplan&Hrem&Hown').
  destruct (vm_chunks_concat removals) as [Hcat' _].
  destruct (release_chunks_spec (vm_chunks removals) m1 space al ((rest ≫= owned_frames) ++ kernel_frames) owned')
    as (al'&E2&Hc'); [by rewrite Hcat'|by rewrite Hal|done|].
  eexists frames, removals, m1, _, _. do 2 (split; [done|]). split; [exact E1|]. split; [exact E2|].
  assert (frame_rest (pml4_frame space) m (set_allocator al' m1)) as Hrest2 by (by destruct Hrest; constructor).
  assert (machine_ok (set_allocator al' m1) (mk_space (pml4_frame space) owned' :: rest)) as Hok2.
  { eapply machine_ok_step; [exact Hok|exact Hrest2|done|done|exact Hc'|].
    split; [exact Hpt1|]. cbn [owned_frames pml4_frame]. exact Hown'. }
  split_and!; [done|by eapply undisturbed_rest|done|apply (fr_memory _ _ _ Hrest)|exact Hleaf|].
  unfold frame_count. cbn [owned_frames]. unfold zlen.
  rewrite (Permutation_length Hown), (Permutation_length Hown'), length_app, (Permutation_length Hperm), length_fmap. lia.
Qed.

Lemma munmap_spec ptr len mmap_next rest m space o s' :
  0 <= ptr → 0 <= len → mmap_next <= USER_MMAP_LIMIT → machine_ok m (space :: rest) →
  munmap ptr len mmap_next (m, space) = (o, s') →
  match o with
  | Returned true =>
      munmap_ok ptr len mmap_next (m, space) ∧ steps rest (m, space) s' ∧
      (∀ x, view s' x = if decide (ptr <= x < ptr + len) then None else view (m, space) x) ∧
      frame_count s'.2 + len / 4096 <= frame_count space
  | Returned false => ¬ munmap_ok ptr len mmap_next (m, space) ∧ s' = (m, space)
  | Killed => False
  end.
Proof.
  intros Hptr Hlen Hlim Hok E. unfold munmap in E. unfold munmap_ok.
  destruct (Z.eqb_spec len 0); [injection E as <- <-; split; [lia|done]|].
  destruct (Z.eqb_spec (ptr mod 4096) 0); [|injection E as <- <-; split; [lia|done]].
  destruct (Z.eqb_spec (len mod 4096) 0); [|injection E as <- <-; split; [lia|done]]. cbn [negb orb] in E.
  assert (USER_MMAP_LIMIT <= user_end ∧ user_end <= u64_max ∧ USER_SPACE_BASE <= USER_MMAP_BASE) as (?&?&?) by done.
  destruct (checked_add u64_max ptr len) as [end_|] eqn:Ee.
  2:{ injection E as <- <-. split; [|done]. intros (_&_&_&?&?&_).
      unfold checked_add in Ee. destruct (Z.leb_spec (ptr + len) u64_max); [done|lia]. }
  apply checked_add_Some in Ee as [-> _].
  destruct (Z.leb_spec USER_MMAP_BASE ptr); [|injection E as <- <-; split; [lia|done]].
  destruct (Z.leb_spec (ptr + len) mmap_next); [|injection E as <- <-; split; [lia|done]]. cbn [negb andb] in E.
  set (pages := len / 4096) in *. assert (len = 4096 * pages) as Hpages by (unfold pages; Z.to_euclidean_division_equations; lia).
  assert (user_pages ptr (ptr + 4096 * pages)) as Hp
    by (split_and!; [done|rewrite (Z.mul_comm 4096), Z.mod_add by lia; done|lia|lia]).
  pose proof (collect_batches_spec ptr (batches VM_BATCH_PAGES pages) m space rest 0 pages Hok ltac:(lia)
    (batches_consecutive VM_BATCH_PAGES pages ltac:(done) ltac:(lia)) Hp) as Hcol.
  rewrite Z.mul_0_r, Z.add_0_r, Z.sub_0_r, <- Hpages in Hcol.
  destruct (collect_batches _ _ _) as [records|]; cbn [mbind option_bind] in E.
  2:{ injection E as <- <-. split; [|done]. by intros (_&_&_&_&_&?). }
  destruct Hcol as (Hread&Hrp&Hrecs).
  assert (NoDup (rec_page <$> records)) as Hnd by (rewrite Hrp; apply NoDup_range_pages).
  destruct (take_out_spec m space rest records Hok Hnd Hrecs)
    as (frames&removals&m1&m2&space2&Hfr&Hplan&E1&E2&Hok2&Hu2&Hroot2&Hmem&Hleaf&Hcount). rewrite Hfr in E. cbn [mbind option_bind fst snd] in E.
  rewrite Hplan in E. cbn [mbind option_bind] in E. rewrite E1, E2 in E. cbn [negb] in E.
  destruct (each_batch _ _ (m2, space2)) as [ok s3] eqn:E3.
  apply (clean_batches rest) in E3 as (->&Hst&Hv&Hfc); [|lia|done|done]. injection E as <- <-.
  split_and!; [lia|done|done|lia|lia|done| | |].
  - etrans; [|exact Hst]. intros _. by split_and!.
  - intros x. rewrite Hv, Hpages. apply filter_view; [lia|done|done|]. rewrite Hleaf, Hrp, unmap_range_pages; [by rewrite Z2Nat.id by lia| |done].
    pose proof Hok as [_ _ _ [[Hpt _] _]%Forall_cons]. intros p [[f fl] Hl]. by destruct (leaves_spec _ Hpt _ _ Hl) as (_&?&_).
  - cbn [snd] in Hfc. assert (zlen records = pages); [|lia]. unfold zlen.
    rewrite <- (length_fmap rec_page records), Hrp. unfold range_pages. rewrite length_fmap, length_seq. lia.
Qed.

(** C25: unmapping anonymous memory is a transaction. A request is granted
    exactly when it names whole mapped pages of the process's own arena; then
    the range is gone from the memory the process sees, nothing else changes,
    and at least the frames of the range go back to the allocator. A refused
    request changes nothing at all. The caller is never killed, although the
    code provides for it, and no other process and no kernel memory is
    affected. *)
Theorem munmap_is_transactional ptr len mmap_next m spaces i space :
  reachable m spaces → spaces !! i = Some space → 0 <= ptr → 0 <= len → mmap_next <= USER_MMAP_LIMIT →
  let '(o, (m', space')) := munmap ptr len mmap_next (m, space) in
  machine_ok m' (space' :: delete i spaces) ∧ undisturbed (delete i spaces) m m' ∧
  (o = Returned true ∧ munmap_ok ptr len mmap_next (m, space) ∧
   (∀ x, view (m', space') x = if decide (ptr <= x < ptr + len) then None else view (m, space) x) ∧
   frame_count space' + len / 4096 <= frame_count space ∨
   o = Returned false ∧ ¬ munmap_ok ptr len mmap_next (m, space) ∧ (m', space') = (m, space)).
Proof.
  intros Hr Hi Hptr Hlen Hlim. pose proof (reachable_space _ _ _ _ Hr Hi) as Hok.
  destruct (munmap _ _ _ _) as [o [m' space']] eqn:E.
  apply (munmap_spec _ _ _ (delete i spaces)) in E; [|done|done|done|done].
  destruct o as [[]|]; [| |done].
  - destruct E as (?&Hst&?&?). destruct (Hst Hok) as (?&?&_). split_and!; [done|done|by left].
  - destruct E as (?&[= -> ->]). split_and!; [done|apply undisturbed_refl|by right].
Qed.
End vm.

(** ** A small process *)

Module UnmapSample.
#[local] Existing Instance sim_addr.
#[local] Existing Instance sim_addr_spec.
#[local] Existing Instance sim_x86.
#[local] Existing Instance PagingSafety.Sample.sample_spec.
#[local] Existing Instance PagingSafety.Sample.sample_map.
#[local] Existing Instance PagingSafety.Sample.sample_heap.

(** Six pages of the arena, of which five are unmapped in two chunks. *)
Definition ops : list PagingOp :=
  [NewSpace; NewSpace]
  ++ ((λ i, OnSpace 1 (MapPage (USER_MMAP_BASE + 4096 * Z.of_nat i) Sample.rw)) <$> seq 0 6).
Definition ready := run_ops (Sample.machine, []) ops.
Definition process : AddressSpace := default (mk_space 0 []) (ready.2 !! 1%nat).
Definition next : Z := USER_MMAP_BASE + 0x6000.
Definition unmapped := munmap (USER_MMAP_BASE + 0x1000) 0x5000 next (ready.1, process).

Example munmap_runs :
  unmapped.1 = Returned true ∧ view unmapped.2 (USER_MMAP_BASE + 0x1000) = None ∧
  (snd <$> view unmapped.2 USER_MMAP_BASE) = Some Sample.rw ∧
  (munmap USER_MMAP_BASE 0x7000 (next + 0x1000) (ready.1, process)).1 = Returned false ∧
  (munmap USER_MMAP_BASE 0x1001 next (ready.1, process)).1 = Returned false.
Proof. split_and!; vm_compute; reflexivity. Qed.

Lemma munmap_is_transactional_witness :
  unmapped.1 = Returned true ∧
  let '(o, (m', space')) := munmap (USER_MMAP_BASE + 0x1000) 0x5000 next (ready.1, process) in
  machine_ok m' (space' :: delete 1%nat ready.2) ∧ undisturbed (delete 1%nat ready.2) ready.1 m' ∧
  (o = Returned true ∧ munmap_ok (USER_MMAP_BASE + 0x1000) 0x5000 next (ready.1, process) ∧
   (∀ x, view (m', space') x =
      if decide (USER_MMAP_BASE + 0x1000 <= x < USER_MMAP_BASE + 0x1000 + 0x5000) then None else view (ready.1, process) x) ∧
   frame_count space' + 0x5000 / 4096 <= frame_count process ∨
   o = Returned false ∧ ¬ munmap_ok (USER_MMAP_BASE + 0x1000) 0x5000 next (ready.1, process) ∧
   (m', space') = (ready.1, process)).
Proof.
  split; [vm_compute; reflexivity|].
  apply (munmap_is_transactional (USER_MMAP_BASE + 0x1000) 0x5000 next ready.1 ready.2 1 process);
    [|vm_compute; reflexivity|vm_compute; discriminate|lia|vm_compute; discriminate].
  apply Sample.sample_reaches. by apply (bool_decide_eq_true_1 (Forall paging_op_ok ops)); vm_compute.
Defined.
End UnmapSample.
