(* ===== verification/TaskInv.v ===== *)
(** Rules for the kernel's invariant: what changes of the task table, of a
    task and of the machine preserve it. With them, every operation of the
    kernel on its tasks, as an event, keeps it, and none of them panics. *)

From S2P Require Import Prelude Str Fs Vfs X86 Frames Paging PagingSpaces PagingRange PagingCopy PagingSafety Elf Wake Scheduler SchedulerInv OpenFiles Process Vm VmSafety VmUnmap.

(** ** Processes *)

(** The arena pointer is page aligned and within the arena. *)
Definition arena_ok (p : ProcessState) : Prop :=
  mmap_next p mod 4096 = 0 ∧ USER_MMAP_BASE <= mmap_next p <= USER_MMAP_LIMIT.

(** The working directory is a normalized path. *)
Definition process_ok (p : ProcessState) : Prop := files_ok p ∧ arena_ok p ∧ canonical (cwd p).
Definition task_ok (t : Tcb) : Prop := ∀ p, tcb_process t = Some p → process_ok p.

Lemma process_ok_space p sp : process_ok p → process_ok (set_space sp p).
Proof. intros [[? ? ? ?] ?]. split; [by constructor|done]. Qed.

Lemma process_ok_exit p code : process_ok p → process_ok (set_exit_code code p).
Proof. intros [[? ? ? ?] ?]. split; [by constructor|done]. Qed.

Lemma task_ok_kept t u : task_ok t → kept_process t u → task_ok u.
Proof.
  intros Ht [sp E] p Hp. rewrite E in Hp. destruct (tcb_process t) as [q|] eqn:Eq; [|done]. injection Hp as <-.
  apply process_ok_space. by apply Ht.
Qed.

Lemma task_ok_same t u : task_ok t → tcb_process u = tcb_process t → task_ok u.
Proof. intros Ht E p Hp. apply Ht. congruence. Qed.

Section inv.
Context {PT : Type} `{!BootMap, !KernelFrames, !X86Addr, !X86AddrSpec, !X86_64 PT, !X86_64Spec PT USER_REGION_PML4_INDEX}.
Implicit Types (k : Kernel PT) (m : Machine PT).

(** ** The invariant *)

Record kernel_inv k (l : list Tcb) (c : Tcb) (r : list Tcb) : Prop := {
  inv_kernel : kernel_ok k l c r;
  inv_tasks : Forall task_ok (c :: r ++ l);
  inv_slice : 0 <= ticks_since_switch (wake k) <= TIME_SLICE_TICKS
}.

(** The task [id] waits, ready, as the [i]-th in scan order. *)
Definition ready_at (id : Z) (ts : list Tcb) (i : nat) : Prop :=
  ∃ t, ts !! i = Some t ∧ tcb_id t = id ∧ is_ready t = true.

(** A bound on the timer interrupts before the [i]-th task in scan order runs. *)
Definition distance k (i : nat) : Z := 6 * Z.of_nat i + (TIME_SLICE_TICKS - ticks_since_switch (wake k)).

(** How one step moves a waiting task [id]: without a foreground request, it
    gets the processor or its distance drops by [d]. *)
Definition moves (id : Z) (d : Z) k (scan : list Tcb) k' (c' : Tcb) (scan' : list Tcb) : Prop :=
  ∀ i, foreground_wake_id (wake k) = 0 → ready_at id scan i →
    foreground_wake_id (wake k') = 0 ∧
    (tcb_id c' = id ∨ ∃ i', ready_at id scan' i' ∧ distance k' i' + d <= distance k i).

Lemma Forall_scan (P : Tcb → Prop) l c r : Forall P (c :: r ++ l) ↔ P c ∧ Forall P (r ++ l).
Proof. apply Forall_cons. Qed.

(** Filtering can only bring a task forward. *)
Lemma ready_at_filter (f : Tcb → bool) id ts i : (∀ t, is_ready t = true → f t = true) →
  ready_at id ts i → ∃ i', (i' ≤ i)%nat ∧ ready_at id (List.filter f ts) i'.
Proof.
  intros Hf (t&Ht&Hid&Hr). apply list_elem_of_split_length in Ht as (a&b&->&->).
  exists (length (List.filter f a)). split.
  - clear. induction a as [|x a IH]; simpl; [done|]. destruct (f x); simpl; lia.
  - exists t. rewrite filter_app_bool. cbn [List.filter]. rewrite Hf by done. by rewrite list_lookup_middle.
Qed.

(** The task the scan finds first, or one behind it. *)
Lemma ready_at_split id a t b i c2 : Forall (λ t, is_ready t = false) a → is_ready t = true →
  ready_at id (a ++ t :: b) i → tcb_id t = id ∨ ∃ i', (S i' ≤ i)%nat ∧ ready_at id (b ++ c2 :: a) i'.
Proof.
  intros Ha Ht (u&Hu&Hid&Hr). rewrite Forall_forall in Ha. destruct (decide (i < length a)%nat).
  { rewrite lookup_app_l in Hu by done. pose proof (Ha u (list_elem_of_lookup_2 _ _ _ Hu)). congruence. }
  rewrite lookup_app_r in Hu by lia. destruct (i - length a)%nat as [|j] eqn:Ej; simpl in Hu.
  - left. congruence.
  - right. exists j. split; [lia|]. exists u. split; [|done]. rewrite lookup_app_l; [done|by eapply lookup_lt_Some].
Qed.

Lemma ready_not_reaped cur now force t : is_ready t = true → keep cur now force t = true.
Proof.
  unfold is_ready, keep, should_reap. intros ->%bool_decide_eq_true. rewrite (bool_decide_eq_false_2 (Ready = Terminated)) by done.
  by rewrite andb_false_r.
Qed.

(** ** The scheduler *)

Lemma inv_schedule rsp k l c r : kernel_inv k l c r →
  ∃ k' l' c' r', schedule rsp k = Some k' ∧ kernel_inv k' l' c' r' ∧ next_id k' = next_id k ∧
    ticks_since_switch (wake k') = ticks_since_switch (wake k) ∧
    (∀ id, moves id 6 k (r ++ l) k' c' (r' ++ l')) ∧
    (∀ i, ready_at (foreground_wake_id (wake k)) (r ++ l) i → foreground_wake_id (wake k) ≠ 0 →
       foreground_wake_id (wake k) ≠ tcb_id c → tcb_id c' = foreground_wake_id (wake k) ∧ foreground_wake_id (wake k') = 0).
Proof.
  intros [Hk Ht Hs]. destruct (schedule_spec rsp k l c r Hk) as (k'&l'&c'&r'&E&Hk'&Hn&_&Hfg&Hts&_&Hcase).
  exists k', l', c', r'. split; [done|]. apply Forall_scan in Ht as [Htc Hto].
  assert (Forall task_ok (waiting k l c r)) as Htw.
  { rewrite Forall_forall in Hto |- *. intros t [Hin _]%elem_of_filter_bool. by apply Hto. }
  split_and!; [|done|done| |].
  - constructor; [done| |by rewrite Hts]. destruct Hcase as [(_&Hp&->&_)|(a&t&b&c2&Ew&_&_&_&->&->&_&Hp&_)].
    + constructor; [by eapply task_ok_same|done].
    + rewrite Ew, Forall_app, Forall_cons in Htw. destruct Htw as (?&?&?). rewrite Forall_cons, Forall_app, Forall_cons.
      split_and!; [by apply (task_ok_same t)|done|by apply (task_ok_kept c)|done].
  - intros id i Hfg0 Hi. split; [by apply Hfg|].
    apply (ready_at_filter (keep (tcb_id c) (ticks k) false)) in Hi as (i1&Hle&Hi); [|intros; by apply ready_not_reaped].
    change (ready_at id (waiting k l c r) i1) in Hi.
    destruct Hcase as [(_&_&_&Hnone&_)|(a&t&b&c2&Ew&Htr&Hfirst&_&->&Escan&_&_&_)].
    + destruct Hi as (t&Hl&_&Hr). rewrite Forall_forall in Hnone. rewrite (Hnone t) in Hr; [done|]. by eapply list_elem_of_lookup_2.
    + rewrite Ew in Hi. apply (ready_at_split _ _ _ _ _ c2) in Hi as [Hid|(i'&Hlt&Hi')]; [by left| |by apply Hfirst|done].
      right. exists i'. rewrite Escan. split; [done|]. unfold distance. rewrite Hts. lia.
  - intros i Hi Hnz Hnc. apply (ready_at_filter (keep (tcb_id c) (ticks k) false)) in Hi as (i1&_&t&Ht&Hid&Hr);
      [|intros; by apply ready_not_reaped]. change (waiting k l c r !! i1 = Some t) in Ht. apply list_elem_of_lookup_2 in Ht.
    destruct Hcase as [(_&_&_&Hnone&_)|(a&t'&b&c2&Ew&_&_&Hwant&->&_&_&_&Hfg0&_)].
    + rewrite Forall_forall in Hnone. rewrite (Hnone t Ht) in Hr. done.
    + split; [|done]. apply Hwant. split_and!; [done|done|]. by exists t.
Qed.

(** A task that keeps its place is no further away. *)
Lemma moves_same id d k k' c' scan scan' :
  foreground_wake_id (wake k') = foreground_wake_id (wake k) →
  ticks_since_switch (wake k) + d <= ticks_since_switch (wake k') →
  (∀ i, ready_at id scan i → ∃ i', (i' ≤ i)%nat ∧ ready_at id scan' i') → moves id d k scan k' c' scan'.
Proof.
  intros Hf Ht Hs i Hfg (i'&Hle&Hi)%Hs. split; [congruence|]. right. exists i'. split; [done|]. unfold distance. lia.
Qed.

Lemma moves_refl id k c scan : moves id 0 k scan k c scan.
Proof. apply moves_same; [done|lia|]. intros i Hi. by exists i. Qed.

(** A step before the scheduler that keeps the scan order. *)
Lemma moves_then_schedule id k1 k2 k3 scan1 scan2 c scan3 :
  foreground_wake_id (wake k2) = foreground_wake_id (wake k1) →
  (∀ i, ready_at id scan1 i → ∃ i', (i' ≤ i)%nat ∧ ready_at id scan2 i') →
  0 <= ticks_since_switch (wake k1) <= TIME_SLICE_TICKS → 0 <= ticks_since_switch (wake k2) →
  moves id 6 k2 scan2 k3 c scan3 → moves id 1 k1 scan1 k3 c scan3.
Proof.
  intros Hf Hs Ht1 Ht2 Hm i Hfg (i2&Hle&Hi)%Hs. destruct (Hm i2) as [? [?|(i'&?&?)]]; [congruence|done|split; [done|by left]|].
  split; [done|]. right. exists i'. split; [done|]. unfold distance, TIME_SLICE_TICKS in *. lia.
Qed.

(** ** Changes to the kernel's parts *)

Lemma inv_wake k l c r w now : kernel_inv k l c r → 0 <= ticks_since_switch w <= TIME_SLICE_TICKS →
  kernel_inv (mk_kernel (scheduler k) (next_id k) w now (mach k) (cr3 k) (rsp0 k)) l c r.
Proof. intros [[Hsc Htab Hcr Hids] Ht _] Hw. constructor; [by constructor|done|done]. Qed.

Lemma inv_next_id k l c r id : kernel_inv k l c r → next_id k <= id → kernel_inv (with_next_id id k) l c r.
Proof.
  intros [[Hsc Htab Hcr Hids] Ht Hs] Hid. constructor; [|done|done]. constructor; [done|done|done|].
  eapply Forall_impl; [exact Hids|]. simpl. lia.
Qed.

Lemma inv_mach k l c r m : kernel_inv k l c r → machine_ok m (spaces_of (l ++ c :: r)) →
  kernel_pml4 m = kernel_pml4 (mach k) → kernel_inv (with_mach m k) l c r.
Proof.
  intros [[Hsc [Hi Hq Hm Hr] Hcr Hids] Ht Hs] Hok Hroot. constructor; [|done|done]. constructor; [done| | |done].
  - constructor; [done|done|done|]. simpl. congruence.
  - simpl. rewrite Hcr. unfold root_of. by rewrite Hroot.
Qed.

(** The current task replaced, its identity and address space kept. *)
Lemma inv_current k l c r sc c' : kernel_inv k l c r → scheduler k = Some sc →
  tcb_id c' = tcb_id c → space_of c' = space_of c → task_ok c' →
  kernel_inv (with_sched (mk_sched (<[current sc := c']> (tasks sc)) (current sc)) k) l c' r.
Proof.
  intros [[(sc'&Hsc&Hsp) Htab Hcr Hids] Ht Hs] E Hid Hspc Hc'. rewrite Hsc in E. injection E as ->.
  apply Forall_scan in Ht as [_ Hto]. constructor; [|by constructor|done]. constructor; cbn [with_sched scheduler mach cr3 next_id].
  - eexists. split; [done|]. split; [by apply split_at_insert with c|by destruct Hsp].
  - by apply (table_ok_current _ c).
  - rewrite Hcr. unfold root_of. by rewrite Hspc.
  - eapply ids_sub; [exact Hids|]. intros x [->|Hx]%elem_of_cons; [rewrite Hid; simpl; set_solver|].
    simpl. right. by apply list_elem_of_fmap_2.
Qed.

(** The current task replaced by one with a changed address space. *)
Lemma inv_current_space k l c r sc c' m sp sp' : kernel_inv k l c r → scheduler k = Some sc →
  tcb_id c' = tcb_id c → space_of c = Some sp → space_of c' = Some sp' → task_ok c' →
  machine_ok m (sp' :: spaces_of (l ++ r)) → kernel_pml4 m = kernel_pml4 (mach k) → pml4_frame sp' = pml4_frame sp →
  kernel_inv (with_sched (mk_sched (<[current sc := c']> (tasks sc)) (current sc)) (with_mach m k)) l c' r.
Proof.
  intros [[(sc'&Hsc&Hsp) [Hi Hq Hm Hr] Hcr Hids] Ht Hs] E Hid Hspc Hspc' Hc' Hok Hroot Hf. rewrite Hsc in E. injection E as ->.
  apply Forall_scan in Ht as [_ Hto]. constructor; [|by constructor|done]. constructor; cbn [with_sched with_mach scheduler mach cr3 next_id].
  - eexists. split; [done|]. split; [by apply split_at_insert with c|by destruct Hsp].
  - constructor; [|done| |congruence].
    + revert Hi. by rewrite !ids_app; simpl; rewrite Hid.
    + eapply machine_ok_perm; [|exact Hok]. rewrite !spaces_of_app. simpl. rewrite Hspc'. by rewrite Permutation_middle.
  - rewrite Hcr. unfold root_of. rewrite Hspc, Hspc'. done.
  - eapply ids_sub; [exact Hids|]. intros x [->|Hx]%elem_of_cons; [rewrite Hid; simpl; set_solver|].
    simpl. right. by apply list_elem_of_fmap_2.
Qed.

(** The table is the current task and the others. *)
Lemma scan_perm (l r : list Tcb) c : l ++ c :: r ≡ₚ c :: r ++ l.
Proof. rewrite <- Permutation_middle. by rewrite (Permutation_app_comm l r). Qed.

(** A task other than the current one, by its place in the table. *)
Lemma other_update (l r : list Tcb) c i t t' : (l ++ c :: r) !! i = Some t → i ≠ length l →
  ∃ l' r' a b, <[i := t']> (l ++ c :: r) = l' ++ c :: r' ∧ length l' = length l ∧
    r ++ l = a ++ t :: b ∧ r' ++ l' = a ++ t' :: b.
Proof.
  intros Hi Hne. destruct (decide (i < length l)%nat) as [Hl|Hl].
  - rewrite lookup_app_l in Hi by done. apply list_elem_of_split_length in Hi as (l1&l2&->&->).
    exists (l1 ++ t' :: l2), r, (r ++ l1), l2. rewrite insert_app_l by done.
    rewrite insert_app_r_alt, Nat.sub_diag by done. rewrite !length_app, <- !app_assoc. done.
  - rewrite lookup_app_r in Hi by lia. rewrite insert_app_r_alt by lia.
    destruct (i - length l)%nat as [|j] eqn:Ej; [lia|]. simpl in Hi.
    apply list_elem_of_split_length in Hi as (r1&r2&->&->).
    exists l, (r1 ++ t' :: r2), r1, (r2 ++ l).
    change (<[S (length r1) := t']> (c :: r1 ++ t :: r2)) with (c :: <[length r1 := t']> (r1 ++ t :: r2)).
    rewrite insert_app_r_alt, Nat.sub_diag by done. rewrite <- !app_assoc. done.
Qed.

(** Another task replaced, its identity kept; what it no longer owns has been freed. *)
Lemma inv_other k l c r sc i t t' m : kernel_inv k l c r → scheduler k = Some sc →
  tasks sc !! i = Some t → i ≠ current sc → tcb_id t' = tcb_id t → quiet t' → task_ok t' →
  (∀ a b, r ++ l = a ++ t :: b → machine_ok m (spaces_of (c :: a ++ t' :: b))) → kernel_pml4 m = kernel_pml4 (mach k) →
  ∃ l' r' a b, kernel_inv (with_mach m (with_sched (mk_sched (<[i := t']> (tasks sc)) (current sc)) k)) l' c r' ∧
    r ++ l = a ++ t :: b ∧ r' ++ l' = a ++ t' :: b.
Proof.
  intros [[(sc'&Hsc&[Hts Hcur]) [Hi Hq Hm Hr] Hcr Hids] Ht Hs] E Hlook Hne Hid Hq' Hok' Hmach Hroot.
  rewrite Hsc in E. injection E as ->. rewrite Hts in Hlook |- *. rewrite Hcur in Hne.
  destruct (other_update l r c i t t' Hlook Hne) as (l'&r'&a&b&Hins&Hlen&Eo&En). exists l', r', a, b. split; [|done].
  assert (∀ P, Forall P (ids (l ++ c :: r)) ↔ Forall P (ids (l' ++ c :: r'))) as Hfids.
  { intros P. unfold ids. rewrite (scan_perm l r), (scan_perm l' r'), Eo, En.
    simpl. by rewrite !fmap_app, !fmap_cons, Hid. }
  rewrite Forall_scan in Ht. destruct Ht as [Htc Hto]. rewrite Eo in Hto, Hq. rewrite !Forall_app, !Forall_cons in Hto, Hq.
  constructor; [|rewrite En, Forall_cons, Forall_app, Forall_cons; tauto|done].
  constructor; cbn [with_sched with_mach scheduler mach cr3 next_id].
  - eexists. split; [done|]. split; [done|]. cbn [current]. congruence.
  - constructor; [|rewrite En, Forall_app, Forall_cons; tauto| |congruence].
    + revert Hi. unfold ids. rewrite (scan_perm l r), (scan_perm l' r'), Eo, En.
      simpl. by rewrite !fmap_app, !fmap_cons, Hid.
    + eapply machine_ok_perm; [|by apply Hmach]. unfold spaces_of. by rewrite (scan_perm l' r'), En.
  - rewrite Hcr. unfold root_of. by rewrite Hroot.
  - by apply Hfids.
Qed.

(** A new task at the end of the table. *)
Lemma inv_push k l c r sc t m : kernel_inv k l c r → scheduler k = Some sc →
  tcb_id t = next_id k → 0 < next_id k → quiet t → task_ok t →
  machine_ok m (spaces_of (t :: l ++ c :: r)) → kernel_pml4 m = kernel_pml4 (mach k) →
  kernel_inv (with_sched (mk_sched (tasks sc ++ [t]) (current sc)) (with_mach m (with_next_id (next_id k + 1) k))) l c (r ++ [t]).
Proof.
  intros [[(sc'&Hsc&[Hts Hcur]) [Hi Hq Hm Hr] Hcr Hids] Ht Hs] E Hid Hpos Hq' Hok' Hmach Hroot.
  rewrite Hsc in E. injection E as ->.
  constructor; [|rewrite !Forall_cons, !Forall_app in *; rewrite Forall_singleton; tauto|done].
  assert (l ++ c :: r ++ [t] ≡ₚ t :: l ++ c :: r) as Hpl by solve_Permutation.
  assert (ids (l ++ c :: r ++ [t]) ≡ₚ next_id k :: ids (l ++ c :: r)) as Hp.
  { rewrite <- Hid. change (tcb_id t :: ids (l ++ c :: r)) with (ids (t :: l ++ c :: r)). unfold ids. by rewrite Hpl. }
  constructor; cbn [with_sched with_mach with_next_id scheduler mach cr3 next_id].
  - eexists. split; [done|]. split; cbn [tasks current]; [rewrite Hts; by rewrite <- app_assoc|done].
  - constructor; [|rewrite !Forall_app in *; rewrite Forall_singleton; tauto| |congruence].
    + rewrite Hp. apply NoDup_cons. split; [|done]. intros Hin. rewrite Forall_forall in Hids. specialize (Hids _ Hin). lia.
    + eapply machine_ok_perm; [|exact Hmach]. unfold spaces_of. by rewrite Hpl.
  - rewrite Hcr. unfold root_of. by rewrite Hroot.
  - rewrite Hp. constructor; [lia|]. eapply Forall_impl; [exact Hids|]. simpl. lia.
Qed.
End inv.

(** ** The kernel's operations on its tasks, as events *)

Section steps.
Context {PT : Type} `{!BootMap, !KernelFrames, !X86Addr, !X86AddrSpec, !X86_64 PT, !X86_64Spec PT USER_REGION_PML4_INDEX}.
Implicit Types (k : Kernel PT) (m : Machine PT) (rest : list AddressSpace).

(** ** Creating a user process *)

Lemma stack_pages : Forall user_page (page_addrs stack_bottom stack_top).
Proof.
  assert (stack_bottom mod 4096 = 0 ∧ stack_top mod 4096 = 0 ∧ USER_SPACE_BASE <= stack_bottom ∧
    stack_bottom <= stack_top ∧ stack_top <= user_end) as (?&?&?&?&?) by (split_and!; vm_compute; congruence).
  apply Forall_forall. intros p [? ?]%elem_of_page_addrs; [|done..]. split; [done|lia].
Qed.

Lemma load_steps bytes rest : respects (steps rest) (load bytes).
Proof.
  intros s r s' E. unfold load, mbind, M_bind, mlift in E. destruct (validate bytes) as [[entry headers]|e] eqn:Ev.
  2:{ by injection E as <- <-. }
  apply validate_ok in Ev as (_&_&Hh). destruct (load_segments bytes headers s) as [r' s1] eqn:El.
  pose proof (load_segments_steps bytes headers rest Hh _ _ _ El) as Hst. by destruct r'; injection E as <- <-.
Qed.

Lemma build_user_space_steps bytes rest : respects (steps rest) (build_user_space bytes).
Proof.
  unfold build_user_space. apply respects_bind; [apply _|apply load_steps|intros entry].
  apply respects_bind; [apply _|apply map_pages_steps, stack_pages|intros _].
  apply respects_bind; [apply _|by apply zero_steps|intros _]. apply respects_ret. apply _.
Qed.

Lemma new_process_ok space entry top cwd : canonical cwd → process_ok (mk_process (Some space) entry top None USER_MMAP_BASE cwd [] 0).
Proof. intros. split; [by constructor|]. split; [|done]. split; [done|]. by vm_compute. Qed.

(** Building a task keeps the other spaces; on success the new space is one
    more, on failure it is gone again. *)
Lemma build_user_tcb_spec bytes name cwd stack space k rest :
  machine_ok (mach k) (space :: rest) → canonical cwd → next_id k < u32_max → 0 < next_id k →
  match build_user_tcb bytes name cwd stack space k with
  | (Ok t, k') => ∃ m space', k' = with_next_id (next_id k + 1) (with_mach m k) ∧
      machine_ok m (space' :: rest) ∧ kernel_pml4 m = kernel_pml4 (mach k) ∧
      space_of t = Some space' ∧ tcb_id t = next_id k ∧ task_ok t
  | (Err _, k') => ∃ m, k' = with_mach m k ∧ machine_ok m rest ∧ kernel_pml4 m = kernel_pml4 (mach k)
  end.
Proof.
  intros Hok Hcwd Hn Hpos. unfold build_user_tcb. destruct (build_user_space bytes (mach k, space)) as [r [m space']] eqn:E.
  destruct (build_user_space_steps bytes rest _ _ _ E Hok) as (Hok'&(_&_&Hroot)&_). cbn [fst snd] in Hok', Hroot.
  destruct r as [entry|e].
  - exists m, space'. split; [|split_and!; [done|done|done|done|]].
    + unfold wrapping_add. by rewrite Z.mod_small by lia.
    + intros p [= <-]. by apply new_process_ok.
  - exists (free_address_space space' m). split_and!; [done|by apply free_address_space_spec|].
    rewrite <- Hroot. apply (free_opt_root (Some space')).
Qed.

Lemma inv_spawn_user name bytes cwd st stack k l c r : kernel_inv k l c r → canonical cwd → st ≠ Running → st ≠ Terminated →
  0 < next_id k < u32_max →
  ∃ new, kernel_inv (spawn_user_process_with_state name bytes cwd st stack k).2 l c (r ++ new) ∧ (length new ≤ 1)%nat ∧
    wake (spawn_user_process_with_state name bytes cwd st stack k).2 = wake k ∧
    next_id k <= next_id (spawn_user_process_with_state name bytes cwd st stack k).2 <= next_id k + 1.
Proof.
  intros Hinv Hcwd Hst1 Hst2 [Hpos Hn]. unfold spawn_user_process_with_state.
  destruct (MAX_TASKS <=? task_count k); [exists []; rewrite app_nil_r; split_and!; [done|simpl; lia|done|simpl; lia..]|].
  pose proof Hinv as [[(sc&Hsc&Hsp) Htab _ _] _ _]. pose proof Htab as [_ _ Hm _].
  pose proof (new_address_space_spec (mach k) _ Hm) as Hnew. destruct (new_address_space (mach k)) as [[space|e] m].
  2:{ exists []. rewrite app_nil_r. subst m. split_and!; [by apply inv_mach|simpl; lia|done|simpl; lia..]. }
  destruct Hnew as (Hok&_&_&Hfr).
  pose proof (build_user_tcb_spec bytes name cwd stack space (with_mach m k) _ Hok Hcwd Hn Hpos) as Hb.
  destruct (build_user_tcb _ _ _ _ _ _) as [[t|e] k1].
  2:{ destruct Hb as (m'&->&Hok'&Hroot). exists []. rewrite app_nil_r. split_and!; [|simpl; lia|done|simpl; lia..]. apply (inv_mach k); [done|done|].
      rewrite Hroot. simpl. apply (fr_root _ _ _ Hfr). }
  destruct Hb as (m'&space'&->&Hok'&Hroot&Hspt&Hid&Htok). simpl in Hroot. rewrite (fr_root _ _ _ Hfr) in Hroot.
  cbn [with_mach with_next_id scheduler]. rewrite Hsc.
  destruct (MAX_TASKS <=? zlen (tasks sc)).
  - exists []. rewrite app_nil_r. split_and!; [|simpl; lia|done|simpl; lia..]. unfold reclaim_unstarted_process. unfold set_state, space_of. cbn [tcb_process].
    fold (space_of t). rewrite Hspt. cbn [free_opt mach with_next_id with_mach snd].
    apply (inv_mach (with_next_id (next_id k + 1) k)); [apply inv_next_id; [done|lia]|by apply free_address_space_spec|].
    etrans; [apply (free_opt_root (Some space'))|done].
  - exists [set_state st t]. split_and!; [|simpl; lia|done|simpl; lia..].
    apply (inv_push k l c r sc (set_state st t) m'); [done|done|done|done|by split|done| |done].
    unfold spaces_of. cbn [omap list_omap]. change (space_of (set_state st t)) with (space_of t). by rewrite Hspt.
Qed.
End steps.
