(* ===== verification/TaskSafety.v ===== *)
(** The kernel as a state machine over its events: it never panics, keeps its
    invariant in every interleaving, and gives every ready task the processor. *)

From S2P Require Import Prelude Str Fs Vfs X86 Frames Paging PagingSpaces PagingRange PagingCopy PagingSafety Elf Wake Scheduler SchedulerInv OpenFiles Process Vm VmSafety VmUnmap TaskInv.

(** What can happen: interrupts, the scheduler's entry points, and the calls
    the current task makes. [rsp] is the stack pointer a switch saves. *)
Inductive Event :=
| TimerInterrupt (rsp : Z)
| InputArrived (id : Z)
| YieldNow (rsp : Z)
| SleepTicks (n rsp : Z)
| ExitWith (code rsp : Z)
| Kill (id : Z)
| ReapNow
| Spawn (name : str) (stack : Z)
| SpawnUser (name elf cwd : list byte) (suspended : bool) (stack : Z)
| Activate (id : Z)
| FileCall (op : FileOp)
| ChangeDirectory (dir : str)
| CopyToUser (addr : Z) (data : list byte)
| Mmap (len : Z) (writable : bool) (fail_after rsp : Z)
| Munmap (ptr len rsp : Z).

Definition event_ok (e : Event) : Prop :=
  match e with
  | FileCall op => file_op_ok op
  | SpawnUser _ _ cwd _ _ => canonical cwd
  | ChangeDirectory dir => canonical dir
  | Mmap len _ _ _ => 0 <= len
  | Munmap ptr len _ => 0 <= ptr ∧ 0 <= len
  | _ => True
  end.

Section safety.
Context {PT : Type} `{!BootMap, !KernelFrames, !X86Addr, !X86_64 PT}.
Implicit Types (k : Kernel PT).

Definition file_call (op : FileOp) k : Kernel PT :=
  match op with
  | OpenFileOp data => (open_file_for_current_process data k).2
  | PeekOp _ _ => k
  | AdvanceOp h n => (advance_file_for_current_process h n k).2
  | SeekOp h off => (seek_file_for_current_process h off k).2
  | CloseOp h => (close_file_for_current_process h k).2
  end.

(** [None]: the kernel panics. *)
Definition kernel_step (e : Event) k : option (Kernel PT) :=
  match e with
  | TimerInterrupt rsp => timer_interrupt rsp k
  | InputArrived id => Some (with_wake (request_foreground_wake id (wake k)) k)
  | YieldNow rsp => yield_now rsp k
  | SleepTicks n rsp => sleep_ticks n rsp k
  | ExitWith code rsp => exit_with_code code rsp k
  | Kill id => snd <$> kill id k
  | ReapNow => reap_now k
  | Spawn name stack => snd <$> spawn name stack k
  | SpawnUser name elf cwd suspended stack =>
      Some (if suspended : bool then spawn_user_process_suspended name elf cwd stack k
            else spawn_user_process_with_cwd name elf cwd stack k).2
  | Activate id => Some (activate_task id k).2
  | FileCall op => Some (file_call op k)
  | ChangeDirectory dir => Some (set_current_working_directory dir k).2
  | CopyToUser addr data => Some (copy_to_current_user addr data k).2
  | Mmap len writable fail_after rsp => snd <$> mmap_in_current_process len writable fail_after rsp k
  | Munmap ptr len rsp => snd <$> munmap_in_current_process ptr len rsp k
  end.

Definition run_events (es : list Event) k : option (Kernel PT) :=
  foldl (λ o e, k ← o; kernel_step e k) (Some k) es.

(** The statics before [init], on the machine the memory set-up leaves. *)
Definition unstarted (m : Machine PT) : Kernel PT :=
  mk_kernel None 3 {| foreground_wake_id := 0; ticks_since_switch := 0 |} 0 m (page_containing (kernel_pml4 m)) 0.

(** Events that do not redirect the processor or end [id]. *)
Definition spares (id : Z) (e : Event) : bool :=
  match e with
  | InputArrived _ => false
  | Kill j => negb (j =? id)
  | _ => true
  end.

Definition is_timer (e : Event) : bool := match e with TimerInterrupt _ => true | _ => false end.
Definition is_spawn (e : Event) : bool := match e with Spawn _ _ | SpawnUser _ _ _ _ _ => true | _ => false end.

(** By how much an event brings a waiting task nearer: a tick by one, and a new
    task may go first, for a whole time slice. *)
Definition progress (e : Event) : Z := if is_timer e then 1 else if is_spawn e then -6 else 0.
End safety.
Arguments unstarted {PT _} m.

Section proofs.
Context {PT : Type} `{!BootMap, !KernelFrames, !X86Addr, !X86AddrSpec, !X86_64 PT, !X86_64Spec PT USER_REGION_PML4_INDEX}.
Implicit Types (k : Kernel PT) (m : Machine PT).

(** One step of the kernel from the invariant. *)
Definition steps_to (e : Event) k (scan : list Tcb) (r : option (Kernel PT)) : Prop :=
  ∃ k' l' c' r', r = Some k' ∧ kernel_inv k' l' c' r' ∧ next_id k <= next_id k' <= next_id k + 1 ∧
    ∀ id, spares id e = true → moves id (progress e) k scan k' c' (r' ++ l').

Lemma moves_weaken id d d' k scan k' c' scan' : d' <= d → moves id d k scan k' c' scan' → moves id d' k scan k' c' scan'.
Proof.
  intros Hd Hm i Hfg Hi. destruct (Hm i Hfg Hi) as [? [?|(i'&?&?)]]; (split; [done|]); [by left|right].
  exists i'. split; [done|lia].
Qed.

(** A step that ends in a call of the scheduler. *)
Lemma schedule_step e rsp k k1 l c r l1 c1 r1 : kernel_inv k l c r → kernel_inv k1 l1 c1 r1 → next_id k1 = next_id k →
  foreground_wake_id (wake k1) = foreground_wake_id (wake k) →
  (∀ id i, ready_at id (r ++ l) i → ∃ i', (i' ≤ i)%nat ∧ ready_at id (r1 ++ l1) i') →
  steps_to e k (r ++ l) (schedule rsp k1).
Proof.
  intros [_ _ Hs0] Hinv Hn Hf Hready. pose proof Hinv as [_ _ Hs1].
  destruct (inv_schedule rsp k1 l1 c1 r1 Hinv) as (k'&l'&c'&r'&E&Hinv'&Hn'&_&Hm&_).
  exists k', l', c', r'. split_and!; [done|done|lia|lia|]. intros id _.
  apply (moves_weaken id 1); [by destruct e|].
  eapply moves_then_schedule; [exact Hf|apply Hready|done|lia|apply Hm].
Qed.

(** A step that changes only the current task and the machine. *)
Lemma local_step e k k' (l r : list Tcb) c' : kernel_inv k' l c' r → next_id k <= next_id k' <= next_id k + 1 →
  wake k' = wake k → progress e = 0 → steps_to e k (r ++ l) (Some k').
Proof.
  intros Hinv Hn Hw He. exists k', l, c', r. split_and!; [done|done|lia|lia|]. intros id _. rewrite He.
  apply moves_same; [by rewrite Hw|rewrite Hw; lia|]. intros i Hi. by exists i.
Qed.

Lemma ready_refl id ts i : ready_at id ts i → ∃ i', (i' ≤ i)%nat ∧ ready_at id ts i'.
Proof. intros Hi. by exists i. Qed.

(** ** Each event *)

(** The scheduler's state, from the invariant. *)
Lemma inv_sched k l c r : kernel_inv k l c r →
  ∃ sc, scheduler k = Some sc ∧ split_at sc l c r ∧ tasks sc !! current sc = Some c.
Proof. intros [[(sc&?&Hsp) _ _ _] _ _]. exists sc. split_and!; [done|done|]. by eapply split_at_current. Qed.

Lemma wake_due_facts now t :
  tcb_id (wake_due now t) = tcb_id t ∧ tcb_process (wake_due now t) = tcb_process t ∧
  (quiet t → quiet (wake_due now t)) ∧ (is_ready t = true → wake_due now t = t).
Proof.
  unfold wake_due, quiet, is_ready. destruct (tcb_state t) eqn:E; simpl; rewrite ?E; simpl;
    repeat (destruct (_ && _)); simpl; rewrite ?E; naive_solver.
Qed.

Lemma spaces_of_cons t ts : spaces_of (t :: ts) = option_list (space_of t) ++ spaces_of ts.
Proof. unfold spaces_of. simpl. by destruct (space_of t). Qed.

Lemma inv_wake_due now k l c r sc : kernel_inv k l c r → scheduler k = Some sc →
  kernel_inv (with_sched (mk_sched (wake_due now <$> tasks sc) (current sc)) k)
    (wake_due now <$> l) (wake_due now c) (wake_due now <$> r).
Proof.
  intros [[(sc'&Hsc&[Hts Hcur]) [Hi Hq Hm Hr] Hcr Hids] Ht Hs] E. rewrite Hsc in E. injection E as ->.
  assert (∀ ts, ids (wake_due now <$> ts) = ids ts) as Hid.
  { intros ts. unfold ids. rewrite <- list_fmap_compose. apply list_fmap_ext. intros _ t _. apply wake_due_facts. }
  assert (∀ ts, spaces_of (wake_due now <$> ts) = spaces_of ts) as Hsp.
  { induction ts as [|t ts IH]; [done|]. rewrite fmap_cons, !spaces_of_cons, IH.
    unfold space_of. by rewrite (proj1 (proj2 (wake_due_facts now t))). }
  constructor; [| |done].
  - constructor; cbn [with_sched scheduler mach cr3 next_id]; rewrite <- ?fmap_cons, <- ?fmap_app.
    + eexists. split; [done|]. split; cbn [tasks current]; [by rewrite Hts, fmap_app, fmap_cons|by rewrite length_fmap].
    + constructor; rewrite <- ?fmap_cons, <- ?fmap_app; [by rewrite Hid| |by rewrite Hsp|done].
      rewrite Forall_fmap. eapply Forall_impl; [exact Hq|]. intros t. apply wake_due_facts.
    + rewrite Hcr. unfold root_of, space_of. by rewrite (proj1 (proj2 (wake_due_facts now c))).
    + by rewrite Hid.
  - rewrite <- fmap_app, <- fmap_cons, Forall_fmap. eapply Forall_impl; [exact Ht|].
    intros t Htok. apply (task_ok_same t); [done|]. apply wake_due_facts.
Qed.

Lemma ready_at_wake_due now id ts i : ready_at id ts i → ready_at id (wake_due now <$> ts) i.
Proof.
  intros (t&Ht&Hid&Hr). exists t. split_and!; [|done|done]. rewrite list_lookup_fmap, Ht. simpl. f_equal. by apply wake_due_facts.
Qed.

Lemma timer_step rsp k l c r : kernel_inv k l c r → steps_to (TimerInterrupt rsp) k (r ++ l) (timer_interrupt rsp k).
Proof.
  intros Hinv. pose proof Hinv as [_ _ Hs]. destruct (inv_sched k l c r Hinv) as (sc&Hsc&_&_).
  unfold timer_interrupt, on_timer_tick. set (now := wrapping_add u64_max (ticks k) 1).
  cbn [scheduler]. rewrite Hsc. cbn [ticks].
  pose proof (inv_wake_due now k l c r sc Hinv Hsc) as Hinv1. set (sc1 := mk_sched _ _) in *.
  cbn [with_sched wake with_wake set_ticks_since ticks_since_switch next_id mach cr3 rsp0 scheduler].
  set (since := wrapping_add u64_max (ticks_since_switch (wake k)) 1).
  assert (since = ticks_since_switch (wake k) + 1) as Hsince
    by (unfold since, wrapping_add, TIME_SLICE_TICKS, u64_max in *; rewrite Z.mod_small by lia; lia).
  cbn [foreground_wake_id]. destruct (Z.leb_spec TIME_SLICE_TICKS since).
  - apply (schedule_step _ rsp k _ l c r (wake_due now <$> l) (wake_due now c) (wake_due now <$> r)); [done| |done|done|].
    + by apply (inv_wake (with_sched sc1 k)).
    + intros id i Hi. exists i. split; [done|]. rewrite <- fmap_app. by apply ready_at_wake_due.
  - eexists _, (wake_due now <$> l), (wake_due now c), (wake_due now <$> r). split; [reflexivity|]. split_and!.
    + apply (inv_wake (with_sched sc1 k)); [done|]. simpl. unfold TIME_SLICE_TICKS in *. lia.
    + simpl; lia.
    + simpl; lia.
    + intros id _. apply moves_same; [done|unfold progress; simpl; lia|]. intros i Hi. exists i. split; [done|].
      rewrite <- fmap_app. by apply ready_at_wake_due.
Qed.

Lemma yield_step rsp k l c r : kernel_inv k l c r → steps_to (YieldNow rsp) k (r ++ l) (yield_now rsp k).
Proof.
  intros Hinv. apply (schedule_step _ rsp k _ l c r l c r); [done| |done|done|intros; by apply ready_refl].
  by apply (inv_wake k).
Qed.

Lemma sleep_step n rsp k l c r : kernel_inv k l c r → steps_to (SleepTicks n rsp) k (r ++ l) (sleep_ticks n rsp k).
Proof.
  intros Hinv. destruct (inv_sched k l c r Hinv) as (sc&Hsc&_&Hc). unfold sleep_ticks, update_current. rewrite Hsc, Hc.
  cbn [mbind option_bind]. eapply (schedule_step _ rsp k _ l c r l _ r); [done| |done|done|intros; by apply ready_refl].
  apply (inv_current k l c r sc); [done|done|done|done|]. destruct Hinv as [_ [Htc _]%Forall_scan _]. exact Htc.
Qed.

Lemma terminate_process code now t :
  let t' := set_process (set_exit_code code <$> tcb_process (terminate now t)) (terminate now t) in
  tcb_id t' = tcb_id t ∧ space_of t' = space_of t ∧ (task_ok t → task_ok t').
Proof.
  split_and!; [done|unfold space_of; simpl; by destruct (tcb_process t)|].
  intros Ht p. simpl. destruct (tcb_process t) as [q|] eqn:E; [|done]. intros [= <-]. apply process_ok_exit. by apply Ht.
Qed.

Lemma exit_step e code rsp k0 k l c0 c r : kernel_inv k0 l c0 r → kernel_inv k l c r → next_id k = next_id k0 → wake k = wake k0 →
  steps_to e k0 (r ++ l) (exit_with_code code rsp k).
Proof.
  intros Hinv0 Hinv Hn Hw. destruct (inv_sched k l c r Hinv) as (sc&Hsc&_&Hc). unfold exit_with_code, update_current. rewrite Hsc, Hc.
  cbn [mbind option_bind]. destruct (terminate_process code (ticks k) c) as (Hid&Hsp&Htok).
  eapply (schedule_step _ rsp k0 _ l c0 r l _ r); [done| |done|by rewrite <- Hw|intros; by apply ready_refl].
  apply (inv_current k l c r sc); [done|done|done|done|]. apply Htok. by destruct Hinv as [_ [Htc _]%Forall_scan _].
Qed.

(** Replacing a task that is not the one waiting keeps its place. *)
Lemma ready_at_replace id a b t t' i : tcb_id t ≠ id ∨ is_ready t = false →
  ready_at id (a ++ t :: b) i → ready_at id (a ++ t' :: b) i.
Proof.
  intros Hne (u&Hu&Hid&Hr). exists u. split; [|done]. destruct (decide (i = length a)) as [->|Hi].
  - rewrite list_lookup_middle in Hu by done. injection Hu as ->. destruct Hne; congruence.
  - destruct (decide (i < length a)%nat); [by rewrite !lookup_app_l in * by done|].
    rewrite !lookup_app_r in * by lia. by destruct (i - length a)%nat eqn:E; [lia|].
Qed.

Lemma same_place k l c r sc i t : kernel_inv k l c r → scheduler k = Some sc →
  tasks sc !! i = Some t → tcb_id t = tcb_id c → i = current sc ∧ t = c.
Proof.
  intros [[(sc'&Hsc&Hsp) [Hi _ _ _] _ _] _ _] E Ht Hid. rewrite Hsc in E. injection E as ->.
  pose proof (split_at_current _ _ _ _ Hsp) as Hc. destruct Hsp as [Hts _]. rewrite <- Hts in Hi.
  assert (i = current sc) as ->.
  { apply (NoDup_lookup _ _ _ (tcb_id c) Hi); unfold ids; rewrite list_lookup_fmap; [by rewrite Ht, <- Hid|by rewrite Hc]. }
  split; [done|congruence].
Qed.

(** A step that replaces one other task. *)
Lemma other_step e k l c r sc i t t' m : kernel_inv k l c r → scheduler k = Some sc →
  tasks sc !! i = Some t → i ≠ current sc → tcb_id t' = tcb_id t → quiet t' → task_ok t' →
  (∀ a b, r ++ l = a ++ t :: b → machine_ok m (spaces_of (c :: a ++ t' :: b))) → kernel_pml4 m = kernel_pml4 (mach k) →
  progress e = 0 → (∀ id, spares id e = true → tcb_id t ≠ id ∨ is_ready t = false) →
  steps_to e k (r ++ l) (Some (with_mach m (with_sched (mk_sched (<[i := t']> (tasks sc)) (current sc)) k))).
Proof.
  intros Hinv Hsc Ht Hne Hid Hq Htok Hm Hroot He Hs.
  destruct (inv_other k l c r sc i t t' m Hinv Hsc Ht Hne Hid Hq Htok Hm Hroot) as (l'&r'&a&b&Hinv'&Eo&En).
  eexists _, l', c, r'. split; [reflexivity|]. split_and!; [done|simpl; lia|simpl; lia|]. intros id Hsp. rewrite He.
  apply moves_same; [done|simpl; lia|]. intros j Hj. exists j. split; [done|]. rewrite En. rewrite Eo in Hj.
  by eapply ready_at_replace; [apply Hs|].
Qed.

Lemma inv_machine_scan k l c r a t b : kernel_inv k l c r → r ++ l = a ++ t :: b →
  machine_ok (mach k) (option_list (space_of t) ++ spaces_of (c :: a ++ b)).
Proof.
  intros [[_ [_ _ Hm _] _ _] _ _] E. eapply machine_ok_perm; [|exact Hm]. rewrite <- spaces_of_cons.
  unfold spaces_of. rewrite (scan_perm l r), E. f_equiv. solve_Permutation.
Qed.

Lemma other_task_ok k l c r sc i t : kernel_inv k l c r → scheduler k = Some sc → tasks sc !! i = Some t → task_ok t.
Proof.
  intros [[(sc'&Hsc&[Hts _]) _ _ _] Ht _] E Hi. rewrite Hsc in E. injection E as ->.
  apply list_elem_of_lookup_2 in Hi. rewrite Hts in Hi. rewrite Forall_forall in Ht. apply Ht. set_solver.
Qed.

Lemma take_space_task_ok t : task_ok t → task_ok (take_space t).2.
Proof.
  intros Ht. apply (task_ok_kept t); [done|]. unfold take_space. destruct (tcb_process t) eqn:E.
  - exists None. by rewrite E.
  - exists None. simpl. by rewrite E.
Qed.

Lemma kill_step id k l c r : kernel_inv k l c r → steps_to (Kill id) k (r ++ l) (snd <$> kill id k).
Proof.
  intros Hinv. destruct (inv_sched k l c r Hinv) as (sc&Hsc&_&Hc). unfold kill.
  destruct (id =? 1); [by apply (local_step _ _ _ l r c); [|simpl; lia|..]|]. rewrite Hsc, Hc. cbn [mbind option_bind].
  destruct (position _ (tasks sc)) as [pos|] eqn:Ep; [|by apply (local_step _ _ _ l r c); [|simpl; lia|..]].
  apply position_Some in Ep as (t&Ht&Hid%Z.eqb_eq&_). rewrite Ht. cbn [mbind option_bind].
  pose proof (other_task_ok _ _ _ _ _ _ _ Hinv Hsc Ht) as Htok.
  destruct (Z.eqb_spec (tcb_id c) id) as [Hcid|Hcid]; cbn [fmap option_fmap option_map snd].
  - destruct (same_place _ _ _ _ _ _ _ Hinv Hsc Ht) as [-> ->]; [congruence|].
    eapply (local_step _ _ _ l r); [|simpl; lia|done|done]. by apply (inv_current k l c r sc).
  - destruct (take_space_facts (terminate (ticks k) t)) as (Hn&Htid&Htsp&Htst).
    destruct (take_space (terminate (ticks k) t)) as [freed t'] eqn:E. cbn [fst snd] in *. change (space_of (terminate (ticks k) t)) with (space_of t) in Htsp. subst freed.
    cbn [fmap option_fmap option_map snd].
    apply (other_step (Kill id) k l c r sc pos t t'); [done|done|done| |done| | | |by rewrite free_opt_root|done|].
    + intros ->. rewrite Hc in Ht. congruence.
    + split; [by rewrite Htst|done].
    + replace t' with (take_space (terminate (ticks k) t)).2 by (by rewrite E). by apply take_space_task_ok.
    + intros a b Eo. pose proof (inv_machine_scan _ _ _ _ _ _ _ Hinv Eo) as Hm.
      assert (spaces_of (c :: a ++ t' :: b) = spaces_of (c :: a ++ b)) as ->
        by (by rewrite !spaces_of_cons, !spaces_of_app, !spaces_of_cons, Hn).
      destruct (space_of t); [by apply free_address_space_spec|done].
    + intros j Hj. left. simpl in Hj. destruct (Z.eqb_spec id j); [done|congruence].
Qed.

Lemma activate_step id k l c r : kernel_inv k l c r → steps_to (Activate id) k (r ++ l) (Some (activate_task id k).2).
Proof.
  intros Hinv. destruct (inv_sched k l c r Hinv) as (sc&Hsc&_&Hc). unfold activate_task. rewrite Hsc.
  destruct (position _ (tasks sc)) as [pos|] eqn:Ep; [|by apply (local_step _ _ _ l r c); [|simpl; lia|..]].
  apply position_Some in Ep as (t&Ht&_&_). rewrite Ht. pose proof (other_task_ok _ _ _ _ _ _ _ Hinv Hsc Ht) as Htok.
  destruct (decide (tcb_state t = Blocked)) as [Hb|Hb]; [rewrite bool_decide_eq_true_2 by done|
    rewrite bool_decide_eq_false_2 by done; by apply (local_step _ _ _ l r c); [|simpl; lia|..]].
  destruct (wake_at_tick t =? 0); cbn [negb orb snd]; [|by apply (local_step _ _ _ l r c); [|simpl; lia|..]].
  destruct (decide (pos = current sc)) as [->|Hne].
  - assert (t = c) as -> by congruence. eapply (local_step _ _ _ l r); [|simpl; lia|done|done]. by apply (inv_current k l c r sc).
  - apply (other_step (Activate id) k l c r sc pos t (set_state Ready t) (mach k)); try done.
    + intros a b Eo. pose proof (inv_machine_scan _ _ _ _ _ _ _ Hinv Eo) as Hm. eapply machine_ok_perm; [|exact Hm].
      rewrite <- spaces_of_cons. change (space_of t) with (space_of (set_state Ready t)).
      change (spaces_of (t :: c :: a ++ b)) with (spaces_of (set_state Ready t :: c :: a ++ b)).
      unfold spaces_of. f_equiv. solve_Permutation.
    + intros j _. right. unfold is_ready. by rewrite Hb.
Qed.

Lemma reap_step k l c r : kernel_inv k l c r → steps_to ReapNow k (r ++ l) (reap_now k).
Proof.
  intros Hinv. destruct (inv_sched k l c r Hinv) as (sc&Hsc&Hsp&_). unfold reap_now. rewrite Hsc.
  pose proof Hinv as [[_ Htab Hcr Hids] Ht Hs]. destruct (reap_spec true (ticks k) sc l c r (mach k) Hsp Htab) as [-> Htab'].
  set (f := keep (tcb_id c) (ticks k) true) in *. cbn [mbind option_bind].
  eexists _, (List.filter f l), c, (List.filter f r). split; [reflexivity|].
  assert (∀ x, x ∈ List.filter f r ++ List.filter f l → x ∈ r ++ l) as Hsub.
  { intros x. rewrite !elem_of_app, !elem_of_filter_bool. tauto. }
  split_and!; [|simpl; lia|simpl; lia|].
  - constructor; [|rewrite Forall_forall in *; intros x [->|Hx%Hsub]%elem_of_cons; apply Ht; set_solver|done].
    constructor; cbn [with_mach with_sched scheduler mach cr3 next_id]; [eexists; done|done|done|].
    eapply ids_sub; [exact Hids|]. intros x [->|Hx%Hsub]%elem_of_cons; [simpl; set_solver|].
    simpl. right. by apply list_elem_of_fmap_2.
  - intros id _. apply moves_same; [done|unfold progress; simpl; lia|]. intros i Hi. rewrite <- filter_app_bool.
    apply ready_at_filter; [|done]. intros t. apply ready_not_reaped.
Qed.

Lemma kernel_next_id k l c r : kernel_inv k l c r → 0 < next_id k.
Proof.
  intros [[_ _ _ Hids] _ _]. rewrite Forall_forall in Hids.
  assert (tcb_id c ∈ ids (l ++ c :: r)) as Hc by (apply list_elem_of_fmap_2; set_solver). specialize (Hids _ Hc). lia.
Qed.

(** A step that adds at most one task, which may go before those left of the
    current one. *)
Lemma grow_step e k k' l c r new : kernel_inv k' l c (r ++ new) → (length new ≤ 1)%nat → wake k' = wake k →
  next_id k <= next_id k' <= next_id k + 1 → progress e = -6 → steps_to e k (r ++ l) (Some k').
Proof.
  intros Hinv Hnew Hw Hn He. exists k', l, c, (r ++ new). split_and!; [done|done|lia|lia|]. intros id _ i Hfg (t&Ht&Hid&Hr).
  split; [by rewrite Hw|]. right. rewrite He. unfold distance. rewrite Hw. destruct (decide (i < length r)%nat) as [Hi|Hi].
  - exists i. split; [|lia]. exists t. rewrite lookup_app_l in Ht by done. by rewrite <- app_assoc, lookup_app_l.
  - exists (i + length new)%nat. split; [|lia]. exists t. rewrite lookup_app_r in Ht by lia. split; [|done].
    rewrite lookup_app_r by (rewrite length_app; lia). rewrite <- Ht. f_equal. rewrite length_app. lia.
Qed.

Lemma spawn_step name stack k l c r : kernel_inv k l c r → next_id k < u32_max →
  steps_to (Spawn name stack) k (r ++ l) (snd <$> spawn name stack k).
Proof.
  intros Hinv Hn. pose proof (kernel_next_id _ _ _ _ Hinv) as Hpos. destruct (inv_sched k l c r Hinv) as (sc&Hsc&_&_).
  unfold spawn. cbn [with_next_id scheduler]. rewrite Hsc. cbn [mbind option_bind fmap option_fmap option_map snd].
  unfold wrapping_add. rewrite Z.mod_small by lia.
  eapply (grow_step _ k _ l c r [new_tcb (next_id k) name stack]); [|simpl; lia|done|simpl; lia|done].
  apply (inv_push k l c r sc (new_tcb (next_id k) name stack) (mach k)); [done|done|done|done|by split|done| |done].
  rewrite spaces_of_cons. by destruct Hinv as [[_ [_ _ Hm _] _ _] _ _].
Qed.

Lemma spawn_user_step name elf cwd suspended stack k l c r : kernel_inv k l c r → canonical cwd → next_id k < u32_max →
  steps_to (SpawnUser name elf cwd suspended stack) k (r ++ l) (kernel_step (SpawnUser name elf cwd suspended stack) k).
Proof.
  intros Hinv Hcwd Hn. pose proof (kernel_next_id _ _ _ _ Hinv) as Hpos.
  destruct (inv_spawn_user name elf cwd (if suspended then Blocked else Ready) stack k l c r) as (new&Hinv'&Hnew&Hw&Hid);
    [done|done|by destruct suspended|by destruct suspended|lia|].
  destruct suspended; by apply (grow_step _ k _ l c r new).
Qed.

(** The calls that change only the current process's record. *)
Lemma inv_on_process {A} (f : ProcessState → option A * ProcessState) k l c r : kernel_inv k l c r →
  (∀ p, process_ok p → process_ok (f p).2 ∧ address_space (f p).2 = address_space p) →
  ∃ c', kernel_inv (on_process f k).2 l c' r ∧ next_id (on_process f k).2 = next_id k ∧ wake (on_process f k).2 = wake k.
Proof.
  intros Hinv Hf. destruct (inv_sched k l c r Hinv) as (sc&Hsc&_&Hc). unfold on_process. rewrite Hsc, Hc.
  destruct (tcb_process c) as [p|] eqn:Ep; [|by exists c].
  pose proof Hinv as [_ [Htc _]%Forall_scan _]. destruct (Hf p (Htc p Ep)) as [Hok Hsp].
  destruct (f p) as [res p']. cbn [snd] in *. exists (set_process (Some p') c). split; [|done].
  apply (inv_current k l c r sc); [done|done|done| |by intros q [= <-]].
  unfold space_of. rewrite Ep. simpl. done.
Qed.

(** A file operation changes the file table only. *)
Lemma run_file_op_files op p : ∃ files bytes, (run_file_op op p).2 = set_files files bytes p.
Proof.
  assert (∃ files bytes, p = set_files files bytes p) as Hrefl
    by (exists (open_files p), (open_file_bytes p); by destruct p).
  destruct op; simpl; unfold open_file, advance_file, seek_file, close_file, set_offset; repeat case_match; simplify_eq/=;
    first [exact Hrefl|by eexists _, _].
Qed.

Lemma file_op_process_ok op p : file_op_ok op → process_ok p →
  process_ok (run_file_op op p).2 ∧ address_space (run_file_op op p).2 = address_space p.
Proof.
  intros Hop [Hf Ha]. pose proof (run_file_op_spec op p Hf Hop) as Hs. destruct (run_file_op_files op p) as (files&bytes&E).
  destruct (run_file_op op p) as [res p']. cbn [snd] in *. subst p'. by destruct Hs as [Hf' _].
Qed.

Lemma file_call_eq op k : ∃ f : ProcessState → option unit * ProcessState,
  file_call op k = match op with PeekOp _ _ => k | _ => (on_process f k).2 end ∧ ∀ p, (f p).2 = (run_file_op op p).2.
Proof.
  destruct op as [data|h n|h n|h off|h]; simpl.
  - exists (λ p, (None, (open_file data p).2)). unfold open_file_for_current_process, on_process. split.
    + repeat (case_match; simplify_eq/=; try done).
    + intros p. by destruct (open_file data p).
  - by exists (λ p, (None, p)).
  - exists (advance_file h n). unfold advance_file_for_current_process, on_process_ok. split; [by destruct (on_process _ k)|].
    intros p. by destruct (advance_file h n p).
  - exists (seek_file h off). unfold seek_file_for_current_process, on_process_ok. split; [by destruct (on_process _ k)|].
    intros p. by destruct (seek_file h off p).
  - exists (close_file h). unfold close_file_for_current_process, on_process_ok. split; [by destruct (on_process _ k)|].
    intros p. by destruct (close_file h p).
Qed.

Lemma file_step op k l c r : kernel_inv k l c r → file_op_ok op → steps_to (FileCall op) k (r ++ l) (Some (file_call op k)).
Proof.
  intros Hinv Hop. destruct (file_call_eq op k) as (f&->&Hf).
  destruct (inv_on_process f k l c r Hinv) as (c'&Hinv'&Hn&Hw).
  { intros p Hp. rewrite Hf. by apply file_op_process_ok. }
  destruct op; (eapply (local_step _ k _ l r); [eassumption|simpl in *; lia|done|done]).
Qed.

Lemma chdir_step dir k l c r : kernel_inv k l c r → canonical dir →
  steps_to (ChangeDirectory dir) k (r ++ l) (Some (set_current_working_directory dir k).2).
Proof.
  intros Hinv Hdir. destruct (inv_on_process (λ p, (Some tt, set_cwd dir p)) k l c r Hinv) as (c'&Hinv'&Hn&Hw).
  { intros p [[? ? ? ?] [? _]]. split; [|done]. split; [by constructor|done]. }
  unfold set_current_working_directory, on_process_ok. destruct (on_process _ k) as [res k']. cbn [snd] in *.
  apply (local_step _ k _ l r c'); [done|lia|done|done].
Qed.

(** The current process with its space. *)
Lemma current_space_spec k l c r : kernel_inv k l c r →
  match (p ← current_process k; space ← address_space p; Some (p, space)) with
  | Some (p, space) => tcb_process c = Some p ∧ address_space p = Some space ∧ space_of c = Some space ∧ process_ok p ∧
      machine_ok (mach k) (space :: spaces_of (l ++ r))
  | None => True
  end.
Proof.
  intros Hinv. destruct (inv_sched k l c r Hinv) as (sc&Hsc&_&Hc). unfold current_process. rewrite Hsc. cbn [mbind option_bind].
  rewrite Hc. cbn [mbind option_bind]. destruct (tcb_process c) as [p|] eqn:Ep; [|done]. cbn [mbind option_bind].
  destruct (address_space p) as [space|] eqn:Es; [|done]. cbn [mbind option_bind].
  assert (space_of c = Some space) as Hsp by (unfold space_of; rewrite Ep; done).
  destruct Hinv as [[_ Htab _ _] [Htc _]%Forall_scan _]. split_and!; [done..|by apply Htc|by eapply table_ok_space].
Qed.

Lemma copy_step addr data k l c r : kernel_inv k l c r →
  steps_to (CopyToUser addr data) k (r ++ l) (Some (copy_to_current_user addr data k).2).
Proof.
  intros Hinv. unfold copy_to_current_user. unfold current_space. pose proof (current_space_spec k l c r Hinv) as Hcs.
  destruct (exact_virt_addr addr) as [a|]; cbn [mbind option_bind]; [|by apply (local_step _ _ _ l r c); [|simpl; lia|..]].
  destruct (current_process k) as [p|]; cbn [mbind option_bind] in *; [|by apply (local_step _ _ _ l r c); [|simpl; lia|..]].
  destruct (address_space p) as [space|]; cbn [mbind option_bind] in *; [|by apply (local_step _ _ _ l r c); [|simpl; lia|..]].
  destruct Hcs as (_&_&Hsp&_&Hm).
  pose proof (copy_undisturbed (mach k) space (spaces_of (l ++ r)) a data _ Hm (write_stores data)) as Hc.
  unfold write_bytes_in_address_space. destruct (for_each_mapped_chunk _ _ _ _ _) as [res m]. destruct Hc as [Hm' (_&_&Hroot)].
  apply (local_step _ _ _ l r c); [|simpl; lia|done|done]. apply inv_mach; [done| |done].
  eapply machine_ok_perm; [|exact Hm']. rewrite !spaces_of_app, spaces_of_cons, Hsp. simpl. by rewrite Permutation_middle.
Qed.

(** Putting back the space and the arena pointer of the current process. *)
Lemma inv_store_space s next k l c r p space : kernel_inv k l c r → tcb_process c = Some p → space_of c = Some space →
  process_ok p → steps (spaces_of (l ++ r)) (mach k, space) s → machine_ok (mach k) (space :: spaces_of (l ++ r)) →
  next mod 4096 = 0 ∧ USER_MMAP_BASE <= next <= USER_MMAP_LIMIT →
  (∃ c', kernel_inv (store_space s next k) l c' r) ∧ next_id (store_space s next k) = next_id k ∧ wake (store_space s next k) = wake k.
Proof.
  intros Hinv Hp Hsp (Hf&_&Hcwd) Hst Hm Hnext. destruct (inv_sched k l c r Hinv) as (sc&Hsc&_&Hc).
  destruct (Hst Hm) as (Hm'&(_&_&Hroot)&Hframe). unfold store_space, on_process. cbn [with_mach scheduler]. rewrite Hsc, Hc, Hp.
  cbn [snd]. split; [|done]. eexists. apply (inv_current_space k l c r sc _ _ space s.2); [done|done|done|done|done| |done|done|done].
  intros q [= <-]. split; [by destruct Hf|done].
Qed.

Lemma page_next next len : next mod 4096 = 0 → (next + 4096 * page_count len) mod 4096 = 0.
Proof. intros Hn. rewrite (Z.mul_comm 4096), Z.mod_add by lia. done. Qed.

Lemma killed_call {A} (a : A) (o : option (Kernel PT)) : snd <$> (k ← o; Some (a, k)) = o.
Proof. by destruct o. Qed.

Lemma mmap_step len writable fail_after rsp k l c r : kernel_inv k l c r → 0 <= len →
  steps_to (Mmap len writable fail_after rsp) k (r ++ l) (snd <$> mmap_in_current_process len writable fail_after rsp k).
Proof.
  intros Hinv Hlen. unfold mmap_in_current_process. pose proof (current_space_spec k l c r Hinv) as Hcs.
  destruct (p ← current_process k; _) as [[p space]|]; [|by apply (local_step _ _ _ l r c); [|simpl; lia|..]].
  destruct Hcs as (Hp&_&Hsp&Hok&Hm). pose proof Hok as [_ [[Hal Hb] _]].
  destruct (mmap len writable (mmap_next p) fail_after (mach k, space)) as [[[o next] fa] s] eqn:E.
  apply (mmap_spec _ _ _ _ (spaces_of (l ++ r))) in E as [Hst Ho]; [|done|done|done|done].
  assert (next mod 4096 = 0 ∧ USER_MMAP_BASE <= next <= USER_MMAP_LIMIT) as Hnext.
  { destruct o as [[start|]|]; [|destruct Ho as [-> _]; done|destruct Ho as [-> _]; done].
    destruct Ho as (_&?&->&?&_). split; [by apply page_next|]. assert (0 <= page_count len) by (apply Z.div_pos; lia). lia. }
  destruct (inv_store_space s next k l c r p space Hinv Hp Hsp Hok Hst Hm Hnext) as ((c'&Hinv')&Hn&Hw).
  destruct o as [res|]; cbn [fmap option_fmap option_map].
  - apply (local_step _ _ _ l r c'); [done|simpl; lia|done|done].
  - rewrite killed_call. by apply (exit_step _ _ _ k _ l c c').
Qed.

Lemma munmap_step ptr len rsp k l c r : kernel_inv k l c r → 0 <= ptr → 0 <= len →
  steps_to (Munmap ptr len rsp) k (r ++ l) (snd <$> munmap_in_current_process ptr len rsp k).
Proof.
  intros Hinv Hptr Hlen. unfold munmap_in_current_process. pose proof (current_space_spec k l c r Hinv) as Hcs.
  destruct (p ← current_process k; _) as [[p space]|]; [|by apply (local_step _ _ _ l r c); [|simpl; lia|..]].
  destruct Hcs as (Hp&_&Hsp&Hok&Hm). pose proof Hok as [_ [Hnext _]].
  destruct (munmap ptr len (mmap_next p) (mach k, space)) as [o s] eqn:E.
  apply (munmap_spec _ _ _ (spaces_of (l ++ r))) in E; [|done|done|by destruct Hnext as (_&_&?)|done].
  assert (steps (spaces_of (l ++ r)) (mach k, space) s) as Hst
    by (destruct o as [[]|]; [by destruct E as (_&?&_)|by destruct E as [_ ->]|done]).
  destruct (inv_store_space s (mmap_next p) k l c r p space Hinv Hp Hsp Hok Hst Hm Hnext) as ((c'&Hinv')&Hn&Hw).
  destruct o as [res|]; [|done]. cbn [fmap option_fmap option_map].
  apply (local_step _ _ _ l r c'); [done|simpl; lia|done|done].
Qed.

(** ** All events *)

Lemma kernel_step_inv e k l c r : kernel_inv k l c r → event_ok e → next_id k < u32_max →
  steps_to e k (r ++ l) (kernel_step e k).
Proof.
  intros Hinv He Hn. destruct e; simpl in He |- *.
  - by apply (timer_step rsp k l c r).
  - eexists _, l, c, r. split; [reflexivity|]. split_and!; [|simpl; lia|simpl; lia|done]. by apply (inv_wake k).
  - by apply (yield_step rsp k l c r).
  - by apply (sleep_step n rsp k l c r).
  - by apply (exit_step _ code rsp k k l c c r).
  - by apply (kill_step id k l c r).
  - by apply (reap_step k l c r).
  - by apply (spawn_step name stack k l c r).
  - by apply (spawn_user_step name elf cwd suspended stack k l c r).
  - by apply (activate_step id k l c r).
  - by apply (file_step op k l c r).
  - by apply (chdir_step dir k l c r).
  - by apply (copy_step addr data k l c r).
  - by apply (mmap_step len writable fail_after rsp k l c r).
  - destruct He. by apply (munmap_step ptr len rsp k l c r).
Qed.

Lemma run_events_cons e es k : run_events (e :: es) k = (k ← kernel_step e k; run_events es k).
Proof.
  unfold run_events. simpl. destruct (kernel_step e k) as [k1|]; [done|]. simpl.
  induction es as [|e' es IH]; simpl; [done|exact IH].
Qed.

Lemma run_events_inv es k l c r : kernel_inv k l c r → Forall event_ok es → next_id k + zlen es <= u32_max →
  ∃ k' l' c' r', run_events es k = Some k' ∧ kernel_inv k' l' c' r' ∧ next_id k <= next_id k' <= next_id k + zlen es.
Proof.
  intros Hinv Hes. revert k l c r Hinv. induction Hes as [|e es He _ IH]; intros k l c r Hinv Hn.
  { exists k, l, c, r. split_and!; [done|done|lia|unfold zlen; simpl; lia]. }
  rewrite zlen_cons in Hn. pose proof (zlen_nonneg es).
  destruct (kernel_step_inv e k l c r Hinv He ltac:(lia)) as (k1&l1&c1&r1&E&Hinv1&Hn1&_).
  destruct (IH k1 l1 c1 r1 Hinv1 ltac:(lia)) as (k2&l2&c2&r2&E2&Hinv2&Hn2).
  exists k2, l2, c2, r2. rewrite run_events_cons, E. rewrite zlen_cons. split_and!; [done|done|lia|lia].
Qed.

(** Starting the scheduler establishes the invariant, whatever ticks and
    requests came before. *)
Lemma scheduler_starts k idle heartbeat : scheduler k = None → next_id k = 3 → machine_ok (mach k) [] → kernel_pml4 (mach k) ≠ 0 →
  cr3 k = page_containing (kernel_pml4 (mach k)) → 0 <= ticks_since_switch (wake k) <= TIME_SLICE_TICKS →
  ∃ k' l c r, init idle heartbeat k = Some k' ∧ kernel_inv k' l c r ∧ next_id k' = 4 ∧ zlen (l ++ c :: r) = 3 ∧
    ticks k' = ticks k ∧ wake k' = wake k ∧ mach k' = mach k.
Proof.
  destruct k as [sc n w t m cr rsp]. cbn [scheduler next_id mach cr3 wake]. intros -> -> Hm Hr -> Hw.
  unfold init, spawn. cbn [with_sched with_next_id scheduler next_id mbind option_bind].
  eexists _, [], (mk_tcb 1 (bs "shell") Running 0 0 0 None 0), [new_tcb 2 (bs "idle") idle; new_tcb 3 (bs "heartbeat") heartbeat].
  split; [reflexivity|]. split; [|done]. constructor; [|by repeat constructor|done]. constructor.
  - eexists. split; [reflexivity|done].
  - constructor; [|by repeat constructor|exact Hm|done]. by apply (bool_decide_eq_true_1 (NoDup [1; 2; 3])).
  - done.
  - repeat constructor.
Qed.

Lemma init_inv m idle heartbeat : machine_ok m [] → kernel_pml4 m ≠ 0 →
  ∃ k l c r, init idle heartbeat (unstarted m) = Some k ∧ kernel_inv k l c r ∧ next_id k = 4 ∧ zlen (l ++ c :: r) = 3.
Proof.
  intros Hm Hr. destruct (scheduler_starts (unstarted m) idle heartbeat) as (k&l&c&r&?&?&?&?&_); [done..|].
  by exists k, l, c, r.
Qed.

(** The states the kernel can be in: any run of events after boot. A run is
    short enough not to exhaust the task identifiers. *)
Definition kernel_reachable k : Prop :=
  ∃ m idle heartbeat es k0, booted m ∧ kernel_pml4 m ≠ 0 ∧ Forall event_ok es ∧ zlen es <= u32_max - 4 ∧
    init idle heartbeat (unstarted m) = Some k0 ∧ run_events es k0 = Some k.

Lemma kernel_reachable_inv k : kernel_reachable k → ∃ l c r, kernel_inv k l c r.
Proof.
  intros (m&idle&hb&es&k0&Hb&Hr&Hes&Hlen&E0&E). destruct (init_inv m idle hb (booted_ok _ Hb) Hr) as (k0'&l&c&r&E0'&Hinv&Hn&_).
  rewrite E0 in E0'. injection E0' as <-.
  destruct (run_events_inv es k0 l c r Hinv Hes ltac:(lia)) as (k'&l'&c'&r'&E'&Hinv'&_).
  rewrite E in E'. injection E' as <-. eauto.
Qed.

(** What the kernel promises at all times. *)
Definition kernel_safe k : Prop :=
  ∃ sc c, scheduler k = Some sc ∧ tasks sc !! current sc = Some c ∧
    (** the processor runs the current task on its own address space *)
    cr3 k = root_of (mach k) c ∧
    (** no other task is running, and none that has ended holds memory *)
    (∀ i t, tasks sc !! i = Some t → i ≠ current sc → quiet t) ∧
    (** identifiers are unique *)
    NoDup (ids (tasks sc)) ∧
    (** each frame has one owner; each space owns what it maps *)
    frames_partition (mach k) (spaces_of (tasks sc)) ∧
    machine_ok (mach k) (spaces_of (tasks sc)) ∧
    (** file tables and arenas are within their limits *)
    Forall task_ok (tasks sc).

Lemma machine_ok_partition m spaces : machine_ok m spaces → frames_partition m spaces.
Proof.
  intros [_ _ (al&Ha&Hc) _]. exists al. split; [done|]. split_and!; [by eapply conserves_NoDup|by destruct Hc|].
  rewrite Forall_forall. intros f Hf. destruct (conserves_usable _ _ _ Hc Hf) as (r&Hr'&?).
  exists r. split; [|done]. destruct Hc as [_ _ _ Hmap]. unfold usable_regions in Hr'. by rewrite Hmap in Hr'.
Qed.

Lemma inv_safe k l c r : kernel_inv k l c r → kernel_safe k.
Proof.
  intros Hinv. destruct (inv_sched k l c r Hinv) as (sc&Hsc&[Hts Hcur]&Hc). destruct Hinv as [[_ [Hi Hq Hm Hr] Hcr _] Ht _].
  exists sc, c. rewrite Hts, Hcur in *. split_and!; [done|done|done| |done|by apply machine_ok_partition|done|].
  - intros i t Hti Hne. destruct (other_index l r c i t Hti Hne) as (a&b&E&_). rewrite Forall_forall in Hq.
    apply Hq. rewrite E. set_solver.
  - by rewrite (scan_perm l r).
Qed.

(** C1: whatever happens after boot, in whatever order - timer and input
    interrupts, yields, sleeps, exits, kills, new kernel tasks and processes,
    file calls, mapping and unmapping - the kernel does not panic, the current
    task runs on its own address space, no other task is marked running, ended
    tasks hold no memory, identifiers stay unique, and every physical frame has
    exactly one owner. *)
Theorem kernel_is_safe m idle heartbeat es : booted m → kernel_pml4 m ≠ 0 →
  Forall event_ok es → zlen es <= u32_max - 4 →
  ∃ k0 k, init idle heartbeat (unstarted m) = Some k0 ∧ run_events es k0 = Some k ∧ kernel_safe k.
Proof.
  intros Hb Hr Hes Hlen. destruct (init_inv m idle heartbeat (booted_ok _ Hb) Hr) as (k0&l&c&r&E0&Hinv&Hn&_).
  destruct (run_events_inv es k0 l c r Hinv Hes ltac:(lia)) as (k&l'&c'&r'&E&Hinv'&_).
  exists k0, k. split_and!; [done|done|by eapply inv_safe].
Qed.

(** ** Every ready task runs *)

Definition timers (es : list Event) : Z := zlen (List.filter is_timer es).
Definition spawns_in (es : list Event) : Z := zlen (List.filter is_spawn es).

Lemma distance_nonneg k l c r i : kernel_inv k l c r → 0 <= distance k i.
Proof. intros [_ _ Hs]. unfold distance. lia. Qed.

Lemma run_until id es k l c r i : kernel_inv k l c r → Forall event_ok es → next_id k + zlen es <= u32_max →
  Forall (λ e, spares id e = true) es → foreground_wake_id (wake k) = 0 → ready_at id (r ++ l) i → distance k i + 6 * spawns_in es < timers es →
  ∃ es1 es2 k1, es = es1 ++ es2 ∧ run_events es1 k = Some k1 ∧ current_task_id k1 = Some id.
Proof.
  intros Hinv Hes. revert k l c r i Hinv. induction Hes as [|e es He _ IH]; intros k l c r i Hinv Hn Hsp Hfg Hi Hd.
  { pose proof (distance_nonneg k l c r i Hinv). unfold timers, spawns_in, zlen in Hd. simpl in Hd. lia. }
  apply Forall_cons in Hsp as [Hspe Hsp]. rewrite zlen_cons in Hn. pose proof (zlen_nonneg es).
  destruct (kernel_step_inv e k l c r Hinv He ltac:(lia)) as (k1&l1&c1&r1&E&Hinv1&Hn1&Hm).
  destruct (Hm id Hspe i Hfg Hi) as [Hfg1 [Hid|(i1&Hi1&Hd1)]].
  - exists [e], es, k1. split_and!; [done|by rewrite run_events_cons, E|].
    destruct (inv_sched k1 l1 c1 r1 Hinv1) as (sc1&Hsc1&_&Hc1). unfold current_task_id, current_task. rewrite Hsc1. cbn [mbind option_bind].
    rewrite Hc1. simpl. by rewrite Hid.
  - destruct (IH k1 l1 c1 r1 i1 Hinv1 ltac:(lia) Hsp Hfg1 Hi1) as (es1&es2&k2&->&E2&Hid).
    + unfold timers, spawns_in, progress in *. cbn [List.filter] in Hd. destruct e; cbn [is_timer is_spawn] in *; rewrite ?zlen_cons in Hd; lia.
    + exists (e :: es1), es2, k2. by rewrite run_events_cons, E.
Qed.


(** Input is served at the next tick. When input for a ready task arrives,
    the next timer interrupt gives it the processor, whichever tasks are ahead
    of it and however much of the running time slice is left; the request is
    used up by that. *)
Theorem input_wakes_at_next_tick k id rsp : kernel_reachable k → id ≠ 0 → current_task_id k ≠ Some id →
  (∃ t, (sc ← scheduler k; find_task id sc) = Some t ∧ tcb_state t = Ready) →
  ∃ k', run_events [InputArrived id; TimerInterrupt rsp] k = Some k' ∧ current_task_id k' = Some id ∧
    ticks_since_switch (wake k') = 0 ∧ foreground_wake_id (wake k') = 0.
Proof.
  intros (l&c&r&Hinv)%kernel_reachable_inv Hid0 Hcur (t&Ht&Hready).
  set (k1 := with_wake (request_foreground_wake id (wake k)) k).
  assert (kernel_inv k1 l c r) as Hinv1 by (by apply (inv_wake k)).
  destruct (inv_sched k1 l c r Hinv1) as (sc&Hsc&[Hts Hcp]&Hc).
  assert (tcb_id c ≠ id) as Hcid.
  { intros E. apply Hcur. unfold current_task_id, current_task. change (scheduler k) with (scheduler k1). rewrite Hsc.
    cbn [mbind option_bind]. rewrite Hc. simpl. by rewrite E. }
  change (scheduler k) with (scheduler k1) in Ht. rewrite Hsc in Ht. cbn [mbind option_bind] in Ht.
  apply find_some in Ht as [Hin Hid%Z.eqb_eq]. apply list_elem_of_In in Hin.
  assert (t ∈ r ++ l) as [i Hi]%list_elem_of_lookup by (rewrite Hts in Hin; set_solver).
  assert (ready_at id (r ++ l) i) as Hat by (exists t; split_and!; [done|done|by apply bool_decide_eq_true]).
  set (now := wrapping_add u64_max (ticks k1) 1).
  pose proof (inv_wake_due now k1 l c r sc Hinv1 Hsc) as Hinv2. set (sc2 := mk_sched _ _) in *.
  set (w := Build_Wake id 0).
  pose proof (inv_wake (with_sched sc2 k1) _ _ _ w now Hinv2 ltac:(done)) as Hinv3. set (k3 := mk_kernel _ _ _ _ _ _ _) in Hinv3.
  assert (timer_interrupt rsp k1 = schedule rsp k3) as E
    by (unfold timer_interrupt, on_timer_tick; cbn [scheduler]; by rewrite Hsc).
  destruct (inv_schedule rsp k3 _ _ _ Hinv3) as (k'&l'&c'&r'&E'&Hinv'&_&Hts'&_&Hreq).
  destruct (Hreq i) as [Hidc' Hfg']; [rewrite <- fmap_app; by apply ready_at_wake_due|done| |].
  { simpl. rewrite (proj1 (wake_due_facts now c)). congruence. }
  exists k'. cbn [run_events foldl mbind option_bind kernel_step]. fold k1. rewrite E. split_and!; [done| |by rewrite Hts'|done].
  destruct (inv_sched _ _ _ _ Hinv') as (sc'&Hsc'&_&Hc'). unfold current_task_id, current_task. rewrite Hsc'. cbn [mbind option_bind].
  rewrite Hc'. simpl. by rewrite Hidc'.
Qed.
End proofs.

(** ** A small system *)

Module TaskSample.
#[local] Existing Instance sim_addr.
#[local] Existing Instance sim_addr_spec.
#[local] Existing Instance sim_x86.
#[local] Existing Instance PagingSafety.Sample.sample_spec.
#[local] Existing Instance PagingSafety.Sample.sample_map.
#[local] Existing Instance PagingSafety.Sample.sample_heap.

(** Two processes are started; one maps memory, opens a file, sleeps and is
    killed, the other exits. *)
Definition spawns : list Event :=
  [SpawnUser (bs "one") ElfSample.program (bs "/") false 0x9000; SpawnUser (bs "two") ElfSample.program (bs "/") true 0x12000;
   Activate 5].
Definition events : list Event :=
  spawns ++ [YieldNow 0x100; YieldNow 0x200; YieldNow 0x300; Mmap 5000 true u64_max 0x400; FileCall (OpenFileOp [Byte.x61]);
   SleepTicks 10 0x500; ExitWith 3 0x600; TimerInterrupt 0x700; Kill 4; ReapNow].

Definition start (es : list Event) : option (Kernel sim_pt) :=
  k ← init 0x1000 0x2000 (unstarted Sample.machine); run_events es k.

Example events_run :
  (k ← start events; current_task_id k) = Some 1 ∧ task_count <$> start events = Some 3 ∧
  (k ← start spawns; current_task_id k) = Some 1 ∧ task_count <$> start spawns = Some 5 ∧
  (k ← start (take 7 events); process_frame_count 4 k) = Some 14.
Proof. split_and!; vm_compute; reflexivity. Qed.

Lemma events_ok : Forall event_ok events.
Proof.
  unfold events, spawns. repeat (apply Forall_cons; split); try apply canonical_root; try done; vm_compute; split; congruence.
Qed.

Lemma spawns_ok : Forall event_ok spawns.
Proof. pose proof events_ok as He. unfold events in He. by apply Forall_app in He as [? _]. Qed.

Lemma kernel_is_safe_witness :
  task_count <$> start events = Some 3 ∧
  ∃ k0 k, init 0x1000 0x2000 (unstarted Sample.machine) = Some k0 ∧ run_events events k0 = Some k ∧ kernel_safe k.
Proof.
  split; [vm_compute; reflexivity|]. apply (kernel_is_safe Sample.machine 0x1000 0x2000 events);
    [apply Sample.sample_booted|vm_compute; discriminate|apply events_ok|vm_compute; discriminate].
Defined.

(** The kernel after both processes are ready. *)
Definition ready_kernel : Kernel sim_pt := default (unstarted Sample.machine) (start spawns).

Lemma start_reachable es : Forall event_ok es → zlen es <= u32_max - 4 →
  kernel_reachable (default (unstarted Sample.machine) (start es)).
Proof.
  intros Hes Hlen.
  destruct (init_inv Sample.machine 0x1000 0x2000 (booted_ok _ Sample.sample_booted)) as (k0&l&c&r&E0&Hinv&Hn&_); [done|].
  destruct (run_events_inv es k0 l c r Hinv Hes) as (k&_&_&_&E&_&_); [lia|].
  exists Sample.machine, 0x1000, 0x2000, es, k0. split_and!; [apply Sample.sample_booted|done|done|done|done|].
  unfold start. rewrite E0. cbn [mbind option_bind]. by rewrite E.
Qed.

Lemma ready_kernel_reachable : kernel_reachable ready_kernel.
Proof. apply start_reachable; [apply spawns_ok|by vm_compute]. Qed.

(** Process 5 waits behind the idle task, the heartbeat and process 4. *)
Definition ticks_only : list Event := replicate 30 (TimerInterrupt 0x800).


Lemma input_wakes_at_next_tick_witness :
  current_task_id ready_kernel = Some 1 ∧
  ∃ k', run_events [InputArrived 5; TimerInterrupt 0x900] ready_kernel = Some k' ∧ current_task_id k' = Some 5 ∧
    ticks_since_switch (wake k') = 0 ∧ foreground_wake_id (wake k') = 0.
Proof.
  split; [vm_compute; reflexivity|].
  apply (input_wakes_at_next_tick ready_kernel 5 0x900 ready_kernel_reachable); [done|vm_compute; discriminate|].
  eexists. split; vm_compute; reflexivity.
Defined.
End TaskSample.
