(* ===== verification/Syscall.v ===== *)
(** The system calls of kernel/src/syscall.rs: [dispatch] and the handlers it
    selects, on the whole state a call can reach.

    A handler is a computation that gives up with -1 ([rejected]) or returns
    its value; the lines it logs are not modelled, the text of WRITE is. A call
    that ends its task, by EXIT or because its memory could not be restored,
    does not return: [Killed]. [None] is a panic. Calls run with interrupts
    masked; MMAP, MUNMAP and DISPLAY_PRESENT open them between batches (see
    Vm.v and Display.v). A call that gives the processor away (YIELD) returns to
    its caller when it is scheduled again; its value is the one given here. *)

From S2P Require Import Prelude Str Device TuwaiqTree TuwaiqFs Fs FsPersist Vfs Input X86 Frames Paging Wake Scheduler OpenFiles Process Vm Display.

Definition SYS_EXIT : Z := 0.
Definition SYS_WRITE : Z := 1.
Definition SYS_YIELD : Z := 2.
Definition SYS_GETPID : Z := 3.
Definition SYS_MMAP : Z := 4.
Definition SYS_MUNMAP : Z := 5.
Definition SYS_DISPLAY_INFO : Z := 6.
Definition SYS_DISPLAY_PRESENT : Z := 7.
Definition SYS_INPUT_POLL : Z := 8.
Definition SYS_UPTIME_TICKS : Z := 9.
Definition SYS_CHDIR : Z := 10.
Definition SYS_GETCWD : Z := 11.
Definition SYS_OPEN : Z := 12.
Definition SYS_READ : Z := 13.
Definition SYS_CLOSE : Z := 14.
Definition SYS_SPAWN : Z := 15.
Definition SYS_PUT_FILE : Z := 16.
Definition SYS_REMOVE : Z := 17.
Definition SYS_MKDIR : Z := 18.
Definition SYS_READDIR : Z := 19.
Definition SYS_STAT : Z := 20.
Definition SYS_SEEK : Z := 21.

Definition MAX_WRITE_LEN : Z := 4096.
Definition MAX_FILE_IO_LEN : Z := 4096.
(** vfs.rs *)
Definition MAX_EXECUTABLE_SIZE : Z := MAX_FILE_SIZE.
Definition BUFFER_SPEC_LEN : nat := 16.
Definition STAT_RECORD_LEN : Z := 16.

(** The saved registers. *)
Record SyscallFrame := mk_frame {
  r15 : Z; r14 : Z; r13 : Z; r12 : Z; r11 : Z; r10 : Z; r9 : Z; r8 : Z;
  rbp : Z; rdi : Z; rsi : Z; rdx : Z; rcx : Z; rbx : Z; rax : Z
}.

(** [as i64], [as i32] and [as u64] *)
Definition as_signed (bits z : Z) : Z :=
  let z := z mod 2 ^ bits in if z <? 2 ^ (bits - 1) then z else z - 2 ^ bits.
Definition as_i64 : Z → Z := as_signed 64.
Definition as_i32 : Z → Z := as_signed 32.
Definition as_u64 (z : Z) : Z := z mod 2 ^ 64.

(** What a system call can reach. *)
Record System (PT D : Type) := mk_sys {
  kern : Kernel PT;
  sys_keyboard : Keyboard;
  sys_input : InputQueue;
  vfs : vfs_state D;
  screen : option Screen;
  serial : list byte;
  mmap_fail_after : Z
}.
Arguments mk_sys {PT D}.
Arguments kern {PT D}.
Arguments sys_keyboard {PT D}.
Arguments sys_input {PT D}.
Arguments vfs {PT D}.
Arguments screen {PT D}.
Arguments serial {PT D}.
Arguments mmap_fail_after {PT D}.

Section syscall.
Context {PT D : Type} `{X86Addr} `{!X86_64 PT} `{BlockDevice D}.
Implicit Types (s : System PT D) (k : Kernel PT).

Definition with_kern k s : System PT D := mk_sys k (sys_keyboard s) (sys_input s) (vfs s) (screen s) (serial s) (mmap_fail_after s).
Definition with_sys_input q s : System PT D := mk_sys (kern s) (sys_keyboard s) q (vfs s) (screen s) (serial s) (mmap_fail_after s).
Definition with_vfs v s : System PT D := mk_sys (kern s) (sys_keyboard s) (sys_input s) v (screen s) (serial s) (mmap_fail_after s).
Definition with_screen sc s : System PT D := mk_sys (kern s) (sys_keyboard s) (sys_input s) (vfs s) sc (serial s) (mmap_fail_after s).
Definition with_serial out s : System PT D := mk_sys (kern s) (sys_keyboard s) (sys_input s) (vfs s) (screen s) out (mmap_fail_after s).
Definition with_fail_after n s : System PT D := mk_sys (kern s) (sys_keyboard s) (sys_input s) (vfs s) (screen s) (serial s) n.

(** [let Some(x) = .. else { return -1 }], and the like for conditions *)
Definition require {A} (o : option A) : M (System PT D) A := mlift (ok_or o "rejected").
Definition check (b : bool) : M (System PT D) unit := mensure b "rejected".
Definition ask {A} (f : System PT D → A) : M (System PT D) A := λ s, (Ok (f s), s).
Definition panic {A} : M (System PT D) A := mthrow "panic".

Definition on_kernel {A} (f : Kernel PT → A * Kernel PT) : M (System PT D) A := λ s,
  let '(a, k) := f (kern s) in (Ok a, with_kern k s).
Definition on_vfs {A} (m : M (vfs_state D) A) : M (System PT D) A := λ s,
  let '(r, v) := m (vfs s) in
  (match r with Ok a => Ok a | Err _ => Err "rejected" end, with_vfs v s).

(** The value of a handler, -1 when it gives up. *)
Definition finish (m : M (System PT D) Z) s : option (outcome Z * System PT D) :=
  match m s with
  | (Ok z, s) => Some (Returned z, s)
  | (Err e, s) => if String.eqb e "panic" then None else Some (Returned (-1), s)
  end.

(** ** Processes and memory *)

Definition sys_exit (code rsp : Z) s : option (outcome Z * System PT D) :=
  k ← exit_with_code code rsp (kern s); Some (Killed, with_kern k s).

Definition sys_write (ptr len : Z) : M (System PT D) Z :=
  _ ← check (len <=? MAX_WRITE_LEN);
  o ← ask (λ s, copy_from_current_user ptr (Z.to_nat len) (kern s));
  bytes ← require o;
  let text := if utf8_valid bytes then bytes else bs "<non-utf8 write payload>" in
  _ ← mmodify (λ s, with_serial (serial s ++ text) s);
  mret (zlen bytes).

Definition sys_yield (rsp : Z) s : option (outcome Z * System PT D) :=
  k ← yield_now rsp (kern s); Some (Returned 0, with_kern k s).

Definition sys_getpid : M (System PT D) Z :=
  id ← ask (λ s, current_task_id (kern s)); mret (default (-1) id).

Definition sys_mmap (len writable rsp : Z) s : option (outcome Z * System PT D) :=
  '(o, fail_after, k) ← mmap_in_current_process len (negb (writable =? 0)) (mmap_fail_after s) rsp (kern s);
  Some (match o with
        | Returned (Some addr) => Returned (as_i64 addr)
        | Returned None => Returned (-1)
        | Killed => Killed
        end, with_fail_after fail_after (with_kern k s)).

Definition sys_munmap (ptr len rsp : Z) s : option (outcome Z * System PT D) :=
  '(o, k) ← munmap_in_current_process ptr len rsp (kern s);
  Some (match o with
        | Returned ok => Returned (if ok : bool then 0 else -1)
        | Killed => Killed
        end, with_kern k s).

Definition sys_uptime_ticks : M (System PT D) Z := ask (λ s, as_i64 (Scheduler.ticks (kern s))).

(** ** Display and input *)

Definition sys_display_info (out_ptr out_len : Z) : M (System PT D) Z :=
  o ← ask (λ s, display_info (screen s));
  info ← require o;
  let bytes := display_to_le_bytes info in
  _ ← check (zlen bytes <=? out_len);
  ok ← on_kernel (copy_to_current_user out_ptr bytes);
  _ ← check ok;
  mret 0.

(** The current task owns the foreground. *)
Definition is_foreground : M (System PT D) unit :=
  o ← ask (λ s, current_task_id (kern s));
  caller_pid ← require o;
  owner ← ask (λ s, foreground_process_id (sys_keyboard s));
  check (bool_decide (owner = Some caller_pid)).

Definition sys_display_present (ptr len : Z) : M (System PT D) Z :=
  _ ← is_foreground;
  r ← (λ s, let '(r, sc) := present ptr len (kern s) (screen s) in (Ok r, with_screen sc s));
  _ ← check (is_ok r);
  mret 0.

Definition sys_input_poll (out_ptr out_len : Z) : M (System PT D) Z :=
  _ ← is_foreground;
  _ ← check (ENCODED_EVENT_LEN <=? out_len);
  valid ← ask (λ s, validate_current_user_range out_ptr ENCODED_EVENT_LEN true (kern s));
  _ ← check valid;
  e ← (λ s, let '(e, q) := dequeue (Scheduler.ticks (kern s)) (sys_input s) in (Ok e, with_sys_input q s));
  match e with
  | Some e =>
      ok ← on_kernel (copy_to_current_user out_ptr (Input.to_le_bytes e));
      _ ← check ok;
      mret 1
  | None => mret 0
  end.

(** ** Paths and files *)

Definition copy_user_path (ptr len : Z) : M (System PT D) str :=
  _ ← check (negb ((len =? 0) || (PATH_MAX <? len)));
  o ← ask (λ s, copy_from_current_user ptr (Z.to_nat len) (kern s));
  bytes ← require o;
  _ ← check (utf8_valid bytes);
  mret bytes.

Definition process_cwd : M (System PT D) str :=
  o ← ask (λ s, current_working_directory (kern s)); require o.

Definition sys_chdir (path_ptr path_len : Z) : M (System PT D) Z :=
  path ← copy_user_path path_ptr path_len;
  cwd ← process_cwd;
  target ← on_vfs (mlift (normalize cwd path));
  kind ← on_vfs (Vfs.kind [slash] target);
  _ ← check (bool_decide (kind = NDirectory));
  ok ← on_kernel (set_current_working_directory target);
  _ ← check ok;
  mret 0.

Definition sys_getcwd (out_ptr out_len : Z) : M (System PT D) Z :=
  cwd ← process_cwd;
  _ ← check (zlen cwd <=? out_len);
  ok ← on_kernel (copy_to_current_user out_ptr cwd);
  _ ← check ok;
  mret (zlen cwd).

Definition sys_open (path_ptr path_len : Z) : M (System PT D) Z :=
  path ← copy_user_path path_ptr path_len;
  cwd ← process_cwd;
  bytes ← on_vfs (Vfs.read_file cwd path);
  o ← on_kernel (open_file_for_current_process bytes);
  require o.

Definition sys_read (handle out_ptr out_len : Z) : M (System PT D) Z :=
  _ ← check (handle <=? u32_max);
  _ ← check (out_len <=? MAX_FILE_IO_LEN);
  valid ← ask (λ s, validate_current_user_range out_ptr out_len true (kern s));
  _ ← check valid;
  o ← ask (λ s, peek_file_for_current_process handle out_len (kern s));
  '(data, start, end_) ← require o;
  if (end_ <? start) || (zlen data <? end_) then panic
  else
    let bytes := slice data (Z.to_nat start) (Z.to_nat end_) in
    ok ← (if bool_decide (bytes = []) then mret true else on_kernel (copy_to_current_user out_ptr bytes));
    _ ← check ok;
    ok ← on_kernel (advance_file_for_current_process handle (zlen bytes));
    _ ← check ok;
    mret (zlen bytes).

Definition sys_close (handle : Z) : M (System PT D) Z :=
  _ ← check (handle <=? u32_max);
  ok ← on_kernel (close_file_for_current_process handle);
  _ ← check ok;
  mret 0.

(** [stack] is where the heap puts the child's kernel stack. *)
Definition sys_spawn (path_ptr path_len stack : Z) : M (System PT D) Z :=
  path ← copy_user_path path_ptr path_len;
  cwd ← process_cwd;
  target ← on_vfs (mlift (normalize cwd path));
  bytes ← on_vfs (Vfs.read_file [slash] target);
  _ ← check (negb ((zlen bytes =? 0) || (MAX_EXECUTABLE_SIZE <? zlen bytes)));
  r ← on_kernel (spawn_user_process_with_cwd (basename target) bytes cwd stack);
  match r with Ok id => mret id | Err _ => mthrow "rejected" end.

Definition copy_user_buffer_spec (spec_ptr : Z) : M (System PT D) (Z * Z) :=
  o ← ask (λ s, copy_from_current_user spec_ptr BUFFER_SPEC_LEN (kern s));
  bytes ← require o;
  let pointer := le_decode (take 8 bytes) in
  let length := le_decode (slice bytes 8 16) in
  _ ← check (length <=? MAX_FILE_IO_LEN);
  mret (pointer, length).

(** The pure part: the caller's name and directory are given. *)
Definition private_path (name cwd path : str) (allow_data_root : bool) : option str :=
  match normalize cwd path with
  | Err _ => None
  | Ok target =>
      let root := bs "/data/" ++ name in
      if bool_decide (normalize [slash] root = Ok root) then
        let child := match strip_prefix root target with Some suffix => starts_with [slash] suffix | None => false end in
        if child || allow_data_root && bool_decide (target = root) then Some target else None
      else None
  end.

Definition private_mutation_path (path : str) (allow_data_root : bool) : M (System PT D) str :=
  cwd ← process_cwd;
  o ← ask (λ s, current_process_name (kern s));
  name ← require o;
  require (private_path name cwd path allow_data_root).

Definition sys_put_file (path_ptr path_len spec_ptr : Z) : M (System PT D) Z :=
  path ← copy_user_path path_ptr path_len;
  '(data_ptr, data_len) ← copy_user_buffer_spec spec_ptr;
  o ← ask (λ s, copy_from_current_user data_ptr (Z.to_nat data_len) (kern s));
  bytes ← require o;
  target ← private_mutation_path path false;
  _ ← on_vfs (Vfs.write_file [slash] target bytes);
  mret 0.

Definition sys_remove (path_ptr path_len : Z) : M (System PT D) Z :=
  path ← copy_user_path path_ptr path_len;
  target ← private_mutation_path path false;
  _ ← on_vfs (Vfs.remove [slash] target);
  mret 0.

Definition sys_mkdir (path_ptr path_len : Z) : M (System PT D) Z :=
  path ← copy_user_path path_ptr path_len;
  target ← private_mutation_path path true;
  _ ← on_vfs (Vfs.create_dir [slash] target);
  mret 0.

(** The loop of READDIR: one entry per line, if all fit. *)
Fixpoint encode_entries (out_len : Z) (encoded : list byte) (entries : list str) : option (list byte) :=
  match entries with
  | [] => Some encoded
  | entry :: entries =>
      length ← checked_add u64_max (zlen encoded) (zlen entry);
      required ← checked_add u64_max length 1;
      if out_len <? required then None
      else encode_entries out_len (encoded ++ entry ++ [Byte.x0a]) entries
  end.

Definition sys_readdir (path_ptr path_len spec_ptr : Z) : M (System PT D) Z :=
  path ← copy_user_path path_ptr path_len;
  '(out_ptr, out_len) ← copy_user_buffer_spec spec_ptr;
  valid ← ask (λ s, validate_current_user_range out_ptr out_len true (kern s));
  _ ← check valid;
  cwd ← process_cwd;
  entries ← on_vfs (Vfs.list_dir cwd path);
  encoded ← require (encode_entries out_len [] entries);
  ok ← (if bool_decide (encoded = []) then mret true else on_kernel (copy_to_current_user out_ptr encoded));
  _ ← check ok;
  mret (zlen encoded).

Definition stat_record (m : NodeMetadata) : list byte :=
  le_encode 8 (match node_kind m with NFile => 1 | NDirectory => 2 end) ++ le_encode 8 (node_size m).

Definition sys_stat (path_ptr path_len out_ptr : Z) : M (System PT D) Z :=
  path ← copy_user_path path_ptr path_len;
  valid ← ask (λ s, validate_current_user_range out_ptr STAT_RECORD_LEN true (kern s));
  _ ← check valid;
  cwd ← process_cwd;
  metadata ← on_vfs (Vfs.metadata cwd path);
  ok ← on_kernel (copy_to_current_user out_ptr (stat_record metadata));
  _ ← check ok;
  mret 0.

Definition sys_seek (handle absolute_offset : Z) : M (System PT D) Z :=
  _ ← check (handle <=? u32_max);
  ok ← on_kernel (seek_file_for_current_process handle absolute_offset);
  _ ← check ok;
  mret (as_i64 absolute_offset).

(** ** Dispatch *)

Definition dispatch (rsp stack num a1 a2 a3 : Z) s : option (outcome Z * System PT D) :=
  if num =? SYS_EXIT then sys_exit (as_i32 a1) rsp s
  else if num =? SYS_WRITE then finish (sys_write a1 a2) s
  else if num =? SYS_YIELD then sys_yield rsp s
  else if num =? SYS_GETPID then finish sys_getpid s
  else if num =? SYS_MMAP then sys_mmap a1 a2 rsp s
  else if num =? SYS_MUNMAP then sys_munmap a1 a2 rsp s
  else if num =? SYS_DISPLAY_INFO then finish (sys_display_info a1 a2) s
  else if num =? SYS_DISPLAY_PRESENT then finish (sys_display_present a1 a2) s
  else if num =? SYS_INPUT_POLL then finish (sys_input_poll a1 a2) s
  else if num =? SYS_UPTIME_TICKS then finish sys_uptime_ticks s
  else if num =? SYS_CHDIR then finish (sys_chdir a1 a2) s
  else if num =? SYS_GETCWD then finish (sys_getcwd a1 a2) s
  else if num =? SYS_OPEN then finish (sys_open a1 a2) s
  else if num =? SYS_READ then finish (sys_read a1 a2 a3) s
  else if num =? SYS_CLOSE then finish (sys_close a1) s
  else if num =? SYS_SPAWN then finish (sys_spawn a1 a2 stack) s
  else if num =? SYS_PUT_FILE then finish (sys_put_file a1 a2 a3) s
  else if num =? SYS_REMOVE then finish (sys_remove a1 a2) s
  else if num =? SYS_MKDIR then finish (sys_mkdir a1 a2) s
  else if num =? SYS_READDIR then finish (sys_readdir a1 a2 a3) s
  else if num =? SYS_STAT then finish (sys_stat a1 a2 a3) s
  else if num =? SYS_SEEK then finish (sys_seek a1 a2) s
  else Some (Returned (-1), s).

(** The frame the caller resumes with, if it does. *)
Definition syscall_dispatch (rsp stack : Z) (frame : SyscallFrame) s : option (outcome SyscallFrame * System PT D) :=
  '(o, s) ← dispatch rsp stack (rax frame) (rdi frame) (rsi frame) (rdx frame) s;
  Some (match o with
        | Returned result =>
            Returned (mk_frame (r15 frame) (r14 frame) (r13 frame) (r12 frame) (r11 frame) (r10 frame) (r9 frame) (r8 frame)
                        (rbp frame) (rdi frame) (rsi frame) (rdx frame) (rcx frame) (rbx frame) (as_u64 result))
        | Killed => Killed
        end, s).
End syscall.
