(* ===== verification/SyscallSteps.v ===== *)
(** Every system call is a short run of kernel events (TaskSafety.v), and none
    panics. A handler is followed through its monad: what it may do to the
    kernel is bounded by a number of events. *)

From S2P Require Import Prelude Str Device TuwaiqTree TuwaiqFs Fs FsPersist Vfs Input X86 Frames Paging PagingSpaces PagingRange PagingCopy PagingSafety Wake Scheduler SchedulerInv OpenFiles Process Vm Display VmSafety VmUnmap TaskInv TaskSafety Syscall.

Section steps.
Context {PT D : Type} `{!BootMap, !KernelFrames, !X86Addr, !X86AddrSpec, !X86_64 PT, !X86_64Spec PT USER_REGION_PML4_INDEX} `{BlockDevice D}.
Implicit Types (s : System PT D) (k : Kernel PT).

Definition sound_kernel k : Prop := ∃ l c r, kernel_inv k l c r.

(** At most [n] events lead from [k] to [k']. *)
Definition runs (n : Z) k k' : Prop := ∃ es, Forall event_ok es ∧ zlen es <= n ∧ run_events es k = Some k'.

Lemma run_events_app es1 es2 k : run_events (es1 ++ es2) k = (k ← run_events es1 k; run_events es2 k).
Proof.
  revert k. induction es1 as [|e es1 IH]; intros k; [done|]. cbn [app]. rewrite !run_events_cons.
  destruct (kernel_step e k) as [k1|]; [apply IH|done].
Qed.

Lemma runs_refl k : runs 0 k k.
Proof. by exists []. Qed.

Lemma runs_event e k k' : event_ok e → kernel_step e k = Some k' → runs 1 k k'.
Proof. intros He E. exists [e]. split_and!; [by constructor|done|by rewrite run_events_cons, E]. Qed.

Lemma runs_trans n1 n2 k1 k2 k3 : runs n1 k1 k2 → runs n2 k2 k3 → runs (n1 + n2) k1 k3.
Proof.
  intros (es1&Hok1&L1&E1) (es2&Hok2&L2&E2). exists (es1 ++ es2). rewrite zlen_app, run_events_app, E1.
  split_and!; [by apply Forall_app|lia|done].
Qed.

Lemma runs_mono n n' k k' : n <= n' → runs n k k' → runs n' k k'.
Proof. intros Hn (es&?&?&?). exists es. split_and!; [done|lia|done]. Qed.

Lemma runs_sound n k k' : runs n k k' → sound_kernel k → next_id k + n <= u32_max →
  sound_kernel k' ∧ next_id k' <= next_id k + n.
Proof.
  intros (es&Hes&Hlen&E) (l&c&r&Hinv) Hn. destruct (run_events_inv es k l c r Hinv Hes ltac:(lia)) as (k2&l'&c'&r'&E2&Hinv'&Hn').
  rewrite E in E2. injection E2 as <-. split; [|lia]. by exists l', c', r'.
Qed.

(** A computation that performs at most [n] kernel events and does not panic. *)
Definition calls {A} (n : Z) (m : M (System PT D) A) : Prop :=
  ∀ s, sound_kernel (kern s) → next_id (kern s) + n <= u32_max →
    let '(r, s') := m s in r ≠ Err "panic" ∧ runs n (kern s) (kern s').

Lemma calls_mono {A} n n' (m : M (System PT D) A) : n <= n' → calls n m → calls n' m.
Proof.
  intros Hn Hm s Hs Hid. specialize (Hm s Hs ltac:(lia)). destruct (m s) as [r s']. destruct Hm. split; [done|]. by apply (runs_mono n).
Qed.

Lemma calls_bind {A B} n1 n2 (m : M (System PT D) A) (f : A → M (System PT D) B) :
  0 <= n2 → calls n1 m → (∀ a, calls n2 (f a)) → calls (n1 + n2) (m ≫= f).
Proof.
  intros Hn2 Hm Hf s Hs Hid. specialize (Hm s Hs ltac:(lia)). unfold mbind, M_bind.
  destruct (m s) as [[a|e] s1]; destruct Hm as [Hp Hr].
  - destruct (runs_sound _ _ _ Hr Hs ltac:(lia)) as [Hs1 Hid1]. specialize (Hf a s1 Hs1 ltac:(lia)).
    destruct (f a s1) as [r s2]. destruct Hf as [Hp2 Hr2]. split; [done|by eapply runs_trans].
  - split; [congruence|]. apply (runs_mono n1); [lia|done].
Qed.

(** A step that leaves the kernel alone. *)
Definition local {A} (m : M (System PT D) A) : Prop := ∀ s, let '(r, s') := m s in r ≠ Err "panic" ∧ kern s' = kern s.

Lemma calls_local {A} n (m : M (System PT D) A) : 0 <= n → local m → calls n m.
Proof.
  intros Hn Hm s _ _. specialize (Hm s). destruct (m s) as [r s']. destruct Hm as [? ->]. split; [done|].
  apply (runs_mono 0); [done|apply runs_refl].
Qed.

Lemma calls_bind_local {A B} n (m : M (System PT D) A) (f : A → M (System PT D) B) :
  0 <= n → local m → (∀ a, calls n (f a)) → calls n (m ≫= f).
Proof. intros Hn Hm Hf. change n with (0 + n). apply calls_bind; [done|by apply calls_local|done]. Qed.

Lemma local_bind {A B} (m : M (System PT D) A) (f : A → M (System PT D) B) : local m → (∀ a, local (f a)) → local (m ≫= f).
Proof.
  intros Hm Hf s. specialize (Hm s). unfold mbind, M_bind. destruct (m s) as [[a|e] s1]; destruct Hm as [? E]; [|split; [congruence|done]].
  specialize (Hf a s1). destruct (f a s1). by rewrite <- E.
Qed.

Lemma local_ret {A} (a : A) : local (mret a).
Proof. done. Qed.
Lemma local_require {A} (o : option A) : local (require o).
Proof. intros s. by destruct o. Qed.
Lemma local_check b : local (check b).
Proof. intros s. by destruct b. Qed.
Lemma local_ask {A} (f : System PT D → A) : local (ask f).
Proof. done. Qed.
Lemma local_rejected {A} : local (@mthrow (System PT D) A "rejected").
Proof. done. Qed.
Lemma local_on_vfs {A} (m : M (vfs_state D) A) : local (on_vfs m).
Proof. intros s. unfold on_vfs. destruct (m (vfs s)) as [[a|e] v]; done. Qed.
Lemma local_serial f : local (mmodify (λ s, with_serial (f s) s)).
Proof. done. Qed.

(** A kernel operation that is one event. *)
Lemma calls_on_kernel {A} e (f : Kernel PT → A * Kernel PT) :
  event_ok e → (∀ k, kernel_step e k = Some (f k).2) → calls 1 (on_kernel f).
Proof.
  intros He Hf s _ _. unfold on_kernel. specialize (Hf (kern s)). destruct (f (kern s)) as [a k]. split; [done|].
  by eapply runs_event.
Qed.
End steps.

Create HintDb syscalls discriminated.
#[export] Hint Resolve local_ret local_require local_check local_ask local_rejected local_on_vfs local_serial : syscalls.

(** Follow a handler: steps off the kernel are free. *)
Ltac local_step :=
  first [ solve [auto with syscalls nocore]
        | apply local_bind; [|intros ?]
        | progress cbv beta zeta
        | match goal with |- local (match ?x with _ => _ end) => destruct x end
        | match goal with |- local (if ?x then _ else _) => destruct x end ].
Ltac calls_step :=
  first [ solve [apply calls_local; [lia|repeat local_step]]
        | apply calls_bind_local; [lia|solve [repeat local_step]|intros ?]
        | progress cbv beta zeta
        | match goal with |- calls _ (match ?x with _ => _ end) => destruct x eqn:? end
        | match goal with |- calls _ (if ?x then _ else _) => destruct x eqn:? end ].

Section handlers.
Context {PT D : Type} `{!BootMap, !KernelFrames, !X86Addr, !X86AddrSpec, !X86_64 PT, !X86_64Spec PT USER_REGION_PML4_INDEX} `{BlockDevice D}.
Implicit Types (s : System PT D) (k : Kernel PT).

Lemma local_copy_user_path ptr len : local (copy_user_path ptr len : M (System PT D) _).
Proof. unfold copy_user_path. repeat local_step. Qed.
Lemma local_process_cwd : local (process_cwd : M (System PT D) _).
Proof. unfold process_cwd. repeat local_step. Qed.
Lemma local_is_foreground : local (is_foreground : M (System PT D) _).
Proof. unfold is_foreground. repeat local_step. Qed.
Lemma local_copy_user_buffer_spec ptr : local (copy_user_buffer_spec ptr : M (System PT D) _).
Proof. unfold copy_user_buffer_spec. repeat local_step. Qed.
Lemma local_private_mutation_path path b : local (private_mutation_path path b : M (System PT D) _).
Proof. pose proof local_process_cwd. unfold private_mutation_path. repeat local_step. Qed.
#[local] Hint Resolve local_copy_user_path local_process_cwd local_is_foreground local_copy_user_buffer_spec
  local_private_mutation_path : syscalls.

Lemma calls_copy_out addr data : calls 1 (on_kernel (D := D) (copy_to_current_user addr data)).
Proof. by apply (calls_on_kernel (CopyToUser addr data)). Qed.

Lemma calls_copy_nonempty addr data :
  calls 1 (if bool_decide (data = []) then mret true else on_kernel (D := D) (copy_to_current_user addr data)).
Proof. case_bool_decide; [by apply calls_local|apply calls_copy_out]. Qed.

(** An answer to the caller, then checks. *)
Lemma calls_then_local {A B} (m : M (System PT D) A) (f : A → M (System PT D) B) : calls 1 m → (∀ a, local (f a)) → calls 1 (m ≫= f).
Proof. intros Hm Hf. change 1 with (1 + 0). apply calls_bind; [done|done|]. intros a. by apply calls_local. Qed.

Lemma write_calls ptr len : calls 2 (sys_write (D := D) ptr len).
Proof. unfold sys_write. repeat calls_step. Qed.

Lemma display_info_calls ptr len : calls 2 (sys_display_info (D := D) ptr len).
Proof.
  apply (calls_mono 1); [done|]. unfold sys_display_info. repeat calls_step.
  apply calls_then_local; [apply calls_copy_out|]. intros. repeat local_step.
Qed.

Lemma display_present_calls ptr len : calls 2 (sys_display_present (D := D) ptr len).
Proof.
  apply calls_local; [done|]. unfold sys_display_present. repeat local_step.
  intros s. by destruct (present ptr len (kern s) (screen s)).
Qed.

Lemma input_poll_calls ptr len : calls 2 (sys_input_poll (D := D) ptr len).
Proof.
  apply (calls_mono 1); [done|]. unfold sys_input_poll. repeat calls_step.
  apply calls_bind_local; [done| |]. { intros s. by destruct (dequeue _ (sys_input s)). }
  intros [e|]; [|repeat calls_step]. apply calls_then_local; [apply calls_copy_out|]. intros. repeat local_step.
Qed.

Lemma getcwd_calls ptr len : calls 2 (sys_getcwd (D := D) ptr len).
Proof.
  apply (calls_mono 1); [done|]. unfold sys_getcwd. repeat calls_step.
  apply calls_then_local; [apply calls_copy_out|]. intros. repeat local_step.
Qed.

Lemma open_calls ptr len : calls 2 (sys_open (D := D) ptr len).
Proof.
  apply (calls_mono 1); [done|]. unfold sys_open. repeat calls_step.
  apply calls_then_local; [eapply (calls_on_kernel (FileCall (OpenFileOp _))); done|]. intros. repeat local_step.
Qed.

Lemma close_calls handle : calls 2 (sys_close (D := D) handle).
Proof.
  apply (calls_mono 1); [done|]. unfold sys_close. repeat calls_step.
  apply calls_then_local; [by apply (calls_on_kernel (FileCall (CloseOp handle)))|]. intros. repeat local_step.
Qed.

Lemma seek_calls handle offset : 0 <= offset → calls 2 (sys_seek (D := D) handle offset).
Proof.
  intros Hoff. apply (calls_mono 1); [done|]. unfold sys_seek. repeat calls_step.
  apply calls_then_local; [by apply (calls_on_kernel (FileCall (SeekOp handle offset)))|]. intros. repeat local_step.
Qed.

Lemma put_file_calls ptr len spec : calls 2 (sys_put_file (D := D) ptr len spec).
Proof. unfold sys_put_file. repeat calls_step. Qed.
Lemma remove_calls ptr len : calls 2 (sys_remove (D := D) ptr len).
Proof. unfold sys_remove. repeat calls_step. Qed.
Lemma mkdir_calls ptr len : calls 2 (sys_mkdir (D := D) ptr len).
Proof. unfold sys_mkdir. repeat calls_step. Qed.

Lemma readdir_calls ptr len spec : calls 2 (sys_readdir (D := D) ptr len spec).
Proof.
  apply (calls_mono 1); [done|]. unfold sys_readdir. repeat calls_step.
  apply calls_then_local; [apply calls_copy_nonempty|]. intros. repeat local_step.
Qed.

Lemma stat_calls ptr len out : calls 2 (sys_stat (D := D) ptr len out).
Proof.
  apply (calls_mono 1); [done|]. unfold sys_stat. repeat calls_step.
  apply calls_then_local; [apply calls_copy_out|]. intros. repeat local_step.
Qed.

(** What a step off the kernel returns, whenever it does. *)
Definition returns {A} (m : M (System PT D) A) (P : A → Prop) : Prop :=
  ∀ s a s', sound_kernel (kern s) → m s = (Ok a, s') → P a.

Lemma calls_bind_returns {A B} n (m : M (System PT D) A) (f : A → M (System PT D) B) P :
  0 <= n → local m → returns m P → (∀ a, P a → calls n (f a)) → calls n (m ≫= f).
Proof.
  intros Hn Hm Hp Hf s Hs Hid. specialize (Hm s). specialize (Hp s). unfold mbind, M_bind.
  destruct (m s) as [[a|e] s1]; destruct Hm as [Hpanic E].
  - rewrite <- E in Hs, Hid |- *. apply Hf; [|done|done]. apply (Hp a s1); [by rewrite <- E|done].
  - split; [congruence|]. rewrite E. apply (runs_mono 0); [done|apply runs_refl].
Qed.

(** What the current process has open is within its file. *)
Lemma current_process_ok k p : sound_kernel k → current_process k = Some p → process_ok p.
Proof.
  intros (l&c&r&Hinv). destruct (inv_sched k l c r Hinv) as (sc&Hsc&_&Hc). unfold current_process. rewrite Hsc. cbn [mbind option_bind].
  rewrite Hc. cbn [mbind option_bind]. destruct Hinv as [_ [Htc _]%Forall_scan _]. apply Htc.
Qed.

Lemma current_cwd_canonical k d : sound_kernel k → current_working_directory k = Some d → canonical d.
Proof.
  intros Hk. unfold current_working_directory. destruct (current_process k) as [p|] eqn:Ep; [|done]. cbn [mbind option_bind].
  destruct (_ <? _); [done|]. destruct (utf8_valid _); [|done]. intros [= <-]. by apply (current_process_ok k).
Qed.

Lemma copy_user_path_returns ptr len : returns (copy_user_path ptr len) (λ path, utf8_valid path = true).
Proof.
  intros s path s' _. unfold copy_user_path, mbind, M_bind, check, mensure, ask, require, mlift.
  destruct (ensure _ _); [|done]. destruct (copy_from_current_user _ _ _) as [bytes|]; [|done]. cbn [ok_or].
  destruct (utf8_valid bytes) eqn:E; [|done]. by intros [= <- _].
Qed.

Lemma process_cwd_returns : returns process_cwd canonical.
Proof.
  intros s d s' Hs. unfold process_cwd, mbind, M_bind, ask, require, mlift.
  destruct (current_working_directory (kern s)) as [d'|] eqn:E; [|done]. intros [= <- _]. by apply (current_cwd_canonical (kern s)).
Qed.

Lemma normalize_returns wd path : canonical wd → utf8_valid path = true →
  returns (on_vfs (mlift (normalize wd path))) canonical.
Proof.
  intros Hwd Hu s p s' _. unfold on_vfs, mlift. destruct (normalize wd path) as [q|] eqn:E; [|done]. intros [= <- _].
  by apply (normalize_result_canonical wd path).
Qed.

Lemma chdir_calls ptr len : calls 2 (sys_chdir (D := D) ptr len).
Proof.
  apply (calls_mono 1); [done|]. unfold sys_chdir.
  eapply calls_bind_returns; [done|apply local_copy_user_path|apply copy_user_path_returns|intros path Hpath].
  eapply calls_bind_returns; [done|apply local_process_cwd|apply process_cwd_returns|intros wd Hwd].
  eapply calls_bind_returns; [done|apply local_on_vfs|by apply normalize_returns|intros target Htarget]. repeat calls_step.
  apply calls_then_local; [by apply (calls_on_kernel (ChangeDirectory target))|]. intros. repeat local_step.
Qed.

Lemma spawn_calls ptr len stack : calls 2 (sys_spawn (D := D) ptr len stack).
Proof.
  apply (calls_mono 1); [done|]. unfold sys_spawn. apply calls_bind_local; [done|apply local_copy_user_path|intros path].
  eapply calls_bind_returns; [done|apply local_process_cwd|apply process_cwd_returns|intros wd Hwd]. repeat calls_step.
  apply calls_then_local; [by eapply (calls_on_kernel (SpawnUser _ _ wd false stack))|]. intros. repeat local_step.
Qed.

Lemma peek_bounds k h n data a b : sound_kernel k → 0 <= n <= u32_max →
  peek_file_for_current_process h n k = Some (data, a, b) → 0 <= a <= b ∧ b <= zlen data ∧ b - a <= n.
Proof.
  intros Hk Hn. unfold peek_file_for_current_process. destruct (current_process k) as [p|] eqn:Ep; [|done]. cbn [mbind option_bind].
  intros E. destruct (current_process_ok _ _ Hk Ep) as [Hf _]. pose proof (run_file_op_spec (PeekOp h n) p Hf Hn) as [_ [_ Hs]].
  rewrite E in Hs. destruct (file h p) as [f|] eqn:Ef; [|done]. injection Hs as -> -> ->.
  unfold file in Ef. destruct (index_of h) as [i|]; [|done]. cbn [mbind option_bind] in Ef.
  destruct (file_bounds p i f Hf Ef). lia.
Qed.

(** A value computed from the kernel, with what the invariant says of it. *)
Lemma calls_ask {A B} n (f : System PT D → A) (P : A → Prop) (g : A → M (System PT D) B) :
  (∀ s, sound_kernel (kern s) → P (f s)) → (∀ a, P a → calls n (g a)) → calls n (ask f ≫= g).
Proof. intros Hf Hg s Hs Hn. exact (Hg (f s) (Hf s Hs) s Hs Hn). Qed.

Lemma calls_check {B} n b (f : unit → M (System PT D) B) : 0 <= n → (b = true → calls n (f tt)) → calls n (check b ≫= f).
Proof. intros Hn Hf. destruct b; [by apply Hf|]. by apply (calls_local (A := B)). Qed.

Lemma read_calls handle ptr len : 0 <= len → calls 2 (sys_read (D := D) handle ptr len).
Proof.
  intros Hlen. unfold sys_read. apply calls_check; [done|]. intros _. apply calls_check; [done|]. intros Hmax%Z.leb_le.
  unfold MAX_FILE_IO_LEN in Hmax. do 2 (apply calls_bind_local; [done|by repeat local_step|intros ?]).
  eapply (calls_ask _ _ (λ o, ∀ data a b, o = Some (data, a, b) → 0 <= a <= b ∧ b <= zlen data ∧ b - a <= len)).
  { intros s Hs ? ? ?. apply peek_bounds; [done|unfold u32_max; lia]. }
  intros [[[data x] y]|] Hb; [|by apply calls_local]. destruct (Hb _ _ _ eq_refl) as (Hab&Hbl&Hn).
  match goal with |- calls _ (_ ≫= ?f) => change (calls 2 (f (data, x, y))) end. cbv beta iota.
  rewrite (proj2 (Z.ltb_ge y x)), (proj2 (Z.ltb_ge (zlen data) y)) by lia. cbn [orb].
  set (bytes := slice data (Z.to_nat x) (Z.to_nat y)).
  assert (0 <= zlen bytes <= u32_max) as Hbytes
    by (unfold bytes; rewrite zlen_slice by lia; unfold u32_max; lia).
  change 2 with (1 + 1). apply calls_bind; [done|apply calls_copy_nonempty|]. intros ok.
  apply calls_bind_local; [done|auto with syscalls|]. intros _.
  apply calls_then_local; [by apply (calls_on_kernel (FileCall (AdvanceOp handle (zlen bytes))))|]. intros. repeat local_step.
Qed.

(** A call that returns a value, from its handler. *)
Lemma finish_runs (m : M (System PT D) Z) s : calls 2 m → sound_kernel (kern s) → next_id (kern s) + 2 <= u32_max →
  ∃ o s', finish m s = Some (o, s') ∧ runs 2 (kern s) (kern s').
Proof.
  intros Hm Hs Hn. specialize (Hm s Hs Hn). unfold finish. destruct (m s) as [[z|e] s']; destruct Hm as [Hp Hr]; [by eexists _, _|].
  destruct (String.eqb_spec e "panic") as [->|]; [done|]. by eexists _, _.
Qed.

(** A call that is one event of the kernel. *)
Lemma event_runs e k : sound_kernel k → event_ok e → next_id k < u32_max →
  ∃ k', kernel_step e k = Some k' ∧ runs 2 k k'.
Proof.
  intros (l&c&r&Hinv) He Hn. destruct (kernel_step_inv e k l c r Hinv He Hn) as (k'&_&_&_&E&_).
  exists k'. split; [done|]. apply (runs_mono 1); [done|]. by eapply runs_event.
Qed.

Definition register_value (z : Z) : Prop := 0 <= z < 2 ^ 64.

Lemma dispatch_runs rsp stack num a1 a2 a3 s : sound_kernel (kern s) → next_id (kern s) + 2 <= u32_max →
  register_value a1 → register_value a2 → register_value a3 →
  ∃ o s', dispatch rsp stack num a1 a2 a3 s = Some (o, s') ∧ runs 2 (kern s) (kern s').
Proof.
  intros Hs Hn [Ha1 _] [Ha2 _] [Ha3 _]. unfold dispatch.
  repeat (match goal with |- context [if num =? ?c then _ else _] => destruct (num =? c) end;
    [first [apply finish_runs; [|done|done]; first
        [apply write_calls|apply display_info_calls|apply display_present_calls|apply input_poll_calls|apply chdir_calls
        |apply getcwd_calls|apply open_calls|by apply read_calls|apply close_calls|apply spawn_calls|apply put_file_calls
        |apply remove_calls|apply mkdir_calls|apply readdir_calls|apply stat_calls|by apply seek_calls
        |apply calls_local; [done|unfold sys_getpid, sys_uptime_ticks; repeat local_step]]|idtac]|]).
  - destruct (event_runs (ExitWith (as_i32 a1) rsp) (kern s)) as (k'&E&Hr); [done|done|lia|].
    simpl in E. unfold sys_exit. rewrite E. by eexists _, _.
  - destruct (event_runs (YieldNow rsp) (kern s)) as (k'&E&Hr); [done|done|lia|].
    simpl in E. unfold sys_yield. rewrite E. by eexists _, _.
  - destruct (event_runs (Mmap a1 (negb (a2 =? 0)) (mmap_fail_after s) rsp) (kern s)) as (k'&E&Hr); [done|done|lia|].
    simpl in E. unfold sys_mmap. destruct (mmap_in_current_process _ _ _ _ _) as [[[o fa] k]|]; [|done]. injection E as ->. by eexists _, _.
  - destruct (event_runs (Munmap a1 a2 rsp) (kern s)) as (k'&E&Hr); [done|done|lia|].
    simpl in E. unfold sys_munmap. destruct (munmap_in_current_process _ _ _ _) as [[o k]|]; [|done]. injection E as ->. by eexists _, _.
  - eexists _, _. split; [done|]. apply (runs_mono 0); [done|apply runs_refl].
Qed.
End handlers.
