(* ===== verification/SyscallUser.v ===== *)
(** User memory at system calls: what the current process sees, and what the
    copies in and out of it, and granted requests for pages, do to that. *)

From S2P Require Import Prelude Str Device TuwaiqTree TuwaiqFs Fs FsPersist Vfs Input X86 Frames Paging PagingSpaces PagingRange PagingCopy PagingSafety Wake Scheduler SchedulerInv OpenFiles Process Vm Display VmSafety VmUnmap TaskInv TaskSafety Syscall SyscallSteps.

Section user.
Context {PT : Type} `{!BootMap, !KernelFrames, !X86Addr, !X86AddrSpec, !X86_64 PT, !X86_64Spec PT USER_REGION_PML4_INDEX}.
Implicit Types (k : Kernel PT).

(** The bytes and permissions the current process sees. *)
Definition current_view k (a : Z) : option (byte * PageTableFlags) :=
  space ← current_space k; PagingSafety.view (mach k, space) a.

(** A range of the user region that the current process may read, or write. *)
Definition user_range k (addr len : Z) (writable : bool) : Prop :=
  ∃ space, current_space k = Some space ∧ range_ok space (mach k) addr len writable.

(** [k'] is [k] with [data] at [addr] of the current process. *)
Definition stored (addr : Z) (data : list byte) k k' : Prop :=
  scheduler k' = scheduler k ∧ next_id k' = next_id k ∧ wake k' = wake k ∧ ticks k' = ticks k ∧
  ∀ a, current_view k' a = (λ bf, (overlay addr data a bf.1, bf.2)) <$> current_view k a.

Lemma sound_space k space : sound_kernel k → current_space k = Some space →
  ∃ rest, machine_ok (mach k) (space :: rest).
Proof.
  intros (l&c&r&Hinv) Hs. pose proof (current_space_spec k l c r Hinv) as Hcs. unfold current_space in Hs.
  destruct (current_process k) as [p|]; [|done]. cbn [mbind option_bind] in *. rewrite Hs in Hcs. cbn [mbind option_bind] in Hcs.
  exists (spaces_of (l ++ r)). by destruct Hcs as (_&_&_&_&?).
Qed.

Lemma space_facts k space : sound_kernel k → current_space k = Some space →
  phys_mem_offset (mach k) ≠ 0 ∧ pt_ok (mapper_for (pml4_frame space) (mach k)) ∧ located_injective space (mach k).
Proof.
  intros Hk Hs. destruct (sound_space k space Hk Hs) as [rest Hm]. pose proof Hm as [Ho _ _ [[Hpt _] _]%Forall_cons].
  split_and!; [done|done|by eapply machine_ok_inj].
Qed.

Lemma range_ok_virt space m addr len w : range_ok space m addr len w → exact_virt_addr addr = Some addr.
Proof.
  intros (Hb&_&_). unfold exact_virt_addr. destruct (proj2 (checked_user_virt_addr_Ok addr addr) (conj eq_refl Hb)).
  destruct (user_slot_region addr Hb) as [_ Hlow]. rewrite virt_addr_low by done. cbn [mbind option_bind]. by rewrite Z.eqb_refl.
Qed.

Lemma range_ok_prefix space m addr len n w : 0 <= n <= len → range_ok space m addr len w → range_ok space m addr n w.
Proof. intros Hn (Hb&He&Hall). split_and!; [lia|lia|lia|]. intros a Ha. apply Hall. lia. Qed.

Lemma range_ok_read space m addr len w : range_ok space m addr len w → range_ok space m addr len false.
Proof.
  intros (Hb&He&Hall). split_and!; [lia|lia|lia|]. intros a Ha. destruct (Hall a Ha) as (l&Hl&Hfl). exists l. split; [done|].
  unfold allowed in *. simpl. by apply andb_true_iff in Hfl as [-> _].
Qed.

Lemma user_range_prefix k addr len n w : 0 <= n <= len → user_range k addr len w → user_range k addr n w.
Proof. intros Hn (space&Hs&Hr). exists space. split; [done|]. by eapply range_ok_prefix. Qed.

Lemma validate_spec k addr len w : sound_kernel k → 0 <= len →
  validate_current_user_range addr len w k = true ↔ user_range k addr len w.
Proof.
  intros Hk Hlen. unfold validate_current_user_range, user_range. destruct (current_space k) as [space|] eqn:Es.
  2:{ split; [done|]. by intros (?&?&_). }
  destruct (space_facts k space Hk Es) as (Ho&Hpt&_). pose proof (validate_user_range_spec space addr len w (mach k) Ho Hpt Hlen) as Hv.
  destruct (validate_user_range _ _ _ _ _) as [a|e]; simpl.
  - split; [|done]. intros _. exists space. split; [done|]. apply Hv. eauto.
  - split; [done|]. intros (sp&[= <-]&Hr). apply Hv in Hr as [? ?]. done.
Qed.

Lemma copy_out_spec k addr data : sound_kernel k →
  let '(ok, k') := copy_to_current_user addr data k in
  if ok : bool then user_range k addr (zlen data) true ∧ stored addr data k k'
  else ¬ user_range k addr (zlen data) true ∧ k' = k.
Proof.
  intros Hk. unfold copy_to_current_user. destruct (exact_virt_addr addr) as [a|] eqn:Ea; cbn [mbind option_bind].
  2:{ split; [|done]. intros (space&_&Hr%range_ok_virt). congruence. }
  assert (a = addr) as ->.
  { unfold exact_virt_addr in Ea. destruct (virt_addr_try_new addr) as [b|]; [|done]. cbn [mbind option_bind] in Ea.
    destruct (Z.eqb_spec b addr); [congruence|done]. }
  destruct (current_space k) as [space|] eqn:Es; cbn [mbind option_bind].
  2:{ split; [|done]. intros (?&?&_). congruence. }
  destruct (sound_space k space Hk Es) as [rest Hm]. destruct (space_facts k space Hk Es) as (Ho&Hpt&Hinj).
  pose proof (for_each_mapped_chunk_spec space addr data _ (mach k) Ho Hpt Hinj (write_stores data)) as Hw.
  unfold write_bytes_in_address_space.
  destruct (for_each_mapped_chunk _ _ _ _ _) as [[[]|e] m'] eqn:E; simpl.
  - destruct Hw as [Hr _]. split; [by exists space|]. split_and!; [done..|]. intros x.
    unfold current_view. change (current_space (with_mach m' k)) with (current_space k). rewrite Es. cbn [mbind option_bind with_mach mach].
    eapply copy_view; [exact Hm|apply write_stores|exact E].
  - destruct Hw as [Hr ->]. split; [|by destruct k]. intros (sp&Hsp&?). rewrite Es in Hsp. injection Hsp as <-. done.
Qed.

(** After a validation, the copy cannot fail. *)
Lemma copy_after_validation k addr len data : sound_kernel k → user_range k addr len true → zlen data <= len →
  ∃ k', copy_to_current_user addr data k = (true, k') ∧ stored addr data k k'.
Proof.
  intros Hk Hr Hlen. pose proof (zlen_nonneg data). pose proof (copy_out_spec k addr data Hk) as Hc.
  destruct (copy_to_current_user addr data k) as [[] k']; [exists k'; by destruct Hc|].
  destruct Hc as [[] _]. by apply (user_range_prefix k addr len).
Qed.

Lemma copy_in_spec k addr len : sound_kernel k →
  match copy_from_current_user addr len k with
  | Some bytes => user_range k addr (Z.of_nat len) false ∧ length bytes = len ∧
      ∀ i b, bytes !! i = Some b → fst <$> current_view k (addr + Z.of_nat i) = Some b
  | None => ¬ user_range k addr (Z.of_nat len) false
  end.
Proof.
  intros Hk. unfold copy_from_current_user. destruct (exact_virt_addr addr) as [a|] eqn:Ea; cbn [mbind option_bind].
  2:{ intros (space&_&Hr%range_ok_virt). congruence. }
  assert (a = addr) as ->.
  { unfold exact_virt_addr in Ea. destruct (virt_addr_try_new addr) as [b|]; [|done]. cbn [mbind option_bind] in Ea.
    destruct (Z.eqb_spec b addr); [congruence|done]. }
  destruct (current_space k) as [space|] eqn:Es; cbn [mbind option_bind].
  2:{ intros (?&?&_). congruence. }
  destruct (space_facts k space Hk Es) as (Ho&Hpt&_). pose proof (read_bytes_spec space addr (Z.of_nat len) (mach k) Ho Hpt ltac:(lia)) as Hr.
  destruct (read_bytes_from_address_space_into _ _ _ _) as [bytes|e]; simpl.
  - destruct Hr as (Hr&Hlen&Hb). split; [by exists space|]. split; [unfold zlen in Hlen; lia|]. intros i b Hi.
    pose proof (lookup_lt_Some _ _ _ Hi). unfold zlen in Hlen. specialize (Hb (Z.of_nat i) ltac:(lia)). rewrite Nat2Z.id, Hi in Hb.
    unfold current_view. rewrite Es. cbn [mbind option_bind]. unfold PagingSafety.view. unfold user_byte in Hb. simpl.
    by destruct (located space (mach k) (addr + Z.of_nat i)).
  - intros (sp&?&?). congruence.
Qed.
End user.

(** ** The frame copy in one piece *)

Section present.
Context {PT : Type} `{!BootMap, !KernelFrames, !X86Addr, !X86AddrSpec, !X86_64 PT, !X86_64Spec PT USER_REGION_PML4_INDEX}.
Implicit Types (k : Kernel PT).

(** The bytes a process shows: loads from consecutive addresses. *)
Definition loads k (addr : Z) (n : nat) : list byte := (λ i, user_load k (addr + Z.of_nat i)) <$> seq 0 n.

Lemma length_loads k addr n : length (loads k addr n) = n.
Proof. unfold loads. by rewrite length_fmap, length_seq. Qed.

Lemma loads_app k addr a b : loads k addr (a + b) = loads k addr a ++ loads k (addr + Z.of_nat a) b.
Proof.
  unfold loads. rewrite seq_app, fmap_app. f_equal. replace (0 + a)%nat with (a + 0)%nat by lia.
  rewrite <- fmap_add_seq, <- list_fmap_compose. apply list_fmap_ext. intros i x _. simpl. f_equal. lia.
Qed.

Lemma copy_chunk_loads source copied n k dst : 0 <= copied → 0 <= n → copied + n <= zlen dst →
  take (Z.to_nat copied) dst = loads k source (Z.to_nat copied) →
  let dst' := copy_chunk source copied n k dst in
  zlen dst' = zlen dst ∧ take (Z.to_nat (copied + n)) dst' = loads k source (Z.to_nat (copied + n)).
Proof.
  intros Hc Hn Hle Htake. unfold copy_chunk. change (_ <$> seq 0 (Z.to_nat n)) with (loads k (source + copied) (Z.to_nat n)). cbn zeta.
  assert (zlen (copy_at (Z.to_nat copied) (loads k (source + copied) (Z.to_nat n)) dst) = zlen dst) as Hlen.
  { unfold zlen in *. rewrite length_copy_at; [done|]. rewrite length_loads. lia. }
  split; [done|]. unfold copy_at, zlen in *. rewrite app_assoc, take_app_length'.
  - rewrite Htake, Z2Nat.inj_add, loads_app by lia. by rewrite Z2Nat.id by lia.
  - rewrite length_app, length_take, length_loads. lia.
Qed.

(** The batched copy is a copy. *)
Lemma batched_copy_spec fuel source len copied k dst : 0 <= copied <= len → len = zlen dst →
  len - copied <= PRESENT_COPY_CHUNK * Z.of_nat fuel →
  take (Z.to_nat copied) dst = loads k source (Z.to_nat copied) →
  copy_framebuffer_bytes_batched fuel source len copied k dst = loads k source (Z.to_nat len).
Proof.
  unfold PRESENT_COPY_CHUNK. revert copied dst. induction fuel as [|fuel IH]; intros copied dst Hc Hlen Hfuel Htake; cbn [copy_framebuffer_bytes_batched].
  - assert (copied = len) as -> by lia. rewrite <- Htake, Hlen. unfold zlen. by rewrite Nat2Z.id, firstn_all.
  - destruct (Z.ltb_spec copied len).
    + unfold PRESENT_COPY_CHUNK. set (n := Z.min _ _).
      destruct (copy_chunk_loads source copied n k dst) as [Hl Ht]; [lia|lia|lia|done|]. apply IH; [lia|by rewrite Hl|lia|done].
    + assert (copied = len) as -> by lia. rewrite <- Htake, Hlen. unfold zlen. by rewrite Nat2Z.id, firstn_all.
Qed.

Lemma chunk_fuel_enough len : 0 <= len → len - 0 <= PRESENT_COPY_CHUNK * Z.of_nat (chunk_fuel len).
Proof. unfold chunk_fuel, PRESENT_COPY_CHUNK. intros. pose proof (Z.div_mod len (64 * 1024)). pose proof (Z.mod_pos_bound len (64 * 1024)). pose proof (Z.div_pos len (64 * 1024)). lia. Qed.

(** In a readable range, loads give what the process sees. *)
Lemma loads_view k addr len i : sound_kernel k → user_range k addr len false → 0 <= i < len →
  fst <$> current_view k (addr + i) = Some (user_load k (addr + i)).
Proof.
  intros Hk (space&Es&(Hb&He&Hall)) Hi. destruct (space_facts k space Hk Es) as (Ho&Hpt&_).
  unfold current_view, user_load. rewrite Es. cbn [mbind option_bind]. rewrite translate_located by (done || lia).
  destruct (Hall (addr + i)) as (l&Hl&_); [lia|]. unfold PagingSafety.view. simpl. by rewrite Hl.
Qed.
End present.

(** ** Anonymous memory of the current process *)

Section anonymous.
Context {PT : Type} `{!BootMap, !KernelFrames, !X86Addr, !X86AddrSpec, !X86_64 PT, !X86_64Spec PT USER_REGION_PML4_INDEX}.
Implicit Types (k : Kernel PT).

(** Where the arena of the current process ends. *)
Definition current_arena k : option Z := mmap_next <$> current_process k.

Lemma store_space_current s next k p : current_process k = Some p →
  current_process (store_space s next k) = Some (set_mmap_next next (set_space (Some s.2) p)) ∧ mach (store_space s next k) = s.1.
Proof.
  unfold store_space, on_process, current_process. cbn [with_mach scheduler]. destruct (scheduler k) as [sc|] eqn:Hsc; [|done]. cbn [mbind option_bind].
  destruct (tasks sc !! current sc) as [t|] eqn:Ht; [|done]. cbn [mbind option_bind]. intros Hp. rewrite Hp. cbn [snd].
  split; [|done]. cbn [with_sched scheduler mbind option_bind tasks current]. rewrite list_lookup_insert_eq by (by eapply lookup_lt_Some). done.
Qed.

Lemma store_space_view s next k p a : current_process k = Some p → current_view (store_space s next k) a = PagingSafety.view s a.
Proof.
  intros Hp. destruct (store_space_current s next k p Hp) as [Hp' Hm]. unfold current_view, current_space. rewrite Hp', Hm.
  cbn [mbind option_bind]. by destruct s.
Qed.

(** The memory after a grant: the new pages and nothing else. *)
Lemma mmap_call len writable fail_after rsp k start fa k' : sound_kernel k → next_id k < u32_max → 0 <= len →
  mmap_in_current_process len writable fail_after rsp k = Some (Returned (Some start), fa, k') →
  let end_ := start + 4096 * page_count len in
  sound_kernel k' ∧ next_id k' = next_id k ∧ current_arena k = Some start ∧ current_arena k' = Some end_ ∧ current_space k' ≠ None ∧
  start mod 4096 = 0 ∧ USER_MMAP_BASE <= start ∧ end_ <= USER_MMAP_LIMIT ∧
  ∀ x, if decide (start <= x < end_) then current_view k x = None ∧ ∃ b fl, current_view k' x = Some (b, fl) ∧ fresh_page writable x b fl
       else current_view k' x = current_view k x.
Proof.
  intros (l&c&r&Hinv) Hn Hlen. unfold mmap_in_current_process. pose proof (current_space_spec k l c r Hinv) as Hcs.
  destruct (current_process k) as [p|] eqn:Hp; [|done]. cbn [mbind option_bind] in *. destruct (address_space p) as [space|] eqn:Hsp; [|done]. cbn [mbind option_bind] in *.
  destruct Hcs as (Hc&_&Hspc&Hok&Hm). pose proof Hok as [_ [[Hal Hb] _]].
  destruct (mmap len writable (mmap_next p) fail_after (mach k, space)) as [[[o next] fa1] s] eqn:E.
  apply (mmap_spec _ _ _ _ (spaces_of (l ++ r))) in E as [Hst Ho]; [|done..]. destruct o as [o|].
  2:{ destruct (exit_with_code 255 rsp _); by intros [=]. }
  intros [= -> _ <-]. destruct Ho as (->&_&->&Hlim&Hreg). assert (0 <= page_count len) by (apply Z.div_pos; lia).
  assert ((mmap_next p + 4096 * page_count len) mod 4096 = 0 ∧ USER_MMAP_BASE <= mmap_next p + 4096 * page_count len <= USER_MMAP_LIMIT) as Hnext
    by (split; [by apply page_next|lia]).
  destruct (inv_store_space s _ k l c r p space Hinv Hc Hspc Hok Hst Hm Hnext) as ((c'&Hinv')&Hid&_).
  destruct (store_space_current s (mmap_next p + 4096 * page_count len) k p Hp) as [Hp' _].
  split_and!; [by exists l, c', r|done|by unfold current_arena; rewrite Hp|by unfold current_arena; rewrite Hp'|by unfold current_space; rewrite Hp'|done|lia|lia|].
  intros x. specialize (Hreg x). rewrite !(store_space_view s _ k p) by done. unfold current_view, current_space. rewrite Hp. cbn [mbind option_bind].
  rewrite Hsp. cbn [mbind option_bind]. done.
Qed.

(** A refused request leaves the memory as it was. *)
Lemma mmap_call_refused len writable fail_after rsp k fa k' : sound_kernel k → next_id k < u32_max → 0 <= len →
  mmap_in_current_process len writable fail_after rsp k = Some (Returned None, fa, k') →
  sound_kernel k' ∧ next_id k' = next_id k ∧ current_arena k' = current_arena k ∧ (current_space k ≠ None → current_space k' ≠ None) ∧
  ∀ x, current_view k' x = current_view k x.
Proof.
  intros (l&c&r&Hinv) Hn Hlen. unfold mmap_in_current_process. pose proof (current_space_spec k l c r Hinv) as Hcs.
  assert (sound_kernel k) as Hk by (by exists l, c, r).
  destruct (current_process k) as [p|] eqn:Hp; [|by intros [= <- <-]]. cbn [mbind option_bind] in *.
  destruct (address_space p) as [space|] eqn:Hsp; [|by intros [= <- <-]]. cbn [mbind option_bind] in *.
  destruct Hcs as (Hc&_&Hspc&Hok&Hm). pose proof Hok as [_ [[Hal Hb] _]].
  destruct (mmap len writable (mmap_next p) fail_after (mach k, space)) as [[[o next] fa1] s] eqn:E.
  apply (mmap_spec _ _ _ _ (spaces_of (l ++ r))) in E as [Hst Ho]; [|done..]. destruct o as [o|].
  2:{ destruct (exit_with_code 255 rsp _); by intros [=]. }
  intros [= -> _ <-]. destruct Ho as (->&Hv&_).
  destruct (inv_store_space s _ k l c r p space Hinv Hc Hspc Hok Hst Hm (conj Hal Hb)) as ((c'&Hinv')&Hid&_).
  destruct (store_space_current s (mmap_next p) k p Hp) as [Hp' _].
  split_and!; [by exists l, c', r|done|by unfold current_arena; rewrite Hp', Hp|by unfold current_space; rewrite Hp'|].
  intros x. rewrite (store_space_view s _ k p), Hv by done. unfold current_view, current_space. rewrite Hp. cbn [mbind option_bind].
  by rewrite Hsp.
Qed.

(** Unmapping what the arena holds is granted. *)
Lemma munmap_call ptr len rsp k n : sound_kernel k → next_id k < u32_max → 0 <= ptr → 0 < len → ptr mod 4096 = 0 → len mod 4096 = 0 →
  USER_MMAP_BASE <= ptr → current_arena k = Some n → ptr + len <= n →
  (∀ x, ptr <= x < ptr + len → ∃ b fl, current_view k x = Some (b, fl) ∧ allowed false fl = true) →
  ∃ k', munmap_in_current_process ptr len rsp k = Some (Returned true, k') ∧
    sound_kernel k' ∧ next_id k' = next_id k ∧ current_space k' ≠ None ∧
    ∀ x, current_view k' x = if decide (ptr <= x < ptr + len) then None else current_view k x.
Proof.
  intros (l&c&r&Hinv) Hn Hptr Hlen Ha Hla Hbase Har Hend Hmapped. unfold munmap_in_current_process. pose proof (current_space_spec k l c r Hinv) as Hcs.
  unfold current_arena in Har. destruct (current_process k) as [p|] eqn:Hp; [|done]. injection Har as <-. cbn [mbind option_bind] in *.
  assert (∀ x, current_view k x = space ← address_space p; PagingSafety.view (mach k, space) x) as Hview.
  { intros x. unfold current_view, current_space. by rewrite Hp. }
  destruct (address_space p) as [space|] eqn:Hsp; cbn [mbind option_bind] in *.
  2:{ destruct (Hmapped ptr) as (b&fl&Hv&_); [lia|]. by rewrite Hview in Hv. }
  destruct Hcs as (Hc&_&Hspc&Hok&Hm). pose proof Hok as [_ [Hnext _]].
  destruct (munmap ptr len (mmap_next p) (mach k, space)) as [o s] eqn:E.
  apply (munmap_spec _ _ _ (spaces_of (l ++ r))) in E; [|lia|lia|by destruct Hnext as (_&_&?)|done]. destruct o as [[]|]; [| |done].
  2:{ destruct E as [Hno _]. destruct Hno. unfold munmap_ok. split_and!; [done..|]. intros x Hx. destruct (Hmapped x Hx) as (b&fl&Hv&Hfl).
      rewrite Hview in Hv. apply PagingSafety.view_located in Hv as (lf&Hlf&<-). by exists lf. }
  destruct E as (_&Hst&Hv&_). destruct (inv_store_space s (mmap_next p) k l c r p space Hinv Hc Hspc Hok Hst Hm Hnext) as ((c'&Hinv')&Hid&_).
  destruct (store_space_current s (mmap_next p) k p Hp) as [Hp' _]. eexists. split; [done|].
  split_and!; [by exists l, c', r|done|by unfold current_space; rewrite Hp'|].
  intros x. rewrite (store_space_view s _ k p) by done. by rewrite Hv, Hview.
Qed.
End anonymous.
