(* ===== verification/SyscallData.v ===== *)
(** System calls and the filesystem: which calls may change the tree, and where.
    Only PUT_FILE, REMOVE and MKDIR mutate, and only below the directory that
    belongs to the caller's name. *)

From S2P Require Import Prelude Str Device Tree TuwaiqTree TuwaiqFs Fs FsPersist Fat32 Vfs VfsData Input X86 Frames Paging PagingSpaces PagingRange PagingCopy PagingSafety Wake Scheduler SchedulerInv OpenFiles Process Vm Display VmSafety VmUnmap TaskInv TaskSafety Syscall SyscallSteps.

(** ** The directory of a process *)

Definition own_directory (name : str) : list str := components (bs "/data/" ++ name).

Lemma normalize_components wd path p : canonical wd → normalize wd path = Ok p → ∃ parts, p = absolute parts ∧ Forall is_component parts.
Proof.
  intros (parts & -> & Hv & Hlen). rewrite normalize_stack by done.
  rewrite ensure_bind_Ok. intros [_ E]. rewrite ensure_bind_Ok in E. destruct E as [_ E].
  destruct (spec_pushes _ _) as [q|] eqn:Eq; [|done]. injection E as <-. exists q. split; [done|].
  assert (Forall is_component (start_parts parts path)) as Hstart.
  { unfold start_parts. destruct (starts_with _ _); [constructor|by apply valid_parts_components]. }
  assert (Forall (λ c, slash ∉ c) (split_on slash path)) as Hsplit.
  { apply Forall_forall. intros c Hc. by eapply split_on_pieces. }
  revert Hstart Eq. generalize (start_parts parts path). induction Hsplit as [|c cs Hc _ IH]; intros l Hl; cbn [spec_pushes].
  - by intros [= <-].
  - intros (l' & Hpush & Hrest)%bind_Ok. apply (IH l'); [by eapply spec_push_components|done].
Qed.

Lemma own_directory_absolute name : normalize [slash] (bs "/data/" ++ name) = Ok (bs "/data/" ++ name) →
  bs "/data/" ++ name = absolute (own_directory name) ∧ Forall is_component (own_directory name).
Proof.
  intros Hn. apply normalize_components in Hn as (parts & E & Hp); [|apply canonical_root].
  unfold own_directory. rewrite E, components_absolute by done. done.
Qed.

Lemma own_directory_nonempty name : own_directory name ≠ [].
Proof. unfold own_directory. change (bs "/data/" ++ name) with (bs "/data" ++ slash :: name). rewrite components_app. by vm_compute (components (bs "/data")). Qed.

Lemma private_path_spec name wd path allow target : canonical wd → utf8_valid path = true →
  private_path name wd path allow = Some target →
  canonical target ∧ ∃ q, target = absolute q ∧ Forall is_component q ∧ own_directory name `prefix_of` q ∧
    (q = own_directory name → allow = true).
Proof.
  intros Hwd Hu. unfold private_path. destruct (normalize wd path) as [t|] eqn:Hn; [|done]. cbv zeta.
  case_bool_decide as Hroot; [|done]. apply own_directory_absolute in Hroot as [Hr Hcomp].
  pose proof (normalize_result_canonical _ _ _ Hwd Hu Hn) as Hcan. pose proof Hcan as (q & -> & Hv & _).
  pose proof (valid_parts_components _ Hv) as Hq. destruct (_ || _) eqn:E; [|done]. intros [= <-].
  split; [done|]. exists q. split; [done|]. split; [done|]. apply orb_true_iff in E as [E|[-> E%bool_decide_eq_true]%andb_true_iff].
  - destruct (strip_prefix _ _) as [suffix|] eqn:Es; [|done]. apply strip_prefix_Some in Es. apply starts_with_slash in E as [t ->].
    assert (q = own_directory name ++ components t) as Eq.
    { rewrite <- (components_absolute q), Es, Hr, components_app by done. by rewrite components_absolute. }
    split; [rewrite Eq; by apply prefix_app_r|]. intros Eown. rewrite Eown, Hr in Es.
    apply (f_equal length) in Es. rewrite length_app in Es. simpl in Es. lia.
  - split; [|done]. rewrite Hr in E. by apply absolute_inj in E as ->.
Qed.

(** ** Where a mutation shows *)

(** Nothing outside [name]'s own directory differs, except that MKDIR of that
    directory adds its name to the directory it is in. *)
Definition outside_unchanged (name : str) (f f' : FileSystem) : Prop :=
  ∀ q, ¬ own_directory name `prefix_of` q →
    Fs.view f' q = Fs.view f q ∨
    ∃ last names, own_directory name = q ++ [last] ∧ Fs.view f q = Some (ADir names) ∧ Fs.view f' q = Some (ADir (names ++ [last])).

Lemma outside_refl name f : outside_unchanged name f f.
Proof. intros q _. by left. Qed.

Lemma apply_op_outside name op f f' q0 : distinct (root f) = true → op_path op = absolute q0 → Forall is_component q0 →
  own_directory name `prefix_of` q0 → (q0 = own_directory name → op = CreateDir (absolute q0)) → apply_op op f = Ok f' →
  outside_unchanged name f f'.
Proof.
  intros Hd Hpath Hq0 Hpre Hroot Hop q Hq. pose proof (apply_op_refines op f Hd) as Ha. rewrite Hop in Ha. unfold agree in Ha.
  destruct (spec_op op (Fs.view f)) as [v'|e] eqn:Es; [|done].
  destruct q0 as [|n0 parent _] using rev_ind. { apply prefix_nil_inv in Hpre. by apply own_directory_nonempty in Hpre. }
  assert (parent_and_name (op_path op) = Ok (parent, n0)) as Hp.
  { rewrite Hpath. unfold parent_and_name, split_absolute_path. rewrite starts_with_absolute. cbn [mbind result_bind].
    rewrite components_absolute, last_snoc by done. cbn. rewrite length_app. cbn [length]. by rewrite Nat.add_sub, take_app_length. }
  destruct (spec_op_frame op (Fs.view f) v' parent n0 Hp Es) as [Hframe Hcreate].
  assert (q ≠ parent ++ [n0]) as Hne by (by intros ->). rewrite (Ha q). destruct (decide (q = parent)) as [->|Hnp].
  - right. destruct Hpre as [k E]. destruct k as [|x k _] using rev_ind.
    + rewrite app_nil_r in E. destruct (Hcreate _ (Hroot E)) as (names&Hn&Hn'). exists n0, names. by rewrite <- E.
    + rewrite app_assoc in E. apply app_inj_tail in E as [-> _]. destruct Hq. by apply prefix_app_r.
  - left. by apply Hframe.
Qed.

(** ** On the whole system *)

Section vfs.
Context {D : Type} `{BlockDeviceSpec D}.
Implicit Types (v : vfs_state D).

(** What a mutation with a confined target, which adds at most [n] records, does
    to the tree, whatever the volume holds, and to a volume that is in step with
    it and has room. *)
Definition confined (n : nat) name v v' : Prop :=
  ∀ table f, vfs_live v table f → root_only table →
    ∃ f', vfs_live v' table f' ∧ outside_unchanged name f f' ∧
      ∀ j, room_for (n + j) f → room_for j f' ∧ (vfs_ready v table f → vfs_ready v' table f').

Lemma keeps_confined n name v v' : keeps v v' → confined n name v v'.
Proof.
  intros Hk table f Hv _. exists f. split_and!; [by eapply keeps_live|apply outside_refl|].
  intros j Hj. split; [eapply room_for_mono; [|exact Hj]; lia|]. intros Hr. by eapply keeps_ready.
Qed.

Definition is_create_dir (op : vfs_op) : bool := match op with VCreateDir => true | _ => false end.

(** The target of a private mutation. *)
Definition private_target name (allow : bool) (target : str) : Prop :=
  canonical target ∧ ∃ q, target = absolute q ∧ Forall is_component q ∧ own_directory name `prefix_of` q ∧
    (q = own_directory name → allow = true).

(** How many records an operation may add. *)
Definition vfs_records (op : vfs_op) : nat := match op with VRemove => 0 | _ => 1 end.
Lemma vfs_records_backend op p : op_records (backend_op op p) = vfs_records op.
Proof. by destruct op. Qed.

Lemma vfs_run_room op wd path v r v' table f j : vfs_ready v table f → canonical wd → utf8_valid path = true →
  room_for (vfs_records op + j) f → vfs_run op wd path v = (r, v') →
  ∃ f', fs (storage v') = Some f' ∧ vfs_ready v' table f' ∧ room_for j f'.
Proof.
  intros Hr Hwd Hu Hroom E. pose proof (vfs_run_ready op wd path v table f r v' Hr Hwd Hu) as H'.
  specialize (H' ltac:(intros p f' Hop; eapply (room_for_records j); [by rewrite vfs_records_backend|exact Hop]) E). destruct r as [u|e].
  - destruct H' as (_&bp&f'&_&_&_&Hop&Hr'). exists f'. split_and!; [by apply vfs_ready_live in Hr' as [(_&_&_&?&_) _]|done|].
    eapply (room_for_records j); [by rewrite vfs_records_backend|exact Hop].
  - exists f. split_and!; [by apply vfs_ready_live in H' as [(_&_&_&?&_) _]|done|]. eapply room_for_mono; [|exact Hroom]. lia.
Qed.

Lemma vfs_run_confined op name target v r v' : private_target name (is_create_dir op) target → utf8_valid target = true →
  vfs_run op [slash] target v = (r, v') → confined (vfs_records op) name v v'.
Proof.
  intros (Hcan&q&->&Hq&Hpre&Hown) Hu E table f Hv Htable.
  pose proof (vfs_run_live op [slash] (absolute q) v table f r v' Hv canonical_root Hu E) as Hrun.
  assert (∀ f' j, vfs_live v' table f' → room_for (vfs_records op + j) f → vfs_ready v table f → vfs_ready v' table f') as Hstep.
  { intros f' j (_&_&_&Hf'&_) Hroom Hr.
    destruct (vfs_run_room op _ _ _ _ _ _ _ j Hr canonical_root Hu Hroom E) as (f2&Hf2&Hr2&_). by replace f' with f2 by congruence. }
  destruct r as [u|e]; [|exists f; split_and!; [done|apply outside_refl|intros j Hj; split; [eapply room_for_mono; [|exact Hj]; lia|by eapply Hstep]]].
  destruct Hrun as (m&bp&f'&Hres&Hw&_&Hop&Hv'). exists f'. split_and!; [done| |intros j Hj; split; [|by eapply Hstep]];
    [|eapply (room_for_records j); [rewrite vfs_records_backend; exact Hj|exact Hop]].
  rewrite resolve_path_unfold, normalize_canonical in Hres by (done || apply canonical_root).
  destruct Hv as (Ht&Htok&_&_&Hwf&_). rewrite Ht in Hres. injection Hres as Hres.
  destruct Hcan as (q'&Eq&Hvq&_). apply absolute_inj in Eq as <-; [|done|by apply valid_parts_components].
  destruct (resolve_spec _ _ _ _ Htok Hvq Hres) as (mp&rest&Hin&Hmp&->&->&_).
  assert (mp = []) as ->.
  { unfold root_only in Htable. rewrite Forall_forall in Htable. apply Forall_app in Hq as [Hmpc _].
    apply (absolute_root mp Hmpc). rewrite <- Hmp. apply Htable; [done|].
    unfold writable in Hw. destruct (backend m); [done|]. by rewrite orb_true_r in Hw. }
  simpl in *. apply (apply_op_outside name (backend_op op (absolute rest)) f f' rest); [by apply (wf_entry_distinct [])|by destruct op|done|done| |done].
  intros Erest%Hown. by destruct op.
Qed.
End vfs.

Section calls.
Context {PT D : Type} `{!BootMap, !KernelFrames, !X86Addr, !X86AddrSpec, !X86_64 PT, !X86_64Spec PT USER_REGION_PML4_INDEX} `{BlockDeviceSpec D}.
Implicit Types (s : System PT D) (k : Kernel PT).

(** A call that leaves the filesystem as it was. *)
Definition vfs_kept s s' : Prop := keeps (vfs s) (vfs s').

#[global] Instance vfs_kept_preorder : PreOrder vfs_kept.
Proof. split; [intros s; unfold vfs_kept; reflexivity|]. intros s1 s2 s3 H12 H23. unfold vfs_kept in *. by transitivity (vfs s2). Qed.

Lemma vfs_kept_same s s' : vfs s' = vfs s → vfs_kept s s'.
Proof. unfold vfs_kept. intros ->. reflexivity. Qed.

Lemma on_vfs_keeps {A} (m : M (vfs_state D) A) : respects keeps m → respects vfs_kept (on_vfs (PT := PT) m).
Proof. intros Hm s r s'. unfold on_vfs. destruct (m (vfs s)) as [r1 v] eqn:E. intros [= <- <-]. by apply Hm in E. Qed.

Lemma on_kernel_kept {A} (f : Kernel PT → A * Kernel PT) : respects vfs_kept (on_kernel f).
Proof. intros s r s'. unfold on_kernel. destruct (f (kern s)). intros [= <- <-]. by apply vfs_kept_same. Qed.

Lemma ask_kept {A} (f : System PT D → A) : respects vfs_kept (ask f).
Proof. intros s r s' [= <- <-]. by apply vfs_kept_same. Qed.
Lemma require_kept {A} (o : option A) : respects vfs_kept (require o : M (System PT D) A).
Proof. apply respects_pure. apply _. Qed.
Lemma check_kept b : respects vfs_kept (check b : M (System PT D) unit).
Proof. apply respects_pure. apply _. Qed.
Lemma modify_kept (f : System PT D → System PT D) : (∀ s, vfs (f s) = vfs s) → respects vfs_kept (mmodify f).
Proof. intros Hf s r s' [= <- <-]. apply vfs_kept_same, Hf. Qed.
Lemma present_kept ptr len :
  respects vfs_kept (λ s, let '(r, sc) := present ptr len (kern s) (screen s) in (Ok r, with_screen sc s)).
Proof. intros s r s'. destruct (present _ _ _ _). intros [= <- <-]. by apply vfs_kept_same. Qed.
Lemma dequeue_kept : respects vfs_kept (λ s : System PT D, let '(e, q) := dequeue (Scheduler.ticks (kern s)) (sys_input s) in (Ok e, with_sys_input q s)).
Proof. intros s r s'. destruct (dequeue _ _). intros [= <- <-]. by apply vfs_kept_same. Qed.
Lemma pure_keeps {A} (r : result A) : respects keeps (mlift r : M (vfs_state D) A).
Proof. apply respects_pure. apply _. Qed.
End calls.

Ltac kept_step :=
  first [ match goal with |- respects _ (_ ≫= _) => apply respects_bind; [apply vfs_kept_preorder| |intros ?] end
        | match goal with H : _ |- respects _ _ => solve [apply H] end
        | apply ask_kept | apply require_kept | apply check_kept | apply on_kernel_kept | apply present_kept | apply dequeue_kept
        | apply on_vfs_keeps; first [apply pure_keeps|apply kind_keeps|apply read_file_keeps|apply list_dir_keeps|apply metadata_keeps]
        | apply modify_kept; done | respects_step ].

Section confinement.
Context {PT D : Type} `{!BootMap, !KernelFrames, !X86Addr, !X86AddrSpec, !X86_64 PT, !X86_64Spec PT USER_REGION_PML4_INDEX} `{BlockDeviceSpec D}.
Implicit Types (s : System PT D) (k : Kernel PT).

Lemma copy_user_path_kept ptr len : respects vfs_kept (copy_user_path ptr len : M (System PT D) _).
Proof. unfold copy_user_path. repeat kept_step. Qed.
Lemma process_cwd_kept : respects vfs_kept (process_cwd : M (System PT D) _).
Proof. unfold process_cwd. repeat kept_step. Qed.
Lemma is_foreground_kept : respects vfs_kept (is_foreground : M (System PT D) _).
Proof. unfold is_foreground. repeat kept_step. Qed.
Lemma copy_user_buffer_spec_kept ptr : respects vfs_kept (copy_user_buffer_spec ptr : M (System PT D) _).
Proof. unfold copy_user_buffer_spec. repeat kept_step. Qed.

(** Every handler but those of the three mutations. *)
Lemma finish_kept (m : M (System PT D) Z) s o s' : respects vfs_kept m → finish m s = Some (o, s') → vfs_kept s s'.
Proof.
  intros Hm. unfold finish. destruct (m s) as [[z|e] s1] eqn:E; apply Hm in E; [by intros [= _ <-]|].
  destruct (String.eqb e "panic"); [done|]. by intros [= _ <-].
Qed.

Definition mutates (num : Z) : bool := (num =? SYS_PUT_FILE) || (num =? SYS_REMOVE) || (num =? SYS_MKDIR).

Lemma dispatch_kept rsp stack num a1 a2 a3 s o s' : mutates num = false →
  dispatch rsp stack num a1 a2 a3 s = Some (o, s') → vfs_kept s s'.
Proof.
  pose proof copy_user_path_kept. pose proof process_cwd_kept. pose proof is_foreground_kept. pose proof copy_user_buffer_spec_kept.
  unfold mutates, dispatch. intros Hnum. repeat (apply orb_false_iff in Hnum as [Hnum ?]).
  repeat match goal with E : (num =? ?c) = false |- context [if num =? ?c then _ else _] => rewrite E end.
  repeat (match goal with |- context [if num =? ?c then _ else _] => destruct (num =? c) end;
    [first [apply finish_kept; unfold sys_write, sys_getpid, sys_display_info, sys_display_present, sys_input_poll, sys_uptime_ticks,
       sys_chdir, sys_getcwd, sys_open, sys_read, sys_close, sys_spawn, sys_readdir, sys_stat, sys_seek, panic; solve [repeat kept_step]
     |idtac]|]).
  - unfold sys_exit. destruct (exit_with_code _ _ _); [|done]. intros [= _ <-]. by apply vfs_kept_same.
  - unfold sys_yield. destruct (yield_now _ _); [|done]. intros [= _ <-]. by apply vfs_kept_same.
  - unfold sys_mmap. destruct (mmap_in_current_process _ _ _ _ _) as [[[? ?] ?]|]; [|done]. intros [= _ <-]. by apply vfs_kept_same.
  - unfold sys_munmap. destruct (munmap_in_current_process _ _ _ _) as [[? ?]|]; [|done]. intros [= _ <-]. by apply vfs_kept_same.
  - intros [= _ <-]. by apply vfs_kept_same.
Qed.

(** *** The mutations *)

(** A call of the process called [name] changes only that process's directory. *)
Definition confines {A} (n : nat) (name : str) (m : M (System PT D) A) : Prop :=
  ∀ s r s', sound_kernel (kern s) → current_process_name (kern s) = Some name → m s = (r, s') → confined n name (vfs s) (vfs s').

(** Steps that only look. *)
Definition looks {A} (name : str) (m : M (System PT D) A) (P : A → Prop) : Prop :=
  respects eq m ∧ ∀ s a s', sound_kernel (kern s) → current_process_name (kern s) = Some name → m s = (Ok a, s') → P a.

Lemma confines_bind {A B} n name (m : M (System PT D) A) (f : A → M (System PT D) B) P :
  looks name m P → (∀ a, P a → confines n name (f a)) → confines n name (m ≫= f).
Proof.
  intros [Hm HP] Hf s r s' Hs Hname. unfold mbind, M_bind. destruct (m s) as [[a|e] s1] eqn:E.
  - pose proof (Hm _ _ _ E) as <-. intros Er. apply (Hf a (HP s a s Hs Hname E) s r); done.
  - intros [= _ <-]. apply Hm in E as <-. by apply keeps_confined.
Qed.

Lemma looks_returns {A} name (m : M (System PT D) A) P : respects eq m → returns m P → looks name m P.
Proof. intros Hm HP. split; [done|]. intros s a s' Hs _. by apply HP. Qed.
Lemma looks_only {A} name (m : M (System PT D) A) : respects eq m → looks name m (λ _, True).
Proof. by split. Qed.

Lemma ask_looks {A} (f : System PT D → A) : respects eq (ask f).
Proof. by intros s r s' [= <- <-]. Qed.
Lemma require_looks {A} (o : option A) : respects eq (require o : M (System PT D) A).
Proof. apply respects_pure. apply _. Qed.
Lemma check_looks b : respects eq (check b : M (System PT D) unit).
Proof. apply respects_pure. apply _. Qed.

Ltac looks_step :=
  first [ match goal with |- respects _ (_ ≫= _) => apply respects_bind; [apply _| |intros ?] end
        | apply ask_looks | apply require_looks | apply check_looks | respects_step ].

Lemma copy_user_path_looks name ptr len : looks name (copy_user_path ptr len) (λ path, utf8_valid path = true).
Proof. apply looks_returns; [|apply copy_user_path_returns]. unfold copy_user_path. repeat looks_step. Qed.

Lemma private_mutation_path_looks name path allow : utf8_valid path = true →
  looks name (private_mutation_path path allow) (private_target name allow).
Proof.
  intros Hu. split.
  - unfold private_mutation_path, process_cwd. repeat looks_step.
  - intros s target s' Hs Hname. unfold private_mutation_path, process_cwd, mbind, M_bind, ask, require, mlift.
    destruct (current_working_directory (kern s)) as [wd|] eqn:Hwd; [|done]. cbn [ok_or]. rewrite Hname. cbn [ok_or].
    destruct (private_path name wd path allow) as [t|] eqn:Hp; [|done]. intros [= <- _].
    apply (private_path_spec name wd path allow); [by apply (current_cwd_canonical (kern s))|done|done].
Qed.

Lemma private_target_utf8 name allow target : private_target name allow target → utf8_valid target = true.
Proof.
  intros [(parts & -> & Hv & _) _]. unfold absolute. destruct parts as [|p ps]; [done|].
  change (slash :: join_components (p :: ps)) with ([slash] ++ join_components (p :: ps)). rewrite utf8_app by done. apply utf8_join. eapply Forall_impl; [exact Hv|]. intros q Hq. apply valid_name_spec in Hq. tauto.
Qed.

Lemma mutation_confines name op target : private_target name (is_create_dir op) target →
  confines (vfs_records op) name (_ ← on_vfs (vfs_run op [slash] target); mret 0 : M (System PT D) Z).
Proof.
  intros Ht s r s' _ _. unfold mbind, M_bind, on_vfs. destruct (vfs_run op [slash] target (vfs s)) as [r1 v] eqn:E.
  intros Hr. assert (vfs s' = v) as -> by (destruct r1; by injection Hr as _ <-).
  eapply vfs_run_confined; [exact Ht|by eapply private_target_utf8|exact E].
Qed.

Lemma put_file_confines name ptr len spec : confines 1 name (sys_put_file ptr len spec).
Proof.
  unfold sys_put_file. eapply confines_bind; [apply copy_user_path_looks|intros path Hu].
  eapply confines_bind; [apply looks_only; unfold copy_user_buffer_spec; repeat looks_step|intros [data_ptr data_len] _].
  eapply confines_bind; [apply looks_only; repeat looks_step|intros o _].
  eapply confines_bind; [apply looks_only; repeat looks_step|intros bytes _].
  eapply confines_bind; [by apply private_mutation_path_looks|intros target Ht].
  by apply (mutation_confines name (VWrite bytes)).
Qed.

Lemma remove_confines name ptr len : confines 0 name (sys_remove ptr len).
Proof.
  unfold sys_remove. eapply confines_bind; [apply copy_user_path_looks|intros path Hu].
  eapply confines_bind; [by apply private_mutation_path_looks|intros target Ht]. by apply (mutation_confines name VRemove).
Qed.

Lemma mkdir_confines name ptr len : confines 1 name (sys_mkdir ptr len).
Proof.
  unfold sys_mkdir. eapply confines_bind; [apply copy_user_path_looks|intros path Hu].
  eapply confines_bind; [by apply private_mutation_path_looks|intros target Ht]. by apply (mutation_confines name VCreateDir).
Qed.

Lemma finish_confined n name (m : M (System PT D) Z) s o s' : confines n name m → sound_kernel (kern s) →
  current_process_name (kern s) = Some name → finish m s = Some (o, s') → confined n name (vfs s) (vfs s').
Proof.
  intros Hm Hs Hname. unfold finish. destruct (m s) as [[z|e] s1] eqn:E; apply Hm in E; try done; [by intros [= _ <-]|].
  destruct (String.eqb e "panic"); [done|]. by intros [= _ <-].
Qed.

(** How many records a call may add. *)
Definition call_records (num : Z) : nat := if (num =? SYS_PUT_FILE) || (num =? SYS_MKDIR) then 1 else 0.

Lemma dispatch_confined rsp stack num a1 a2 a3 s o s' name : sound_kernel (kern s) → current_process_name (kern s) = Some name →
  dispatch rsp stack num a1 a2 a3 s = Some (o, s') → confined (call_records num) name (vfs s) (vfs s').
Proof.
  intros Hs Hname. destruct (mutates num) eqn:Hnum.
  - unfold mutates in Hnum. rewrite !orb_true_iff, !Z.eqb_eq in Hnum. destruct Hnum as [[-> | ->]| ->]; apply finish_confined; try done;
      [apply put_file_confines|apply remove_confines|apply mkdir_confines].
  - intros E. apply keeps_confined. by apply (dispatch_kept rsp stack num a1 a2 a3 _ o).
Qed.
End confinement.
