(* ===== verification/SyscallSafety.v ===== *)
(** What processes can rely on, and what the system is protected from, when they
    make system calls. *)

From S2P Require Import Prelude Str Device Tree TuwaiqTree TuwaiqFs Fs FsPersist Fat32 Vfs VfsData Input X86 Frames Paging PagingSpaces PagingRange PagingCopy PagingSafety Elf Wake Scheduler SchedulerInv OpenFiles Process Vm Display VmSafety VmUnmap TaskInv TaskSafety Syscall SyscallSteps SyscallUser SyscallData.

Section claims.
Context {PT D : Type} `{!BootMap, !KernelFrames, !X86Addr, !X86AddrSpec, !X86_64 PT, !X86_64Spec PT USER_REGION_PML4_INDEX} `{BlockDeviceSpec D}.
Implicit Types (s : System PT D) (k : Kernel PT).

(** A system call arrives in any state the kernel can be in; the filesystem, the
    queues and the screen are as the rest of the system left them. *)
Definition system_reachable s : Prop := kernel_reachable (kern s).

Lemma reachable_sound s : system_reachable s → sound_kernel (kern s).
Proof. intros (l&c&r&?)%kernel_reachable_inv. by exists l, c, r. Qed.

(** C5: system calls are runs of kernel events: whatever its number and its
    register arguments, a call made in a reachable kernel does not panic,
    answers or ends its task, and changes the kernel exactly as at most two of
    the events of TaskSafety.v do - so all that holds of every run of events
    holds with system calls in it. *)
Theorem syscalls_are_kernel_events rsp stack num a1 a2 a3 s :
  system_reachable s → next_id (kern s) + 2 <= u32_max →
  register_value a1 → register_value a2 → register_value a3 →
  ∃ o s' es, dispatch rsp stack num a1 a2 a3 s = Some (o, s') ∧
    Forall event_ok es ∧ zlen es <= 2 ∧ run_events es (kern s) = Some (kern s') ∧ kernel_safe (kern s').
Proof.
  intros Hk%reachable_sound Hn Ha1 Ha2 Ha3.
  destruct (dispatch_runs rsp stack num a1 a2 a3 s Hk Hn Ha1 Ha2 Ha3) as (o&s'&E&Hr).
  destruct (runs_sound _ _ _ Hr Hk Hn) as [(l&c&r&Hinv) _]. destruct Hr as (es&Hes&Hlen&Hrun).
  exists o, s', es. split_and!; [done..|]. by eapply inv_safe.
Qed.

(** C7: a process changes only its own files: whatever system call a process
    called [name] makes, the tree the system serves stays as it was everywhere
    outside /data/[name] - every file, every directory listing - except that
    MKDIR may add that one directory to /data; whatever the volume holds. A
    volume that is in step with the tree stays in step as long as the tree has
    fewer than 1,024 records. (With 1,024 the call that adds one reports success
    and leaves a checkpoint that no later boot accepts.) *)
Theorem syscalls_confine_mutations rsp stack num a1 a2 a3 s o s' name table f :
  system_reachable s → current_process_name (kern s) = Some name →
  vfs_live (vfs s) table f → root_only table →
  dispatch rsp stack num a1 a2 a3 s = Some (o, s') →
  ∃ f', vfs_live (vfs s') table f' ∧ outside_unchanged name f f' ∧
    (vfs_ready (vfs s) table f → room f → vfs_ready (vfs s') table f').
Proof.
  intros Hk%reachable_sound Hname Hv Ht E.
  destruct (dispatch_confined _ _ _ _ _ _ _ _ _ name Hk Hname E table f Hv Ht) as (f'&?&?&Hr). exists f'. split_and!; [done..|].
  intros Hv' Hroom. apply (Hr 0%nat); [|done]. unfold room, room_for, call_records in *. destruct (_ || _); lia.
Qed.

(** ** Pointers of programs *)

(** A range a call is asked to use: where, how long, and whether it is filled. *)
Definition UserRange : Type := Z * Z * bool.
Definition may_use k (r : UserRange) : Prop := user_range k r.1.1 r.1.2 r.2.

(** What the descriptor of a buffer says, when there is one to read. *)
Definition described (spec_ptr : Z) (writable : bool) k : list UserRange :=
  match copy_from_current_user spec_ptr BUFFER_SPEC_LEN k with
  | Some bytes => [(le_decode (take 8 bytes), le_decode (slice bytes 8 16), writable)]
  | None => []
  end.

(** The ranges the ABI says a call uses. *)
Definition used_ranges (num a1 a2 a3 : Z) s : list UserRange :=
  let k := kern s in
  let spec writable := (a3, Z.of_nat BUFFER_SPEC_LEN, false) :: described a3 writable k in
  if (num =? SYS_WRITE) || (num =? SYS_DISPLAY_PRESENT) then [(a1, a2, false)]
  else if num =? SYS_DISPLAY_INFO then match display_info (screen s) with Some info => [(a1, zlen (display_to_le_bytes info), true)] | None => [] end
  else if num =? SYS_INPUT_POLL then [(a1, ENCODED_EVENT_LEN, true)]
  else if num =? SYS_GETCWD then match current_working_directory k with Some cwd => [(a1, zlen cwd, true)] | None => [] end
  else if num =? SYS_READ then [(a2, a3, true)]
  else if num =? SYS_PUT_FILE then (a1, a2, false) :: spec false
  else if num =? SYS_READDIR then (a1, a2, false) :: spec true
  else if num =? SYS_STAT then [(a1, a2, false); (a3, STAT_RECORD_LEN, true)]
  else if (num =? SYS_CHDIR) || (num =? SYS_OPEN) || (num =? SYS_SPAWN) || (num =? SYS_REMOVE) || (num =? SYS_MKDIR) then [(a1, a2, false)]
  else [].

Lemma with_kern_same s : with_kern (kern s) s = s.
Proof. by destruct s. Qed.

(** Steps that only look at the system, and may give up. *)
Definition asks {A} (m : M (System PT D) A) : Prop := ∀ s, (∃ a, m s = (Ok a, s)) ∨ m s = (Err "rejected", s).
Definition refuses {A} (m : M (System PT D) A) s : Prop := m s = (Err "rejected", s).

Lemma ask_asks {A} (f : System PT D → A) : asks (ask f).
Proof. intros s. left. by eexists. Qed.
Lemma require_asks {A} (o : option A) : asks (require o).
Proof. intros s. destruct o; [left; by eexists|by right]. Qed.
Lemma check_asks b : asks (check b).
Proof. intros s. destruct b; [left; by eexists|by right]. Qed.
Lemma ret_asks {A} (a : A) : asks (mret a).
Proof. intros s. left. by eexists. Qed.
Lemma bind_asks {A B} (m : M (System PT D) A) (f : A → M (System PT D) B) : asks m → (∀ a, asks (f a)) → asks (m ≫= f).
Proof. intros Hm Hf s. unfold mbind, M_bind. destruct (Hm s) as [[a ->]| ->]; [apply Hf|by right]. Qed.

Hint Resolve ask_asks require_asks check_asks ret_asks bind_asks : asks.
Ltac asks := repeat match goal with |- asks (_ ≫= _) => apply bind_asks; [|intros ?] end; auto with asks.

Lemma copy_user_path_asks ptr len : asks (copy_user_path ptr len).
Proof. unfold copy_user_path. asks. Qed.
Lemma copy_user_buffer_spec_asks ptr : asks (copy_user_buffer_spec ptr).
Proof. unfold copy_user_buffer_spec. asks. Qed.
Lemma process_cwd_asks : asks process_cwd.
Proof. unfold process_cwd. asks. Qed.
Lemma is_foreground_asks : asks is_foreground.
Proof. unfold is_foreground. asks. Qed.
Hint Resolve copy_user_path_asks copy_user_buffer_spec_asks process_cwd_asks is_foreground_asks : asks.

(** A call is refused by its first step, or by a later one when those before
    only ask. *)
Lemma refuses_first {A B} (m : M (System PT D) A) (f : A → M (System PT D) B) s : refuses m s → refuses (m ≫= f) s.
Proof. unfold refuses, mbind, M_bind. by intros ->. Qed.
Lemma refuses_later {A B} (m : M (System PT D) A) (f : A → M (System PT D) B) s :
  asks m → (∀ a, m s = (Ok a, s) → refuses (f a) s) → refuses (m ≫= f) s.
Proof. intros Hm Hf. unfold refuses, mbind, M_bind. destruct (Hm s) as [[a E]|E]; rewrite E; [by apply Hf|done]. Qed.
Lemma refuses_check b s : b = false → refuses (check b) s.
Proof. by intros ->. Qed.
Lemma finish_refuses (m : M (System PT D) Z) s : refuses m s → finish m s = Some (Returned (-1), s).
Proof. unfold refuses, finish. by intros ->. Qed.

Lemma refuses_read {A} ptr len (f : list byte → M (System PT D) A) s : sound_kernel (kern s) → ¬ user_range (kern s) ptr (Z.of_nat len) false →
  refuses (o ← ask (λ s, copy_from_current_user ptr len (kern s)); bytes ← require o; f bytes) s.
Proof.
  intros Hk Hu. apply refuses_later; [asks|]. intros o [= <-]. apply refuses_first. pose proof (copy_in_spec (kern s) ptr len Hk) as Hc.
  destruct (copy_from_current_user ptr len (kern s)); [by destruct Hc|done].
Qed.

Lemma refuses_fill {A} ptr data (m : M (System PT D) A) s : sound_kernel (kern s) → ¬ user_range (kern s) ptr (zlen data) true →
  refuses (ok ← on_kernel (copy_to_current_user ptr data); _ ← check ok; m) s.
Proof.
  intros Hk Hu. pose proof (copy_out_spec (kern s) ptr data Hk) as Hc. unfold refuses, mbind, M_bind, on_kernel.
  destruct (copy_to_current_user ptr data (kern s)) as [[] k']; [by destruct Hc|]. destruct Hc as [_ ->].
  unfold check, mensure, mlift. cbn [ensure]. by rewrite with_kern_same.
Qed.

Lemma refuses_validation {A} ptr len (m : M (System PT D) A) s : sound_kernel (kern s) → 0 <= len → ¬ user_range (kern s) ptr len true →
  refuses (valid ← ask (λ s, validate_current_user_range ptr len true (kern s)); _ ← check valid; m) s.
Proof.
  intros Hk Hlen Hu. apply refuses_later; [asks|]. intros v [= <-]. apply refuses_first, refuses_check, not_true_is_false.
  by rewrite validate_spec.
Qed.

Lemma refuses_path {A} ptr len (f : str → M (System PT D) A) s : sound_kernel (kern s) → 0 <= len → ¬ user_range (kern s) ptr len false →
  refuses (path ← copy_user_path ptr len; f path) s.
Proof.
  intros Hk Hlen Hu. apply refuses_first. unfold copy_user_path. apply refuses_later; [asks|]. intros _ _.
  apply refuses_read; [done|]. by rewrite Z2Nat.id.
Qed.

Lemma buffer_spec_described {A} ptr w r (f : Z * Z → M (System PT D) A) s : sound_kernel (kern s) →
  r ∈ (ptr, Z.of_nat BUFFER_SPEC_LEN, false) :: described ptr w (kern s) → ¬ may_use (kern s) r →
  (∀ p len, r = (p, len, w) → 0 <= len → refuses (f (p, len)) s) →
  refuses (copy_user_buffer_spec ptr ≫= f) s.
Proof.
  intros Hk Hr Hu Hf. apply elem_of_cons in Hr as [->|Hr].
  { apply refuses_first. unfold copy_user_buffer_spec. by apply refuses_read. }
  apply refuses_later; [asks|]. intros [p len]. unfold described in Hr.
  unfold copy_user_buffer_spec, mbind, M_bind, ask, require, mlift.
  destruct (copy_from_current_user ptr BUFFER_SPEC_LEN (kern s)) as [bytes|]; [|done]. cbn [ok_or].
  unfold check, mensure, mlift, ensure. destruct (_ <=? MAX_FILE_IO_LEN); [|done]. intros [= <- <-].
  apply list_elem_of_singleton in Hr as ->. apply Hf; [done|]. apply le_decode_range.
Qed.

Lemma present_refuses ptr len s : sound_kernel (kern s) → 0 <= len → ¬ user_range (kern s) ptr len false →
  ∃ e, present ptr len (kern s) (screen s) = (Err e, screen s).
Proof.
  intros Hk Hlen Hu. unfold present. destruct (screen s) as [sc|]; [|by eexists]. destruct (negb _); [by eexists|].
  destruct (checked_user_virt_addr ptr); [|by eexists].
  assert (validate_current_user_range ptr len false (kern s) = false) as -> by (apply not_true_is_false; by rewrite validate_spec).
  by eexists.
Qed.

(** The ranges of a call whose number is known. *)
Ltac only_range Hr :=
  unfold used_ranges in Hr;
  repeat match type of Hr with context [if ?b then _ else _] => let v := eval vm_compute in b in
    match v with true => idtac | false => idtac end; change b with v in Hr; cbv iota in Hr end;
  try (apply list_elem_of_singleton in Hr as ->).

Lemma refused_call rsp stack num a1 a2 a3 s r :
  sound_kernel (kern s) → register_value a2 → register_value a3 →
  r ∈ used_ranges num a1 a2 a3 s → ¬ may_use (kern s) r →
  dispatch rsp stack num a1 a2 a3 s = Some (Returned (-1), s).
Proof.
  intros Hk [Ha2 _] [Ha3 _] Hr Hu. unfold dispatch.
  repeat match goal with |- (if num =? ?c then _ else _) = _ =>
    destruct (Z.eqb_spec num c) as [->|?]; [first [solve [exfalso; only_range Hr; by apply not_elem_of_nil in Hr]|apply finish_refuses; only_range Hr]|] end.
  - unfold sys_write. apply refuses_later; [asks|]. intros _ _. apply refuses_read; [done|]. by rewrite Z2Nat.id.
  - unfold sys_display_info. apply refuses_later; [asks|]. intros o [= <-].
    destruct (display_info (screen s)) as [info|]; [|by apply refuses_first]. apply list_elem_of_singleton in Hr as ->.
    apply refuses_later; [asks|]. intros x [= <-]. apply refuses_later; [asks|]. intros _ _. by apply refuses_fill.
  - unfold sys_display_present. apply refuses_later; [asks|]. intros _ _.
    destruct (present_refuses a1 a2 s Hk Ha2 Hu) as [e E]. unfold refuses, mbind, M_bind. rewrite E. by destruct s.
  - unfold sys_input_poll. apply refuses_later; [asks|]. intros _ _. apply refuses_later; [asks|]. intros _ _.
    by apply refuses_validation.
  - by apply refuses_path.
  - unfold sys_getcwd. apply refuses_later; [asks|]. intros cwd Hc. unfold process_cwd, mbind, M_bind, ask, require, mlift in Hc.
    destruct (current_working_directory (kern s)) as [dir|]; [|done]. injection Hc as <-. apply list_elem_of_singleton in Hr as ->.
    apply refuses_later; [asks|]. intros _ _. by apply refuses_fill.
  - by apply refuses_path.
  - unfold sys_read. apply refuses_later; [asks|]. intros _ _. apply refuses_later; [asks|]. intros _ _. by apply refuses_validation.
  - by apply refuses_path.
  - unfold sys_put_file. apply elem_of_cons in Hr as [->|Hr]; [by apply refuses_path|]. apply refuses_later; [asks|]. intros path _.
    apply (buffer_spec_described a3 false r); [done..|]. intros p len -> Hlen. apply refuses_read; [done|]. by rewrite Z2Nat.id.
  - by apply refuses_path.
  - by apply refuses_path.
  - unfold sys_readdir. apply elem_of_cons in Hr as [->|Hr]; [by apply refuses_path|]. apply refuses_later; [asks|]. intros path _.
    apply (buffer_spec_described a3 true r); [done..|]. intros p len -> Hlen. by apply refuses_validation.
  - unfold sys_stat. apply elem_of_cons in Hr as [->|Hr]; [by apply refuses_path|]. apply list_elem_of_singleton in Hr as ->.
    apply refuses_later; [asks|]. intros path _. by apply refuses_validation.
  - done.
Qed.

(** C6: the kernel never takes a bad pointer: when any of the ranges a system
    call is asked to use - a text to print, a path, the descriptor of a buffer
    and the buffer it describes, the place of an answer, a frame - is not wholly
    mapped for the calling program, and writable where it would be filled, the
    call returns -1 and changes nothing at all: no byte of memory, no file, no
    offset, no event, no pixel. *)
Theorem hostile_pointers_are_refused rsp stack num a1 a2 a3 s r :
  system_reachable s → register_value a2 → register_value a3 →
  r ∈ used_ranges num a1 a2 a3 s → ¬ may_use (kern s) r →
  dispatch rsp stack num a1 a2 a3 s = Some (Returned (-1), s).
Proof. intros Hk%reachable_sound. by apply refused_call. Qed.

(** ** Reading a file *)

Definition read_granted handle ptr len k (p : ProcessState) (f : OpenFile) : Prop :=
  len <= MAX_FILE_IO_LEN ∧ user_range k ptr len true ∧ current_process k = Some p ∧ file handle p = Some f.

Lemma stored_process addr data k k' : stored addr data k k' → current_process k' = current_process k.
Proof. intros (Hs&_). unfold current_process. by rewrite Hs. Qed.

Lemma stored_sound addr data k : sound_kernel k → next_id k < u32_max → sound_kernel (copy_to_current_user addr data k).2.
Proof.
  intros Hk Hn. apply (runs_sound 1 k); [|done|lia]. by apply (runs_event (CopyToUser addr data)).
Qed.

(** A closure on the current process changes that process's record only. *)
Lemma on_process_spec {A} (f : ProcessState → option A * ProcessState) k p : current_process k = Some p →
  address_space (f p).2 = address_space p →
  ∃ k', on_process f k = ((f p).1, k') ∧ current_process k' = Some (f p).2 ∧ ∀ a, current_view k' a = current_view k a.
Proof.
  unfold current_process, on_process. destruct (scheduler k) as [sc|] eqn:Hsc; [|done]. cbn [mbind option_bind].
  destruct (tasks sc !! current sc) as [t|] eqn:Ht; [|done]. cbn [mbind option_bind]. intros Hp Hsp. rewrite Hp.
  destruct (f p) as [r p'] eqn:E. cbn [fst snd] in *. eexists. split; [reflexivity|].
  cbn [with_sched scheduler mbind option_bind tasks current]. rewrite list_lookup_insert_eq by (by eapply lookup_lt_Some).
  split; [done|]. intros a. unfold current_view, current_space, current_process. cbn [with_sched scheduler mbind option_bind tasks current mach].
  rewrite list_lookup_insert_eq by (by eapply lookup_lt_Some). rewrite Hsc. cbn [mbind option_bind]. rewrite Ht. cbn [mbind option_bind].
  rewrite Hp. cbn [set_process tcb_process mbind option_bind]. by rewrite Hsp.
Qed.

Lemma file_handle_small handle p f : files_ok p → file handle p = Some f → handle <= u32_max.
Proof.
  intros Hf E. destruct (file_lookup handle p) as [[? _]|(i&g&->&_&_&Hat)]; [congruence|].
  apply file_at_lt in Hat as [Hi _]. destruct (files_small p Hf) as [? _]. unfold u32_max, FIRST_FILE_HANDLE. lia.
Qed.

Lemma advance_spec handle n k p f : sound_kernel k → current_process k = Some p → file handle p = Some f →
  0 <= n <= u32_max → file_offset f + n <= zlen (file_data f) →
  ∃ k' p', advance_file_for_current_process handle n k = (true, k') ∧ current_process k' = Some p' ∧
    updated handle (Some (mk_file (file_data f) (file_offset f + n))) p p' ∧ ∀ a, current_view k' a = current_view k a.
Proof.
  intros Hk Hp Hf Hn Hle. destruct (current_process_ok k p Hk Hp) as [Hok _].
  pose proof (run_file_op_spec (AdvanceOp handle n) p Hok Hn) as Hs.
  destruct (file_op_process_ok (AdvanceOp handle n) p Hn (current_process_ok k p Hk Hp)) as [_ Hsp].
  unfold run_file_op in Hs, Hsp. unfold advance_file_for_current_process, on_process_ok.
  destruct (on_process_spec (advance_file handle n) k p Hp) as (k'&E&Hp'&Hv). { by destruct (advance_file handle n p). }
  rewrite E. destruct (advance_file handle n p) as [r p'] eqn:Ea. cbn [fst snd] in *. destruct Hs as [_ Hs].
  cbn [file_spec] in Hs. rewrite Hf, decide_True in Hs by lia. destruct Hs as [Hr Hu]. apply bool_decide_eq_true in Hr as ->. by exists k', p'.
Qed.

(** READ and READDIR store a result only if there is one. *)
Lemma copy_nonempty_spec s ptr len bytes : sound_kernel (kern s) → next_id (kern s) < u32_max →
  user_range (kern s) ptr len true → zlen bytes <= len →
  ∃ k', (if bool_decide (bytes = []) then mret true else on_kernel (copy_to_current_user ptr bytes)) s = (Ok true, with_kern k' s) ∧
    sound_kernel k' ∧ stored ptr bytes (kern s) k'.
Proof.
  intros Hk Hid Hu Hlen. case_bool_decide as Hb.
  - exists (kern s). rewrite with_kern_same. split_and!; [done|done|]. split_and!; [done..|]. subst bytes. intros a.
    destruct (current_view (kern s) a) as [[b fl]|]; [|done]. simpl. rewrite overlay_out; [done|]. rewrite zlen_nil. lia.
  - destruct (copy_after_validation (kern s) ptr len bytes Hk Hu Hlen) as (k'&E&Hst). exists k'. unfold on_kernel. rewrite E.
    split_and!; [done| |done]. pose proof (stored_sound ptr bytes (kern s) Hk Hid) as Hs. by rewrite E in Hs.
Qed.

(** C27: READ hands over the next bytes, exactly: when the buffer is at most 4096
    bytes, writable by the caller and the handle open, the call returns how many
    bytes there are up to the end of the file, stores them at the buffer's start,
    moves the file's offset past them, and changes no other byte the process
    sees, no other file, and nothing else of the system. Otherwise it returns -1
    and changes nothing at all: no data is consumed by a failing call. *)
Theorem read_delivers_next_bytes handle ptr len s :
  system_reachable s → next_id (kern s) < u32_max → register_value handle → register_value len →
  ∃ n s', finish (sys_read handle ptr len) s = Some (Returned n, s') ∧
    ((n = -1 ∧ s' = s ∧ ∀ p f, ¬ read_granted handle ptr len (kern s) p f) ∨
     ∃ p f p', read_granted handle ptr len (kern s) p f ∧ n = Z.min len (zlen (file_data f) - file_offset f) ∧
       s' = with_kern (kern s') s ∧ current_process (kern s') = Some p' ∧
       updated handle (Some (mk_file (file_data f) (file_offset f + n))) p p' ∧
       let bytes := slice (file_data f) (Z.to_nat (file_offset f)) (Z.to_nat (file_offset f + n)) in
       zlen bytes = n ∧
       ∀ a, current_view (kern s') a = (λ bf, (overlay ptr bytes a bf.1, bf.2)) <$> current_view (kern s) a).
Proof.
  intros Hk%reachable_sound Hid [Hh _] [Hlen _].
  unfold finish, sys_read, mbind, M_bind, check, mensure, mlift, ensure, ask, require.
  destruct (Z.leb_spec handle u32_max).
  2:{ exists (-1), s. split; [done|]. left. split_and!; [done|done|]. intros p f (_&_&Hp&Hf).
      destruct (current_process_ok _ _ Hk Hp) as [Hok _]. pose proof (file_handle_small _ _ _ Hok Hf). lia. }
  destruct (Z.leb_spec len MAX_FILE_IO_LEN).
  2:{ exists (-1), s. split; [done|]. left. split_and!; [done|done|]. intros p f (?&_). lia. }
  unfold MAX_FILE_IO_LEN in *. pose proof (validate_spec (kern s) ptr len true Hk Hlen) as Hv.
  destruct (validate_current_user_range ptr len true (kern s)).
  2:{ exists (-1), s. split; [done|]. left. split_and!; [done|done|]. intros p f (_&Hu&_). by apply Hv in Hu. }
  assert (user_range (kern s) ptr len true) as Hu by (by apply Hv). clear Hv.
  pose proof (peek_bounds (kern s) handle len) as Hb. unfold peek_file_for_current_process in *.
  destruct (current_process (kern s)) as [p|] eqn:Hp; cbn [mbind option_bind] in *.
  2:{ exists (-1), s. split; [done|]. left. split_and!; [done|done|]. intros p f (_&_&?&_). congruence. }
  destruct (current_process_ok _ _ Hk Hp) as [Hok _].
  destruct (run_file_op_spec (PeekOp handle len) p Hok ltac:(simpl; unfold u32_max; lia)) as [_ [_ Hpeek]]. rewrite Hpeek in *.
  destruct (file handle p) as [f|] eqn:Hf; cbn [fmap option_fmap option_map ok_or] in *.
  2:{ exists (-1), s. split; [done|]. left. split_and!; [done|done|]. intros p' f (_&_&?&?). congruence. }
  destruct (Hb _ _ _ Hk ltac:(unfold u32_max; lia) eq_refl) as (Hab&Hbl&Hn). clear Hb. unfold mlift. cbv beta iota.
  set (off := file_offset f) in *. set (data := file_data f) in *. set (y := Z.min (off + len) (zlen data)) in *.
  rewrite (proj2 (Z.ltb_ge y off)), (proj2 (Z.ltb_ge (zlen data) y)) by lia. cbn [orb].
  set (bytes := slice data (Z.to_nat off) (Z.to_nat y)).
  assert (zlen bytes = y - off) as Hbytes by (apply zlen_slice; lia).
  destruct (copy_nonempty_spec s ptr len bytes Hk Hid Hu ltac:(lia)) as (k1&E1&Hk1&Hst).
  cbv beta iota. rewrite E1. cbn [kern with_kern]. unfold on_kernel. cbn [kern with_kern].
  pose proof (stored_process _ _ _ _ Hst) as Hp1. rewrite Hp in Hp1.
  destruct (advance_spec handle (zlen bytes) k1 p f Hk1 Hp1 Hf) as (k2&p'&E2&Hp2&Hup&Hview); [unfold u32_max; lia|fold off data; lia|].
  rewrite E2. exists (zlen bytes), (with_kern k2 s). split; [by destruct s|]. right. exists p, f, p'. cbn [kern with_kern].
  split; [by split_and!|]. split; [fold off data; lia|]. split; [done|]. split; [done|]. split; [exact Hup|].
  fold off data. replace (off + zlen bytes) with y by lia. fold bytes. split; [done|].
  intros a. rewrite Hview. apply Hst.
Qed.

(** ** Polling input *)

(** The caller owns the keyboard and has room for an event. *)
Definition owns_foreground s : Prop :=
  ∃ id, current_task_id (kern s) = Some id ∧ foreground_process_id (sys_keyboard s) = Some id.
Definition poll_granted ptr len s : Prop :=
  owns_foreground s ∧ ENCODED_EVENT_LEN <= len ∧ user_range (kern s) ptr ENCODED_EVENT_LEN true.

Lemma is_foreground_spec s : is_foreground s = (Ok tt, s) ∧ owns_foreground s ∨ is_foreground s = (Err "rejected", s) ∧ ¬ owns_foreground s.
Proof.
  unfold is_foreground, owns_foreground, mbind, M_bind, check, mensure, ask, require, mlift, ensure.
  destruct (current_task_id (kern s)) as [id|]; cbn [ok_or].
  - case_bool_decide as E; [left|right]; (split; [done|]); [by exists id|]. intros (id'&[= <-]&?). done.
  - right. split; [done|]. intros (id'&?&_). done.
Qed.

Lemma length_to_le_bytes e : zlen (Input.to_le_bytes e) = ENCODED_EVENT_LEN.
Proof. by destruct e. Qed.

Lemma dequeue_spec now q :
  match dequeue now q with
  | (Some e, q') => event <$> queue q = e :: (event <$> queue q')
  | (None, q') => queue q = [] ∧ q' = q
  end.
Proof. unfold dequeue. destruct (queue q) as [|x r] eqn:E; [done|]. by destruct (is_move (event x)). Qed.

(** C28: INPUT_POLL loses no event: the foreground process with a writable buffer
    of at least 8 bytes gets the oldest event, encoded into its buffer, and the
    rest of the queue stays for later (0 when there is none); any other caller or
    buffer gets -1 and the queue, like everything else, stays as it was. *)
Theorem input_poll_loses_nothing ptr len s :
  system_reachable s →
  ∃ n s', finish (sys_input_poll ptr len) s = Some (Returned n, s') ∧
    ((n = -1 ∧ s' = s ∧ ¬ poll_granted ptr len s) ∨
     (n = 0 ∧ s' = s ∧ poll_granted ptr len s ∧ queue (sys_input s) = []) ∨
     ∃ e, n = 1 ∧ poll_granted ptr len s ∧ event <$> queue (sys_input s) = e :: (event <$> queue (sys_input s')) ∧
       stored ptr (Input.to_le_bytes e) (kern s) (kern s') ∧ s' = with_kern (kern s') (with_sys_input (sys_input s') s)).
Proof.
  intros Hk%reachable_sound. unfold finish, sys_input_poll, mbind, M_bind. destruct (is_foreground_spec s) as [[-> Hfg]|[-> Hfg]].
  2:{ exists (-1), s. split; [done|]. left. split_and!; [done|done|]. by intros (?&_). }
  unfold check, mensure, ensure, ask. destruct (Z.leb_spec ENCODED_EVENT_LEN len).
  2:{ exists (-1), s. split; [done|]. left. split_and!; [done|done|]. intros (_&?&_). lia. }
  unfold mlift. pose proof (validate_spec (kern s) ptr ENCODED_EVENT_LEN true Hk ltac:(done)) as Hv.
  destruct (validate_current_user_range _ _ _ _).
  2:{ exists (-1), s. split; [done|]. left. split_and!; [done|done|]. intros (_&_&Hu). by apply Hv in Hu. }
  assert (user_range (kern s) ptr ENCODED_EVENT_LEN true) as Hu by (by apply Hv). cbv beta iota.
  pose proof (dequeue_spec (Scheduler.ticks (kern s)) (sys_input s)) as Hd.
  destruct (dequeue _ _) as [[e|] q'].
  - destruct (copy_after_validation (kern s) ptr ENCODED_EVENT_LEN (Input.to_le_bytes e) Hk Hu) as (k'&E&Hst); [by rewrite length_to_le_bytes|].
    unfold on_kernel. cbn [kern with_sys_input]. rewrite E. exists 1, (with_kern k' (with_sys_input q' s)). split; [done|]. right. right.
    exists e. by split_and!.
  - destruct Hd as [Hq ->]. exists 0, s. split; [by destruct s|]. right. left. by split_and!.
Qed.

(** ** Presenting a frame *)

Definition present_granted ptr len s (sc : Screen) : Prop :=
  owns_foreground s ∧ screen s = Some sc ∧ len = byte_len (fb_info sc) ∧ user_range (kern s) ptr len false.

(** C29: presenting a frame, copied in 64 KiB batches, is one copy of the whole
    frame: for the foreground process with a readable buffer of exactly the
    screen's size, every byte of the screen becomes the byte the process sees at
    that place of its buffer, and nothing else changes; any other request gets
    -1 and leaves the screen as it was. *)
Theorem present_shows_exact_frame ptr len s :
  system_reachable s → (∀ sc, screen s = Some sc → zlen (fb_buffer sc) = byte_len (fb_info sc)) →
  ∃ n s', finish (sys_display_present ptr len) s = Some (Returned n, s') ∧
    ((n = -1 ∧ s' = s ∧ ∀ sc, ¬ present_granted ptr len s sc) ∨
     ∃ sc sc', n = 0 ∧ present_granted ptr len s sc ∧ s' = with_screen (Some sc') s ∧ fb_info sc' = fb_info sc ∧
       zlen (fb_buffer sc') = len ∧
       ∀ i, 0 <= i < len → fb_buffer sc' !! Z.to_nat i = fst <$> current_view (kern s) (ptr + i)).
Proof.
  intros Hk%reachable_sound Hscreen. unfold finish, sys_display_present, mbind, M_bind. destruct (is_foreground_spec s) as [[-> Hfg]|[-> Hfg]].
  2:{ exists (-1), s. split; [done|]. left. split_and!; [done|done|]. by intros sc (?&_). }
  unfold present. destruct (screen s) as [sc|] eqn:Esc.
  2:{ exists (-1), s. split; [by destruct s; simpl in *; rewrite Esc|]. left. split_and!; [done|done|]. intros sc (_&?&_). congruence. }
  destruct (Z.eqb_spec len (byte_len (fb_info sc))) as [->|Hlen]; cbn [negb].
  2:{ exists (-1), s. split; [by destruct s; simpl in *; rewrite Esc|]. left. split_and!; [done|done|]. intros sc' (_&?&?&_). congruence. }
  assert (0 <= byte_len (fb_info sc)) as Hlen by (rewrite <- Hscreen; [apply zlen_nonneg|done]).
  pose proof (validate_spec (kern s) ptr (byte_len (fb_info sc)) false Hk Hlen) as Hv.
  destruct (checked_user_virt_addr ptr) as [a|e] eqn:Ea.
  2:{ exists (-1), s. split; [by destruct s; simpl in *; rewrite Esc|]. left. split_and!; [done|done|].
      intros sc' (_&_&_&space&_&Hb&_). pose proof (proj2 (checked_user_virt_addr_Ok ptr ptr) (conj eq_refl Hb)). congruence. }
  apply checked_user_virt_addr_Ok in Ea as [-> _]. destruct (validate_current_user_range _ _ _ _); cbn [negb].
  2:{ exists (-1), s. split; [by destruct s; simpl in *; rewrite Esc|]. left. split_and!; [done|done|].
      intros sc' (_&Hsc&->&Hu). rewrite Esc in Hsc. injection Hsc as <-. by apply Hv in Hu. }
  assert (user_range (kern s) ptr (byte_len (fb_info sc)) false) as Hu by (by apply Hv).
  rewrite (batched_copy_spec _ ptr (byte_len (fb_info sc)) 0) by
    (first [by rewrite Hscreen|by apply chunk_fuel_enough|done|lia]).
  eexists 0, _. split; [done|]. right. exists sc. eexists. split; [done|]. split; [by split_and!|]. split; [done|]. split; [done|].
  cbn [fb_buffer]. split; [unfold zlen; rewrite length_loads; lia|]. intros i Hi. rewrite (loads_view _ _ _ _ Hk Hu Hi). unfold loads.
  rewrite list_lookup_fmap, lookup_seq_lt by lia. simpl. do 2 f_equal. lia.
Qed.
End claims.

(** ** A process called "one" with a path and a file *)

Module SyscallSample.
#[local] Existing Instance sim_addr.
#[local] Existing Instance sim_addr_spec.
#[local] Existing Instance sim_x86.
#[local] Existing Instance PagingSafety.Sample.sample_spec.
#[local] Existing Instance PagingSafety.Sample.sample_map.
#[local] Existing Instance PagingSafety.Sample.sample_heap.

Definition buffer : Z := Process.stack_bottom.
Definition events : list Event :=
  TaskSample.spawns ++ [YieldNow 0x100; YieldNow 0x200; YieldNow 0x300; CopyToUser buffer (bs "/data/one");
   FileCall (OpenFileOp (bs "hello"))].
Definition kernel : Kernel sim_pt := default (unstarted PagingSafety.Sample.machine) (TaskSample.start events).
Definition keys : Keyboard := mk_keyboard false false false 4 [].
Definition queued : InputQueue := mk_input [mk_queued (KeyDown 97) 5; mk_queued (MouseMove 3 (-4)) 6] 2 0 0 0 0 0.
Definition panel : Screen := mk_screen (mk_fb 6 2 1 2 3 Rgb) (replicate 6 Byte.x00).

(** The tree holds an empty /data. *)
Definition disk_state : vfs_state sim_disk := (vfs_run VCreateDir [slash] (bs "/data") w_vfs).2.
Definition tree : FileSystem := {| root := EDir [(bs "data", EDir [])] |}.
Definition system : System sim_pt sim_disk := mk_sys kernel keys queued disk_state (Some panel) [] u64_max.

Example calls_run :
  fst <$> dispatch 0x400 0 SYS_GETPID 0 0 0 system = Some (Returned 4) ∧
  fst <$> dispatch 0x400 0 SYS_READ 3 buffer 4 system = Some (Returned 4) ∧
  fst <$> dispatch 0x400 0 SYS_REMOVE buffer 9 0 system = Some (Returned (-1)) ∧
  fst <$> dispatch 0x400 0 SYS_EXIT 0 0 0 system = Some Killed ∧
  fst <$> dispatch 0x400 0 99 0 0 0 system = Some (Returned (-1)).
Proof. split_and!; vm_compute; reflexivity. Qed.

Lemma system_reached : system_reachable system.
Proof.
  unfold system_reachable, system. cbn [kern].
  apply TaskSample.start_reachable; [|by vm_compute]. apply Forall_app. split; [apply TaskSample.spawns_ok|].
  repeat (apply Forall_cons; split); done.
Qed.

Lemma disk_written : vfs_run VCreateDir [slash] (bs "/data") w_vfs = (Ok tt, disk_state).
Proof.
  unfold disk_state. assert ((vfs_run VCreateDir [slash] (bs "/data") w_vfs).1 = Ok tt) as E by (vm_compute; reflexivity).
  destruct (vfs_run VCreateDir [slash] (bs "/data") w_vfs) as [r v]. cbn [fst snd] in *. by rewrite E.
Qed.

Lemma disk_ready : vfs_ready disk_state w_table tree.
Proof.
  assert (∀ p f', apply_op (backend_op VCreateDir p) {| root := EDir [] |} = Ok f' → fits f') as Hfits.
  { intros p f'. apply room_fits. unfold room. vm_compute. lia. }
  destruct (vfs_run_ready VCreateDir [slash] (bs "/data") w_vfs w_table {| root := EDir [] |} (Ok tt) disk_state
    w_vfs_ready canonical_root eq_refl Hfits disk_written) as (m&bp&f'&Hres&_&_&Hop&Hv).
  assert (bp = bs "/data") as ->.
  { assert (snd <$> (resolve_path [slash] (bs "/data") w_vfs).1 = Ok (bs "/data")) as E by (vm_compute; reflexivity).
    rewrite Hres in E. by injection E. }
  assert (apply_op (backend_op VCreateDir (bs "/data")) {| root := EDir [] |} = Ok tree) as E by (vm_compute; reflexivity).
  rewrite E in Hop. by injection Hop as <-.
Qed.

Lemma syscalls_are_kernel_events_witness :
  fst <$> dispatch 0x400 0 SYS_READ 3 buffer 4 system = Some (Returned 4) ∧
  ∃ o s' es, dispatch 0x400 0 SYS_READ 3 buffer 4 system = Some (o, s') ∧
    Forall event_ok es ∧ zlen es <= 2 ∧ run_events es (kern system) = Some (kern s') ∧ kernel_safe (kern s').
Proof.
  split; [vm_compute; reflexivity|].
  apply (syscalls_are_kernel_events 0x400 0 SYS_READ 3 buffer 4 system system_reached); vm_compute; (discriminate || (split; [discriminate|reflexivity])).
Defined.

(** A path that starts on the last bytes of the stack. *)
Lemma hostile_pointers_are_refused_witness :
  used_ranges SYS_OPEN (Process.stack_top - 4) 8 0 system = [(Process.stack_top - 4, 8, false)] ∧
  dispatch 0x400 0 SYS_OPEN (Process.stack_top - 4) 8 0 system = Some (Returned (-1), system).
Proof.
  split; [reflexivity|].
  apply (hostile_pointers_are_refused 0x400 0 SYS_OPEN (Process.stack_top - 4) 8 0 system (Process.stack_top - 4, 8, false) system_reached);
    [by split|by split|apply list_elem_of_here|].
  intros Hu%validate_spec; [vm_compute in Hu; discriminate|apply reachable_sound, system_reached|done].
Defined.

Lemma mkdir_runs : ∃ s', dispatch 0x400 0 SYS_MKDIR buffer 9 0 system = Some (Returned 0, s').
Proof.
  assert (fst <$> dispatch 0x400 0 SYS_MKDIR buffer 9 0 system = Some (Returned 0)) as E by (vm_compute; reflexivity).
  apply fmap_Some in E as ([o s']&E&->). by exists s'.
Qed.

Lemma syscalls_confine_mutations_witness :
  ∃ s', dispatch 0x400 0 SYS_MKDIR buffer 9 0 system = Some (Returned 0, s') ∧
    ∃ f', vfs_live (vfs s') w_table f' ∧ outside_unchanged (bs "one") tree f' ∧
      (vfs_ready (vfs system) w_table tree → room tree → vfs_ready (vfs s') w_table f').
Proof.
  destruct mkdir_runs as [s' E]. exists s'. split; [done|].
  apply (syscalls_confine_mutations 0x400 0 SYS_MKDIR buffer 9 0 system (Returned 0) s' (bs "one") w_table tree system_reached);
    [vm_compute; reflexivity|apply vfs_ready_live, disk_ready| |exact E].
  repeat constructor. discriminate.
Defined.

Lemma read_delivers_next_bytes_witness :
  fst <$> finish (sys_read 3 buffer 4) system = Some (Returned 4) ∧
  ∃ n s', finish (sys_read 3 buffer 4) system = Some (Returned n, s') ∧
    ((n = -1 ∧ s' = system ∧ ∀ p f, ¬ read_granted 3 buffer 4 (kern system) p f) ∨
     ∃ p f p', read_granted 3 buffer 4 (kern system) p f ∧ n = Z.min 4 (zlen (file_data f) - file_offset f) ∧
       s' = with_kern (kern s') system ∧ current_process (kern s') = Some p' ∧
       updated 3 (Some (mk_file (file_data f) (file_offset f + n))) p p' ∧
       let bytes := slice (file_data f) (Z.to_nat (file_offset f)) (Z.to_nat (file_offset f + n)) in
       zlen bytes = n ∧
       ∀ a, current_view (kern s') a = (λ bf, (overlay buffer bytes a bf.1, bf.2)) <$> current_view (kern system) a).
Proof.
  split; [vm_compute; reflexivity|].
  apply (read_delivers_next_bytes 3 buffer 4 system system_reached); vm_compute; (reflexivity || (split; [discriminate|reflexivity])).
Defined.

Lemma input_poll_loses_nothing_witness :
  fst <$> finish (sys_input_poll buffer 8) system = Some (Returned 1) ∧
  ∃ n s', finish (sys_input_poll buffer 8) system = Some (Returned n, s') ∧
    ((n = -1 ∧ s' = system ∧ ¬ poll_granted buffer 8 system) ∨
     (n = 0 ∧ s' = system ∧ poll_granted buffer 8 system ∧ queue (sys_input system) = []) ∨
     ∃ e, n = 1 ∧ poll_granted buffer 8 system ∧ event <$> queue (sys_input system) = e :: (event <$> queue (sys_input s')) ∧
       stored buffer (Input.to_le_bytes e) (kern system) (kern s') ∧ s' = with_kern (kern s') (with_sys_input (sys_input s') system)).
Proof. split; [vm_compute; reflexivity|]. apply (input_poll_loses_nothing buffer 8 system system_reached). Defined.

Lemma present_shows_exact_frame_witness :
  fst <$> finish (sys_display_present buffer 6) system = Some (Returned 0) ∧
  ∃ n s', finish (sys_display_present buffer 6) system = Some (Returned n, s') ∧
    ((n = -1 ∧ s' = system ∧ ∀ sc, ¬ present_granted buffer 6 system sc) ∨
     ∃ sc sc', n = 0 ∧ present_granted buffer 6 system sc ∧ s' = with_screen (Some sc') system ∧ fb_info sc' = fb_info sc ∧
       zlen (fb_buffer sc') = 6 ∧
       ∀ i, 0 <= i < 6 → fb_buffer sc' !! Z.to_nat i = fst <$> current_view (kern system) (buffer + i)).
Proof.
  split; [vm_compute; reflexivity|]. apply (present_shows_exact_frame buffer 6 system system_reached). by intros sc [= <-].
Defined.
End SyscallSample.
