(* ===== verification/Interrupts.v ===== *)
(** Interrupts and faults: the handlers of kernel/interrupts.rs, on the whole
    machine.

    [World] puts together what the handlers share: what system calls reach
    (Syscall.v) and the mouse. A step of the machine is an interrupt, a fault,
    a system call or the sleep of the heartbeat task; every handler runs as one
    step. The acknowledgements of the interrupt controller, the time stamps of
    the ticks and the log lines are not modelled. *)

From S2P Require Import Prelude Str Device Idt TuwaiqTree TuwaiqFs Fs FsPersist Vfs VfsData Input X86 Frames Paging PagingSpaces PagingRange PagingCopy PagingSafety Wake Scheduler SchedulerInv OpenFiles Process Vm Display VmSafety VmUnmap TaskInv TaskSafety Syscall SyscallSteps SyscallData SyscallSafety.

Definition EXIT_CODE_SEGV : Z := 139.
Definition EXIT_CODE_ILL : Z := 132.
Definition EXIT_CODE_FPE : Z := 136.

(** The exceptions that instructions of a program can raise ([int3] counts as
    [GeneralProtectionFault]: its gate is not open to programs). *)
Inductive Exception :=
| DivideError
| DebugException
| InvalidOpcode
| DeviceNotAvailable
| StackSegmentFault
| GeneralProtectionFault
| PageFault
| X87FloatingPoint
| AlignmentCheck
| SimdFloatingPoint.

Definition exception_vector (e : Exception) : Z :=
  match e with
  | DivideError => DIVIDE_ERROR
  | DebugException => 1
  | InvalidOpcode => INVALID_OPCODE
  | DeviceNotAvailable => 7
  | StackSegmentFault => 12
  | GeneralProtectionFault => GENERAL_PROTECTION_FAULT
  | PageFault => PAGE_FAULT
  | X87FloatingPoint => 16
  | AlignmentCheck => 17
  | SimdFloatingPoint => 19
  end.

(** The handler the processor starts: that of the vector's gate. Without one it
    raises "segment not present" - vector 11, which has no gate either - and from
    that a double fault. *)
Definition NOT_PRESENT : Z := 11.
Definition exception_handler (e : Exception) : option Handler :=
  match IDT !! exception_vector e with
  | Some g => Some (handler g)
  | None => handler <$> match IDT !! NOT_PRESENT with Some g => Some g | None => IDT !! DOUBLE_FAULT end
  end.

(** The exit code a handler ends the faulting process with; the handler of the
    double fault ends nothing and halts. *)
Definition handler_code (h : Handler) : option Z :=
  match h with
  | PageFaultHandler => Some EXIT_CODE_SEGV
  | GeneralProtectionFaultHandler | InvalidOpcodeHandler => Some EXIT_CODE_ILL
  | DivideErrorHandler => Some EXIT_CODE_FPE
  | _ => None
  end.
Definition fault_code (e : Exception) : option Z := exception_handler e ≫= handler_code.

(** The exceptions that end the process: those with a gate. *)
Definition ends_process (e : Exception) : bool := bool_decide (is_Some (fault_code e)).

(** [presents] counts the frames shown ([PRESENT_COUNT]). *)
Record World (PT D : Type) := mk_world { sys : System PT D; pointer : Mouse; presents : Z }.
Arguments mk_world {PT D}.
Arguments sys {PT D}.
Arguments pointer {PT D}.
Arguments presents {PT D}.

(** [rsp]: the stack pointer a switch saves; [cs]: the code segment the fault
    interrupted. *)
Inductive Step :=
| TimerTick (rsp : Z)
| KeyboardInterrupt (scancode : Z)
| MouseInterrupt (byte : Z)
| Fault (e : Exception) (cs rsp : Z)
| SystemCall (rsp stack : Z) (frame : SyscallFrame)
| HeartbeatSleeps (rsp : Z).

Section handlers.
Context {PT D : Type} `{X86Addr} `{!X86_64 PT} `{BlockDevice D}.
Implicit Types (w : World PT D).

Definition with_sys s w : World PT D := mk_world s (pointer w) (presents w).
Definition with_kernel k w : World PT D := with_sys (with_kern k (sys w)) w.

(** *** The input devices' view of the machine *)

Definition io_of w : io :=
  mk_io (sys_keyboard (sys w)) (sys_input (sys w)) (pointer w) (Scheduler.wake (kern (sys w))) (Scheduler.ticks (kern (sys w)))
    ((λ d, (width d, height d)) <$> display_info (screen (sys w))).

Definition with_io (i : io) w : World PT D :=
  let s := sys w in
  mk_world (mk_sys (Scheduler.with_wake (Input.wake i) (kern s)) (keyboard i) (input i) (vfs s) (screen s) (serial s) (mmap_fail_after s))
    (mouse i) (presents w).

Definition on_io (f : io → io) w : World PT D := with_io (f (io_of w)) w.

(** *** Handlers: [None] is a kernel panic or the halt after a kernel fault *)

Definition timer_interrupt_handler (rsp : Z) w : option (World PT D) :=
  k ← timer_interrupt rsp (kern (sys w)); Some (with_kernel k w).

Definition keyboard_interrupt_handler (scancode : Z) : World PT D → World PT D := on_io (on_scancode scancode).
Definition mouse_interrupt_handler (byte : Z) : World PT D → World PT D := on_io (on_byte byte).

(** [stack_frame.code_segment & 0b11 == 3] *)
Definition from_ring3 (cs : Z) : bool := Z.land cs 3 =? 3.

Definition fault_handler (e : Exception) (cs rsp : Z) w : option (World PT D) :=
  code ← fault_code e;
  if from_ring3 cs then k ← exit_with_code code rsp (kern (sys w)); Some (with_kernel k w)
  else None.

(** A system call; a frame that was shown is counted. *)
Definition system_call (rsp stack : Z) (frame : SyscallFrame) w : option (World PT D) :=
  '(o, s) ← syscall_dispatch rsp stack frame (sys w);
  let shown := match o with Returned f => (rax frame =? SYS_DISPLAY_PRESENT) && (rax f =? 0) | Killed => false end in
  Some (mk_world s (pointer w) (if shown : bool then wrapping_add u64_max (presents w) 1 else presents w)).

Definition world_step (step : Step) w : option (World PT D) :=
  match step with
  | TimerTick rsp => timer_interrupt_handler rsp w
  | KeyboardInterrupt scancode => Some (keyboard_interrupt_handler scancode w)
  | MouseInterrupt byte => Some (mouse_interrupt_handler byte w)
  | Fault e cs rsp => fault_handler e cs rsp w
  | SystemCall rsp stack frame => system_call rsp stack frame w
  | HeartbeatSleeps rsp => k ← sleep_ticks 100 rsp (kern (sys w)); Some (with_kernel k w)
  end.

Definition world_run (steps : list Step) w : option (World PT D) := foldl (λ o step, w ← o; world_step step w) (Some w) steps.
End handlers.

(** A step the kernel is made for: the kernel itself does not fault, no program
    raises an exception that has no gate, and the arguments of a call come from
    registers. *)
Definition step_ok (step : Step) : Prop :=
  match step with
  | Fault e cs _ => from_ring3 cs = true ∧ ends_process e = true
  | SystemCall _ _ frame => register_value (rdi frame) ∧ register_value (rsi frame) ∧ register_value (rdx frame)
  | _ => True
  end.

(** What a step may use up: an identifier for a program that is started, and a
    record of the volume for a file or directory that is made. *)
Definition calls_number (num : Z) (step : Step) : bool :=
  match step with SystemCall _ _ frame => rax frame =? num | _ => false end.
Definition spawns_task (step : Step) : bool := calls_number SYS_SPAWN step.
Definition makes_record (step : Step) : bool := calls_number SYS_PUT_FILE step || calls_number SYS_MKDIR step.
Definition count (f : Step → bool) (steps : list Step) : nat := length (List.filter f steps).
