(* ===== verification/InterruptsSafety.v ===== *)
(** The whole machine stays safe: whatever interrupts, faults of programs and
    system calls happen, in whatever order, no step panics, and the kernel, the
    input devices and the filesystem keep their invariants together. *)

From S2P Require Import Prelude Str Device Idt TuwaiqTree TuwaiqFs Fs FsPersist Vfs VfsData Input X86 Frames Paging PagingSpaces PagingRange PagingCopy PagingSafety Wake Scheduler SchedulerInv OpenFiles Process Vm Display VmSafety VmUnmap TaskInv TaskSafety Syscall SyscallSteps SyscallData SyscallSafety Interrupts.

(** ** System calls and the devices *)

Definition queue_good (q : InputQueue) : Prop := (length (queue q) ≤ INPUT_QUEUE_CAPACITY)%nat ∧ collapsed (event <$> queue q).

Section devices.
Context {PT D : Type} `{!BootMap, !KernelFrames, !X86Addr, !X86AddrSpec, !X86_64 PT, !X86_64Spec PT USER_REGION_PML4_INDEX} `{BlockDeviceSpec D}.
Implicit Types (s : System PT D).

(** No system call touches the keyboard or changes the shape of the display, the
    mounts or the shell's directory, and what it takes from the queue leaves the
    queue well formed. *)
Definition devices_kept s s' : Prop :=
  sys_keyboard s' = sys_keyboard s ∧ display_info (screen s') = display_info (screen s) ∧
  (queue_good (sys_input s) → queue_good (sys_input s')) ∧ same_names (vfs s) (vfs s').

#[global] Instance devices_kept_preorder : PreOrder devices_kept.
Proof.
  split; [by intros s|]. intros s1 s2 s3 (Ea&Eb&Ec&Eg) (Ed&Ee&Ef&Eh). unfold devices_kept. rewrite Ed, Ee. split_and!; auto.
  by transitivity (vfs s2).
Qed.

Lemma devices_on_vfs {A} (m : M (vfs_state D) A) : respects same_names m → respects devices_kept (on_vfs (PT := PT) m).
Proof. intros Hm s r s'. unfold on_vfs. destruct (m (vfs s)) as [r1 v] eqn:E. intros [= <- <-]. apply Hm in E. by split_and!. Qed.
Lemma keeps_names {A} (m : M (vfs_state D) A) : respects keeps m → respects same_names m.
Proof. intros Hm v r v' E. by apply Hm in E as [? _]. Qed.
Lemma devices_on_kernel {A} (f : Kernel PT → A * Kernel PT) : respects devices_kept (on_kernel f).
Proof. intros s r s'. unfold on_kernel. destruct (f (kern s)). by intros [= <- <-]. Qed.
Lemma devices_ask {A} (f : System PT D → A) : respects devices_kept (ask f).
Proof. by intros s r s' [= <- <-]. Qed.
Lemma devices_require {A} (o : option A) : respects devices_kept (require o : M (System PT D) A).
Proof. apply respects_pure. apply _. Qed.
Lemma devices_check b : respects devices_kept (check b : M (System PT D) unit).
Proof. apply respects_pure. apply _. Qed.
Lemma devices_serial (f : System PT D → list byte) : respects devices_kept (mmodify (λ s, with_serial (f s) s)).
Proof. by intros s r s' [= <- <-]. Qed.
Lemma devices_present ptr len :
  respects devices_kept (λ s : System PT D, let '(r, sc) := present ptr len (kern s) (screen s) in (Ok r, with_screen sc s)).
Proof.
  intros s r s'. destruct (present ptr len (kern s) (screen s)) as [r1 sc] eqn:E. intros [= <- <-]. split_and!; [done| |done|done].
  change (display_info sc = display_info (screen s)). revert E. unfold present. destruct (screen s) as [sc0|]; [|by intros [= _ <-]].
  destruct (negb _); [by intros [= _ <-]|]. destruct (checked_user_virt_addr ptr); [|by intros [= _ <-]].
  destruct (negb _); by intros [= _ <-].
Qed.
Lemma dequeue_good now q : queue_good q → queue_good (dequeue now q).2.
Proof.
  intros [Hlen Hc]. unfold dequeue. destruct (queue q) as [|x r] eqn:Hq; [by unfold queue_good; simpl; rewrite Hq|].
  simpl in Hlen, Hc. apply collapsed_cons in Hc. destruct (is_move _); unfold queue_good; simpl; (split; [lia|done]).
Qed.
Lemma devices_dequeue : respects devices_kept (λ s : System PT D, let '(e, q) := dequeue (Scheduler.ticks (kern s)) (sys_input s) in (Ok e, with_sys_input q s)).
Proof.
  intros s r s'. pose proof (dequeue_good (Scheduler.ticks (kern s)) (sys_input s)) as Hd.
  destruct (dequeue _ _) as [e q]. by intros [= <- <-].
Qed.

Lemma devices_finish (m : M (System PT D) Z) s o s' : respects devices_kept m → finish m s = Some (o, s') → devices_kept s s'.
Proof.
  intros Hm. unfold finish. destruct (m s) as [[z|e] s1] eqn:E; apply Hm in E; [by intros [= _ <-]|].
  destruct (String.eqb e "panic"); [done|]. by intros [= _ <-].
Qed.
End devices.

(** The filesystem operations of the calls leave the names. *)
Ltac vfs_names m :=
  lazymatch m with
  | mlift _ => apply keeps_names, pure_keeps
  | Vfs.kind _ _ => apply keeps_names, kind_keeps
  | read_file _ _ => apply keeps_names, read_file_keeps
  | list_dir _ _ => apply keeps_names, list_dir_keeps
  | Vfs.metadata _ _ => apply keeps_names, metadata_keeps
  | write_file ?wd ?path ?bytes => apply (vfs_run_names (VWrite bytes) wd path)
  | remove ?wd ?path => apply (vfs_run_names VRemove wd path)
  | create_dir ?wd ?path => apply (vfs_run_names VCreateDir wd path)
  end.

Ltac devices_step :=
  first [ match goal with |- respects _ (_ ≫= _) => apply respects_bind; [apply devices_kept_preorder| |intros ?] end
        | apply devices_ask | apply devices_require | apply devices_check | apply devices_on_kernel | apply devices_present
        | apply devices_dequeue | apply devices_serial
        | lazymatch goal with |- respects devices_kept (on_vfs ?m) => apply devices_on_vfs; vfs_names m end
        | respects_step ].

Section safety.
Context {PT D : Type} `{!BootMap, !KernelFrames, !X86Addr, !X86AddrSpec, !X86_64 PT, !X86_64Spec PT USER_REGION_PML4_INDEX} `{BlockDeviceSpec D}.
Implicit Types (s : System PT D) (k : Kernel PT) (w : World PT D).

Lemma dispatch_devices rsp stack num a1 a2 a3 s o s' : dispatch rsp stack num a1 a2 a3 s = Some (o, s') → devices_kept s s'.
Proof.
  unfold dispatch.
  repeat (match goal with |- context [if num =? ?c then _ else _] => destruct (num =? c) end;
    [first [apply devices_finish; unfold sys_write, sys_getpid, sys_display_info, sys_display_present, sys_input_poll, sys_uptime_ticks,
       sys_chdir, sys_getcwd, sys_open, sys_read, sys_close, sys_spawn, sys_readdir, sys_stat, sys_seek, sys_put_file, sys_remove,
       sys_mkdir, private_mutation_path, copy_user_path, process_cwd, is_foreground, copy_user_buffer_spec, panic;
       solve [repeat devices_step]
     |idtac]|]).
  - unfold sys_exit. destruct (exit_with_code _ _ _); [|done]. by intros [= _ <-].
  - unfold sys_yield. destruct (yield_now _ _); [|done]. by intros [= _ <-].
  - unfold sys_mmap. destruct (mmap_in_current_process _ _ _ _ _) as [[[? ?] ?]|]; [|done]. by intros [= _ <-].
  - unfold sys_munmap. destruct (munmap_in_current_process _ _ _ _) as [[? ?]|]; [|done]. by intros [= _ <-].
  - by intros [= _ <-].
Qed.

(** Without a process behind it, a mutation is refused. *)
Lemma unnamed_mutation s path allow : current_process_name (kern s) = None →
  ∃ r, private_mutation_path path allow s = (Err r, s).
Proof.
  intros Hname. unfold private_mutation_path, process_cwd, mbind, M_bind, ask, require, mlift.
  destruct (current_working_directory (kern s)) as [wd|]; cbn [ok_or]; [|eauto]. rewrite Hname. cbn [ok_or]. eauto.
Qed.

Definition refused {A} (m : M (System PT D) A) : Prop :=
  ∀ s r s', current_process_name (kern s) = None → m s = (r, s') → s' = s.

Lemma refused_bind {A B} (m : M (System PT D) A) (f : A → M (System PT D) B) :
  respects eq m → (∀ a, refused (f a)) → refused (m ≫= f).
Proof.
  intros Hm Hf s r s' Hname. unfold mbind, M_bind. destruct (m s) as [[a|e] s1] eqn:E; apply Hm in E as <-.
  - by apply Hf.
  - by intros [= _ <-].
Qed.

Lemma refused_path {B} path allow (f : str → M (System PT D) B) : refused (private_mutation_path path allow ≫= f).
Proof.
  intros s r s' Hname. destruct (unnamed_mutation s path allow Hname) as [e He].
  unfold mbind at 1, M_bind at 1. rewrite He. by intros [= _ <-].
Qed.

Ltac refused_step :=
  first [ apply refused_path | apply refused_bind; [|intros ?]
        | match goal with |- respects _ (_ ≫= _) => apply respects_bind; [apply _| |intros ?] end
        | apply ask_looks | apply require_looks | apply check_looks | respects_step
        | match goal with |- refused (let '(_, _) := ?x in _) => destruct x end ].

Lemma refused_finish (m : M (System PT D) Z) s o s' : refused m → current_process_name (kern s) = None →
  finish m s = Some (o, s') → s' = s.
Proof.
  intros Hm Hname. unfold finish. destruct (m s) as [[z|e] s1] eqn:E; apply Hm in E as ->; try done; [by intros [= _ <-]|].
  destruct (String.eqb e "panic"); [done|]. by intros [= _ <-].
Qed.

Lemma dispatch_unnamed rsp stack num a1 a2 a3 s o s' : mutates num = true → current_process_name (kern s) = None →
  dispatch rsp stack num a1 a2 a3 s = Some (o, s') → s' = s.
Proof.
  intros Hnum Hname. unfold mutates in Hnum. rewrite !orb_true_iff, !Z.eqb_eq in Hnum.
  destruct Hnum as [[-> | ->]| ->]; apply refused_finish; try done;
    unfold sys_put_file, sys_remove, sys_mkdir, copy_user_path, copy_user_buffer_spec; repeat refused_step.
Qed.

(** *** The filesystem through any step *)

(** What a run may still use up of the volume, [n] records more than [b]. Nothing
    is claimed of the volume when there is no budget for it. *)
Definition claim (n : nat) (b : option nat) : option nat := Nat.add n <$> b.

(** The filesystem between steps: the names are in order and, under a claim, the
    volume is in step with the tree and has room. *)
Definition volume_ok (b : option nat) v : Prop :=
  ∃ table, mount_table v = Some table ∧ Vfs.table_ok table ∧ root_only table ∧ (∃ wd, Vfs.cwd v = Some wd ∧ canonical wd) ∧
    match b with Some n => ∃ f, ready (storage v) f ∧ room_for n f | None => True end.

Lemma volume_in_step n v : volume_ok (Some n) v ↔ ∃ table f, vfs_ready v table f ∧ root_only table ∧ room_for n f.
Proof.
  split; [intros (table&?&?&?&?&f&?&?); exists table, f; by split_and!|].
  intros (table&f&(?&?&?&?)&?&?). exists table. split_and!; [done..|]. by exists f.
Qed.

Lemma volume_ok_mono n n' b v : (n' ≤ n)%nat → volume_ok (claim n b) v → volume_ok (claim n' b) v.
Proof.
  intros Hn (table&?&?&?&?&Hf). exists table. split_and!; [done..|]. destruct b as [j|]; [|done]. destruct Hf as (f&?&Hr).
  exists f. split; [done|]. eapply room_for_mono; [|exact Hr]. lia.
Qed.
Lemma claim_0 b : claim 0 b = b.
Proof. by destruct b. Qed.
Lemma claim_add n m b : claim (n + m) b = claim n (claim m b).
Proof. destruct b; [|done]. unfold claim. simpl. f_equal. lia. Qed.

Lemma volume_names v v' : same_names v v' → volume_ok None v → volume_ok None v'.
Proof. intros [Hc Hm] (table&?&?&?&?&_). exists table. rewrite Hc, Hm. by split_and!. Qed.
Lemma volume_unclaimed b v : volume_ok b v → volume_ok None v.
Proof. intros (table&?&?&?&?&_). exists table. by split_and!. Qed.

(** Going from [v] to [v'] takes at most [n] records of the volume. *)
Definition grows (n : nat) (v v' : vfs_state D) : Prop := ∀ b, volume_ok (claim n b) v → volume_ok b v'.

Lemma grows_intro n v v' : same_names v v' →
  (∀ table f j, vfs_ready v table f → root_only table → room_for (n + j) f → ∃ f', vfs_ready v' table f' ∧ room_for j f') → grows n v v'.
Proof.
  intros Hn Hf [j|] Hv; [|by eapply volume_names]. apply volume_in_step in Hv as (table&f&Hv&Ht&Hr).
  destruct (Hf table f j Hv Ht Hr) as (f'&?&?). apply volume_in_step. by exists table, f'.
Qed.

Lemma keeps_grows n v v' : keeps v v' → grows n v v'.
Proof.
  intros Hk. apply grows_intro; [by destruct Hk|]. intros table f j Hv _ Hr. exists f. split; [by eapply keeps_ready|].
  eapply room_for_mono; [|exact Hr]. lia.
Qed.

Lemma grows_trans n1 n2 v1 v2 v3 : grows n1 v1 v2 → grows n2 v2 v3 → grows (n1 + n2) v1 v3.
Proof. intros Hg1 Hg2 b Hv. rewrite claim_add in Hv. by apply Hg2, Hg1. Qed.

Lemma dispatch_grows rsp stack num a1 a2 a3 s o s' : sound_kernel (kern s) →
  dispatch rsp stack num a1 a2 a3 s = Some (o, s') → grows (call_records num) (vfs s) (vfs s').
Proof.
  intros Hk E. destruct (mutates num) eqn:Hnum.
  2:{ apply keeps_grows. by apply (dispatch_kept rsp stack num a1 a2 a3 _ o). }
  destruct (current_process_name (kern s)) as [name|] eqn:Hname.
  2:{ apply dispatch_unnamed in E as ->; [|done..]. apply keeps_grows. reflexivity. }
  apply grows_intro; [by apply dispatch_devices in E as (_&_&_&?)|]. intros table f j Hv Ht Hr.
  destruct (dispatch_confined rsp stack num a1 a2 a3 s o s' name Hk Hname E table f) as (f'&_&_&Hstep); [by apply vfs_ready_live in Hv as [? _]|done|].
  destruct (Hstep j Hr) as [Hr' Hv']. exists f'. auto.
Qed.

(** *** Task identifiers through any step *)

(** Whether an event may take an identifier. *)
Definition takes_id (e : Event) : bool := match e with Spawn _ _ | SpawnUser _ _ _ _ _ => true | _ => false end.

Lemma schedule_ids rsp k k' : schedule rsp k = Some k' → next_id k' = next_id k.
Proof.
  unfold schedule, switch. destruct (scheduler k); [|by intros [= <-]]. destruct (prepare_switch _ _ _ _) as [[[[[plan|] sc] w] m]|]; [| |done].
  - cbn. destruct (tasks sc !! plan_old plan); [|done]. by intros [= <-].
  - by intros [= <-].
Qed.
Lemma exit_ids code rsp k k' : exit_with_code code rsp k = Some k' → next_id k' = next_id k.
Proof.
  unfold exit_with_code. destruct (scheduler k) as [sc|]; [|by apply schedule_ids].
  destruct (update_current _ sc) as [sc'|]; [|done]. by intros E%schedule_ids.
Qed.
Lemma on_process_ids {A} (f : ProcessState → option A * ProcessState) k : next_id (on_process f k).2 = next_id k.
Proof. unfold on_process. repeat case_match; done. Qed.
Lemma on_process_ok_ids (f : ProcessState → option unit * ProcessState) k : next_id (on_process_ok f k).2 = next_id k.
Proof. unfold on_process_ok. rewrite <- (on_process_ids f k). by destruct (on_process f k). Qed.
Lemma copy_ids addr data k : next_id (copy_to_current_user addr data k).2 = next_id k.
Proof. unfold copy_to_current_user. repeat case_match; done. Qed.
Lemma store_space_ids (ms : Machine PT * AddressSpace) n k : next_id (store_space ms n k) = next_id k.
Proof. unfold store_space. by rewrite on_process_ids. Qed.
Lemma mmap_ids len writable fa rsp k o fa' k' : mmap_in_current_process len writable fa rsp k = Some (o, fa', k') → next_id k' = next_id k.
Proof.
  unfold mmap_in_current_process. destruct (p ← current_process k; _) as [[p space]|]; [|by intros [= _ _ <-]].
  destruct (mmap _ _ _ _ _) as [[[o1 next] fa1] s1]. destruct o1; [intros [= _ _ <-]; apply store_space_ids|].
  destruct (exit_with_code _ _ _) as [k1|] eqn:E; [|done]. intros [= _ _ <-]. apply exit_ids in E as ->. apply store_space_ids.
Qed.
Lemma munmap_ids ptr len rsp k o k' : munmap_in_current_process ptr len rsp k = Some (o, k') → next_id k' = next_id k.
Proof.
  unfold munmap_in_current_process. destruct (p ← current_process k; _) as [[p space]|]; [|by intros [= _ <-]].
  destruct (munmap _ _ _ _) as [o1 s1]. destruct o1; [intros [= _ <-]; apply store_space_ids|].
  destruct (exit_with_code _ _ _) as [k1|] eqn:E; [|done]. intros [= _ <-]. apply exit_ids in E as ->. apply store_space_ids.
Qed.

Lemma kernel_step_ids e k k' : takes_id e = false → kernel_step e k = Some k' → next_id k' = next_id k.
Proof.
  destruct e as [rsp|id|rsp|n rsp|code rsp|id| | | |id|op|dir|addr data|len wr fa rsp|ptr len rsp]; try done; intros _; cbn [kernel_step].
  - unfold timer_interrupt, on_timer_tick. cbn [scheduler]. destruct (_ <=? _); [intros ->%schedule_ids|intros [= <-]]; by destruct (scheduler k).
  - by intros [= <-].
  - by intros ->%schedule_ids.
  - unfold sleep_ticks. destruct (scheduler k) as [sc|]; [|by apply schedule_ids].
    destruct (update_current _ sc); [|done]. by intros E%schedule_ids.
  - apply exit_ids.
  - unfold kill. destruct (_ =? _); [by intros [= <-]|]. destruct (scheduler k) as [sc|]; [|by intros [= <-]].
    destruct (tasks sc !! current sc); [|done]. cbn [mbind option_bind]. destruct (position _ _) as [pos|]; [|by intros [= <-]].
    destruct (tasks sc !! pos); [|done]. cbn [mbind option_bind]. destruct (if tcb_id _ =? _ then _ else _). by intros [= <-].
  - unfold reap_now. destruct (scheduler k); [|by intros [= <-]]. destruct (reap_terminated _ _ _ _) as [[]|]; [|done]. by intros [= <-].
  - intros [= <-]. unfold activate_task. repeat case_match; done.
  - intros [= <-]. destruct op; cbn [file_call]; try done; first [apply on_process_ids|apply on_process_ok_ids].
  - intros [= <-]. apply on_process_ok_ids.
  - intros [= <-]. apply copy_ids.
  - destruct (mmap_in_current_process _ _ _ _ _) as [[[o f] k1]|] eqn:E; [|done]. intros [= <-]. by eapply mmap_ids.
  - destruct (munmap_in_current_process _ _ _ _) as [[o k1]|] eqn:E; [|done]. intros [= <-]. by eapply munmap_ids.
Qed.

(** Calls that take none. *)
Definition ids_kept s s' : Prop := next_id (kern s') = next_id (kern s).
#[local] Instance ids_kept_preorder : PreOrder ids_kept.
Proof. split; [done|]. intros s1 s2 s3 H12 H23. unfold ids_kept in *. congruence. Qed.

Lemma ids_on_kernel {A} (f : Kernel PT → A * Kernel PT) : (∀ k, next_id (f k).2 = next_id k) → respects ids_kept (on_kernel f).
Proof. intros Hf s r s'. unfold on_kernel. specialize (Hf (kern s)). destruct (f (kern s)). by intros [= <- <-]. Qed.
Lemma ids_on_vfs {A} (m : M (vfs_state D) A) : respects ids_kept (on_vfs (PT := PT) m).
Proof. intros s r s'. unfold on_vfs. destruct (m (vfs s)). by intros [= <- <-]. Qed.
Lemma ids_ask {A} (f : System PT D → A) : respects ids_kept (ask f).
Proof. by intros s r s' [= <- <-]. Qed.
Lemma ids_require {A} (o : option A) : respects ids_kept (require o : M (System PT D) A).
Proof. apply respects_pure. apply _. Qed.
Lemma ids_check b : respects ids_kept (check b : M (System PT D) unit).
Proof. apply respects_pure. apply _. Qed.
Lemma ids_serial (f : System PT D → list byte) : respects ids_kept (mmodify (λ s, with_serial (f s) s)).
Proof. by intros s r s' [= <- <-]. Qed.
Lemma ids_present ptr len : respects ids_kept (λ s : System PT D, let '(r, sc) := present ptr len (kern s) (screen s) in (Ok r, with_screen sc s)).
Proof. intros s r s'. destruct (present _ _ _ _). by intros [= <- <-]. Qed.
Lemma ids_dequeue : respects ids_kept (λ s : System PT D, let '(e, q) := dequeue (Scheduler.ticks (kern s)) (sys_input s) in (Ok e, with_sys_input q s)).
Proof. intros s r s'. destruct (dequeue _ _). by intros [= <- <-]. Qed.
Lemma ids_finish (m : M (System PT D) Z) s o s' : respects ids_kept m → finish m s = Some (o, s') → ids_kept s s'.
Proof.
  intros Hm. unfold finish. destruct (m s) as [[z|e] s1] eqn:E; apply Hm in E; [by intros [= _ <-]|].
  destruct (String.eqb e "panic"); [done|]. by intros [= _ <-].
Qed.

Ltac ids_step :=
  first [ match goal with |- respects _ (_ ≫= _) => apply respects_bind; [apply ids_kept_preorder| |intros ?] end
        | apply ids_ask | apply ids_require | apply ids_check | apply ids_present | apply ids_dequeue | apply ids_on_vfs | apply ids_serial
        | apply ids_on_kernel; intros; first [apply copy_ids|apply on_process_ids|apply on_process_ok_ids]
        | respects_step ].

Lemma dispatch_ids rsp stack num a1 a2 a3 s o s' : num ≠ SYS_SPAWN → dispatch rsp stack num a1 a2 a3 s = Some (o, s') →
  next_id (kern s') = next_id (kern s).
Proof.
  intros Hnum. change (dispatch rsp stack num a1 a2 a3 s = Some (o, s') → ids_kept s s'). unfold dispatch.
  rewrite (proj2 (Z.eqb_neq num SYS_SPAWN) Hnum).
  repeat (match goal with |- context [if num =? ?c then _ else _] => destruct (num =? c) end;
    [first [apply ids_finish; unfold sys_write, sys_getpid, sys_display_info, sys_display_present, sys_input_poll, sys_uptime_ticks,
       sys_chdir, sys_getcwd, sys_open, sys_read, sys_close, sys_readdir, sys_stat, sys_seek, sys_put_file, sys_remove,
       sys_mkdir, private_mutation_path, copy_user_path, process_cwd, is_foreground, copy_user_buffer_spec, panic;
       solve [repeat ids_step]
     |idtac]|]).
  - unfold sys_exit. destruct (exit_with_code _ _ _) eqn:E; [|done]. intros [= _ <-]. by eapply exit_ids.
  - unfold sys_yield. destruct (yield_now _ _) eqn:E; [|done]. intros [= _ <-]. by apply schedule_ids in E.
  - unfold sys_mmap. destruct (mmap_in_current_process _ _ _ _ _) as [[[? ?] ?]|] eqn:E; [|done]. intros [= _ <-]. by eapply mmap_ids.
  - unfold sys_munmap. destruct (munmap_in_current_process _ _ _ _) as [[? ?]|] eqn:E; [|done]. intros [= _ <-]. by eapply munmap_ids.
  - by intros [= _ <-].
Qed.

(** *** The input devices through any step *)

(** What an interrupt handler of a device keeps: the queue is well formed, and
    the age of the time slice stays within the slice. *)
Definition device_ok (i : io) : Prop := queue_good (input i) ∧ 0 <= ticks_since_switch (Input.wake i) <= TIME_SLICE_TICKS.

Lemma push_device e i : device_ok i → device_ok (push e i).
Proof.
  intros [Hq Hw]. destruct (foreground_process_id (keyboard i)) as [id|] eqn:Hid.
  2:{ by rewrite push_no_owner. }
  destruct (push_spec e i id Hid Hq) as [Hq' _]. split; [done|]. unfold push. rewrite Hid.
  destruct (enqueue _ _) as [[] q]; [|done]. simpl. unfold TIME_SLICE_TICKS. lia.
Qed.

Lemma push_all_device l i : device_ok i → device_ok (push_all l i).
Proof. unfold push_all. revert i. induction l as [|e l IH]; intros i Hi; [done|]. simpl. by apply IH, push_device. Qed.

Lemma handle_packet_device p i : device_ok i → device_ok (handle_packet p i).
Proof.
  intros Hi. unfold handle_packet. destruct (has_flag _ _); [done|]. destruct (screen_max i) as [mx my].
  destruct (decode_packet _ _ _ _) as [d|]; [|done]. rewrite push_buttons_all. apply push_all_device.
  destruct (dp_moved d); [by apply push_device|done].
Qed.

Lemma on_byte_device b i : device_ok i → device_ok (on_byte b i).
Proof.
  intros Hi. unfold on_byte. destruct (_ && _); destruct (feed _ _) as [[p|] d]; try done; by apply handle_packet_device.
Qed.

Lemma on_scancode_device b i : device_ok i → device_ok (on_scancode b i).
Proof.
  intros Hi. rewrite on_scancode_decode. destruct (decode_scancode b (keyboard i)) as [[e|] k]; [|done].
  unfold route. destruct (foreground_owner _); [done|]. unfold push_key_event. destruct (key_code e); [|done]. by apply push_device.
Qed.

Lemma on_scancode_mouse b i : mouse_ok i → mouse_ok (on_scancode b i).
Proof. apply (io_step_mouse_ok (Scancode b)). Qed.

(** *** The machine *)

(** The machine between steps, with task identifiers left for [n] programs and
    what [b] claims of the volume. *)
Record world_ok (n : nat) (b : option nat) w : Prop := mk_world_ok {
  world_kernel : sound_kernel (kern (sys w));
  world_ids : next_id (kern (sys w)) + 2 * Z.of_nat n + 2 <= u32_max;
  world_mouse : mouse_ok (io_of w);
  world_queue : queue_good (sys_input (sys w));
  world_files : volume_ok b (vfs (sys w))
}.

Lemma world_ok_mono n n' m m' b w : (n' ≤ n)%nat → (m' ≤ m)%nat → world_ok n (claim m b) w → world_ok n' (claim m' b) w.
Proof. intros Hn Hm' [Hk Hi Hm Hq Hf]. constructor; [done|lia|done|done|]. by eapply volume_ok_mono. Qed.
Lemma world_ok_ids n n' b w : (n' ≤ n)%nat → world_ok n b w → world_ok n' b w.
Proof. rewrite <- (claim_0 b). intros Hn. by apply world_ok_mono. Qed.
Lemma world_ok_unclaimed n b w : world_ok n b w → world_ok n None w.
Proof. intros [Hk Hi Hm Hq Hf]. constructor; [done|lia|done|done|]. by eapply volume_unclaimed. Qed.

(** The rest of the machine stays as it was. *)
Lemma kernel_world n m b k w : world_ok n b w → runs 2 (kern (sys w)) k → next_id k + 2 * Z.of_nat m + 2 <= u32_max →
  world_ok m b (with_kernel k w).
Proof.
  intros [Hk Hi Hm Hq Hf] Hruns Hid. destruct (runs_sound _ _ _ Hruns Hk) as [Hk' _]; [lia|].
  constructor; simpl; [done|lia| |done|done]. revert Hm. by apply mouse_ok_frame.
Qed.

Lemma device_world n b i w : world_ok n b w → mouse_ok i → device_ok i → display i = display (io_of w) → world_ok n b (with_io i w).
Proof.
  intros [(l&c&r&Hinv) Hi Hm Hq Hf] Hmi [Hqi Hwi] Hd. constructor; simpl; [|done| |done|done].
  - exists l, c, r. by apply (inv_wake _ l c r).
  - revert Hmi. apply mouse_ok_frame; [|done..]. by rewrite Hd.
Qed.

Lemma world_device_ok n b w : world_ok n b w → device_ok (io_of w).
Proof. intros [(l&c&r&Hinv) _ _ Hq _]. split; [done|]. by apply Hinv. Qed.

Lemma on_byte_display b i : display (on_byte b i) = display i.
Proof.
  unfold on_byte. destruct (_ && _); destruct (feed _ _) as [[p|] d]; try done; unfold handle_packet;
    (destruct (has_flag _ _); [done|]; destruct (screen_max _) as [mx my]; destruct (decode_packet _ _ _ _) as [d'|]; [|done];
     rewrite push_buttons_all, push_all_display; destruct (dp_moved d'); by rewrite ?push_display).
Qed.

Lemma on_scancode_display b i : display (on_scancode b i) = display i.
Proof.
  rewrite on_scancode_decode. destruct (decode_scancode b (keyboard i)) as [[e|] k]; [|done].
  unfold route. destruct (foreground_owner _); [done|]. unfold push_key_event. destruct (key_code e); [|done]. by rewrite push_display.
Qed.

(** One identifier for an event that starts a task, none for the others. *)
Definition event_ids (e : Event) : nat := if takes_id e then 1 else 0.

Lemma event_steps e n b w : world_ok (event_ids e + n) b w → event_ok e →
  ∃ k, kernel_step e (kern (sys w)) = Some k ∧ world_ok n b (with_kernel k w).
Proof.
  intros Hw He. pose proof Hw as [Hk Hi _ _ _]. destruct (event_runs e (kern (sys w)) Hk He) as (k&E&Hr); [lia|].
  exists k. split; [done|]. apply (kernel_world (event_ids e + n)); [done|done|]. unfold event_ids in *. destruct (takes_id e) eqn:Et.
  - destruct (runs_sound _ _ _ Hr Hk) as [_ ?]; lia.
  - rewrite (kernel_step_ids e _ _ Et E). lia.
Qed.

Definition step_ids (step : Step) : nat := if spawns_task step then 1 else 0.
Definition step_records (step : Step) : nat := if makes_record step then 1 else 0.

Lemma system_call_ok rsp stack frame n b w :
  world_ok (step_ids (SystemCall rsp stack frame) + n) (claim (step_records (SystemCall rsp stack frame)) b) w →
  register_value (rdi frame) → register_value (rsi frame) → register_value (rdx frame) →
  ∃ w', system_call rsp stack frame w = Some w' ∧ world_ok n b w'.
Proof.
  intros [Hk Hi Hm Hq Hf] Ha Hb Hc.
  destruct (dispatch_runs rsp stack (rax frame) _ _ _ (sys w) Hk ltac:(lia) Ha Hb Hc) as (o&s'&E&Hruns).
  unfold system_call, syscall_dispatch. rewrite E. cbn [mbind option_bind]. eexists. split; [done|].
  destruct (runs_sound _ _ _ Hruns Hk ltac:(lia)) as [Hk' Hid].
  destruct (dispatch_devices _ _ _ _ _ _ _ _ _ E) as (_&Hd&Hq'&_).
  constructor; cbn [sys]; [done| | |by apply Hq'|].
  - unfold step_ids, spawns_task, calls_number in Hi. destruct (Z.eqb_spec (rax frame) SYS_SPAWN) as [_|Hne]; [lia|].
    rewrite (dispatch_ids _ _ _ _ _ _ _ _ _ Hne E). lia.
  - revert Hm. apply mouse_ok_frame; [|done..]. unfold io_of. cbn [display sys]. by rewrite Hd.
  - by apply (dispatch_grows _ _ _ _ _ _ _ _ _ Hk E).
Qed.

Lemma world_step_ok step n b w : step_ok step → world_ok (step_ids step + n) (claim (step_records step) b) w →
  ∃ w', world_step step w = Some w' ∧ world_ok n b w'.
Proof.
  intros Hs Hw. destruct step as [rsp|x|x|e cs rsp|rsp stack frame|rsp]; cbn [world_step].
  all: try (cbn in Hw; rewrite claim_0 in Hw).
  - destruct (event_steps (TimerInterrupt rsp) n b w Hw I) as (k&E&Hk). cbn [kernel_step] in E.
    exists (with_kernel k w). split; [|done]. unfold timer_interrupt_handler. by rewrite E.
  - eexists. split; [done|]. apply device_world; [done|apply on_scancode_mouse, Hw|by eapply on_scancode_device, world_device_ok|].
    apply on_scancode_display.
  - eexists. split; [done|]. apply device_world; [done|apply on_byte_ok, Hw|by eapply on_byte_device, world_device_ok|].
    apply on_byte_display.
  - destruct Hs as [Hs [code Hcode]%bool_decide_eq_true]. destruct (event_steps (ExitWith code rsp) n b w Hw I) as (k&E&Hk). cbn [kernel_step] in E.
    exists (with_kernel k w). split; [|done]. unfold fault_handler. rewrite Hcode. cbn [mbind option_bind]. by rewrite Hs, E.
  - destruct Hs as (?&?&?). by apply system_call_ok.
  - destruct (event_steps (SleepTicks 100 rsp) n b w Hw I) as (k&E&Hk). cbn [kernel_step] in E.
    exists (with_kernel k w). split; [|done]. by rewrite E.
Qed.

Lemma world_run_cons step steps w : world_run (step :: steps) w = (w ← world_step step w; world_run steps w).
Proof.
  unfold world_run. cbn [foldl mbind option_bind]. destruct (world_step step w) as [w'|]; [done|]. simpl.
  induction steps as [|t steps IH]; [done|]. apply IH.
Qed.

Lemma count_cons f step steps : count f (step :: steps) = ((if f step then 1 else 0) + count f steps)%nat.
Proof. unfold count. simpl. by destruct (f step). Qed.

Lemma world_run_ok steps n b w : Forall step_ok steps →
  world_ok (count spawns_task steps + n) (claim (count makes_record steps) b) w →
  ∃ w', world_run steps w = Some w' ∧ world_ok n b w'.
Proof.
  intros Hs. revert w. induction Hs as [|step steps Hstep _ IH]; intros w Hw.
  { exists w. split; [done|]. cbn in Hw. by rewrite claim_0 in Hw. }
  rewrite !count_cons, <- Nat.add_assoc, claim_add in Hw.
  destruct (world_step_ok step _ _ w Hstep Hw) as (w1&E&Hw1). rewrite world_run_cons, E. cbn [mbind option_bind]. by apply IH.
Qed.


(** *** A fault ends the process that caused it, and nothing else *)

Lemma find_task_in (sc : Scheduler) t : NoDup (ids (tasks sc)) → t ∈ tasks sc → find_task (tcb_id t) sc = Some t.
Proof.
  unfold find_task. induction (tasks sc) as [|x ts IH]; cbn [ids fmap list_fmap List.find]; intros Hd Hin; [by apply elem_of_nil in Hin|].
  apply NoDup_cons in Hd as [Hx Hd]. destruct (Z.eqb_spec (tcb_id x) (tcb_id t)) as [E|E].
  - apply elem_of_cons in Hin as [->|Hin]; [done|]. destruct Hx. rewrite E. unfold ids. by apply list_elem_of_fmap_2.
  - apply elem_of_cons in Hin as [->|Hin]; [done|]. by apply IH.
Qed.

Lemma ended_kept code (p : ProcessState) (t u : Tcb) : tcb_process t = Some (set_exit_code code p) → kept_process t u →
  (q ← tcb_process u; exit_code q) = Some code.
Proof. intros E [sp Hu]. by rewrite Hu, E. Qed.

(** What [schedule] makes of a table whose current task has ended. *)
Lemma schedule_ended rsp k l c r p code : kernel_inv k l c r → tcb_state c = Terminated → tcb_process c = Some (set_exit_code code p) →
  ∃ k' l' c' r', schedule rsp k = Some k' ∧ kernel_inv k' l' c' r' ∧ same_ram (mach k) (mach k') ∧
    (∃ t, t ∈ l' ++ c' :: r' ∧ tcb_id t = tcb_id c ∧ tcb_state t = Terminated ∧ (q ← tcb_process t; exit_code q) = Some code) ∧
    (∀ t, t ∈ r ++ l → tcb_state t ≠ Terminated → ∃ t', t' ∈ l' ++ c' :: r' ∧ tcb_id t' = tcb_id t ∧ tcb_process t' = tcb_process t ∧
       (tcb_state t' = tcb_state t ∨ tcb_state t = Ready ∧ tcb_state t' = Running)).
Proof.
  intros Hinv Hc Hp. destruct (inv_schedule rsp k l c r Hinv) as (k'&l1&c1&r1&E&Hinv'&_).
  destruct (schedule_spec rsp k l c r) as (k2&l'&c'&r'&E2&Hok&_&_&_&_&Hram&Hcase); [by destruct Hinv|].
  rewrite E in E2. injection E2 as <-. exists k', l', c', r'.
  assert (kernel_inv k' l' c' r') as Hinv2.
  { destruct (inv_sched k' l1 c1 r1 Hinv') as (sc&Hsc&[Hts Hcur]&Hc1). destruct Hok as [(sc'&Hsc'&Hts'&Hcur') Ht Hcr Hid].
    rewrite Hsc in Hsc'. injection Hsc' as <-. rewrite Hts' in Hts. apply app_inj_1 in Hts as [-> [= -> ->]]; [done|congruence]. }
  assert (∀ t, t ∈ r ++ l → tcb_state t ≠ Terminated → t ∈ waiting k l c r) as Hwait.
  { intros t Ht Hs. apply elem_of_filter_bool. split; [done|]. unfold keep, should_reap.
    rewrite (bool_decide_eq_false_2 (tcb_state t = Terminated)) by done. by rewrite ?andb_false_r. }
  split_and!; [done|done|done| |].
  - destruct Hcase as [(Hid&Hpr&Hscan&_&Hst)|(a&t&b&c2&Ew&_&_&_&->&Hscan&Hid&Hkept&_&Hst)].
    + exists c'. split_and!; [set_solver|done|by apply Hst|]. by rewrite Hpr, Hp.
    + exists c2. split_and!; [|done|by apply Hst|by eapply ended_kept].
      assert (c2 ∈ r' ++ l') by (rewrite Hscan; set_solver). set_solver.
  - intros t Ht Hs. specialize (Hwait t Ht Hs).
    destruct Hcase as [(_&_&Hscan&_&_)|(a&u&b&c2&Ew&Hu&_&_&->&Hscan&_&_&_&_)].
    + exists t. split_and!; [|done|done|by left]. rewrite <- Hscan in Hwait. set_solver.
    + rewrite Ew in Hwait. apply elem_of_app in Hwait as [Hin|[->|Hin]%elem_of_cons].
      * exists t. split_and!; [|done|done|by left]. assert (t ∈ r' ++ l') by (rewrite Hscan; set_solver). set_solver.
      * exists (set_state Running u). split_and!; [set_solver|done|done|right]. split; [|done]. unfold is_ready in Hu. by bool_hyps.
      * exists t. split_and!; [|done|done|by left]. assert (t ∈ r' ++ l') by (rewrite Hscan; set_solver). set_solver.
Qed.

(** Every living task but [id] is still there with its process state, at most
    put on the processor. *)
Definition other_tasks_kept (id : Z) k k' : Prop :=
  ∀ sc t, scheduler k = Some sc → t ∈ tasks sc → tcb_id t ≠ id → tcb_state t ≠ Terminated →
    ∃ t', (sc' ← scheduler k'; find_task (tcb_id t) sc') = Some t' ∧ tcb_process t' = tcb_process t ∧
      (tcb_state t' = tcb_state t ∨ tcb_state t = Ready ∧ tcb_state t' = Running).

(** What is left when a process has ended with [code]: it is terminated with that
    exit code; every other task is still there with its process state - address
    space, open files, working directory - as it was, at most put on the
    processor; and all mapped memory reads as before. *)
Definition only_ended (id code : Z) k k' : Prop :=
  (∃ t, info id k' = Ok t ∧ task_state t = Terminated ∧ task_exit_code t = Some code) ∧ other_tasks_kept id k k' ∧
  (∀ space addr, translate_in_address_space space addr (mach k') = translate_in_address_space space addr (mach k)) ∧
  memory (mach k') = memory (mach k).

Lemma exit_ends_only code rsp w c p :
  kernel_reachable (kern (sys w)) → current_task (kern (sys w)) = Some c → tcb_process c = Some p →
  ∃ k', (k ← exit_with_code code rsp (kern (sys w)); Some (with_kernel k w)) = Some (with_kernel k' w) ∧ kernel_safe k' ∧
    only_ended (tcb_id c) code (kern (sys w)) k'.
Proof.
  intros (l&c0&r&Hinv)%kernel_reachable_inv Hcur Hp. destruct (inv_sched _ l c0 r Hinv) as (sc&Hsc&[Hts Hpos]&Hc).
  assert (c0 = c) as ->.
  { unfold current_task in Hcur. rewrite Hsc in Hcur. cbn [mbind option_bind] in Hcur. rewrite Hc in Hcur. by injection Hcur. }
  set (k := kern (sys w)) in *. set (c1 := set_process (set_exit_code (code) <$> tcb_process (terminate (ticks k) c)) (terminate (ticks k) c)).
  destruct (terminate_process (code) (ticks k) c) as (Hid&Hsp&Htok). fold c1 in Hid, Hsp, Htok.
  assert (task_ok c) as Hokc by (by destruct Hinv as [_ [? _]%Forall_scan _]).
  pose proof (inv_current k l c r sc c1 Hinv Hsc Hid Hsp (Htok Hokc)) as Hinv1.
  assert (tcb_process c1 = Some (set_exit_code (code) p)) as Hp1 by (unfold c1; simpl; by rewrite Hp).
  destruct (schedule_ended rsp _ l c1 r p (code) Hinv1 eq_refl Hp1) as (k'&l'&c'&r'&E&Hinv'&(Hoff&Hpt&Hmem)&(u&Hu&Huid&Hust&Hcode)&Hothers).
  destruct (inv_sched k' l' c' r' Hinv') as (sc'&Hsc'&[Hts' _]&_).
  assert (NoDup (ids (tasks sc'))) as Hnd by (rewrite Hts'; by destruct Hinv' as [[_ [? _ _ _] _ _] _ _]).
  exists k'. unfold only_ended. split_and!.
  - unfold exit_with_code, update_current. fold k. rewrite Hsc, Hc. cbn [mbind option_bind].
    change (schedule rsp _) with (schedule rsp (with_sched (mk_sched (<[current sc := c1]> (tasks sc)) (current sc)) k)). by rewrite E.
  - by eapply inv_safe.
  - exists (snapshot u). split_and!; [|done|exact Hcode]. unfold info. rewrite Hsc'. cbn [ok_or mbind result_bind].
    rewrite <- Hid, <- Huid, find_task_in; [done|done|]. by rewrite Hts'.
  - intros sc0 t Hsc0 Ht Hne Hst. rewrite Hsc in Hsc0. injection Hsc0 as <-. rewrite Hts in Ht.
    destruct (Hothers t) as (t'&Ht'&Hid'&Hpr&Hs'); [|done|].
    { apply elem_of_app in Ht as [?|[->|?]%elem_of_cons]; [set_solver|done|set_solver]. }
    exists t'. rewrite Hsc'. cbn [mbind option_bind]. rewrite <- Hid'. split_and!; [|done|done]. apply find_task_in; [done|]. by rewrite Hts'.
  - intros space addr. unfold translate_in_address_space, physical_memory_offset, mapper_for. by rewrite Hoff, Hpt.
  - done.
Qed.
End safety.

(** ** A small machine *)

Module MachineSample.
#[local] Existing Instance sim_addr.
#[local] Existing Instance sim_addr_spec.
#[local] Existing Instance sim_x86.
#[local] Existing Instance PagingSafety.Sample.sample_spec.
#[local] Existing Instance PagingSafety.Sample.sample_map.
#[local] Existing Instance PagingSafety.Sample.sample_heap.

Definition world : World sim_pt sim_disk := mk_world SyscallSample.system boot_mouse 0.

(** The process called "one" makes a directory; keys and mouse bytes arrive;
    the time slice ends; then a process faults. *)
Definition mkdir_frame : SyscallFrame := mk_frame 0 0 0 0 0 0 0 0 0 SyscallSample.buffer 9 0 0 0 SYS_MKDIR.
Definition steps : list Step :=
  [SystemCall 0x400 0 mkdir_frame; KeyboardInterrupt 0x1E; MouseInterrupt 8; MouseInterrupt 1; MouseInterrupt 0;
   TimerTick 0x500; TimerTick 0x500; Fault InvalidOpcode 0x2B 0x600; HeartbeatSleeps 0x700; TimerTick 0x800].

Example steps_run : (λ w, (current_task_id (kern (sys w)), task_count (kern (sys w)))) <$> world_run steps world = Some (Some 2, 5).
Proof. vm_compute. reflexivity. Qed.



(** A program that sets the trap flag stops the machine. *)
Example ungated_exception_halts : world_run [Fault DebugException 0x2B 0x600] world = None.
Proof. reflexivity. Qed.
End MachineSample.
