(* ===== verification/Terminal.v ===== *)
(** What a text console promises: a grid of characters with a cursor.

    The two consoles of the kernel, framebuffer_console.rs and vga_buffer.rs,
    keep no text of their own, only pixels or video memory. This file is the
    specification both refine and the interface the shell is verified against:
    [Term] is the grid, [term_write], [term_newline], [term_backspace] and
    [term_clear] are what the public functions do to it, and an instance of
    [TextConsole] is a console whose operations never panic and act on its
    grid that way. *)

From S2P Require Import Prelude.

Definition blank : byte := z2b 32.
Definition newline_byte : byte := z2b 10.

Definition printable (b : byte) : bool := (32 <=? b2z b) && (b2z b <=? 126).

Record Geometry := mk_geometry { rows : nat; cols : nat; unknown_char : byte }.

Record Term := mk_term { cells : list (list byte); term_col : nat; term_row : nat }.

#[global] Instance term_inhabited : Inhabited Term := populate (mk_term [] 0 0).

Section terminal.
Variable g : Geometry.

Definition blank_line : list byte := replicate (cols g) blank.

Definition term_clear : Term := mk_term (replicate (rows g) blank_line) 0 0.

(** Drop the top line; the cursor is then in the last one. *)
Definition term_scroll (t : Term) : Term :=
  mk_term (drop 1 (cells t) ++ [blank_line]) 0 (rows g - 1).

Definition term_newline (t : Term) : Term :=
  if decide (rows g ≤ S (term_row t))%nat then term_scroll t
  else mk_term (cells t) 0 (S (term_row t)).

Definition set_cell (row col : nat) (c : byte) (cs : list (list byte)) : list (list byte) :=
  alter (λ line, <[col := c]> line) row cs.

Definition cell (t : Term) (row col : nat) : option byte := cells t !! row ≫= λ line, line !! col.

(** A character that does not fit in the line goes to the next one. *)
Definition term_put (c : byte) (t : Term) : Term :=
  let t := if decide (cols g ≤ term_col t)%nat then term_newline t else t in
  mk_term (set_cell (term_row t) (term_col t) c (cells t)) (S (term_col t)) (term_row t).

Definition shown (b : byte) : byte := if printable b then b else unknown_char g.

Definition term_write (b : byte) (t : Term) : Term :=
  if decide (b = newline_byte) then term_newline t else term_put (shown b) t.

Definition term_print (text : str) (t : Term) : Term := foldl (flip term_write) t text.

Definition term_println (text : str) (t : Term) : Term := term_newline (term_print text t).

(** Nothing happens at the left edge, even when the line was wrapped. *)
Definition term_backspace (t : Term) : Term :=
  match term_col t with
  | O => t
  | S col => mk_term (set_cell (term_row t) col blank (cells t)) col (term_row t)
  end.

Record term_ok (t : Term) : Prop := mk_term_ok {
  term_rows_ok : length (cells t) = rows g;
  term_cols_ok : Forall (λ line, length line = cols g) (cells t);
  term_row_ok : (term_row t < rows g)%nat;
  term_col_ok : (term_col t ≤ cols g)%nat
}.

Record geometry_ok : Prop := mk_geometry_ok {
  rows_pos : (0 < rows g)%nat;
  cols_pos : (0 < cols g)%nat
}.
End terminal.

(** ** The operations keep the grid rectangular and the cursor inside *)

Section terminal_facts.
Context (g : Geometry) (Hg : geometry_ok g).
Implicit Types t : Term.

Lemma set_cell_lines n row col c cs :
  Forall (λ line, length line = n) cs → Forall (λ line, length line = n) (set_cell row col c cs).
Proof.
  unfold set_cell. intros H. apply Forall_alter; [done|]. intros line _ ?. by rewrite length_insert.
Qed.

Lemma set_cell_length row col c cs : length (set_cell row col c cs) = length cs.
Proof. apply length_alter. Qed.

Lemma term_clear_ok : term_ok g (term_clear g).
Proof.
  destruct Hg. split; simpl; [apply length_replicate| |lia|lia].
  apply Forall_replicate. apply length_replicate.
Qed.

Lemma term_newline_ok t : term_ok g t → term_ok g (term_newline g t).
Proof.
  intros [Hr Hc Hrow Hcol]. unfold term_newline, term_scroll. destruct Hg. case_decide; split; simpl; try lia; try done.
  - rewrite length_app, length_drop. simpl. lia.
  - apply Forall_app_2; [by apply Forall_drop|]. repeat constructor. apply length_replicate.
Qed.

Lemma term_put_ok c t : term_ok g t → term_ok g (term_put g c t).
Proof.
  intros Ht. unfold term_put.
  assert (term_ok g (if decide (cols g ≤ term_col t)%nat then term_newline g t else t)) as [Hr Hc Hrow Hcol]
    by (case_decide; [by apply term_newline_ok|done]).
  assert (term_col (if decide (cols g ≤ term_col t)%nat then term_newline g t else t) < cols g)%nat as Hlt.
  { destruct Hg. case_decide; [|lia]. unfold term_newline, term_scroll. case_decide; simpl; lia. }
  split; simpl; [by rewrite set_cell_length|by apply set_cell_lines|done|lia].
Qed.

Lemma term_write_ok b t : term_ok g t → term_ok g (term_write g b t).
Proof. intros. unfold term_write. case_decide; [by apply term_newline_ok|by apply term_put_ok]. Qed.

Lemma term_print_ok text t : term_ok g t → term_ok g (term_print g text t).
Proof. revert t. induction text; intros t Ht; simpl; [done|]. by apply IHtext, term_write_ok. Qed.

Lemma term_backspace_ok t : term_ok g t → term_ok g (term_backspace t).
Proof.
  intros Ht. unfold term_backspace. destruct (term_col t) as [|col] eqn:Hcol; [done|]. destruct Ht.
  split; simpl; [by rewrite set_cell_length|by apply set_cell_lines|done|lia].
Qed.
End terminal_facts.

(** ** Writing on one line *)

(** The current line holds [text] from its start and blanks up to its end. *)
Definition line_shows (g : Geometry) (text : str) (t : Term) : Prop :=
  cells t !! term_row t = Some (text ++ replicate (cols g - length text) blank)
  ∧ term_col t = length text.

Lemma print_app g a b t : term_print g (a ++ b) t = term_print g b (term_print g a t).
Proof. apply foldl_app. Qed.

Lemma printable_shown g b : printable b = true → shown g b = b ∧ b ≠ newline_byte.
Proof.
  intros H. unfold shown. rewrite H. split; [done|]. intros ->. by vm_compute in H.
Qed.

Lemma insert_at_end {A} (text : list A) x y n :
  <[length text := x]> (text ++ replicate (S n) y) = (text ++ [x]) ++ replicate n y.
Proof. rewrite insert_app_r_alt by lia. rewrite Nat.sub_diag. simpl. by rewrite <- app_assoc. Qed.

(** A character that fits is appended to the line. *)
Lemma write_appends g b text t :
  b ≠ newline_byte → line_shows g text t → (length text < cols g)%nat →
  line_shows g (text ++ [shown g b]) (term_write g b t) ∧ term_row (term_write g b t) = term_row t
  ∧ ∀ r, r ≠ term_row t → cells (term_write g b t) !! r = cells t !! r.
Proof.
  intros Hn [Hline Hcol] Hfit.
  unfold term_write. rewrite decide_False by done. unfold term_put. rewrite decide_False by lia.
  unfold line_shows, set_cell. simpl. rewrite list_lookup_alter_eq, Hline, Hcol. simpl. split; [split|split].
  - f_equal. rewrite length_app. simpl.
    replace (cols g - length text)%nat with (S (cols g - (length text + 1))) by lia. apply insert_at_end.
  - rewrite length_app. simpl. lia.
  - done.
  - intros r Hr. by apply list_lookup_alter_ne.
Qed.

Lemma print_appends g new text t :
  newline_byte ∉ new → line_shows g text t → (length text + length new ≤ cols g)%nat →
  line_shows g (text ++ (shown g <$> new)) (term_print g new t) ∧ term_row (term_print g new t) = term_row t
  ∧ ∀ r, r ≠ term_row t → cells (term_print g new t) !! r = cells t !! r.
Proof.
  revert text t. induction new as [|b new IH]; intros text t Hnew Hline Hfit; simpl in *.
  { by rewrite app_nil_r. }
  apply not_elem_of_cons in Hnew as [Hb Hnew].
  destruct (write_appends g b text t) as (Hl & Hr & Ho); [done..|lia|].
  destruct (IH (text ++ [shown g b]) (term_write g b t)) as (Hl' & Hr' & Ho'); [done..|rewrite length_app; simpl; lia|].
  rewrite <- app_assoc in Hl'. rewrite Hr in Hr'. split; [done|]. split; [done|].
  intros r Hne. rewrite Ho' by congruence. by apply Ho.
Qed.

(** Backspace takes the last character of the line away. *)
Lemma backspace_removes g text b t :
  line_shows g (text ++ [b]) t → (length text < cols g)%nat →
  line_shows g text (term_backspace t) ∧ term_row (term_backspace t) = term_row t
  ∧ ∀ r, r ≠ term_row t → cells (term_backspace t) !! r = cells t !! r.
Proof.
  intros [Hline Hcol] Hfit. rewrite length_app in Hcol. simpl in Hcol. unfold term_backspace.
  destruct (term_col t) as [|col] eqn:Hc; [lia|]. assert (col = length text) as -> by lia.
  unfold line_shows, set_cell. simpl. rewrite list_lookup_alter_eq, Hline. simpl. split; [split; [|done]|split; [done|]].
  - f_equal. rewrite length_app. simpl. rewrite <- app_assoc. rewrite insert_app_r_alt by lia.
    rewrite Nat.sub_diag. simpl. f_equal.
    replace (cols g - length text)%nat with (S (cols g - (length text + 1))) by lia. done.
  - intros r Hr. by apply list_lookup_alter_ne.
Qed.

(** ** A new line is blank *)

(** Nothing has been written below the cursor. *)
Definition below_blank (g : Geometry) (t : Term) : Prop :=
  ∀ r, (term_row t < r < rows g)%nat → cells t !! r = Some (blank_line g).

Section below.
Context (g : Geometry) (Hg : geometry_ok g).
Implicit Types t : Term.

Lemma newline_below t : term_ok g t → below_blank g t → below_blank g (term_newline g t) ∧ line_shows g [] (term_newline g t).
Proof.
  intros [Hr Hc Hrow Hcol] Hb. unfold term_newline, term_scroll. destruct Hg. case_decide.
  - split; [intros r; simpl; lia|]. split; [|done]. simpl. rewrite lookup_app_r by (rewrite length_drop; lia).
    rewrite length_drop, Hr, Nat.sub_diag. simpl. by rewrite Nat.sub_0_r.
  - split; [intros r Hr'; apply Hb; simpl in *; lia|]. split; [|done]. simpl. rewrite Hb by lia. by rewrite Nat.sub_0_r.
Qed.

Lemma put_below c t : term_ok g t → below_blank g t → below_blank g (term_put g c t).
Proof.
  intros Ht Hb. unfold term_put. set (t1 := if decide _ then _ else t).
  assert (below_blank g t1) as Hb1 by (unfold t1; case_decide; [by apply newline_below|done]).
  intros r Hr. simpl in *. unfold set_cell. rewrite list_lookup_alter_ne by lia. by apply Hb1.
Qed.

Lemma write_below b t : term_ok g t → below_blank g t → below_blank g (term_write g b t).
Proof. intros. unfold term_write. case_decide; [by apply newline_below|by apply put_below]. Qed.

Lemma print_below text t : term_ok g t → below_blank g t → below_blank g (term_print g text t).
Proof.
  revert t. induction text as [|b text IH]; intros t Ht Hb; simpl; [done|]. by apply IH; [apply term_write_ok|apply write_below].
Qed.

Lemma backspace_below t : below_blank g t → below_blank g (term_backspace t).
Proof.
  intros Hb. unfold term_backspace. destruct (term_col t); [done|]. intros r Hr. simpl in *. unfold set_cell.
  rewrite list_lookup_alter_ne by lia. by apply Hb.
Qed.

Lemma clear_below : below_blank g (term_clear g) ∧ line_shows g [] (term_clear g).
Proof.
  destruct Hg. split.
  - intros r Hr. simpl in *. apply lookup_replicate_2; lia.
  - split; [|done]. simpl. rewrite Nat.sub_0_r. apply lookup_replicate_2; lia.
Qed.
End below.

(** ** The interface *)

Class TextConsole (C : Type) := {
  con_write : byte → C → option C;
  con_newline : C → option C;
  con_backspace : C → option C;
  con_clear : C → option C;
  con_geometry : C → Geometry;
  con_view : C → Term → Prop;
  con_live : C → Prop;
  con_geometry_ok c : con_live c → geometry_ok (con_geometry c);
  con_view_ok c t : con_view c t → con_live c ∧ term_ok (con_geometry c) t;
  con_write_spec b c t : con_view c t →
    ∃ c', con_write b c = Some c' ∧ con_geometry c' = con_geometry c ∧ con_view c' (term_write (con_geometry c) b t);
  con_newline_spec c t : con_view c t →
    ∃ c', con_newline c = Some c' ∧ con_geometry c' = con_geometry c ∧ con_view c' (term_newline (con_geometry c) t);
  con_backspace_spec c t : con_view c t →
    ∃ c', con_backspace c = Some c' ∧ con_geometry c' = con_geometry c ∧ con_view c' (term_backspace t);
  con_clear_spec c : con_live c →
    ∃ c', con_clear c = Some c' ∧ con_geometry c' = con_geometry c ∧ con_view c' (term_clear (con_geometry c))
}.

Section console.
Context {C : Type} `{!TextConsole C}.

(** [for byte in text.bytes() { write_char(byte) }] *)
Fixpoint con_print (text : str) (c : C) : option C :=
  match text with
  | [] => Some c
  | b :: text => c ← con_write b c; con_print text c
  end.

Definition con_println (text : str) (c : C) : option C := c ← con_print text c; con_newline c.

Lemma con_print_spec text c t : con_view c t →
  ∃ c', con_print text c = Some c' ∧ con_geometry c' = con_geometry c ∧ con_view c' (term_print (con_geometry c) text t).
Proof.
  revert c t. induction text as [|b text IH]; intros c t Hv; simpl; [eauto|].
  destruct (con_write_spec b c t Hv) as (c1 & -> & Hg & Hv1). simpl.
  destruct (IH c1 _ Hv1) as (c2 & Hc2 & Hg2 & Hv2). rewrite Hg in Hg2, Hv2. eauto.
Qed.

Lemma con_println_spec text c t : con_view c t →
  ∃ c', con_println text c = Some c' ∧ con_geometry c' = con_geometry c ∧ con_view c' (term_println (con_geometry c) text t).
Proof.
  intros Hv. unfold con_println. destruct (con_print_spec text c t Hv) as (c1 & -> & Hg & Hv1). simpl.
  destruct (con_newline_spec c1 _ Hv1) as (c2 & Hc2 & Hg2 & Hv2). rewrite Hg in Hg2, Hv2. eauto.
Qed.
End console.
