(* ===== verification/Console.v ===== *)
(** The framebuffer text console of kernel/framebuffer_console.rs and the font
    of kernel/font8x8.rs.

    A console is the active framebuffer, if there is one, and the cursor; the
    writes to the framebuffer are those of the source, byte by byte, and a
    function returns [None] where the source panics: an index outside the
    framebuffer, or the subtraction of [scroll_up] on a screen shorter than one
    line of text. Coordinates stay far below the width of [usize]. *)

From S2P Require Import Prelude X86 Frames Paging Wake Scheduler OpenFiles Process Display Terminal.

(** ** font8x8.rs *)

Definition ASCII_MIN : Z := 0x20.
Definition ASCII_MAX : Z := 0x7E.

Definition GLYPHS : list (list Z) := [
  [0x00; 0x00; 0x00; 0x00; 0x00; 0x00; 0x00; 0x00];
  [0x18; 0x3C; 0x3C; 0x18; 0x18; 0x00; 0x18; 0x00];
  [0x36; 0x36; 0x00; 0x00; 0x00; 0x00; 0x00; 0x00];
  [0x36; 0x36; 0x7F; 0x36; 0x7F; 0x36; 0x36; 0x00];
  [0x0C; 0x3E; 0x03; 0x1E; 0x30; 0x1F; 0x0C; 0x00];
  [0x00; 0x63; 0x33; 0x18; 0x0C; 0x66; 0x63; 0x00];
  [0x1C; 0x36; 0x1C; 0x6E; 0x3B; 0x33; 0x6E; 0x00];
  [0x06; 0x06; 0x03; 0x00; 0x00; 0x00; 0x00; 0x00];
  [0x18; 0x0C; 0x06; 0x06; 0x06; 0x0C; 0x18; 0x00];
  [0x06; 0x0C; 0x18; 0x18; 0x18; 0x0C; 0x06; 0x00];
  [0x00; 0x66; 0x3C; 0xFF; 0x3C; 0x66; 0x00; 0x00];
  [0x00; 0x0C; 0x0C; 0x3F; 0x0C; 0x0C; 0x00; 0x00];
  [0x00; 0x00; 0x00; 0x00; 0x00; 0x0C; 0x0C; 0x06];
  [0x00; 0x00; 0x00; 0x3F; 0x00; 0x00; 0x00; 0x00];
  [0x00; 0x00; 0x00; 0x00; 0x00; 0x0C; 0x0C; 0x00];
  [0x60; 0x30; 0x18; 0x0C; 0x06; 0x03; 0x01; 0x00];
  [0x3E; 0x63; 0x73; 0x7B; 0x6F; 0x67; 0x3E; 0x00];
  [0x0C; 0x0E; 0x0C; 0x0C; 0x0C; 0x0C; 0x3F; 0x00];
  [0x1E; 0x33; 0x30; 0x1C; 0x06; 0x33; 0x3F; 0x00];
  [0x1E; 0x33; 0x30; 0x1C; 0x30; 0x33; 0x1E; 0x00];
  [0x38; 0x3C; 0x36; 0x33; 0x7F; 0x30; 0x78; 0x00];
  [0x3F; 0x03; 0x1F; 0x30; 0x30; 0x33; 0x1E; 0x00];
  [0x1C; 0x06; 0x03; 0x1F; 0x33; 0x33; 0x1E; 0x00];
  [0x3F; 0x33; 0x30; 0x18; 0x0C; 0x0C; 0x0C; 0x00];
  [0x1E; 0x33; 0x33; 0x1E; 0x33; 0x33; 0x1E; 0x00];
  [0x1E; 0x33; 0x33; 0x3E; 0x30; 0x18; 0x0E; 0x00];
  [0x00; 0x0C; 0x0C; 0x00; 0x00; 0x0C; 0x0C; 0x00];
  [0x00; 0x0C; 0x0C; 0x00; 0x00; 0x0C; 0x0C; 0x06];
  [0x18; 0x0C; 0x06; 0x03; 0x06; 0x0C; 0x18; 0x00];
  [0x00; 0x00; 0x3F; 0x00; 0x00; 0x3F; 0x00; 0x00];
  [0x06; 0x0C; 0x18; 0x30; 0x18; 0x0C; 0x06; 0x00];
  [0x1E; 0x33; 0x30; 0x18; 0x0C; 0x00; 0x0C; 0x00];
  [0x3E; 0x63; 0x7B; 0x7B; 0x7B; 0x03; 0x1E; 0x00];
  [0x0C; 0x1E; 0x33; 0x33; 0x3F; 0x33; 0x33; 0x00];
  [0x3F; 0x66; 0x66; 0x3E; 0x66; 0x66; 0x3F; 0x00];
  [0x3C; 0x66; 0x03; 0x03; 0x03; 0x66; 0x3C; 0x00];
  [0x1F; 0x36; 0x66; 0x66; 0x66; 0x36; 0x1F; 0x00];
  [0x7F; 0x46; 0x16; 0x1E; 0x16; 0x46; 0x7F; 0x00];
  [0x7F; 0x46; 0x16; 0x1E; 0x16; 0x06; 0x0F; 0x00];
  [0x3C; 0x66; 0x03; 0x03; 0x73; 0x66; 0x7C; 0x00];
  [0x33; 0x33; 0x33; 0x3F; 0x33; 0x33; 0x33; 0x00];
  [0x1E; 0x0C; 0x0C; 0x0C; 0x0C; 0x0C; 0x1E; 0x00];
  [0x78; 0x30; 0x30; 0x30; 0x33; 0x33; 0x1E; 0x00];
  [0x67; 0x66; 0x36; 0x1E; 0x36; 0x66; 0x67; 0x00];
  [0x0F; 0x06; 0x06; 0x06; 0x46; 0x66; 0x7F; 0x00];
  [0x63; 0x77; 0x7F; 0x7F; 0x6B; 0x63; 0x63; 0x00];
  [0x63; 0x67; 0x6F; 0x7B; 0x73; 0x63; 0x63; 0x00];
  [0x1C; 0x36; 0x63; 0x63; 0x63; 0x36; 0x1C; 0x00];
  [0x3F; 0x66; 0x66; 0x3E; 0x06; 0x06; 0x0F; 0x00];
  [0x1E; 0x33; 0x33; 0x33; 0x3B; 0x1E; 0x38; 0x00];
  [0x3F; 0x66; 0x66; 0x3E; 0x36; 0x66; 0x67; 0x00];
  [0x1E; 0x33; 0x07; 0x0E; 0x38; 0x33; 0x1E; 0x00];
  [0x3F; 0x2D; 0x0C; 0x0C; 0x0C; 0x0C; 0x1E; 0x00];
  [0x33; 0x33; 0x33; 0x33; 0x33; 0x33; 0x3F; 0x00];
  [0x33; 0x33; 0x33; 0x33; 0x33; 0x1E; 0x0C; 0x00];
  [0x63; 0x63; 0x63; 0x6B; 0x7F; 0x77; 0x63; 0x00];
  [0x63; 0x63; 0x36; 0x1C; 0x1C; 0x36; 0x63; 0x00];
  [0x33; 0x33; 0x33; 0x1E; 0x0C; 0x0C; 0x1E; 0x00];
  [0x7F; 0x63; 0x31; 0x18; 0x4C; 0x66; 0x7F; 0x00];
  [0x1E; 0x06; 0x06; 0x06; 0x06; 0x06; 0x1E; 0x00];
  [0x03; 0x06; 0x0C; 0x18; 0x30; 0x60; 0x40; 0x00];
  [0x1E; 0x18; 0x18; 0x18; 0x18; 0x18; 0x1E; 0x00];
  [0x08; 0x1C; 0x36; 0x63; 0x00; 0x00; 0x00; 0x00];
  [0x00; 0x00; 0x00; 0x00; 0x00; 0x00; 0x00; 0xFF];
  [0x0C; 0x0C; 0x18; 0x00; 0x00; 0x00; 0x00; 0x00];
  [0x00; 0x00; 0x1E; 0x30; 0x3E; 0x33; 0x6E; 0x00];
  [0x07; 0x06; 0x06; 0x3E; 0x66; 0x66; 0x3B; 0x00];
  [0x00; 0x00; 0x1E; 0x33; 0x03; 0x33; 0x1E; 0x00];
  [0x38; 0x30; 0x30; 0x3E; 0x33; 0x33; 0x6E; 0x00];
  [0x00; 0x00; 0x1E; 0x33; 0x3F; 0x03; 0x1E; 0x00];
  [0x1C; 0x36; 0x06; 0x0F; 0x06; 0x06; 0x0F; 0x00];
  [0x00; 0x00; 0x6E; 0x33; 0x33; 0x3E; 0x30; 0x1F];
  [0x07; 0x06; 0x36; 0x6E; 0x66; 0x66; 0x67; 0x00];
  [0x0C; 0x00; 0x0E; 0x0C; 0x0C; 0x0C; 0x1E; 0x00];
  [0x30; 0x00; 0x30; 0x30; 0x30; 0x33; 0x33; 0x1E];
  [0x07; 0x06; 0x66; 0x36; 0x1E; 0x36; 0x67; 0x00];
  [0x0E; 0x0C; 0x0C; 0x0C; 0x0C; 0x0C; 0x1E; 0x00];
  [0x00; 0x00; 0x33; 0x7F; 0x7F; 0x6B; 0x63; 0x00];
  [0x00; 0x00; 0x1F; 0x33; 0x33; 0x33; 0x33; 0x00];
  [0x00; 0x00; 0x1E; 0x33; 0x33; 0x33; 0x1E; 0x00];
  [0x00; 0x00; 0x3B; 0x66; 0x66; 0x3E; 0x06; 0x0F];
  [0x00; 0x00; 0x6E; 0x33; 0x33; 0x3E; 0x30; 0x78];
  [0x00; 0x00; 0x3B; 0x6E; 0x66; 0x06; 0x0F; 0x00];
  [0x00; 0x00; 0x3E; 0x03; 0x1E; 0x30; 0x1F; 0x00];
  [0x08; 0x0C; 0x3E; 0x0C; 0x0C; 0x2C; 0x18; 0x00];
  [0x00; 0x00; 0x33; 0x33; 0x33; 0x33; 0x6E; 0x00];
  [0x00; 0x00; 0x33; 0x33; 0x33; 0x1E; 0x0C; 0x00];
  [0x00; 0x00; 0x63; 0x6B; 0x7F; 0x7F; 0x36; 0x00];
  [0x00; 0x00; 0x63; 0x36; 0x1C; 0x36; 0x63; 0x00];
  [0x00; 0x00; 0x33; 0x33; 0x33; 0x3E; 0x30; 0x1F];
  [0x00; 0x00; 0x3F; 0x19; 0x0C; 0x26; 0x3F; 0x00];
  [0x38; 0x0C; 0x0C; 0x07; 0x0C; 0x0C; 0x38; 0x00];
  [0x18; 0x18; 0x18; 0x00; 0x18; 0x18; 0x18; 0x00];
  [0x07; 0x0C; 0x0C; 0x38; 0x0C; 0x0C; 0x07; 0x00];
  [0x6E; 0x3B; 0x00; 0x00; 0x00; 0x00; 0x00; 0x00]
].

Definition glyph_index (ch : Z) : option Z :=
  if (ch >=? ASCII_MIN) && (ch <=? ASCII_MAX) then Some (ch - ASCII_MIN) else None.

Definition fallback_glyph : list Z := [0xFF; 0x81; 0x81; 0x81; 0x81; 0x81; 0xFF; 0x00].

Definition glyph_rows (ch : Z) : list Z :=
  match glyph_index ch with
  | Some index => default [] (GLYPHS !! Z.to_nat index)
  | None => fallback_glyph
  end.

Definition pixel_is_set (row_byte col : Z) : bool := Z.land (Z.shiftr row_byte col) 1 =? 1.

(** ** framebuffer_console.rs *)

Definition FONT_WIDTH : Z := 8.
Definition FONT_HEIGHT : Z := 8.
Definition SCALE_X : Z := 2.
Definition SCALE_Y : Z := 3.
Definition CHAR_WIDTH : Z := FONT_WIDTH * SCALE_X + 2.
Definition CHAR_HEIGHT : Z := FONT_HEIGHT * SCALE_Y + 6.

(** The foreground and the background are grey levels: the three channels of
    a colour are equal. *)
Definition FG : Z := 0xFF.
Definition BG : Z := 0x00.

Record Console := mk_console {
  screen : option Screen;
  CURSOR_X : Z;
  CURSOR_Y : Z
}.

Definition is_active (c : Console) : bool := bool_decide (is_Some (screen c)).

Definition init (framebuffer : Screen) (c : Console) : Console := mk_console (Some framebuffer) 0 0.

(** [((r as u16 + g as u16 + b as u16) / 3) as u8] *)
Definition luminance (r g b : Z) : Z := (r + g + b) / 3.

Definition store_three (index a b c : Z) (bytes_per_pixel : Z) (buffer : list byte) : option (list byte) :=
  buffer ← store_byte index a buffer;
  buffer ← store_byte (index + 1) b buffer;
  buffer ← store_byte (index + 2) c buffer;
  if bytes_per_pixel >=? 4 then store_byte (index + 3) 0 buffer else Some buffer.

Definition write_pixel (info : FrameBufferInfo) (x y r g b : Z) (buffer : list byte) : option (list byte) :=
  if (x >=? fb_width info) || (y >=? fb_height info) then Some buffer
  else
    let pixel_index := y * fb_stride info + x in
    let bpp := fb_bytes_per_pixel info in
    let byte_index := pixel_index * bpp in
    if byte_index + bpp >? zlen buffer then Some buffer
    else
      match fb_pixel_format info with
      | Bgr => store_three byte_index b g r bpp buffer
      | Rgb => store_three byte_index r g b bpp buffer
      | U8 => store_byte byte_index (luminance r g b) buffer
      | OtherFormat =>
          if bpp >=? 3 then store_three byte_index r g b bpp buffer
          else if bpp >=? 1 then store_byte byte_index (luminance r g b) buffer
          else Some buffer
      end.

Definition fill_rect (info : FrameBufferInfo) (x y width height r g b : Z) : list byte → option (list byte) :=
  for_loop (Z.to_nat height) 0 (λ dy,
    for_loop (Z.to_nat width) 0 (λ dx, write_pixel info (x + dx) (y + dy) r g b)).

Definition draw_glyph (info : FrameBufferInfo) (ch col row : Z) (buffer : list byte) : option (list byte) :=
  let glyph := glyph_rows ch in
  let base_x := col * CHAR_WIDTH in
  let base_y := row * CHAR_HEIGHT in
  buffer ← fill_rect info base_x base_y CHAR_WIDTH CHAR_HEIGHT BG BG BG buffer;
  for_loop (Z.to_nat FONT_HEIGHT) 0 (λ font_y,
    let row_bits := default 0 (glyph !! Z.to_nat font_y) in
    for_loop (Z.to_nat FONT_WIDTH) 0 (λ font_x buffer,
      if negb (pixel_is_set row_bits font_x) then Some buffer
      else
        let pixel_x := base_x + font_x * SCALE_X in
        let pixel_y := base_y + font_y * SCALE_Y in
        fill_rect info pixel_x pixel_y SCALE_X SCALE_Y FG FG FG buffer)) buffer.

(** [with_console], for a body that may change the buffer and the cursor *)
Definition with_console (f : FrameBufferInfo → Console → option Console) (c : Console) : option Console :=
  match screen c with
  | Some sc => f (fb_info sc) c
  | None => Some c
  end.

(** Run a drawing function on the bytes of the active framebuffer. *)
Definition draw (f : list byte → option (list byte)) (c : Console) : option Console :=
  match screen c with
  | Some sc => buffer ← f (fb_buffer sc); Some (mk_console (Some (mk_screen (fb_info sc) buffer)) (CURSOR_X c) (CURSOR_Y c))
  | None => Some c
  end.

Definition set_cursor (x y : Z) (c : Console) : Console := mk_console (screen c) x y.

Definition max_cols (info : FrameBufferInfo) : Z := fb_width info / CHAR_WIDTH.
Definition max_rows (info : FrameBufferInfo) : Z := fb_height info / CHAR_HEIGHT.

Definition clear_screen : Console → option Console :=
  with_console (λ _ c,
    c ← draw (λ buffer, Some (replicate (length buffer) Byte.x00)) c;
    Some (set_cursor 0 0 c)).

(** [buffer.copy_within(src..src + len, dst)] *)
Definition copy_within (src len dst : Z) (buffer : list byte) : option (list byte) :=
  if (0 <=? src) && (0 <=? len) && (src + len <=? zlen buffer) && (0 <=? dst) && (dst + len <=? zlen buffer) then
    Some (copy_at (Z.to_nat dst) (slice buffer (Z.to_nat src) (Z.to_nat (src + len))) buffer)
  else None.

(** [buffer[from..to].fill(0)] *)
Definition fill_zero (from to : Z) (buffer : list byte) : option (list byte) :=
  if (0 <=? from) && (from <=? to) && (to <=? zlen buffer) then
    Some (copy_at (Z.to_nat from) (replicate (Z.to_nat (to - from)) Byte.x00) buffer)
  else None.

Definition scroll_buffer (info : FrameBufferInfo) (buffer : list byte) : option (list byte) :=
  let row_bytes := fb_stride info * fb_bytes_per_pixel info in
  let scroll := CHAR_HEIGHT in
  buffer ← for_loop (Z.to_nat (fb_height info - scroll)) scroll (λ y,
    copy_within (y * row_bytes) row_bytes ((y - scroll) * row_bytes)) buffer;
  height_above ← checked_sub (fb_height info) scroll;
  fill_zero (height_above * row_bytes) (fb_height info * row_bytes) buffer.

Definition scroll_up : Console → option Console :=
  with_console (λ info c,
    c ← draw (scroll_buffer info) c;
    Some (set_cursor 0 (if CURSOR_Y c >? 0 then CURSOR_Y c - 1 else CURSOR_Y c) c)).

Definition newline (c : Console) : option Console :=
  let c := set_cursor 0 (CURSOR_Y c + 1) c in
  with_console (λ info c, if CURSOR_Y c >=? max_rows info then scroll_up c else Some c) c.

(** The part of [write_char] that draws. *)
Definition put_char (character : Z) : Console → option Console :=
  with_console (λ info c,
    let c := if CURSOR_X c >=? max_cols info then set_cursor 0 (CURSOR_Y c + 1) c else c in
    c ← (if CURSOR_Y c >=? max_rows info then scroll_up c else Some c);
    c ← draw (draw_glyph info character (CURSOR_X c) (CURSOR_Y c)) c;
    Some (set_cursor (CURSOR_X c + 1) (CURSOR_Y c) c)).

Definition write_char (b : byte) (c : Console) : option Console :=
  if (0x20 <=? b2z b) && (b2z b <=? 0x7E) then put_char (b2z b) c
  else if b2z b =? 10 then newline c
  else put_char 63 c.

Fixpoint print (text : str) (c : Console) : option Console :=
  match text with
  | [] => Some c
  | b :: text => c ← write_char b c; print text c
  end.

Definition println (text : str) (c : Console) : option Console := c ← print text c; newline c.

Definition print_prompt : Console → option Console := print (bs "> ").

Definition backspace (c : Console) : option Console :=
  if CURSOR_X c =? 0 then Some c
  else
    let c := set_cursor (CURSOR_X c - 1) (CURSOR_Y c) c in
    with_console (λ info c, draw (draw_glyph info 32 (CURSOR_X c) (CURSOR_Y c)) c) c.
