(* ===== verification/ConsoleRefine.v ===== *)
(** The framebuffer console shows a terminal.

    The pixels are described by their position: [pixel] is the bytes of one,
    [paints] says that a drawing function sets exactly the pixels of a region
    to one grey level. From what [write_pixel] does to the bytes follow
    [fill_rect], [draw_glyph] and [scroll_up], and then, for the relation
    [shows] between the pixels and a grid of characters, that every operation
    of the console does to the screen what the specification of Terminal.v
    does to the grid, without a panic. *)

From S2P Require Import Prelude X86 Frames Paging Wake Scheduler OpenFiles Process Display Terminal Console.

(** A framebuffer as the bootloader hands it over: large enough for its
    dimensions, a pixel of the size its format asks for, and room for one
    character at least. *)
Record info_ok (info : FrameBufferInfo) (len : Z) : Prop := mk_info_ok {
  fb_stride_ok : fb_width info <= fb_stride info;
  fb_room : fb_height info * (fb_stride info * fb_bytes_per_pixel info) <= len;
  fb_len : byte_len info = len;
  fb_pixel_size :
    match fb_pixel_format info with
    | Rgb | Bgr => 3 <= fb_bytes_per_pixel info <= 4
    | U8 => fb_bytes_per_pixel info = 1
    | OtherFormat => fb_bytes_per_pixel info = 1 ∨ 3 <= fb_bytes_per_pixel info <= 4
    end;
  fb_width_ok : CHAR_WIDTH <= fb_width info;
  fb_height_ok : CHAR_HEIGHT <= fb_height info
}.

(** The bytes of a pixel of grey level [v]. *)
Definition grey (info : FrameBufferInfo) (v : Z) : list byte :=
  if fb_bytes_per_pixel info =? 1 then [z2b v]
  else [z2b v; z2b v; z2b v] ++ (if fb_bytes_per_pixel info =? 4 then [z2b 0] else []).

Definition offset (info : FrameBufferInfo) (x y : Z) : nat :=
  Z.to_nat ((y * fb_stride info + x) * fb_bytes_per_pixel info).

Definition pixel (info : FrameBufferInfo) (buffer : list byte) (x y : Z) : list byte :=
  slice buffer (offset info x y) (offset info x y + Z.to_nat (fb_bytes_per_pixel info)).

Definition visible (info : FrameBufferInfo) (x y : Z) : Prop :=
  0 <= x < fb_width info ∧ 0 <= y < fb_height info.

(** ** Bytes *)

Lemma store_three_Some index v bpp buffer :
  0 <= index → index + bpp <= zlen buffer → 3 <= bpp <= 4 →
  store_three index v v v bpp buffer =
    Some (copy_at (Z.to_nat index) ([z2b v; z2b v; z2b v] ++ (if bpp =? 4 then [z2b 0] else [])) buffer).
Proof.
  intros Hi Hlen Hb. unfold store_three.
  rewrite store_byte_Some by lia. cbn -[Z.mul z2b]. rewrite store_byte_Some by (rewrite zlen_insert; lia).
  cbn -[Z.mul z2b]. rewrite store_byte_Some by (rewrite !zlen_insert; lia). cbn -[Z.mul z2b].
  unfold zlen in Hlen.
  replace (Z.to_nat (index + 1)) with (S (Z.to_nat index)) by lia.
  replace (Z.to_nat (index + 2)) with (S (S (Z.to_nat index))) by lia.
  destruct (bpp >=? 4) eqn:E; [assert (bpp = 4) as -> by lia|assert (bpp = 3) as -> by lia]; cbn [Z.eqb Pos.eqb app].
  - rewrite store_byte_Some by (rewrite !zlen_insert; unfold zlen; lia).
    rewrite !copy_at_cons by (rewrite ?length_insert; lia). rewrite copy_at_nil.
    by replace (Z.to_nat (index + 3)) with (S (S (S (Z.to_nat index)))) by lia.
  - rewrite !copy_at_cons by (rewrite ?length_insert; lia). by rewrite copy_at_nil.
Qed.

(** ** Pixels *)

Section pixels.
Context (info : FrameBufferInfo) (len : Z) (Hinfo : info_ok info len).
Implicit Types (buffer : list byte) (P Q : Z → Z → bool).

Local Abbreviation bpp := (fb_bytes_per_pixel info).
Local Abbreviation stride := (fb_stride info).

Lemma bpp_pos : 1 <= bpp <= 4.
Proof using Hinfo. pose proof (fb_pixel_size _ _ Hinfo). destruct (fb_pixel_format info); lia. Qed.

Lemma length_grey v : length (grey info v) = Z.to_nat bpp.
Proof using Hinfo.
  unfold grey. pose proof (fb_pixel_size _ _ Hinfo). pose proof bpp_pos.
  assert (bpp = 1 ∨ bpp = 3 ∨ bpp = 4) as [->|[->| ->]]
    by (destruct (fb_pixel_format info); lia); done.
Qed.

Lemma offset_room x y : visible info x y →
  0 <= (y * stride + x) * bpp ∧ (y * stride + x) * bpp + bpp <= len
  ∧ Z.of_nat (offset info x y) = (y * stride + x) * bpp.
Proof using Hinfo.
  intros [Hx Hy]. pose proof bpp_pos. pose proof (fb_stride_ok _ _ Hinfo). pose proof (fb_room _ _ Hinfo).
  assert (0 <= y * stride + x < fb_height info * stride) as Hp by nia.
  assert (0 <= (y * stride + x) * bpp) by nia. unfold offset. split; [done|]. split; [|lia].
  assert ((y * stride + x + 1) * bpp <= fb_height info * stride * bpp) by nia. lia.
Qed.

(** Two visible pixels do not overlap. *)
Lemma offset_apart x y x' y' : visible info x y → visible info x' y' → (x, y) ≠ (x', y') →
  (offset info x y + Z.to_nat bpp ≤ offset info x' y')%nat ∨ (offset info x' y' + Z.to_nat bpp ≤ offset info x y)%nat.
Proof using Hinfo.
  intros Hv Hv' Hne. destruct (offset_room x y Hv) as (_ & _ & Ho). destruct (offset_room x' y' Hv') as (_ & _ & Ho').
  destruct Hv as [Hx Hy], Hv' as [Hx' Hy']. pose proof bpp_pos. pose proof (fb_stride_ok _ _ Hinfo).
  assert (y * stride + x ≠ y' * stride + x') as Hp.
  { intros E. apply Hne. assert (y = y') as -> by nia. f_equal. lia. }
  assert ((y * stride + x + 1) * bpp <= (y' * stride + x') * bpp ∨ (y' * stride + x' + 1) * bpp <= (y * stride + x) * bpp)
    as [|] by (destruct (Z.lt_total (y * stride + x) (y' * stride + x')) as [|[|]]; [left; nia|lia|right; nia]).
  - left. lia.
  - right. lia.
Qed.

Lemma pixel_write x y v buffer x' y' : zlen buffer = len → visible info x y → visible info x' y' →
  pixel info (copy_at (offset info x y) (grey info v) buffer) x' y' =
    (if (x' =? x) && (y' =? y) then grey info v else pixel info buffer x' y').
Proof using Hinfo.
  intros Hlen Hv Hv'. destruct (offset_room x y Hv) as (H1 & H2 & H3). pose proof bpp_pos. unfold zlen in Hlen.
  unfold pixel. destruct (_ && _) eqn:E; bool_hyps.
  - subst x' y'. apply slice_copy_at; rewrite length_grey; lia.
  - destruct (offset_apart x y x' y' Hv Hv') as [Ha|Ha].
    { intros [= -> ->]. rewrite !Z.eqb_refl in E. done. }
    + apply slice_copy_at_after; rewrite length_grey; lia.
    + apply slice_copy_at_before; lia.
Qed.

(** [paints P v b b']: exactly the visible pixels of [P] are set to [v]. *)
Definition paints P (v : Z) buffer buffer' : Prop :=
  zlen buffer' = len ∧
  ∀ x y, visible info x y → pixel info buffer' x y = if P x y then grey info v else pixel info buffer x y.

Lemma paints_none v buffer : zlen buffer = len → paints (λ _ _, false) v buffer buffer.
Proof. done. Qed.

Lemma paints_trans P Q v b1 b2 b3 :
  paints P v b1 b2 → paints Q v b2 b3 → paints (λ x y, P x y || Q x y) v b1 b3.
Proof.
  intros [_ H1] [Hl H2]. split; [done|]. intros x y Hv. rewrite H2, H1 by done.
  by destruct (P x y), (Q x y).
Qed.

Lemma paints_ext P Q v b1 b2 :
  (∀ x y, visible info x y → P x y = Q x y) → paints P v b1 b2 → paints Q v b1 b2.
Proof. intros HPQ [Hl H]. split; [done|]. intros x y Hv. by rewrite <- HPQ, H. Qed.

Lemma write_pixel_paints x y v buffer : zlen buffer = len → 0 <= x → 0 <= y → 0 <= v < 256 →
  ∃ buffer', write_pixel info x y v v v buffer = Some buffer'
    ∧ paints (λ x' y', (x' =? x) && (y' =? y)) v buffer buffer'.
Proof using Hinfo.
  intros Hlen Hx Hy Hr. unfold write_pixel.
  destruct ((x >=? fb_width info) || (y >=? fb_height info)) eqn:Hout.
  { exists buffer. split; [done|]. eapply paints_ext; [|by apply paints_none].
    intros x' y' [Hx' Hy']. simpl. symmetry. apply andb_false_iff. rewrite !Z.eqb_neq.
    apply orb_true_iff in Hout as [?|?]; lia. }
  assert (visible info x y) as Hv by (apply orb_false_iff in Hout as [??]; split; lia).
  destruct (offset_room x y Hv) as (H1 & H2 & H3). pose proof bpp_pos.
  replace (_ >? zlen buffer) with false by lia.
  assert (match fb_pixel_format info with
      | Rgb | Bgr => store_three ((y * stride + x) * bpp) v v v bpp buffer
      | U8 => store_byte ((y * stride + x) * bpp) (luminance v v v) buffer
      | OtherFormat => if bpp >=? 3 then store_three ((y * stride + x) * bpp) v v v bpp buffer
          else if bpp >=? 1 then store_byte ((y * stride + x) * bpp) (luminance v v v) buffer else Some buffer
      end = Some (copy_at (offset info x y) (grey info v) buffer)) as ->.
  2:{ eexists. split; [done|]. split.
      - unfold zlen in *. rewrite length_copy_at; [done|]. rewrite length_grey. lia.
      - intros x' y' Hv'. by apply pixel_write. }
  assert (3 <= bpp <= 4 → store_three ((y * stride + x) * bpp) v v v bpp buffer
    = Some (copy_at (offset info x y) (grey info v) buffer)) as Hthree.
  { intros Hb. rewrite store_three_Some by lia. unfold offset, grey. do 2 f_equal. by replace (bpp =? 1) with false by lia. }
  assert (bpp = 1 → store_byte ((y * stride + x) * bpp) (luminance v v v) buffer
    = Some (copy_at (offset info x y) (grey info v) buffer)) as Hone.
  { intros Hb. rewrite store_byte_Some by lia. unfold luminance, grey. rewrite Hb. simpl (1 =? 1). cbn iota.
    replace ((v + v + v) / 3) with v by (rewrite <- (Z.div_mul v 3) at 1 by lia; f_equal; lia).
    unfold zlen in *. rewrite copy_at_cons by lia. rewrite copy_at_nil. unfold offset. by rewrite Hb. }
  pose proof (fb_pixel_size _ _ Hinfo) as Hsize. destruct (fb_pixel_format info); [by apply Hthree..|by apply Hone|].
  destruct Hsize as [Hb|Hb].
  - replace (bpp >=? 3) with false by lia. replace (bpp >=? 1) with true by lia. by apply Hone.
  - replace (bpp >=? 3) with true by lia. by apply Hthree.
Qed.

(** A loop whose iterations each paint a region paints their union. *)
Lemma for_loop_paints n (P : Z → Z → Z → bool) v body buffer : zlen buffer = len →
  (∀ i b, 0 <= i < Z.of_nat n → zlen b = len → ∃ b', body i b = Some b' ∧ paints (P i) v b b') →
  ∃ buffer', for_loop n 0 body buffer = Some buffer'
    ∧ paints (λ x y, existsb (λ i, P i x y) (seqZ 0 (Z.of_nat n))) v buffer buffer'.
Proof using Hinfo.
  intros Hlen Hbody.
  destruct (for_loop_inv (λ k b, paints (λ x y, existsb (λ i, P i x y) (seqZ 0 k)) v buffer b) n 0 body buffer)
    as (b' & Hl & Hp); [by apply paints_none| |by exists b'].
  intros i b Hi Hp. destruct (Hbody i b) as (b' & Hb & Hp'); [lia|apply Hp|].
  exists b'. split; [done|]. eapply paints_ext; [|apply (paints_trans _ _ _ _ _ _ Hp Hp')].
  intros x y _. simpl. replace (i + 1) with (Z.of_nat (S (Z.to_nat i))) by lia.
  rewrite seqZ_S, existsb_app. simpl. rewrite orb_false_r, Z2Nat.id by lia. done.
Qed.

Definition in_rect (x y width height x' y' : Z) : bool :=
  (x <=? x') && (x' <? x + width) && (y <=? y') && (y' <? y + height).

Lemma fill_rect_paints x y width height v buffer : zlen buffer = len →
  0 <= x → 0 <= y → 0 <= width → 0 <= height → 0 <= v < 256 →
  ∃ buffer', fill_rect info x y width height v v v buffer = Some buffer'
    ∧ paints (in_rect x y width height) v buffer buffer'.
Proof using Hinfo.
  intros Hlen Hx Hy Hw Hh Hv. unfold fill_rect.
  destruct (for_loop_paints (Z.to_nat height) (λ dy x' y', in_rect x (y + dy) width 1 x' y') v
    (λ dy, for_loop (Z.to_nat width) 0 (λ dx, write_pixel info (x + dx) (y + dy) v v v)) buffer Hlen)
    as (b' & Hb & Hp).
  - intros dy b Hdy Hlb.
    destruct (for_loop_paints (Z.to_nat width) (λ dx x' y', (x' =? x + dx) && (y' =? y + dy)) v
      (λ dx, write_pixel info (x + dx) (y + dy) v v v) b Hlb) as (b' & Hb & Hp).
    + intros dx b1 Hdx Hlb1. apply write_pixel_paints; [done|lia..].
    + exists b'. split; [done|]. eapply paints_ext; [|exact Hp]. intros x' y' _. cbv beta. apply existsb_seqZ.
      unfold in_rect. rewrite !andb_true_iff, !Z.leb_le, !Z.ltb_lt. split.
      * intros (((?&?)&?)&?). exists (x' - x). rewrite andb_true_iff, !Z.eqb_eq. lia.
      * intros (i & ? & Hi). rewrite andb_true_iff, !Z.eqb_eq in Hi. lia.
  - exists b'. split; [done|]. eapply paints_ext; [|exact Hp]. intros x' y' _. cbv beta. apply existsb_seqZ.
    unfold in_rect. setoid_rewrite andb_true_iff. setoid_rewrite andb_true_iff. setoid_rewrite andb_true_iff.
    setoid_rewrite Z.leb_le. setoid_rewrite Z.ltb_lt. split.
    + intros (((?&?)&?)&?). exists (y' - y). lia.
    + intros (i & ? & Hi). lia.
Qed.
End pixels.

(** Arithmetic on the dimensions of a character. *)
Ltac font := unfold CHAR_HEIGHT, CHAR_WIDTH, FONT_HEIGHT, FONT_WIDTH, SCALE_X, SCALE_Y, FG, BG in *; lia.

Ltac zdiv := Z.to_euclidean_division_equations; lia.

(** ** Characters *)

(** Whether the pixel at [(dx, dy)] of a character's cell is lit. *)
Definition lit (ch dx dy : Z) : bool :=
  (dx <? FONT_WIDTH * SCALE_X) && (dy <? FONT_HEIGHT * SCALE_Y)
  && pixel_is_set (default 0 (glyph_rows ch !! Z.to_nat (dy / SCALE_Y))) (dx / SCALE_X).

Definition level (on : bool) : Z := if on then FG else BG.

Lemma lit_blank dx dy : lit 32 dx dy = false.
Proof.
  unfold lit. replace (pixel_is_set _ _) with false; [by rewrite andb_false_r|].
  assert (default 0 (glyph_rows 32 !! Z.to_nat (dy / SCALE_Y)) = 0) as ->.
  { change (glyph_rows 32) with (replicate 8 0). generalize (Z.to_nat (dy / SCALE_Y)). intros n.
    destruct (replicate 8 0 !! n) as [z|] eqn:E; [|done]. by apply lookup_replicate in E as [-> _]. }
  unfold pixel_is_set. by rewrite Z.shiftr_0_l.
Qed.

Section glyphs.
Context (info : FrameBufferInfo) (len : Z) (Hinfo : info_ok info len).

Definition in_cell (col row x y : Z) : bool := in_rect (col * CHAR_WIDTH) (row * CHAR_HEIGHT) CHAR_WIDTH CHAR_HEIGHT x y.

Lemma draw_glyph_spec ch col row buffer : zlen buffer = len → 0 <= col → 0 <= row →
  ∃ buffer', draw_glyph info ch col row buffer = Some buffer' ∧ zlen buffer' = len
    ∧ ∀ x y, visible info x y → pixel info buffer' x y =
        if in_cell col row x y then grey info (level (lit ch (x - col * CHAR_WIDTH) (y - row * CHAR_HEIGHT)))
        else pixel info buffer x y.
Proof using Hinfo.
  intros Hlen Hcol Hrow. unfold draw_glyph.
  set (bx := col * CHAR_WIDTH). set (by_ := row * CHAR_HEIGHT).
  assert (0 <= bx ∧ 0 <= by_) as [Hbx Hby] by (unfold bx, by_; font).
  destruct (fill_rect_paints info len Hinfo bx by_ CHAR_WIDTH CHAR_HEIGHT BG buffer) as (b1 & -> & Hp1);
    [try done; try font..|]. cbn [mbind option_bind].
  set (bits := λ fy, default 0 (glyph_rows ch !! Z.to_nat fy)).
  set (P := λ fy fx x y, pixel_is_set (bits fy) fx && in_rect (bx + fx * SCALE_X) (by_ + fy * SCALE_Y) SCALE_X SCALE_Y x y).
  destruct (for_loop_paints info len Hinfo (Z.to_nat FONT_HEIGHT)
    (λ fy x y, existsb (λ fx, P fy fx x y) (seqZ 0 (Z.of_nat (Z.to_nat FONT_WIDTH)))) FG
    (λ font_y, for_loop (Z.to_nat FONT_WIDTH) 0 (λ font_x buffer,
      if negb (pixel_is_set (bits font_y) font_x) then Some buffer
      else fill_rect info (bx + font_x * SCALE_X) (by_ + font_y * SCALE_Y) SCALE_X SCALE_Y FG FG FG buffer)) b1)
    as (b2 & Hb2 & Hl2 & Hp2).
  { apply Hp1. }
  { intros fy b Hfy Hb. apply (for_loop_paints info len Hinfo _ (P fy)); [done|].
    intros fx b' Hfx Hb'. unfold P. destruct (pixel_is_set (bits fy) fx); simpl.
    - apply (fill_rect_paints info len Hinfo); [done|font..].
    - exists b'. split; [done|]. by apply paints_none. }
  exists b2. split; [exact Hb2|]. split; [done|]. intros x y Hv. rewrite (Hp2 x y Hv). rewrite (proj2 Hp1 x y Hv).
  assert (existsb (λ fy, existsb (λ fx, P fy fx x y) (seqZ 0 (Z.of_nat (Z.to_nat FONT_WIDTH)))) (seqZ 0 (Z.of_nat (Z.to_nat FONT_HEIGHT)))
    = in_cell col row x y && lit ch (x - bx) (y - by_)) as ->; [|].
  2:{ change (in_rect bx by_ CHAR_WIDTH CHAR_HEIGHT x y) with (in_cell col row x y).
      by destruct (in_cell col row x y), (lit ch (x - bx) (y - by_)). }
  apply existsb_seqZ. unfold P, in_cell, lit, in_rect. fold bx by_.
  change CHAR_WIDTH with 18. change CHAR_HEIGHT with 30. change FONT_WIDTH with 8. change FONT_HEIGHT with 8.
  change SCALE_X with 2. change SCALE_Y with 3. change (8 * 2) with 16. change (8 * 3) with 24.
  rewrite !andb_true_iff, !Z.leb_le, !Z.ltb_lt. split.
  - intros ((((?&?)&?)&?)&((?&?)&Hbit)). exists ((y - by_) / 3). split; [zdiv|].
    erewrite existsb_seqZ with (b := true); [done|]. split; [intros _|done]. exists ((x - bx) / 2). split; [zdiv|].
    rewrite !andb_true_iff, !Z.leb_le, !Z.ltb_lt.
    split; [done|]. zdiv.
  - intros (fy & Hfy & (fx & Hfx & Hb)%existsb_exists).
    apply list_elem_of_In, elem_of_seqZ in Hfx. rewrite !andb_true_iff, !Z.leb_le, !Z.ltb_lt in Hb.
    assert (fy = (y - by_) / 3) as -> by zdiv. assert (fx = (x - bx) / 2) as -> by zdiv.
    destruct Hb as (Hbit & Hrect). split; [zdiv|]. split; [zdiv|done].
Qed.

(** ** Scrolling *)

Lemma pixel_zero x y buffer n :
  slice buffer (offset info x y) (offset info x y + Z.to_nat (fb_bytes_per_pixel info)) = replicate n Byte.x00 →
  n = Z.to_nat (fb_bytes_per_pixel info) → pixel info buffer x y = grey info 0.
Proof using Hinfo.
  intros H ->. unfold pixel. rewrite H. unfold grey. change (z2b 0) with Byte.x00.
  pose proof (fb_pixel_size _ _ Hinfo). assert (fb_bytes_per_pixel info = 1 ∨ fb_bytes_per_pixel info = 3 ∨ fb_bytes_per_pixel info = 4)
    as [->|[->| ->]] by (destruct (fb_pixel_format info); lia); done.
Qed.

Definition row_bytes : Z := fb_stride info * fb_bytes_per_pixel info.

Lemma offset_row x y : visible info x y →
  Z.of_nat (offset info x y) = y * row_bytes + x * fb_bytes_per_pixel info
  ∧ 0 <= x * fb_bytes_per_pixel info ∧ x * fb_bytes_per_pixel info + fb_bytes_per_pixel info <= row_bytes.
Proof using Hinfo.
  intros Hv. destruct (offset_room info len Hinfo x y Hv) as (_ & _ & ->). pose proof (bpp_pos info len Hinfo).
  pose proof (fb_stride_ok _ _ Hinfo). destruct Hv. unfold row_bytes. split; [lia|]. split; [nia|].
  enough ((x + 1) * fb_bytes_per_pixel info <= fb_stride info * fb_bytes_per_pixel info) by lia. nia.
Qed.

(** One line of pixels moves up. *)
Lemma copy_row_spec y buffer : zlen buffer = len → CHAR_HEIGHT <= y < fb_height info →
  ∃ buffer', copy_within (y * row_bytes) row_bytes ((y - CHAR_HEIGHT) * row_bytes) buffer = Some buffer' ∧ zlen buffer' = len
    ∧ ∀ x y', visible info x y' → pixel info buffer' x y' =
        if y' =? y - CHAR_HEIGHT then pixel info buffer x y else pixel info buffer x y'.
Proof using Hinfo.
  intros Hlen Hy. pose proof (bpp_pos info len Hinfo) as Hb. pose proof (fb_room _ _ Hinfo) as Hroom.
  pose proof (fb_stride_ok _ _ Hinfo) as Hs. pose proof (fb_width_ok _ _ Hinfo) as Hw.
  change CHAR_HEIGHT with 30 in *. change CHAR_WIDTH with 18 in *. fold row_bytes in Hroom.
  assert (0 <= row_bytes) as Hrb by (unfold row_bytes; nia).
  assert (y * row_bytes + row_bytes <= len) by nia. assert (0 <= (y - 30) * row_bytes) by nia.
  assert ((y - 30) * row_bytes + row_bytes <= y * row_bytes) by nia.
  unfold copy_within. rewrite Hlen. rewrite !(proj2 (Z.leb_le _ _)) by lia. cbn [andb]. eexists. split; [reflexivity|].
  unfold zlen in Hlen.
  assert (length (slice buffer (Z.to_nat (y * row_bytes)) (Z.to_nat (y * row_bytes + row_bytes))) = Z.to_nat row_bytes) as Hsl
    by (rewrite slice_length; lia).
  split; [unfold zlen; rewrite length_copy_at; [done|lia]|].
  intros x y' Hv. destruct (offset_row x y' Hv) as (Ho & Hx1 & Hx2). destruct Hv as [Hx Hy'].
  assert (visible info x y) as Hv by (split; lia). destruct (offset_row x y Hv) as (Ho' & _). unfold pixel.
  destruct (y' =? y - 30) eqn:E; bool_hyps.
  - subst y'. rewrite slice_copy_at_inside by lia. rewrite slice_slice by lia. f_equal; lia.
  - assert (y' * row_bytes + row_bytes <= (y - 30) * row_bytes ∨ (y - 30) * row_bytes + row_bytes <= y' * row_bytes) as [|]
      by (destruct (Z.lt_total y' (y - 30)) as [|[|]]; [left; nia|lia|right; nia]).
    + apply slice_copy_at_before; lia.
    + apply slice_copy_at_after; lia.
Qed.

Lemma fill_zero_spec from buffer : zlen buffer = len → 0 <= from <= fb_height info →
  ∃ buffer', fill_zero (from * row_bytes) (fb_height info * row_bytes) buffer = Some buffer' ∧ zlen buffer' = len
    ∧ ∀ x y, visible info x y → pixel info buffer' x y = if from <=? y then grey info 0 else pixel info buffer x y.
Proof using Hinfo.
  intros Hlen Hf. pose proof (bpp_pos info len Hinfo) as Hb. pose proof (fb_room _ _ Hinfo) as Hroom.
  pose proof (fb_stride_ok _ _ Hinfo) as Hs. pose proof (fb_width_ok _ _ Hinfo) as Hw.
  change CHAR_WIDTH with 18 in *. fold row_bytes in Hroom.
  assert (0 <= row_bytes) as Hrb by (unfold row_bytes; nia).
  assert (0 <= from * row_bytes <= fb_height info * row_bytes) by nia.
  unfold fill_zero. rewrite Hlen. rewrite !(proj2 (Z.leb_le _ _)) by lia. cbn [andb]. eexists. split; [reflexivity|].
  unfold zlen in Hlen. split; [unfold zlen; rewrite length_copy_at; rewrite ?length_replicate; lia|].
  intros x y Hv. destruct (offset_row x y Hv) as (Ho & Hx1 & Hx2). destruct Hv as [Hx Hy]. unfold pixel.
  destruct (from <=? y) eqn:E; bool_hyps.
  - assert (from * row_bytes <= y * row_bytes) by nia. assert (y * row_bytes + row_bytes <= fb_height info * row_bytes) by nia.
    apply pixel_zero with (Z.to_nat (fb_bytes_per_pixel info)); [|done].
    rewrite slice_copy_at_inside by (rewrite ?length_replicate; lia). rewrite slice_replicate by lia. f_equal. lia.
  - assert (y * row_bytes + row_bytes <= from * row_bytes) by nia. apply slice_copy_at_before; lia.
Qed.

(** The screen moves up by one line of text, the last one becomes black. *)
Lemma scroll_buffer_spec buffer : zlen buffer = len →
  ∃ buffer', scroll_buffer info buffer = Some buffer' ∧ zlen buffer' = len
    ∧ ∀ x y, visible info x y → pixel info buffer' x y =
        if fb_height info - CHAR_HEIGHT <=? y then grey info 0 else pixel info buffer x (y + CHAR_HEIGHT).
Proof using Hinfo.
  intros Hlen. pose proof (fb_height_ok _ _ Hinfo) as Hh. unfold scroll_buffer. fold row_bytes.
  destruct (for_loop_inv (λ k b, zlen b = len ∧ ∀ x y, visible info x y → pixel info b x y =
      if y <? k - CHAR_HEIGHT then pixel info buffer x (y + CHAR_HEIGHT) else pixel info buffer x y)
    (Z.to_nat (fb_height info - CHAR_HEIGHT)) CHAR_HEIGHT
    (λ y, copy_within (y * row_bytes) row_bytes ((y - CHAR_HEIGHT) * row_bytes)) buffer) as (b1 & -> & Hl1 & Hp1).
  { split; [done|]. intros x y [_ Hy]. by replace (y <? _) with false by lia. }
  { intros i b Hi [Hl Hp]. destruct (copy_row_spec i b Hl) as (b' & -> & Hl' & Hp'); [lia|].
    exists b'. split; [done|]. split; [done|]. intros x y Hv. rewrite Hp' by done. destruct Hv as [Hx Hy].
    destruct (y =? i - CHAR_HEIGHT) eqn:E; bool_hyps.
    - subst y. replace (_ <? _) with true by lia. rewrite Hp by (split; font).
      replace (i <? _) with false by font. f_equal. lia.
    - rewrite Hp by done. destruct (y <? i - CHAR_HEIGHT) eqn:E1; bool_hyps;
        [replace (y <? i + 1 - CHAR_HEIGHT) with true by lia|replace (y <? i + 1 - CHAR_HEIGHT) with false by lia]; done. }
  cbn [mbind option_bind]. rewrite (proj2 (checked_sub_Some _ _ (fb_height info - CHAR_HEIGHT))) by lia.
  cbn [mbind option_bind].
  destruct (fill_zero_spec (fb_height info - CHAR_HEIGHT) b1 Hl1) as (b2 & -> & Hl2 & Hp2);
    [font|].
  exists b2. split; [done|]. split; [done|]. intros x y Hv. rewrite Hp2 by done.
  destruct (_ <=? y) eqn:E; [done|]. bool_hyps. rewrite Hp1 by done.
  rewrite Z2Nat.id by lia. rewrite (proj2 (Z.ltb_lt y _)); [done|]. lia.
Qed.
End glyphs.

(** ** The screen and the grid *)

Definition text_geometry (info : FrameBufferInfo) : Geometry :=
  mk_geometry (Z.to_nat (max_rows info)) (Z.to_nat (max_cols info)) (z2b 63).

(** The grey level of a pixel of a grid; the margins are black. *)
Definition cell_level (cs : list (list byte)) (x y : Z) : Z :=
  match cs !! Z.to_nat (y / CHAR_HEIGHT) ≫= (.!! Z.to_nat (x / CHAR_WIDTH)) with
  | Some ch => level (lit (b2z ch) (x mod CHAR_WIDTH) (y mod CHAR_HEIGHT))
  | None => BG
  end.

Definition shows (info : FrameBufferInfo) (buffer : list byte) (cs : list (list byte)) : Prop :=
  ∀ x y, visible info x y → pixel info buffer x y = grey info (cell_level cs x y).

Section screen.
Context (info : FrameBufferInfo) (len : Z) (Hinfo : info_ok info len).
Implicit Types (buffer : list byte) (cs : list (list byte)).

Local Abbreviation g := (text_geometry info).

Lemma text_geometry_ok : geometry_ok g.
Proof using Hinfo.
  pose proof (fb_width_ok _ _ Hinfo). pose proof (fb_height_ok _ _ Hinfo).
  change CHAR_HEIGHT with 30 in *. change CHAR_WIDTH with 18 in *.
  assert (1 <= fb_width info / 18 ∧ 1 <= fb_height info / 30) as [??] by (split; zdiv).
  split; simpl; unfold max_rows, max_cols; change CHAR_HEIGHT with 30; change CHAR_WIDTH with 18; lia.
Qed.

Lemma cell_level_blank cs x y :
  (∀ line, line ∈ cs → line = replicate (cols g) blank) → cell_level cs x y = BG.
Proof.
  intros Hcs. unfold cell_level. destruct (cs !! _) as [line|] eqn:E; simpl; [|done].
  apply list_elem_of_lookup_2 in E. rewrite (Hcs line E). destruct (_ !! _) as [ch|] eqn:Ec; [|done].
  apply lookup_replicate in Ec as [-> _]. change (b2z blank) with 32. by rewrite lit_blank.
Qed.

Lemma clear_shows buffer : zlen buffer = len →
  shows info (replicate (length buffer) Byte.x00) (cells (term_clear g)).
Proof using Hinfo.
  intros Hlen x y Hv. rewrite cell_level_blank.
  2:{ intros line [-> _]%elem_of_replicate. done. }
  destruct (offset_room info len Hinfo x y Hv) as (?&?&?). pose proof (bpp_pos info len Hinfo).
  eapply (pixel_zero info len Hinfo); [|reflexivity]. unfold zlen in Hlen. rewrite slice_replicate by lia. f_equal. lia.
Qed.

Lemma draw_shows (ch : byte) col row cs buffer : zlen buffer = len → shows info buffer cs →
  length cs = rows g → Forall (λ line, length line = cols g) cs → (col < cols g)%nat → (row < rows g)%nat →
  ∃ buffer', draw_glyph info (b2z ch) (Z.of_nat col) (Z.of_nat row) buffer = Some buffer' ∧ zlen buffer' = len
    ∧ shows info buffer' (set_cell row col ch cs).
Proof using Hinfo.
  intros Hlen Hs Hr Hc Hcol Hrow.
  destruct (draw_glyph_spec info len Hinfo (b2z ch) (Z.of_nat col) (Z.of_nat row) buffer Hlen) as (b' & -> & Hl' & Hp); [lia..|].
  exists b'. split; [done|]. split; [done|]. intros x y Hv. rewrite Hp by done. destruct Hv as [Hx Hy].
  unfold cell_level, set_cell. unfold in_cell, in_rect. change CHAR_WIDTH with 18. change CHAR_HEIGHT with 30.
  destruct (_ && _) eqn:E; bool_hyps.
  - assert (x / 18 = Z.of_nat col) as -> by zdiv. assert (y / 30 = Z.of_nat row) as -> by zdiv. rewrite !Nat2Z.id.
    destruct (lookup_lt_is_Some_2 cs row) as [line Hline]; [lia|].
    rewrite list_lookup_alter_eq, Hline. simpl.
    rewrite list_lookup_insert_eq by (by rewrite (Forall_lookup_1 _ _ _ _ Hc Hline)).
    do 3 f_equal; zdiv.
  - rewrite Hs by done. f_equal. unfold cell_level. change CHAR_WIDTH with 18. change CHAR_HEIGHT with 30.
    destruct (decide (row = Z.to_nat (y / 30))) as [->|Hne]; [|by rewrite list_lookup_alter_ne].
    rewrite list_lookup_alter_eq. destruct (cs !! Z.to_nat (y / 30)) as [line|]; simpl; [|done].
    rewrite list_lookup_insert_ne; [done|]. intros ->. rewrite !andb_false_iff, !Z.leb_gt, !Z.ltb_ge in E.
    assert (0 <= x / 18 ∧ 0 <= y / 30) as [??] by (split; zdiv). rewrite !Z2Nat.id in E by lia. zdiv.
Qed.

Lemma scroll_shows t buffer : zlen buffer = len → shows info buffer (cells t) → length (cells t) = rows g →
  ∃ buffer', scroll_buffer info buffer = Some buffer' ∧ zlen buffer' = len ∧ shows info buffer' (cells (term_scroll g t)).
Proof using Hinfo.
  intros Hlen Hs Hr. destruct (scroll_buffer_spec info len Hinfo buffer Hlen) as (b' & -> & Hl' & Hp).
  exists b'. split; [done|]. split; [done|]. intros x y Hv. rewrite Hp by done. unfold term_scroll. cbn [cells].
  destruct Hv as [Hx Hy]. destruct text_geometry_ok as [Hrows _].
  simpl in Hr, Hrows. unfold max_rows in Hr, Hrows. change CHAR_HEIGHT with 30 in *.
  assert (length (drop 1 (cells t)) = (Z.to_nat (fb_height info / 30) - 1)%nat) as Hd by (rewrite length_drop; lia).
  assert (0 <= y / 30) by zdiv. unfold cell_level at 1. change CHAR_HEIGHT with 30. change CHAR_WIDTH with 18.
  destruct (decide (y / 30 < fb_height info / 30 - 1)) as [Hlt|Hge].
  - replace (_ <=? y) with false by (symmetry; apply Z.leb_gt; zdiv). rewrite Hs by (split; [done|zdiv]).
    f_equal. unfold cell_level. change CHAR_HEIGHT with 30. change CHAR_WIDTH with 18.
    rewrite lookup_app_l by lia. rewrite lookup_drop.
    replace ((y + 30) / 30) with (1 + y / 30) by zdiv. replace ((y + 30) mod 30) with (y mod 30) by zdiv.
    by replace (Z.to_nat (1 + y / 30)) with (1 + Z.to_nat (y / 30))%nat by lia.
  - assert (∀ line, (drop 1 (cells t) ++ [blank_line g]) !! Z.to_nat (y / 30) = Some line → line = blank_line g) as Hlast.
    { intros line. rewrite lookup_app_r by lia. intros Hl%list_elem_of_lookup_2. by apply list_elem_of_singleton in Hl. }
    assert (match (drop 1 (cells t) ++ [blank_line g]) !! Z.to_nat (y / 30) ≫= (.!! Z.to_nat (x / 18)) with
        | Some ch => level (lit (b2z ch) (x mod 18) (y mod 30)) | None => BG end = BG) as ->.
    { destruct (_ !! Z.to_nat (y / 30)) as [line|]; simpl; [|done]. rewrite (Hlast line eq_refl).
      destruct (_ !! _) as [ch|] eqn:Ec; [|done]. apply lookup_replicate in Ec as [-> _].
      change (b2z blank) with 32. by rewrite lit_blank. }
    destruct (_ <=? y) eqn:E; [done|]. bool_hyps. rewrite Hs by (split; [done|lia]). f_equal.
    unfold cell_level. change CHAR_HEIGHT with 30. rewrite lookup_ge_None_2; [done|]. rewrite Hr. zdiv.
Qed.
End screen.

(** ** The console *)

Definition console_live (c : Console) : Prop :=
  ∃ sc, screen c = Some sc ∧ info_ok (fb_info sc) (zlen (fb_buffer sc)).

Definition console_geometry (c : Console) : Geometry :=
  match screen c with Some sc => text_geometry (fb_info sc) | None => mk_geometry 0 0 (z2b 63) end.

(** The cursor and the pixels are those of the terminal. *)
Definition console_view (c : Console) (t : Term) : Prop :=
  ∃ sc, screen c = Some sc ∧ info_ok (fb_info sc) (zlen (fb_buffer sc)) ∧ term_ok (text_geometry (fb_info sc)) t
    ∧ shows (fb_info sc) (fb_buffer sc) (cells t)
    ∧ CURSOR_X c = Z.of_nat (term_col t) ∧ CURSOR_Y c = Z.of_nat (term_row t).

(** [c'] shows [t] on the same screen as [c]. *)
Definition next_view (c : Console) (r : option Console) (t : Term) : Prop :=
  ∃ c', r = Some c' ∧ fb_info <$> screen c' = fb_info <$> screen c ∧ console_view c' t.

Section console.
Implicit Types (c : Console) (t : Term).

Lemma clear_screen_spec c : console_live c → next_view c (clear_screen c) (term_clear (console_geometry c)).
Proof.
  intros (sc & Hsc & Hok). unfold next_view, clear_screen, with_console, draw, console_geometry. rewrite Hsc. simpl.
  eexists. split; [reflexivity|]. split; [done|]. eexists. split; [reflexivity|]. simpl.
  assert (zlen (replicate (length (fb_buffer sc)) Byte.x00) = zlen (fb_buffer sc)) as -> by (unfold zlen; by rewrite length_replicate).
  split; [done|]. split; [by eapply term_clear_ok, text_geometry_ok|]. split; [|done]. by eapply clear_shows.
Qed.

Lemma same_geometry c c' : fb_info <$> screen c' = fb_info <$> screen c → console_geometry c' = console_geometry c.
Proof. unfold console_geometry. destruct (screen c'), (screen c); simpl; intros H; inversion H as [Hi]; congruence. Qed.

(** A new line starts below the cursor: the common part of [newline] and of a
    character that does not fit. *)
Lemma console_advance c t sc : console_view c t → screen c = Some sc →
  let c1 := set_cursor 0 (CURSOR_Y c + 1) c in
  next_view c (if CURSOR_Y c1 >=? max_rows (fb_info sc) then scroll_up c1 else Some c1) (term_newline (text_geometry (fb_info sc)) t).
Proof.
  intros (sc' & Hsc & Hok & Ht & Hs & Hx & Hy) Hsc'. rewrite Hsc' in Hsc. injection Hsc as <-.
  pose proof (text_geometry_ok _ _ Hok) as Hg. pose proof (term_newline_ok _ Hg t Ht) as Ht'.
  destruct Ht as [Hr Hc Hrow Hcol]. simpl in Hrow. cbn zeta. unfold next_view, term_newline, console_geometry in *.
  simpl (CURSOR_Y (set_cursor _ _ _)). rewrite Hy in *. simpl (rows _) in *. rewrite Hsc'.
  destruct (Z.of_nat (term_row t) + 1 >=? max_rows (fb_info sc)) eqn:E.
  - rewrite decide_True in * by lia. unfold scroll_up, with_console, draw. simpl (screen _). rewrite Hsc'. cbn iota.
    destruct (scroll_shows _ _ Hok t (fb_buffer sc)) as (b & -> & Hl & Hs'); [done..|]. simpl.
    eexists. split; [reflexivity|]. simpl. split; [done|]. eexists. split; [reflexivity|]. simpl.
    rewrite Hl. do 4 (split; [done|]). replace (_ >? 0) with true by lia. lia.
  - rewrite decide_False in * by lia. eexists. split; [reflexivity|]. simpl. rewrite Hsc'. split; [done|].
    exists sc. simpl. do 5 (split; [done|]). lia.
Qed.

Lemma newline_spec c t : console_view c t → next_view c (newline c) (term_newline (console_geometry c) t).
Proof.
  intros Hv. pose proof Hv as (sc & Hsc & _). pose proof (console_advance c t sc Hv Hsc) as Ha.
  unfold newline, with_console, console_geometry. simpl (screen (set_cursor _ _ _)). by rewrite Hsc.
Qed.

(** Draw a character at the cursor of a line that has room for it. *)
Lemma draw_at_spec c t (ch : byte) : console_view c t → (term_col t < cols (console_geometry c))%nat →
  ∃ c', match screen c with
        | Some sc => draw (draw_glyph (fb_info sc) (b2z ch) (CURSOR_X c) (CURSOR_Y c)) c
        | None => Some c end = Some c'
    ∧ fb_info <$> screen c' = fb_info <$> screen c
    ∧ console_view c' (mk_term (set_cell (term_row t) (term_col t) ch (cells t)) (term_col t) (term_row t))
    ∧ CURSOR_X c' = CURSOR_X c ∧ CURSOR_Y c' = CURSOR_Y c.
Proof.
  intros (sc & Hsc & Hok & [Hr Hc Hrow Hcol] & Hs & Hx & Hy) Hlt. unfold draw, console_geometry in *. rewrite Hsc in *.
  rewrite Hx, Hy. destruct (draw_shows _ _ Hok ch (term_col t) (term_row t) (cells t) (fb_buffer sc)) as (b & -> & Hl & Hs'); [done..|].
  simpl. eexists. split; [reflexivity|]. simpl. split; [done|]. split; [|done].
  eexists. split; [reflexivity|]. simpl. rewrite Hl. split; [done|]. split; [|done].
  split; simpl; [by rewrite set_cell_length|by apply set_cell_lines|done|done].
Qed.

Lemma put_char_spec c t (ch : byte) : console_view c t →
  next_view c (put_char (b2z ch) c) (term_put (console_geometry c) ch t).
Proof.
  intros Hv. pose proof Hv as (sc & Hsc & Hok & Ht & Hs & Hx & Hy).
  pose proof (text_geometry_ok _ _ Hok) as [Hrows Hcols]. unfold put_char, with_console. rewrite Hsc.
  assert (next_view c (let c := if CURSOR_X c >=? max_cols (fb_info sc) then set_cursor 0 (CURSOR_Y c + 1) c else c in
      if CURSOR_Y c >=? max_rows (fb_info sc) then scroll_up c else Some c)
    (if decide (cols (console_geometry c) ≤ term_col t)%nat then term_newline (console_geometry c) t else t)) as Hadv.
  { unfold console_geometry. rewrite Hsc. rewrite Hx. simpl (cols _) in *. destruct (_ >=? max_cols (fb_info sc)) eqn:E.
    - rewrite decide_True by lia. exact (console_advance c t sc Hv Hsc).
    - rewrite decide_False by lia. cbn zeta. pose proof (term_row_ok _ _ Ht) as Hrow. simpl in Hrow.
      replace (CURSOR_Y c >=? _) with false by lia. by exists c. }
  cbn zeta in Hadv |- *. destruct Hadv as (c1 & -> & Hg1 & Hv1). cbn [mbind option_bind].
  unfold term_put. set (t1 := if decide _ then _ else t) in *.
  assert (term_col t1 < cols (console_geometry c1))%nat as Hfit.
  { rewrite (same_geometry _ _ Hg1). unfold t1, console_geometry. rewrite Hsc. pose proof (term_col_ok _ _ Ht).
    case_decide; [|lia]. unfold term_newline, term_scroll. case_decide; simpl in *; lia. }
  pose proof Hv1 as (sc1 & Hsc1 & _). rewrite Hsc, Hsc1 in Hg1. injection Hg1 as Hg1.
  destruct (draw_at_spec c1 t1 ch Hv1 Hfit) as (c2 & Hd & Hg2 & (sc2 & Hsc2 & Hok2 & Ht2 & Hs2 & Hx2 & Hy2) & _).
  rewrite Hsc1, Hg1 in Hd. rewrite Hd. cbn [mbind option_bind]. rewrite Hsc1, Hsc2 in Hg2. injection Hg2 as Hg2.
  exists (set_cursor (CURSOR_X c2 + 1) (CURSOR_Y c2) c2). split; [done|]. simpl. rewrite Hsc, Hsc2. simpl. split; [congruence|].
  exists sc2. simpl. split; [done|]. split; [done|].
  assert (text_geometry (fb_info sc) = text_geometry (fb_info sc2)) as Hgeo by congruence.
  split; [|split; [done|split; [simpl in Hx2; lia|done]]].
  rewrite <- Hgeo. pose proof (term_put_ok _ (text_geometry_ok _ _ Hok) ch t Ht) as Hput. unfold term_put in Hput.
  unfold t1, console_geometry in *. rewrite Hsc in *. exact Hput.
Qed.

Lemma write_char_spec b c t : console_view c t → next_view c (write_char b c) (term_write (console_geometry c) b t).
Proof.
  intros Hv. unfold write_char, term_write, shown, printable.
  destruct (_ && _) eqn:E.
  - rewrite decide_False; [by apply put_char_spec|]. intros ->. by vm_compute in E.
  - destruct (b2z b =? 10) eqn:E10; bool_hyps.
    + rewrite decide_True; [by apply newline_spec|]. by apply b2z_inj.
    + rewrite decide_False by (intros ->; by vm_compute in E10).
      assert (unknown_char (console_geometry c) = z2b 63) as -> by (unfold console_geometry; by destruct (screen c)).
      by apply (put_char_spec c t (z2b 63)).
Qed.

Lemma console_backspace c t : console_view c t → next_view c (backspace c) (term_backspace t).
Proof.
  intros Hv. pose proof Hv as (sc & Hsc & Hok & Ht & Hs & Hx & Hy). unfold backspace, term_backspace. rewrite Hx.
  destruct (term_col t) as [|col] eqn:Hcol; [by exists c|]. rewrite (proj2 (Z.eqb_neq (Z.of_nat (S col)) 0)) by lia.
  set (c1 := set_cursor (Z.of_nat (S col) - 1) (CURSOR_Y c) c).
  assert (console_view c1 (mk_term (cells t) col (term_row t))) as Hv1.
  { exists sc. destruct Ht. simpl. split; [done|]. split; [done|].
    split; [by split; simpl in *; try done; lia|]. split; [done|]. split; [lia|done]. }
  destruct (draw_at_spec c1 (mk_term (cells t) col (term_row t)) blank Hv1) as (c2 & Hd & Hg2 & Hv2 & _).
  { unfold console_geometry. simpl (screen c1). rewrite Hsc. pose proof (term_col_ok _ _ Ht). simpl in *. lia. }
  exists c2. split; [|done]. unfold with_console. simpl (screen c1) in *. by rewrite Hsc in *.
Qed.

Lemma next_view_geometry c r t : next_view c r t →
  ∃ c', r = Some c' ∧ console_geometry c' = console_geometry c ∧ console_view c' t.
Proof.
  intros (c' & Hr & Hi & Hv). exists c'. split; [done|]. split; [|done]. by apply same_geometry.
Qed.
End console.

#[export, refine] Instance framebuffer_console : TextConsole Console := {
  con_write := write_char;
  con_newline := newline;
  con_backspace := backspace;
  con_clear := clear_screen;
  con_geometry := console_geometry;
  con_view := console_view;
  con_live := console_live
}.
Proof.
  - intros c (sc & Hsc & Hok). unfold console_geometry. rewrite Hsc. by eapply text_geometry_ok.
  - intros c t (sc & Hsc & Hok & Ht & _). split; [by exists sc|]. unfold console_geometry. by rewrite Hsc.
  - intros b c t Hv. by apply next_view_geometry, write_char_spec.
  - intros c t Hv. by apply next_view_geometry, newline_spec.
  - intros c t Hv. by apply next_view_geometry, console_backspace.
  - intros c Hl. by apply next_view_geometry, clear_screen_spec.
Defined.

Lemma con_print_console text c : con_print text c = print text c.
Proof. revert c. induction text as [|b text IH]; intros c; simpl; [done|]. destruct (write_char b c); simpl; [apply IH|done]. Qed.

(** ** The font *)

Definition printable_range : list Z := seqZ ASCII_MIN (ASCII_MAX - ASCII_MIN + 1).

(** The pixels of a character, one for each pixel of the font. *)
Definition font_pixels : list (Z * Z) :=
  fy ← seqZ 0 FONT_HEIGHT; (λ fx, (SCALE_X * fx, SCALE_Y * fy)) <$> seqZ 0 FONT_WIDTH.

Definition glyph_image (ch : Z) : list bool := (λ p, lit ch p.1 p.2) <$> font_pixels.

Lemma font_pixels_in_cell : Forall (λ p, 0 <= p.1 < CHAR_WIDTH ∧ 0 <= p.2 < CHAR_HEIGHT) font_pixels.
Proof. apply (bool_decide_unpack _). vm_compute. exact I. Qed.

(** No two printable characters look the same. *)
Lemma glyphs_distinct : NoDup (glyph_image <$> printable_range).
Proof. apply (bool_decide_unpack _). vm_compute. exact I. Qed.

Lemma glyph_image_inj a b : printable a = true → printable b = true →
  glyph_image (b2z a) = glyph_image (b2z b) → a = b.
Proof.
  intros Ha Hb Heq. apply b2z_inj.
  assert (∀ c, printable c = true → printable_range !! Z.to_nat (b2z c - 32) = Some (b2z c)) as Hin.
  { intros c Hc. unfold printable in Hc. bool_hyps. apply lookup_seqZ. unfold ASCII_MAX, ASCII_MIN. lia. }
  assert (Z.to_nat (b2z a - 32) = Z.to_nat (b2z b - 32)) as Hi.
  { apply (NoDup_lookup _ _ _ (glyph_image (b2z a)) glyphs_distinct); rewrite list_lookup_fmap.
    - by rewrite (Hin a Ha).
    - by rewrite (Hin b Hb), Heq. }
  unfold printable in Ha, Hb. bool_hyps. lia.
Qed.

Lemma lit_inj a b : printable a = true → printable b = true →
  (∀ dx dy, 0 <= dx < CHAR_WIDTH → 0 <= dy < CHAR_HEIGHT → lit (b2z a) dx dy = lit (b2z b) dx dy) → a = b.
Proof.
  intros Ha Hb Hl. apply glyph_image_inj; [done..|]. apply list_fmap_ext. intros i p Hp.
  destruct (Forall_lookup_1 _ _ _ _ font_pixels_in_cell Hp). by apply Hl.
Qed.

(** ** The screen determines the text *)

Definition legible (t : Term) : Prop := Forall (Forall (λ b, printable b = true)) (cells t).

Lemma set_cell_legible row col ch cs :
  printable ch = true → Forall (Forall (λ b, printable b = true)) cs → Forall (Forall (λ b, printable b = true)) (set_cell row col ch cs).
Proof. intros Hch Hcs. unfold set_cell. apply Forall_alter; [done|]. intros line _ Hl. by apply Forall_insert. Qed.

Lemma blank_line_legible g : Forall (λ b, printable b = true) (blank_line g).
Proof. by apply Forall_replicate. Qed.

Lemma term_newline_legible g t : legible t → legible (term_newline g t).
Proof.
  intros Ht. unfold term_newline, term_scroll. case_decide; [|done].
  apply Forall_app_2; [by apply Forall_drop|]. constructor; [apply blank_line_legible|constructor].
Qed.

Lemma term_write_legible g b t : printable (unknown_char g) = true → legible t → legible (term_write g b t).
Proof.
  intros Hu Ht. unfold term_write. case_decide; [by apply term_newline_legible|].
  unfold term_put. apply set_cell_legible; [unfold shown; by destruct (printable b) eqn:E|].
  case_decide; [by apply term_newline_legible|done].
Qed.

Lemma term_backspace_legible t : legible t → legible (term_backspace t).
Proof. intros Ht. unfold term_backspace. destruct (term_col t); [done|]. by apply set_cell_legible. Qed.

Lemma grey_inj info len a b : info_ok info len → grey info (level a) = grey info (level b) → a = b.
Proof.
  intros Hinfo. pose proof (fb_pixel_size _ _ Hinfo). unfold grey.
  assert (fb_bytes_per_pixel info = 1 ∨ fb_bytes_per_pixel info = 3 ∨ fb_bytes_per_pixel info = 4)
    as [->|[->| ->]] by (destruct (fb_pixel_format info); lia); by destruct a, b.
Qed.

(** Two terminals that look the same are the same. *)
Lemma view_determines_text c t1 t2 :
  console_view c t1 → console_view c t2 → legible t1 → legible t2 → t1 = t2.
Proof.
  intros (sc & Hsc & Hok & [Hr1 Hc1 Hrow1 Hcol1] & Hs1 & Hx1 & Hy1) (sc' & Hsc' & _ & [Hr2 Hc2 Hrow2 Hcol2] & Hs2 & Hx2 & Hy2) Hl1 Hl2.
  rewrite Hsc in Hsc'. injection Hsc' as <-. destruct t1 as [cs1 x1 y1], t2 as [cs2 x2 y2]. unfold legible in *. cbn in *.
  f_equal; [|lia..]. apply list_eq_same_length with (length cs1); [lia|done|]. intros row line1 line2 Hrow Hline1 Hline2.
  pose proof (Forall_lookup_1 _ _ _ _ Hc1 Hline1) as Hlen1. pose proof (Forall_lookup_1 _ _ _ _ Hc2 Hline2) as Hlen2. cbn in *.
  apply list_eq_same_length with (length line1); [lia|done|]. intros col a b Hcol Ha Hb.
  apply lit_inj.
  { exact (Forall_lookup_1 _ _ _ _ (Forall_lookup_1 _ _ _ _ Hl1 Hline1) Ha). }
  { exact (Forall_lookup_1 _ _ _ _ (Forall_lookup_1 _ _ _ _ Hl2 Hline2) Hb). }
  intros dx dy Hdx Hdy. change CHAR_WIDTH with 18 in *. change CHAR_HEIGHT with 30 in *.
  assert (visible (fb_info sc) (Z.of_nat col * 18 + dx) (Z.of_nat row * 30 + dy)) as Hv.
  { unfold max_cols, max_rows in *. change CHAR_WIDTH with 18 in *. change CHAR_HEIGHT with 30 in *.
    assert (Z.of_nat col < fb_width (fb_info sc) / 18) by lia. assert (Z.of_nat row < fb_height (fb_info sc) / 30) by lia.
    split; zdiv. }
  pose proof (Hs1 _ _ Hv) as E. rewrite (Hs2 _ _ Hv) in E.
  unfold cell_level in E. change CHAR_WIDTH with 18 in E. change CHAR_HEIGHT with 30 in E.
  assert ((Z.of_nat row * 30 + dy) / 30 = Z.of_nat row) as Er by zdiv.
  assert ((Z.of_nat col * 18 + dx) / 18 = Z.of_nat col) as Ec by zdiv. rewrite Er, Ec, !Nat2Z.id, Hline1, Hline2 in E.
  cbn [mbind option_bind] in E. rewrite Ha, Hb in E. apply (grey_inj _ _ _ _ Hok) in E. symmetry in E.
  replace dx with ((Z.of_nat col * 18 + dx) mod 18) at 1 2 by zdiv. replace dy with ((Z.of_nat row * 30 + dy) mod 30) at 1 2 by zdiv. done.
Qed.

(** ** Sequences of console calls *)

Inductive ConsoleOp :=
| Print (text : str)
| Println (text : str)
| Backspace
| Clear.

Definition console_op (op : ConsoleOp) : Console → option Console :=
  match op with
  | Print text => print text
  | Println text => println text
  | Backspace => backspace
  | Clear => clear_screen
  end.

Definition term_op (g : Geometry) (op : ConsoleOp) : Term → Term :=
  match op with
  | Print text => term_print g text
  | Println text => term_println g text
  | Backspace => term_backspace
  | Clear => λ _, term_clear g
  end.

Fixpoint console_run (ops : list ConsoleOp) (c : Console) : option Console :=
  match ops with
  | [] => Some c
  | op :: ops => c ← console_op op c; console_run ops c
  end.

Definition term_run (g : Geometry) (ops : list ConsoleOp) (t : Term) : Term := foldl (λ t op, term_op g op t) t ops.

Lemma console_op_spec op c t : console_view c t →
  ∃ c', console_op op c = Some c' ∧ console_geometry c' = console_geometry c
    ∧ console_view c' (term_op (console_geometry c) op t).
Proof.
  intros Hv. change (con_view c t) in Hv. destruct op as [text|text| |]; simpl.
  - rewrite <- con_print_console. exact (con_print_spec text c t Hv).
  - destruct (con_println_spec text c t Hv) as (c' & Hp & H). exists c'. split; [|exact H].
    unfold con_println in Hp. by rewrite con_print_console in Hp.
  - exact (con_backspace_spec c t Hv).
  - exact (con_clear_spec c (proj1 (con_view_ok c t Hv))).
Qed.

Lemma console_run_spec ops c t : console_view c t →
  ∃ c', console_run ops c = Some c' ∧ console_geometry c' = console_geometry c
    ∧ console_view c' (term_run (console_geometry c) ops t).
Proof.
  revert c t. induction ops as [|op ops IH]; intros c t Hv; simpl; [eauto|].
  destruct (console_op_spec op c t Hv) as (c1 & -> & Hg & Hv1). simpl.
  destruct (IH c1 _ Hv1) as (c2 & H2 & Hg2 & Hv2). rewrite Hg in Hg2, Hv2. eauto.
Qed.

Lemma term_print_legible g text t : printable (unknown_char g) = true → legible t → legible (term_print g text t).
Proof. intros Hu. revert t. induction text; intros t Ht; simpl; [done|]. by apply IHtext, term_write_legible. Qed.

Lemma term_run_legible g ops t : printable (unknown_char g) = true → legible t → legible (term_run g ops t).
Proof.
  intros Hu. revert t. induction ops as [|op ops IH]; intros t Ht; simpl; [done|]. apply IH. destruct op; simpl.
  - by apply term_print_legible.
  - by apply term_newline_legible, term_print_legible.
  - by apply term_backspace_legible.
  - apply Forall_replicate, blank_line_legible.
Qed.

(** C11: From a framebuffer of any of the formats the bootloader reports,
    however large, every sequence of console calls after the first
    [clear_screen] runs without a panic and leaves on the screen, pixel for
    pixel, the text the same calls write on a terminal: the grid, the cursor,
    the wrapping and the scrolling. That text is the only one the pixels can
    be read as, since no two characters of the font look the same. *)
Theorem console_shows_its_terminal sc c ops :
  info_ok (fb_info sc) (zlen (fb_buffer sc)) →
  ∃ c', console_run (Clear :: ops) (init sc c) = Some c'
    ∧ let t := term_run (text_geometry (fb_info sc)) (Clear :: ops) inhabitant in
      console_view c' t ∧ ∀ t', legible t' → console_view c' t' → t' = t.
Proof.
  intros Hok. cbn zeta.
  destruct (clear_screen_spec (init sc c)) as (c1 & Hc1 & Hi & Hv1); [by exists sc|].
  destruct (console_run_spec ops c1 _ Hv1) as (c2 & Hc2 & _ & Hv2). rewrite (same_geometry _ _ Hi) in Hv2.
  exists c2. split; [cbn [console_run console_op]; rewrite Hc1; exact Hc2|].
  split; [exact Hv2|]. intros t' Hl Hv'. apply (view_determines_text c2 _ _ Hv' Hv2 Hl).
  apply term_run_legible; [done|]. apply Forall_replicate, blank_line_legible.
Qed.

(** A screen of two lines of two characters. *)
Definition small_screen : Screen := mk_screen (mk_fb 6480 36 60 36 3 Bgr) (replicate 6480 (z2b 7)).

Lemma small_screen_ok : info_ok (fb_info small_screen) (zlen (fb_buffer small_screen)).
Proof. assert (zlen (fb_buffer small_screen) = 6480) as -> by done. split; simpl; font. Qed.

Lemma console_shows_its_terminal_witness :
  ∃ c', console_run [Clear; Print (bs "> "); Print (bs "hi"); Backspace] (init small_screen (mk_console None 9 9)) = Some c'
    ∧ let t := term_run (text_geometry (fb_info small_screen)) [Clear; Print (bs "> "); Print (bs "hi"); Backspace] inhabitant in
      console_view c' t ∧ ∀ t', legible t' → console_view c' t' → t' = t.
Proof. apply (console_shows_its_terminal small_screen _ [_; _; _]). apply small_screen_ok. Defined.

(** What that terminal shows, and the same from the pixels themselves. *)
Example small_screen_text :
  cells (term_run (text_geometry (fb_info small_screen)) [Clear; Print (bs "> "); Print (bs "hi"); Backspace] inhabitant)
  = [bs "> "; bs "h "].
Proof. vm_compute. reflexivity. Qed.
