(* ===== verification/VgaText.v ===== *)
(** The VGA text console of kernel/vga_buffer.rs, used when the bootloader
    gives no framebuffer, and its proof against the interface of Terminal.v.

    The console is the 4000 bytes of video memory, a character and a colour
    for each of the 80 by 25 cells, and the cursor. The source writes through
    a raw pointer; here a write outside the buffer is [None]. *)

From S2P Require Import Prelude Terminal.

Definition VGA_WIDTH : Z := 80.
Definition VGA_HEIGHT : Z := 25.
Definition DEFAULT_COLOR : byte := z2b 0x07.

Record Vga := mk_vga { video : list byte; ROW : Z; COL : Z }.

Definition cell_offset (row col : Z) : Z := (row * VGA_WIDTH + col) * 2.

Definition poke (index : Z) (value : byte) (memory : list byte) : option (list byte) :=
  if (0 <=? index) && (index <? zlen memory) then Some (<[Z.to_nat index := value]> memory) else None.

Definition peek (index : Z) (memory : list byte) : option byte :=
  if 0 <=? index then memory !! Z.to_nat index else None.

Definition write_cell (row col : Z) (character color : byte) (memory : list byte) : option (list byte) :=
  let offset := cell_offset row col in
  memory ← poke offset character memory;
  poke (offset + 1) color memory.

Definition clear_cells : list byte → option (list byte) :=
  for_loop (Z.to_nat VGA_HEIGHT) 0 (λ row,
    for_loop (Z.to_nat VGA_WIDTH) 0 (λ col, write_cell row col blank DEFAULT_COLOR)).

Definition vga_clear_screen (v : Vga) : option Vga :=
  memory ← clear_cells (video v); Some (mk_vga memory 0 0).

Definition copy_cell (row col : Z) (memory : list byte) : option (list byte) :=
  let src := cell_offset row col in
  let dst := cell_offset (row - 1) col in
  color ← peek (src + 1) memory;
  ch ← peek src memory;
  memory ← poke dst ch memory;
  poke (dst + 1) color memory.

Definition vga_scroll_up (v : Vga) : option Vga :=
  memory ← for_loop (Z.to_nat (VGA_HEIGHT - 1)) 1 (λ row,
    for_loop (Z.to_nat VGA_WIDTH) 0 (λ col, copy_cell row col)) (video v);
  let last_row := VGA_HEIGHT - 1 in
  memory ← for_loop (Z.to_nat VGA_WIDTH) 0 (λ col, write_cell last_row col blank DEFAULT_COLOR) memory;
  Some (mk_vga memory (VGA_HEIGHT - 1) (COL v)).

Definition vga_newline (v : Vga) : option Vga :=
  let v := mk_vga (video v) (ROW v + 1) 0 in
  if ROW v >=? VGA_HEIGHT then vga_scroll_up v else Some v.

Definition vga_put (character : byte) (v : Vga) : option Vga :=
  v ← (if COL v >=? VGA_WIDTH then vga_newline v else Some v);
  memory ← write_cell (ROW v) (COL v) character DEFAULT_COLOR (video v);
  Some (mk_vga memory (ROW v) (COL v + 1)).

Definition vga_write_char (b : byte) (v : Vga) : option Vga :=
  if (0x20 <=? b2z b) && (b2z b <=? 0x7e) then vga_put b v
  else if b2z b =? 10 then vga_newline v
  else vga_put (z2b 0xfe) v.

Definition vga_backspace (v : Vga) : option Vga :=
  if COL v =? 0 then Some v
  else
    let col := COL v - 1 in
    memory ← write_cell (ROW v) col blank DEFAULT_COLOR (video v);
    Some (mk_vga memory (ROW v) col).

Fixpoint vga_print (text : str) (v : Vga) : option Vga :=
  match text with
  | [] => Some v
  | b :: text => v ← vga_write_char b v; vga_print text v
  end.

Definition vga_println (text : str) (v : Vga) : option Vga := v ← vga_print text v; vga_newline v.

(** ** The video memory as a grid *)

Definition vga_geometry : Geometry := mk_geometry 25 80 (z2b 0xfe).

Definition on_screen (row col : Z) : Prop := 0 <= row < VGA_HEIGHT ∧ 0 <= col < VGA_WIDTH.

(** The two bytes of a cell. *)
Definition vga_cell (memory : list byte) (row col : Z) : option byte * option byte :=
  (memory !! Z.to_nat (cell_offset row col), memory !! Z.to_nat (cell_offset row col + 1)).

(** A change of the memory that sets the cells of [P] to [f] and keeps the others. *)
Definition sets (P : Z → Z → bool) (f : Z → Z → option byte * option byte) (m m' : list byte) : Prop :=
  length m' = 4000%nat ∧ ∀ row col, on_screen row col → vga_cell m' row col = if P row col then f row col else vga_cell m row col.

Ltac vga := unfold on_screen, cell_offset, VGA_WIDTH, VGA_HEIGHT in *; lia.

Lemma write_cell_sets row col ch color m : length m = 4000%nat → on_screen row col →
  ∃ m', write_cell row col ch color m = Some m' ∧ sets (λ r c, (r =? row) && (c =? col)) (λ _ _, (Some ch, Some color)) m m'.
Proof.
  intros Hm Hs. unfold write_cell, poke.
  rewrite !(proj2 (Z.leb_le 0 _)) by vga. rewrite (proj2 (Z.ltb_lt _ (zlen m))) by (unfold zlen; vga). simpl.
  rewrite (proj2 (Z.ltb_lt _ _)) by (unfold zlen; rewrite length_insert; vga). eexists. split; [reflexivity|]. split; [by rewrite !length_insert|].
  intros r c Hs'. unfold vga_cell. destruct (_ && _) eqn:E; bool_hyps.
  - subst. rewrite (list_lookup_insert_ne (<[_ := _]> m)) by vga.
    rewrite !list_lookup_insert_eq; rewrite ?length_insert; [done|vga..].
  - assert (r ≠ row ∨ c ≠ col) by (apply andb_false_iff in E; rewrite !Z.eqb_neq in E; done).
    rewrite !list_lookup_insert_ne by vga. done.
Qed.

Lemma copy_cell_sets row col m : length m = 4000%nat → on_screen row col → 1 <= row →
  ∃ m', copy_cell row col m = Some m' ∧ sets (λ r c, (r =? row - 1) && (c =? col)) (λ r c, vga_cell m (r + 1) c) m m'.
Proof.
  intros Hm Hs Hrow.
  destruct (lookup_lt_is_Some_2 m (Z.to_nat (cell_offset row col))) as [ch Hch]; [vga|].
  destruct (lookup_lt_is_Some_2 m (Z.to_nat (cell_offset row col + 1))) as [color Hcolor]; [vga|].
  assert (on_screen (row - 1) col) as Hs1 by vga.
  destruct (write_cell_sets (row - 1) col ch color m Hm Hs1) as (m' & Hw & Hl & Hset).
  exists m'. split.
  - unfold copy_cell, peek. rewrite !(proj2 (Z.leb_le 0 _)) by vga. rewrite Hcolor, Hch. exact Hw.
  - split; [done|]. intros r c Hs'. rewrite Hset by done. destruct (_ && _) eqn:E; [|done]. bool_hyps. subst r c.
    unfold vga_cell. replace (row - 1 + 1) with row by lia. by rewrite Hch, Hcolor.
Qed.

(** The cells of [m'] in terms of those of [m]. *)
Definition cells_are (f : Z → Z → option byte * option byte) (m : list byte) : Prop :=
  length m = 4000%nat ∧ ∀ row col, on_screen row col → vga_cell m row col = f row col.

Definition clear_cell : option byte * option byte := (Some blank, Some DEFAULT_COLOR).

(** One row of cells is cleared. *)
Lemma clear_row_sets row m : length m = 4000%nat → 0 <= row < VGA_HEIGHT →
  ∃ m', for_loop (Z.to_nat VGA_WIDTH) 0 (λ col, write_cell row col blank DEFAULT_COLOR) m = Some m' ∧
    cells_are (λ r c, if r =? row then clear_cell else vga_cell m r c) m'.
Proof.
  intros Hm Hr.
  destruct (for_loop_inv (λ k, cells_are (λ r c, if (r =? row) && (c <? k) then clear_cell else vga_cell m r c))
    (Z.to_nat VGA_WIDTH) 0 (λ col, write_cell row col blank DEFAULT_COLOR) m) as (m' & Hl & Hl' & Hc).
  - split; [done|]. intros r c Hs. replace (c <? 0) with false by (symmetry; apply Z.ltb_ge; vga). by rewrite andb_false_r.
  - intros i m1 Hi [Hl1 Hc1]. destruct (write_cell_sets row i blank DEFAULT_COLOR m1 Hl1) as (m2 & Hw & Hl2 & Hs2); [vga|].
    exists m2. split; [done|]. split; [done|]. intros r c Hs. rewrite Hs2 by done. rewrite Hc1 by done.
    destruct (Z.eqb_spec r row), (Z.eqb_spec c i), (Z.ltb_spec c i), (Z.ltb_spec c (i + 1)); simpl; try lia; done.
  - exists m'. split; [done|]. split; [done|]. intros r c Hs. rewrite Hc by done.
    replace (c <? _) with true by (symmetry; apply Z.ltb_lt; vga). by rewrite andb_true_r.
Qed.

(** One row of cells is copied to the row above. *)
Lemma copy_row_sets row m : length m = 4000%nat → 1 <= row < VGA_HEIGHT →
  ∃ m', for_loop (Z.to_nat VGA_WIDTH) 0 (λ col, copy_cell row col) m = Some m' ∧
    cells_are (λ r c, if r =? row - 1 then vga_cell m row c else vga_cell m r c) m'.
Proof.
  intros Hm Hr.
  destruct (for_loop_inv (λ k, cells_are (λ r c, if (r =? row - 1) && (c <? k) then vga_cell m row c else vga_cell m r c))
    (Z.to_nat VGA_WIDTH) 0 (λ col, copy_cell row col) m) as (m' & Hl & Hl' & Hc).
  - split; [done|]. intros r c Hs. replace (c <? 0) with false by (symmetry; apply Z.ltb_ge; vga). by rewrite andb_false_r.
  - intros i m1 Hi [Hl1 Hc1]. destruct (copy_cell_sets row i m1 Hl1) as (m2 & Hw & Hl2 & Hs2); [vga|lia|].
    exists m2. split; [done|]. split; [done|]. intros r c Hs. rewrite Hs2 by done. rewrite (Hc1 r c) by done.
    destruct (Z.eqb_spec r (row - 1)), (Z.eqb_spec c i), (Z.ltb_spec c i), (Z.ltb_spec c (i + 1)); simpl; try lia; try done.
    subst r c. replace (row - 1 + 1) with row by lia. rewrite Hc1 by vga. by rewrite (proj2 (Z.eqb_neq row (row - 1))) by lia.
  - exists m'. split; [done|]. split; [done|]. intros r c Hs. rewrite Hc by done.
    replace (c <? _) with true by (symmetry; apply Z.ltb_lt; vga). by rewrite andb_true_r.
Qed.

Lemma clear_cells_sets m : length m = 4000%nat → ∃ m', clear_cells m = Some m' ∧ cells_are (λ _ _, clear_cell) m'.
Proof.
  intros Hm.
  destruct (for_loop_inv (λ k, cells_are (λ r c, if r <? k then clear_cell else vga_cell m r c)) (Z.to_nat VGA_HEIGHT) 0
    (λ row, for_loop (Z.to_nat VGA_WIDTH) 0 (λ col, write_cell row col blank DEFAULT_COLOR)) m) as (m' & Hl & Hl' & Hc).
  - split; [done|]. intros r c Hs. by replace (r <? 0) with false by (symmetry; apply Z.ltb_ge; vga).
  - intros i m1 Hi [Hl1 Hc1]. destruct (clear_row_sets i m1 Hl1) as (m2 & Hw & Hl2 & Hs2); [vga|].
    exists m2. split; [done|]. split; [done|]. intros r c Hs. rewrite Hs2 by done. rewrite Hc1 by done.
    destruct (Z.eqb_spec r i), (Z.ltb_spec r i), (Z.ltb_spec r (i + 1)); try lia; done.
  - exists m'. split; [done|]. split; [done|]. intros r c Hs. rewrite Hc by done.
    by replace (r <? _) with true by (symmetry; apply Z.ltb_lt; vga).
Qed.

Lemma vga_scroll_sets m row col : length m = 4000%nat →
  ∃ m', vga_scroll_up (mk_vga m row col) = Some (mk_vga m' (VGA_HEIGHT - 1) col) ∧
    cells_are (λ r c, if r =? VGA_HEIGHT - 1 then clear_cell else vga_cell m (r + 1) c) m'.
Proof.
  intros Hm. unfold vga_scroll_up. cbn [video COL].
  destruct (for_loop_inv (λ k, cells_are (λ r c, if r <? k - 1 then vga_cell m (r + 1) c else vga_cell m r c))
    (Z.to_nat (VGA_HEIGHT - 1)) 1 (λ row, for_loop (Z.to_nat VGA_WIDTH) 0 (λ col, copy_cell row col)) m) as (m1 & -> & Hl1 & Hc1).
  - split; [done|]. intros r c Hs. by replace (r <? _) with false by (symmetry; apply Z.ltb_ge; vga).
  - intros i m1 Hi [Hl1 Hc1]. destruct (copy_row_sets i m1 Hl1) as (m2 & Hw & Hl2 & Hs2); [vga|].
    exists m2. split; [done|]. split; [done|]. intros r c Hs. rewrite Hs2 by done.
    destruct (Z.eqb_spec r (i - 1)) as [->|]; rewrite Hc1 by vga.
    + replace (i - 1 + 1) with i by lia. destruct (Z.ltb_spec i (i - 1)), (Z.ltb_spec (i - 1) (i + 1 - 1)); try lia; done.
    + destruct (Z.ltb_spec r (i - 1)), (Z.ltb_spec r (i + 1 - 1)); try lia; done.
  - simpl. destruct (clear_row_sets (VGA_HEIGHT - 1) m1 Hl1) as (m2 & Hw & Hl2 & Hs2); [vga|].
    exists m2. simpl in Hw. rewrite Hw. split; [done|]. split; [done|]. intros r c Hs. rewrite Hs2 by done.
    destruct (Z.eqb_spec r (VGA_HEIGHT - 1)); [done|]. rewrite Hc1 by done.
    by replace (r <? _) with true by (symmetry; apply Z.ltb_lt; vga).
Qed.

(** ** The console *)

(** The memory shows the grid, each character in the default colour. *)
Definition vga_shows (m : list byte) (cs : list (list byte)) : Prop :=
  cells_are (λ r c, (cs !! Z.to_nat r ≫= (.!! Z.to_nat c), Some DEFAULT_COLOR)) m.

Definition vga_view (v : Vga) (t : Term) : Prop :=
  term_ok vga_geometry t ∧ vga_shows (video v) (cells t) ∧ ROW v = Z.of_nat (term_row t) ∧ COL v = Z.of_nat (term_col t).

(** [r] is a console that shows [t]. *)
Definition vga_next (r : option Vga) (t : Term) : Prop := ∃ v', r = Some v' ∧ vga_view v' t.

Lemma vga_geometry_ok : geometry_ok vga_geometry.
Proof. split; simpl; lia. Qed.

Lemma vga_clear_spec v : length (video v) = 4000%nat → vga_next (vga_clear_screen v) (term_clear vga_geometry).
Proof.
  intros Hm. unfold vga_next, vga_clear_screen. destruct (clear_cells_sets (video v) Hm) as (m' & -> & Hl & Hc). simpl.
  eexists. split; [reflexivity|]. split; [apply term_clear_ok, vga_geometry_ok|]. split; [|done]. split; [done|].
  intros r c Hs. rewrite Hc by done. unfold term_clear, blank_line. cbn [cells rows cols vga_geometry].
  rewrite lookup_replicate_2 by vga. cbn [mbind option_bind]. by rewrite lookup_replicate_2 by vga.
Qed.

Lemma vga_newline_spec v t : vga_view v t → vga_next (vga_newline v) (term_newline vga_geometry t).
Proof.
  intros (Ht & Hs & Hr & Hc). pose proof (term_newline_ok _ vga_geometry_ok t Ht) as Ht'.
  unfold vga_next, vga_newline, term_newline in *. cbn [ROW video rows vga_geometry] in *. destruct Ht as [Hrows Hcols Hrow Hcol].
  destruct (ROW v + 1 >=? VGA_HEIGHT) eqn:E.
  - rewrite decide_True in * by vga. destruct (vga_scroll_sets (video v) (ROW v + 1) 0 (proj1 Hs)) as (m' & -> & Hl & Hc').
    eexists. split; [reflexivity|]. split; [done|]. split; [|done]. split; [done|]. intros r c Hon. rewrite Hc' by done.
    unfold term_scroll. cbn [cells]. simpl in Hrows. destruct (Z.eqb_spec r (VGA_HEIGHT - 1)) as [->|Hne].
    + rewrite lookup_app_r by (rewrite length_drop; vga). rewrite length_drop, Hrows.
      assert ([blank_line vga_geometry] !! (Z.to_nat (VGA_HEIGHT - 1) - (25 - 1))%nat = Some (replicate 80 blank)) as -> by done.
      cbn [mbind option_bind]. by rewrite lookup_replicate_2 by vga.
    + rewrite lookup_app_l by (rewrite length_drop; vga). rewrite lookup_drop.
      rewrite (proj2 Hs) by vga. by replace (Z.to_nat (r + 1)) with (1 + Z.to_nat r)%nat by vga.
  - rewrite decide_False in * by vga. eexists. split; [reflexivity|]. split; [done|]. split; [done|]. simpl. vga.
Qed.

(** Writing one cell of the screen is writing one cell of the grid. *)
Lemma write_cell_shows m cs row col ch : vga_shows m cs → length cs = 25%nat → Forall (λ line, length line = 80%nat) cs →
  (row < 25)%nat → (col < 80)%nat →
  ∃ m', write_cell (Z.of_nat row) (Z.of_nat col) ch DEFAULT_COLOR m = Some m' ∧ vga_shows m' (set_cell row col ch cs).
Proof.
  intros Hs Hrows Hcols Hrow Hcol.
  destruct (write_cell_sets (Z.of_nat row) (Z.of_nat col) ch DEFAULT_COLOR m (proj1 Hs)) as (m' & Hw & Hl & Hc); [vga|].
  exists m'. split; [done|]. split; [done|]. intros r c Hon. rewrite Hc by done. unfold set_cell.
  destruct (lookup_lt_is_Some_2 cs row) as [line Hline]; [lia|].
  destruct (Z.eqb_spec r (Z.of_nat row)) as [->|Hr]; cbn [andb].
  - rewrite Nat2Z.id, list_lookup_alter_eq, Hline. cbn [fmap option_fmap option_map mbind option_bind].
    destruct (Z.eqb_spec c (Z.of_nat col)) as [->|Hne].
    + rewrite Nat2Z.id, list_lookup_insert_eq; [done|]. by rewrite (Forall_lookup_1 _ _ _ _ Hcols Hline).
    + rewrite (proj2 Hs) by done. rewrite Nat2Z.id, Hline. cbn [mbind option_bind]. by rewrite list_lookup_insert_ne by vga.
  - rewrite (proj2 Hs) by done. by rewrite list_lookup_alter_ne by vga.
Qed.

Lemma vga_put_spec v t ch : vga_view v t → vga_next (vga_put ch v) (term_put vga_geometry ch t).
Proof.
  intros Hv. pose proof Hv as (Ht & Hs & Hr & Hc).
  pose proof (term_put_ok _ vga_geometry_ok ch t Ht) as Hput. unfold vga_next, vga_put, term_put in *.
  assert (vga_next (if COL v >=? VGA_WIDTH then vga_newline v else Some v)
    (if decide (cols vga_geometry ≤ term_col t)%nat then term_newline vga_geometry t else t)) as (v1 & -> & Hv1).
  { cbn [cols vga_geometry]. destruct (COL v >=? VGA_WIDTH) eqn:E.
    - rewrite decide_True by vga. by apply vga_newline_spec.
    - rewrite decide_False by vga. by exists v. }
  assert (term_col (if decide (cols vga_geometry ≤ term_col t)%nat then term_newline vga_geometry t else t) < 80)%nat as Hfit.
  { pose proof (term_col_ok _ _ Ht). cbn [cols vga_geometry] in *. case_decide; [|lia].
    unfold term_newline, term_scroll. case_decide; simpl; lia. }
  set (t1 := if decide _ then _ else t) in *. cbn [mbind option_bind]. destruct Hv1 as ([Hrows Hcols Hrow Hcol] & Hs1 & Hr1 & Hc1).
  rewrite Hr1, Hc1. destruct (write_cell_shows (video v1) (cells t1) (term_row t1) (term_col t1) ch) as (m' & -> & Hs'); [done..|].
  cbn [mbind option_bind]. eexists. split; [reflexivity|]. split; [done|]. split; [done|]. simpl. lia.
Qed.

Lemma vga_write_char_spec b v t : vga_view v t → vga_next (vga_write_char b v) (term_write vga_geometry b t).
Proof.
  intros Hv. unfold vga_write_char, term_write, shown, printable. destruct (_ && _) eqn:E.
  - rewrite decide_False; [by apply vga_put_spec|]. intros ->. by vm_compute in E.
  - destruct (b2z b =? 10) eqn:E10; bool_hyps.
    + rewrite decide_True; [by apply vga_newline_spec|]. by apply b2z_inj.
    + rewrite decide_False by (intros ->; by vm_compute in E10). by apply vga_put_spec.
Qed.

Lemma vga_backspace_spec v t : vga_view v t → vga_next (vga_backspace v) (term_backspace t).
Proof.
  intros Hv. pose proof Hv as (Ht & Hs & Hr & Hc). pose proof (term_backspace_ok vga_geometry t Ht) as Ht'.
  unfold vga_next, vga_backspace, term_backspace in *. rewrite Hc. pose proof (term_col_ok _ _ Ht) as Hfit. simpl in Hfit.
  destruct (term_col t) as [|col]; [by exists v|]. rewrite (proj2 (Z.eqb_neq (Z.of_nat (S col)) 0)) by lia. cbn zeta.
  replace (Z.of_nat (S col) - 1) with (Z.of_nat col) by lia. rewrite Hr. destruct Ht as [Hrows Hcols Hrow _].
  destruct (write_cell_shows (video v) (cells t) (term_row t) col blank) as (m' & -> & Hs'); [done..|lia|].
  cbn [mbind option_bind]. eexists. split; [reflexivity|]. done.
Qed.

#[export, refine] Instance vga_console : TextConsole Vga := {
  con_write := vga_write_char;
  con_newline := vga_newline;
  con_backspace := vga_backspace;
  con_clear := vga_clear_screen;
  con_geometry := λ _, vga_geometry;
  con_view := vga_view;
  con_live := λ v, length (video v) = 4000%nat
}.
Proof.
  - intros _ _. apply vga_geometry_ok.
  - intros v t (Ht & [Hl _] & _). done.
  - intros b v t Hv. destruct (vga_write_char_spec b v t Hv) as (v' & ? & ?). eauto.
  - intros v t Hv. destruct (vga_newline_spec v t Hv) as (v' & ? & ?). eauto.
  - intros v t Hv. destruct (vga_backspace_spec v t Hv) as (v' & ? & ?). eauto.
  - intros v Hl. destruct (vga_clear_spec v Hl) as (v' & ? & ?). eauto.
Defined.

Lemma con_print_vga text v : con_print text v = vga_print text v.
Proof. revert v. induction text as [|b text IH]; intros v; simpl; [done|]. destruct (vga_write_char b v); simpl; [apply IH|done]. Qed.
