(* ===== verification/Programs.v ===== *)
(** The built-in programs, the loopback network and the AI bridge stub:
    kernel/loader.rs, kernel/programs/, kernel/net/ and kernel/ai_bridge.rs.

    They produce lines of text for the shell. The only state is the loopback
    driver, which keeps the last packet sent. *)

From S2P Require Import Prelude Str.

(** ** programs/ and loader.rs *)

Definition hello_run (args : str) : result (list str) :=
  Ok [bs "Hello from TuwaiqOS!"; bs "Program: hello (built-in)"].

Definition demo_run (args : str) : result (list str) :=
  Ok [bs "TuwaiqOS demo program"; bs "Future ELF binaries will load here."].

Definition programs_dispatch (name args : str) : result (list str) :=
  if bool_decide (name = bs "hello") then hello_run args
  else if bool_decide (name = bs "demo") then demo_run args
  else Err "program not found".

Definition program_names : list str := [bs "hello"; bs "demo"].

Definition loader_run (name args : str) : result (list str) := programs_dispatch (trim name) (trim args).

(** ** net/loopback.rs *)

Definition BUFFER_SIZE : nat := 512.

Record LoopbackDriver := mk_loopback { lo_buffer : list byte; lo_length : nat; lo_up : bool }.

Definition loopback_new : LoopbackDriver := mk_loopback (replicate BUFFER_SIZE Byte.x00) 0 false.

Definition loopback_init (d : LoopbackDriver) : LoopbackDriver := mk_loopback (lo_buffer d) 0 true.

Inductive SendResult := Delivered | Dropped.

Definition lo_send (payload : list byte) (d : LoopbackDriver) : SendResult * LoopbackDriver :=
  if negb (lo_up d) then (Dropped, d)
  else
    let len := Nat.min (length payload) BUFFER_SIZE in
    (Delivered, mk_loopback (copy_at 0 (take len payload) (lo_buffer d)) len (lo_up d)).

(** Receive into a buffer; the count is what was copied. *)
Definition lo_receive (buffer : list byte) (d : LoopbackDriver) : option nat * list byte :=
  if decide (lo_length d = 0%nat) then (None, buffer)
  else
    let len := Nat.min (lo_length d) (length buffer) in
    (Some len, copy_at 0 (take len (lo_buffer d)) buffer).

(** ** net/mod.rs *)

Record Net := mk_net { loopback : LoopbackDriver; net_initialized : bool }.

Definition net_boot : Net := mk_net loopback_new false.
Definition net_init (n : Net) : Net := mk_net (loopback_init (loopback n)) true.
Definition net_status_lines : list str := [bs "Network: initialized"; bs "Loopback: active"].

Definition PING_PAYLOAD : list byte := bs "tuwaiqos-ping".

Definition ping (host : str) (n : Net) : result str * Net :=
  let host := trim host in
  if negb (bool_decide (host = bs "localhost")) && negb (bool_decide (host = bs "127.0.0.1")) then
    (Err "only localhost is supported", n)
  else if negb (net_initialized n) then (Err "network not initialized", n)
  else
    let '(sent, d) := lo_send PING_PAYLOAD (loopback n) in
    let n := mk_net d (net_initialized n) in
    match sent with
    | Dropped => (Err "loopback dropped packet", n)
    | Delivered =>
        match (lo_receive (replicate 64 Byte.x00) d).1 with
        | None => (Err "no loopback reply", n)
        | Some received =>
            if negb (received =? length PING_PAYLOAD)%nat then (Err "unexpected reply size", n)
            else (Ok (bs "Reply from localhost: ok"), n)
        end
    end.

(** ** net/http.rs *)

Record HttpResponse := mk_http { http_status : Z; http_body : str }.

Definition http_get (url : str) : HttpResponse :=
  mk_http 503 (bs "HTTP client stub: network stack not connected to " ++ url).

(** ** ai_bridge.rs *)

Inductive BridgeMode := Stub.
Record BridgeStatus := mk_bridge { online : bool; bridge_mode : BridgeMode; bridge_phase : Z }.

Definition bridge_status : BridgeStatus := mk_bridge false Stub 8.

Definition bridge_ask (question : str) : str :=
  let trimmed := trim question in
  let display := match trimmed with [] => bs "(empty)" | _ => trimmed end in
  bs "AI Bridge: offline" ++ [newline] ++ bs "Question: " ++ display
  ++ [newline] ++ bs "Hint: Real AI backend will be connected in Phase 9.".

Definition help_lines : list str := [bs "AI commands:"; bs "ask <question>"; bs "ai status"; bs "ai help"].
Definition offline_notice : str := bs "AI Bridge is not connected yet.".

(** ** What the driver promises *)

(** The driver's buffer keeps its size, and holds what it says it does. *)
Definition loopback_ok (d : LoopbackDriver) : Prop := length (lo_buffer d) = BUFFER_SIZE ∧ (lo_length d ≤ BUFFER_SIZE)%nat.

Lemma loopback_new_ok : loopback_ok loopback_new.
Proof. split; [apply length_replicate|]. unfold BUFFER_SIZE. simpl. lia. Qed.

Lemma lo_send_ok payload d : loopback_ok d → loopback_ok (lo_send payload d).2.
Proof.
  intros [Hb Hl]. unfold lo_send. destruct (lo_up d) eqn:Hup; cbn [negb snd]; [|done].
  split; cbn [lo_buffer lo_length]; [|lia]. rewrite length_copy_at; [done|]. rewrite length_take, Hb. lia.
Qed.

(** A packet that fits the driver and the receiver's buffer comes back as sent. *)
Lemma loopback_delivers payload buffer d :
  loopback_ok d → lo_up d = true → payload ≠ [] → (length payload ≤ BUFFER_SIZE)%nat → (length payload ≤ length buffer)%nat →
  let '(sent, d') := lo_send payload d in
  sent = Delivered ∧
  ∃ buffer', lo_receive buffer d' = (Some (length payload), buffer') ∧ take (length payload) buffer' = payload.
Proof.
  intros [Hb Hl] Hup Hne Hfit Hfit'. unfold lo_send, lo_receive. rewrite Hup. cbn [negb lo_length lo_buffer].
  split; [done|]. rewrite (Nat.min_l (length payload)) by lia.
  rewrite decide_False by (by destruct payload). rewrite Nat.min_l by lia. eexists. split; [reflexivity|].
  rewrite (take_ge payload) by lia. unfold copy_at. simpl.
  rewrite (take_app_length' payload) by lia. by rewrite take_app_length' by lia.
Qed.

(** Pinging the machine itself succeeds once the network is up. *)
Lemma ping_localhost n :
  loopback_ok (loopback n) → lo_up (loopback n) = true → net_initialized n = true →
  (ping (bs "localhost") n).1 = Ok (bs "Reply from localhost: ok").
Proof.
  intros Hok Hup Hinit. pose proof (loopback_delivers PING_PAYLOAD (replicate 64 Byte.x00) (loopback n) Hok Hup) as Hd.
  unfold ping. change (trim (bs "localhost")) with (bs "localhost"). cbn [bool_decide]. rewrite bool_decide_true by done.
  rewrite Hinit. cbn [negb andb]. destruct (lo_send PING_PAYLOAD (loopback n)) as [sent d'].
  destruct Hd as (-> & b & -> & _); [done|unfold BUFFER_SIZE; simpl; lia|rewrite length_replicate; simpl; lia|].
  cbn [fst]. by rewrite Nat.eqb_refl.
Qed.
