(* ===== verification/Notes.v ===== *)
(** The notes application and the file viewer: kernel/apps/notes.rs and
    kernel/apps/editor.rs, on the virtual filesystem.

    Each note is a file of the directory [.notes] below the root. A handler
    returns the lines the shell prints. *)

From S2P Require Import Prelude Str Device Tree TuwaiqTree TuwaiqFs Fs FsPersist Vfs VfsData.

Definition NOTES_DIR : str := bs ".notes".

Definition note_path (name : str) : str := NOTES_DIR ++ [slash] ++ name.

Definition valid_note_name (name : str) : bool :=
  negb (bool_decide (name = [])) && (zlen name <=? NAME_MAX)
  && negb (bool_decide (name = bs ".")) && negb (bool_decide (name = bs ".."))
  && negb (existsb (λ b, bool_decide (b = slash) || bool_decide (b = backslash)) name)
  && negb (existsb (λ b, bool_decide (b = Byte.x00) || is_control b) name).

Definition usage_lines : list str :=
  [bs "Notes commands:"; bs "  notes create <name>"; bs "  notes set <name> <text>"; bs "  notes delete <name>";
   bs "  notes list"; bs "  notes show <name>"].

Section notes.
Context {D : Type} `{BlockDevice D}.

(** [if vfs::kind("/", NOTES_DIR).is_err() { vfs::create_dir("/", NOTES_DIR)? }] *)
Definition ensure_notes_dir : M (vfs_state D) unit :=
  r ← mtry (Vfs.kind [slash] NOTES_DIR);
  if is_err r then create_dir [slash] NOTES_DIR else mret tt.

Definition note_create (name : str) : M (vfs_state D) (list str) :=
  let name := trim name in
  _ ← mensure (valid_note_name name) "usage: notes create <name>";
  _ ← ensure_notes_dir;
  _ ← write_file [slash] (note_path name) [];
  mret [bs "Created note: " ++ name].

Definition note_set (args : str) : M (vfs_state D) (list str) :=
  let args := trim args in
  split ← mlift (ok_or (find_whitespace args) "usage: notes set <name> <text>");
  let name := take split args in
  let text := trim (drop split args) in
  _ ← mensure (negb (negb (valid_note_name name) || bool_decide (text = []))) "usage: notes set <name> <text>";
  _ ← ensure_notes_dir;
  _ ← write_file [slash] (note_path name) text;
  mret [bs "Saved note: " ++ name].

Definition note_delete (name : str) : M (vfs_state D) (list str) :=
  let name := trim name in
  _ ← mensure (valid_note_name name) "usage: notes delete <name>";
  _ ← remove [slash] (note_path name);
  mret [bs "Deleted note: " ++ name].

Definition note_list : M (vfs_state D) (list str) :=
  r ← mtry (list_dir [slash] NOTES_DIR);
  mret match r with
       | Ok (e :: entries) => e :: entries
       | Ok [] => [bs "(no notes)"]
       | Err _ => [bs "(no notes)"]
       end.

Definition note_show (name : str) : M (vfs_state D) (list str) :=
  let name := trim name in
  _ ← mensure (valid_note_name name) "usage: notes show <name>";
  bytes ← read_file [slash] (note_path name);
  content ← mlift (from_utf8 bytes "note is not UTF-8 text");
  mret [bs "Note: " ++ name; content].

Definition notes_handle (sub args : str) : M (vfs_state D) (list str) :=
  let sub := trim sub in
  if bool_decide (sub = bs "create") then note_create args
  else if bool_decide (sub = bs "set") then note_set args
  else if bool_decide (sub = bs "delete") then note_delete args
  else if bool_decide (sub = bs "list") then note_list
  else if bool_decide (sub = bs "show") then note_show args
  else if bool_decide (sub = []) then mret usage_lines
  else mthrow "unknown notes command".

(** ** apps/editor.rs *)

Definition editor_handle (args : str) : M (vfs_state D) (list str) :=
  let name := trim args in
  _ ← mensure (negb (bool_decide (name = []))) "usage: editor <file>";
  content ← shell_read name;
  mret [bs "Editing: " ++ name; bs "---"; match content with [] => bs "(empty file)" | _ => content end;
        bs "---"; bs "Use: write <file> <text>"].
End notes.

(** ** A saved note is shown again *)

Section facts.
Context {D : Type} `{BlockDeviceSpec D}.
Implicit Types (s : vfs_state D).

Lemma note_path_utf8 name : utf8_valid name = true → utf8_valid (note_path name) = true.
Proof.
  intros Hn. unfold note_path. rewrite utf8_app by done. change ([slash] ++ name) with (slash :: name). by rewrite utf8_valid_cons.
Qed.

(** Making sure of the directory uses at most one record. *)
Lemma ensure_notes_dir_ready s table f r s' n :
  vfs_ready s table f → room_for (S n) f → ensure_notes_dir s = (r, s') →
  ∃ f', vfs_ready s' table f' ∧ room_for n f'.
Proof.
  intros Hv Hroom. assert (room_for n f) as Hn by (unfold room_for in *; lia).
  unfold ensure_notes_dir, mtry, mbind, M_bind. destruct (Vfs.kind [slash] NOTES_DIR s) as [k s1] eqn:Hk.
  apply kind_keeps in Hk. apply (keeps_ready _ _ _ _ Hk) in Hv. destruct (is_err k); [|intros [= <- <-]; eauto]. intros Hc.
  pose proof (vfs_run_ready VCreateDir [slash] NOTES_DIR s1 table f r s' Hv canonical_root eq_refl) as Hrun.
  specialize (Hrun ltac:(intros p f' Hop; by eapply room_for_step) Hc). destruct r as [u|e]; [|eauto].
  destruct Hrun as (_ & bp & f' & _ & _ & _ & Hop & Hready). exists f'. split; [done|]. by eapply room_for_step.
Qed.

(** What [notes set] stores. *)
Lemma note_set_run args s lines s' : note_set args s = (Ok lines, s') →
  ∃ name text s1 u, find_whitespace name = None ∧ valid_note_name name = true ∧ lines = [bs "Saved note: " ++ name]
    ∧ (utf8_valid args = true → utf8_valid name = true ∧ utf8_valid text = true)
    ∧ (∃ i, find_whitespace (trim args) = Some i ∧ name = take i (trim args) ∧ text = trim (drop i (trim args)))
    ∧ ensure_notes_dir s = (Ok u, s1) ∧ write_file [slash] (note_path name) text s1 = (Ok tt, s').
Proof.
  unfold note_set. cbn zeta. intros (i & s0 & (Hi%ok_or_Ok & ->)%mlift_Ok & E)%M_bind_Ok.
  apply M_bind_Ok in E as ([] & s0' & [Hvalid ->]%mensure_Ok & E).
  apply M_bind_Ok in E as (u & s1 & Hdir & E). apply M_bind_Ok in E as ([] & s2 & Hw & [= <- <-]).
  apply negb_true_iff, orb_false_iff in Hvalid as [Hvalid%negb_false_iff _].
  destruct (find_whitespace_Some _ _ Hi) as (w & rest & Hin & Hs & Hn).
  exists (take i (trim args)), (trim (drop i (trim args))), s1, u. split_and!; try done; [|eauto].
  intros Hu%trim_utf8. pose proof (whitespace_chars w Hin) as Hwc.
  assert (drop i (trim args) = w ++ rest) as Hd.
  { rewrite <- (take_drop i (trim args)) in Hs at 1. by apply app_inv_head in Hs. }
  rewrite Hs in Hu. apply utf8_cut_char in Hu as [Hu1 Hu2]; [|done]. split; [done|].
  apply trim_utf8. rewrite Hd. by rewrite utf8_char_app.
Qed.

(** A note that was saved is shown as it was saved. From a filesystem with
    room for two records, a [notes set] that reports success stored the rest of
    its argument, without the white space around it, as the note named by the
    first word, and [notes show] of that name then answers with exactly that
    text. *)
Theorem notes_round_trip args s table f lines s' :
  vfs_ready s table f → room_for 2 f → utf8_valid args = true →
  notes_handle (bs "set") args s = (Ok lines, s') →
  ∃ name text, lines = [bs "Saved note: " ++ name]
    ∧ (∃ i, find_whitespace (trim args) = Some i ∧ name = take i (trim args) ∧ text = trim (drop i (trim args)))
    ∧ notes_handle (bs "show") name s' = (Ok [bs "Note: " ++ name; text], s')
    ∧ ∃ f', vfs_ready s' table f'.
Proof.
  intros Hv Hroom Hu Hset. change (notes_handle (bs "set") args) with (note_set args) in Hset.
  destruct (note_set_run _ _ _ _ Hset) as (name & text & s1 & u & Hword & Hvalid & -> & Hutf & Hsplit & Hdir & Hw).
  destruct (Hutf Hu) as [Hname Htext]. destruct (ensure_notes_dir_ready _ _ _ _ _ 1 Hv Hroom Hdir) as (f1 & Hv1 & Hroom1).
  destruct (vfs_write_then_read _ _ _ _ _ _ _ Hv1 canonical_root (note_path_utf8 _ Hname)
    ltac:(intros p f' Hop; by eapply room_for_step) Hw) as (Hread & Hready).
  exists name, text. split; [done|]. split; [done|]. split; [|done].
  change (notes_handle (bs "show") name) with (note_show name). unfold note_show. rewrite (trim_word name Hword). cbn zeta.
  unfold mbind, M_bind, mensure, mlift, ensure. rewrite Hvalid, Hread. unfold from_utf8. by rewrite Htext.
Qed.
End facts.

Lemma notes_round_trip_witness :
  let s' := (notes_handle (bs "set") (bs " todo  buy milk ") w_vfs).2 in
  ∃ name text, [bs "Saved note: todo"] = [bs "Saved note: " ++ name]
    ∧ (∃ i, find_whitespace (trim (bs " todo  buy milk ")) = Some i ∧ name = take i (trim (bs " todo  buy milk "))
        ∧ text = trim (drop i (trim (bs " todo  buy milk "))))
    ∧ notes_handle (bs "show") name s' = (Ok [bs "Note: " ++ name; text], s')
    ∧ ∃ f', vfs_ready s' w_table f'.
Proof.
  cbv zeta. apply (notes_round_trip (bs " todo  buy milk ") w_vfs w_table {| root := EDir [] |}).
  - apply w_vfs_ready.
  - unfold room_for. apply (bool_decide_unpack _). vm_compute. exact I.
  - reflexivity.
  - rewrite (surjective_pairing (notes_handle _ _ _)). by f_equal.
Defined.
