(* ===== verification/ShellText.v ===== *)
(** The pure parts of kernel/shell.rs: the command history, the splitting of a
    command line into words, numbers as text, and the tables of names.

    History::push copies into a ring of sixteen lines of 128 bytes; the lines
    end at their first zero byte. *)

From S2P Require Import Prelude Str.

Definition MAX_LINE : nat := 128.
Definition HISTORY_SIZE : nat := 16.

(** ** History *)

Record History := mk_history {
  entries : list (list byte);
  hist_count : nat;
  browse : nat
}.

Definition history_new : History := mk_history (replicate HISTORY_SIZE (replicate MAX_LINE Byte.x00)) 0 0.

Definition entry_at (h : History) (i : nat) : list byte := default [] (entries h !! i).

(** [for i in 1..HISTORY_SIZE { entries[i - 1] = entries[i] }] *)
Definition shift_entries (es : list (list byte)) : list (list byte) :=
  foldl (λ es i, <[(i - 1)%nat := default [] (es !! i)]> es) es (seq 1 (HISTORY_SIZE - 1)).

(** [len] is at most the length of the line. *)
Definition push (line : list byte) (len : nat) (h : History) : History :=
  if decide (len = 0%nat) then h
  else
    let index := Nat.min (hist_count h) (HISTORY_SIZE - 1) in
    let es := <[index := take len line ++ replicate (MAX_LINE - len) Byte.x00]> (entries h) in
    if decide (hist_count h < HISTORY_SIZE)%nat then mk_history es (hist_count h + 1) (hist_count h + 1)
    else
      let es := shift_entries es in
      let last := (HISTORY_SIZE - 1)%nat in
      mk_history (<[last := copy_at 0 (take len line) (default [] (es !! last))]> es) (hist_count h) (hist_count h).

(** [&entry[..entry.iter().position(|&b| b == 0).unwrap_or(MAX_LINE)]] *)
Definition entry_text (entry : list byte) : str :=
  take (default MAX_LINE (position (λ b, bool_decide (b = Byte.x00)) entry)) entry.

Definition recall_up (h : History) : option str * History :=
  if decide (hist_count h = 0%nat) then (None, h)
  else
    let b := if decide (browse h = 0%nat) then 0%nat
             else if decide (hist_count h < browse h)%nat then (hist_count h - 1)%nat
             else (browse h - 1)%nat in
    let h := mk_history (entries h) (hist_count h) b in
    (Some (entry_text (entry_at h b)), h).

Definition recall_down (h : History) : option str * History :=
  if decide (hist_count h = 0%nat) then (None, h)
  else if decide (hist_count h ≤ browse h + 1)%nat then (Some [], mk_history (entries h) (hist_count h) (hist_count h))
  else
    let h := mk_history (entries h) (hist_count h) (browse h + 1) in
    (Some (entry_text (entry_at h (browse h))), h).

Definition reset_browse (h : History) : History := mk_history (entries h) (hist_count h) (hist_count h).

(** ** Command lines *)

Definition split_command (line : str) : str * str :=
  let line := trim line in
  match find_whitespace line with
  | Some index => (trim (take index line), trim (drop index line))
  | None => (line, [])
  end.

Definition split_first_token (args : str) : option (str * str) :=
  let args := trim args in
  if bool_decide (args = []) then None
  else
    match find_whitespace args with
    | Some index => Some (trim (take index args), trim (drop index args))
    | None => Some (args, [])
    end.

Definition is_digit (b : byte) : bool := (48 <=? b2z b) && (b2z b <=? 57).

(** [saturating_mul] and [saturating_add] on [u32] *)
Definition saturating_mul_u (umax a b : Z) : Z := Z.min umax (a * b).

Fixpoint parse_digits (value : Z) (text : str) : option Z :=
  match text with
  | [] => Some value
  | ch :: text =>
      if is_digit ch then
        parse_digits (saturating_add_u u32_max (saturating_mul_u u32_max value 10) (b2z ch - 48)) text
      else None
  end.

Definition parse_u32 (text : str) : option Z := parse_digits 0 text.

(** [str::parse::<u32>]: an optional plus sign, at least one digit, no overflow *)
Fixpoint std_digits (value : Z) (text : str) : option Z :=
  match text with
  | [] => Some value
  | ch :: text =>
      if is_digit ch then
        let v := value * 10 + (b2z ch - 48) in if v <=? u32_max then std_digits v text else None
      else None
  end.
Definition std_parse_u32 (text : str) : option Z :=
  let text := match text with b :: rest => if decide (b = z2b 43) then rest else text | [] => text end in
  match text with [] => None | _ => std_digits 0 text end.

(** [args.trim().parse()] with a value from [lo] to [hi] *)
Definition parse_count (lo hi : Z) (args : str) : option Z :=
  n ← std_parse_u32 (trim args); if (lo <=? n) && (n <=? hi) then Some n else None.

(** ** Numbers *)

Definition decimal_digit (d : Z) : byte := z2b (48 + d).
Definition hex_digit (nibble : Z) : byte := if nibble <? 10 then z2b (48 + nibble) else z2b (97 + (nibble - 10)).

(** The loop that fills the digit array, least significant digit first; [None]
    is an index outside the array. The fuel is the size of the array. *)
Fixpoint fill_decimals (size : nat) (value : Z) : option (list byte) :=
  if value =? 0 then Some []
  else
    match size with
    | O => None
    | S size => digits ← fill_decimals size (value / 10); Some (decimal_digit (value mod 10) :: digits)
    end.

(** What [print_u64] and [print_i64] print. *)
Definition u64_text (value : Z) : option str :=
  if value =? 0 then Some (bs "0") else digits ← fill_decimals 20 value; Some (rev digits).

Definition i64_text (value : Z) : option str :=
  if value <? 0 then text ← u64_text (- value mod 2 ^ 64); Some (z2b 45 :: text) else u64_text value.

(** [value & 0xF] and [value >>= 4] *)
Fixpoint fill_nibbles (size : nat) (value : Z) : option (list byte) :=
  if value =? 0 then Some []
  else
    match size with
    | O => None
    | S size => digits ← fill_nibbles size (Z.shiftr value 4); Some (hex_digit (Z.land value 0xF) :: digits)
    end.

(** What [print_hex] prints. *)
Definition hex_text (value : Z) : option str :=
  if value =? 0 then Some (bs "0x0") else digits ← fill_nibbles 16 value; Some (bs "0x" ++ rev digits).

(** What [pad_print] prints. *)
Definition padded (text : str) (width : nat) : str := text ++ replicate (width - length text) (z2b 32).

(** ** Names *)

Definition command_names : list str :=
  [bs "help"; bs "about"; bs "version"; bs "banner"; bs "sysinfo"; bs "monitor"; bs "uptime"; bs "reboot";
   bs "clear"; bs "cls"; bs "echo"; bs "meminfo"; bs "memtest"; bs "ls"; bs "mounts"; bs "pwd"; bs "cd";
   bs "touch"; bs "mkdir"; bs "cat"; bs "write"; bs "ps"; bs "taskinfo"; bs "kill"; bs "yield"; bs "net";
   bs "ping"; bs "run"; bs "notes"; bs "editor"; bs "runelf"; bs "runfs"; bs "installapp"; bs "vfstest";
   bs "storagetest"; bs "fsinterrupttest"; bs "fsexhausttest"; bs "aipreviewtest"; bs "desktopaitest";
   bs "isolate"; bs "spawnfail"; bs "reap"; bs "autoreap"; bs "killreap"; bs "desktop"; bs "desktoppeer";
   bs "desktopfaultpeer"; bs "desktopkilltest"; bs "desktopinteraction"; bs "desktopcycle"; bs "desktoptest";
   bs "mousetest"; bs "desktopstats"; bs "inputstats"; bs "ai"; bs "ask"].

Definition embedded_program_names : list str :=
  [bs "hello"; bs "bad_syscall"; bs "bad_pointer"; bs "bad_privileged"; bs "bad_kernel"; bs "bad_unmapped";
   bs "bad_ud2"; bs "bad_divzero"; bs "bad_mmap"; bs "bad_munmap"; bs "bad_display"; bs "bad_input";
   bs "mmap_ro_fault"; bs "mmap_nx_fault"; bs "post_unmap_fault"; bs "mmap_exhaustion";
   bs "mmap_partial_failure"; bs "desktop"; bs "desktop_peer"; bs "file_api_test"; bs "file_mutation_test";
   bs "tuwaiq_ai"; bs "tuwaiq_ai_fault"].

(** ** Numbers are printed exactly *)

Definition all_digits (t : str) : Prop := Forall (λ b, is_digit b = true) t.

(** The value of a decimal numeral. *)
Definition dec_from (v : Z) (t : str) : Z := foldl (λ v b, v * 10 + (b2z b - 48)) v t.
Definition dec_value : str → Z := dec_from 0.

Lemma decimal_digit_spec d : 0 <= d < 10 → b2z (decimal_digit d) = 48 + d ∧ is_digit (decimal_digit d) = true.
Proof.
  intros Hd. unfold decimal_digit, is_digit. rewrite b2z_z2b_small by lia. split; [done|].
  apply andb_true_iff. rewrite !Z.leb_le. lia.
Qed.

(** The parser computes the value, kept at the maximum when it is larger. *)
Lemma parse_digits_spec t v : all_digits t → 0 <= v → parse_digits (Z.min u32_max v) t = Some (Z.min u32_max (dec_from v t)).
Proof.
  intros Ht. revert v. induction Ht as [|b t Hb Ht IH]; intros v Hv; [done|]. cbn [parse_digits]. rewrite Hb.
  cbn [dec_from foldl]. fold (dec_from (v * 10 + (b2z b - 48)) t). unfold is_digit in Hb. bool_hyps. rewrite <- IH by lia. f_equal.
  unfold saturating_add_u, saturating_mul_u, u32_max. lia.
Qed.

Lemma fill_decimals_0 size : fill_decimals size 0 = Some [].
Proof. by destruct size. Qed.

Lemma fill_decimals_spec size v : 0 <= v < 10 ^ Z.of_nat size →
  ∃ ds, fill_decimals size v = Some ds ∧ all_digits ds ∧ dec_value (rev ds) = v ∧ (v ≠ 0 → last ds ≠ Some (z2b 48) ∧ ds ≠ []).
Proof.
  revert v. induction size as [|size IH]; intros v Hv.
  { assert (v = 0) as -> by lia. exists []. split_and!; try done. constructor. }
  cbn [fill_decimals]. destruct (Z.eqb_spec v 0) as [->|Hne].
  { exists []. split_and!; try done. constructor. }
  rewrite Nat2Z.inj_succ, Z.pow_succ_r in Hv by lia.
  assert (0 <= v mod 10 < 10) as Hm by (apply Z.mod_pos_bound; lia).
  destruct (IH (v / 10)) as (ds & Hds & Hall & Hval & Hlast); [Z.to_euclidean_division_equations; lia|].
  destruct (decimal_digit_spec (v mod 10) Hm) as [Hb Hd]. rewrite Hds. cbn [mbind option_bind].
  exists (decimal_digit (v mod 10) :: ds). split; [done|]. split; [by constructor|]. split.
  - simpl. unfold dec_value, dec_from in *. rewrite foldl_app. simpl. rewrite Hval, Hb. Z.to_euclidean_division_equations; lia.
  - intros _. split; [|done]. destruct (decide (v / 10 = 0)) as [Hz|Hnz].
    + rewrite Hz, fill_decimals_0 in Hds. injection Hds as <-. intros [= E]. apply (f_equal b2z) in E. rewrite Hb in E.
      change (b2z (z2b 48)) with 48 in E. Z.to_euclidean_division_equations; lia.
    + destruct (Hlast Hnz) as [Hl Hn]. destruct ds as [|d ds]; [done|]. exact Hl.
Qed.

Lemma last_rev {A} (l : list A) : last l = head (rev l).
Proof. destruct l as [|x l _] using rev_ind; [done|]. rewrite last_snoc. by rewrite rev_app_distr. Qed.

(** [print_u64] stays inside its array and prints the decimal numeral of its
    argument, without leading zeros. *)
Lemma u64_text_spec v : is_u64 v → ∃ t, u64_text v = Some t ∧ t ≠ [] ∧ all_digits t ∧ dec_value t = v
  ∧ (head t = Some (z2b 48) → t = bs "0").
Proof.
  intros Hv. unfold u64_text. destruct (Z.eqb_spec v 0) as [->|Hne].
  { exists (bs "0"). split_and!; try done. by repeat constructor. }
  destruct (fill_decimals_spec 20 v) as (ds & -> & Hall & Hval & Hlast).
  { unfold is_u64, u64_max in Hv. change (10 ^ Z.of_nat 20) with 100000000000000000000. lia. }
  cbn [mbind option_bind]. destruct (Hlast Hne) as [Hl Hn]. exists (rev ds). split; [done|]. split.
  - intros E. apply (f_equal (rev (A := byte))) in E. rewrite rev_involutive in E. done.
  - split; [by apply Forall_rev|]. split; [done|]. by rewrite <- last_rev.
Qed.

(** ** Nibbles *)

Definition nibble_value (b : byte) : Z := if b2z b <? 58 then b2z b - 48 else b2z b - 87.
Definition hex_value (t : str) : Z := foldl (λ v b, v * 16 + nibble_value b) 0 t.

Lemma hex_digit_value n : 0 <= n < 16 → nibble_value (hex_digit n) = n.
Proof.
  intros Hn. unfold nibble_value, hex_digit. destruct (Z.ltb_spec n 10); rewrite b2z_z2b_small by lia.
  - rewrite (proj2 (Z.ltb_lt _ 58)) by lia. lia.
  - rewrite (proj2 (Z.ltb_ge _ 58)) by lia. lia.
Qed.

Lemma fill_nibbles_spec size v : 0 <= v < 16 ^ Z.of_nat size → ∃ ds, fill_nibbles size v = Some ds ∧ hex_value (rev ds) = v.
Proof.
  revert v. induction size as [|size IH]; intros v Hv.
  { assert (v = 0) as -> by lia. by exists []. }
  cbn [fill_nibbles]. destruct (Z.eqb_spec v 0) as [->|Hne]; [by exists []|].
  rewrite Nat2Z.inj_succ, Z.pow_succ_r in Hv by lia. rewrite Z.shiftr_div_pow2 by lia. change (2 ^ 4) with 16.
  assert (Z.land v 0xF = v mod 16) as -> by (exact (Z.land_ones v 4 ltac:(lia))).
  assert (0 <= v mod 16 < 16) as Hm by (apply Z.mod_pos_bound; lia).
  destruct (IH (v / 16)) as (ds & -> & Hval); [Z.to_euclidean_division_equations; lia|]. cbn [mbind option_bind].
  eexists. split; [reflexivity|]. simpl. unfold hex_value in *. rewrite foldl_app. simpl.
  rewrite Hval, hex_digit_value by done. Z.to_euclidean_division_equations; lia.
Qed.

Lemma hex_text_spec v : is_u64 v → ∃ t, hex_text v = Some (bs "0x" ++ t) ∧ hex_value t = v.
Proof.
  intros Hv. unfold hex_text. destruct (Z.eqb_spec v 0) as [->|Hne]; [by exists (bs "0")|].
  destruct (fill_nibbles_spec 16 v) as (ds & -> & Hval); [|by exists (rev ds)].
  unfold is_u64, u64_max in Hv. change (16 ^ Z.of_nat 16) with (2 ^ 64). lia.
Qed.

(** C21: What the shell prints of a number is that number. For every 64-bit
    value [print_u64] fills at most its twenty digits and prints the decimal
    numeral, without leading zeros, that [parse_u32] reads back, up to the
    saturation of a 32-bit value; [print_i64] prints the negative ones with a
    sign, and [print_hex] fills at most its sixteen nibbles and prints the
    hexadecimal numeral. *)
Theorem numbers_print_and_parse v :
  is_u64 v →
  (∃ t, u64_text v = Some t ∧ dec_value t = v ∧ (head t = Some (z2b 48) → t = bs "0")
    ∧ parse_u32 t = Some (Z.min u32_max v)
    ∧ (0 < v <= 2 ^ 63 → i64_text (- v) = Some (z2b 45 :: t)))
  ∧ ∃ t, hex_text v = Some (bs "0x" ++ t) ∧ hex_value t = v.
Proof.
  intros Hv. split; [|by apply hex_text_spec]. destruct (u64_text_spec v Hv) as (t & Ht & Hne & Hall & Hval & Hlead).
  exists t. split_and!; try done.
  - unfold parse_u32. pose proof (parse_digits_spec t 0 Hall ltac:(lia)) as Hp. unfold dec_value in Hval. rewrite Hval in Hp. exact Hp.
  - intros Hv'. unfold i64_text. rewrite (proj2 (Z.ltb_lt (- v) 0)) by lia.
    replace (- - v mod 2 ^ 64) with v; [by rewrite Ht|]. rewrite Z.opp_involutive, Z.mod_small; lia.
Qed.

Lemma numbers_print_and_parse_witness :
  (∃ t, u64_text 18446744073709551615 = Some t ∧ dec_value t = 18446744073709551615 ∧ (head t = Some (z2b 48) → t = bs "0")
    ∧ parse_u32 t = Some (Z.min u32_max 18446744073709551615)
    ∧ (0 < 18446744073709551615 <= 2 ^ 63 → i64_text (- 18446744073709551615) = Some (z2b 45 :: t)))
  ∧ ∃ t, hex_text 18446744073709551615 = Some (bs "0x" ++ t) ∧ hex_value t = 18446744073709551615.
Proof. apply (numbers_print_and_parse 18446744073709551615). unfold is_u64, u64_max. lia. Defined.

(** ** The history as a list of lines *)

Record hist_ok (h : History) : Prop := mk_hist_ok {
  hist_size : length (entries h) = HISTORY_SIZE;
  hist_widths : Forall (λ e, length e = MAX_LINE) (entries h);
  hist_count_ok : (hist_count h ≤ HISTORY_SIZE)%nat;
  hist_browse_ok : (browse h ≤ hist_count h)%nat
}.

(** A line the editor can hand over: at most 128 bytes, no zero byte. *)
Definition line_ok (text : str) : Prop := (length text ≤ MAX_LINE)%nat ∧ Byte.x00 ∉ text.

Definition hist_lines (h : History) : list str := entry_text <$> take (hist_count h) (entries h).

Lemma history_new_ok : hist_ok history_new.
Proof. split; simpl; [done| |lia|lia]. repeat constructor. Qed.

Lemma entry_text_padded text n : Byte.x00 ∉ text → (length text + n = MAX_LINE)%nat →
  entry_text (text ++ replicate n Byte.x00) = text.
Proof.
  intros Hz Hn. unfold entry_text. destruct n as [|n].
  - rewrite app_nil_r. assert (position (λ b, bool_decide (b = Byte.x00)) text = None) as ->.
    { apply position_None. intros b Hb. apply bool_decide_false. by intros ->. }
    simpl. apply take_ge. lia.
  - destruct (position _ _) as [i|] eqn:E.
    + apply position_Some in E as (x & Hi & Hx%bool_decide_eq_true & Hlt). subst x. cbn [default].
      assert (i = length text) as ->; [|exact (take_app_length text _)].
      destruct (Nat.lt_total i (length text)) as [Hl|[|Hl]]; [|done|].
      * rewrite lookup_app_l in Hi by done. by apply list_elem_of_lookup_2 in Hi.
      * specialize (Hlt (length text) Byte.x00). rewrite lookup_app_r, Nat.sub_diag in Hlt by lia.
        discriminate (Hlt eq_refl Hl).
    + rewrite position_None in E. specialize (E Byte.x00). rewrite bool_decide_true in E by done.
      discriminate E. set_solver.
Qed.

Lemma shift_entries_spec es : length es = HISTORY_SIZE →
  shift_entries es = drop 1 es ++ [default [] (es !! (HISTORY_SIZE - 1)%nat)].
Proof.
  intros Hl. unfold HISTORY_SIZE in *. do 16 (destruct es as [|? es]; [done|]). destruct es; [|done]. reflexivity.
Qed.

Lemma push_entries line len h : hist_ok h → len ≠ 0%nat → (length (take len line) ≤ MAX_LINE)%nat → (len ≤ length line)%nat →
  let text := take len line in
  let entry := text ++ replicate (MAX_LINE - len) Byte.x00 in
  entries (push line len h) =
    (if decide (hist_count h < HISTORY_SIZE)%nat then <[hist_count h := entry]> (entries h)
     else drop 1 (take 15 (entries h)) ++ [entry; entry])
  ∧ hist_count (push line len h) = Nat.min HISTORY_SIZE (hist_count h + 1)
  ∧ browse (push line len h) = hist_count (push line len h).
Proof.
  intros [Hs Hw Hc Hb] Hlen Hfit Hle. cbn zeta. unfold push. rewrite decide_False by done.
  unfold HISTORY_SIZE in *. case_decide; cbn [entries hist_count browse].
  { split; [by rewrite Nat.min_l by lia|]. split; lia. }
  split; [|lia]. assert (hist_count h = 16%nat) as Hc' by lia. rewrite Hc'. change (16 `min` (16 - 1))%nat with 15%nat. change (16 - 1)%nat with 15%nat.
  set (entry := take len line ++ replicate (MAX_LINE - len) Byte.x00).
  assert (<[15%nat := entry]> (entries h) = take 15 (entries h) ++ [entry]) as ->.
  { rewrite <- (take_drop 15 (entries h)) at 1. rewrite insert_app_r_alt by (rewrite length_take; lia).
    rewrite length_take. replace (15 - 15 `min` length (entries h))%nat with 0%nat by lia.
    assert (length (drop 15 (entries h)) = 1%nat) as Hd by (rewrite length_drop; lia).
    by destruct (drop 15 (entries h)) as [|? [|]]. }
  assert (length (take 15 (entries h)) = 15%nat) as Ht by (rewrite length_take; lia).
  rewrite shift_entries_spec by (rewrite length_app, Ht; done). change (HISTORY_SIZE - 1)%nat with 15%nat.
  assert ((take 15 (entries h) ++ [entry]) !! 15%nat = Some entry) as E15 by (rewrite lookup_app_r by lia; by rewrite Ht).
  rewrite E15. cbn [default from_option]. rewrite drop_app_le by lia.
  rewrite <- app_assoc. cbn [app]. rewrite insert_app_r_alt by (rewrite length_drop; lia).
  rewrite lookup_app_r by (rewrite length_drop; lia). rewrite length_drop, Ht. cbn. f_equal. f_equal. f_equal.
  rewrite length_take in Hfit. unfold copy_at, entry. rewrite take_0, drop_app_length. done.
Qed.

Lemma push_ok line len h : hist_ok h → (len ≤ MAX_LINE)%nat → (len ≤ length line)%nat → hist_ok (push line len h).
Proof.
  intros Hok Hfit Hle. destruct (decide (len = 0%nat)) as [->|Hlen]; [unfold push; by rewrite decide_True|].
  destruct (push_entries line len h Hok Hlen) as (He & Hc & Hb); [rewrite length_take; lia|done|].
  destruct Hok as [Hs Hw Hcount Hbrowse].
  set (entry := take len line ++ replicate (MAX_LINE - len) Byte.x00) in *.
  assert (length entry = MAX_LINE) as Hel by (unfold entry; rewrite length_app, length_take, length_replicate; lia).
  unfold HISTORY_SIZE in *. split; [| |unfold HISTORY_SIZE; lia|lia].
  - rewrite He. case_decide; [by rewrite length_insert|]. rewrite length_app, length_drop, length_take. unfold HISTORY_SIZE. cbn [length]. lia.
  - rewrite He. case_decide; [by apply Forall_insert|].
    apply Forall_app_2; [by apply Forall_drop, Forall_take|]. by repeat constructor.
Qed.

(** [push] adds the line at the end. When all sixteen places are taken it also
    drops lines: the oldest, and, because it stores the new line in the last
    place before it moves the others, the newest of the old ones, whose place
    the new line then takes a second time. *)
Lemma push_lines line len h : hist_ok h → len ≠ 0%nat → line_ok (take len line) → (len ≤ length line)%nat →
  hist_ok (push line len h) ∧
  hist_lines (push line len h) =
    if decide (hist_count h < HISTORY_SIZE)%nat then hist_lines h ++ [take len line]
    else drop 1 (take 15 (hist_lines h)) ++ [take len line; take len line].
Proof.
  intros Hok Hlen [Hfit Hz] Hle. destruct (push_entries line len h Hok Hlen Hfit Hle) as (He & Hc & Hb).
  rewrite length_take in Hfit. split; [apply push_ok; [done|lia|done]|]. destruct Hok as [Hs Hw Hcount Hbrowse].
  set (entry := take len line ++ replicate (MAX_LINE - len) Byte.x00) in *.
  assert (entry_text entry = take len line) as Het by (apply entry_text_padded; [done|rewrite length_take; lia]).
  unfold HISTORY_SIZE in *.
  unfold hist_lines. rewrite He, Hc. case_decide.
  - rewrite Nat.min_r by lia. rewrite Nat.add_1_r. rewrite (take_S_r _ _ entry) by (apply list_lookup_insert_eq; lia).
      rewrite take_insert_ge by done. rewrite fmap_app. simpl. by rewrite Het.
  - assert (hist_count h = 16%nat) as -> by lia. rewrite take_ge.
      2:{ rewrite length_app, length_drop, length_take. cbn [length]. lia. }
      rewrite fmap_app. simpl. rewrite Het, fmap_drop, fmap_take. do 2 f_equal. rewrite fmap_take, take_take. done.
Qed.

(** [n] presses of the up arrow. *)
Fixpoint ups (n : nat) (h : History) : option str * History :=
  match n with
  | O => (None, h)
  | S n => recall_up (ups n h).2
  end.

Lemma lines_lookup h i : hist_ok h → (i < hist_count h)%nat → hist_lines h !! i = Some (entry_text (entry_at h i)).
Proof.
  intros [Hs Hw Hc Hb] Hi. unfold hist_lines, entry_at. rewrite list_lookup_fmap, lookup_take_lt by done.
  destruct (lookup_lt_is_Some_2 (entries h) i) as [e ->]; [lia|]. done.
Qed.

Lemma recall_up_spec h : hist_ok h → (0 < hist_count h)%nat →
  let b := (browse h - 1)%nat in
  ∃ text, recall_up h = (Some text, mk_history (entries h) (hist_count h) b) ∧ hist_lines h !! b = Some text.
Proof.
  intros Hok Hc. pose proof (hist_browse_ok _ Hok) as Hb. cbn zeta. unfold recall_up. rewrite decide_False by lia.
  eexists. assert ((if decide (browse h = 0%nat) then 0%nat
    else if decide (hist_count h < browse h)%nat then (hist_count h - 1)%nat else (browse h - 1)%nat) = (browse h - 1)%nat) as ->.
  { case_decide; [lia|]. by rewrite decide_False by lia. }
  split; [reflexivity|]. rewrite lines_lookup; [done|done|lia].
Qed.

Lemma recall_down_spec h : hist_ok h → (0 < hist_count h)%nat →
  recall_down h = (Some (default [] (hist_lines h !! (browse h + 1)%nat)), mk_history (entries h) (hist_count h) (Nat.min (hist_count h) (browse h + 1))).
Proof.
  intros Hok Hc. pose proof (hist_browse_ok _ Hok) as Hb. unfold recall_down. rewrite decide_False by lia. case_decide.
  - rewrite Nat.min_l by lia. rewrite lookup_ge_None_2; [done|]. unfold hist_lines. rewrite length_fmap, length_take. lia.
  - rewrite Nat.min_r by lia. by rewrite lines_lookup by (done || lia).
Qed.

Lemma recall_keeps h r h' : hist_ok h → recall_up h = (r, h') ∨ recall_down h = (r, h') →
  hist_ok h' ∧ hist_lines h' = hist_lines h ∧ (∀ text, r = Some text → text = [] ∨ text ∈ hist_lines h).
Proof.
  intros Hok Hr. pose proof Hok as [Hs Hw Hc Hb]. destruct (decide (hist_count h = 0%nat)) as [Hz|Hnz].
  { unfold recall_up, recall_down in Hr. rewrite !decide_True in Hr by done. by destruct Hr as [[= <- <-]|[= <- <-]]. }
  destruct Hr as [Hr|Hr].
  - destruct (recall_up_spec h Hok) as (text & E & Hl); [lia|]. rewrite E in Hr. injection Hr as <- <-.
    split; [split; simpl; try done; lia|]. split; [done|]. intros ? [= <-]. right. by eapply list_elem_of_lookup_2.
  - rewrite recall_down_spec in Hr by (done || lia). injection Hr as <- <-. split; [split; simpl; try done; lia|]. split; [done|].
    intros ? [= <-]. destruct (hist_lines h !! _) eqn:E; [right; by eapply list_elem_of_lookup_2|by left].
Qed.

(** The up arrow walks back through the lines that were entered. Starting
    from any history, entering a non-empty line makes it the last of the list
    (after the earlier ones, as long as the sixteen places are not all taken),
    and pressing the up arrow [n] times then shows the [n]-th line from the end,
    the oldest one when there are fewer; the down arrow then leads forward
    again. *)
Theorem history_recalls_backwards line len h n :
  hist_ok h → len ≠ 0%nat → (len ≤ length line)%nat → line_ok (take len line) → (0 < n)%nat →
  let h' := push line len h in
  let ls := hist_lines h' in
  hist_ok h' ∧ last ls = Some (take len line)
  ∧ ((hist_count h < HISTORY_SIZE)%nat → ls = hist_lines h ++ [take len line])
  ∧ ∃ text h2, ups n h' = (Some text, h2) ∧ ls !! (length ls - n)%nat = Some text
    ∧ (recall_down h2).1 = Some (default [] (ls !! (length ls - n + 1)%nat)).
Proof.
  intros Hok Hlen Hle Hline Hn. cbn zeta. destruct (push_lines line len h Hok Hlen Hline Hle) as [Hok' Hlines].
  destruct (push_entries line len h Hok Hlen (proj1 Hline) Hle) as (_ & Hc & Hb). set (h' := push line len h) in *.
  assert (length (hist_lines h') = hist_count h') as Hll.
  { unfold hist_lines. rewrite length_fmap, length_take. rewrite (hist_size _ Hok'). pose proof (hist_count_ok _ Hok'). lia. }
  split; [done|]. split.
  { rewrite Hlines. case_decide; [apply last_snoc|]. by rewrite last_app. }
  split; [intros; rewrite Hlines; by rewrite decide_True|]. rewrite Hll.
  assert (∀ m, (0 < m)%nat → ∃ text, ups m h' = (Some text, mk_history (entries h') (hist_count h') (hist_count h' - m))
    ∧ hist_lines h' !! (hist_count h' - m)%nat = Some text) as Hups.
  { intros m Hm. induction m as [|[|m] IH]; [lia| |].
    - destruct (recall_up_spec h' Hok') as (text & E & Hl); [unfold HISTORY_SIZE in *; lia|]. rewrite Hb in E, Hl. eauto.
    - destruct IH as (text & E & Hl); [lia|].
      change (ups (S (S m)) h') with (recall_up (ups (S m) h').2). rewrite E. cbn [snd].
      set (hm := mk_history (entries h') (hist_count h') (hist_count h' - S m)).
      assert (hist_ok hm) as Hokm by (destruct Hok'; split; simpl; try done; lia).
      destruct (recall_up_spec hm Hokm) as (text' & E' & Hl'); [unfold HISTORY_SIZE in *; simpl; lia|].
      exists text'. simpl in E', Hl'. replace (hist_count h' - S (S m))%nat with (hist_count h' - S m - 1)%nat by lia.
      split; [exact E'|exact Hl']. }
  destruct (Hups n Hn) as (text & E & Hl). exists text, (mk_history (entries h') (hist_count h') (hist_count h' - n)).
  split; [done|]. split; [done|]. rewrite recall_down_spec; [done| |unfold HISTORY_SIZE in *; simpl; lia].
  destruct Hok'; split; simpl; try done; lia.
Qed.

Definition two_lines : History := push (bs "pwd") 3 (push (bs "ls") 2 history_new).

Lemma history_recalls_backwards_witness :
  let h' := push (bs "cat a") 5 two_lines in
  let ls := hist_lines h' in
  hist_ok h' ∧ last ls = Some (take 5 (bs "cat a"))
  ∧ ((hist_count two_lines < HISTORY_SIZE)%nat → ls = hist_lines two_lines ++ [take 5 (bs "cat a")])
  ∧ ∃ text h2, ups 2 h' = (Some text, h2) ∧ ls !! (length ls - 2)%nat = Some text
    ∧ (recall_down h2).1 = Some (default [] (ls !! (length ls - 2 + 1)%nat)).
Proof.
  apply (history_recalls_backwards (bs "cat a") 5 two_lines 2); [|done|simpl; lia| |lia].
  - split; [done| |vm_compute; lia|vm_compute; lia]. vm_compute. repeat constructor.
  - split; [vm_compute; lia|]. intros H%list_elem_of_In. simpl in H. intuition discriminate.
Defined.

(** The seventeenth line: the sixteenth is gone and the new one is there twice. *)
Fixpoint pushes (n : nat) (h : History) : History :=
  match n with O => h | S n => let h := pushes n h in push [z2b (65 + Z.of_nat n)] 1 h end.

Example full_history_loses_a_line :
  hist_lines (pushes 16 history_new) = (λ c, [c]) <$> bs "ABCDEFGHIJKLMNOP"
  ∧ hist_lines (pushes 17 history_new) = (λ c, [c]) <$> bs "BCDEFGHIJKLMNOQQ".
Proof. split; vm_compute; reflexivity. Qed.
