(* ===== verification/ShellEdit.v ===== *)
(** The line editor of kernel/shell.rs: the inner loop of [run], which turns
    key events into a command line, with history recall and completion.

    The editor draws on a text console through the interface of Terminal.v and
    asks the VFS for the working directory in the prompt and for the names a
    word can be completed to. A key is one step; [Enter] yields the command.
    What is printed also goes to the serial port, which is not modelled. [None]
    is a panic. *)

From S2P Require Import Prelude Str Device Tree TuwaiqTree TuwaiqFs Fs FsPersist Fat32 Vfs VfsData Wake Input Terminal VgaText Programs ShellText.

Section editor.
Context {C D : Type} `{!TextConsole C} `{BlockDevice D}.

Record Editor := mk_editor {
  con : C;
  evfs : vfs_state D;
  line : list byte;
  len : nat;
  history : History
}.
Implicit Types e : Editor.

Definition with_con (c : C) e : Editor := mk_editor c (evfs e) (line e) (len e) (history e).
Definition with_evfs v e : Editor := mk_editor (con e) v (line e) (len e) (history e).
Definition with_line l n e : Editor := mk_editor (con e) (evfs e) l n (history e).
Definition with_history h e : Editor := mk_editor (con e) (evfs e) (line e) (len e) h.

(** ** Printing *)

Definition e_print (text : str) e : option Editor := c ← con_print text (con e); Some (with_con c e).
Definition e_println (text : str) e : option Editor := c ← con_println text (con e); Some (with_con c e).

(** [print(mode, from_utf8(&[ch]).unwrap_or("?"))] *)
Definition char_text (ch : byte) : str := if b2z ch <? 128 then [ch] else bs "?".
Definition print_char (ch : byte) : Editor → option Editor := e_print (char_text ch).
Definition backspace e : option Editor := c ← con_backspace (con e); Some (with_con c e).

Fixpoint print_chars (text : str) e : option Editor :=
  match text with
  | [] => Some e
  | ch :: text => e ← print_char ch e; print_chars text e
  end.

Fixpoint backspaces (n : nat) e : option Editor :=
  match n with
  | O => Some e
  | S n => e ← backspace e; backspaces n e
  end.

Definition prompt_text (v : vfs_state D) : str :=
  bs "tuwaiq@os:"
  ++ match (shell_pwd v).1 with
     | Ok path => if bool_decide (path = [slash]) then bs "~" else path
     | Err _ => bs "~"
     end
  ++ bs "$" ++ bs " ".

Definition print_dynamic_prompt e : option Editor := e_print (prompt_text (evfs e)) e.

(** ** Replacing the line *)

(** [line[..new_len].copy_from_slice(..)] *)
Definition replace_input (new_text : str) e : option Editor :=
  e ← backspaces (len e) e;
  let new_len := Nat.min (length new_text) MAX_LINE in
  print_chars (take new_len new_text) (with_line (copy_at 0 (take new_len new_text) (line e)) new_len e).

Definition text_or_empty (bytes : list byte) : str := if utf8_valid bytes then bytes else [].

(** ** Completion *)

Definition apply_completion (prefix completion : str) : Editor → option Editor :=
  let base := match rfind space prefix with Some index => take (index + 1) prefix | None => [] end in
  let new_line := base ++ completion in
  let new_line := if existsb (λ c, bool_decide (c = completion)) command_names || bool_decide (base = [])
                  then new_line ++ [space] else new_line in
  replace_input new_line.

Definition completing (token : str) (names : list str) : list str := filter (λ name, starts_with token name = true) names.

(** The names the word under the cursor can be completed to. *)
Definition tab_matches (prefix : str) (v : vfs_state D) : list str * vfs_state D :=
  let '(token, is_command) :=
    match rfind space prefix with
    | Some index => (drop (index + 1) prefix, false)
    | None => (prefix, true)
    end in
  let matches :=
    if is_command : bool then completing token command_names ++ completing token program_names
    else if starts_with (bs "runelf ") prefix then completing token embedded_program_names
    else [] in
  let '(r, v) := completion_candidates token v in
  (matches ++ match r with Ok files => completing token files | Err _ => [] end, v).

Fixpoint println_all (texts : list str) e : option Editor :=
  match texts with
  | [] => Some e
  | t :: texts => e ← e_println t e; println_all texts e
  end.

Definition tab_complete e : option Editor :=
  let current := text_or_empty (take (len e) (line e)) in
  let prefix := trim_end current in
  if bool_decide (prefix = []) then Some e
  else
    let '(matches, v) := tab_matches prefix (evfs e) in
    let e := with_evfs v e in
    match matches with
    | [] => Some e
    | [completion] => apply_completion prefix completion e
    | _ =>
        e ← e_println [] e;
        e ← println_all matches e;
        e ← print_dynamic_prompt e;
        print_chars (take (len e) (line e)) e
    end.

(** ** Keys *)

(** One turn of the inner loop; [Enter] ends it with the command to execute. *)
Definition key (event : KeyEvent) e : option (Editor * option str) :=
  match event with
  | NoKey | Escape => Some (e, None)
  | Char c =>
      if (len e <? MAX_LINE)%nat then
        let ch := z2b c in
        e ← print_char ch (with_line (<[len e := ch]> (line e)) (len e + 1) e);
        Some (e, None)
      else Some (e, None)
  | Backspace =>
      if (0 <? len e)%nat then
        e ← backspace (with_line (line e) (len e - 1) e);
        Some (e, None)
      else Some (e, None)
  | ArrowUp =>
      match recall_up (history e) with
      | (Some entry, h) => e ← replace_input entry (with_history h e); Some (e, None)
      | (None, h) => Some (with_history h e, None)
      end
  | ArrowDown =>
      match recall_down (history e) with
      | (Some entry, h) => e ← replace_input entry (with_history h e); Some (e, None)
      | (None, h) => Some (with_history h e, None)
      end
  | Tab => e ← tab_complete e; Some (e, None)
  | Enter =>
      e ← e_println [] e;
      let command := text_or_empty (take (len e) (line e)) in
      Some (with_history (push (line e) (len e) (history e)) e, Some (trim command))
  end.

(** After the command: clear what was used of the line, and start the next one. *)
Definition next_line e : option Editor :=
  let e := with_line (copy_at 0 (replicate (len e) Byte.x00) (line e)) (len e) e in
  e ← e_println [] e;
  e ← print_dynamic_prompt e;
  Some (with_history (reset_browse (history e)) (with_line (line e) 0 e)).

(** The editor when [run] starts. *)
Definition first_line (c : C) (v : vfs_state D) : option Editor :=
  print_dynamic_prompt (mk_editor c v (replicate MAX_LINE Byte.x00) 0 history_new).

Fixpoint keys (events : list KeyEvent) e : option Editor :=
  match events with
  | [] => Some e
  | event :: events => r ← key event e; keys events r.1
  end.
End editor.

Arguments Editor : clear implicits.

(** ** The line as the user means it *)

(** The text of the line and the history after a key that stays on the line:
    the specification of the editor. *)
Definition edit (event : KeyEvent) (st : str * History) : str * History :=
  let '(text, h) := st in
  match event with
  | Char c => (if (length text <? MAX_LINE)%nat then text ++ [z2b c] else text, h)
  | Backspace => (take (length text - 1) text, h)
  | ArrowUp => (default text (recall_up h).1, (recall_up h).2)
  | ArrowDown => (default text (recall_down h).1, (recall_down h).2)
  | _ => (text, h)
  end.

(** Keys that edit the line; a character is one that shows as itself. *)
Definition edit_key (event : KeyEvent) : Prop :=
  match event with
  | Char c => 0 <= c < 256 ∧ printable (z2b c) = true
  | Enter | Tab => False
  | _ => True
  end.

(** The states of the line while the keys of [ks] are typed. *)
Fixpoint edits (ks : list KeyEvent) (st : str * History) : list (str * History) :=
  match ks with
  | [] => [st]
  | k :: ks => st :: edits ks (edit k st)
  end.

Definition edited (ks : list KeyEvent) (st : str * History) : str * History := foldl (flip edit) st ks.

Definition printables (text : str) : Prop := Forall (λ b, printable b = true) text.
Definition printable_history (h : History) : Prop := hist_ok h ∧ Forall printables (hist_lines h).

Lemma printable_char b : printable b = true → char_text b = [b] ∧ b ≠ newline_byte ∧ b ≠ Byte.x00.
Proof.
  intros Hb. unfold char_text. pose proof Hb as Hb'. unfold printable in Hb'. bool_hyps.
  rewrite (proj2 (Z.ltb_lt _ 128)) by lia. split; [done|]. split; intros ->; by vm_compute in Hb.
Qed.

Lemma printables_no_newline text : printables text → newline_byte ∉ text.
Proof. intros Ht Hin. apply (Forall_forall _ _) with (2 := Hin) in Ht. by vm_compute in Ht. Qed.

Lemma printables_shown g text : printables text → shown g <$> text = text.
Proof. induction 1 as [|b text Hb _ IH]; [done|]. cbn. rewrite IH. f_equal. unfold shown. by rewrite Hb. Qed.

Lemma printables_line_ok text : printables text → (length text ≤ MAX_LINE)%nat → line_ok text.
Proof.
  intros Ht Hl. split; [done|]. intros Hin. apply (Forall_forall _ _) with (2 := Hin) in Ht. by vm_compute in Ht.
Qed.

(** Recalling finds printable lines that fit, and changes only the position. *)
Lemma recall_printable (up : bool) h r h' :
  printable_history h → (if up then recall_up h else recall_down h) = (r, h') →
  printable_history h' ∧ ∀ text, r = Some text → printables text ∧ (length text ≤ MAX_LINE)%nat.
Proof.
  intros [Hok Hp] Hr. assert (recall_up h = (r, h') ∨ recall_down h = (r, h')) as Hr' by (destruct up; auto).
  destruct (recall_keeps h r h' Hok Hr') as (Hok' & Hl & Ht). split; [split; [done|by rewrite Hl]|].
  intros text Htext. destruct (Ht text Htext) as [->|Hin]; [split; [constructor|simpl; lia]|].
  split; [by apply (Forall_forall _ _) with (2 := Hin) in Hp|].
  apply list_elem_of_fmap in Hin as (entry & -> & Hin). apply elem_of_take in Hin as (i & Hi & _).
  pose proof (Forall_lookup_1 _ _ _ _ (hist_widths _ Hok) Hi) as Hw. cbn in Hw. unfold entry_text. rewrite length_take. lia.
Qed.

(** ** The editor and the screen *)

Section facts.
Context {C D : Type} `{!TextConsole C} `{BlockDevice D}.
Implicit Types (e : Editor C D) (t : Term).

Local Abbreviation geo e := (con_geometry (con e)).

(** The row of the cursor shows the prompt and the line, nothing is below it,
    and the buffer holds the line. *)
Record editor_ok e t (text : str) : Prop := mk_editor_ok {
  ed_view : con_view (con e) t;
  ed_below : below_blank (geo e) t;
  ed_row : line_shows (geo e) ((shown (geo e) <$> prompt_text (evfs e)) ++ text) t;
  ed_buffer : length (line e) = MAX_LINE;
  ed_len : (len e ≤ MAX_LINE)%nat;
  ed_text : take (len e) (line e) = text;
  ed_printable : printables text;
  ed_history : printable_history (history e)
}.

(** The line fits behind the prompt. *)
Definition fits_row e (text : str) : Prop := (length (prompt_text (evfs e)) + length text ≤ cols (geo e))%nat.

(** [e'] is [e] except for the console, on the same screen. *)
Definition same_but_screen e e' : Prop :=
  evfs e' = evfs e ∧ line e' = line e ∧ len e' = len e ∧ history e' = history e ∧ geo e' = geo e.

Lemma e_print_spec text e t : con_view (con e) t →
  ∃ e', e_print text e = Some e' ∧ same_but_screen e e' ∧ con_view (con e') (term_print (geo e) text t).
Proof.
  intros Hv. unfold e_print. destruct (con_print_spec text (con e) t Hv) as (c & -> & Hg & Hv'). cbn [mbind option_bind].
  exists (with_con c e). by split_and!.
Qed.

Lemma e_println_spec text e t : con_view (con e) t →
  ∃ e', e_println text e = Some e' ∧ same_but_screen e e' ∧ con_view (con e') (term_println (geo e) text t).
Proof.
  intros Hv. unfold e_println. destruct (con_println_spec text (con e) t Hv) as (c & -> & Hg & Hv'). cbn [mbind option_bind].
  exists (with_con c e). by split_and!.
Qed.

Lemma e_backspace_spec e t : con_view (con e) t →
  ∃ e', backspace e = Some e' ∧ same_but_screen e e' ∧ con_view (con e') (term_backspace t).
Proof.
  intros Hv. unfold backspace. destruct (con_backspace_spec (con e) t Hv) as (c & -> & Hg & Hv'). cbn [mbind option_bind].
  exists (with_con c e). by split_and!.
Qed.

(** Printing printable characters one by one is printing them at once. *)
Lemma print_chars_spec text e t : printables text → con_view (con e) t →
  ∃ e', print_chars text e = Some e' ∧ same_but_screen e e' ∧ con_view (con e') (term_print (geo e) text t).
Proof.
  intros Ht. revert e t. induction Ht as [|b text Hb _ IH]; intros e t Hv; cbn [print_chars]; [exists e; by split_and!|].
  destruct (printable_char b Hb) as (Hc & _). unfold print_char. rewrite Hc.
  destruct (e_print_spec [b] e t Hv) as (e1 & -> & (Hs1 & Hs2 & Hs3 & Hs4 & Hs5) & Hv1). cbn [mbind option_bind].
  destruct (IH e1 _ Hv1) as (e2 & -> & (Hr1 & Hr2 & Hr3 & Hr4 & Hr5) & Hv2). exists e2. split; [done|].
  split; [split_and!; congruence|]. by rewrite Hs5 in Hv2.
Qed.

(** Backspacing over a line that fits removes it from the screen. *)
Lemma backspaces_spec n e t front text :
  con_view (con e) t → below_blank (geo e) t → line_shows (geo e) (front ++ text) t → n = length text →
  (length front + length text ≤ cols (geo e))%nat →
  ∃ e' t', backspaces n e = Some e' ∧ same_but_screen e e' ∧ con_view (con e') t' ∧ below_blank (geo e) t'
    ∧ line_shows (geo e) front t'.
Proof.
  intros Hv Hb Hl ->. revert e t Hv Hb Hl. induction text as [|b text IH] using rev_ind; intros e t Hv Hb Hl Hfit.
  { rewrite app_nil_r in Hl. exists e, t. by split_and!. }
  rewrite length_app, Nat.add_1_r in *. cbn [backspaces].
  destruct (e_backspace_spec e t Hv) as (e1 & -> & (Hs1 & Hs2 & Hs3 & Hs4 & Hs5) & Hv1). cbn [mbind option_bind].
  rewrite app_assoc in Hl. destruct (backspace_removes (geo e) (front ++ text) b t Hl) as (Hl1 & _ & _);
    [rewrite length_app; cbn [length] in *; lia|].
  destruct (IH e1 (term_backspace t)) as (e2 & t2 & -> & (Hr1 & Hr2 & Hr3 & Hr4 & Hr5) & Hv2 & Hb2 & Hl2).
  - done.
  - rewrite Hs5. by apply backspace_below.
  - by rewrite Hs5.
  - rewrite Hs5. cbn [length] in *. lia.
  - exists e2, t2. rewrite Hs5 in *. split; [done|]. split; [split_and!; congruence|done].
Qed.

Lemma geo_live e t : con_view (con e) t → geometry_ok (geo e) ∧ term_ok (geo e) t.
Proof. intros Hv. destruct (con_view_ok _ _ Hv) as [Hl Ht]. split; [by apply con_geometry_ok|done]. Qed.

(** Showing a new line in the place of the old one. *)
Lemma replace_input_spec new e t text :
  editor_ok e t text → printables new → (length new ≤ MAX_LINE)%nat → fits_row e text → fits_row e new →
  ∃ e' t', replace_input new e = Some e' ∧ editor_ok e' t' new ∧ evfs e' = evfs e ∧ geo e' = geo e ∧ history e' = history e.
Proof.
  intros [Hv Hb Hr Hbuf Hlen Ht Hp Hh] Hnew Hfit Hf1 Hf2. unfold fits_row in *. unfold replace_input.
  assert (len e = length text) as Hl by (rewrite <- Ht, length_take; lia).
  destruct (backspaces_spec (len e) e t (shown (geo e) <$> prompt_text (evfs e)) text) as
    (e1 & t1 & -> & (Hs1 & Hs2 & Hs3 & Hs4 & Hs5) & Hv1 & Hb1 & Hr1); [done..|by rewrite length_fmap|]. cbn [mbind option_bind].
  rewrite Nat.min_l by done. rewrite (take_ge new) by done.
  set (e1' := with_line (copy_at 0 new (line e1)) (length new) e1).
  destruct (print_chars_spec new e1' t1 Hnew Hv1) as (e2 & -> & (Hq1 & Hq2 & Hq3 & Hq4 & Hq5) & Hv2).
  change (geo e1') with (geo e1) in *. rewrite Hs5 in Hq5, Hv2. exists e2, (term_print (geo e) new t1). split; [done|].
  destruct (geo_live e1 t1 Hv1) as [Hg Hto]. rewrite Hs5 in Hg, Hto.
  split; [|simpl in *; split_and!; congruence].
  assert (evfs e2 = evfs e) as Hevfs by (simpl in *; congruence).
  split.
  - done.
  - rewrite Hq5. by apply print_below.
  - rewrite Hq5, Hevfs. destruct (print_appends (geo e) new _ t1 (printables_no_newline _ Hnew) Hr1) as (Hl' & _ & _);
      [by rewrite length_fmap|]. by rewrite (printables_shown _ new) in Hl'.
  - rewrite Hq2. simpl. rewrite length_copy_at; [congruence|]. rewrite Hs2. simpl. lia.
  - rewrite Hq3. done.
  - rewrite Hq2, Hq3. simpl. unfold copy_at. rewrite take_0. cbn [app]. apply take_app_length.
  - done.
  - rewrite Hq4. simpl. by rewrite Hs4.
Qed.

(** One editing key: the line becomes what the specification says, and the
    screen shows it. *)
Lemma key_spec k e t text : editor_ok e t text → edit_key k → fits_row e text → fits_row e (edit k (text, history e)).1 →
  ∃ e' t', key k e = Some (e', None) ∧ editor_ok e' t' (edit k (text, history e)).1
    ∧ history e' = (edit k (text, history e)).2 ∧ evfs e' = evfs e ∧ geo e' = geo e.
Proof.
  intros He Hk Hf1 Hf2. pose proof He as [Hv Hb Hr Hbuf Hlen Ht Hp Hh].
  assert (length text = len e) as Hl by (rewrite <- Ht, length_take; lia).
  destruct k as [c| | | | | | |]; try done; cbn [edit fst snd key] in *; try (by exists e, t).
  - destruct Hk as [_ Hk]. rewrite Hl in *. destruct (Nat.ltb_spec (len e) MAX_LINE) as [Hlt|]; [|by exists e, t].
    destruct (printable_char _ Hk) as (Hc & Hn & _). unfold print_char. rewrite Hc. set (ch := z2b c) in *.
    set (e0 := with_line (<[len e := ch]> (line e)) (len e + 1) e).
    destruct (e_print_spec [ch] e0 t Hv) as (e' & -> & (Hs1 & Hs2 & Hs3 & Hs4 & Hs5) & Hv').
    change (geo e0) with (geo e) in *. exists e', (term_print (geo e) [ch] t). split; [done|].
    destruct (geo_live e t Hv) as [Hg Hto]. unfold fits_row in Hf2. rewrite length_app in Hf2. cbn [length] in Hf2.
    split; [|simpl in *; by split_and!]. split.
    + done.
    + rewrite Hs5. by apply print_below.
    + rewrite Hs5, Hs1. destruct (print_appends (geo e) [ch] _ t ltac:(set_solver) Hr) as (Hl' & _ & _);
        [rewrite length_app, length_fmap; cbn [length]; lia|].
      rewrite <- app_assoc, (printables_shown _ [ch]) in Hl' by (by repeat constructor). exact Hl'.
    + rewrite Hs2. simpl. by rewrite length_insert.
    + rewrite Hs3. simpl. lia.
    + rewrite Hs2, Hs3. simpl. rewrite Nat.add_1_r. rewrite (take_S_r _ _ ch) by (apply list_lookup_insert_eq; lia).
      rewrite take_insert_ge by done. by rewrite Ht.
    + apply Forall_app_2; [done|]. by repeat constructor.
    + by rewrite Hs4.
  - rewrite Hl in *. destruct (Nat.ltb_spec 0 (len e)) as [Hpos|Hz].
    + set (e0 := with_line (line e) (len e - 1) e).
      destruct (e_backspace_spec e0 t Hv) as (e' & -> & (Hs1 & Hs2 & Hs3 & Hs4 & Hs5) & Hv').
      change (geo e0) with (geo e) in *. exists e', (term_backspace t). split; [done|].
      destruct text as [|b front _] using rev_ind; [simpl in Hl; lia|]. rewrite length_app in Hl. cbn [length] in Hl.
      replace (len e - 1)%nat with (length front) in * by lia.
      assert (take (length front) (front ++ [b]) = front) as Htf by apply take_app_length. rewrite Htf in *.
      split; [|simpl in *; by split_and!]. unfold fits_row in Hf1. rewrite length_app in Hf1. cbn [length] in Hf1. split.
      * done.
      * rewrite Hs5. by apply backspace_below.
      * rewrite Hs5, Hs1. rewrite app_assoc in Hr. destruct (backspace_removes _ _ _ _ Hr) as (Hr' & _); [|exact Hr'].
        rewrite length_app, length_fmap. lia.
      * by rewrite Hs2.
      * rewrite Hs3. simpl. lia.
      * rewrite Hs2, Hs3. simpl. pose proof (f_equal (take (length front)) Ht) as E.
        rewrite take_take, Htf, Nat.min_l in E by lia.
        by replace (len e - 1)%nat with (length front) by lia.
      * by apply Forall_app in Hp as [? _].
      * by rewrite Hs4.
    + exists e, t. split; [done|]. assert (text = []) as -> by (destruct text; [done|simpl in Hl; lia]). by rewrite take_nil.
  - destruct (recall_up (history e)) as [r h] eqn:Hrec. destruct (recall_printable true _ _ _ Hh Hrec) as [Hh' Hlines].
    set (e0 := with_history h e). assert (editor_ok e0 t text) as He0 by (by split).
    destruct r as [new|]; cbn [default fst snd] in *; [|by exists e0, t]. destruct (Hlines new eq_refl) as [Hnp Hnl].
    destruct (replace_input_spec new e0 t text He0) as (e' & t' & -> & Hok & Hq1 & Hq2 & Hq3); [done..|].
    exists e', t'. by split_and!.
  - destruct (recall_down (history e)) as [r h] eqn:Hrec. destruct (recall_printable false _ _ _ Hh Hrec) as [Hh' Hlines].
    set (e0 := with_history h e). assert (editor_ok e0 t text) as He0 by (by split).
    destruct r as [new|]; cbn [default fst snd] in *; [|by exists e0, t]. destruct (Hlines new eq_refl) as [Hnp Hnl].
    destruct (replace_input_spec new e0 t text He0) as (e' & t' & -> & Hok & Hq1 & Hq2 & Hq3); [done..|].
    exists e', t'. by split_and!.
Qed.

(** A sequence of editing keys. *)
Lemma keys_spec ks e t text : editor_ok e t text → Forall edit_key ks →
  Forall (λ st, fits_row e st.1) (edits ks (text, history e)) →
  ∃ e' t', keys ks e = Some e' ∧ editor_ok e' t' (edited ks (text, history e)).1
    ∧ history e' = (edited ks (text, history e)).2 ∧ evfs e' = evfs e ∧ geo e' = geo e.
Proof.
  intros He Hks. revert e t text He. induction Hks as [|k ks Hk _ IH]; intros e t text He Hfits; cbn [keys edited foldl edits] in *.
  { exists e, t. by split_and!. }
  apply Forall_cons in Hfits as [Hf Hrest].
  assert (fits_row e (edit k (text, history e)).1) as Hf' by (by destruct ks; apply Forall_cons in Hrest as [? _]).
  destruct (key_spec k e t text He Hk Hf Hf') as (e1 & t1 & -> & He1 & Hh1 & Hv1 & Hg1). cbn [mbind option_bind fst].
  change (flip edit (text, history e) k) with (edit k (text, history e)).
  destruct (edit k (text, history e)) as [text1 h1] eqn:Ek. cbn [fst snd] in *. subst h1.
  destruct (IH e1 t1 text1 He1) as (e2 & t2 & -> & He2 & Hh2 & Hv2 & Hg2).
  { eapply Forall_impl; [exact Hrest|]. intros st. unfold fits_row. by rewrite Hv1, Hg1. }
  exists e2, t2. split; [done|]. split; [done|]. split; [done|]. split; congruence.
Qed.

(** [Enter] hands over the line that is shown, and remembers it. *)
Lemma enter_spec e t text : editor_ok e t text →
  ∃ e' t', key Enter e = Some (e', Some (trim text)) ∧ con_view (con e') t' ∧ below_blank (geo e') t'
    ∧ line_shows (geo e') [] t' ∧ evfs e' = evfs e ∧ geo e' = geo e ∧ printable_history (history e')
    ∧ history e' = push (line e) (len e) (history e) ∧ length (line e') = MAX_LINE ∧ len e' = len e.
Proof.
  intros [Hv Hb Hr Hbuf Hlen Ht Hp Hh]. cbn [key].
  destruct (e_println_spec [] e t Hv) as (e' & -> & (Hs1 & Hs2 & Hs3 & Hs4 & Hs5) & Hv'). cbn [mbind option_bind].
  destruct (geo_live e t Hv) as [Hg Hto]. destruct (newline_below (geo e) Hg t Hto Hb) as [Hb' Hl'].
  rewrite Hs2, Hs3, Hs4, Ht. assert (text_or_empty text = text) as ->.
  { unfold text_or_empty. rewrite utf8_ascii; [done|]. eapply Forall_impl; [exact Hp|]. intros b Hpb. cbn in Hpb.
    unfold printable in Hpb. bool_hyps. lia. }
  eexists _, (term_println (geo e) [] t). split; [reflexivity|]. simpl. rewrite Hs5. split_and!; try done; [|congruence].
  destruct (decide (len e = 0%nat)) as [Hz|Hnz]; [unfold push; by rewrite decide_True|].
  destruct Hh as [Hok Hlines]. destruct (push_lines (line e) (len e) (history e) Hok Hnz) as [Hok' Hpl];
    [rewrite Ht; apply printables_line_ok; [done|rewrite <- Ht, length_take; lia]|lia|]. split; [done|].
  rewrite Hpl, Ht. case_decide; [apply Forall_app_2; [done|by repeat constructor]|].
  apply Forall_app_2; [by apply Forall_drop, Forall_take|by repeat constructor].
Qed.

(** The prompt on a blank line starts a line. *)
Lemma prompt_starts_line e t : con_view (con e) t → below_blank (geo e) t → line_shows (geo e) [] t →
  newline_byte ∉ prompt_text (evfs e) → (length (prompt_text (evfs e)) ≤ cols (geo e))%nat →
  length (line e) = MAX_LINE → printable_history (history e) →
  ∃ e', print_dynamic_prompt e = Some e' ∧ same_but_screen e e' ∧
    ∃ t', editor_ok (with_line (line e') 0 e') t' [].
Proof.
  intros Hv Hb Hl Hn Hfit Hbuf Hh. unfold print_dynamic_prompt.
  destruct (e_print_spec (prompt_text (evfs e)) e t Hv) as (e' & -> & Hsame & Hv'). exists e'. split; [done|]. split; [done|].
  destruct Hsame as (Hs1 & Hs2 & Hs3 & Hs4 & Hs5). destruct (geo_live e t Hv) as [Hg Hto].
  exists (term_print (geo e) (prompt_text (evfs e)) t). split; cbn [con evfs line len history with_line]; try done; rewrite ?Hs5, ?Hs1, ?Hs2, ?Hs4; try done.
  - by apply print_below.
  - rewrite app_nil_r. by destruct (print_appends (geo e) _ [] t Hn Hl) as (Hl' & _).
  - lia.
  - constructor.
Qed.
End facts.

(** A working directory that the VFS accepts has no line break in it. *)
Lemma prompt_no_newline {D} (v : vfs_state D) wd : Vfs.cwd v = Some wd → canonical wd → newline_byte ∉ prompt_text v.
Proof.
  intros Hcwd (parts & -> & Hvalid & _). unfold prompt_text.
  assert (newline_byte ∉ absolute parts) as Habs.
  { intros Hin. pose proof (absolute_chars parts Hvalid) as Hbad. rewrite bad_characters_false in Hbad.
    destruct (Hbad newline_byte Hin) as [_ Hctl]. by vm_compute in Hctl. }
  assert (∀ r, (shell_pwd v).1 = Ok r → r = absolute parts) as Hpwd.
  { intros r. unfold shell_pwd, get_shell_cwd, mbind, M_bind, mget, mlift, mensure. cbn. rewrite Hcwd. cbn.
    destruct (ensure _ _) as [[]|]; [|done]. unfold from_utf8. destruct (utf8_valid _); [|done]. by intros [= <-]. }
  rewrite !not_elem_of_app. split_and!; try (apply (bool_decide_unpack _); vm_compute; exact I).
  destruct (shell_pwd v).1 as [path|] eqn:E; [|apply (bool_decide_unpack _); vm_compute; exact I].
  case_bool_decide; [apply (bool_decide_unpack _); vm_compute; exact I|]. by rewrite (Hpwd path eq_refl).
Qed.

Section claim.
Context {C D : Type} `{!TextConsole C} `{BlockDevice D}.
Implicit Types e : Editor C D.

(** An editor between two lines: the cursor is on a blank row with nothing below
    it, and the history holds printable lines, whatever they are. *)
Definition between_lines e : Prop :=
  (∃ t, con_view (con e) t ∧ below_blank (con_geometry (con e)) t ∧ line_shows (con_geometry (con e)) [] t) ∧
  (∃ wd, Vfs.cwd (evfs e) = Some wd ∧ canonical wd) ∧ length (line e) = MAX_LINE ∧ (len e ≤ MAX_LINE)%nat ∧ printable_history (history e).

(** From the start [e] of a line, the keys [ks] leave the row showing the prompt
    and the text of the specification, the history the specification gives, and
    Enter hands over that text, remembers it and is between two lines again. *)
Definition shows_and_runs (ks : list KeyEvent) e : Prop :=
  let '(text, h) := edited ks ([], history e) in
  ∃ e' t' e'', keys ks e = Some e'
    ∧ con_view (con e') t' ∧ line_shows (con_geometry (con e)) ((shown (con_geometry (con e)) <$> prompt_text (evfs e)) ++ text) t'
    ∧ take (len e') (line e') = text ∧ history e' = h
    ∧ key Enter e' = Some (e'', Some (trim text)) ∧ history e'' = push (line e') (len e') h ∧ between_lines e''.

Lemma reset_browse_printable h : printable_history h → printable_history (reset_browse h).
Proof. intros [[Hsize Hwidths Hcount Hbrowse] Hp]. by split. Qed.

Lemma line_runs ks e t : editor_ok e t [] → (∃ wd, Vfs.cwd (evfs e) = Some wd ∧ canonical wd) → Forall edit_key ks →
  Forall (λ st, fits_row e st.1) (edits ks ([], history e)) → shows_and_runs ks e.
Proof.
  intros Hok Hwd Hks Hfits. unfold shows_and_runs. destruct (keys_spec ks e t [] Hok Hks Hfits) as (e' & t' & Hk & Hok' & Hh' & Hv' & Hg').
  destruct (edited ks ([], history e)) as [text h]. cbn [fst snd] in *. subst h.
  destruct (enter_spec e' t' _ Hok') as (e'' & t'' & Henter & Hcv & Hbb & Hls & Hev & Hgeo & Hph & Hpush & Hbuf & Hlen).
  exists e', t', e''. split; [done|]. split; [apply Hok'|].
  pose proof (ed_row _ _ _ Hok') as Hrow. rewrite Hg', Hv' in Hrow. split; [exact Hrow|].
  split; [apply Hok'|]. split; [done|]. split; [done|]. split; [done|].
  split; [by exists t''|]. split; [by rewrite Hev, Hv'|]. split; [done|]. split; [|done]. rewrite Hlen. apply Hok'.
Qed.

End claim.

(** *** Witness: typing [lss], deleting one character, on the VGA console *)

Definition blank_vga : Vga := mk_vga (mjoin (replicate 2000 [blank; DEFAULT_COLOR])) 0 0.

Lemma blank_vga_view : con_view blank_vga (term_clear vga_geometry).
Proof.
  split; [apply term_clear_ok, vga_geometry_ok|]. split; [|done]. split; [vm_compute; reflexivity|].
  assert (∀ n (i : nat), (i < n)%nat → mjoin (replicate n [blank; DEFAULT_COLOR]) !! (2 * i)%nat = Some blank
    ∧ mjoin (replicate n [blank; DEFAULT_COLOR]) !! (2 * i + 1)%nat = Some DEFAULT_COLOR) as Hcell.
  { intros n. induction n as [|n IH]; intros i Hi; [lia|]. destruct i as [|i]; [done|].
    replace (2 * S i)%nat with (S (S (2 * i))) by lia. apply IH. lia. }
  intros row col Hs. unfold vga_cell, blank_vga. cbn [video].
  destruct (Hcell 2000%nat (Z.to_nat (row * 80 + col))) as [H1 H2]; [vga|].
  replace (Z.to_nat (cell_offset row col)) with (2 * Z.to_nat (row * 80 + col))%nat by vga.
  replace (Z.to_nat (cell_offset row col + 1)) with (2 * Z.to_nat (row * 80 + col) + 1)%nat by vga.
  rewrite H1, H2. unfold term_clear, blank_line. cbn [cells rows cols vga_geometry].
  rewrite lookup_replicate_2 by vga. cbn [mbind option_bind]. by rewrite lookup_replicate_2 by vga.
Qed.

Definition some_keys : list KeyEvent := [Char 108; Char 115; Char 115; Backspace; ArrowUp; ArrowUp; ArrowDown; Escape; Char 33].

Definition editor_at (h : History) : Editor Vga sim_disk := mk_editor blank_vga w_vfs (replicate MAX_LINE Byte.x00) 0 h.

(** Two lines were run before. *)
Definition two_lines : History :=
  push (copy_at 0 (bs "pwd") (replicate MAX_LINE Byte.x00)) 3 (push (copy_at 0 (bs "help") (replicate MAX_LINE Byte.x00)) 4 history_new).

Lemma editor_at_between h : printable_history h → between_lines (editor_at h).
Proof.
  intros Hh. split; [|split; [|split; [done|split; [simpl; lia|done]]]].
  - exists (term_clear vga_geometry). split; [apply blank_vga_view|]. apply clear_below, vga_geometry_ok.
  - exists [slash]. split; [done|apply canonical_root].
Qed.

Lemma two_lines_printable : printable_history two_lines.
Proof. split; [split; [done| |vm_compute; lia|vm_compute; lia]|]; by repeat constructor. Qed.

Lemma new_printable : printable_history history_new.
Proof. split; [apply history_new_ok|constructor]. Qed.

Lemma some_keys_edit : Forall edit_key some_keys.
Proof. by repeat constructor. Qed.

Lemma some_keys_fit h : h = two_lines ∨ h = history_new →
  Forall (λ st, (length (prompt_text w_vfs) + length st.1 ≤ cols vga_geometry)%nat) (edits some_keys ([], reset_browse h)).
Proof. intros [-> | ->]; vm_compute; repeat constructor; lia. Qed.


Example some_keys_recall : (edited some_keys ([], reset_browse two_lines)).1 = bs "pwd!".
Proof. vm_compute. done. Qed.

(** A line that does not fit is not erased: after 68 characters, which wrap on
    the 80 columns of the VGA console, as many deletions leave 67 of them on
    the screen, although the line is empty. *)
Example wrapped_line_stays :
  let g := vga_geometry in
  let t := Nat.iter 68 term_backspace (term_print g (replicate 68 (z2b 120)) (term_print g (bs "tuwaiq@os:~$ ") (term_clear g))) in
  cells t !! 0%nat = Some (bs "tuwaiq@os:~$ " ++ replicate 67 (z2b 120)) ∧ (term_row t, term_col t) = (1%nat, 0%nat).
Proof. vm_compute. done. Qed.
