(* ===== verification/ShellState.v ===== *)
(** Shell commands of kernel/shell.rs: the state they work on, and the effects
    they are made of.

    A command runs as the shell's task on the whole machine (Interrupts.v) and
    draws on a text console (Terminal.v). When it gives up the processor, the
    others run: [turns] lists, for every yield in turn, the machine steps until
    the scheduler is asked again. A command is a computation that ends with a
    value, waits for a turn that is not listed, reboots, or panics. Interrupts
    that arrive while a command computes are taken to arrive at its next yield.
    The copy of the output on the serial port is not modelled. *)

From S2P Require Import Prelude Str Device Tree TuwaiqTree TuwaiqFs Fs FsPersist Fat32 Vfs VfsData Input X86 Frames Paging Wake Scheduler OpenFiles Process Vm Display Syscall Interrupts Terminal Programs ShellText.

(** [MemoryRegionKind] of the bootloader's memory map *)
Inductive BootRegionKind := RegionUsable | RegionBootloader | RegionUnknownBios (kind : Z) | RegionUnknownUefi (kind : Z) | RegionOther.
Record BootRegion := mk_boot_region { boot_start : Z; boot_end : Z; boot_kind : BootRegionKind }.

(** What the build, the bootloader, the heap and the processor provide: the
    embedded executables, the heap's counters and where it puts the next kernel
    stack, the saved stack pointer of a switch, the boot information, and the
    report made of time stamps. *)
Class ShellPlatform (PT D : Type) := {
  program_image : str → list byte;
  heap_used : World PT D → Z;
  heap_free : World PT D → Z;
  next_stack : World PT D → Z;
  switch_rsp : World PT D → Z;
  boot_regions : list BootRegion;
  boot_framebuffer : option (Z * Z);
  vm_batch_report : World PT D → str
}.

Record ShellState (PT D C : Type) := mk_shell {
  world : World PT D;
  con : C;
  net : Net;
  turns : list (list Step)
}.
Arguments mk_shell {PT D C}.
Arguments world {PT D C}.
Arguments con {PT D C}.
Arguments net {PT D C}.
Arguments turns {PT D C}.

Inductive Run (St A : Type) :=
| Done (a : A) (s : St)
| Waiting (s : St)
| Rebooted (s : St)
| Panicked.
Arguments Done {St A} a s.
Arguments Waiting {St A} s.
Arguments Rebooted {St A} s.
Arguments Panicked {St A}.

Definition Sh (St A : Type) : Type := St → Run St A.

#[global] Instance Sh_ret {St} : MRet (Sh St) := λ A a s, Done a s.
#[global] Instance Sh_bind {St} : MBind (Sh St) := λ A B f m s,
  match m s with
  | Done a s => f a s
  | Waiting s => Waiting s
  | Rebooted s => Rebooted s
  | Panicked => Panicked
  end.

(** The task the shell runs as. *)
Definition SHELL_TASK : Z := 1.

Section effects.
Context {PT D C : Type} `{X86Addr} `{!X86_64 PT} `{BlockDevice D} `{!TextConsole C} `{!ShellPlatform PT D}.
Implicit Types (s : ShellState PT D C) (w : World PT D).

Notation Cmd := (Sh (ShellState PT D C)).

Definition with_world w s : ShellState PT D C := mk_shell w (con s) (net s) (turns s).
Definition with_console c s : ShellState PT D C := mk_shell (world s) c (net s) (turns s).
Definition with_net n s : ShellState PT D C := mk_shell (world s) (con s) n (turns s).
Definition with_turns ts s : ShellState PT D C := mk_shell (world s) (con s) (net s) ts.

Definition sh_ask {A} (f : ShellState PT D C → A) : Cmd A := λ s, Done (f s) s.
Definition sh_panic {A} : Cmd A := λ s, Panicked.

(** Wait for a turn that does not come. *)
Definition sh_wait {A} : Cmd A := λ s, Waiting s.

(** ** Output *)

Definition on_console (f : C → option C) : Cmd unit := λ s,
  match f (con s) with Some c => Done tt (with_console c s) | None => Panicked end.

Definition print (text : str) : Cmd unit := on_console (con_print text).
Definition println (text : str) : Cmd unit := on_console (con_println text).
Definition clear_screen : Cmd unit := on_console con_clear.

Definition print_digits (text : option str) : Cmd unit := match text with Some t => print t | None => sh_panic end.
Definition print_u64 (value : Z) : Cmd unit := print_digits (u64_text value).
Definition print_i64 (value : Z) : Cmd unit := print_digits (i64_text value).
Definition print_hex (value : Z) : Cmd unit := print_digits (hex_text value).
Definition pad_print (text : str) (width : nat) : Cmd unit := print (padded text width).

Fixpoint print_lines (lines : list str) : Cmd unit :=
  match lines with [] => mret tt | l :: lines => _ ← println l; print_lines lines end.

(** [{}], [{:?}] and [{:#x}] of [format!] *)
Definition dec (value : Z) : str := default [] (u64_text (as_u64 value)).
Definition sdec (value : Z) : str := default [] (i64_text (as_i64 value)).
Definition hex (value : Z) : str := default [] (hex_text (as_u64 value)).
Definition debug_option (o : option Z) : str := match o with Some v => bs "Some(" ++ sdec v ++ bs ")" | None => bs "None" end.
Definition debug_bool (b : bool) : str := if b then bs "true" else bs "false".
Definition pass_fail (b : bool) : str := if b then bs "PASS" else bs "FAIL".
Definition reason_text (reason : string) : str := String.list_byte_of_string reason.

Definition print_error (prefix : str) (reason : string) : Cmd unit := _ ← print prefix; println (reason_text reason).
Definition print_fs_error (reason : string) : Cmd unit := print_error (bs "Filesystem error: ") reason.

(** ** The kernel, the filesystem and the input devices *)

Definition on_kernel {A} (f : Kernel PT → A * Kernel PT) : Cmd A := λ s,
  let '(a, k) := f (kern (sys (world s))) in Done a (with_world (with_kernel k (world s)) s).
(** A kernel operation that may panic. *)
Definition try_kernel {A} (f : Kernel PT → option (A * Kernel PT)) : Cmd A := λ s,
  match f (kern (sys (world s))) with
  | Some (a, k) => Done a (with_world (with_kernel k (world s)) s)
  | None => Panicked
  end.
Definition ask_kernel {A} (f : Kernel PT → A) : Cmd A := sh_ask (λ s, f (kern (sys (world s)))).

Definition on_vfs {A} (m : M (vfs_state D) A) : Cmd (result A) := λ s,
  let w := world s in
  let '(r, v) := m (vfs (sys w)) in Done r (with_world (with_sys (with_vfs v (sys w)) w) s).

Definition on_devices {A} (f : io → A * io) : Cmd A := λ s,
  let '(a, i) := f (io_of (world s)) in Done a (with_world (with_io i (world s)) s).

(** ** Tasks *)

(** [stack] of a spawn is where the heap puts it now. *)
Definition sh_spawn (name elf cwd : list byte) : Cmd (result Z) := λ s,
  on_kernel (spawn_user_process_with_cwd name elf cwd (next_stack (world s))) s.
Definition sh_spawn_suspended (name elf cwd : list byte) : Cmd (result Z) := λ s,
  on_kernel (spawn_user_process_suspended name elf cwd (next_stack (world s))) s.
Definition sh_kill (id : Z) : Cmd (result unit) := try_kernel (kill id).
Definition sh_reap_now : Cmd unit := try_kernel (λ k, k ← reap_now k; Some (tt, k)).
Definition sh_info (id : Z) : Cmd (result Task) := ask_kernel (info id).
Definition exit_code_of (id : Z) : Cmd (option Z) :=
  t ← sh_info id; mret match t with Ok t => task_exit_code t | Err _ => None end.
(** [AtomicU64::load] *)
Definition sh_ticks : Cmd Z := ask_kernel (λ k, as_u64 (Scheduler.ticks k)).

(** The others run, turn by turn, until the shell has the processor again. *)
Fixpoint run_turns (ts : list (list Step)) s : Run (ShellState PT D C) unit :=
  match ts with
  | [] => Waiting (with_turns [] s)
  | t :: ts =>
      match world_run t (world s) with
      | None => Panicked
      | Some w =>
          let s := with_turns ts (with_world w s) in
          if bool_decide (current_task_id (kern (sys w)) = Some SHELL_TASK) then Done tt s else run_turns ts s
      end
  end.

Definition others_run : Cmd unit := λ s, run_turns (turns s) s.

Definition yield_by (f : Kernel PT → option (Kernel PT)) : Cmd unit :=
  _ ← try_kernel (λ k, k ← f k; Some (tt, k)); others_run.
Definition sh_yield : Cmd unit := λ s, yield_by (yield_now (switch_rsp (world s))) s.
Definition sh_sleep (n : Z) : Cmd unit := λ s, yield_by (sleep_ticks n (switch_rsp (world s))) s.

(** [loop { if let Some(a) = done { break a } yield_now() }]. Every yield uses up
    a turn, so one round more than there are turns is enough. *)
Fixpoint yield_loop {A} (fuel : nat) (done : ShellState PT D C → option A) : Cmd A := λ s,
  match done s with
  | Some a => Done a s
  | None => match fuel with O => sh_wait s | S fuel => (_ ← sh_yield; yield_loop fuel done) s end
  end.
Definition yield_until {A} (done : ShellState PT D C → option A) : Cmd A := λ s, yield_loop (S (length (turns s))) done s.

Definition kernel_of s : Kernel PT := kern (sys (world s)).

Definition wait_for_terminated (id : Z) : Cmd unit := yield_until (λ s,
  match info id (kernel_of s) with
  | Ok t => if bool_decide (task_state t = Terminated) then Some tt else None
  | Err _ => Some tt
  end).

(** [while ticks().saturating_sub(started) < n { yield_now() }] *)
Definition wait_ticks (n : Z) : Cmd unit :=
  started ← sh_ticks;
  yield_until (λ s, if saturating_sub (as_u64 (Scheduler.ticks (kernel_of s))) started <? n then None else Some tt).

(** ** Embedded programs *)

Definition embedded_program (name : str) : option (list byte) :=
  if bool_decide (name ∈ embedded_program_names) then Some (program_image name) else None.
End effects.

Notation Cmd PT D C := (Sh (ShellState PT D C)).
