(* ===== verification/ShellFiles.v ===== *)
(** The shell's commands on files and built-in applications (kernel/shell.rs):
    the handlers of pwd, cd, ls, mounts, touch, mkdir, cat, write, run, notes,
    editor, net, ping, ai, ask, installapp, fsinterrupttest and fsexhausttest,
    and the spawning of programs from files. *)

From S2P Require Import Prelude Str Device Tree TuwaiqTree TuwaiqFs Fs FsPersist Fat32 Vfs VfsData Input X86 Frames Paging Wake Scheduler OpenFiles Process Vm Display Syscall Interrupts Terminal Programs Notes ShellText ShellState.

Section files.
Context {PT D C : Type} `{X86Addr} `{!X86_64 PT} `{BlockDevice D} `{!TextConsole C} `{!ShellPlatform PT D}.
Notation Cmd := (Cmd PT D C).

Definition root_dir : str := [slash].

Definition print_entries (entries : list str) : Cmd unit :=
  match entries with [] => println (bs "(empty)") | _ => print_lines entries end.

(** [match r { Ok(lines) => .., Err(reason) => .. }] *)
Definition print_result (prefix : str) (r : result (list str)) : Cmd unit :=
  match r with Ok lines => print_lines lines | Err reason => print_error prefix reason end.

Definition handle_pwd : Cmd unit :=
  r ← on_vfs shell_pwd;
  match r with Ok path => println path | Err reason => print_fs_error reason end.

Definition handle_cd (args : str) : Cmd unit :=
  let path := trim args in
  if bool_decide (path = []) then println (bs "Usage: cd <path>")
  else
    r ← on_vfs (shell_chdir path);
    match r with Ok _ => mret tt | Err reason => print_fs_error reason end.

Definition handle_ls (args : str) : Cmd unit :=
  r ← on_vfs (shell_list (if bool_decide (trim args = []) then None else Some (trim args)));
  match r with Ok entries => print_entries entries | Err reason => print_fs_error reason end.

Fixpoint print_mounts (mounts : list MountInfo) : Cmd unit :=
  match mounts with
  | [] => mret tt
  | m :: mounts =>
      _ ← print (info_path m);
      _ ← print (bs "  ");
      _ ← print (info_label m);
      _ ← println (if info_read_only m then bs "  ro" else bs "  rw");
      print_mounts mounts
  end.

Definition handle_mounts : Cmd unit :=
  r ← on_vfs mounts;
  match r with Ok ms => print_mounts ms | Err reason => print_fs_error reason end.

(** [touch], [mkdir] and [write] confirm what they changed. *)
Definition confirm (text name : str) (r : result unit) : Cmd unit :=
  match r with Ok _ => _ ← print text; println name | Err reason => print_fs_error reason end.

Definition handle_touch (args : str) : Cmd unit :=
  let name := trim args in
  if bool_decide (name = []) then println (bs "Usage: touch <name>")
  else r ← on_vfs (shell_create_file name); confirm (bs "Created file: ") name r.

Definition handle_mkdir (args : str) : Cmd unit :=
  let name := trim args in
  if bool_decide (name = []) then println (bs "Usage: mkdir <name>")
  else r ← on_vfs (shell_create_dir name); confirm (bs "Created directory: ") name r.

Definition handle_cat (args : str) : Cmd unit :=
  let name := trim args in
  if bool_decide (name = []) then println (bs "Usage: cat <name>")
  else
    r ← on_vfs (shell_read name);
    match r with Ok content => println content | Err reason => print_fs_error reason end.

Definition handle_write (args : str) : Cmd unit :=
  match split_first_token args with
  | None => println (bs "Usage: write <name> <text>")
  | Some (name, text) => r ← on_vfs (shell_write name text); confirm (bs "Wrote to: ") name r
  end.

Definition handle_run (args : str) : Cmd unit :=
  let name := trim args in
  if bool_decide (name = []) then println (bs "Usage: run <program>")
  else print_result (bs "Program error: ") (loader_run name []).

Definition handle_notes (args : str) : Cmd unit :=
  let '(sub, rest) := split_command args in
  r ← on_vfs (notes_handle sub rest); print_result (bs "Notes error: ") r.

Definition handle_editor (args : str) : Cmd unit :=
  r ← on_vfs (editor_handle args); print_result (bs "Editor error: ") r.

(** ** Network and AI bridge *)

(** [str::eq_ignore_ascii_case] *)
Definition ascii_lower (b : byte) : byte := if (65 <=? b2z b) && (b2z b <=? 90) then z2b (b2z b + 32) else b.
Definition eq_ignore_ascii_case (a b : str) : bool := bool_decide (ascii_lower <$> a = ascii_lower <$> b).

Definition handle_net_command (args : str) : Cmd unit :=
  let sub := trim args in
  if eq_ignore_ascii_case sub (bs "status") || bool_decide (sub = []) then print_lines net_status_lines
  else _ ← print (bs "Unknown net command: "); println sub.

Definition handle_ping (args : str) : Cmd unit :=
  let host := trim args in
  if bool_decide (host = []) then println (bs "Usage: ping <host>")
  else
    r ← (λ s, let '(r, n) := ping host (net s) in Done r (with_net n s));
    match r with Ok message => println message | Err reason => print_error (bs "Network error: ") reason end.

Definition handle_ai_command (line args : str) : Cmd unit :=
  let sub := trim args in
  if eq_ignore_ascii_case sub (bs "status") then
    _ ← print (bs "AI Bridge: ");
    _ ← println (if online bridge_status then bs "online" else bs "offline");
    _ ← print (bs "Mode: ");
    _ ← match bridge_mode bridge_status with Stub => println (bs "stub") end;
    _ ← print (bs "Phase: ");
    _ ← print_u64 (bridge_phase bridge_status);
    println []
  else if eq_ignore_ascii_case sub (bs "help") then print_lines help_lines
  else if bool_decide (sub = []) then
    _ ← println offline_notice;
    println (bs "Try: ai help | ai status | ask <question>")
  else _ ← print (bs "Unknown command: "); println line.

Definition handle_ask_command (question : str) : Cmd unit := print_lines (lines (bridge_ask (trim question))).

(** ** Installing and starting programs *)

Definition ensure_apps_directory : M (vfs_state D) unit :=
  r ← mtry (Vfs.kind root_dir (bs "/apps"));
  match r with
  | Ok NDirectory => mret tt
  | Ok NFile => mthrow "/apps is not a directory"
  | Err _ => create_dir root_dir (bs "/apps")
  end.

Definition ensure_directory (path : str) : M (vfs_state D) unit :=
  r ← mtry (Vfs.kind root_dir path);
  match r with
  | Ok NDirectory => mret tt
  | Ok NFile => mthrow "expected directory is a file"
  | Err _ => create_dir root_dir path
  end.

Definition ensure_app_data_directory (name : str) : M (vfs_state D) unit :=
  _ ← ensure_directory (bs "/data");
  ensure_directory (bs "/data/" ++ name).

(** The image of an application and the file it is installed as. *)
Definition install_target (name : str) : option (str * str) :=
  if bool_decide (name = bs "hello") then Some (bs "hello", bs "/apps/hello")
  else if bool_decide (name = bs "file-api-test") then Some (bs "file_api_test", bs "/apps/file-api-test")
  else if bool_decide (name = bs "file-mutation-test") then Some (bs "file_mutation_test", bs "/apps/file-mutation-test")
  else if bool_decide (name = bs "tuwaiq-ai") then Some (bs "tuwaiq_ai", bs "/apps/tuwaiq-ai")
  else if bool_decide (name = bs "tuwaiq-ai-fault") then Some (bs "tuwaiq_ai_fault", bs "/apps/tuwaiq-ai-fault")
  else None.

Definition install_files (target : str) (bytes : list byte) : M (vfs_state D) str :=
  _ ← ensure_apps_directory;
  _ ← write_file root_dir target bytes;
  _ ← ensure_app_data_directory (basename target);
  mret target.

Definition install_app (name : str) : Cmd (result str) :=
  match install_target name with
  | None => mret (Err "unknown provisionable application")
  | Some (embedded_name, target) =>
      match embedded_program (PT := PT) (D := D) embedded_name with
      | None => mret (Err "embedded bootstrap image missing")
      | Some bytes => on_vfs (install_files target bytes)
      end
  end.

Definition handle_install_app (args : str) : Cmd unit :=
  let name := trim args in
  if bool_decide (name = []) then
    println (bs "Usage: installapp <hello|file-api-test|file-mutation-test|tuwaiq-ai|tuwaiq-ai-fault>")
  else
    r ← install_app name;
    match r with
    | Ok path => _ ← print (bs "Installed bootstrap application at "); println path
    | Err reason => print_fs_error reason
    end.

(** The file of a program, checked before it is loaded. *)
Definition read_executable (cwd path : str) : M (vfs_state D) (str * list byte) :=
  absolute ← mlift (normalize cwd path);
  bytes ← read_file root_dir absolute;
  _ ← mensure (negb (bool_decide (bytes = []) || (MAX_EXECUTABLE_SIZE <? zlen bytes))) "invalid executable file size";
  mret (absolute, bytes).

Definition spawn_from_vfs (path cwd : str) : Cmd (result Z) :=
  r ← on_vfs (read_executable cwd path);
  match r with
  | Ok (absolute, bytes) => sh_spawn (basename absolute) bytes cwd
  | Err reason => mret (Err reason)
  end.

(** ** Storage diagnostics *)

Definition recovery_path : str := bs "/data/recovery/interrupted.txt".
Definition stable : list byte := bs "stable-before-power-loss".

(** [read_file(..).map(|bytes| bytes == expected).unwrap_or(false)] *)
Definition reads_as (r : result (list byte)) (expected : list byte) : bool := bool_decide (r = Ok expected).

Definition handle_fs_interrupted_write_test : Cmd unit :=
  r ← on_vfs (ensure_directory (bs "/data/recovery"));
  match r with Err reason => print_fs_error reason | Ok _ =>
    r ← on_vfs (write_file root_dir recovery_path stable);
    match r with Err reason => print_fs_error reason | Ok _ =>
      r ← on_vfs (inject_interrupted_write root_dir recovery_path (bs "uncommitted-after-power-loss") 1);
      match r with
      | Err reason => print_error (bs "fs-recovery: FAIL injection: ") reason
      | Ok _ =>
          r ← on_vfs (read_file root_dir recovery_path);
          println (if reads_as r stable
                   then bs "fs-recovery: PASS interrupted checkpoint rejected; active data unchanged"
                   else bs "fs-recovery: FAIL active data changed after interrupted checkpoint")
      end
    end
  end.

Fixpoint remove_all (paths : list str) : Cmd unit :=
  match paths with [] => mret tt | p :: paths => _ ← on_vfs (remove root_dir p); remove_all paths end.

Definition exhaust (name : str) : str := bs "/data/exhaust/" ++ name.
Definition exhaust_block (fill : Z) : list byte := replicate (Z.to_nat MAX_FILE_SIZE) (z2b fill).

Definition handle_fs_exhaustion_test : Cmd unit :=
  r ← on_vfs (ensure_directory (bs "/data/exhaust"));
  match r with Err reason => print_fs_error reason | Ok _ =>
    _ ← remove_all (exhaust <$> [bs "a.bin"; bs "b.bin"; bs "c.bin"; bs "sentinel.txt"; bs "reused.txt"]);
    r ← on_vfs (write_file root_dir (exhaust (bs "sentinel.txt")) (bs "preserved"));
    match r with Err reason => print_fs_error reason | Ok _ =>
      r ← on_vfs (write_file root_dir (exhaust (bs "a.bin")) (exhaust_block 0xA5));
      match r with Err reason => print_fs_error reason | Ok _ =>
        r ← on_vfs (write_file root_dir (exhaust (bs "b.bin")) (exhaust_block 0x5A));
        match r with Err reason => print_fs_error reason | Ok _ =>
          rejected ← on_vfs (write_file root_dir (exhaust (bs "c.bin")) (exhaust_block 0x3C));
          absent ← on_vfs (Vfs.kind root_dir (exhaust (bs "c.bin")));
          preserved ← on_vfs (read_file root_dir (exhaust (bs "sentinel.txt")));
          cleanup ← on_vfs (_ ← remove root_dir (exhaust (bs "a.bin")); remove root_dir (exhaust (bs "b.bin")));
          reused ← on_vfs (_ ← mlift cleanup;
                           _ ← write_file root_dir (exhaust (bs "reused.txt")) (bs "space-reused");
                           read_file root_dir (exhaust (bs "reused.txt")));
          println (if bool_decide (rejected = Err "filesystem metadata too large") && is_err absent
                        && reads_as preserved (bs "preserved") && reads_as reused (bs "space-reused")
                   then bs "fs-exhaustion: PASS atomic rejection preserved prior data and reclaimed space reused"
                   else bs "fs-exhaustion: FAIL atomicity or reuse")
        end
      end
    end
  end.
End files.
