(* ===== verification/ShellTasks.v ===== *)
(** The shell's commands on tasks and the machine (kernel/shell.rs): the
    handlers of ps, taskinfo, kill, yield, uptime, sysinfo, meminfo, memtest,
    monitor, runfs, storagetest, vfstest, isolate, spawnfail, reap, autoreap,
    killreap and the mmap tests. *)

From S2P Require Import Prelude Str Device Tree TuwaiqTree TuwaiqFs Fs FsPersist Fat32 Vfs VfsData Input X86 Frames Paging Wake Scheduler OpenFiles Process Vm Display Syscall Interrupts Terminal Programs Notes ShellText ShellState ShellFiles.

(** ** Labels and numbers *)

Definition state_label (state : TaskState) : str :=
  match state with Ready => bs "Ready" | Running => bs "Running" | Blocked => bs "Blocked" | Terminated => bs "Terminated" end.

Definition privilege_label (privilege : Privilege) : str :=
  match privilege with KernelTask => bs "kernel" | UserTask => bs "user" end.

Definition HEAP_SIZE : Z := 4 * 1024 * 1024.
Definition TIMER_HZ : Z := 100.

(** [memory::memtest]; the heap is set up before the shell starts *)
Definition memtest : result unit :=
  let value := 42 in
  _ ← ensure (value =? 42) "Box value mismatch";
  let numbers := seqZ 0 128 in
  _ ← ensure (negb (negb (zlen numbers =? 128) || negb (bool_decide (numbers !! 64%nat = Some 64)))) "Vec push/read failed";
  let label := (bs "TuwaiqOS" ++ [z2b 32]) ++ bs "heap" in
  ensure (bool_decide (label = bs "TuwaiqOS heap")) "String content mismatch".

Fixpoint usable_bytes (total : Z) (regions : list BootRegion) : Z :=
  match regions with
  | [] => total
  | r :: regions =>
      usable_bytes (match boot_kind r with
                    | RegionUsable => saturating_add_u u64_max total (saturating_sub (boot_end r) (boot_start r))
                    | _ => total
                    end) regions
  end.

Record FrameReuseStats := mk_reuse { reuse_bump : Z; reuse_free : Z; reuse_live : Z }.
Record DesktopLifecycleStats := mk_lifecycle {
  st_tasks : Z; st_frame_bump : Z; st_live_frames : Z; st_frame_free : Z; st_heap_used : Z
}.

Section tasks.
Context {PT D C : Type} `{X86Addr} `{!X86_64 PT} `{BlockDevice D} `{!TextConsole C} `{!ShellPlatform PT D}.
Implicit Types (s : ShellState PT D C).
Notation Cmd := (Cmd PT D C).

Definition print_number (prefix : str) (value : Z) (suffix : str) : Cmd unit :=
  _ ← print prefix; _ ← print_u64 value; println suffix.

Definition print_process_result (id : Z) : Cmd unit :=
  r ← sh_info id;
  match r with
  | Ok t =>
      _ ← print (bs "  pid=");
      _ ← print_u64 (as_u64 (task_id t));
      _ ← print (bs " name=");
      _ ← print (task_name t);
      _ ← print (bs " state=");
      _ ← print (state_label (task_state t));
      _ ← print (bs " exit_code=");
      _ ← match task_exit_code t with Some code => print_i64 (as_i64 code) | None => print (bs "none") end;
      println []
  | Err reason => print_error (bs "  task error: ") reason
  end.

Definition print_task_error (reason : string) : Cmd unit := print_error (bs "Task error: ") reason.
Definition print_load_error (reason : string) : Cmd unit := print_error (bs "Process load error: ") reason.

Fixpoint print_tasks (ts : list Task) : Cmd unit :=
  match ts with
  | [] => mret tt
  | t :: ts =>
      _ ← print_u64 (as_u64 (task_id t));
      _ ← print (bs "     ");
      _ ← pad_print (task_name t) 17;
      _ ← pad_print (privilege_label (task_privilege t)) 8;
      _ ← pad_print (state_label (task_state t)) 11;
      _ ← match task_exit_code t with Some code => print_i64 (as_i64 code) | None => print (bs "-") end;
      _ ← println [];
      print_tasks ts
  end.

Definition handle_ps : Cmd unit :=
  r ← ask_kernel list_tasks;
  match r with
  | Ok ts => _ ← println (bs "PID   NAME             PRIV    STATE      EXIT"); print_tasks ts
  | Err reason => print_task_error reason
  end.

Fixpoint print_task_summaries (ts : list Task) : Cmd unit :=
  match ts with
  | [] => mret tt
  | t :: ts =>
      _ ← print (bs "Task ");
      _ ← print_u64 (as_u64 (task_id t));
      _ ← print (bs ": ");
      _ ← println (task_name t);
      _ ← print (bs "  Privilege: ");
      _ ← println (privilege_label (task_privilege t));
      _ ← print (bs "  State: ");
      _ ← println (state_label (task_state t));
      print_task_summaries ts
  end.

Definition print_user_details (id : Z) (t : Task) : Cmd unit :=
  _ ← print (bs "Exit code: ");
  _ ← match task_exit_code t with
      | Some code => _ ← print_i64 (as_i64 code); println []
      | None => println (bs "none (still running)")
      end;
  pml4 ← ask_kernel (process_pml4_phys id);
  _ ← match pml4 with
      | Some pml4 => _ ← print (bs "Address space PML4: "); _ ← print_hex (as_u64 pml4); println []
      | None => mret tt
      end;
  frames ← ask_kernel (process_frame_count id);
  match frames with
  | Some frames => print_number (bs "Address space frames: ") (as_u64 frames) []
  | None => mret tt
  end.

Definition handle_taskinfo (args : str) : Cmd unit :=
  let args := trim args in
  if bool_decide (args = []) then
    r ← ask_kernel list_tasks;
    match r with Ok ts => print_task_summaries ts | Err reason => print_task_error reason end
  else
    let id := default 0 (parse_u32 args) in
    if id =? 0 then println (bs "Usage: taskinfo [id]")
    else
      r ← sh_info id;
      match r with
      | Ok t =>
          _ ← print_number (bs "PID: ") (as_u64 (task_id t)) [];
          _ ← print (bs "Name: ");
          _ ← println (task_name t);
          _ ← print (bs "Privilege: ");
          _ ← println (privilege_label (task_privilege t));
          _ ← print (bs "State: ");
          _ ← println (state_label (task_state t));
          match task_privilege t with UserTask => print_user_details id t | KernelTask => mret tt end
      | Err reason => print_task_error reason
      end.

Definition handle_kill (args : str) : Cmd unit :=
  let args := trim args in
  if bool_decide (args = []) then println (bs "Usage: kill <id>")
  else
    let id := default 0 (parse_u32 args) in
    if id =? 0 then println (bs "Usage: kill <id>")
    else
      r ← sh_kill id;
      match r with
      | Ok _ => print_number (bs "Stopped task ") (as_u64 id) []
      | Err reason => print_task_error reason
      end.

Definition handle_yield : Cmd unit := _ ← sh_yield; println (bs "Yielded one time slice.").

(** ** The machine *)

Definition uptime_seconds : Cmd Z := t ← sh_ticks; mret (t / TIMER_HZ).

Definition print_uptime : Cmd unit :=
  seconds ← uptime_seconds;
  _ ← print (bs "Uptime: ");
  _ ← print_u64 seconds;
  _ ← print (bs " s (");
  t ← sh_ticks;
  _ ← print_u64 t;
  println (bs " timer ticks)").

Definition sh_heap_used : Cmd Z := sh_ask (λ s, as_u64 (heap_used (world s))).
Definition sh_heap_free : Cmd Z := sh_ask (λ s, as_u64 (heap_free (world s))).
Definition sh_frame_stats : Cmd (option FrameStats) := ask_kernel (λ k, frame_stats (mach k)).
Definition boot_usable_bytes : Z := usable_bytes 0 (boot_regions (PT := PT) (D := D)).

Definition print_sysinfo : Cmd unit :=
  _ ← println (bs "System Information");
  _ ← println (bs "  OS: TuwaiqOS v0.5");
  _ ← println (bs "  Architecture: x86_64");
  seconds ← uptime_seconds;
  _ ← print_number (bs "  Uptime: ") seconds (bs " s");
  _ ← print_number (bs "  Usable RAM: ") boot_usable_bytes (bs " bytes");
  _ ← print (bs "  Kernel heap: ");
  _ ← print_u64 (as_u64 HEAP_SIZE);
  _ ← print (bs " bytes (");
  used ← sh_heap_used;
  _ ← print_u64 used;
  _ ← print (bs " used, ");
  free ← sh_heap_free;
  _ ← print_u64 free;
  _ ← println (bs " free)");
  _ ← print (bs "  Paging: ");
  active ← ask_kernel (λ k, Paging.is_active (mach k));
  _ ← (if active : bool then
         _ ← print (bs "active");
         stats ← sh_frame_stats;
         _ ← match stats with
             | Some st =>
                 _ ← print (bs " (");
                 _ ← print_u64 (as_u64 (stat_allocated st));
                 _ ← print (bs " frames allocated, ");
                 _ ← print_u64 (as_u64 (stat_free_in_pool st));
                 print (bs " in free pool)")
             | None => mret tt
             end;
         println []
       else println (bs "inactive (static-array heap fallback)"));
  _ ← print (bs "  Filesystem: ");
  _ ← println (bs "TuwaiqFS v3");
  _ ← println (bs "  Tasks: preemptive scheduler (round-robin, 50ms slices)");
  _ ← println (bs "  Network: loopback");
  _ ← println (bs "  AI Bridge: offline (stub)");
  match boot_framebuffer (PT := PT) (D := D) with
  | Some (width, height) =>
      _ ← print (bs "  Framebuffer: ");
      _ ← print_u64 (as_u64 width);
      _ ← print (bs "x");
      _ ← print_u64 (as_u64 height);
      println []
  | None => println (bs "  Display: VGA text mode")
  end.

Definition region_label (kind : BootRegionKind) : str :=
  match kind with
  | RegionUsable => bs "usable" | RegionBootloader => bs "bootloader" | RegionUnknownBios _ => bs "bios"
  | RegionUnknownUefi _ => bs "uefi" | RegionOther => bs "other"
  end.

Fixpoint print_regions (index : nat) (regions : list BootRegion) : Cmd unit :=
  match regions with
  | [] => mret tt
  | r :: regions =>
      _ ← print (bs "  region ");
      _ ← print_u64 (as_u64 (Z.of_nat index));
      _ ← print (bs ": ");
      _ ← print_hex (boot_start r);
      _ ← print (bs "-");
      _ ← print_hex (boot_end r);
      _ ← print (bs " (");
      _ ← print_u64 (saturating_sub (boot_end r) (boot_start r));
      _ ← print (bs " bytes, ");
      _ ← print (region_label (boot_kind r));
      _ ← println (bs ")");
      print_regions (S index) regions
  end.

Definition print_meminfo : Cmd unit :=
  _ ← println (bs "Memory map:");
  _ ← print_regions 0 (boot_regions (PT := PT) (D := D));
  _ ← println [];
  print_number (bs "Total usable RAM: ") boot_usable_bytes (bs " bytes").

Definition handle_memtest : Cmd unit :=
  match memtest with
  | Ok _ => println (bs "Heap allocation test passed.")
  | Err reason => print_error (bs "Heap allocation test failed: ") reason
  end.

(** *** apps/monitor.rs *)

Definition format_u64_line (prefix : str) (value : Z) (suffix : str) : str := prefix ++ dec value ++ suffix.

Definition monitor_task_line (t : Task) : str :=
  bs "  PID " ++ dec (task_id t) ++ bs "  " ++ task_name t ++ bs "  (" ++ state_label (task_state t) ++ bs ")".

Definition monitor_paging (m : Machine PT) : list str :=
  if Paging.is_active m then
    bs "  Paging: active (heap is real mapped pages)" ::
    match frame_stats m with
    | Some st => [format_u64_line (bs "    physical frames allocated: ") (stat_allocated st) [];
                  format_u64_line (bs "    physical frames in free pool: ") (stat_free_in_pool st) []]
    | None => []
    end
  else [bs "  Paging: inactive (heap fell back to a static array)"].

Definition snapshot : Cmd (result (list str)) :=
  used ← sh_heap_used;
  free ← sh_heap_free;
  paging ← ask_kernel (λ k, monitor_paging (mach k));
  r ← ask_kernel list_tasks;
  match r with
  | Err reason => mret (Err reason)
  | Ok ts =>
      cwd ← on_vfs shell_pwd;
      up ← sh_ask (λ s, net_initialized (net s));
      mret (Ok ([bs "TuwaiqOS System Monitor"; []; bs "[ RAM ]";
                 format_u64_line (bs "  Usable RAM: ") boot_usable_bytes (bs " bytes");
                 format_u64_line (bs "  Kernel heap: ") HEAP_SIZE (bs " bytes");
                 format_u64_line (bs "    used: ") used (bs " bytes");
                 format_u64_line (bs "    free: ") free (bs " bytes")]
                ++ paging ++ [[]; bs "[ Tasks ]"] ++ (monitor_task_line <$> ts)
                ++ [[]; bs "[ Filesystem ]"; bs "  TuwaiqFS v3 (recoverable)";
                    match cwd with Ok path => bs "  CWD: " ++ path | Err _ => bs "  CWD: unavailable" end;
                    []; bs "[ Network ]"]
                ++ (if up : bool then (λ status, bs "  " ++ status) <$> net_status_lines
                    else [bs "  Network: not initialized"])))
  end.

Definition handle_monitor : Cmd unit := r ← snapshot; print_result (bs "Monitor error: ") r.

(** ** Running programs *)

Definition handle_runfs (args : str) : Cmd unit :=
  let path := trim args in
  if bool_decide (path = []) then println (bs "Usage: runfs <path>")
  else
    cwd ← on_vfs shell_pwd;
    match cwd with
    | Err _ => print_fs_error "VFS not initialized"
    | Ok cwd =>
        r ← spawn_from_vfs path cwd;
        match r with
        | Ok id =>
            _ ← print_number (bs "Spawned filesystem ELF pid ") (as_u64 id) [];
            _ ← wait_for_terminated id;
            print_process_result id
        | Err reason => print_error (bs "Filesystem process load error: ") reason
        end
    end.

Definition handle_storage_test : Cmd unit :=
  r ← install_app (bs "file-mutation-test");
  match r with Err reason => print_fs_error reason | Ok path =>
    r ← spawn_from_vfs path root_dir;
    match r with
    | Err reason => print_error (bs "storage: FAIL filesystem-backed spawn: ") reason
    | Ok id =>
        _ ← wait_for_terminated id;
        exit ← exit_code_of id;
        _ ← sh_reap_now;
        println (if bool_decide (exit = Some 0) then bs "storage: PASS Ring-3 mutation ABI and filesystem-backed ELF"
                 else bs "storage: FAIL Ring-3 mutation process")
    end
  end.

(** *** What the diagnostics compare *)

Definition frame_reuse_stats : Cmd FrameReuseStats :=
  stats ← sh_frame_stats;
  let '(bump, free) := match stats with Some st => (stat_bumped st, stat_free_in_pool st) | None => (0, 0) end in
  mret (mk_reuse bump free (saturating_sub bump free)).

Definition desktop_lifecycle_stats : Cmd DesktopLifecycleStats :=
  stats ← sh_frame_stats;
  let '(bump, free) := match stats with Some st => (stat_bumped st, stat_free_in_pool st) | None => (0, 0) end in
  count ← ask_kernel task_count;
  used ← sh_heap_used;
  mret (mk_lifecycle count bump (saturating_sub bump free) free used).

(** [before.tasks == after.tasks && .. && before.heap_used == after.heap_used] *)
Definition same_live (before after : DesktopLifecycleStats) : bool :=
  (st_tasks before =? st_tasks after) && (st_live_frames before =? st_live_frames after) && (st_heap_used before =? st_heap_used after).
Definition same_resources (before after : DesktopLifecycleStats) : bool :=
  same_live before after && (st_frame_bump before =? st_frame_bump after).

Definition frames_bumped_now : Cmd Z := stats ← sh_frame_stats; mret match stats with Some st => stat_bumped st | None => 0 end.

Definition arrow (name : str) (before after : Z) : str := name ++ dec before ++ bs "->" ++ dec after.
Definition pair (name : str) (before after : Z) : str :=
  name ++ bs "_before=" ++ dec before ++ bs " " ++ name ++ bs "_after=" ++ dec after.

(** The resources at the end of the line of the file and AI tests. *)
Definition resources_text (before after : DesktopLifecycleStats) : str :=
  arrow (bs " tasks=") (st_tasks before) (st_tasks after) ++ arrow (bs " frames=") (st_live_frames before) (st_live_frames after)
  ++ arrow (bs " bump=") (st_frame_bump before) (st_frame_bump after) ++ arrow (bs " heap=") (st_heap_used before) (st_heap_used after).

Definition handle_vfs_test : Cmd unit :=
  r ← on_vfs vfs_self_test;
  match r with Err reason => print_error (bs "vfs: FAIL path semantics: ") reason | Ok _ =>
    k ← on_vfs (Vfs.kind root_dir (bs "/phase6-test"));
    match k with Ok NFile => println (bs "vfs: FAIL /phase6-test is a file") | _ =>
      made ← match k with Ok _ => mret (Ok tt) | Err _ => on_vfs (create_dir root_dir (bs "/phase6-test")) end;
      match made with Err reason => print_fs_error reason | Ok _ =>
        r ← on_vfs (write_file root_dir (bs "/phase6-test/data.txt") (bs "phase6-data"));
        match r with Err reason => print_fs_error reason | Ok _ =>
          r ← install_app (bs "file-api-test");
          match r with Err reason => print_fs_error reason | Ok path =>
            r ← spawn_from_vfs path (bs "/phase6-test");
            match r with Err reason => print_error (bs "vfs: FAIL filesystem-backed warmup: ") reason | Ok warmup =>
              _ ← wait_for_terminated warmup;
              exit ← exit_code_of warmup;
              if negb (bool_decide (exit = Some 0)) then println (bs "vfs: FAIL warmup exit")
              else
                _ ← sh_reap_now;
                before ← desktop_lifecycle_stats;
                r ← spawn_from_vfs path (bs "/phase6-test");
                match r with Err reason => print_error (bs "vfs: FAIL filesystem-backed spawn: ") reason | Ok id =>
                  _ ← wait_for_terminated id;
                  exit ← exit_code_of id;
                  _ ← sh_reap_now;
                  after ← desktop_lifecycle_stats;
                  println (bs "vfs: " ++ pass_fail (bool_decide (exit = Some 0) && same_resources before after)
                    ++ bs " mount-table fat32-readonly normalized-paths per-process-cwd read-handles seek filesystem-elf exit-cleanup exit_code="
                    ++ sdec (default (-1) exit) ++ resources_text before after)
                end
            end
          end
        end
      end
    end
  end.

Definition run_vfs_process_to_exit (path : str) (expected : Z) : Cmd (result bool) :=
  r ← spawn_from_vfs path root_dir;
  match r with
  | Err reason => mret (Err reason)
  | Ok id => _ ← wait_for_terminated id; exit ← exit_code_of id; mret (Ok (bool_decide (exit = Some expected)))
  end.

(** [run_vfs_process_to_exit(..) == Ok(true) && ..], each only after the one before *)
Fixpoint all_exit (runs : list (str * Z)) : Cmd bool :=
  match runs with
  | [] => mret true
  | (path, expected) :: runs =>
      r ← run_vfs_process_to_exit path expected;
      if bool_decide (r = Ok true) then all_exit runs else mret false
  end.

Definition handle_ai_preview_test : Cmd unit :=
  good ← install_app (bs "tuwaiq-ai");
  match good with Err reason => print_fs_error reason | Ok good =>
    fault ← install_app (bs "tuwaiq-ai-fault");
    match fault with Err reason => print_fs_error reason | Ok fault =>
      let runs := [(good, 0); (fault, 132); (good, 0)] in
      warm ← all_exit runs;
      if negb warm then println (bs "ai-preview: FAIL warmup")
      else
        _ ← sh_reap_now;
        before ← desktop_lifecycle_stats;
        behavior_ok ← all_exit runs;
        _ ← sh_reap_now;
        after ← desktop_lifecycle_stats;
        println (bs "ai-preview: " ++ pass_fail (behavior_ok && same_resources before after)
          ++ bs " ring3 lifecycle crash-isolation relaunch resources" ++ resources_text before after)
    end
  end.

(** ** mmap diagnostics *)

(** [task::inject_next_mmap_failure_after] and [clear_mmap_failure_injection] *)
Definition set_fail_after (n : Z) : Cmd unit := λ s,
  Done tt (with_world (with_sys (with_fail_after n (sys (world s))) (world s)) s).
Definition inject_next_mmap_failure_after (n : Z) : Cmd unit := set_fail_after n.
Definition clear_mmap_failure_injection : Cmd unit := set_fail_after u64_max.

Definition handle_mmap_exhaustion_test : Cmd unit :=
  match embedded_program (PT := PT) (D := D) (bs "mmap_exhaustion") with
  | None => println (bs "mmap_exhaustion: embedded program missing")
  | Some bytes =>
      _ ← println (bs "Running mmap exhaustion, rollback, and frame-reuse test...");
      _ ← sh_reap_now;
      before ← frame_reuse_stats;
      r ← sh_spawn (bs "mmap_exhaustion") bytes root_dir;
      match r with
      | Err reason => print_load_error reason
      | Ok id =>
          _ ← wait_for_terminated id;
          exit ← exit_code_of id;
          _ ← sh_reap_now;
          after ← frame_reuse_stats;
          _ ← println (bs "mmap exhaustion cleanup: " ++ pass_fail (bool_decide (exit = Some 0) && (reuse_live before =? reuse_live after))
                ++ bs " exit_code=" ++ sdec (default (-1) exit) ++ bs " "
                ++ pair (bs "live") (reuse_live before) (reuse_live after) ++ bs " "
                ++ pair (bs "bump") (reuse_bump before) (reuse_bump after) ++ bs " "
                ++ pair (bs "free") (reuse_free before) (reuse_free after));
          report ← sh_ask (λ s, vm_batch_report (world s));
          println report
      end
  end.

Definition handle_mmap_partial_failure_test : Cmd unit :=
  match embedded_program (PT := PT) (D := D) (bs "mmap_partial_failure") with
  | None => println (bs "mmap_partial_failure: embedded program missing")
  | Some bytes =>
      _ ← sh_reap_now;
      before ← frame_reuse_stats;
      _ ← inject_next_mmap_failure_after 4;
      r ← sh_spawn (bs "mmap_partial_failure") bytes root_dir;
      match r with
      | Err reason => _ ← clear_mmap_failure_injection; print_load_error reason
      | Ok id =>
          _ ← wait_for_terminated id;
          _ ← clear_mmap_failure_injection;
          exit ← exit_code_of id;
          _ ← sh_reap_now;
          after ← frame_reuse_stats;
          println (bs "mmap partial rollback: " ++ pass_fail (bool_decide (exit = Some 0) && (reuse_live before =? reuse_live after))
            ++ bs " exit_code=" ++ sdec (default (-1) exit) ++ bs " "
            ++ pair (bs "live") (reuse_live before) (reuse_live after) ++ bs " "
            ++ pair (bs "bump") (reuse_bump before) (reuse_bump after))
      end
  end.

(** ** Process isolation and reclamation *)

Definition print_evidence (id pml4 frames : Z) : Cmd unit :=
  _ ← print (bs "  pid ");
  _ ← print_u64 (as_u64 id);
  _ ← print (bs " PML4=");
  _ ← print_hex (as_u64 pml4);
  print_number (bs " frames=") (as_u64 frames) [].

Definition handle_isolate (args : str) : Cmd unit :=
  let name_b := if bool_decide (trim args = []) then bs "hello" else trim args in
  match embedded_program (PT := PT) (D := D) (bs "hello"), embedded_program (PT := PT) (D := D) name_b with
  | Some bytes_a, Some bytes_b =>
      a ← sh_spawn (bs "hello-a") bytes_a root_dir;
      match a with
      | Err _ => _ ← print (bs "Process load error spawning hello-a"); println []
      | Ok id_a =>
          pml4_a ← ask_kernel (λ k, default 0 (process_pml4_phys id_a k));
          frames_a ← ask_kernel (λ k, default 0 (process_frame_count id_a k));
          b ← sh_spawn name_b bytes_b root_dir;
          match b with
          | Err _ => _ ← print (bs "Process load error spawning "); println name_b
          | Ok id_b =>
              pml4_b ← ask_kernel (λ k, default 0 (process_pml4_phys id_b k));
              frames_b ← ask_kernel (λ k, default 0 (process_frame_count id_b k));
              _ ← print (bs "Spawned pid ");
              _ ← print_u64 (as_u64 id_a);
              _ ← print (bs " (hello-a) and pid ");
              _ ← print_u64 (as_u64 id_b);
              _ ← print (bs " (");
              _ ← print name_b;
              _ ← println (bs "), running concurrently under preemption.");
              _ ← print_evidence id_a pml4_a frames_a;
              _ ← print_evidence id_b pml4_b frames_b;
              _ ← (if negb (pml4_a =? 0) && (pml4_a =? pml4_b) then
                     println (bs "  WARNING: both processes report the SAME PML4 -- address spaces are NOT isolated!")
                   else if negb (pml4_a =? 0) && negb (pml4_b =? 0) then
                     println (bs "  Confirmed: distinct PML4 physical addresses -- genuinely separate page tables.")
                   else mret tt);
              _ ← wait_for_terminated id_a;
              _ ← wait_for_terminated id_b;
              _ ← println (bs "Both finished:");
              _ ← print_process_result id_a;
              print_process_result id_b
          end
      end
  | _, _ => println (bs "Usage: isolate [bad_syscall|bad_pointer|bad_privileged|bad_kernel|bad_unmapped|bad_ud2|bad_divzero]")
  end.

Definition MALFORMED_ELF : list byte := [z2b 0x7f; z2b 69; z2b 76; z2b 70].

(** The loop of [spawnfail]: how many spawns failed, and how many did not. *)
Fixpoint failing_spawns (count : nat) (failures unexpected_ok : Z) : Cmd (Z * Z) :=
  match count with
  | O => mret (failures, unexpected_ok)
  | S count =>
      r ← sh_spawn (bs "bad-elf") MALFORMED_ELF root_dir;
      match r with
      | Err _ => failing_spawns count (failures + 1) unexpected_ok
      | Ok id => _ ← sh_kill id; failing_spawns count failures (unexpected_ok + 1)
      end
  end.

Definition handle_spawnfail (args : str) : Cmd unit :=
  match parse_count 1 u32_max args with
  | None => println (bs "Usage: spawnfail <count>")
  | Some count =>
      _ ← sh_spawn (bs "bad-elf-warmup") MALFORMED_ELF root_dir;
      before ← sh_frame_stats;
      match before with
      | None => println (bs "Frame stats unavailable (paging not active)")
      | Some before =>
          _ ← print_number (bs "Frame bump cursor before: ") (as_u64 (stat_bumped before)) [];
          '(failures, unexpected_ok) ← failing_spawns (Z.to_nat count) 0 0;
          after ← sh_frame_stats;
          match after with
          | None => println (bs "Frame stats unavailable after the loop (paging not active)")
          | Some after =>
              _ ← print (bs "Frame bump cursor after ");
              _ ← print_u64 (as_u64 count);
              _ ← print_number (bs " failed spawns: ") (as_u64 (stat_bumped after)) [];
              _ ← print (bs "  failed as expected: ");
              _ ← print_u64 (as_u64 failures);
              _ ← print_number (bs ", unexpectedly loaded: ") (as_u64 unexpected_ok) [];
              if stat_bumped after =? stat_bumped before then
                println (bs "  Confirmed: bump cursor unchanged -- every failed spawn's frames were reclaimed and reused, no leak.")
              else
                print_number (bs "  WARNING: bump cursor advanced by ") (as_u64 (stat_bumped after - stat_bumped before))
                  (bs " fresh frames -- possible leak.")
          end
      end
  end.

(** [count] spawns of [bytes], each waited for; the reason of one that failed. *)
Fixpoint spawn_and_wait (prefix : str) (bytes : list byte) (i : Z) (count : nat) : Cmd (result unit) :=
  match count with
  | O => mret (Ok tt)
  | S count =>
      r ← sh_spawn (prefix ++ dec i) bytes root_dir;
      match r with
      | Ok id => _ ← wait_for_terminated id; spawn_and_wait prefix bytes (i + 1) count
      | Err reason => mret (Err reason)
      end
  end.

Definition handle_reap (args : str) : Cmd unit :=
  match parse_count 1 u32_max args with
  | None => println (bs "Usage: reap <count>")
  | Some count =>
      match embedded_program (PT := PT) (D := D) (bs "hello") with
      | None => println (bs "embedded 'hello' program missing")
      | Some bytes =>
          r ← sh_spawn (bs "reap-warmup") bytes root_dir;
          _ ← match r with Ok id => wait_for_terminated id | Err _ => mret tt end;
          _ ← sh_reap_now;
          tasks_before ← ask_kernel task_count;
          frames_before ← frames_bumped_now;
          r ← spawn_and_wait (bs "reap-") bytes 0 (Z.to_nat count);
          match r with
          | Err reason => print_load_error reason
          | Ok _ =>
              tasks_pre_reap ← ask_kernel task_count;
              _ ← sh_reap_now;
              tasks_after ← ask_kernel task_count;
              frames_after ← frames_bumped_now;
              _ ← print_number (bs "Live tasks before: ") (as_u64 tasks_before) [];
              _ ← print (bs "Live tasks after ");
              _ ← print_u64 (as_u64 count);
              _ ← print_number (bs " spawn/exit cycles (pre-reap, grace period still held): ") (as_u64 tasks_pre_reap) [];
              _ ← print_number (bs "Live tasks after forced reap: ") (as_u64 tasks_after) [];
              _ ← print_number (bs "Frame bump cursor before: ") (as_u64 frames_before) [];
              _ ← print_number (bs "Frame bump cursor after: ") (as_u64 frames_after) [];
              _ ← println (if tasks_after =? tasks_before
                           then bs "  Confirmed: task count returned to baseline -- no leaked TCBs."
                           else bs "  WARNING: task count did not return to baseline -- possible TCB leak.");
              if frames_after =? frames_before then
                println (bs "  Confirmed: frame bump cursor unchanged -- address spaces fully reclaimed and reused.")
              else
                print_number (bs "  WARNING: frame bump cursor advanced by ") (as_u64 (saturating_sub frames_after frames_before))
                  (bs " fresh frames -- possible leak.")
          end
      end
  end.

Definition handle_automatic_reap (args : str) : Cmd unit :=
  match parse_count 1 100 args with
  | None => println (bs "Usage: autoreap <1-100>")
  | Some count =>
      match embedded_program (PT := PT) (D := D) (bs "hello") with
      | None => println (bs "autoreap: embedded hello missing")
      | Some bytes =>
          _ ← sh_reap_now;
          before ← desktop_lifecycle_stats;
          r ← spawn_and_wait (bs "autoreap-") bytes 0 (Z.to_nat count);
          match r with
          | Err _ => println (bs "automatic reap: FAIL spawn error")
          | Ok _ =>
              held ← ask_kernel task_count;
              _ ← wait_ticks 510;
              _ ← sh_yield;
              after ← desktop_lifecycle_stats;
              let passed := (saturating_add_u u64_max (st_tasks before) count <=? held) && same_live before after in
              println (bs "automatic reap: " ++ pass_fail passed ++ bs " count=" ++ dec count
                ++ bs " tasks_before=" ++ dec (st_tasks before) ++ bs " held=" ++ dec held ++ bs " tasks_after=" ++ dec (st_tasks after)
                ++ bs " " ++ pair (bs "live_frames") (st_live_frames before) (st_live_frames after)
                ++ bs " " ++ pair (bs "heap_used") (st_heap_used before) (st_heap_used after))
          end
      end
  end.

(** [run_one] of [killreap] *)
Definition kill_one (bytes : list byte) : Cmd (result unit) :=
  r ← sh_spawn (bs "kill-reap") bytes root_dir;
  match r with
  | Err reason => mret (Err reason)
  | Ok id =>
      r ← sh_kill id;
      match r with
      | Err reason => mret (Err reason)
      | Ok _ => _ ← sh_reap_now; mret (Ok tt)
      end
  end.

Fixpoint kill_many (bytes : list byte) (count : nat) : Cmd (result unit) :=
  match count with
  | O => mret (Ok tt)
  | S count => r ← kill_one bytes; match r with Ok _ => kill_many bytes count | Err reason => mret (Err reason) end
  end.

Definition handle_kill_reap (args : str) : Cmd unit :=
  match parse_count 1 100 args with
  | None => println (bs "Usage: killreap <1-100>")
  | Some count =>
      match embedded_program (PT := PT) (D := D) (bs "hello") with
      | None => println (bs "killreap: embedded hello missing")
      | Some bytes =>
          _ ← sh_reap_now;
          r ← kill_one bytes;
          match r with Err _ => println (bs "kill reap: FAIL warmup") | Ok _ =>
            before ← desktop_lifecycle_stats;
            r ← kill_many bytes (Z.to_nat count);
            match r with Err _ => println (bs "kill reap: FAIL kill/reap operation") | Ok _ =>
              after ← desktop_lifecycle_stats;
              println (bs "kill reap: " ++ pass_fail (same_resources before after) ++ bs " count=" ++ dec count
                ++ bs " " ++ pair (bs "tasks") (st_tasks before) (st_tasks after)
                ++ bs " " ++ pair (bs "frame_bump") (st_frame_bump before) (st_frame_bump after)
                ++ bs " " ++ pair (bs "live_frames") (st_live_frames before) (st_live_frames after)
                ++ bs " " ++ pair (bs "heap_used") (st_heap_used before) (st_heap_used after))
            end
          end
      end
  end.
End tasks.
