(* ===== verification/ShellMouse.v ===== *)
(** The injected mouse of the shell's diagnostics (kernel/shell.rs): moving the
    cursor to a place by packets, and the moves and clicks of
    [desktopinteraction]. The loop ends, with the cursor where it was sent. *)

From S2P Require Import Prelude Str Wake Input.

(** [inject_mouse_to]: at most [fuel] packets towards the target. *)
Fixpoint mouse_to (fuel : nat) (x y buttons : Z) (i : io) : result unit * io :=
  match fuel with
  | O => (Err "mouse cursor did not converge on target", i)
  | S fuel =>
      let '(current_x, current_y) := cursor_position (mouse i) in
      let dx := clamp (-255) 255 (x - current_x) in
      let dy := clamp (-255) 255 (y - current_y) in
      if (dx =? 0) && (dy =? 0) then
        let '(r, i) := inject_screen_packet 1 0 buttons i in
        match r with Err e => (Err e, i) | Ok _ => inject_screen_packet (-1) 0 buttons i end
      else
        let '(r, i) := inject_screen_packet dx dy buttons i in
        match r with Err e => (Err e, i) | Ok _ => mouse_to fuel x y buttons i end
  end.

Definition inject_mouse_to : Z → Z → Z → io → result unit * io := mouse_to 16.

(** The moves and clicks of [desktopinteraction]. *)
Inductive MouseAct := MoveTo (x y buttons : Z) | Press (buttons : Z).

Definition mouse_act (a : MouseAct) : io → result unit * io :=
  match a with
  | MoveTo x y buttons => inject_mouse_to x y buttons
  | Press buttons => inject_screen_packet 0 0 buttons
  end.

Fixpoint mouse_acts (acts : list MouseAct) (i : io) : result unit * io :=
  match acts with
  | [] => (Ok tt, i)
  | a :: acts => let '(r, i) := mouse_act a i in match r with Ok _ => mouse_acts acts i | Err e => (Err e, i) end
  end.

Definition interaction_acts : list MouseAct :=
  [MoveTo 150 100 0; Press 1; MoveTo 210 140 1; Press 0; MoveTo 510 140 0; Press 1; Press 0; MoveTo 50 10 0; Press 1; Press 0;
   Press 1; Press 0; MoveTo 190 200 0; Press 1; Press 0].

(** ** Arrival *)

Lemma mouse_cursor_ok s mx my : mouse_ok s → screen_max s = (mx, my) →
  0 <= ms_x (cursor (mouse s)) <= Z.max mx 0 ∧ 0 <= ms_y (cursor (mouse s)) <= Z.max my 0.
Proof. unfold mouse_ok, on_axis. intros Hok Hm. rewrite Hm in Hok. tauto. Qed.

Lemma screen_max_display s s' : display s' = display s → screen_max s' = screen_max s.
Proof. unfold screen_max. by intros ->. Qed.

Section arrival.
Context (mx my x y buttons : Z).
Context (Hx : 0 <= x < mx) (Hy : 0 <= y <= my) (Hb : 0 <= buttons < 8).

(** Between packets, on the screen. *)
Definition ready_at (i : io) (px py : Z) : Prop :=
  mouse_ok i ∧ index (decoder (mouse i)) = 0%nat ∧ screen_max i = (mx, my) ∧
  ms_x (cursor (mouse i)) = px ∧ ms_y (cursor (mouse i)) = py.

(** Arrived, having changed nothing but the mouse and what it queued. *)
Definition arrives (m : io → result unit * io) (i : io) : Prop :=
  ∃ i', m i = (Ok tt, i') ∧ mouse_ok i' ∧ cursor (mouse i') = mk_mouse_state x y buttons ∧
    index (decoder (mouse i')) = 0%nat ∧ keyboard i' = keyboard i ∧ display i' = display i.

Lemma packet_moves i px py dx dy : ready_at i px py → -255 <= dx <= 255 → -255 <= dy <= 255 →
  0 <= px + dx <= mx → 0 <= py + dy <= my →
  ∃ i', inject_screen_packet dx dy buttons i = (Ok tt, i') ∧ ready_at i' (px + dx) (py + dy) ∧
    ms_buttons (cursor (mouse i')) = buttons ∧ keyboard i' = keyboard i ∧ display i' = display i.
Proof.
  intros (Hok&Hi&Hm&<-&<-) Hdx Hdy Hpx Hpy.
  destruct (inject_packet_spec i dx dy buttons Hok) as (i'&E&Hok'&Hc&Hi'&Hk&Hd&_); [lia|done|done|done|].
  exists i'. split; [done|]. unfold moved_cursor in Hc. rewrite Hm in Hc. rewrite Hc. split_and!; [|done..].
  unfold ready_at. rewrite (screen_max_display i i' Hd), Hc. cbn [ms_x ms_y]. unfold clamp. split_and!; [done..|lia|lia].
Qed.

Lemma arrives_bind i i1 m : keyboard i1 = keyboard i → display i1 = display i →
  arrives m i1 → ∃ i', m i1 = (Ok tt, i') ∧ mouse_ok i' ∧ cursor (mouse i') = mk_mouse_state x y buttons ∧
    index (decoder (mouse i')) = 0%nat ∧ keyboard i' = keyboard i ∧ display i' = display i.
Proof. intros Ek Ed (i'&E&?&?&?&Hk&Hd). exists i'. rewrite Hk, Hd. by split_and!. Qed.

(** At the place: the pair of packets away and back. *)
Lemma settles fuel i : ready_at i x y → arrives (mouse_to (S fuel) x y buttons) i.
Proof.
  intros Hi. pose proof Hi as (_&_&_&Ex&Ey). unfold arrives. cbn [mouse_to]. unfold cursor_position. rewrite Ex, Ey, !Z.sub_diag.
  change (clamp (-255) 255 0) with 0. cbn [Z.eqb andb].
  destruct (packet_moves i x y 1 0 Hi) as (i1&E1&Hi1&_&Hk1&Hd1); [lia..|]. rewrite E1.
  destruct (packet_moves i1 (x + 1) (y + 0) (-1) 0 Hi1) as (i2&E2&(Hok2&Hidx2&_&Ex2&Ey2)&Hb2&Hk2&Hd2); [lia..|]. rewrite E2.
  exists i2. rewrite Hk2, Hd2. split_and!; [done..| |done|done|done].
  destruct (cursor (mouse i2)) as [x2 y2 b2]. cbn [ms_x ms_y ms_buttons] in *. f_equal; lia.
Qed.

(** A place at most [k] packets away takes at most [k] rounds more than one. *)
Lemma mouse_to_arrives k fuel i px py : ready_at i px py →
  Z.abs (x - px) <= 255 * Z.of_nat k → Z.abs (y - py) <= 255 * Z.of_nat k → (k < fuel)%nat →
  arrives (mouse_to fuel x y buttons) i.
Proof.
  revert fuel i px py. induction k as [|k IH]; intros [|fuel] i px py Hi Hdx Hdy Hf; try lia.
  { replace px with x in Hi by lia. replace py with y in Hi by lia. by apply settles. }
  destruct (decide (px = x ∧ py = y)) as [[-> ->]|Hne]; [by apply settles|].
  pose proof Hi as (Hok&_&Hm&Ex&Ey). destruct (mouse_cursor_ok i mx my Hok Hm) as [Hcx Hcy]. rewrite Ex, Ey in *.
  unfold arrives. cbn [mouse_to]. unfold cursor_position. rewrite Ex, Ey.
  set (dx := clamp (-255) 255 (x - px)). set (dy := clamp (-255) 255 (y - py)).
  assert (-255 <= dx <= 255 ∧ -255 <= dy <= 255) as [Hdx' Hdy'] by (unfold dx, dy, clamp; lia).
  destruct ((dx =? 0) && (dy =? 0)) eqn:E; [unfold dx, dy, clamp in E; bool_hyps; lia|].
  destruct (packet_moves i px py dx dy Hi Hdx' Hdy') as (i1&E1&Hi1&_&Hk1&Hd1); [unfold dx, clamp; lia|unfold dy, clamp; lia|].
  rewrite E1. apply (arrives_bind i i1); [done..|]. eapply (IH fuel i1 _ _ Hi1); [unfold dx, clamp; lia|unfold dy, clamp; lia|lia].
Qed.
End arrival.

(** Sending the injected mouse somewhere ends, there. From a packet
    boundary, sixteen rounds of the loop of [inject_mouse_to] are enough for any
    place at most 15 * 255 pixels away on each axis, short of the right edge:
    the loop does not give up, the cursor ends exactly at the place with the
    buttons asked for, the decoder is between packets again, and the keyboard
    and the display are as before. *)
Theorem inject_mouse_to_arrives x y buttons i mx my :
  mouse_ok i → index (decoder (mouse i)) = 0%nat → screen_max i = (mx, my) →
  0 <= x < mx → 0 <= y <= my → 0 <= buttons < 8 →
  Z.abs (x - ms_x (cursor (mouse i))) <= 15 * 255 → Z.abs (y - ms_y (cursor (mouse i))) <= 15 * 255 →
  ∃ i', inject_mouse_to x y buttons i = (Ok tt, i') ∧ mouse_ok i' ∧ cursor (mouse i') = mk_mouse_state x y buttons ∧
    index (decoder (mouse i')) = 0%nat ∧ keyboard i' = keyboard i ∧ display i' = display i.
Proof.
  intros Hok Hi Hm Hx Hy Hb Hdx Hdy.
  apply (mouse_to_arrives mx my x y buttons Hx Hy Hb 15 16 i (ms_x (cursor (mouse i))) (ms_y (cursor (mouse i)))); [|lia..].
  by split_and!.
Qed.

Definition panel_io : io := mk_io (keyboard boot_io) (input boot_io) (mouse boot_io) (wake boot_io) 0 (Some (1280, 720)).

Lemma inject_mouse_to_arrives_witness :
  cursor_position (mouse panel_io) = (0, 0) ∧
  ∃ i', inject_mouse_to 510 140 1 panel_io = (Ok tt, i') ∧ mouse_ok i' ∧ cursor (mouse i') = mk_mouse_state 510 140 1 ∧
    index (decoder (mouse i')) = 0%nat ∧ keyboard i' = keyboard panel_io ∧ display i' = display panel_io.
Proof.
  split; [reflexivity|].
  apply (inject_mouse_to_arrives 510 140 1 panel_io 1279 719); try reflexivity; try (vm_compute; lia).
  - vm_compute. repeat split; (discriminate || lia).
  - lia.
  - lia.
  - lia.
  - vm_compute. discriminate.
  - vm_compute. discriminate.
Defined.

(** At the right edge the packet away is clamped and the packet back is not: the
    cursor ends one pixel short of the place. *)
Lemma right_edge_missed :
  (inject_mouse_to 1279 10 0 panel_io).1 = Ok tt ∧ cursor_position (mouse (inject_mouse_to 1279 10 0 panel_io).2) = (1278, 10).
Proof. split; vm_compute; reflexivity. Qed.
