(* ===== verification/ShellDesktop.v ===== *)
(** The shell's commands on foreground programs (kernel/shell.rs): handing the
    keyboard and the display to a process and taking them back, the desktop
    session, and the diagnostics built on them. *)

From S2P Require Import Prelude Str Device Tree TuwaiqTree TuwaiqFs Fs FsPersist Fat32 Vfs VfsData Input Window X86 Frames Paging Wake Scheduler OpenFiles Process Vm Display Syscall Interrupts Terminal Programs Notes ShellText ShellState ShellFiles ShellTasks ShellMouse.

Section desktop.
Context {PT D C : Type} `{X86Addr} `{!X86_64 PT} `{BlockDevice D} `{!TextConsole C} `{!ShellPlatform PT D}.
Implicit Types (s : ShellState PT D C).
Notation Cmd := (Cmd PT D C).

(** ** Foreground ownership *)

Definition acquire_desktop_foreground (id : Z) : Cmd unit := on_devices (λ i, (tt, set_foreground_process_id (Some id) i)).

(** The telemetry of the session that ends. *)
Definition release_desktop_foreground : Cmd InputTelemetry :=
  on_devices (λ i, (input_telemetry (input i), set_foreground_process_id None i)).

Definition sh_activate (id : Z) : Cmd bool := on_kernel (activate_task id).

Definition spawn_foreground_process (name : str) (bytes : list byte) : Cmd (result Z) :=
  r ← sh_spawn_suspended name bytes root_dir;
  match r with
  | Err reason => mret (Err reason)
  | Ok id =>
      _ ← acquire_desktop_foreground id;
      activated ← sh_activate id;
      if negb activated then
        _ ← release_desktop_foreground;
        _ ← sh_kill id;
        _ ← sh_reap_now;
        mret (Err "foreground activation failed")
      else mret (Ok id)
  end.

(** [input::push_key_event] *)
Definition push_key (event : KeyEvent) : Cmd unit := on_devices (λ i, (tt, push_key_event event i)).

(** ** The desktop session *)

(** The file of a packaged program. *)
Definition read_packaged (path : str) : M (vfs_state D) (list byte) :=
  bytes ← read_file root_dir path;
  _ ← mensure (negb (bool_decide (bytes = []) || (MAX_EXECUTABLE_SIZE <? zlen bytes))) "invalid packaged executable size";
  mret bytes.

Definition run_packaged_foreground (path : str) : Cmd (result (Z * option Z)) :=
  r ← on_vfs (read_packaged path);
  match r with
  | Err reason => mret (Err reason)
  | Ok bytes =>
      r ← spawn_foreground_process (basename path) bytes;
      match r with
      | Err reason => mret (Err reason)
      | Ok id =>
          _ ← wait_for_terminated id;
          exit ← exit_code_of id;
          _ ← release_desktop_foreground;
          mret (Ok (id, exit))
      end
  end.

(** The programs of a session. *)
Inductive Packaged := PDesktop | PFileManager | PTerminal.

Definition packaged_path (p : Packaged) : str :=
  match p with PDesktop => bs "/apps/desktop" | PFileManager => bs "/apps/file-manager" | PTerminal => bs "/apps/terminal" end.

Inductive SessionStep := Next (p : Packaged) | SessionEnds | SessionFails.

(** [match (next, exit) { .. }] *)
Definition session_step (p : Packaged) (exit : option Z) : SessionStep :=
  match p, exit with
  | PDesktop, Some 10 => Next PFileManager
  | PDesktop, Some 11 => Next PTerminal
  | (PFileManager | PTerminal), Some 0 => Next PDesktop
  | PDesktop, Some 0 => SessionEnds
  | _, _ => SessionFails
  end.

(** The loop of [handle_desktop]. Every program that ends has used a turn. *)
Fixpoint session (fuel : nat) (next : Packaged) : Cmd unit :=
  r ← run_packaged_foreground (packaged_path next);
  match r with
  | Err reason => print_error (bs "Filesystem application load error: ") reason
  | Ok (id, exit) =>
      _ ← clear_screen;
      _ ← print (bs "Filesystem application exited: ");
      _ ← print_process_result id;
      _ ← sh_reap_now;
      match session_step next exit with
      | Next p => match fuel with O => sh_wait | S fuel => session fuel p end
      | SessionEnds => mret tt
      | SessionFails => println (bs "Desktop session stopped after application failure.")
      end
  end.

Definition handle_desktop : Cmd unit := λ s, (_ ← sh_reap_now; session (length (turns s)) PDesktop) s.

(** ** Sessions of an embedded desktop *)

Definition DIAGNOSTIC_TICKS : Z := 500.

(** [wait_for_desktop_present] *)
Definition wait_for_desktop_present (id before timeout_ticks : Z) : Cmd bool :=
  started ← sh_ticks;
  yield_until (λ s,
    if before <? presents (world s) then Some true
    else
      match info id (kernel_of s) with
      | Err _ => Some false
      | Ok t =>
          if bool_decide (task_state t = Terminated) then Some false
          else if timeout_ticks <=? saturating_sub (as_u64 (Scheduler.ticks (kernel_of s))) started then Some false
          else None
      end).

(** How the wait for the exit ended. *)
Inductive ExitWait := Exited | Vanished | TimedOut.

Definition wait_for_exit (id timeout_ticks : Z) : Cmd ExitWait :=
  started ← sh_ticks;
  yield_until (λ s,
    match info id (kernel_of s) with
    | Err _ => Some Vanished
    | Ok t =>
        if bool_decide (task_state t = Terminated) then Some Exited
        else if timeout_ticks <=? saturating_sub (as_u64 (Scheduler.ticks (kernel_of s))) started then Some TimedOut
        else None
    end).

Definition run_one_desktop_cycle (bytes : list byte) : Cmd (result unit) :=
  presents_before ← sh_ask (λ s, presents (world s));
  r ← spawn_foreground_process (bs "desktop-cycle") bytes;
  match r with
  | Err reason => mret (Err reason)
  | Ok id =>
      shown ← wait_for_desktop_present id presents_before DIAGNOSTIC_TICKS;
      if negb shown then
        _ ← sh_kill id;
        _ ← release_desktop_foreground;
        mret (Err "desktop first present timed out")
      else
        _ ← push_key Escape;
        how ← wait_for_exit id DIAGNOSTIC_TICKS;
        _ ← match how with TimedOut => _ ← sh_kill id; mret tt | _ => mret tt end;
        _ ← release_desktop_foreground;
        match how with
        | Exited =>
            r ← sh_info id;
            mret match r with
                 | Ok t => if bool_decide (task_exit_code t = Some 0) then Ok tt else Err "desktop did not exit with code 0"
                 | Err _ => Err "desktop TCB disappeared before verification"
                 end
        | _ => mret (Err "desktop exit timed out")
        end
  end.

(** The measured cycles; the number and reason of one that failed. *)
Fixpoint desktop_cycles (bytes : list byte) (cycle : Z) (count : nat) : Cmd (option (Z * string)) :=
  match count with
  | O => mret None
  | S count =>
      r ← run_one_desktop_cycle bytes;
      match r with
      | Err reason => mret (Some (cycle, reason))
      | Ok _ => _ ← sh_reap_now; desktop_cycles bytes (cycle + 1) count
      end
  end.

Definition print_change (name : str) (before after : Z) : Cmd unit :=
  println (bs "desktop lifecycle: " ++ name ++ bs " before=" ++ dec before ++ bs " after=" ++ dec after).

Definition handle_desktop_cycle (args : str) : Cmd unit :=
  match parse_count 1 100 args with
  | None => println (bs "Usage: desktopcycle <1-100>")
  | Some cycles =>
      match embedded_program (PT := PT) (D := D) (bs "desktop") with
      | None => println (bs "desktopcycle: embedded desktop missing")
      | Some bytes =>
          _ ← sh_reap_now;
          r ← run_one_desktop_cycle bytes;
          match r with
          | Err reason =>
              _ ← clear_screen;
              _ ← println (bs "desktop lifecycle: FAIL warmup reason=" ++ reason_text reason);
              sh_reap_now
          | Ok _ =>
              _ ← sh_reap_now;
              before ← desktop_lifecycle_stats;
              failed ← desktop_cycles bytes 1 (Z.to_nat cycles);
              match failed with
              | Some (cycle, reason) =>
                  _ ← clear_screen;
                  _ ← println (bs "desktop lifecycle: FAIL cycle=" ++ dec cycle ++ bs " reason=" ++ reason_text reason);
                  sh_reap_now
              | None =>
                  after ← desktop_lifecycle_stats;
                  _ ← clear_screen;
                  _ ← println (bs "desktop lifecycle: " ++ pass_fail (same_resources before after) ++ bs " cycles=" ++ dec cycles);
                  _ ← print_change (bs "tasks") (st_tasks before) (st_tasks after);
                  _ ← print_change (bs "live_frames") (st_live_frames before) (st_live_frames after);
                  _ ← print_change (bs "frame_bump") (st_frame_bump before) (st_frame_bump after);
                  print_change (bs "heap_used") (st_heap_used before) (st_heap_used after)
              end
          end
      end
  end.

Definition live_text (before after : DesktopLifecycleStats) : str :=
  bs " " ++ pair (bs "tasks") (st_tasks before) (st_tasks after)
  ++ bs " " ++ pair (bs "live_frames") (st_live_frames before) (st_live_frames after)
  ++ bs " " ++ pair (bs "heap_used") (st_heap_used before) (st_heap_used after).

(** [input::clear], [reset_telemetry], [reset_decoder_for_diagnostics], then the
    sequence, in one critical section. *)
Definition interaction (acts : list MouseAct) (i : io) : result unit * io :=
  mouse_acts acts (reset_decoder_for_diagnostics (with_input (λ q, reset_telemetry (clear_queue q)) i)).

Definition handle_desktop_interaction_test : Cmd unit :=
  match embedded_program (PT := PT) (D := D) (bs "desktop") with
  | None => println (bs "desktopinteraction: embedded desktop missing")
  | Some bytes =>
      _ ← sh_reap_now;
      r ← run_one_desktop_cycle bytes;
      match r with
      | Err _ => _ ← println (bs "desktop interaction: FAIL warmup lifecycle"); sh_reap_now
      | Ok _ =>
          _ ← sh_reap_now;
          before ← desktop_lifecycle_stats;
          presents_before ← sh_ask (λ s, presents (world s));
          r ← spawn_foreground_process (bs "desktop-interaction") bytes;
          match r with
          | Err _ => println (bs "desktop interaction: FAIL spawn")
          | Ok id =>
              shown ← wait_for_desktop_present id presents_before DIAGNOSTIC_TICKS;
              if negb shown then
                _ ← sh_kill id;
                _ ← release_desktop_foreground;
                println (bs "desktop interaction: FAIL first present timeout")
              else
                interacted ← on_devices (interaction interaction_acts);
                _ ← push_key Escape;
                _ ← wait_for_terminated id;
                exit ← exit_code_of id;
                telemetry ← release_desktop_foreground;
                _ ← sh_reap_now;
                after ← desktop_lifecycle_stats;
                _ ← clear_screen;
                println (bs "desktop interaction: "
                  ++ pass_fail (is_ok interacted && bool_decide (exit = Some 0) && (tel_dropped telemetry =? 0) && same_live before after)
                  ++ bs " exit=" ++ debug_option exit ++ live_text before after)
          end
      end
  end.

Definition handle_desktop_kill_test : Cmd unit :=
  match embedded_program (PT := PT) (D := D) (bs "desktop") with
  | None => println (bs "desktopkilltest: embedded desktop missing")
  | Some bytes =>
      _ ← sh_reap_now;
      before ← desktop_lifecycle_stats;
      r ← spawn_foreground_process (bs "desktop-kill-test") bytes;
      match r with
      | Err _ => println (bs "desktop kill: FAIL spawn")
      | Ok id =>
          _ ← wait_ticks 2;
          killed ← sh_kill id;
          _ ← release_desktop_foreground;
          _ ← sh_reap_now;
          after ← desktop_lifecycle_stats;
          owner ← on_devices (λ i, (foreground_process_id (keyboard i), i));
          _ ← clear_screen;
          println (bs "desktop kill: " ++ pass_fail (is_ok killed && bool_decide (owner = None) && same_live before after)
            ++ live_text before after)
      end
  end.

Definition handle_desktop_peer : Cmd unit :=
  match embedded_program (PT := PT) (D := D) (bs "desktop"), embedded_program (PT := PT) (D := D) (bs "desktop_peer") with
  | Some desktop_bytes, Some peer_bytes =>
      _ ← sh_reap_now;
      r ← spawn_foreground_process (bs "desktop") desktop_bytes;
      match r with
      | Err reason => print_error (bs "Desktop load error: ") reason
      | Ok desktop_id =>
          r ← sh_spawn (bs "desktop_peer") peer_bytes root_dir;
          match r with
          | Err reason =>
              _ ← sh_kill desktop_id;
              _ ← release_desktop_foreground;
              _ ← sh_reap_now;
              print_error (bs "Desktop peer load error: ") reason
          | Ok peer_id =>
              _ ← print (bs "Launching desktop pid ");
              _ ← print_u64 (as_u64 desktop_id);
              _ ← print (bs " with Ring 3 peer pid ");
              _ ← print_u64 (as_u64 peer_id);
              _ ← println (bs " (press Esc to exit desktop)...");
              _ ← wait_for_terminated desktop_id;
              _ ← release_desktop_foreground;
              _ ← clear_screen;
              _ ← print (bs "Desktop exited: ");
              _ ← print_process_result desktop_id;
              _ ← wait_for_terminated peer_id;
              _ ← print (bs "Concurrent peer exited: ");
              _ ← print_process_result peer_id;
              sh_reap_now
          end
      end
  | _, _ => println (bs "desktoppeer: embedded program missing")
  end.

Definition handle_desktop_fault_peer : Cmd unit :=
  match embedded_program (PT := PT) (D := D) (bs "desktop"), embedded_program (PT := PT) (D := D) (bs "bad_ud2") with
  | Some desktop_bytes, Some fault_bytes =>
      _ ← sh_reap_now;
      r ← spawn_foreground_process (bs "desktop") desktop_bytes;
      match r with
      | Err _ => println (bs "desktop fault peer: FAIL desktop spawn")
      | Ok desktop_id =>
          r ← sh_spawn (bs "desktop-fault-peer") fault_bytes root_dir;
          match r with
          | Err _ =>
              _ ← sh_kill desktop_id;
              _ ← release_desktop_foreground;
              _ ← sh_reap_now;
              println (bs "desktop fault peer: FAIL hostile peer spawn")
          | Ok fault_id =>
              _ ← wait_for_terminated fault_id;
              peer_exit ← exit_code_of fault_id;
              r ← sh_info desktop_id;
              let desktop_survived := match r with Ok t => negb (bool_decide (task_state t = Terminated)) | Err _ => false end in
              _ ← push_key Escape;
              _ ← wait_for_terminated desktop_id;
              desktop_exit ← exit_code_of desktop_id;
              _ ← release_desktop_foreground;
              _ ← clear_screen;
              _ ← println (bs "desktop fault peer: "
                    ++ pass_fail (bool_decide (peer_exit = Some 132) && desktop_survived && bool_decide (desktop_exit = Some 0))
                    ++ bs " peer_exit=" ++ debug_option peer_exit ++ bs " desktop_survived=" ++ debug_bool desktop_survived
                    ++ bs " desktop_exit=" ++ debug_option desktop_exit);
              sh_reap_now
          end
      end
  | _, _ => println (bs "desktopfaultpeer: embedded program missing")
  end.

(** ** The AI service beside the desktop *)

Record DesktopAiCycle := mk_ai_cycle {
  click_ok : bool; service_exit : option Z; desktop_exit : option Z; ai_dropped : Z
}.

Definition service_exit_now s : option Z :=
  match list_tasks (kernel_of s) with
  | Ok ts => t ← List.find (λ t, bool_decide (task_name t = bs "tuwaiq-ai")) ts; task_exit_code t
  | Err _ => None
  end.

(** [while ticks() < deadline { .. }] *)
Definition wait_for_service (deadline : Z) : Cmd (option Z) :=
  yield_until (λ s,
    if as_u64 (Scheduler.ticks (kernel_of s)) <? deadline then Some <$> service_exit_now s else Some None).

Definition run_desktop_ai_cycle (desktop : list byte) (expose_evidence_window : bool) : Cmd (result DesktopAiCycle) :=
  presents_before ← sh_ask (λ s, presents (world s));
  r ← spawn_foreground_process (bs "desktop-ai-preview") desktop;
  match r with
  | Err reason => mret (Err reason)
  | Ok desktop_id =>
      shown ← wait_for_desktop_present desktop_id presents_before DIAGNOSTIC_TICKS;
      if negb shown then
        _ ← sh_kill desktop_id;
        _ ← release_desktop_foreground;
        _ ← sh_reap_now;
        mret (Err "desktop first present timed out")
      else
        click ← on_devices (mouse_acts [MoveTo 160 12 0; Press 1; Press 0]);
        now ← sh_ticks;
        service ← wait_for_service (saturating_add_u u64_max now DIAGNOSTIC_TICKS);
        _ ← (if expose_evidence_window then sh_sleep 200 else mret tt);
        _ ← push_key Escape;
        _ ← wait_for_terminated desktop_id;
        exit ← exit_code_of desktop_id;
        telemetry ← release_desktop_foreground;
        mret (Ok (mk_ai_cycle (is_ok click) service exit (tel_dropped telemetry)))
  end.

Definition handle_desktop_ai_test : Cmd unit :=
  r ← install_app (bs "tuwaiq-ai");
  match r with Err reason => print_fs_error reason | Ok _ =>
    match embedded_program (PT := PT) (D := D) (bs "desktop") with
    | None => println (bs "desktop AI preview: FAIL embedded desktop missing")
    | Some desktop =>
        r ← run_desktop_ai_cycle desktop false;
        match r with Err _ => println (bs "desktop AI preview: FAIL warmup") | Ok _ =>
          _ ← sh_reap_now;
          before ← desktop_lifecycle_stats;
          r ← run_desktop_ai_cycle desktop true;
          match r with Err _ => println (bs "desktop AI preview: FAIL measured cycle") | Ok cycle =>
            _ ← sh_reap_now;
            after ← desktop_lifecycle_stats;
            println (bs "desktop AI preview: "
              ++ pass_fail (click_ok cycle && bool_decide (service_exit cycle = Some 0) && bool_decide (desktop_exit cycle = Some 0)
                            && (ai_dropped cycle =? 0) && same_resources before after)
              ++ bs " click=" ++ debug_bool (click_ok cycle) ++ bs " service_exit=" ++ debug_option (service_exit cycle)
              ++ bs " desktop_exit=" ++ debug_option (desktop_exit cycle) ++ bs " dropped=" ++ dec (ai_dropped cycle)
              ++ resources_text before after)
          end
        end
    end
  end.

(** ** Foreground diagnostics of runelf *)

Definition handle_input_security_test : Cmd unit :=
  match embedded_program (PT := PT) (D := D) (bs "bad_input") with
  | None => println (bs "bad_input: embedded program missing")
  | Some bytes =>
      r ← sh_spawn (bs "bad_input") bytes root_dir;
      match r with
      | Err reason => print_load_error reason
      | Ok id =>
          _ ← acquire_desktop_foreground id;
          _ ← push_key (Char 90);
          _ ← print_number (bs "Spawned foreground input-security pid ") (as_u64 id) (bs ", waiting for deterministic checks...");
          _ ← wait_for_terminated id;
          _ ← release_desktop_foreground;
          print_process_result id
      end
  end.

Definition sh_checksum : Cmd (option Z) := sh_ask (λ s, framebuffer_checksum (screen (sys (world s)))).

Definition handle_display_atomicity_test : Cmd unit :=
  match embedded_program (PT := PT) (D := D) (bs "bad_display") with
  | None => println (bs "bad_display: embedded program missing")
  | Some bytes =>
      _ ← println (bs "Running bad_display with framebuffer atomicity checksum...");
      before ← sh_checksum;
      match before with
      | None => println (bs "display atomicity: FAIL framebuffer unavailable")
      | Some checksum_before =>
          r ← sh_spawn (bs "bad_display") bytes root_dir;
          match r with
          | Err _ => println (bs "display atomicity: FAIL process load error")
          | Ok id =>
              _ ← acquire_desktop_foreground id;
              _ ← wait_for_terminated id;
              _ ← release_desktop_foreground;
              after ← sh_checksum;
              match after with
              | Some checksum_after =>
                  _ ← println (bs "display atomicity: " ++ pass_fail (checksum_before =? checksum_after)
                        ++ bs " checksum_before=" ++ hex checksum_before ++ bs " checksum_after=" ++ hex checksum_after);
                  print_process_result id
              | None => _ ← println (bs "display atomicity: FAIL framebuffer disappeared"); print_process_result id
              end
          end
      end
  end.

Definition handle_runelf (args : str) : Cmd unit :=
  let name := trim args in
  if bool_decide (name = bs "desktop") then handle_desktop
  else if bool_decide (name = bs "bad_input") then handle_input_security_test
  else if bool_decide (name = bs "bad_display") then handle_display_atomicity_test
  else if bool_decide (name = bs "mmap_exhaustion") then handle_mmap_exhaustion_test
  else if bool_decide (name = bs "mmap_partial_failure") then handle_mmap_partial_failure_test
  else
    match embedded_program (PT := PT) (D := D) name with
    | None => println (bs "Usage: runelf <hello|bad_syscall|bad_pointer|bad_privileged|bad_kernel|bad_unmapped|bad_ud2|bad_divzero|bad_mmap|bad_munmap|bad_display|bad_input|mmap_ro_fault|mmap_nx_fault|post_unmap_fault|mmap_exhaustion|mmap_partial_failure|desktop|desktop_peer>")
    | Some bytes =>
        r ← sh_spawn name bytes root_dir;
        match r with
        | Ok id =>
            _ ← print (bs "Spawned pid ");
            _ ← print_u64 (as_u64 id);
            _ ← print (bs " (");
            _ ← print name;
            _ ← println (bs "), waiting for it to finish...");
            _ ← wait_for_terminated id;
            print_process_result id
        | Err reason => print_load_error reason
        end
    end.

(** ** Self-tests *)

Definition handle_desktop_test : Cmd unit :=
  match (window_self_test new_wm).1 with
  | Ok _ => println (bs "desktoptest: PASS drag close z-order slot-reuse")
  | Err reason => print_error (bs "desktoptest: FAIL ") reason
  end.

Definition handle_mouse_test : Cmd unit :=
  match mouse_self_test with
  | Ok _ => println (bs "mousetest: PASS resync signed-motion y-inversion clamp overflow button-edges")
  | Err reason => print_error (bs "mousetest: FAIL ") reason
  end.

(** What goes to the serial port is not modelled. *)
Definition print_input_telemetry : Cmd unit := println (bs "Input telemetry emitted to serial.").
End desktop.
