(* ===== verification/ShellMain.v ===== *)
(** The shell as a whole (kernel/shell.rs): the table of commands,
    [execute_command], and the loop of [run], which reads keys with the line
    editor of ShellEdit.v and executes what was entered. *)

From S2P Require Import Prelude Str Device Tree TuwaiqTree TuwaiqFs Fs FsPersist Fat32 Vfs VfsData Input Window X86 Frames Paging Wake Scheduler OpenFiles Process Vm Display Syscall Interrupts Terminal Programs Notes ShellText ShellEdit ShellState ShellFiles ShellTasks ShellMouse ShellDesktop.

Definition help_text : list str :=
  [bs "Commands:"; bs "  help | about | version | banner | sysinfo | monitor"; bs "  uptime | reboot | clear | cls | echo <text>";
   bs "  meminfo | memtest"; bs "  ls [path] | pwd | cd <path> | mounts | touch | mkdir | cat | write";
   bs "  ps | taskinfo | kill | yield | net status | ping"; bs "  run <program> | notes | editor";
   bs "  runelf <hello|bad_syscall|bad_pointer|bad_privileged|bad_kernel|bad_unmapped|bad_ud2|";
   bs "         bad_divzero|bad_mmap|bad_munmap|bad_display|bad_input|mmap_ro_fault|";
   bs "         mmap_nx_fault|post_unmap_fault|mmap_exhaustion|mmap_partial_failure|desktop|desktop_peer>";
   bs "  installapp <name> | runfs <path> | vfstest | storagetest"; bs "  fsinterrupttest | fsexhausttest";
   bs "  aipreviewtest | desktopaitest"; bs "  isolate [bad_program]"; bs "  spawnfail <count>"; bs "  reap <count>";
   bs "  autoreap <count> | killreap <count>";
   bs "  desktop | desktoppeer | desktopfaultpeer | desktopkilltest | desktopinteraction";
   bs "  desktopcycle <count> | desktoptest | mousetest | desktopstats | inputstats";
   bs "  ai | ai status | ask <question>"; []; bs "Tip: use Up/Down for history, Tab to complete."].

Definition banner_text : list str :=
  [bs "========================================"; bs "  TuwaiqOS v0.5"; bs "  AI-Native Experimental OS";
   bs "========================================"].

Section shell.
Context {PT D C : Type} `{X86Addr} `{!X86_64 PT} `{BlockDevice D} `{!TextConsole C} `{!ShellPlatform PT D}.
Notation Cmd := (Cmd PT D C).

Definition print_help : Cmd unit := print_lines help_text.
Definition print_banner : Cmd unit := print_lines banner_text.
Definition print_about : Cmd unit := print_lines [bs "TuwaiqOS"; bs "Experimental AI-Native Operating System written in Rust."].

Definition restart : Cmd unit := λ s, Rebooted s.

(** [reboot::system]: the volume is brought up to date first. *)
Definition reboot_system : Cmd unit := _ ← on_vfs Vfs.sync; restart.

(** The arms of the match in [execute_command]. *)
Definition command_table (line args : str) : list (str * Cmd unit) :=
  [(bs "help", print_help); (bs "about", print_about); (bs "version", println (bs "TuwaiqOS v0.5")); (bs "banner", print_banner);
   (bs "sysinfo", print_sysinfo); (bs "uptime", print_uptime); (bs "reboot", reboot_system);
   (bs "clear", clear_screen); (bs "cls", clear_screen); (bs "echo", println args);
   (bs "meminfo", print_meminfo); (bs "memtest", handle_memtest);
   (bs "pwd", handle_pwd); (bs "cd", handle_cd args); (bs "ls", handle_ls args); (bs "mounts", handle_mounts);
   (bs "touch", handle_touch args); (bs "mkdir", handle_mkdir args); (bs "cat", handle_cat args); (bs "write", handle_write args);
   (bs "ps", handle_ps); (bs "taskinfo", handle_taskinfo args); (bs "kill", handle_kill args); (bs "yield", handle_yield);
   (bs "net", handle_net_command args); (bs "ping", handle_ping args); (bs "run", handle_run args);
   (bs "notes", handle_notes args); (bs "editor", handle_editor args); (bs "monitor", handle_monitor);
   (bs "runelf", handle_runelf args); (bs "runfs", handle_runfs args); (bs "installapp", handle_install_app args);
   (bs "vfstest", handle_vfs_test); (bs "storagetest", handle_storage_test);
   (bs "fsinterrupttest", handle_fs_interrupted_write_test); (bs "fsexhausttest", handle_fs_exhaustion_test);
   (bs "aipreviewtest", handle_ai_preview_test); (bs "desktopaitest", handle_desktop_ai_test);
   (bs "isolate", handle_isolate args); (bs "spawnfail", handle_spawnfail args); (bs "reap", handle_reap args);
   (bs "autoreap", handle_automatic_reap args); (bs "killreap", handle_kill_reap args);
   (bs "desktop", handle_desktop); (bs "desktoppeer", handle_desktop_peer); (bs "desktopfaultpeer", handle_desktop_fault_peer);
   (bs "desktopkilltest", handle_desktop_kill_test); (bs "desktopinteraction", handle_desktop_interaction_test);
   (bs "desktopcycle", handle_desktop_cycle args); (bs "desktoptest", handle_desktop_test); (bs "mousetest", handle_mouse_test);
   (bs "desktopstats", mret tt); (bs "inputstats", print_input_telemetry);
   (bs "ai", handle_ai_command line args); (bs "ask", handle_ask_command args)].

Definition unknown_command (command : str) : Cmd unit := _ ← print (bs "Unknown command: "); println command.

Definition find_command (command : str) (table : list (str * Cmd unit)) : Cmd unit :=
  match List.find (λ entry, bool_decide (entry.1 = command)) table with
  | Some entry => entry.2
  | None => unknown_command command
  end.

Definition execute_command (line : str) : Cmd unit :=
  let line := trim line in
  if bool_decide (line = []) then mret tt
  else let '(command, args) := split_command line in find_command command (command_table line args).

(** ** The loop *)

Record Session := mk_session { shell : ShellState PT D C; input_line : list byte; input_len : nat; past : History }.

Definition editor_of (s : Session) : Editor C D :=
  mk_editor (con (shell s)) (vfs (sys (world (shell s)))) (input_line s) (input_len s) (past s).

(** The session after the editor worked on it. *)
Definition edited (e : Editor C D) (s : Session) : Session :=
  let sh := shell s in let w := world sh in
  mk_session (with_console (ShellEdit.con e) (with_world (with_sys (with_vfs (evfs e) (sys w)) w) sh))
    (ShellEdit.line e) (len e) (ShellEdit.history e).

Definition on_editor {A} (o : option (Editor C D * A)) (s : Session) : Run Session A :=
  match o with Some (e, a) => Done a (edited e s) | None => Panicked end.

Definition on_shell {A} (m : Cmd A) : Sh Session A := λ s,
  let put sh := mk_session sh (input_line s) (input_len s) (past s) in
  match m (shell s) with
  | Done a sh => Done a (put sh)
  | Waiting sh => Waiting (put sh)
  | Rebooted sh => Rebooted (put sh)
  | Panicked => Panicked
  end.

(** [poll_key()] *)
Definition sh_poll_key : Cmd KeyEvent := on_devices (λ i, let '(k, kb) := poll_key (keyboard i) in (k, with_keyboard (λ _, kb) i)).

Definition press (event : KeyEvent) : Sh Session (option str) := λ s, on_editor (key event (editor_of s)) s.
Definition start_line : Sh Session unit := λ s, on_editor (e ← next_line (editor_of s); Some (e, tt)) s.

(** One round of the inner loop of [run]: with no key queued the processor halts
    until an interrupt; a completed line is executed and the next one started. *)
Definition shell_round : Sh Session unit :=
  event ← on_shell sh_poll_key;
  match event with
  | NoKey => on_shell others_run
  | _ =>
      entered ← press event;
      match entered with
      | None => mret tt
      | Some command =>
          _ ← on_shell (execute_command command);
          start_line
      end
  end.

Fixpoint shell_rounds (n : nat) : Sh Session unit :=
  match n with O => mret tt | S n => _ ← shell_round; shell_rounds n end.
End shell.
Arguments Session : clear implicits.
Arguments mk_session {PT D C}.

(** Every name the shell completes is one it executes, and the other way round. *)
Lemma command_table_names {PT D C} `{X86Addr} `{!X86_64 PT} `{BlockDevice D} `{!TextConsole C} `{!ShellPlatform PT D} line args :
  (fst <$> command_table (PT := PT) (D := D) (C := C) line args) ≡ₚ command_names.
Proof.
  change (fst <$> _) with (fst <$> (command_table (PT := PT) (D := D) (C := C) line args)). cbn [command_table fmap list_fmap fst].
  apply (bool_decide_unpack _). vm_compute. exact I.
Qed.
