(* ===== verification/ShellSteps.v ===== *)
(** A calculus for shell commands: every effect a command is made of keeps the
    machine, the console and the filesystem in order, and none panics. A command
    is followed through its monad with two budgets: the task identifiers that the
    programs it starts take, and - when a claim is made of the volume - the
    records that the files and directories it makes take. Nothing else uses
    either up. *)

From S2P Require Import Prelude Str Device Tree TuwaiqTree TuwaiqFs Fs FsPersist Fat32 Vfs VfsData Input Window X86 Frames Paging PagingSpaces PagingRange PagingCopy PagingSafety Wake Scheduler SchedulerInv OpenFiles Process Vm Display VmSafety VmUnmap TaskInv TaskSafety Syscall SyscallSteps SyscallData SyscallSafety Interrupts InterruptsSafety Terminal Programs Notes ShellText ShellEdit ShellState ShellFiles ShellTasks ShellMouse ShellDesktop ShellMain.

(** The boot information is made of 64-bit numbers. *)
Class ShellPlatformSpec (PT D : Type) `{!ShellPlatform PT D} := {
  boot_regions_u64 : Forall (λ r, is_u64 (boot_start r) ∧ is_u64 (boot_end r)) (boot_regions (PT := PT) (D := D))
}.

(** What the listed turns use up. *)
Definition turns_ids (ts : list (list Step)) : nat := sum_list_with (count spawns_task) ts.
Definition turns_records (ts : list (list Step)) : nat := sum_list_with (count makes_record) ts.

Section calculus.
Context {PT D C : Type} `{!BootMap, !KernelFrames, !X86Addr, !X86AddrSpec, !X86_64 PT, !X86_64Spec PT USER_REGION_PML4_INDEX} `{BlockDeviceSpec D}.
Context `{!TextConsole C} `{!ShellPlatform PT D}.
Implicit Types (s : ShellState PT D C) (w : World PT D).
Notation Cmd := (Cmd PT D C).

(** In order, with [n] identifiers and the records of [b] to spend. *)
Record sh_ok (n : nat) (b : option nat) s : Prop := mk_sh_ok {
  ok_world : world_ok (n + turns_ids (turns s)) (claim (turns_records (turns s)) b) (world s);
  ok_turns : Forall (Forall step_ok) (turns s);
  ok_console : ∃ t, con_view (con s) t
}.

(** Where a command that does not come back leaves the machine. *)
Definition sh_stopped (b : option nat) s : Prop := world_ok 0 b (world s) ∧ ∃ t, con_view (con s) t.

(** [m] starts at most [n] programs and makes at most [r] records. *)
Definition safe {A} (n r : nat) (m : Cmd A) (P : A → Prop) : Prop :=
  ∀ j b s, sh_ok (n + j) (claim r b) s →
    match m s with Done a s' => P a ∧ sh_ok j b s' | Waiting s' | Rebooted s' => sh_stopped b s' | Panicked => False end.

Lemma sh_ok_mono n n' r r' b s : (n' ≤ n)%nat → (r' ≤ r)%nat → sh_ok n (claim r b) s → sh_ok n' (claim r' b) s.
Proof.
  intros Hn Hr [Hw Ht Hc]. constructor; [|done|done]. rewrite <- claim_add in *. eapply world_ok_mono; [| |exact Hw]; lia.
Qed.
Lemma sh_ok_ids n n' b s : (n' ≤ n)%nat → sh_ok n b s → sh_ok n' b s.
Proof. rewrite <- (claim_0 b). intros Hn. by apply sh_ok_mono. Qed.

Lemma sh_ok_stopped n r b s : sh_ok n (claim r b) s → sh_stopped b s.
Proof.
  intros [Hw _ Hc]. split; [|done]. rewrite <- claim_add in Hw. rewrite <- (claim_0 b). eapply world_ok_mono; [| |exact Hw]; lia.
Qed.

Lemma safe_mono {A} n n' r r' (m : Cmd A) (P Q : A → Prop) : (n' ≤ n)%nat → (r' ≤ r)%nat → (∀ a, P a → Q a) →
  safe n' r' m P → safe n r m Q.
Proof.
  intros Hn Hr HPQ Hm j b s Hs. specialize (Hm j b s ltac:(eapply sh_ok_mono; [| |exact Hs]; lia)).
  destruct (m s); [|done..]. destruct Hm. auto.
Qed.

Lemma safe_ret {A} n r (a : A) (P : A → Prop) : P a → safe n r (mret a) P.
Proof. intros HP j b s Hs. split; [done|]. rewrite <- (claim_0 b). eapply sh_ok_mono; [| |exact Hs]; lia. Qed.

Lemma safe_bind {A B} n1 n2 r1 r2 (m : Cmd A) (f : A → Cmd B) P Q :
  safe n1 r1 m P → (∀ a, P a → safe n2 r2 (f a) Q) → safe (n1 + n2) (r1 + r2) (m ≫= f) Q.
Proof.
  intros Hm Hf j b s Hs. unfold mbind, Sh_bind.
  specialize (Hm (n2 + j)%nat (claim r2 b) s ltac:(by rewrite Nat.add_assoc, <- claim_add)).
  destruct (m s) as [a s'|s'|s'|]; [|split; [|by destruct Hm]..|done].
  - destruct Hm as [HP Hs']. by apply (Hf a HP).
  - destruct Hm as [Hm _]. rewrite <- (claim_0 b). eapply world_ok_mono; [| |exact Hm]; lia.
  - destruct Hm as [Hm _]. rewrite <- (claim_0 b). eapply world_ok_mono; [| |exact Hm]; lia.
Qed.

(** The first effect takes its part of the budgets. *)
Lemma safe_take {A B} k n l r (m : Cmd A) (f : A → Cmd B) P Q : (k ≤ n)%nat → (l ≤ r)%nat →
  safe k l m P → (∀ a, P a → safe (n - k) (r - l) (f a) Q) → safe n r (m ≫= f) Q.
Proof.
  intros Hk Hl Hm Hf. replace n with (k + (n - k))%nat by lia. replace r with (l + (r - l))%nat by lia.
  by apply (safe_bind k (n - k) l (r - l) m f P).
Qed.

Lemma safe_ask {A} n r (f : ShellState PT D C → A) : safe n r (sh_ask f) (λ _, True).
Proof. by apply (safe_mono n 0 r 0 _ (λ _, True)); [lia|lia|done|intros j b s Hs; rewrite claim_0 in Hs]. Qed.

(** ** Output *)

Lemma sh_ok_console n b s c t : sh_ok n b s → con_view c t → sh_ok n b (with_console c s).
Proof. intros [Hw Ht _] Hc. constructor; [done|done|by exists t]. Qed.

Lemma safe_console (f : C → option C) : (∀ c t, con_view c t → ∃ c' t', f c = Some c' ∧ con_view c' t') →
  safe 0 0 (on_console f) (λ _, True).
Proof.
  intros Hf j b s Hs. rewrite claim_0 in Hs. destruct (ok_console _ _ _ Hs) as [t Ht]. destruct (Hf _ _ Ht) as (c'&t'&E&Ht').
  unfold on_console. rewrite E. split; [done|]. by apply (sh_ok_console _ _ _ _ t').
Qed.

Lemma safe_print text : safe 0 0 (print text) (λ _, True).
Proof. apply safe_console. intros c t Hv. destruct (con_print_spec text c t Hv) as (c'&E&_&Hv'). eauto. Qed.
Lemma safe_println text : safe 0 0 (println text) (λ _, True).
Proof. apply safe_console. intros c t Hv. destruct (con_println_spec text c t Hv) as (c'&E&_&Hv'). eauto. Qed.
Lemma safe_clear : safe 0 0 clear_screen (λ _, True).
Proof.
  apply safe_console. intros c t Hv. destruct (con_view_ok c t Hv) as [Hl _].
  destruct (con_clear_spec c Hl) as (c'&E&_&Hv'). eauto.
Qed.

Lemma as_u64_range z : is_u64 (as_u64 z).
Proof. unfold as_u64, is_u64, u64_max. pose proof (Z.mod_pos_bound z (2 ^ 64)). lia. Qed.

Lemma safe_print_u64 v : is_u64 v → safe 0 0 (print_u64 v) (λ _, True).
Proof. intros Hv. destruct (u64_text_spec v Hv) as (t&E&_). unfold print_u64, print_digits. rewrite E. apply safe_print. Qed.
Lemma safe_print_hex v : is_u64 v → safe 0 0 (print_hex v) (λ _, True).
Proof. intros Hv. destruct (hex_text_spec v Hv) as (t&E&_). unfold print_hex, print_digits. rewrite E. apply safe_print. Qed.
Lemma safe_print_i64 v : safe 0 0 (print_i64 (as_i64 v)) (λ _, True).
Proof.
  unfold print_i64, i64_text. destruct (Z.ltb_spec (as_i64 v) 0).
  - destruct (u64_text_spec (- as_i64 v mod 2 ^ 64)) as (t&E&_); [apply as_u64_range|]. rewrite E. apply safe_print.
  - destruct (u64_text_spec (as_i64 v)) as (t&E&_); [|rewrite E; apply safe_print].
    unfold as_i64, as_signed, is_u64, u64_max in *. pose proof (Z.mod_pos_bound v (2 ^ 64)).
    destruct (Z.ltb_spec (v mod 2 ^ 64) (2 ^ (64 - 1))); lia.
Qed.

Lemma safe_print_lines lines : safe 0 0 (print_lines lines) (λ _, True).
Proof.
  induction lines as [|l lines IH]; simpl; [by apply safe_ret|]. apply (safe_bind 0 0 0 0 _ _ (λ _, True)); [apply safe_println|done].
Qed.

(** ** The machine *)

(** A kernel operation that is one event. *)
Lemma sh_ok_event e n b s : event_ok e → sh_ok (event_ids e + n) b s →
  ∃ k, kernel_step e (kern (sys (world s))) = Some k ∧ sh_ok n b (with_world (with_kernel k (world s)) s).
Proof.
  intros He [Hw Ht Hc]. rewrite <- Nat.add_assoc in Hw. destruct (event_steps e _ _ (world s) Hw He) as (k&E&Hk).
  exists k. split; [done|]. by constructor.
Qed.

Lemma safe_try_kernel {A} e (f : Kernel PT → option (A * Kernel PT)) (P : A → Prop) : event_ok e →
  (∀ k, kernel_step e k = snd <$> f k) → (∀ k a k', sound_kernel k → f k = Some (a, k') → P a) → safe (event_ids e) 0 (try_kernel f) P.
Proof.
  intros He Hf HP j b s Hs. rewrite claim_0 in Hs. destruct (sh_ok_event e j b s He Hs) as (k&E&Hk).
  rewrite Hf in E. unfold try_kernel. destruct (f (kern (sys (world s)))) as [[a k']|] eqn:Ef; [|done]. injection E as ->.
  split; [|done]. eapply HP; [by destruct Hs as [[] _ _]|exact Ef].
Qed.

Lemma safe_on_kernel {A} e (f : Kernel PT → A * Kernel PT) : event_ok e →
  (∀ k, kernel_step e k = Some (f k).2) → safe (event_ids e) 0 (on_kernel f) (λ _, True).
Proof.
  intros He Hf j b s Hs. rewrite claim_0 in Hs. destruct (sh_ok_event e j b s He Hs) as (k&E&Hk).
  rewrite Hf in E. unfold on_kernel. destruct (f (kern (sys (world s)))) as [a k']. by injection E as ->.
Qed.

Lemma safe_spawn name elf cwd : canonical cwd → safe 1 0 (sh_spawn name elf cwd) (λ _, True).
Proof.
  intros Hc j b s Hs. unfold sh_spawn.
  by apply (safe_on_kernel (SpawnUser name elf cwd false (next_stack (world s)))).
Qed.
Lemma safe_spawn_suspended name elf cwd : canonical cwd → safe 1 0 (sh_spawn_suspended name elf cwd) (λ _, True).
Proof.
  intros Hc j b s Hs. unfold sh_spawn_suspended.
  by apply (safe_on_kernel (SpawnUser name elf cwd true (next_stack (world s)))).
Qed.
Lemma safe_kill id : safe 0 0 (sh_kill id) (λ _, True).
Proof. by apply (safe_try_kernel (Kill id)). Qed.
Lemma safe_activate id : safe 0 0 (sh_activate id) (λ _, True).
Proof. by apply (safe_on_kernel (Activate id)). Qed.
Lemma safe_reap : safe 0 0 sh_reap_now (λ _, True).
Proof. apply (safe_try_kernel ReapNow); [done| |done]. intros k. simpl. by destruct (reap_now k). Qed.

(** ** The volume *)

Lemma sh_ok_volume r n b v s : (volume_ok (claim r (claim (turns_records (turns s)) b)) (vfs (sys (world s))) → volume_ok (claim (turns_records (turns s)) b) v) →
  sh_ok n (claim r b) s → sh_ok n b (with_world (with_sys (with_vfs v (sys (world s))) (world s)) s).
Proof.
  intros Hv [[Hk Hi Hm Hq Hf] Hts Hc]. constructor; [|done|done]. constructor; [done|exact Hi|done|done|].
  apply Hv. by rewrite <- claim_add, Nat.add_comm, claim_add.
Qed.

(** ** The input devices *)

Definition devices_safe (f : io → io) : Prop :=
  ∀ i, mouse_ok i → device_ok i → mouse_ok (f i) ∧ device_ok (f i) ∧ display (f i) = display i.

Lemma safe_on_devices {A} (f : io → A * io) : devices_safe (λ i, (f i).2) → safe 0 0 (on_devices f) (λ _, True).
Proof.
  intros Hf j b s [Hw Ht Hc]. rewrite claim_0 in Hw. unfold on_devices. pose proof (Hf (io_of (world s)) ltac:(by destruct Hw) ltac:(by eapply world_device_ok)) as Hio.
  cbv beta in Hio. destruct (f (io_of (world s))) as [a i]. destruct Hio as (Hm&Hd&Hdisp). split; [done|]. constructor; [|done|done].
  by apply device_world.
Qed.

(** ** Turns *)

Lemma run_turns_safe ts n b s : Forall (Forall step_ok) ts → world_ok (n + turns_ids ts) (claim (turns_records ts) b) (world s) →
  (∃ t, con_view (con s) t) →
  match run_turns ts s with
  | Done _ s' => sh_ok n b s' ∧ (length (turns s') < length ts)%nat
  | Waiting s' | Rebooted s' => sh_stopped b s'
  | Panicked => False
  end.
Proof.
  intros Hts. revert s. induction Hts as [|t ts Ht Hts IH]; intros s Hw Hc; simpl.
  - split; [|done]. cbn in Hw. rewrite claim_0 in Hw. eapply world_ok_ids; [|exact Hw]. lia.
  - destruct (world_run_ok t (n + turns_ids ts) (claim (turns_records ts) b) (world s) Ht) as (w&E&Hw').
    { rewrite <- claim_add. cbn in Hw. eapply world_ok_ids; [|exact Hw]. unfold turns_ids. simpl. lia. }
    rewrite E. case_bool_decide.
    + split; [|simpl; lia]. by constructor.
    + specialize (IH (with_turns ts (with_world w s)) Hw' Hc). destruct (run_turns ts _); [|done..]. destruct IH. split; [done|]. simpl. lia.
Qed.

Lemma safe_others_run : safe 0 0 others_run (λ _, True).
Proof.
  intros j b s [Hw Ht Hc]. rewrite claim_0 in Hw. unfold others_run.
  pose proof (run_turns_safe (turns s) j b s Ht Hw Hc) as Hr. destruct (run_turns (turns s) s); [|done..]. by destruct Hr.
Qed.

(** Giving up the processor. *)
Lemma yield_by_safe e (f : Kernel PT → option (Kernel PT)) n b s : event_ok e → takes_id e = false → (∀ k, kernel_step e k = f k) → sh_ok n b s →
  match yield_by f s with
  | Done _ s' => sh_ok n b s' ∧ (length (turns s') < length (turns s))%nat
  | Waiting s' | Rebooted s' => sh_stopped b s'
  | Panicked => False
  end.
Proof.
  intros He Hid Hf Hs. destruct (sh_ok_event e n b s He) as (k&E&[Hk Ht Hc]); [unfold event_ids; by rewrite Hid|]. rewrite Hf in E.
  unfold yield_by, mbind, Sh_bind, try_kernel. rewrite E. cbn [mbind option_bind].
  apply (run_turns_safe (turns s) n b (with_world (with_kernel k (world s)) s)); done.
Qed.

Lemma yield_safe n b s : sh_ok n b s →
  match sh_yield s with
  | Done _ s' => sh_ok n b s' ∧ (length (turns s') < length (turns s))%nat
  | Waiting s' | Rebooted s' => sh_stopped b s'
  | Panicked => False
  end.
Proof. intros Hs. unfold sh_yield. by apply (yield_by_safe (YieldNow (switch_rsp (world s)))). Qed.

Lemma safe_yield : safe 0 0 sh_yield (λ _, True).
Proof.
  intros j b s Hs. rewrite claim_0 in Hs. pose proof (yield_safe j b s Hs) as Hy. destruct (sh_yield s); [|done..]. by destruct Hy.
Qed.

Lemma safe_sleep n : safe 0 0 (sh_sleep n) (λ _, True).
Proof.
  intros j b s Hs. rewrite claim_0 in Hs. unfold sh_sleep.
  pose proof (yield_by_safe (SleepTicks n (switch_rsp (world s))) (sleep_ticks n (switch_rsp (world s))) j b s I eq_refl (λ _, eq_refl) Hs) as Hy.
  destruct (yield_by _ s); [|done..]. by destruct Hy.
Qed.

Lemma safe_yield_loop {A} fuel (done : ShellState PT D C → option A) : safe 0 0 (yield_loop fuel done) (λ _, True).
Proof.
  induction fuel as [|fuel IH]; intros j b s Hs; cbn [yield_loop]; destruct (done s) as [a|]; try (by rewrite claim_0 in Hs).
  - by eapply sh_ok_stopped.
  - by apply (safe_bind 0 0 0 0 sh_yield (λ _, yield_loop fuel done) (λ _, True) (λ _, True) safe_yield (λ _ _, IH)).
Qed.

Lemma safe_yield_until {A} (done : ShellState PT D C → option A) : safe 0 0 (yield_until done) (λ _, True).
Proof. intros j b s Hs. unfold yield_until. by apply safe_yield_loop. Qed.

Lemma safe_fail_after n : safe 0 0 (set_fail_after n) (λ _, True).
Proof.
  intros j b s [[Hk Hi Hm Hq Hf] Ht Hc]. rewrite claim_0 in Hf. split; [done|]. constructor; [|done|done]. by constructor.
Qed.
End calculus.
