(* ===== verification/ShellVolume.v ===== *)
(** What the commands of kernel/shell.rs do to the volume: every filesystem
    operation a command is made of keeps the volume in step with the tree, and
    adds at most a stated number of records to it. *)

From S2P Require Import Prelude Str Device Tree TuwaiqTree TuwaiqFs Fs FsPersist Fat32 Vfs VfsData Input Window X86 Frames Paging PagingSpaces PagingRange PagingCopy PagingSafety Wake Scheduler SchedulerInv OpenFiles Process Vm Display VmSafety VmUnmap TaskInv TaskSafety Syscall SyscallSteps SyscallData SyscallSafety Interrupts InterruptsSafety Terminal Programs Notes ShellText ShellEdit ShellState ShellFiles ShellTasks ShellMouse ShellDesktop ShellMain ShellSteps.

(** ** What commands do to the volume *)

Section volume.
Context {D : Type} `{BlockDeviceSpec D}.
Implicit Types (v : vfs_state D).

(** At most [n] records are added; a result satisfies [P]. Without a claim on the
    volume, the names still stay in order. *)
Definition spends {A} (n : nat) (m : M (vfs_state D) A) (P : A → Prop) : Prop :=
  ∀ v b, volume_ok (claim n b) v → let '(r, v') := m v in (∀ a, r = Ok a → P a) ∧ volume_ok b v'.

Lemma spends_mono {A} n n' (m : M (vfs_state D) A) (P Q : A → Prop) : (n' ≤ n)%nat → (∀ a, P a → Q a) → spends n' m P → spends n m Q.
Proof.
  intros Hn HPQ Hm v b Hv. specialize (Hm v b ltac:(eapply volume_ok_mono; [exact Hn|exact Hv])).
  destruct (m v) as [r v']. destruct Hm as [HP Hf]. split; [auto|done].
Qed.

Lemma spends_bind {A B} n1 n2 (m : M (vfs_state D) A) (f : A → M (vfs_state D) B) P Q :
  spends n1 m P → (∀ a, P a → spends n2 (f a) Q) → spends (n1 + n2) (m ≫= f) Q.
Proof.
  intros Hm Hf v b Hv. specialize (Hm v (claim n2 b) ltac:(by rewrite <- claim_add)).
  unfold mbind, M_bind. destruct (m v) as [[a|e] v1]; destruct Hm as [HP Hv1].
  - by apply (Hf a (HP a eq_refl) v1 b).
  - split; [done|]. rewrite <- (claim_0 b). eapply volume_ok_mono; [|exact Hv1]. lia.
Qed.

Lemma spends_take {A B} k n (m : M (vfs_state D) A) (f : A → M (vfs_state D) B) P Q : (k ≤ n)%nat →
  spends k m P → (∀ a, P a → spends (n - k) (f a) Q) → spends n (m ≫= f) Q.
Proof. intros Hk Hm Hf. replace n with (k + (n - k))%nat by lia. by apply (spends_bind k (n - k) m f P). Qed.

Lemma spends_lift {A} (r : result A) (P : A → Prop) : (∀ a, r = Ok a → P a) → spends 0 (mlift r) P.
Proof. intros HP v b Hv. rewrite claim_0 in Hv. done. Qed.
Lemma spends_ret {A} n (a : A) (P : A → Prop) : P a → spends n (mret a) P.
Proof. intros HP. apply (spends_mono n 0 _ P); [lia|done|]. apply (spends_lift (Ok a)). by intros ? [= <-]. Qed.
Lemma spends_throw {A} n e (P : A → Prop) : spends n (mthrow e) P.
Proof. apply (spends_mono n 0 _ P); [lia|done|]. by apply (spends_lift (Err e)). Qed.

Lemma spends_grows {A} n (m : M (vfs_state D) A) : (∀ v r v', m v = (r, v') → grows n v v') → spends n m (λ _, True).
Proof. intros Hm v b Hv. destruct (m v) as [r v'] eqn:E. split; [done|]. by apply (Hm v r v' E). Qed.

Lemma spends_looks {A} (m : M (vfs_state D) A) : respects keeps m → spends 0 m (λ _, True).
Proof. intros Hm. apply spends_grows. intros v r v' E. apply keeps_grows. by apply Hm in E. Qed.

Lemma spends_try {A} n (m : M (vfs_state D) A) P : spends n m P → spends n (mtry m) (λ r, ∀ a, r = Ok a → P a).
Proof.
  intros Hm v b Hv. specialize (Hm v b Hv). unfold mtry. destruct (m v) as [r v'].
  destruct Hm as [HP Hf]. split; [|done]. by intros ? [= <-].
Qed.

Lemma spends_run op wd path : canonical wd → utf8_valid path = true → spends (vfs_records op) (vfs_run op wd path) (λ _, True).
Proof.
  intros Hwd Hu. apply spends_grows. intros v r v' E. apply grows_intro; [by apply vfs_run_names in E|].
  intros table f j Hv Ht Hr. destruct (vfs_run_room op wd path v r v' table f j Hv Hwd Hu Hr E) as (f'&_&?&?). by exists f'.
Qed.
Lemma spends_create_file wd path : canonical wd → utf8_valid path = true → spends 1 (create_file wd path) (λ _, True).
Proof. apply (spends_run VCreateFile). Qed.
Lemma spends_create_dir wd path : canonical wd → utf8_valid path = true → spends 1 (create_dir wd path) (λ _, True).
Proof. apply (spends_run VCreateDir). Qed.
Lemma spends_write wd path bytes : canonical wd → utf8_valid path = true → spends 1 (write_file wd path bytes) (λ _, True).
Proof. apply (spends_run (VWrite bytes)). Qed.
Lemma spends_remove wd path : canonical wd → utf8_valid path = true → spends 0 (remove wd path) (λ _, True).
Proof. apply (spends_run VRemove). Qed.

Lemma spends_get_cwd : spends 0 get_shell_cwd canonical.
Proof.
  intros v b Hv. rewrite claim_0 in Hv. pose proof Hv as (_&_&_&_&(wd&Hwd&Hcan)&_).
  assert (∃ r, get_shell_cwd v = (r, v) ∧ ∀ a, r = Ok a → a = wd) as (r&E&Ha).
  { unfold get_shell_cwd, mbind, M_bind, mget, mlift, mensure, mlift, ensure. rewrite Hwd. cbn [ok_or].
    destruct (negb _); [|by eexists]. unfold from_utf8. destruct (utf8_valid wd); eexists; (split; [done|]); by intros ? [=]. }
  rewrite E. split; [by intros a ->%Ha|done].
Qed.

Lemma spends_chdir path : utf8_valid (trim path) = true → spends 0 (shell_chdir path) (λ _, True).
Proof.
  intros Hu. unfold shell_chdir. eapply (spends_bind 0 0); [apply spends_get_cwd|intros wd Hwd].
  eapply (spends_bind 0 0); [apply (spends_lift _ canonical); intros a; by apply normalize_result_canonical|intros target Htarget].
  eapply (spends_bind 0 0); [apply spends_looks, kind_keeps|intros k _].
  eapply (spends_bind 0 0); [by apply (spends_lift _ (λ _, True))|intros [] _].
  eapply (spends_bind 0 0 _ _ (λ _, True)); [|intros; by apply spends_ret].
  intros v b Hv. rewrite claim_0 in Hv. destruct Hv as (table&Hm&Hok&Hro&_&Hf). split; [done|].
  exists table. split_and!; [done..|by exists target|exact Hf].
Qed.

(** *** Sync and the injected interruption *)

Lemma spends_on_storage {A} (m : M (fs_state D) A) (P : A → Prop) : (∀ s r s', m s = (r, s') → ∀ a, r = Ok a → P a) →
  (∀ s f, ready s f → fits f → wp m (λ _ s', ready s' f) (λ _ s', ready s' f) s) → spends 0 (on_storage m) P.
Proof.
  intros HP Hm v b Hv. rewrite claim_0 in Hv. unfold on_storage. destruct (m (storage v)) as [r s'] eqn:E. split; [by eapply HP|].
  destruct b as [j|]; [|by eapply volume_names, Hv]. destruct Hv as (table&?&?&?&?&f&Hready&Hr). exists table. split_and!; [done..|].
  exists f. split; [|done]. assert (fits f) as Hfit by (unfold fits, room_for in *; lia).
  specialize (Hm _ _ Hready Hfit). unfold wp in Hm. rewrite E in Hm. by destruct r.
Qed.

Lemma spends_sync : spends 0 Vfs.sync (λ _, True).
Proof. apply spends_on_storage; [done|]. intros s f Hs Hf. eapply wp_mono; [by apply wp_sync_to_disk|by intros|by intros]. Qed.

Lemma spends_inject wd path bytes n : canonical wd → utf8_valid path = true →
  spends 1 (Vfs.inject_interrupted_write wd path bytes n) (λ _, True).
Proof.
  intros Hwd Hu. apply spends_grows. intros v r v'. unfold Vfs.inject_interrupted_write, mbind at 1, M_bind at 1.
  destruct (resolve_path_cases wd path v) as [rr E]. rewrite E.
  destruct rr as [[m bp]|e]; [|intros [= <- <-]; apply keeps_grows; reflexivity].
  unfold mbind, M_bind, mensure, mlift, ensure. destruct (writable m); [|intros [= <- <-]; apply keeps_grows; reflexivity].
  intros Ei. apply grows_intro; [by apply on_storage_names in Ei|]. intros table f j Hv Ht Hr.
  assert (canonical bp) as Hbp.
  { rewrite resolve_path_unfold in E. injection E as E. destruct Hv as (Htb&Hok&_).
    destruct (normalize wd path) as [absolute|] eqn:Hn; [|done]. rewrite Htb in E. by eapply resolve_canonical. }
  destruct Hv as (Htb&Hok&Hcwd&Hready).
  pose proof (wp_inject (storage v) f bp bytes n Hready Hbp) as Hwp. unfold wp in Hwp. unfold on_storage in Ei.
  assert (∀ f', write_at f bp bytes = Ok f' → fits f') as Hfits.
  { intros f' Hop. eapply (room_for_step j (Write bp bytes)); [exact Hr|exact Hop]. }
  specialize (Hwp Hfits). exists f. split; [|eapply room_for_mono; [|exact Hr]; lia].
  destruct (FsPersist.inject_interrupted_write bp bytes n (storage v)) as [[a|e] s']; injection Ei as <- <-; by split_and!.
Qed.
End volume.

(** ** The operations of the commands *)

Create HintDb spends discriminated.
#[export] Hint Constants Opaque : spends.
#[export] Hint Resolve spends_get_cwd spends_sync : spends.
#[export] Hint Extern 1 (spends _ (mret _) _) => (apply spends_ret; done) : spends.
#[export] Hint Extern 1 (spends _ (mthrow _) _) => apply spends_throw : spends.
#[export] Hint Extern 2 (spends _ (Vfs.kind _ _) _) => apply spends_looks, kind_keeps : spends.
#[export] Hint Extern 2 (spends _ (read_file _ _) _) => apply spends_looks, read_file_keeps : spends.
#[export] Hint Extern 2 (spends _ (list_dir _ _) _) => apply spends_looks, list_dir_keeps : spends.
#[export] Hint Extern 3 (spends _ (mlift _) _) => (apply (spends_lift _ (λ _, True)); done) : spends.
#[export] Hint Extern 3 (spends _ (mensure _ _) _) => (apply (spends_lift _ (λ _, True)); done) : spends.

(** A step that only looks, then the rest. *)
Ltac look := eapply (spends_take 0); [lia|eauto with spends nocore|intros ? ?; cbn [Nat.sub]].
Ltac spend_leaf := first [solve [eauto with spends nocore] | eapply spends_mono; [lia|by intros ? _|solve [eauto with spends nocore]]].

Section operations.
Context {D : Type} `{BlockDeviceSpec D}.
Implicit Types (v : vfs_state D).

Lemma pwd_spends : spends 0 (shell_pwd (D := D)) canonical.
Proof. apply spends_get_cwd. Qed.

Lemma mounts_spends : spends 0 (mounts (D := D)) (λ _, True).
Proof. apply spends_looks. unfold mounts, mount_snapshot. repeat respects_step. Qed.

Lemma list_spends path : spends 0 (shell_list (D := D) path) (λ _, True).
Proof. unfold shell_list. look. spend_leaf. Qed.
Lemma read_spends path : spends 0 (shell_read (D := D) path) (λ _, True).
Proof. unfold shell_read. do 2 look. spend_leaf. Qed.
Lemma candidates_spends token : spends 0 (completion_candidates (D := D) token) (λ _, True).
Proof.
  unfold completion_candidates. look. destruct (match rfind slash token with Some _ => _ | None => _ end) as [typed leaf].
  look. look. spend_leaf.
Qed.

Lemma create_file_spends path : utf8_valid path = true → spends 1 (shell_create_file (D := D) path) (λ _, True).
Proof. intros Hu. unfold shell_create_file. look. apply spends_create_file; [done|by apply trim_utf8]. Qed.
Lemma create_dir_spends path : utf8_valid path = true → spends 1 (shell_create_dir (D := D) path) (λ _, True).
Proof. intros Hu. unfold shell_create_dir. look. apply spends_create_dir; [done|by apply trim_utf8]. Qed.
Lemma write_spends path text : utf8_valid path = true → spends 1 (shell_write (D := D) path text) (λ _, True).
Proof. intros Hu. unfold shell_write. look. apply spends_write; [done|by apply trim_utf8]. Qed.

(** Making sure of a directory. *)
Lemma make_sure_spends path (e : string) : utf8_valid path = true →
  spends 1 (r ← mtry (Vfs.kind (D := D) root_dir path);
            match r with Ok NDirectory => mret tt | Ok NFile => mthrow e | Err _ => create_dir root_dir path end) (λ _, True).
Proof.
  intros Hu. eapply (spends_take 0); [lia|eapply spends_try; eauto with spends nocore|]. intros [[]|reason] _; cbn [Nat.sub]; try spend_leaf.
  apply spends_create_dir; [apply canonical_root|done].
Qed.

Lemma ensure_directory_spends path : utf8_valid path = true → spends 1 (ensure_directory (D := D) path) (λ _, True).
Proof. apply make_sure_spends. Qed.

Lemma basename_utf8 path : utf8_valid path = true → utf8_valid (basename path) = true.
Proof.
  intros Hu. apply (utf8_split slash) in Hu; [|done]. unfold basename. destruct (last (components path)) as [n|] eqn:E; [|done]. simpl.
  rewrite Forall_forall in Hu. apply last_Some_elem_of in E. apply list_elem_of_filter in E as [_ E]. by apply Hu.
Qed.

Lemma install_files_spends target bytes : utf8_valid target = true → spends 4 (install_files (D := D) target bytes) (λ _, True).
Proof.
  intros Hu. unfold install_files. eapply (spends_take 1); [lia|by apply make_sure_spends|intros _ _; cbn [Nat.sub]].
  eapply (spends_take 1); [lia|apply spends_write; [apply canonical_root|done]|intros _ _; cbn [Nat.sub]].
  eapply (spends_take 2 2 _ _ (λ _, True)); [lia| |intros; spend_leaf]. unfold ensure_app_data_directory.
  eapply (spends_take 1); [lia|by apply ensure_directory_spends|intros _ _; cbn [Nat.sub]]. apply ensure_directory_spends.
  rewrite utf8_app by done. by apply basename_utf8.
Qed.

Lemma read_executable_spends cwd path : spends 0 (read_executable (D := D) cwd path) (λ _, True).
Proof. unfold read_executable. do 3 look. spend_leaf. Qed.

Lemma read_packaged_spends path : spends 0 (read_packaged (D := D) path) (λ _, True).
Proof. unfold read_packaged. do 2 look. spend_leaf. Qed.

Lemma self_test_spends : spends 1 (vfs_self_test (D := D)) (λ _, True).
Proof.
  unfold vfs_self_test. do 8 look. eapply (spends_take 1); [lia| |intros; spend_leaf].
  eapply spends_try. apply spends_write; [apply canonical_root|done].
Qed.

(** Notes and the file viewer *)

Lemma ensure_notes_dir_spends : spends 1 (ensure_notes_dir (D := D)) (λ _, True).
Proof.
  unfold ensure_notes_dir. eapply (spends_take 0); [lia|eapply spends_try; eauto with spends nocore|]. intros r _; cbn [Nat.sub].
  destruct (is_err r); [|spend_leaf]. apply spends_create_dir; [apply canonical_root|done].
Qed.

Lemma note_write_spends name text (lines : list str) : utf8_valid name = true →
  spends 2 (_ ← ensure_notes_dir (D := D); _ ← write_file [slash] (note_path name) text; mret lines) (λ _, True).
Proof.
  intros Hu. eapply (spends_take 1); [lia|apply ensure_notes_dir_spends|intros _ _; cbn [Nat.sub]].
  eapply (spends_take 1); [lia|apply spends_write; [apply canonical_root|by apply note_path_utf8]|intros _ _; spend_leaf].
Qed.

Lemma notes_spends sub args : utf8_valid args = true → spends 2 (notes_handle (D := D) sub args) (λ _, True).
Proof.
  intros Hu. unfold notes_handle. repeat case_bool_decide; try spend_leaf.
  - unfold note_create. look. apply note_write_spends. by apply trim_utf8.
  - unfold note_set. cbv zeta. eapply (spends_take 0); [lia|apply (spends_lift _ (λ i, find_whitespace (trim args) = Some i))|].
    { by intros i Hi%ok_or_Ok. }
    intros i Hi. cbn [Nat.sub]. look. apply note_write_spends.
    destruct (find_whitespace_Some _ _ Hi) as (w&rest&Hin&Hs&_). pose proof (whitespace_chars w Hin) as Hwc.
    apply trim_utf8 in Hu. rewrite Hs in Hu. by apply utf8_cut_char in Hu as [? _].
  - unfold note_delete. look. eapply (spends_take 0); [lia|apply spends_remove; [apply canonical_root|]|intros _ _; spend_leaf].
    by apply note_path_utf8, trim_utf8.
  - unfold note_list. eapply (spends_take 0); [lia|eapply spends_try; eauto with spends nocore|intros; spend_leaf].
  - unfold note_show. look. do 2 look. spend_leaf.
Qed.

Lemma editor_spends args : spends 0 (editor_handle (D := D) args) (λ _, True).
Proof.
  unfold editor_handle. look. eapply (spends_take 0); [lia|apply read_spends|intros; spend_leaf].
Qed.
End operations.
