(* ===== verification/ShellSafety.v ===== *)
(** No shell command breaks the system: every command of kernel/shell.rs, on any
    arguments, keeps the machine safe, the console alive and the volume in step
    with the tree, and none panics. *)

From S2P Require Import Prelude Str Device Tree TuwaiqTree TuwaiqFs Fs FsPersist Fat32 Vfs VfsData Input Window X86 Frames Paging PagingSpaces PagingRange PagingCopy PagingSafety Wake Scheduler SchedulerInv Elf OpenFiles Process Vm Display VmSafety VmUnmap TaskInv TaskSafety Syscall SyscallSteps SyscallData SyscallSafety Interrupts InterruptsSafety Terminal Programs Notes ShellText ShellEdit ShellState ShellFiles ShellTasks ShellMouse ShellDesktop ShellMain ShellSteps ShellVolume.

(** ** Text that is UTF-8 *)

Lemma cut_whitespace_utf8 s i : utf8_valid s = true → find_whitespace s = Some i →
  utf8_valid (take i s) = true ∧ utf8_valid (drop i s) = true.
Proof.
  intros Hu Hi. destruct (find_whitespace_Some _ _ Hi) as (w&rest&Hin&Hs&_). pose proof (whitespace_chars w Hin) as Hwc.
  assert (drop i s = w ++ rest) as ->.
  { rewrite <- (take_drop i s) in Hs at 1. by apply app_inv_head in Hs. }
  rewrite Hs in Hu. destruct (utf8_cut_char _ _ _ Hwc Hu). by rewrite utf8_char_app.
Qed.

Lemma split_command_utf8 line : utf8_valid line = true →
  utf8_valid (split_command line).1 = true ∧ utf8_valid (split_command line).2 = true.
Proof.
  intros Hu%trim_utf8. unfold split_command. destruct (find_whitespace _) as [i|] eqn:Hi; [|done].
  destruct (cut_whitespace_utf8 _ _ Hu Hi). split; by apply trim_utf8.
Qed.

Lemma first_token_utf8 args name text : utf8_valid args = true → split_first_token args = Some (name, text) →
  utf8_valid name = true.
Proof.
  intros Hu%trim_utf8. unfold split_first_token. case_bool_decide; [done|]. destruct (find_whitespace _) as [i|] eqn:Hi.
  - destruct (cut_whitespace_utf8 _ _ Hu Hi). intros [= <- _]. by apply trim_utf8.
  - by intros [= <- _].
Qed.

(** ** Input devices *)

Lemma foreground_devices id : devices_safe (set_foreground_process_id id).
Proof.
  intros i Hm [Hq Hw]. unfold set_foreground_process_id. destruct id; (split_and!; [|split; [|done]|done]).
  all: try (revert Hm; by apply mouse_ok_frame).
  all: split; simpl; [unfold INPUT_QUEUE_CAPACITY; lia|done].
Qed.

Lemma push_devices e : devices_safe (Input.push e).
Proof.
  intros i Hm Hd. split_and!; [|by apply push_device|apply push_display].
  by apply (push_all_ok [e]).
Qed.

Lemma push_key_devices event : devices_safe (push_key_event event).
Proof. unfold push_key_event. destruct (key_code event); [apply push_devices|by intros i]. Qed.

Lemma devices_safe_comp (f g : io → io) : devices_safe f → devices_safe g → devices_safe (λ i, g (f i)).
Proof. intros Hf Hg i Hm Hd. destruct (Hf i Hm Hd) as (Hm1&Hd1&E1). destruct (Hg _ Hm1 Hd1) as (?&?&E2). by rewrite E2, E1. Qed.

Lemma byte_devices b : devices_safe (on_byte b).
Proof. intros i Hm Hd. split_and!; [by apply on_byte_ok|by apply on_byte_device|apply on_byte_display]. Qed.

Lemma devices_safe_id : devices_safe (λ i, i).
Proof. by intros i. Qed.

Lemma packet_devices dx dy buttons : devices_safe (λ i, (inject_screen_packet dx dy buttons i).2).
Proof.
  unfold inject_screen_packet. destruct (_ || _); [apply devices_safe_id|]. destruct (negb _); [apply devices_safe_id|].
  simpl. repeat (apply (devices_safe_comp _ (on_byte _)); [|apply byte_devices]). apply devices_safe_id.
Qed.


(** A device operation that may stop early. *)
Lemma devices_chain {A} (m : io → result A * io) (f : A → io → result A * io) :
  devices_safe (λ i, (m i).2) → (∀ a, devices_safe (λ i, (f a i).2)) →
  devices_safe (λ i, (let '(r, i) := m i in match r with Ok a => f a i | Err e => (Err e, i) end).2).
Proof.
  intros Hm Hf i Hok Hd. specialize (Hm i Hok Hd). cbv beta in Hm. destruct (m i) as [[a|e] i1]; [|done].
  destruct Hm as (Hok1&Hd1&E1). specialize (Hf a i1 Hok1 Hd1). cbn [snd] in *. by rewrite E1 in Hf.
Qed.

Lemma mouse_to_devices fuel x y buttons : devices_safe (λ i, (mouse_to fuel x y buttons i).2).
Proof.
  induction fuel as [|fuel IH]; [apply devices_safe_id|]. intros i. cbn [mouse_to].
  destruct (cursor_position (mouse i)) as [cx cy]. cbv zeta. destruct (_ && _).
  - apply (devices_chain _ (λ _, inject_screen_packet (-1) 0 buttons)); [apply packet_devices|intros _; apply packet_devices].
  - apply (devices_chain _ (λ _, mouse_to fuel x y buttons)); [apply packet_devices|intros _; exact IH].
Qed.

Lemma mouse_acts_devices acts : devices_safe (λ i, (mouse_acts acts i).2).
Proof.
  induction acts as [|a acts IH]; [apply devices_safe_id|].
  apply (devices_chain (mouse_act a) (λ _, mouse_acts acts)); [|intros _; exact IH].
  destruct a; [apply mouse_to_devices|apply packet_devices].
Qed.

Lemma interaction_devices acts : devices_safe (λ i, (interaction acts i).2).
Proof.
  apply (devices_safe_comp (λ i, reset_decoder_for_diagnostics (with_input (λ q, reset_telemetry (clear_queue q)) i))
    (λ i, (mouse_acts acts i).2)); [|apply mouse_acts_devices].
  intros i Hm [Hq Hw]. split_and!; [|split; [|done]|done].
  - revert Hm. unfold mouse_ok. change (screen_max (reset_decoder_for_diagnostics _)) with (screen_max i). destruct (screen_max i).
    simpl. unfold new_decoder. simpl. intuition lia.
  - split; simpl; [unfold INPUT_QUEUE_CAPACITY; lia|done].
Qed.

(** ** Following a command *)

Create HintDb shell discriminated.
#[export] Hint Constants Opaque : shell.

Section handlers.
Context {PT D C : Type} `{!BootMap, !KernelFrames, !X86Addr, !X86AddrSpec, !X86_64 PT, !X86_64Spec PT USER_REGION_PML4_INDEX} `{BlockDeviceSpec D}.
Context `{!TextConsole C} `{!ShellPlatform PT D, !ShellPlatformSpec PT D}.
Implicit Types (s : ShellState PT D C).
Notation Cmd := (Cmd PT D C).

Lemma safe_vfs {A} r (m : M (vfs_state D) A) P : spends r m P → safe (PT := PT) (C := C) 0 r (on_vfs m) (λ r, ∀ a, r = Ok a → P a).
Proof.
  intros Hm j b s Hs. pose proof (ok_world _ _ _ Hs) as [_ _ _ _ Hv]. rewrite <- claim_add, Nat.add_comm, claim_add in Hv.
  specialize (Hm _ _ Hv). unfold on_vfs. destruct (m (vfs (sys (world s)))) as [res v]. destruct Hm as [HP Hv']. split; [done|].
  by apply (sh_ok_volume r).
Qed.

(** Weakening to a leaf. *)
Lemma safe_leaf {A} n k r l (m : Cmd A) (P : A → Prop) : safe k l m P → (k ≤ n)%nat → (l ≤ r)%nat → safe n r m (λ _, True).
Proof. intros Hm Hk Hl. by apply (safe_mono n k r l m P). Qed.

(** The first effect, of any cost that is left. *)
Lemma safe_next {A B} k n l r (m : Cmd A) (f : A → Cmd B) P Q :
  safe k l m P → (∀ a, P a → safe (n - k) (r - l) (f a) Q) → (k ≤ n)%nat → (l ≤ r)%nat → safe n r (m ≫= f) Q.
Proof. intros Hm Hf Hk Hl. by apply (safe_take k n l r m f P). Qed.

Lemma safe_assoc {A B E} n r (m : Cmd A) (f : A → Cmd B) (g : B → Cmd E) Q :
  safe n r (m ≫= λ a, f a ≫= g) Q → safe n r ((m ≫= f) ≫= g) Q.
Proof. intros Hm j b s Hs. specialize (Hm j b s Hs). unfold mbind, Sh_bind in *. by destruct (m s). Qed.

Lemma safe_ret_any {A} (a : A) : safe 0 0 (mret a : Cmd A) (λ _, True).
Proof. by apply safe_ret. Qed.
Lemma safe_see {A} (f : ShellState PT D C → A) : safe 0 0 (sh_ask f) (λ _, True).
Proof. apply safe_ask. Qed.
End handlers.

#[export] Hint Resolve safe_print safe_println safe_clear safe_print_lines safe_print_i64 safe_ret_any
  safe_spawn safe_spawn_suspended safe_kill safe_activate safe_reap safe_yield safe_sleep safe_yield_until safe_fail_after : shell.
#[export] Hint Resolve safe_print_u64 safe_print_hex as_u64_range canonical_root : shell.
#[export] Hint Extern 2 (safe _ _ (ask_kernel _) _) => apply safe_see : shell.
#[export] Hint Extern 2 (safe _ _ (sh_ask _) _) => apply safe_see : shell.
#[export] Hint Extern 2 (safe _ _ (on_vfs _) _) => (apply safe_vfs; solve [eauto with spends shell nocore]) : shell.
#[export] Hint Resolve pwd_spends mounts_spends list_spends read_spends candidates_spends read_executable_spends read_packaged_spends
  self_test_spends notes_spends editor_spends : spends.
#[export] Hint Resolve create_file_spends create_dir_spends write_spends ensure_directory_spends install_files_spends
  spends_chdir spends_write spends_create_dir spends_remove spends_inject : spends.
Lemma canonical_root_dir : canonical root_dir.
Proof. apply canonical_root. Qed.
#[export] Hint Resolve canonical_root_dir : spends shell.
#[export] Hint Extern 5 (utf8_valid _ = true) => reflexivity : spends.

(** One effect of a command, or one case of its result. *)
Ltac shell_step :=
  cbv zeta; cbn [mbind option_bind];
  match goal with
  | |- safe _ _ ((_ ≫= _) ≫= _) _ => apply safe_assoc
  | |- safe _ _ ((if ?b then _ else _) ≫= _) _ => destruct b eqn:?
  | |- safe _ _ ((match ?x with _ => _ end) ≫= _) _ => destruct x eqn:?
  | |- safe _ _ (_ ≫= _) _ => eapply safe_next; [solve [eauto with shell nocore]|intros ? ?; cbn [Nat.sub]|lia|lia]
  | |- safe _ _ (if ?b then _ else _) _ => destruct b eqn:?
  | |- safe _ _ (match ?x with _ => _ end) _ => destruct x eqn:?
  | |- safe _ _ _ _ => eapply safe_leaf; [solve [eauto with shell nocore]|lia|lia]
  end.
Ltac shell := repeat shell_step.

Section commands.
Context {PT D C : Type} `{!BootMap, !KernelFrames, !X86Addr, !X86AddrSpec, !X86_64 PT, !X86_64Spec PT USER_REGION_PML4_INDEX} `{BlockDeviceSpec D}.
Context `{!TextConsole C} `{!ShellPlatform PT D, !ShellPlatformSpec PT D}.
Implicit Types (s : ShellState PT D C).
Notation Cmd := (Cmd PT D C).
(** [starts n makes r m]: [m] starts at most [n] programs and makes at most [r]
    records. *)
Notation "'quiet' m" := (safe (PT := PT) (D := D) (C := C) 0 0 m (λ _, True)) (at level 10).
Notation "'starts' n 'makes' r m" := (safe (PT := PT) (D := D) (C := C) n r m (λ _, True)) (at level 10, n at level 9, r at level 9).

(** *** Files *)

Lemma print_error_safe prefix reason : quiet (print_error prefix reason).
Proof. unfold print_error. shell. Qed.
Lemma print_fs_error_safe reason : quiet (print_fs_error reason).
Proof. apply print_error_safe. Qed.
#[local] Hint Resolve print_error_safe print_fs_error_safe : shell.

Lemma print_entries_safe entries : quiet (print_entries entries).
Proof. unfold print_entries. shell. Qed.
Lemma print_result_safe prefix r : quiet (print_result prefix r).
Proof. unfold print_result. shell. Qed.
Lemma confirm_safe text name r : quiet (confirm text name r).
Proof. unfold confirm. shell. Qed.
Lemma print_mounts_safe ms : quiet (print_mounts ms).
Proof. induction ms as [|m ms IH]; cbn [print_mounts]; shell. Qed.
#[local] Hint Resolve print_entries_safe print_result_safe confirm_safe print_mounts_safe : shell.

Lemma pwd_safe : quiet handle_pwd.
Proof. unfold handle_pwd. shell. Qed.
Lemma cd_safe args : utf8_valid args = true → quiet (handle_cd args).
Proof. intros Hu. assert (utf8_valid (trim (trim args)) = true) by (by do 2 apply trim_utf8). unfold handle_cd. shell. Qed.
Lemma ls_safe args : quiet (handle_ls args).
Proof. unfold handle_ls. shell. Qed.
Lemma mounts_safe : quiet handle_mounts.
Proof. unfold handle_mounts. shell. Qed.
Lemma touch_safe args : utf8_valid args = true → starts 0 makes 1 (handle_touch args).
Proof. intros Hu%trim_utf8. unfold handle_touch. shell. Qed.
Lemma mkdir_safe args : utf8_valid args = true → starts 0 makes 1 (handle_mkdir args).
Proof. intros Hu%trim_utf8. unfold handle_mkdir. shell. Qed.
Lemma cat_safe args : quiet (handle_cat args).
Proof. unfold handle_cat. shell. Qed.
Lemma write_safe args : utf8_valid args = true → starts 0 makes 1 (handle_write args).
Proof.
  intros Hu. unfold handle_write. destruct (split_first_token args) as [[name text]|] eqn:E; [|shell].
  pose proof (first_token_utf8 _ _ _ Hu E). shell.
Qed.
Lemma run_safe args : quiet (handle_run args).
Proof. unfold handle_run. shell. Qed.
Lemma notes_safe args : utf8_valid args = true → starts 0 makes 2 (handle_notes args).
Proof.
  intros [_ Hu]%split_command_utf8. unfold handle_notes. destruct (split_command args) as [sub rest]. simpl in Hu. shell.
Qed.
Lemma editor_safe args : quiet (handle_editor args).
Proof. unfold handle_editor. shell. Qed.

Lemma net_safe args : quiet (handle_net_command args).
Proof. unfold handle_net_command. shell. Qed.
Lemma ping_safe args : quiet (handle_ping args).
Proof.
  unfold handle_ping. cbv zeta. case_bool_decide; [shell|]. eapply (safe_next 0 _ 0 _ _ _ (λ _, True)); [|intros; shell|lia|lia].
  intros j b s Hs. rewrite claim_0 in Hs. destruct (ping _ (net s)) as [r n]. split; [done|]. by destruct Hs.
Qed.
Lemma ai_safe line args : quiet (handle_ai_command line args).
Proof.
  unfold handle_ai_command. assert (is_u64 (bridge_phase bridge_status)) by done.
  assert (quiet (match bridge_mode bridge_status with Stub => println (bs "stub") end)) by (simpl; shell). shell.
Qed.
Lemma ask_safe args : quiet (handle_ask_command args).
Proof. unfold handle_ask_command. shell. Qed.

Lemma install_app_safe name : starts 0 makes 4 (install_app name).
Proof.
  unfold install_app. destruct (install_target name) as [[embedded target]|] eqn:E; [|shell].
  assert (utf8_valid target = true).
  { revert E. unfold install_target. repeat (case_bool_decide; [by intros [= _ <-]|]). done. }
  shell.
Qed.
#[local] Hint Resolve install_app_safe : shell.

Lemma handle_install_safe args : starts 0 makes 4 (handle_install_app args).
Proof. unfold handle_install_app. shell. Qed.

Lemma spawn_from_vfs_safe path cwd : canonical cwd → starts 1 makes 0 (spawn_from_vfs path cwd).
Proof. intros Hc. unfold spawn_from_vfs. shell. Qed.
#[local] Hint Resolve spawn_from_vfs_safe : shell.

Lemma interrupted_write_safe : starts 0 makes 3 handle_fs_interrupted_write_test.
Proof. unfold handle_fs_interrupted_write_test. shell. Qed.

Lemma remove_all_safe paths : Forall (λ p, utf8_valid p = true) paths → quiet (remove_all paths).
Proof. induction 1 as [|p paths Hp Hps IH]; cbn [remove_all length]; shell. Qed.

Lemma cleanup_spends p q : utf8_valid p = true → utf8_valid q = true →
  spends 0 (_ ← remove (D := D) root_dir p; remove root_dir q) (λ _, True).
Proof. intros Hp Hq. apply (spends_bind 0 0 _ _ (λ _, True)); auto with spends. Qed.
Lemma reuse_spends (r : result unit) p bytes : utf8_valid p = true →
  spends 1 (_ ← mlift r; _ ← write_file (D := D) root_dir p bytes; read_file root_dir p) (λ _, True).
Proof.
  intros Hp. look. eapply (spends_take 1); [lia|auto with spends|]. intros _ _; cbn [Nat.sub]. spend_leaf.
Qed.
#[local] Hint Resolve cleanup_spends reuse_spends : spends.

Lemma remove_five_safe p1 p2 p3 p4 p5 : Forall (λ p, utf8_valid p = true) [p1; p2; p3; p4; p5] → quiet (remove_all [p1; p2; p3; p4; p5]).
Proof. apply remove_all_safe. Qed.
#[local] Hint Extern 1 (safe _ _ (remove_all _) _) =>
  (apply remove_five_safe; apply (bool_decide_unpack _); vm_compute; exact I) : shell.

Lemma exhaustion_safe : starts 0 makes 6 handle_fs_exhaustion_test.
Proof. unfold handle_fs_exhaustion_test. shell. Qed.

(** *** Tasks and the machine *)

Lemma print_number_safe prefix value suffix : is_u64 value → quiet (print_number prefix value suffix).
Proof. intros Hv. unfold print_number. shell. Qed.
Lemma pad_print_safe text width : quiet (pad_print text width).
Proof. apply safe_print. Qed.
Lemma info_safe id : quiet (sh_info id).
Proof. apply safe_see. Qed.
#[local] Hint Resolve print_number_safe pad_print_safe info_safe : shell.

Lemma exit_code_safe id : quiet (exit_code_of id).
Proof. unfold exit_code_of. shell. Qed.
Lemma print_process_result_safe id : quiet (print_process_result id).
Proof. unfold print_process_result. shell. Qed.
Lemma print_task_error_safe reason : quiet (print_task_error reason).
Proof. apply print_error_safe. Qed.
Lemma print_load_error_safe reason : quiet (print_load_error reason).
Proof. apply print_error_safe. Qed.
Lemma wait_for_terminated_safe id : quiet (wait_for_terminated id).
Proof. apply safe_yield_until. Qed.
#[local] Hint Resolve exit_code_safe print_process_result_safe print_task_error_safe print_load_error_safe wait_for_terminated_safe : shell.

Lemma print_tasks_safe ts : quiet (print_tasks ts).
Proof. induction ts as [|t ts IH]; cbn [print_tasks]; shell. Qed.
Lemma print_task_summaries_safe ts : quiet (print_task_summaries ts).
Proof. induction ts as [|t ts IH]; cbn [print_task_summaries]; shell. Qed.
Lemma print_user_details_safe id t : quiet (print_user_details id t).
Proof. unfold print_user_details. shell. Qed.
#[local] Hint Resolve print_tasks_safe print_task_summaries_safe print_user_details_safe : shell.

Lemma ps_safe : quiet handle_ps.
Proof. unfold handle_ps. shell. Qed.
Lemma taskinfo_safe args : quiet (handle_taskinfo args).
Proof. unfold handle_taskinfo. shell. Qed.
Lemma kill_safe args : quiet (handle_kill args).
Proof. unfold handle_kill. shell. Qed.
Lemma handle_yield_safe : quiet handle_yield.
Proof. unfold handle_yield. shell. Qed.

Lemma ticks_safe : safe (PT := PT) (D := D) (C := C) 0 0 sh_ticks is_u64.
Proof. intros j b s Hs. rewrite claim_0 in Hs. split; [apply as_u64_range|done]. Qed.
Lemma heap_used_safe : safe (PT := PT) (D := D) (C := C) 0 0 sh_heap_used is_u64.
Proof. intros j b s Hs. rewrite claim_0 in Hs. split; [apply as_u64_range|done]. Qed.
Lemma heap_free_safe : safe (PT := PT) (D := D) (C := C) 0 0 sh_heap_free is_u64.
Proof. intros j b s Hs. rewrite claim_0 in Hs. split; [apply as_u64_range|done]. Qed.
Lemma frame_stats_safe : quiet sh_frame_stats.
Proof. apply safe_see. Qed.
#[local] Hint Resolve ticks_safe heap_used_safe heap_free_safe frame_stats_safe : shell.

Lemma uptime_seconds_safe : safe (PT := PT) (D := D) (C := C) 0 0 uptime_seconds is_u64.
Proof.
  unfold uptime_seconds. eapply safe_next; [apply ticks_safe| |lia|lia]. intros t Ht. apply safe_ret. unfold TIMER_HZ, is_u64 in *.
  pose proof (Z.div_mod t 100). pose proof (Z.mod_pos_bound t 100). nia.
Qed.
#[local] Hint Resolve uptime_seconds_safe : shell.
Lemma uptime_safe : quiet print_uptime.
Proof. unfold print_uptime. shell. Qed.

Lemma saturating_sub_u64 a b : is_u64 a → 0 <= b → is_u64 (saturating_sub a b).
Proof. unfold saturating_sub, is_u64. lia. Qed.

Lemma usable_bytes_u64 regions total : is_u64 total → Forall (λ r, is_u64 (boot_start r) ∧ is_u64 (boot_end r)) regions →
  is_u64 (usable_bytes total regions).
Proof.
  intros Ht Hr. revert total Ht. induction Hr as [|r regions [Hs He] Hr IH]; intros total Ht; [done|]. cbn [usable_bytes]. apply IH.
  destruct (boot_kind r); try done. unfold saturating_add_u, saturating_sub, is_u64 in *. lia.
Qed.
Lemma boot_usable_u64 : is_u64 (boot_usable_bytes (PT := PT) (D := D)).
Proof. apply usable_bytes_u64; [done|apply boot_regions_u64]. Qed.
#[local] Hint Resolve boot_usable_u64 : shell.

Lemma sysinfo_safe : quiet print_sysinfo.
Proof. unfold print_sysinfo. shell. Qed.
Lemma print_regions_safe index regions : Forall (λ r, is_u64 (boot_start r) ∧ is_u64 (boot_end r)) regions →
  quiet (print_regions index regions).
Proof.
  intros Hr. revert index. induction Hr as [|r regions [Hs He] Hr IH]; intros index; cbn [print_regions]; [shell|].
  assert (is_u64 (saturating_sub (boot_end r) (boot_start r))) by (apply saturating_sub_u64; [done|unfold is_u64 in Hs; lia]). shell.
Qed.
Lemma meminfo_safe : quiet print_meminfo.
Proof. unfold print_meminfo. pose proof (print_regions_safe 0 _ boot_regions_u64). shell. Qed.
Lemma memtest_safe : quiet handle_memtest.
Proof. unfold handle_memtest. shell. Qed.
Lemma snapshot_safe : quiet snapshot.
Proof. unfold snapshot. shell. Qed.
#[local] Hint Resolve snapshot_safe : shell.
Lemma monitor_safe : quiet handle_monitor.
Proof. unfold handle_monitor. shell. Qed.

(** *** Running programs *)

Lemma runfs_safe args : starts 1 makes 0 (handle_runfs args).
Proof.
  unfold handle_runfs. cbv zeta. case_bool_decide; [shell|].
  eapply safe_next; [apply safe_vfs, pwd_spends|intros cwd Hc; cbn [Nat.sub]|lia|lia]. destruct cwd as [cwd|]; [|shell].
  specialize (Hc cwd eq_refl). shell.
Qed.

Lemma storage_test_safe : starts 1 makes 4 handle_storage_test.
Proof. unfold handle_storage_test. shell. Qed.

Lemma task_count_safe : quiet (ask_kernel task_count).
Proof. apply safe_see. Qed.
Lemma frame_reuse_safe : quiet frame_reuse_stats.
Proof. unfold frame_reuse_stats. shell. Qed.
Lemma lifecycle_safe : quiet desktop_lifecycle_stats.
Proof. unfold desktop_lifecycle_stats. shell. Qed.
Lemma frames_bumped_safe : quiet frames_bumped_now.
Proof. unfold frames_bumped_now. shell. Qed.
#[local] Hint Resolve frame_reuse_safe lifecycle_safe frames_bumped_safe : shell.

Lemma phase6_utf8 : utf8_valid (bs "/phase6-test") = true.
Proof. reflexivity. Qed.
Lemma phase6_canonical : canonical (bs "/phase6-test").
Proof.
  exists [bs "phase6-test"]. split; [reflexivity|]. split; [|apply (bool_decide_unpack _); vm_compute; exact I].
  repeat constructor. all: try (apply (bool_decide_unpack _); vm_compute; exact I).
Qed.
#[local] Hint Resolve phase6_canonical : shell.

Lemma vfs_test_safe : starts 2 makes 7 handle_vfs_test.
Proof. unfold handle_vfs_test. shell. Qed.

Lemma run_vfs_process_safe path expected : starts 1 makes 0 (run_vfs_process_to_exit path expected).
Proof. unfold run_vfs_process_to_exit. shell. Qed.
#[local] Hint Resolve run_vfs_process_safe : shell.

Lemma all_exit_safe runs : starts (length runs) makes 0 (all_exit runs).
Proof. induction runs as [|[path expected] runs IH]; cbn [all_exit length]; shell. Qed.
Lemma three_exit_safe r1 r2 r3 : starts 3 makes 0 (all_exit [r1; r2; r3]).
Proof. apply (all_exit_safe [r1; r2; r3]). Qed.
#[local] Hint Resolve three_exit_safe : shell.

Lemma ai_preview_safe : starts 6 makes 8 handle_ai_preview_test.
Proof. unfold handle_ai_preview_test. shell. Qed.

Lemma inject_failure_safe n : quiet (inject_next_mmap_failure_after n).
Proof. apply safe_fail_after. Qed.
Lemma clear_injection_safe : quiet clear_mmap_failure_injection.
Proof. apply safe_fail_after. Qed.
#[local] Hint Resolve inject_failure_safe clear_injection_safe : shell.

Lemma mmap_exhaustion_safe : starts 1 makes 0 handle_mmap_exhaustion_test.
Proof. unfold handle_mmap_exhaustion_test. shell. Qed.
Lemma mmap_partial_failure_safe : starts 1 makes 0 handle_mmap_partial_failure_test.
Proof. unfold handle_mmap_partial_failure_test. shell. Qed.

Lemma evidence_safe id pml4 frames : quiet (print_evidence id pml4 frames).
Proof. unfold print_evidence. shell. Qed.
#[local] Hint Resolve evidence_safe : shell.
Lemma isolate_safe args : starts 2 makes 0 (handle_isolate args).
Proof. unfold handle_isolate. shell. Qed.

(** *** Repeated spawns *)

(** How often a command with a count repeats. *)
Definition count_of (hi : Z) (args : str) : nat := Z.to_nat (default 0 (parse_count 1 hi args)).

Lemma count_of_Some hi args count : parse_count 1 hi args = Some count → count_of hi args = Z.to_nat count.
Proof. unfold count_of. by intros ->. Qed.

(** A program that is not one takes no identifier. *)
Lemma malformed_ids name cwd st stack (k : Kernel PT) :
  next_id (spawn_user_process_with_state name MALFORMED_ELF cwd st stack k).2 = next_id k.
Proof.
  unfold spawn_user_process_with_state. destruct (_ <=? _); [done|]. destruct (new_address_space (mach k)) as [[space|e] m]; [|done].
  unfold build_user_tcb. change (build_user_space MALFORMED_ELF (mach (with_mach m k), space))
    with (Err (A := Z) "ELF: file too small for a header", (mach (with_mach m k), space)). done.
Qed.

Lemma malformed_spawn_safe name : quiet (sh_spawn name MALFORMED_ELF root_dir).
Proof.
  intros j b s [Hw Ht Hc]. rewrite claim_0 in Hw. unfold sh_spawn, on_kernel.
  destruct (event_runs (SpawnUser name MALFORMED_ELF root_dir false (next_stack (world s))) (kern (sys (world s)))) as (k&E&Hr);
    [by destruct Hw|apply canonical_root|destruct Hw; lia|].
  pose proof (malformed_ids name root_dir Ready (next_stack (world s)) (kern (sys (world s)))) as Hid. cbn [kernel_step] in E. injection E as E.
  unfold spawn_user_process_with_cwd in *.
  destruct (spawn_user_process_with_state name MALFORMED_ELF root_dir Ready (next_stack (world s)) (kern (sys (world s)))) as [r k1].
  cbn [snd] in *. subst k1. split; [done|]. constructor; [|done|done]. apply (kernel_world (j + turns_ids (turns s))); [done|done|].
  rewrite Hid. by destruct Hw.
Qed.
#[local] Hint Resolve malformed_spawn_safe | 0 : shell.

Lemma failing_spawns_safe count a b : quiet (failing_spawns count a b).
Proof.
  revert a b. induction count as [|count IH]; intros a b; cbn [failing_spawns]; [shell|].
  eapply safe_next; [eauto with shell nocore|intros r _|lia|lia]. destruct r.
  - eapply safe_next; [eauto with shell nocore|intros _ _|lia|lia]. eapply safe_leaf; [apply IH|lia|lia].
  - eapply safe_leaf; [apply IH|lia|lia].
Qed.

Lemma spawnfail_safe args : quiet (handle_spawnfail args).
Proof.
  unfold handle_spawnfail. destruct (parse_count 1 u32_max args) as [count|] eqn:E; [|shell].
  do 2 shell_step. shell_step; [|shell]. shell_step.
  eapply safe_next; [apply failing_spawns_safe|intros [failures oks] _|lia|lia]. shell.
Qed.

Lemma spawn_and_wait_safe prefix bytes i count : starts count makes 0 (spawn_and_wait prefix bytes i count).
Proof.
  revert i. induction count as [|count IH]; intros i; cbn [spawn_and_wait]; [shell|].
  eapply safe_next; [eauto with shell nocore|intros r _|lia|lia]. destruct r; [|shell].
  shell_step. eapply safe_leaf; [apply IH|lia|lia].
Qed.

Lemma reap_safe args : starts (1 + count_of u32_max args) makes 0 (handle_reap args).
Proof.
  unfold handle_reap. destruct (parse_count 1 u32_max args) as [count|] eqn:E; [|shell]. rewrite (count_of_Some _ _ _ E).
  shell_step; [|shell]. shell_step. eapply (safe_next 0 _ 0); [instantiate (1 := λ _, True); shell|intros _ _|lia|lia].
  do 3 shell_step. eapply safe_next; [apply spawn_and_wait_safe|intros r _|lia|lia]. shell.
Qed.

Lemma autoreap_safe args : starts (count_of 100 args) makes 0 (handle_automatic_reap args).
Proof.
  unfold handle_automatic_reap. destruct (parse_count 1 100 args) as [count|] eqn:E; [|shell]. rewrite (count_of_Some _ _ _ E).
  shell_step; [|shell]. do 2 shell_step. eapply safe_next; [apply spawn_and_wait_safe|intros r _|lia|lia].
  unfold wait_ticks. shell.
Qed.

Lemma kill_one_safe bytes : starts 1 makes 0 (kill_one bytes).
Proof. unfold kill_one. shell. Qed.
#[local] Hint Resolve kill_one_safe : shell.

Lemma kill_many_safe bytes count : starts count makes 0 (kill_many bytes count).
Proof.
  induction count as [|count IH]; cbn [kill_many]; [shell|].
  eapply safe_next; [eauto with shell nocore|intros r _|lia|lia]. destruct r; [|shell]. eapply safe_leaf; [apply IH|lia|lia].
Qed.

Lemma killreap_safe args : starts (1 + count_of 100 args) makes 0 (handle_kill_reap args).
Proof.
  unfold handle_kill_reap. destruct (parse_count 1 100 args) as [count|] eqn:E; [|shell]. rewrite (count_of_Some _ _ _ E).
  shell_step; [|shell]. do 2 shell_step. shell_step; [|shell]. shell_step.
  eapply safe_next; [apply kill_many_safe|intros r _|lia|lia]. shell.
Qed.

(** *** Foreground programs *)

Lemma acquire_safe id : quiet (acquire_desktop_foreground id).
Proof. apply safe_on_devices, foreground_devices. Qed.
Lemma release_safe : quiet release_desktop_foreground.
Proof. apply safe_on_devices, foreground_devices. Qed.
Lemma push_key_safe event : quiet (push_key event).
Proof. apply safe_on_devices, push_key_devices. Qed.
Lemma mouse_acts_safe acts : quiet (on_devices (mouse_acts acts)).
Proof. apply safe_on_devices, mouse_acts_devices. Qed.
Lemma interaction_safe acts : quiet (on_devices (interaction acts)).
Proof. apply safe_on_devices, interaction_devices. Qed.
Lemma owner_safe : quiet (on_devices (λ i, (foreground_process_id (keyboard i), i))).
Proof. apply safe_on_devices, devices_safe_id. Qed.
Lemma present_safe id before timeout : quiet (wait_for_desktop_present id before timeout).
Proof. unfold wait_for_desktop_present. shell. Qed.
Lemma exit_safe id timeout : quiet (wait_for_exit id timeout).
Proof. unfold wait_for_exit. shell. Qed.
Lemma wait_ticks_safe n : quiet (wait_ticks n).
Proof. unfold wait_ticks. shell. Qed.
Lemma service_safe deadline : quiet (wait_for_service deadline).
Proof. apply safe_yield_until. Qed.
Lemma stop_safe {A} : quiet (sh_wait (A := A)).
Proof. intros j b s Hs. by eapply sh_ok_stopped. Qed.
#[local] Hint Resolve acquire_safe release_safe push_key_safe mouse_acts_safe interaction_safe owner_safe present_safe exit_safe
  wait_ticks_safe service_safe stop_safe : shell.

Lemma spawn_foreground_safe name bytes : starts 1 makes 0 (spawn_foreground_process name bytes).
Proof. unfold spawn_foreground_process. shell. Qed.
#[local] Hint Resolve spawn_foreground_safe : shell.

Lemma run_packaged_safe path : starts 1 makes 0 (run_packaged_foreground path).
Proof. unfold run_packaged_foreground. shell. Qed.
#[local] Hint Resolve run_packaged_safe : shell.

Lemma session_safe fuel next : starts (S fuel) makes 0 (session fuel next).
Proof.
  revert next. induction fuel as [|fuel IH]; intros next; cbn [session].
  all: eapply safe_next; [eauto with shell nocore|intros r _|lia|lia]; destruct r as [[id exit]|]; [|shell]; do 4 shell_step.
  all: destruct (session_step next exit) as [p| |].
  all: try (eapply safe_leaf; [apply IH|lia|lia]).
  all: shell.
Qed.

Lemma desktop_cycle_safe bytes : starts 1 makes 0 (run_one_desktop_cycle bytes).
Proof. unfold run_one_desktop_cycle. shell. Qed.
#[local] Hint Resolve desktop_cycle_safe : shell.

Lemma desktop_cycles_safe bytes cycle count : starts count makes 0 (desktop_cycles bytes cycle count).
Proof.
  revert cycle. induction count as [|count IH]; intros cycle; cbn [desktop_cycles]; [shell|].
  eapply safe_next; [eauto with shell nocore|intros r _|lia|lia]. destruct r; [|shell].
  eapply safe_next; [eauto with shell nocore|intros _ _|lia|lia]. eapply safe_leaf; [apply IH|lia|lia].
Qed.

Lemma print_change_safe name before after : quiet (print_change name before after).
Proof. apply safe_println. Qed.
#[local] Hint Resolve print_change_safe : shell.

Lemma handle_desktop_cycle_safe args : starts (1 + count_of 100 args) makes 0 (handle_desktop_cycle args).
Proof.
  unfold handle_desktop_cycle. destruct (parse_count 1 100 args) as [count|] eqn:E; [|shell]. rewrite (count_of_Some _ _ _ E).
  shell_step; [|shell]. do 2 shell_step. shell_step; [|shell]. do 2 shell_step.
  eapply safe_next; [apply desktop_cycles_safe|intros r _|lia|lia]. shell.
Qed.

Lemma interaction_test_safe : starts 2 makes 0 handle_desktop_interaction_test.
Proof. unfold handle_desktop_interaction_test. shell. Qed.
Lemma kill_test_safe : starts 1 makes 0 handle_desktop_kill_test.
Proof. unfold handle_desktop_kill_test. shell. Qed.
Lemma peer_safe : starts 2 makes 0 handle_desktop_peer.
Proof. unfold handle_desktop_peer. shell. Qed.
Lemma fault_peer_safe : starts 2 makes 0 handle_desktop_fault_peer.
Proof. unfold handle_desktop_fault_peer. shell. Qed.

Lemma ai_cycle_safe desktop expose : starts 1 makes 0 (run_desktop_ai_cycle desktop expose).
Proof. unfold run_desktop_ai_cycle. shell. Qed.
#[local] Hint Resolve ai_cycle_safe : shell.
Lemma desktop_ai_safe : starts 2 makes 4 handle_desktop_ai_test.
Proof. unfold handle_desktop_ai_test. shell. Qed.

Lemma input_security_safe : starts 1 makes 0 handle_input_security_test.
Proof. unfold handle_input_security_test. shell. Qed.
Lemma checksum_safe : quiet sh_checksum.
Proof. apply safe_see. Qed.
#[local] Hint Resolve checksum_safe : shell.
Lemma display_atomicity_safe : starts 1 makes 0 handle_display_atomicity_test.
Proof. unfold handle_display_atomicity_test. shell. Qed.
Lemma desktop_test_safe : quiet handle_desktop_test.
Proof. unfold handle_desktop_test. shell. Qed.
Lemma mouse_test_safe : quiet handle_mouse_test.
Proof. unfold handle_mouse_test. shell. Qed.
Lemma telemetry_safe : quiet print_input_telemetry.
Proof. apply safe_println. Qed.
End commands.
