(* ===== verification/ShellExecute.v ===== *)
(** [execute_command] as a whole: what a line may use up, and that executing any
    line is safe. *)

From S2P Require Import Prelude Str Device Tree TuwaiqTree TuwaiqFs Fs FsPersist Fat32 Vfs VfsData Input Window X86 Frames Paging PagingSpaces PagingRange PagingCopy PagingSafety Wake Scheduler SchedulerInv Elf OpenFiles Process Vm Display VmSafety VmUnmap TaskInv TaskSafety Syscall SyscallSteps SyscallData SyscallSafety Interrupts InterruptsSafety Terminal VgaText Programs Notes ShellText ShellEdit ShellState ShellFiles ShellTasks ShellMouse ShellDesktop ShellMain ShellSteps ShellVolume ShellSafety.

(** At most how many programs the commands start, and how many records they
    make. *)
Definition fixed_costs : list (str * (nat * nat)) :=
  [(bs "touch", (0, 1)); (bs "mkdir", (0, 1)); (bs "write", (0, 1)); (bs "notes", (0, 2)); (bs "installapp", (0, 4));
   (bs "runfs", (1, 0)); (bs "isolate", (2, 0)); (bs "vfstest", (2, 7)); (bs "storagetest", (1, 4)); (bs "fsinterrupttest", (0, 3));
   (bs "fsexhausttest", (0, 6)); (bs "aipreviewtest", (6, 8)); (bs "desktopaitest", (2, 4)); (bs "desktoppeer", (2, 0));
   (bs "desktopfaultpeer", (2, 0)); (bs "desktopkilltest", (1, 0)); (bs "desktopinteraction", (2, 0))]%nat.

Definition fixed_cost (command : str) : nat * nat :=
  match List.find (λ entry, bool_decide (entry.1 = command)) fixed_costs with Some entry => entry.2 | None => (0, 0)%nat end.

(** Some depend on their argument, and on the turns that are listed ([yields]). *)
Definition command_ids (command args : str) (yields : nat) : nat :=
  if bool_decide (command = bs "reap") then 1 + count_of u32_max args
  else if bool_decide (command = bs "autoreap") then count_of 100 args
  else if bool_decide (command = bs "killreap") then 1 + count_of 100 args
  else if bool_decide (command = bs "desktopcycle") then 1 + count_of 100 args
  else if bool_decide (command = bs "desktop") || bool_decide (command = bs "runelf") then 1 + yields
  else (fixed_cost command).1.

Definition line_ids (line : str) (yields : nat) : nat :=
  let '(command, args) := split_command (trim line) in command_ids command args yields.
Definition line_records (line : str) : nat := (fixed_cost (split_command (trim line)).1).2.

Section execute.
Context {PT D C : Type} `{!BootMap, !KernelFrames, !X86Addr, !X86AddrSpec, !X86_64 PT, !X86_64Spec PT USER_REGION_PML4_INDEX} `{BlockDeviceSpec D}.
Context `{!TextConsole C} `{!ShellPlatform PT D, !ShellPlatformSpec PT D}.
Implicit Types (s : ShellState PT D C).
Notation Cmd := (Cmd PT D C).

(** Safe in a state that lists at most [y] turns. *)
Definition safe_within (y n r : nat) (m : Cmd unit) : Prop :=
  ∀ j b s, (length (turns s) ≤ y)%nat → sh_ok (n + j) (claim r b) s →
    match m s with Done _ s' => sh_ok j b s' | Waiting s' | Rebooted s' => sh_stopped b s' | Panicked => False end.

Lemma safe_safe_within y n k r l (m : Cmd unit) : safe k l m (λ _, True) → (k ≤ n)%nat → (l ≤ r)%nat → safe_within y n r m.
Proof.
  intros Hm Hk Hl j b s _ Hs. assert (safe n r m (λ _, True)) as Hn by (by eapply safe_leaf).
  specialize (Hn j b s Hs). destruct (m s); [|done..]. by destruct Hn.
Qed.

Lemma desktop_within y n : (1 + y ≤ n)%nat → safe_within y n 0 handle_desktop.
Proof.
  intros Hn j b s Hy Hs. unfold handle_desktop.
  assert (safe n 0 (_ ← sh_reap_now; session (length (turns s)) PDesktop : Cmd unit) (λ _, True)) as Hd.
  { eapply (safe_next 0 _ 0); [apply safe_reap|intros _ _|lia|lia]. eapply safe_leaf; [apply session_safe|lia|lia]. }
  specialize (Hd j b s Hs). destruct ((_ ← sh_reap_now; session (length (turns s)) PDesktop) s); [|done..]. by destruct Hd.
Qed.

Lemma runelf_within args y n : (1 + y ≤ n)%nat → safe_within y n 0 (handle_runelf args).
Proof.
  intros Hn. unfold handle_runelf. cbv zeta. case_bool_decide; [by apply desktop_within|].
  apply (safe_safe_within y n 1 0 0); [|lia|lia]. repeat case_bool_decide.
  - eapply safe_leaf; [apply input_security_safe|lia|lia].
  - eapply safe_leaf; [apply display_atomicity_safe|lia|lia].
  - apply mmap_exhaustion_safe.
  - apply mmap_partial_failure_safe.
  - pose proof (print_process_result_safe (PT := PT) (D := D) (C := C)). pose proof (wait_for_terminated_safe (PT := PT) (D := D) (C := C)).
    pose proof (print_load_error_safe (PT := PT) (D := D) (C := C)). shell.
Qed.

Lemma reboot_safe : safe (PT := PT) (D := D) (C := C) 0 0 reboot_system (λ _, True).
Proof.
  unfold reboot_system. eapply (safe_next 0 _ 0); [apply safe_vfs, spends_sync|intros _ _|lia|lia].
  intros j b s Hs. by eapply sh_ok_stopped.
Qed.
Lemma unknown_safe command : safe (PT := PT) (D := D) (C := C) 0 0 (unknown_command command) (λ _, True).
Proof. unfold unknown_command. shell. Qed.

(** Every row of the table. *)
Lemma row_within y name (m : Cmd unit) n r args : (n, r) = fixed_cost name →
  bool_decide (name ∉ [bs "reap"; bs "autoreap"; bs "killreap"; bs "desktopcycle"; bs "desktop"; bs "runelf"]) = true →
  safe n r m (λ _, True) → safe_within y (command_ids name args y) (fixed_cost name).2 m.
Proof.
  intros Hc Hn%bool_decide_eq_true Hm. rewrite !not_elem_of_cons in Hn. destruct Hn as (E1&E2&E3&E4&E5&E6&_).
  unfold command_ids. rewrite !bool_decide_eq_false_2 by done. rewrite <- Hc. by eapply safe_safe_within.
Qed.

Lemma print_lines_within lines : safe (PT := PT) (D := D) (C := C) 0 0 (print_lines lines) (λ _, True).
Proof. apply safe_print_lines. Qed.

#[local] Hint Resolve pwd_safe cd_safe ls_safe mounts_safe touch_safe mkdir_safe cat_safe write_safe run_safe notes_safe editor_safe
  net_safe ping_safe ai_safe ask_safe handle_install_safe interrupted_write_safe exhaustion_safe ps_safe taskinfo_safe kill_safe
  handle_yield_safe uptime_safe sysinfo_safe meminfo_safe memtest_safe monitor_safe runfs_safe storage_test_safe vfs_test_safe
  ai_preview_safe isolate_safe interaction_test_safe kill_test_safe peer_safe fault_peer_safe desktop_ai_safe desktop_test_safe
  mouse_test_safe telemetry_safe reboot_safe print_lines_within spawnfail_safe : shell.

Lemma table_within line args y : utf8_valid args = true →
  Forall (λ entry, safe_within y (command_ids entry.1 args y) (fixed_cost entry.1).2 entry.2) (command_table (PT := PT) (D := D) (C := C) line args).
Proof.
  intros Hu. unfold command_table, print_help, print_banner, print_about.
  repeat (apply Forall_cons; split; [cbn [fst snd]; try (eapply row_within; [vm_compute; reflexivity|reflexivity|solve [eauto with shell nocore]])|]); [..|constructor].
  - by apply runelf_within.
  - eapply safe_safe_within; [apply reap_safe|done|done].
  - eapply safe_safe_within; [apply autoreap_safe|done|done].
  - eapply safe_safe_within; [apply killreap_safe|done|done].
  - by apply desktop_within.
  - eapply safe_safe_within; [apply handle_desktop_cycle_safe|done|done].
Qed.

Lemma find_within command args line y : utf8_valid args = true →
  safe_within y (command_ids command args y) (fixed_cost command).2 (find_command command (command_table (PT := PT) (D := D) (C := C) line args)).
Proof.
  intros Hu. unfold find_command. destruct (List.find _ (command_table line args)) as [[name m]|] eqn:E.
  - apply List.find_some in E as [Hin E]. apply bool_decide_eq_true in E as <-.
    pose proof (table_within line args y Hu) as Ht. rewrite Forall_forall in Ht. apply (Ht (name, m)). by apply list_elem_of_In.
  - eapply safe_safe_within; [apply unknown_safe|lia|lia].
Qed.

Lemma execute_within line y : utf8_valid line = true →
  safe_within y (line_ids line y) (line_records line) (execute_command (PT := PT) (D := D) (C := C) line).
Proof.
  intros Hu. unfold execute_command, line_ids, line_records. cbv zeta. pose proof (split_command_utf8 (trim line) (trim_utf8 line Hu)) as [_ Hargs].
  destruct (split_command (trim line)) as [command args]. case_bool_decide.
  - eapply safe_safe_within; [apply safe_ret_any|lia|lia].
  - by apply find_within.
Qed.

(** No line breaks the system. Whatever text is executed as a command - any
    command on any arguments, valid or not - from a state in order, with task
    identifiers left for the programs it starts, the shell does not panic: it
    comes back with machine, console and filesystem in order, or waits for the
    other tasks, or reboots, leaving them in order. A claim on the volume - that
    it is in step with the tree and has room - is kept, less the records of the
    files and directories the line makes. *)
Theorem commands_are_safe line s n b : utf8_valid line = true →
  sh_ok (line_ids line (length (turns s)) + n) (claim (line_records line) b) s →
  match execute_command line s with
  | Done _ s' => sh_ok n b s'
  | Waiting s' | Rebooted s' => sh_stopped b s'
  | Panicked => False
  end.
Proof. intros Hu Hs. by apply (execute_within line (length (turns s)) Hu n b s). Qed.
End execute.

(** ** A shell on the small machine *)

Module ShellSample.
Export MachineSample.
#[local] Existing Instance sim_addr.
#[local] Existing Instance sim_addr_spec.
#[local] Existing Instance sim_x86.
#[local] Existing Instance PagingSafety.Sample.sample_spec.
#[local] Existing Instance PagingSafety.Sample.sample_map.
#[local] Existing Instance PagingSafety.Sample.sample_heap.

#[local] Instance platform : ShellPlatform sim_pt sim_disk := {
  program_image := λ _, ElfSample.program;
  heap_used := λ _, 4096;
  heap_free := λ _, 8192;
  next_stack := λ _, 0x9000;
  switch_rsp := λ _, 0x8000;
  boot_regions := [mk_boot_region 0 0x1000 RegionUsable; mk_boot_region 0x1000 0x2000 RegionBootloader];
  boot_framebuffer := Some (640, 480);
  vm_batch_report := λ _, bs "vm"
}.
#[local] Instance platform_spec : ShellPlatformSpec sim_pt sim_disk.
Proof. constructor. repeat constructor; discriminate. Qed.

(** The shell's task runs; two processes wait. *)
Definition kernel : Kernel sim_pt := default (unstarted PagingSafety.Sample.machine) (TaskSample.start TaskSample.spawns).
Definition machine : World sim_pt sim_disk := with_kernel kernel world.

Lemma kernel_reached : kernel_reachable kernel.
Proof. apply TaskSample.start_reachable; [apply TaskSample.spawns_ok|by vm_compute]. Qed.

Definition start (ts : list (list Step)) : ShellState sim_pt sim_disk Vga := mk_shell machine blank_vga (net_init net_boot) ts.

Lemma start_ok n m ts : (n + turns_ids ts ≤ 100)%nat → (m + turns_records ts ≤ 100)%nat → Forall (Forall step_ok) ts →
  sh_ok n (Some m) (start ts).
Proof.
  intros Hn Hm Hts. constructor; [|done|exists (term_clear vga_geometry); apply blank_vga_view].
  apply (world_ok_ids 100); [done|]. constructor.
  - apply kernel_reachable_inv, kernel_reached.
  - vm_compute. discriminate.
  - unfold mouse_ok, on_axis. vm_compute. repeat split; (discriminate || lia).
  - split; [|reflexivity]. vm_compute. lia.
  - apply volume_in_step. exists w_table, SyscallSample.tree. split; [apply SyscallSample.disk_ready|]. split; [repeat constructor; discriminate|].
    apply (room_for_mono 100); [cbn [turns start]; lia|vm_compute; lia].
Qed.

(** While the shell waits for the program it started, the idle task uses up its
    time slice, the heartbeat task sleeps, one process faults and two exit. *)
Definition exit_frame (code : Z) : SyscallFrame := mk_frame 0 0 0 0 0 0 0 0 0 code 0 0 0 0 SYS_EXIT.
Definition one_turn : list (list Step) :=
  [replicate 5 (TimerTick 0x700) ++ [HeartbeatSleeps 0x700; Fault InvalidOpcode 0x2B 0x600; SystemCall 0x400 0 (exit_frame 0);
    SystemCall 0x400 0 (exit_frame 7)]].

Lemma one_turn_ok : Forall (Forall step_ok) one_turn.
Proof. unfold one_turn. cbn [replicate app]. repeat (apply Forall_cons; split); done || constructor. Qed.

(** What a run shows of where it ended. *)
Definition run_view {A} (r : Run (ShellState sim_pt sim_disk Vga) A) : option (option Z * nat * option Z) :=
  match r with
  | Done _ s => Some (current_task_id (kernel_of s), Z.to_nat (task_count (kernel_of s)), match info 6 (kernel_of s) with Ok t => task_exit_code t | Err _ => None end)
  | _ => None
  end.

Lemma commands_are_safe_witness :
  run_view (execute_command (bs "runelf hello") (start one_turn)) = Some (Some 1, 6%nat, Some 7) ∧
  match execute_command (bs "runelf hello") (start one_turn) with
  | Done _ s' => sh_ok 40 (Some 40%nat) s'
  | Waiting s' | Rebooted s' => sh_stopped (Some 40%nat) s'
  | Panicked => False
  end.
Proof.
  split; [vm_compute; reflexivity|]. apply (commands_are_safe (bs "runelf hello") (start one_turn) 40 (Some 40%nat)); [reflexivity|].
  apply (start_ok _ 40); [vm_compute; lia|vm_compute; lia|apply one_turn_ok].
Defined.
End ShellSample.
