(* ===== verification/ShellLoop.v ===== *)
(** The shell's loop is safe: whatever keys are queued and whatever lines they
    make up, a round of the loop of [run] does not panic and keeps the editor,
    the console, the machine and the volume in order. *)

From S2P Require Import Prelude Str Device Tree TuwaiqTree TuwaiqFs Fs FsPersist Fat32 Vfs VfsData Input Window X86 Frames Paging PagingSpaces PagingRange PagingCopy PagingSafety Wake Scheduler SchedulerInv OpenFiles Process Vm Display VmSafety VmUnmap TaskInv TaskSafety Syscall SyscallSteps SyscallData SyscallSafety Interrupts InterruptsSafety Terminal VgaText Programs Notes ShellText ShellEdit ShellState ShellFiles ShellTasks ShellMouse ShellDesktop ShellMain ShellSteps ShellVolume ShellSafety ShellExecute.

Section editing.
Context {C D : Type} `{!TextConsole C} `{BlockDeviceSpec D}.
Implicit Types (e : Editor C D).

(** The editor between keys: the console works, the line fits its buffer and
    the history is well formed. *)
Record editing e : Prop := mk_editing {
  ed_live : ∃ t, con_view (ShellEdit.con e) t;
  ed_width : length (line e) = MAX_LINE;
  ed_fill : (len e ≤ MAX_LINE)%nat;
  ed_past : hist_ok (history e)
}.

(** [e'] is [e] up to the console. *)
Definition redrawn e e' : Prop := editing e' ∧ evfs e' = evfs e ∧ line e' = line e ∧ len e' = len e ∧ history e' = history e.

Lemma redrawn_refl e : editing e → redrawn e e.
Proof. by intros. Qed.
Lemma redrawn_trans e1 e2 e3 : redrawn e1 e2 → redrawn e2 e3 → redrawn e1 e3.
Proof. intros (_&E1&E2&E3&E4) (He&F1&F2&F3&F4). split; [done|]. by rewrite F1, F2, F3, F4. Qed.

Lemma redrawn_console e c t : editing e → con_view c t → redrawn e (with_con c e).
Proof. intros [_ Hw Hf Hp] Hc. split_and!; [|done..]. by split; [exists t|..]. Qed.

Lemma e_print_redraws text e : editing e → ∃ e', e_print text e = Some e' ∧ redrawn e e'.
Proof.
  intros He. destruct (ed_live e He) as [t Ht]. destruct (con_print_spec text _ t Ht) as (c&E&_&Hc).
  unfold e_print. rewrite E. eexists. split; [done|]. by eapply redrawn_console.
Qed.
Lemma e_println_redraws text e : editing e → ∃ e', e_println text e = Some e' ∧ redrawn e e'.
Proof.
  intros He. destruct (ed_live e He) as [t Ht]. destruct (con_println_spec text _ t Ht) as (c&E&_&Hc).
  unfold e_println. rewrite E. eexists. split; [done|]. by eapply redrawn_console.
Qed.
Lemma backspace_redraws e : editing e → ∃ e', backspace e = Some e' ∧ redrawn e e'.
Proof.
  intros He. destruct (ed_live e He) as [t Ht]. destruct (con_backspace_spec _ t Ht) as (c&E&_&Hc).
  unfold backspace. rewrite E. eexists. split; [done|]. by eapply redrawn_console.
Qed.

(** One redrawing step after another. *)
Lemma redraw_bind (m f : Editor C D → option (Editor C D)) e : (∃ e', m e = Some e' ∧ redrawn e e') →
  (∀ e', redrawn e e' → ∃ e'', f e' = Some e'' ∧ redrawn e' e'') → ∃ e'', (e ← m e; f e) = Some e'' ∧ redrawn e e''.
Proof.
  intros (e'&E&He') Hf. rewrite E. destruct (Hf e' He') as (e''&E2&He''). exists e''. split; [done|]. by eapply redrawn_trans.
Qed.

Lemma print_chars_redraws text e : editing e → ∃ e', print_chars text e = Some e' ∧ redrawn e e'.
Proof.
  revert e. induction text as [|b text IH]; intros e He; cbn [print_chars]; [exists e; by split|].
  apply redraw_bind; [by apply e_print_redraws|]. intros e' He'. apply IH, He'.
Qed.
Lemma backspaces_redraws n e : editing e → ∃ e', backspaces n e = Some e' ∧ redrawn e e'.
Proof.
  revert e. induction n as [|n IH]; intros e He; cbn [backspaces]; [exists e; by split|].
  apply redraw_bind; [by apply backspace_redraws|]. intros e' He'. apply IH, He'.
Qed.
Lemma println_all_redraws texts e : editing e → ∃ e', println_all texts e = Some e' ∧ redrawn e e'.
Proof.
  revert e. induction texts as [|b texts IH]; intros e He; cbn [println_all]; [exists e; by split|].
  apply redraw_bind; [by apply e_println_redraws|]. intros e' He'. apply IH, He'.
Qed.
Lemma prompt_redraws e : editing e → ∃ e', print_dynamic_prompt e = Some e' ∧ redrawn e e'.
Proof. apply e_print_redraws. Qed.

(** A key leaves the editor in order and takes nothing from the volume; a line it
    completes is what the buffer holds. *)
Definition keyed e e' : Prop := editing e' ∧ grows 0 (evfs e) (evfs e').

Lemma keyed_same e e' : editing e' → evfs e' = evfs e → keyed e e'.
Proof. intros He E. split; [done|]. rewrite E. by apply keeps_grows. Qed.

Lemma replace_input_keyed new e : editing e → ∃ e', replace_input new e = Some e' ∧ editing e' ∧ evfs e' = evfs e.
Proof.
  intros He. unfold replace_input. destruct (backspaces_redraws (len e) e He) as (e1&E1&He1&Ev&_). rewrite E1. cbn [mbind option_bind].
  set (e2 := with_line _ _ e1).
  assert (editing e2) as He2.
  { destruct He1 as [Hl Hw Hf Hp]. split; [done| |apply Nat.le_min_r|done].
    simpl. rewrite length_copy_at; [done|]. rewrite length_take, Hw. lia. }
  destruct (print_chars_redraws (take (Nat.min (length new) MAX_LINE) new) e2 He2) as (e3&E3&He3&Ev3&_).
  exists e3. split; [done|]. split; [done|]. by rewrite Ev3.
Qed.

Lemma tab_complete_keyed e : editing e → ∃ e', tab_complete e = Some e' ∧ keyed e e'.
Proof.
  intros He. unfold tab_complete. cbv zeta. case_bool_decide; [exists e; split; [done|by apply keyed_same]|].
  destruct (tab_matches _ (evfs e)) as [matches v] eqn:Et.
  assert (grows 0 (evfs e) v) as Hv.
  { unfold tab_matches in Et. destruct (match rfind _ _ with Some _ => _ | None => _ end) as [token is_command].
    pose proof (candidates_spends (D := D) token) as Hc. destruct (completion_candidates token (evfs e)) as [r v'] eqn:Ec.
    injection Et as _ <-. intros b Hv. specialize (Hc (evfs e) b Hv). rewrite Ec in Hc. by destruct Hc. }
  assert (editing (with_evfs v e)) as He1 by (by destruct He).
  assert (∀ e', editing e' → evfs e' = v → keyed e e') as Hk by (by intros e' ? E; split; [|rewrite E]).
  destruct matches as [|m [|m2 ms]].
  - exists (with_evfs v e). split; [done|]. by apply Hk.
  - destruct (replace_input_keyed
      (let base := match rfind space (trim_end (text_or_empty (take (len e) (line e)))) with
                   | Some index => take (index + 1) (trim_end (text_or_empty (take (len e) (line e)))) | None => [] end in
       if existsb (λ c, bool_decide (c = m)) command_names || bool_decide (base = []) then (base ++ m) ++ [space] else base ++ m)
      _ He1) as (e'&E&He'&Ev).
    exists e'. split; [exact E|]. by apply Hk.
  - edestruct (redraw_bind (e_println []) (λ e1, e1 ← println_all (m :: m2 :: ms) e1; e1 ← print_dynamic_prompt e1; print_chars (take (len e1) (line e1)) e1)
      (with_evfs v e)) as (e'&E&He'&Ev&_).
    + by apply e_println_redraws.
    + intros e1 [He1' _]. apply redraw_bind; [by apply println_all_redraws|]. intros e2 [He2 _].
      apply (redraw_bind print_dynamic_prompt (λ e, print_chars (take (len e) (line e)) e)); [by apply prompt_redraws|].
      intros e3 [He3 _]. by apply print_chars_redraws.
    + exists e'. split; [exact E|]. by apply Hk.
Qed.

(** The line the editor holds. *)
Definition pending e : str := trim (text_or_empty (take (len e) (line e))).

Lemma text_or_empty_utf8 bytes : utf8_valid (text_or_empty bytes) = true.
Proof. unfold text_or_empty. by destruct (utf8_valid bytes) eqn:E. Qed.
Lemma pending_utf8 e : utf8_valid (pending e) = true.
Proof. apply trim_utf8, text_or_empty_utf8. Qed.

Lemma recalled_keyed e (rh : option str * History) : editing e → hist_ok rh.2 →
  ∃ e', match rh with
        | (Some entry, h) => e ← replace_input entry (with_history h e); Some (e, None)
        | (None, h) => Some (with_history h e, None)
        end = Some (e', None : option str) ∧ keyed e e'.
Proof.
  intros [Hl Hw Hf Hp] Hh. destruct rh as [[entry|] h].
  - destruct (replace_input_keyed entry (with_history h e)) as (e'&E&He'&Ev); [by split|].
    rewrite E. exists e'. split; [done|]. by apply keyed_same.
  - eexists. split; [done|]. by apply keyed_same.
Qed.

Lemma key_keyed event e : editing e →
  ∃ e' r, key event e = Some (e', r) ∧ keyed e e' ∧ (∀ text, r = Some text → text = pending e).
Proof.
  intros He. pose proof He as [Hl Hw Hf Hp].
  destruct event as [c| | | | | | |]; cbn [key].
  - destruct (Nat.ltb_spec (len e) MAX_LINE); [|exists e, None; split; [done|split; [by apply keyed_same|done]]].
    destruct (e_print_redraws (char_text (z2b c)) (with_line (<[len e := z2b c]> (line e)) (len e + 1) e)) as (e'&E&He'&Ev&_).
    { split; simpl; [done|by rewrite length_insert|lia|done]. }
    unfold print_char. rewrite E. exists e', None. split; [done|]. split; [by apply keyed_same|done].
  - destruct (e_println_redraws [] e He) as (e'&E&He'&Ev&El&En&Eh). rewrite E. cbn [mbind option_bind].
    eexists _, _. split; [done|]. split.
    + apply keyed_same; [|done]. destruct He' as [? Hw' Hf' ?]. split; simpl; [done..|]. apply push_ok; [done|done|by rewrite Hw'].
    + intros text [= <-]. unfold pending. by rewrite El, En.
  - destruct (0 <? len e)%nat; [|exists e, None; split; [done|split; [by apply keyed_same|done]]].
    destruct (backspace_redraws (with_line (line e) (len e - 1) e)) as (e'&E&He'&Ev&_).
    { split; simpl; [done|done|lia|done]. }
    rewrite E. exists e', None. split; [done|]. split; [by apply keyed_same|done].
  - destruct (recalled_keyed e (recall_up (history e)) He) as (e'&E&Hk).
    { destruct (recall_up (history e)) as [r h] eqn:Er. by apply (recall_keeps _ r h Hp (or_introl Er)). }
    by exists e', None.
  - destruct (recalled_keyed e (recall_down (history e)) He) as (e'&E&Hk).
    { destruct (recall_down (history e)) as [r h] eqn:Er. by apply (recall_keeps _ r h Hp (or_intror Er)). }
    by exists e', None.
  - destruct (tab_complete_keyed e He) as (e'&E&Hk). rewrite E. by exists e', None.
  - exists e, None. split; [done|]. split; [by apply keyed_same|done].
  - exists e, None. split; [done|]. split; [by apply keyed_same|done].
Qed.

Lemma next_line_keyed e : editing e → ∃ e', next_line e = Some e' ∧ keyed e e'.
Proof.
  intros [Hl Hw Hf Hp]. unfold next_line. cbv zeta.
  set (e0 := with_line _ _ e). assert (editing e0) as He0.
  { split; simpl; [done| |done|done]. rewrite length_copy_at; [done|]. rewrite length_replicate. lia. }
  destruct (e_println_redraws [] e0 He0) as (e1&E1&He1&Ev1&_). rewrite E1. cbn [mbind option_bind].
  destruct (prompt_redraws e1 He1) as (e2&E2&He2&Ev2&_). rewrite E2. cbn [mbind option_bind].
  eexists. split; [done|]. apply keyed_same; [|simpl; by rewrite Ev2, Ev1]. destruct He2 as [? ? ? [? ? ? ?]]. split; simpl; [done|done|lia|by split].
Qed.
End editing.

Section rounds.
Context {PT D C : Type} `{!BootMap, !KernelFrames, !X86Addr, !X86AddrSpec, !X86_64 PT, !X86_64Spec PT USER_REGION_PML4_INDEX} `{BlockDeviceSpec D}.
Context `{!TextConsole C} `{!ShellPlatform PT D, !ShellPlatformSpec PT D}.
Implicit Types (s : Session PT D C).

(** The session between rounds, with identifiers for [n] programs and what [b]
    claims of the volume. *)
Definition session_ok (n : nat) (b : option nat) s : Prop := sh_ok n b (shell s) ∧ editing (editor_of s).

(** What the line that the next round may complete uses up. *)
Definition round_ids s : nat := line_ids (pending (editor_of s)) (length (turns (shell s))).
Definition round_records s : nat := line_records (pending (editor_of s)).

Lemma edited_ok n b e s : session_ok n b s → keyed (editor_of s) e → session_ok n b (edited e s).
Proof.
  intros [[[Hk Hi Hm Hq Hf] Hts Hc] _] [He Hg]. split; [|by destruct He].
  constructor; [|done|by apply He]. constructor; [done|done|done|done|]. apply Hg. by rewrite claim_0.
Qed.

Lemma on_shell_ok {A} (m : Cmd PT D C A) (P : A → Prop) n b s k r : session_ok (k + n) (claim r b) s → safe k r m P →
  match on_shell m s with
  | Done a s' => P a ∧ session_ok n b s' ∧ input_line s' = input_line s ∧ input_len s' = input_len s ∧ past s' = past s
  | Waiting s' | Rebooted s' => sh_stopped b (shell s')
  | Panicked => False
  end.
Proof.
  intros [Hs He] Hm. specialize (Hm n b (shell s) Hs). unfold on_shell. destruct (m (shell s)) as [a sh|sh|sh|]; [|done..].
  destruct Hm as [HP Hsh]. split_and!; [done| |done..]. split; [done|].
  destruct He as [_ Hw Hf Hp]. split; [apply (ok_console _ _ _ Hsh)|exact Hw|exact Hf|exact Hp].
Qed.

Lemma sh_poll_key_safe : safe (PT := PT) (D := D) (C := C) 0 0 sh_poll_key (λ _, True).
Proof.
  apply safe_on_devices. intros i Hm Hd. destruct (poll_key (keyboard i)) as [k kb]. split_and!; [|done|done].
  revert Hm. by apply mouse_ok_frame.
Qed.

Lemma session_ok_mono n n' r r' b s : (n' ≤ n)%nat → (r' ≤ r)%nat → session_ok n (claim r b) s → session_ok n' (claim r' b) s.
Proof. intros Hn Hr [Hs He]. split; [by eapply sh_ok_mono|done]. Qed.

Lemma press_ok event n b s : session_ok n b s →
  ∃ r s', press event s = Done r s' ∧ session_ok n b s' ∧ turns (shell s') = turns (shell s) ∧
    ∀ text, r = Some text → text = pending (editor_of s).
Proof.
  intros Hs. destruct (key_keyed event (editor_of s) (proj2 Hs)) as (e&r&E&Hk&Hr). unfold press, on_editor. rewrite E.
  exists r, (edited e s). split_and!; [done|by apply edited_ok|done|done].
Qed.

Lemma start_line_ok n b s : session_ok n b s → ∃ s', start_line s = Done tt s' ∧ session_ok n b s'.
Proof.
  intros Hs. destruct (next_line_keyed (editor_of s) (proj2 Hs)) as (e&E&Hk). unfold start_line, on_editor. rewrite E.
  cbn [mbind option_bind]. exists (edited e s). split; [done|by apply edited_ok].
Qed.

(** Where a round leaves the session. *)
Definition round_ends (n : nat) (b : option nat) (r : Run (Session PT D C) unit) : Prop :=
  match r with
  | Done _ s' => session_ok n b s'
  | Waiting s' | Rebooted s' => sh_stopped b (shell s')
  | Panicked => False
  end.

Lemma round_tail event n b s : session_ok (round_ids s + n) (claim (round_records s) b) s →
  round_ends n b ((entered ← press event;
                   match entered with
                   | None => mret tt
                   | Some command => _ ← on_shell (execute_command command); start_line
                   end) s).
Proof.
  intros Hs. destruct (press_ok event _ _ s Hs) as (r&s1&E&Hs1&Ht&Hr). unfold mbind at 1, Sh_bind at 1. rewrite E.
  destruct r as [command|]; [|rewrite <- (claim_0 b); eapply session_ok_mono; [| |exact Hs1]; lia].
  rewrite (Hr command eq_refl) in *. unfold mbind, Sh_bind, on_shell.
  pose proof (execute_within (pending (editor_of s)) (length (turns (shell s))) (pending_utf8 _) n b (shell s1)) as Hx.
  rewrite Ht in Hx. specialize (Hx (le_n _) (proj1 Hs1)).
  destruct (execute_command _ (shell s1)) as [[] sh|sh|sh|]; [|done..].
  destruct (start_line_ok n b (mk_session sh (input_line s1) (input_len s1) (past s1))) as (s2&E2&Hs2).
  - split; [done|]. destruct (proj2 Hs1) as [_ Hw Hf Hp]. split; [apply (ok_console _ _ _ Hx)|exact Hw|exact Hf|exact Hp].
  - rewrite E2. exact Hs2.
Qed.

(** C4: The shell's loop never breaks. From a session in order - machine safe,
    console working, editor well formed, whatever the tree and the disk hold - a
    round of the loop of [run] does not panic, whatever key is queued, whatever
    line it completes and whatever the other tasks do meanwhile (other than raise
    an exception without a gate), as long as there are task identifiers left for
    the programs that the line and the others start. It leaves a session in
    order, or waits, or has rebooted, with the machine in order. And a volume in
    step with the tree ([b] claims it, with that many records of room) stays in
    step, as long as the files and directories that are made meanwhile do not
    take it over 1,024 records. *)
Theorem shell_round_is_safe n b s : session_ok (round_ids s + n) (claim (round_records s) b) s →
  match shell_round s with
  | Done _ s' => session_ok n b s'
  | Waiting s' | Rebooted s' => sh_stopped b (shell s')
  | Panicked => False
  end.
Proof.
  intros Hs. change (round_ends n b (shell_round s)). unfold shell_round, mbind at 1, Sh_bind at 1.
  pose proof (on_shell_ok sh_poll_key (λ _, True) (round_ids s + n) (claim (round_records s) b) s 0 0) as Hp.
  rewrite claim_0 in Hp. specialize (Hp Hs sh_poll_key_safe).
  destruct (on_shell sh_poll_key s) as [event s1|s1|s1|] eqn:E.
  2,3: by destruct Hp as [Hw Hc]; split; [rewrite <- (claim_0 b); eapply world_ok_mono; [| |exact Hw]; lia|].
  2: done.
  destruct Hp as (_&Hs1&El&En&_).
  assert (pending (editor_of s1) = pending (editor_of s)) as Hpend.
  { unfold pending. change (line (editor_of s1)) with (input_line s1). change (len (editor_of s1)) with (input_len s1). by rewrite El, En. }
  assert (length (turns (shell s1)) = length (turns (shell s))) as Hturns.
  { f_equal. revert E. unfold on_shell, sh_poll_key, on_devices. destruct (poll_key _) as [k kb]. by intros [= _ <-]. }
  assert (session_ok (round_ids s1 + n) (claim (round_records s1) b) s1) as Hs1' by (unfold round_ids, round_records; by rewrite Hpend, Hturns).
  destruct event; try by apply round_tail.
  pose proof (on_shell_ok others_run (λ _, True) n b s1 0 0) as Ho.
  specialize (Ho ltac:(eapply session_ok_mono; [| |exact Hs1]; lia) safe_others_run).
  destruct (on_shell others_run s1); [|done..]. by destruct Ho as (_&?&_).
Qed.
End rounds.

(** *** Witness: [Enter] executes the line that was typed *)

Module ShellRound.
Import ShellSample.
#[local] Existing Instance sim_addr.
#[local] Existing Instance sim_addr_spec.
#[local] Existing Instance sim_x86.
#[local] Existing Instance PagingSafety.Sample.sample_spec.
#[local] Existing Instance PagingSafety.Sample.sample_map.
#[local] Existing Instance PagingSafety.Sample.sample_heap.
#[local] Existing Instance platform.
#[local] Existing Instance platform_spec.

Definition typed_line : str := bs "runelf hello".
Definition enter_queued : World sim_pt sim_disk :=
  with_io (with_keyboard (set_shell_queue [Enter]) (io_of machine)) machine.

Definition session : Session sim_pt sim_disk Vga :=
  mk_session (with_world enter_queued (start one_turn)) (copy_at 0 typed_line (replicate MAX_LINE Byte.x00)) 12 history_new.

Lemma queued_in_order n b ts q (w : World sim_pt sim_disk) c nt : sh_ok n b (mk_shell w c nt ts) →
  sh_ok n b (mk_shell (with_io (with_keyboard (set_shell_queue q) (io_of w)) w) c nt ts).
Proof.
  intros [Hw Ht Hc]. constructor; [|done|done]. cbn [world turns] in *.
  apply device_world; [exact Hw|by destruct Hw|by eapply world_device_ok|done].
Qed.

Lemma session_in_order n m : (n ≤ 40)%nat → (m ≤ 40)%nat → session_ok n (Some m) session.
Proof.
  intros Hn Hm. split.
  - apply (sh_ok_ids 40); [done|]. apply (queued_in_order 40 (Some m) one_turn [Enter] machine).
    apply (start_ok 40 m one_turn); [vm_compute; lia|cbn; lia|apply one_turn_ok].
  - split; [exists (term_clear vga_geometry); apply blank_vga_view|reflexivity|vm_compute; lia|apply history_new_ok].
Qed.

Lemma shell_round_is_safe_witness :
  match shell_round session with
  | Done _ s' => (input_len s', hist_lines (past s'), current_task_id (kernel_of (shell s'))) = (0%nat, [typed_line], Some 1)
  | _ => False
  end ∧
  match shell_round session with
  | Done _ s' => session_ok 20 (Some 20%nat) s'
  | Waiting s' | Rebooted s' => sh_stopped (Some 20%nat) (shell s')
  | Panicked => False
  end.
Proof.
  split; [vm_compute; reflexivity|]. apply (shell_round_is_safe 20 (Some 20%nat) session).
  apply session_in_order; vm_compute; lia.
Defined.
End ShellRound.
