(* ===== verification/ShellForeground.v ===== *)
(** Handing the foreground to a process: [spawn_foreground_process] of
    kernel/shell.rs starts a process suspended, gives it the keyboard and the
    display, and only then makes it ready. *)

From S2P Require Import Prelude Str Device Tree TuwaiqTree TuwaiqFs Fs FsPersist Fat32 Vfs VfsData Input Window X86 Frames Paging PagingSpaces PagingRange PagingCopy PagingSafety Wake Scheduler SchedulerInv Elf OpenFiles Process Vm Display VmSafety VmUnmap TaskInv TaskSafety Syscall SyscallSteps SyscallData SyscallSafety Interrupts InterruptsSafety Terminal VgaText Programs Notes ShellText ShellEdit ShellState ShellFiles ShellTasks ShellMouse ShellDesktop ShellMain ShellSteps ShellVolume ShellSafety ShellExecute.

Section tables.
Context {PT : Type} `{!X86Addr, !X86_64 PT}.
Implicit Types (k : Kernel PT).

Lemma scheduler_build bytes name cwd stack space k : scheduler (build_user_tcb bytes name cwd stack space k).2 = scheduler k.
Proof. unfold build_user_tcb. by destruct (build_user_space bytes (mach k, space)) as [[entry|e] [m space']]. Qed.

Lemma build_task bytes name cwd stack space k t k' : build_user_tcb bytes name cwd stack space k = (Ok t, k') →
  wake_at_tick t = 0 ∧ ∀ st, Scheduler.snapshot (set_state st t) = mk_task (next_id k) name st UserTask None.
Proof. unfold build_user_tcb. destruct (build_user_space bytes (mach k, space)) as [[entry|e] [m space']]; [|done]. by intros [= <- _]. Qed.

(** A spawn adds one task at the end of the table, or none. *)
Lemma spawn_adds name bytes cwd st stack k sc r k' : scheduler k = Some sc →
  spawn_user_process_with_state name bytes cwd st stack k = (r, k') →
  match r with
  | Ok id => id = next_id k ∧ ∃ t, scheduler k' = Some (mk_sched (tasks sc ++ [t]) (current sc)) ∧
      tcb_state t = st ∧ wake_at_tick t = 0 ∧ ∀ st, Scheduler.snapshot (set_state st t) = mk_task id name st UserTask None
  | Err _ => scheduler k' = Some sc
  end.
Proof.
  intros Hsc. unfold spawn_user_process_with_state. destruct (MAX_TASKS <=? task_count k); [by intros [= <- <-]|].
  destruct (new_address_space (mach k)) as [[space|e] m]; [|by intros [= <- <-]].
  pose proof (scheduler_build bytes name cwd stack space (with_mach m k)) as Hs.
  destruct (build_user_tcb bytes name cwd stack space (with_mach m k)) as [[t|e] k1] eqn:E; cbn [snd] in Hs; change (scheduler (with_mach m k)) with (scheduler k) in Hs.
  2:{ intros [= <- <-]. by rewrite Hs. }
  apply build_task in E as (Hw&Hsnap). rewrite Hs, Hsc. destruct (MAX_TASKS <=? zlen (tasks sc)).
  - intros [= <- <-]. unfold reclaim_unstarted_process. simpl. by rewrite Hs.
  - intros [= <- <-]. assert (tcb_id t = next_id k) as Hid by (pose proof (Hsnap Ready) as Hr; by injection Hr).
    split; [exact Hid|]. exists (set_state st t). split_and!; [done..|]. intros st'. rewrite Hid. apply (Hsnap st').
Qed.

(** Activating the task at the end of the table. *)
Lemma activate_last ts t cur k : scheduler k = Some (mk_sched (ts ++ [t]) cur) → Forall (λ u, tcb_id u ≠ tcb_id t) ts →
  tcb_state t = Blocked → wake_at_tick t = 0 →
  activate_task (tcb_id t) k = (true, with_sched (mk_sched (ts ++ [set_state Ready t]) cur) k).
Proof.
  intros Hsc Hne Hb Hw. unfold activate_task. rewrite Hsc. cbn [tasks current].
  assert (position (λ u, tcb_id u =? tcb_id t) (ts ++ [t]) = Some (length ts)) as ->.
  { clear Hsc. induction Hne as [|u ts Hu _ IH]; cbn [app position length]; [by rewrite Z.eqb_refl|].
    rewrite (proj2 (Z.eqb_neq _ _)) by done. by rewrite IH. }
  rewrite list_lookup_middle by done. rewrite Hb, Hw, bool_decide_eq_true_2 by done. cbn [negb orb Z.eqb].
  rewrite insert_app_r_alt by done. by rewrite Nat.sub_diag.
Qed.

Lemma find_last ts t : Forall (λ u, tcb_id u ≠ tcb_id t) ts → ∀ cur, find_task (tcb_id t) (mk_sched (ts ++ [t]) cur) = Some t.
Proof.
  intros Hne cur. unfold find_task. cbn [tasks]. induction Hne as [|u ts Hu _ IH]; cbn [app List.find]; [by rewrite Z.eqb_refl|].
  by rewrite (proj2 (Z.eqb_neq _ _)) by done.
Qed.
End tables.

Section foreground.
Context {PT D C : Type} `{!BootMap, !KernelFrames, !X86Addr, !X86AddrSpec, !X86_64 PT, !X86_64Spec PT USER_REGION_PML4_INDEX} `{BlockDeviceSpec D}.
Context `{!TextConsole C} `{!ShellPlatform PT D, !ShellPlatformSpec PT D}.
Implicit Types (s : ShellState PT D C).

Lemma sound_table k : sound_kernel k → ∃ sc, scheduler k = Some sc ∧ Forall (λ t, 0 < tcb_id t < next_id k) (tasks sc).
Proof.
  intros (l&c&r&Hinv). destruct (inv_sched k l c r Hinv) as (sc&Hsc&[Hts _]&_). exists sc. split; [done|].
  destruct Hinv as [[_ _ _ Hids] _ _]. rewrite Hts. unfold ids in Hids. by rewrite Forall_fmap in Hids.
Qed.

Lemma sound_next k : sound_kernel k → 0 < next_id k.
Proof.
  intros (l&c&r&[[_ _ _ Hids] _ _]). unfold ids in Hids. rewrite fmap_app, Forall_app, fmap_cons, Forall_cons in Hids. lia.
Qed.

Definition keyboard_of s : Keyboard := sys_keyboard (sys (world s)).

(** The two ways it goes. *)
Lemma foreground_refused name bytes s e k : spawn_user_process_suspended name bytes root_dir (next_stack (world s)) (kernel_of s) = (Err e, k) →
  spawn_foreground_process name bytes s = Done (Err e) (with_world (with_kernel k (world s)) s).
Proof.
  intros E. unfold spawn_foreground_process, mbind, Sh_bind, sh_spawn_suspended, on_kernel. unfold kernel_of in E. by rewrite E.
Qed.

Definition owned_by (id : Z) (w : World PT D) : World PT D := with_io (set_foreground_process_id (Some id) (io_of w)) w.

Lemma foreground_given name bytes s id k k2 :
  spawn_user_process_suspended name bytes root_dir (next_stack (world s)) (kernel_of s) = (Ok id, k) →
  let w := owned_by id (with_kernel k (world s)) in
  activate_task id (kern (sys w)) = (true, k2) →
  spawn_foreground_process name bytes s = Done (Ok id) (with_world (with_kernel k2 w) s).
Proof.
  intros E w Ha. unfold spawn_foreground_process, mbind, Sh_bind, sh_spawn_suspended, acquire_desktop_foreground, on_devices, sh_activate, on_kernel.
  unfold kernel_of in E. rewrite E. cbv beta iota. cbn [world with_world]. fold (owned_by id (with_kernel k (world s))). fold w.
  by rewrite Ha.
Qed.

(** C14: The foreground goes to the process that was started, or stays where it
    was. When [spawn_foreground_process] succeeds, the new process is the task
    with the returned identifier, ready, under the name given; it owns the
    keyboard, its event queue is empty and no key is left for the shell; and the
    task table has otherwise not changed. When it fails, the task table, the
    owner of the keyboard and the queued input are as before. In no case does
    the activation of the process fail. *)
Theorem foreground_goes_to_the_process name bytes s n b : sh_ok (1 + n) b s →
  match spawn_foreground_process name bytes s with
  | Done (Ok id) s' =>
      foreground_process_id (keyboard_of s') = Some id ∧ shell_queue (keyboard_of s') = [] ∧ queue (sys_input (sys (world s'))) = [] ∧
      list_tasks (kernel_of s') = (λ ts, ts ++ [mk_task id name Ready UserTask None]) <$> list_tasks (kernel_of s)
      ∧ info id (kernel_of s') = Ok (mk_task id name Ready UserTask None) ∧ sh_ok n b s'
  | Done (Err _) s' =>
      keyboard_of s' = keyboard_of s ∧ sys_input (sys (world s')) = sys_input (sys (world s)) ∧
      list_tasks (kernel_of s') = list_tasks (kernel_of s) ∧ sh_ok n b s'
  | _ => False
  end.
Proof.
  intros Hs. pose proof (spawn_foreground_safe name bytes n b s ltac:(by rewrite claim_0)) as Hsafe.
  destruct (sound_table (kernel_of s)) as (sc&Hsc&Hids); [by destruct Hs as [[] ? ?]|].
  pose proof (sound_next (kernel_of s) ltac:(by destruct Hs as [[] ? ?])) as Hpos.
  destruct (spawn_user_process_suspended name bytes root_dir (next_stack (world s)) (kernel_of s)) as [r k1] eqn:E.
  pose proof (spawn_adds name bytes root_dir Blocked _ _ sc r k1 Hsc E) as Hadds. destruct r as [id|e].
  2:{ rewrite (foreground_refused _ _ _ _ _ E) in *. destruct Hsafe as [_ Hok]. split_and!; [done|done| |exact Hok].
      unfold list_tasks, kernel_of in *. simpl. by rewrite Hadds, Hsc. }
  destruct Hadds as (->&t&Hsc1&Hb&Hw&Hsnap). set (id := next_id (kernel_of s)) in *.
  assert (tcb_id t = id) as Hid by (pose proof (Hsnap Ready) as Hr; by injection Hr).
  assert (Forall (λ u, tcb_id u ≠ tcb_id t) (tasks sc)) as Hne.
  { rewrite Hid. eapply Forall_impl; [exact Hids|]. intros u Hu. cbn in Hu. lia. }
  pose proof (foreground_given name bytes s id k1) as Hgiven. cbv zeta in Hgiven. set (w := owned_by id (with_kernel k1 (world s))) in *.
  pose proof (activate_last (tasks sc) t (current sc) (kern (sys w)) Hsc1 Hne Hb Hw) as Ha. rewrite Hid in Ha.
  rewrite (Hgiven _ E Ha) in *. destruct Hsafe as [_ Hok].
  split_and!; [by apply foreground_after_handoff; lia|done|done| | |exact Hok].
  - unfold list_tasks, kernel_of in *. simpl. rewrite Hsc. simpl. by rewrite fmap_app, <- Hsnap.
  - pose proof (find_last (tasks sc) (set_state Ready t) Hne (current sc)) as Hf. change (tcb_id (set_state Ready t)) with (tcb_id t) in Hf.
    rewrite Hid in Hf. rewrite <- Hsnap.
    trans (u ← ok_or (find_task id (mk_sched (tasks sc ++ [set_state Ready t]) (current sc))) "task not found"; Ok (Scheduler.snapshot u)); [done|].
    by rewrite Hf.
Qed.
End foreground.

(** *** Witness: the desktop is started on the small machine *)

Module ForegroundSample.
Import ShellSample.
#[local] Existing Instance sim_addr.
#[local] Existing Instance sim_addr_spec.
#[local] Existing Instance sim_x86.
#[local] Existing Instance PagingSafety.Sample.sample_spec.
#[local] Existing Instance PagingSafety.Sample.sample_map.
#[local] Existing Instance PagingSafety.Sample.sample_heap.
#[local] Existing Instance platform.
#[local] Existing Instance platform_spec.

Definition run_owner (r : Run (ShellState sim_pt sim_disk Vga) (result Z)) : option (result Z * option Z) :=
  match r with Done r s => Some (r, foreground_process_id (keyboard_of s)) | _ => None end.

Lemma foreground_goes_to_the_process_witness :
  run_owner (spawn_foreground_process (bs "desktop") ElfSample.program (start [])) = Some (Ok 6, Some 6) ∧
  match spawn_foreground_process (bs "desktop") ElfSample.program (start []) with
  | Done (Ok id) s' =>
      foreground_process_id (keyboard_of s') = Some id ∧ shell_queue (keyboard_of s') = [] ∧ queue (sys_input (sys (ShellState.world s'))) = [] ∧
      list_tasks (kernel_of s') = (λ ts, ts ++ [mk_task id (bs "desktop") Ready UserTask None]) <$> list_tasks (kernel_of (start []))
      ∧ info id (kernel_of s') = Ok (mk_task id (bs "desktop") Ready UserTask None) ∧ sh_ok 10 (Some 10%nat) s'
  | Done (Err _) s' =>
      keyboard_of s' = keyboard_of (start []) ∧ sys_input (sys (ShellState.world s')) = sys_input (sys (ShellState.world (start []))) ∧
      list_tasks (kernel_of s') = list_tasks (kernel_of (start [])) ∧ sh_ok 10 (Some 10%nat) s'
  | _ => False
  end.
Proof.
  split; [vm_compute; reflexivity|]. apply (foreground_goes_to_the_process (bs "desktop") ElfSample.program (start []) 10 (Some 10%nat)).
  apply start_ok; [vm_compute; lia|vm_compute; lia|constructor].
Defined.
End ForegroundSample.
