(* ===== verification/Boot.v ===== *)
(** The boot sequence: [kernel_main] of kernel/main.rs, from the machine that the
    bootloader hands over to the first prompt of the shell.

    The parts are set up in the order of the code: memory (Memory.v), interrupts
    (Idt.v), the mouse (Ps2.v), the disk, the filesystems, the tasks, the network
    and the console. Interrupts arrive as soon as they are enabled: those before
    the scheduler starts are the steps [early]. The result is a [Session] of
    ShellMain.v, and the theorem is that it is one the shell's theorems start
    from. Banner and console are written once for both console modes. *)

From S2P Require Import Prelude Str Device Ata Ps2 Idt Tree TuwaiqTree TuwaiqFs Fs FsPersist Fat32 Vfs VfsData Input Window X86 Frames Paging PagingSpaces PagingRange PagingCopy PagingSafety Memory Wake Scheduler SchedulerInv OpenFiles Process Vm Display VmSafety VmUnmap TaskInv TaskSafety Syscall SyscallSteps SyscallData SyscallSafety Interrupts InterruptsSafety Terminal VgaText Programs Notes ShellText ShellEdit ShellState ShellFiles ShellTasks ShellMouse ShellDesktop ShellMain ShellSteps ShellVolume ShellSafety ShellExecute ShellLoop.

(** [ata::init]: the disk's driver waits for it. *)
Class BootDisk (D : Type) `{BlockDevice D} := {
  disk_init : D → D;
  disk_init_spec d : platter (disk_init d) = platter d ∧ (reliable d → reliable (disk_init d))
}.

#[global] Instance ata_boot_disk {St} `{AtaController St} : BootDisk St := {|
  disk_init := ata_init INIT_POLLS;
  disk_init_spec := ata_init_keeps INIT_POLLS
|}.

#[global] Instance sim_boot_disk : BootDisk sim_disk := {|
  disk_init d := d;
  disk_init_spec d := conj eq_refl (λ H, H)
|}.

(** ** The machine at power-on *)

(** What the bootloader leaves: the level-4 frame in use and the table in it,
    the memory, the disk, and the platform with its ports; [wrmsr] is what the
    processor makes of a value written to EFER. *)
Record Hardware (PT D P K : Type) := mk_hardware {
  wrmsr : Z → Z;
  efer : Z;
  active_cr3 : Z;
  active_table : PT;
  ram : Z → byte;
  disk : D;
  firmware : Platform P K
}.
Arguments mk_hardware {PT D P K}.
Arguments wrmsr {PT D P K}.
Arguments efer {PT D P K}.
Arguments active_cr3 {PT D P K}.
Arguments active_table {PT D P K}.
Arguments ram {PT D P K}.
Arguments disk {PT D P K}.
Arguments firmware {PT D P K}.

(** Where the linker and the allocator put what boot needs: the static heap, the
    interrupt stack, and the first stack pointers of the idle and the heartbeat
    task. *)
Record Layout := mk_layout { HEAP_STORAGE : Z; INTERRUPT_STACK : Z; idle_stack : Z; heartbeat_stack : Z }.

Section boot.
Context {PT D P K C : Type} `{!BootMap, !X86Addr} `{!X86_64 PT} `{BootDisk D} `{!ChainedPics P} `{!Ports K} `{!TextConsole C}.
Implicit Types (w : World PT D).

(** The statics before anything ran, on the machine the memory set-up leaves. *)
Definition empty_input : InputQueue := mk_input [] 0 0 0 0 0 0.
Definition unscheduled (cr3 : Z) (m : Machine PT) : Kernel PT :=
  mk_kernel None 3 {| foreground_wake_id := 0; ticks_since_switch := 0 |} 0 m (page_containing cr3) 0.
Definition unmounted (d : D) : vfs_state D := VfsState None None (FsState None false (Tqfs d 0 0 VERSION)).
Definition boot_world (cr3 : Z) (m : Machine PT) (d : D) : World PT D :=
  mk_world (mk_sys (unscheduled cr3 m) boot_keyboard empty_input (unmounted d) None [] u64_max) boot_mouse 0.

(** [framebuffer_console::init] makes the framebuffer known to the display. *)
Definition attach_screen (fb : option Screen) w : World PT D :=
  let s := sys w in
  with_sys (mk_sys (kern s) (sys_keyboard s) (sys_input s) (vfs s) fb (serial s) (mmap_fail_after s)) w.

Definition banner (c : C) : option C :=
  c ← con_clear c;
  c ← con_println (bs "TuwaiqOS v0.5") c;
  c ← con_println (bs "AI-Native Experimental Operating System") c;
  con_println [] c.

(** [vfs::init] and [task::init]; a filesystem that cannot be registered is a
    panic ([expect]). *)
Definition start_services (idle heartbeat : Z) w : option (World PT D) :=
  let '(r, v) := Vfs.init (vfs (sys w)) in
  _ ← (if is_ok r then Some tt else None);
  k ← Scheduler.init idle heartbeat (kern (sys w));
  Some (with_kernel k (with_sys (with_vfs v (sys w)) w)).

Definition first_session (c : C) (ts : list (list Step)) w : option (Session PT D C) :=
  e ← first_line c (vfs (sys w));
  Some (mk_session (mk_shell w (ShellEdit.con e) (net_init net_boot) ts) (ShellEdit.line e) (len e) (ShellEdit.history e)).

(** [mouse::init], then its line is unmasked if it reports a mouse. *)
Definition start_mouse (p : Platform P K) : bool * Platform P K :=
  let '(r, mouse) := Ps2.init (mk_device (pit p) false) in
  let p := mk_platform (tss p) (idt p) (pics p) (controller mouse) (interrupts_enabled p) in
  let ready := match r with Ok ready => ready | Err _ => false end in
  (ready, if ready then enable_mouse p else p).

(** What boot leaves beside the session of the shell. *)
Record Booted := mk_booted { session : Session PT D C; heap : Heap; platform : Platform P K; mouse_ready : bool }.

(** [kernel_main]. [offset] and [fb] are the fields of the boot information,
    [console] is the console the framebuffer (or the text mode) is driven by, and
    [ts] the turns of the others while the shell runs. *)
Definition kernel_main (l : Layout) (offset : option Z) (fb : option Screen) (console : C) (early : list Step) (ts : list (list Step))
    (hw : Hardware PT D P K) : option Booted :=
  _ ← enable_nx (wrmsr hw) (efer hw);
  let '(m, h) := init_heap offset (active_cr3 hw) (active_table hw) (HEAP_STORAGE l) (mk_machine 0 0 None None ∅ (ram hw)) heap_new in
  p ← Idt.init (INTERRUPT_STACK l) (firmware hw);
  let '(ready, p) := start_mouse p in
  w ← world_run early (boot_world (active_cr3 hw) m (disk_init (disk hw)));
  w ← start_services (idle_stack l) (heartbeat_stack l) w;
  c ← banner console;
  s ← first_session c ts (attach_screen fb w);
  Some (mk_booted s h p ready).
End boot.
Arguments Booted : clear implicits.
Arguments mk_booted {PT D P K C}.
Arguments session {PT D P K C}.
Arguments heap {PT D P K C}.
Arguments platform {PT D P K C}.
Arguments mouse_ready {PT D P K C}.

(** ** The session is in order *)

Section proofs.
Context {PT D P K C : Type} `{!BootMap, !X86Addr, !X86AddrSpec} `{!X86_64 PT, !X86_64Spec PT USER_REGION_PML4_INDEX}.
Context `{BlockDeviceSpec D} `{!BootDisk D} `{!ChainedPics P} `{!Ports K} `{!TextConsole C}.
Implicit Types (w : World PT D).

(** Interrupts before the scheduler starts: of the timer, the keyboard and the
    mouse; a still mouse sends none. *)
Definition early_ok (step : Step) : Prop := match step with TimerTick _ | KeyboardInterrupt _ | MouseInterrupt _ => True | _ => False end.
Definition mouse_still (step : Step) : Prop := match step with MouseInterrupt _ => False | _ => True end.

(** The statics until then: ticks were counted, keys queued, and the mouse moved
    if it was not [still]. *)
Record starting (still : Prop) (m : Machine PT) (cr3 : Z) (v : vfs_state D) w : Prop := {
  starting_tasks : scheduler (kern (sys w)) = None ∧ next_id (kern (sys w)) = 3;
  starting_machine : mach (kern (sys w)) = m ∧ Scheduler.cr3 (kern (sys w)) = page_containing cr3;
  starting_vfs : vfs (sys w) = v;
  starting_mouse : still → pointer w = boot_mouse;
  starting_devices : device_ok (io_of w)
}.

Lemma on_scancode_pointer b i : mouse (on_scancode b i) = mouse i.
Proof.
  rewrite on_scancode_decode. destruct (decode_scancode b (keyboard i)) as [[e|] k]; [|done].
  unfold route. destruct (foreground_owner _); [done|]. unfold push_key_event. destruct (key_code e); [|done].
  unfold Input.push. destruct (foreground_process_id _); [|done]. by destruct (Input.enqueue _ _) as [[] ?].
Qed.

Lemma starting_step (still : Prop) m cr3 v step w : early_ok step → (still → mouse_still step) → starting still m cr3 v w →
  ∃ w', world_step step w = Some w' ∧ starting still m cr3 v w'.
Proof.
  intros He Hst [[Hs Hn] [Hm Hc] Hv Hp [Hq Hw]]. destruct step as [rsp|b|b| | |]; try done; cbn [world_step].
  - unfold timer_interrupt_handler, timer_interrupt, on_timer_tick. cbn [scheduler]. rewrite Hs. cbn [with_wake Scheduler.wake ticks_since_switch set_ticks_since].
    destruct (Z.leb_spec TIME_SLICE_TICKS (wrapping_add u64_max (ticks_since_switch (Scheduler.wake (kern (sys w)))) 1)) as [|Hlt].
    + unfold schedule. cbn [with_wake scheduler]. eexists. split; [reflexivity|]. by split.
    + eexists. split; [reflexivity|]. split; [done..|]. split; [exact Hq|]. simpl. split; [|lia].
      unfold wrapping_add. apply Z.mod_pos_bound. by vm_compute.
  - eexists. split; [reflexivity|]. unfold keyboard_interrupt_handler, on_io. split; [done..| |].
    + intros Hstill. change (mouse (on_scancode b (io_of w)) = boot_mouse). rewrite on_scancode_pointer. by apply Hp.
    + exact (on_scancode_device b (io_of w) (conj Hq Hw)).
  - eexists. split; [reflexivity|]. unfold mouse_interrupt_handler, on_io. split; [done..| |].
    + by intros Hstill%Hst.
    + exact (on_byte_device b (io_of w) (conj Hq Hw)).
Qed.

Lemma starting_run (still : Prop) m cr3 v steps w : Forall early_ok steps → (still → Forall mouse_still steps) → starting still m cr3 v w →
  ∃ w', world_run steps w = Some w' ∧ starting still m cr3 v w'.
Proof.
  intros Hs. revert w. induction Hs as [|step steps Hstep _ IH]; intros w Hst Hw; [by exists w|].
  destruct (starting_step still m cr3 v step w Hstep) as (w1&E&Hw1); [by intros Hf%Hst; inversion Hf|done|].
  rewrite world_run_cons, E. apply IH; [|done]. intros Hf%Hst. by inversion Hf.
Qed.

(** *** The disk *)

(** The disk works, and its volume is one that was never used or one whose last
    checkpoint is the tree of [f]. *)
Definition disk_holds (d : D) (f : FileSystem) : Prop :=
  reliable d ∧ wf_entry [] (root f) = true ∧ is_Some (dir_of (root f)) ∧
  (unformatted (Tqfs d 0 0 VERSION) ∧ root f = EDir [] ∨
   ∃ before, mounted before (to_fs_node (root f)) ∧ TuwaiqFs.pending before = None ∧ platter d = TuwaiqFs.disk before).

Lemma wp_boot_volume d f : disk_holds d f →
  wp FsPersist.init (λ _ s, ready s f) (λ _ _, False) (storage (unmounted (disk_init d))).
Proof.
  intros (Hd&Hwf&Hdir&Hv). destruct (disk_init_spec d) as [Hp Hr]. apply wp_init_mount; [|done..]. cbn [unmounted storage store].
  assert (sound (Tqfs (disk_init d) 0 0 VERSION)) as Hs by (by apply Hr). destruct Hv as [[Hu Hroot]|(before&Hm&Hpend&Hdisk)].
  - eapply wp_mono; [apply wp_mount_blank; [done|]| |done].
    + unfold unformatted, TuwaiqFs.disk in *. cbn [dev] in *. by rewrite Hp.
    + intros t st (->&Hm&_). rewrite Hroot. done.
  - eapply wp_mono; [apply (wp_remount before); [exact Hm|]| |done].
    + split; [|exact Hs]. unfold TuwaiqFs.disk at 1. cbn [dev]. congruence.
    + intros t st (->&Hm'&_). by rewrite Hpend in *.
Qed.

(** *** The console *)

(** What the screen shows when the shell waits for the first key. *)
Definition first_screen (g : Geometry) : Term :=
  term_print g (bs "tuwaiq@os:~$ ")
    (term_println g [] (term_println g (bs "AI-Native Experimental Operating System") (term_println g (bs "TuwaiqOS v0.5") (term_clear g)))).

Lemma banner_shows (c : C) : con_live c → ∃ c', banner c = Some c' ∧ con_geometry c' = con_geometry c ∧
  con_view c' (term_println (con_geometry c) [] (term_println (con_geometry c) (bs "AI-Native Experimental Operating System")
    (term_println (con_geometry c) (bs "TuwaiqOS v0.5") (term_clear (con_geometry c))))).
Proof.
  intros Hl. unfold banner. destruct (con_clear_spec c Hl) as (c1&->&Hg1&Hv1). cbn [mbind option_bind].
  destruct (con_println_spec (bs "TuwaiqOS v0.5") c1 _ Hv1) as (c2&->&Hg2&Hv2). cbn [mbind option_bind].
  destruct (con_println_spec (bs "AI-Native Experimental Operating System") c2 _ Hv2) as (c3&->&Hg3&Hv3). cbn [mbind option_bind].
  destruct (con_println_spec [] c3 _ Hv3) as (c4&->&Hg4&Hv4). exists c4. rewrite Hg3, Hg2, Hg1 in *. by split_and!.
Qed.

Lemma first_line_shows (c : C) (v : vfs_state D) t : con_view c t → Vfs.cwd v = Some [slash] →
  ∃ e, first_line c v = Some e ∧ con_view (ShellEdit.con e) (term_print (con_geometry c) (bs "tuwaiq@os:~$ ") t) ∧ editing e ∧ evfs e = v ∧ len e = 0%nat.
Proof.
  intros Hv Hc. unfold first_line, print_dynamic_prompt. cbn [evfs].
  assert (prompt_text v = bs "tuwaiq@os:~$ ") as ->.
  { unfold prompt_text, shell_pwd, get_shell_cwd, mbind, M_bind, mget, mlift, mensure, mlift. by rewrite Hc. }
  unfold e_print. cbn [ShellEdit.con]. destruct (con_print_spec (bs "tuwaiq@os:~$ ") c t Hv) as (c'&->&Hg&Hv'). cbn [mbind option_bind].
  eexists. split; [reflexivity|]. split_and!; [exact Hv'| |done|done].
  split; cbn; [by eexists|done|unfold MAX_LINE; lia|apply history_new_ok].
Qed.

(** *** The services *)

(** What is claimed of the volume at the first prompt: that it is in step with the
    tree of [f], when the disk holds it. *)
Definition boot_claim (d : D) (b : option nat) : Prop := match b with Some n => ∃ f, disk_holds d f ∧ room_for n f | None => True end.

Lemma init_volume d b : boot_claim d b →
  ∃ v, Vfs.init (unmounted (disk_init d)) = (Ok tt, v) ∧ Vfs.cwd v = Some [slash] ∧ volume_ok b v.
Proof.
  intros Hb. destruct (wp_Ok _ _ _ (wp_vfs_init_names (unmounted (disk_init d)))) as ([]&v&E&Hcwd&table&Hmt&Hok&Hro).
  exists v. split; [done|]. split; [done|]. destruct b as [n|].
  - destruct Hb as (f&Hd&Hr). destruct (wp_Ok _ _ _ (wp_vfs_init _ _ (wp_boot_volume d f Hd))) as ([]&v'&E'&_&table'&Hready&Htab).
    rewrite E in E'. injection E' as <-. apply volume_in_step. by exists table', f.
  - exists table. split_and!; [done..| |done]. exists [slash]. split; [done|apply canonical_root].
Qed.

(** Starting the filesystems and the scheduler on a machine with a heap of its
    own puts the world in order. *)
Lemma services_start (frames : KernelFrames) n b m cr3 d idle heartbeat fb w :
  starting True m cr3 (unmounted (disk_init d)) w → boot_claim d b → 6 + 2 * Z.of_nat n <= u32_max →
  machine_ok m [] → kernel_pml4 m = cr3 → cr3 ≠ 0 →
  ∃ w', start_services idle heartbeat w = Some w' ∧ Vfs.cwd (vfs (sys w')) = Some [slash] ∧ world_ok n b (attach_screen fb w').
Proof.
  intros [[Hs Hn] [Hm Hc] Hv Hp [Hq Hsl]] Hd Hi Hmok Hroot Hne. unfold start_services. rewrite Hv.
  destruct (init_volume d b Hd) as (v&E&Hcwd&Hvol). rewrite E. cbn [is_ok mbind option_bind].
  destruct (scheduler_starts (kern (sys w)) idle heartbeat Hs Hn) as (k&l&c&r&Ek&Hinv&Hk4&_&Ht&Hwk&Hmk).
  { by rewrite Hm. } { rewrite Hm. congruence. } { rewrite Hm. congruence. } { exact Hsl. }
  rewrite Ek. cbn [mbind option_bind]. eexists. split; [reflexivity|]. split; [exact Hcwd|]. constructor.
  - by exists l, c, r.
  - cbn. lia.
  - unfold mouse_ok, screen_max. cbn [io_of attach_screen with_kernel with_sys with_kern with_vfs sys pointer display mouse]. rewrite Hp by done.
    unfold on_axis. destruct ((λ d, _) <$> _) as [[]|]; cbn; split_and!; try lia; done.
  - exact Hq.
  - exact Hvol.
Qed.

(** The heap could be mapped, and the kernel has a mapper ([paging::is_active]);
    what else a session can do is not said. *)
Definition paged (b : Booted PT D P K C) : Prop := Paging.is_active (mach (kern (sys (world (shell (session b)))))) = true.
End proofs.

Section boot_theorem.
Context {PT D P K C : Type} `{!BootMap, !X86Addr, !X86AddrSpec} `{!X86_64 PT, !X86_64Spec PT USER_REGION_PML4_INDEX, !X86_64Spec PT HEAP_SLOT}.
Context `{BlockDeviceSpec D} `{!BootDisk D} `{!ChainedPics P} `{!Ports K} `{!TextConsole C}.
Implicit Types (w : World PT D).

Lemma boot_world_starting still cr3 (m : Machine PT) (d : D) : starting still m cr3 (unmounted d) (boot_world cr3 m d).
Proof. split; [done..|]. split; [split; [simpl; unfold INPUT_QUEUE_CAPACITY; lia|done]|by vm_compute]. Qed.

Lemma start_mouse_serves (p : Platform P K) : serves p → lines p = [0; 1] → offsets (pics p) = Some (PIC_1_OFFSET, PIC_2_OFFSET) →
  let '(ready, p') := start_mouse p in serves p' ∧ lines p' = if ready then [0; 1; 12] else [0; 1].
Proof.
  intros Hs Hl Ho. unfold start_mouse. destruct (Ps2.init _) as [r d]. destruct r as [[]|]; [by apply enable_mouse_serves|by split..].
Qed.

(** Without a mapper the services start as well, as far as they need no memory
    of processes. *)
Lemma services_start_bare still m cr3 (d : D) idle heartbeat w : starting still m cr3 (unmounted (disk_init d)) w →
  ∃ w', start_services idle heartbeat w = Some w' ∧ Vfs.cwd (vfs (sys w')) = Some [slash] ∧ mach (kern (sys w')) = m.
Proof.
  intros [[Hs Hn] [Hm _] Hv _ _]. unfold start_services. rewrite Hv.
  destruct (init_volume d None I) as (v&E&Hcwd&_). rewrite E. cbn [is_ok mbind option_bind].
  unfold Scheduler.init, spawn. cbn [with_sched with_next_id scheduler]. eexists. split; [reflexivity|]. by split.
Qed.

End boot_theorem.

(** ** A boot *)

Module BootSample.
#[local] Existing Instance sim_addr.
#[local] Existing Instance sim_addr_spec.
#[local] Existing Instance sim_x86.
#[local] Existing Instance PagingSafety.Sample.sample_spec.
#[local] Existing Instance MemorySample.heap_spec.
#[local] Existing Instance ShellSample.platform.
#[local] Existing Instance Idt.PicSample.pic_pair_chained.
#[local] Existing Instance Ps2.Sample.i8042_ports.
#[local] Instance memory_map : BootMap := MemorySample.big.

(** A blank disk; a mouse that answers as [rs] says. *)
Definition hardware (rs : list Z) : Hardware sim_pt sim_disk Idt.PicSample.pic_pair Ps2.Sample.i8042 :=
  mk_hardware (λ v, v) 0x500 0x7000 (mk_sim ∅ ∅ ∅) (λ _, Byte.x00) blank_disk
    (mk_platform (mk_tss ∅ 0) None (Idt.PicSample.mk_pics (0xB8, 0x8E) None) (controller (Ps2.Sample.answers rs)) false).
Definition layout : Layout := mk_layout 0x200000 0x300000 0x1000 0x2000.

(** Eight ticks and the letter "a" before the scheduler starts. *)
Definition early : list Step := replicate 8 (TimerTick 0) ++ [KeyboardInterrupt 0x1E].
Definition boot (rs : list Z) (early : list Step) : option (Booted sim_pt sim_disk Idt.PicSample.pic_pair Ps2.Sample.i8042 Vga) :=
  kernel_main layout (Some 0x10000000000) None blank_vga early [] (hardware rs).

Definition boot_view (b : Booted sim_pt sim_disk Idt.PicSample.pic_pair Ps2.Sample.i8042 Vga) : list Z * bool * option Z * Z * list KeyEvent :=
  let w := world (shell (session b)) in
  (lines (platform b), Paging.is_active (mach (kern (sys w))), current_task_id (kern (sys w)), Scheduler.ticks (kern (sys w)), shell_queue (sys_keyboard (sys w))).

Example boots : (boot_view <$> boot [] early, boot_view <$> boot [0xFC] early) =
  (Some ([0; 1; 12], true, Some 1, 8, [Char 97]), Some ([0; 1], true, Some 1, 8, [Char 97])).
Proof. vm_compute. reflexivity. Qed.

Lemma blank_disk_holds : disk_holds blank_disk {| root := EDir [] |}.
Proof. split; [constructor|]. split; [reflexivity|]. split; [by eexists|]. left. split; [|reflexivity]. apply fresh_unformatted. Qed.


(** The cursor is bounded by the display, and until the framebuffer console is
    set up there is none: one packet that moves right during boot leaves it off
    a screen of 40 x 30, until the next packet. *)
Definition framebuffer : Screen := mk_screen (mk_fb 0 40 30 40 4 Bgr) [].
Definition move_right : list Step := [MouseInterrupt 0x08; MouseInterrupt 127; MouseInterrupt 0].

Definition cursor_after (late : list Step) : option (MouseState * option (Z * Z)) :=
  w ← world_run move_right (boot_world 0x7000 MemorySample.powered_on blank_disk);
  w ← world_run late (attach_screen (Some framebuffer) w);
  Some (cursor (pointer w), display (io_of w)).

Example early_packet_leaves_screen :
  (cursor_after [], cursor_after [MouseInterrupt 0x08; MouseInterrupt 1; MouseInterrupt 0]) =
  (Some (mk_mouse_state 127 0 0, Some (40, 30)), Some (mk_mouse_state 39 0 0, Some (40, 30))).
Proof. vm_compute. reflexivity. Qed.
End BootSample.
