(* ===== verification/Canvas.v ===== *)
(** Drawing in the programs' own back buffers: gfx.rs and font.rs under
    userland/hello/src/bin/desktop, which the desktop, the file manager and the
    terminal share.

    A drawing function takes the bytes of the buffer and gives the new bytes, or
    [None] for an index outside them. [draws f l] says what it does to the
    picture: exactly the visible pixels of the layer [l] get its colours. The
    programs are built in release mode: sums of [u32] wrap. Coordinates are
    mathematical integers: every caller stays far from the limits of [i32]. *)

From S2P Require Import Prelude.

(** ** font.rs *)

Definition ASCII_MIN : Z := 0x20.
Definition ASCII_MAX : Z := 0x7E.

(** [font8x8_basic], glyph by glyph from the space on; bit 0 is leftmost. *)
Definition GLYPHS : list (list Z) := [
  [0x00; 0x00; 0x00; 0x00; 0x00; 0x00; 0x00; 0x00];
  [0x18; 0x3C; 0x3C; 0x18; 0x18; 0x00; 0x18; 0x00];
  [0x36; 0x36; 0x00; 0x00; 0x00; 0x00; 0x00; 0x00];
  [0x36; 0x36; 0x7F; 0x36; 0x7F; 0x36; 0x36; 0x00];
  [0x0C; 0x3E; 0x03; 0x1E; 0x30; 0x1F; 0x0C; 0x00];
  [0x00; 0x63; 0x33; 0x18; 0x0C; 0x66; 0x63; 0x00];
  [0x1C; 0x36; 0x1C; 0x6E; 0x3B; 0x33; 0x6E; 0x00];
  [0x06; 0x06; 0x03; 0x00; 0x00; 0x00; 0x00; 0x00];
  [0x18; 0x0C; 0x06; 0x06; 0x06; 0x0C; 0x18; 0x00];
  [0x06; 0x0C; 0x18; 0x18; 0x18; 0x0C; 0x06; 0x00];
  [0x00; 0x66; 0x3C; 0xFF; 0x3C; 0x66; 0x00; 0x00];
  [0x00; 0x0C; 0x0C; 0x3F; 0x0C; 0x0C; 0x00; 0x00];
  [0x00; 0x00; 0x00; 0x00; 0x00; 0x0C; 0x0C; 0x06];
  [0x00; 0x00; 0x00; 0x3F; 0x00; 0x00; 0x00; 0x00];
  [0x00; 0x00; 0x00; 0x00; 0x00; 0x0C; 0x0C; 0x00];
  [0x60; 0x30; 0x18; 0x0C; 0x06; 0x03; 0x01; 0x00];
  [0x3E; 0x63; 0x73; 0x7B; 0x6F; 0x67; 0x3E; 0x00];
  [0x0C; 0x0E; 0x0C; 0x0C; 0x0C; 0x0C; 0x3F; 0x00];
  [0x1E; 0x33; 0x30; 0x1C; 0x06; 0x33; 0x3F; 0x00];
  [0x1E; 0x33; 0x30; 0x1C; 0x30; 0x33; 0x1E; 0x00];
  [0x38; 0x3C; 0x36; 0x33; 0x7F; 0x30; 0x78; 0x00];
  [0x3F; 0x03; 0x1F; 0x30; 0x30; 0x33; 0x1E; 0x00];
  [0x1C; 0x06; 0x03; 0x1F; 0x33; 0x33; 0x1E; 0x00];
  [0x3F; 0x33; 0x30; 0x18; 0x0C; 0x0C; 0x0C; 0x00];
  [0x1E; 0x33; 0x33; 0x1E; 0x33; 0x33; 0x1E; 0x00];
  [0x1E; 0x33; 0x33; 0x3E; 0x30; 0x18; 0x0E; 0x00];
  [0x00; 0x0C; 0x0C; 0x00; 0x00; 0x0C; 0x0C; 0x00];
  [0x00; 0x0C; 0x0C; 0x00; 0x00; 0x0C; 0x0C; 0x06];
  [0x18; 0x0C; 0x06; 0x03; 0x06; 0x0C; 0x18; 0x00];
  [0x00; 0x00; 0x3F; 0x00; 0x00; 0x3F; 0x00; 0x00];
  [0x06; 0x0C; 0x18; 0x30; 0x18; 0x0C; 0x06; 0x00];
  [0x1E; 0x33; 0x30; 0x18; 0x0C; 0x00; 0x0C; 0x00];
  [0x3E; 0x63; 0x7B; 0x7B; 0x7B; 0x03; 0x1E; 0x00];
  [0x0C; 0x1E; 0x33; 0x33; 0x3F; 0x33; 0x33; 0x00];
  [0x3F; 0x66; 0x66; 0x3E; 0x66; 0x66; 0x3F; 0x00];
  [0x3C; 0x66; 0x03; 0x03; 0x03; 0x66; 0x3C; 0x00];
  [0x1F; 0x36; 0x66; 0x66; 0x66; 0x36; 0x1F; 0x00];
  [0x7F; 0x46; 0x16; 0x1E; 0x16; 0x46; 0x7F; 0x00];
  [0x7F; 0x46; 0x16; 0x1E; 0x16; 0x06; 0x0F; 0x00];
  [0x3C; 0x66; 0x03; 0x03; 0x73; 0x66; 0x7C; 0x00];
  [0x33; 0x33; 0x33; 0x3F; 0x33; 0x33; 0x33; 0x00];
  [0x1E; 0x0C; 0x0C; 0x0C; 0x0C; 0x0C; 0x1E; 0x00];
  [0x78; 0x30; 0x30; 0x30; 0x33; 0x33; 0x1E; 0x00];
  [0x67; 0x66; 0x36; 0x1E; 0x36; 0x66; 0x67; 0x00];
  [0x0F; 0x06; 0x06; 0x06; 0x46; 0x66; 0x7F; 0x00];
  [0x63; 0x77; 0x7F; 0x7F; 0x6B; 0x63; 0x63; 0x00];
  [0x63; 0x67; 0x6F; 0x7B; 0x73; 0x63; 0x63; 0x00];
  [0x1C; 0x36; 0x63; 0x63; 0x63; 0x36; 0x1C; 0x00];
  [0x3F; 0x66; 0x66; 0x3E; 0x06; 0x06; 0x0F; 0x00];
  [0x1E; 0x33; 0x33; 0x33; 0x3B; 0x1E; 0x38; 0x00];
  [0x3F; 0x66; 0x66; 0x3E; 0x36; 0x66; 0x67; 0x00];
  [0x1E; 0x33; 0x07; 0x0E; 0x38; 0x33; 0x1E; 0x00];
  [0x3F; 0x2D; 0x0C; 0x0C; 0x0C; 0x0C; 0x1E; 0x00];
  [0x33; 0x33; 0x33; 0x33; 0x33; 0x33; 0x3F; 0x00];
  [0x33; 0x33; 0x33; 0x33; 0x33; 0x1E; 0x0C; 0x00];
  [0x63; 0x63; 0x63; 0x6B; 0x7F; 0x77; 0x63; 0x00];
  [0x63; 0x63; 0x36; 0x1C; 0x1C; 0x36; 0x63; 0x00];
  [0x33; 0x33; 0x33; 0x1E; 0x0C; 0x0C; 0x1E; 0x00];
  [0x7F; 0x63; 0x31; 0x18; 0x4C; 0x66; 0x7F; 0x00];
  [0x1E; 0x06; 0x06; 0x06; 0x06; 0x06; 0x1E; 0x00];
  [0x03; 0x06; 0x0C; 0x18; 0x30; 0x60; 0x40; 0x00];
  [0x1E; 0x18; 0x18; 0x18; 0x18; 0x18; 0x1E; 0x00];
  [0x08; 0x1C; 0x36; 0x63; 0x00; 0x00; 0x00; 0x00];
  [0x00; 0x00; 0x00; 0x00; 0x00; 0x00; 0x00; 0xFF];
  [0x0C; 0x0C; 0x18; 0x00; 0x00; 0x00; 0x00; 0x00];
  [0x00; 0x00; 0x1E; 0x30; 0x3E; 0x33; 0x6E; 0x00];
  [0x07; 0x06; 0x06; 0x3E; 0x66; 0x66; 0x3B; 0x00];
  [0x00; 0x00; 0x1E; 0x33; 0x03; 0x33; 0x1E; 0x00];
  [0x38; 0x30; 0x30; 0x3E; 0x33; 0x33; 0x6E; 0x00];
  [0x00; 0x00; 0x1E; 0x33; 0x3F; 0x03; 0x1E; 0x00];
  [0x1C; 0x36; 0x06; 0x0F; 0x06; 0x06; 0x0F; 0x00];
  [0x00; 0x00; 0x6E; 0x33; 0x33; 0x3E; 0x30; 0x1F];
  [0x07; 0x06; 0x36; 0x6E; 0x66; 0x66; 0x67; 0x00];
  [0x0C; 0x00; 0x0E; 0x0C; 0x0C; 0x0C; 0x1E; 0x00];
  [0x30; 0x00; 0x30; 0x30; 0x30; 0x33; 0x33; 0x1E];
  [0x07; 0x06; 0x66; 0x36; 0x1E; 0x36; 0x67; 0x00];
  [0x0E; 0x0C; 0x0C; 0x0C; 0x0C; 0x0C; 0x1E; 0x00];
  [0x00; 0x00; 0x33; 0x7F; 0x7F; 0x6B; 0x63; 0x00];
  [0x00; 0x00; 0x1F; 0x33; 0x33; 0x33; 0x33; 0x00];
  [0x00; 0x00; 0x1E; 0x33; 0x33; 0x33; 0x1E; 0x00];
  [0x00; 0x00; 0x3B; 0x66; 0x66; 0x3E; 0x06; 0x0F];
  [0x00; 0x00; 0x6E; 0x33; 0x33; 0x3E; 0x30; 0x78];
  [0x00; 0x00; 0x3B; 0x6E; 0x66; 0x06; 0x0F; 0x00];
  [0x00; 0x00; 0x3E; 0x03; 0x1E; 0x30; 0x1F; 0x00];
  [0x08; 0x0C; 0x3E; 0x0C; 0x0C; 0x2C; 0x18; 0x00];
  [0x00; 0x00; 0x33; 0x33; 0x33; 0x33; 0x6E; 0x00];
  [0x00; 0x00; 0x33; 0x33; 0x33; 0x1E; 0x0C; 0x00];
  [0x00; 0x00; 0x63; 0x6B; 0x7F; 0x7F; 0x36; 0x00];
  [0x00; 0x00; 0x63; 0x36; 0x1C; 0x36; 0x63; 0x00];
  [0x00; 0x00; 0x33; 0x33; 0x33; 0x3E; 0x30; 0x1F];
  [0x00; 0x00; 0x3F; 0x19; 0x0C; 0x26; 0x3F; 0x00];
  [0x38; 0x0C; 0x0C; 0x07; 0x0C; 0x0C; 0x38; 0x00];
  [0x18; 0x18; 0x18; 0x00; 0x18; 0x18; 0x18; 0x00];
  [0x07; 0x0C; 0x0C; 0x38; 0x0C; 0x0C; 0x07; 0x00];
  [0x6E; 0x3B; 0x00; 0x00; 0x00; 0x00; 0x00; 0x00]
].

Definition glyph_rows (ch : Z) : list Z :=
  if (ch >=? ASCII_MIN) && (ch <=? ASCII_MAX) then default [] (GLYPHS !! Z.to_nat (ch - ASCII_MIN))
  else [0xFF; 0x81; 0x81; 0x81; 0x81; 0x81; 0xFF; 0x00].

(** ** gfx.rs *)

Definition PIXEL_FORMAT_BGR : Z := 1.
Definition PIXEL_FORMAT_U8 : Z := 2.

(** [sys::DisplayInfo] *)
Record GfxInfo := mk_gfx {
  gfx_width : Z;
  gfx_height : Z;
  gfx_stride : Z;
  gfx_bpp : Z;
  gfx_format : Z
}.

Definition buffer_len (info : GfxInfo) : Z := gfx_stride info * gfx_height info * gfx_bpp info.

Definition color : Type := Z * Z * Z.

Definition put_pixel (info : GfxInfo) (x y : Z) (c : color) (buf : list byte) : option (list byte) :=
  let '(r, g, b) := c in
  if (x <? 0) || (y <? 0) || (gfx_width info <=? x) || (gfx_height info <=? y) then Some buf
  else
    let pixel_index := (y * gfx_stride info + x) mod 2 ^ 32 in
    let byte_index := pixel_index * gfx_bpp info in
    let bpp := gfx_bpp info in
    if zlen buf <? byte_index + bpp then Some buf
    else if gfx_format info =? PIXEL_FORMAT_BGR then
      buf ← store_byte byte_index b buf;
      buf ← store_byte (byte_index + 1) g buf;
      store_byte (byte_index + 2) r buf
    else if gfx_format info =? PIXEL_FORMAT_U8 then store_byte byte_index ((r + g + b) / 3) buf
    else
      buf ← store_byte byte_index r buf;
      buf ← (if 2 <=? bpp then store_byte (byte_index + 1) g buf else Some buf);
      (if 3 <=? bpp then store_byte (byte_index + 2) b buf else Some buf).

Definition fill_rect (info : GfxInfo) (x y w h : Z) (c : color) : list byte → option (list byte) :=
  for_loop (Z.to_nat h) 0 (λ dy, for_loop (Z.to_nat w) 0 (λ dx, put_pixel info (x + dx) (y + dy) c)).

Definition stroke_rect (info : GfxInfo) (x y w h : Z) (c : color) (buf : list byte) : option (list byte) :=
  buf ← for_loop (Z.to_nat w) 0 (λ dx buf,
    buf ← put_pixel info (x + dx) y c buf; put_pixel info (x + dx) (y + h - 1) c buf) buf;
  for_loop (Z.to_nat h) 0 (λ dy buf,
    buf ← put_pixel info x (y + dy) c buf; put_pixel info (x + w - 1) (y + dy) c buf) buf.

Definition draw_char (info : GfxInfo) (ch : Z) (x y : Z) (c : color) : list byte → option (list byte) :=
  let glyph := glyph_rows ch in
  for_loop (length glyph) 0 (λ row,
    let bits := default 0 (glyph !! Z.to_nat row) in
    for_loop 8 0 (λ col buf,
      if Z.land (Z.shiftr bits col) 1 =? 1 then put_pixel info (x + col) (y + row) c buf else Some buf)).

Fixpoint draw_text (info : GfxInfo) (text : list byte) (x y : Z) (c : color) (buf : list byte) : option (list byte) :=
  match text with
  | [] => Some buf
  | ch :: text => buf ← draw_char info (b2z ch) x y c buf; draw_text info text (x + 9) y c buf
  end.

Definition CURSOR_FILL : color := (0xF0, 0xF0, 0xF0).
Definition CURSOR_EDGE : color := (0x10, 0x10, 0x10).

Definition draw_cursor (info : GfxInfo) (x y : Z) : list byte → option (list byte) :=
  for_loop 14 0 (λ dy buf,
    let width := Z.min dy 8 in
    buf ← for_loop (Z.to_nat (width + 1)) 0 (λ dx, put_pixel info (x + dx) (y + dy) CURSOR_FILL) buf;
    put_pixel info (x + width + 1) (y + dy) CURSOR_EDGE buf).

(** Drawing calls one after the other. *)
Fixpoint in_order (calls : list (list byte → option (list byte))) (buf : list byte) : option (list byte) :=
  match calls with
  | [] => Some buf
  | call :: calls => buf ← call buf; in_order calls buf
  end.

(** ** Pictures *)

(** A layer of a picture: the colour it gives a point, if it covers it. *)
Definition layer : Type := Z → Z → option color.

Definition over (top below : layer) : layer := λ x y, match top x y with Some c => Some c | None => below x y end.
Definition nothing : layer := λ _ _, None.
Definition flat (c : color) (P : Z → Z → bool) : layer := λ x y, if P x y then Some c else None.

Definition in_rect (x y w h px py : Z) : bool := (x <=? px) && (px <? x + w) && (y <=? py) && (py <? y + h).
Definition on_frame (x y w h px py : Z) : bool :=
  in_rect x y w 1 px py || in_rect x (y + h - 1) w 1 px py || in_rect x y 1 h px py || in_rect (x + w - 1) y 1 h px py.

(** Layers on each other, the first on top. *)
Definition layers (ls : list layer) : layer := foldr over nothing ls.

(** The pixel of a glyph. *)
Definition glyph_bit (ch dx dy : Z) : bool :=
  (0 <=? dx) && (dx <? 8) && (0 <=? dy) && (dy <? 8) && Z.testbit (default 0 (glyph_rows ch !! Z.to_nat dy)) dx.

(** A line of text is a row of cells nine pixels wide. *)
Definition text_at (text : list byte) (x y px py : Z) : bool :=
  (x <=? px) && match text !! Z.to_nat ((px - x) / 9) with
                | Some ch => glyph_bit (b2z ch) ((px - x) mod 9) (py - y)
                | None => false
                end.

Definition cursor_layer (x y : Z) : layer := λ px py,
  let dx := px - x in let dy := py - y in let width := Z.min dy 8 in
  if (0 <=? dy) && (dy <? 14) then
    if (0 <=? dx) && (dx <=? width) then Some CURSOR_FILL else if dx =? width + 1 then Some CURSOR_EDGE else None
  else None.

Definition text (t : list byte) (x y : Z) (c : color) : layer := flat c (text_at t x y).
Definition box (x y w h : Z) (c : color) : layer := flat c (in_rect x y w h).

(** Lines of text under each other. *)
Definition column (x y : Z) (c : color) (rows : list (list byte)) : layer :=
  layers (rev (imap (λ i row, text row x (y + 18 * Z.of_nat i) c) rows)).

(** ** The bytes of a pixel *)

Definition encode (info : GfxInfo) (c : color) : list byte :=
  let '(r, g, b) := c in
  if gfx_format info =? PIXEL_FORMAT_BGR then [z2b b; z2b g; z2b r]
  else if gfx_format info =? PIXEL_FORMAT_U8 then [z2b ((r + g + b) / 3)]
  else take (Z.to_nat (gfx_bpp info)) [z2b r; z2b g; z2b b].

(** What the display reports: the rows fit their stride, the pixels have room
    for their format and the picture fits 32 bits. *)
Record gfx_ok (info : GfxInfo) : Prop := {
  gfx_width_ok : 0 < gfx_width info <= gfx_stride info;
  gfx_height_ok : 0 < gfx_height info;
  gfx_size_ok : gfx_stride info * gfx_height info <= 2 ^ 32;
  gfx_bpp_ok : 1 <= gfx_bpp info;
  gfx_bgr_ok : gfx_format info = PIXEL_FORMAT_BGR → 3 <= gfx_bpp info
}.

Definition on_screen (info : GfxInfo) (x y : Z) : Prop := 0 <= x < gfx_width info ∧ 0 <= y < gfx_height info.
Definition offset (info : GfxInfo) (x y : Z) : nat := Z.to_nat ((y * gfx_stride info + x) * gfx_bpp info).
Definition pixel_size (info : GfxInfo) : nat := length (encode info (0, 0, 0)).
Definition pixel (info : GfxInfo) (buf : list byte) (x y : Z) : list byte :=
  slice buf (offset info x y) (offset info x y + pixel_size info).

(** A picture that shows the layer at every pixel. *)
Definition displays (info : GfxInfo) (l : layer) (frame : list byte) : Prop :=
  zlen frame = buffer_len info ∧
  ∀ x y, on_screen info x y → ∃ c, l x y = Some c ∧ pixel info frame x y = encode info c.

(** Exactly the visible pixels of the layer are set, to its colours. *)
Definition draws (info : GfxInfo) (f : list byte → option (list byte)) (l : layer) : Prop :=
  ∀ buf, zlen buf = buffer_len info →
    ∃ buf', f buf = Some buf' ∧ zlen buf' = buffer_len info ∧
      ∀ x y, on_screen info x y →
        pixel info buf' x y = match l x y with Some c => encode info c | None => pixel info buf x y end.

(** ** Drawing composes *)

Section draws.
Context (info : GfxInfo).

Lemma draws_ext f l l' : draws info f l → (∀ x y, on_screen info x y → l x y = l' x y) → draws info f l'.
Proof.
  intros Hf Hl buf Hlen. destruct (Hf buf Hlen) as (buf' & E & Hlen' & Hp). exists buf'. split_and!; [done..|].
  intros x y Hv. rewrite <- Hl by done. by apply Hp.
Qed.

Lemma draws_fun f g l : (∀ buf, f buf = g buf) → draws info f l → draws info g l.
Proof. intros E Hf buf Hlen. rewrite <- E. by apply Hf. Qed.

Lemma draws_nothing : draws info Some nothing.
Proof. intros buf Hlen. by exists buf. Qed.

Lemma draws_then f g lf lg : draws info f lf → draws info g lg → draws info (λ buf, buf ← f buf; g buf) (over lg lf).
Proof.
  intros Hf Hg buf Hlen. destruct (Hf buf Hlen) as (b1 & -> & Hl1 & Hp1). destruct (Hg b1 Hl1) as (b2 & E & Hl2 & Hp2).
  exists b2. split_and!; [exact E|done|]. intros x y Hv. rewrite Hp2, Hp1 by done. unfold over. by destruct (lg x y).
Qed.

(** A loop over rows, each of which stays in its row. *)
Lemma draws_rows n y body (row : Z → layer) :
  (∀ i, 0 <= i < Z.of_nat n → draws info (body i) (λ px py, if py =? y + i then row i px py else None)) →
  draws info (for_loop n 0 body) (λ px py, if (0 <=? py - y) && (py - y <? Z.of_nat n) then row (py - y) px py else None).
Proof.
  intros Hbody buf Hlen.
  destruct (for_loop_inv (λ k b, zlen b = buffer_len info ∧ ∀ px py, on_screen info px py →
      pixel info b px py = match (if (0 <=? py - y) && (py - y <? k) then row (py - y) px py else None) with
                           | Some c => encode info c | None => pixel info buf px py end) n 0 body buf)
    as (b' & Hl & Hlb & Hp); [| |by exists b'].
  - split; [done|]. intros px py _. by destruct (Z.leb_spec 0 (py - y)), (Z.ltb_spec (py - y) 0); try lia.
  - intros i b Hi [Hlb Hp]. destruct (Hbody i ltac:(lia) b Hlb) as (b' & E & Hlb' & Hp'). exists b'. split_and!; [done|done|].
    intros px py Hv. rewrite Hp' by done. destruct (Z.eqb_spec py (y + i)) as [->|Hne].
    + replace (y + i - y) with i by lia. rewrite (proj2 (Z.leb_le 0 i)), (proj2 (Z.ltb_lt i (i + 1))) by lia. cbn [andb].
      destruct (row i px (y + i)); [done|]. rewrite Hp by done. replace (y + i - y) with i by lia.
      by rewrite (proj2 (Z.ltb_ge i i)), andb_false_r by lia.
    + rewrite Hp by done. destruct (Z.leb_spec 0 (py - y)); [|done]. cbn [andb].
      destruct (Z.ltb_spec (py - y) i), (Z.ltb_spec (py - y) (i + 1)); try done; lia.
Qed.

(** A loop whose iterations all use one colour. *)
Lemma draws_loop n body c (P : Z → Z → Z → bool) :
  (∀ i, 0 <= i < Z.of_nat n → draws info (body i) (flat c (P i))) →
  draws info (for_loop n 0 body) (flat c (λ px py, existsb (λ i, P i px py) (seqZ 0 (Z.of_nat n)))).
Proof.
  intros Hbody buf Hlen.
  destruct (for_loop_inv (λ k b, zlen b = buffer_len info ∧ ∀ px py, on_screen info px py →
      pixel info b px py = if existsb (λ i, P i px py) (seqZ 0 k) then encode info c else pixel info buf px py) n 0 body buf)
    as (b' & Hl & Hlb & Hp).
  - done.
  - intros i b Hi [Hlb Hp]. destruct (Hbody i ltac:(lia) b Hlb) as (b' & E & Hlb' & Hp'). exists b'. split_and!; [done|done|].
    intros px py Hv. rewrite Hp', Hp by done. unfold flat. replace (i + 1) with (Z.of_nat (S (Z.to_nat i))) by lia.
    rewrite seqZ_S, existsb_app, Z2Nat.id by lia. simpl. rewrite orb_false_r. replace (0 + i) with i by lia.
    by destruct (P i px py), (existsb _ _).
  - exists b'. split_and!; [done|done|]. intros px py Hv. rewrite Hp by done. unfold flat. by destruct (existsb _ _).
Qed.

Lemma layers_app ls ks x y : layers (ls ++ ks) x y = over (layers ls) (layers ks) x y.
Proof. induction ls as [|l ls IH]; [done|]. unfold layers in *. simpl. unfold over in *. by destruct (l x y). Qed.

Lemma layers_one l x y : layers [l] x y = l x y.
Proof. unfold layers. cbn. unfold over, nothing. by destruct (l x y). Qed.

(** What is drawn last is on top. *)
Lemma in_order_draws calls ls : Forall2 (draws info) calls (rev ls) → draws info (in_order calls) (layers ls).
Proof.
  rewrite <- (rev_involutive ls) at 2. generalize (rev ls). clear ls. induction 1 as [|call l calls ls Hc _ IH]; [apply draws_nothing|].
  cbn [in_order rev]. eapply draws_ext; [apply draws_then; [exact Hc|exact IH]|]. intros x y _. rewrite layers_app.
  unfold over at 1 2. destruct (layers (rev ls) x y); [done|]. by rewrite layers_one.
Qed.

Lemma draws_displays f l buf : draws info f l → (∀ x y, on_screen info x y → is_Some (l x y)) → zlen buf = buffer_len info →
  ∃ buf', f buf = Some buf' ∧ displays info l buf'.
Proof.
  intros Hf Hl Hlen. destruct (Hf buf Hlen) as (buf' & E & Hlen' & Hp). exists buf'. split; [done|]. split; [done|].
  intros x y Hv. rewrite Hp by done. destruct (Hl x y Hv) as [c ->]. by exists c.
Qed.

Lemma layers_covers (top : list layer) l x y : is_Some (l x y) → is_Some (layers (top ++ [l]) x y).
Proof. intros Hl. rewrite layers_app. unfold over. rewrite layers_one. by destruct (layers top x y). Qed.

Lemma text_nil x y c px py : text [] x y c px py = None.
Proof. unfold text, flat, text_at. cbn. by rewrite andb_false_r. Qed.

Lemma column_cons x y c row rows px py :
  column x y c (row :: rows) px py = over (column x (y + 18) c rows) (text row x y c) px py.
Proof.
  unfold column. cbn [imap rev]. rewrite layers_app. unfold over. rewrite layers_one.
  replace (y + 18 * Z.of_nat 0) with y by lia. erewrite imap_ext; [done|]. intros i r _. cbn. f_equal. lia.
Qed.

Lemma flat_over c P Q x y : over (flat c P) (flat c Q) x y = flat c (λ x y, Q x y || P x y) x y.
Proof. unfold over, flat. by destruct (P x y), (Q x y). Qed.

Lemma flat_ext c P Q x y : P x y = Q x y → flat c P x y = flat c Q x y.
Proof. unfold flat. by intros ->. Qed.

(** ** Pixels *)

Section pixels.
Context (Hok : gfx_ok info).

Lemma length_encode c : length (encode info c) = pixel_size info.
Proof using. unfold pixel_size, encode. destruct c as [[r g] b]. destruct (_ =? _); [done|]. destruct (_ =? _); [done|]. by rewrite !length_take. Qed.

Lemma pixel_size_bpp : (pixel_size info <= Z.to_nat (gfx_bpp info))%nat.
Proof using Hok.
  destruct Hok. unfold pixel_size, encode. destruct (Z.eqb_spec (gfx_format info) PIXEL_FORMAT_BGR) as [E|_]; [simpl; specialize (gfx_bgr_ok0 E); lia|].
  destruct (_ =? _); [simpl; lia|]. rewrite length_take. simpl. lia.
Qed.

Lemma pixel_room x y : on_screen info x y →
  (y * gfx_stride info + x) mod 2 ^ 32 = y * gfx_stride info + x ∧
  0 <= (y * gfx_stride info + x) * gfx_bpp info ∧ (y * gfx_stride info + x) * gfx_bpp info + gfx_bpp info <= buffer_len info.
Proof using Hok.
  intros [Hx Hy]. destruct Hok. unfold buffer_len.
  assert (0 <= y * gfx_stride info + x < gfx_stride info * gfx_height info) as Hp by nia.
  split; [apply Z.mod_small; lia|]. split; [nia|].
  assert ((y * gfx_stride info + x + 1) * gfx_bpp info <= gfx_stride info * gfx_height info * gfx_bpp info) by nia. lia.
Qed.

Lemma pixels_apart x y x' y' : on_screen info x y → on_screen info x' y' → (x, y) ≠ (x', y') →
  (offset info x y + pixel_size info ≤ offset info x' y')%nat ∨ (offset info x' y' + pixel_size info ≤ offset info x y)%nat.
Proof using Hok.
  intros Hv Hv' Hne. destruct (pixel_room x y Hv) as (_ & H1 & _). destruct (pixel_room x' y' Hv') as (_ & H2 & _).
  pose proof pixel_size_bpp. destruct Hok. destruct Hv as [Hx Hy], Hv' as [Hx' Hy'].
  assert (y * gfx_stride info + x ≠ y' * gfx_stride info + x') as Hp.
  { intros E. apply Hne. assert (y = y') as -> by nia. f_equal. lia. }
  unfold offset. set (p := y * gfx_stride info + x) in *. set (q := y' * gfx_stride info + x') in *. set (w := gfx_bpp info) in *.
  assert ((p + 1) * w <= q * w ∨ (q + 1) * w <= p * w) as [|] by (destruct (Z.lt_total p q) as [|[|]]; [left; nia|lia|right; nia]); lia.
Qed.

Lemma put_pixel_visible x y c buf : on_screen info x y → zlen buf = buffer_len info →
  put_pixel info x y c buf = Some (copy_at (offset info x y) (encode info c) buf).
Proof using Hok.
  intros Hv Hlen. destruct (pixel_room x y Hv) as (Hmod&H0&Hroom). unfold put_pixel, encode, offset. destruct c as [[r g] b].
  rewrite Hmod. set (i := (y * gfx_stride info + x) * gfx_bpp info) in *. destruct Hv as [Hx Hy], Hok.
  rewrite (proj2 (Z.ltb_ge x 0)), (proj2 (Z.ltb_ge y 0)), (proj2 (Z.leb_gt (gfx_width info) x)),
    (proj2 (Z.leb_gt (gfx_height info) y)), (proj2 (Z.ltb_ge (zlen buf) _)) by lia. cbn [orb].
  assert (Z.to_nat (i + 1) = S (Z.to_nat i) ∧ Z.to_nat (i + 2) = S (S (Z.to_nat i))) as [E1 E2] by lia.
  assert (∀ n (b : list byte), (n < length buf)%nat → length b = length buf → (n < length b)%nat) as Hlt by lia.
  assert (zlen buf = Z.of_nat (length buf)) as Hz by done.
  destruct (Z.eqb_spec (gfx_format info) PIXEL_FORMAT_BGR) as [Ef|_]; [specialize (gfx_bgr_ok0 Ef)|destruct (_ =? PIXEL_FORMAT_U8)].
  - rewrite store_byte_Some by lia. cbn [mbind option_bind]. rewrite store_byte_Some by (rewrite zlen_insert; lia).
    cbn [mbind option_bind]. rewrite store_byte_Some by (rewrite !zlen_insert; lia).
    rewrite !copy_at_cons, copy_at_nil, E1, E2 by (rewrite ?length_insert; lia). done.
  - rewrite store_byte_Some by lia. rewrite copy_at_cons, copy_at_nil by lia. done.
  - rewrite store_byte_Some by lia. cbn [mbind option_bind].
    assert (gfx_bpp info = 1 ∨ gfx_bpp info = 2 ∨ 3 <= gfx_bpp info) as [Eb|[Eb|Eb]] by lia.
    + rewrite Eb. simpl. rewrite copy_at_cons, copy_at_nil by lia. done.
    + rewrite Eb. simpl. rewrite store_byte_Some by (rewrite ?zlen_insert; lia).
      cbn [mbind option_bind]. rewrite !copy_at_cons, copy_at_nil, E1 by (rewrite ?length_insert; lia). done.
    + rewrite (proj2 (Z.leb_le 2 _)), (proj2 (Z.leb_le 3 _)) by lia. rewrite store_byte_Some by (rewrite ?zlen_insert; lia).
      cbn [mbind option_bind]. rewrite store_byte_Some by (rewrite !zlen_insert; lia). rewrite take_ge by (simpl; lia).
      rewrite !copy_at_cons, copy_at_nil, E1, E2 by (rewrite ?length_insert; lia). done.
Qed.

(** One pixel; out of the screen, nothing. *)
Lemma put_pixel_draws x y c : draws info (put_pixel info x y c) (flat c (λ px py, (px =? x) && (py =? y))).
Proof using Hok.
  intros buf Hlen. destruct (decide (on_screen info x y)) as [Hv|Hout].
  - rewrite put_pixel_visible by done. destruct (pixel_room x y Hv) as (_&H0&Hroom). pose proof pixel_size_bpp as Hsz.
    assert (offset info x y + length (encode info c) ≤ length buf)%nat as Hfit
      by (rewrite length_encode; unfold offset, zlen in *; destruct Hok; lia).
    eexists. split_and!; [done|by unfold zlen in *; rewrite length_copy_at|]. intros px py Hv'. unfold flat, pixel.
    destruct (_ && _) eqn:E; bool_hyps.
    + subst. apply slice_copy_at; rewrite length_encode in *; lia.
    + destruct (pixels_apart x y px py Hv Hv') as [Ha|Ha].
      { intros [= -> ->]. by rewrite !Z.eqb_refl in E. }
      * apply slice_copy_at_after; rewrite length_encode in *; lia.
      * apply slice_copy_at_before; lia.
  - exists buf. split_and!; [|done|].
    + unfold put_pixel. destruct c as [[r g] b]. destruct (_ || _) eqn:E; [done|]. exfalso. apply Hout. bool_hyps. unfold on_screen. lia.
    + intros px py Hv. unfold flat. destruct (_ && _) eqn:E; [|done]. bool_hyps. subst. done.
Qed.

(** ** Rectangles *)

Lemma in_rect_spec x y w h px py : in_rect x y w h px py = true ↔ x <= px < x + w ∧ y <= py < y + h.
Proof using. unfold in_rect. rewrite !andb_true_iff, !Z.leb_le, !Z.ltb_lt. tauto. Qed.

Lemma hline_draws x y w c : draws info (for_loop (Z.to_nat w) 0 (λ dx, put_pixel info (x + dx) y c)) (flat c (in_rect x y w 1)).
Proof using Hok.
  eapply draws_ext; [apply (draws_loop _ _ c (λ dx px py, (px =? x + dx) && (py =? y))); intros; apply put_pixel_draws|].
  intros px py _. apply flat_ext, existsb_seqZ. rewrite in_rect_spec. split.
  - intros [??]. exists (px - x). rewrite andb_true_iff, !Z.eqb_eq. lia.
  - intros (i & ? & Hi). rewrite andb_true_iff, !Z.eqb_eq in Hi. lia.
Qed.

Lemma fill_rect_draws x y w h c : draws info (fill_rect info x y w h c) (flat c (in_rect x y w h)).
Proof using Hok.
  eapply draws_ext; [apply (draws_loop _ _ c (λ dy, in_rect x (y + dy) w 1)); intros; apply hline_draws|].
  intros px py _. apply flat_ext, existsb_seqZ. rewrite in_rect_spec. split.
  - intros [??]. exists (py - y). rewrite in_rect_spec. lia.
  - intros (i & ? & Hi). rewrite in_rect_spec in Hi. lia.
Qed.

Lemma stroke_rect_draws x y w h c : draws info (stroke_rect info x y w h c) (flat c (on_frame x y w h)).
Proof using Hok.
  assert (∀ n (qx qy rx ry : Z → Z),
    draws info (for_loop n 0 (λ i buf, buf ← put_pixel info (qx i) (qy i) c buf; put_pixel info (rx i) (ry i) c buf))
      (flat c (λ px py, existsb (λ i, (px =? qx i) && (py =? qy i) || (px =? rx i) && (py =? ry i)) (seqZ 0 (Z.of_nat n))))) as Hpair.
  { intros n qx qy rx ry. apply (draws_loop _ _ c (λ i px py, (px =? qx i) && (py =? qy i) || (px =? rx i) && (py =? ry i))).
    intros i _. eapply draws_ext; [apply draws_then; apply put_pixel_draws|]. intros px py _. apply flat_over. }
  unfold stroke_rect. eapply draws_ext; [apply draws_then; apply Hpair|]. intros px py _. rewrite flat_over. apply flat_ext.
  apply eq_true_iff_eq. unfold on_frame. rewrite !orb_true_iff, !in_rect_spec, !existsb_exists.
  setoid_rewrite orb_true_iff. setoid_rewrite andb_true_iff. setoid_rewrite Z.eqb_eq. setoid_rewrite <- list_elem_of_In. setoid_rewrite elem_of_seqZ. split.
  - intros [(i & ? & ?)|(i & ? & ?)]; lia.
  - intros [[[?|?]|?]|?]; [left; exists (px - x)|left; exists (px - x)|right; exists (py - y)|right; exists (py - y)]; lia.
Qed.

(** ** Text and the cursor *)

Lemma length_glyph_rows ch : length (glyph_rows ch) = 8%nat.
Proof using.
  unfold glyph_rows. destruct (_ && _) eqn:E; [|done]. bool_hyps.
  assert (Forall (λ g : list Z, length g = 8%nat) GLYPHS) as Hall by (repeat constructor).
  destruct (GLYPHS !! Z.to_nat (ch - ASCII_MIN)) as [g|] eqn:Eg; [by apply (Forall_lookup_1 _ _ _ _ Hall Eg)|].
  apply lookup_ge_None in Eg. change (length GLYPHS) with 95%nat in Eg. unfold ASCII_MIN, ASCII_MAX in *. lia.
Qed.

Lemma bit_set bits col : 0 <= col → (Z.land (Z.shiftr bits col) 1 =? 1) = Z.testbit bits col.
Proof using.
  intros Hc. change 1 with (Z.ones 1) at 1. rewrite Z.land_ones by done. change (2 ^ 1) with 2.
  replace (Z.testbit bits col) with (Z.testbit (Z.shiftr bits col) 0) by (rewrite Z.shiftr_spec by done; f_equal; lia).
  rewrite <- Z.bit0_mod. by destruct (Z.testbit _ 0).
Qed.

Lemma draw_char_draws ch x y c : draws info (draw_char info ch x y c) (flat c (λ px py, glyph_bit ch (px - x) (py - y))).
Proof using Hok.
  unfold draw_char. rewrite length_glyph_rows. set (bits row := default 0 (glyph_rows ch !! Z.to_nat row)).
  eapply draws_ext; [apply (draws_rows 8 y _ (λ row, flat c (λ px _, (0 <=? px - x) && (px - x <? 8) && Z.testbit (bits row) (px - x))))|].
  - intros row Hrow. eapply draws_ext.
    { apply (draws_loop 8 _ c (λ col px py, Z.testbit (bits row) col && ((px =? x + col) && (py =? y + row)))). intros col Hcol.
      rewrite bit_set by lia. destruct (Z.testbit _ col); [apply put_pixel_draws|apply draws_nothing]. }
    intros px py _. unfold flat. destruct (Z.eqb_spec py (y + row)) as [->|Hne].
    + erewrite existsb_seqZ; [done|]. rewrite !andb_true_iff, Z.leb_le, Z.ltb_lt. split.
      * intros ((?&?)&Hb). exists (px - x). split; [lia|]. rewrite Hb. cbn [andb]. lia.
      * intros (i & Hi & Hb). rewrite !andb_true_iff, !Z.eqb_eq in Hb. destruct Hb as (Hb&->&_). replace (x + i - x) with i by lia. split; [lia|done].
    + erewrite (existsb_seqZ _ _ false); [done|]. split; [done|]. intros (i & Hi & Hb). rewrite !andb_true_iff, !Z.eqb_eq in Hb. lia.
  - intros px py _. unfold flat, glyph_bit. fold (bits (py - y)). change (Z.of_nat 8) with 8.
    destruct (0 <=? px - x), (px - x <? 8), (0 <=? py - y), (py - y <? 8); done.
Qed.

Lemma text_at_cons ch text x y px py :
  text_at (ch :: text) x y px py = glyph_bit (b2z ch) (px - x) (py - y) || text_at text (x + 9) y px py.
Proof using.
  unfold text_at. destruct (Z.leb_spec x px) as [Hle|Hlt].
  - destruct (Z.leb_spec (x + 9) px) as [Hge|Hin]; cbn [andb].
    + replace ((px - x) / 9) with ((px - (x + 9)) / 9 + 1) by (rewrite <- Z.div_add by done; f_equal; lia).
      assert (0 <= (px - (x + 9)) / 9) by (apply Z.div_pos; lia).
      replace (Z.to_nat ((px - (x + 9)) / 9 + 1)) with (S (Z.to_nat ((px - (x + 9)) / 9))) by lia. cbn [lookup list_lookup].
      replace ((px - x) mod 9) with ((px - (x + 9)) mod 9) by (replace (px - x) with (px - (x + 9) + 1 * 9) by lia; by rewrite Z.mod_add).
      replace (glyph_bit (b2z ch) (px - x) (py - y)) with false; [done|]. symmetry. unfold glyph_bit. rewrite (proj2 (Z.ltb_ge (px - x) 8)) by lia. by rewrite andb_false_r.
    + rewrite Z.div_small, Z.mod_small by lia. cbn. by rewrite orb_false_r.
  - rewrite (proj2 (Z.leb_gt (x + 9) px)) by lia. cbn [andb]. rewrite orb_false_r. unfold glyph_bit. by rewrite (proj2 (Z.leb_gt 0 (px - x))) by lia.
Qed.

Lemma draw_text_draws text x y c : draws info (draw_text info text x y c) (flat c (text_at text x y)).
Proof using Hok.
  revert x. induction text as [|ch text IH]; intros x; cbn [draw_text].
  - eapply draws_ext; [apply draws_nothing|]. intros px py _. unfold flat, text_at. cbn. by rewrite andb_false_r.
  - eapply draws_ext; [apply draws_then; [apply draw_char_draws|apply IH]|]. intros px py _. rewrite flat_over. apply flat_ext.
    by rewrite text_at_cons.
Qed.

Lemma text_draws t x y x' y' c : x = x' → y = y' → draws info (draw_text info t x y c) (text t x' y' c).
Proof using Hok. intros -> ->. by apply draw_text_draws. Qed.

Lemma box_draws x y w h c : draws info (fill_rect info x y w h c) (box x y w h c).
Proof using Hok. by apply fill_rect_draws. Qed.

(** What lies on a box as large as the screen covers the screen. *)
Lemma backdrop_covers top c x y : on_screen info x y → is_Some (layers (top ++ [box 0 0 (gfx_width info) (gfx_height info) c]) x y).
Proof using.
  intros [Hx Hy]. apply layers_covers. unfold box, flat. rewrite (proj2 (in_rect_spec _ _ _ _ _ _)) by lia. by eexists.
Qed.

Lemma draw_cursor_draws x y : draws info (draw_cursor info x y) (cursor_layer x y).
Proof using Hok.
  unfold draw_cursor. eapply draws_ext.
  - apply (draws_rows 14 y _ (λ dy px _, let width := Z.min dy 8 in
      if (0 <=? px - x) && (px - x <=? width) then Some CURSOR_FILL else if px - x =? width + 1 then Some CURSOR_EDGE else None)).
    intros dy Hdy. cbv zeta. eapply draws_ext; [apply draws_then; [apply hline_draws|apply put_pixel_draws]|].
    intros px py _. unfold over, flat. destruct (Z.eqb_spec py (y + dy)) as [->|Hne].
    + rewrite andb_true_r. destruct (in_rect x (y + dy) (Z.min dy 8 + 1) 1 px (y + dy)) eqn:E.
      * apply in_rect_spec in E. rewrite (proj2 (Z.eqb_neq px _)) by lia. by rewrite (proj2 (Z.leb_le 0 _)), (proj2 (Z.leb_le (px - x) _)) by lia.
      * replace ((0 <=? px - x) && (px - x <=? Z.min dy 8)) with false.
        -- replace (px =? x + Z.min dy 8 + 1) with (px - x =? Z.min dy 8 + 1) by lia. by destruct (px - x =? _).
        -- symmetry. apply not_true_is_false. intros Hb. apply not_true_iff_false in E. apply E, in_rect_spec. lia.
    + rewrite andb_false_r. destruct (in_rect _ _ _ _ px py) eqn:E; [|done]. apply in_rect_spec in E. lia.
  - intros px py _. unfold cursor_layer. done.
Qed.
End pixels.
End draws.

(** Calls and layers in step; what it leaves are calls other than boxes and
    texts. *)
Ltac pieces :=
  apply in_order_draws; cbn [rev app imap fst snd];
  repeat (apply Forall2_cons; split; [first [apply box_draws; assumption|apply text_draws; [assumption|cbn [Z.of_nat]; lia|cbn [Z.of_nat]; lia]|idtac]|]);
  [..|apply Forall2_nil; done].
