(* ===== verification/UserLib.v ===== *)
(** What the programs of userland/hello share: the system call convention of
    lib.rs, the wrappers of bin/desktop/sys.rs, and numbers as text.

    A program is a computation over the state [S] of everything outside it; it
    returns, exits with a code, or panics. A register that points to memory is
    given with the memory it points to: [In] is read by the kernel, [Out] is
    filled by it. [Ring3] is the gate [int 0x80]; [Ring3Spec] is what the
    programs rely on, which are promises of syscall.rs. What a program did and
    was told is its history of calls and answers; the functions on histories say
    which input was delivered, what was asked meanwhile, and what was shown. *)

From S2P Require Import Prelude Str Input ShellText Canvas.

(** ** lib.rs: the convention *)

Definition SYS_EXIT : Z := 0.
Definition SYS_WRITE : Z := 1.
Definition SYS_YIELD : Z := 2.
Definition SYS_GETPID : Z := 3.
Definition SYS_MMAP : Z := 4.
Definition SYS_MUNMAP : Z := 5.
Definition SYS_DISPLAY_INFO : Z := 6.
Definition SYS_DISPLAY_PRESENT : Z := 7.
Definition SYS_INPUT_POLL : Z := 8.
Definition SYS_UPTIME_TICKS : Z := 9.
Definition SYS_CHDIR : Z := 10.
Definition SYS_GETCWD : Z := 11.
Definition SYS_OPEN : Z := 12.
Definition SYS_READ : Z := 13.
Definition SYS_CLOSE : Z := 14.
Definition SYS_SPAWN : Z := 15.
Definition SYS_PUT_FILE : Z := 16.
Definition SYS_REMOVE : Z := 17.
Definition SYS_MKDIR : Z := 18.
Definition SYS_READDIR : Z := 19.
Definition SYS_STAT : Z := 20.
Definition SYS_SEEK : Z := 21.

(** What a register holds: a number, a pointer to bytes for the kernel, a
    pointer to a buffer it fills, or a pointer to a [buffer_spec] of either. *)
Inductive reg :=
| Num (z : Z)
| In (bytes : list byte)
| Out (size : nat)
| SpecIn (bytes : list byte)
| SpecOut (size : nat).

(** The gate: the result in RAX as an [i64], and the buffer after the call. *)
Class Ring3 (S : Type) := int80 : Z → reg → reg → reg → S → (Z * list byte) * S.

(** ** Programs *)

Inductive ending (A : Type) : Type :=
| Returns (a : A)
| Exits (code : Z)
| Panics.
Arguments Returns {A} a.
Arguments Exits {A} code.
Arguments Panics {A}.

Definition U (S A : Type) : Type := S → ending A * S.

#[global] Instance U_ret {S} : MRet (U S) := λ A a s, (Returns a, s).
#[global] Instance U_bind {S} : MBind (U S) := λ A B f m s,
  match m s with
  | (Returns a, s) => f a s
  | (Exits code, s) => (Exits code, s)
  | (Panics, s) => (Panics, s)
  end.

(** An index out of range, or an exhausted array, is a panic. *)
Definition or_panic {S A} (o : option A) : U S A := λ s,
  match o with Some a => (Returns a, s) | None => (Panics, s) end.

(** [&bytes[..len]] *)
Definition slice_to (len : nat) (bytes : list byte) : option (list byte) :=
  if (len <=? length bytes)%nat then Some (take len bytes) else None.

(** [value] in the array of twenty digits, from its end; the room left of the
    first digit goes down. *)
Fixpoint back_fill (room : nat) (value : Z) (digits : list byte) : option (list byte) :=
  if value =? 0 then Some digits
  else
    match room with
    | O => None
    | S room => back_fill room (value / 10) (z2b (48 + value mod 10) :: digits)
    end.

Definition u64_to_decimal (value : Z) : option (list byte) :=
  if value =? 0 then Some (bs "0") else back_fill 20 value [].

(** [b"...\n"] *)
Definition newline : list byte := [z2b 10].
Definition message (text : list byte) : list byte := text ++ newline.

(** ** Lines put together in a fixed array: the array and the length used *)

Definition Line : Type := list byte * nat.

Definition append_bytes (bytes : list byte) (line : Line) : option Line :=
  let '(out, len) := line in
  let available := (length out - len)%nat in
  let count := (length bytes `min` available)%nat in
  if (len + count <=? length out)%nat then Some (copy_at len (take count bytes) out, (len + count)%nat) else None.

Definition append_u64 (value : Z) (line : Line) : option Line :=
  digits ← u64_to_decimal value; append_bytes digits line.

(** [unsigned_abs] of an [i32] *)
Definition append_i32 (value : Z) (line : Line) : option Line :=
  line ← (if value <? 0 then append_bytes (bs "-") line else Some line);
  append_u64 (Z.abs value) line.

Definition empty_line (size : nat) : Line := (replicate size (z2b 0), 0%nat).
(** [&line[..len]] *)
Definition line_text (line : Line) : list byte := take line.2 line.1.

Section sys.
Context {S : Type} `{Ring3 S}.

Definition syscall (num : Z) (a1 a2 a3 : reg) : U S (Z * list byte) := λ s,
  let '(r, s) := int80 num a1 a2 a3 s in (Returns r, s).

Definition write (msg : list byte) : U S unit :=
  _ ← syscall SYS_WRITE (In msg) (Num (zlen msg)) (Num 0); mret tt.

(** ** sys.rs *)

Definition exit {A} (code : Z) : U S A := λ s,
  let '(_, s) := int80 SYS_EXIT (Num (code mod 2 ^ 64)) (Num 0) (Num 0) s in (Exits code, s).

Definition display_info : U S (option GfxInfo) :=
  '(result, buf) ← syscall SYS_DISPLAY_INFO (Out 20) (Num 20) (Num 0);
  if result <? 0 then mret None
  else mret (Some (mk_gfx (le_decode (slice buf 0 4)) (le_decode (slice buf 4 8)) (le_decode (slice buf 8 12))
                     (le_decode (slice buf 12 16)) (le_decode (slice buf 16 20)))).

Definition mmap (len : Z) (writable : bool) : U S (option Z) :=
  '(result, _) ← syscall SYS_MMAP (Num len) (Num (Z.b2z writable)) (Num 0);
  mret (if result <? 0 then None else Some result).

Definition munmap (ptr len : Z) : U S bool :=
  '(result, _) ← syscall SYS_MUNMAP (Num ptr) (Num len) (Num 0); mret (result =? 0).

(** [buf] is what the mapping at [ptr] holds. *)
Definition display_present (buf : list byte) (len : Z) : U S bool :=
  '(result, _) ← syscall SYS_DISPLAY_PRESENT (In buf) (Num len) (Num 0); mret (result =? 0).

(** The event, when there is one. *)
Definition input_poll : U S (option (list byte)) :=
  '(result, buf) ← syscall SYS_INPUT_POLL (Out 8) (Num 8) (Num 0);
  mret (if result =? 1 then Some buf else None).

Definition uptime_ticks : U S Z :=
  '(result, _) ← syscall SYS_UPTIME_TICKS (Num 0) (Num 0) (Num 0); mret (Z.max result 0).

Definition yield_now : U S unit := _ ← syscall SYS_YIELD (Num 0) (Num 0) (Num 0); mret tt.

(** [u32::try_from(result).ok()] *)
Definition spawn (path : list byte) : U S (option Z) :=
  '(result, _) ← syscall SYS_SPAWN (In path) (Num (zlen path)) (Num 0);
  mret (if (0 <=? result) && (result <=? u32_max) then Some result else None).

(** The count and the buffer. *)
Definition read_dir (path : list byte) (size : nat) : U S (option (Z * list byte)) :=
  '(result, output) ← syscall SYS_READDIR (In path) (Num (zlen path)) (SpecOut size);
  mret (if 0 <=? result then Some (result, output) else None).

Definition stat (path : list byte) : U S (option (Z * Z)) :=
  '(result, record) ← syscall SYS_STAT (In path) (Num (zlen path)) (Out 16);
  mret (if negb (result =? 0) then None else Some (le_decode (slice record 0 8), le_decode (slice record 8 16))).

Definition read_file (path : list byte) (size : nat) : U S (option (Z * list byte)) :=
  '(handle, _) ← syscall SYS_OPEN (In path) (Num (zlen path)) (Num 0);
  if handle <? 3 then mret None
  else
    '(read, output) ← syscall SYS_READ (Num handle) (Out size) (Num (Z.of_nat size));
    '(closed, _) ← syscall SYS_CLOSE (Num handle) (Num 0) (Num 0);
    mret (if (read <? 0) || negb (closed =? 0) then None else Some (read, output)).

Definition put_file (path data : list byte) : U S bool :=
  '(result, _) ← syscall SYS_PUT_FILE (In path) (Num (zlen path)) (SpecIn data); mret (result =? 0).
End sys.

(** ** What programs rely on *)

(** A display a program can draw on; its record holds 32-bit numbers. *)
Definition drawable (info : GfxInfo) : Prop :=
  gfx_ok info ∧ gfx_width info < 2 ^ 15 ∧ gfx_height info < 2 ^ 15 ∧ gfx_stride info < 2 ^ 32 ∧
  gfx_bpp info <= 8 ∧ is_u32 (gfx_format info).

Definition gfx_record (info : GfxInfo) : list byte :=
  le_encode 4 (gfx_width info) ++ le_encode 4 (gfx_height info) ++ le_encode 4 (gfx_stride info) ++
  le_encode 4 (gfx_bpp info) ++ le_encode 4 (gfx_format info).

(** What the input queue holds. *)
Definition event_ok (e : InputEvent) : Prop :=
  match e with
  | KeyDown code => 0 <= code < 256
  | MouseMove x y => is_i16 x ∧ is_i16 y
  | MouseButton button _ => 0 <= button < 256
  end.

Lemma byte_at_0 e : b2z (to_le_bytes e !!! 0%nat) = match e with KeyDown _ => 1 | MouseMove _ _ => 2 | MouseButton _ _ => 3 end.
Proof. by destruct e. Qed.

Lemma byte_at_1_key code : 0 <= code < 256 → b2z (to_le_bytes (KeyDown code) !!! 1%nat) = code.
Proof. intros Hc. change (to_le_bytes (KeyDown code) !!! 1%nat) with (z2b code). by apply b2z_z2b_small. Qed.

(** Pages needed for a length. *)
Definition page_round (len : Z) : Z := Z.land (len + 4095) (Z.lnot 4095).

(** ** Histories: what was called and answered *)

Definition call : Type := Z * reg * reg * reg.
Record io := mk_io { io_call : call; io_answer : Z * list byte }.

#[global] Instance reg_eq_dec : EqDecision reg.
Proof. solve_decision. Defined.

Definition is_call (num : Z) (c : io) : bool := (io_call c).1.1.1 =? num.

(** The event that eight bytes of the queue say. *)
Definition event_of (bytes : list byte) : InputEvent :=
  let kind := b2z (bytes !!! 0%nat) in
  let signed l := (le_decode l + 2 ^ 15) mod 2 ^ 16 - 2 ^ 15 in
  if kind =? 1 then KeyDown (b2z (bytes !!! 1%nat))
  else if kind =? 2 then MouseMove (signed (slice bytes 4 6)) (signed (slice bytes 6 8))
  else MouseButton (b2z (bytes !!! 1%nat)) (negb (b2z (bytes !!! 2%nat) =? 0)).

Lemma event_of_bytes e : event_ok e → event_of (to_le_bytes e) = e.
Proof.
  assert (∀ z, is_i16 z → (le_decode (i16_to_le_bytes z) + 2 ^ 15) mod 2 ^ 16 - 2 ^ 15 = z) as H16.
  { intros z [H1 H2]. unfold i16_to_le_bytes, i16_min, i16_max in *.
    rewrite le_decode_encode by (change (2 ^ (Z.of_nat 2 * 8)) with (2 ^ 16); by apply Z.mod_pos_bound).
    rewrite Zplus_mod_idemp_l, Z.mod_small; lia. }
  unfold event_of. rewrite byte_at_0. destruct e as [code|x y|button pressed]; cbn [event_ok].
  - intros Hc. cbn [Z.eqb Pos.eqb]. by rewrite byte_at_1_key.
  - intros [Hx Hy]. cbn [Z.eqb Pos.eqb]. change (slice (to_le_bytes (MouseMove x y)) 4 6) with (i16_to_le_bytes x).
    change (slice (to_le_bytes (MouseMove x y)) 6 8) with (i16_to_le_bytes y). cbv zeta. by rewrite !H16.
  - intros Hb. cbn [Z.eqb Pos.eqb]. change (to_le_bytes (MouseButton button pressed) !!! 1%nat) with (z2b button).
    rewrite b2z_z2b_small by done. by destruct pressed.
Qed.

(** The event that a call delivered. *)
Definition delivered (c : io) : option InputEvent :=
  if is_call SYS_INPUT_POLL c && ((io_answer c).1 =? 1) then Some (event_of (io_answer c).2) else None.

(** The calls before the queue is asked. *)
Fixpoint before_poll (log : list io) : list io :=
  match log with
  | [] => []
  | c :: log => if is_call SYS_INPUT_POLL c then [] else c :: before_poll log
  end.

(** Every event that was delivered, with the calls that followed it. *)
Fixpoint episodes (log : list io) : list (InputEvent * list io) :=
  match log with
  | [] => []
  | c :: log => match delivered c with Some e => (e, before_poll log) :: episodes log | None => episodes log end
  end.

(** How often the queue was found empty. *)
Definition found_empty (c : io) : bool := is_call SYS_INPUT_POLL c && negb ((io_answer c).1 =? 1).
Definition drained (log : list io) : nat := length (List.filter found_empty log).

(** The answer to a call, the first time it was made. *)
Definition answer_to (c : call) (log : list io) : option (Z * list byte) :=
  io_answer <$> List.find (λ d, bool_decide (io_call d = c)) log.

(** The frame that the kernel took. *)
Definition shown_by (c : io) : option (list byte) :=
  match io_call c with
  | (num, In frame, Num len, _) => if (num =? SYS_DISPLAY_PRESENT) && (len =? zlen frame) && ((io_answer c).1 =? 0) then Some frame else None
  | _ => None
  end.
Definition shown_in (log : list io) : list (list byte) := rev (omap shown_by log).

(** Every frame offered to the kernel is [good] where it was offered. *)
Definition frame_good (good : list io → list byte → Prop) (before : list io) (c : io) : Prop :=
  is_call SYS_DISPLAY_PRESENT c = true → ∃ frame r, c = mk_io (SYS_DISPLAY_PRESENT, In frame, Num (zlen frame), Num 0) r ∧ good before frame.
Definition every_frame (good : list io → list byte → Prop) (log : list io) : Prop :=
  ∀ before c after, log = before ++ c :: after → frame_good good before c.

(** What was written to the serial port. *)
Definition said_by (c : io) : list byte :=
  match io_call c with (num, In msg, _, _) => if num =? SYS_WRITE then msg else [] | _ => [] end.
Definition said_in (log : list io) : list byte := concat (said_by <$> log).

(** The display that the kernel described. *)
Definition mode_in (log : list io) : option GfxInfo :=
  '(_, buf) ← answer_to (SYS_DISPLAY_INFO, Out 20, Num 20, Num 0) log;
  Some (mk_gfx (le_decode (slice buf 0 4)) (le_decode (slice buf 4 8)) (le_decode (slice buf 8 12))
          (le_decode (slice buf 12 16)) (le_decode (slice buf 16 20))).

Lemma answer_to_head c r log : answer_to c (mk_io c r :: log) = Some r.
Proof. unfold answer_to. cbn. by rewrite bool_decide_eq_true_2. Qed.

Lemma answer_to_other c d log : io_call d ≠ c → answer_to c (d :: log) = answer_to c log.
Proof. intros Hd. unfold answer_to. cbn. by rewrite bool_decide_eq_false_2. Qed.

Lemma answer_to_skip c l1 l2 : Forall (λ d, io_call d ≠ c) l1 → answer_to c (l1 ++ l2) = answer_to c l2.
Proof. induction 1 as [|d l1 Hd _ IH]; [done|]. cbn [app]. by rewrite answer_to_other. Qed.

Lemma answer_to_app c l1 l2 r : answer_to c l1 = Some r → answer_to c (l1 ++ l2) = Some r.
Proof.
  induction l1 as [|d l1 IH]; [done|]. cbn [app]. destruct (decide (io_call d = c)) as [E|Hne].
  - destruct d as [d0 r0]. cbn in E. subst d0. by rewrite !answer_to_head.
  - rewrite !answer_to_other by done. apply IH.
Qed.

(** Calls that are no polls leave the input as it is. *)
Definition no_poll (c : io) : Prop := is_call SYS_INPUT_POLL c = false.

Lemma before_poll_app l1 l2 : Forall no_poll l1 → before_poll (l1 ++ l2) = l1 ++ before_poll l2.
Proof. induction 1 as [|c l1 Hc _ IH]; [done|]. cbn. by rewrite Hc, IH. Qed.

Lemma before_poll_stops l1 c l2 : is_call SYS_INPUT_POLL c = true → before_poll (l1 ++ c :: l2) = before_poll l1.
Proof. intros Hc. induction l1 as [|d l1 IH]; cbn; [by rewrite Hc|]. by rewrite IH. Qed.

Lemma before_poll_all l : Forall no_poll l → before_poll l = l.
Proof. intros Hl. by rewrite <- (app_nil_r l) at 1; rewrite before_poll_app, app_nil_r. Qed.

Lemma episodes_quiet l : Forall no_poll l → episodes l = [].
Proof. induction 1 as [|c l Hc _ IH]; [done|]. cbn. unfold delivered. by rewrite Hc. Qed.

Lemma episodes_stop l1 c l2 : is_call SYS_INPUT_POLL c = true → episodes (l1 ++ c :: l2) = episodes l1 ++ episodes (c :: l2).
Proof.
  intros Hc. induction l1 as [|d l1 IH]; [done|]. cbn [app episodes] in *. rewrite before_poll_stops by done.
  destruct (delivered d); cbn [app]; by rewrite IH.
Qed.

Lemma episodes_delivered l1 c e l2 : delivered c = Some e → Forall no_poll l2 → episodes (l1 ++ c :: l2) = episodes l1 ++ [(e, l2)].
Proof.
  intros Hc Hl. rewrite episodes_stop.
  - cbn [episodes]. by rewrite Hc, (episodes_quiet l2), before_poll_all.
  - unfold delivered in Hc. by destruct (is_call _ _).
Qed.

Lemma episodes_empty l1 c l2 : found_empty c = true → Forall no_poll l2 → episodes (l1 ++ c :: l2) = episodes l1.
Proof.
  unfold found_empty. intros [Hc Hr]%andb_true_iff Hl. rewrite episodes_stop by done. cbn [episodes]. unfold delivered.
  apply negb_true_iff in Hr. by rewrite Hr, andb_false_r, (episodes_quiet l2), app_nil_r.
Qed.

Lemma drained_app l1 l2 : drained (l1 ++ l2) = (drained l1 + drained l2)%nat.
Proof. unfold drained. by rewrite List.filter_app, length_app. Qed.

Lemma drained_quiet l : Forall no_poll l → drained l = 0%nat.
Proof. induction 1 as [|c l Hc _ IH]; [done|]. unfold drained in *. cbn. unfold found_empty at 1. by rewrite Hc. Qed.

Lemma shown_in_app l1 l2 : shown_in (l1 ++ l2) = shown_in l2 ++ shown_in l1.
Proof. unfold shown_in. by rewrite omap_app, rev_app_distr. Qed.

Lemma said_in_app l1 l2 : said_in (l1 ++ l2) = said_in l1 ++ said_in l2.
Proof. unfold said_in. by rewrite fmap_app, concat_app. Qed.

Lemma delivered_event e : event_ok e → delivered (mk_io (SYS_INPUT_POLL, Out 8, Num 8, Num 0) (1, to_le_bytes e)) = Some e.
Proof. intros He. unfold delivered. cbn -[event_of to_le_bytes]. by rewrite event_of_bytes. Qed.

(** Calls that present nothing. *)
Definition no_present (c : io) : Prop := is_call SYS_DISPLAY_PRESENT c = false.

Lemma shown_in_none l : Forall no_present l → shown_in l = [].
Proof.
  unfold shown_in. induction 1 as [|c l Hc _ IH]; [done|]. cbn [omap list_omap].
  assert (shown_by c = None) as ->; [|done]. unfold no_present, is_call, shown_by in *. destruct c as [[[[num a1] a2] a3] r]. cbn in *.
  destruct a1, a2; try done. by rewrite Hc.
Qed.

Lemma every_frame_nil good : every_frame good [].
Proof. intros before c after E. by destruct before. Qed.

Lemma every_frame_snoc good log c : every_frame good log → frame_good good log c → every_frame good (log ++ [c]).
Proof.
  intros Hl Hc before d after E. destruct after as [|x after _] using rev_ind.
  - apply app_inj_tail in E as [-> ->]. done.
  - rewrite app_comm_cons, app_assoc in E. apply app_inj_tail in E as [-> ->]. by eapply Hl.
Qed.

Lemma every_frame_quiet good log ext : every_frame good log → Forall no_present ext → every_frame good (log ++ ext).
Proof.
  intros Hl He. revert log Hl. induction He as [|c ext Hc _ IH]; intros log Hl; [by rewrite app_nil_r|].
  rewrite cons_middle, app_assoc. apply IH, every_frame_snoc; [done|]. intros Hp. unfold no_present in Hc. congruence.
Qed.

(** The calls with the answers to them. *)
Definition wrote (msg : list byte) (r : Z * list byte) : io := mk_io (SYS_WRITE, In msg, Num (zlen msg), Num 0) r.
Definition exited (code : Z) (r : Z * list byte) : io := mk_io (SYS_EXIT, Num code, Num 0, Num 0) r.
Definition polled (r : Z * list byte) : io := mk_io (SYS_INPUT_POLL, Out 8, Num 8, Num 0) r.
Definition presented (frame : list byte) (r : Z * list byte) : io := mk_io (SYS_DISPLAY_PRESENT, In frame, Num (zlen frame), Num 0) r.
Definition unmapped (ptr len : Z) (r : Z * list byte) : io := mk_io (SYS_MUNMAP, Num ptr, Num len, Num 0) r.

(** Input comes in batches: the events the queue gives before it is found
    empty, those that arrive meanwhile included. *)
Class Ring3Spec (S : Type) `{Ring3 S} := {
  batch : S → list InputEvent;
  (** the calls so far and their answers, the oldest first *)
  history : S → list io;
  (** the mappings of the program *)
  maps : S → list (Z * Z);
  (** states in which the kernel serves this program *)
  serving : S → Prop;
  (** batches are finite: a bound on their length *)
  patience : nat;
  history_law num a1 a2 a3 s :
    let '(r, s') := int80 num a1 a2 a3 s in history s' = history s ++ [mk_io (num, a1, a2, a3) r];
  batch_law s : serving s → (length (batch s) < patience)%nat ∧ Forall event_ok (batch s);
  poll_law s : serving s →
    let '((r, buf), s') := int80 SYS_INPUT_POLL (Out 8) (Num 8) (Num 0) s in
    serving s' ∧ maps s' = maps s ∧
    match batch s with
    | e :: rest => r = 1 ∧ buf = to_le_bytes e ∧ batch s' = rest
    | [] => r ≠ 1
    end;
  write_law msg s : serving s →
    let '(_, s') := int80 SYS_WRITE (In msg) (Num (zlen msg)) (Num 0) s in
    serving s' ∧ maps s' = maps s ∧ batch s' = batch s;
  present_law buf s : serving s →
    let '(_, s') := int80 SYS_DISPLAY_PRESENT (In buf) (Num (zlen buf)) (Num 0) s in
    serving s' ∧ maps s' = maps s ∧ batch s' = batch s;
  info_law s : serving s →
    let '((r, buf), s') := int80 SYS_DISPLAY_INFO (Out 20) (Num 20) (Num 0) s in
    serving s' ∧ maps s' = maps s ∧ batch s' = batch s ∧
    (0 <= r → ∃ info, drawable info ∧ buf = gfx_record info);
  mmap_law len w s : serving s →
    let '((r, _), s') := int80 SYS_MMAP (Num len) (Num w) (Num 0) s in
    serving s' ∧ batch s' = batch s ∧
    (if r <? 0 then maps s' = maps s else maps s' = (r, page_round len) :: maps s ∧ (r, page_round len) ∉ maps s);
  munmap_law ptr len s : serving s → (ptr, len) ∈ maps s →
    let '((r, _), s') := int80 SYS_MUNMAP (Num ptr) (Num len) (Num 0) s in
    serving s' ∧ batch s' = batch s ∧
    (if r =? 0 then ∃ l1 l2, maps s = l1 ++ (ptr, len) :: l2 ∧ maps s' = l1 ++ l2 else maps s' = maps s);
  (** what the program leaves behind *)
  exit_law code s : serving s →
    let '(_, s') := int80 SYS_EXIT (Num code) (Num 0) (Num 0) s in maps s' = maps s;
  (** what is put in a buffer fits it *)
  readdir_law path size s : serving s →
    let '((r, buf), _) := int80 SYS_READDIR (In path) (Num (zlen path)) (SpecOut size) s in
    r <= Z.of_nat size ∧ length buf = size;
  read_law handle size s : serving s →
    let '((r, buf), _) := int80 SYS_READ (Num handle) (Out size) (Num (Z.of_nat size)) s in
    r <= Z.of_nat size ∧ length buf = size;
  (** the calls that only ask, and those that wait or start another process *)
  query_law num a1 a2 a3 s : num ∈ [SYS_UPTIME_TICKS; SYS_YIELD; SYS_SPAWN; SYS_READDIR; SYS_STAT; SYS_OPEN; SYS_READ; SYS_CLOSE; SYS_PUT_FILE] →
    serving s →
    let '(_, s') := int80 num a1 a2 a3 s in
    serving s' ∧ maps s' = maps s ∧ (num ≠ SYS_YIELD → batch s' = batch s)
}.

Lemma buffer_len_bound info : drawable info → 0 < buffer_len info < 2 ^ 51.
Proof.
  intros ([[Hw Hst] Hh Hsz Hb _]&Hw2&Hh2&Hst2&Hb2&_). unfold buffer_len.
  assert (0 < gfx_stride info * gfx_height info) by nia. set (a := gfx_stride info * gfx_height info) in *.
  change (2 ^ 32) with 4294967296 in *. change (2 ^ 51) with 2251799813685248. nia.
Qed.

(** ** Running programs *)

(** [m] does not panic; it returns by [Q] or exits by [X]. *)
Definition uwp {S A} (m : U S A) (Q : A → S → Prop) (X : Z → S → Prop) (s : S) : Prop :=
  match m s with
  | (Returns a, s') => Q a s'
  | (Exits code, s') => X code s'
  | (Panics, _) => False
  end.

Section uwp.
Context {S : Type}.
Implicit Types (s : S).

Lemma uwp_ret {A} (a : A) (Q : A → S → Prop) X s : Q a s → uwp (mret a) Q X s.
Proof. done. Qed.

Lemma uwp_bind {A B} (m : U S A) (f : A → U S B) (Q : B → S → Prop) X s :
  uwp m (λ a s', uwp (f a) Q X s') X s → uwp (m ≫= f) Q X s.
Proof. unfold uwp, mbind, U_bind. by destruct (m s) as [[a|c|] s']. Qed.

Lemma uwp_mono {A} (m : U S A) (Q Q' : A → S → Prop) (X X' : Z → S → Prop) s :
  uwp m Q X s → (∀ a s', Q a s' → Q' a s') → (∀ c s', X c s' → X' c s') → uwp m Q' X' s.
Proof. unfold uwp. intros Hm HQ HX. destruct (m s) as [[a|c|] s']; auto. Qed.

Lemma uwp_or_panic {A} (o : option A) a (Q : A → S → Prop) X s : o = Some a → Q a s → uwp (or_panic o) Q X s.
Proof. by intros ->. Qed.
End uwp.

(** Take the next step of a program. *)
Ltac uwp_step := first [apply uwp_bind | apply uwp_ret].

Section calls.
Context {S : Type} `{Ring3Spec S}.
Implicit Types (s : S).

(** What the program has to do with, given component by component. *)
Record at_state (h : list io) (m : list (Z * Z)) (b : list InputEvent) s : Prop := {
  at_serving : serving s;
  at_history : history s = h;
  at_maps : maps s = m;
  at_batch : batch s = b
}.

Lemma at_self s : serving s → at_state (history s) (maps s) (batch s) s.
Proof. done. Qed.

Implicit Types (h : list io).

Context (m : list (Z * Z)) (b : list InputEvent).

(** Make the call of a state that satisfies its law. *)
Ltac by_law law :=
  let Hl := fresh "Hl" in let Hh := fresh "Hh" in
  pose proof law as Hl;
  lazymatch goal with
  | |- context [int80 ?num ?a1 ?a2 ?a3 ?s] => pose proof (history_law num a1 a2 a3 s) as Hh; let out := fresh "out" in destruct (int80 num a1 a2 a3 s) as [[r out] s']
  end.

Lemma uwp_write h msg (Q : unit → S → Prop) X s :
  at_state h m b s → (∀ r s', at_state (h ++ [wrote msg r]) m b s' → Q tt s') → uwp (write msg) Q X s.
Proof.
  intros [Hs <- <- <-] HQ. unfold write, syscall. uwp_step. unfold uwp. by_law (write_law msg s Hs).
  destruct Hl as (?&?&?). by apply (HQ (r, out)).
Qed.

Lemma uwp_exit {A} h code (Q : A → S → Prop) (X : Z → S → Prop) s :
  at_state h m b s → (∀ r s', history s' = h ++ [exited (code mod 2 ^ 64) r] → maps s' = m → X code s') → uwp (exit code) Q X s.
Proof. intros [Hs <- <- _] HX. unfold uwp, exit. by_law (exit_law (code mod 2 ^ 64) s Hs). by apply (HX (r, out)). Qed.

Lemma uwp_input_poll h (Q : option (list byte) → S → Prop) X s :
  at_state h m b s →
  match b with
  | e :: rest => ∀ s', at_state (h ++ [polled (1, to_le_bytes e)]) m rest s' → Q (Some (to_le_bytes e)) s'
  | [] => ∀ b' r s', r.1 ≠ 1 → at_state (h ++ [polled r]) m b' s' → Q None s'
  end → uwp input_poll Q X s.
Proof.
  intros [Hs <- <- Hb] HQ. unfold input_poll, syscall. uwp_step. unfold uwp. by_law (poll_law s Hs).
  destruct Hl as (?&?&Hr). rewrite Hb in Hr. destruct b as [|e rest].
  - rewrite (proj2 (Z.eqb_neq r 1)) by done. by apply (HQ (batch s') (r, out)).
  - destruct Hr as (->&->&?). by apply HQ.
Qed.

Lemma uwp_present h buf (Q : bool → S → Prop) X s :
  at_state h m b s → (∀ r s', at_state (h ++ [presented buf r]) m b s' → Q (r.1 =? 0) s') →
  uwp (display_present buf (zlen buf)) Q X s.
Proof.
  intros [Hs <- <- <-] HQ. unfold display_present, syscall. uwp_step. unfold uwp. by_law (present_law buf s Hs).
  destruct Hl as (?&?&?). by apply (HQ (r, out)).
Qed.

Lemma gfx_record_decode info : drawable info →
  let r := gfx_record info in
  mk_gfx (le_decode (slice r 0 4)) (le_decode (slice r 4 8)) (le_decode (slice r 8 12)) (le_decode (slice r 12 16)) (le_decode (slice r 16 20)) = info.
Proof using.
  intros ([[??] ? ? ? _]&?&?&?&?&[??]). unfold u32_max in *. cbv zeta. destruct info as [w hh st bp fm]. unfold gfx_record. cbn [gfx_width gfx_height gfx_stride gfx_bpp gfx_format] in *.
  set (r := _ ++ _).
  change (slice r 0 4) with (le_encode 4 w). change (slice r 4 8) with (le_encode 4 hh). change (slice r 8 12) with (le_encode 4 st).
  change (slice r 12 16) with (le_encode 4 bp). change (slice r 16 20) with (le_encode 4 fm).
  rewrite !le_decode_encode by (simpl; lia). done.
Qed.

(** The display that was described; nothing described it before. *)
Lemma uwp_display_info h (Q : option GfxInfo → S → Prop) X s :
  at_state h m b s →
  (∀ info r s', drawable info → r.2 = gfx_record info → at_state (h ++ [mk_io (SYS_DISPLAY_INFO, Out 20, Num 20, Num 0) r]) m b s' → Q (Some info) s') →
  (∀ r s', at_state (h ++ [mk_io (SYS_DISPLAY_INFO, Out 20, Num 20, Num 0) r]) m b s' → Q None s') → uwp display_info Q X s.
Proof.
  intros [Hs <- <- <-] HT HF. unfold display_info, syscall. uwp_step. unfold uwp. by_law (info_law s Hs).
  destruct Hl as (?&?&?&Hr). destruct (Z.ltb_spec r 0); [by apply (HF (r, out))|].
  destruct Hr as (info&Hd&->); [done|]. rewrite gfx_record_decode by done. by apply (HT info (r, gfx_record info)).
Qed.

Lemma uwp_mmap h len w (Q : option Z → S → Prop) X s :
  at_state h m b s →
  (∀ a r s', 0 <= a → (a, page_round len) ∉ m →
     at_state (h ++ [mk_io (SYS_MMAP, Num len, Num (Z.b2z w), Num 0) r]) ((a, page_round len) :: m) b s' → Q (Some a) s') →
  (∀ r s', at_state (h ++ [mk_io (SYS_MMAP, Num len, Num (Z.b2z w), Num 0) r]) m b s' → Q None s') → uwp (mmap len w) Q X s.
Proof.
  intros [Hs <- <- <-] HT HF. unfold mmap, syscall. uwp_step. unfold uwp. by_law (mmap_law len (Z.b2z w) s Hs).
  destruct Hl as (?&?&Hm). unfold mret, U_ret.
  destruct (Z.ltb_spec r 0); [by apply (HF (r, out))|]. destruct Hm. by apply (HT r (r, out)).
Qed.

Lemma uwp_munmap h ptr len (Q : bool → S → Prop) X s :
  at_state h ((ptr, len) :: m) b s → (ptr, len) ∉ m →
  (∀ r s', at_state (h ++ [unmapped ptr len r]) (if r.1 =? 0 then m else (ptr, len) :: m) b s' → Q (r.1 =? 0) s') →
  uwp (munmap ptr len) Q X s.
Proof.
  intros [Hs <- Hm <-] Hnin HQ. unfold munmap, syscall. uwp_step. unfold uwp.
  pose proof (munmap_law ptr len s Hs) as Hlaw. rewrite Hm in Hlaw. by_law (Hlaw ltac:(by left)).
  destruct Hl as (?&?&Hr). apply (HQ (r, out)). split; try done. cbn [fst]. destruct (r =? 0); [|done].
  destruct Hr as (l1&l2&E&?). destruct l1 as [|x l1]; [by injection E as ->|].
  injection E as Ex E. exfalso. apply Hnin. rewrite E, elem_of_app, elem_of_cons. by right; left.
Qed.

(** The calls whose answers the programs do not rely on. *)
Lemma uwp_query h num a1 a2 a3 (Q : Z * list byte → S → Prop) X s :
  num ∈ [SYS_UPTIME_TICKS; SYS_SPAWN; SYS_READDIR; SYS_STAT; SYS_OPEN; SYS_READ; SYS_CLOSE; SYS_PUT_FILE] →
  at_state h m b s → (∀ r s', at_state (h ++ [mk_io (num, a1, a2, a3) r]) m b s' → Q r s') → uwp (syscall num a1 a2 a3) Q X s.
Proof.
  intros Hn [Hs <- <- <-] HQ. unfold syscall, uwp. assert (num ∈ [SYS_UPTIME_TICKS; SYS_YIELD; SYS_SPAWN; SYS_READDIR; SYS_STAT; SYS_OPEN; SYS_READ; SYS_CLOSE; SYS_PUT_FILE]) as Hin.
  { repeat (apply elem_of_cons in Hn as [->|Hn]; [set_solver|]). by apply elem_of_nil in Hn. }
  by_law (query_law num a1 a2 a3 s Hin Hs). destruct Hl as (?&?&Hb). apply HQ. split; try done. apply Hb. intros ->.
  by repeat (apply elem_of_cons in Hn as [Hn|Hn]; [discriminate Hn|]); apply elem_of_nil in Hn.
Qed.

(** The contents of a directory or a file, as far as they fit. *)
Definition fits (size : nat) (a : option (Z * list byte)) : Prop :=
  match a with Some (r, buf) => 0 <= r <= Z.of_nat size ∧ length buf = size | None => True end.

Definition dir_call (path : list byte) (size : nat) : call := (SYS_READDIR, In path, Num (zlen path), SpecOut size).
Definition listed (r : Z * list byte) : option (Z * list byte) := if 0 <=? r.1 then Some r else None.

(** A call that fills a buffer. *)
Lemma uwp_fill h num a1 a2 a3 size (Q : Z * list byte → S → Prop) X s :
  num ∈ [SYS_READDIR; SYS_READ] →
  (let '((r, buf), _) := int80 num a1 a2 a3 s in r <= Z.of_nat size ∧ length buf = size) → at_state h m b s →
  (∀ r s', r.1 <= Z.of_nat size → length r.2 = size → at_state (h ++ [mk_io (num, a1, a2, a3) r]) m b s' → Q r s') →
  uwp (syscall num a1 a2 a3) Q X s.
Proof.
  intros Hn Hfit Hs HQ.
  assert (num ∈ [SYS_UPTIME_TICKS; SYS_SPAWN; SYS_READDIR; SYS_STAT; SYS_OPEN; SYS_READ; SYS_CLOSE; SYS_PUT_FILE]) as Hin by (repeat (apply elem_of_cons in Hn as [->|Hn]; [set_solver|]); by apply elem_of_nil in Hn).
  pose proof (uwp_query h num a1 a2 a3 (λ r s', at_state (h ++ [mk_io (num, a1, a2, a3) r]) m b s') X s Hin Hs (λ r s' Hs', Hs')) as Hq.
  unfold uwp, syscall in *. destruct (int80 num a1 a2 a3 s) as [[r buf] s']. destruct Hfit. by apply (HQ (r, buf)).
Qed.

Lemma uwp_read_dir h path size (Q : option (Z * list byte) → S → Prop) X s :
  at_state h m b s → (∀ r s', fits size (listed r) → at_state (h ++ [mk_io (dir_call path size) r]) m b s' → Q (listed r) s') →
  uwp (read_dir path size) Q X s.
Proof.
  intros Hs HQ. unfold read_dir. uwp_step. eapply uwp_fill; [set_solver|exact (readdir_law path size s (at_serving _ _ _ _ Hs))|exact Hs|].
  intros [r buf] s' Hr Hb Hs'. apply (HQ (r, buf)); [|exact Hs']. unfold listed. cbn in *. destruct (Z.leb_spec 0 r); [|done]. cbn. split; [lia|done].
Qed.

(** What the listing of a directory said. *)
Definition dir_in (path : list byte) (size : nat) (log : list io) : option (list byte) :=
  r ← answer_to (dir_call path size) log; (λ r, take (Z.to_nat r.1) r.2) <$> listed r.

(** The three calls that read a file, and what they say. *)
Definition open_call (path : list byte) : call := (SYS_OPEN, In path, Num (zlen path), Num 0).
Definition read_call (handle : Z) (size : nat) : call := (SYS_READ, Num handle, Out size, Num (Z.of_nat size)).
Definition close_call (handle : Z) : call := (SYS_CLOSE, Num handle, Num 0, Num 0).
Definition file_in (path : list byte) (size : nat) (log : list io) : option (Z * list byte) :=
  '(handle, _) ← answer_to (open_call path) log;
  if handle <? 3 then None
  else
    '(read, output) ← answer_to (read_call handle size) log;
    '(closed, _) ← answer_to (close_call handle) log;
    if (read <? 0) || negb (closed =? 0) then None else Some (read, output).

Lemma uwp_read_file h path size (Q : option (Z * list byte) → S → Prop) X s :
  at_state h m b s →
  (∀ a calls s', fits size a → Forall (λ c, (io_call c).1.1.1 ∈ [SYS_OPEN; SYS_READ; SYS_CLOSE]) calls →
     (∀ ext, file_in path size (calls ++ ext) = a) → at_state (h ++ calls) m b s' → Q a s') →
  uwp (read_file path size) Q X s.
Proof.
  intros Hs HQ. unfold read_file. uwp_step. eapply uwp_query; [set_solver|exact Hs|]. intros [handle buf0] s1 Hs1.
  destruct (handle <? 3) eqn:Eh.
  { uwp_step. eapply HQ; [done|..|exact Hs1]; [constructor; [cbn; set_solver|done]|]. intros ext. unfold file_in, open_call. cbn [app]. rewrite answer_to_head. cbn. by rewrite Eh. }
  uwp_step. eapply uwp_fill; [set_solver|exact (read_law handle size s1 (at_serving _ _ _ _ Hs1))|exact Hs1|].
  intros [r buf] s2 Hr Hbuf Hs2. uwp_step. eapply uwp_query; [set_solver|exact Hs2|]. intros [closed buf1] s3 Hs3. uwp_step.
  rewrite <- !app_assoc in Hs3. eapply HQ; [| | |exact Hs3].
  - destruct (Z.ltb_spec r 0); [done|]. destruct (closed =? 0); [|done]. cbn in *. split; [lia|done].
  - repeat (constructor; [cbn; set_solver|]). constructor.
  - intros ext. unfold file_in, open_call, read_call, close_call. cbn [app]. rewrite answer_to_head. cbn [mbind option_bind]. rewrite Eh.
    rewrite !answer_to_other by done. rewrite answer_to_head. cbn [mbind option_bind].
    by rewrite ?answer_to_other, ?answer_to_head by done.
Qed.

(** What is known of a file or directory, and whether a file was put. *)
Definition stat_call (path : list byte) : call := (SYS_STAT, In path, Num (zlen path), Out 16).
Definition stat_in (path : list byte) (log : list io) : option (Z * Z) :=
  '(r, record) ← answer_to (stat_call path) log;
  if r =? 0 then Some (le_decode (slice record 0 8), le_decode (slice record 8 16)) else None.
Definition put_call (path data : list byte) : call := (SYS_PUT_FILE, In path, Num (zlen path), SpecIn data).
Definition put_in (path data : list byte) (log : list io) : bool :=
  match answer_to (put_call path data) log with Some r => r.1 =? 0 | None => false end.

Lemma uwp_stat h path (Q : option (Z * Z) → S → Prop) X s : at_state h m b s →
  (∀ r s', at_state (h ++ [mk_io (stat_call path) r]) m b s' → Q (stat_in path [mk_io (stat_call path) r]) s') → uwp (stat path) Q X s.
Proof.
  intros Hs HQ. unfold stat. uwp_step. eapply uwp_query; [set_solver|exact Hs|]. intros [r record] s1 Hs1. uwp_step.
  specialize (HQ (r, record) s1 Hs1). unfold stat_in in HQ. rewrite answer_to_head in HQ. cbn [mbind option_bind] in HQ. by destruct (r =? 0).
Qed.

Lemma uwp_put_file h path data (Q : bool → S → Prop) X s : at_state h m b s →
  (∀ r s', at_state (h ++ [mk_io (put_call path data) r]) m b s' → Q (r.1 =? 0) s') → uwp (put_file path data) Q X s.
Proof.
  intros Hs HQ. unfold put_file. uwp_step. eapply uwp_query; [set_solver|exact Hs|]. intros [r buf] s' Hs'. uwp_step. by apply (HQ (r, buf)).
Qed.

Definition uptime_call : call := (SYS_UPTIME_TICKS, Num 0, Num 0, Num 0).

Lemma uwp_uptime h (Q : Z → S → Prop) X s :
  at_state h m b s → (∀ r s', at_state (h ++ [mk_io uptime_call r]) m b s' → Q (Z.max r.1 0) s') → uwp uptime_ticks Q X s.
Proof.
  intros Hs HQ. unfold uptime_ticks. uwp_step. eapply uwp_query; [set_solver|exact Hs|]. intros [r buf] s' Hs'. uwp_step. by apply (HQ (r, buf)).
Qed.

Lemma uwp_yield h (Q : unit → S → Prop) X s :
  at_state h m b s → (∀ b' r s', at_state (h ++ [mk_io (SYS_YIELD, Num 0, Num 0, Num 0) r]) m b' s' → Q tt s') → uwp yield_now Q X s.
Proof.
  intros [Hs <- <- <-] HQ. unfold yield_now, syscall. uwp_step. unfold uwp.
  by_law (query_law SYS_YIELD (Num 0) (Num 0) (Num 0) s ltac:(by (right; left)) Hs). destruct Hl as (?&?&_). by apply (HQ (batch s') (r, out)).
Qed.
End calls.

(** Calls that neither ask for input nor show anything. *)
Definition calm (c : io) : Prop := no_poll c ∧ no_present c.

Lemma calm_no_poll l : Forall calm l → Forall no_poll l.
Proof. intros Hl. eapply Forall_impl; [exact Hl|]. by intros c [? _]. Qed.
Lemma calm_no_present l : Forall calm l → Forall no_present l.
Proof. intros Hl. eapply Forall_impl; [exact Hl|]. by intros c [_ ?]. Qed.

(** A list of calls that are written out is calm. *)
Ltac calm_calls := repeat (first [apply Forall_app_2 | apply Forall_cons_2; [by split|] | apply Forall_nil_2]).

Lemma mode_in_app l1 l2 info : mode_in l1 = Some info → mode_in (l1 ++ l2) = Some info.
Proof.
  unfold mode_in. destruct (answer_to _ l1) as [r|] eqn:E; [|done]. by rewrite (answer_to_app _ _ _ _ E).
Qed.

(** What is written meanwhile answers nothing. *)
Lemma answer_to_said c pre log : Forall (λ d, is_call SYS_WRITE d = true) pre → c.1.1.1 ≠ SYS_WRITE → answer_to c (pre ++ log) = answer_to c log.
Proof.
  intros Hp Hc. apply answer_to_skip. eapply Forall_impl; [exact Hp|]. intros d Hd E. unfold is_call in Hd. rewrite E in Hd. by apply Z.eqb_eq in Hd.
Qed.

Lemma dir_in_said path size pre log : Forall (λ d, is_call SYS_WRITE d = true) pre → dir_in path size (pre ++ log) = dir_in path size log.
Proof. intros Hp. unfold dir_in. by rewrite answer_to_said. Qed.

Lemma file_in_said path size pre log : Forall (λ d, is_call SYS_WRITE d = true) pre → file_in path size (pre ++ log) = file_in path size log.
Proof.
  intros Hp. unfold file_in. rewrite answer_to_said by done. destruct (answer_to _ log) as [[handle buf]|]; [|done]. cbn [mbind option_bind].
  destruct (handle <? 3); [done|]. by rewrite !answer_to_said.
Qed.

Lemma stat_in_said path pre log : Forall (λ d, is_call SYS_WRITE d = true) pre → stat_in path (pre ++ log) = stat_in path log.
Proof. intros Hp. unfold stat_in. by rewrite answer_to_said. Qed.

Lemma put_in_said path data pre log : Forall (λ d, is_call SYS_WRITE d = true) pre → put_in path data (pre ++ log) = put_in path data log.
Proof. intros Hp. unfold put_in. by rewrite answer_to_said. Qed.

(** ** Text in lines *)

Lemma back_fill_rev room value digits : back_fill room value digits = (λ ds, rev ds ++ digits) <$> fill_decimals room value.
Proof.
  revert value digits. induction room as [|room IH]; intros value digits; cbn [back_fill fill_decimals];
    destruct (value =? 0); [done..|]. rewrite IH. destruct (fill_decimals room (value / 10)) as [ds|]; [|done].
  cbn. by rewrite <- app_assoc.
Qed.

(** The programs print numbers as the shell does. *)
Lemma u64_to_decimal_text value : u64_to_decimal value = u64_text value.
Proof.
  unfold u64_to_decimal, u64_text. destruct (value =? 0); [done|]. rewrite back_fill_rev.
  destruct (fill_decimals 20 value) as [ds|]; [|done]. cbn. by rewrite app_nil_r.
Qed.

(** A line in an array of [cap] bytes that holds [text]. *)
Definition line_holds (cap : nat) (text : list byte) (line : Line) : Prop :=
  length line.1 = cap ∧ line.2 = length text ∧ line_text line = text.

Lemma empty_line_holds cap : line_holds cap [] (empty_line cap).
Proof. split_and!; [apply length_replicate|done|done]. Qed.

(** What does not fit is cut off. *)
Lemma append_bytes_cuts cap text bytes line : line_holds cap text line → 
  ∃ line', append_bytes bytes line = Some line' ∧ line_holds cap (take cap (text ++ bytes)) line'.
Proof.
  destruct line as [out len]. intros (Hc&Hl&Ht). cbn in *. subst len. unfold line_text in Ht. cbn in Ht.
  assert (length text ≤ cap)%nat as Hle by (rewrite <- Ht, length_take; lia).
  set (count := (length bytes `min` (length out - length text))%nat).
  rewrite (proj2 (Nat.leb_le _ _)) by lia. eexists. split; [done|].
  assert (length (take count bytes) = count) as Hcount by (rewrite length_take; lia).
  assert (take cap (text ++ bytes) = text ++ take count bytes) as ->.
  { rewrite take_app, take_ge by done. f_equal. destruct (decide (length bytes ≤ cap - length text)%nat).
    - rewrite !take_ge by lia. done.
    - f_equal. lia. }
  split_and!; cbn.
  - rewrite length_copy_at; [done|]. lia.
  - rewrite length_app, Hcount. done.
  - unfold line_text, copy_at. cbn. rewrite app_assoc, take_app_le by (rewrite length_app, length_take; lia).
    rewrite Ht. apply take_ge. rewrite length_app. lia.
Qed.

Lemma append_bytes_holds cap text bytes line : line_holds cap text line → (length text + length bytes ≤ cap)%nat →
  ∃ line', append_bytes bytes line = Some line' ∧ line_holds cap (text ++ bytes) line'.
Proof.
  intros Hl Hfit. destruct (append_bytes_cuts cap text bytes line Hl) as (line'&E&Hl'). exists line'. split; [done|].
  by rewrite take_ge in Hl' by (rewrite length_app; lia).
Qed.

Lemma length_fill_decimals size v ds : fill_decimals size v = Some ds → (length ds ≤ size)%nat.
Proof.
  revert v ds. induction size as [|size IH]; intros v ds; cbn [fill_decimals]; destruct (v =? 0); [by intros [= <-]|done|intros [= <-]; simpl; lia|].
  destruct (fill_decimals size (v / 10)) as [ds'|] eqn:E; [|done]. intros [= <-]. apply IH in E. simpl. lia.
Qed.

(** The decimal numeral, at most twenty digits. *)
Definition decimal (v : Z) : list byte := default [] (u64_text v).

Lemma decimal_spec v : is_u64 v → u64_text v = Some (decimal v) ∧ (length (decimal v) ≤ 20)%nat ∧ dec_value (decimal v) = v.
Proof.
  intros Hv. unfold decimal. destruct (u64_text_spec v Hv) as (t&Ht&_&_&Hval&_). rewrite Ht. split_and!; [done| |done].
  cbn. unfold u64_text in Ht. destruct (v =? 0); [by injection Ht as <-; simpl; lia|].
  destruct (fill_decimals 20 v) as [ds|] eqn:E; [|done]. injection Ht as <-. rewrite length_rev. by eapply length_fill_decimals.
Qed.

Lemma fill_decimals_more n m v ds : fill_decimals n v = Some ds → (n ≤ m)%nat → fill_decimals m v = Some ds.
Proof.
  revert m v ds. induction n as [|n IH]; intros m v ds; cbn [fill_decimals].
  - destruct (v =? 0) eqn:E; [|done]. intros [= <-] _. destruct m; cbn [fill_decimals]; by rewrite E.
  - destruct m as [|m]; [lia|]. cbn [fill_decimals]. destruct (v =? 0); [done|]. intros E Hm.
    destruct (fill_decimals n (v / 10)) as [ds'|] eqn:E'; [|done]. by rewrite (IH m _ _ E') by lia.
Qed.

Lemma decimal_short k v : (1 ≤ k)%nat → is_u64 v → v < 10 ^ Z.of_nat k → (length (decimal v) ≤ k)%nat.
Proof.
  intros Hk [H0 H1] Hv. destruct (decide (20 ≤ k)%nat) as [Hge|Hlt].
  { destruct (decimal_spec v (conj H0 H1)) as (_&?&_). lia. }
  unfold decimal, u64_text. destruct (v =? 0); [simpl; lia|].
  destruct (fill_decimals_spec k v) as (ds&Hds&_); [lia|]. rewrite (fill_decimals_more k 20 v ds Hds) by lia.
  cbn. rewrite length_rev. by eapply length_fill_decimals.
Qed.

Lemma append_u64_holds cap text v line : is_u64 v → line_holds cap text line → (length text + length (decimal v) ≤ cap)%nat →
  ∃ line', append_u64 v line = Some line' ∧ line_holds cap (text ++ decimal v) line'.
Proof.
  intros Hv Hl Hfit. destruct (decimal_spec v Hv) as (Ht&_&_). unfold append_u64. rewrite u64_to_decimal_text, Ht. cbn [mbind option_bind].
  by apply append_bytes_holds.
Qed.

(** A signed number. *)
Definition signed_decimal (v : Z) : list byte := (if v <? 0 then bs "-" else []) ++ decimal (Z.abs v).

Lemma signed_decimal_short v : - 2 ^ 31 <= v < 2 ^ 31 → (length (signed_decimal v) ≤ 11)%nat.
Proof.
  intros Hv. unfold signed_decimal. rewrite length_app. assert (length (decimal (Z.abs v)) ≤ 10)%nat.
  { apply decimal_short; [lia|unfold is_u64, u64_max; lia|]. change (10 ^ Z.of_nat 10) with 10000000000. lia. }
  destruct (v <? 0); simpl; lia.
Qed.

Lemma append_i32_holds cap text v line : - 2 ^ 31 <= v < 2 ^ 31 → line_holds cap text line → (length text + length (signed_decimal v) ≤ cap)%nat →
  ∃ line', append_i32 v line = Some line' ∧ line_holds cap (text ++ signed_decimal v) line'.
Proof.
  intros Hv Hl Hfit. unfold append_i32, signed_decimal in *. assert (is_u64 (Z.abs v)) as Ha by (unfold is_u64, u64_max; lia).
  destruct (v <? 0).
  - rewrite length_app in Hfit. destruct (append_bytes_holds cap text (bs "-") line Hl) as (l1&->&Hl1); [simpl in *; lia|].
    cbn [mbind option_bind]. rewrite app_assoc. apply append_u64_holds; [done|done|]. rewrite length_app. simpl in *. lia.
  - cbn [mbind option_bind app]. by apply append_u64_holds.
Qed.
