(* ===== verification/Desktop.v ===== *)
(** The desktop program: userland/hello/src/bin/desktop/main.rs, without its
    drawing ([DesktopFrame.v]).

    The state and its handlers, one definition for each function; the loop that
    drains the input queue carries fuel. [Model] is what the user sees of it:
    the pointer, the stack of windows, what was typed and the assistant. *)

From S2P Require Import Prelude Str Input Window ShellText Canvas UserLib.

Definition LAUNCHER_X : Z := 8.
Definition LAUNCHER_Y : Z := 4.
Definition LAUNCHER_W : Z := 96.
Definition LAUNCHER_H : Z := 20.
Definition AI_LAUNCHER_X : Z := 112.
Definition AI_LAUNCHER_Y : Z := 4.
Definition AI_LAUNCHER_W : Z := 176.
Definition AI_LAUNCHER_H : Z := 20.
Definition FILES_LAUNCHER_X : Z := 300.
Definition FILES_LAUNCHER_Y : Z := 4.
Definition FILES_LAUNCHER_W : Z := 128.
Definition FILES_LAUNCHER_H : Z := 20.
Definition TERMINAL_LAUNCHER_X : Z := 440.
Definition TERMINAL_LAUNCHER_Y : Z := 4.
Definition TERMINAL_LAUNCHER_W : Z := 104.
Definition TERMINAL_LAUNCHER_H : Z := 20.
Definition EXIT_LAUNCH_FILE_MANAGER : Z := 10.
Definition EXIT_LAUNCH_TERMINAL : Z := 11.
Definition AI_EXECUTABLE : str := bs "/apps/tuwaiq-ai".
Definition AI_WINDOW_TITLE : str := bs "Tuwaiq AI - Preview".
Definition KEY_LOG_LEN : nat := 40.

Record DesktopState := mk_desktop {
  cursor_x : Z;
  cursor_y : Z;
  left_down : bool;
  wm : WindowManager;
  key_log : list byte;
  key_log_len : nat;
  next_panel : Z;
  ai_service_pid : Z
}.

Definition set_cursor (x y : Z) (st : DesktopState) : DesktopState :=
  mk_desktop x y (left_down st) (wm st) (key_log st) (key_log_len st) (next_panel st) (ai_service_pid st).
Definition set_left_down (b : bool) (st : DesktopState) : DesktopState :=
  mk_desktop (cursor_x st) (cursor_y st) b (wm st) (key_log st) (key_log_len st) (next_panel st) (ai_service_pid st).
Definition set_wm (w : WindowManager) (st : DesktopState) : DesktopState :=
  mk_desktop (cursor_x st) (cursor_y st) (left_down st) w (key_log st) (key_log_len st) (next_panel st) (ai_service_pid st).
Definition set_keys (log : list byte) (len : nat) (st : DesktopState) : DesktopState :=
  mk_desktop (cursor_x st) (cursor_y st) (left_down st) (wm st) log len (next_panel st) (ai_service_pid st).
Definition set_panel (n : Z) (st : DesktopState) : DesktopState :=
  mk_desktop (cursor_x st) (cursor_y st) (left_down st) (wm st) (key_log st) (key_log_len st) n (ai_service_pid st).
Definition set_ai (pid : Z) (st : DesktopState) : DesktopState :=
  mk_desktop (cursor_x st) (cursor_y st) (left_down st) (wm st) (key_log st) (key_log_len st) (next_panel st) pid.

Definition point_in_rect (px py x y w h : Z) : bool := (x <=? px) && (px <? x + w) && (y <=? py) && (py <? y + h).

Definition on_key_down (code : Z) (st : DesktopState) : bool * DesktopState :=
  if negb ((0x20 <=? code) && (code <=? 0x7E)) then (false, st)
  else if (key_log_len st <? KEY_LOG_LEN)%nat then
    (true, set_keys (<[key_log_len st := z2b code]> (key_log st)) (S (key_log_len st)) st)
  else
    (true, set_keys (<[(KEY_LOG_LEN - 1)%nat := z2b code]> (copy_at 0 (drop 1 (key_log st)) (key_log st))) (key_log_len st) st).

(** [next_panel as i32 % 5] *)
Definition panel_offset (n : Z) : Z := Z.rem ((n + 2 ^ 31) mod 2 ^ 32 - 2 ^ 31) 5 * 24.

(** [saturating_sub] on [i32] *)
Definition saturating_sub_i32 (a b : Z) : Z := Z.max i32_min (Z.min i32_max (a - b)).

(** [i16::from_le_bytes] *)
Definition i16_from (bytes : list byte) : Z := (le_decode bytes + 2 ^ 15) mod 2 ^ 16 - 2 ^ 15.

Section program.
Context {S : Type} `{Ring3 S}.

Definition emit_drag_marker (drag : DragResult) : U S unit :=
  line ← or_panic (
    line ← append_bytes (bs "desktop: drag window=") (empty_line 160);
    line ← append_u64 (Z.of_nat (result_window drag)) line;
    line ← append_bytes (bs " from=(") line;
    line ← append_i32 (from_x drag) line;
    line ← append_bytes (bs ",") line;
    line ← append_i32 (from_y drag) line;
    line ← append_bytes (bs ") to=(") line;
    line ← append_i32 (to_x drag) line;
    line ← append_bytes (bs ",") line;
    line ← append_i32 (to_y drag) line;
    line ← append_bytes (bs ") delta=(") line;
    line ← append_i32 (saturating_sub_i32 (to_x drag) (from_x drag)) line;
    line ← append_bytes (bs ",") line;
    line ← append_i32 (saturating_sub_i32 (to_y drag) (from_y drag)) line;
    append_bytes (message (bs ")")) line);
  write (line_text line).

Definition emit_action_marker (prefix : list byte) (window_index : nat) : U S unit :=
  line ← or_panic (
    line ← append_bytes prefix (empty_line 48);
    line ← append_u64 (Z.of_nat window_index) line;
    append_bytes newline line);
  write (line_text line).

Definition emit_close_marker (window_index : nat) : U S unit := emit_action_marker (bs "desktop: close window=") window_index.

Definition spawn_panel (st : DesktopState) : U S DesktopState :=
  let offset := panel_offset (next_panel st) in
  let title := copy_at 0 (bs "Panel ") (replicate 12 (z2b 0)) in
  text ← or_panic (u64_to_decimal (next_panel st));
  let len := (length text `min` (length title - 6))%nat in
  let title := copy_at 6 (take len text) title in
  let '(idx, w) := Window.spawn (160 + offset) (130 + offset) 260 140 (take (6 + len) title) (wm st) in
  let st := set_wm w st in
  match idx with
  | Some idx =>
      _ ← emit_action_marker (bs "desktop: launcher window=") idx;
      mret (set_panel ((next_panel st + 1) mod 2 ^ 32) st)
  | None => mret st
  end.

Definition spawn_ai_preview (st : DesktopState) : U S DesktopState :=
  let '(_, w) := Window.spawn 180 100 460 220 AI_WINDOW_TITLE (wm st) in
  pid ← UserLib.spawn AI_EXECUTABLE;
  let st := set_ai (default (-1) pid) (set_wm w st) in
  if 0 <=? ai_service_pid st then
    _ ← write (bs "desktop: Tuwaiq AI Preview service launched pid=");
    digits ← or_panic (u64_to_decimal (ai_service_pid st));
    _ ← write digits;
    _ ← write newline;
    mret st
  else
    _ ← write (message (bs "desktop: Tuwaiq AI Preview executable unavailable"));
    mret st.

Definition on_left_button (pressed : bool) (st : DesktopState) : U S (option Z * DesktopState) :=
  if negb pressed then
    let st := set_left_down false st in
    let '(drag, w) := handle_release (wm st) in
    let st := set_wm w st in
    _ ← match drag with Some drag => emit_drag_marker drag | None => mret tt end;
    mret (None, st)
  else
    let st := set_left_down true st in
    let at_launcher := point_in_rect (cursor_x st) (cursor_y st) in
    if at_launcher LAUNCHER_X LAUNCHER_Y LAUNCHER_W LAUNCHER_H then st ← spawn_panel st; mret (None, st)
    else if at_launcher AI_LAUNCHER_X AI_LAUNCHER_Y AI_LAUNCHER_W AI_LAUNCHER_H then st ← spawn_ai_preview st; mret (None, st)
    else if at_launcher FILES_LAUNCHER_X FILES_LAUNCHER_Y FILES_LAUNCHER_W FILES_LAUNCHER_H then mret (Some EXIT_LAUNCH_FILE_MANAGER, st)
    else if at_launcher TERMINAL_LAUNCHER_X TERMINAL_LAUNCHER_Y TERMINAL_LAUNCHER_W TERMINAL_LAUNCHER_H then mret (Some EXIT_LAUNCH_TERMINAL, st)
    else
      let '(action, w) := handle_press (cursor_x st) (cursor_y st) (wm st) in
      let st := set_wm w st in
      _ ← match action with
          | Closed window_index => emit_close_marker window_index
          | Raised window_index => emit_action_marker (bs "desktop: focus window=") window_index
          | PNone | DragStarted _ => mret tt
          end;
      mret (None, st).

(** One event: whether it changed the picture, or the code to exit with. *)
Definition handle_event (info : GfxInfo) (buf : list byte) (st : DesktopState) : U S (bool * option Z * DesktopState) :=
  let b i := b2z (buf !!! i) in
  if b 0%nat =? 1 then
    if b 1%nat =? KEY_ESCAPE then mret (false, Some 0, st)
    else if (b 1%nat =? 102) || (b 1%nat =? 70) then mret (true, Some EXIT_LAUNCH_FILE_MANAGER, st)
    else if (b 1%nat =? 116) || (b 1%nat =? 84) then mret (true, Some EXIT_LAUNCH_TERMINAL, st)
    else let '(dirty, st) := on_key_down (b 1%nat) st in mret (dirty, None, st)
  else if b 0%nat =? 2 then
    let x := i16_from (slice buf 4 6) in
    let y := i16_from (slice buf 6 8) in
    let new_x := clamp 0 (gfx_width info - 1) x in
    let new_y := clamp 0 (gfx_height info - 1) y in
    let dirty := negb (new_x =? cursor_x st) || negb (new_y =? cursor_y st) in
    let st := set_cursor new_x new_y st in
    mret (dirty, None, if left_down st then set_wm (handle_drag (cursor_x st) (cursor_y st) (wm st)) st else st)
  else if b 0%nat =? 3 then
    let button := b 1%nat in
    let pressed := negb (b 2%nat =? 0) in
    if button =? 0 then
      '(exit_code, st) ← on_left_button pressed st;
      mret (true, exit_code, st)
    else mret (false, None, st)
  else mret (false, None, st).

(** [None]: the queue was not found empty within the fuel. *)
Fixpoint pump_input (fuel : nat) (info : GfxInfo) (dirty : bool) (st : DesktopState) : U S (option (bool * option Z * DesktopState)) :=
  match fuel with
  | O => mret None
  | Datatypes.S fuel =>
      event ← input_poll;
      match event with
      | None => mret (Some (dirty, None, st))
      | Some buf =>
          '(changed, exit_code, st) ← handle_event info buf st;
          match exit_code with
          | Some code => mret (Some (dirty || changed, Some code, st))
          | None => pump_input fuel info (dirty || changed) st
          end
      end
  end.
End program.

(** ** What the user sees *)

Record Model := mk_model {
  m_x : Z;
  m_y : Z;
  m_down : bool;
  m_desk : desk;
  (** every printable key typed *)
  m_typed : list byte;
  m_panels : Z;
  m_ai : Z
}.

Definition panel_title (n : Z) : list byte := bs "Panel " ++ take 6 (decimal n).

Definition action_text (prefix : list byte) (i : nat) : list byte := prefix ++ decimal (Z.of_nat i) ++ newline.

Definition drag_text (d : DragResult) : list byte :=
  bs "desktop: drag window=" ++ decimal (Z.of_nat (result_window d)) ++
  bs " from=(" ++ signed_decimal (from_x d) ++ bs "," ++ signed_decimal (from_y d) ++
  bs ") to=(" ++ signed_decimal (to_x d) ++ bs "," ++ signed_decimal (to_y d) ++
  bs ") delta=(" ++ signed_decimal (to_x d - from_x d) ++ bs "," ++ signed_decimal (to_y d - from_y d) ++ message (bs ")").

Definition ai_text (pid : Z) : list byte :=
  if 0 <=? pid then bs "desktop: Tuwaiq AI Preview service launched pid=" ++ decimal pid ++ newline
  else message (bs "desktop: Tuwaiq AI Preview executable unavailable").

(** A press of the left button; the answer of the kernel when the assistant is
    started is [pid]. The new state, the text printed and the code to exit with. *)
Definition model_press (pid : Z) (m : Model) : Model * list byte * option Z :=
  let with_desk d panels ai := mk_model (m_x m) (m_y m) true d (m_typed m) panels ai in
  let at_launcher := point_in_rect (m_x m) (m_y m) in
  if at_launcher LAUNCHER_X LAUNCHER_Y LAUNCHER_W LAUNCHER_H then
    let offset := panel_offset (m_panels m) in
    match desk_step (OpSpawn (160 + offset) (130 + offset) 260 140 (panel_title (m_panels m))) (m_desk m) with
    | (OutSpawn (Some i), d) =>
        (with_desk d ((m_panels m + 1) mod 2 ^ 32) (m_ai m), action_text (bs "desktop: launcher window=") i, None)
    | (_, d) => (with_desk d (m_panels m) (m_ai m), [], None)
    end
  else if at_launcher AI_LAUNCHER_X AI_LAUNCHER_Y AI_LAUNCHER_W AI_LAUNCHER_H then
    (with_desk (desk_step (OpSpawn 180 100 460 220 AI_WINDOW_TITLE) (m_desk m)).2 (m_panels m) pid, ai_text pid, None)
  else if at_launcher FILES_LAUNCHER_X FILES_LAUNCHER_Y FILES_LAUNCHER_W FILES_LAUNCHER_H then
    (with_desk (m_desk m) (m_panels m) (m_ai m), [], Some EXIT_LAUNCH_FILE_MANAGER)
  else if at_launcher TERMINAL_LAUNCHER_X TERMINAL_LAUNCHER_Y TERMINAL_LAUNCHER_W TERMINAL_LAUNCHER_H then
    (with_desk (m_desk m) (m_panels m) (m_ai m), [], Some EXIT_LAUNCH_TERMINAL)
  else
    let '(o, d) := desk_step (OpPress (m_x m) (m_y m)) (m_desk m) in
    (with_desk d (m_panels m) (m_ai m),
     match o with
     | OutPress (Closed i) => action_text (bs "desktop: close window=") i
     | OutPress (Raised i) => action_text (bs "desktop: focus window=") i
     | _ => []
     end, None).

Definition model_release (m : Model) : Model * list byte :=
  let '(o, d) := desk_step OpRelease (m_desk m) in
  (mk_model (m_x m) (m_y m) false d (m_typed m) (m_panels m) (m_ai m),
   match o with OutRelease (Some r) => drag_text r | _ => [] end).

Definition printable_key (code : Z) : bool := (0x20 <=? code) && (code <=? 0x7E).

(** One event: the new state, the text, whether the picture changed, and the
    code to exit with. *)
Definition model_event (info : GfxInfo) (pid : Z) (e : InputEvent) (m : Model) : Model * list byte * bool * option Z :=
  match e with
  | KeyDown code =>
      if code =? KEY_ESCAPE then (m, [], false, Some 0)
      else if (code =? 102) || (code =? 70) then (m, [], true, Some EXIT_LAUNCH_FILE_MANAGER)
      else if (code =? 116) || (code =? 84) then (m, [], true, Some EXIT_LAUNCH_TERMINAL)
      else if printable_key code then
        (mk_model (m_x m) (m_y m) (m_down m) (m_desk m) (m_typed m ++ [z2b code]) (m_panels m) (m_ai m), [], true, None)
      else (m, [], false, None)
  | MouseMove x y =>
      let x := clamp 0 (gfx_width info - 1) x in
      let y := clamp 0 (gfx_height info - 1) y in
      (mk_model x y (m_down m) (if m_down m then (desk_step (OpDrag x y) (m_desk m)).2 else m_desk m) (m_typed m) (m_panels m) (m_ai m),
       [], negb (x =? m_x m) || negb (y =? m_y m), None)
  | MouseButton button pressed =>
      if button =? 0 then
        if pressed then let '(m, text, code) := model_press pid m in (m, text, true, code)
        else let '(m, text) := model_release m in (m, text, true, None)
      else (m, [], false, None)
  end.

(** What the kernel answered when the assistant was started: the number of the
    process, or -1. *)
Definition pid_in (calls : list io) : Z :=
  match answer_to (SYS_SPAWN, In AI_EXECUTABLE, Num (zlen AI_EXECUTABLE), Num 0) calls with
  | Some (r, _) => if (0 <=? r) && (r <=? u32_max) then r else -1
  | None => -1
  end.

(** An event that was delivered, with the calls that followed it: the state, and
    whether the picture changed and what code to exit with so far. Nothing
    follows an exit. *)
Definition desk_next (info : GfxInfo) (o : Model * bool * option Z) (ep : InputEvent * list io) : Model * bool * option Z :=
  match o with
  | (m, d, None) => let '(m', _, d', code) := model_event info (pid_in ep.2) ep.1 m in (m', d || d', code)
  | _ => o
  end.

Lemma desk_next_dirty info m d code eps :
  foldl (desk_next info) (m, d, code) eps = let '(m', d', code') := foldl (desk_next info) (m, false, code) eps in (m', d || d', code').
Proof.
  revert m d code. induction eps as [|ep eps IH]; intros m d code; cbn [foldl]; [by rewrite orb_false_r|].
  destruct code as [c|]; cbn [desk_next]; [by rewrite IH|]. destruct (model_event info (pid_in ep.2) ep.1 m) as [[[m1 t] d1] code1].
  rewrite IH, (IH m1 (false || d1)). destruct (foldl _ _ eps) as [[??]?]. by rewrite orb_assoc.
Qed.

(** An exit does not depend on the assistant. *)
Lemma model_event_exit info pid pid' e m m' t d c : model_event info pid e m = (m', t, d, Some c) → model_event info pid' e m = (m', t, d, Some c).
Proof.
  unfold model_event. destruct e as [code|x y|button pressed]; [done|done|]. destruct (button =? 0); [|done]. destruct pressed; [|done].
  unfold model_press. repeat case_match; intros E; simplify_eq; done.
Qed.

(** ** The program keeps its model *)

(** The last forty keys are the used part of the array. *)
Definition key_log_ok (log : list byte) (len : nat) (typed : list byte) : Prop :=
  length log = KEY_LOG_LEN ∧ len = (length typed `min` KEY_LOG_LEN)%nat ∧ take len log = drop (length typed - KEY_LOG_LEN) typed.

Record models (info : GfxInfo) (st : DesktopState) (m : Model) : Prop := {
  mo_x : cursor_x st = m_x m;
  mo_y : cursor_y st = m_y m;
  mo_pointer : 0 <= m_x m < gfx_width info ∧ 0 <= m_y m < gfx_height info;
  mo_down : left_down st = m_down m;
  mo_wm : wm_ok (wm st);
  mo_desk : desk_of (wm st) = m_desk m;
  mo_keys : key_log_ok (key_log st) (key_log_len st) (m_typed m);
  mo_panels : next_panel st = m_panels m;
  mo_panels_range : is_u32 (m_panels m);
  mo_ai : ai_service_pid st = m_ai m
}.

Lemma key_log_push log len typed c : key_log_ok log len typed →
  if (len <? KEY_LOG_LEN)%nat then key_log_ok (<[len := c]> log) (S len) (typed ++ [c])
  else key_log_ok (<[(KEY_LOG_LEN - 1)%nat := c]> (copy_at 0 (drop 1 log) log)) len (typed ++ [c]).
Proof.
  unfold key_log_ok, KEY_LOG_LEN. intros (Hlog&Hlen&Ht). destruct (Nat.ltb_spec len 40) as [Hlt|Hge].
  - replace (length typed - 40)%nat with 0%nat in Ht by lia. rewrite drop_0 in Ht. split_and!.
    + by rewrite length_insert.
    + rewrite length_app. cbn [length]. lia.
    + rewrite length_app. replace (length typed + length [c] - 40)%nat with 0%nat by (cbn [length]; lia). rewrite drop_0.
      rewrite (take_S_r _ _ c) by (apply list_lookup_insert_eq; lia). rewrite take_insert_ge by lia. by rewrite Ht.
  - assert (len = 40%nat) as -> by lia. rewrite take_ge in Ht by lia. split_and!.
    + rewrite length_insert, length_copy_at; [done|]. rewrite length_drop. lia.
    + rewrite length_app. cbn [length]. lia.
    + rewrite take_ge by (rewrite length_insert, length_copy_at; rewrite ?length_drop; lia).
      unfold copy_at. rewrite take_0, length_drop, Hlog. cbn [app Nat.add Nat.sub].
      rewrite insert_app_r_alt by (rewrite length_drop; lia). rewrite length_drop, Hlog. change (40 - 1 - (40 - 1))%nat with 0%nat.
      destruct (drop 39 log) as [|x l] eqn:Ed; [apply (f_equal length) in Ed; rewrite length_drop in Ed; simpl in Ed; lia|].
      assert (l = []) as -> by (apply (f_equal length) in Ed; rewrite length_drop in Ed; simpl in Ed; apply length_zero_iff_nil; lia).
      cbn [list_insert insert]. rewrite Ht, drop_drop, length_app, drop_app_le by (cbn [length]; lia). do 2 f_equal. cbn [length]. lia.
Qed.
