(* ===== verification/DesktopSteps.v ===== *)
(** The handlers of the desktop keep its model ([Desktop.v]): every event of
    the queue does what the model says, in any answers of the kernel. *)

From S2P Require Import Prelude Str Input Window ShellText Canvas UserLib Desktop.

(** ** What the window manager answers *)

Definition small_out (o : wm_out) : Prop :=
  match o with
  | OutSpawn (Some i) | OutPress (Closed i) | OutPress (Raised i) => (i < MAX_WINDOWS)%nat
  | OutRelease (Some r) =>
      (result_window r < MAX_WINDOWS)%nat ∧ coordinate (from_x r) ∧ coordinate (from_y r) ∧ coordinate (to_x r) ∧ coordinate (to_y r)
  | _ => True
  end.

Lemma wm_step_small op w : wm_ok w → op_ok op → small_out (wm_step op w).1.
Proof.
  intros Hok Hop. pose proof (wm_step_sim op w Hok Hop) as Hsim. destruct op as [x y ww wh t|x y|x y| |i]; try done.
  - destruct (wm_step _ w) as [o w']. destruct Hsim as [_ Hd]. cbn [desk_step] in Hd. cbn [fst].
    destruct (free_slot (desk_of w)) as [i|] eqn:Hf; injection Hd as <- _; [|done].
    apply List.find_some in Hf as [Hin _]. apply list_elem_of_In, elem_of_seq in Hin. cbn. lia.
  - destruct (wm_step _ w) as [o w']. destruct Hsim as [_ Hd]. cbn [desk_step] in Hd. cbn [fst].
    destruct (List.find _ _) as [[i win]|] eqn:Hf; [|by injection Hd as <- _].
    destruct (find_stack w _ _ Hok Hf) as (_&_&Hi&_). pose proof (ok_count _ Hok). cbn in Hi.
    destruct (in_close_box win x y); [injection Hd as <- _; cbn; lia|].
    destruct (in_title_bar win x y); injection Hd as <- _; cbn; [done|lia].
  - cbn. unfold handle_release. destruct (dragging w) as [d|] eqn:Ed; [|done]. cbn.
    destruct (ok_drag _ Hok d Ed) as (Hw&_&(_&_&?&?)). pose proof (ok_count _ Hok).
    destruct (window_bounds w (drag_window d) Hok) as (?&?&_); [lia|]. split; [lia|done].
Qed.

(** ** Markers *)

Lemma decimal_index i : (i < MAX_WINDOWS)%nat → is_u64 (Z.of_nat i) ∧ (length (decimal (Z.of_nat i)) ≤ 1)%nat.
Proof.
  intros Hi. assert (is_u64 (Z.of_nat i)) by (unfold is_u64, u64_max, MAX_WINDOWS in *; lia). split; [done|].
  apply decimal_short; [done|done|]. unfold MAX_WINDOWS in Hi. simpl. lia.
Qed.

(** The fields of a state and its model agree. *)
Ltac fields_agree :=
  split; cbn [m_x m_y m_down m_desk m_typed m_panels m_ai cursor_x cursor_y left_down wm key_log key_log_len next_panel ai_service_pid
              set_cursor set_left_down set_wm set_keys set_panel set_ai]; try done; try congruence.

(** The next piece of a line fits. *)
Ltac next_piece :=
  match goal with
  | Hl : line_holds ?cap ?t ?l |- context [append_bytes ?b ?l] =>
      let l' := fresh "line" in let Hl' := fresh "Hl" in
      destruct (append_bytes_holds cap t b l Hl) as (l'&->&Hl'); [rewrite ?length_app; cbn [length bs String.list_byte_of_string String.list_ascii_of_string map]; simpl; lia|];
      clear Hl; cbn [mbind option_bind]
  | Hl : line_holds ?cap ?t ?l |- context [append_u64 ?v ?l] =>
      let l' := fresh "line" in let Hl' := fresh "Hl" in
      destruct (append_u64_holds cap t v l) as (l'&->&Hl'); [done|exact Hl|rewrite ?length_app; simpl; lia|];
      clear Hl; cbn [mbind option_bind]
  | Hl : line_holds ?cap ?t ?l |- context [append_i32 ?v ?l] =>
      let l' := fresh "line" in let Hl' := fresh "Hl" in
      destruct (append_i32_holds cap t v l) as (l'&->&Hl'); [unfold coordinate in *; lia|exact Hl|rewrite ?length_app; simpl; lia|];
      clear Hl; cbn [mbind option_bind]
  end.

Section steps.
Context {S : Type} `{Ring3Spec S}.
Implicit Types (s : S) (h : list io) (mp : list (Z * Z)) (b : list InputEvent).

Lemma said_in_wrote msg r log : said_in (wrote msg r :: log) = msg ++ said_in log.
Proof using. done. Qed.

Lemma uwp_action_marker prefix i h mp b s :
  (i < MAX_WINDOWS)%nat → (length prefix ≤ 40)%nat → at_state h mp b s →
  uwp (emit_action_marker prefix i) (λ _ s', ∃ r, at_state (h ++ [wrote (action_text prefix i) r]) mp b s') (λ _ _, False) s.
Proof.
  intros Hi Hp Hs. destruct (decimal_index i Hi) as [Hu Hd]. unfold emit_action_marker. pose proof (empty_line_holds 48) as Hl.
  uwp_step. destruct (append_bytes_holds 48 [] prefix _ Hl) as (l1&E1&Hl1); [simpl; lia|].
  destruct (append_u64_holds 48 _ (Z.of_nat i) l1 Hu Hl1) as (l2&E2&Hl2); [simpl; lia|].
  destruct (append_bytes_holds 48 _ newline l2 Hl2) as (l3&E3&Hl3); [rewrite length_app; simpl; lia|].
  eapply (uwp_or_panic _ l3); [by rewrite E1; cbn [mbind option_bind]; rewrite E2|].
  eapply uwp_write; [exact Hs|]. intros r s' Hs'. destruct Hl3 as (_&_&->) in Hs'. unfold action_text. cbn [app] in Hs'. rewrite <- (app_assoc prefix) in Hs'. by exists r.
Qed.

Lemma saturating_sub_small x y : coordinate x → coordinate y → saturating_sub_i32 x y = x - y.
Proof using. unfold coordinate, saturating_sub_i32, i32_min, i32_max. lia. Qed.

Lemma uwp_drag_marker d h mp b s :
  small_out (OutRelease (Some d)) → at_state h mp b s →
  uwp (emit_drag_marker d) (λ _ s', ∃ r, at_state (h ++ [wrote (drag_text d) r]) mp b s') (λ _ _, False) s.
Proof.
  intros (Hi&Hfx&Hfy&Htx&Hty) Hs. destruct (decimal_index _ Hi) as [Hu Hd]. unfold emit_drag_marker.
  rewrite !saturating_sub_small by done. uwp_step.
  assert (∀ v, - 2 ^ 31 <= v < 2 ^ 31 → (length (signed_decimal v) ≤ 11)%nat) as Hshort by apply signed_decimal_short.
  unfold coordinate in *.
  pose proof (Hshort (from_x d) ltac:(lia)). pose proof (Hshort (from_y d) ltac:(lia)). pose proof (Hshort (to_x d) ltac:(lia)).
  pose proof (Hshort (to_y d) ltac:(lia)). pose proof (Hshort (to_x d - from_x d) ltac:(lia)). pose proof (Hshort (to_y d - from_y d) ltac:(lia)).
  pose proof (empty_line_holds 160) as Hl. generalize dependent (empty_line 160). intros line Hl.
  assert (∃ line', (
    line ← append_bytes (bs "desktop: drag window=") line;
    line ← append_u64 (Z.of_nat (result_window d)) line;
    line ← append_bytes (bs " from=(") line;
    line ← append_i32 (from_x d) line;
    line ← append_bytes (bs ",") line;
    line ← append_i32 (from_y d) line;
    line ← append_bytes (bs ") to=(") line;
    line ← append_i32 (to_x d) line;
    line ← append_bytes (bs ",") line;
    line ← append_i32 (to_y d) line;
    line ← append_bytes (bs ") delta=(") line;
    line ← append_i32 (to_x d - from_x d) line;
    line ← append_bytes (bs ",") line;
    line ← append_i32 (to_y d - from_y d) line;
    append_bytes (message (bs ")")) line) = Some line' ∧ line_text line' = drag_text d) as (line'&E&Ht).
  - repeat next_piece. eexists. split; [done|].
    match goal with Hl : line_holds _ _ _ |- _ => destruct Hl as (_&_&->) end. unfold drag_text. by rewrite <- !app_assoc.
  - eapply (uwp_or_panic _ line'); [exact E|]. eapply uwp_write; [exact Hs|]. intros r s' Hs'. rewrite Ht in Hs'. by exists r.
Qed.

(** ** The handlers *)

Context (info : GfxInfo) (Hinfo : drawable info).

Lemma pointer_i16 st m : models info st m → is_i16 (m_x m) ∧ is_i16 (m_y m).
Proof using Hinfo. intros Hm. destruct (mo_pointer _ _ _ Hm). destruct Hinfo as (_&?&?&_). unfold is_i16, i16_min, i16_max. lia. Qed.

Lemma panel_offset_range n : -96 <= panel_offset n <= 96.
Proof using.
  unfold panel_offset. set (k := _ - _). pose proof (Z.rem_bound_abs k 5 ltac:(done)) as Hb. lia.
Qed.

(** The title in its array of twelve bytes. *)
Lemma title_in_array text : (length text `min` (length (copy_at 0 (bs "Panel ") (replicate 12 (z2b 0))) - 6))%nat = (length text `min` 6)%nat ∧
  take (6 + length text `min` 6) (copy_at 6 (take (length text `min` 6) text) (copy_at 0 (bs "Panel ") (replicate 12 (z2b 0)))) = bs "Panel " ++ take 6 text.
Proof using.
  split; [done|]. set (head := copy_at 0 _ _). unfold copy_at at 1. change (take 6 head) with (bs "Panel ").
  rewrite app_assoc, take_app_le by (rewrite length_app, length_take; simpl; lia).
  rewrite take_ge by (rewrite length_app, length_take; simpl; lia). f_equal.
  destruct (decide (length text ≤ 6)%nat); [rewrite !take_ge by lia; done|]. by replace (length text `min` 6)%nat with 6%nat by lia.
Qed.

(** A window operation on the program's manager is one on the model's stack. *)
Lemma window_step op st m : models info st m → op_ok op →
  let '(o, w) := wm_step op (wm st) in
  wm_ok w ∧ desk_step op (m_desk m) = (o, desk_of w) ∧ small_out o.
Proof using.
  intros Hm Hop. pose proof (wm_step_sim op (wm st) (mo_wm _ _ _ Hm) Hop) as Hs. pose proof (wm_step_small op (wm st) (mo_wm _ _ _ Hm) Hop) as Ho.
  destruct (wm_step op (wm st)) as [o w]. rewrite <- (mo_desk _ _ _ Hm). by destruct Hs.
Qed.

(** What a handler did: calm calls, the text they wrote, and the state they led to. *)
Definition done_by h mp b (calls : list io) (text : list byte) s : Prop :=
  Forall calm calls ∧ said_in calls = text ∧ at_state (h ++ calls) mp b s.

Lemma done_nothing h mp b s : at_state h mp b s → done_by h mp b [] [] s.
Proof using. intros Hs. split_and!; [done|done|by rewrite app_nil_r]. Qed.

Lemma done_one h mp b msg r s : at_state (h ++ [wrote msg r]) mp b s → done_by h mp b [wrote msg r] msg s.
Proof using. intros Hs. split_and!; [calm_calls|by rewrite said_in_wrote, app_nil_r|done]. Qed.

Lemma uwp_spawn_panel st m h mp b s :
  models info st m → m_down m = true → point_in_rect (m_x m) (m_y m) LAUNCHER_X LAUNCHER_Y LAUNCHER_W LAUNCHER_H = true → at_state h mp b s →
  uwp (spawn_panel st) (λ st' s', ∃ m' text calls, (∀ pid, model_press pid m = (m', text, None)) ∧ models info st' m' ∧ done_by h mp b calls text s') (λ _ _, False) s.
Proof.
  intros Hm Hdown Hat Hs. unfold spawn_panel, model_press. rewrite Hat. destruct (decimal_spec (m_panels m)) as (Htext&_&_).
  { pose proof (mo_panels_range _ _ _ Hm). unfold is_u32, is_u64, u32_max, u64_max in *. lia. }
  rewrite (mo_panels _ _ _ Hm). uwp_step. eapply uwp_or_panic; [by rewrite u64_to_decimal_text|].
  destruct (title_in_array (decimal (m_panels m))) as [Hmin Htitle]. rewrite Hmin, Htitle. fold (panel_title (m_panels m)).
  pose proof (panel_offset_range (m_panels m)) as Hoff. set (off := panel_offset (m_panels m)) in *.
  pose proof (window_step (OpSpawn (160 + off) (130 + off) 260 140 (panel_title (m_panels m))) st m Hm) as Hw.
  cbn [wm_step] in Hw. destruct (Window.spawn _ _ _ _ _ (wm st)) as [idx w].
  destruct Hw as (Hok&Hd&Hsmall); [unfold op_ok, is_i16, i16_min, i16_max, extent; lia|]. rewrite Hd.
  destruct Hm as [? ? ? ? ? ? ? ? ? ?]. destruct idx as [i|].
  - uwp_step. eapply uwp_mono; [by apply uwp_action_marker; [|simpl; lia|exact Hs]| |done]. intros [] s' [r Hs']. uwp_step.
    eexists _, _, _. split; [done|]. split; [|by apply done_one]. fields_agree.
    pose proof (Z.mod_pos_bound (m_panels m + 1) (2 ^ 32) ltac:(done)). unfold is_u32, u32_max. lia.
  - uwp_step. eexists _, _, _. split; [done|]. split; [|by apply done_nothing]. fields_agree.
Qed.

Lemma uwp_spawn_ai st m h mp b s :
  models info st m → m_down m = true → point_in_rect (m_x m) (m_y m) LAUNCHER_X LAUNCHER_Y LAUNCHER_W LAUNCHER_H = false →
  point_in_rect (m_x m) (m_y m) AI_LAUNCHER_X AI_LAUNCHER_Y AI_LAUNCHER_W AI_LAUNCHER_H = true → at_state h mp b s →
  uwp (spawn_ai_preview st) (λ st' s', ∃ m' text calls, model_press (pid_in calls) m = (m', text, None) ∧ models info st' m' ∧
    done_by h mp b calls text s') (λ _ _, False) s.
Proof.
  intros Hm Hdown Hno Hat Hs. unfold spawn_ai_preview, model_press. rewrite Hno, Hat.
  pose proof (window_step (OpSpawn 180 100 460 220 AI_WINDOW_TITLE) st m Hm) as Hw. cbn [wm_step] in Hw.
  destruct (Window.spawn _ _ _ _ _ (wm st)) as [idx w].
  destruct Hw as (Hok&Hd&_); [unfold op_ok, is_i16, i16_min, i16_max, extent; lia|]. rewrite Hd. cbn [snd]. destruct Hm as [? ? ? ? ? ? ? ? ? ?].
  uwp_step. unfold UserLib.spawn. uwp_step. eapply uwp_query; [set_solver|exact Hs|]. intros [r buf] s1 Hs1. uwp_step.
  set (ask := mk_io _ _) in Hs1.
  set (pid := default (-1) (if (0 <=? r) && (r <=? u32_max) then Some r else None)).
  assert (∀ ext, pid_in (ask :: ext) = pid) as Hpid. { intros ext. unfold pid_in, ask. rewrite answer_to_head. subst pid. by destruct (_ && _). }
  assert (calm ask) as Hcalm by done. assert (∀ l, said_in (ask :: l) = said_in l) as Hsaid by done.
  assert (pid = -1 ∨ is_u32 pid) as Hrange. { subst pid. destruct (_ && _) eqn:E; [right|by left]. bool_hyps. done. }
  assert (models info (set_ai pid (set_wm w st)) (mk_model (m_x m) (m_y m) true (desk_of w) (m_typed m) (m_panels m) pid)) as Hm' by fields_agree.
  set (st' := set_ai pid (set_wm w st)) in *. change (ai_service_pid st') with pid. clearbody ask. unfold ai_text. destruct (Z.leb_spec 0 pid) as [Hpos|Hneg].
  - uwp_step. eapply uwp_write; [exact Hs1|]. intros r2 s2 Hs2. destruct (decimal_spec pid) as (Htext&_&_).
    { destruct Hrange as [->|[??]]; [done|]. unfold is_u64, u32_max, u64_max in *. lia. }
    uwp_step. eapply uwp_or_panic; [by rewrite u64_to_decimal_text|].
    uwp_step. eapply uwp_write; [exact Hs2|]. intros r3 s3 Hs3. uwp_step. eapply uwp_write; [exact Hs3|]. intros r4 s4 Hs4.
    uwp_step. rewrite <- !app_assoc in Hs4. eexists _, _, (ask :: _). split; [|split; [exact Hm'|split; [|split; [|exact Hs4]]]].
    + rewrite Hpid. by rewrite (proj2 (Z.leb_le 0 pid)).
    + constructor; [done|]. calm_calls.
    + cbn [app]. by rewrite Hsaid, !said_in_wrote, app_nil_r.
  - uwp_step. eapply uwp_write; [exact Hs1|]. intros r2 s2 Hs2. uwp_step. rewrite <- !app_assoc in Hs2. eexists _, _, (ask :: _).
    split; [|split; [exact Hm'|split; [|split; [|exact Hs2]]]].
    + rewrite Hpid. by rewrite (proj2 (Z.leb_gt 0 pid)).
    + constructor; [done|]. calm_calls.
    + cbn [app]. by rewrite Hsaid, !said_in_wrote, app_nil_r.
Qed.

Lemma uwp_release st m h mp b s :
  models info st m → at_state h mp b s →
  uwp (on_left_button false st) (λ '(code, st') s', ∃ m' text calls, code = None ∧ model_release m = (m', text) ∧ models info st' m' ∧
    done_by h mp b calls text s') (λ _ _, False) s.
Proof.
  intros Hm Hs. unfold on_left_button. cbn [negb]. change (wm (set_left_down false st)) with (wm st).
  pose proof (window_step OpRelease st m Hm I) as Hw. cbn [wm_step] in Hw. destruct (handle_release (wm st)) as [drag w].
  destruct Hw as (Hok&Hd&Hsmall). unfold model_release. rewrite Hd. destruct Hm as [? ? ? ? ? ? ? ? ? ?]. uwp_step. destruct drag as [d|].
  - eapply uwp_mono; [by apply uwp_drag_marker; [|exact Hs]| |done]. intros [] s' [r Hs']. uwp_step. eexists _, _, _. split; [done|]. split; [done|].
    split; [|by apply done_one]. fields_agree.
  - uwp_step. uwp_step. eexists _, _, _. split; [done|]. split; [done|]. split; [|by apply done_nothing]. fields_agree.
Qed.

Lemma uwp_pressed st m h mp b s :
  models info st m → m_down m = true → at_state h mp b s →
  uwp (on_left_button true st) (λ '(code, st') s', ∃ m' text calls, model_press (pid_in calls) m = (m', text, code) ∧ models info st' m' ∧
    done_by h mp b calls text s') (λ _ _, False) s.
Proof.
  intros Hm Hdown Hs. unfold on_left_button. cbn [negb].
  assert (set_left_down true st = st) as ->.
  { pose proof (mo_down _ _ _ Hm) as E. rewrite Hdown in E. clear -E. destruct st. cbn in E. by rewrite E. }
  rewrite (mo_x _ _ _ Hm), (mo_y _ _ _ Hm).
  assert (mk_model (m_x m) (m_y m) true (m_desk m) (m_typed m) (m_panels m) (m_ai m) = m) as Hself.
  { clear -Hdown. destruct m. cbn in Hdown. by rewrite Hdown. }
  destruct (point_in_rect _ _ LAUNCHER_X LAUNCHER_Y LAUNCHER_W LAUNCHER_H) eqn:E1.
  { uwp_step. eapply uwp_mono; [by apply uwp_spawn_panel; [| | |exact Hs]| |done]. intros st' s' (m'&text&calls&?&?&?). uwp_step. by eexists _, _, _. }
  destruct (point_in_rect _ _ AI_LAUNCHER_X AI_LAUNCHER_Y AI_LAUNCHER_W AI_LAUNCHER_H) eqn:E2.
  { uwp_step. eapply uwp_mono; [by apply uwp_spawn_ai; [| | | |exact Hs]| |done]. intros st' s' (m'&text&calls&?&?&?). uwp_step. by eexists _, _, _. }
  unfold model_press. rewrite E1, E2, Hself.
  destruct (point_in_rect _ _ FILES_LAUNCHER_X _ _ _) eqn:E3; [|destruct (point_in_rect _ _ TERMINAL_LAUNCHER_X _ _ _) eqn:E4].
  - uwp_step. eexists _, _, []. split; [done|]. split; [done|]. by apply done_nothing.
  - uwp_step. eexists _, _, []. split; [done|]. split; [done|]. by apply done_nothing.
  - pose proof (window_step (OpPress (m_x m) (m_y m)) st m Hm (pointer_i16 st m Hm)) as Hw. cbn [wm_step] in Hw.
    destruct (handle_press _ _ (wm st)) as [a w]. destruct Hw as (Hok&Hd&Hsmall). rewrite Hd.
    assert (models info (set_wm w st) (mk_model (m_x m) (m_y m) true (desk_of w) (m_typed m) (m_panels m) (m_ai m))) as Hm'
      by (destruct Hm as [? ? ? ? ? ? ? ? ? ?]; fields_agree).
    uwp_step. destruct a as [|i|i|i].
    + uwp_step. uwp_step. eexists _, _, []. split; [done|]. split; [done|]. by apply done_nothing.
    + eapply uwp_mono; [by apply uwp_action_marker; [|simpl; lia|exact Hs]| |done]. intros [] s' [r Hs']. uwp_step. eexists _, _, [_].
      split; [done|]. split; [done|]. by apply done_one.
    + uwp_step. uwp_step. eexists _, _, []. split; [done|]. split; [done|]. by apply done_nothing.
    + eapply uwp_mono; [by apply uwp_action_marker; [|simpl; lia|exact Hs]| |done]. intros [] s' [r Hs']. uwp_step. eexists _, _, [_].
      split; [done|]. split; [done|]. by apply done_one.
Qed.

Lemma uwp_press st m h mp b s :
  models info st m → at_state h mp b s →
  uwp (on_left_button true st) (λ '(code, st') s', ∃ m' text calls, model_press (pid_in calls) m = (m', text, code) ∧ models info st' m' ∧
    done_by h mp b calls text s') (λ _ _, False) s.
Proof.
  intros Hm Hs. set (m1 := mk_model (m_x m) (m_y m) true (m_desk m) (m_typed m) (m_panels m) (m_ai m)).
  assert (models info (set_left_down true st) m1) as Hm1 by (destruct Hm as [? ? ? ? ? ? ? ? ? ?]; subst m1; fields_agree).
  change (on_left_button true st) with (on_left_button true (set_left_down true st)).
  change (λ pid, model_press pid m) with (λ pid, model_press pid m1). by apply (uwp_pressed _ m1).
Qed.

(** ** Events *)

Lemma i16_from_bytes z : is_i16 z → i16_from (i16_to_le_bytes z) = z.
Proof using.
  intros [H1 H2]. unfold i16_from, i16_to_le_bytes. unfold i16_min, i16_max in *.
  rewrite le_decode_encode by (change (2 ^ (Z.of_nat 2 * 8)) with (2 ^ 16); by apply Z.mod_pos_bound).
  rewrite Zplus_mod_idemp_l, Z.mod_small; lia.
Qed.

Lemma uwp_key code st m h mp b s : 0 <= code < 256 → models info st m → at_state h mp b s →
  uwp (handle_event info (to_le_bytes (KeyDown code)) st) (λ '(d, exit_code, st') s', ∃ m' text calls,
    model_event info (pid_in calls) (KeyDown code) m = (m', text, d, exit_code) ∧ models info st' m' ∧ done_by h mp b calls text s') (λ _ _, False) s.
Proof.
  intros Hc Hm Hs. unfold handle_event, model_event. rewrite byte_at_0. change (1 =? 1) with true. cbn iota.
  rewrite byte_at_1_key by done. pose proof (done_nothing h mp b s Hs) as Hsame.
  destruct (code =? KEY_ESCAPE); [uwp_step; by eexists _, _, []|].
  destruct (_ || _); [uwp_step; by eexists _, _, []|].
  destruct ((code =? 116) || _); [uwp_step; by eexists _, _, []|].
  unfold on_key_down, printable_key. destruct (_ && _); cbn [negb]; [|uwp_step; by eexists _, _, []].
  pose proof (key_log_push _ _ _ (z2b code) (mo_keys _ _ _ Hm)) as Hk. destruct Hm as [? ? ? ? ? ? ? ? ? ?].
  destruct (key_log_len st <? KEY_LOG_LEN)%nat; uwp_step; eexists _, _, []; (split; [done|split; [fields_agree|exact Hsame]]).
Qed.

Lemma uwp_move x y st m h mp b s : is_i16 x → is_i16 y → models info st m → at_state h mp b s →
  uwp (handle_event info (to_le_bytes (MouseMove x y)) st) (λ '(d, exit_code, st') s', ∃ m' text calls,
    model_event info (pid_in calls) (MouseMove x y) m = (m', text, d, exit_code) ∧ models info st' m' ∧ done_by h mp b calls text s') (λ _ _, False) s.
Proof.
  intros Hx Hy Hm Hs. unfold handle_event, model_event. rewrite byte_at_0. change (2 =? 1) with false. change (2 =? 2) with true. cbn iota zeta.
  change (slice (to_le_bytes (MouseMove x y)) 4 6) with (i16_to_le_bytes x). change (slice (to_le_bytes (MouseMove x y)) 6 8) with (i16_to_le_bytes y).
  rewrite !i16_from_bytes by done. destruct Hinfo as ([[? _] ? _ _ _]&?&?&_).
  pose proof (clamp_range 0 (gfx_width info - 1) x ltac:(lia)) as Hcx. pose proof (clamp_range 0 (gfx_height info - 1) y ltac:(lia)) as Hcy.
  set (cx := clamp 0 (gfx_width info - 1) x) in *. set (cy := clamp 0 (gfx_height info - 1) y) in *.
  rewrite (mo_x _ _ _ Hm), (mo_y _ _ _ Hm). uwp_step. eexists _, _, []. split; [done|]. split; [|by apply done_nothing].
  cbn [left_down set_cursor]. rewrite (mo_down _ _ _ Hm). destruct (m_down m) eqn:Hdown.
  - pose proof (window_step (OpDrag cx cy) st m Hm) as Hw. cbn [wm_step] in Hw.
    destruct Hw as (Hok&Hd&_); [unfold op_ok, is_i16, i16_min, i16_max; lia|]. rewrite Hd. cbn [snd].
    destruct Hm as [? ? ? ? ? ? ? ? ? ?]. fields_agree. lia.
  - destruct Hm as [? ? ? ? ? ? ? ? ? ?]. fields_agree. lia.
Qed.

Lemma uwp_event e st m h mp b s : event_ok e → models info st m → at_state h mp b s →
  uwp (handle_event info (to_le_bytes e) st) (λ '(d, exit_code, st') s', ∃ m' text calls,
    model_event info (pid_in calls) e m = (m', text, d, exit_code) ∧ models info st' m' ∧ done_by h mp b calls text s') (λ _ _, False) s.
Proof.
  intros He Hm Hs. destruct e as [code|x y|button pressed].
  - by apply uwp_key.
  - destruct He. by apply uwp_move.
  - unfold handle_event, model_event. rewrite byte_at_0. change (3 =? 1) with false. change (3 =? 2) with false. change (3 =? 3) with true. cbn iota zeta.
    assert (b2z (to_le_bytes (MouseButton button pressed) !!! 1%nat) = button) as ->.
    { change (to_le_bytes (MouseButton button pressed) !!! 1%nat) with (z2b button). by apply b2z_z2b_small. }
    assert (negb (b2z (to_le_bytes (MouseButton button pressed) !!! 2%nat) =? 0) = pressed) as -> by (by destruct pressed).
    destruct (button =? 0); [|uwp_step; eexists _, _, []; split; [done|]; split; [done|by apply done_nothing]].
    uwp_step. destruct pressed.
    + eapply uwp_mono; [by apply uwp_press; [|exact Hs]| |done]. intros [code st'] s' (m'&text&calls&E&?). uwp_step. exists m', text, calls. by rewrite E.
    + eapply uwp_mono; [by apply uwp_release; [|exact Hs]| |done]. intros [code st'] s' (m'&text&calls&->&E&?). uwp_step. exists m', text, calls. by rewrite E.
Qed.

(** Draining the queue takes the events that are delivered, one by one, until it
    is found empty or an event ends the program; a batch is finite. *)
Lemma uwp_pump fuel dirty st m h mp b s : (length b < fuel)%nat → Forall event_ok b → models info st m → at_state h mp b s →
  uwp (pump_input fuel info dirty st) (λ r s', ∃ d code st' m' c new b', r = Some (dirty || d, code, st') ∧ models info st' m' ∧
    is_call SYS_INPUT_POLL c = true ∧ (∀ ext, Forall no_poll ext → foldl (desk_next info) (m, false, None) (episodes (c :: new ++ ext)) = (m', d, code)) ∧
    Forall no_present (c :: new) ∧ (code = None → drained (c :: new) = 1%nat) ∧ at_state (h ++ c :: new) mp b' s') (λ _ _, False) s.
Proof.
  revert fuel dirty st m h s. induction b as [|e b IH]; intros [|fuel] dirty st m h s Hfuel Hev Hm Hs; [simpl in Hfuel; lia| |simpl in Hfuel; lia|];
    cbn [pump_input]; uwp_step; (eapply uwp_input_poll; [exact Hs|]); cbn beta iota.
  - intros b' r s' Hr Hs'. uwp_step. apply (proj2 (Z.eqb_neq _ _)) in Hr. eexists false, None, st, m, (polled r), [], b'. rewrite orb_false_r.
    split; [done|]. split; [done|]. split; [done|]. split; [|split; [by repeat constructor|split; [|exact Hs']]].
    + intros ext He. cbn [app episodes]. unfold delivered. cbn. by rewrite Hr, episodes_quiet.
    + intros _. unfold drained, found_empty. cbn. by rewrite Hr.
  - apply Forall_cons in Hev as [He Hev]. intros s1 Hs1. uwp_step. eapply uwp_mono; [by apply (uwp_event e st m)| |done].
    pose proof (delivered_event e He : delivered (polled (1, to_le_bytes e)) = Some e) as Hdel.
    intros [[d exit_code] st1] s2 (m1&text&calls&E&Hm1&(Hcalm&_&Hs2)). rewrite <- app_assoc in Hs2. set (c := polled _) in *.
    assert (Forall no_poll calls) as Hquiet by by apply calm_no_poll.
    destruct exit_code as [code|].
    + uwp_step. eexists d, (Some code), st1, m1, c, calls, b. split_and!; try done.
      * intros ext Hext. cbn [episodes]. rewrite Hdel. assert (Forall no_poll (calls ++ ext)) by by apply Forall_app_2.
        rewrite episodes_quiet, before_poll_all by done. cbn [foldl desk_next fst snd]. by rewrite (model_event_exit _ _ _ _ _ _ _ _ _ E).
      * constructor; [done|]. by apply calm_no_present.
    + eapply uwp_mono; [apply (IH fuel (dirty || d) st1 m1); [simpl in Hfuel; lia|done|done|exact Hs2]| |done].
      intros r s3 (d2&code&st2&m2&c2&new&b'&->&Hm2&Hpoll&Hfold&Hnew&Hdr&Hs3). rewrite <- orb_assoc. rewrite <- app_assoc in Hs3.
      eexists (d || d2), code, st2, m2, c, (calls ++ c2 :: new), b'. split_and!; try done.
      * intros ext Hext. cbn [episodes]. rewrite Hdel, <- app_assoc. cbn [app]. rewrite before_poll_stops, episodes_stop by done.
        rewrite episodes_quiet, before_poll_all by done. cbn [app foldl desk_next fst snd]. rewrite E, desk_next_dirty, Hfold by done. done.
      * constructor; [done|]. by apply Forall_app_2; [apply calm_no_present|].
      * intros Hcode. rewrite app_comm_cons, drained_app, Hdr by done. change (drained (c :: calls)) with (drained calls). by rewrite drained_quiet.
Qed.
End steps.
