(* ===== verification/DesktopFrame.v ===== *)
(** The desktop's drawing: [redraw] and its parts, from
    userland/hello/src/bin/desktop/main.rs, and the picture they are to show.

    [desktop_scene] is that picture: the pointer over the typed keys over the
    windows, front first, over the bar and the background. *)

From S2P Require Import Prelude Str Input Window ShellText Canvas UserLib Desktop.

Definition COLOR_BG : color := (0x0B, 0x0E, 0x13).
Definition COLOR_BAR : color := (0x12, 0x16, 0x1D).
Definition COLOR_ACCENT : color := (0x00, 0xA8, 0x6B).
Definition COLOR_TEXT : color := (0xE6, 0xEA, 0xF0).
Definition COLOR_TEXT_DIM : color := (0x8A, 0x93, 0xA0).
Definition COLOR_WINDOW : color := (0x17, 0x1B, 0x24).
Definition COLOR_TITLEBAR : color := (0x1E, 0x24, 0x30).
Definition COLOR_BORDER : color := (0x2A, 0x31, 0x40).
Definition COLOR_LAUNCHER : color := (0x0F, 0x7A, 0x50).
Definition COLOR_CLOSE : color := (0xB0, 0x3A, 0x3A).
Definition SYSTEM_BAR_HEIGHT : Z := 28.

(** [b"HH:MM:SS"] *)
Definition clock_text (seconds : Z) : list byte :=
  let hh := (seconds / 3600) mod 24 in
  let mm := (seconds / 60) mod 60 in
  let ss := seconds mod 60 in
  [z2b (48 + hh / 10); z2b (48 + hh mod 10); z2b 58; z2b (48 + mm / 10); z2b (48 + mm mod 10); z2b 58;
   z2b (48 + ss / 10); z2b (48 + ss mod 10)].

Section draw.
Context (info : GfxInfo).

Definition draw_system_bar (width seconds : Z) : list byte → option (list byte) :=
  in_order [
    fill_rect info 0 0 width SYSTEM_BAR_HEIGHT COLOR_BAR;
    fill_rect info 0 (SYSTEM_BAR_HEIGHT - 2) width 2 COLOR_ACCENT;
    fill_rect info LAUNCHER_X LAUNCHER_Y LAUNCHER_W LAUNCHER_H COLOR_LAUNCHER;
    fill_rect info AI_LAUNCHER_X AI_LAUNCHER_Y AI_LAUNCHER_W AI_LAUNCHER_H COLOR_LAUNCHER;
    fill_rect info FILES_LAUNCHER_X FILES_LAUNCHER_Y FILES_LAUNCHER_W FILES_LAUNCHER_H COLOR_LAUNCHER;
    fill_rect info TERMINAL_LAUNCHER_X TERMINAL_LAUNCHER_Y TERMINAL_LAUNCHER_W TERMINAL_LAUNCHER_H COLOR_LAUNCHER;
    draw_text info (bs "+ Launch") (LAUNCHER_X + 6) (LAUNCHER_Y + 6) COLOR_TEXT;
    draw_text info (bs "Tuwaiq AI - Preview") (AI_LAUNCHER_X + 6) (AI_LAUNCHER_Y + 6) COLOR_TEXT;
    draw_text info (bs "File Manager [F]") (FILES_LAUNCHER_X + 6) (FILES_LAUNCHER_Y + 6) COLOR_TEXT;
    draw_text info (bs "Terminal [T]") (TERMINAL_LAUNCHER_X + 6) (TERMINAL_LAUNCHER_Y + 6) COLOR_TEXT;
    draw_text info (bs "TuwaiqOS") (TERMINAL_LAUNCHER_X + TERMINAL_LAUNCHER_W + 20) (LAUNCHER_Y + 6) COLOR_TEXT;
    draw_text info (bs "Esc: Exit") (TERMINAL_LAUNCHER_X + TERMINAL_LAUNCHER_W + 120) (LAUNCHER_Y + 6) COLOR_TEXT_DIM;
    draw_text info (clock_text seconds) (width - 8 - 8 * 9) (LAUNCHER_Y + 6) COLOR_TEXT].

Definition draw_ai_preview (window : Window) (pid : Z) : list byte → option (list byte) :=
  let x := wx window + 10 in
  let y := wy window + TITLE_BAR_HEIGHT + 16 in
  let status := if 0 <=? pid then bs "Assistant service: launched from /apps"
                else bs "Assistant service: unavailable (install required)" in
  in_order [
    draw_text info (bs "Assistant UI: Ring 3 desktop") x y COLOR_TEXT;
    draw_text info status x (y + 18) COLOR_TEXT_DIM;
    draw_text info (bs "Local model: unavailable") x (y + 18 + 18) COLOR_TEXT_DIM;
    draw_text info (bs "No inference is simulated. No network or telemetry.") x (y + 18 + 18 + 18) COLOR_TEXT_DIM;
    draw_text info (bs "IPC, permissions, tools and audit: future phases") x (y + 18 + 18 + 18 + 18) COLOR_TEXT_DIM].

Definition draw_window (window : Window) (ai_service_pid : Z) : list byte → option (list byte) :=
  in_order [
    fill_rect info (wx window) (wy window) (ww window) (wh window) COLOR_WINDOW;
    fill_rect info (wx window) (wy window) (ww window) TITLE_BAR_HEIGHT COLOR_TITLEBAR;
    stroke_rect info (wx window) (wy window) (ww window) (wh window) COLOR_BORDER;
    draw_text info (title_bytes window) (wx window + 6) (wy window + 6) COLOR_TEXT;
    fill_rect info (wx window + ww window - 18) (wy window + 4) 14 14 COLOR_CLOSE;
    if decide (title_bytes window = AI_WINDOW_TITLE) then draw_ai_preview window ai_service_pid
    else in_order [
      draw_text info (bs "Type to see keys echoed at the bottom of the screen.") (wx window + 10) (wy window + TITLE_BAR_HEIGHT + 16) COLOR_TEXT_DIM;
      draw_text info (bs "Drag this title bar to move the window.") (wx window + 10) (wy window + TITLE_BAR_HEIGHT + 34) COLOR_TEXT_DIM]].

(** The loop over [draw_order]. *)
Fixpoint draw_windows (w : WindowManager) (ai_service_pid : Z) (indices : list nat) (buf : list byte) : option (list byte) :=
  match indices with
  | [] => Some buf
  | idx :: indices =>
      let win := Window.window w idx in
      buf ← (if visible win then draw_window win ai_service_pid buf else Some buf);
      draw_windows w ai_service_pid indices buf
  end.

Definition redraw (st : DesktopState) (clock_second : Z) : list byte → option (list byte) :=
  let width := gfx_width info in
  let height := gfx_height info in
  in_order [
    fill_rect info 0 0 width height COLOR_BG;
    draw_system_bar width clock_second;
    draw_windows (wm st) (ai_service_pid st) (draw_order (wm st));
    if (0 <? key_log_len st)%nat then draw_text info (take (key_log_len st) (key_log st)) 16 (height - 26) COLOR_TEXT_DIM else Some;
    draw_cursor info (cursor_x st) (cursor_y st)].

(** ** The picture *)

Definition bar_layer (width seconds : Z) : layer :=
  let label t x := text (bs t) (x + 6) (LAUNCHER_Y + 6) COLOR_TEXT in
  layers [
    text (clock_text seconds) (width - 80) 10 COLOR_TEXT;
    text (bs "Esc: Exit") 664 10 COLOR_TEXT_DIM;
    text (bs "TuwaiqOS") 564 10 COLOR_TEXT;
    label "Terminal [T]"%string TERMINAL_LAUNCHER_X;
    label "File Manager [F]"%string FILES_LAUNCHER_X;
    label "Tuwaiq AI - Preview"%string AI_LAUNCHER_X;
    label "+ Launch"%string LAUNCHER_X;
    box TERMINAL_LAUNCHER_X TERMINAL_LAUNCHER_Y TERMINAL_LAUNCHER_W TERMINAL_LAUNCHER_H COLOR_LAUNCHER;
    box FILES_LAUNCHER_X FILES_LAUNCHER_Y FILES_LAUNCHER_W FILES_LAUNCHER_H COLOR_LAUNCHER;
    box AI_LAUNCHER_X AI_LAUNCHER_Y AI_LAUNCHER_W AI_LAUNCHER_H COLOR_LAUNCHER;
    box LAUNCHER_X LAUNCHER_Y LAUNCHER_W LAUNCHER_H COLOR_LAUNCHER;
    box 0 26 width 2 COLOR_ACCENT;
    box 0 0 width SYSTEM_BAR_HEIGHT COLOR_BAR].

(** The lines a window shows, from the top; a lower line is drawn later. *)
Definition window_lines (w : Window) (pid : Z) : list (list byte * color) :=
  if decide (title_bytes w = AI_WINDOW_TITLE) then
    [(bs "Assistant UI: Ring 3 desktop", COLOR_TEXT);
     (if 0 <=? pid then bs "Assistant service: launched from /apps" else bs "Assistant service: unavailable (install required)", COLOR_TEXT_DIM);
     (bs "Local model: unavailable", COLOR_TEXT_DIM);
     (bs "No inference is simulated. No network or telemetry.", COLOR_TEXT_DIM);
     (bs "IPC, permissions, tools and audit: future phases", COLOR_TEXT_DIM)]
  else
    [(bs "Type to see keys echoed at the bottom of the screen.", COLOR_TEXT_DIM);
     (bs "Drag this title bar to move the window.", COLOR_TEXT_DIM)].

Definition window_layer (pid : Z) (w : Window) : layer :=
  layers [
    layers (rev (imap (λ i line, text line.1 (wx w + 10) (wy w + TITLE_BAR_HEIGHT + 16 + 18 * Z.of_nat i) line.2) (window_lines w pid)));
    box (wx w + ww w - 18) (wy w + 4) 14 14 COLOR_CLOSE;
    text (title_bytes w) (wx w + 6) (wy w + 6) COLOR_TEXT;
    flat COLOR_BORDER (on_frame (wx w) (wy w) (ww w) (wh w));
    box (wx w) (wy w) (ww w) TITLE_BAR_HEIGHT COLOR_TITLEBAR;
    box (wx w) (wy w) (ww w) (wh w) COLOR_WINDOW].

(** The last forty keys typed. *)
Definition recent (typed : list byte) : list byte := drop (length typed - KEY_LOG_LEN) typed.

Definition desktop_scene (m : Model) (seconds : Z) : layer :=
  layers [
    cursor_layer (m_x m) (m_y m);
    text (recent (m_typed m)) 16 (gfx_height info - 26) COLOR_TEXT_DIM;
    layers (window_layer (m_ai m) <$> (stack (m_desk m)).*2);
    bar_layer (gfx_width info) seconds;
    box 0 0 (gfx_width info) (gfx_height info) COLOR_BG].
End draw.

(** ** The drawing shows the picture *)

Section shows.
Context (info : GfxInfo) (Hok : gfx_ok info).

Lemma system_bar_draws width seconds : draws info (draw_system_bar info width seconds) (bar_layer width seconds).
Proof using Hok.
  unfold draw_system_bar, bar_layer, TERMINAL_LAUNCHER_X, TERMINAL_LAUNCHER_W, TERMINAL_LAUNCHER_Y, LAUNCHER_Y, AI_LAUNCHER_Y, FILES_LAUNCHER_Y. pieces.
Qed.

Lemma window_draws w pid : draws info (draw_window info w pid) (window_layer pid w).
Proof using Hok.
  unfold draw_window, window_layer. pieces; [by apply stroke_rect_draws|]. unfold window_lines.
  destruct (decide (title_bytes w = AI_WINDOW_TITLE)); unfold draw_ai_preview; pieces.
Qed.

Lemma windows_draws w pid l :
  draws info (draw_windows info w pid l) (layers (window_layer pid <$> (omap (shown (windows w)) (reverse l)).*2)).
Proof using Hok.
  induction l as [|i l IH]; [apply draws_nothing|]. cbn [draw_windows]. rewrite reverse_cons, omap_app, !fmap_app.
  eapply draws_ext.
  - apply draws_then; [|exact IH]. instantiate (1 := layers (window_layer pid <$> (omap (shown (windows w)) [i]).*2)).
    cbn [omap list_omap]. unfold shown, Window.window. destruct (visible (windows w !!! i)); [|apply draws_nothing].
    apply (draws_ext _ _ (window_layer pid (windows w !!! i))); [apply window_draws|]. intros x y _. symmetry. apply layers_one.
  - intros x y _. by rewrite layers_app.
Qed.

Lemma redraw_draws st m seconds : models info st m → draws info (redraw info st seconds) (desktop_scene info m seconds).
Proof using Hok.
  intros [Hx Hy _ _ _ Hd (Hlog&Hlen&Hkeys) _ _ Ha]. unfold redraw, desktop_scene. apply in_order_draws. cbn [rev app].
  repeat (apply Forall2_cons; split).
  - by apply box_draws.
  - apply system_bar_draws.
  - rewrite <- Hd, <- Ha. apply windows_draws.
  - fold (recent (m_typed m)) in Hkeys. destruct (Nat.ltb_spec 0 (key_log_len st)).
    + rewrite Hkeys. by apply (text_draws info Hok).
    + eapply draws_ext; [apply draws_nothing|]. intros x y _. assert (m_typed m = []) as ->; [|by rewrite text_nil].
      apply length_zero_iff_nil. unfold KEY_LOG_LEN in *. lia.
  - rewrite Hx, Hy. by apply draw_cursor_draws.
  - constructor.
Qed.

(** Every pixel of the screen shows the scene. *)
Lemma redraw_shows st m seconds buf : models info st m → zlen buf = buffer_len info →
  ∃ buf', redraw info st seconds buf = Some buf' ∧ displays info (desktop_scene info m seconds) buf'.
Proof using Hok.
  intros Hm Hlen. apply draws_displays; [by apply redraw_draws| |done]. intros x y Hv.
  apply (backdrop_covers info [_; _; _; _] COLOR_BG x y Hv).
Qed.
End shows.
