(* ===== verification/UserScript.v ===== *)
(** A scripted kernel for the programs of userland/hello: it gives input in
    batches, writes down every call with its answer, and has room for one
    mapping. It keeps the interface of [UserLib.v], which the witnesses run on. *)

From S2P Require Import Prelude Str Input ShellText Canvas UserLib.

Record Script := mk_script {
  coming : list (list InputEvent);
  current : list InputEvent;
  log : list io;
  mapped : list (Z * Z);
  mode : GfxInfo;
  answers : list (Z * list byte)
}.

Definition next_batch (s : Script) : Script :=
  mk_script (tail (coming s)) (default [] (head (coming s))) (log s) (mapped s) (mode s) (answers s).
Definition with_current (l : list InputEvent) (s : Script) : Script :=
  mk_script (coming s) l (log s) (mapped s) (mode s) (answers s).
Definition with_io (c : io) (s : Script) : Script :=
  mk_script (coming s) (current s) (log s ++ [c]) (mapped s) (mode s) (answers s).
Definition with_mapped (m : list (Z * Z)) (s : Script) : Script :=
  mk_script (coming s) (current s) (log s) m (mode s) (answers s).
Definition next_answer (s : Script) : Script :=
  mk_script (coming s) (current s) (log s) (mapped s) (mode s) (tail (answers s)).

(** What was shown, the newest first, and said. *)
Definition shown (s : Script) : list (list byte) := shown_in (log s).
Definition output (s : Script) : list byte := said_in (log s).

Definition ARENA : Z := 0x40000000.

(** The size of the buffer that the answer of a call is put in, and an answer
    that fits one. *)
Definition buffer_of (num : Z) (a2 a3 : reg) : option nat :=
  if num =? SYS_READDIR then match a3 with SpecOut size => Some size | _ => None end
  else if num =? SYS_READ then match a2 with Out size => Some size | _ => None end
  else None.
Definition fitted (size : option nat) (answer : Z * list byte) : Z * list byte :=
  match size with
  | Some size => (if answer.1 <=? Z.of_nat size then answer.1 else -1, take size (answer.2 ++ replicate size (z2b 0)))
  | None => answer
  end.

Lemma fitted_fits size answer : (fitted (Some size) answer).1 <= Z.of_nat size ∧ length (fitted (Some size) answer).2 = size.
Proof.
  cbn. split; [destruct (Z.leb_spec answer.1 (Z.of_nat size)); lia|]. rewrite length_take, length_app, length_replicate. lia.
Qed.

(** The other calls answer from the list. *)
Definition script_call (num : Z) (a1 a2 a3 : reg) (s : Script) : (Z * list byte) * Script :=
  if num =? SYS_INPUT_POLL then
    match current s with
    | e :: rest => ((1, to_le_bytes e), with_current rest s)
    | [] => ((0, replicate 8 (z2b 0)), next_batch s)
    end
  else if num =? SYS_WRITE then
    match a1 with In msg => ((zlen msg, []), s) | _ => ((-1, []), s) end
  else if num =? SYS_DISPLAY_PRESENT then
    match a1 with In frame => ((0, []), s) | _ => ((-1, []), s) end
  else if num =? SYS_DISPLAY_INFO then ((0, gfx_record (mode s)), s)
  else if num =? SYS_MMAP then
    match a1, mapped s with
    | Num len, [] => ((ARENA, []), with_mapped [(ARENA, page_round len)] s)
    | _, _ => ((-1, []), s)
    end
  else if num =? SYS_MUNMAP then
    match a1, a2, mapped s with
    | Num ptr, Num len, m :: rest => if decide (m = (ptr, len)) then ((0, []), with_mapped rest s) else ((-1, []), s)
    | _, _, _ => ((-1, []), s)
    end
  else (fitted (buffer_of num a2 a3) (default (-1, []) (head (answers s))), next_answer s).

#[global] Instance script_gate : Ring3 Script := λ num a1 a2 a3 s,
  let '(r, s) := script_call num a1 a2 a3 s in (r, with_io (mk_io (num, a1, a2, a3) r) s).

Definition batch_fits (l : list InputEvent) : Prop := (length l < 1000)%nat ∧ Forall event_ok l.
Definition script_ok (s : Script) : Prop := drawable (mode s) ∧ batch_fits (current s) ∧ Forall batch_fits (coming s).

Lemma script_call_log num a1 a2 a3 s : log (script_call num a1 a2 a3 s).2 = log s.
Proof. unfold script_call. by repeat case_match. Qed.

#[global] Instance script_spec : Ring3Spec Script.
Proof.
  refine {| batch := current; history := log; maps := mapped; serving := script_ok; patience := 1000 |}.
  - intros num a1 a2 a3 s. unfold int80, script_gate. pose proof (script_call_log num a1 a2 a3 s) as E.
    destruct (script_call _ _ _ _ s) as [r s']. cbn in *. by rewrite E.
  - by intros s (_&[??]&_).
  - intros s (Hd&[Hl He]&Hc). unfold int80, script_gate, script_call. cbn. destruct (current s) as [|e rest] eqn:E; cbn.
    + split; [|done]. split; [done|]. cbn. destruct (coming s) as [|l ls]; cbn; [by split; [split; [cbn [length]; lia|constructor]|constructor]|]. by apply Forall_cons in Hc as [? ?].
    + split; [|done]. apply Forall_cons in He as [_ He]. split; [done|]. cbn. split; [|done]. split; [cbn [length] in Hl; lia|done].
  - intros msg s Hs. done.
  - intros buf s Hs. done.
  - intros s Hs. cbn. split_and!; try done. intros _. exists (mode s). split; [apply Hs|done].
  - intros len w s Hs. unfold int80, script_gate, script_call. cbn. destruct (mapped s) as [|m ms] eqn:E; cbn; [|done].
    split_and!; try done. by intros ?%elem_of_nil.
  - intros ptr len s Hs Hin. unfold int80, script_gate, script_call. cbn. destruct (mapped s) as [|m ms] eqn:E; cbn; [done|].
    destruct (decide (m = (ptr, len))) as [->|]; cbn; [|done]. split_and!; try done. by exists [], ms.
  - intros code s Hs. done.
  - intros path size s Hs. unfold int80, script_gate, script_call. cbn -[fitted]. pose proof (fitted_fits size (default (-1, []) (head (answers s)))) as Hf.
    by destruct (fitted _ _).
  - intros handle size s Hs. unfold int80, script_gate, script_call. cbn -[fitted]. pose proof (fitted_fits size (default (-1, []) (head (answers s)))) as Hf.
    by destruct (fitted _ _).
  - intros num a1 a2 a3 s Hn Hs. unfold int80, script_gate, script_call.
    repeat (apply elem_of_cons in Hn as [->|Hn]; [cbn -[fitted]; done|]). by apply elem_of_nil in Hn.
Defined.

(** A small screen, 24 bits a pixel. *)
Definition small_mode : GfxInfo := mk_gfx 24 16 25 3 0.

Lemma small_mode_drawable : drawable small_mode.
Proof. split; [by repeat split|]. by repeat split. Qed.

Definition scripted (batches : list (list InputEvent)) (answers : list (Z * list byte)) : Script :=
  mk_script (tail batches) (default [] (head batches)) [] [] small_mode answers.
