(* ===== verification/DesktopRun.v ===== *)
(** The main loop of the desktop, userland/hello/src/bin/desktop/main.rs: what
    it shows and how it ends, on any kernel that keeps the system call
    interface of [UserLib.v]. [desk_after] and [clock_in] compute from the history
    of calls and answers what the screen has to show. *)

From S2P Require Import Prelude Str Input Window ShellText Canvas UserLib Desktop DesktopSteps DesktopFrame UserScript.

Definition TIMER_HZ : Z := 100.

Definition initial_state (info : GfxInfo) : DesktopState :=
  let w := (Window.spawn 120 90 340 180 (bs "Welcome to TuwaiqOS") new_wm).2 in
  mk_desktop (gfx_width info / 2) (gfx_height info / 2) false w (replicate KEY_LOG_LEN (z2b 0)) 0 1 (-2).

(** What the loop keeps: the back buffer, the desktop, the second shown and
    whether nothing was shown yet. *)
Record Loop := mk_loop { canvas : list byte; desktop : DesktopState; last_clock_second : Z; first_frame : bool }.

Section program.
Context {S : Type} `{Ring3 S}.

(** The part of a turn after an exit was asked for. *)
Definition leave (exit_code addr mapped_len : Z) {A} : U S A :=
  _ ← (if exit_code =? EXIT_LAUNCH_FILE_MANAGER then write (message (bs "desktop: launch request file-manager"))
       else if exit_code =? EXIT_LAUNCH_TERMINAL then write (message (bs "desktop: launch request terminal"))
       else write (message (bs "desktop: normal exit requested")));
  released ← munmap addr mapped_len;
  if negb released then
    _ ← write (message (bs "desktop: backbuffer cleanup failed"));
    exit 2
  else exit exit_code.

(** One turn of the loop; [None]: the fuel of [pump_input] ran out. *)
Definition turn (fuel : nat) (info : GfxInfo) (addr buffer_len mapped_len : Z) (l : Loop) : U S (option Loop) :=
  r ← pump_input fuel info false (desktop l);
  match r with
  | None => mret None
  | Some (_, Some exit_code, _) => leave exit_code addr mapped_len
  | Some (input_dirty, None, st) =>
      ticks ← uptime_ticks;
      let clock_second := ticks / TIMER_HZ in
      l ← (if first_frame l || input_dirty || negb (clock_second =? last_clock_second l) then
             buf ← or_panic (redraw info st clock_second (canvas l));
             presented ← display_present buf buffer_len;
             if negb presented then
               _ ← write (message (bs "desktop: display present failed"));
               _ ← munmap addr mapped_len;
               exit 3
             else
               _ ← (if first_frame l then write (message (bs "desktop: first frame presented")) else mret tt);
               mret (mk_loop buf st clock_second false)
           else mret (mk_loop (canvas l) st (last_clock_second l) (first_frame l)));
      _ ← yield_now;
      mret (Some l)
  end.

(** The loop, for as many turns as it is given. *)
Fixpoint turns (n fuel : nat) (info : GfxInfo) (addr buffer_len mapped_len : Z) (l : Loop) : U S (option Loop) :=
  match n with
  | O => mret (Some l)
  | Datatypes.S n =>
      r ← turn fuel info addr buffer_len mapped_len l;
      match r with Some l => turns n fuel info addr buffer_len mapped_len l | None => mret None end
  end.

(** [rust_main] up to its loop, then [n] turns; the pages of the mapping are
    zero. *)
Definition rust_main (n fuel : nat) : U S (option (GfxInfo * Loop)) :=
  _ ← write (message (bs "desktop: started"));
  _ ← match (window_self_test new_wm).1 with
      | Ok _ => write (message (bs "desktop: window model self-test PASS"))
      | Err reason =>
          _ ← write (bs "desktop: window model self-test FAIL: ");
          _ ← write (bs reason);
          _ ← write newline;
          exit 4
      end;
  info ← display_info;
  match info with
  | None => exit 1
  | Some info =>
      let buffer_len := buffer_len info in
      match checked_add u64_max buffer_len 4095 with
      | None => exit 1
      | Some len =>
          let mapped_len := Z.land len (Z.lnot 4095) in
          addr ← mmap buffer_len true;
          match addr with
          | None => exit 1
          | Some addr =>
              l ← turns n fuel info addr buffer_len mapped_len
                    (mk_loop (replicate (Z.to_nat buffer_len) (z2b 0)) (initial_state info) u64_max true);
              mret ((λ l, (info, l)) <$> l)
          end
      end
  end.
End program.

(** ** An undisturbed picture *)

(** The window that is held is on the desk and stays under the pointer. *)
Definition drag_follows (m : Model) : Prop :=
  ∀ h, held (m_desk m) = Some h → m_down m = true ∧ on_desk (drag_window h) (m_desk m) = true ∧
    ∀ p, p ∈ stack (m_desk m) → p.1 = drag_window h → wx p.2 = m_x m - offset_x h ∧ wy p.2 = m_y m - offset_y h.

Lemma on_desk_elem i d : on_desk i d = true ↔ ∃ p, p ∈ stack d ∧ p.1 = i.
Proof.
  unfold on_desk. rewrite existsb_exists. setoid_rewrite <- list_elem_of_In. setoid_rewrite Nat.eqb_eq. done.
Qed.

Lemma elem_of_without i p (st : list (nat * Window)) : p ∈ without i st ↔ p ∈ st ∧ p.1 ≠ i.
Proof.
  unfold without. rewrite list_elem_of_In, List.filter_In, <- list_elem_of_In, negb_true_iff, Nat.eqb_neq. done.
Qed.

Lemma move_to_same w x y : wx w = x → wy w = y → move_to x y w = w.
Proof. intros <- <-. by destruct w. Qed.

(** Dragging with a pointer that has not moved changes nothing. *)
Lemma drag_still m : drag_follows m → (desk_step (OpDrag (m_x m) (m_y m)) (m_desk m)).2 = m_desk m.
Proof.
  intros Hf. cbn [desk_step]. destruct (held (m_desk m)) as [h|] eqn:Eh; [|done]. destruct (Hf h Eh) as (_&_&Hw). cbn [snd].
  destruct (m_desk m) as [st hd]. cbn in *. rewrite Eh. f_equal. rewrite <- (list_fmap_id st) at 2. apply list_fmap_ext. intros i p Hp.
  destruct (Nat.eqb_spec p.1 (drag_window h)) as [E|]; [|by destruct p]. destruct (Hw p) as [Hx Hy]; [by eapply list_elem_of_lookup_2|done|].
  rewrite move_to_same by done. by destruct p.
Qed.

(** The same desk, and then a window in front that is not the held one. *)
Lemma follows_spawn m x y w h t : drag_follows m → 
  let d := (desk_step (OpSpawn x y w h t) (m_desk m)).2 in
  held d = held (m_desk m) ∧ ∀ hh, held (m_desk m) = Some hh → on_desk (drag_window hh) d = true ∧
    ∀ p, p ∈ stack d → p.1 = drag_window hh → p ∈ stack (m_desk m).
Proof.
  intros Hf. cbn [desk_step]. destruct (free_slot (m_desk m)) as [i|] eqn:Ei; cbn [snd held stack].
  - split; [done|]. intros hh Eh. destruct (Hf hh Eh) as (_&Hon&_). unfold free_slot in Ei. apply List.find_some in Ei as [_ Hfree].
    apply negb_true_iff in Hfree. split.
    + apply on_desk_elem. apply on_desk_elem in Hon as (p&Hp&?). exists p. split; [by right|done].
    + intros p [->|?]%elem_of_cons Hi; [|done]. cbn in Hi. congruence.
  - split; [done|]. intros hh Eh. destruct (Hf hh Eh) as (_&Hon&_). done.
Qed.

Lemma follows_press m x y : drag_follows m → m_x m = x → m_y m = y →
  let d := (desk_step (OpPress x y) (m_desk m)).2 in
  ∀ h, held d = Some h → on_desk (drag_window h) d = true ∧
    ∀ p, p ∈ stack d → p.1 = drag_window h → wx p.2 = x - offset_x h ∧ wy p.2 = y - offset_y h.
Proof.
  intros Hf <- <-. cbn [desk_step]. destruct (List.find _ _) as [[i w]|] eqn:Ef; cbn [snd].
  2:{ intros h Eh. by destruct (Hf h Eh) as (_&?&?). }
  apply List.find_some in Ef as [Hin _]. apply list_elem_of_In in Hin. destruct (in_close_box _ _ _); [|destruct (in_title_bar _ _ _)]; cbn [snd held stack]; intros h Eh.
  - unfold release_if in Eh. destruct (held (m_desk m)) as [h'|] eqn:Eh'; [|done]. destruct (Nat.eqb_spec (drag_window h') i) as [|Hne]; [done|].
    injection Eh as ->. destruct (Hf h Eh') as (_&Hon&Hw). split.
    + apply on_desk_elem. apply on_desk_elem in Hon as (p&Hp&Hi). exists p. rewrite <- Hi in Hne. split; [by apply elem_of_without|done].
    + intros p [Hp _]%elem_of_without. by apply Hw.
  - injection Eh as <-. cbn [drag_window offset_x offset_y]. split.
    + apply on_desk_elem. exists (i, w). split; [by left|done].
    + intros p [->|[_ ?]%elem_of_without]%elem_of_cons Hi; [cbn; lia|done].
  - destruct (Hf h Eh) as (_&Hon&Hw). split.
    + apply on_desk_elem. apply on_desk_elem in Hon as (p&Hp&Hi). destruct (decide (p.1 = i)) as [E|Hne].
      * exists (i, w). split; [by left|]. cbn. congruence.
      * exists p. split; [right; by apply elem_of_without|done].
    + intros p [->|[? _]%elem_of_without]%elem_of_cons; by apply Hw.
Qed.

Lemma follows_drag m x y : drag_follows m →
  let d := (desk_step (OpDrag x y) (m_desk m)).2 in
  ∀ h, held d = Some h → on_desk (drag_window h) d = true ∧
    ∀ p, p ∈ stack d → p.1 = drag_window h → wx p.2 = x - offset_x h ∧ wy p.2 = y - offset_y h.
Proof.
  intros Hf. cbn [desk_step]. destruct (held (m_desk m)) as [hh|] eqn:Eh'; cbn [snd held stack]; intros h Eh; [|congruence].
  injection Eh as ->. destruct (Hf h Eh') as (_&Hon&_). split.
  - apply on_desk_elem. apply on_desk_elem in Hon as (p&Hp&Hi). eexists. split; [by apply list_elem_of_fmap_2|]. by case_match.
  - intros p (q&->&Hq)%list_elem_of_fmap. destruct (Nat.eqb_spec q.1 (drag_window h)); [done|]. by intros.
Qed.

Lemma press_follows pid m m' t code : drag_follows m → model_press pid m = (m', t, code) → drag_follows m'.
Proof.
  intros Hf. unfold model_press. set (m1 := mk_model (m_x m) (m_y m) true (m_desk m) (m_typed m) (m_panels m) (m_ai m)).
  assert (∀ d panels ai typed, held d = held (m_desk m) → (∀ hh, held (m_desk m) = Some hh → on_desk (drag_window hh) d = true ∧
      ∀ p, p ∈ stack d → p.1 = drag_window hh → p ∈ stack (m_desk m)) → drag_follows (mk_model (m_x m) (m_y m) true d typed panels ai)) as Hsub.
  { intros d panels ai typed Hh Hd h Eh. cbn [m_desk m_down m_x m_y] in *. rewrite Hh in Eh. destruct (Hd h Eh) as [Hon Hin].
    destruct (Hf h Eh) as (_&_&Hw). split_and!; [done|done|]. intros p Hp Hi. apply Hw; [by apply Hin|done]. }
  assert (∀ hh, held (m_desk m) = Some hh → on_desk (drag_window hh) (m_desk m) = true ∧
      ∀ p, p ∈ stack (m_desk m) → p.1 = drag_window hh → p ∈ stack (m_desk m)) as Hrefl by (intros hh Eh; by destruct (Hf hh Eh) as (_&?&_)).
  destruct (point_in_rect _ _ LAUNCHER_X _ _ _).
  { pose proof (follows_spawn m (160 + panel_offset (m_panels m)) (130 + panel_offset (m_panels m)) 260 140 (panel_title (m_panels m)) Hf) as [Hh Hd].
    destruct (desk_step _ (m_desk m)) as [o d]. cbn [snd] in *. destruct o as [[i|]|a|r|]; intros [= <- _ _]; by apply Hsub. }
  destruct (point_in_rect _ _ AI_LAUNCHER_X _ _ _).
  { pose proof (follows_spawn m 180 100 460 220 AI_WINDOW_TITLE Hf) as [Hh Hd]. intros [= <- _ _]. by apply Hsub. }
  destruct (point_in_rect _ _ FILES_LAUNCHER_X _ _ _); [intros [= <- _ _]; by apply Hsub|].
  destruct (point_in_rect _ _ TERMINAL_LAUNCHER_X _ _ _); [intros [= <- _ _]; by apply Hsub|].
  pose proof (follows_press m (m_x m) (m_y m) Hf eq_refl eq_refl) as Hp. destruct (desk_step _ (m_desk m)) as [o d]. cbn [snd] in Hp.
  intros [= <- _ _] h Eh. destruct (Hp h Eh). by split_and!.
Qed.

Lemma event_follows info pid e m m' t d code : drag_follows m → model_event info pid e m = (m', t, d, code) → drag_follows m'.
Proof.
  intros Hf. unfold model_event. destruct e as [c|x y|button pressed].
  - repeat case_match; intros E; simplify_eq; done.
  - set (cx := clamp _ _ _). set (cy := clamp _ _ _). intros [= <- _ _ _]. destruct (m_down m) eqn:Hdown.
    + intros h Eh. cbn [m_desk m_down m_x m_y] in *. destruct (follows_drag m cx cy Hf h Eh). by split_and!.
    + intros h Eh. cbn [m_desk] in Eh. destruct (Hf h Eh) as (?&_). congruence.
  - destruct (button =? 0); [|by intros [= <- _ _ _]]. destruct pressed.
    + destruct (model_press pid m) as [[m1 t1] c1] eqn:E. intros [= <- _ _ _]. by eapply press_follows.
    + unfold model_release. cbn [desk_step]. destruct (held (m_desk m)) as [h|] eqn:Eh; cbn; intros [= <- _ _ _] h' Eh'; cbn in Eh'; congruence.
Qed.

(** An event that is not reported as a change changes nothing. *)
Lemma event_still info pid e m m' t : drag_follows m → model_event info pid e m = (m', t, false, None) → m' = m.
Proof.
  intros Hf. unfold model_event. destruct e as [c|x y|button pressed].
  - repeat case_match; intros E; simplify_eq; done.
  - intros [= <- _ Hd]. apply orb_false_iff in Hd as [Hx Hy]. apply negb_false_iff in Hx, Hy. apply Z.eqb_eq in Hx, Hy. rewrite Hx, Hy.
    pose proof (drag_still m Hf) as Hst. cbn [desk_step] in Hst. rewrite Hst. clear. destruct m as [? ? [] ? ? ? ?]; done.
  - destruct (button =? 0); [|by intros [= <- _]]. destruct pressed; [destruct (model_press pid m) as [[??]?]|destruct (model_release m)]; done.
Qed.

Lemma desk_run_follows info m d code eps : drag_follows m → drag_follows (foldl (desk_next info) (m, d, code) eps).1.1.
Proof.
  revert m d code. induction eps as [|ep eps IH]; intros m d code Hf; [done|]. cbn [foldl]. destruct code as [c|]; [by apply IH|]. cbn [desk_next].
  destruct (model_event info (pid_in ep.2) ep.1 m) as [[[m1 t] d1] code1] eqn:E. apply IH. by eapply event_follows.
Qed.

(** Events that change nothing in the picture leave the state as it is. *)
Lemma desk_run_still info m eps m' : drag_follows m → foldl (desk_next info) (m, false, None) eps = (m', false, None) → m' = m.
Proof.
  revert m. induction eps as [|ep eps IH]; intros m Hf; cbn [foldl]; [congruence|]. cbn [desk_next].
  destruct (model_event info (pid_in ep.2) ep.1 m) as [[[m1 t] d1] code1] eqn:E. rewrite orb_false_l.
  assert (∀ c x, (foldl (desk_next info) (x, d1, Some c) eps).2 = Some c) as Hstop.
  { intros c. clear. induction eps as [|ep' eps IH]; [done|]. intros x. apply IH. }
  destruct code1 as [c|]; [intros Hrun; specialize (Hstop c m1); by rewrite Hrun in Hstop|].
  rewrite desk_next_dirty. destruct (foldl _ _ eps) as [[m2 d2] code2] eqn:Erun. intros [= -> [-> ->]%orb_false_iff ->].
  pose proof (event_still _ _ _ _ _ _ Hf E) as ->. by apply IH.
Qed.

(** ** The run *)

Definition initial_model (info : GfxInfo) : Model :=
  mk_model (gfx_width info / 2) (gfx_height info / 2) false (mk_desk [(0%nat, make_window 120 90 340 180 (bs "Welcome to TuwaiqOS"))] None) [] 1 (-2).

Lemma initial_models info : drawable info → models info (initial_state info) (initial_model info).
Proof.
  intros ([[??] ? _ _ _]&?&?&_). pose proof (wm_step_sim (OpSpawn 120 90 340 180 (bs "Welcome to TuwaiqOS")) new_wm new_wm_ok) as Hs.
  cbn [wm_step] in Hs. unfold initial_state. destruct (Window.spawn 120 90 340 180 _ new_wm) as [o w] eqn:Ew. cbn [snd].
  destruct Hs as [Hok Hd]; [unfold op_ok, is_i16, i16_min, i16_max, extent; lia|].
  change (desk_step _ _) with (OutSpawn (Some 0%nat), m_desk (initial_model info)) in Hd.
  assert (desk_of w = m_desk (initial_model info)) as Hdesk by congruence. clear Hd Ew.
  split; try done. cbn [m_x m_y initial_model]. split; (split; [apply Z.div_pos; lia|apply Z.div_lt; lia]).
Qed.

Lemma initial_follows info : drag_follows (initial_model info).
Proof. intros h Eh. done. Qed.

(** ** What the history says *)

(** The state that the input delivered so far leads to, and the code to exit with
    if it asked for one. *)
Definition desk_after (info : GfxInfo) (log : list io) : Model * option Z :=
  let '(m, _, code) := foldl (desk_next info) (initial_model info, false, None) (episodes log) in (m, code).

(** The second of the clock, from the last answer about the time. *)
Definition second_of (c : io) : option Z := if bool_decide (io_call c = uptime_call) then Some (Z.max (io_answer c).1 0 / TIMER_HZ) else None.
Definition clock_in (log : list io) : Z := default u64_max (last (omap second_of log)).

(** A frame that shows the desktop of the moment, at every pixel. *)
Definition shows_desk (info : GfxInfo) (log : list io) (frame : list byte) : Prop :=
  displays info (desktop_scene info (desk_after info log).1 (clock_in log)) frame.

(** All frames were right, on the display that was described. *)
Definition good_desk (info : GfxInfo) (log : list io) : Prop := every_frame (shows_desk info) log ∧ mode_in log = Some info.

Lemma desk_follows info log : drag_follows (desk_after info log).1.
Proof.
  unfold desk_after. pose proof (desk_run_follows info (initial_model info) false None (episodes log) (initial_follows info)) as Hf.
  by destruct (foldl _ _ _) as [[??]?].
Qed.

Lemma desk_after_start info log : Forall no_poll log → desk_after info log = (initial_model info, None).
Proof. intros Hl. unfold desk_after. by rewrite episodes_quiet. Qed.

(** What one call to [pump_input] adds. *)
Lemma desk_after_pump info log m m' d code c rest : desk_after info log = (m, None) → is_call SYS_INPUT_POLL c = true →
  foldl (desk_next info) (m, false, None) (episodes (c :: rest)) = (m', d, code) → desk_after info (log ++ c :: rest) = (m', code).
Proof.
  unfold desk_after. intros Hl Hc Hrun. rewrite episodes_stop, foldl_app by done.
  destruct (foldl _ _ (episodes log)) as [[m0 d0] code0]. simplify_eq. rewrite desk_next_dirty, Hrun. done.
Qed.

Definition not_uptime (c : io) : Prop := is_call SYS_UPTIME_TICKS c = false.

Lemma clock_in_same log ext : Forall not_uptime ext → clock_in (log ++ ext) = clock_in log.
Proof.
  intros He. unfold clock_in. rewrite omap_app. assert (omap second_of ext = []) as ->; [|by rewrite app_nil_r].
  induction He as [|c ext Hc _ IH]; [done|]. cbn. unfold second_of at 1. rewrite bool_decide_eq_false_2; [done|].
  intros E. unfold not_uptime, is_call in Hc. by rewrite E in Hc.
Qed.

Lemma clock_in_uptime log r : clock_in (log ++ [mk_io uptime_call r]) = Z.max r.1 0 / TIMER_HZ.
Proof.
  unfold clock_in. rewrite omap_app. change (omap second_of [_]) with [Z.max r.1 0 / TIMER_HZ]. by rewrite last_snoc.
Qed.

(** ** The run *)

Section run.
Context {S : Type} `{Ring3Spec S} (info : GfxInfo) (Hinfo : drawable info).
Implicit Types (s : S) (h log : list io).

(** How the program ends: with the code its input asked for, the mapping released
    (2 when the kernel refused to take it back), or with 3 when a frame was
    refused. *)
Definition ends_well h (mp : list (Z * Z)) (code : Z) s : Prop :=
  ∃ log, history s = h ++ log ∧ good_desk info log ∧
    ((desk_after info log).2 = Some code ∧ maps s = mp ∨
     code = 2 ∧ is_Some (desk_after info log).2 ∨
     code = 3 ∧ ∃ l1 frame r l2, log = l1 ++ presented frame r :: l2 ∧ r.1 ≠ 0).

(** The state until the queue is asked again. *)
Definition desk_settled log m : Prop := ∀ ext, Forall no_poll ext → desk_after info (log ++ ext) = (m, None).

(** Between two turns: the queue was found empty [k] times, and from the first
    turn on the newest frame shows the state that all input so far leads to, at
    the second of the clock. *)
Record running h (mp : list (Z * Z)) (k : nat) (l : Loop) (m : Model) s : Prop := {
  run_serving : serving s;
  run_models : models info (desktop l) m;
  run_canvas : zlen (canvas l) = buffer_len info;
  run_maps : maps s = mp;
  run_log : ∃ log, history s = h ++ log ∧ desk_settled log m ∧ good_desk info log ∧ drained log = k ∧
    if first_frame l then shown_in log = []
    else last_clock_second l = clock_in log ∧
      ∃ frame rest, shown_in log = frame :: rest ∧ displays info (desktop_scene info m (clock_in log)) frame
}.

Lemma desk_settled_after log m : desk_settled log m → desk_after info log = (m, None).
Proof using. intros Hl. specialize (Hl [] (Forall_nil_2 _)). by rewrite app_nil_r in Hl. Qed.

Lemma desk_settled_app log ext m : desk_settled log m → Forall no_poll ext → desk_settled (log ++ ext) m.
Proof using. intros Hl He ext' He'. rewrite <- app_assoc. apply Hl. by apply Forall_app_2. Qed.

Lemma good_desk_quiet log ext : good_desk info log → Forall no_present ext → good_desk info (log ++ ext).
Proof using. intros [Hl Hm] He. split; [by apply every_frame_quiet|by apply mode_in_app]. Qed.

Lemma good_desk_present log frame r : good_desk info log → shows_desk info log frame → good_desk info (log ++ [presented frame r]).
Proof using.
  intros [Hl Hm] Hs. split; [|by apply mode_in_app]. apply every_frame_snoc; [done|]. intros _. by exists frame, r.
Qed.

Lemma uwp_leave {A} code addr len h log mp b s (Q : A → S → Prop) :
  at_state (h ++ log) ((addr, len) :: mp) b s → (addr, len) ∉ mp → good_desk info log →
  (∀ ext, Forall no_poll ext → (desk_after info (log ++ ext)).2 = Some code) →
  uwp (leave code addr len) Q (ends_well h mp) s.
Proof.
  intros Hs Hnin Hgood Hcode. unfold leave. uwp_step.
  assert (∀ msg, uwp (write msg) (λ _ s', ∃ r, at_state (h ++ log ++ [wrote msg r]) ((addr, len) :: mp) b s') (ends_well h mp) s) as Hw.
  { intros msg. eapply uwp_write; [exact Hs|]. intros r s' Hs'. rewrite <- app_assoc in Hs'. by eexists. }
  assert (∀ msg r s', at_state (h ++ log ++ [wrote msg r]) ((addr, len) :: mp) b s' →
    uwp (released ← munmap addr len; if negb released then _ ← write (message (bs "desktop: backbuffer cleanup failed")); exit 2 else exit code)
      Q (ends_well h mp) s') as Hend.
  { intros msg r s' Hs'. uwp_step. eapply uwp_munmap; [exact Hs'|exact Hnin|]. intros r2 s2 Hs2. destruct (r2.1 =? 0); cbn [negb].
    - eapply uwp_exit; [exact Hs2|]. intros r3 s3 Hh Hm. rewrite <- !app_assoc in Hh. eexists. split; [exact Hh|].
      split; [by apply good_desk_quiet; [|by repeat constructor]|]. left. split; [|done]. apply Hcode. by repeat constructor.
    - uwp_step. eapply uwp_write; [exact Hs2|]. intros r3 s3 Hs3. eapply uwp_exit; [exact Hs3|]. intros r4 s4 Hh Hm. rewrite <- !app_assoc in Hh.
      eexists. split; [exact Hh|]. split; [by apply good_desk_quiet; [|by repeat constructor]|]. right. left. split; [done|].
      eexists. apply Hcode. by repeat constructor. }
  eapply (uwp_mono _ (λ _ s', ∃ msg r, at_state (h ++ log ++ [wrote msg r]) ((addr, len) :: mp) b s')); [|intros [] s' (msg&r&Hs'); by eapply Hend|done].
  assert (∀ msg, uwp (write msg) (λ _ s', ∃ msg r, at_state (h ++ log ++ [wrote msg r]) ((addr, len) :: mp) b s') (ends_well h mp) s) as Hw'.
  { intros msg. eapply uwp_mono; [apply (Hw msg)| |done]. intros [] s' [r Hs']. by eexists _, _. }
  destruct (code =? EXIT_LAUNCH_FILE_MANAGER); [apply Hw'|]. destruct (code =? EXIT_LAUNCH_TERMINAL); apply Hw'.
Qed.

(** Drawing and showing the state at the second of the clock. *)
Lemma uwp_show l st m addr len h log mp b s :
  models info st m → desk_settled log m → good_desk info log → zlen (canvas l) = buffer_len info → (addr, len) ∉ mp →
  at_state (h ++ log) ((addr, len) :: mp) b s →
  uwp (buf ← or_panic (redraw info st (clock_in log) (canvas l));
       presented ← display_present buf (buffer_len info);
       if negb presented then
         _ ← write (message (bs "desktop: display present failed")); _ ← munmap addr len; exit 3
       else
         _ ← (if first_frame l then write (message (bs "desktop: first frame presented")) else mret tt);
         mret (mk_loop buf st (clock_in log) false))
    (λ l' s', ∃ buf r calls, l' = mk_loop buf st (clock_in log) false ∧ r.1 = 0 ∧ Forall calm calls ∧ Forall not_uptime calls ∧
       displays info (desktop_scene info m (clock_in log)) buf ∧ at_state (h ++ log ++ presented buf r :: calls) ((addr, len) :: mp) b s')
    (ends_well h mp) s.
Proof.
  intros Hm Hset Hgood Hlen Hnin Hs. destruct (redraw_shows info (proj1 Hinfo) st m (clock_in log) (canvas l) Hm Hlen) as (buf&E&Hshow).
  assert (shows_desk info log buf) as Hdesk by (unfold shows_desk; by rewrite (desk_settled_after log m Hset)).
  uwp_step. eapply uwp_or_panic; [exact E|]. uwp_step. rewrite <- (proj1 Hshow). eapply uwp_present; [exact Hs|]. intros r s1 Hs1.
  rewrite <- app_assoc in Hs1. destruct (Z.eqb_spec r.1 0) as [Hr|Hr]; cbn [negb].
  - uwp_step. destruct (first_frame l).
    + eapply uwp_write; [exact Hs1|]. intros r2 s2 Hs2. uwp_step. rewrite <- !app_assoc in Hs2. exists buf, r, [wrote (message (bs "desktop: first frame presented")) r2].
      split_and!; try done; calm_calls; by constructor.
    + apply uwp_ret. uwp_step. eexists buf, r, []. by split_and!.
  - uwp_step. eapply uwp_write; [exact Hs1|]. intros r2 s2 Hs2. uwp_step. eapply uwp_munmap; [exact Hs2|exact Hnin|]. intros r3 s3 Hs3.
    eapply uwp_exit; [exact Hs3|]. intros r4 s4 Hh _. rewrite <- !app_assoc in Hh. eexists. split; [exact Hh|]. split.
    + rewrite app_assoc. apply good_desk_quiet; [by apply good_desk_present|by repeat constructor].
    + right. right. split; [done|]. by eexists log, buf, r, _.
Qed.

(** The end of a turn. *)
Lemma uwp_turn_end l m h log mp b s k frame rest X : models info (desktop l) m → zlen (canvas l) = buffer_len info → first_frame l = false →
  desk_settled log m → good_desk info log → drained log = k → last_clock_second l = clock_in log →
  shown_in log = frame :: rest → displays info (desktop_scene info m (clock_in log)) frame → at_state (h ++ log) mp b s →
  uwp (_ ← yield_now; mret (Some l)) (λ r s', ∃ l' m', r = Some l' ∧ running h mp k l' m' s' ∧ first_frame l' = false) X s.
Proof using.
  intros Hm Hlen Hff Hset Hgood Hk Hclock Hsh Hlast Hs. uwp_step. eapply uwp_yield; [exact Hs|]. intros b2 r2 s2 [? Hh ? _]. uwp_step.
  exists l, m. split; [done|]. split; [|done]. split; try done. rewrite <- app_assoc in Hh. eexists. split; [exact Hh|].
  split; [apply desk_settled_app; [done|by repeat constructor]|]. split; [apply good_desk_quiet; [done|by repeat constructor]|].
  rewrite drained_app, Hk, Hff, clock_in_same by (by repeat constructor). split; [by rewrite Nat.add_0_r|]. split; [done|].
  exists frame, rest. by rewrite shown_in_app, Hsh.
Qed.

Lemma uwp_turn h addr len mp k l m s : running h ((addr, len) :: mp) k l m s → (addr, len) ∉ mp →
  uwp (turn patience info addr (buffer_len info) len l)
    (λ r s', ∃ l' m', r = Some l' ∧ running h ((addr, len) :: mp) (1 + k) l' m' s' ∧ first_frame l' = false) (ends_well h mp) s.
Proof.
  intros [Hs Hm Hlen Hmaps (log&Hh&Hset&Hgood&Hk&Hlast)] Hnin. unfold turn. destruct (batch_law s Hs) as [Hshort Hev].
  pose proof (at_self s Hs) as Hat. rewrite Hh, Hmaps in Hat. uwp_step.
  eapply uwp_mono; [by apply (uwp_pump info Hinfo _ false (desktop l) m (h ++ log) ((addr, len) :: mp) (batch s))| |done].
  intros r s1 (d&code&st'&m'&c&new&b'&->&Hm'&Hpoll&Hrun&Hnew&Hdr&Hs1). cbn [orb]. rewrite <- app_assoc in Hs1.
  assert (∀ ext, Forall no_poll ext → desk_after info ((log ++ c :: new) ++ ext) = (m', code)) as Hset'.
  { intros ext He. rewrite <- app_assoc. cbn [app]. eapply desk_after_pump; [by apply desk_settled_after|done|by apply Hrun]. }
  assert (good_desk info (log ++ c :: new)) as Hgood' by by apply good_desk_quiet.
  destruct code as [code|].
  { eapply uwp_leave; [exact Hs1|done|done|]. intros ext He. by rewrite Hset'. }
  uwp_step. eapply uwp_uptime; [exact Hs1|]. intros ticks s2 Hs2. uwp_step. rewrite <- app_assoc in Hs2.
  set (log' := (log ++ c :: new) ++ [mk_io uptime_call ticks]) in *.
  assert (clock_in log' = Z.max ticks.1 0 / TIMER_HZ) as Hclock by apply clock_in_uptime. rewrite <- Hclock.
  assert (desk_settled log' m') as Hset2 by (apply desk_settled_app; [done|by repeat constructor]).
  assert (good_desk info log') as Hgood2 by (apply good_desk_quiet; [done|by repeat constructor]).
  assert (drained log' = (1 + k)%nat) as Hk'.
  { unfold log'. rewrite !drained_app, Hdr, Hk by done. change (drained [_]) with 0%nat. lia. }
  destruct (first_frame l || d || negb (clock_in log' =? last_clock_second l)) eqn:Edraw.
  - eapply uwp_mono; [by eapply (uwp_show l st' m' addr len h log')| |done]. intros l' s3 (buf&r2&calls&->&Hr2&Hc&Hc2&Hshow&Hs3).
    rewrite app_assoc in Hs3.
    assert (clock_in (log' ++ presented buf r2 :: calls) = clock_in log') as Hclock2 by (apply clock_in_same; by constructor).
    eapply (uwp_turn_end _ m' h (log' ++ presented buf r2 :: calls) _ _ _ _ buf (shown_in log')); rewrite ?Hclock2; try done.
    + apply Hshow.
    + apply desk_settled_app; [done|]. constructor; [done|by apply calm_no_poll].
    + rewrite cons_middle, app_assoc. apply good_desk_quiet; [|by apply calm_no_present]. apply good_desk_present; [done|].
      unfold shows_desk. by rewrite (desk_settled_after log' m' Hset2).
    + rewrite drained_app, Hk'. change (drained (?x :: calls)) with (drained calls). rewrite drained_quiet by by apply calm_no_poll. lia.
    + rewrite shown_in_app. change (presented buf r2 :: calls) with ([presented buf r2] ++ calls). rewrite shown_in_app, (shown_in_none calls) by by apply calm_no_present. unfold shown_in at 1, shown_by. cbn.
      by rewrite Z.eqb_refl, Hr2.
    + rewrite <- app_assoc in Hs3. exact Hs3.
  - apply uwp_ret. apply orb_false_iff in Edraw as [[Hff ->]%orb_false_iff Esame]. rewrite Hff in *.
    destruct Hlast as (Hsec&frame&rest&Hsh&Hframe). apply negb_false_iff, Z.eqb_eq in Esame.
    assert (m' = m) as ->.
    { eapply desk_run_still; [|by apply (Hrun []); constructor]. pose proof (desk_follows info log) as Hf. by rewrite (desk_settled_after log m Hset) in Hf. }
    eapply (uwp_turn_end (mk_loop (canvas l) st' (last_clock_second l) false) m h log' _ _ _ _ frame rest); try done.
    + unfold log'. rewrite shown_in_app, shown_in_app, Hsh, (shown_in_none (c :: new)) by done. done.
    + by rewrite Esame, Hsec.
Qed.

Lemma uwp_turns n h addr len mp k l m s : running h ((addr, len) :: mp) k l m s → (addr, len) ∉ mp →
  uwp (turns n patience info addr (buffer_len info) len l)
    (λ r s', ∃ l' m', r = Some l' ∧ running h ((addr, len) :: mp) (n + k) l' m' s' ∧ ((0 < n)%nat ∨ first_frame l = false → first_frame l' = false))
    (ends_well h mp) s.
Proof.
  revert k l m s. induction n as [|n IH]; intros k l m s Hrun Hnin; cbn [turns].
  - apply uwp_ret. exists l, m. split_and!; [done|done|]. intros [?|?]; [lia|done].
  - uwp_step. eapply uwp_mono; [by apply (uwp_turn h addr len mp k l m)| |done]. intros r s1 (l1&m1&->&Hrun1&Hff).
    eapply uwp_mono; [by apply (IH (1 + k)%nat l1 m1)| |done]. intros r s2 (l2&m2&->&Hrun2&Hff2). exists l2, m2.
    replace (Datatypes.S n + k)%nat with (n + (1 + k))%nat by lia. split_and!; auto.
Qed.
End run.

(** C15: the desktop shows what the user did, and only that. On any kernel that
    keeps the system call interface the program runs without a panic for as long
    as it is not asked to leave, and what it shows is computed from the history of
    its calls: [desk_after] folds [model_event] over exactly the events that the
    kernel delivered through SYS_INPUT_POLL, and [clock_in] reads the last answer
    about the time. Every frame offered shows at every pixel the scene of that
    state and second at the moment it is offered: the pointer over the last forty
    keys over the windows, the topmost first, over the bar and the background.
    Every turn asks for input until the queue is empty, and after it the newest
    frame taken is the scene of all input so far, though unchanged pictures are
    not drawn again. The program ends with the code its input asked for and the
    mapping released, with 2 when the kernel refuses to release it, with 3 when a
    frame is refused, or with 1 before anything is shown. *)
Theorem desktop_is_up_to_date {S} `{Ring3Spec S} (n : nat) (s : S) : serving s →
  uwp (rust_main n patience)
    (λ r s', ∃ info addr len l m, r = Some (info, l) ∧ drawable info ∧
       running info (history s) ((addr, len) :: maps s) n l m s' ∧ ((0 < n)%nat → first_frame l = false))
    (λ code s', code = 1 ∧ (∃ calls, history s' = history s ++ calls ∧ Forall calm calls) ∧ maps s' = maps s ∨
       ∃ info, drawable info ∧ ends_well info (history s) (maps s) code s') s.
Proof.
  intros Hs. pose proof (at_self s Hs) as Hat. unfold rust_main. uwp_step. eapply uwp_write; [exact Hat|]. intros r1 s1 Hs1.
  rewrite window_self_test_passes. uwp_step. eapply uwp_write; [exact Hs1|]. intros r2 s2 Hs2.
  rewrite <- !app_assoc in Hs2.
  assert (∀ A (Q : A → S → Prop) X calls b s', Forall calm calls → at_state (history s ++ calls) (maps s) b s' →
    (∀ s', (∃ calls, history s' = history s ++ calls ∧ Forall calm calls) → maps s' = maps s → X 1 s') → uwp (exit 1) Q X s') as Hout.
  { intros A Q X calls b s' Hc Hs' HX. eapply uwp_exit; [exact Hs'|]. intros r s'' Hh Hm. rewrite <- app_assoc in Hh. apply HX; [|done].
    eexists. split; [exact Hh|]. calm_calls. done. }
  uwp_step. eapply uwp_display_info; [exact Hs2| |].
  2:{ intros r s' Hs'. rewrite <- !app_assoc in Hs'. eapply Hout; [|exact Hs'|by left]. calm_calls. }
  intros info r3 s3 Hinfo Hr3 Hs3. cbv zeta. pose proof (buffer_len_bound info Hinfo) as Hb. unfold checked_add.
  rewrite (proj2 (Z.leb_le _ u64_max)) by (unfold u64_max; lia). uwp_step. rewrite <- !app_assoc in Hs3. eapply uwp_mmap; [exact Hs3| |].
  2:{ intros r s' Hs'. rewrite <- !app_assoc in Hs'. eapply Hout; [|exact Hs'|by left]. calm_calls. }
  intros addr r4 s4 Haddr Hnin Hs4. fold (page_round (buffer_len info)). uwp_step. rewrite <- !app_assoc in Hs4.
  set (log := [_] ++ [_] ++ [_] ++ [_]) in Hs4.
  assert (Forall calm log) as Hcalm by (subst log; calm_calls).
  eapply uwp_mono; [eapply (uwp_turns info Hinfo n (history s) addr _ (maps s) 0 _ (initial_model info)); [|exact Hnin]|..].
  - pose proof Hs4 as [? Hh Hm _]. split; cbn [desktop canvas first_frame last_clock_second]; try done; [by apply initial_models|unfold zlen; rewrite length_replicate; lia|].
    exists log. split; [exact Hh|]. split; [|split; [|split; [by apply drained_quiet, calm_no_poll|by apply shown_in_none, calm_no_present]]].
    + intros ext He. apply desk_after_start, Forall_app_2; [by apply calm_no_poll|done].
    + split; [apply (every_frame_quiet _ []), calm_no_present; [apply every_frame_nil|done]|].
      subst log. cbn [app]. unfold mode_in. rewrite !answer_to_other by done. rewrite answer_to_head. destruct r3 as [r3 buf]. cbn in Hr3. subst buf.
      cbn [mbind option_bind]. f_equal. by apply gfx_record_decode.
  - intros r s5 (l&m&->&Hrun&Hff). apply uwp_ret. rewrite Nat.add_0_r in Hrun. exists info, addr, (page_round (buffer_len info)), l, m. split_and!; try done.
    intros Hn. by apply Hff; left.
  - intros code s5 Hend. right. by exists info.
Qed.

(** ** A run *)

Module DesktopSample.
(** Opening a panel and typing; a move that is none; then leaving. *)
Definition session : Script :=
  scripted [[MouseMove 12 10; MouseButton 0 true; MouseButton 0 false; KeyDown 65]; [MouseMove 12 10]; [KeyDown 27]] [].

Lemma session_serving : serving session.
Proof. split; [apply small_mode_drawable|]. split; [split; [simpl; lia|]|]; repeat constructor; simpl; unfold is_i16, i16_min, i16_max; lia. Qed.

Lemma desktop_is_up_to_date_witness :
  uwp (rust_main 2 patience)
    (λ r s', ∃ info addr len l m, r = Some (info, l) ∧ drawable info ∧
       running info [] [(addr, len)] 2 l m s' ∧ ((0 < 2)%nat → first_frame l = false))
    (λ code s', code = 1 ∧ (∃ calls, log s' = [] ++ calls ∧ Forall calm calls) ∧ mapped s' = [] ∨
       ∃ info, drawable info ∧ ends_well info [] [] code s') session.
Proof. exact (desktop_is_up_to_date 2 session session_serving). Defined.

(** One frame is enough; it leaves by escape with the mapping released. *)
Example session_ends :
  let '(r, s) := rust_main 3 1000 session in
  r = Exits 0 ∧ length (shown s) = 1%nat ∧ mapped s = [] ∧
  output s = message (bs "desktop: started") ++ message (bs "desktop: window model self-test PASS") ++
    action_text (bs "desktop: launcher window=") 1 ++ message (bs "desktop: first frame presented") ++
    message (bs "desktop: normal exit requested").
Proof. vm_compute. done. Qed.
End DesktopSample.

(** The first line of a window is wider than the windows it is shown in: it is
    drawn on whatever is to the right. *)
Example text_leaves_its_window :
  let info := mk_gfx 1024 768 1024 4 1 in let m := initial_model info in
  existsb (λ p, contains p.2 536 130) (stack (m_desk m)) = false ∧ desktop_scene info m 0 536 130 = Some COLOR_TEXT_DIM.
Proof. vm_compute. done. Qed.
