(* ===== verification/UserApp.v ===== *)
(** What the file manager and the terminal of userland/hello have in common: the
    set-up of the canvas, the loop over the input, and presenting the picture.

    Both keep a state [St], handle one event at a time and draw the whole picture
    when something changed. The theorem of this file follows such a program on
    any kernel that keeps the interface of [UserLib.v]. [after] computes, from the
    history of calls and answers alone, the state that the input delivered so far
    and the answers received so far lead to; given what the handler and the
    drawing do, every frame shows the state of the moment it was offered, and
    after each turn, which empties the queue, the newest frame is current. *)

From S2P Require Import Prelude Str Input ShellText Canvas UserLib.

(** ** The code they share *)

Section app.
Context {S : Type} `{Ring3 S} {St : Type}.

(** [while sys::input_poll(&mut event) { .. }], on the flag [dirty] and the
    state; [None]: the queue was not found empty within the fuel. *)
Fixpoint while_input (fuel : nat) (body : list byte → bool * St → U S (bool * St)) (acc : bool * St) : U S (option (bool * St)) :=
  match fuel with
  | O => mret None
  | Datatypes.S fuel =>
      event ← input_poll;
      match event with
      | None => mret (Some acc)
      | Some event => acc ← body event acc; while_input fuel body acc
      end
  end.

(** [render], and [display_present] or the way out. *)
Definition present_or_exit (draw : list byte → option (list byte)) (addr buffer_len mapped_len : Z) (canvas : list byte) : U S (list byte) :=
  canvas ← or_panic (draw canvas);
  presented ← display_present canvas buffer_len;
  if negb presented then
    _ ← munmap addr mapped_len;
    exit 2
  else mret canvas.

(** One turn of the loop, on the back buffer and the state. *)
Definition app_turn (fuel : nat) (body : list byte → bool * St → U S (bool * St)) (draw : St → list byte → option (list byte))
    (addr buffer_len mapped_len : Z) (l : list byte * St) : U S (option (list byte * St)) :=
  r ← while_input fuel body (false, l.2);
  match r with
  | None => mret None
  | Some (dirty, st) =>
      canvas ← (if dirty : bool then present_or_exit (draw st) addr buffer_len mapped_len l.1 else mret l.1);
      _ ← yield_now;
      mret (Some (canvas, st))
  end.

(** The loop, for as many turns as it is given. *)
Fixpoint app_turns (n fuel : nat) (body : list byte → bool * St → U S (bool * St)) (draw : St → list byte → option (list byte))
    (addr buffer_len mapped_len : Z) (l : list byte * St) : U S (option (list byte * St)) :=
  match n with
  | O => mret (Some l)
  | Datatypes.S n =>
      r ← app_turn fuel body draw addr buffer_len mapped_len l;
      match r with Some l => app_turns n fuel body draw addr buffer_len mapped_len l | None => mret None end
  end.

(** From [display_info] to the canvas: the mapping and its two lengths. The pages
    of a mapping are zero. *)
Definition with_canvas {A} (rest : GfxInfo → Z → Z → Z → list byte → U S A) : U S A :=
  info ← display_info;
  match info with
  | None => exit 1
  | Some info =>
      let buffer_len := buffer_len info in
      match checked_add u64_max buffer_len 4095 with
      | None => exit 1
      | Some len =>
          let mapped_len := Z.land len (Z.lnot 4095) in
          addr ← mmap mapped_len true;
          match addr with
          | None => exit 1
          | Some addr => rest info addr buffer_len mapped_len (replicate (Z.to_nat buffer_len) (z2b 0))
          end
      end
  end.
End app.

(** ** What such a program does *)

Lemma page_round_div len : page_round len = (len + 4095) / 4096 * 4096.
Proof.
  unfold page_round. change 4095 with (Z.ones 12) at 2. rewrite <- Z.ldiff_land, Z.ldiff_ones_r, Z.shiftl_mul_pow2, Z.shiftr_div_pow2 by lia.
  done.
Qed.

Lemma page_round_idem len : page_round (page_round len) = page_round len.
Proof. rewrite !page_round_div, Z.div_add_l by done. change (4095 / 4096) with 0. by rewrite Z.add_0_r. Qed.

Section run.
Context {S : Type} `{Ring3Spec S} (info : GfxInfo) {St Mdl : Type}.
Context (models : St → Mdl → Prop) (start : list io → Mdl) (step : InputEvent → list io → Mdl → option Mdl) (scene : Mdl → layer).
Context (body : Z → Z → list byte → bool * St → U S (bool * St)) (draw : St → list byte → option (list byte)).
Implicit Types (s : S) (st : St) (m : Mdl) (log h : list io).

(** The state a history leads to: [start] of the calls before the queue is first
    asked, then a [step] for every event that was delivered, with the calls it
    led to and their answers. [None]: the program was asked to end. *)
Definition after log : option Mdl :=
  foldl (λ o ep, m ← o; step ep.1 ep.2 m) (Some (start (before_poll log))) (episodes log).

(** A frame that shows the state of the moment. *)
Definition shows_after log (frame : list byte) : Prop := ∃ m, after log = Some m ∧ displays info (scene m) frame.

(** The state, until the queue is asked again. *)
Definition settled log m : Prop := ∀ ext, Forall no_poll ext → after (log ++ ext) = Some m.

Lemma settled_after log m : settled log m → after log = Some m.
Proof using. intros Hl. specialize (Hl [] (Forall_nil_2 _)). by rewrite app_nil_r in Hl. Qed.

Lemma settled_app log ext m : settled log m → Forall no_poll ext → settled (log ++ ext) m.
Proof using. intros Hl He ext' He'. rewrite <- app_assoc. apply Hl. by apply Forall_app_2. Qed.

Lemma after_delivered log e calls m : event_ok e → after log = Some m → Forall no_poll calls →
  after (log ++ polled (1, to_le_bytes e) :: calls) = step e calls m.
Proof using.
  intros He Hm Hc. unfold after in *. rewrite before_poll_stops, (episodes_delivered _ _ e) by (done || by apply delivered_event).
  rewrite foldl_app, Hm. done.
Qed.

Lemma settled_empty log r m : r.1 ≠ 1 → after log = Some m → settled (log ++ [polled r]) m.
Proof using.
  intros Hr Hm ext He. rewrite <- app_assoc. cbn [app]. unfold after in *. rewrite before_poll_stops, episodes_empty; try done.
  unfold found_empty. cbn. by rewrite (proj2 (Z.eqb_neq _ _) Hr).
Qed.

Lemma settled_start log m : Forall no_poll log → (∀ ext, start (log ++ ext) = m) → settled log m.
Proof using.
  intros Hl Hm ext He. assert (Forall no_poll (log ++ ext)) by (by apply Forall_app_2). unfold after.
  by rewrite episodes_quiet, before_poll_all, Hm.
Qed.

(** The handler makes the step of the model, reports every change, and ends the
    program only when the step does, with code 0, having asked for the mapping to
    be released. *)
Definition handles : Prop := ∀ addr len e dirty st m h mp b s,
  event_ok e → models st m → (addr, len) ∉ mp → at_state h ((addr, len) :: mp) b s →
  uwp (body addr len (to_le_bytes e) (dirty, st))
    (λ r s', ∃ calls m', Forall calm calls ∧ step e calls m = Some m' ∧ models r.2 m' ∧ (r.1 = false → dirty = false ∧ m' = m) ∧
       at_state (h ++ calls) ((addr, len) :: mp) b s')
    (λ code s', code = 0 ∧ (maps s' = mp ∨ maps s' = (addr, len) :: mp) ∧
       ∃ calls, Forall calm calls ∧ step e calls m = None ∧ history s' = h ++ calls) s.

(** The drawing shows the scene. *)
Definition pictures : Prop := ∀ st m canvas, models st m → zlen canvas = buffer_len info →
  ∃ canvas', draw st canvas = Some canvas' ∧ displays info (scene m) canvas'.

Context (Hbody : handles) (Hdraw : pictures).

(** What the program did: all frames were right, on the display it was given. *)
Definition good_log log : Prop := every_frame shows_after log ∧ mode_in log = Some info.

(** How the program ends: by its input, or because a frame was refused. A kernel
    may refuse to take the mapping back. *)
Definition quits h (mp : list (Z * Z)) (code : Z) s : Prop :=
  (∃ log, history s = h ++ log ∧ good_log log ∧
     (code = 0 ∧ after log = None ∨ code = 2 ∧ ∃ l1 frame r l2, log = l1 ++ presented frame r :: l2 ∧ r.1 ≠ 0)) ∧
  (maps s = mp ∨ ∃ addr len, maps s = (addr, len) :: mp).

(** Between two turns: the queue was found empty [k] times, and the newest frame
    shows the state that all that happened leads to. *)
Record up_to_date h (mp : list (Z * Z)) (k : nat) (l : list byte * St) m s : Prop := {
  ud_serving : serving s;
  ud_models : models l.2 m;
  ud_canvas : zlen l.1 = buffer_len info;
  ud_maps : maps s = mp;
  ud_log : ∃ log, history s = h ++ log ∧ settled log m ∧ good_log log ∧ drained log = k ∧
    ∃ frame rest, shown_in log = frame :: rest ∧ displays info (scene m) frame
}.

Lemma good_log_quiet log ext : good_log log → Forall no_present ext → good_log (log ++ ext).
Proof using. intros [Hl Hm] He. split; [by apply every_frame_quiet|by apply mode_in_app]. Qed.

Lemma good_log_present log canvas r m : good_log log → settled log m → displays info (scene m) canvas →
  good_log (log ++ [presented canvas r]).
Proof using.
  intros [Hl Hm] Hs Hd. split; [|by apply mode_in_app]. apply every_frame_snoc; [done|]. intros _. exists canvas, r. split; [done|].
  exists m. split; [by apply settled_after|done].
Qed.

Lemma uwp_while_input fuel addr len dirty st m h log mp b s :
  (length b < fuel)%nat → Forall event_ok b → models st m → after log = Some m → (addr, len) ∉ mp → at_state (h ++ log) ((addr, len) :: mp) b s →
  uwp (while_input fuel (body addr len) (dirty, st))
    (λ r s', ∃ dirty' st' m' new b', r = Some (dirty', st') ∧ models st' m' ∧ settled (log ++ new) m' ∧ Forall no_present new ∧ drained new = 1%nat ∧
       (dirty' = false → dirty = false ∧ m' = m) ∧ at_state (h ++ log ++ new) ((addr, len) :: mp) b' s')
    (λ code s', code = 0 ∧ (maps s' = mp ∨ maps s' = (addr, len) :: mp) ∧
       ∃ new, after (log ++ new) = None ∧ Forall no_present new ∧ history s' = h ++ log ++ new) s.
Proof using Hbody.
  revert dirty st m log b s. induction fuel as [|fuel IH]; intros dirty st m log b s Hlen Hev Hm Hlog Hnin Hs; [lia|]. cbn [while_input].
  uwp_step. eapply uwp_input_poll; [exact Hs|]. destruct b as [|e rest].
  - intros b' r s' Hr Hs'. uwp_step. exists dirty, st, m, [polled r], b'. rewrite <- app_assoc in Hs'.
    split_and!; try done; [by apply settled_empty|by repeat constructor|]. unfold drained, found_empty. cbn. by rewrite (proj2 (Z.eqb_neq _ _) Hr).
  - intros s' Hs'. apply Forall_cons in Hev as [He Hev]. rewrite <- app_assoc in Hs'.
    assert (∀ calls o, step e calls m = o → Forall calm calls → after (log ++ polled (1, to_le_bytes e) :: calls) = o) as Hstep.
    { intros calls o <- Hc. by apply after_delivered, calm_no_poll. }
    uwp_step. eapply uwp_mono; [by apply (Hbody addr len e dirty st m (h ++ log ++ [polled (1, to_le_bytes e)]) mp rest)|..].
    2:{ intros code s1 (->&Hmp&calls&Hc&Hstop&Hh). split; [done|]. split; [done|]. eexists. split; [by apply Hstep|].
        rewrite <- !app_assoc in Hh. split; [|exact Hh]. constructor; [done|]. by apply calm_no_present. }
    intros [d1 st1] s1 (calls&m1&Hc&Hs1m&Hm1&Hd1&Hs1). cbn [fst snd] in *. rewrite <- !app_assoc in Hs1. cbn [app] in Hs1.
    eapply uwp_mono; [apply (IH d1 st1 m1 (log ++ polled (1, to_le_bytes e) :: calls) rest); try done; [cbn [length] in *; lia|by apply Hstep]|..].
    + intros r s2 (d2&st2&m2&new&b2&->&Hm2&Hset&Hnew&Hdr&Hd2&Hs2). exists d2, st2, m2, (polled (1, to_le_bytes e) :: calls ++ new), b2.
      rewrite <- !app_assoc in Hset, Hs2. split_and!; try done.
      * constructor; [done|]. by apply Forall_app_2; [apply calm_no_present|].
      * rewrite app_comm_cons, drained_app, Hdr. change (drained (?c :: calls)) with (drained calls). by rewrite drained_quiet by by apply calm_no_poll.
      * intros E. destruct (Hd2 E) as [E1 ->]. by apply Hd1.
    + intros code s2 (->&Hmp&new&Hnone&Hnew&Hh). split; [done|]. split; [done|]. exists (polled (1, to_le_bytes e) :: calls ++ new).
      rewrite <- !app_assoc in Hnone, Hh. split; [done|]. split; [|exact Hh]. constructor; [done|]. by apply Forall_app_2; [apply calm_no_present|].
Qed.

Lemma uwp_present_or_exit st m addr len canvas h log mp b s :
  models st m → settled log m → good_log log → zlen canvas = buffer_len info → (addr, len) ∉ mp →
  at_state (h ++ log) ((addr, len) :: mp) b s →
  uwp (present_or_exit (draw st) addr (buffer_len info) len canvas)
    (λ canvas' s', ∃ r, r.1 = 0 ∧ displays info (scene m) canvas' ∧ at_state (h ++ log ++ [presented canvas' r]) ((addr, len) :: mp) b s') (quits h mp) s.
Proof using Hdraw.
  intros Hm Hset Hgood Hlen Hnin Hs. destruct (Hdraw st m canvas Hm Hlen) as (canvas'&E&Hshow). unfold present_or_exit.
  uwp_step. eapply uwp_or_panic; [exact E|]. uwp_step. rewrite <- (proj1 Hshow). eapply uwp_present; [exact Hs|]. intros r s1 Hs1.
  rewrite <- app_assoc in Hs1. destruct (Z.eqb_spec r.1 0) as [Hr|Hr]; cbn [negb]; [uwp_step; by exists r|].
  uwp_step. eapply uwp_munmap; [exact Hs1|exact Hnin|]. intros r2 s2 Hs2. eapply uwp_exit; [exact Hs2|]. intros r3 s3 Hh Hmp.
  rewrite <- !app_assoc in Hh. split.
  - eexists. split; [exact Hh|]. split.
    + rewrite app_assoc. apply good_log_quiet; [by eapply good_log_present|by repeat constructor].
    + right. split; [done|]. by eexists log, canvas', r, _.
  - rewrite Hmp. destruct (r2.1 =? 0); [by left|right; by eexists _, _].
Qed.

Lemma uwp_app_turn h addr len mp k l m s : up_to_date h ((addr, len) :: mp) k l m s → (addr, len) ∉ mp →
  uwp (app_turn patience (body addr len) draw addr (buffer_len info) len l)
    (λ r s', ∃ l' m', r = Some l' ∧ up_to_date h ((addr, len) :: mp) (1 + k) l' m' s') (quits h mp) s.
Proof using Hbody Hdraw.
  intros [Hs Hm Hlen Hmaps (log&Hh&Hset&Hgood&Hk&frame&rest&Hf&Hlast)] Hnin. unfold app_turn. destruct (batch_law s Hs) as [Hshort Hev].
  pose proof (at_self s Hs) as Hat. rewrite Hh, Hmaps in Hat. uwp_step.
  eapply uwp_mono; [by eapply (uwp_while_input patience addr len false l.2 m); try done; apply settled_after|..].
  2:{ intros code s1 (->&Hm1&new&Hnone&Hnew&Hh1). split; [|destruct Hm1; [by left|right; by eexists _, _]].
      exists (log ++ new). split; [done|]. split; [by apply good_log_quiet|by left]. }
  intros r s1 (dirty&st'&m'&new&b'&->&Hm'&Hset'&Hnew&Hdr&Hd&Hs1). uwp_step.
  assert (∀ canvas' frame' rest' shows s2, zlen canvas' = buffer_len info → settled (log ++ new ++ shows) m' → good_log (log ++ new ++ shows) →
    drained shows = 0%nat → shown_in (log ++ new ++ shows) = frame' :: rest' → displays info (scene m') frame' →
    at_state (h ++ log ++ new ++ shows) ((addr, len) :: mp) b' s2 →
    uwp (_ ← yield_now; mret (Some (canvas', st'))) (λ r s', ∃ l' m', r = Some l' ∧ up_to_date h ((addr, len) :: mp) (1 + k) l' m' s') (quits h mp) s2) as Hend.
  { intros canvas' frame' rest' shows s2 Hlen' Hset2 Hgood2 Hdr2 Hsh Hlast' Hs2. uwp_step. eapply uwp_yield; [exact Hs2|]. intros b2 r2 s3 Hs3. uwp_step.
    exists (canvas', st'), m'. split; [done|]. destruct Hs3 as [? Hh3 ? _]. split; try done. eexists. rewrite <- (app_assoc h) in Hh3. split; [exact Hh3|].
    split_and!; [apply settled_app; [done|by repeat constructor]|apply good_log_quiet; [done|by repeat constructor]| |exists frame', rest'; split; [|done]].
    - rewrite !drained_app, Hdr, Hdr2, Hk. change (drained [_]) with 0%nat. lia.
    - rewrite shown_in_app, Hsh. done. }
  destruct dirty.
  - rewrite app_assoc in Hs1. eapply uwp_mono; [eapply (uwp_present_or_exit st' m'); try done; [by apply good_log_quiet|by rewrite app_assoc]| |done].
    intros canvas' s2 (r&Hr&Hshow&Hs2). rewrite <- app_assoc in Hs2.
    eapply (Hend canvas' canvas' (shown_in (log ++ new)) [presented canvas' r]); rewrite ?app_assoc; try done; [apply Hshow|..].
    + apply settled_app; [done|by repeat constructor].
    + eapply good_log_present; [by apply good_log_quiet|done|done].
    + rewrite shown_in_app. unfold shown_in at 1, shown_by. cbn. by rewrite Z.eqb_refl, Hr.
    + by rewrite <- !app_assoc.
  - destruct (Hd eq_refl) as [_ ->]. apply uwp_ret. eapply (Hend l.1 frame rest []); rewrite ?app_nil_r; try done; [by apply good_log_quiet|].
    by rewrite shown_in_app, shown_in_none.
Qed.

Lemma uwp_app_turns n h addr len mp k l m s : up_to_date h ((addr, len) :: mp) k l m s → (addr, len) ∉ mp →
  uwp (app_turns n patience (body addr len) draw addr (buffer_len info) len l)
    (λ r s', ∃ l' m', r = Some l' ∧ up_to_date h ((addr, len) :: mp) (n + k) l' m' s') (quits h mp) s.
Proof using Hbody Hdraw.
  revert k l m s. induction n as [|n IH]; intros k l m s Hrun Hnin; cbn [app_turns].
  - apply uwp_ret. by exists l, m.
  - uwp_step. eapply uwp_mono; [by apply (uwp_app_turn h addr len mp k l m)| |done]. intros r s1 (l1&m1&->&Hrun1).
    replace (Datatypes.S n + k)%nat with (n + (1 + k))%nat by lia. by apply (IH (1 + k)%nat l1 m1).
Qed.

(** The first frame, then the loop. *)
Lemma uwp_show_and_run n addr len mp h log st m canvas b s :
  models st m → settled log m → Forall calm log → mode_in log = Some info → zlen canvas = buffer_len info → (addr, len) ∉ mp →
  at_state (h ++ log) ((addr, len) :: mp) b s →
  uwp (canvas ← present_or_exit (draw st) addr (buffer_len info) len canvas;
       l ← app_turns n patience (body addr len) draw addr (buffer_len info) len (canvas, st);
       mret ((λ l, (info, l)) <$> l))
    (λ r s', ∃ l m', r = Some (info, l) ∧ up_to_date h ((addr, len) :: mp) n l m' s') (quits h mp) s.
Proof using Hbody Hdraw.
  intros Hm Hset Hcalm Hmode Hlen Hnin Hs. assert (good_log log) as Hgood.
  { split; [|done]. apply (every_frame_quiet _ []), calm_no_present; [apply every_frame_nil|done]. }
  uwp_step. eapply uwp_mono; [by eapply (uwp_present_or_exit st m)| |done].
  intros canvas' s1 (r&Hr&Hshow&[Hs1 Hh1 Hm1 _]). uwp_step.
  eapply uwp_mono; [apply (uwp_app_turns n h addr len mp 0 (canvas', st) m)| |done]; [|done|].
  - split; try done; [apply Hshow|]. eexists. split; [exact Hh1|].
    split_and!; [apply settled_app; [done|by repeat constructor]|by eapply good_log_present| |exists canvas', []; split; [|done]].
    + rewrite drained_app, drained_quiet by by apply calm_no_poll. done.
    + rewrite shown_in_app, (shown_in_none log) by by apply calm_no_present. unfold shown_in, shown_by. cbn. by rewrite Z.eqb_refl, Hr.
  - intros r2 s2 (l&m'&->&Hud). uwp_step. rewrite Nat.add_0_r in Hud. by exists l, m'.
Qed.
End run.

(** The set-up: it either ends with code 1, with nothing shown or mapped, or goes
    on with a new mapping, on the display the kernel described. *)
Lemma uwp_with_canvas {S A} `{Ring3Spec S} (rest : GfxInfo → Z → Z → Z → list byte → U S A) (Q : A → S → Prop) (X : Z → S → Prop) h mp b s :
  at_state h mp b s →
  (∀ calls s', Forall calm calls → history s' = h ++ calls → maps s' = mp → X 1 s') →
  (∀ info addr len canvas calls s', drawable info → Forall calm calls → Forall (λ c, is_call SYS_READDIR c = false) calls → (∀ msg r ext, mode_in (wrote msg r :: calls ++ ext) = Some info) →
     (addr, len) ∉ mp → zlen canvas = buffer_len info → at_state (h ++ calls) ((addr, len) :: mp) b s' →
     uwp (rest info addr (buffer_len info) len canvas) Q X s') →
  uwp (with_canvas rest) Q X s.
Proof.
  intros Hs HX Hrest. unfold with_canvas.
  assert (∀ calls s', Forall calm calls → at_state (h ++ calls) mp b s' → uwp (exit 1) Q X s') as Hout.
  { intros calls s' Hc Hs'. eapply uwp_exit; [exact Hs'|]. intros r s1 Hh Hm. rewrite <- app_assoc in Hh.
    eapply HX; [|exact Hh|done]. calm_calls. done. }
  uwp_step. eapply uwp_display_info; [exact Hs| |intros r s' Hs'; eapply Hout; [|exact Hs']; calm_calls]. intros info r s1 Hinfo Hr Hs1. cbv zeta.
  pose proof (buffer_len_bound info Hinfo) as Hb. unfold checked_add. rewrite (proj2 (Z.leb_le _ u64_max)) by (unfold u64_max; lia).
  uwp_step. eapply uwp_mmap; [exact Hs1| |intros r2 s' Hs'; rewrite <- app_assoc in Hs'; eapply Hout; [|exact Hs']; calm_calls].
  fold (page_round (buffer_len info)). rewrite page_round_idem.
  intros addr r2 s2 _ Hnin Hs2. rewrite <- app_assoc in Hs2. refine (Hrest info addr _ _ _ s2 Hinfo _ _ _ Hnin _ Hs2).
  - calm_calls.
  - by repeat constructor.
  - intros msg r3 ext. unfold mode_in. rewrite answer_to_other by done. cbn [app]. rewrite answer_to_head. destruct r as [r buf]. cbn in Hr. subst buf.
    cbn [mbind option_bind]. f_equal. by apply gfx_record_decode.
  - unfold zlen. rewrite length_replicate. lia.
Qed.
