(* ===== verification/FileManager.v ===== *)
(** The file manager of userland/hello: bin/file_manager.rs.

    It lists one of four directories and changes between them by a key. The
    picture shows the entries that fit, or that there are none. *)

From S2P Require Import Prelude Str Input ShellText Canvas UserLib UserScript UserApp.

Definition PATHS : list (list byte) := [bs "/apps"; bs "/data"; bs "/boot"; bs "/boot/DOCS"].
Definition LIST_CAPACITY : nat := 2048.

Record Browser := mk_browser { path_index : nat; entries : list byte; entries_len : Z; status : list byte }.

Definition COLOR_LISTED : color := (0xE6, 0xEA, 0xF0).
Definition COLOR_HINT : color := (0x8A, 0x93, 0xA0).
Definition INITIAL_STATUS : list byte := bs "A Apps  D Data  B Boot  R Boot Docs  Esc Back".

(** ** Handlers *)

Section program.
Context {S : Type} `{Ring3 S}.

Definition refresh (b : Browser) : U S Browser :=
  let entries := replicate LIST_CAPACITY (z2b 0) in
  path ← or_panic (PATHS !! path_index b);
  listed ← read_dir path LIST_CAPACITY;
  match listed with
  | Some (length, entries) =>
      _ ← write (bs "file-manager: listed ");
      _ ← write path;
      _ ← write newline;
      mret (mk_browser (path_index b) entries length (bs "Directory loaded from VFS"))
  | None =>
      _ ← write (message (bs "file-manager: list failed"));
      mret (mk_browser (path_index b) entries 0 (bs "Directory unavailable"))
  end.

Definition select (index : nat) (b : Browser) : U S (bool * Browser) :=
  if (path_index b =? index)%nat then mret (false, b)
  else
    b ← refresh (mk_browser index (entries b) (entries_len b) (status b));
    mret (true, b).

(** [dirty |= select(..)] *)
Definition select_into (index : nat) (acc : bool * Browser) : U S (bool * Browser) :=
  '(changed, b) ← select index acc.2;
  mret (acc.1 || changed, b).

(** The directory of a key. *)
Definition key_index (code : Z) : option nat :=
  if (code =? 97) || (code =? 65) then Some 0%nat
  else if (code =? 100) || (code =? 68) then Some 1%nat
  else if (code =? 98) || (code =? 66) then Some 2%nat
  else if (code =? 114) || (code =? 82) then Some 3%nat
  else None.

Definition handle_event (addr mapped_len : Z) (event : list byte) (acc : bool * Browser) : U S (bool * Browser) :=
  if negb (b2z (event !!! 0%nat) =? 1) then mret acc
  else
    let code := b2z (event !!! 1%nat) in
    if code =? KEY_ESCAPE then
      _ ← write (message (bs "file-manager: normal exit"));
      _ ← munmap addr mapped_len;
      exit 0
    else match key_index code with Some index => select_into index acc | None => mret acc end.
End program.

(** ** The picture drawn *)

Section draw.
Context (info : GfxInfo).

(** The loop over the lines: the next row and the buffer. *)
Fixpoint draw_entries (lines : list (list byte)) (y : Z) (buf : list byte) : option (Z * list byte) :=
  match lines with
  | [] => Some (y, buf)
  | line :: lines =>
      if bool_decide (line = []) || (gfx_height info - 56 <? y) then draw_entries lines y buf
      else buf ← draw_text info line 36 y COLOR_LISTED buf; draw_entries lines (y + 18) buf
  end.

Definition render (b : Browser) (buf : list byte) : option (list byte) :=
  let width := gfx_width info in
  let height := gfx_height info in
  path ← PATHS !! path_index b;
  buf ← in_order [
    fill_rect info 0 0 width height (0x0B, 0x0E, 0x13);
    fill_rect info 0 0 width 36 (0x12, 0x16, 0x1D);
    fill_rect info 0 34 width 2 (0x00, 0xA8, 0x6B);
    draw_text info (bs "Tuwaiq File Manager") 16 12 COLOR_LISTED;
    draw_text info path 24 58 (0x00, 0xD0, 0x83);
    draw_text info (status b) 24 (height - 34) COLOR_HINT;
    draw_text info (bs "A Apps | D Data | B Boot | R Boot Docs | Esc Desktop") 24 (height - 18) COLOR_HINT] buf;
  listed ← slice_to (Z.to_nat (entries_len b)) (entries b);
  '(y, buf) ← draw_entries (split_on Str.newline listed) 86 buf;
  if entries_len b =? 0 then draw_text info (bs "(empty)") 36 y COLOR_HINT buf else Some buf.
End draw.

(** ** The program *)

Section main.
Context {S : Type} `{Ring3 S}.

Definition rust_main (n fuel : nat) : U S (option (GfxInfo * (list byte * Browser))) :=
  _ ← write (message (bs "file-manager: started from /apps/file-manager"));
  with_canvas (λ info addr buffer_len mapped_len canvas,
    browser ← refresh (mk_browser 0 (replicate LIST_CAPACITY (z2b 0)) 0 INITIAL_STATUS);
    canvas ← present_or_exit (render info browser) addr buffer_len mapped_len canvas;
    l ← app_turns n fuel (handle_event addr mapped_len) (render info) addr buffer_len mapped_len (canvas, browser);
    mret ((λ l, (info, l)) <$> l)).
End main.

(** ** What the user sees *)

(** The directory and what the kernel last answered when it was listed. *)
Record Listing := mk_listing { directory : nat; answer : option (list byte) }.

Definition answer_ok (a : option (list byte)) : Prop :=
  match a with Some t => (length t ≤ LIST_CAPACITY)%nat | None => True end.

(** Before the first event the applications are listed. *)
Definition first_listing (calls : list io) : Listing := mk_listing 0 (dir_in (bs "/apps") LIST_CAPACITY calls).

(** One event, and the calls it led to: a key that chooses another directory asks
    for it, and the answer to that call is what is shown. [None]: the program
    ends. *)
Definition listing_step (e : InputEvent) (calls : list io) (m : Listing) : option Listing :=
  match e with
  | KeyDown code =>
      if code =? KEY_ESCAPE then None
      else match key_index code with
           | Some index => Some (if (directory m =? index)%nat then m else mk_listing index (dir_in (PATHS !!! index) LIST_CAPACITY calls))
           | None => Some m
           end
  | _ => Some m
  end.

Definition listed_text (m : Listing) : list byte := default [] (answer m).

(** The entries that fit between the heading and the status line. *)
Definition visible_entries (info : GfxInfo) (t : list byte) : list (list byte) :=
  take (Z.to_nat ((gfx_height info - 142) / 18 + 1)) (filter (λ line, line ≠ []) (split_on Str.newline t)).

Definition listing_frame (info : GfxInfo) (m : Listing) : list layer := [
  text (bs "A Apps | D Data | B Boot | R Boot Docs | Esc Desktop") 24 (gfx_height info - 18) COLOR_HINT;
  text (match answer m with Some _ => bs "Directory loaded from VFS" | None => bs "Directory unavailable" end) 24 (gfx_height info - 34) COLOR_HINT;
  text (PATHS !!! directory m) 24 58 (0x00, 0xD0, 0x83);
  text (bs "Tuwaiq File Manager") 16 12 COLOR_LISTED;
  box 0 34 (gfx_width info) 2 (0x00, 0xA8, 0x6B);
  box 0 0 (gfx_width info) 36 (0x12, 0x16, 0x1D);
  box 0 0 (gfx_width info) (gfx_height info) (0x0B, 0x0E, 0x13)].

Definition listing_body (info : GfxInfo) (m : Listing) : layer :=
  if decide (listed_text m = []) then text (bs "(empty)") 36 86 COLOR_HINT
  else column 36 86 COLOR_LISTED (visible_entries info (listed_text m)).

Definition listing_scene (info : GfxInfo) (m : Listing) : layer := layers (listing_body info m :: listing_frame info m).

Record listing_models (b : Browser) (m : Listing) : Prop := {
  lm_directory : path_index b = directory m;
  lm_known : (directory m < 4)%nat;
  lm_room : length (entries b) = LIST_CAPACITY;
  lm_answer : answer_ok (answer m);
  lm_length : entries_len b = zlen (listed_text m);
  lm_text : take (length (listed_text m)) (entries b) = listed_text m;
  lm_status : status b = match answer m with Some _ => bs "Directory loaded from VFS" | None => bs "Directory unavailable" end
}.

(** ** The drawing *)

Section shows.
Context (info : GfxInfo) (Hok : gfx_ok info).

Lemma draw_entries_full lines y buf : gfx_height info - 56 < y → draw_entries info lines y buf = Some (y, buf).
Proof using.
  intros Hy. induction lines as [|line lines IH]; [done|]. cbn [draw_entries]. rewrite (proj2 (Z.ltb_lt _ _)) by done. by rewrite orb_true_r.
Qed.

Lemma draw_entries_draws lines y :
  draws info (λ buf, snd <$> draw_entries info lines y buf)
    (column 36 y COLOR_LISTED (take (Z.to_nat ((gfx_height info - 56 - y) / 18 + 1)) (filter (λ line, line ≠ []) lines))).
Proof using Hok.
  revert y. induction lines as [|line lines IH]; intros y; cbn [draw_entries].
  { rewrite filter_nil, take_nil. apply draws_nothing. }
  case_bool_decide as Hl; cbn [orb].
  { rewrite filter_cons_False by (by intros ?). apply IH. }
  rewrite filter_cons_True by done. destruct (Z.ltb_spec (gfx_height info - 56) y) as [Hy|Hy].
  - assert ((gfx_height info - 56 - y) / 18 < 0) by (apply Z.div_lt_upper_bound; lia).
    replace (Z.to_nat _) with 0%nat by lia. intros buf Hb. rewrite draw_entries_full by done. by apply draws_nothing.
  - replace ((gfx_height info - 56 - y) / 18) with ((gfx_height info - 56 - (y + 18)) / 18 + 1) by (rewrite <- Z.div_add by done; f_equal; lia).
    assert (-1 <= (gfx_height info - 56 - (y + 18)) / 18) by (apply Z.div_le_lower_bound; lia).
    replace (Z.to_nat _) with (Datatypes.S (Z.to_nat ((gfx_height info - 56 - (y + 18)) / 18 + 1))) by lia.
    cbn [take].
    apply (draws_fun _ (λ buf, buf ← draw_text info line 36 y COLOR_LISTED buf; snd <$> draw_entries info lines (y + 18) buf)).
    { intros buf. by destruct (draw_text info line 36 y COLOR_LISTED buf). }
    eapply draws_ext; [apply draws_then; [by apply (text_draws info Hok)|apply IH]|]. intros px py _. by rewrite column_cons.
Qed.
Lemma listing_draws b m : listing_models b m → draws info (render info b) (listing_scene info m).
Proof using Hok.
  intros [Hd Hk Hroom Ha Hlen Ht Hst].
  assert (PATHS !! path_index b = Some (PATHS !!! directory m)) as Hpath.
  { rewrite Hd. apply list_lookup_lookup_total_lt. cbn. lia. }
  assert (slice_to (Z.to_nat (entries_len b)) (entries b) = Some (listed_text m)) as Hlisted.
  { assert (length (listed_text m) ≤ length (entries b))%nat as Hle by (rewrite <- Ht at 1; rewrite length_take; lia).
    unfold slice_to. rewrite Hlen. unfold zlen. rewrite Nat2Z.id, (proj2 (Nat.leb_le _ _)) by done. by rewrite Ht. }
  set (tail := λ buf, '(y, buf) ← draw_entries info (split_on Str.newline (listed_text m)) 86 buf;
    if entries_len b =? 0 then draw_text info (bs "(empty)") 36 y COLOR_HINT buf else Some buf).
  apply (draws_fun _ (λ buf, buf ← in_order [
    fill_rect info 0 0 (gfx_width info) (gfx_height info) (0x0B, 0x0E, 0x13);
    fill_rect info 0 0 (gfx_width info) 36 (0x12, 0x16, 0x1D);
    fill_rect info 0 34 (gfx_width info) 2 (0x00, 0xA8, 0x6B);
    draw_text info (bs "Tuwaiq File Manager") 16 12 COLOR_LISTED;
    draw_text info (PATHS !!! directory m) 24 58 (0x00, 0xD0, 0x83);
    draw_text info (status b) 24 (gfx_height info - 34) COLOR_HINT;
    draw_text info (bs "A Apps | D Data | B Boot | R Boot Docs | Esc Desktop") 24 (gfx_height info - 18) COLOR_HINT] buf; tail buf)).
  { intros buf. unfold render. rewrite Hpath. cbn [mbind option_bind]. destruct (in_order _ buf); [|done]. cbn [mbind option_bind]. by rewrite Hlisted. }
  rewrite Hst. unfold listing_scene. eapply draws_ext.
  - apply (draws_then _ _ _ (layers (listing_frame info m)) (listing_body info m)); [unfold listing_frame; pieces|].
    unfold tail, listing_body. destruct (decide (listed_text m = [])) as [E|E].
    + rewrite Hlen, E. apply (draws_fun _ (draw_text info (bs "(empty)") 36 86 COLOR_HINT)); [done|]. by apply (text_draws info Hok).
    + rewrite Hlen. apply (draws_fun _ (λ buf, snd <$> draw_entries info (split_on Str.newline (listed_text m)) 86 buf)).
      { intros buf. rewrite (proj2 (Z.eqb_neq _ 0)) by (intros ?%zlen_0_inv; done). by destruct (draw_entries _ _ _ _) as [[y b']|]. }
      eapply draws_ext; [apply draw_entries_draws|]. intros x y _. unfold visible_entries.
      by replace (gfx_height info - 56 - 86) with (gfx_height info - 142) by lia.
  - intros x y _. done.
Qed.

Lemma listing_pictures : pictures info listing_models (listing_scene info) (render info).
Proof using Hok.
  intros b m canvas Hm Hlen. apply draws_displays; [by apply listing_draws| |done]. intros x y Hv.
  apply (backdrop_covers info [_; _; _; _; _; _; _] (0x0B, 0x0E, 0x13) x y Hv).
Qed.
End shows.

(** ** The handlers *)

Section run.
Context {S : Type} `{Ring3Spec S}.
Implicit Types (s : S).

Lemma uwp_refresh b h mp bt s (X : Z → S → Prop) : (path_index b < 4)%nat → at_state h mp bt s →
  uwp (refresh b) (λ b' s', ∃ a calls, (∀ ext, dir_in (PATHS !!! path_index b) LIST_CAPACITY (calls ++ ext) = a) ∧ Forall calm calls ∧
    listing_models b' (mk_listing (path_index b) a) ∧ at_state (h ++ calls) mp bt s') X s.
Proof.
  intros Hk Hs. unfold refresh. uwp_step. eapply (uwp_or_panic _ (PATHS !!! path_index b)); [by apply list_lookup_lookup_total_lt|].
  uwp_step. eapply uwp_read_dir; [exact Hs|]. intros [r buf] s1 Hfit Hs1.
  assert (∀ ext, dir_in (PATHS !!! path_index b) LIST_CAPACITY (mk_io (dir_call (PATHS !!! path_index b) LIST_CAPACITY) (r, buf) :: ext) =
    (λ r, take (Z.to_nat r.1) r.2) <$> listed (r, buf)) as Hdir by (intros ext; unfold dir_in; by rewrite answer_to_head).
  destruct (listed (r, buf)) as [[r' buf']|] eqn:E.
  - destruct Hfit as [Hr Hbuf]. uwp_step. eapply uwp_write; [exact Hs1|]. intros r2 s2 Hs2. uwp_step. eapply uwp_write; [exact Hs2|]. intros r3 s3 Hs3.
    uwp_step. eapply uwp_write; [exact Hs3|]. intros r4 s4 Hs4. uwp_step. rewrite <- !app_assoc in Hs4. do 2 eexists.
    split; [|split; [|split; [|exact Hs4]]]; [intros ext; cbn [app]; apply Hdir|calm_calls|].
    split; cbn; try done; [rewrite length_take; lia|unfold zlen; rewrite length_take; lia|]. rewrite length_take. f_equal. lia.
  - uwp_step. eapply uwp_write; [exact Hs1|]. intros r2 s2 Hs2. uwp_step. rewrite <- !app_assoc in Hs2. do 2 eexists.
    split; [|split; [|split; [|exact Hs2]]]; [intros ext; cbn [app]; apply Hdir|calm_calls|]. split; cbn; try done.
Qed.

Lemma key_index_known code i : key_index code = Some i → (i < 4)%nat.
Proof. unfold key_index. intros E. repeat case_match; simplify_eq; lia. Qed.

Lemma listing_handles_events : handles listing_models listing_step handle_event.
Proof.
  intros addr len e dirty b m h mp bt s He Hm Hnin Hs. unfold handle_event.
  assert (at_state (h ++ []) ((addr, len) :: mp) bt s) as Hsame by (by rewrite app_nil_r).
  destruct e as [code|x y|button pressed]; rewrite byte_at_0; [|apply uwp_ret; by exists [], m..].
  rewrite byte_at_1_key by done. change (negb (1 =? 1)) with false. cbn iota zeta. destruct (code =? KEY_ESCAPE) eqn:Eesc.
  - uwp_step. eapply uwp_write; [exact Hs|]. intros r1 s1 Hs1. uwp_step. eapply uwp_munmap; [exact Hs1|exact Hnin|]. intros r2 s2 Hs2.
    eapply uwp_exit; [exact Hs2|]. intros r3 s3 Hh Hmp. split; [done|]. split; [rewrite Hmp; destruct (r2.1 =? 0); auto|].
    rewrite <- !app_assoc in Hh. eexists. split; [|split; [|exact Hh]]; [calm_calls|]. cbn. by rewrite Eesc.
  - destruct (key_index code) as [i|] eqn:Ek; [|apply uwp_ret; exists [], m; split_and!; try done; cbn; by rewrite Eesc, Ek].
    pose proof (key_index_known _ _ Ek) as Hi.
    unfold select_into, select. cbn [snd fst]. rewrite (lm_directory _ _ Hm). uwp_step. destruct (directory m =? i)%nat eqn:Ei.
    + uwp_step. uwp_step. exists [], m. cbn [snd fst].
      rewrite orb_false_r. split_and!; try done. cbn. by rewrite Eesc, Ek, Ei.
    + uwp_step. eapply uwp_mono; [by apply (uwp_refresh _ h ((addr, len) :: mp) bt)| |intros c s' HX; exact HX]. intros b' s1 (a&calls&Ha&Hc&Hm'&Hs1).
      uwp_step. uwp_step. exists calls, (mk_listing i a). cbn [snd fst path_index] in *. split_and!; [done| |done|by rewrite orb_true_r|done].
      cbn. rewrite Eesc, Ek, Ei. specialize (Ha []). rewrite app_nil_r in Ha. by rewrite Ha.
Qed.

(** The file manager shows what the kernel answered. On any kernel that keeps
    the system call interface, the program never panics, and what it shows is
    what the history of its calls leads to: every frame offered shows at every
    pixel the directory of the last key delivered that chose another one, with
    the lines of the kernel's answer to the listing of that directory that fit
    between heading and status line, or that it is empty or unavailable; every
    turn empties the queue, and then the newest frame is current. It ends only by
    escape or when a frame is refused, and then asks for its mapping to be
    released. *)
Theorem file_manager_is_up_to_date (n : nat) s : serving s →
  uwp (rust_main n patience)
    (λ r s', ∃ info addr len l m, r = Some (info, l) ∧ drawable info ∧
       up_to_date info listing_models first_listing listing_step (listing_scene info) (history s) ((addr, len) :: maps s) n l m s')
    (λ code s', code = 1 ∧ (∃ calls, history s' = history s ++ calls ∧ Forall calm calls) ∧ maps s' = maps s ∨
       ∃ info, drawable info ∧ quits info first_listing listing_step (listing_scene info) (history s) (maps s) code s') s.
Proof.
  intros Hs. pose proof (at_self s Hs) as Hat. unfold rust_main. uwp_step. eapply uwp_write; [exact Hat|]. intros r1 s1 Hs1.
  eapply uwp_with_canvas; [exact Hs1| |].
  { intros calls s' Hc Hh Hmp. left. split; [done|]. split; [|done]. rewrite <- app_assoc in Hh. eexists. split; [exact Hh|]. calm_calls. done. }
  intros info addr len canvas calls s2 Hinfo Hc Hnodir Hmode Hnin Hlen Hs2. uwp_step.
  eapply uwp_mono; [eapply (uwp_refresh _ _ _ _ s2); [cbn; lia|exact Hs2]| |intros c s' HX; exact HX]. intros b s3 (a&calls2&Ha&Hc2&Hm&Hs3).
  rewrite <- !app_assoc in Hs3. set (log := [wrote _ r1] ++ calls ++ calls2) in Hs3.
  assert (Forall calm log) as Hcalm by (subst log; calm_calls; done).
  eapply uwp_mono; [eapply (uwp_show_and_run info listing_models first_listing listing_step (listing_scene info) handle_event (render info)
    listing_handles_events (listing_pictures info (proj1 Hinfo)) n addr len (maps s) (history s) log b); [exact Hm| |done|apply Hmode|done|done|exact Hs3]|..].
  - apply settled_start; [by apply calm_no_poll|]. intros ext. unfold first_listing. cbn [path_index] in *. rewrite <- (Ha ext). f_equal. unfold dir_in. f_equal.
    subst log. rewrite <- app_assoc. cbn [app]. rewrite answer_to_other by done. rewrite <- app_assoc. apply answer_to_skip.
    eapply Forall_impl; [exact Hnodir|]. intros c Hf E. unfold is_call in Hf. by rewrite E in Hf.
  - intros r s4 (l&m&->&Hud). by exists info, addr, len, l, m.
  - intros code s4 Hq. right. by exists info.
Qed.
End run.

(** ** A run *)

Module ManagerSample.
(** The applications are listed; the data directory is not there; the boot
    volume is empty. The answers in between are for [yield_now]. *)
Definition session : Script :=
  scripted [[KeyDown 65]; [KeyDown 100; MouseMove 3 4]; [KeyDown 66]; [KeyDown 27]]
    [(8, bs "desktop" ++ newline); (0, []); (-1, []); (0, []); (0, [])].

Lemma listing_serving : serving session.
Proof. split; [apply small_mode_drawable|]. split; [split; [simpl; lia|]|]; repeat constructor; simpl; unfold is_i16, i16_min, i16_max; lia. Qed.

Lemma file_manager_is_up_to_date_witness :
  uwp (rust_main 2 patience)
    (λ r s', ∃ info addr len l m, r = Some (info, l) ∧ drawable info ∧
       up_to_date info listing_models first_listing listing_step (listing_scene info) [] [(addr, len)] 2 l m s')
    (λ code s', code = 1 ∧ (∃ calls, log s' = [] ++ calls ∧ Forall calm calls) ∧ mapped s' = [] ∨
       ∃ info, drawable info ∧ quits info first_listing listing_step (listing_scene info) [] [] code s') session.
Proof. exact (file_manager_is_up_to_date 2 session listing_serving). Defined.

(** The key of the directory that is shown draws nothing. *)
Example listing_session_ends :
  let '(r, s) := rust_main 4 1000 session in
  r = Exits 0 ∧ length (shown s) = 3%nat ∧ mapped s = [] ∧
  output s = message (bs "file-manager: started from /apps/file-manager") ++ message (bs "file-manager: listed /apps") ++
    message (bs "file-manager: list failed") ++ message (bs "file-manager: listed /boot") ++ message (bs "file-manager: normal exit").
Proof. vm_compute. done. Qed.
End ManagerSample.
