(* ===== verification/UserTerminal.v ===== *)
(** The terminal of userland/hello: bin/terminal.rs.

    An input line of up to 96 keys, a screen of the last sixteen lines, and the
    commands ls, cat, stat, write, help and exit on the files of the kernel. The
    state and its handlers are here, with [Session], what the user sees of it:
    all lines so far and the line being typed. *)

From S2P Require Import Prelude Str Input ShellText Canvas UserLib UserScript UserApp.

Definition INPUT_CAPACITY : nat := 96.
Definition LINE_CAPACITY : nat := 96.
Definition LINE_COUNT : nat := 16.

Record Terminal := mk_terminal {
  input : list byte;
  input_len : nat;
  lines : list (list byte);
  lengths : list nat;
  count : nat
}.

Definition new_terminal : Terminal :=
  mk_terminal (replicate INPUT_CAPACITY (z2b 0)) 0 (replicate LINE_COUNT (replicate LINE_CAPACITY (z2b 0))) (replicate LINE_COUNT 0%nat) 0.

Definition with_input (keys : list byte) (len : nat) (t : Terminal) : Terminal := mk_terminal keys len (lines t) (lengths t) (count t).

(** ** Text *)

(** The two loops of [trim_ascii]. *)
Fixpoint skip_spaces (bytes : list byte) : list byte :=
  match bytes with
  | b :: rest => if decide (b = space) then skip_spaces rest else bytes
  | [] => []
  end.
Fixpoint drop_spaces (fuel : nat) (bytes : list byte) : list byte :=
  match fuel with
  | O => bytes
  | S fuel => if decide (last bytes = Some space) then drop_spaces fuel (take (length bytes - 1) bytes) else bytes
  end.
Definition trim_ascii (bytes : list byte) : list byte :=
  let bytes := skip_spaces bytes in drop_spaces (length bytes) bytes.

Definition append (bytes : list byte) (line : Line) : option Line :=
  let '(out, used) := line in
  let count := (length bytes `min` (length out - used))%nat in
  if (used + count <=? length out)%nat then Some (copy_at used (take count bytes) out, (used + count)%nat) else None.

Definition append_decimal (value : Z) (line : Line) : option Line :=
  digits ← u64_to_decimal value; append digits line.

(** ** The screen *)

Definition push_line (bytes : list byte) (t : Terminal) : option Terminal :=
  let t := if (count t =? LINE_COUNT)%nat then
             mk_terminal (input t) (input_len t) (copy_at 0 (drop 1 (lines t)) (lines t)) (copy_at 0 (drop 1 (lengths t)) (lengths t)) (count t - 1)
           else t in
  let length := (length bytes `min` LINE_CAPACITY)%nat in
  line ← lines t !! count t;
  line ← (if (length <=? List.length line)%nat then Some (copy_at 0 (take length bytes) (replicate (List.length line) (z2b 0))) else None);
  _ ← lengths t !! count t;
  Some (mk_terminal (input t) (input_len t) (<[count t := line]> (lines t)) (<[count t := length]> (lengths t)) (S (count t))).

Definition push_line_prefixed (prefix value : list byte) (t : Terminal) : option Terminal :=
  line ← append prefix (empty_line LINE_CAPACITY);
  line ← append value line;
  push_line (line_text line) t.

(** The loop of [push_multiline]. *)
Fixpoint push_lines (ls : list (list byte)) (t : Terminal) : option Terminal :=
  match ls with
  | [] => Some t
  | line :: ls => if decide (line = []) then push_lines ls t else t ← push_line line t; push_lines ls t
  end.

Definition push_multiline (bytes : list byte) (t : Terminal) : option Terminal :=
  if decide (bytes = []) then push_line (bs "(empty)") t else push_lines (split_on Str.newline bytes) t.

(** ** Commands *)

Definition HELP_TEXT : list byte := bs "ls [path] | cat <path> | write <name> <text> | stat <path> | exit".

(** [is_ascii_alphanumeric], or a dash, an underscore or a dot *)
Definition name_byte (b : byte) : bool :=
  in_range 48 57 b || in_range 65 90 b || in_range 97 122 b || (b2z b =? 45) || (b2z b =? 95) || (b2z b =? 46).

Definition DIRECTORY : list byte := bs "/data/terminal/".

Section program.
Context {S : Type} `{Ring3 S}.

Definition write_command (args : list byte) (t : Terminal) : U S Terminal :=
  match position (λ b, bool_decide (b = space)) args with
  | None => or_panic (push_line (bs "usage: write <name> <text>") t)
  | Some separator =>
      let name := take separator args in
      let text := trim_ascii (drop (separator + 1) args) in
      if bool_decide (name = []) || bool_decide (text = []) || (64 <? length name)%nat || existsb (λ b, negb (name_byte b)) name then
        or_panic (push_line (bs "error: invalid file name or empty text") t)
      else
        let path := copy_at (length DIRECTORY) name (copy_at 0 DIRECTORY (replicate 120 (z2b 0))) in
        path ← or_panic (slice_to (length DIRECTORY + length name) path);
        saved ← put_file path text;
        if saved : bool then
          t ← or_panic (push_line (bs "saved") t);
          _ ← write (bs "terminal: saved ");
          _ ← write path;
          _ ← write newline;
          mret t
        else or_panic (push_line (bs "error: write rejected") t)
  end.

Definition ls_command (path : list byte) (t : Terminal) : U S Terminal :=
  listed ← read_dir path 512;
  match listed with
  | Some (count, output) =>
      _ ← write (bs "terminal: listed ");
      _ ← write path;
      _ ← write newline;
      output ← or_panic (slice_to (Z.to_nat count) output);
      or_panic (push_multiline output t)
  | None => or_panic (push_line (bs "error: directory unavailable") t)
  end.

Definition cat_command (path : list byte) (t : Terminal) : U S Terminal :=
  read ← read_file path 512;
  match read with
  | Some (count, output) =>
      _ ← write (bs "terminal: read ");
      _ ← write path;
      _ ← write newline;
      output ← or_panic (slice_to (Z.to_nat count) output);
      or_panic (push_multiline output t)
  | None => or_panic (push_line (bs "error: file unavailable or too large") t)
  end.

Definition stat_command (path : list byte) (t : Terminal) : U S Terminal :=
  metadata ← stat path;
  match metadata with
  | Some (kind, size) =>
      line ← or_panic (
        line ← append (if kind =? 1 then bs "file size=" else bs "dir children=") (empty_line LINE_CAPACITY);
        append_decimal size line);
      or_panic (push_line (line_text line) t)
  | None => or_panic (push_line (bs "error: entry unavailable") t)
  end.

(** The chain of [submit] after [exit]. *)
Definition run_command (command : list byte) (t : Terminal) : U S Terminal :=
  if bool_decide (command = bs "help") || bool_decide (command = []) then or_panic (push_line HELP_TEXT t)
  else if bool_decide (command = bs "ls") || starts_with (bs "ls ") command then
    ls_command (if (length command =? 2)%nat then bs "/" else trim_ascii (drop 3 command)) t
  else if starts_with (bs "cat ") command then cat_command (trim_ascii (drop 4 command)) t
  else if starts_with (bs "stat ") command then stat_command (trim_ascii (drop 5 command)) t
  else if starts_with (bs "write ") command then write_command (drop 6 command) t
  else or_panic (push_line (bs "error: unknown command; type help") t).

Definition submit (t : Terminal) : U S (bool * Terminal) :=
  typed ← or_panic (slice_to (input_len t) (input t));
  let command := trim_ascii typed in
  t ← or_panic (push_line_prefixed (bs "> ") command (with_input (replicate INPUT_CAPACITY (z2b 0)) 0 t));
  _ ← write (bs "terminal: command ");
  _ ← write command;
  _ ← write newline;
  if bool_decide (command = bs "exit") then mret (true, t)
  else t ← run_command command t; mret (false, t).

(** ** Events *)

Definition leave {A} (addr mapped_len : Z) : U S A :=
  _ ← munmap addr mapped_len;
  _ ← write (message (bs "terminal: normal exit"));
  exit 0.

Definition handle_event (addr mapped_len : Z) (event : list byte) (acc : bool * Terminal) : U S (bool * Terminal) :=
  let t := acc.2 in
  if negb (b2z (event !!! 0%nat) =? 1) then mret acc
  else
    let code := b2z (event !!! 1%nat) in
    if code =? KEY_ESCAPE then leave addr mapped_len
    else if code =? KEY_ENTER then
      '(done, t) ← submit t;
      if done : bool then leave addr mapped_len else mret (true, t)
    else if code =? KEY_BACKSPACE then
      mret (if (input_len t =? 0)%nat then acc
            else (true, with_input (<[(input_len t - 1)%nat := z2b 0]> (input t)) (input_len t - 1) t))
    else if (0x20 <=? code) && (code <=? 0x7E) && (input_len t <? INPUT_CAPACITY)%nat then
      mret (true, with_input (<[input_len t := z2b code]> (input t)) (input_len t + 1) t)
    else mret acc.
End program.

(** ** Drawing *)

Definition COLOR_KEYS : color := (0xE6, 0xEA, 0xF0).
Definition COLOR_OUTPUT : color := (0xB8, 0xE8, 0xD0).

Section draw.
Context (info : GfxInfo).

(** [for index in start..count] *)
Fixpoint draw_lines (n index : nat) (y : Z) (t : Terminal) (buf : list byte) : option (list byte) :=
  match n with
  | O => Some buf
  | S n =>
      line ← lines t !! index;
      len ← lengths t !! index;
      text ← slice_to len line;
      buf ← draw_text info text 20 y COLOR_OUTPUT buf;
      draw_lines n (S index) (y + 18) t buf
  end.

Definition visible_lines (t : Terminal) : nat := (count t `min` Z.to_nat (Z.max (Z.quot (gfx_height info - 92) 18) 1))%nat.

Definition render (t : Terminal) (buf : list byte) : option (list byte) :=
  let width := gfx_width info in
  let height := gfx_height info in
  let visible := visible_lines t in
  let start := (count t - visible)%nat in
  buf ← in_order [
    fill_rect info 0 0 width height (0x08, 0x0B, 0x10);
    fill_rect info 0 0 width 36 (0x12, 0x16, 0x1D);
    fill_rect info 0 34 width 2 (0x00, 0xA8, 0x6B);
    draw_text info (bs "Tuwaiq Terminal") 16 12 COLOR_KEYS;
    draw_lines (count t - start) start 54 t;
    fill_rect info 12 (height - 32) (width - 24) 24 (0x12, 0x16, 0x1D);
    draw_text info (bs ">") 20 (height - 24) (0x00, 0xD0, 0x83)] buf;
  typed ← slice_to (input_len t) (input t);
  draw_text info typed 38 (height - 24) COLOR_KEYS buf.
End draw.

(** ** The program *)

Section main.
Context {S : Type} `{Ring3 S}.

Definition rust_main (n fuel : nat) : U S (option (GfxInfo * (list byte * Terminal))) :=
  _ ← write (message (bs "terminal: started from /apps/terminal"));
  with_canvas (λ info addr buffer_len mapped_len canvas,
    terminal ← or_panic (push_line (bs "Tuwaiq Terminal - type help") new_terminal);
    canvas ← present_or_exit (render info terminal) addr buffer_len mapped_len canvas;
    l ← app_turns n fuel (handle_event addr mapped_len) (render info) addr buffer_len mapped_len (canvas, terminal);
    mret ((λ l, (info, l)) <$> l)).
End main.

(** ** What the user sees *)

(** All lines so far, each cut to the width, and the line being typed. *)
Record Session := mk_session { transcript : list (list byte); typed : list byte }.

(** A file the terminal may be asked to write. *)
Definition safe_name (name : list byte) : Prop := name ≠ [] ∧ (length name ≤ 64)%nat ∧ Forall (λ b, name_byte b = true) name.
#[global] Instance safe_name_dec name : Decision (safe_name name).
Proof. unfold safe_name. apply _. Defined.

Inductive Request := NoText | Refused | Save (name text : list byte).
Definition save_request (args : list byte) : Request :=
  match position (λ b, bool_decide (b = space)) args with
  | None => NoText
  | Some i =>
      let name := take i args in
      let text := trim_ascii (drop (i + 1) args) in
      if decide (safe_name name ∧ text ≠ []) then Save name text else Refused
  end.

Inductive Command := Help | Exit | Ls (path : list byte) | Cat (path : list byte) | Stat (path : list byte) | Write (args : list byte) | Unknown.
Definition parse_command (c : list byte) : Command :=
  if decide (c = bs "exit") then Exit
  else if decide (c = bs "help" ∨ c = []) then Help
  else if decide (c = bs "ls") then Ls (bs "/")
  else match strip_prefix (bs "ls ") c with
  | Some rest => Ls (trim_ascii rest)
  | None =>
  match strip_prefix (bs "cat ") c with
  | Some rest => Cat (trim_ascii rest)
  | None =>
  match strip_prefix (bs "stat ") c with
  | Some rest => Stat (trim_ascii rest)
  | None =>
  match strip_prefix (bs "write ") c with
  | Some rest => Write rest
  | None => Unknown
  end end end end.

Definition lines_of (text : list byte) : list (list byte) :=
  if decide (text = []) then [bs "(empty)"] else filter (λ line, line ≠ []) (split_on Str.newline text).

(** What a command says, given the calls it made and the kernel's answers: each
    command asks about its own path, and shows the answer to that. *)
Definition answer_lines (calls : list io) (c : Command) : list (list byte) :=
  match c with
  | Help => [HELP_TEXT]
  | Exit => []
  | Ls path => match dir_in path 512 calls with Some t => lines_of t | None => [bs "error: directory unavailable"] end
  | Cat path =>
      match file_in path 512 calls with
      | Some (n, buf) => lines_of (take (Z.to_nat n) buf)
      | None => [bs "error: file unavailable or too large"]
      end
  | Stat path =>
      match stat_in path calls with
      | Some (kind, size) => [(if kind =? 1 then bs "file size=" else bs "dir children=") ++ decimal size]
      | None => [bs "error: entry unavailable"]
      end
  | Write args =>
      match save_request args with
      | NoText => [bs "usage: write <name> <text>"]
      | Refused => [bs "error: invalid file name or empty text"]
      | Save name text => [if put_in (DIRECTORY ++ name) text calls then bs "saved" else bs "error: write rejected"]
      end
  | Unknown => [bs "error: unknown command; type help"]
  end.

Definition cut (line : list byte) : list byte := take LINE_CAPACITY line.
Definition say (new : list (list byte)) (m : Session) : Session := mk_session (transcript m ++ (cut <$> new)) (typed m).

(** One event, with the calls that the command it may run makes. [None]: the
    program ends. *)
Definition session_step (e : InputEvent) (calls : list io) (m : Session) : option Session :=
  match e with
  | KeyDown code =>
      if code =? KEY_ESCAPE then None
      else if code =? KEY_ENTER then
        let c := trim_ascii (typed m) in
        if decide (c = bs "exit") then None
        else Some (say ((bs "> " ++ c) :: answer_lines calls (parse_command c)) (mk_session (transcript m) []))
      else if code =? KEY_BACKSPACE then Some (mk_session (transcript m) (take (length (typed m) - 1) (typed m)))
      else if (0x20 <=? code) && (code <=? 0x7E) && (length (typed m) <? INPUT_CAPACITY)%nat then
        Some (mk_session (transcript m) (typed m ++ [z2b code]))
      else Some m
  | _ => Some m
  end.

Definition first_session : Session := mk_session [bs "Tuwaiq Terminal - type help"] [].

(** ** The state keeps its model *)

(** The texts in the arrays, the oldest first: the last sixteen lines. *)
Definition on_screen_lines (t : Terminal) : list (list byte) := take (count t) (zip_with take (lengths t) (lines t)).

Record screen_ok (t : Terminal) (said : list (list byte)) : Prop := {
  so_lines : length (lines t) = LINE_COUNT;
  so_width : Forall (λ line, length line = LINE_CAPACITY) (lines t);
  so_lengths : length (lengths t) = LINE_COUNT;
  so_short : Forall (λ n, (n ≤ LINE_CAPACITY)%nat) (lengths t);
  so_count : count t = (length said `min` LINE_COUNT)%nat;
  so_texts : on_screen_lines t = drop (length said - LINE_COUNT) said
}.

Record keys_ok (t : Terminal) (keys : list byte) : Prop := {
  ko_room : length (input t) = INPUT_CAPACITY;
  ko_length : input_len t = length keys;
  ko_keys : take (input_len t) (input t) = keys
}.

Definition session_models (t : Terminal) (m : Session) : Prop := screen_ok t (transcript m) ∧ keys_ok t (typed m).

Lemma copy_at_shift {A} (l : list A) : copy_at 0 (drop 1 l) l = drop 1 l ++ drop (length l - 1) l.
Proof. unfold copy_at. by rewrite length_drop. Qed.

Lemma insert_middle {A} (l : list A) i x : (i < length l)%nat → take (S i) (<[i := x]> l) = take i l ++ [x].
Proof.
  intros Hi. rewrite (take_S_r _ _ x) by (by apply list_lookup_insert_eq). by rewrite take_insert_ge.
Qed.

Lemma zip_take_insert i n line (ns : list nat) (ls : list (list byte)) :
  zip_with take (<[i := n]> ns) (<[i := line]> ls) = <[i := take n line]> (zip_with take ns ls).
Proof. revert ns ls. induction i as [|i IH]; intros [|k ns] [|l ls]; cbn; try done; f_equal; apply IH. Qed.

Lemma zip_take_drop i (ns : list nat) (ls : list (list byte)) :
  zip_with take (drop i ns) (drop i ls) = drop i (zip_with take ns ls).
Proof. revert ns ls. induction i as [|i IH]; intros [|k ns] [|l ls]; cbn; try done; try apply IH. by destruct (drop i ns). Qed.

(** Where a line goes: into a free row of a screen with room. *)
Lemma store_line t said bytes : screen_ok t said → (count t < LINE_COUNT)%nat →
  screen_ok (mk_terminal (input t) (input_len t)
      (<[count t := copy_at 0 (take (length bytes `min` LINE_CAPACITY) bytes) (replicate LINE_CAPACITY (z2b 0))]> (lines t))
      (<[count t := (length bytes `min` LINE_CAPACITY)%nat]> (lengths t)) (S (count t))) (said ++ [cut bytes]).
Proof.
  intros [Hls Hw Hns Hsh Hc Ht] Hlt. set (n := (length bytes `min` LINE_CAPACITY)%nat).
  assert (length (take n bytes) = n) as Hn by (rewrite length_take; lia).
  assert (take n bytes = cut bytes) as Hcut.
  { unfold cut, n. destruct (decide (length bytes ≤ LINE_CAPACITY)%nat); [rewrite !take_ge by lia; done|f_equal; lia]. }
  split; cbn [lines lengths count].
  - by rewrite length_insert.
  - apply Forall_insert; [done|]. rewrite length_copy_at; rewrite ?length_replicate; lia.
  - by rewrite length_insert.
  - apply Forall_insert; [done|lia].
  - rewrite length_app. cbn [length]. lia.
  - unfold on_screen_lines in *. cbn [lines lengths count]. rewrite zip_take_insert, insert_middle by (rewrite length_zip_with; lia).
    rewrite Ht, length_app. replace (length said + length [cut bytes] - LINE_COUNT)%nat with 0%nat by (cbn [length]; lia).
    replace (length said - LINE_COUNT)%nat with 0%nat by lia. rewrite !drop_0. f_equal. unfold copy_at. rewrite take_0, app_nil_l.
    rewrite take_app_le, take_ge by lia. by rewrite Hcut.
Qed.

(** A full screen loses its first line. *)
Lemma scroll_line t said : screen_ok t said → count t = LINE_COUNT →
  screen_ok (mk_terminal (input t) (input_len t) (copy_at 0 (drop 1 (lines t)) (lines t)) (copy_at 0 (drop 1 (lengths t)) (lengths t)) (count t - 1))
    (drop (S (length said - LINE_COUNT)) said).
Proof.
  intros [Hls Hw Hns Hsh Hc Ht] Hfull. rewrite !copy_at_shift, Hls, Hns. split; cbn [lines lengths count].
  - rewrite length_app, !length_drop, Hls. done.
  - by apply Forall_app_2; apply Forall_drop.
  - rewrite length_app, !length_drop, Hns. done.
  - by apply Forall_app_2; apply Forall_drop.
  - rewrite length_drop, Hfull. unfold LINE_COUNT in *. lia.
  - rewrite length_drop. replace (length said - S (length said - LINE_COUNT) - LINE_COUNT)%nat with 0%nat by lia. rewrite drop_0.
    replace (drop (S (length said - LINE_COUNT)) said) with (drop 1 (drop (length said - LINE_COUNT) said)) by (rewrite drop_drop; f_equal; lia).
    rewrite <- Ht. unfold on_screen_lines. cbn [lines lengths count]. rewrite Hfull.
    rewrite zip_with_app by (rewrite !length_drop; lia). rewrite !zip_take_drop.
    assert (length (zip_with take (lengths t) (lines t)) = LINE_COUNT) as Hz by (rewrite length_zip_with; lia).
    rewrite (take_ge (zip_with _ _ _) LINE_COUNT) by lia. rewrite take_app_le, take_ge by (rewrite length_drop, Hz; done). done.
Qed.

Lemma push_line_ok bytes t said : screen_ok t said →
  ∃ t', push_line bytes t = Some t' ∧ screen_ok t' (said ++ [cut bytes]) ∧ input t' = input t ∧ input_len t' = input_len t.
Proof.
  intros Hok. unfold push_line.
  assert (∀ t1 said1, screen_ok t1 said1 → (count t1 < LINE_COUNT)%nat → ∃ t',
    (line ← lines t1 !! count t1;
     line ← (if (length bytes `min` LINE_CAPACITY <=? length line)%nat
             then Some (copy_at 0 (take (length bytes `min` LINE_CAPACITY) bytes) (replicate (length line) (z2b 0))) else None);
     _ ← lengths t1 !! count t1;
     Some (mk_terminal (input t1) (input_len t1) (<[count t1 := line]> (lines t1)) (<[count t1 := (length bytes `min` LINE_CAPACITY)%nat]> (lengths t1)) (S (count t1)))) = Some t'
    ∧ screen_ok t' (said1 ++ [cut bytes]) ∧ input t' = input t1 ∧ input_len t' = input_len t1) as Hstore.
  { intros t1 said1 Hok1 Hlt. pose proof (store_line t1 said1 bytes Hok1 Hlt) as Hs. destruct Hok1 as [Hls Hw Hns _ _ _].
    destruct (lookup_lt_is_Some_2 (lines t1) (count t1)) as [line Hl]; [lia|]. rewrite Hl. cbn [mbind option_bind].
    rewrite (Forall_lookup_1 _ _ _ _ Hw Hl). rewrite (proj2 (Nat.leb_le _ _)) by lia. cbn [mbind option_bind].
    destruct (lookup_lt_is_Some_2 (lengths t1) (count t1)) as [k Hk]; [lia|]. rewrite Hk. cbn [mbind option_bind]. eexists. by split_and!. }
  destruct (Nat.eqb_spec (count t) LINE_COUNT) as [Hfull|Hroom].
  - destruct (Hstore _ _ (scroll_line t said Hok Hfull)) as (t'&E&Hok'&?&?); [cbn; rewrite Hfull; unfold LINE_COUNT; lia|].
    exists t'. split_and!; try done. destruct Hok' as [? ? ? ? Hc Ht]. pose proof (so_count _ _ Hok) as Hc0. rewrite Hfull in Hc0.
    rewrite length_app, length_drop in Hc, Ht. cbn [length] in Hc, Ht. split; try done.
    + rewrite length_app. cbn [length]. unfold LINE_COUNT in *. lia.
    + rewrite Ht, length_app. cbn [length]. rewrite !drop_app. rewrite drop_drop, length_drop. f_equal; f_equal; unfold LINE_COUNT in *; lia.
  - apply Hstore; [done|]. pose proof (so_count _ _ Hok). unfold LINE_COUNT in *. lia.
Qed.

(** The other ways lines are pushed; [pushes] says which lines are new. *)
Definition pushes (f : Terminal → option Terminal) (new : list (list byte)) : Prop :=
  ∀ t said, screen_ok t said →
    ∃ t', f t = Some t' ∧ screen_ok t' (said ++ (cut <$> new)) ∧ input t' = input t ∧ input_len t' = input_len t.

Lemma push_line_pushes bytes : pushes (push_line bytes) [bytes].
Proof. intros t said Hok. by apply push_line_ok. Qed.

Lemma pushes_then f g l k : pushes f l → pushes g k → pushes (λ t, t ← f t; g t) (l ++ k).
Proof.
  intros Hf Hg t said Hok. destruct (Hf t said Hok) as (t1&->&Hok1&Hi1&Hn1). destruct (Hg t1 _ Hok1) as (t2&E&Hok2&Hi2&Hn2).
  exists t2. split_and!; [done| |congruence|congruence]. by rewrite fmap_app, app_assoc.
Qed.

Lemma push_lines_pushes ls : pushes (push_lines ls) (filter (λ line, line ≠ []) ls).
Proof.
  induction ls as [|line ls IH]; cbn [push_lines].
  - intros t said Hok. exists t. cbn. by rewrite app_nil_r.
  - rewrite filter_cons. destruct (decide (line = [])) as [->|Hne]; cbn [decide].
    + by destruct (decide ([] ≠ [])).
    + destruct (decide (line ≠ [])); [|done]. apply (pushes_then _ _ [line]); [apply push_line_pushes|done].
Qed.

Lemma push_multiline_pushes text : pushes (push_multiline text) (lines_of text).
Proof. unfold push_multiline, lines_of. destruct (decide _); [apply push_line_pushes|apply push_lines_pushes]. Qed.

Lemma append_cuts cap text bytes line : line_holds cap text line →
  ∃ line', append bytes line = Some line' ∧ line_holds cap (take cap (text ++ bytes)) line'.
Proof. apply append_bytes_cuts. Qed.

Lemma push_prefixed_pushes prefix value : pushes (push_line_prefixed prefix value) [prefix ++ value].
Proof.
  unfold push_line_prefixed. destruct (append_cuts LINE_CAPACITY [] prefix _ (empty_line_holds _)) as (l1&->&H1). cbn [mbind option_bind].
  destruct (append_cuts _ _ value _ H1) as (l2&->&(_&_&Hl2)). cbn [mbind option_bind].
  rewrite Hl2. cbn [app].
  assert (cut (take LINE_CAPACITY (take LINE_CAPACITY prefix ++ value)) = cut (prefix ++ value)) as E.
  { unfold cut. rewrite take_take, Nat.min_id. destruct (decide (length prefix ≤ LINE_CAPACITY)%nat).
    - by rewrite (take_ge prefix) by done.
    - rewrite !take_app_le by (rewrite ?length_take; lia). rewrite take_take. f_equal; lia. }
  intros t said Hok. destruct (push_line_pushes (take LINE_CAPACITY (take LINE_CAPACITY prefix ++ value)) t said Hok) as (t'&?&Hok'&?).
  exists t'. split; [done|]. split; [|done]. cbn [fmap list_fmap] in *. by rewrite <- E.
Qed.

(** ** Text *)

Lemma length_skip_spaces l : (length (skip_spaces l) ≤ length l)%nat.
Proof. induction l as [|b l IH]; [done|]. cbn. destruct (decide _); cbn [length]; lia. Qed.

Lemma length_drop_spaces n l : (length (drop_spaces n l) ≤ length l)%nat.
Proof.
  revert l. induction n as [|n IH]; intros l; [done|]. cbn [drop_spaces]. destruct (decide _); [|done].
  pose proof (IH (take (length l - 1) l)) as Hl. rewrite length_take in Hl. lia.
Qed.

Lemma length_trim_ascii l : (length (trim_ascii l) ≤ length l)%nat.
Proof. unfold trim_ascii. pose proof (length_drop_spaces (length (skip_spaces l)) (skip_spaces l)). pose proof (length_skip_spaces l). lia. Qed.

(** What is left has no space at its ends. *)
Lemma skip_spaces_head l : head (skip_spaces l) ≠ Some space.
Proof. induction l as [|b l IH]; [done|]. cbn. destruct (decide _); [done|]. cbn. congruence. Qed.

Lemma drop_spaces_spec n l : (length l ≤ n)%nat →
  last (drop_spaces n l) ≠ Some space ∧ (drop_spaces n l ≠ [] → head (drop_spaces n l) = head l).
Proof.
  revert l. induction n as [|n IH]; intros l Hn.
  { destruct l; [done|cbn in Hn; lia]. }
  cbn [drop_spaces]. destruct (decide (last l = Some space)) as [Hl|]; [|done].
  assert (length l ≠ 0%nat) as Hne by (destruct l; done).
  destruct (IH (take (length l - 1) l)) as [Hlast Hhead]; [rewrite length_take; lia|]. split; [done|].
  intros Hd. rewrite (Hhead Hd). destruct l as [|b [|c l]]; cbn in *; try done. by destruct n.
Qed.

Lemma trim_ascii_ends l : head (trim_ascii l) ≠ Some space ∧ last (trim_ascii l) ≠ Some space.
Proof.
  unfold trim_ascii. destruct (drop_spaces_spec (length (skip_spaces l)) (skip_spaces l)) as [Hlast Hhead]; [done|]. split; [|done].
  destruct (decide (drop_spaces (length (skip_spaces l)) (skip_spaces l) = [])) as [->|Hne]; [done|]. rewrite Hhead by done. apply skip_spaces_head.
Qed.
