(* ===== verification/UserTerminalRun.v ===== *)
(** The terminal as a whole: its drawing against the picture of the session, its
    handlers against the model, and what it shows and does on any kernel that
    keeps the system call interface. *)

From S2P Require Import Prelude Str Input ShellText Canvas UserLib UserScript UserApp UserTerminal.

(** ** The picture *)

(** As many of the last lines as fit, sixteen at most. *)
Definition last_lines (info : GfxInfo) (said : list (list byte)) : list (list byte) :=
  drop (length said - (LINE_COUNT `min` Z.to_nat (Z.max (Z.quot (gfx_height info - 92) 18) 1))) said.

Definition session_scene (info : GfxInfo) (m : Session) : layer :=
  let width := gfx_width info in
  let height := gfx_height info in
  layers [
    text (typed m) 38 (height - 24) COLOR_KEYS;
    text (bs ">") 20 (height - 24) (0x00, 0xD0, 0x83);
    box 12 (height - 32) (width - 24) 24 (0x12, 0x16, 0x1D);
    column 20 54 COLOR_OUTPUT (last_lines info (transcript m));
    text (bs "Tuwaiq Terminal") 16 12 COLOR_KEYS;
    box 0 34 width 2 (0x00, 0xA8, 0x6B);
    box 0 0 width 36 (0x12, 0x16, 0x1D);
    box 0 0 width height (0x08, 0x0B, 0x10)].

Section shows.
Context (info : GfxInfo) (Hok : gfx_ok info).

Lemma row_texts t said i : screen_ok t said → (i < count t)%nat →
  ∃ line len, lines t !! i = Some line ∧ lengths t !! i = Some len ∧ slice_to len line = Some (take len line) ∧
    drop i (on_screen_lines t) = take len line :: drop (S i) (on_screen_lines t).
Proof using.
  intros [Hls Hw Hns Hsh Hc _] Hi. destruct (lookup_lt_is_Some_2 (lines t) i) as [line Hl]; [lia|].
  destruct (lookup_lt_is_Some_2 (lengths t) i) as [len Hn]; [lia|]. exists line, len. split_and!; [done|done| |].
  - unfold slice_to. rewrite (Forall_lookup_1 _ _ _ _ Hw Hl). by rewrite (proj2 (Nat.leb_le _ _)) by (apply (Forall_lookup_1 _ _ _ _ Hsh Hn)).
  - apply drop_S. unfold on_screen_lines. rewrite lookup_take_lt by done. rewrite lookup_zip_with, Hn. cbn. by rewrite Hl.
Qed.

Lemma draw_lines_draws t said n i y : screen_ok t said → (i + n = count t)%nat →
  draws info (draw_lines info n i y t) (column 20 y COLOR_OUTPUT (drop i (on_screen_lines t))).
Proof using Hok.
  intros Ht. revert i y. induction n as [|n IH]; intros i y Hi; cbn [draw_lines].
  - rewrite drop_ge; [apply draws_nothing|]. unfold on_screen_lines. rewrite length_take. lia.
  - destruct (row_texts t said i Ht) as (line&len&Hl&Hn&Hs&->); [lia|]. rewrite Hl, Hn. cbn [mbind option_bind]. rewrite Hs. cbn [mbind option_bind].
    eapply draws_ext; [apply draws_then; [by apply (text_draws info Hok)|apply IH; lia]|]. intros px py _. by rewrite column_cons.
Qed.

Lemma last_lines_shown t said : screen_ok t said →
  drop (count t - visible_lines info t) (on_screen_lines t) = last_lines info said.
Proof using.
  intros [_ _ _ _ Hc Ht]. rewrite Ht, drop_drop. unfold last_lines, visible_lines. set (k := Z.to_nat _). rewrite Hc. f_equal. unfold LINE_COUNT. lia.
Qed.

Lemma terminal_draws t m : session_models t m → draws info (render info t) (session_scene info m).
Proof using Hok.
  intros [Hs [Hroom Hlen Hkeys]]. unfold session_scene.
  assert (slice_to (input_len t) (input t) = Some (typed m)) as Hslice.
  { assert (length (typed m) ≤ length (input t))%nat by (rewrite <- Hkeys at 1; rewrite length_take; lia).
    unfold slice_to. rewrite (proj2 (Nat.leb_le _ _)) by lia. by rewrite Hkeys. }
  unfold render. cbv zeta.
  eapply (draws_ext _ _ (over (text (typed m) 38 (gfx_height info - 24) COLOR_KEYS) (layers [
    text (bs ">") 20 (gfx_height info - 24) (0x00, 0xD0, 0x83);
    box 12 (gfx_height info - 32) (gfx_width info - 24) 24 (0x12, 0x16, 0x1D);
    column 20 54 COLOR_OUTPUT (last_lines info (transcript m));
    text (bs "Tuwaiq Terminal") 16 12 COLOR_KEYS;
    box 0 34 (gfx_width info) 2 (0x00, 0xA8, 0x6B);
    box 0 0 (gfx_width info) 36 (0x12, 0x16, 0x1D);
    box 0 0 (gfx_width info) (gfx_height info) (0x08, 0x0B, 0x10)]))); [|done].
  apply draws_then.
  - pieces. rewrite <- (last_lines_shown t) by done. apply (draw_lines_draws t (transcript m)); [done|]. unfold visible_lines. lia.
  - rewrite Hslice. by apply (text_draws info Hok).
Qed.

Lemma terminal_pictures : pictures info session_models (session_scene info) (render info).
Proof using Hok.
  intros t m canvas Hm Hlen. apply draws_displays; [by apply terminal_draws| |done]. intros x y Hv.
  apply (backdrop_covers info [_; _; _; _; _; _; _] (0x08, 0x0B, 0x10) x y Hv).
Qed.
End shows.

(** ** The handlers *)

Lemma starts_with_strip p c : starts_with p c = true → strip_prefix p c = Some (drop (length p) c).
Proof. intros (t&->)%starts_with_true. by rewrite strip_prefix_app, drop_app_length. Qed.

Lemma starts_with_no_strip p c : starts_with p c = false → strip_prefix p c = None.
Proof. unfold starts_with. by destruct (strip_prefix p c). Qed.

Lemma name_refused (name text : list byte) :
  bool_decide (name = []) || bool_decide (text = []) || (64 <? length name)%nat || existsb (λ b, negb (name_byte b)) name = false ↔ safe_name name ∧ text ≠ [].
Proof.
  unfold safe_name. rewrite !orb_false_iff, !bool_decide_eq_false, Nat.ltb_ge, Forall_forall.
  assert (existsb (λ b, negb (name_byte b)) name = false ↔ ∀ b, b ∈ name → name_byte b = true) as ->; [|naive_solver].
  rewrite <- not_true_iff_false, existsb_exists. setoid_rewrite <- list_elem_of_In. setoid_rewrite negb_true_iff. split.
  - intros Hn b Hb. destruct (name_byte b) eqn:E; [done|]. exfalso. eauto.
  - intros Hn (b&Hb&E). by rewrite Hn in E.
Qed.

(** The path put together in the array of 120 bytes. *)
Lemma file_path name : (length name ≤ 64)%nat →
  slice_to (length DIRECTORY + length name) (copy_at (length DIRECTORY) name (copy_at 0 DIRECTORY (replicate 120 (z2b 0)))) = Some (DIRECTORY ++ name).
Proof.
  intros Hn. change (length DIRECTORY) with 15%nat. unfold slice_to.
  assert (length (copy_at 0 DIRECTORY (replicate 120 (z2b 0))) = 120%nat) as Hl by done.
  rewrite (proj2 (Nat.leb_le _ _)) by (rewrite length_copy_at; rewrite ?Hl; lia). f_equal. unfold copy_at at 1.
  rewrite app_assoc, take_app_le by (rewrite length_app, length_take, Hl; lia). change (take 15 (copy_at 0 DIRECTORY (replicate 120 (z2b 0)))) with DIRECTORY.
  apply take_ge. by rewrite length_app.
Qed.

Section run.
Context {S : Type} `{Ring3Spec S}.
Implicit Types (s : S) (t : Terminal).

(** What a handler leaves: new lines on the screen and the keys as they were. *)
Record said_more (p : list (list byte)) (h : list io) (mp : list (Z * Z)) (bt : list InputEvent) t t' s : Prop := {
  sm_screen : screen_ok t' p;
  sm_input : input t' = input t;
  sm_input_len : input_len t' = input_len t;
  sm_state : at_state h mp bt s
}.

Lemma uwp_push g new said h mp bt t s X : pushes g new → screen_ok t said → at_state h mp bt s →
  uwp (or_panic (g t)) (λ t' s', s' = s ∧ said_more (said ++ (cut <$> new)) h mp bt t t' s') X s.
Proof. intros Hg Hok Hs. destruct (Hg t said Hok) as (t'&E&Hok'&Hi&Hn). by eapply uwp_or_panic. Qed.

(** The calls of a command, and the lines it shows for their answers; what was
    written before makes no difference. *)
Definition asks (c : Command) (calls : list io) (new : list (list byte)) : Prop :=
  Forall calm calls ∧ ∀ pre, Forall (λ d, is_call SYS_WRITE d = true) pre → answer_lines (pre ++ calls) c = new.

(** The outcome of a command. *)
Definition answered (c : Command) (said : list (list byte)) (h : list io) mp bt t t' s : Prop :=
  ∃ calls new, asks c calls new ∧ said_more (said ++ (cut <$> new)) (h ++ calls) mp bt t t' s.

(** Lines that answer. *)
Lemma uwp_answer calls new c g said h mp bt t s X : asks c calls new → pushes g new → screen_ok t said → at_state (h ++ calls) mp bt s →
  uwp (or_panic (g t)) (λ t' s', answered c said h mp bt t t' s') X s.
Proof. intros Hr Hg Hok Hs. eapply uwp_mono; [by eapply uwp_push| |intros ? ? HX; exact HX]. intros t' s' [_ Hm]. by exists calls, new. Qed.

Lemma slice_to_fits r buf : 0 <= r <= 512 → length buf = 512%nat →
  slice_to (Z.to_nat r) buf = Some (take (Z.to_nat r) buf) ∧ (length (take (Z.to_nat r) buf) ≤ 512)%nat.
Proof. intros Hr Hl. unfold slice_to. rewrite (proj2 (Nat.leb_le _ _)) by lia. split; [done|]. rewrite length_take. lia. Qed.

Lemma uwp_ls path said h mp bt t s X : screen_ok t said → at_state h mp bt s →
  uwp (ls_command path t) (λ t' s', answered (Ls path) said h mp bt t t' s') X s.
Proof.
  intros Hok Hs. unfold ls_command. uwp_step. eapply uwp_read_dir; [exact Hs|]. intros [r buf] s1 Hfit Hs1.
  assert (∀ ext, Forall calm ext → asks (Ls path) (mk_io (dir_call path 512) (r, buf) :: ext)
    (match listed (r, buf) with Some (r, buf) => lines_of (take (Z.to_nat r) buf) | None => [bs "error: directory unavailable"] end)) as Hask.
  { intros ext He. split; [by constructor|]. intros pre Hpre. cbn [answer_lines]. rewrite dir_in_said by done. unfold dir_in. rewrite answer_to_head.
    cbn [mbind option_bind]. by destruct (listed (r, buf)) as [[??]|]. }
  destruct (listed (r, buf)) as [[r' buf']|].
  - destruct Hfit as [Hr Hl]. destruct (slice_to_fits r' buf' Hr Hl) as [E _].
    uwp_step. eapply uwp_write; [exact Hs1|]. intros r2 s2 Hs2. uwp_step. eapply uwp_write; [exact Hs2|]. intros r3 s3 Hs3.
    uwp_step. eapply uwp_write; [exact Hs3|]. intros r4 s4 Hs4. uwp_step. eapply uwp_or_panic; [exact E|].
    rewrite <- !app_assoc in Hs4. eapply uwp_answer; [|apply push_multiline_pushes|done|exact Hs4]. cbn [app]. apply Hask. calm_calls.
  - eapply uwp_answer; [|apply push_line_pushes|done|exact Hs1]. by apply Hask.
Qed.

Lemma uwp_cat path said h mp bt t s X : screen_ok t said → at_state h mp bt s →
  uwp (cat_command path t) (λ t' s', answered (Cat path) said h mp bt t t' s') X s.
Proof.
  intros Hok Hs. unfold cat_command. uwp_step. eapply uwp_read_file; [exact Hs|]. intros a calls s1 Hfit Hc Ha Hs1.
  assert (Forall calm calls) as Hcalm.
  { eapply Forall_impl; [exact Hc|]. intros c Hin. unfold calm, no_poll, no_present, is_call.
    repeat (apply elem_of_cons in Hin as [->|Hin]; [done|]). by apply elem_of_nil in Hin. }
  assert (∀ ext, Forall calm ext → asks (Cat path) (calls ++ ext)
    (match a with Some (r, buf) => lines_of (take (Z.to_nat r) buf) | None => [bs "error: file unavailable or too large"] end)) as Hask.
  { intros ext He. split; [by apply Forall_app_2|]. intros pre Hpre. cbn [answer_lines]. by rewrite file_in_said, Ha. }
  destruct a as [[r buf]|].
  - destruct Hfit as [Hr Hl]. destruct (slice_to_fits r buf Hr Hl) as [E _].
    uwp_step. eapply uwp_write; [exact Hs1|]. intros r2 s2 Hs2. uwp_step. eapply uwp_write; [exact Hs2|]. intros r3 s3 Hs3.
    uwp_step. eapply uwp_write; [exact Hs3|]. intros r4 s4 Hs4. uwp_step. eapply uwp_or_panic; [exact E|].
    rewrite <- !app_assoc in Hs4. eapply uwp_answer; [|apply push_multiline_pushes|done|exact Hs4]. apply Hask. calm_calls.
  - eapply (uwp_answer calls); [|apply push_line_pushes|done|exact Hs1]. rewrite <- (app_nil_r calls). by apply Hask.
Qed.

Lemma uwp_stat_command path said h mp bt t s X : screen_ok t said → at_state h mp bt s →
  uwp (stat_command path t) (λ t' s', answered (Stat path) said h mp bt t t' s') X s.
Proof.
  intros Hok Hs. unfold stat_command. uwp_step. eapply uwp_stat; [exact Hs|]. intros r s1 Hs1.
  assert (asks (Stat path) [mk_io (stat_call path) r]
    (match stat_in path [mk_io (stat_call path) r] with
     | Some (kind, size) => [(if kind =? 1 then bs "file size=" else bs "dir children=") ++ decimal size]
     | None => [bs "error: entry unavailable"] end)) as Hask.
  { split; [calm_calls|]. intros pre Hpre. cbn [answer_lines]. by rewrite stat_in_said. }
  destruct (stat_in path _) as [[kind size]|] eqn:Estat; [|eapply uwp_answer; [exact Hask|apply push_line_pushes|done|exact Hs1]].
  assert (is_u64 size) as Hsize.
  { unfold stat_in in Estat. rewrite answer_to_head in Estat. destruct r as [r record]. cbn [mbind option_bind] in Estat. destruct (r =? 0); [|done]. injection Estat as _ <-.
    pose proof (le_decode_slice record 8 16 8 ltac:(lia)) as Hl. unfold is_u64, u64_max. change (8 * Z.of_nat 8) with 64 in Hl. lia. }
  destruct (decimal_spec size Hsize) as (_&Hshort&_). set (label := if kind =? 1 then bs "file size=" else bs "dir children=") in *.
  assert (length label ≤ 13)%nat as Hlabel by (unfold label; destruct (kind =? 1); cbn; lia).
  destruct (append_bytes_holds LINE_CAPACITY [] label _ (empty_line_holds _)) as (l1&E1&H1); [unfold LINE_CAPACITY; cbn [length]; lia|].
  destruct (append_u64_holds LINE_CAPACITY label size l1 Hsize H1) as (l2&E2&(_&_&H2)); [unfold LINE_CAPACITY; lia|].
  change (append label) with (append_bytes label). change (append_decimal size) with (append_u64 size).
  uwp_step. eapply (uwp_or_panic _ l2); [by rewrite E1|]. rewrite H2.
  eapply uwp_answer; [exact Hask|apply push_line_pushes|done|exact Hs1].
Qed.

Lemma uwp_write_command args said h mp bt t s X : screen_ok t said → at_state h mp bt s →
  uwp (write_command args t) (λ t' s', answered (Write args) said h mp bt t t' s') X s.
Proof.
  intros Hok Hs. unfold write_command.
  assert (∀ line, (∀ calls, answer_lines calls (Write args) = [line]) →
    uwp (or_panic (push_line line t)) (λ t' s', answered (Write args) said h mp bt t t' s') X s) as Hline.
  { intros line E. eapply (uwp_answer [] [line]); [split; [done|by intros]|apply push_line_pushes|done|by rewrite app_nil_r]. }
  destruct (position _ args) as [i|] eqn:Ei; [|apply Hline; intros calls; cbn; unfold save_request; by rewrite Ei].
  destruct (_ || _) eqn:Erefused.
  - apply Hline. intros calls. cbn. unfold save_request. rewrite Ei. rewrite decide_False; [done|]. intros Hsafe. apply (proj2 (name_refused _ _)) in Hsafe. congruence.
  - pose proof (proj1 (name_refused _ _) Erefused) as Hsafe. pose proof Hsafe as ((_&Hshort&_)&_).
    assert (save_request args = Save (take i args) (trim_ascii (drop (i + 1) args))) as Hreq by (unfold save_request; rewrite Ei; by rewrite decide_True).
    uwp_step. eapply uwp_or_panic; [by apply file_path|]. uwp_step. eapply uwp_put_file; [exact Hs|]. intros r s1 Hs1.
    set (path := DIRECTORY ++ take i args) in *. set (text := trim_ascii (drop (i + 1) args)) in *.
    assert (∀ ext, Forall calm ext → asks (Write args) (mk_io (put_call path text) r :: ext) [if r.1 =? 0 then bs "saved" else bs "error: write rejected"]) as Hask.
    { intros ext He. split; [by constructor|]. intros pre Hpre. cbn [answer_lines]. rewrite Hreq, put_in_said by done. unfold put_in. by rewrite answer_to_head. }
    destruct (r.1 =? 0).
    + uwp_step. eapply uwp_mono; [by eapply (uwp_push (push_line (bs "saved"))); [apply push_line_pushes|exact Hok|exact Hs1]| |intros ? ? HX; exact HX].
      intros t' s2 [-> [Hscreen Hi Hn Hs2]]. uwp_step. eapply uwp_write; [exact Hs2|]. intros r3 s3 Hs3. uwp_step. eapply uwp_write; [exact Hs3|]. intros r4 s4 Hs4.
      uwp_step. eapply uwp_write; [exact Hs4|]. intros r5 s5 Hs5. uwp_step. rewrite <- !app_assoc in Hs5. eexists _, _.
      split; [|by split; [exact Hscreen| | |exact Hs5]]. cbn [app]. apply Hask. calm_calls.
    + eapply uwp_answer; [by apply Hask|apply push_line_pushes|done|exact Hs1].
Qed.

Lemma uwp_run_command c said h mp bt t s X : c ≠ bs "exit" → screen_ok t said → at_state h mp bt s →
  uwp (run_command c t) (λ t' s', answered (parse_command c) said h mp bt t t' s') X s.
Proof.
  intros Hne Hok Hs. unfold run_command, parse_command. rewrite (decide_False (P := c = bs "exit")) by done.
  assert (∀ line cmd, (∀ calls, answer_lines calls cmd = [line]) → uwp (or_panic (push_line line t)) (λ t' s', answered cmd said h mp bt t t' s') X s) as Hline.
  { intros line cmd E. eapply (uwp_answer [] [line]); [split; [done|by intros]|apply push_line_pushes|done|by rewrite app_nil_r]. }
  case_bool_decide as Hhelp; cbn [orb]; [rewrite decide_True by tauto; by apply Hline|].
  case_bool_decide as Hempty; [rewrite decide_True by tauto; by apply Hline|]. rewrite decide_False by tauto.
  case_bool_decide as Hls; cbn [orb]; [rewrite decide_True, Hls by done; by eapply uwp_ls|]. rewrite decide_False by done.
  destruct (starts_with (bs "ls ") c) eqn:E1.
  { pose proof (starts_with_strip _ _ E1) as E. rewrite E. apply strip_prefix_Some in E. apply (f_equal length) in E. rewrite length_app in E. cbn [length] in E.
    destruct (Nat.eqb_spec (length c) 2) as [H2|_]; [cbn in E; lia|]. by eapply uwp_ls. }
  rewrite (starts_with_no_strip _ _ E1). destruct (starts_with (bs "cat ") c) eqn:E2; [rewrite (starts_with_strip _ _ E2); by eapply uwp_cat|].
  rewrite (starts_with_no_strip _ _ E2). destruct (starts_with (bs "stat ") c) eqn:E3; [rewrite (starts_with_strip _ _ E3); by eapply uwp_stat_command|].
  rewrite (starts_with_no_strip _ _ E3). destruct (starts_with (bs "write ") c) eqn:E4; [rewrite (starts_with_strip _ _ E4); by eapply uwp_write_command|].
  rewrite (starts_with_no_strip _ _ E4). by apply Hline.
Qed.

(** ENTER: the line is gone; [exit] only shows itself. *)
Lemma uwp_submit t m h mp bt s X : session_models t m → at_state h mp bt s →
  uwp (submit t) (λ o s', ∃ calls, Forall calm calls ∧ at_state (h ++ calls) mp bt s' ∧
    let c := trim_ascii (typed m) in
    if decide (c = bs "exit") then o.1 = true
    else o.1 = false ∧ session_models o.2 (say ((bs "> " ++ c) :: answer_lines calls (parse_command c)) (mk_session (transcript m) []))) X s.
Proof.
  intros [Hok [Hroom Hlen Hkeys]] Hs. unfold submit. set (c := trim_ascii (typed m)).
  assert (slice_to (input_len t) (input t) = Some (typed m)) as Hslice.
  { assert (length (typed m) ≤ length (input t))%nat by (rewrite <- Hkeys at 1; rewrite length_take; lia).
    unfold slice_to. rewrite (proj2 (Nat.leb_le _ _)) by lia. by rewrite Hkeys. }
  uwp_step. eapply uwp_or_panic; [exact Hslice|]. cbv zeta. fold c.
  set (t0 := with_input (replicate INPUT_CAPACITY (z2b 0)) 0 t).
  assert (screen_ok t0 (transcript m)) as Hok0 by (by destruct Hok).
  uwp_step. eapply uwp_mono; [eapply (uwp_push (push_line_prefixed (bs "> ") c)); [apply push_prefixed_pushes|exact Hok0|exact Hs]| |intros ? ? HX; exact HX].
  intros t1 s1 [-> [Hok1 Hi1 Hn1 _]]. uwp_step. eapply uwp_write; [exact Hs|]. intros r2 s2 Hs2. uwp_step. eapply uwp_write; [exact Hs2|]. intros r3 s3 Hs3.
  uwp_step. eapply uwp_write; [exact Hs3|]. intros r4 s4 Hs4. rewrite <- !app_assoc in Hs4. case_bool_decide as Hexit.
  - apply uwp_ret. eexists. split; [|split; [exact Hs4|]]; [calm_calls|]. by rewrite decide_True.
  - uwp_step. eapply uwp_mono; [by eapply uwp_run_command| |intros ? ? HX; exact HX]. intros t2 s5 (calls&new&[Hcalm Hnew]&[Hok2 Hi2 Hn2 Hs5]).
    apply uwp_ret. rewrite <- app_assoc in Hs5. eexists. split; [|split; [exact Hs5|]]; [apply Forall_app_2; [calm_calls|done]|].
    cbv zeta. rewrite decide_False by done. split; [done|]. rewrite Hnew by (by repeat constructor). split.
    + unfold say. cbn [transcript fmap list_fmap snd] in *. by rewrite <- app_assoc in Hok2.
    + split; cbn [typed say snd length]; rewrite ?Hi2, ?Hi1, ?Hn2, ?Hn1; done.
Qed.

Lemma uwp_exit_app {A} addr len h mp bt s (Q : A → S → Prop) : at_state h ((addr, len) :: mp) bt s → (addr, len) ∉ mp →
  uwp (leave addr len) Q (λ code s', code = 0 ∧ (maps s' = mp ∨ maps s' = (addr, len) :: mp) ∧ ∃ calls, Forall calm calls ∧ history s' = h ++ calls) s.
Proof.
  intros Hs Hnin. unfold leave. uwp_step. eapply uwp_munmap; [exact Hs|exact Hnin|]. intros r1 s1 Hs1. uwp_step.
  eapply uwp_write; [exact Hs1|]. intros r2 s2 Hs2. eapply uwp_exit; [exact Hs2|]. intros r3 s3 Hh Hmp. split; [done|].
  split; [rewrite Hmp; destruct (r1.1 =? 0); auto|]. rewrite <- !app_assoc in Hh. eexists. split; [|exact Hh]. calm_calls.
Qed.

(** One more key, and one less. *)
Lemma keys_more t keys k : keys_ok t keys → (length keys < INPUT_CAPACITY)%nat →
  keys_ok (with_input (<[input_len t := k]> (input t)) (input_len t + 1) t) (keys ++ [k]).
Proof.
  intros [Hroom Hlen Hkeys] Hlt. split; cbn [input input_len with_input].
  - by rewrite length_insert.
  - rewrite length_app. cbn [length]. lia.
  - rewrite Nat.add_1_r, insert_middle by lia. by rewrite Hkeys.
Qed.

Lemma keys_less t keys k : keys_ok t keys → length keys ≠ 0%nat →
  keys_ok (with_input (<[(input_len t - 1)%nat := k]> (input t)) (input_len t - 1) t) (take (length keys - 1) keys).
Proof.
  intros [Hroom Hlen Hkeys] Hne. split; cbn [input input_len with_input].
  - by rewrite length_insert.
  - rewrite length_take. lia.
  - rewrite take_insert_ge by lia. rewrite <- Hkeys at 2. rewrite take_take. f_equal. lia.
Qed.

Lemma terminal_handles_events : handles session_models session_step handle_event.
Proof.
  intros addr len e dirty t m h mp bt s He Hm Hnin Hs. unfold handle_event. cbn [snd fst].
  assert (at_state (h ++ []) ((addr, len) :: mp) bt s) as Hsame by (by rewrite app_nil_r).
  destruct e as [code|x y|button pressed]; rewrite byte_at_0; [|apply uwp_ret; by exists [], m..].
  rewrite byte_at_1_key by done. change (negb (1 =? 1)) with false. cbn iota zeta. unfold session_step.
  destruct (code =? KEY_ESCAPE).
  { eapply uwp_mono; [by eapply (uwp_exit_app _ _ h)|intros ? ? HX; exact HX|]. intros c s1 (->&Hmp&calls&Hc&Hh). split; [done|]. split; [done|]. by exists calls. }
  destruct (code =? KEY_ENTER).
  { uwp_step. eapply uwp_mono; [by eapply (uwp_submit t m h)| |intros ? ? HX; exact HX]. intros [done t'] s1 (calls&Hc&Hs1&Ho). cbn [fst snd] in Ho. cbv zeta in Ho.
    destruct (decide _) as [|Hexit].
    - subst done. eapply uwp_mono; [by eapply (uwp_exit_app _ _ (h ++ calls))|intros ? ? HX; exact HX|]. intros c s2 (->&Hmp&calls2&Hc2&Hh). split; [done|]. split; [done|].
      rewrite <- app_assoc in Hh. eexists. split; [|split; [|exact Hh]]; [by apply Forall_app_2|done].
    - destruct Ho as (->&Hm'). apply uwp_ret. eexists calls, _. split; [done|]. split; [done|]. by split. }
  destruct Hm as [Hscreen Hkeys]. destruct (code =? KEY_BACKSPACE).
  { apply uwp_ret. rewrite (ko_length _ _ Hkeys). destruct (Nat.eqb_spec (length (typed m)) 0) as [H0'|Hne].
    - exists [], m. split_and!; try done. destruct m as [p [|k ks]]; done.
    - exists [], (mk_session (transcript m) (take (length (typed m) - 1) (typed m))). split_and!; try done.
      split; [by destruct Hscreen|]. rewrite <- (ko_length _ _ Hkeys) at 1 2. by apply keys_less. }
  rewrite (ko_length _ _ Hkeys). destruct (_ && _) eqn:Ekey; [|apply uwp_ret; by exists [], m].
  apply uwp_ret. exists [], (mk_session (transcript m) (typed m ++ [z2b code])). split_and!; try done.
  apply andb_true_iff in Ekey as [_ Hlt%Nat.ltb_lt]. split; [by destruct Hscreen|]. rewrite <- (ko_length _ _ Hkeys). by apply keys_more.
Qed.

Lemma new_terminal_ok : screen_ok new_terminal [].
Proof. split; try done; by repeat constructor. Qed.

(** The session when the program starts. *)
Definition session_start (calls : list io) : Session := first_session.

(** C16: the terminal shows its session. On any kernel that keeps the system call
    interface the program never panics, lines that are too long and more than
    sixteen of them included, and what it shows is computed from the history of
    its calls: [after] folds [session_step] over the events that the kernel
    delivered, each with the kernel's answers to the calls made for it, a command
    being answered by the call about its own path. Every frame offered shows at
    every pixel that session at the moment it is offered: the line being typed
    and, above it, as many of the last lines as fit. Every turn asks for input
    until the queue is empty, and then the newest frame taken is the session of
    all input so far. The program ends with code 0 exactly when that session was
    asked to end, or with 2 when a frame is refused, and asks for its mapping to
    be released. *)
Theorem terminal_is_up_to_date (n : nat) s : serving s →
  uwp (rust_main n patience)
    (λ r s', ∃ info addr len l m, r = Some (info, l) ∧ drawable info ∧
       up_to_date info session_models session_start session_step (session_scene info) (history s) ((addr, len) :: maps s) n l m s')
    (λ code s', code = 1 ∧ (∃ calls, history s' = history s ++ calls ∧ Forall calm calls) ∧ maps s' = maps s ∨
       ∃ info, drawable info ∧ quits info session_start session_step (session_scene info) (history s) (maps s) code s') s.
Proof.
  intros Hs. pose proof (at_self s Hs) as Hat. unfold rust_main. uwp_step. eapply uwp_write; [exact Hat|]. intros r1 s1 Hs1.
  eapply uwp_with_canvas; [exact Hs1| |].
  { intros calls s' Hc Hh Hmp. left. split; [done|]. split; [|done]. rewrite <- app_assoc in Hh. eexists. split; [exact Hh|]. calm_calls. done. }
  intros info addr len canvas calls s2 Hinfo Hc _ Hmode Hnin Hlen Hs2.
  destruct (push_line_ok (bs "Tuwaiq Terminal - type help") new_terminal [] new_terminal_ok) as (t&E&Hok&Hi&Hn).
  uwp_step. eapply uwp_or_panic; [exact E|]. rewrite <- app_assoc in Hs2. set (log := [wrote _ r1] ++ calls) in Hs2.
  assert (Forall calm log) as Hcalm by (subst log; calm_calls; done).
  eapply uwp_mono; [eapply (uwp_show_and_run info session_models session_start session_step (session_scene info) handle_event (render info)
    terminal_handles_events (terminal_pictures info (proj1 Hinfo)) n addr len (maps s) (history s) log t first_session); [| |done| |done|done|exact Hs2]|..].
  - split; [exact Hok|]. split; rewrite ?Hi, ?Hn; done.
  - apply settled_start; [by apply calm_no_poll|done].
  - subst log. rewrite <- (app_nil_r calls). apply Hmode.
  - intros r s4 (l&m&->&Hud). by exists info, addr, len, l, m.
  - intros code s4 Hq. right. by exists info.
Qed.
End run.

(** ** A run *)

Definition keys (line : string) : list InputEvent := (λ b, KeyDown (b2z b)) <$> bs line.

Module TerminalSample.
(** A file is written and read, an unknown name refused; then the terminal is
    left. The answers are for PUT_FILE, YIELD, OPEN, READ, CLOSE and YIELD. *)
Definition session : Script :=
  scripted [keys "write note  two words" ++ [KeyDown KEY_ENTER; MouseMove 3 4];
            keys "cat /data/terminal/notx" ++ [KeyDown KEY_BACKSPACE; KeyDown 101; KeyDown KEY_ENTER];
            keys "write a/b x" ++ [KeyDown KEY_ENTER] ++ keys "exit" ++ [KeyDown KEY_ENTER]]
    [(0, []); (0, []); (3, []); (9, bs "two words"); (0, [])].

Lemma terminal_serving : serving session.
Proof.
  split; [apply small_mode_drawable|].
  assert (∀ l, (length l < 1000)%nat → forallb (λ e, match e with KeyDown c => (0 <=? c) && (c <? 256) | MouseMove x y => (x =? 3) && (y =? 4) | _ => false end) l = true → batch_fits l) as Hfit.
  { intros l Hlen Hl. split; [done|]. apply Forall_forall. intros e He. rewrite forallb_forall in Hl. apply list_elem_of_In, Hl in He.
    destruct e as [c|x y|]; [bool_hyps; done| |done]. bool_hyps. subst. done. }
  split; [apply Hfit; [cbn; lia|by vm_compute]|]. repeat (constructor; [apply Hfit; [cbn; lia|by vm_compute]|]). constructor.
Qed.

Lemma terminal_is_up_to_date_witness :
  uwp (rust_main 2 patience)
    (λ r s', ∃ info addr len l m, r = Some (info, l) ∧ drawable info ∧
       up_to_date info session_models session_start session_step (session_scene info) [] [(addr, len)] 2 l m s')
    (λ code s', code = 1 ∧ (∃ calls, log s' = [] ++ calls ∧ Forall calm calls) ∧ mapped s' = [] ∨
       ∃ info, drawable info ∧ quits info session_start session_step (session_scene info) [] [] code s') session.
Proof. exact (terminal_is_up_to_date 2 session terminal_serving). Defined.

(** What is on the screen after two turns. *)
Example session_says :
  match rust_main 2 1000 session with
  | (Returns (Some (_, (_, t))), s) =>
      on_screen_lines t = [bs "Tuwaiq Terminal - type help"; bs "> write note  two words"; bs "saved"; bs "> cat /data/terminal/note"; bs "two words"]
      ∧ length (shown s) = 3%nat
  | _ => False
  end.
Proof. vm_compute. done. Qed.

Example terminal_session_ends :
  let '(r, s) := rust_main 3 1000 session in r = Exits 0 ∧ length (shown s) = 3%nat ∧ mapped s = [].
Proof. vm_compute. done. Qed.
End TerminalSample.
