(* ===== verification/UserFiles.v ===== *)
(** What programs of userland/hello rely on when they keep files, and what they
    ask of the kernel.

    [Ring3Files] adds files to the interface of [UserLib.v]: a file that was put
    is what is read until it is put again. [stored_gate] adds a store of files to
    any kernel and keeps both interfaces. [traced_gate] records the calls a
    program makes, and [makes] is the calculus in which they are followed. *)

From S2P Require Import Prelude Str Vfs Input ShellText Canvas UserLib.

#[global] Instance byte_countable : Countable byte := inj_countable' b2z z2b z2b_b2z.

(** ** Files *)

(** Files are known by their normalized absolute paths; an open file is a copy of
    what it held. *)
Class Ring3Files (S : Type) `{Ring3Spec S} := {
  files : S → gmap (list byte) (list byte);
  opened : S → gmap Z (list byte);
  put_law path target data s : serving s → starts_with [slash] path = true → normalize [slash] path = Ok target →
    let '((r, _), s') := int80 SYS_PUT_FILE (In path) (Num (zlen path)) (SpecIn data) s in
    files s' = if r =? 0 then <[target := data]> (files s) else files s;
  open_law path target s : serving s → starts_with [slash] path = true → normalize [slash] path = Ok target →
    let '((r, _), s') := int80 SYS_OPEN (In path) (Num (zlen path)) (Num 0) s in
    files s' = files s ∧ (3 <= r → ∃ data, files s !! target = Some data ∧ opened s' !! r = Some data);
  read_open_law handle size data s : serving s → opened s !! handle = Some data →
    let '((r, buf), s') := int80 SYS_READ (Num handle) (Out size) (Num (Z.of_nat size)) s in
    files s' = files s ∧ (0 <= r → r = Z.min (zlen data) (Z.of_nat size) ∧ take (Z.to_nat r) buf = take (Z.to_nat r) data);
  files_kept num a1 a2 a3 s : num = SYS_WRITE ∨ num = SYS_CLOSE → serving s →
    let '(_, s') := int80 num a1 a2 a3 s in files s' = files s
}.

Section calls.
Context {S : Type} `{Ring3Files S}.
Context (m : list (Z * Z)) (b : list InputEvent).
Implicit Types (s : S) (d : gmap (list byte) (list byte)).

Lemma uwp_files_write h msg d (Q : unit → S → Prop) X s : at_state h m b s → files s = d →
  (∀ r s', at_state (h ++ [wrote msg r]) m b s' → files s' = d → Q tt s') → uwp (write msg) Q X s.
Proof.
  intros Hs Hd HQ. pose proof (files_kept SYS_WRITE (In msg) (Num (zlen msg)) (Num 0) s ltac:(by left) (at_serving _ _ _ _ Hs)) as Hk.
  pose proof (uwp_write m b h msg (λ _ s', ∃ r, at_state (h ++ [wrote msg r]) m b s') X s Hs ltac:(by eexists)) as Hw.
  unfold uwp, write, syscall, mbind, U_bind in *. destruct (int80 _ _ _ _ s) as [[r buf] s']. cbn in *. destruct Hw as [r' Hw].
  eapply HQ; [exact Hw|congruence].
Qed.

(** A call that keeps both interfaces. *)
Lemma uwp_files_query h num a1 a2 a3 (P : Z * list byte → S → Prop) (Q : Z * list byte → S → Prop) X s :
  num ∈ [SYS_OPEN; SYS_READ; SYS_CLOSE; SYS_PUT_FILE] → (let '(r, s') := int80 num a1 a2 a3 s in P r s') → at_state h m b s →
  (∀ r s', P r s' → at_state (h ++ [mk_io (num, a1, a2, a3) r]) m b s' → Q r s') → uwp (syscall num a1 a2 a3) Q X s.
Proof.
  intros Hn HP Hs HQ.
  assert (num ∈ [SYS_UPTIME_TICKS; SYS_SPAWN; SYS_READDIR; SYS_STAT; SYS_OPEN; SYS_READ; SYS_CLOSE; SYS_PUT_FILE]) as Hin
    by (repeat (apply elem_of_cons in Hn as [->|Hn]; [set_solver|]); by apply elem_of_nil in Hn).
  pose proof (uwp_query m b h num a1 a2 a3 (λ r s', at_state (h ++ [mk_io (num, a1, a2, a3) r]) m b s') X s Hin Hs (λ r s' Hs', Hs')) as Hq.
  unfold uwp, syscall in *. destruct (int80 num a1 a2 a3 s) as [r s']. by apply HQ.
Qed.

(** A file put at a path. *)
Lemma uwp_files_put h path target data d (Q : bool → S → Prop) X s : at_state h m b s → files s = d →
  starts_with [slash] path = true → normalize [slash] path = Ok target →
  (∀ r s', at_state (h ++ [mk_io (put_call path data) r]) m b s' → files s' = (if r.1 =? 0 then <[target := data]> d else d) → Q (r.1 =? 0) s') →
  uwp (put_file path data) Q X s.
Proof.
  intros Hs Hd Hslash Hn HQ. pose proof (put_law path target data s (at_serving _ _ _ _ Hs) Hslash Hn) as Hl.
  unfold put_file. uwp_step. eapply (uwp_files_query _ _ _ _ _ (λ r s', files s' = if r.1 =? 0 then <[target := data]> d else d)); [set_solver| |exact Hs|].
  - destruct (int80 _ _ _ _ s) as [[r buf] s']. by rewrite <- Hd.
  - intros [r buf] s' Hf Hs'. uwp_step. by apply (HQ (r, buf)).
Qed.

(** What [read_file] gives is the beginning of the file. *)
Definition file_answer (size : nat) (data : option (list byte)) (a : option (Z * list byte)) : Prop :=
  match a with
  | Some (r, buf) => fits size a ∧ ∃ bytes, data = Some bytes ∧ take (Z.to_nat r) buf = take size bytes
  | None => True
  end.

Lemma uwp_files_read h path target size d (Q : option (Z * list byte) → S → Prop) X s : at_state h m b s → files s = d →
  starts_with [slash] path = true → normalize [slash] path = Ok target →
  (∀ a h' s', file_answer size (d !! target) a → at_state h' m b s' → files s' = d → Q a s') → uwp (read_file path size) Q X s.
Proof.
  intros Hs Hd Hslash Hn HQ. unfold read_file. uwp_step.
  pose proof (open_law path target s (at_serving _ _ _ _ Hs) Hslash Hn) as Hopen.
  eapply (uwp_files_query _ _ _ _ _ (λ r s', files s' = d ∧ (3 <= r.1 → ∃ data, files s !! target = Some data ∧ opened s' !! r.1 = Some data)));
    [set_solver| |exact Hs|].
  { destruct (int80 _ _ _ _ s) as [[r buf] s']. by rewrite <- Hd. }
  intros [handle buf0] s1 [Hd1 Hdata] Hs1. cbn [fst] in Hdata. clear Hopen.
  destruct (Z.ltb_spec handle 3) as [|Hh]; [by eapply HQ|]. destruct (Hdata Hh) as (data&Hf&Ho). uwp_step.
  pose proof (read_open_law handle size data s1 (at_serving _ _ _ _ Hs1) Ho) as Hr. pose proof (read_law handle size s1 (at_serving _ _ _ _ Hs1)) as Hfit.
  eapply (uwp_files_query _ _ _ _ _ (λ r s', (r.1 <= Z.of_nat size ∧ length r.2 = size) ∧ files s' = d ∧
      (0 <= r.1 → r.1 = Z.min (zlen data) (Z.of_nat size) ∧ take (Z.to_nat r.1) r.2 = take (Z.to_nat r.1) data))); [set_solver| |exact Hs1|].
  { destruct (int80 _ _ _ _ s1) as [[r buf] s']. destruct Hr. split; [done|]. split; [congruence|done]. }
  intros [r buf] s2 ([Hle Hlen]&Hd2&Htake) Hs2. cbn [fst snd] in *. clear Hr Hfit. uwp_step.
  pose proof (files_kept SYS_CLOSE (Num handle) (Num 0) (Num 0) s2 ltac:(by right) (at_serving _ _ _ _ Hs2)) as Hk.
  eapply (uwp_files_query _ _ _ _ _ (λ _ s', files s' = d)); [set_solver| |exact Hs2|].
  { destruct (int80 _ _ _ _ s2) as [r' s']. congruence. }
  intros [c buf1] s3 Hd3 Hs3. uwp_step. eapply HQ; [|exact Hs3|done]. destruct (Z.ltb_spec r 0) as [|Hr0]; [done|]. destruct (c =? 0); [|done]. cbn.
  split; [by split|]. destruct (Htake Hr0) as [-> Htk]. exists data. split; [congruence|]. rewrite Htk.
  unfold zlen. destruct (decide (length data ≤ size)%nat).
  - rewrite Z.min_l, Nat2Z.id by lia. by rewrite !take_ge by lia.
  - by rewrite Z.min_r, Nat2Z.id by lia.
Qed.
End calls.

(** ** Any kernel, with a store of files *)

Record Store := mk_store { disk : gmap (list byte) (list byte); handles : gmap Z (list byte); next_handle : Z; calls : list io }.

Section stored.
Context {S : Type} `{Ring3Spec S}.

Definition put_stored (path data : list byte) (st : Store) : Z * Store :=
  match normalize [slash] path with
  | Ok target => (0, mk_store (<[target := data]> (disk st)) (handles st) (next_handle st) (calls st))
  | Err _ => (-1, st)
  end.

Definition open_stored (path : list byte) (st : Store) : Z * Store :=
  match normalize [slash] path with
  | Ok target =>
      match disk st !! target with
      | Some data => (next_handle st, mk_store (disk st) (<[next_handle st := data]> (handles st)) (next_handle st + 1) (calls st))
      | None => (-1, st)
      end
  | Err _ => (-1, st)
  end.

Definition read_stored (handle : Z) (size : nat) (st : Store) : Z * list byte :=
  match handles st !! handle with
  | Some data => (Z.min (zlen data) (Z.of_nat size), take size (data ++ replicate size (z2b 0)))
  | None => (-1, replicate size (z2b 0))
  end.

Definition stored_call (num : Z) (a1 a2 a3 : reg) (s : S * Store) : (Z * list byte) * (S * Store) :=
  let '(k, st) := s in
  if num =? SYS_PUT_FILE then
    match a1, a3 with
    | In path, SpecIn data => let '(r, st) := put_stored path data st in ((r, []), (k, st))
    | _, _ => ((-1, []), s)
    end
  else if num =? SYS_OPEN then
    match a1 with In path => let '(r, st) := open_stored path st in ((r, []), (k, st)) | _ => ((-1, []), s) end
  else if num =? SYS_READ then
    match a1, a2 with Num handle, Out size => (read_stored handle size st, s) | _, _ => ((-1, []), s) end
  else if num =? SYS_CLOSE then ((0, []), s)
  else let '(r, k) := int80 num a1 a2 a3 k in (r, (k, st)).

Definition stored_gate : Ring3 (S * Store) := λ num a1 a2 a3 s,
  let '(r, (k, st)) := stored_call num a1 a2 a3 s in
  (r, (k, mk_store (disk st) (handles st) (next_handle st) (calls st ++ [mk_io (num, a1, a2, a3) r]))).

Lemma stored_call_log num a1 a2 a3 s : calls (stored_call num a1 a2 a3 s).2.2 = calls s.2.
Proof.
  unfold stored_call, put_stored, open_stored. destruct s as [k st]. repeat case_match; simplify_eq; done.
Qed.

(** A law of the kernel, where the store is not asked. *)
Ltac by_kernel law :=
  let Hl := fresh "Hl" in
  pose proof law as Hl; unfold int80, stored_gate, stored_call, int80 in *; cbn in Hl |- *; destruct (H _ _ _ _ _) as [[??]?]; exact Hl.

Definition stored_spec : @Ring3Spec (S * Store) stored_gate.
Proof.
  refine (@Build_Ring3Spec (S * Store) stored_gate (λ s, batch s.1) (λ s, calls s.2) (λ s, maps s.1) (λ s, serving s.1) patience
    _ _ _ _ _ _ _ _ _ _ _ _).
  - intros num a1 a2 a3 s. unfold int80, stored_gate. pose proof (stored_call_log num a1 a2 a3 s) as E.
    destruct (stored_call num a1 a2 a3 s) as [r [k st]]. cbn in *. by rewrite E.
  - intros [k st]. apply batch_law.
  - intros [k st] Hs. by_kernel (poll_law k Hs).
  - intros msg [k st] Hs. by_kernel (write_law msg k Hs).
  - intros buf [k st] Hs. by_kernel (present_law buf k Hs).
  - intros [k st] Hs. by_kernel (info_law k Hs).
  - intros len w [k st] Hs. by_kernel (mmap_law len w k Hs).
  - intros ptr len [k st] Hs Hin. by_kernel (munmap_law ptr len k Hs Hin).
  - intros code [k st] Hs. by_kernel (exit_law code k Hs).
  - intros path size [k st] Hs. by_kernel (readdir_law path size k Hs).
  - intros handle size [k st] Hs. unfold int80, stored_gate, stored_call. cbn. unfold read_stored. destruct (handles st !! handle) as [data|]; cbn.
    + split; [lia|]. rewrite length_take, length_app, length_replicate. lia.
    + split; [lia|apply length_replicate].
  - intros num a1 a2 a3 [k st] Hn Hs. unfold int80, stored_gate, stored_call.
    destruct (num =? SYS_PUT_FILE); [destruct a1, a3; cbn; try done; by destruct (put_stored _ _ _)|].
    destruct (num =? SYS_OPEN); [destruct a1; cbn; try done; by destruct (open_stored _ _)|].
    destruct (num =? SYS_READ); [destruct a1, a2; cbn; try done; by destruct (read_stored _ _ _)|].
    destruct (num =? SYS_CLOSE); [done|]. pose proof (query_law num a1 a2 a3 k Hn Hs) as Hl.
    unfold int80 in *. destruct (H num a1 a2 a3 k) as [[? ?] ?]. exact Hl.
Defined.

Definition stored_files : @Ring3Files (S * Store) stored_gate stored_spec.
Proof.
  refine (@Build_Ring3Files (S * Store) stored_gate stored_spec (λ s, disk s.2) (λ s, handles s.2) _ _ _ _).
  - intros path target data [k st] Hs _ Hn. unfold int80, stored_gate, stored_call. cbn. unfold put_stored. by rewrite Hn.
  - intros path target [k st] Hs _ Hn. unfold int80, stored_gate, stored_call. cbn. unfold open_stored. rewrite Hn.
    destruct (disk st !! target) as [data|] eqn:E; cbn; [|by split; [|lia]]. split; [done|]. intros _. exists data. by rewrite lookup_insert_eq.
  - intros handle size data [k st] Hs Ho. unfold int80, stored_gate, stored_call. cbn in *. unfold read_stored. rewrite Ho. split; [done|]. intros _. split; [done|].
    rewrite take_take. unfold zlen. rewrite <- Nat2Z.inj_min, Nat2Z.id. rewrite (Nat.min_l (_ `min` _)) by lia. apply take_app_le. lia.
  - intros num a1 a2 a3 [k st] [-> | ->] Hs; unfold int80, stored_gate, stored_call, int80; cbn; [|done]. by destruct (H _ _ _ _ k).
Defined.
End stored.

(** ** The calls a program makes *)

(** A kernel that also writes down every call, the oldest first. *)
Definition traced_gate {S} `{Ring3 S} : Ring3 (S * list call) := λ num a1 a2 a3 s,
  let '(r, k) := int80 num a1 a2 a3 s.1 in (r, (k, s.2 ++ [(num, a1, a2, a3)])).

(** Every call [m] makes satisfies [P]. *)
Definition makes {S A} (P : call → Prop) (m : U (S * list call) A) : Prop :=
  ∀ s, ∃ new, (m s).2.2 = s.2 ++ new ∧ Forall P new.

Section makes.
Context {S : Type} `{Ring3 S} (P : call → Prop).
#[local] Existing Instance traced_gate.

Lemma makes_ret {A} (a : A) : makes P (mret (M := U (S * list call)) a).
Proof. intros s. exists []. split; [by rewrite app_nil_r|done]. Qed.

Lemma makes_or_panic {A} (o : option A) : makes P (or_panic (S := S * list call) o).
Proof. intros s. exists []. split; [by destruct o; rewrite app_nil_r|done]. Qed.

Lemma makes_some {A B} (a : A) (f : A → U (S * list call) B) : makes P (f a) → makes P (or_panic (Some a) ≫= f).
Proof. done. Qed.

Lemma makes_bind {A B} (m : U (S * list call) A) (f : A → U (S * list call) B) : makes P m → (∀ a, makes P (f a)) → makes P (m ≫= f).
Proof.
  intros Hm Hf s. unfold mbind, U_bind. destruct (Hm s) as (n1&E1&H1). destruct (m s) as [[a|code|] s1]; cbn in *; [|by exists n1..].
  destruct (Hf a s1) as (n2&E2&H2). exists (n1 ++ n2). rewrite E2, E1, app_assoc. split; [done|by apply Forall_app_2].
Qed.

Lemma makes_syscall num a1 a2 a3 : P (num, a1, a2, a3) → makes P (syscall (S := S * list call) num a1 a2 a3).
Proof.
  intros HP s. unfold syscall. change (@int80 _ traced_gate) with (@traced_gate S _). unfold traced_gate.
  destruct (int80 num a1 a2 a3 s.1) as [r k]. exists [(num, a1, a2, a3)]. split; [done|by constructor].
Qed.

Lemma makes_exit {A} code : (∀ r, P (SYS_EXIT, Num r, Num 0, Num 0)) → makes P (exit (S := S * list call) (A := A) code).
Proof.
  intros HP s. unfold exit. change (@int80 _ traced_gate) with (@traced_gate S _). unfold traced_gate.
  destruct (int80 _ _ _ _ s.1) as [r k]. exists [(SYS_EXIT, Num (code mod 2 ^ 64), Num 0, Num 0)]. split; [done|by constructor].
Qed.
End makes.

Create HintDb makes.
#[export] Hint Resolve makes_ret makes_or_panic makes_syscall makes_exit : makes.

(** Follow a program call by call. *)
Ltac makes_step :=
  first [ apply makes_ret | apply makes_or_panic
        | apply makes_bind; [|intros ?]
        | apply makes_syscall | apply makes_exit; [intros ?]
        | case_match ].

(** Calls that change no file. *)
Definition mutates (num : Z) : bool := (num =? SYS_PUT_FILE) || (num =? SYS_REMOVE) || (num =? SYS_MKDIR).
Definition only_looks (c : call) : Prop := mutates c.1.1.1 = false.

Section wrappers.
Context {S : Type} `{Ring3 S} (P : call → Prop) (HP : ∀ c, only_looks c → P c).
#[local] Existing Instance traced_gate.

Ltac walk := repeat makes_step; try (by apply HP).

Lemma makes_write msg : makes P (write (S := S * list call) msg).
Proof using HP. unfold write. walk. Qed.
Lemma makes_leave {A} code : makes P (exit (S := S * list call) (A := A) code).
Proof using HP. walk. Qed.
Lemma makes_display_info : makes P (display_info (S := S * list call)).
Proof using HP. unfold display_info. walk. Qed.
Lemma makes_mmap len w : makes P (mmap (S := S * list call) len w).
Proof using HP. unfold mmap. walk. Qed.
Lemma makes_munmap ptr len : makes P (munmap (S := S * list call) ptr len).
Proof using HP. unfold munmap. walk. Qed.
Lemma makes_present buf len : makes P (display_present (S := S * list call) buf len).
Proof using HP. unfold display_present. walk. Qed.
Lemma makes_input_poll : makes P (input_poll (S := S * list call)).
Proof using HP. unfold input_poll. walk. Qed.
Lemma makes_yield : makes P (yield_now (S := S * list call)).
Proof using HP. unfold yield_now. walk. Qed.
Lemma makes_read_dir path size : makes P (read_dir (S := S * list call) path size).
Proof using HP. unfold read_dir. walk. Qed.
Lemma makes_read_file path size : makes P (read_file (S := S * list call) path size).
Proof using HP. unfold read_file. walk. Qed.
Lemma makes_stat path : makes P (stat (S := S * list call) path).
Proof using HP. unfold stat. walk. Qed.
End wrappers.

#[export] Hint Resolve makes_write makes_leave makes_display_info makes_mmap makes_munmap makes_present makes_input_poll makes_yield
  makes_read_dir makes_read_file makes_stat : makes.
