(* ===== verification/UserSafety.v ===== *)
(** What the graphical programs of userland/hello do to files: which calls they
    make, on any kernel at all, and that what the terminal writes it reads back. *)

From S2P Require Import Prelude Str TuwaiqTree Fs Vfs Input Window ShellText X86 Syscall Canvas UserLib Desktop DesktopFrame DesktopRun UserScript UserApp FileManager UserTerminal UserTerminalRun UserFiles.

(** ** The calls of the programs *)

Section calls.
Context {S : Type} `{Ring3 S}.
#[local] Existing Instance traced_gate.

Section app.
Context (P : call → Prop) (HP : ∀ c, only_looks c → P c) {St : Type}.

Lemma makes_while_input fuel body (acc : bool * St) : (∀ event acc, makes P (body event acc)) →
  makes P (while_input (S := S * list call) fuel body acc).
Proof using HP.
  intros Hb. revert acc. induction fuel as [|fuel IH]; intros acc; cbn [while_input]; [apply makes_ret|].
  apply makes_bind; [by apply makes_input_poll|]. intros [event|]; [|apply makes_ret]. apply makes_bind; [apply Hb|apply IH].
Qed.

Lemma makes_present_or_exit draw addr bl ml canvas : makes P (present_or_exit (S := S * list call) draw addr bl ml canvas).
Proof using HP.
  unfold present_or_exit. apply makes_bind; [apply makes_or_panic|]. intros ?. apply makes_bind; [by apply makes_present|]. intros []; cbn [negb]; [apply makes_ret|].
  apply makes_bind; [by apply makes_munmap|]. intros ?. by apply makes_leave.
Qed.

Lemma makes_app_turns n fuel body draw addr bl ml (l : list byte * St) : (∀ event acc, makes P (body event acc)) →
  makes P (app_turns (S := S * list call) n fuel body draw addr bl ml l).
Proof using HP.
  intros Hb. revert l. induction n as [|n IH]; intros l; cbn [app_turns]; [apply makes_ret|]. apply makes_bind.
  - unfold app_turn. apply makes_bind; [by apply makes_while_input|]. intros [[dirty st]|]; [|apply makes_ret]. apply makes_bind.
    + destruct dirty; [apply makes_present_or_exit|apply makes_ret].
    + intros ?. apply makes_bind; [by apply makes_yield|intros ?; apply makes_ret].
  - intros [l'|]; [apply IH|apply makes_ret].
Qed.

Lemma makes_with_canvas {A} (rest : GfxInfo → Z → Z → Z → list byte → U (S * list call) A) :
  (∀ info addr bl ml canvas, makes P (rest info addr bl ml canvas)) → makes P (with_canvas rest).
Proof using HP.
  intros Hr. unfold with_canvas. apply makes_bind; [by apply makes_display_info|]. intros [info|]; [|by apply makes_leave].
  cbv zeta. destruct (checked_add _ _ _); [|by apply makes_leave]. apply makes_bind; [by apply makes_mmap|]. intros [addr|]; [apply Hr|by apply makes_leave].
Qed.
End app.

(** The file manager asks, and changes nothing. *)
Lemma makes_refresh b : makes only_looks (refresh (S := S * list call) b).
Proof using. unfold refresh. cbv zeta. repeat (first [by apply makes_read_dir|by apply makes_write|makes_step]). Qed.

Lemma makes_manager_event addr ml event acc : makes only_looks (FileManager.handle_event (S := S * list call) addr ml event acc).
Proof using.
  unfold FileManager.handle_event, select_into, select. cbv zeta.
  repeat (first [by apply makes_refresh|by apply makes_write|by apply makes_munmap|by apply makes_leave|makes_step]).
Qed.

Lemma manager_only_looks n fuel : makes only_looks (FileManager.rust_main (S := S * list call) n fuel).
Proof using.
  unfold FileManager.rust_main. apply makes_bind; [by apply makes_write|]. intros ?. apply makes_with_canvas; [done|]. intros info addr bl ml canvas.
  apply makes_bind; [apply makes_refresh|]. intros b. apply makes_bind; [by apply makes_present_or_exit|]. intros c.
  apply makes_bind; [|intros ?; apply makes_ret]. apply makes_app_turns; [done|]. intros. apply makes_manager_event.
Qed.

(** The calls of the terminal: it puts files, below its own directory. *)
Definition terminal_policy (c : call) : Prop :=
  mutates c.1.1.1 = true → ∃ name data, safe_name name ∧ c = (SYS_PUT_FILE, In (DIRECTORY ++ name), Num (zlen (DIRECTORY ++ name)), SpecIn data).

Lemma looking_is_allowed c : only_looks c → terminal_policy c.
Proof using. intros Hc Hm. unfold only_looks in Hc. congruence. Qed.

Local Ltac walk :=
  repeat (first [apply makes_write; exact looking_is_allowed|apply makes_munmap; exact looking_is_allowed|apply makes_leave; exact looking_is_allowed
                |apply makes_read_dir; exact looking_is_allowed|apply makes_read_file; exact looking_is_allowed|apply makes_stat; exact looking_is_allowed
                |apply makes_or_panic|apply makes_ret|apply makes_bind; [|intros ?]|case_match]).

Lemma makes_write_command args t : makes terminal_policy (write_command (S := S * list call) args t).
Proof using.
  unfold write_command. destruct (position _ args) as [i|]; [|apply makes_or_panic]. destruct (_ || _) eqn:E; [apply makes_or_panic|].
  apply (proj1 (name_refused _ _)) in E as [Hsafe _]. rewrite file_path by apply Hsafe. cbv zeta. apply makes_some. apply makes_bind; [|intros []; walk].
  unfold put_file. apply makes_bind; [|intros [result buf]; apply makes_ret]. apply makes_syscall. intros _. by eexists _, _.
Qed.

Lemma makes_run_command c t : makes terminal_policy (run_command (S := S * list call) c t).
Proof using.
  unfold run_command, ls_command, cat_command, stat_command. cbv zeta. repeat (first [apply makes_write_command|progress walk]).
Qed.

Lemma makes_submit t : makes terminal_policy (submit (S := S * list call) t).
Proof using. unfold submit. cbv zeta. repeat (first [apply makes_run_command|progress walk]). Qed.

Lemma makes_terminal_event addr ml event acc : makes terminal_policy (UserTerminal.handle_event (S := S * list call) addr ml event acc).
Proof using. unfold UserTerminal.handle_event, UserTerminal.leave. cbv zeta.
  repeat (first [apply makes_submit|apply makes_run_command|progress walk]).
Qed.

Lemma terminal_keeps_policy n fuel : makes terminal_policy (UserTerminal.rust_main (S := S * list call) n fuel).
Proof using.
  unfold UserTerminal.rust_main. apply makes_bind; [by apply makes_write, looking_is_allowed|]. intros ?. apply makes_with_canvas; [exact looking_is_allowed|]. intros info addr bl ml canvas.
  apply makes_bind; [apply makes_or_panic|]. intros t. apply makes_bind; [apply makes_present_or_exit; exact looking_is_allowed|]. intros c.
  apply makes_bind; [|intros ?; apply makes_ret]. apply makes_app_turns; [exact looking_is_allowed|]. intros. apply makes_terminal_event.
Qed.
(** The desktop only asks, too; what it starts is another process. *)
Local Ltac look own :=
  repeat (first [own|by apply makes_write|by apply makes_munmap|by apply makes_leave|by apply makes_present|by apply makes_yield
                |by apply makes_mmap|by apply makes_display_info|apply makes_or_panic|apply makes_ret|apply makes_bind; [|intros ?]|case_match]).

Lemma makes_spawn path : makes only_looks (UserLib.spawn (S := S * list call) path).
Proof using. unfold UserLib.spawn. apply makes_bind; [by apply makes_syscall|intros [r buf]; apply makes_ret]. Qed.

Lemma makes_marker prefix i : makes only_looks (emit_action_marker (S := S * list call) prefix i).
Proof using. unfold emit_action_marker. look fail. Qed.

Lemma makes_drag_marker drag : makes only_looks (emit_drag_marker (S := S * list call) drag).
Proof using. unfold emit_drag_marker. look fail. Qed.

Lemma makes_spawn_panel st : makes only_looks (spawn_panel (S := S * list call) st).
Proof using. unfold spawn_panel. cbv zeta. look ltac:(apply makes_marker). Qed.

Lemma makes_spawn_ai st : makes only_looks (spawn_ai_preview (S := S * list call) st).
Proof using. unfold spawn_ai_preview. cbv zeta. look ltac:(apply makes_spawn). Qed.

Lemma makes_left_button pressed st : makes only_looks (on_left_button (S := S * list call) pressed st).
Proof using.
  unfold on_left_button, emit_close_marker. cbv zeta.
  look ltac:(first [apply makes_marker|apply makes_drag_marker|apply makes_spawn_panel|apply makes_spawn_ai]).
Qed.

Lemma makes_desktop_event info event st : makes only_looks (Desktop.handle_event (S := S * list call) info event st).
Proof using. unfold Desktop.handle_event. cbv zeta. look ltac:(apply makes_left_button). Qed.

Lemma makes_pump fuel info dirty st : makes only_looks (pump_input (S := S * list call) fuel info dirty st).
Proof using.
  revert dirty st. induction fuel as [|fuel IH]; intros dirty st; cbn [pump_input]; [apply makes_ret|].
  apply makes_bind; [by apply makes_input_poll|]. intros [event|]; [|apply makes_ret].
  apply makes_bind; [apply makes_desktop_event|]. intros [[changed code] st']. destruct code; [apply makes_ret|apply IH].
Qed.

Lemma makes_uptime : makes only_looks (uptime_ticks (S := S * list call)).
Proof using. unfold uptime_ticks. apply makes_bind; [by apply makes_syscall|intros [r buf]; apply makes_ret]. Qed.

Lemma makes_turns n fuel info addr bl ml l : makes only_looks (turns (S := S * list call) n fuel info addr bl ml l).
Proof using.
  revert l. induction n as [|n IH]; intros l; cbn [turns]; [apply makes_ret|]. apply makes_bind; [|intros [l'|]; [apply IH|apply makes_ret]].
  unfold turn. apply makes_bind; [apply makes_pump|]. intros [[[dirty [code|]] st]|]; [unfold DesktopRun.leave; look fail| |apply makes_ret].
  apply makes_bind; [apply makes_uptime|]. intros ticks. cbv zeta. look fail.
Qed.

Lemma desktop_only_looks n fuel : makes only_looks (DesktopRun.rust_main (S := S * list call) n fuel).
Proof using. unfold DesktopRun.rust_main. cbv zeta. look ltac:(apply makes_turns). Qed.
End calls.

(** ** The terminal's own directory *)

Lemma name_byte_chars b : name_byte b = true → b ≠ slash ∧ b ≠ backslash ∧ b ≠ space ∧ b ≠ Str.newline ∧ is_control b = false ∧ b2z b < 128.
Proof.
  intros Hb. do 4 (split; [by intros ->|]). unfold name_byte, in_range, is_control in *. rewrite Z.ltb_ge.
  rewrite !orb_true_iff, !andb_true_iff, !Z.leb_le, !Z.eqb_eq in Hb. lia.
Qed.

Lemma safe_name_valid name : safe_name name → name ≠ [dot] → name ≠ [dot; dot] → valid_name name = true.
Proof.
  intros (Hne&Hlen&Hall) Hd Hdd. rewrite Forall_forall in Hall. apply valid_name_spec. split_and!; try done.
  - split; [done|]. intros Hin. apply Hall, name_byte_chars in Hin as (?&_). done.
  - unfold zlen. lia.
  - intros b Hb. apply Hall, name_byte_chars in Hb as (?&?&?&?&?&?). done.
  - apply utf8_ascii, Forall_forall. intros b Hb. apply Hall, name_byte_chars in Hb as (?&?&?&?&?&?). done.
Qed.

Lemma file_path_canonical name : safe_name name → name ≠ [dot] → name ≠ [dot; dot] → canonical (DIRECTORY ++ name).
Proof.
  intros Hsafe Hd Hdd. exists [bs "data"; bs "terminal"; name]. split_and!; [done| |].
  - repeat (constructor; [done|]). constructor; [by apply safe_name_valid|constructor].
  - destruct Hsafe as (_&Hlen&_). rewrite zlen_app. change (zlen DIRECTORY) with 15. unfold zlen. lia.
Qed.

(** The kernel's check of a path of the terminal. *)
Lemma terminal_path_resolves wd name : canonical wd → safe_name name →
  private_path (bs "terminal") wd (DIRECTORY ++ name) false =
    if decide (name = [dot] ∨ name = [dot; dot]) then None else Some (DIRECTORY ++ name).
Proof.
  intros Hwd Hsafe. destruct (decide _) as [Hdots|Hname].
  - assert (normalize wd (DIRECTORY ++ name) = Ok (if decide (name = [dot]) then bs "/data/terminal" else bs "/data")) as E.
    { destruct Hwd as (parts&->&Hv&Hlen). rewrite normalize_stack by done. destruct Hdots as [-> | ->]; vm_compute; done. }
    unfold private_path. rewrite E. by destruct (decide (name = [dot])).
  - unfold private_path. rewrite normalize_canonical by (try done; apply file_path_canonical; tauto). cbv zeta.
    rewrite bool_decide_eq_true_2 by (by vm_compute).
    change (DIRECTORY ++ name) with ((bs "/data/" ++ bs "terminal") ++ slash :: name). by rewrite strip_prefix_app.
Qed.

(** C17: the graphical programs change no file but the terminal's own. On any
    kernel at all, however it answers, neither the desktop nor the file manager
    makes a call that changes a file, and every such call of the terminal puts a
    file whose path is /data/terminal/ and a name of at most 64 letters, digits,
    dashes, underscores and dots. The kernel's own check resolves such a path, in
    every working directory, to that very file; it refuses the two names that
    are not names, the dot and the double dot. *)
Theorem programs_write_only_terminal_files {S} `{Ring3 S} (n fuel : nat) (s : S) :
  Forall only_looks (@DesktopRun.rust_main (S * list call) traced_gate n fuel (s, [])).2.2 ∧
  Forall only_looks (@FileManager.rust_main (S * list call) traced_gate n fuel (s, [])).2.2 ∧
  Forall (λ c, mutates c.1.1.1 = true → ∃ name data, safe_name name ∧
      c = (SYS_PUT_FILE, In (DIRECTORY ++ name), Num (zlen (DIRECTORY ++ name)), SpecIn data) ∧
      ∀ wd, canonical wd → private_path (bs "terminal") wd (DIRECTORY ++ name) false =
        if decide (name = [dot] ∨ name = [dot; dot]) then None else Some (DIRECTORY ++ name))
    (@UserTerminal.rust_main (S * list call) traced_gate n fuel (s, [])).2.2.
Proof.
  destruct (desktop_only_looks n fuel (s, [])) as (t1&->&H1). destruct (manager_only_looks n fuel (s, [])) as (t2&->&H2).
  destruct (terminal_keeps_policy n fuel (s, [])) as (t3&->&H3). cbn [snd app]. split_and!; [done|done|].
  eapply Forall_impl; [exact H3|]. intros c Hc Hm. destruct (Hc Hm) as (name&data&Hsafe&->). exists name, data.
  split_and!; [done|done|]. intros wd Hwd. by apply terminal_path_resolves.
Qed.

(** ** What is written is read back *)

Lemma skip_spaces_id l : head l ≠ Some space → skip_spaces l = l.
Proof. destruct l as [|b l]; [done|]. cbn. intros Hb. rewrite decide_False; [done|congruence]. Qed.

Lemma drop_spaces_id n l : last l ≠ Some space → drop_spaces n l = l.
Proof. intros Hl. destruct n; [done|]. cbn [drop_spaces]. by rewrite decide_False. Qed.

Lemma trim_ascii_id l : head l ≠ Some space → last l ≠ Some space → trim_ascii l = l.
Proof. intros Hh Hl. unfold trim_ascii. rewrite skip_spaces_id by done. by apply drop_spaces_id. Qed.

Lemma position_at {A} (P : A → bool) l x r : (∀ y, y ∈ l → P y = false) → P x = true → position P (l ++ x :: r) = Some (length l).
Proof.
  intros Hl Hx. induction l as [|y l IH]; cbn; [by rewrite Hx|]. rewrite Hl by (by left). rewrite IH; [done|]. intros z Hz. apply Hl. by right.
Qed.

(** A text that fits one line of the terminal's commands. *)
Definition one_line (text : list byte) : Prop :=
  text ≠ [] ∧ head text ≠ Some space ∧ last text ≠ Some space ∧ Str.newline ∉ text ∧ (length text ≤ 512)%nat.

Lemma lines_of_one text : one_line text → lines_of text = [text].
Proof.
  intros (Hne&_&_&Hnl&_). unfold lines_of. rewrite decide_False, split_on_no_sep by done. by rewrite filter_cons_True.
Qed.

Lemma file_path_trimmed name : safe_name name → trim_ascii (DIRECTORY ++ name) = DIRECTORY ++ name.
Proof.
  intros (Hne&_&Hall). apply trim_ascii_id; [done|]. destruct (last name) as [b|] eqn:E; [|by apply last_None in E].
  rewrite last_app, E. intros [= ->]. apply last_Some_elem_of in E. by pose proof (proj1 (Forall_forall _ _) Hall _ E).
Qed.

Section round_trip.
Context {S : Type} `{Ring3Files S}.
Implicit Types (s : S) (t : Terminal).

(** The write command puts the text under its path. *)
Lemma uwp_write_file name text t said h mp b d s (Q : Terminal → S → Prop) X :
  safe_name name → name ≠ [dot] → name ≠ [dot; dot] → one_line text → screen_ok t said → at_state h mp b s → files s = d →
  (∀ t' h' s', screen_ok t' (said ++ [bs "saved"]) → at_state h' mp b s' → files s' = <[DIRECTORY ++ name := text]> d → Q t' s') →
  (∀ t' h' s', screen_ok t' (said ++ [bs "error: write rejected"]) → at_state h' mp b s' → Q t' s') →
  uwp (run_command (bs "write " ++ name ++ space :: text) t) Q X s.
Proof.
  intros Hsafe Hd1 Hd2 (Hne&Hhead&Hlast&Hnl&Hlen) Hok Hs Hd HT HF.
  change (run_command (bs "write " ++ name ++ space :: text) t) with (write_command (S := S) (name ++ space :: text) t).
  unfold write_command. rewrite position_at; [| |by apply bool_decide_eq_true_2].
  2:{ intros y Hy. apply bool_decide_eq_false_2. destruct Hsafe as (_&_&Hall). apply (proj1 (Forall_forall _ _) Hall), name_byte_chars in Hy. tauto. }
  rewrite take_app_length. assert (drop (length name + 1) (name ++ space :: text) = text) as ->.
  { by rewrite <- drop_drop, drop_app_length. }
  rewrite trim_ascii_id by done. rewrite (proj2 (name_refused name text)) by done. rewrite file_path by apply Hsafe. cbv zeta.
  uwp_step. apply (uwp_or_panic _ (DIRECTORY ++ name)); [done|]. uwp_step.
  eapply (uwp_files_put mp b h _ (DIRECTORY ++ name)); [exact Hs|exact Hd|done|by apply normalize_canonical, file_path_canonical; [apply canonical_root|..]|].
  intros r s1 Hs1 Hd1'. destruct (r.1 =? 0).
  - uwp_step. eapply uwp_mono; [eapply (uwp_push (push_line (bs "saved"))); [apply push_line_pushes|exact Hok|exact Hs1]| |intros ? ? HX; exact HX].
    intros t1 s1' [-> [Hok1 _ _ _]]. uwp_step. eapply uwp_files_write; [exact Hs1|exact Hd1'|]. intros r2 s2 Hs2 Hd2'. uwp_step.
    eapply uwp_files_write; [exact Hs2|exact Hd2'|]. intros r3 s3 Hs3 Hd3. uwp_step. eapply uwp_files_write; [exact Hs3|exact Hd3|]. intros r4 s4 Hs4 Hd4.
    uwp_step. by eapply HT.
  - eapply uwp_mono; [eapply (uwp_push (push_line (bs "error: write rejected"))); [apply push_line_pushes|exact Hok|exact Hs1]| |intros ? ? HX; exact HX].
    intros t1 s1' [-> [Hok1 _ _ _]]. by eapply HF.
Qed.

(** The cat command shows the text, or that there is none. *)
Lemma uwp_cat_file name text t said h mp b d s (Q : Terminal → S → Prop) X :
  safe_name name → name ≠ [dot] → name ≠ [dot; dot] → one_line text → screen_ok t said → at_state h mp b s → files s = d →
  d !! (DIRECTORY ++ name) = Some text →
  (∀ t' s', files s' = d → screen_ok t' (said ++ [cut text]) ∨ screen_ok t' (said ++ [bs "error: file unavailable or too large"]) → Q t' s') →
  uwp (run_command (bs "cat " ++ DIRECTORY ++ name) t) Q X s.
Proof.
  intros Hsafe Hd1 Hd2 Hone Hok Hs Hd Hfile HQ. pose proof Hone as (Hne&_&_&_&Hlen).
  change (run_command (bs "cat " ++ DIRECTORY ++ name) t) with (cat_command (S := S) (trim_ascii (DIRECTORY ++ name)) t).
  rewrite file_path_trimmed by done. unfold cat_command. uwp_step.
  eapply (uwp_files_read mp b h _ (DIRECTORY ++ name)); [exact Hs|exact Hd|done|by apply normalize_canonical, file_path_canonical; [apply canonical_root|..]|].
  intros [[r buf]|] h1 s1 Ha Hs1 Hds1.
  - destruct Ha as [[Hr Hbuf] (bytes&Eb&Htake)]. rewrite Hfile in Eb. injection Eb as <-. rewrite (take_ge text) in Htake by done.
    uwp_step. eapply uwp_files_write; [exact Hs1|exact Hds1|]. intros r2 s2 Hs2 Hds2. uwp_step. eapply uwp_files_write; [exact Hs2|exact Hds2|]. intros r3 s3 Hs3 Hds3.
    uwp_step. eapply uwp_files_write; [exact Hs3|exact Hds3|]. intros r4 s4 Hs4 Hds4. uwp_step.
    destruct (slice_to_fits r buf Hr Hbuf) as [E _]. rewrite Htake in E. eapply uwp_or_panic; [exact E|].
    destruct (push_multiline_pushes text t said Hok) as (t'&Et&Hok'&_). eapply uwp_or_panic; [exact Et|].
    rewrite lines_of_one in Hok' by done. apply HQ; [done|by left].
  - eapply uwp_mono; [eapply (uwp_push (push_line (bs "error: file unavailable or too large"))); [apply push_line_pushes|exact Hok|exact Hs1]| |intros ? ? HX; exact HX].
    intros t1 s1' [-> [Hok1 _ _ _]]. apply HQ; [done|by right].
Qed.

(** C19: what the terminal writes it reads back. On any kernel that keeps files,
    after the command that writes a line of text to a file of the terminal, the
    screen says that it was saved or that it was rejected; and if it says saved,
    the file holds exactly that text, and the command that shows the file then
    adds that text, cut to the width of the screen, as one line, or says that the
    file is unavailable, but shows nothing else. *)
Theorem written_file_is_read_back name text t said s :
  serving s → screen_ok t said → safe_name name → name ≠ [dot] → name ≠ [dot; dot] → one_line text →
  uwp (t1 ← run_command (bs "write " ++ name ++ space :: text) t;
       t2 ← run_command (bs "cat " ++ DIRECTORY ++ name) t1;
       mret (t1, t2))
    (λ '(t1, t2) s',
       screen_ok t1 (said ++ [bs "error: write rejected"]) ∨
       screen_ok t1 (said ++ [bs "saved"]) ∧ files s' = <[DIRECTORY ++ name := text]> (files s) ∧
       (screen_ok t2 ((said ++ [bs "saved"]) ++ [cut text]) ∨
        screen_ok t2 ((said ++ [bs "saved"]) ++ [bs "error: file unavailable or too large"])))
    (λ _ _, False) s.
Proof.
  intros Hs Hok Hsafe Hd1 Hd2 Hone. pose proof (at_self s Hs) as Hat. uwp_step.
  eapply (uwp_write_file name text t said _ _ _ (files s)); [done|done|done|done|exact Hok|exact Hat|done|..].
  - intros t1 p1 s1 Hok1 Hs1 Hf1. uwp_step. eapply uwp_cat_file; [done..|exact Hok1|exact Hs1|exact Hf1|by rewrite lookup_insert_eq|].
    intros t2 s2 Hf2 Hcat. uwp_step. right. by split_and!.
  - intros t1 h1 s1 Hok1 Hs1. uwp_step. eapply uwp_mono; [eapply (uwp_run_command (bs "cat " ++ DIRECTORY ++ name)); [done|exact Hok1|exact Hs1]| |intros ? ? HX; exact HX].
    intros t2 s2 _. uwp_step. by left.
Qed.
End round_trip.

(** ** A run *)

Module RoundTripSample.
Definition kernel : Script * Store := (scripted [] [], mk_store ∅ ∅ 3 []).

Lemma text_fits : one_line (bs "two words").
Proof.
  split_and!; [done|done|done| |cbn; lia]. intros Hin. by repeat (apply elem_of_cons in Hin as [Hin|Hin]; [discriminate Hin|]); apply elem_of_nil in Hin.
Qed.

Lemma written_file_is_read_back_witness :
  @uwp (Script * Store) (Terminal * Terminal) (t1 ← @run_command _ stored_gate (bs "write " ++ bs "note" ++ space :: bs "two words") new_terminal;
       t2 ← @run_command _ stored_gate (bs "cat " ++ DIRECTORY ++ bs "note") t1;
       mret (t1, t2))
    (λ '(t1, t2) s',
       screen_ok t1 ([] ++ [bs "error: write rejected"]) ∨
       screen_ok t1 ([] ++ [bs "saved"]) ∧ disk s'.2 = <[DIRECTORY ++ bs "note" := bs "two words"]> ∅ ∧
       (screen_ok t2 (([] ++ [bs "saved"]) ++ [cut (bs "two words")]) ∨
        screen_ok t2 (([] ++ [bs "saved"]) ++ [bs "error: file unavailable or too large"])))
    (λ _ _, False) kernel.
Proof.
  apply (@written_file_is_read_back _ stored_gate stored_spec stored_files (bs "note") (bs "two words") new_terminal [] kernel).
  - split; [apply small_mode_drawable|]. split; [split; [cbn; lia|constructor]|constructor].
  - apply new_terminal_ok.
  - split; [done|]. split; [cbn; lia|]. by repeat constructor.
  - done.
  - done.
  - apply text_fits.
Defined.

(** This kernel saves it and shows it. *)
Example saved_and_shown :
  match (t1 ← @run_command _ stored_gate (bs "write " ++ bs "note" ++ space :: bs "two words") new_terminal;
         @run_command _ stored_gate (bs "cat " ++ DIRECTORY ++ bs "note") t1) kernel with
  | (Returns t, _) => on_screen_lines t = [bs "saved"; bs "two words"]
  | _ => False
  end.
Proof. vm_compute. done. Qed.
End RoundTripSample.

(** The calls recorded are not vacuous: a file that is written is one of them. *)
Example write_is_recorded :
  let trace := (@UserTerminal.rust_main (Script * list call) traced_gate 1 1000
    (scripted [keys "write a b" ++ [KeyDown KEY_ENTER]] [], [])).2.2 in
  filter (λ c, mutates c.1.1.1 = true) trace = [(SYS_PUT_FILE, In (bs "/data/terminal/a"), Num 16, SpecIn (bs "b"))].
Proof. vm_compute. done. Qed.
