(* ===== verification/UserTests.v ===== *)
(** The small programs and the test programs of userland/hello, as processes of
    the kernel: their system calls are dispatches of Syscall.v, their loads and
    stores go through the address space of the process, and what they may not do
    is a fault of Interrupts.v.

    Literals and local variables are at addresses the compiler chooses: a literal
    is put at [text] when it is used, a local at its place from [locals] on.
    [away] is what the rest of the machine does while the program has yielded. *)

From S2P Require Import Prelude Str Device Tree TuwaiqTree TuwaiqFs Fs FsPersist Fat32 Vfs VfsData Input ShellText X86 Frames Paging PagingSpaces PagingRange PagingCopy PagingSafety Elf Wake Scheduler SchedulerInv OpenFiles Process Vm Display VmSafety VmUnmap TaskInv TaskSafety Syscall SyscallSteps SyscallUser SyscallData SyscallSafety Interrupts Canvas UserLib.

(** Where the programs aim. *)
Definition KERNEL_HEAP_ADDR : Z := 0x444444440000.
Definition NON_CANONICAL_ADDR : Z := 0x1000000000000.
Definition UNMAPPED_USER_ADDR : Z := 0x700020000000.

Section programs.
Context {PT D : Type} `{X86Addr} `{!X86_64 PT} `{BlockDevice D}.
Context (rsp stack text locals : Z) (away : System PT D → System PT D).

(** [None]: the kernel has stopped. *)
Notation Prog := (U (option (System PT D))).

(** ** What a process can do *)

Definition on_system {A} (f : System PT D → ending A * option (System PT D)) : Prog A := λ o,
  match o with Some s => f s | None => (Panics, None) end.

Definition syscall_frame (num a1 a2 a3 : Z) : SyscallFrame :=
  mk_frame 0 0 0 0 0 0 0 0 0 (as_u64 a1) (as_u64 a2) (as_u64 a3) 0 0 num.

(** [int 0x80]; a process that is ended has the code it gave, or 255. *)
Definition call (num a1 a2 a3 : Z) : Prog Z := on_system (λ s,
  match syscall_dispatch rsp stack (syscall_frame num a1 a2 a3) s with
  | None => (Panics, None)
  | Some (Returned f, s) => (Returns (as_i64 (rax f)), Some (if num =? SYS_YIELD then away s else s))
  | Some (Killed, s) => (Exits (if num =? SYS_EXIT then as_i32 a1 else 255), Some s)
  end).

Definition fault {A} (e : Exception) : Prog A := on_system (λ s,
  match (code ← fault_code e; k ← exit_with_code code rsp (kern s); Some (code, k)) with
  | None => (Panics, None)
  | Some (code, k) => (Exits code, Some (with_kern k s))
  end).

(** [read_volatile] and [write_volatile] of a byte *)
Definition load (addr : Z) : Prog byte := on_system (λ s,
  match copy_from_current_user addr 1 (kern s) with
  | Some (b :: _) => (Returns b, Some s)
  | _ => fault PageFault (Some s)
  end).

Definition store_bytes (addr : Z) (bytes : list byte) : Prog unit := on_system (λ s,
  match copy_to_current_user addr bytes (kern s) with
  | (true, k) => (Returns tt, Some (with_kern k s))
  | (false, _) => fault PageFault (Some s)
  end).
Definition store (addr : Z) (b : byte) : Prog unit := store_bytes addr [b].

Definition load_bytes (addr : Z) (n : nat) : Prog (list byte) := on_system (λ s,
  match copy_from_current_user addr n (kern s) with
  | Some bytes => (Returns bytes, Some s)
  | None => fault PageFault (Some s)
  end).

(** A call of the [ret] that was stored at [addr]: the fetch needs an executable
    page of the process. *)
Definition call_ret (addr : Z) : Prog unit := on_system (λ s,
  match (space ← current_space (kern s); translate_in_address_space space addr (mach (kern s))) with
  | Some (_, fl) => if PRESENT fl && USER_ACCESSIBLE fl && negb (NO_EXECUTE fl) then (Returns tt, Some s) else fault PageFault (Some s)
  | None => fault PageFault (Some s)
  end).

(** A local variable. *)
Definition local (at_ : Z) (init : list byte) : Prog Z :=
  _ ← store_bytes (locals + at_) init; mret (locals + at_).
Definition zeroes (n : nat) : list byte := replicate n (z2b 0).

(** ** Shared by the programs *)

(** [path_call]: a call with a literal *)
Definition path_call (num : Z) (path : list byte) : Prog Z :=
  _ ← store_bytes text path; call num text (zlen path) 0.

Definition write (msg : list byte) : Prog unit := _ ← path_call SYS_WRITE msg; mret tt.

(** [syscall(SYS_EXIT, ..)], which does not return. *)
Definition exit {A} (code : Z) : Prog A := _ ← call SYS_EXIT code 0 0; or_panic None.

(** A check with its two messages; what failed is remembered. *)
Definition report (good : bool) (pass fail : list byte) (ok : bool) : Prog bool :=
  if good then _ ← write (message pass); mret ok else _ ← write (message fail); mret false.

Definition verdict {A} (ok : bool) : Prog A := exit (if ok then 0 else 1).

(** Say what is wrong and give up. *)
Definition unexpected {A} (msg : list byte) : Prog A := _ ← write (message msg); exit 1.

Definition write_decimal (value : Z) : Prog unit := digits ← or_panic (u64_to_decimal value); write digits.

(** ** hello.rs, bad_syscall.rs, desktop_peer.rs *)

Definition hello : Prog unit :=
  _ ← write (message (bs "hello: Ring 3 ELF process alive"));
  pid ← call SYS_GETPID 0 0 0;
  _ ← write (bs "hello: my pid is ");
  _ ← write_decimal (Z.max pid 0);
  _ ← write newline;
  _ ← call SYS_YIELD 0 0 0;
  _ ← write (message (bs "hello: resumed after yield, exiting cleanly"));
  exit 0.

Definition INVALID_SYSCALL_NUMBER : Z := 999.

Definition bad_syscall : Prog unit :=
  _ ← write (message (bs "bad_syscall: about to call an unimplemented syscall number"));
  result ← call INVALID_SYSCALL_NUMBER 0 0 0;
  ok ← report (result <? 0) (bs "bad_syscall: kernel rejected it cleanly, still running -- OK")
         (bs "bad_syscall: UNEXPECTED -- invalid syscall did not report failure") true;
  verdict ok.

(** The loop; [fuel] bounds the turns that are looked at, after which [None]. *)
Fixpoint wait_two_seconds (fuel : nat) (start : Z) : Prog (option unit) :=
  match fuel with
  | 0%nat => mret None
  | S fuel =>
      now ← call SYS_UPTIME_TICKS 0 0 0;
      if now <? 0 then unexpected (bs "desktop_peer: UNEXPECTED -- uptime failed while running")
      else if 200 <=? as_u64 (now - start) then mret (Some tt)
      else _ ← call SYS_YIELD 0 0 0; wait_two_seconds fuel start
  end.

Definition desktop_peer (fuel : nat) : Prog (option unit) :=
  _ ← write (message (bs "desktop_peer: started alongside desktop"));
  start ← call SYS_UPTIME_TICKS 0 0 0;
  if start <? 0 then unexpected (bs "desktop_peer: UNEXPECTED -- uptime unavailable")
  else
    waited ← wait_two_seconds fuel start;
    match waited with
    | None => mret None
    | Some _ =>
        _ ← write (message (bs "desktop_peer: completed two-second concurrent run -- OK"));
        exit 0
    end.

(** ** Programs that fault *)

(** Privileged instructions, [ud2] and [div] by zero at ring 3 *)
Definition bad_privileged : Prog unit :=
  _ ← write (message (bs "bad_privileged: about to execute a privileged instruction (cli)"));
  _ ← fault (A := unit) GeneralProtectionFault;
  unexpected (bs "bad_privileged: UNEXPECTED -- cli did not fault").

Definition bad_ud2 : Prog unit :=
  _ ← write (message (bs "bad_ud2: about to execute ud2 (invalid opcode)"));
  _ ← fault (A := unit) InvalidOpcode;
  unexpected (bs "bad_ud2: UNEXPECTED -- ud2 did not fault").

Definition bad_divzero : Prog unit :=
  _ ← write (message (bs "bad_divzero: about to divide by zero (raw div instruction)"));
  _ ← fault (A := unit) DivideError;
  unexpected (bs "bad_divzero: UNEXPECTED -- div by zero did not fault").

Definition tuwaiq_ai_fault : Prog unit :=
  _ ← write (message (bs "ai-preview: fault provider entering isolated failure"));
  fault InvalidOpcode.

Definition bad_kernel : Prog unit :=
  _ ← write (message (bs "bad_kernel: about to read kernel memory directly (no syscall)"));
  _ ← load_bytes KERNEL_HEAP_ADDR 8;
  unexpected (bs "bad_kernel: UNEXPECTED -- kernel memory read did not fault").

Definition bad_unmapped : Prog unit :=
  _ ← write (message (bs "bad_unmapped: about to read unmapped memory inside my own user region"));
  _ ← load_bytes UNMAPPED_USER_ADDR 8;
  unexpected (bs "bad_unmapped: UNEXPECTED -- unmapped read did not fault").

Definition post_unmap_fault : Prog unit :=
  addr ← call SYS_MMAP 4096 1 0;
  if addr <? 0 then unexpected (bs "post_unmap_fault: UNEXPECTED -- mmap failed")
  else
    _ ← store addr (z2b 0x5C);
    r ← call SYS_MUNMAP addr 4096 0;
    if negb (r =? 0) then unexpected (bs "post_unmap_fault: UNEXPECTED -- munmap failed")
    else
      _ ← write (message (bs "post_unmap_fault: munmap succeeded -- OK"));
      _ ← write (message (bs "post_unmap_fault: about to read released page; expect isolated user #PF"));
      _ ← load addr;
      unexpected (bs "post_unmap_fault: UNEXPECTED -- post-unmap read returned").

Definition mmap_ro_fault : Prog unit :=
  addr ← call SYS_MMAP 4096 0 0;
  if addr <? 0 then unexpected (bs "mmap_ro_fault: UNEXPECTED -- read-only mmap failed")
  else
    first ← load addr;
    zeroed ← (if b2z first =? 0 then last ← load (addr + 4095); mret (b2z last =? 0) else mret false);
    if negb zeroed then unexpected (bs "mmap_ro_fault: UNEXPECTED -- mapping was not zero-filled")
    else
      _ ← write (message (bs "mmap_ro_fault: read-only page readable and zero-filled -- OK"));
      _ ← write (message (bs "mmap_ro_fault: about to write read-only page; expect isolated user #PF"));
      _ ← store addr (z2b 0xA5);
      unexpected (bs "mmap_ro_fault: UNEXPECTED -- write to read-only page returned").

Definition mmap_nx_fault : Prog unit :=
  addr ← call SYS_MMAP 4096 1 0;
  if addr <? 0 then unexpected (bs "mmap_nx_fault: UNEXPECTED -- writable mmap failed")
  else
    _ ← store addr (z2b 0xC3);
    _ ← write (message (bs "mmap_nx_fault: writable data byte installed -- OK"));
    _ ← write (message (bs "mmap_nx_fault: about to execute NX page; expect isolated user #PF"));
    _ ← call_ret addr;
    unexpected (bs "mmap_nx_fault: UNEXPECTED -- execution from NX page returned").

(** ** Programs that pass bad pointers *)

(** One call that should be refused, with the line before it. *)
Definition refused (what : list byte) (num a1 a2 a3 : Z) (pass fail : list byte) (ok : bool) : Prog bool :=
  _ ← write (message what);
  result ← call num a1 a2 a3;
  report (result <? 0) pass fail ok.

Definition USER_SPACE_LIMIT : Z := 0x700040000000.

Definition bad_pointer_calls (ok : bool) : Prog bool :=
  ok ← refused (bs "bad_pointer: WRITE with zero address") SYS_WRITE 0 1 0
         (bs "bad_pointer: zero address rejected -- OK") (bs "bad_pointer: UNEXPECTED -- zero address was accepted") ok;
  ok ← refused (bs "bad_pointer: about to WRITE with a kernel-address pointer") SYS_WRITE KERNEL_HEAP_ADDR 16 0
         (bs "bad_pointer: kernel rejected it cleanly, still running -- OK")
         (bs "bad_pointer: UNEXPECTED -- invalid pointer did not report failure") ok;
  ok ← refused (bs "bad_pointer: WRITE with a non-canonical pointer") SYS_WRITE NON_CANONICAL_ADDR 16 0
         (bs "bad_pointer: non-canonical pointer rejected without Ring-0 panic -- OK")
         (bs "bad_pointer: UNEXPECTED -- non-canonical pointer was accepted") ok;
  ok ← refused (bs "bad_pointer: WRITE from an unmapped in-range user address") SYS_WRITE UNMAPPED_USER_ADDR 16 0
         (bs "bad_pointer: unmapped user pointer rejected -- OK")
         (bs "bad_pointer: UNEXPECTED -- unmapped user pointer was accepted") ok;
  ok ← refused (bs "bad_pointer: WRITE crossing the user-address-space boundary") SYS_WRITE (USER_SPACE_LIMIT - 4) 8 0
         (bs "bad_pointer: user-boundary crossing rejected -- OK")
         (bs "bad_pointer: UNEXPECTED -- user-boundary crossing was accepted") ok;
  ok ← refused (bs "bad_pointer: WRITE with pointer-plus-length arithmetic overflow") SYS_WRITE (u64_max - 7) 16 0
         (bs "bad_pointer: overflowing range rejected -- OK") (bs "bad_pointer: UNEXPECTED -- overflowing range was accepted") ok;
  refused (bs "bad_pointer: WRITE with a huge length") SYS_WRITE (USER_SPACE_LIMIT - 1) u64_max 0
    (bs "bad_pointer: huge length rejected -- OK") (bs "bad_pointer: UNEXPECTED -- huge length was accepted") ok.

Definition bad_pointer_crossing (ok : bool) : Prog bool :=
  _ ← write (message (bs "bad_pointer: WRITE range crossing from mapped into unmapped page"));
  mapped ← call SYS_MMAP 4096 1 0;
  if mapped <? 0 then _ ← write (message (bs "bad_pointer: UNEXPECTED -- scratch mmap failed")); mret false
  else
    result ← call SYS_WRITE (mapped + 4092) 8 0;
    ok ← report (result <? 0) (bs "bad_pointer: mapped-to-unmapped cross-page range rejected -- OK")
           (bs "bad_pointer: UNEXPECTED -- cross-page invalid range was accepted") ok;
    _ ← call SYS_MUNMAP mapped 4096 0;
    mret ok.

Definition bad_pointer : Prog unit := ok ← bad_pointer_calls true; ok ← bad_pointer_crossing ok; verdict ok.

(** *** bad_input.rs: [buf] is local 0 *)

Definition SEEDED_EVENT : list byte := to_le_bytes (KeyDown 90).

Definition bad_input_crossing (ok : bool) : Prog bool :=
  _ ← write (message (bs "bad_input: INPUT_POLL destination crossing into an unmapped page"));
  mapped ← call SYS_MMAP 4096 1 0;
  if mapped <? 0 then _ ← write (message (bs "bad_input: UNEXPECTED -- scratch mmap failed")); mret false
  else
    result ← call SYS_INPUT_POLL (mapped + 4092) 8 0;
    ok ← report (result <? 0) (bs "bad_input: cross-page destination rejected before queue access -- OK")
           (bs "bad_input: UNEXPECTED -- cross-page destination was accepted") ok;
    _ ← call SYS_MUNMAP mapped 4096 0;
    mret ok.

Definition bad_input : Prog unit :=
  buf ← local 0 (zeroes 8);
  ok ← refused (bs "bad_input: INPUT_POLL with an undersized destination buffer") SYS_INPUT_POLL buf 4 0
         (bs "bad_input: undersized buffer rejected cleanly -- OK") (bs "bad_input: UNEXPECTED -- undersized buffer was accepted") true;
  ok ← refused (bs "bad_input: INPUT_POLL into a kernel-address destination") SYS_INPUT_POLL KERNEL_HEAP_ADDR 8 0
         (bs "bad_input: kernel-address destination rejected -- OK")
         (bs "bad_input: UNEXPECTED -- kernel-address destination was accepted") ok;
  ok ← refused (bs "bad_input: INPUT_POLL into a non-canonical destination") SYS_INPUT_POLL NON_CANONICAL_ADDR 8 0
         (bs "bad_input: non-canonical destination rejected, even if queue empty -- OK")
         (bs "bad_input: UNEXPECTED -- non-canonical destination was accepted") ok;
  ok ← bad_input_crossing ok;
  _ ← write (message (bs "bad_input: INPUT_POLL with a legitimate stack buffer"));
  good_result ← call SYS_INPUT_POLL buf 8 0;
  event ← load_bytes buf 8;
  ok ← report ((good_result =? 1) && bool_decide (event = SEEDED_EVENT))
         (bs "bad_input: seeded Z survived every invalid poll byte-for-byte -- OK")
         (bs "bad_input: UNEXPECTED -- seeded event was missing, consumed, or corrupted") ok;
  ok ← refused (bs "bad_input: invalid destination after queue became empty") SYS_INPUT_POLL NON_CANONICAL_ADDR 8 0
         (bs "bad_input: empty-queue invalid pointer still rejected -- OK")
         (bs "bad_input: UNEXPECTED -- empty queue bypassed pointer validation") ok;
  verdict ok.

(** *** bad_display.rs: [info] is local 0 *)

Definition read_u32 (bytes : list byte) (offset : nat) : Z := le_decode (slice bytes offset (offset + 4)).

(** The frame's length, 0 when it cannot be had. *)
Definition frame_length (info : list byte) : Z :=
  let height := read_u32 info 4 in
  let stride := read_u32 info 8 in
  let bytes_per_pixel := read_u32 info 12 in
  default 0 (pixels ← checked_mul u64_max height stride; checked_mul u64_max pixels bytes_per_pixel).

Definition bad_display_mapped (exact_len mapped : Z) (ok : bool) : Prog bool :=
  result ← call SYS_DISPLAY_PRESENT mapped 4096 0;
  ok ← report (result <? 0) (bs "bad_display: wrong-sized DISPLAY_PRESENT buffer rejected -- OK")
         (bs "bad_display: UNEXPECTED -- wrong-sized buffer was accepted") ok;
  ok ← refused (bs "bad_display: DISPLAY_INFO range crossing into an unmapped page") SYS_DISPLAY_INFO (mapped + 4090) 20 0
         (bs "bad_display: cross-page DISPLAY_INFO destination rejected -- OK")
         (bs "bad_display: UNEXPECTED -- cross-page destination was accepted") ok;
  _ ← store_bytes mapped (replicate 4096 (z2b 0xA5));
  ok ← refused (bs "bad_display: partially mapped exact-size source (atomicity test)") SYS_DISPLAY_PRESENT mapped exact_len 0
         (bs "bad_display: partial source rejected; verify framebuffer unchanged -- OK")
         (bs "bad_display: UNEXPECTED -- partially mapped source was accepted") ok;
  _ ← call SYS_MUNMAP mapped 4096 0;
  mret ok.

Definition bad_display : Prog unit :=
  info ← local 0 (zeroes 20);
  _ ← write (message (bs "bad_display: querying the real display byte length"));
  query_result ← call SYS_DISPLAY_INFO info 20 0;
  exact_len ← (if query_result =? 0 then record ← load_bytes info 20; mret (frame_length record) else mret 0);
  ok ← report (negb (exact_len =? 0)) (bs "bad_display: exact framebuffer length obtained -- OK")
         (bs "bad_display: UNEXPECTED -- could not obtain valid display dimensions") true;
  ok ← refused (bs "bad_display: DISPLAY_INFO into a kernel-address destination") SYS_DISPLAY_INFO KERNEL_HEAP_ADDR 20 0
         (bs "bad_display: kernel-address DISPLAY_INFO destination rejected -- OK")
         (bs "bad_display: UNEXPECTED -- kernel-address destination was accepted") ok;
  ok ← refused (bs "bad_display: DISPLAY_INFO into a non-canonical destination") SYS_DISPLAY_INFO NON_CANONICAL_ADDR 20 0
         (bs "bad_display: non-canonical DISPLAY_INFO destination rejected -- OK")
         (bs "bad_display: UNEXPECTED -- non-canonical destination was accepted") ok;
  ok ← refused (bs "bad_display: DISPLAY_PRESENT with an unmapped source buffer") SYS_DISPLAY_PRESENT UNMAPPED_USER_ADDR exact_len 0
         (bs "bad_display: unmapped DISPLAY_PRESENT source rejected -- OK")
         (bs "bad_display: UNEXPECTED -- unmapped source was accepted") ok;
  ok ← refused (bs "bad_display: DISPLAY_PRESENT with a non-canonical source") SYS_DISPLAY_PRESENT NON_CANONICAL_ADDR exact_len 0
         (bs "bad_display: non-canonical DISPLAY_PRESENT source rejected -- OK")
         (bs "bad_display: UNEXPECTED -- non-canonical source was accepted") ok;
  _ ← write (message (bs "bad_display: DISPLAY_PRESENT with a real but wrong-sized buffer"));
  mapped ← call SYS_MMAP 4096 1 0;
  ok ← (if mapped <? 0 then _ ← write (message (bs "bad_display: could not mmap a scratch buffer to test with")); mret false
        else bad_display_mapped exact_len mapped ok);
  verdict ok.

(** *** bad_mmap.rs *)

Definition HUGE_LEN : Z := 0x100000000000.
Definition MAX_MMAP_LEN_PLUS_ONE : Z := 64 * 1024 * 1024 + 1.

(** The loop over the fresh page; it stops at a byte that is not zero. *)
Fixpoint all_zero (n : nat) (addr : Z) : Prog bool :=
  match n with
  | 0%nat => mret true
  | S n => b ← load addr; if b2z b =? 0 then all_zero n (addr + 1) else mret false
  end.

Definition bad_mmap_page (addr : Z) (ok : bool) : Prog bool :=
  _ ← write (message (bs "bad_mmap: legitimate mmap succeeded, verifying full-page zero-fill"));
  zeroed ← all_zero 4096 addr;
  ok ← report zeroed (bs "bad_mmap: all 4096 fresh bytes were zero -- OK") (bs "bad_mmap: UNEXPECTED -- fresh mapping exposed nonzero data") ok;
  _ ← store addr (z2b 0xAB);
  readback ← load addr;
  ok ← report (b2z readback =? 0xAB) (bs "bad_mmap: write/read-back through the mapped page matched -- OK")
         (bs "bad_mmap: UNEXPECTED -- read-back did not match what was written") ok;
  _ ← write (message (bs "bad_mmap: releasing the mapping via munmap"));
  munmap_result ← call SYS_MUNMAP addr 4096 0;
  report (munmap_result =? 0) (bs "bad_mmap: munmap of an owned mapping succeeded -- OK")
    (bs "bad_mmap: UNEXPECTED -- munmap of an owned mapping failed") ok.

Definition bad_mmap_rounding (rounded : Z) (ok : bool) : Prog bool :=
  _ ← store (rounded + 4095) (z2b 0x5A);
  last ← load (rounded + 4095);
  ok ← report (b2z last =? 0x5A) (bs "bad_mmap: one-byte request supplied one full usable page -- OK")
         (bs "bad_mmap: UNEXPECTED -- rounded page was not writable") ok;
  r ← call SYS_MUNMAP rounded 4096 0;
  if negb (r =? 0) then _ ← write (message (bs "bad_mmap: UNEXPECTED -- rounded mapping cleanup failed")); mret false else mret ok.

Definition bad_mmap : Prog unit :=
  ok ← refused (bs "bad_mmap: requesting a zero-length mapping") SYS_MMAP 0 1 0
         (bs "bad_mmap: zero-length mmap rejected cleanly -- OK") (bs "bad_mmap: UNEXPECTED -- zero-length mmap succeeded") true;
  ok ← refused (bs "bad_mmap: requesting a grossly oversized mapping") SYS_MMAP HUGE_LEN 1 0
         (bs "bad_mmap: oversized mmap rejected cleanly -- OK") (bs "bad_mmap: UNEXPECTED -- oversized mmap succeeded") ok;
  ok ← refused (bs "bad_mmap: requesting one byte beyond the per-call bound") SYS_MMAP MAX_MMAP_LEN_PLUS_ONE 1 0
         (bs "bad_mmap: MAX_MMAP_LEN+1 rejected -- OK") (bs "bad_mmap: UNEXPECTED -- over-bound mmap succeeded") ok;
  _ ← write (message (bs "bad_mmap: requesting a legitimate one-page writable mapping"));
  addr ← call SYS_MMAP 4096 1 0;
  ok ← (if addr <? 0 then _ ← write (message (bs "bad_mmap: UNEXPECTED -- legitimate small mmap was rejected")); mret false
        else bad_mmap_page addr ok);
  _ ← write (message (bs "bad_mmap: requesting one byte to verify page rounding"));
  rounded ← call SYS_MMAP 1 1 0;
  ok ← (if rounded <? 0 then _ ← write (message (bs "bad_mmap: UNEXPECTED -- one-byte mmap failed")); mret false
        else bad_mmap_rounding rounded ok);
  verdict ok.

(** *** bad_munmap.rs *)

Definition UNALIGNED_PTR : Z := 0x700010000001.
Definition UNOWNED_PTR : Z := 0x700010000000.
Definition OVERFLOW_LEN : Z := 2 ^ 64 - UNOWNED_PTR.
Definition MMAP_LIMIT : Z := 0x70003FF00000.

Definition bad_munmap_calls (ok : bool) : Prog bool :=
  _ ← write (message (bs "bad_munmap: requesting zero address and zero length"));
  zero_ptr ← call SYS_MUNMAP 0 4096 0;
  zero_len ← call SYS_MUNMAP UNOWNED_PTR 0 0;
  ok ← report ((zero_ptr <? 0) && (zero_len <? 0)) (bs "bad_munmap: zero pointer/length rejected -- OK")
         (bs "bad_munmap: UNEXPECTED -- zero pointer or length was accepted") ok;
  ok ← refused (bs "bad_munmap: requesting munmap of an unaligned pointer") SYS_MUNMAP UNALIGNED_PTR 4096 0
         (bs "bad_munmap: unaligned pointer rejected cleanly -- OK") (bs "bad_munmap: UNEXPECTED -- unaligned pointer was accepted") ok;
  ok ← refused (bs "bad_munmap: requesting munmap of an address never mmap'd by this process") SYS_MUNMAP UNOWNED_PTR 4096 0
         (bs "bad_munmap: never-mapped address rejected cleanly -- OK")
         (bs "bad_munmap: UNEXPECTED -- never-mapped address was accepted") ok;
  ok ← refused (bs "bad_munmap: requesting an overflowing range") SYS_MUNMAP UNOWNED_PTR OVERFLOW_LEN 0
         (bs "bad_munmap: arithmetic-overflow range rejected -- OK") (bs "bad_munmap: UNEXPECTED -- overflowing range was accepted") ok;
  ok ← refused (bs "bad_munmap: requesting a non-canonical range") SYS_MUNMAP NON_CANONICAL_ADDR 4096 0
         (bs "bad_munmap: non-canonical pointer rejected -- OK") (bs "bad_munmap: UNEXPECTED -- non-canonical pointer was accepted") ok;
  ok ← refused (bs "bad_munmap: requesting a kernel-space range") SYS_MUNMAP KERNEL_HEAP_ADDR 4096 0
         (bs "bad_munmap: kernel-space pointer rejected -- OK") (bs "bad_munmap: UNEXPECTED -- kernel-space pointer was accepted") ok;
  refused (bs "bad_munmap: requesting a range that crosses the mmap arena boundary") SYS_MUNMAP (MMAP_LIMIT - 4096) 8192 0
    (bs "bad_munmap: mmap-arena boundary crossing rejected -- OK")
    (bs "bad_munmap: UNEXPECTED -- mmap-arena boundary crossing was accepted") ok.

(** A range of two pages whose second is a hole. *)
Definition bad_munmap_hole (pair : Z) (ok : bool) : Prog bool :=
  _ ← write (message (bs "bad_munmap: unmapping full range containing hole (atomicity test)"));
  whole_result ← call SYS_MUNMAP pair 8192 0;
  if 0 <=? whole_result then _ ← write (message (bs "bad_munmap: UNEXPECTED -- partially mapped range was accepted")); mret false
  else
    before ← load pair;
    _ ← store pair (z2b 0xA7);
    same ← (if b2z before =? 0x6D then after ← load pair; mret (b2z after =? 0xA7) else mret false);
    report same (bs "bad_munmap: failed range left first page intact -- OK")
      (bs "bad_munmap: UNEXPECTED -- first page contents changed") ok.

Definition bad_munmap_pair (pair : Z) (ok : bool) : Prog bool :=
  _ ← store pair (z2b 0x6D);
  second_result ← call SYS_MUNMAP (pair + 4096) 4096 0;
  ok ← (if negb (second_result =? 0) then
          _ ← write (message (bs "bad_munmap: UNEXPECTED -- could not create second-page hole")); mret false
        else bad_munmap_hole pair ok);
  first_result ← call SYS_MUNMAP pair 4096 0;
  if negb (first_result =? 0) then _ ← write (message (bs "bad_munmap: UNEXPECTED -- first-page cleanup failed")); mret false
  else
    again ← call SYS_MUNMAP pair 4096 0;
    report (again <? 0) (bs "bad_munmap: double unmap rejected -- OK") (bs "bad_munmap: UNEXPECTED -- double unmap was accepted") ok.

Definition bad_munmap : Prog unit :=
  ok ← bad_munmap_calls true;
  _ ← write (message (bs "bad_munmap: constructing a two-page range with a hole in page two"));
  pair ← call SYS_MMAP 8192 1 0;
  ok ← (if pair <? 0 then _ ← write (message (bs "bad_munmap: UNEXPECTED -- two-page mmap failed")); mret false
        else bad_munmap_pair pair ok);
  verdict ok.

(** *** mmap_partial_failure.rs *)

Definition ARENA_BASE : Z := 0x700010000000.
Definition TEST_LEN : Z := 64 * 1024.

Definition mmap_partial_failure : Prog unit :=
  failed ← call SYS_MMAP TEST_LEN 1 0;
  if 0 <=? failed then unexpected (bs "mmap_partial_failure: UNEXPECTED -- injected partial map succeeded")
  else
    _ ← write (message (bs "mmap_partial_failure: injected partial map rejected -- OK"));
    retry ← call SYS_MMAP TEST_LEN 1 0;
    if (retry <? 0) || negb (retry =? ARENA_BASE) then unexpected (bs "mmap_partial_failure: UNEXPECTED -- rollback advanced or blocked arena")
    else
      zeroed ← all_zero (Z.to_nat TEST_LEN) retry;
      if negb zeroed then unexpected (bs "mmap_partial_failure: UNEXPECTED -- retry was not zero-filled")
      else
        _ ← store retry (z2b 0xA5);
        _ ← store (retry + TEST_LEN - 1) (z2b 0x5A);
        first ← load retry;
        written ← (if b2z first =? 0xA5 then last ← load (retry + TEST_LEN - 1); mret (b2z last =? 0x5A) else mret false);
        if negb written then unexpected (bs "mmap_partial_failure: UNEXPECTED -- retry was not writable")
        else
          r ← call SYS_MUNMAP retry TEST_LEN 0;
          if negb (r =? 0) then unexpected (bs "mmap_partial_failure: UNEXPECTED -- retry cleanup failed")
          else
            _ ← write (message (bs "mmap_partial_failure: rollback, same-address retry, zero-fill, and cleanup -- OK"));
            exit 0.

(** ** The tests of the file calls *)

Definition NON_CANONICAL : Z := 0x800000000000.
Definition KERNEL_ADDRESS : Z := 0x444444440000.
Definition UNMAPPED_USER : Z := 0x700020000000.
Definition hostile : list Z := [NON_CANONICAL; KERNEL_ADDRESS; UNMAPPED_USER; 0].

Definition fail {A} (msg : list byte) : Prog A := _ ← write msg; _ ← write (bs " FAIL" ++ newline); exit 1.

(** [if a != x || b != y .. { fail(msg) }]: the calls are made until one gives
    something else. *)
Fixpoint all_give (calls : list (Prog Z * Z)) : Prog bool :=
  match calls with
  | [] => mret true
  | (c, expected) :: calls => r ← c; if r =? expected then all_give calls else mret false
  end.
Definition expect (calls : list (Prog Z * Z)) (msg : list byte) : Prog unit :=
  good ← all_give calls; if good : bool then mret tt else fail msg.
Definition rejected (c : Prog Z) : Prog Z * Z := (c, -1).

(** What a call gives when the bytes at [addr] are then [bytes]; -2 otherwise. *)
Definition filled (c : Prog Z) (addr : Z) (bytes : list byte) : Prog Z :=
  r ← c; found ← load_bytes addr (length bytes); mret (if bool_decide (found = bytes) then r else -2).

(** *** file_api_test.rs: [cwd], [first], [rest] and [rewound] are locals 0, 64,
    80 and 96 *)

Definition DATA_TXT : list byte := bs "data.txt".

Definition api_paths : Prog unit :=
  cwd ← local 0 (zeroes 64);
  _ ← expect [(filled (call SYS_GETCWD cwd 64 0) cwd (bs "/phase6-test"), 12)] (bs "file-api: initial per-process cwd");
  _ ← expect ((λ bad, rejected (call SYS_GETCWD bad 64 0)) <$> hostile) (bs "file-api: GETCWD accepted invalid pointer");
  _ ← expect [(path_call SYS_CHDIR (bs "."), 0); (path_call SYS_CHDIR (bs ".."), 0); (path_call SYS_CHDIR (bs "/phase6-test"), 0);
              rejected (path_call SYS_CHDIR DATA_TXT); rejected (path_call SYS_CHDIR (bs "missing"))] (bs "file-api: CHDIR semantics");
  _ ← expect ((λ bad, rejected (call SYS_OPEN bad 8 0)) <$> hostile) (bs "file-api: OPEN accepted invalid pointer");
  _ ← store_bytes text DATA_TXT;
  _ ← expect [rejected (call SYS_OPEN text u64_max 0)] (bs "file-api: OPEN accepted huge length");
  _ ← expect [rejected (call SYS_OPEN (u64_max - 3) 8 0); rejected (call SYS_OPEN text 0 0)]
        (bs "file-api: OPEN accepted overflow/zero length");
  _ ← expect [rejected (path_call SYS_OPEN [z2b 0xFF]); rejected (path_call SYS_OPEN (bs "data" ++ [z2b 0] ++ bs "txt"))]
        (bs "file-api: OPEN accepted malformed path");
  expect [rejected (path_call SYS_OPEN (replicate 121 (z2b 120)))] (bs "file-api: OPEN accepted overlong path").

Definition api_crossing (crossing : Z) : Prog unit :=
  _ ← expect [rejected (call SYS_GETCWD crossing 64 0)] (bs "file-api: GETCWD accepted cross-page destination");
  _ ← expect [rejected (call SYS_OPEN crossing 8 0)] (bs "file-api: OPEN accepted cross-page path");
  _ ← expect ((λ bad, rejected (call SYS_SPAWN bad 8 0)) <$> hostile) (bs "file-api: SPAWN accepted invalid pointer");
  _ ← store_bytes text (bs "missing");
  expect [rejected (call SYS_SPAWN crossing 8 0); rejected (call SYS_SPAWN (u64_max - 3) 8 0); rejected (call SYS_SPAWN text u64_max 0);
          rejected (call SYS_SPAWN text 0 0); rejected (path_call SYS_SPAWN (bs "missing"))] (bs "file-api: SPAWN accepted invalid path").

(** The call with the line that shows what it gave instead. *)
Definition api_rest (handle : Z) : Prog unit :=
  rest ← local 80 (zeroes 16);
  count ← call SYS_READ handle rest 16;
  found ← load_bytes rest 16;
  if (count =? 6) && bool_decide (take 6 found = bs "6-data") then mret tt
  else
    _ ← write (bs "file-api: sequential count=");
    _ ← write_decimal (Z.max count 0);
    _ ← write (bs " bytes=");
    shown ← or_panic (slice_to (Z.to_nat (Z.max count 0)) found);
    _ ← write shown;
    _ ← write newline;
    fail (bs "file-api: sequential READ mismatch").

Definition api_reads (handle page crossing : Z) : Prog Z :=
  _ ← expect [rejected (call SYS_READ handle NON_CANONICAL 0); rejected (call SYS_READ u64_max page 0); (call SYS_READ handle page 0, 0)]
        (bs "file-api: zero-length READ validation");
  _ ← expect ((λ bad, rejected (call SYS_READ handle bad 5)) <$> hostile) (bs "file-api: READ accepted invalid destination");
  read_only ← call SYS_MMAP 4096 0 0;
  _ ← (if read_only <? 0 then fail (bs "file-api: READ accepted read-only destination") else mret tt);
  _ ← expect [rejected (call SYS_READ handle read_only 5)] (bs "file-api: READ accepted read-only destination");
  _ ← expect [rejected (call SYS_READ handle crossing 8); rejected (call SYS_READ handle page 4097)]
        (bs "file-api: READ accepted cross-page/huge destination");
  first ← local 64 (zeroes 5);
  _ ← expect [(filled (call SYS_READ handle first 5) first (bs "phase"), 5)] (bs "file-api: invalid READ consumed data");
  mret read_only.

Definition api_seek (handle : Z) : Prog unit :=
  _ ← expect [(call SYS_SEEK handle 0 0, 0)] (bs "file-api: SEEK rewind failed");
  rewound ← local 96 (zeroes 5);
  _ ← expect [(filled (call SYS_READ handle rewound 5) rewound (bs "phase"), 5); rejected (call SYS_SEEK handle 12 0);
              rejected (call SYS_SEEK u64_max 0 0); (call SYS_SEEK handle 11 0, 11)] (bs "file-api: SEEK bounds/handle semantics");
  _ ← expect [(call SYS_READ handle (locals + 80) 16, 0)] (bs "file-api: EOF was not stable");
  expect [(call SYS_CLOSE handle 0 0, 0); rejected (call SYS_CLOSE handle 0 0)] (bs "file-api: CLOSE/double-close semantics").

(** The sixteen handles there are. *)
Fixpoint open_all (n : nat) : Prog (list Z) :=
  match n with
  | 0%nat => mret []
  | S n =>
      slot ← path_call SYS_OPEN DATA_TXT;
      if slot <? 3 then fail (bs "file-api: bounded handle table filled early")
      else slots ← open_all n; mret (slot :: slots)
  end.

Definition api_handles : Prog unit :=
  handles ← open_all 16;
  _ ← expect [rejected (path_call SYS_OPEN DATA_TXT)] (bs "file-api: handle exhaustion not rejected");
  expect ((λ handle, (call SYS_CLOSE handle 0 0, 0)) <$> handles) (bs "file-api: handle cleanup failed").

Definition file_api_test : Prog unit :=
  _ ← api_paths;
  page ← call SYS_MMAP 4096 1 0;
  _ ← (if page <? 0 then fail (bs "file-api: mmap setup failed") else mret tt);
  let crossing := page + 4092 in
  _ ← api_crossing crossing;
  handle ← path_call SYS_OPEN DATA_TXT;
  _ ← (if handle <? 3 then fail (bs "file-api: OPEN failed") else mret tt);
  read_only ← api_reads handle page crossing;
  _ ← api_rest handle;
  _ ← api_seek handle;
  _ ← api_handles;
  _ ← expect [(call SYS_MUNMAP page 4096 0, 0)] (bs "file-api: mmap cleanup failed");
  _ ← expect [(call SYS_MUNMAP read_only 4096 0, 0)] (bs "file-api: read-only mmap cleanup failed");
  last ← path_call SYS_OPEN DATA_TXT;
  _ ← (if last <? 3 then fail (bs "file-api: exit-cleanup handle setup failed") else mret tt);
  _ ← write (message (bs "file-api: PASS cwd paths malformed-pointers cross-page atomic-read seek eof handles exit-cleanup"));
  exit 0.

(** *** file_mutation_test.rs: a path is at [text], data at [text + 2048]; the
    descriptor is local 0, an answer local 64 *)

Definition DIR : list byte := bs "/data/file-mutation-test/session".
Definition TEMP : list byte := bs "/data/file-mutation-test/session/record.txt".
Definition PERSIST : list byte := bs "/data/file-mutation-test/persist.txt".
Definition DATA : Z := text + 2048.

Definition buffer_spec (pointer length : Z) : list byte := le_encode 8 pointer ++ le_encode 8 length.

Definition put_with_spec (path spec : list byte) : Prog Z :=
  at_ ← local 0 spec; _ ← store_bytes text path; call SYS_PUT_FILE text (zlen path) at_.
Definition put (path data : list byte) : Prog Z :=
  _ ← store_bytes DATA data; put_with_spec path (buffer_spec DATA (zlen data)).
Definition remove (path : list byte) : Prog Z := path_call SYS_REMOVE path.
(** [call] with a path and a third argument *)
Definition path_call3 (num : Z) (path : list byte) (a3 : Z) : Prog Z :=
  _ ← store_bytes text path; call num text (zlen path) a3.

Definition stat (path : list byte) : Prog (Z * Z) :=
  record ← local 64 (zeroes 16);
  _ ← expect [(path_call3 SYS_STAT path record, 0)] (bs "file-mutation: stat failed");
  bytes ← load_bytes record 16;
  mret (le_decode (take 8 bytes), le_decode (slice bytes 8 16)).

Definition read_exact (path expected : list byte) : Prog bool :=
  handle ← path_call SYS_OPEN path;
  if (handle <? 3) || (64 <? zlen expected) then mret false
  else
    output ← local 64 (zeroes 64);
    count ← call SYS_READ handle output 64;
    r ← call SYS_CLOSE handle 0 0;
    found ← load_bytes output (length expected);
    mret ((count =? zlen expected) && bool_decide (found = expected) && (r =? 0)).

Definition mutation_pointers (crossing : Z) : Prog unit :=
  _ ← store_bytes DATA (bs "safe");
  valid ← local 128 (buffer_spec DATA 4);
  _ ← expect (hostile ≫= λ bad, [rejected (call SYS_PUT_FILE bad 8 valid); rejected (call SYS_MKDIR bad 8 0); rejected (call SYS_REMOVE bad 8 0)])
        (bs "file-mutation: hostile path pointer accepted");
  _ ← expect [rejected (path_call3 SYS_PUT_FILE PERSIST crossing)] (bs "file-mutation: cross-page descriptor accepted");
  _ ← expect ((λ bad, rejected (put_with_spec PERSIST (buffer_spec bad 4))) <$> hostile) (bs "file-mutation: hostile data pointer accepted");
  _ ← expect [rejected (put_with_spec PERSIST (buffer_spec crossing 8))] (bs "file-mutation: cross-page data accepted");
  _ ← store_bytes DATA (bs "x");
  _ ← expect [rejected (put_with_spec PERSIST (buffer_spec (u64_max - 3) 8)); rejected (put_with_spec PERSIST (buffer_spec DATA 4097));
              rejected (put_with_spec PERSIST (buffer_spec 0 0)); rejected (call SYS_PUT_FILE text u64_max valid)]
        (bs "file-mutation: malformed range accepted");
  _ ← expect [rejected (path_call SYS_MKDIR (bs "bad" ++ [z2b 0] ++ bs "path"))] (bs "file-mutation: malformed path accepted");
  expect [rejected (put (bs "/apps/hello") (bs "overwrite")); rejected (remove (bs "/apps/hello"));
          rejected (put (bs "/data/file-mutation-test/../../apps/hello") (bs "escape")); rejected (put (bs "/data/peer/secret") (bs "cross-app"))]
    (bs "file-mutation: namespace escape accepted").

Definition mutation_files : Prog unit :=
  _ ← expect [(path_call SYS_MKDIR DIR, 0)] (bs "file-mutation: mkdir");
  _ ← expect [(put TEMP (bs "first"), 0); (put TEMP (bs "updated-record"), 0)] (bs "file-mutation: create/update");
  '(kind, size) ← stat TEMP;
  _ ← (if negb (kind =? 1) || negb (size =? 14) then fail (bs "file-mutation: file metadata") else mret tt);
  '(kind, size) ← stat DIR;
  _ ← (if negb (kind =? 2) || negb (size =? 1) then fail (bs "file-mutation: directory metadata") else mret tt);
  listing ← local 64 (zeroes 64);
  spec ← local 128 (buffer_spec listing 64);
  _ ← expect [(filled (path_call3 SYS_READDIR DIR spec) listing (message (bs "record.txt")), 11)] (bs "file-mutation: directory listing");
  same ← read_exact TEMP (bs "updated-record");
  if same : bool then mret tt else fail (bs "file-mutation: reopen updated file").

Definition mutation_outputs (crossing : Z) : Prog unit :=
  spec ← local 0 (buffer_spec NON_CANONICAL 16);
  expect [rejected (path_call3 SYS_READDIR DIR spec); rejected (path_call3 SYS_READDIR DIR crossing);
          rejected (path_call3 SYS_STAT TEMP NON_CANONICAL); rejected (path_call3 SYS_STAT TEMP crossing)]
    (bs "file-mutation: hostile output pointer accepted").

(** [SYS_STAT] with the third argument 0 fails whether or not there is a file. *)
Definition mutation_removes : Prog unit :=
  expect [rejected (remove DIR); (remove TEMP, 0); rejected (path_call SYS_STAT TEMP); (remove DIR, 0)]
    (bs "file-mutation: atomic remove semantics").

Definition file_mutation_test : Prog unit :=
  page ← call SYS_MMAP 4096 1 0;
  _ ← (if page <? 0 then fail (bs "file-mutation: mmap setup") else mret tt);
  let crossing := page + 4092 in
  _ ← mutation_pointers crossing;
  _ ← mutation_files;
  _ ← mutation_outputs crossing;
  _ ← mutation_removes;
  _ ← expect [(put PERSIST (bs "ring3-persist-v1"), 0); (put PERSIST (bs "ring3-persist-v2"), 0)] (bs "file-mutation: persistent replacement");
  same ← read_exact PERSIST (bs "ring3-persist-v2");
  _ ← (if same : bool then mret tt else fail (bs "file-mutation: persistent reopen"));
  _ ← expect [(call SYS_MUNMAP page 4096 0, 0)] (bs "file-mutation: mmap cleanup");
  _ ← write (message (bs "file-mutation: PASS private-namespace create update stat readdir remove hostile-pointers persistent-data"));
  exit 0.

(** ** tuwaiq_ai.rs: the assistant's provider *)

Inductive ProviderError := Unavailable | InvalidState.
Record LocalDevelopmentProvider := mk_provider { running : bool }.

Definition identity : list byte := bs "local-development-provider".
Definition start (p : LocalDevelopmentProvider) : (unit + ProviderError) * LocalDevelopmentProvider :=
  if running p then (inr InvalidState, p) else (inl tt, mk_provider true).
Definition generate (request : list byte) (p : LocalDevelopmentProvider) : (list byte + ProviderError) * LocalDevelopmentProvider :=
  if running p then (inr Unavailable, p) else (inr InvalidState, p).
Definition shutdown (p : LocalDevelopmentProvider) : LocalDevelopmentProvider := mk_provider false.

Definition tuwaiq_ai : Prog unit :=
  pid ← call SYS_GETPID 0 0 0;
  _ ← write (bs "ai-preview: assistant service started in Ring 3 pid=");
  _ ← write_decimal (Z.max pid 0);
  _ ← write newline;
  let provider := mk_provider false in
  _ ← write (bs "ai-preview: provider=");
  _ ← write identity;
  _ ← write (message (bs " telemetry=off network=off capabilities=none"));
  let '(started, provider) := start provider in
  _ ← (match started with inr _ => exit 2 | inl _ => mret tt end);
  let '(generated, provider) := generate (bs "status") provider in
  _ ← (match generated with
       | inr Unavailable => write (message (bs "ai-preview: inference unavailable; no local model runtime is installed"))
       | _ => exit 3
       end);
  let provider := shutdown provider in
  _ ← write (message (bs "ai-preview: provider stopped; assistant service exiting cleanly"));
  exit 0.

(** ** mmap_exhaustion.rs *)

Definition CHUNK_LEN : Z := 64 * 1024 * 1024.
Definition MAX_RANGES : nat := 12.

Definition write_ticks (prefix : list byte) (delta : Z) : Prog unit :=
  _ ← write prefix; _ ← write_decimal (as_u64 delta); write (message (bs " ticks")).

(** The ranges that were had, and whether the last request was rejected. *)
Fixpoint take_chunks (n : nat) (ranges : list Z) : Prog (list Z * bool) :=
  match n with
  | 0%nat => mret (ranges, false)
  | S n =>
      ticks_before ← call SYS_UPTIME_TICKS 0 0 0;
      result ← call SYS_MMAP CHUNK_LEN 1 0;
      ticks_after ← call SYS_UPTIME_TICKS 0 0 0;
      if result <? 0 then mret (ranges, true)
      else if ticks_after <=? ticks_before then
        unexpected (bs "mmap_exhaustion: UNEXPECTED -- timer did not advance during large mmap")
      else
        _ ← write_ticks (bs "mmap_exhaustion: timer advanced during 64 MiB mmap -- OK delta=") (ticks_after - ticks_before);
        _ ← write (message (bs "mmap_exhaustion: retained one full chunk"));
        take_chunks n (ranges ++ [result])
  end.

Fixpoint give_chunks (ranges : list Z) : Prog unit :=
  match ranges with
  | [] => mret tt
  | range :: ranges =>
      ticks_before ← call SYS_UPTIME_TICKS 0 0 0;
      r ← call SYS_MUNMAP range CHUNK_LEN 0;
      if negb (r =? 0) then unexpected (bs "mmap_exhaustion: UNEXPECTED -- retained chunk cleanup failed")
      else
        ticks_after ← call SYS_UPTIME_TICKS 0 0 0;
        if ticks_after <=? ticks_before then unexpected (bs "mmap_exhaustion: UNEXPECTED -- timer did not advance during large munmap")
        else
          _ ← write_ticks (bs "mmap_exhaustion: timer advanced during 64 MiB munmap -- OK delta=") (ticks_after - ticks_before);
          give_chunks ranges
  end.

Definition exhaustion_retry (expected_retry : Z) : Prog unit :=
  retry ← call SYS_MMAP 4096 1 0;
  if (retry <? 0) || negb (retry =? expected_retry) then unexpected (bs "mmap_exhaustion: UNEXPECTED -- failed request left pages or advanced cursor")
  else
    _ ← write (message (bs "mmap_exhaustion: immediate retry reused failed range (rollback) -- OK"));
    zeroed ← all_zero 4096 retry;
    _ ← store retry (z2b 0xD3);
    good ← (if zeroed : bool then b ← load retry; mret (b2z b =? 0xD3) else mret false);
    if negb good then unexpected (bs "mmap_exhaustion: UNEXPECTED -- retry page zero/write/read check failed")
    else
      r ← call SYS_MUNMAP retry 4096 0;
      if negb (r =? 0) then unexpected (bs "mmap_exhaustion: UNEXPECTED -- retry page cleanup failed") else mret tt.

Definition exhaustion_reuse : Prog unit :=
  reused ← call SYS_MMAP 4096 1 0;
  if reused <? 0 then unexpected (bs "mmap_exhaustion: UNEXPECTED -- mmap after release failed")
  else
    b ← load reused;
    if negb (b2z b =? 0) then unexpected (bs "mmap_exhaustion: UNEXPECTED -- reused frame was not scrubbed")
    else
      _ ← store reused (z2b 0x4E);
      b ← load reused;
      good ← (if b2z b =? 0x4E then r ← call SYS_MUNMAP reused 4096 0; mret (r =? 0) else mret false);
      if negb good then unexpected (bs "mmap_exhaustion: UNEXPECTED -- reused frame access/cleanup failed") else mret tt.

Definition mmap_exhaustion : Prog unit :=
  _ ← write (message (bs "mmap_exhaustion: allocating 64 MiB chunks until rejection"));
  '(ranges, saw_failure) ← take_chunks MAX_RANGES [];
  if negb saw_failure then unexpected (bs "mmap_exhaustion: UNEXPECTED -- no rejection within bounded arena")
  else
    _ ← write (message (bs "mmap_exhaustion: allocation rejected under bounded exhaustion -- OK"));
    _ ← exhaustion_retry (ARENA_BASE + zlen ranges * CHUNK_LEN);
    _ ← give_chunks ranges;
    _ ← write (message (bs "mmap_exhaustion: retained frames released via MUNMAP -- OK"));
    _ ← exhaustion_reuse;
    _ ← write (message (bs "mmap_exhaustion: frame reuse remained zero-filled and writable -- OK"));
    exit 0.
End programs.
