(* ===== verification/UserTestsSafety.v ===== *)
(** The small programs and the test programs of userland/hello (UserTests.v) on
    the kernel model: those that attack the kernel end as they are meant to on
    every machine, and the tests of the repository pass on a small one.

    [in_order] is what a running program keeps true of the system, with what it
    knows about one range of addresses; [uwp] (UserLib.v) follows a program from
    state to state. *)

From S2P Require Import Prelude Str Device Tree TuwaiqTree TuwaiqFs Fs FsPersist Fat32 Vfs VfsData Input ShellText X86 Frames Paging PagingSpaces PagingRange PagingCopy PagingSafety Elf Wake Scheduler SchedulerInv OpenFiles Process Vm Display VmSafety VmUnmap TaskInv TaskSafety Syscall SyscallSteps SyscallUser SyscallData SyscallSafety Interrupts Canvas UserLib UserTests.

(** ** The programs on every machine *)

Section every_machine.
Context {PT D : Type} `{!BootMap, !KernelFrames, !X86Addr, !X86AddrSpec, !X86_64 PT, !X86_64Spec PT USER_REGION_PML4_INDEX} `{BlockDeviceSpec D}.
Context (rsp stack text : Z) (away : System PT D → System PT D) (s0 : System PT D).
Implicit Types (s : System PT D) (k : Kernel PT).

(** [p] ends with [code]; the kernel is as the invariants of the machine want it,
    and files, screen and input are as they were. *)
Definition ends_with {A} (code : Z) (p : U (option (System PT D)) A) s : Prop :=
  ∃ s', p (Some s) = (Exits code, Some s') ∧ kernel_safe (kern s') ∧ vfs s' = vfs s ∧ screen s' = screen s ∧ sys_input s' = sys_input s.

Notation Prog := (U (option (System PT D))).
Notation kcall := (call rsp stack away).
Notation print := (write rsp stack text away).

Lemma user_range_views k addr len w : user_range k addr len w ↔
  current_space k ≠ None ∧ USER_SPACE_BASE <= addr < user_end ∧ addr + len <= user_end ∧
  ∀ a, addr <= a < addr + len → ∃ b fl, current_view k a = Some (b, fl) ∧ allowed w fl = true.
Proof.
  unfold user_range, range_ok, current_view. split.
  - intros (space&Es&?&?&Hall). rewrite Es. split; [congruence|]. split; [done|]. split; [done|]. intros a Ha. destruct (Hall a Ha) as (l&Hl&Hfl).
    exists (memory (mach k) l.1), l.2. split; [|done]. cbn [mbind option_bind]. unfold PagingSafety.view. simpl. by rewrite Hl.
  - intros (Hs&?&?&Hall). destruct (current_space k) as [space|]; [|done]. exists space. do 3 (split; [done|]).
    intros a Ha. destruct (Hall a Ha) as (b&fl&Hv&Hfl). cbn [mbind option_bind] in Hv.
    apply PagingSafety.view_located in Hv as (l&Hl&<-). by exists l.
Qed.

(** The program can use its literals; the addresses from [base] on have the
    permissions [fl], or nothing is mapped there, and nothing is mapped in [gap];
    its arena ends at [arena]. *)
Definition room_to_run (gap : Z → Prop) (base span : Z) (fl : option PageTableFlags) (arena : option Z) k : Prop :=
  next_id k + 2 <= u32_max ∧ user_range k text 4096 true ∧
  (∀ a, base <= a < base + span → snd <$> current_view k a = fl) ∧ current_arena k = arena ∧
  (∀ a, gap a → current_view k a = None).

Section in_order.
Context (gap : Z → Prop) (base span : Z) (fl : option PageTableFlags) (arena : option Z).
Notation room_to_run := (room_to_run gap base span fl arena).

Definition in_order (o : option (System PT D)) : Prop :=
  ∃ s, o = Some s ∧ sound_kernel (kern s) ∧ room_to_run (kern s) ∧ vfs s = vfs s0 ∧ screen s = screen s0 ∧ sys_input s = sys_input s0.

Lemma in_order_intro s : sound_kernel (kern s) → room_to_run (kern s) → vfs s = vfs s0 → screen s = screen s0 → sys_input s = sys_input s0 → in_order (Some s).
Proof. intros. by exists s. Qed.

Lemma stored_current_space addr data k k' : stored addr data k k' → current_space k' = current_space k.
Proof. intros (Hs&_). unfold current_space, current_process. by rewrite Hs. Qed.

Lemma stored_room addr data k k' : stored addr data k k' → room_to_run k → room_to_run k'.
Proof.
  intros Hst (Hn&Ht&Hu&Har&Hg). pose proof (stored_current_space _ _ _ _ Hst) as Hsp. pose proof (stored_process _ _ _ _ Hst) as Hp.
  destruct Hst as (_&Hid&_&_&Hv). split; [by rewrite Hid|]. split; [|split; [|split]].
  - rewrite user_range_views in *. rewrite Hsp. destruct Ht as (?&?&?&Hall). do 3 (split; [done|]). intros x Hx.
    destruct (Hall x Hx) as (b&f&E&Hfl). rewrite Hv, E. by eexists _, _.
  - intros a Ha. rewrite Hv, <- (Hu a Ha). by destruct (current_view k a) as [[??]|].
  - unfold current_arena in *. by rewrite Hp.
  - intros a Ha. by rewrite Hv, Hg.
Qed.

Lemma as_u64_register z : register_value z → as_u64 z = z.
Proof. intros Hz. by apply Z.mod_small. Qed.

(** A call that answers with [n]. *)
Lemma uwp_call num a1 a2 a3 n s s' (Q : Z → option (System PT D) → Prop) X :
  register_value a1 → register_value a2 → register_value a3 → num ≠ SYS_YIELD →
  dispatch rsp stack num a1 a2 a3 s = Some (Returned n, s') → Q (as_i64 (as_u64 n)) (Some s') → uwp (kcall num a1 a2 a3) Q X (Some s).
Proof.
  intros Ha1 Ha2 Ha3 Hy E HQ. unfold uwp, call, on_system, syscall_dispatch, syscall_frame. rewrite !as_u64_register by done.
  cbn [rax rdi rsi rdx]. rewrite E. cbn [mbind option_bind rax]. by rewrite (proj2 (Z.eqb_neq num SYS_YIELD)).
Qed.

Lemma uwp_store_text bytes (Q : unit → option (System PT D) → Prop) X s :
  zlen bytes <= 4096 → in_order (Some s) → (∀ s', in_order (Some s') → Q tt (Some s')) → uwp (store_bytes rsp text bytes) Q X (Some s).
Proof.
  intros Hlen (?&[= <-]&Hk&Hroom&Hr) HQ. pose proof Hroom as (Hn&Ht&_). unfold uwp, store_bytes, on_system.
  destruct (copy_after_validation (kern s) text 4096 bytes Hk Ht Hlen) as (k'&E&Hst). rewrite E. apply HQ.
  apply in_order_intro; [|by eapply stored_room|by apply Hr..]. pose proof (stored_sound text bytes (kern s) Hk ltac:(lia)) as Hs. by rewrite E in Hs.
Qed.

Lemma write_keeps ptr len s : ∃ n s', finish (sys_write ptr len) s = Some (Returned n, s') ∧ kern s' = kern s ∧
  vfs s' = vfs s ∧ screen s' = screen s ∧ sys_input s' = sys_input s.
Proof.
  unfold finish, sys_write, mbind, M_bind, check, mensure, mlift, ensure, ask, require. destruct (len <=? MAX_WRITE_LEN); [|by eexists _, _].
  destruct (copy_from_current_user _ _ _); by eexists _, _.
Qed.

Lemma uwp_print msg (Q : unit → option (System PT D) → Prop) X s :
  zlen msg <= 4096 → in_order (Some s) → (∀ s', in_order (Some s') → Q tt (Some s')) → uwp (print msg) Q X (Some s).
Proof.
  intros Hlen Hs HQ. unfold write, path_call. uwp_step. uwp_step. apply uwp_store_text; [done|done|]. intros s' Hs'.
  destruct Hs' as (?&[= <-]&Hk&Hroom&Hr).
  destruct (write_keeps text (zlen msg) s') as (n&s2&E&Hk2&Hv&Hsc&Hi). pose proof (zlen_nonneg msg).
  pose proof Hroom as (_&(space&_&(Htext&_&_))&_).
  assert (register_value text) as Ht. { unfold USER_SPACE_BASE, user_end, USER_SPACE_BASE, USER_SPACE_SIZE in Htext. unfold register_value. lia. }
  apply (uwp_call _ _ _ _ n s' s2); [done|unfold register_value; lia|by split|done|exact E|]. apply uwp_ret, HQ. apply in_order_intro; [by rewrite Hk2|by rewrite Hk2|destruct Hr; congruence|destruct Hr as (_&?&_); congruence|destruct Hr as (_&_&?); congruence].
Qed.

Lemma uwp_report good pass fail ok (Q : bool → option (System PT D) → Prop) X s :
  good = true → zlen pass <= 4095 → in_order (Some s) → (∀ s', in_order (Some s') → Q ok (Some s')) →
  uwp (report rsp stack text away good pass fail ok) Q X (Some s).
Proof.
  intros -> Hlen Hs HQ. unfold report. uwp_step. apply uwp_print; [unfold message, newline; rewrite zlen_app; unfold zlen at 2; simpl; lia|done|].
  intros s' Hs'. by apply uwp_ret, HQ.
Qed.

(** A call with a bad pointer is refused. *)
Lemma uwp_refused what num a1 a2 a3 pass fail ok r (Q : bool → option (System PT D) → Prop) X s :
  zlen what <= 4095 → zlen pass <= 4095 → register_value a1 → register_value a2 → register_value a3 → num ≠ SYS_YIELD →
  in_order (Some s) →
  (∀ s, in_order (Some s) → r ∈ used_ranges num a1 a2 a3 s ∧ ¬ may_use (kern s) r) →
  (∀ s', in_order (Some s') → Q ok (Some s')) →
  uwp (refused rsp stack text away what num a1 a2 a3 pass fail ok) Q X (Some s).
Proof.
  intros Hw Hp Ha1 Ha2 Ha3 Hy Hs Hbad HQ. unfold refused. uwp_step.
  apply uwp_print; [unfold message, newline; rewrite zlen_app; unfold zlen at 2; simpl; lia|done|]. intros s' Hs'.
  destruct (Hbad s' Hs') as [Hr Hu]. pose proof Hs' as (?&[= <-]&Hk&_). uwp_step.
  apply (uwp_call _ _ _ _ (-1) s' s'); [done..|by apply (refused_call rsp stack num a1 a2 a3 s' r)|].
  apply uwp_report; [by vm_compute|done|done|done].
Qed.

(** The end of a program: the task is ended with the code. *)
Lemma exit_runs code s : in_order (Some s) → ∃ k', exit_with_code code rsp (kern s) = Some k' ∧ kernel_safe k'.
Proof.
  intros (?&[= <-]&Hk&(Hn&_)&_). destruct (event_runs (ExitWith code rsp) (kern s) Hk I ltac:(lia)) as (k'&E&Hr).
  exists k'. split; [done|]. destruct (runs_sound _ _ _ Hr Hk Hn) as [(l&c&r&Hinv) _]. by eapply inv_safe.
Qed.

Definition left_with (code : Z) (c : Z) (o : option (System PT D)) : Prop :=
  c = code ∧ ∃ s', o = Some s' ∧ kernel_safe (kern s') ∧ vfs s' = vfs s0 ∧ screen s' = screen s0 ∧ sys_input s' = sys_input s0.

Lemma uwp_fault {A} e code (Q : A → option (System PT D) → Prop) s : fault_code e = Some code → in_order (Some s) →
  uwp (fault rsp e) Q (left_with code) (Some s).
Proof.
  intros He Hs. destruct (exit_runs code s Hs) as (k'&E&Hk'). destruct Hs as (?&[= <-]&_&_&Hr).
  unfold uwp, fault, on_system. rewrite He. cbn [mbind option_bind]. rewrite E. split; [done|]. by exists (with_kern k' s).
Qed.

Lemma uwp_verdict {A} code (Q : A → option (System PT D) → Prop) s : 0 <= code < 256 → in_order (Some s) →
  uwp (exit rsp stack away code) Q (left_with code) (Some s).
Proof.
  intros Hc Hs. assert (as_i32 code = code) as Ec.
  { unfold as_i32, as_signed. change (2 ^ 32) with 4294967296. change (2 ^ (32 - 1)) with 2147483648.
    rewrite Z.mod_small by lia. destruct (Z.ltb_spec code 2147483648); lia. }
  destruct (exit_runs code s Hs) as (k'&E&Hk'). destruct Hs as (?&[= <-]&_&_&Hr).
  unfold exit. uwp_step. unfold uwp, call, on_system, syscall_dispatch, syscall_frame.
  rewrite (as_u64_register code) by (unfold register_value; lia). cbn [rax rdi rsi rdx]. unfold dispatch. simpl (_ =? _). cbv iota.
  unfold sys_exit. rewrite Ec, E. cbn [mbind option_bind]. split; [done|]. by exists (with_kern k' s).
Qed.

(** A load that the process may not make. *)
Lemma uwp_bad_load addr n (Q : list byte → option (System PT D) → Prop) s : in_order (Some s) →
  ¬ user_range (kern s) addr (Z.of_nat n) false → uwp (load_bytes rsp addr n) Q (left_with 139) (Some s).
Proof.
  intros Hs Hu. pose proof Hs as (?&[= <-]&Hk&_). unfold load_bytes. unfold uwp, on_system. pose proof (copy_in_spec (kern s) addr n Hk) as Hc.
  destruct (copy_from_current_user addr n (kern s)); [by destruct Hc|]. by apply (uwp_fault PageFault 139 Q s).
Qed.

(** *** Memory the program reaches *)

Lemma uwp_load addr b (Q : byte → option (System PT D) → Prop) X s : sound_kernel (kern s) →
  user_range (kern s) addr 1 false → fst <$> current_view (kern s) addr = Some b → Q b (Some s) → uwp (load rsp addr) Q X (Some s).
Proof.
  intros Hk Hu Hb HQ. unfold uwp, load, on_system. pose proof (copy_in_spec (kern s) addr 1 Hk) as Hc.
  destruct (copy_from_current_user addr 1 (kern s)) as [l|]; [|done]. destruct Hc as (_&Hl&Hv).
  destruct l as [|x [|? ?]]; [done| |done]. specialize (Hv 0%nat x eq_refl). rewrite Z.add_0_r, Hb in Hv. by injection Hv as <-.
Qed.

Lemma uwp_store addr b (Q : unit → option (System PT D) → Prop) X s : in_order (Some s) →
  user_range (kern s) addr 1 true → (∀ s', in_order (Some s') → Q tt (Some s')) → uwp (store rsp addr b) Q X (Some s).
Proof.
  intros (?&[= <-]&Hk&Hroom&Hr) Hu HQ. unfold uwp, store, store_bytes, on_system.
  destruct (copy_after_validation (kern s) addr 1 [b] Hk Hu) as (k'&E&Hst); [done|]. rewrite E. apply HQ.
  apply in_order_intro; [|by eapply stored_room|by apply Hr..].
  pose proof (stored_sound addr [b] (kern s) Hk ltac:(destruct Hroom; lia)) as Hs. by rewrite E in Hs.
Qed.

Lemma uwp_bad_store addr b (Q : unit → option (System PT D) → Prop) s : in_order (Some s) →
  ¬ user_range (kern s) addr 1 true → uwp (store rsp addr b) Q (left_with 139) (Some s).
Proof.
  intros Hs Hu. pose proof Hs as (?&[= <-]&Hk&_). unfold uwp, store, store_bytes, on_system. pose proof (copy_out_spec (kern s) addr [b] Hk) as Hc.
  destruct (copy_to_current_user addr [b] (kern s)) as [[] k']; [by destruct Hc|]. by apply (uwp_fault PageFault 139 Q s).
Qed.

Lemma uwp_bad_load_byte addr (Q : byte → option (System PT D) → Prop) s : in_order (Some s) →
  ¬ user_range (kern s) addr 1 false → uwp (load rsp addr) Q (left_with 139) (Some s).
Proof.
  intros Hs Hu. pose proof Hs as (?&[= <-]&Hk&_). unfold uwp, load, on_system. pose proof (copy_in_spec (kern s) addr 1 Hk) as Hc.
  destruct (copy_from_current_user addr 1 (kern s)); [by destruct Hc|]. by apply (uwp_fault PageFault 139 Q s).
Qed.

(** No instruction is fetched from a page that is not executable. *)
Lemma uwp_bad_fetch addr b f (Q : unit → option (System PT D) → Prop) s : in_order (Some s) →
  USER_SPACE_BASE <= addr < user_end → current_view (kern s) addr = Some (b, f) → NO_EXECUTE f = true →
  uwp (call_ret rsp addr) Q (left_with 139) (Some s).
Proof.
  intros Hs Ha Hv Hnx. pose proof Hs as (?&[= <-]&Hk&_). unfold uwp, call_ret, on_system. unfold current_view in Hv.
  destruct (current_space (kern s)) as [space|] eqn:Es; [|done]. cbn [mbind option_bind] in *.
  destruct (space_facts (kern s) space Hk Es) as (Ho&Hpt&_). rewrite translate_located by done.
  apply PagingSafety.view_located in Hv as ((frame&f')&Hl&E). rewrite Hl. simpl in E. subst f'. rewrite Hnx, andb_false_r.
  by apply (uwp_fault PageFault 139 Q s).
Qed.
End in_order.

(** *** A mapping of one page *)

Definition page_flags (writable : Z) : PageTableFlags := mk_flags true (negb (writable =? 0)) true true.

Lemma mapped_in_order gap base span fl arena writable s a o : in_order gap base span fl arena (Some s) → register_value writable →
  kcall SYS_MMAP 4096 writable 0 (Some s) = (Returns a, o) → 0 <= a →
  USER_MMAP_BASE <= a ∧ a + 4096 <= USER_MMAP_LIMIT ∧ a mod 4096 = 0 ∧ (text + 4096 <= a ∨ a + 4096 <= text) ∧ arena = Some a ∧
  ∃ s', o = Some s' ∧ in_order (λ x, gap x ∧ ¬ a <= x < a + 4096) a 4096 (Some (page_flags writable)) (Some (a + 4096)) (Some s') ∧
    ∀ x, a <= x < a + 4096 → fst <$> current_view (kern s') x = Some Byte.x00.
Proof.
  intros (?&[= <-]&Hk&(Hn&Htext&_&Har0&Hgap)&Hr) Hw. unfold call, on_system, syscall_dispatch, syscall_frame.
  rewrite (as_u64_register writable), (as_u64_register 4096) by (done || unfold register_value; lia). cbn [rax rdi rsi rdx].
  unfold dispatch. simpl (_ =? _). cbv iota. unfold sys_mmap.
  destruct (mmap_in_current_process _ _ _ _ _) as [[[out fa] k]|] eqn:E; [|done]. cbn [mbind option_bind].
  destruct out as [[start|]|]; cbn [rax]; intros E2 Ha; [|exfalso; injection E2 as <- _; by vm_compute in Ha|done].
  apply mmap_call in E as (Hk'&Hid&Hstart&Har&Hsp&Hal&Hlo&Hhi&Hview); [|done|lia|lia].
  change (4096 * page_count 4096) with 4096 in *. assert (0 <= USER_MMAP_BASE ∧ USER_MMAP_LIMIT < 4611686018427387904) as [??] by done.
  assert (as_i64 (as_u64 (as_i64 start)) = start) as Es.
  { unfold as_i64, as_signed, as_u64. change (2 ^ (64 - 1)) with 9223372036854775808. change (2 ^ 64) with 18446744073709551616.
    rewrite (Z.mod_small start) by lia. destruct (Z.ltb_spec start 9223372036854775808); [|lia]. rewrite !(Z.mod_small start) by lia.
    destruct (Z.ltb_spec start 9223372036854775808); lia. }
  rewrite Es in E2. injection E2 as <- <-. do 3 (split; [done|]). split.
  { destruct (decide (text + 4096 <= start ∨ start + 4096 <= text)) as [?|Hov]; [done|]. exfalso.
    rewrite user_range_views in Htext. destruct Htext as (_&_&_&Hall). destruct (Hall (Z.max text start)) as (b&f&Hv&_); [lia|].
    specialize (Hview (Z.max text start)). rewrite decide_True in Hview by lia. destruct Hview. congruence. }
  split; [congruence|]. eexists. split; [done|].
  assert (∀ x, start <= x < start + 4096 → current_view k x = Some (Byte.x00, page_flags writable)) as Hpage.
  { intros x Hx. specialize (Hview x). rewrite decide_True in Hview by done. destruct Hview as (_&b&f&->&->&->).
    unfold page_flags. by destruct (writable =? 0). }
  split; [|intros x Hx; cbn [kern with_fail_after with_kern]; by rewrite Hpage].
  apply in_order_intro; cbn [kern with_fail_after with_kern]; [done| |by apply Hr..]. split; [lia|]. split; [|split; [|split; [done|]]].
  - rewrite user_range_views in *. destruct Htext as (_&Hb&He&Hall). do 3 (split; [done|]). intros x Hx.
    destruct (Hall x Hx) as (b&f&Hv&Hf). specialize (Hview x). case_decide; [destruct Hview; congruence|]. rewrite Hview. by eexists _, _.
  - intros x Hx. by rewrite Hpage.
  - intros x [Hx Hout]. specialize (Hview x). rewrite decide_False in Hview by done. rewrite Hview. by apply Hgap.
Qed.

(** A refused mapping changes nothing a program sees. *)
Lemma refused_in_order gap base span fl arena writable s a o : in_order gap base span fl arena (Some s) → register_value writable →
  kcall SYS_MMAP 4096 writable 0 (Some s) = (Returns a, o) → a < 0 → in_order gap base span fl arena o.
Proof.
  intros (?&[= <-]&Hk&(Hn&Htext&Hv&Har&Hgap)&Hr) Hw. unfold call, on_system, syscall_dispatch, syscall_frame.
  rewrite (as_u64_register writable), (as_u64_register 4096) by (done || unfold register_value; lia). cbn [rax rdi rsi rdx].
  unfold dispatch. simpl (_ =? _). cbv iota. unfold sys_mmap.
  destruct (mmap_in_current_process _ _ _ _ _) as [[[out fa] k]|] eqn:E; [|done]. cbn [mbind option_bind].
  destruct out as [[start|]|]; cbn [rax]; intros E2 Ha; [exfalso| |done].
  - apply mmap_call in E as (_&_&_&_&_&_&Hlo&Hhi&_); [|done|lia|lia]. change (4096 * page_count 4096) with 4096 in *.
    assert (0 <= USER_MMAP_BASE ∧ USER_MMAP_LIMIT < 4611686018427387904) as [??] by done.
    injection E2 as <- _. revert Ha. unfold as_i64, as_signed, as_u64. change (2 ^ (64 - 1)) with 9223372036854775808. change (2 ^ 64) with 18446744073709551616.
    rewrite (Z.mod_small start) by lia. destruct (Z.ltb_spec start 9223372036854775808); [|lia]. rewrite !(Z.mod_small start) by lia.
    destruct (Z.ltb_spec start 9223372036854775808); lia.
  - injection E2 as _ <-. apply mmap_call_refused in E as (Hk'&Hid&Har'&Hsp&Hview); [|done|lia|lia].
    apply in_order_intro; cbn [kern with_fail_after with_kern]; [done| |by apply Hr..]. split; [lia|]. split; [|split; [|split]].
    + rewrite user_range_views in *. destruct Htext as (Hs&Hb&He&Hall). split; [by apply Hsp|]. do 2 (split; [done|]). intros x Hx. rewrite Hview. by apply Hall.
    + intros x Hx. rewrite Hview. by apply Hv.
    + congruence.
    + intros x Hx. rewrite Hview. by apply Hgap.
Qed.

Lemma uwp_begins {T A B} (m : U T A) (f : A → U T B) (Q : B → T → Prop) X t a t' :
  m t = (Returns a, t') → uwp (f a) Q X t' → uwp (m ≫= f) Q X t.
Proof. intros E Hf. apply uwp_bind. unfold uwp. by rewrite E. Qed.

End every_machine.

Section claims.
Context {PT D : Type} `{!BootMap, !KernelFrames, !X86Addr, !X86AddrSpec, !X86_64 PT, !X86_64Spec PT USER_REGION_PML4_INDEX} `{BlockDeviceSpec D}.
Context (rsp stack text : Z) (away : System PT D → System PT D).
Implicit Types (s : System PT D) (k : Kernel PT).

Lemma ends_with_uwp {A} code (p : U (option (System PT D)) A) s :
  uwp p (λ _ _, False) (left_with s code) (Some s) → ends_with code p s.
Proof.
  unfold uwp, left_with, ends_with. destruct (p (Some s)) as [[a|c|] o]; [done| |done]. intros (->&s'&->&?). by exists s'.
Qed.

(** Nothing is mapped at the address the tests take for one. *)
Definition hole k : Prop := ∀ a, UNMAPPED_USER_ADDR <= a < UNMAPPED_USER_ADDR + 16 → current_view k a = None.
Definition nothing (x : Z) : Prop := False.
Notation settled s := (in_order text s nothing UNMAPPED_USER_ADDR 16 None (current_arena (kern s)) (Some s)).

Lemma outside_user_region k addr len w : ¬ (USER_SPACE_BASE <= addr < user_end ∧ addr + len <= user_end) → ¬ user_range k addr len w.
Proof. intros Hn (space&_&?&?&_). tauto. Qed.

Lemma unmapped_range s0 gap arena s addr len w : in_order text s0 gap UNMAPPED_USER_ADDR 16 None arena (Some s) →
  addr = UNMAPPED_USER_ADDR → 0 < len → ¬ user_range (kern s) addr len w.
Proof.
  intros (?&[= <-]&_&(_&_&Hu&_)&_) -> Hlen (_&_&_&Hall)%user_range_views. destruct (Hall UNMAPPED_USER_ADDR) as (b&fl&E&_); [lia|].
  specialize (Hu UNMAPPED_USER_ADDR ltac:(lia)). by rewrite E in Hu.
Qed.

(** A WRITE of a range outside the region of programs, or in the hole. *)
Ltac refused_step :=
  eapply uwp_refused; [by vm_compute|by vm_compute|by split|by split|by split|done|eassumption| |];
  [let s1 := fresh "s" in let Hs1 := fresh "Hs" in intros s1 Hs1; split; [by apply list_elem_of_singleton|];
   first [apply outside_user_region; by vm_compute; intros [[] []]|eapply (unmapped_range _ _ _ _ _ 16 false Hs1); done]
  |let s1 := fresh "s" in let Hs1 := fresh "Hs" in intros s1 Hs1].

Lemma bad_pointer_calls_pass s0 gap arena s : in_order text s0 gap UNMAPPED_USER_ADDR 16 None arena (Some s) →
  uwp (bad_pointer_calls rsp stack text away true)
    (λ ok o, ok = true ∧ in_order text s0 gap UNMAPPED_USER_ADDR 16 None arena o) (λ _ _, False) (Some s).
Proof.
  intros Hs. unfold bad_pointer_calls.
  repeat (first [uwp_step; refused_step|refused_step]). done.
Qed.

(** A line is printed. *)
Ltac print_step := uwp_step; (eapply uwp_print; [by vm_compute|eassumption|]);
  let s1 := fresh "s" in let Hs1 := fresh "Hs" in intros s1 Hs1.

Lemma in_order_hole s : sound_kernel (kern s) → next_id (kern s) + 2 <= u32_max → user_range (kern s) text 4096 true → hole (kern s) → settled s.
Proof. intros ??? Hh. apply in_order_intro; [done| |done..]. split_and!; [done|done| |done|done]. intros a Ha. by rewrite Hh. Qed.

(** A page that was granted, and the range of one of its bytes. *)
Lemma granted_byte k a x (f : PageTableFlags) w : current_space k ≠ None → USER_MMAP_BASE <= a → a + 4096 <= USER_MMAP_LIMIT →
  (∀ y, a <= y < a + 4096 → snd <$> current_view k y = Some f) → a <= x < a + 4096 → user_range k x 1 w ↔ allowed w f = true.
Proof.
  intros Hs Hlo Hhi Hall Hx. assert (USER_SPACE_BASE <= USER_MMAP_BASE ∧ USER_MMAP_LIMIT <= user_end) as [??] by done.
  rewrite user_range_views. specialize (Hall x Hx). destruct (current_view k x) as [[b f']|] eqn:Ev; [|done]. injection Hall as ->. split.
  - intros (_&_&_&Hv). destruct (Hv x) as (b'&f2&E&?); [lia|]. congruence.
  - intros Hf. do 3 (split; [done || lia|]). intros y Hy. assert (y = x) as -> by lia. by exists b, f.
Qed.

Lemma text_space k : user_range k text 4096 true → current_space k ≠ None.
Proof. by intros (?&?&_)%user_range_views. Qed.

Lemma unmapped_in_order s0 gap a s2 : USER_MMAP_BASE <= a → a + 4096 <= USER_MMAP_LIMIT → a mod 4096 = 0 → text + 4096 <= a ∨ a + 4096 <= text →
  in_order text s0 gap a 4096 (Some (page_flags 1)) (Some (a + 4096)) (Some s2) →
  ∃ s3, call rsp stack away SYS_MUNMAP a 4096 0 (Some s2) = (Returns 0, Some s3) ∧
    in_order text s0 gap a 4096 None (current_arena (kern s3)) (Some s3).
Proof.
  intros Hlo Hhi Hal Hdis (?&[= <-]&Hk2&(Hn2&Ht2&Hv2&Ha2&Hg2)&Hr). assert (0 <= USER_MMAP_BASE ∧ USER_MMAP_LIMIT < 4611686018427387904) as [??] by done.
  destruct (munmap_call a 4096 rsp (kern s2) (a + 4096)) as (k'&E&Hk'&Hid&Hsp&Hv'); [done|lia|lia|lia|done|done|done|done|lia| |].
  { intros x Hx. specialize (Hv2 x Hx). destruct (current_view (kern s2) x) as [[b f]|]; [|done]. injection Hv2 as ->. by exists b, (page_flags 1). }
  exists (with_kern k' s2). split.
  - unfold call, on_system, syscall_dispatch, syscall_frame. rewrite (as_u64_register a), (as_u64_register 4096) by (unfold register_value; lia).
    cbn [rax rdi rsi rdx]. unfold dispatch. simpl (_ =? _). cbv iota. unfold sys_munmap. by rewrite E.
  - apply in_order_intro; [done| |by apply Hr..]. cbn [kern with_kern]. split; [lia|]. split; [|split; [|split; [done|]]].
    + rewrite user_range_views in *. destruct Ht2 as (_&?&?&Hall). do 3 (split; [done|]). intros x Hx. rewrite Hv', decide_False by lia. by apply Hall.
    + intros x Hx. by rewrite Hv', decide_True.
    + intros x Hx. rewrite Hv'. case_decide; [done|]. by apply Hg2.
Qed.

(** The part of bad_pointer.rs before it asks for a page. *)
Definition bad_pointer_asks : U (option (System PT D)) bool :=
  ok ← bad_pointer_calls rsp stack text away true;
  _ ← write rsp stack text away (message (bs "bad_pointer: WRITE range crossing from mapped into unmapped page"));
  mret ok.

(** Nothing is mapped in the page after the next one of the arena. *)
Definition gap_after_next k : Prop :=
  ∀ n, current_arena k = Some n → ∀ x, n + 4096 <= x < n + 8192 → current_view k x = None.
Definition arena_gap k (x : Z) : Prop := ∃ n, current_arena k = Some n ∧ n + 4096 <= x < n + 8192.

Lemma bad_pointer_asks_pass s0 gap arena s : in_order text s0 gap UNMAPPED_USER_ADDR 16 None arena (Some s) →
  uwp bad_pointer_asks (λ ok o, ok = true ∧ in_order text s0 gap UNMAPPED_USER_ADDR 16 None arena o) (λ _ _, False) (Some s).
Proof.
  intros Hs. unfold bad_pointer_asks. uwp_step. eapply uwp_mono; [by eapply bad_pointer_calls_pass| |done]. simpl.
  intros ok o [-> Ho]. pose proof Ho as (s'&->&_). uwp_step. eapply uwp_print; [by vm_compute|exact Ho|]. intros s2 Hs2. by apply uwp_ret.
Qed.

(** The crossing, granted or not. *)
Lemma bad_pointer_granted s0 arena s1 a o (Q : unit → option (System PT D) → Prop) :
  in_order text s0 (arena_gap (kern s0)) UNMAPPED_USER_ADDR 16 None arena (Some s1) → arena = current_arena (kern s0) →
  call rsp stack away SYS_MMAP 4096 1 0 (Some s1) = (Returns a, o) → 0 <= a →
  uwp (ok ← (result ← call rsp stack away SYS_WRITE (a + 4092) 8 0;
             ok ← report rsp stack text away (result <? 0) (bs "bad_pointer: mapped-to-unmapped cross-page range rejected -- OK")
                    (bs "bad_pointer: UNEXPECTED -- cross-page invalid range was accepted") true;
             _ ← call rsp stack away SYS_MUNMAP a 4096 0;
             mret ok);
       verdict rsp stack away ok) Q (left_with s0 0) o.
Proof.
  intros Hs1 -> E Ha.
  destruct (mapped_in_order rsp stack text away s0 _ _ _ _ _ 1 s1 a o Hs1 ltac:(done) E Ha) as (Hlo&Hhi&Hal&Hdis&Har&s2&->&Hs2&_).
  pose proof Hs2 as (?&[= <-]&Hk2&Hroom2&_). assert (0 <= USER_MMAP_BASE ∧ USER_MMAP_LIMIT < 4611686018427387904) as [??] by done.
  uwp_step. uwp_step. apply (uwp_call _ _ _ _ _ _ _ (-1) s2 s2); [unfold register_value; lia|by split|by split|done| |].
  { apply (refused_call rsp stack SYS_WRITE (a + 4092) 8 0 s2 (a + 4092, 8, false)); [done|by split|by split|by apply list_elem_of_singleton|].
    intros (_&_&_&Hall)%user_range_views. destruct (Hall (a + 4096)) as (b&f&Hv&_); [simpl; lia|].
    destruct Hroom2 as (_&_&_&_&Hg). rewrite Hg in Hv; [done|]. split; [|lia]. exists a. split; [done|lia]. }
  uwp_step. eapply uwp_report; [by vm_compute|by vm_compute|exact Hs2|]. intros s3 Hs3.
  destruct (unmapped_in_order s0 _ a s3 Hlo Hhi Hal Hdis Hs3) as (s4&E4&Hs4). eapply uwp_begins; [exact E4|]. apply uwp_ret.
  by eapply uwp_verdict.
Qed.

Lemma bad_pointer_ends s : sound_kernel (kern s) → next_id (kern s) + 2 <= u32_max → user_range (kern s) text 4096 true → hole (kern s) →
  gap_after_next (kern s) →
  ∃ s1, bad_pointer_asks (Some s) = (Returns true, Some s1) ∧
    ∀ a o, call rsp stack away SYS_MMAP 4096 1 0 (Some s1) = (Returns a, o) →
      ends_with (if 0 <=? a then 0 else 1) (bad_pointer rsp stack text away) s.
Proof.
  intros Hk Hn Ht Hh Hg.
  assert (in_order text s (arena_gap (kern s)) UNMAPPED_USER_ADDR 16 None (current_arena (kern s)) (Some s)) as Hs.
  { apply in_order_intro; [done| |done..]. split_and!; [done|done| |done|]; [intros a Ha; by rewrite Hh|].
    intros x (n&En&Hx). by apply (Hg n). }
  pose proof (bad_pointer_asks_pass s _ _ s Hs) as Hasks. unfold uwp in Hasks.
  destruct (bad_pointer_asks (Some s)) as [[ok|c|] o1] eqn:Ea; [|done..]. destruct Hasks as [-> Hs1]. pose proof Hs1 as (s1&->&_).
  exists s1. split; [done|]. intros a o E. apply ends_with_uwp.
  assert (bad_pointer rsp stack text away (Some s) = (ok ← bad_pointer_asks;
    ok ← (mapped ← call rsp stack away SYS_MMAP 4096 1 0;
          if mapped <? 0 then _ ← write rsp stack text away (message (bs "bad_pointer: UNEXPECTED -- scratch mmap failed")); mret false
          else
            result ← call rsp stack away SYS_WRITE (mapped + 4092) 8 0;
            ok ← report rsp stack text away (result <? 0) (bs "bad_pointer: mapped-to-unmapped cross-page range rejected -- OK")
                   (bs "bad_pointer: UNEXPECTED -- cross-page invalid range was accepted") ok;
            _ ← call rsp stack away SYS_MUNMAP mapped 4096 0;
            mret ok);
    verdict rsp stack away ok) (Some s)) as Ebp.
  { unfold bad_pointer, bad_pointer_asks, bad_pointer_crossing, mbind, U_bind. destruct (bad_pointer_calls _ _ _ _ _ _) as [[?|?|] ?]; [|done..].
    destruct (write _ _ _ _ _ _) as [[?|?|] ?]; done. }
  unfold uwp. rewrite Ebp. change (uwp (ok ← bad_pointer_asks;
    ok ← (mapped ← call rsp stack away SYS_MMAP 4096 1 0;
          if mapped <? 0 then _ ← write rsp stack text away (message (bs "bad_pointer: UNEXPECTED -- scratch mmap failed")); mret false
          else
            result ← call rsp stack away SYS_WRITE (mapped + 4092) 8 0;
            ok ← report rsp stack text away (result <? 0) (bs "bad_pointer: mapped-to-unmapped cross-page range rejected -- OK")
                   (bs "bad_pointer: UNEXPECTED -- cross-page invalid range was accepted") ok;
            _ ← call rsp stack away SYS_MUNMAP mapped 4096 0;
            mret ok);
    verdict rsp stack away (A := unit) ok) (λ _ _, False) (left_with s (if 0 <=? a then 0 else 1)) (Some s)).
  eapply uwp_begins; [exact Ea|]. destruct (Z.leb_spec 0 a) as [Ha|Ha].
  - pose proof (bad_pointer_granted s _ s1 a o (λ _ _, False) Hs1 eq_refl E Ha) as Hg2. unfold uwp in Hg2 |- *.
    unfold mbind at 1 2, U_bind at 1 2. unfold mbind at 1, U_bind at 1 in Hg2. rewrite E, (proj2 (Z.ltb_ge a 0)) by done. exact Hg2.
  - uwp_step. eapply uwp_begins; [exact E|]. rewrite (proj2 (Z.ltb_lt a 0)) by done.
    pose proof (refused_in_order rsp stack text away s _ _ _ _ _ 1 s1 a o Hs1 ltac:(done) E Ha) as Hs2. pose proof Hs2 as (s2&->&_).
    uwp_step. eapply uwp_print; [by vm_compute|exact Hs2|]. intros s3 Hs3. apply uwp_ret. by eapply uwp_verdict.
Qed.

Section fresh.
Context (s : System PT D) (Hk : sound_kernel (kern s)) (Hn : next_id (kern s) + 2 <= u32_max) (Ht : user_range (kern s) text 4096 true).

Lemma free_to_run : in_order text s nothing 0 0 None (current_arena (kern s)) (Some s).
Proof using All. apply in_order_intro; [done| |done..]. split_and!; [done|done|intros a Ha; lia|done|done]. Qed.

Lemma bad_syscall_ends : ends_with 0 (bad_syscall rsp stack text away) s.
Proof using All.
  pose proof free_to_run as Hs. apply ends_with_uwp. unfold bad_syscall. print_step. uwp_step.
  apply (uwp_call _ _ _ _ _ _ _ (-1) s0 s0); [done..|]. uwp_step. eapply uwp_report; [done|by vm_compute|eassumption|].
  intros s1 Hs1. by eapply uwp_verdict.
Qed.

(** A line and a fault. *)
Lemma line_and_fault {A} msg e code (rest : unit → U (option (System PT D)) A) : fault_code e = Some code → zlen msg <= 4095 →
  ends_with code (_ ← write rsp stack text away (message msg); (fault rsp e ≫= rest)) s.
Proof using All.
  intros He Hm. pose proof free_to_run as Hs. apply ends_with_uwp. uwp_step. eapply uwp_print; [|eassumption|].
  { unfold message, newline. rewrite zlen_app. unfold zlen at 2. simpl. lia. }
  intros s1 Hs1. uwp_step. by eapply uwp_fault.
Qed.

Lemma tuwaiq_ai_fault_ends : ends_with 132 (tuwaiq_ai_fault rsp stack text away) s.
Proof using All.
  pose proof free_to_run as Hs. apply ends_with_uwp. unfold tuwaiq_ai_fault. print_step. by eapply (uwp_fault _ _ _ _ _ _ _ _ InvalidOpcode).
Qed.

Lemma bad_load_ends {A} msg addr n (rest : list byte → U (option (System PT D)) A) : zlen msg <= 4095 →
  (∀ s1, in_order text s nothing UNMAPPED_USER_ADDR 16 None (current_arena (kern s)) (Some s1) → ¬ user_range (kern s1) addr (Z.of_nat n) false) →
  hole (kern s) →
  ends_with 139 (_ ← write rsp stack text away (message msg); (load_bytes rsp addr n ≫= rest)) s.
Proof using All.
  intros Hm Hbad Hh. apply ends_with_uwp. uwp_step. eapply uwp_print; [|by apply in_order_hole|].
  { unfold message, newline. rewrite zlen_app. unfold zlen at 2. simpl. lia. }
  intros s1 Hs1. uwp_step. eapply uwp_bad_load; [done|by apply Hbad].
Qed.

(** Without the page a test gives up. *)
Lemma refused_ends {A} writable a o msg (rest : Z → U (option (System PT D)) A) : register_value writable → zlen msg <= 4095 →
  call rsp stack away SYS_MMAP 4096 writable 0 (Some s) = (Returns a, o) → a < 0 →
  ends_with 1 (addr ← call rsp stack away SYS_MMAP 4096 writable 0;
               if addr <? 0 then unexpected rsp stack text away msg else rest addr) s.
Proof using All.
  intros Hw Hm E Ha. pose proof (refused_in_order rsp stack text away s _ _ _ _ _ writable s a o free_to_run Hw E Ha) as Hs. pose proof Hs as (s1&->&_).
  apply ends_with_uwp. eapply uwp_begins; [exact E|]. rewrite (proj2 (Z.ltb_lt a 0)) by done. unfold unexpected. uwp_step.
  eapply uwp_print; [|exact Hs|].
  { unfold message, newline. rewrite zlen_app. unfold zlen at 2. simpl. lia. }
  intros s2 Hs2. by eapply uwp_verdict.
Qed.

Section granted.
Context (a : Z) (o : option (System PT D)).

Lemma mmap_nx_fault_ends : call rsp stack away SYS_MMAP 4096 1 0 (Some s) = (Returns a, o) → 0 <= a →
  ends_with 139 (mmap_nx_fault rsp stack text away) s.
Proof using All.
  intros E Ha. destruct (mapped_in_order rsp stack text away s _ _ _ _ _ 1 s a o free_to_run ltac:(done) E Ha) as (Hlo&Hhi&_&_&_&s1&->&Hs1&_).
  apply ends_with_uwp. unfold mmap_nx_fault. eapply uwp_begins; [exact E|]. rewrite (proj2 (Z.ltb_ge a 0)) by done.
  assert (∀ s', in_order text s (λ x, nothing x ∧ ¬ a <= x < a + 4096) a 4096 (Some (page_flags 1)) (Some (a + 4096)) (Some s') →
    user_range (kern s') a 1 true ∧ ∃ b, current_view (kern s') a = Some (b, page_flags 1)) as Hpage.
  { intros s' (?&[= <-]&_&(_&Ht'&Hv&_)&_). split.
    - apply (granted_byte _ a a (page_flags 1)); [by apply text_space|done|done|done|lia|done].
    - specialize (Hv a ltac:(lia)). destruct (current_view _ a) as [[b f]|]; [|done]. injection Hv as ->. by exists b. }
  uwp_step. eapply uwp_store; [exact Hs1|by apply Hpage|]. intros s2 Hs2. print_step. print_step. destruct (Hpage _ Hs0) as (_&b&Hb).
  uwp_step. eapply uwp_bad_fetch; [done| |exact Hb|done]. assert (USER_SPACE_BASE <= USER_MMAP_BASE ∧ USER_MMAP_LIMIT <= user_end) as [??] by done. lia.
Qed.

Lemma mmap_ro_fault_ends : call rsp stack away SYS_MMAP 4096 0 0 (Some s) = (Returns a, o) → 0 <= a →
  ends_with 139 (mmap_ro_fault rsp stack text away) s.
Proof using All.
  intros E Ha. destruct (mapped_in_order rsp stack text away s _ _ _ _ _ 0 s a o free_to_run ltac:(done) E Ha) as (Hlo&Hhi&_&_&_&s1&->&Hs1&Hz).
  apply ends_with_uwp. unfold mmap_ro_fault. eapply uwp_begins; [exact E|]. rewrite (proj2 (Z.ltb_ge a 0)) by done.
  assert (∀ s' x w, in_order text s (λ x, nothing x ∧ ¬ a <= x < a + 4096) a 4096 (Some (page_flags 0)) (Some (a + 4096)) (Some s') → a <= x < a + 4096 →
    user_range (kern s') x 1 w ↔ w = false) as Hpage.
  { intros s' x w (?&[= <-]&_&(_&Ht'&Hv&_)&_) Hx.
    rewrite (granted_byte _ a x (page_flags 0)); [by destruct w|by apply text_space|done|done|done|done]. }
  pose proof Hs1 as (?&[= <-]&Hk1&_).
  uwp_step. eapply uwp_load; [done|apply Hpage; [done|lia|done]|apply Hz; lia|]. uwp_step. change (b2z Byte.x00 =? 0) with true. cbv iota.
  uwp_step. eapply uwp_load; [done|apply Hpage; [done|lia|done]|apply Hz; lia|]. apply uwp_ret. change (b2z Byte.x00 =? 0) with true. cbn [negb].
  print_step. print_step. uwp_step. eapply uwp_bad_store; [done|]. rewrite Hpage; [done|done|lia].
Qed.

Lemma post_unmap_fault_ends : call rsp stack away SYS_MMAP 4096 1 0 (Some s) = (Returns a, o) → 0 <= a →
  ends_with 139 (post_unmap_fault rsp stack text away) s.
Proof using All.
  intros E Ha. destruct (mapped_in_order rsp stack text away s _ _ _ _ _ 1 s a o free_to_run ltac:(done) E Ha) as (Hlo&Hhi&Hal&Hdis&_&s1&->&Hs1&_).
  apply ends_with_uwp. unfold post_unmap_fault. eapply uwp_begins; [exact E|]. rewrite (proj2 (Z.ltb_ge a 0)) by done.
  uwp_step. eapply uwp_store; [exact Hs1| |].
  { pose proof Hs1 as (?&[= <-]&_&(_&Ht'&Hv&_)&_). apply (granted_byte _ a a (page_flags 1)); [by apply text_space|done|done|done|lia|done]. }
  intros s2 Hs2. destruct (unmapped_in_order s _ a s2 Hlo Hhi Hal Hdis Hs2) as (s3&E3&Hs3). eapply uwp_begins; [exact E3|]. change (negb (0 =? 0)) with false. cbv iota.
  print_step. print_step. uwp_step. match goal with Hs : in_order _ _ _ _ _ None _ (Some ?s') |- uwp _ _ _ (Some ?s') =>
    eapply uwp_bad_load_byte; [exact Hs|]; destruct Hs as (?&[= <-]&_&(_&_&Hgone&_)&_) end.
  intros (_&_&_&Hv)%user_range_views. destruct (Hv a) as (b&f&Eb&_); [lia|]. specialize (Hgone a ltac:(lia)). by rewrite Eb in Hgone.
Qed.
End granted.
End fresh.

End claims.

(** ** The programs on a machine *)

Module TestSample.
#[local] Existing Instance sim_addr.
#[local] Existing Instance sim_addr_spec.
#[local] Existing Instance sim_x86.
#[local] Existing Instance PagingSafety.Sample.sample_spec.
#[local] Existing Instance PagingSafety.Sample.sample_map.
#[local] Existing Instance PagingSafety.Sample.sample_heap.

(** One program beside the tasks of the kernel, which is its process 4. *)
Definition events (name cwd : str) : list Event :=
  SpawnUser name ElfSample.program cwd false 0x9000 :: replicate 3 (YieldNow 0x100).
Definition kernel (name cwd : str) : Kernel sim_pt := default (unstarted PagingSafety.Sample.machine) (TaskSample.start (events name cwd)).

Definition volume : vfs_state sim_disk :=
  foldl (λ v '(op, path), (vfs_run op [slash] path v).2) w_vfs
    [(VCreateDir, bs "/data"); (VCreateDir, bs "/data/file-mutation-test"); (VCreateDir, bs "/phase6-test"); (VWrite (bs "phase6-data"), bs "/phase6-test/data.txt")].
Definition panel : Screen := mk_screen (mk_fb 4800 40 40 40 3 Rgb) (replicate 4800 Byte.x00).
Definition machine (name cwd : str) (fail_after : Z) : System sim_pt sim_disk :=
  mk_sys (kernel name cwd) (mk_keyboard false false false 4 []) (mk_input [mk_queued (KeyDown 90) 5] 1 0 0 0 0 0) volume (Some panel) [] fail_after.

(** The tasks take turns until the program is back, with a tick for each. *)
Definition turns (s : System sim_pt sim_disk) : System sim_pt sim_disk :=
  Nat.iter 6 (λ s, if bool_decide (current_task_id (kern s) = Some 4) then s
    else match kernel_step (YieldNow 0x100) (kern s) with Some k => with_kern k s | None => s end)
    (match kernel_step (TimerInterrupt 0x100) (kern s) with Some k => with_kern k s | None => s end).

Definition TEXT : Z := Process.stack_bottom.
Definition LOCALS : Z := Process.stack_bottom + 0x1000.
Notation run p := (p 0x400 0x12000 TEXT turns).
Notation run_locals p := (p 0x400 0x12000 TEXT LOCALS turns).

(** How a program ends, and what it has printed. *)
Definition outcome_of {A} (p : U (option (System sim_pt sim_disk)) A) (s : System sim_pt sim_disk) : ending A * option (list byte) :=
  let '(e, o) := p (Some s) in (e, serial <$> o).
Definition small (fail_after : Z) : System sim_pt sim_disk := machine (bs "one") (bs "/") fail_after.

(** The tests of the repository pass on it (those of files under the names and in
    the directory the shell starts them with). mmap_partial_failure passes too,
    but takes minutes: it reads 64 KiB byte by byte. mmap_exhaustion needs ticks
    during its calls. *)
Example programs_pass :
  (outcome_of (run hello) (small u64_max)).1 = Exits 0 ∧
  (outcome_of (run (λ a b c d, desktop_peer a b c d 500)) (small u64_max)).1 = Exits 0 ∧
  (outcome_of (run tuwaiq_ai) (small u64_max)).1 = Exits 0 ∧
  (outcome_of (run bad_syscall) (small u64_max)).1 = Exits 0 ∧
  (outcome_of (run bad_pointer) (small u64_max)).1 = Exits 0 ∧
  (outcome_of (run bad_mmap) (small u64_max)).1 = Exits 0 ∧
  (outcome_of (run bad_munmap) (small u64_max)).1 = Exits 0 ∧
  (outcome_of (run_locals bad_input) (small u64_max)).1 = Exits 0 ∧
  (outcome_of (run_locals bad_display) (small u64_max)).1 = Exits 0 ∧
  (outcome_of (run_locals file_api_test) (machine (bs "file-api-test") (bs "/phase6-test") u64_max)).1 = Exits 0 ∧
  (outcome_of (run_locals file_mutation_test) (machine (bs "file-mutation-test") (bs "/") u64_max)).1 = Exits 0.
Proof. split_and!; vm_compute; reflexivity. Qed.

Example hello_says :
  outcome_of (run hello) (small u64_max) =
  (Exits 0, Some (message (bs "hello: Ring 3 ELF process alive") ++ message (bs "hello: my pid is 4") ++
                  message (bs "hello: resumed after yield, exiting cleanly"))).
Proof. vm_compute. reflexivity. Qed.

(** A second process may not write where the first may. *)
Example namespace_is_private :
  outcome_of (run_locals file_mutation_test) (small u64_max) = (Exits 1, Some (bs "file-mutation: mkdir FAIL" ++ newline)).
Proof. vm_compute. reflexivity. Qed.

Lemma small_reached : system_reachable (small u64_max).
Proof.
  unfold system_reachable. apply TaskSample.start_reachable; [|by vm_compute]. unfold events. apply Forall_cons. split; [apply canonical_root|].
  by repeat constructor.
Qed.

Definition unmapped_all (k : Kernel sim_pt) (xs : list Z) : bool := forallb (λ x, match current_view k x with None => true | Some _ => false end) xs.
Lemma unmapped_all_spec k lo n x : unmapped_all k (seqZ lo n) = true → lo <= x < lo + n → current_view k x = None.
Proof.
  unfold unmapped_all. rewrite forallb_forall. intros Hall Hx. specialize (Hall x). rewrite <- list_elem_of_In, elem_of_seqZ in Hall.
  specialize (Hall Hx). by destruct (current_view k x).
Qed.
Lemma small_unmapped : unmapped_all (kern (small u64_max)) (seqZ 0x700010001000 4096) = true.
Proof. vm_compute. reflexivity. Qed.

End TestSample.
